(* ===== verification/_CoqProject ===== *)
-Q . S2P
Prelude.v
Headers.v
Rabin.v
PatchDelta.v
DeltaIndex.v
CreateDelta.v
Ewah.v
EwahRead.v
EwahXor.v
EwahBitmap.v
EwahSpec.v
Heaps.v
PrioQueue.v
StableSort.v
HashLookup.v
Varint.v
BlockHash.v
Sha1.v
Sha256.v
HexLl.v
Strbuf.v
StrbufText.v
StrbufLines.v
Url.v
Base85.v
Hex.v
Quote.v
QuoteC.v
StringList.v
Strvec.v
Levenshtein.v
Hashmap.v
EwahIo.v
Wildmatch.v
OidArray.v
SpanHash.v
CbTree.v
ReftableBasics.v
ReftableRecord.v
ReftableBlock.v
ReftablePq.v
ReftableIter.v
ReftableMerged.v
XdiffFile.v
XdiffUtils.v
XdiffSplit.v
XdiffCmp.v
XdiffPrepare.v
XdiffRange.v
XdiffHistogram.v
XdiffPatience.v
XdiffDo.v
XdiffCompact.v
XdiffScript.v
XdiffHunk.v
XdiffEmit.v
