(* ===== verification/Prelude.v ===== *)
(** * Verification of git's core library

    The repository holds a mending tool for C sources and, as the data set it is
    evaluated on, the C files of five projects.  This development verifies the
    part of that C code with the most self-contained logic: the core library of
    git, under src/repos/repos_output/dataset/projects/git_git_master.  C file
    names below are relative to that directory.

    ** Files and what they model

    - [Prelude]: machine integers as [Z] with the wrap written out, the
      [outcome] monad, memory, loops, comparison functions, and the lemmas and
      tactics all other files share.
    - [Headers]: what the C files take from headers that are not in the
      repository, as classes of operations with classes of laws.
    - Deltas, the format of packed objects: [Rabin] and [DeltaIndex] model the
      rolling fingerprint and the source index of diff-delta.c, [CreateDelta] the
      encoder, [PatchDelta] the decoder in patch-delta.c.
    - Bitmaps of reachable objects: [Ewah], [EwahRead] and [EwahXor] model the
      compressed bitmaps of ewah_ewah_bitmap.c and ewah_ewah_rlw.c, [EwahBitmap]
      the plain ones of ewah_bitmap.c; [EwahSpec] states what both promise to
      their users, [EwahIo] models their format on disk (ewah_ewah_io.c).
    - Orders and searches: [Heaps] (lemmas on binary heaps) and [PrioQueue]
      (prio-queue.c), [StableSort]
      (stable-qsort.c and compat_qsort_s.c, and the class of sorts the other
      files call), [HashLookup] (hash-lookup.c), [OidArray] (oid-array.c).
    - Numbers and digests: [Varint] (varint.c), [BlockHash] with [Sha1]
      (block-sha1_sha1.c) and [Sha256] (sha256_block_sha256.c), [Base85]
      (base85.c), [HexLl] and [Hex] (hex-ll.c and hex.c).
    - Text: [Strbuf], [StrbufText] and [StrbufLines] (strbuf.c), [Url] (url.c),
      [Quote] and [QuoteC] (quote.c), [StringList] (string-list.c), [Strvec]
      (strvec.c), [Levenshtein] (levenshtein.c), [Wildmatch] (wildmatch.c).
    - Hash tables: [Hashmap] (hashmap.c), whose data are nodes
      of the caller, so that it has a store of nodes and pointers into it, and
      [SpanHash] (diffcore-delta.c), the table of line hashes that rename
      detection compares.
    - Trees: [CbTree] (cbtree.c), crit-bit trees on a store of nodes, where the
      lowest bit of a pointer tells inner nodes from leaves.
    - Tables of references: [ReftableBasics] and [ReftableRecord]
      (reftable_basics.c and reftable_record.c), the records of the reftable format
      and their keys; [ReftableBlock] (reftable_block.c), the blocks that hold
      records with compressed keys and restart points; [ReftableIter]
      (reftable_iter.c), what iterators over tables promise and those built on
      others; [ReftablePq] and [ReftableMerged] (reftable_pq.c and
      reftable_merged.c), the iterator over a stack of tables.
    - The diff of two files: [XdiffFile] (lines, classes and marks),
      [XdiffUtils] (xdiff_xutils.c: comparing and hashing lines up to white space),
      [XdiffSplit] and [XdiffCmp] (the bidirectional search of Myers' algorithm and
      the recursion on it), [XdiffPrepare] (xdiff_xprepare.c: classes of lines,
      dropping lines that cannot match), [XdiffHistogram] and [XdiffPatience]
      (xdiff_xhistogram.c and xdiff_xpatience.c, the two other algorithms), with
      [XdiffRange] for the parts of files that they compare and
      [xdl_fall_back_diff], [XdiffDo] ([xdl_do_diff], which chooses the algorithm),
      [XdiffCompact] (sliding groups of changed lines, with the indent
      heuristic), [XdiffScript] (the edit script and [xdl_diff] as a whole),
      [XdiffHunk] (xdiff_xutils.c: the lines and headers of hunks) and [XdiffEmit]
      (xdiff_xemit.c: what [xdl_diff] prints with); all files without a name are
      from xdiff_xdiffi.c.

    The components interact as in the code: the decoder reads what the encoder
    wrote, bitmaps are compressed into and expanded from EWAH, the URL and
    quoting functions and the vectors work on string buffers and strings, object
    names go through the hexadecimal table, bitmaps are written into string
    buffers, and arrays of names are sorted and then searched with [oid_pos].
    A diff hashes the lines, gives them classes, drops and trims lines, searches
    the rest, slides the marks and reads the script off them; the marks of the two
    files ([rchg]) are the state these phases share.  The patience and histogram
    algorithms mark what lies between common parts, and call [xdl_do_diff] on
    parts of the files where they find none.

    ** How the code is modelled

    Each C function is a definition of its name; the body of a loop is a
    definition of its own, mostly called after the function with [_step], and
    runs under [loop], [for_n] or [for_range].  A function that can fail returns
    an [outcome]: [Ret] with its results and the new state, [Err] for a NULL or
    negative return, a failed allocation or a call of [die] or [BUG], and [Undef]
    for behaviour C does not define.  Every access to memory is [rd], [wr],
    [rd_range] or [wr_range], which are [Undef] out of bounds, so that a theorem
    on [Ret] or [wp] includes memory safety.  A structure is a record with the
    fields of the C structure; a buffer is a list as long as its allocation, and
    new memory holds an arbitrary [junk].  Integers wrap where the code computes
    in a fixed width that the theorems can reach.

    [loop] takes fuel and is [Undef] when it runs out.  The fuel is a bound read
    off the code (the bytes left to read, the width of a search interval, the
    bits of a word, plus one); theorems that state a result therefore also state
    that the loop ends within it, for all inputs they cover.

    Functions of headers are arguments: a class such as [GitCompat] names the
    operations, a class such as [GitCompatOk] the laws their documentation
    states, and every theorem is proved for all instances.  An instance of each
    ([compat_ref], [strbuf_ref], ...) meets the laws, and the witnesses run the
    theorems on it.

    ** What the theorems show

    - Round trips: [patch_delta] rebuilds the target from every delta
      [create_delta] returns, and one is always returned; setting and visiting
      bits are inverse; bitmaps are read back from disk, the four kinds of
      reftable records with their keys from a buffer, and whole blocks of them,
      compressed or not; variable-length integers,
      base 85, hexadecimal names, URLs, shell quotes, C-style quotes and percent
      quotes read back what was written.
    - Refinement of an abstract specification by sequences of operations: EWAH
      bitmaps to lists of words, plain bitmaps to sets of positions, the priority
      queue to a list from which the least and oldest entry is taken, string
      buffers to lists of bytes, sorted string lists, hash maps and crit-bit trees to finite
      maps, string vectors to lists of strings, arrays of object names to bags of names,
      an iterator over a stack of reftables to the overlay of the tables.
    - Diffs: by each of the three algorithms the script of [xdl_diff] leads from the
      first file to the second and, reversed, back; the search for a split ends,
      within its arrays, with a point that makes both halves smaller; compaction
      never reaches a call of BUG and keeps the lines without a mark; matching
      lines is equality of normal forms, and lines that match have the same
      hash.  The last two fail for the flag that ignores carriage returns alone, for
      which a weaker relation is proved ([weak] in [XdiffUtils]).  What prints the
      script is a parameter there; that the printing of hunks ends within its arrays,
      and that the header of a hunk reads back as its ranges, are lemmas of
      [XdiffEmit] and [XdiffHunk].  They take the context lengths as integers
      without a width: a caller that asks for 2^61 lines of context is left out.
    - Equivalence: the digests are those of FIPS 180-4 however the input is cut,
      with the constants computed; [git_stable_qsort] is a stable sort; both
      searches of names find the position or where to insert; the binary search
      of a sorted string list answers what the linear one did; a seek in a
      reftable block stops at the first record not below the key; the literals for
      Perl, Python and Tcl denote the string; the edit distance is the least cost
      of an edit script; [wildmatch] matches what an inductive definition of
      patterns says, although it gives up branches early; the counts of changes
      between two files are sums of minima and differences over all hashes;
      reftable records compare as the bytes of their keys.
    - Safety and errors: no delta makes [patch_delta] leave a buffer, if a byte
      follows it or its first header ends before it does; indexing and
      encoding stay in bounds and fail only on memory or the size limit; decoders
      accept exactly the valid texts and detect overflow; a bitmap file that is
      too short is refused; [unquote_c_style] ends on every text and leaves the buffer alone when it fails.
    - Lines and pieces: splitting into lines, pieces and words, reading lines
      from a stream and prefixing lines, each against a function on lists.

    ** Bounds and simplifications

    The allocators that end the process when there is no memory (xmalloc and the like)
    are taken to succeed, but for the sizes they refuse; where a plain malloc can fail,
    it is a parameter, but in the diff library, whose allocations are taken to succeed.
    Delta sources and targets are below 32 GiB, the size for which the five
    header bytes of MAX_OP_SIZE are enough.  String buffers are below 2^64 bytes,
    split texts below 2 GiB because [strbuf_split_buf] keeps a length in an int.
    The positions of the run-length iterator and the indices of string lists are
    ints in C and [Z] here: the theorem on exclusive or is for bitmaps of fewer than 2^30
    words and that on string lists for fewer than 2^31 - 1 calls, which they cannot
    overflow.  Hash maps have at most 2^29 entries, beyond
    which the table size would overflow when the table grows; edit distances are
    below 2^31.  Files whose changes are counted are below 4 GiB, which the code
    keeps in an unsigned int; their tables stop growing at 2^17 buckets because
    there are only HASHBASE hashes.  Reftable strings and keys are below
    2 GiB, because lengths pass through ints; reftable blocks are below 16 MiB
    (their size has three bytes) with fewer than 2^16 restart points.  The
    compressor of log blocks is zlib, a parameter whose law is that inflating
    undoes deflating; the theorems on blocks assume of log entries that they fit into
    the block compressed as well, and that on stacks of tables that the update
    indices of log entries for one name are less than 2^31 apart, because the code
    checks neither.  Two files to compare are together below 1 GiB, where hash
    tables keep an int for their size; lines that are compared are shorter than 2 GiB,
    because positions in them are ints.  The histogram algorithm fails when 64 lines share
    a chain of its table, so that its result is proved for files of up to 64 lines
    and otherwise for the calls that return.  The depth of [do_diff_rec] is two:
    [xdl_fall_back_diff] asks for no algorithm but Myers'.  Strings inside string lists and vectors are
    values; who frees them is not modelled.  [memchr] and similar functions of
    the C library are defined in [Prelude] as the standard describes them.

    ** Not modelled

    - Freeing of memory, the pools of bitmaps, debugging code, and writing bitmaps
      to file descriptors.
    - In the modelled files: formatted output through vsnprintf
      ([strbuf_vaddf], [sq_quotef], [strvec_pushf]), file descriptors, dates,
      terminals and character sets in strbuf.c, [quote_path] and
      [write_name_quoted_relative] (they need path.c), [string_list_clear_func],
      handing reftable blocks back to their source, the iterator over indexed
      references in reftable_iter.c (it needs the reader of tables),
      [memintern] and [parse_names], and of the diff library three-way merges and
      the matching of regular expressions (an ignored expression is a test of lines).
    - The rest of git, and OpenVPN, DOOM, OpenSSL and Linux: most of it works on
      structures, macros and constants of headers that are not in the repository,
      on the file system, sockets or hardware.
    - The mending tool itself (Java), its clang front end (C++) and the scripts
      (Python). *)
From stdpp Require Export base list numbers option sets.
From Stdlib Require Export ZArith Lia Btauto.
#[global] Open Scope Z_scope.

(** * Machine integers *)

(** Unsigned integers of the widths the sources use, as [Z] with the wrap
    written out. *)
Definition u8 (x : Z) : Z := x mod 2 ^ 8.
Definition u32 (x : Z) : Z := x mod 2 ^ 32.
Definition u64 (x : Z) : Z := x mod 2 ^ 64.

(** Conversion to a signed [char] and to [int]. *)
Definition s8 (x : Z) : Z := (x + 2 ^ 7) mod 2 ^ 8 - 2 ^ 7.
Definition i32 (x : Z) : Z := (x + 2 ^ 31) mod 2 ^ 32 - 2 ^ 31.

(** Truth value of a C scalar expression. *)
Definition tru (x : Z) : bool := negb (x =? 0).

Definition is_byte (x : Z) : Prop := 0 <= x < 256.
Notation is_bytes := (Forall is_byte).

#[export] Instance is_byte_dec x : Decision (is_byte x).
Proof. unfold is_byte. apply _. Defined.

(** 64-bit words and their complement. *)
Definition is_word (x : Z) : Prop := 0 <= x < 2 ^ 64.
Definition wnot (x : Z) : Z := u64 (Z.lnot x).

#[export] Instance is_word_dec x : Decision (is_word x).
Proof. unfold is_word. apply _. Defined.

Definition zlen {A} (l : list A) : Z := Z.of_nat (length l).

(** * Outcomes of C code *)

(** How a modelled call can end without a value: a [NULL] or negative return,
    a failed allocation, or the end of the process in [assert], [BUG] or [die]. *)
Inductive failure := Null | Error | NoMem | Bug.

#[export] Instance failure_eq_dec : EqDecision failure.
Proof. solve_decision. Defined.

(** [Undef] stands for undefined behaviour (an access outside a buffer, a NULL
    dereference) and for a loop that exceeds the bound its model gives it; the
    safety theorems show that it is unreachable. *)
Inductive outcome (A : Type) : Type :=
| Ret (a : A)
| Err (e : failure)
| Undef.
Arguments Ret {A} a.
Arguments Err {A} e.
Arguments Undef {A}.

#[export] Instance outcome_ret : MRet outcome := fun A a => Ret a.
#[export] Instance outcome_bind : MBind outcome := fun A B k c =>
  match c with
  | Ret a => k a
  | Err e => Err e
  | Undef => Undef
  end.

(** Weakest precondition: [Q] of the value, [R] of the failure, and no
    undefined behaviour. *)
Definition wp {A} (c : outcome A) (Q : A -> Prop) (R : failure -> Prop) : Prop :=
  match c with
  | Ret a => Q a
  | Err e => R e
  | Undef => False
  end.

Section wp_rules.
Context {A B : Type}.
Implicit Types (c : outcome A) (Q : A -> Prop) (R : failure -> Prop).

Lemma wp_ret a Q R : Q a -> wp (Ret a) Q R.
Proof. done. Qed.

Lemma wp_bind c (k : A -> outcome B) (Q : B -> Prop) R :
  wp c (fun a => wp (k a) Q R) R -> wp (c ≫= k) Q R.
Proof. by destruct c. Qed.

Lemma wp_mono c Q Q' R R' :
  wp c Q R -> (forall a, Q a -> Q' a) -> (forall e, R e -> R' e) -> wp c Q' R'.
Proof. destruct c; simpl; auto. Qed.

Lemma wp_conj c Q Q' R : wp c Q R -> wp c Q' R -> wp c (fun a => Q a /\ Q' a) R.
Proof. destruct c; simpl; auto. Qed.

Lemma wp_Ret_inv c a Q R : wp c Q R -> c = Ret a -> Q a.
Proof. by intros ? ->. Qed.

Lemma wp_exists c Q : wp c Q (fun _ => False) -> exists a, c = Ret a /\ Q a.
Proof. destruct c; simpl; naive_solver. Qed.

Lemma wp_eq c a Q R : c = Ret a -> Q a -> wp c Q R.
Proof. by intros ->. Qed.
End wp_rules.

Lemma bind_Ret_inv {A B} (c : outcome A) (k : A -> outcome B) b :
  c ≫= k = Ret b -> exists a, c = Ret a /\ k a = Ret b.
Proof. destruct c; simpl; naive_solver. Qed.

(** ** Loops *)

(** A C loop: the body either continues with a new state ([inl]) or leaves the
    loop ([inr]) through its condition, a [break], a [goto] or a [return]. *)
Fixpoint loop {S B} (fuel : nat) (body : S -> outcome (S + B)) (s : S) : outcome B :=
  match fuel with
  | O => Undef
  | Datatypes.S fuel =>
      r ← body s;
      match r with
      | inl s' => loop fuel body s'
      | inr b => Ret b
      end
  end.

(** The rule of the total loop: an invariant and a decreasing measure. *)
Lemma wp_loop {S B} (I : S -> Prop) (m : S -> Z) (fuel : nat)
    (body : S -> outcome (S + B)) (s : S) (Q : B -> Prop) (R : failure -> Prop) :
  I s -> m s < Z.of_nat fuel ->
  (forall s, I s ->
     wp (body s) (fun r => match r with
                           | inl s' => I s' /\ 0 <= m s' < m s
                           | inr b => Q b
                           end) R) ->
  0 <= m s ->
  wp (loop fuel body s) Q R.
Proof.
  intros HI Hm Hbody Hpos. revert s HI Hm Hpos.
  induction fuel as [|fuel IH]; intros s HI Hm Hpos; [lia|].
  simpl. apply wp_bind. eapply wp_mono; [by apply Hbody| |done].
  intros [s'|b]; simpl; [|done]. intros [? ?]. apply IH; auto; lia.
Qed.

(** The same for a loop that cannot fail. *)
Lemma loop_ret {S B} (I : S -> Prop) (m : S -> Z) (fuel : nat)
    (body : S -> outcome (S + B)) (s : S) (Q : B -> Prop) :
  (forall s, I s ->
     exists r, body s = Ret r /\ match r with
                                | inl s' => I s' /\ 0 <= m s' < m s
                                | inr b => Q b
                                end) ->
  I s -> 0 <= m s < Z.of_nat fuel ->
  exists b, loop fuel body s = Ret b /\ Q b.
Proof.
  intros Hbody HI Hm. apply wp_exists, (wp_loop I m); [done|lia| |lia].
  intros s' Hs'. destruct (Hbody s' Hs') as (r & -> & Hr). exact Hr.
Qed.

(** One round. *)
Lemma loop_next {S B} (body : S -> outcome (S + B)) (fuel : nat) s s' :
  body s = Ret (inl s') -> loop (Datatypes.S fuel) body s = loop fuel body s'.
Proof. cbn [loop]. by intros ->. Qed.

Lemma loop_stop {S B} (body : S -> outcome (S + B)) (fuel : nat) s b :
  body s = Ret (inr b) -> loop (Datatypes.S fuel) body s = Ret b.
Proof. cbn [loop]. by intros ->. Qed.

(** A body that returns wherever another does, and the same. *)
Lemma loop_mono {S B} (body body' : S -> outcome (S + B)) (fuel : nat) s b :
  (forall s r, body s = Ret r -> body' s = Ret r) -> loop fuel body s = Ret b -> loop fuel body' s = Ret b.
Proof.
  intros Hb. revert s. induction fuel as [|fuel IH]; intros s; [done|]. cbn [loop].
  destruct (body s) as [r| |] eqn:E; [|done..]. rewrite (Hb _ _ E). cbn [mbind outcome_bind].
  destruct r; [apply IH|done].
Qed.

(** More fuel does not change the result of a loop that ended. *)
Lemma loop_more {S B} (body : S -> outcome (S + B)) (fuel fuel' : nat) s b :
  loop fuel body s = Ret b -> (fuel <= fuel')%nat -> loop fuel' body s = Ret b.
Proof.
  revert fuel' s. induction fuel as [|fuel IH]; intros [|fuel'] s H ?;
    simpl in *; try done; [lia|].
  destruct (body s) as [[s'|b']| |]; simpl in *; try done.
  apply IH; auto; lia.
Qed.

(** [for (i = i0; i < i0 + n; i++)]: a round continues with a new state ([inl])
    or leaves the loop with a [return] ([inr]). *)
Fixpoint for_range {S R} (n : nat) (i : Z) (body : Z -> S -> outcome (S + R)) (s : S)
    : outcome (S + R) :=
  match n with
  | O => Ret (inl s)
  | Datatypes.S n =>
      r ← body i s;
      match r with
      | inl s => for_range n (i + 1) body s
      | inr r => Ret (inr r)
      end
  end.

(** The rule of the bounded loop. *)
Lemma for_range_ret {S R} (I : Z -> S -> Prop) (n : nat) (i : Z)
    (body : Z -> S -> outcome (S + R)) (s : S) (Q : R -> Prop) :
  (forall j s, i <= j < i + Z.of_nat n -> I j s ->
     exists r, body j s = Ret r /\ match r with inl s' => I (j + 1) s' | inr r => Q r end) ->
  I i s ->
  exists r, for_range n i body s = Ret r /\
    match r with inl s' => I (i + Z.of_nat n) s' | inr r => Q r end.
Proof.
  revert i s. induction n as [|n IH]; intros i s Hbody HI; cbn [for_range].
  - exists (inl s). rewrite Z.add_0_r. done.
  - destruct (Hbody i s ltac:(lia) HI) as (r & -> & Hr). cbn [mbind outcome_bind].
    destruct r as [s'|r]; [|by exists (inr r)].
    destruct (IH (i + 1) s') as (r & -> & Hr'); [intros; apply Hbody; (lia || done)|done|].
    exists r. split; [done|]. by replace (i + Z.of_nat (Datatypes.S n)) with (i + 1 + Z.of_nat n) by lia.
Qed.

(** The same for a body without [return]. *)
Fixpoint for_n {S} (n : nat) (i : Z) (body : Z -> S -> outcome S) (s : S) : outcome S :=
  match n with
  | O => Ret s
  | Datatypes.S n => s ← body i s; for_n n (i + 1) body s
  end.

Lemma for_n_next {S} (n : nat) (i : Z) (body : Z -> S -> outcome S) s s' :
  body i s = Ret s' -> for_n (Datatypes.S n) i body s = for_n n (i + 1) body s'.
Proof. cbn [for_n]. by intros ->. Qed.

Lemma for_n_ret {S} (I : Z -> S -> Prop) (n : nat) (i : Z) (body : Z -> S -> outcome S) (s : S) :
  (forall j s, i <= j < i + Z.of_nat n -> I j s -> exists s', body j s = Ret s' /\ I (j + 1) s') ->
  I i s ->
  exists s', for_n n i body s = Ret s' /\ I (i + Z.of_nat n) s'.
Proof.
  revert i s. induction n as [|n IH]; intros i s Hbody HI; cbn [for_n].
  - exists s. by rewrite Z.add_0_r.
  - destruct (Hbody i s ltac:(lia) HI) as (s' & -> & Hs'). cbn [mbind outcome_bind].
    destruct (IH (i + 1) s') as (r & -> & Hr); [intros; apply Hbody; (lia || done)|done|].
    exists r. split; [done|]. by replace (i + Z.of_nat (Datatypes.S n)) with (i + 1 + Z.of_nat n) by lia.
Qed.

(** * Buffers *)

(** A read or write of one element and the copy of a range, each undefined
    outside the buffer. *)
Definition rd {A} (l : list A) (i : Z) : outcome A :=
  if i <? 0 then Undef
  else match l !! Z.to_nat i with Some x => Ret x | None => Undef end.

Definition wr {A} (l : list A) (i : Z) (x : A) : outcome (list A) :=
  if (i <? 0) || (zlen l <=? i) then Undef
  else Ret (<[Z.to_nat i := x]> l).

Definition slice {A} (l : list A) (off n : Z) : list A :=
  take (Z.to_nat n) (drop (Z.to_nat off) l).

Definition rd_range {A} (l : list A) (off n : Z) : outcome (list A) :=
  if (off <? 0) || (n <? 0) || (zlen l <? off + n) then Undef
  else Ret (slice l off n).

(** [memcpy] of [xs] into a buffer at [off]. *)
Definition wr_range {A} (l : list A) (off : Z) (xs : list A) : outcome (list A) :=
  if (off <? 0) || (zlen l <? off + zlen xs) then Undef
  else Ret (take (Z.to_nat off) l ++ xs ++ drop (Z.to_nat (off + zlen xs)) l).

(** [realloc] to [n] elements: what was there stays, the rest is [junk]. *)
Definition realloc {A} (junk : A) (l : list A) (n : Z) : list A :=
  take (Z.to_nat n) l ++ replicate (Z.to_nat (n - zlen l)) junk.

(** [memset] of [n] elements at [off]. *)
Definition fill_range {A} (l : list A) (off n : Z) (x : A) : outcome (list A) :=
  wr_range l off (replicate (Z.to_nat n) x).

#[global] Arguments rd : simpl never.
#[global] Arguments wr_range : simpl never.
#[global] Arguments wr : simpl never.
#[global] Arguments slice : simpl never.
#[global] Arguments rd_range : simpl never.
#[global] Arguments zlen : simpl never.
#[global] Arguments u8 : simpl never.
#[global] Arguments s8 : simpl never.
#[global] Arguments i32 : simpl never.
#[global] Arguments u32 : simpl never.
#[global] Arguments u64 : simpl never.
#[global] Arguments tru : simpl never.
#[global] Arguments Z.pow : simpl never.
#[global] Arguments Z.lor : simpl never.
#[global] Arguments Z.lxor : simpl never.
#[global] Arguments Z.land : simpl never.
#[global] Arguments Z.shiftl : simpl never.
#[global] Arguments Z.shiftr : simpl never.

Section buffers.
Context {A : Type}.
Implicit Types (l k : list A) (x : A).

Lemma zlen_nonneg l : 0 <= zlen l.
Proof. unfold zlen; lia. Qed.
Lemma zlen_app l k : zlen (l ++ k) = zlen l + zlen k.
Proof. unfold zlen. rewrite length_app. lia. Qed.
Lemma zlen_cons x l : zlen (x :: l) = 1 + zlen l.
Proof. unfold zlen. simpl. lia. Qed.
Lemma zlen_nil : zlen (@nil A) = 0.
Proof. done. Qed.
Lemma zlen_insert l i x : zlen (<[i:=x]> l) = zlen l.
Proof. unfold zlen. by rewrite length_insert. Qed.
Lemma zlen_replicate n x : zlen (replicate (Z.to_nat n) x) = Z.max 0 n.
Proof. unfold zlen. rewrite length_replicate. lia. Qed.

Lemma zlen_concat_replicate l n : zlen (concat (replicate n l)) = zlen l * Z.of_nat n.
Proof.
  induction n as [|n IH]; [by rewrite Z.mul_0_r|]. cbn [replicate concat]. rewrite zlen_app, IH. lia.
Qed.

Lemma rd_lookup l (i : nat) x : l !! i = Some x -> rd l (Z.of_nat i) = Ret x.
Proof.
  intros H. unfold rd. destruct (Z.ltb_spec (Z.of_nat i) 0); [lia|].
  by rewrite Nat2Z.id, H.
Qed.

Lemma rd_Ret l i x : rd l i = Ret x <-> 0 <= i /\ l !! Z.to_nat i = Some x.
Proof.
  unfold rd. destruct (Z.ltb_spec i 0).
  - split; [done|lia].
  - destruct (l !! Z.to_nat i); naive_solver.
Qed.

Lemma rd_in l i : 0 <= i < zlen l -> exists x, rd l i = Ret x.
Proof.
  unfold zlen. intros Hi.
  destruct (lookup_lt_is_Some_2 l (Z.to_nat i)) as [x Hx]; [lia|].
  exists x. apply rd_Ret. split; [lia|done].
Qed.

Lemma wp_rd l i (Q : A -> Prop) R :
  0 <= i < zlen l -> (forall x, l !! Z.to_nat i = Some x -> Q x) -> wp (rd l i) Q R.
Proof.
  intros Hi HQ. destruct (rd_in l i Hi) as [x Hx]. rewrite Hx.
  apply HQ. by apply rd_Ret in Hx as [_ ?].
Qed.

Lemma wr_in l i x : 0 <= i < zlen l -> wr l i x = Ret (<[Z.to_nat i := x]> l).
Proof.
  intros Hi. unfold wr. destruct (Z.ltb_spec i 0), (Z.leb_spec (zlen l) i);
    simpl; lia || done.
Qed.

Lemma wp_wr l i x (Q : list A -> Prop) R :
  0 <= i < zlen l -> Q (<[Z.to_nat i := x]> l) -> wp (wr l i x) Q R.
Proof. intros Hi HQ. by rewrite wr_in. Qed.

Lemma zlen_slice l off n :
  0 <= off -> 0 <= n -> off + n <= zlen l -> zlen (slice l off n) = n.
Proof. unfold slice, zlen. rewrite length_take, length_drop. lia. Qed.

Lemma rd_range_in l off n :
  0 <= off -> 0 <= n -> off + n <= zlen l -> rd_range l off n = Ret (slice l off n).
Proof.
  intros. unfold rd_range.
  destruct (Z.ltb_spec off 0), (Z.ltb_spec n 0), (Z.ltb_spec (zlen l) (off + n));
    simpl; lia || done.
Qed.

Lemma rd_range_extend l extra off n xs : rd_range l off n = Ret xs -> rd_range (l ++ extra) off n = Ret xs.
Proof.
  unfold rd_range. rewrite zlen_app. pose proof (zlen_nonneg extra).
  destruct (Z.ltb_spec off 0), (Z.ltb_spec n 0), (Z.ltb_spec (zlen l) (off + n)),
    (Z.ltb_spec (zlen l + zlen extra) (off + n)); simpl; try done; [lia|].
  intros [= <-]. f_equal. unfold slice, zlen in *. rewrite drop_app_le, take_app_le; [done|rewrite length_drop; lia|lia].
Qed.

Lemma wr_range_in l off xs :
  0 <= off -> off + zlen xs <= zlen l ->
  wr_range l off xs = Ret (take (Z.to_nat off) l ++ xs ++ drop (Z.to_nat (off + zlen xs)) l).
Proof.
  intros. unfold wr_range.
  destruct (Z.ltb_spec off 0), (Z.ltb_spec (zlen l) (off + zlen xs)); simpl; lia || done.
Qed.

(** A buffer filled from the left: what lies before the write stays, and the
    written bytes extend it. *)
Lemma wr_range_fill l off xs l' :
  wr_range l off xs = Ret l' ->
  zlen l' = zlen l /\
  take (Z.to_nat (off + zlen xs)) l' = take (Z.to_nat off) l ++ xs.
Proof.
  unfold wr_range, zlen.
  destruct (Z.ltb_spec off 0), (Z.ltb_spec (Z.of_nat (length l)) (off + Z.of_nat (length xs)));
    simpl; try done. intros [= <-]. split.
  - rewrite !length_app, length_take, length_drop. lia.
  - rewrite app_assoc, take_app_length'; [done|].
    rewrite length_app, length_take. lia.
Qed.

Lemma slice_app l off n m :
  0 <= off -> 0 <= n -> 0 <= m ->
  slice l off (n + m) = slice l off n ++ slice l (off + n) m.
Proof.
  intros. unfold slice. rewrite !Z2Nat.inj_add by lia.
  rewrite <-drop_drop. by rewrite take_take_drop.
Qed.

Lemma slice_0 l off : slice l off 0 = [].
Proof. done. Qed.

Lemma slice_1 l off x : l !! Z.to_nat off = Some x -> slice l off 1 = [x].
Proof.
  intros H. unfold slice. rewrite (drop_S _ _ _ H). done.
Qed.

Lemma slice_snoc l off n x :
  0 <= off -> 0 <= n -> l !! Z.to_nat (off + n) = Some x ->
  slice l off (n + 1) = slice l off n ++ [x].
Proof. intros. rewrite slice_app by lia. by rewrite (slice_1 _ (off + n) x). Qed.

Lemma slice_cons l off n x :
  0 <= off -> 0 < n -> l !! Z.to_nat off = Some x ->
  slice l off n = x :: slice l (off + 1) (n - 1).
Proof.
  intros. replace n with (1 + (n - 1)) at 1 by lia.
  rewrite slice_app by lia. by rewrite (slice_1 _ off x).
Qed.

Lemma slice_full l : slice l 0 (zlen l) = l.
Proof. unfold slice, zlen. rewrite drop_0. apply take_ge. lia. Qed.

Lemma lookup_slice l off n (i : nat) :
  0 <= off -> Z.of_nat i < n -> slice l off n !! i = l !! (Z.to_nat off + i)%nat.
Proof. intros. unfold slice. rewrite lookup_take_lt by lia. apply lookup_drop. Qed.

(** ** Cursors *)

(** [at_pos l pos rest]: a reader at [pos] of [l] has [rest] before it. *)
Definition at_pos l (pos : Z) (rest : list A) : Prop :=
  0 <= pos <= zlen l /\ drop (Z.to_nat pos) l = rest.

Lemma at_pos_0 l : at_pos l 0 l.
Proof. split; [pose proof (zlen_nonneg l); lia|]. apply drop_0. Qed.

Lemma at_pos_len l pos rest : at_pos l pos rest -> zlen l = pos + zlen rest.
Proof. unfold at_pos, zlen. intros [? <-]. rewrite length_drop. lia. Qed.

Lemma at_pos_nonneg l pos rest : at_pos l pos rest -> 0 <= pos <= zlen l.
Proof. by intros [? _]. Qed.

Lemma at_pos_app l pos k rest :
  at_pos l pos (k ++ rest) ->
  rd_range l pos (zlen k) = Ret k /\ at_pos l (pos + zlen k) rest.
Proof.
  intros Hp. pose proof (at_pos_len _ _ _ Hp) as Hl. rewrite zlen_app in Hl.
  pose proof (zlen_nonneg rest). pose proof (zlen_nonneg k). destruct Hp as [? Hp].
  split.
  - rewrite rd_range_in by lia. unfold slice. rewrite Hp. unfold zlen.
    by rewrite Nat2Z.id, take_app_length.
  - split; [lia|]. rewrite Z2Nat.inj_add by lia. rewrite <-drop_drop, Hp.
    unfold zlen. by rewrite Nat2Z.id, drop_app_length.
Qed.

Lemma at_pos_cons l pos x rest :
  at_pos l pos (x :: rest) -> rd l pos = Ret x /\ at_pos l (pos + 1) rest.
Proof.
  intros Hp. change (x :: rest) with ([x] ++ rest) in Hp.
  pose proof (at_pos_app _ _ _ _ Hp) as [_ ?]. split; [|done].
  destruct Hp as [? Hp]. apply rd_Ret. split; [lia|].
  rewrite <-(Nat.add_0_r (Z.to_nat pos)), <-lookup_drop, Hp. done.
Qed.

Lemma at_pos_pre l k : at_pos (l ++ k) (zlen l) k.
Proof.
  split; [rewrite zlen_app; pose proof (zlen_nonneg l); pose proof (zlen_nonneg k); lia|].
  unfold zlen. by rewrite Nat2Z.id, drop_app_length.
Qed.

(** ** Output buffers *)

(** [filled out pos l]: the first [pos] elements of [out] are [l]. *)
Definition filled (out : list A) (pos : Z) l : Prop :=
  zlen l = pos /\ exists rest, out = l ++ rest.

Lemma filled_nil out : filled out 0 [].
Proof. split; [done|by exists out]. Qed.

Lemma filled_le out pos l : filled out pos l -> 0 <= pos <= zlen out.
Proof.
  intros [<- [rest ->]]. rewrite zlen_app.
  pose proof (zlen_nonneg l). pose proof (zlen_nonneg rest). lia.
Qed.

Lemma filled_take out pos l : filled out pos l -> take (Z.to_nat pos) out = l.
Proof. intros [<- [rest ->]]. unfold zlen. by rewrite Nat2Z.id, take_app_length. Qed.

(** The next slot holds some element. *)
Lemma filled_slot out pos l :
  filled out pos l -> pos < zlen out -> exists x, filled out (pos + 1) (l ++ [x]).
Proof.
  intros [<- [rest ->]] Hlt. rewrite zlen_app in Hlt.
  destruct rest as [|x rest]; [rewrite zlen_nil in Hlt; lia|]. exists x. split.
  - rewrite zlen_app, zlen_cons, zlen_nil. lia.
  - exists rest. by rewrite <-(assoc app).
Qed.

Lemma filled_set out pos l1 x l2 y :
  filled out pos (l1 ++ [x] ++ l2) ->
  wr out (zlen l1) y = Ret (<[Z.to_nat (zlen l1) := y]> out) /\
  filled (<[Z.to_nat (zlen l1) := y]> out) pos (l1 ++ [y] ++ l2).
Proof.
  intros [Hpos [rest ->]]. rewrite !zlen_app, zlen_cons, zlen_nil in Hpos.
  pose proof (zlen_nonneg l1). pose proof (zlen_nonneg l2). pose proof (zlen_nonneg rest). split.
  - apply wr_in. rewrite !zlen_app, zlen_cons, zlen_nil. lia.
  - split; [rewrite !zlen_app, zlen_cons, zlen_nil; lia|]. exists rest.
    unfold zlen. rewrite Nat2Z.id, <-!(assoc app), insert_app_r_alt by lia.
    by rewrite Nat.sub_diag.
Qed.

Lemma filled_wr out pos l x :
  filled out pos l -> pos < zlen out ->
  wr out pos x = Ret (<[Z.to_nat pos := x]> out) /\
  filled (<[Z.to_nat pos := x]> out) (pos + 1) (l ++ [x]).
Proof.
  intros Hf Hlt. destruct (filled_slot _ _ _ Hf Hlt) as [y Hy].
  destruct Hf as [Hl _]. subst pos.
  rewrite <-(app_nil_r [y]) in Hy. rewrite <-(app_nil_r [x]). by apply (filled_set _ _ _ y).
Qed.

Lemma filled_wr_range out pos l xs :
  filled out pos l -> pos + zlen xs <= zlen out ->
  exists out', wr_range out pos xs = Ret out' /\ zlen out' = zlen out /\
    filled out' (pos + zlen xs) (l ++ xs).
Proof.
  intros Hf Hle. pose proof (filled_le _ _ _ Hf). rewrite wr_range_in by lia.
  eexists. split; [done|]. split.
  - unfold zlen in *. rewrite !length_app, length_take, length_drop. lia.
  - rewrite (filled_take _ _ _ Hf). split; [rewrite zlen_app; by destruct Hf as [-> _]|].
    eexists. by rewrite (assoc app).
Qed.

(** The last element written. *)
Lemma filled_last out pos l x y :
  filled out pos (l ++ [x]) ->
  rd out (pos - 1) = Ret x /\
  exists out', wr out (pos - 1) y = Ret out' /\ filled out' pos (l ++ [y]).
Proof.
  intros Hf. assert (pos - 1 = zlen l) as ->.
  { destruct Hf as [Hl _]. rewrite zlen_app, zlen_cons, zlen_nil in Hl. lia. }
  split.
  - destruct Hf as [_ [rest ->]]. rewrite <-(assoc app).
    apply (at_pos_cons _ _ _ rest), at_pos_pre.
  - rewrite <-(app_nil_r [x]) in Hf. destruct (filled_set _ _ _ _ _ y Hf) as [-> Hf'].
    rewrite app_nil_r in Hf'. eauto.
Qed.

Lemma filled_prefix out pos l1 l2 : filled out pos (l1 ++ l2) -> filled out (zlen l1) l1.
Proof.
  intros [_ [rest ->]]. split; [done|]. exists (l2 ++ rest). by rewrite (assoc app).
Qed.

Lemma filled_extend out pos l rest : filled out pos l -> filled (out ++ rest) pos l.
Proof. intros [? [r ->]]. split; [done|]. exists (r ++ rest). by rewrite (assoc app). Qed.

Lemma filled_take_ge out pos l n : filled out pos l -> pos <= Z.of_nat n -> filled (take n out) pos l.
Proof.
  intros [<- [r ->]] Hn. unfold zlen in *. split; [done|].
  exists (take (n - length l) r). rewrite take_app. by rewrite (take_ge l) by lia.
Qed.

Lemma zlen_realloc junk l n : 0 <= n -> zlen (realloc junk l n) = n.
Proof. intros. unfold realloc, zlen. rewrite length_app, length_take, length_replicate. lia. Qed.

Lemma filled_realloc junk out pos l n :
  filled out pos l -> pos <= n -> filled (realloc junk out n) pos l.
Proof.
  intros Hl Hn. apply filled_extend, filled_take_ge; [done|]. pose proof (filled_le _ _ _ Hl). lia.
Qed.
End buffers.

(** ** Concatenations *)

Lemma concat_replicate_nil {A} n : concat (replicate n (@nil A)) = [].
Proof. by induction n. Qed.

Lemma concat_lookup {A} (ls : list (list A)) b (l : list A) x : ls !! b = Some l -> x ∈ l -> x ∈ concat ls.
Proof.
  revert b. induction ls as [|l' ls IH]; intros [|b] Hb Hx; try done; cbn [lookup list_lookup concat] in *; apply elem_of_app.
  - left. congruence.
  - right. by apply (IH b).
Qed.

Lemma elem_of_concat {A} (ls : list (list A)) x : x ∈ concat ls -> exists b l, ls !! b = Some l /\ x ∈ l.
Proof.
  induction ls as [|l ls IH]; cbn [concat]; intros Hx; [by apply not_elem_of_nil in Hx|]. apply elem_of_app in Hx as [Hx|Hx]; [by exists 0%nat, l|].
  destruct (IH Hx) as (b & l' & Hb & Hx'). by exists (S b), l'.
Qed.

Lemma concat_insert {A} (ls : list (list A)) b (l l' r : list A) :
  ls !! b = Some l -> Permutation l' (r ++ l) -> Permutation (concat (<[b := l']> ls)) (r ++ concat ls).
Proof.
  revert b. induction ls as [|l0 ls IH]; intros [|b] Hb Hp; try done; cbn [insert list_insert concat lookup list_lookup] in *.
  - injection Hb as ->. rewrite Hp. by rewrite (assoc app).
  - rewrite (IH b Hb Hp). rewrite !(assoc app). by rewrite (comm app l0 r).
Qed.

(** ** Accesses next to a known part *)

Lemma rd_at {A} (x : list A) (y : A) (z : list A) mem pos : mem = x ++ y :: z -> pos = zlen x -> rd mem pos = Ret y.
Proof. intros -> ->. apply (at_pos_cons _ _ _ z), at_pos_pre. Qed.

Lemma wr_at {A} (x : list A) (y : A) (z : list A) (c : A) mem pos :
  mem = x ++ y :: z -> pos = zlen x -> wr mem pos c = Ret (x ++ c :: z).
Proof.
  intros -> ->. pose proof (zlen_nonneg x). pose proof (zlen_nonneg z).
  rewrite wr_in by (rewrite zlen_app, zlen_cons; lia). f_equal. unfold zlen. rewrite Nat2Z.id.
  rewrite insert_app_r_alt by lia. by rewrite Nat.sub_diag.
Qed.

(** Equal lists up to the grouping of their parts, and the lengths of parts. *)
Ltac same_list := repeat first [rewrite <-(assoc app) | progress cbn [app]]; reflexivity.
Ltac same_len := rewrite ?zlen_app, ?zlen_cons, ?zlen_app, ?zlen_cons, ?zlen_nil; lia.

#[global] Arguments zlen_nil : clear implicits.

Create HintDb zlen discriminated.
#[export] Hint Rewrite @zlen_app @zlen_cons @zlen_nil @zlen_insert @zlen_replicate : zlen.

(** Induction on the length of a list. *)
Lemma length_induction {A} (P : list A -> Prop) :
  (forall l, (forall k, (length k < length l)%nat -> P k) -> P l) -> forall l, P l.
Proof.
  intros HP. assert (forall n l, (length l < n)%nat -> P l) as Hn.
  { intros n. induction n as [|n IH]; intros l Hl; [lia|]. apply HP. intros k Hk. apply IH. lia. }
  intros l. apply (Hn (S (length l))). lia.
Qed.

(** * C strings *)

(** A C string without its NUL is a list of bytes other than 0; a pointer into
    it is what remains.  [*s] at the end is the NUL. *)
Definition deref (s : list Z) : Z := match s with [] => 0 | c :: _ => c end.
Notation no_nul := (Forall (fun c : Z => c <> 0)).

(** The string that memory holds: the bytes before the first NUL. *)
Fixpoint c_string (mem : list Z) : list Z :=
  match mem with
  | [] => []
  | c :: mem => if c =? 0 then [] else c :: c_string mem
  end.

Lemma c_string_app s rest : no_nul s -> c_string (s ++ 0 :: rest) = s.
Proof.
  induction 1 as [|c s Hc _ IH]; [done|]. cbn [app c_string]. rewrite (proj2 (Z.eqb_neq c 0)) by done. by rewrite IH.
Qed.

(** [memchr]: how far away the first [c] is among the first [n] bytes. *)
Fixpoint memchr_from (i : Z) (s : list Z) (c : Z) : option Z :=
  match s with
  | [] => None
  | x :: s => if x =? c then Some i else memchr_from (i + 1) s c
  end.
Definition memchr (s : list Z) (c n : Z) : option Z := memchr_from 0 (take (Z.to_nat n) s) c.

Lemma memchr_from_split i s c : 
  match memchr_from i s c with
  | Some k => exists a b, s = a ++ c :: b /\ k = i + zlen a /\ c ∉ a
  | None => c ∉ s
  end.
Proof.
  revert i. induction s as [|x s IH]; intros i; cbn [memchr_from]; [apply not_elem_of_nil|].
  destruct (Z.eqb_spec x c) as [->|Hne].
  - exists [], s. split; [done|]. split; [rewrite zlen_nil; lia|apply not_elem_of_nil].
  - specialize (IH (i + 1)). destruct (memchr_from (i + 1) s c) as [k|].
    + destruct IH as (a & b & -> & -> & Ha). exists (x :: a), b. split; [done|]. split; [rewrite zlen_cons; lia|].
      rewrite not_elem_of_cons. split; [congruence|done].
    + rewrite not_elem_of_cons. split; [congruence|done].
Qed.

Lemma memchr_app p c s : c ∉ p -> memchr (p ++ c :: s) c (zlen (p ++ c :: s)) = Some (zlen p).
Proof.
  unfold memchr, zlen. rewrite Nat2Z.id, take_ge by lia. change (Z.of_nat (length p)) with (0 + Z.of_nat (length p)). generalize 0.
  induction p as [|x p IH]; cbn [app memchr_from length]; intros i Hp.
  - rewrite Z.eqb_refl. f_equal. lia.
  - apply not_elem_of_cons in Hp as [Hx Hp]. rewrite (proj2 (Z.eqb_neq x c)) by done. rewrite IH by done. f_equal. lia.
Qed.

Lemma memchr_split s c :
  match memchr s c (zlen s) with
  | Some k => exists a b, s = a ++ c :: b /\ k = zlen a /\ c ∉ a
  | None => c ∉ s
  end.
Proof.
  unfold memchr, zlen. rewrite Nat2Z.id, take_ge by lia. pose proof (memchr_from_split 0 s c) as Hm.
  destruct (memchr_from 0 s c) as [k|]; [|done]. destruct Hm as (a & b & ? & ? & ?). exists a, b. split; [done|]. split; [|done].
  unfold zlen in *. lia.
Qed.

(** [strcspn]: the length of the text before the first character of [reject]. *)
Fixpoint strcspn (s reject : list Z) : Z :=
  match s with
  | [] => 0
  | c :: s => if bool_decide (c ∈ reject) then 0 else 1 + strcspn s reject
  end.

Lemma strcspn_split s reject :
  exists p t, s = p ++ t /\ zlen p = strcspn s reject /\ Forall (fun c => c ∉ reject) p /\
    (t = [] \/ exists c t', t = c :: t' /\ c ∈ reject).
Proof.
  induction s as [|c s (p & t & -> & Hz & Hp & Ht)]; [exists [], []; repeat split; [constructor|by left]|]. cbn [strcspn].
  case_bool_decide as Hc.
  - exists [], (c :: p ++ t). repeat split; [constructor|]. right. eauto.
  - exists (c :: p), t. split; [done|]. split; [rewrite zlen_cons; lia|]. split; [by constructor|done].
Qed.

Lemma strcspn_none s reject : Forall (fun c => c ∉ reject) s -> strcspn s reject = zlen s.
Proof.
  induction 1 as [|c s Hc _ IH]; cbn [strcspn]; [done|]. rewrite bool_decide_false, IH by done. by rewrite zlen_cons.
Qed.

Lemma strcspn_app p c t reject : Forall (fun c => c ∉ reject) p -> c ∈ reject -> strcspn (p ++ c :: t) reject = zlen p.
Proof.
  intros Hp Hc. induction Hp as [|x p Hx _ IH]; cbn [app strcspn].
  - by rewrite bool_decide_true.
  - rewrite bool_decide_false, IH by done. rewrite zlen_cons. done.
Qed.

Lemma take_drop_zlen {A} (p t : list A) : take (Z.to_nat (zlen p)) (p ++ t) = p /\ drop (Z.to_nat (zlen p)) (p ++ t) = t.
Proof. unfold zlen. by rewrite Nat2Z.id, take_app_length, drop_app_length. Qed.

(** * Trimming lists *)

Section trimming.
Context {A : Type} (p : A -> bool).
Implicit Types l : list A.

Fixpoint drop_while l : list A :=
  match l with
  | [] => []
  | x :: l' => if p x then drop_while l' else l
  end.

Definition trim_end l : list A := reverse (drop_while (reverse l)).

Lemma trim_end_snoc l x : trim_end (l ++ [x]) = if p x then trim_end l else l ++ [x].
Proof.
  unfold trim_end. rewrite reverse_snoc. cbn [drop_while]. destruct (p x); [done|].
  by rewrite reverse_cons, reverse_involutive.
Qed.

Lemma trim_end_prefix l : exists k, l = trim_end l ++ k /\ Forall (fun x => p x = true) k.
Proof.
  induction l as [|x l (k & IH & Hk)] using rev_ind; [by exists []|]. rewrite trim_end_snoc. destruct (p x) eqn:E.
  - exists (k ++ [x]). split; [|apply Forall_app; split; [done|by constructor]]. by rewrite (assoc app), <-IH.
  - exists []. by rewrite app_nil_r.
Qed.

Lemma drop_while_suffix l : exists k, l = k ++ drop_while l /\ Forall (fun x => p x = true) k.
Proof.
  induction l as [|x l (k & IH & Hk)]; [by exists []|]. cbn [drop_while]. destruct (p x) eqn:E.
  - exists (x :: k). cbn [app]. rewrite <-IH. split; [done|]. by constructor.
  - by exists [].
Qed.
End trimming.

(** * Comparison functions *)

(** A C comparison function that orders: the sign flips with the arguments and
    "at most" is transitive.  Values that compare equal may differ. *)
Class CmpOk {A} (cmp : A -> A -> Z) : Prop := {
  cmp_flip x y : 0 < cmp x y <-> cmp y x < 0;
  cmp_trans x y z : cmp x y <= 0 -> cmp y z <= 0 -> cmp x z <= 0;
}.

Lemma cmp_refl {A} (cmp : A -> A -> Z) `{!CmpOk cmp} x : cmp x x = 0.
Proof. pose proof (cmp_flip x x). lia. Qed.

Lemma cmp_total {A} (cmp : A -> A -> Z) `{!CmpOk cmp} x y : cmp x y <= 0 \/ cmp y x <= 0.
Proof. pose proof (cmp_flip x y). lia. Qed.

Lemma cmp_eq_trans {A} (cmp : A -> A -> Z) `{!CmpOk cmp} x y z :
  cmp x y = 0 -> cmp y z = 0 -> cmp x z = 0.
Proof.
  intros Hxy Hyz. pose proof (cmp_trans x y z). pose proof (cmp_trans z y x).
  pose proof (cmp_flip x y). pose proof (cmp_flip y x). pose proof (cmp_flip y z).
  pose proof (cmp_flip z y). pose proof (cmp_flip x z). pose proof (cmp_flip z x). lia.
Qed.

Lemma cmp_lt_trans {A} (cmp : A -> A -> Z) `{!CmpOk cmp} x y z : cmp x y < 0 -> cmp y z <= 0 -> cmp x z < 0.
Proof.
  intros Hxy Hyz. pose proof (cmp_trans x y z). pose proof (cmp_flip x y). pose proof (cmp_flip y x).
  pose proof (cmp_trans y z x). pose proof (cmp_flip x z). pose proof (cmp_flip z x). lia.
Qed.

#[export] Instance Zsub_CmpOk : CmpOk Z.sub.
Proof. split; intros; lia. Qed.

(** Pairs compared by their first component, to instantiate theorems on orders
    in which distinct elements compare equal. *)
Definition key_diff (x y : Z * Z) : Z := fst x - fst y.

#[export] Instance key_diff_CmpOk : CmpOk key_diff.
Proof. unfold key_diff. split; intros; lia. Qed.

(** [memcmp] of byte strings of one length, and [strcmp] of strings without
    their terminating NUL. *)
Fixpoint bytes_cmp (a b : list Z) : Z :=
  match a, b with
  | [], [] => 0
  | [], _ :: _ => -1
  | _ :: _, [] => 1
  | x :: a, y :: b => if x =? y then bytes_cmp a b else x - y
  end.

Lemma bytes_cmp_eq a b : bytes_cmp a b = 0 <-> a = b.
Proof.
  revert b. induction a as [|x a IH]; intros [|y b]; cbn [bytes_cmp]; try done.
  destruct (Z.eqb_spec x y) as [->|]; [rewrite IH; split; congruence|].
  split; [lia|congruence].
Qed.

#[export] Instance bytes_cmp_CmpOk : CmpOk bytes_cmp.
Proof.
  split.
  - intros a. induction a as [|x a IH]; intros [|y b]; cbn [bytes_cmp]; try lia.
    rewrite (Z.eqb_sym y x). destruct (Z.eqb_spec x y); [apply IH|lia].
  - intros a. induction a as [|x a IH]; intros [|y b] [|z c]; cbn [bytes_cmp]; try lia.
    specialize (IH b c).
    destruct (Z.eqb_spec x y), (Z.eqb_spec y z), (Z.eqb_spec x z); lia.
Qed.

Lemma bytes_cmp_app p a b : bytes_cmp (p ++ a) (p ++ b) = bytes_cmp a b.
Proof. induction p as [|x p IH]; cbn [app bytes_cmp]; [done|]. by rewrite Z.eqb_refl. Qed.

Lemma bytes_cmp_lt_trans a b c : bytes_cmp a b < 0 -> bytes_cmp b c <= 0 -> bytes_cmp a c < 0.
Proof. apply cmp_lt_trans, _. Qed.

(** * Bytes and bits *)

Lemma is_bytes_app l k : is_bytes (l ++ k) <-> is_bytes l /\ is_bytes k.
Proof. apply Forall_app. Qed.

Lemma is_bytes_lookup l i x : is_bytes l -> l !! i = Some x -> is_byte x.
Proof. intros H Hx. by apply (Forall_lookup_1 _ _ _ _ H Hx). Qed.

Lemma is_bytes_slice l off n : is_bytes l -> is_bytes (slice l off n).
Proof. intros. by apply Forall_take, Forall_drop. Qed.

Lemma u8_small x : is_byte x -> u8 x = x.
Proof. intros. apply Z.mod_small. by change (2 ^ 8) with 256. Qed.
Lemma u8_byte x : is_byte (u8 x).
Proof. apply Z.mod_pos_bound. lia. Qed.
Lemma u32_range x : 0 <= u32 x < 2 ^ 32.
Proof. apply Z.mod_pos_bound. lia. Qed.
Lemma u32_small x : 0 <= x < 2 ^ 32 -> u32 x = x.
Proof. apply Z.mod_small. Qed.
Lemma u64_range x : 0 <= u64 x < 2 ^ 64.
Proof. apply Z.mod_pos_bound. lia. Qed.
Lemma u64_small x : 0 <= x < 2 ^ 64 -> u64 x = x.
Proof. apply Z.mod_small. Qed.

(** Reading a table of the values of a function. *)
Lemma rd_tabulate {A} (f : Z -> A) n i : 0 <= i < n -> rd (f <$> seqZ 0 n) i = Ret (f i).
Proof.
  intros Hi. apply rd_Ret. split; [lia|]. rewrite list_lookup_fmap, lookup_seqZ_lt by lia.
  cbn [fmap option_fmap option_map]. by rewrite Z2Nat.id, Z.add_0_l by lia.
Qed.

Lemma i32_small x : - 2 ^ 31 <= x < 2 ^ 31 -> i32 x = x.
Proof. intros. unfold i32. rewrite Z.mod_small; lia. Qed.
Lemma s8_small x : 0 <= x < 128 -> s8 x = x.
Proof. intros. unfold s8. change (2 ^ 7) with 128. change (2 ^ 8) with 256. rewrite Z.mod_small; lia. Qed.
Lemma s8_high x : 128 <= x < 256 -> s8 x = x - 256.
Proof.
  intros. unfold s8. change (2 ^ 7) with 128. change (2 ^ 8) with 256.
  replace (x + 128) with (x - 128 + 1 * 256) by lia. rewrite Z.mod_add by lia. rewrite Z.mod_small; lia.
Qed.

Lemma wnot_sub x : is_word x -> wnot x = 2 ^ 64 - 1 - x.
Proof.
  intros Hx. unfold wnot, u64, is_word in *. unfold Z.lnot.
  replace (Z.pred (- x)) with (2 ^ 64 - 1 - x + -1 * 2 ^ 64) by lia.
  rewrite Z.mod_add by lia. apply Z.mod_small. lia.
Qed.
Lemma wnot_word x : is_word (wnot x).
Proof. apply u64_range. Qed.

Lemma tru_true x : tru x = true <-> x <> 0.
Proof. unfold tru. destruct (Z.eqb_spec x 0); simpl; split; congruence. Qed.
Lemma tru_false x : tru x = false <-> x = 0.
Proof. unfold tru. destruct (Z.eqb_spec x 0); simpl; split; congruence. Qed.

(** A number below [2 ^ n] has no bit from [n] on, and conversely. *)
Lemma testbit_high x n i : 0 <= x < 2 ^ n -> n <= i -> Z.testbit x i = false.
Proof.
  intros Hx Hi. destruct (decide (0 <= n)) as [Hn|Hn].
  - rewrite <-(Z.mod_small x (2 ^ n)) by lia. by apply Z.mod_pow2_bits_high.
  - rewrite Z.pow_neg_r in Hx by lia. lia.
Qed.

Lemma lt_pow2_of_bits x n :
  0 <= n -> 0 <= x -> (forall i, n <= i -> Z.testbit x i = false) -> x < 2 ^ n.
Proof.
  intros Hn Hx Hb.
  assert (x = x mod 2 ^ n) as ->; [|apply Z.mod_pos_bound; lia].
  apply Z.bits_inj'. intros i Hi. destruct (decide (i < n)).
  - by rewrite Z.mod_pow2_bits_low by lia.
  - rewrite Z.mod_pow2_bits_high by lia. apply Hb. lia.
Qed.

Lemma lor_lt x y n : 0 <= n -> 0 <= x < 2 ^ n -> 0 <= y < 2 ^ n -> 0 <= Z.lor x y < 2 ^ n.
Proof.
  intros Hn Hx Hy. assert (0 <= Z.lor x y) by (apply Z.lor_nonneg; lia).
  split; [done|]. apply lt_pow2_of_bits; [lia|done|]. intros i ?.
  rewrite Z.lor_spec, (testbit_high x n i), (testbit_high y n i) by lia. done.
Qed.

Lemma lxor_lt x y n : 0 <= n -> 0 <= x < 2 ^ n -> 0 <= y < 2 ^ n -> 0 <= Z.lxor x y < 2 ^ n.
Proof.
  intros Hn Hx Hy. assert (0 <= Z.lxor x y) by (apply Z.lxor_nonneg; lia).
  split; [done|]. apply lt_pow2_of_bits; [lia|done|]. intros i ?.
  rewrite Z.lxor_spec, (testbit_high x n i), (testbit_high y n i) by lia. done.
Qed.

Lemma land_lt x y n : 0 <= n -> 0 <= x < 2 ^ n -> 0 <= Z.land x y < 2 ^ n.
Proof.
  intros Hn Hx. assert (0 <= Z.land x y) by (apply Z.land_nonneg; lia).
  split; [done|]. apply lt_pow2_of_bits; [lia|done|]. intros i ?.
  by rewrite Z.land_spec, (testbit_high x n i) by lia.
Qed.

(** The usual test of one bit. *)
Lemma tru_land_bit w c : 0 <= c -> tru (Z.land w (Z.shiftl 1 c)) = Z.testbit w c.
Proof.
  intros Hc. rewrite Z.shiftl_1_l. destruct (Z.testbit w c) eqn:E.
  - apply tru_true. intros Hz. apply (f_equal (fun x => Z.testbit x c)) in Hz.
    rewrite Z.land_spec, E, Z.pow2_bits_true, Z.bits_0 in Hz by lia. done.
  - apply tru_false. apply Z.bits_inj'. intros j Hj. rewrite Z.land_spec, Z.bits_0, Z.pow2_bits_eqb by lia.
    destruct (Z.eqb_spec c j) as [<-|]; [by rewrite E|apply andb_false_r].
Qed.

(** Or-ing a small number into shifted bits is an addition. *)
Lemma lor_shiftl_add a b n :
  0 <= n -> 0 <= b < 2 ^ n -> Z.lor (Z.shiftl a n) b = a * 2 ^ n + b.
Proof.
  intros Hn Hb.
  assert (Z.land (Z.shiftl a n) b = 0) as Hd.
  { apply Z.bits_inj'. intros i Hi. rewrite Z.land_spec, Z.bits_0.
    destruct (decide (i < n)).
    - by rewrite Z.shiftl_spec_low.
    - by rewrite (testbit_high b n i), andb_false_r by lia. }
  rewrite <-Z.lxor_lor, <-Z.add_nocarry_lxor by done.
  by rewrite Z.shiftl_mul_pow2.
Qed.

(** * Automation *)

(** Turn the boolean tests of the code into propositions. *)
Ltac zb :=
  repeat match goal with
  | H : (_ && _)%bool = true |- _ => apply andb_true_iff in H as [? ?]
  | H : (_ || _)%bool = false |- _ => apply orb_false_iff in H as [? ?]
  | H : negb _ = true |- _ => apply negb_true_iff in H
  | H : negb _ = false |- _ => apply negb_false_iff in H
  | H : (_ =? _) = true |- _ => apply Z.eqb_eq in H
  | H : (_ =? _) = false |- _ => apply Z.eqb_neq in H
  | H : (_ <? _) = true |- _ => apply Z.ltb_lt in H
  | H : (_ <? _) = false |- _ => apply Z.ltb_ge in H
  | H : (_ <=? _) = true |- _ => apply Z.leb_le in H
  | H : (_ <=? _) = false |- _ => apply Z.leb_gt in H
  | H : (_ >? _) = true |- _ => rewrite Z.gtb_ltb in H; apply Z.ltb_lt in H
  | H : (_ >? _) = false |- _ => rewrite Z.gtb_ltb in H; apply Z.ltb_ge in H
  | H : (_ >=? _) = true |- _ => rewrite Z.geb_leb in H; apply Z.leb_le in H
  | H : (_ >=? _) = false |- _ => rewrite Z.geb_leb in H; apply Z.leb_gt in H
  | H : tru _ = true |- _ => apply tru_true in H
  | H : tru _ = false |- _ => apply tru_false in H
  end.

(** Run the monad on outcomes that are known. *)
Ltac run := cbn [mbind outcome_bind mret outcome_ret].
Ltac run_in H := cbn [mbind outcome_bind mret outcome_ret] in H.

(** Hypotheses on concrete data are evaluated. *)
Ltac evaluate := first [ apply (bool_decide_unpack _); by vm_compute | by vm_compute ].

(** Case analysis on the test of the next [if]. *)
Ltac case_if :=
  match goal with
  | |- context [if ?b then _ else _] => destruct b eqn:?; zb
  end.

(** Extensionality of integers, with the usual bit lemmas. *)
Ltac bits_step :=
  match goal with
  | |- context [Z.testbit (Z.land _ _) _] => rewrite Z.land_spec
  | |- context [Z.testbit (Z.lor _ _) _] => rewrite Z.lor_spec
  | |- context [Z.testbit (Z.lxor _ _) _] => rewrite Z.lxor_spec
  | |- context [Z.testbit (Z.ldiff _ _) _] => rewrite Z.ldiff_spec
  | |- context [Z.testbit (Z.lnot _) _] => rewrite Z.lnot_spec by lia
  | |- context [Z.testbit (Z.shiftr _ _) _] => rewrite Z.shiftr_spec by lia
  | |- context [Z.testbit (Z.shiftl _ _) _] => rewrite Z.shiftl_spec by lia
  | |- context [Z.testbit 0 _] => rewrite Z.bits_0
  end.
Ltac bits := apply Z.bits_inj'; intros ?i ?Hi; repeat bits_step.
