(* ===== verification/Headers.v ===== *)
(** What the modelled .c files use of headers that are not part of the
    repository.  Each header is a class of operations and a class of the laws
    its documentation states; the components are proved against the classes,
    and an instance of each shows that the laws can be met. *)
From S2P Require Import Prelude.

(** * git-compat-util.h *)

Class GitCompat := {
  (** [unsigned_add_overflows(a, b)] on 64-bit unsigned values. *)
  unsigned_add_overflows : Z -> Z -> bool;
  (** The new value of [alloc] after [ALLOC_GROW(x, nr, alloc)]. *)
  alloc_grow : Z -> Z -> Z;
}.

Class GitCompatOk `{GitCompat} : Prop := {
  unsigned_add_overflows_spec a b :
    unsigned_add_overflows a b = (2 ^ 64 <=? a + b);
  alloc_grow_enough nr alloc : nr <= alloc_grow nr alloc;
  alloc_grow_keeps nr alloc : nr <= alloc -> alloc_grow nr alloc = alloc;
  alloc_grow_ge nr alloc : alloc <= alloc_grow nr alloc;
}.

(** * delta.h *)

(** The size header of a delta: base-128 digits, the lowest first, the high bit
    set on all but the last.  [fuel] bounds the digits of a 64-bit size. *)
Fixpoint delta_hdr_digits (fuel : nat) (l : Z) : list Z :=
  match fuel with
  | O => []
  | S fuel =>
      if l >=? 0x80 then u8 (Z.lor l 0x80) :: delta_hdr_digits fuel (Z.shiftr l 7)
      else [u8 l]
  end.

Class DeltaHeader := {
  DELTA_SIZE_MIN : Z;
  (** [get_delta_hdr_size(&data, top)]: the size read and the advanced [data]. *)
  get_delta_hdr_size : list Z -> Z -> Z -> outcome (Z * Z);
}.

Class DeltaHeaderOk `{DeltaHeader} : Prop := {
  (** "the smallest possible delta size is 4 bytes" *)
  DELTA_SIZE_MIN_spec : DELTA_SIZE_MIN = 4;
  (** It reads the byte at [data], even if that is [top], and goes on before
      [top] only; a size that does not fit is a fatal error. *)
  get_delta_hdr_size_safe buf data top :
    is_bytes buf -> 0 <= data <= top -> data < zlen buf -> top <= zlen buf ->
    wp (get_delta_hdr_size buf data top)
       (fun '(size, data') => 0 <= size < 2 ^ 64 /\ data < data' <= Z.max top (data + 1))
       (fun e => e = Bug);
  (** It decodes the digits a 64-bit size is written with. *)
  get_delta_hdr_size_decodes pre size post :
    0 <= size < 2 ^ 64 -> is_bytes pre -> is_bytes post ->
    let digits := delta_hdr_digits 10 size in
    let buf := pre ++ digits ++ post in
    get_delta_hdr_size buf (zlen pre) (zlen buf) = Ret (size, zlen pre + zlen digits);
}.

(** * ewok_rlw.h and ewok.h *)

Definition BITS_IN_EWORD : Z := 64.

(** Number of bits set among the first [n]. *)
Fixpoint bit_count (n : nat) (w : Z) : Z :=
  match n with
  | O => 0
  | S n => bit_count n w + Z.b2z (Z.testbit w (Z.of_nat n))
  end.

(** The run-length word: a bit, the number of words equal to it, and the number
    of literal words that follow.  Setters return the updated word. *)
Class Rlw := {
  RLW_LARGEST_RUNNING_COUNT : Z;
  RLW_LARGEST_LITERAL_COUNT : Z;
  rlw_get_run_bit : Z -> Z;
  rlw_set_run_bit : Z -> Z -> Z;
  rlw_get_running_len : Z -> Z;
  rlw_set_running_len : Z -> Z -> Z;
  rlw_get_literal_words : Z -> Z;
  rlw_set_literal_words : Z -> Z -> Z;
  rlw_size : Z -> Z;
  (** of an iterator: running length and literal words; pointer and literal words *)
  rlwit_word_size : Z -> Z -> Z;
  rlwit_literal_words : Z -> Z -> Z;
  ewah_bit_popcount64 : Z -> Z;
}.

Class RlwOk `{Rlw} : Prop := {
  (** 1 bit, 32 bits, 31 bits *)
  rlw_running_max : RLW_LARGEST_RUNNING_COUNT = 2 ^ 32 - 1;
  rlw_literal_max : RLW_LARGEST_LITERAL_COUNT = 2 ^ 31 - 1;
  rlw_run_bit_range w : is_word w -> rlw_get_run_bit w = 0 \/ rlw_get_run_bit w = 1;
  rlw_running_len_range w :
    is_word w -> 0 <= rlw_get_running_len w <= RLW_LARGEST_RUNNING_COUNT;
  rlw_literal_words_range w :
    is_word w -> 0 <= rlw_get_literal_words w <= RLW_LARGEST_LITERAL_COUNT;
  (** the word 0 is the empty run *)
  rlw_zero : rlw_get_run_bit 0 = 0 /\ rlw_get_running_len 0 = 0 /\ rlw_get_literal_words 0 = 0;
  (** a setter changes its field and no other *)
  rlw_set_run_bit_spec w v :
    is_word w -> v = 0 \/ v = 1 ->
    is_word (rlw_set_run_bit w v) /\
    rlw_get_run_bit (rlw_set_run_bit w v) = v /\
    rlw_get_running_len (rlw_set_run_bit w v) = rlw_get_running_len w /\
    rlw_get_literal_words (rlw_set_run_bit w v) = rlw_get_literal_words w;
  rlw_set_running_len_spec w l :
    is_word w -> 0 <= l <= RLW_LARGEST_RUNNING_COUNT ->
    is_word (rlw_set_running_len w l) /\
    rlw_get_run_bit (rlw_set_running_len w l) = rlw_get_run_bit w /\
    rlw_get_running_len (rlw_set_running_len w l) = l /\
    rlw_get_literal_words (rlw_set_running_len w l) = rlw_get_literal_words w;
  rlw_set_literal_words_spec w l :
    is_word w -> 0 <= l <= RLW_LARGEST_LITERAL_COUNT ->
    is_word (rlw_set_literal_words w l) /\
    rlw_get_run_bit (rlw_set_literal_words w l) = rlw_get_run_bit w /\
    rlw_get_running_len (rlw_set_literal_words w l) = rlw_get_running_len w /\
    rlw_get_literal_words (rlw_set_literal_words w l) = l;
  rlw_size_spec w : is_word w -> rlw_size w = rlw_get_running_len w + rlw_get_literal_words w;
  rlwit_word_size_spec rl lw : rlwit_word_size rl lw = rl + lw;
  rlwit_literal_words_spec p lw : rlwit_literal_words p lw = p - lw;
  ewah_bit_popcount64_spec w : is_word w -> ewah_bit_popcount64 w = bit_count 64 w;
}.

(** * hash.h and hash-lookup.h *)

Class HashHeader := {
  rawsz : Z;                              (* [the_hash_algo->rawsz] *)
  oidcmp : list Z -> list Z -> Z;         (* also [hashcmp] *)
  (** An insertion point as a negative number; fatal when it does not fit. *)
  index_pos_to_insert_pos : Z -> outcome Z;
}.

Class HashHeaderOk `{HashHeader} : Prop := {
  rawsz_bound : 2 <= rawsz < 2 ^ 16;
  oidcmp_spec a b : Z.sgn (oidcmp a b) = Z.sgn (bytes_cmp a b);
  index_pos_to_insert_pos_spec pos :
    0 <= pos -> index_pos_to_insert_pos pos = if pos <? 2 ^ 31 then Ret (-1 - pos) else Err Bug;
}.

(** * git-compat-util.h, for varint.c *)

Class VarintHeader := {
  (** [MSB(x, bits)]: the [bits] highest bits of a 64-bit value, in place. *)
  MSB : Z -> Z -> Z;
}.

Class VarintHeaderOk `{VarintHeader} : Prop := {
  MSB_spec x bits :
    is_word x -> 0 <= bits <= 64 -> MSB x bits = Z.shiftl (Z.shiftr x (64 - bits)) (64 - bits);
}.

(** * Byte order: ntohl, htonl, get_be32 and put_be32 *)

(** The big-endian bytes of a 32-bit value. *)
Definition be32 (x : Z) : list Z :=
  [Z.shiftr x 24 mod 256; Z.shiftr x 16 mod 256; Z.shiftr x 8 mod 256; x mod 256].

Class ByteOrder := {
  get_be32 : list Z -> Z;      (* of the four bytes at the pointer *)
  be32_bytes : Z -> list Z;    (* the memory of [htonl(x)], and what [put_be32] writes *)
}.

Class ByteOrderOk `{ByteOrder} : Prop := {
  be32_bytes_spec x : 0 <= x < 2 ^ 32 -> be32_bytes x = be32 x;
  get_be32_spec a b c d :
    is_byte a -> is_byte b -> is_byte c -> is_byte d ->
    get_be32 [a; b; c; d] = a * 2 ^ 24 + b * 2 ^ 16 + c * 2 ^ 8 + d;
}.

(** ** An implementation of the laws *)

Definition compat_ref : GitCompat := {|
  unsigned_add_overflows a b := 2 ^ 64 <=? a + b;
  alloc_grow nr alloc := if nr <=? alloc then alloc else Z.max nr ((alloc + 16) * 3 / 2);
|}.

Lemma compat_ref_ok : @GitCompatOk compat_ref.
Proof.
  split; simpl; intros; [done|..]; case_if; lia.
Qed.

Fixpoint hdr_size_ref (fuel : nat) (buf : list Z) (data top size i : Z) : outcome (Z * Z) :=
  match fuel with
  | O => Err Bug
  | S fuel =>
      cmd ← rd buf data;
      let size := size + Z.shiftl (Z.land cmd 0x7f) i in
      if 2 ^ 64 <=? size then Err Bug
      else if tru (Z.land cmd 0x80) && (data + 1 <? top)
      then hdr_size_ref fuel buf (data + 1) top size (i + 7)
      else Ret (size, data + 1)
  end.

Definition delta_ref : DeltaHeader := {|
  DELTA_SIZE_MIN := 4;
  get_delta_hdr_size buf data top := hdr_size_ref 10 buf data top 0 0;
|}.

Lemma land_127 x : Z.land x 0x7f = x mod 128.
Proof. change 0x7f with (Z.ones 7). by rewrite Z.land_ones. Qed.

Lemma land_128_tru x : tru (Z.land x 0x80) = Z.testbit x 7.
Proof.
  assert (Z.land x 0x80 = if Z.testbit x 7 then 0x80 else 0) as ->.
  { change 0x80 with (2 ^ 7). apply Z.bits_inj'. intros i Hi.
    rewrite Z.land_spec, Z.pow2_bits_eqb by lia.
    destruct (Z.eqb_spec 7 i) as [<-|Hne].
    - rewrite andb_true_r. by destruct (Z.testbit x 7).
    - rewrite andb_false_r. destruct (Z.testbit x 7); [|by rewrite Z.bits_0].
      rewrite Z.pow2_bits_eqb by lia. by apply eq_sym, Z.eqb_neq. }
  by destruct (Z.testbit x 7).
Qed.

(** The continuation digit of a size: its low seven bits, with the high bit. *)
Lemma hdr_digit l :
  0 <= l ->
  Z.land (u8 (Z.lor l 0x80)) 0x7f = l mod 128 /\ tru (Z.land (u8 (Z.lor l 0x80)) 0x80) = true.
Proof.
  intros Hl. split.
  - rewrite land_127. unfold u8. change 128 with (2 ^ 7). apply Z.bits_inj'. intros i Hi.
    destruct (decide (i < 7)).
    + rewrite !Z.mod_pow2_bits_low, Z.lor_spec by lia.
      change 0x80 with (2 ^ 7). rewrite Z.pow2_bits_false, orb_false_r by lia. done.
    + by rewrite !Z.mod_pow2_bits_high by lia.
  - rewrite land_128_tru. unfold u8. rewrite Z.mod_pow2_bits_low, Z.lor_spec by lia.
    by rewrite orb_true_r.
Qed.

Lemma hdr_size_ref_safe fuel buf data top size i :
  is_bytes buf -> 0 <= data <= top -> data < zlen buf -> top <= zlen buf -> 0 <= size -> 0 <= i ->
  wp (hdr_size_ref fuel buf data top size i)
     (fun '(size, data') => 0 <= size < 2 ^ 64 /\ data < data' <= Z.max top (data + 1)) (fun e => e = Bug).
Proof.
  intros Hb. revert data size i. induction fuel as [|fuel IH]; intros data size i Hd Hd' Ht Hs Hi;
    cbn [hdr_size_ref]; [done|].
  destruct (rd_in buf data) as [c Hc]; [lia|]. rewrite Hc. run.
  assert (0 <= Z.shiftl (Z.land c 0x7f) i).
  { apply Z.shiftl_nonneg, Z.land_nonneg. lia. }
  case_if; [done|]. case_if; [|cbn [wp]; lia].
  eapply wp_mono; [apply IH; lia| |done]. intros [s d] [? ?]. lia.
Qed.

Lemma hdr_size_ref_decodes fuel buf data rest l size i :
  at_pos buf data (delta_hdr_digits fuel l ++ rest) ->
  0 <= l < 2 ^ (7 * Z.of_nat fuel) -> 0 <= i -> 0 <= size -> size + l * 2 ^ i < 2 ^ 64 ->
  (0 < fuel)%nat ->
  hdr_size_ref fuel buf data (zlen buf) size i =
    Ret (size + l * 2 ^ i, data + zlen (delta_hdr_digits fuel l)).
Proof.
  revert data l size i. induction fuel as [|fuel IH]; intros data l size i Hp Hl Hi Hs Hb Hf;
    [lia|]. assert (0 < 2 ^ i) by (apply Z.pow_pos_nonneg; lia).
  cbn [hdr_size_ref delta_hdr_digits] in *.
  pose proof (at_pos_len _ _ _ Hp) as Hlen. rewrite zlen_app in Hlen.
  pose proof (zlen_nonneg rest).
  destruct (l >=? 0x80) eqn:E; zb.
  - destruct (hdr_digit l) as [D1 D2]; [lia|].
    apply at_pos_cons in Hp as [-> Hp]. run. rewrite D1, D2.
    rewrite Z.shiftl_mul_pow2 by lia.
    pose proof (Z.div_mod l 128 ltac:(lia)) as Hdm. pose proof (Z.mod_pos_bound l 128 ltac:(lia)).
    assert (Z.shiftr l 7 = l / 128) as Hsh by (by rewrite Z.shiftr_div_pow2).
    rewrite Hsh in *.
    case_if; [nia|]. rewrite zlen_cons in *.
    assert (0 < fuel)%nat.
    { destruct fuel; [|lia]. change (7 * Z.of_nat 1) with 7 in Hl. change (2 ^ 7) with 128 in Hl. lia. }
    assert (1 <= zlen (delta_hdr_digits fuel (l / 128))).
    { destruct fuel; [lia|]. cbn [delta_hdr_digits]. case_if; rewrite zlen_cons; [|done].
      match goal with |- _ <= 1 + zlen ?k => pose proof (zlen_nonneg k) end. lia. }
    assert ((data + 1 <? zlen buf) = true) as -> by (apply Z.ltb_lt; lia). cbn [andb].
    assert (2 ^ (i + 7) = 128 * 2 ^ i) as Hpow by (rewrite Z.pow_add_r by lia; lia).
    rewrite (IH _ (l / 128)); [|done| |lia|nia|rewrite Hpow; nia|done].
    + rewrite Hpow. f_equal. f_equal; [nia|lia].
    + split; [apply Z.div_pos; lia|]. apply Z.div_lt_upper_bound; [lia|].
      rewrite Nat2Z.inj_succ in Hl.
      replace (7 * Z.succ (Z.of_nat fuel)) with (7 + 7 * Z.of_nat fuel) in Hl by lia.
      rewrite Z.pow_add_r in Hl by lia. lia.
  - apply at_pos_cons in Hp as [-> Hp]. run.
    rewrite u8_small by (unfold is_byte; lia). rewrite land_127, Z.mod_small by lia.
    rewrite Z.shiftl_mul_pow2 by lia. case_if; [nia|].
    rewrite land_128_tru, (testbit_high l 7) by lia. cbn [andb].
    by rewrite zlen_cons, zlen_nil.
Qed.

Lemma delta_ref_ok : @DeltaHeaderOk delta_ref.
Proof.
  split; unfold DELTA_SIZE_MIN, get_delta_hdr_size, delta_ref.
  - done.
  - intros. by apply hdr_size_ref_safe.
  - intros pre size post Hs Hpre Hpost.
    rewrite (hdr_size_ref_decodes 10 _ _ post size 0 0); [|apply at_pos_pre|lia..].
    do 2 f_equal. lia.
Qed.

(** The fields of a run-length word at bits 0, 1 to 32 and 33 to 63. *)
Definition rlw_ref : Rlw := {|
  RLW_LARGEST_RUNNING_COUNT := 2 ^ 32 - 1;
  RLW_LARGEST_LITERAL_COUNT := 2 ^ 31 - 1;
  rlw_get_run_bit w := w mod 2;
  rlw_set_run_bit w v := w / 2 * 2 + v;
  rlw_get_running_len w := w / 2 mod 2 ^ 32;
  rlw_set_running_len w l := w / 2 ^ 33 * 2 ^ 33 + l * 2 + w mod 2;
  rlw_get_literal_words w := w / 2 ^ 33;
  rlw_set_literal_words w l := l * 2 ^ 33 + w mod 2 ^ 33;
  rlw_size w := w / 2 mod 2 ^ 32 + w / 2 ^ 33;
  rlwit_word_size rl lw := rl + lw;
  rlwit_literal_words p lw := p - lw;
  ewah_bit_popcount64 w := bit_count 64 w;
|}.

Lemma rlw_ref_ok : @RlwOk rlw_ref.
Proof.
  split; cbn -[Z.mul Z.div Z.modulo Z.pow bit_count]; unfold is_word;
    change (2 ^ 64) with (8589934592 * 2147483648); change (2 ^ 33) with 8589934592;
    change (2 ^ 32) with 4294967296; change (2 ^ 31) with 2147483648; try done;
    intros; Z.to_euclidean_division_equations; lia.
Qed.

(** Hashes of [n] bytes. *)
Definition hash_ref (n : Z) : HashHeader := {|
  rawsz := n;
  oidcmp := bytes_cmp;
  index_pos_to_insert_pos pos := if pos <? 2 ^ 31 then Ret (-1 - pos) else Err Bug;
|}.

Lemma hash_ref_ok n : 2 <= n < 2 ^ 16 -> @HashHeaderOk (hash_ref n).
Proof. split; done. Qed.

Definition varint_ref : VarintHeader := {|
  MSB x bits := Z.shiftl (Z.shiftr x (64 - bits)) (64 - bits);
|}.

Lemma varint_ref_ok : @VarintHeaderOk varint_ref.
Proof. by split. Qed.

Definition order_ref : ByteOrder := {|
  get_be32 bs := foldl (fun v b => v * 256 + b) 0 bs;
  be32_bytes := be32;
|}.

Lemma order_ref_ok : @ByteOrderOk order_ref.
Proof.
  split; [done|]. intros a b c d Ha Hb Hc Hd. cbn [get_be32 order_ref foldl].
  change (2 ^ 24) with (256 * 256 * 256). change (2 ^ 16) with (256 * 256). change (2 ^ 8) with 256. lia.
Qed.
