(* ===== verification/Rabin.v ===== *)
(** The Rabin fingerprint of diff-delta.c: the tables [T] and [U], the step that
    feeds one byte into a 16-byte window and the step that lets the oldest byte
    leave it.  The theorems show that the table lookups stay inside the tables
    (the fingerprint keeps 31 bits) and that rolling the window gives the
    fingerprint of the bytes it then holds. *)
From S2P Require Import Prelude.

Definition RABIN_SHIFT : Z := 23.
Definition RABIN_WINDOW : Z := 16.

Definition T : list Z :=
  [ 0x00000000; 0xab59b4d1; 0x56b369a2; 0xfdeadd73; 0x063f6795; 0xad66d344;
    0x508c0e37; 0xfbd5bae6; 0x0c7ecf2a; 0xa7277bfb; 0x5acda688; 0xf1941259;
    0x0a41a8bf; 0xa1181c6e; 0x5cf2c11d; 0xf7ab75cc; 0x18fd9e54; 0xb3a42a85;
    0x4e4ef7f6; 0xe5174327; 0x1ec2f9c1; 0xb59b4d10; 0x48719063; 0xe32824b2;
    0x1483517e; 0xbfdae5af; 0x423038dc; 0xe9698c0d; 0x12bc36eb; 0xb9e5823a;
    0x440f5f49; 0xef56eb98; 0x31fb3ca8; 0x9aa28879; 0x6748550a; 0xcc11e1db;
    0x37c45b3d; 0x9c9defec; 0x6177329f; 0xca2e864e; 0x3d85f382; 0x96dc4753;
    0x6b369a20; 0xc06f2ef1; 0x3bba9417; 0x90e320c6; 0x6d09fdb5; 0xc6504964;
    0x2906a2fc; 0x825f162d; 0x7fb5cb5e; 0xd4ec7f8f; 0x2f39c569; 0x846071b8;
    0x798aaccb; 0xd2d3181a; 0x25786dd6; 0x8e21d907; 0x73cb0474; 0xd892b0a5;
    0x23470a43; 0x881ebe92; 0x75f463e1; 0xdeadd730; 0x63f67950; 0xc8afcd81;
    0x354510f2; 0x9e1ca423; 0x65c91ec5; 0xce90aa14; 0x337a7767; 0x9823c3b6;
    0x6f88b67a; 0xc4d102ab; 0x393bdfd8; 0x92626b09; 0x69b7d1ef; 0xc2ee653e;
    0x3f04b84d; 0x945d0c9c; 0x7b0be704; 0xd05253d5; 0x2db88ea6; 0x86e13a77;
    0x7d348091; 0xd66d3440; 0x2b87e933; 0x80de5de2; 0x7775282e; 0xdc2c9cff;
    0x21c6418c; 0x8a9ff55d; 0x714a4fbb; 0xda13fb6a; 0x27f92619; 0x8ca092c8;
    0x520d45f8; 0xf954f129; 0x04be2c5a; 0xafe7988b; 0x5432226d; 0xff6b96bc;
    0x02814bcf; 0xa9d8ff1e; 0x5e738ad2; 0xf52a3e03; 0x08c0e370; 0xa39957a1;
    0x584ced47; 0xf3155996; 0x0eff84e5; 0xa5a63034; 0x4af0dbac; 0xe1a96f7d;
    0x1c43b20e; 0xb71a06df; 0x4ccfbc39; 0xe79608e8; 0x1a7cd59b; 0xb125614a;
    0x468e1486; 0xedd7a057; 0x103d7d24; 0xbb64c9f5; 0x40b17313; 0xebe8c7c2;
    0x16021ab1; 0xbd5bae60; 0x6cb54671; 0xc7ecf2a0; 0x3a062fd3; 0x915f9b02;
    0x6a8a21e4; 0xc1d39535; 0x3c394846; 0x9760fc97; 0x60cb895b; 0xcb923d8a;
    0x3678e0f9; 0x9d215428; 0x66f4eece; 0xcdad5a1f; 0x3047876c; 0x9b1e33bd;
    0x7448d825; 0xdf116cf4; 0x22fbb187; 0x89a20556; 0x7277bfb0; 0xd92e0b61;
    0x24c4d612; 0x8f9d62c3; 0x7836170f; 0xd36fa3de; 0x2e857ead; 0x85dcca7c;
    0x7e09709a; 0xd550c44b; 0x28ba1938; 0x83e3ade9; 0x5d4e7ad9; 0xf617ce08;
    0x0bfd137b; 0xa0a4a7aa; 0x5b711d4c; 0xf028a99d; 0x0dc274ee; 0xa69bc03f;
    0x5130b5f3; 0xfa690122; 0x0783dc51; 0xacda6880; 0x570fd266; 0xfc5666b7;
    0x01bcbbc4; 0xaae50f15; 0x45b3e48d; 0xeeea505c; 0x13008d2f; 0xb85939fe;
    0x438c8318; 0xe8d537c9; 0x153feaba; 0xbe665e6b; 0x49cd2ba7; 0xe2949f76;
    0x1f7e4205; 0xb427f6d4; 0x4ff24c32; 0xe4abf8e3; 0x19412590; 0xb2189141;
    0x0f433f21; 0xa41a8bf0; 0x59f05683; 0xf2a9e252; 0x097c58b4; 0xa225ec65;
    0x5fcf3116; 0xf49685c7; 0x033df00b; 0xa86444da; 0x558e99a9; 0xfed72d78;
    0x0502979e; 0xae5b234f; 0x53b1fe3c; 0xf8e84aed; 0x17bea175; 0xbce715a4;
    0x410dc8d7; 0xea547c06; 0x1181c6e0; 0xbad87231; 0x4732af42; 0xec6b1b93;
    0x1bc06e5f; 0xb099da8e; 0x4d7307fd; 0xe62ab32c; 0x1dff09ca; 0xb6a6bd1b;
    0x4b4c6068; 0xe015d4b9; 0x3eb80389; 0x95e1b758; 0x680b6a2b; 0xc352defa;
    0x3887641c; 0x93ded0cd; 0x6e340dbe; 0xc56db96f; 0x32c6cca3; 0x999f7872;
    0x6475a501; 0xcf2c11d0; 0x34f9ab36; 0x9fa01fe7; 0x624ac294; 0xc9137645;
    0x26459ddd; 0x8d1c290c; 0x70f6f47f; 0xdbaf40ae; 0x207afa48; 0x8b234e99;
    0x76c993ea; 0xdd90273b; 0x2a3b52f7; 0x8162e626; 0x7c883b55; 0xd7d18f84;
    0x2c043562; 0x875d81b3; 0x7ab75cc0; 0xd1eee811 ].

Definition U : list Z :=
  [ 0x00000000; 0x7eb5200d; 0x5633f4cb; 0x2886d4c6; 0x073e5d47; 0x798b7d4a;
    0x510da98c; 0x2fb88981; 0x0e7cba8e; 0x70c99a83; 0x584f4e45; 0x26fa6e48;
    0x0942e7c9; 0x77f7c7c4; 0x5f711302; 0x21c4330f; 0x1cf9751c; 0x624c5511;
    0x4aca81d7; 0x347fa1da; 0x1bc7285b; 0x65720856; 0x4df4dc90; 0x3341fc9d;
    0x1285cf92; 0x6c30ef9f; 0x44b63b59; 0x3a031b54; 0x15bb92d5; 0x6b0eb2d8;
    0x4388661e; 0x3d3d4613; 0x39f2ea38; 0x4747ca35; 0x6fc11ef3; 0x11743efe;
    0x3eccb77f; 0x40799772; 0x68ff43b4; 0x164a63b9; 0x378e50b6; 0x493b70bb;
    0x61bda47d; 0x1f088470; 0x30b00df1; 0x4e052dfc; 0x6683f93a; 0x1836d937;
    0x250b9f24; 0x5bbebf29; 0x73386bef; 0x0d8d4be2; 0x2235c263; 0x5c80e26e;
    0x740636a8; 0x0ab316a5; 0x2b7725aa; 0x55c205a7; 0x7d44d161; 0x03f1f16c;
    0x2c4978ed; 0x52fc58e0; 0x7a7a8c26; 0x04cfac2b; 0x73e5d470; 0x0d50f47d;
    0x25d620bb; 0x5b6300b6; 0x74db8937; 0x0a6ea93a; 0x22e87dfc; 0x5c5d5df1;
    0x7d996efe; 0x032c4ef3; 0x2baa9a35; 0x551fba38; 0x7aa733b9; 0x041213b4;
    0x2c94c772; 0x5221e77f; 0x6f1ca16c; 0x11a98161; 0x392f55a7; 0x479a75aa;
    0x6822fc2b; 0x1697dc26; 0x3e1108e0; 0x40a428ed; 0x61601be2; 0x1fd53bef;
    0x3753ef29; 0x49e6cf24; 0x665e46a5; 0x18eb66a8; 0x306db26e; 0x4ed89263;
    0x4a173e48; 0x34a21e45; 0x1c24ca83; 0x6291ea8e; 0x4d29630f; 0x339c4302;
    0x1b1a97c4; 0x65afb7c9; 0x446b84c6; 0x3adea4cb; 0x1258700d; 0x6ced5000;
    0x4355d981; 0x3de0f98c; 0x15662d4a; 0x6bd30d47; 0x56ee4b54; 0x285b6b59;
    0x00ddbf9f; 0x7e689f92; 0x51d01613; 0x2f65361e; 0x07e3e2d8; 0x7956c2d5;
    0x5892f1da; 0x2627d1d7; 0x0ea10511; 0x7014251c; 0x5facac9d; 0x21198c90;
    0x099f5856; 0x772a785b; 0x4c921c31; 0x32273c3c; 0x1aa1e8fa; 0x6414c8f7;
    0x4bac4176; 0x3519617b; 0x1d9fb5bd; 0x632a95b0; 0x42eea6bf; 0x3c5b86b2;
    0x14dd5274; 0x6a687279; 0x45d0fbf8; 0x3b65dbf5; 0x13e30f33; 0x6d562f3e;
    0x506b692d; 0x2ede4920; 0x06589de6; 0x78edbdeb; 0x5755346a; 0x29e01467;
    0x0166c0a1; 0x7fd3e0ac; 0x5e17d3a3; 0x20a2f3ae; 0x08242768; 0x76910765;
    0x59298ee4; 0x279caee9; 0x0f1a7a2f; 0x71af5a22; 0x7560f609; 0x0bd5d604;
    0x235302c2; 0x5de622cf; 0x725eab4e; 0x0ceb8b43; 0x246d5f85; 0x5ad87f88;
    0x7b1c4c87; 0x05a96c8a; 0x2d2fb84c; 0x539a9841; 0x7c2211c0; 0x029731cd;
    0x2a11e50b; 0x54a4c506; 0x69998315; 0x172ca318; 0x3faa77de; 0x411f57d3;
    0x6ea7de52; 0x1012fe5f; 0x38942a99; 0x46210a94; 0x67e5399b; 0x19501996;
    0x31d6cd50; 0x4f63ed5d; 0x60db64dc; 0x1e6e44d1; 0x36e89017; 0x485db01a;
    0x3f77c841; 0x41c2e84c; 0x69443c8a; 0x17f11c87; 0x38499506; 0x46fcb50b;
    0x6e7a61cd; 0x10cf41c0; 0x310b72cf; 0x4fbe52c2; 0x67388604; 0x198da609;
    0x36352f88; 0x48800f85; 0x6006db43; 0x1eb3fb4e; 0x238ebd5d; 0x5d3b9d50;
    0x75bd4996; 0x0b08699b; 0x24b0e01a; 0x5a05c017; 0x728314d1; 0x0c3634dc;
    0x2df207d3; 0x534727de; 0x7bc1f318; 0x0574d315; 0x2acc5a94; 0x54797a99;
    0x7cffae5f; 0x024a8e52; 0x06852279; 0x78300274; 0x50b6d6b2; 0x2e03f6bf;
    0x01bb7f3e; 0x7f0e5f33; 0x57888bf5; 0x293dabf8; 0x08f998f7; 0x764cb8fa;
    0x5eca6c3c; 0x207f4c31; 0x0fc7c5b0; 0x7172e5bd; 0x59f4317b; 0x27411176;
    0x1a7c5765; 0x64c97768; 0x4c4fa3ae; 0x32fa83a3; 0x1d420a22; 0x63f72a2f;
    0x4b71fee9; 0x35c4dee4; 0x1400edeb; 0x6ab5cde6; 0x42331920; 0x3c86392d;
    0x133eb0ac; 0x6d8b90a1; 0x450d4467; 0x3bb8646a ].

(** [val = ((val << 8) | c) ^ T[val >> RABIN_SHIFT]], in 32 bits. *)
Definition rabin_step (val c : Z) : outcome Z :=
  t ← rd T (Z.shiftr val RABIN_SHIFT);
  Ret (Z.lxor (Z.lor (u32 (Z.shiftl val 8)) c) t).

#[global] Arguments T : simpl never.
#[global] Arguments U : simpl never.
#[global] Arguments rabin_step : simpl never.

(** The fingerprint of the [n] bytes from [off] on, starting from [val]: the
    loops [for (i = ...) val = ((val << 8) | data[i]) ^ T[val >> RABIN_SHIFT]]. *)
Fixpoint rabin_window (buf : list Z) (off : Z) (n : nat) (val : Z) : outcome Z :=
  match n with
  | O => Ret val
  | S n =>
      c ← rd buf off;
      val ← rabin_step val c;
      rabin_window buf (off + 1) n val
  end.

(** [val ^= U[data[-RABIN_WINDOW]]; val = ((val << 8) | *data) ^ T[...]]. *)
Definition rabin_roll (buf : list Z) (data val : Z) : outcome Z :=
  old ← rd buf (data - RABIN_WINDOW);
  u ← rd U old;
  c ← rd buf data;
  rabin_step (Z.lxor val u) c.

(** ** The fingerprint keeps 31 bits *)

(** The tables, checked entry by entry: an entry of [T] cancels bit 31 of the
    shifted fingerprint, [T] is linear over xor, and [U] holds the
    contribution of the oldest byte after fifteen more bytes. *)
Definition T_cancels : bool :=
  forallb (fun i => match T !! i with
                    | Some t => (0 <=? t) && (t <? 2 ^ 32) &&
                                Bool.eqb (Z.testbit t 31) (Nat.odd i)
                    | None => false
                    end) (seq 0 256).

Lemma T_cancels_ok : T_cancels = true.
Proof. vm_compute. reflexivity. Qed.

Lemma length_T_nat : length T = 256%nat.
Proof. vm_compute. reflexivity. Qed.
Lemma length_T : zlen T = 256.
Proof. reflexivity. Qed.
Lemma length_U : zlen U = 256.
Proof. reflexivity. Qed.

Lemma T_entry i t :
  T !! i = Some t -> 0 <= t < 2 ^ 32 /\ Z.testbit t 31 = Nat.odd i.
Proof.
  intros Ht. assert (i < 256)%nat as Hi.
  { apply lookup_lt_Some in Ht. by rewrite length_T_nat in Ht. }
  pose proof T_cancels_ok as H. unfold T_cancels in H.
  rewrite forallb_forall in H. specialize (H i). rewrite Ht in H.
  assert (In i (seq 0 256)) as Hin by (apply in_seq; lia).
  specialize (H Hin).
  apply andb_true_iff in H as [H1 H2]. zb. split; [lia|by apply Bool.eqb_prop].
Qed.

Lemma rd_T val :
  0 <= val < 2 ^ 31 -> exists t, rd T (Z.shiftr val RABIN_SHIFT) = Ret t /\
    0 <= t < 2 ^ 32 /\ Z.testbit t 31 = Z.testbit val 23.
Proof.
  intros Hv. unfold RABIN_SHIFT.
  assert (0 <= Z.shiftr val 23 < 256) as Hi.
  { rewrite Z.shiftr_div_pow2 by lia. split; [apply Z.div_pos; lia|].
    apply Z.div_lt_upper_bound; lia. }
  destruct (rd_in T (Z.shiftr val 23)) as [t Ht]; [rewrite length_T; lia|].
  exists t. split; [done|]. apply rd_Ret in Ht as [_ Ht].
  apply T_entry in Ht as [? Hb]. split; [done|]. rewrite Hb.
  replace 23 with (0 + 23) at 2 by lia. rewrite <-Z.shiftr_spec by lia.
  rewrite <-(Z2Nat.id (Z.shiftr val 23)) at 2 by lia.
  rewrite Z.bit0_odd. generalize (Z.to_nat (Z.shiftr val 23)). intros n.
  rewrite <-Nat.negb_even, <-Z.negb_even. f_equal.
  destruct (Nat.even n) eqn:E; symmetry.
  - apply Nat.even_spec in E as [m ->]. apply Z.even_spec. exists (Z.of_nat m). lia.
  - rewrite <-not_true_iff_false, Nat.even_spec in E.
    apply not_true_iff_false. rewrite Z.even_spec. intros [m Hm]. apply E.
    exists (Z.to_nat m). lia.
Qed.

Lemma rabin_step_range val c :
  0 <= val < 2 ^ 31 -> is_byte c ->
  exists v, rabin_step val c = Ret v /\ 0 <= v < 2 ^ 31.
Proof.
  intros Hv Hc. destruct (rd_T val Hv) as (t & Ht & Hr & Hb).
  unfold rabin_step. rewrite Ht. simpl. eexists. split; [done|].
  pose proof (u32_range (Z.shiftl val 8)) as Hu.
  assert (0 <= Z.lor (u32 (Z.shiftl val 8)) c < 2 ^ 32) as Hl.
  { apply lor_lt; [lia..|]. unfold is_byte in Hc. lia. }
  destruct (lxor_lt _ t 32 ltac:(lia) Hl Hr) as [H0 H1].
  split; [done|]. apply lt_pow2_of_bits; [lia|done|]. intros i Hi.
  destruct (decide (i = 31)) as [->|].
  - rewrite Z.lxor_spec, Z.lor_spec, Hb. unfold u32.
    rewrite Z.mod_pow2_bits_low, Z.shiftl_spec by lia.
    rewrite (testbit_high c 8 31) by (exact Hc || done).
    rewrite orb_false_r. apply xorb_nilpotent.
  - apply (testbit_high _ 32); lia.
Qed.

(** The window loop reads inside the buffer and keeps 31 bits. *)
Lemma rabin_window_range buf off n val :
  is_bytes buf -> 0 <= off -> off + Z.of_nat n <= zlen buf -> 0 <= val < 2 ^ 31 ->
  exists v, rabin_window buf off n val = Ret v /\ 0 <= v < 2 ^ 31.
Proof.
  intros Hb. revert off val. induction n as [|n IH]; intros off val Ho Hl Hv;
    cbn [rabin_window]; [by eauto|].
  destruct (rd_in buf off) as [c Hc]; [lia|]. rewrite Hc. run.
  destruct (rabin_step_range val c Hv) as (v & -> & ?).
  { apply rd_Ret in Hc as [_ Hc]. eauto using is_bytes_lookup. }
  run. apply IH; lia.
Qed.

(** ** Rolling the window *)

Definition table_linear (tbl : list Z) : bool :=
  forallb (fun i => forallb (fun j =>
    match tbl !! i, tbl !! j, tbl !! Z.to_nat (Z.lxor (Z.of_nat i) (Z.of_nat j)) with
    | Some a, Some b, Some c => Z.lxor a b =? c
    | _, _, _ => false
    end) (seq 0 (length tbl))) (seq 0 (length tbl)).

Lemma table_linear_lxor tbl i j a b :
  table_linear tbl = true -> tbl !! i = Some a -> tbl !! j = Some b ->
  tbl !! Z.to_nat (Z.lxor (Z.of_nat i) (Z.of_nat j)) = Some (Z.lxor a b).
Proof.
  unfold table_linear. intros H Ha Hb.
  pose proof (lookup_lt_Some _ _ _ Ha) as Hi. pose proof (lookup_lt_Some _ _ _ Hb) as Hj.
  rewrite forallb_forall in H. specialize (H i (proj2 (in_seq (length tbl) 0 i) ltac:(lia))).
  rewrite forallb_forall in H. specialize (H j (proj2 (in_seq (length tbl) 0 j) ltac:(lia))).
  rewrite Ha, Hb in H.
  destruct (tbl !! Z.to_nat (Z.lxor (Z.of_nat i) (Z.of_nat j))); [|done]. zb. by subst.
Qed.

Definition U_window : bool :=
  forallb (fun i =>
    match U !! i, rabin_window (Z.of_nat i :: replicate 15 0) 0 16 0 with
    | Some u, Ret v => u =? v
    | _, _ => false
    end) (seq 0 256).

Lemma T_linear : table_linear T = true.
Proof. vm_compute. reflexivity. Qed.
Lemma U_window_ok : U_window = true.
Proof. vm_compute. reflexivity. Qed.

(** Feeding a byte is linear over xor. *)
Lemma rabin_step_lxor v1 v2 c1 c2 r1 r2 :
  0 <= v1 < 2 ^ 31 -> 0 <= v2 < 2 ^ 31 -> is_byte c1 -> is_byte c2 ->
  rabin_step v1 c1 = Ret r1 -> rabin_step v2 c2 = Ret r2 ->
  rabin_step (Z.lxor v1 v2) (Z.lxor c1 c2) = Ret (Z.lxor r1 r2).
Proof.
  intros Hv1 Hv2 Hc1 Hc2 H1 H2. unfold rabin_step in *.
  apply bind_Ret_inv in H1 as (t1 & Ht1 & [= <-]).
  apply bind_Ret_inv in H2 as (t2 & Ht2 & [= <-]).
  apply rd_Ret in Ht1 as [Hi1 Ht1]. apply rd_Ret in Ht2 as [Hi2 Ht2].
  assert (rd T (Z.shiftr (Z.lxor v1 v2) RABIN_SHIFT) = Ret (Z.lxor t1 t2)) as ->.
  { apply rd_Ret. rewrite Z.shiftr_lxor. split; [by apply Z.lxor_nonneg|].
    pose proof (table_linear_lxor _ _ _ _ _ T_linear Ht1 Ht2) as H. by rewrite !Z2Nat.id in H by lia. }
  run. f_equal.
  assert (forall v c i, is_byte c -> Z.testbit (Z.lor (u32 (Z.shiftl v 8)) c) i =
            xorb (Z.testbit (u32 (Z.shiftl v 8)) i) (Z.testbit c i)) as Hx.
  { intros v c i Hc. rewrite Z.lor_spec. destruct (decide (i < 8)) as [Hi|Hi].
    - assert (Z.testbit (u32 (Z.shiftl v 8)) i = false) as ->; [|by destruct (Z.testbit c i)].
      unfold u32. destruct (decide (0 <= i)); [|by apply Z.testbit_neg_r; lia].
      rewrite Z.mod_pow2_bits_low by lia. by apply Z.shiftl_spec_low.
    - rewrite (testbit_high c 8 i) by (exact Hc || lia). by destruct (Z.testbit _ _). }
  apply Z.bits_inj'. intros i Hi.
  rewrite !Z.lxor_spec, !Hx by (done || by apply (lxor_lt _ _ 8)).
  rewrite Z.lxor_spec, Z.shiftl_lxor. unfold u32.
  destruct (decide (i < 32)).
  - rewrite !Z.mod_pow2_bits_low by lia. rewrite Z.lxor_spec. btauto.
  - rewrite !Z.mod_pow2_bits_high by lia. btauto.
Qed.

(** The window loop on a list of bytes. *)
Fixpoint rabin_bytes (l : list Z) (val : Z) : outcome Z :=
  match l with
  | [] => Ret val
  | c :: l => v ← rabin_step val c; rabin_bytes l v
  end.

Lemma rabin_window_bytes buf off n val :
  0 <= off -> off + Z.of_nat n <= zlen buf ->
  rabin_window buf off n val = rabin_bytes (slice buf off (Z.of_nat n)) val.
Proof.
  revert off val. induction n as [|n IH]; intros off val Ho Hl; [done|].
  cbn [rabin_window]. destruct (rd_in buf off) as [c Hc]; [lia|].
  rewrite Hc. run. apply rd_Ret in Hc as [_ Hc].
  rewrite (slice_cons _ _ _ c) by (done || lia). cbn [rabin_bytes].
  destruct (rabin_step val c) as [v| |]; run; [|done..].
  rewrite IH by lia. do 2 f_equal. lia.
Qed.

Lemma rabin_bytes_app l k val :
  rabin_bytes (l ++ k) val = (v ← rabin_bytes l val; rabin_bytes k v).
Proof.
  revert val. induction l as [|c l IH]; intros val; [done|].
  cbn [rabin_bytes app]. destruct (rabin_step val c); run; [apply IH|done..].
Qed.

Lemma rabin_bytes_range l val :
  is_bytes l -> 0 <= val < 2 ^ 31 ->
  exists v, rabin_bytes l val = Ret v /\ 0 <= v < 2 ^ 31.
Proof.
  intros Hl. revert val. induction Hl as [|c l Hc Hl IH]; intros val Hv; cbn [rabin_bytes].
  { eauto. }
  destruct (rabin_step_range val c Hv Hc) as (v & -> & ?). run. auto.
Qed.

Lemma rabin_bytes_lxor l1 l2 v1 v2 r1 r2 :
  is_bytes l1 -> is_bytes l2 -> length l1 = length l2 ->
  0 <= v1 < 2 ^ 31 -> 0 <= v2 < 2 ^ 31 ->
  rabin_bytes l1 v1 = Ret r1 -> rabin_bytes l2 v2 = Ret r2 ->
  rabin_bytes (zip_with Z.lxor l1 l2) (Z.lxor v1 v2) = Ret (Z.lxor r1 r2).
Proof.
  intros Hl1. revert l2 v1 v2.
  induction Hl1 as [|c1 l1 Hc1 Hl1 IH]; intros [|c2 l2] v1 v2 Hl2 Hlen Hv1 Hv2 H1 H2;
    try done; cbn [rabin_bytes zip_with] in *.
  { by injection H1 as ->; injection H2 as ->. }
  apply Forall_cons_1 in Hl2 as [Hc2 Hl2].
  destruct (rabin_step_range v1 c1 Hv1 Hc1) as (s1 & E1 & ?).
  destruct (rabin_step_range v2 c2 Hv2 Hc2) as (s2 & E2 & ?).
  rewrite E1 in H1. rewrite E2 in H2. run_in H1. run_in H2.
  rewrite (rabin_step_lxor v1 v2 c1 c2 s1 s2) by done. run.
  apply IH; auto.
Qed.

Lemma rabin_step_0 : rabin_step 0 0 = Ret 0.
Proof. vm_compute. reflexivity. Qed.

Lemma U_entry (c : Z) :
  is_byte c -> exists u, rd U c = Ret u /\ 0 <= u < 2 ^ 31 /\
    rabin_bytes (c :: replicate 15 0) 0 = Ret u.
Proof.
  intros Hc. destruct (rd_in U c) as [u Hu]; [rewrite length_U; exact Hc|].
  exists u. split; [done|]. apply rd_Ret in Hu as [_ Hu].
  pose proof U_window_ok as H. unfold U_window in H. rewrite forallb_forall in H.
  specialize (H (Z.to_nat c)). rewrite Hu in H. unfold is_byte in Hc.
  assert (In (Z.to_nat c) (seq 0 256)) as Hin by (apply in_seq; lia).
  specialize (H Hin). rewrite Z2Nat.id in H by lia.
  rewrite rabin_window_bytes in H by (done || lia).
  change (slice (c :: replicate 15 0) 0 (Z.of_nat 16)) with (c :: replicate 15 0) in H.
  destruct (rabin_bytes_range (c :: replicate 15 0) 0) as (v & Hv & ?).
  { constructor; [exact Hc|]. apply Forall_replicate. done. }
  { done. }
  rewrite Hv in H. zb. subst. done.
Qed.

Lemma zip_lxor_zeros l n : length l = n -> zip_with Z.lxor l (replicate n 0) = l.
Proof.
  intros <-. induction l as [|x l IH]; [done|]. simpl. by rewrite Z.lxor_0_r, IH.
Qed.

(** Rolling the window over the next byte gives the fingerprint of the sixteen
    bytes the window then holds. *)
Lemma rabin_roll_window buf data val :
  is_bytes buf -> RABIN_WINDOW <= data < zlen buf ->
  rabin_window buf (data - RABIN_WINDOW) 16 0 = Ret val ->
  rabin_roll buf data val = rabin_window buf (data - RABIN_WINDOW + 1) 16 0.
Proof.
  unfold RABIN_WINDOW. intros Hb Hd Hw.
  destruct (rd_in buf (data - 16)) as [old Ho]; [lia|].
  destruct (rd_in buf data) as [c Hc]; [lia|].
  unfold rabin_roll, RABIN_WINDOW. rewrite Ho. run.
  apply rd_Ret in Ho as [_ Ho]. pose proof (is_bytes_lookup _ _ _ Hb Ho) as Hob.
  destruct (U_entry old Hob) as (u & -> & Hu & Hub). run. rewrite Hc. run.
  apply rd_Ret in Hc as [_ Hc].
  rewrite rabin_window_bytes in Hw by lia. rewrite rabin_window_bytes by lia.
  change (Z.of_nat 16) with 16 in *.
  rewrite (slice_cons _ _ _ old) in Hw by (done || lia).
  replace 16 with (15 + 1) at 2 by lia.
  rewrite (slice_snoc _ _ _ c)
    by (lia || by replace (data - 16 + 1 + 15) with data by lia).
  set (ws := slice buf (data - 16 + 1) 15).
  change (16 - 1) with 15 in Hw. fold ws in Hw.
  assert (length ws = 15%nat) as Hlen.
  { apply Nat2Z.inj. change (zlen ws = 15). apply zlen_slice; lia. }
  assert (rabin_bytes ws 0 = Ret (Z.lxor val u)) as Hws.
  { pose proof (rabin_bytes_lxor (old :: ws) (old :: replicate 15 0) 0 0 val u) as H.
    assert (is_bytes ws) by by apply is_bytes_slice.
    assert (is_bytes (replicate 15 0)) by by apply Forall_replicate.
    specialize (H ltac:(by constructor) ltac:(by constructor)).
    specialize (H ltac:(simpl; lia) ltac:(lia) ltac:(lia) Hw Hub).
    cbn [zip_with rabin_bytes] in H.
    rewrite !Z.lxor_nilpotent, rabin_step_0 in H. run_in H. rewrite <-H. f_equal.
    by rewrite zip_lxor_zeros. }
  rewrite rabin_bytes_app, Hws. run. cbn [rabin_bytes]. by destruct (rabin_step _ _).
Qed.
