(* ===== verification/PatchDelta.v ===== *)
(** patch-delta.c: rebuild a buffer from a source and a delta.  The model keeps
    the destination buffer, its write position and every bounds check; the
    theorems show that no delta makes it leave a buffer, and that it replays
    every sequence of insert and copy operations. *)
From S2P Require Import Prelude Headers.

(** * Model *)

(** [PARSE_CP_PARAM(bit, var, shift)]: state is [data] and [var]; a missing byte
    is [goto bad_length]. *)
Definition parse_cp_param (delta : list Z) (top cmd bit shift : Z) (st : Z * Z)
    : outcome (Z * Z) :=
  let '(data, var) := st in
  if tru (Z.land cmd bit) then
    if data >=? top then Err Null
    else b ← rd delta data; Ret (data + 1, Z.lor var (u32 (Z.shiftl b shift)))
  else Ret (data, var).

Record patch_state := PatchState {
  ps_data : Z;        (* position in the delta *)
  ps_dst : list Z;    (* dst_buf *)
  ps_out : Z;         (* out - dst_buf *)
  ps_size : Z;        (* bytes still expected *)
}.

Section patch.
Context `{GitCompat, DeltaHeader}.
(** The contents of freshly allocated memory. *)
Context (junk : Z).

(** One round of [while (data < top)]. *)
Definition patch_step (src : list Z) (src_size : Z) (delta : list Z) (top : Z)
    (st : patch_state) : outcome (patch_state + patch_state) :=
  let '(PatchState data dst out size) := st in
  if negb (data <? top) then Ret (inr st) else
  cmd ← rd delta data;
  let data := data + 1 in
  if tru (Z.land cmd 0x80) then
    '(data, cp_off) ← parse_cp_param delta top cmd 0x01 0 (data, 0);
    '(data, cp_off) ← parse_cp_param delta top cmd 0x02 8 (data, cp_off);
    '(data, cp_off) ← parse_cp_param delta top cmd 0x04 16 (data, cp_off);
    '(data, cp_off) ← parse_cp_param delta top cmd 0x08 24 (data, cp_off);
    '(data, cp_size) ← parse_cp_param delta top cmd 0x10 0 (data, 0);
    '(data, cp_size) ← parse_cp_param delta top cmd 0x20 8 (data, cp_size);
    '(data, cp_size) ← parse_cp_param delta top cmd 0x40 16 (data, cp_size);
    let cp_size := if cp_size =? 0 then 0x10000 else cp_size in
    if unsigned_add_overflows cp_off cp_size || (cp_off + cp_size >? src_size)
       || (cp_size >? size) then Err Null
    else
      bytes ← rd_range src cp_off cp_size;
      dst ← wr_range dst out bytes;
      Ret (inl (PatchState data dst (out + cp_size) (size - cp_size)))
  else if tru cmd then
    if (cmd >? size) || (cmd >? top - data) then Err Null
    else
      bytes ← rd_range delta data cmd;
      dst ← wr_range dst out bytes;
      Ret (inl (PatchState (data + cmd) dst (out + cmd) (size - cmd)))
  else Err Null.

(** Returns [dst_buf], with [*dst_size] its length; a NULL return is
    [Err Null]. *)
Definition patch_delta (src : list Z) (src_size : Z) (delta : list Z)
    (delta_size : Z) : outcome (list Z) :=
  if delta_size <? DELTA_SIZE_MIN then Err Null else
  let top := delta_size in
  '(size, data) ← get_delta_hdr_size delta 0 top;
  if negb (size =? src_size) then Err Null else
  '(size, data) ← get_delta_hdr_size delta data top;
  (* xmallocz: one more byte for the terminating NUL, or the end of the process *)
  if unsigned_add_overflows size 1 then Err Bug else
  let dst := replicate (Z.to_nat size) junk ++ [0] in
  st ← loop (S (Z.to_nat top)) (patch_step src src_size delta top)
         (PatchState data dst 0 size);
  if negb (ps_data st =? top) || negb (ps_size st =? 0) then Err Null
  else Ret (take (Z.to_nat (ps_out st)) (ps_dst st)).
End patch.

(** * Delta operations *)

(** The bytes of a copy operation: one optional byte per non-zero byte of the
    offset and of the size, announced in the operation code; a size of
    [0x10000] has no size byte. *)
Definition opt_byte (x shift : Z) : list Z :=
  let b := u8 (Z.shiftr x shift) in if tru b then [b] else [].

Definition opt_bit (x shift bit : Z) : Z :=
  if tru (u8 (Z.shiftr x shift)) then bit else 0.

Definition copy_code (off size : Z) : Z :=
  Z.lor (Z.lor (Z.lor (Z.lor (Z.lor (Z.lor 0x80
    (opt_bit off 0 0x01)) (opt_bit off 8 0x02)) (opt_bit off 16 0x04))
    (opt_bit off 24 0x08)) (opt_bit size 0 0x10)) (opt_bit size 8 0x20).

Definition copy_op (off size : Z) : list Z :=
  copy_code off size ::
    opt_byte off 0 ++ opt_byte off 8 ++ opt_byte off 16 ++ opt_byte off 24 ++
    opt_byte size 0 ++ opt_byte size 8.

#[global] Arguments copy_code : simpl never.
#[global] Arguments copy_op : simpl never.
#[global] Arguments opt_byte : simpl never.

(** [delta_ops src ops trg]: the operations [ops] build [trg] out of [src]. *)
Inductive delta_ops (src : list Z) : list Z -> list Z -> Prop :=
| ops_nil : delta_ops src [] []
| ops_insert lit ops trg :
    1 <= zlen lit <= 0x7f ->
    delta_ops src ops trg ->
    delta_ops src ((zlen lit :: lit) ++ ops) (lit ++ trg)
| ops_copy off size ops trg :
    0 <= off < 2 ^ 32 -> 1 <= size <= 0x10000 -> off + size <= zlen src ->
    delta_ops src ops trg ->
    delta_ops src (copy_op off size ++ ops) (slice src off size ++ trg).

Lemma delta_ops_app src o1 t1 o2 t2 :
  delta_ops src o1 t1 -> delta_ops src o2 t2 -> delta_ops src (o1 ++ o2) (t1 ++ t2).
Proof.
  induction 1; intros; [done|rewrite <-!(assoc app)..].
  - constructor; auto.
  - apply ops_copy; auto.
Qed.

(** ** Replaying operations *)

(** An announced byte is or-ed in, an absent one counts as zero. *)
Lemma parse_cp_param_opt delta x shift cmd bit pos rest :
  0 <= shift <= 24 ->
  tru (Z.land cmd bit) = tru (u8 (Z.shiftr x shift)) ->
  at_pos delta pos (opt_byte x shift ++ rest) ->
  exists pos',
    (forall var, parse_cp_param delta (zlen delta) cmd bit shift (pos, var) =
      Ret (pos', Z.lor var (Z.shiftl (u8 (Z.shiftr x shift)) shift))) /\
    at_pos delta pos' rest.
Proof.
  intros Hs Ht Hp. unfold parse_cp_param. rewrite Ht. clear Ht.
  unfold opt_byte in Hp. cbv zeta in Hp. destruct (tru _) eqn:E.
  - pose proof (at_pos_len _ _ _ Hp) as Hl.
    rewrite zlen_app, zlen_cons, zlen_nil in Hl. pose proof (zlen_nonneg rest).
    apply at_pos_cons in Hp as [-> Hp]. exists (pos + 1). split; [intros var|done].
    case_if; [lia|]. run. rewrite u32_small; [done|].
    pose proof (u8_byte (Z.shiftr x shift)) as Hb. unfold is_byte in Hb.
    rewrite Z.shiftl_mul_pow2 by lia. split; [lia|].
    apply Z.lt_le_trans with (256 * 2 ^ shift); [nia|].
    change (2 ^ 32) with (256 * 2 ^ 24).
    apply Z.mul_le_mono_nonneg_l; [lia|]. apply Z.pow_le_mono_r; lia.
  - apply tru_false in E. exists pos. split; [intros var|done].
    by rewrite E, Z.shiftl_0_l, Z.lor_0_r.
Qed.

(** The byte at bit [k] of a number, in place. *)
Lemma testbit_byte_at x k i :
  0 <= k -> 0 <= i ->
  Z.testbit (Z.shiftl (u8 (Z.shiftr x k)) k) i = (k <=? i) && (i <? k + 8) && Z.testbit x i.
Proof.
  intros Hk Hi. rewrite Z.shiftl_spec by lia. unfold u8.
  destruct (Z.leb_spec k i), (Z.ltb_spec i (k + 8)); simpl.
  - rewrite Z.mod_pow2_bits_low, Z.shiftr_spec by lia. f_equal. lia.
  - by rewrite Z.mod_pow2_bits_high by lia.
  - apply Z.testbit_neg_r. lia.
  - lia.
Qed.

(** The bytes of a number below [2 ^ 32], put together again. *)
Lemma bytes4_lor x :
  0 <= x < 2 ^ 32 ->
  Z.lor (Z.lor (Z.lor (Z.lor 0 (Z.shiftl (u8 (Z.shiftr x 0)) 0))
    (Z.shiftl (u8 (Z.shiftr x 8)) 8)) (Z.shiftl (u8 (Z.shiftr x 16)) 16))
    (Z.shiftl (u8 (Z.shiftr x 24)) 24) = x.
Proof.
  intros Hx. apply Z.bits_inj'. intros i Hi.
  rewrite !Z.lor_spec, !testbit_byte_at, Z.bits_0 by lia.
  destruct (decide (i < 32)).
  - destruct (Z.testbit x i); [|by rewrite !andb_false_r].
    rewrite !andb_true_r. lia.
  - by rewrite (testbit_high x 32 i), !andb_false_r by lia.
Qed.

Lemma bytes2_lor x :
  Z.lor (Z.lor 0 (Z.shiftl (u8 (Z.shiftr x 0)) 0)) (Z.shiftl (u8 (Z.shiftr x 8)) 8)
  = x mod 0x10000.
Proof.
  change 0x10000 with (2 ^ 16). apply Z.bits_inj'. intros i Hi.
  rewrite !Z.lor_spec, !testbit_byte_at, Z.bits_0 by lia.
  destruct (decide (i < 16)).
  - rewrite Z.mod_pow2_bits_low by lia. destruct (Z.testbit x i); [|by rewrite !andb_false_r].
    rewrite !andb_true_r. lia.
  - rewrite Z.mod_pow2_bits_high by lia.
    destruct (Z.testbit x i); [|by rewrite !andb_false_r]. rewrite !andb_true_r. lia.
Qed.

(** The operation code announces exactly the bytes that follow it. *)
Lemma copy_code_bits off size :
  let c := copy_code off size in
  tru (Z.land c 0x80) = true /\
  tru (Z.land c 0x01) = tru (u8 (Z.shiftr off 0)) /\
  tru (Z.land c 0x02) = tru (u8 (Z.shiftr off 8)) /\
  tru (Z.land c 0x04) = tru (u8 (Z.shiftr off 16)) /\
  tru (Z.land c 0x08) = tru (u8 (Z.shiftr off 24)) /\
  tru (Z.land c 0x10) = tru (u8 (Z.shiftr size 0)) /\
  tru (Z.land c 0x20) = tru (u8 (Z.shiftr size 8)) /\
  tru (Z.land c 0x40) = false.
Proof.
  unfold copy_code, opt_bit. cbv zeta.
  destruct (tru (u8 (Z.shiftr off 0))), (tru (u8 (Z.shiftr off 8))),
    (tru (u8 (Z.shiftr off 16))), (tru (u8 (Z.shiftr off 24))),
    (tru (u8 (Z.shiftr size 0))), (tru (u8 (Z.shiftr size 8))); repeat split.
Qed.

Section replay.
Context `{GitCompatOk}.

(** A write of [bytes] at [out]: the buffer keeps its length and what was
    written so far is extended. *)
Lemma wr_range_next (dst bytes : list Z) out size :
  0 <= out -> zlen bytes = size -> out + size <= zlen dst ->
  exists dst', wr_range dst out bytes = Ret dst' /\ zlen dst' = zlen dst /\
    take (Z.to_nat (out + size)) dst' = take (Z.to_nat out) dst ++ bytes.
Proof.
  intros ? <- ?. eexists. split; [by apply wr_range_in|].
  by apply wr_range_fill, wr_range_in.
Qed.

Lemma patch_step_insert src delta pos lit rest dst out sz :
  at_pos delta pos ((zlen lit :: lit) ++ rest) ->
  1 <= zlen lit <= 0x7f -> zlen lit <= sz -> 0 <= out -> out + sz <= zlen dst ->
  exists pos' dst',
    patch_step src (zlen src) delta (zlen delta) (PatchState pos dst out sz) =
      Ret (inl (PatchState pos' dst' (out + zlen lit) (sz - zlen lit))) /\
    at_pos delta pos' rest /\ zlen dst' = zlen dst /\
    take (Z.to_nat (out + zlen lit)) dst' = take (Z.to_nat out) dst ++ lit.
Proof.
  intros Hp Hlit Hsz Ho Hd. destruct (wr_range_next dst lit out (zlen lit)) as (dst' & Hw & ?);
    [lia..|]. pose proof (at_pos_len _ _ _ Hp) as Hl. rewrite zlen_app, zlen_cons in Hl.
  pose proof (zlen_nonneg rest). unfold patch_step. case_if; [lia|].
  rewrite <-app_comm_cons in Hp. apply at_pos_cons in Hp as [-> Hp]. run.
  apply at_pos_app in Hp as [Hr Hp].
  assert (tru (Z.land (zlen lit) 0x80) = false) as ->.
  { apply tru_false. change 0x80 with (2 ^ 7). apply Z.bits_inj'. intros i Hi.
    rewrite Z.land_spec, Z.pow2_bits_eqb, Z.bits_0 by lia.
    destruct (Z.eqb_spec 7 i) as [<-|]; [|by rewrite andb_false_r].
    rewrite (testbit_high _ 7) by lia. done. }
  assert (tru (zlen lit) = true) as -> by (apply tru_true; lia).
  destruct (_ || _) eqn:E; [apply orb_true_iff in E as [E|E]; zb; lia|].
  rewrite Hr. run. rewrite Hw. run. eauto 10.
Qed.

Lemma patch_step_copy src delta pos off size rest dst out sz :
  at_pos delta pos (copy_op off size ++ rest) ->
  0 <= off < 2 ^ 32 -> 1 <= size <= 0x10000 -> off + size <= zlen src ->
  size <= sz -> 0 <= out -> out + sz <= zlen dst ->
  exists pos' dst',
    patch_step src (zlen src) delta (zlen delta) (PatchState pos dst out sz) =
      Ret (inl (PatchState pos' dst' (out + size) (sz - size))) /\
    at_pos delta pos' rest /\ zlen dst' = zlen dst /\
    take (Z.to_nat (out + size)) dst' = take (Z.to_nat out) dst ++ slice src off size.
Proof.
  intros Hp Hoff Hsize Hsrc Hsz Ho Hd.
  destruct (wr_range_next dst (slice src off size) out size) as (dst' & Hw & ?);
    [lia|apply zlen_slice; lia|lia|].
  destruct (copy_code_bits off size) as (B80 & B1 & B2 & B3 & B4 & B5 & B6 & B7).
  unfold copy_op in Hp. rewrite <-app_comm_cons, <-!(assoc app) in Hp.
  pose proof (at_pos_len _ _ _ Hp) as Hl. rewrite zlen_cons in Hl.
  match type of Hl with _ = _ + (1 + zlen ?l) => pose proof (zlen_nonneg l) end.
  unfold patch_step. case_if; [lia|]. apply at_pos_cons in Hp as [-> Hp]. run.
  rewrite (proj2 (tru_true _) B80).
  destruct (parse_cp_param_opt _ off 0 _ 0x01 _ _ ltac:(lia) B1 Hp) as (p1 & -> & Hp1). run.
  destruct (parse_cp_param_opt _ off 8 _ 0x02 _ _ ltac:(lia) B2 Hp1) as (p2 & -> & Hp2). run.
  destruct (parse_cp_param_opt _ off 16 _ 0x04 _ _ ltac:(lia) B3 Hp2) as (p3 & -> & Hp3). run.
  destruct (parse_cp_param_opt _ off 24 _ 0x08 _ _ ltac:(lia) B4 Hp3) as (p4 & -> & Hp4). run.
  destruct (parse_cp_param_opt _ size 0 _ 0x10 _ _ ltac:(lia) B5 Hp4) as (p5 & -> & Hp5). run.
  destruct (parse_cp_param_opt _ size 8 _ 0x20 _ _ ltac:(lia) B6 Hp5) as (p6 & -> & Hp6). run.
  rewrite bytes4_lor, bytes2_lor by done.
  unfold parse_cp_param. rewrite (proj2 (tru_false _) B7). run.
  assert ((if size mod 0x10000 =? 0 then 0x10000 else size mod 0x10000) = size) as ->.
  { destruct (decide (size = 0x10000)) as [->|]; [done|].
    rewrite Z.mod_small by lia. case_if; lia. }
  rewrite unsigned_add_overflows_spec.
  destruct (_ || _) eqn:E.
  { apply orb_true_iff in E as [E|E]; [apply orb_true_iff in E as [E|E]|]; zb; lia. }
  rewrite rd_range_in by lia. run. rewrite Hw. run. eauto 10.
Qed.

(** The loop replays any operations up to the end of the delta. *)
Lemma patch_loop_ops src delta ops trg :
  delta_ops src ops trg ->
  forall pos dst out fuel,
  at_pos delta pos ops -> 0 <= out -> out + zlen trg <= zlen dst ->
  (length ops < fuel)%nat ->
  exists dst',
    loop fuel (patch_step src (zlen src) delta (zlen delta))
      (PatchState pos dst out (zlen trg)) =
      Ret (PatchState (zlen delta) dst' (out + zlen trg) 0) /\
    take (Z.to_nat (out + zlen trg)) dst' = take (Z.to_nat out) dst ++ trg.
Proof.
  induction 1 as [|lit ops trg Hlit Hops IH|off size ops trg Hoff Hsize Hsrc Hops IH];
    intros pos dst out [|fuel] Hp Ho Hd Hf; try lia; cbn [loop].
  - pose proof (at_pos_len _ _ _ Hp) as Hl. rewrite zlen_nil in *.
    unfold patch_step. case_if; [|lia]. run. exists dst.
    rewrite !Z.add_0_r, app_nil_r. by replace pos with (zlen delta) by lia.
  - rewrite zlen_app in *. rewrite length_app in Hf. pose proof (zlen_nonneg trg).
    edestruct (patch_step_insert src delta pos lit ops dst out) as (p' & dst1 & -> & Hp' & Hl & Ht);
      [done..|lia|done|exact Hd|]. run.
    replace (zlen lit + zlen trg - zlen lit) with (zlen trg) by lia.
    destruct (IH p' dst1 (out + zlen lit) fuel) as (dst' & -> & Ht');
      [done|lia..|simpl in Hf; lia|].
    exists dst'. rewrite Z.add_assoc. split; [done|]. rewrite Ht', Ht. by rewrite (assoc app).
  - rewrite zlen_app, zlen_slice in * by lia. rewrite length_app in Hf.
    pose proof (zlen_nonneg trg).
    edestruct (patch_step_copy src delta pos off size ops dst out)
      as (p' & dst1 & -> & Hp' & Hl & Ht); [done..|lia|done|exact Hd|]. run.
    replace (size + zlen trg - size) with (zlen trg) by lia.
    destruct (IH p' dst1 (out + size) fuel) as (dst' & -> & Ht');
      [done|lia..|unfold copy_op in Hf; cbn [length] in Hf; lia|].
    exists dst'. rewrite Z.add_assoc. split; [done|]. rewrite Ht', Ht. by rewrite (assoc app).
Qed.
End replay.

(** ** Bounds *)

Section safety.
Context `{GitCompatOk, DeltaHeaderOk}.
Context (junk : Z).

Lemma parse_cp_param_safe delta top cmd bit shift data var :
  is_bytes delta -> top <= zlen delta -> 0 <= data <= top -> 0 <= var ->
  wp (parse_cp_param delta top cmd bit shift (data, var))
     (fun '(data', var') => data <= data' <= top /\ 0 <= var') (fun e => e = Null).
Proof.
  intros Hb Ht Hd Hv. unfold parse_cp_param. case_if; [|simpl; lia].
  case_if; [done|]. destruct (rd_in delta data) as [b Hr]; [lia|]. rewrite Hr. run.
  cbn [wp]. split; [lia|]. apply Z.lor_nonneg. split; [lia|apply u32_range].
Qed.

Definition patch_inv (total : Z) (st : patch_state) : Prop :=
  0 <= ps_data st /\ 0 <= ps_out st /\ 0 <= ps_size st /\
  ps_out st + ps_size st = total /\ zlen (ps_dst st) = total + 1.

Ltac parse_safe :=
  apply wp_bind; eapply wp_mono; [apply parse_cp_param_safe; [done|done|lia|lia]| |by intros ? ->];
  intros [? ?] [? ?]; cbv beta iota.

Lemma patch_step_safe src delta top total st :
  is_bytes delta -> top <= zlen delta -> patch_inv total st ->
  wp (patch_step src (zlen src) delta top st)
    (fun r => match r with
              | inl st' => patch_inv total st' /\
                  0 <= Z.max 0 (top - ps_data st') < Z.max 0 (top - ps_data st)
              | inr st' => patch_inv total st'
              end) (fun e => e = Null).
Proof.
  intros Hb Ht Hinv. destruct st as [data dst out size].
  unfold patch_inv in *. cbn [ps_data ps_dst ps_out ps_size] in *.
  unfold patch_step. case_if; [done|].
  destruct (rd_in delta data) as [cmd Hcmd]; [lia|]. rewrite Hcmd. run.
  apply rd_Ret in Hcmd as [_ Hcmd]. pose proof (is_bytes_lookup _ _ _ Hb Hcmd) as Hc.
  unfold is_byte in Hc. case_if; [|case_if; [|done]].
  - do 7 parse_safe.
    set (cp_size := if _ =? 0 then 0x10000 else _).
    assert (0 < cp_size) by (unfold cp_size; case_if; lia).
    destruct (_ || _) eqn:E; [done|]. zb.
    rewrite rd_range_in by lia. run.
    edestruct (wr_range_next dst) as (dst' & -> & Hl & _);
      [|apply zlen_slice|..]; try lia. run. cbn [wp ps_data ps_dst ps_out ps_size]. lia.
  - destruct (_ || _) eqn:E; [done|]. zb.
    rewrite rd_range_in by lia. run.
    edestruct (wr_range_next dst) as (dst' & -> & Hl & _);
      [|apply zlen_slice|..]; try lia. run. cbn [wp ps_data ps_dst ps_out ps_size]. lia.
Qed.
End safety.

(** ** Sizes *)

Lemma delta_hdr_digits_bytes f l : is_bytes (delta_hdr_digits f l).
Proof.
  revert l. induction f as [|f IH]; intros l; [constructor|].
  cbn [delta_hdr_digits]. case_if; repeat constructor; auto; apply u8_byte.
Qed.

Lemma delta_hdr_digits_len f l :
  1 <= zlen (delta_hdr_digits (S (S f)) l) /\
  (0x80 <= l -> 2 <= zlen (delta_hdr_digits (S (S f)) l)).
Proof.
  cbn [delta_hdr_digits]. case_if; [|rewrite zlen_cons, zlen_nil; lia].
  rewrite zlen_cons.
  assert (1 <= zlen (if Z.shiftr l 7 >=? 0x80
     then u8 (Z.lor (Z.shiftr l 7) 0x80) :: delta_hdr_digits f (Z.shiftr (Z.shiftr l 7) 7)
     else [u8 (Z.shiftr l 7)])); [|lia].
  case_if; rewrite zlen_cons; [|done].
  pose proof (zlen_nonneg (delta_hdr_digits f (Z.shiftr (Z.shiftr l 7) 7))). lia.
Qed.

Lemma copy_op_len off size :
  1 <= zlen (copy_op off size) /\ (1 <= size < 0x100 -> 2 <= zlen (copy_op off size)).
Proof.
  unfold copy_op. rewrite zlen_cons, !zlen_app.
  pose proof (zlen_nonneg (opt_byte off 0)). pose proof (zlen_nonneg (opt_byte off 8)).
  pose proof (zlen_nonneg (opt_byte off 16)). pose proof (zlen_nonneg (opt_byte off 24)).
  pose proof (zlen_nonneg (opt_byte size 0)). pose proof (zlen_nonneg (opt_byte size 8)).
  split; [lia|]. intros Hs.
  assert (zlen (opt_byte size 0) = 1); [|lia].
  unfold opt_byte. rewrite Z.shiftr_0_r, u8_small by (unfold is_byte; lia). cbv zeta.
  by rewrite (proj2 (tru_true size)) by lia.
Qed.

(** A delta with any content has at least the four bytes [patch_delta] asks for. *)
Lemma delta_min_size src ops trg :
  delta_ops src ops trg -> trg <> [] ->
  4 <= zlen (delta_hdr_digits 10 (zlen src)) + zlen (delta_hdr_digits 10 (zlen trg)) + zlen ops.
Proof.
  intros Hops Hne.
  destruct (delta_hdr_digits_len 8 (zlen src)) as [? Hs].
  destruct (delta_hdr_digits_len 8 (zlen trg)) as [? Ht].
  destruct Hops as [|lit ops trg Hl ? |off size ops trg Hoff Hsz ? ?]; [done|..];
    pose proof (zlen_nonneg ops).
  - rewrite (zlen_app (zlen lit :: lit)), zlen_cons. lia.
  - rewrite (zlen_app (copy_op off size)). destruct (copy_op_len off size) as [? Hc]. lia.
Qed.

(** * Theorems *)

Section theorems.
Context `{GitCompatOk, DeltaHeaderOk}.
Context (junk : Z).

(** [C5] No delta makes [patch_delta] leave a buffer or loop: whatever bytes it
    holds, every read of the source and of the delta and every write of the
    destination is in range, the loop ends, and the call either fails or
    returns a buffer of exactly the size the second header announced.  The one
    condition is that of [get_delta_hdr_size]: when the first header takes up the
    whole delta, the second is read from the byte behind it, so that either some
    memory must follow the delta or the first header must end before it does
    ([patch_delta_reads_past] shows that this is needed). *)
Theorem patch_delta_safe src delta after :
  is_bytes (delta ++ after) ->
  after <> [] \/ (forall n p, get_delta_hdr_size (delta ++ after) 0 (zlen delta) = Ret (n, p) -> p < zlen delta) ->
  wp (patch_delta junk src (zlen src) (delta ++ after) (zlen delta))
     (fun dst => exists p p', get_delta_hdr_size (delta ++ after) 0 (zlen delta) = Ret (zlen src, p) /\
        get_delta_hdr_size (delta ++ after) p (zlen delta) = Ret (zlen dst, p'))
     (fun e => e = Null \/ e = Bug).
Proof.
  intros Hb Hafter. unfold patch_delta. case_if; [by left|].
  rewrite DELTA_SIZE_MIN_spec in *. set (mem := delta ++ after) in *.
  assert (zlen mem = zlen delta + zlen after) as Hmem by apply zlen_app. pose proof (zlen_nonneg after) as Hz.
  pose proof (get_delta_hdr_size_safe mem 0 (zlen delta) Hb ltac:(lia) ltac:(lia) ltac:(lia)) as Hf.
  destruct (get_delta_hdr_size mem 0 (zlen delta)) as [[n p]| |] eqn:Hn; run; [|by right|done].
  destruct Hf as [_ Hp]. case_if; [by left|].
  assert (p < zlen mem) as Hpm.
  { destruct Hafter as [Hne|Hlt]; [|specialize (Hlt n p eq_refl); lia].
    destruct after; [done|]. rewrite zlen_cons in Hmem. pose proof (zlen_nonneg after). lia. }
  pose proof (get_delta_hdr_size_safe mem p (zlen delta) Hb ltac:(lia) ltac:(lia) ltac:(lia)) as Hs.
  destruct (get_delta_hdr_size mem p (zlen delta)) as [[size data]| |] eqn:E;
    run; [|by right|done]. destruct Hs as [? ?]. case_if; [by right|].
  apply wp_bind. eapply wp_mono with (R := fun e => e = Null).
  - eapply (wp_loop (patch_inv size) (fun st => Z.max 0 (zlen delta - ps_data st))).
    + unfold patch_inv. cbn [ps_data ps_dst ps_out ps_size].
      rewrite (zlen_app (replicate _ _)), zlen_replicate. change (zlen [0]) with 1. lia.
    + cbn [ps_data]. pose proof (zlen_nonneg delta). lia.
    + intros st Hst. eapply wp_mono; [by apply patch_step_safe; [|lia|]| |done].
      intros [st'|st'] Hst'; exact Hst'.
    + cbn [ps_data]. lia.
  - intros st (? & ? & ? & ? & Hl). destruct (_ || _) eqn:E'; [by left|]. zb.
    cbn [wp]. exists p, data. split; [by subst n|]. rewrite E. do 2 f_equal.
    unfold zlen in *. rewrite length_take. lia.
  - intros e ->. by left.
Qed.

Lemma patch_delta_ops src ops trg :
  delta_ops src ops trg -> is_bytes ops -> trg <> [] ->
  zlen src < 2 ^ 64 -> zlen trg < 2 ^ 64 - 1 ->
  let delta := delta_hdr_digits 10 (zlen src) ++ delta_hdr_digits 10 (zlen trg) ++ ops in
  patch_delta junk src (zlen src) delta (zlen delta) = Ret trg.
Proof.
  intros Hops Hb Hne Hs Ht delta.
  pose proof (zlen_nonneg src). pose proof (zlen_nonneg trg).
  set (d1 := delta_hdr_digits 10 (zlen src)) in *.
  set (d2 := delta_hdr_digits 10 (zlen trg)) in *.
  pose proof (delta_min_size src ops trg Hops Hne) as Hmin. fold d1 d2 in Hmin.
  unfold patch_delta. rewrite DELTA_SIZE_MIN_spec.
  assert (zlen delta = zlen d1 + zlen d2 + zlen ops) as Hl.
  { unfold delta. rewrite !zlen_app. lia. }
  case_if; [lia|].
  pose proof (get_delta_hdr_size_decodes [] (zlen src) (d2 ++ ops) ltac:(lia)) as E1.
  cbv zeta in E1. change (zlen []) with 0 in E1. rewrite app_nil_l in E1. fold d1 delta in E1.
  rewrite E1 by (apply Forall_nil_2 || (apply is_bytes_app; split; [apply delta_hdr_digits_bytes|done])).
  run.
  rewrite Z.eqb_refl. cbn [negb].
  pose proof (get_delta_hdr_size_decodes d1 (zlen trg) ops ltac:(lia)) as E2.
  cbv zeta in E2. fold d2 delta in E2.
  rewrite Z.add_0_l, E2 by (lia || done || apply delta_hdr_digits_bytes). run.
  rewrite unsigned_add_overflows_spec, (proj2 (Z.leb_gt _ _)) by lia.
  edestruct (patch_loop_ops src delta ops trg Hops) as (dst' & -> & Hdst).
  - unfold delta. rewrite <-zlen_app, (assoc app). apply at_pos_pre.
  - done.
  - rewrite (zlen_app (replicate _ _)), zlen_replicate. change (zlen [0]) with 1. lia.
  - unfold zlen in *. lia.
  - run. cbn [ps_data ps_size ps_out ps_dst]. rewrite !Z.eqb_refl. cbn [negb orb].
    by rewrite Hdst, take_0.
Qed.

(** [patch_delta] replays every well-formed delta: a delta made of the two
    size headers and of operations that build [trg] out of [src] is turned
    into [trg]. *)
Theorem patch_delta_replays src ops trg :
  delta_ops src ops trg -> is_bytes ops -> trg <> [] ->
  zlen src < 2 ^ 64 -> zlen trg < 2 ^ 64 - 1 ->
  let delta := delta_hdr_digits 10 (zlen src) ++ delta_hdr_digits 10 (zlen trg) ++ ops in
  patch_delta junk src (zlen src) delta (zlen delta) = Ret trg.
Proof. apply patch_delta_ops. Qed.
End theorems.

(** ** Concrete runs *)

(** A delta that copies three bytes from offset 1 of a five-byte source and
    inserts two. *)
Definition w_src : list Z := [104; 101; 108; 108; 111].
Definition w_delta : list Z := [5; 5; 0x91; 1; 3; 2; 33; 34].

Lemma patch_delta_safe_witness :
  wp (@patch_delta compat_ref delta_ref 0 w_src (zlen w_src) (w_delta ++ []) (zlen w_delta))
     (fun dst => exists p p', @get_delta_hdr_size delta_ref (w_delta ++ []) 0 (zlen w_delta) = Ret (zlen w_src, p) /\
        @get_delta_hdr_size delta_ref (w_delta ++ []) p (zlen w_delta) = Ret (zlen dst, p'))
     (fun e => e = Null \/ e = Bug).
Proof.
  apply (@patch_delta_safe compat_ref delta_ref delta_ref_ok 0 w_src w_delta []); [evaluate|right].
  intros n p Hh. vm_compute in Hh. injection Hh as _ <-. reflexivity.
Defined.

(** A delta of nothing but a first header: the second one is read behind it, and nothing
    else goes wrong when there is a byte, such as the NUL that [xmallocz] leaves. *)
Example patch_delta_reads_past :
  @patch_delta compat_ref delta_ref 0 [] 0 [0x80; 0x80; 0x80; 0] 4 = Undef /\
  @patch_delta compat_ref delta_ref 0 [] 0 [0x80; 0x80; 0x80; 0; 0] 4 = Err Null.
Proof. split; by vm_compute. Qed.

Lemma patch_delta_replays_witness :
  @patch_delta compat_ref delta_ref 0 w_src (zlen w_src) w_delta (zlen w_delta) =
    Ret [101; 108; 108; 33; 34].
Proof.
  apply (@patch_delta_replays compat_ref compat_ref_ok delta_ref delta_ref_ok 0 w_src
    [0x91; 1; 3; 2; 33; 34] [101; 108; 108; 33; 34]); [|evaluate..].
  apply (ops_copy w_src 1 3 [2; 33; 34] [33; 34]); [evaluate..|].
  apply (ops_insert w_src [33; 34] [] []); [evaluate|constructor].
Defined.
