(* ===== verification/DeltaIndex.v ===== *)
(** diff-delta.c, [create_delta_index]: the hash index of a source buffer.  The
    linked hash chains are lists of entries, the head first; the packed index
    is the array of entries with the array of bucket starts.  The theorems show
    that indexing stays inside the buffer, that the culling of a long bucket
    leaves exactly [HASH_LIMIT] entries without following a NULL link, that the
    final [assert] holds, and that the index describes the source. *)
From S2P Require Import Prelude Rabin.

(** * Model *)

Definition HASH_LIMIT : Z := 64.

Record index_entry := IndexEntry {
  ie_ptr : Z;    (* position in the source buffer *)
  ie_val : Z;
}.

Record delta_index := DeltaIndex {
  di_memsize : Z;
  di_src_buf : list Z;
  di_src_size : Z;
  di_hash_mask : Z;
  di_hash : list Z;                 (* hash[i], as positions in the packed entries *)
  di_entries : list index_entry;    (* the packed entries *)
}.

(** Object sizes of the LP64 data model. *)
Definition sizeof_ptr : Z := 8.
Definition sizeof_uint : Z := 4.
Definition sizeof_index_entry : Z := 16.
Definition sizeof_unpacked_index_entry : Z := 24.
Definition sizeof_delta_index : Z := 32.

(** The number of blocks to index and the exponent of the hash table size. *)
Definition index_entries (bufsize : Z) : Z :=
  let entries := u32 ((bufsize - 1) / RABIN_WINDOW) in
  if bufsize >=? 0xffffffff then 0xfffffffe / RABIN_WINDOW else entries.

Definition index_hbits (hsize : Z) : outcome Z :=
  loop 32 (fun i => if u32 (Z.shiftl 1 i) <? hsize then Ret (inl (i + 1)) else Ret (inr i)) 4.

Record ibuild := IBuild {
  ib_data : Z;
  ib_entries : Z;
  ib_prev : Z;
  ib_hash : list (list index_entry);
  ib_count : list Z;
}.

(** One round of the loop that populates the index.  [entry[-1]] is the entry
    pushed last, the head of the bucket of [prev_val]. *)
Definition populate_step (buf : list Z) (hmask : Z) (st : ibuild) : outcome (ibuild + ibuild) :=
  let '(IBuild data entries prev_val hash hash_count) := st in
  if negb (data >=? 0) then Ret (inr st) else
  val ← rabin_window buf (data + 1) 16 0;
  if val =? prev_val then
    let i := Z.land prev_val hmask in
    chain ← rd hash i;
    match chain with
    | [] => Undef
    | e :: chain =>
        hash ← wr hash i (IndexEntry (data + RABIN_WINDOW) (ie_val e) :: chain);
        Ret (inl (IBuild (data - RABIN_WINDOW) (entries - 1) prev_val hash hash_count))
    end
  else
    let i := Z.land val hmask in
    chain ← rd hash i;
    hash ← wr hash i (IndexEntry (data + RABIN_WINDOW) val :: chain);
    n ← rd hash_count i;
    hash_count ← wr hash_count i (n + 1);
    Ret (inl (IBuild (data - RABIN_WINDOW) entries val hash hash_count)).

(** [entry->next]: undefined on NULL. *)
Definition next_entry (chain : list index_entry) : outcome (list index_entry) :=
  match chain with
  | [] => Undef
  | _ :: chain => Ret chain
  end.

(** The inner loop of the culling: [do { entry = entry->next; acc -= HASH_LIMIT; }
    while (acc > 0)]. *)
Definition cull_skip (st : list index_entry * Z)
    : outcome ((list index_entry * Z) + (list index_entry * Z)) :=
  let '(entry, acc) := st in
  entry ← next_entry entry;
  let acc := acc - HASH_LIMIT in
  Ret (if acc >? 0 then inl (entry, acc) else inr (entry, acc)).

(** One round of the outer loop; [kept] collects the entries left in the chain,
    the last first. *)
Definition cull_step (count : Z) (st : list index_entry * Z * list index_entry)
    : outcome ((list index_entry * Z * list index_entry) + list index_entry) :=
  let '(entry, acc, kept) := st in
  match entry with
  | [] => Undef
  | keep :: _ =>
      let acc := acc + (count - HASH_LIMIT) in
      '(entry, acc) ←
        (if acc >? 0 then loop (S (length entry)) cull_skip (entry, acc)
         else Ret (entry, acc));
      entry ← next_entry entry;
      Ret (match entry with
           | [] => inr (rev (keep :: kept))
           | _ => inl (entry, acc, keep :: kept)
           end)
  end.

Definition cull_bucket (count : Z) (chain : list index_entry) : outcome (list index_entry) :=
  loop (S (length chain)) (cull_step count) (chain, 0, []).

(** The loop over all buckets. *)
Fixpoint cull_all (hash : list (list index_entry)) (hash_count : list Z) (entries : Z)
    : outcome (list (list index_entry) * Z) :=
  match hash, hash_count with
  | [], [] => Ret ([], entries)
  | chain :: hash, count :: hash_count =>
      '(chain, entries) ←
        (if count <=? HASH_LIMIT then Ret (chain, entries)
         else chain ← cull_bucket count chain; Ret (chain, entries - (count - HASH_LIMIT)));
      '(hash, entries) ← cull_all hash hash_count entries;
      Ret (chain :: hash, entries)
  | _, _ => Undef
  end.

(** The packed index: the start of each bucket, and the sentinel after the last. *)
Fixpoint pack_hash (hash : list (list index_entry)) (packed_entry : Z) : list Z :=
  match hash with
  | [] => [packed_entry]
  | chain :: hash => packed_entry :: pack_hash hash (packed_entry + zlen chain)
  end.

Section create_index.
(** Whether an allocation of this many bytes succeeds. *)
Context (malloc_ok : Z -> bool).

Definition create_delta_index (buf : option (list Z)) (bufsize : Z) : outcome delta_index :=
  match buf with
  | None => Err Null
  | Some buffer =>
      if bufsize =? 0 then Err Null else
      let entries := index_entries bufsize in
      i ← index_hbits (entries / 4);
      let hsize := Z.shiftl 1 i in
      let hmask := hsize - 1 in
      let memsize := sizeof_ptr * hsize + sizeof_unpacked_index_entry * entries in
      if negb (malloc_ok memsize) then Err NoMem else
      if negb (malloc_ok (hsize * sizeof_uint)) then Err NoMem else
      st ← loop (S (Z.to_nat entries)) (populate_step buffer hmask)
             (IBuild (entries * RABIN_WINDOW - RABIN_WINDOW) entries (2 ^ 32 - 1)
                (replicate (Z.to_nat hsize) []) (replicate (Z.to_nat hsize) 0));
      '(hash, entries) ← cull_all (ib_hash st) (ib_count st) (ib_entries st);
      let memsize := sizeof_delta_index + sizeof_ptr * (hsize + 1) +
                     sizeof_index_entry * entries in
      if negb (malloc_ok memsize) then Err NoMem else
      let packed := concat hash in
      (* the assert on packed_entry *)
      if negb (zlen packed =? entries) then Err Bug else
      Ret (DeltaIndex memsize buffer bufsize hmask (pack_hash hash 0) packed)
  end.
End create_index.

Definition sizeof_delta_index_of (index : option delta_index) : Z :=
  match index with
  | Some index => di_memsize index
  | None => 0
  end.

(** * Culling *)

Lemma next_entry_drop chain (k : Z) :
  0 <= k < zlen chain ->
  next_entry (drop (Z.to_nat k) chain) = Ret (drop (Z.to_nat (k + 1)) chain).
Proof.
  unfold zlen. intros Hk.
  destruct (lookup_lt_is_Some_2 chain (Z.to_nat k)) as [e He]; [lia|].
  rewrite (drop_S _ _ _ He). simpl. do 2 f_equal. lia.
Qed.

Lemma cull_skip_cons e chain acc :
  cull_skip (e :: chain, acc) =
    Ret (if acc - 64 >? 0 then inl (chain, acc - 64) else inr (chain, acc - 64)).
Proof. done. Qed.

(** Skipping takes one link per [HASH_LIMIT] of the accumulator, rounded up. *)
Lemma cull_skip_spec chain acc fuel :
  0 < acc -> acc <= 64 * (zlen chain) -> zlen chain < Z.of_nat fuel ->
  exists k, loop fuel cull_skip (chain, acc) =
      Ret (drop (Z.to_nat k) chain, acc - 64 * k) /\
    1 <= k <= zlen chain /\ -64 < acc - 64 * k <= 0.
Proof.
  revert chain acc. induction fuel as [|fuel IH]; intros chain acc Ha Hl Hf.
  { unfold zlen in *. lia. }
  destruct chain as [|e chain]; [rewrite zlen_nil in Hl; lia|].
  rewrite zlen_cons in *. cbn [loop]. rewrite cull_skip_cons. run. case_if; run.
  - destruct (IH chain (acc - 64)) as (k & -> & ? & ?); [lia..|].
    exists (k + 1). rewrite Z2Nat.inj_add by lia. rewrite Nat.add_comm. split; [|lia].
    cbn [drop]. do 2 f_equal. lia.
  - exists 1. split; [|pose proof (zlen_nonneg chain); lia]. done.
Qed.

(** The state after [m] rounds: [c] entries are behind the cursor, and the
    accumulator is [m * n - 64 * c]. *)
Definition cull_inv (P : index_entry -> Prop) (n : Z)
    (st : list index_entry * Z * list index_entry) : Prop :=
  let '(entry, acc, kept) := st in
  let m := zlen kept in
  let c := n - zlen entry in
  m <= 63 /\ 0 < zlen entry /\ acc = m * n - 64 * c /\ -64 < acc <= 0 /\
  Forall P entry /\ Forall P kept.

Lemma cull_step_spec P n st :
  64 < n -> cull_inv P n st ->
  wp (cull_step n st) (fun r =>
      match r with
      | inl st' => cull_inv P n st' /\ 0 <= zlen (st'.1.1) < zlen (st.1.1)
      | inr kept => zlen kept = 64 /\ Forall P kept
      end) (fun _ => False).
Proof.
  intros Hn. destruct st as [[entry acc] kept]. intros (Hm & He & Hacc & Hr & HP & HK).
  pose proof (zlen_nonneg kept) as Hm0. set (m := zlen kept) in *.
  unfold cull_step. destruct entry as [|keep entry]; [rewrite zlen_nil in He; lia|].
  set (chain := keep :: entry) in *. set (acc1 := acc + (n - HASH_LIMIT)).
  assert (exists k, (if acc1 >? 0 then loop (S (length chain)) cull_skip (chain, acc1)
                     else Ret (chain, acc1)) = Ret (drop (Z.to_nat k) chain, acc1 - 64 * k) /\
            0 <= k < zlen chain /\ -64 < acc1 - 64 * k <= 0) as (k & -> & Hk & Hk').
  { unfold acc1, HASH_LIMIT in *. case_if.
    - destruct (cull_skip_spec chain (acc + (n - 64)) (S (length chain)))
        as (k & -> & ? & ?); [lia|nia|unfold zlen; lia|].
      exists k. split; [done|]. split; [|lia]. nia.
    - exists 0. rewrite drop_0. split; [by rewrite Z.mul_0_r, Z.sub_0_r|]. lia. }
  run. rewrite next_entry_drop by done. run.
  assert (zlen (drop (Z.to_nat (k + 1)) chain) = zlen chain - (k + 1)) as Hd.
  { unfold zlen in *. rewrite length_drop. lia. }
  assert (Forall P (keep :: kept)) by (constructor; [by inversion HP|done]).
  assert (Forall P (drop (Z.to_nat (k + 1)) chain)) by by apply Forall_drop.
  unfold acc1, HASH_LIMIT in *.
  destruct (drop (Z.to_nat (k + 1)) chain) as [|e rest] eqn:Edrop; cbn [wp].
  - rewrite zlen_nil in Hd. split; [|by apply Forall_rev].
    unfold zlen. rewrite length_rev. cbn [length]. unfold m, zlen in *.
    assert (63 <= Z.of_nat (length kept)) by nia. lia.
  - split; [|cbn [fst]; pose proof (zlen_nonneg (e :: rest)); lia].
    unfold cull_inv. rewrite (zlen_cons keep), Hd. fold m.
    pose proof (zlen_nonneg rest). rewrite zlen_cons in Hd.
    repeat split; try done; nia.
Qed.

(** Culling a bucket of more than [HASH_LIMIT] entries never follows a NULL link
    and leaves exactly [HASH_LIMIT] of its entries. *)
Lemma cull_bucket_spec P n chain :
  64 < n -> zlen chain = n -> Forall P chain ->
  exists kept, cull_bucket n chain = Ret kept /\ zlen kept = 64 /\ Forall P kept.
Proof.
  intros Hn Hl HP. apply wp_exists. unfold cull_bucket.
  eapply (wp_loop (cull_inv P n) (fun st => zlen (st.1.1))).
  - unfold cull_inv. rewrite zlen_nil. repeat split; try done; nia.
  - cbn [fst]. unfold zlen. lia.
  - intros st Hst. eapply wp_mono; [by apply (cull_step_spec P)| |done].
    intros [st'|kept] Hr; exact Hr.
  - cbn [fst]. lia.
Qed.

(** * The index describes the source *)

(** An entry points behind a 16-byte window of the source, within the 32 bits a
    copy operation can encode, and holds the fingerprint of that window. *)
Definition entry_ok (src : list Z) (e : index_entry) : Prop :=
  RABIN_WINDOW <= ie_ptr e < zlen src /\ ie_ptr e < 2 ^ 32 /\
  rabin_window src (ie_ptr e - 15) 16 0 = Ret (ie_val e).

Definition chain_ok (src : list Z) (hmask i : Z) (chain : list index_entry) : Prop :=
  Forall (fun e => entry_ok src e /\ Z.land (ie_val e) hmask = i) chain.

Record index_ok (src : list Z) (idx : delta_index) : Prop := {
  iok_src : di_src_buf idx = src;
  iok_size : di_src_size idx = zlen src;
  iok_mask : exists b, 4 <= b < 32 /\ di_hash_mask idx = 2 ^ b - 1;
  iok_hash_len : zlen (di_hash idx) = di_hash_mask idx + 2;
  (** bucket [i] spans the entries from [hash[i]] to [hash[i + 1]], at most
      [HASH_LIMIT] of them, each with the bucket's hash *)
  iok_bucket i : 0 <= i <= di_hash_mask idx ->
    exists lo hi, rd (di_hash idx) i = Ret lo /\ rd (di_hash idx) (i + 1) = Ret hi /\
      0 <= lo <= hi /\ hi <= zlen (di_entries idx) /\ hi - lo <= HASH_LIMIT /\
      chain_ok src (di_hash_mask idx) i (slice (di_entries idx) lo (hi - lo));
}.

Lemma index_entries_range n :
  1 <= n < 2 ^ 64 -> 0 <= index_entries n /\ 16 * index_entries n <= n - 1 /\
    16 * index_entries n < 2 ^ 32 - 1.
Proof.
  intros Hn. unfold index_entries, RABIN_WINDOW. case_if.
  - change (0xfffffffe / 16) with 268435455. lia.
  - pose proof (Z.div_mod (n - 1) 16 ltac:(lia)). pose proof (Z.mod_pos_bound (n - 1) 16 ltac:(lia)).
    rewrite u32_small by lia. lia.
Qed.

Lemma index_hbits_spec h :
  0 <= h < 2 ^ 31 -> exists b, index_hbits h = Ret b /\ 4 <= b < 32.
Proof.
  intros Hh. apply wp_exists. unfold index_hbits.
  eapply (wp_loop (fun i => 4 <= i <= 31) (fun i => 31 - i)); [lia..| |lia].
  intros i Hi. rewrite Z.shiftl_1_l, u32_small by (split; [lia|apply Z.pow_lt_mono_r; lia]).
  case_if; cbn [wp]; [|lia].
  assert (i <> 31); [|lia]. intros ->. lia.
Qed.

Lemma land_mask_range v b : 0 <= b -> 0 <= Z.land v (2 ^ b - 1) <= 2 ^ b - 1.
Proof.
  intros Hb. replace (2 ^ b - 1) with (Z.ones b) at 1 2 by (rewrite Z.ones_equiv; lia).
  rewrite Z.land_ones by lia. pose proof (Z.mod_pos_bound v (2 ^ b) ltac:(lia)). lia.
Qed.

Lemma zlen_concat_insert {A} (ls : list (list A)) i l l' :
  ls !! i = Some l ->
  zlen (concat (<[i:=l']> ls)) = zlen (concat ls) - zlen l + zlen l'.
Proof.
  intros Hl. rewrite insert_take_drop by eauto using lookup_lt_Some.
  rewrite <-(take_drop_middle _ _ _ Hl) at 3.
  rewrite !concat_app. cbn [concat]. rewrite !zlen_app. lia.
Qed.

Section populate.
Context (src : list Z) (b E : Z).
Context (Hsrc : is_bytes src) (Hb : 4 <= b < 32).
Context (HE : 16 * E <= zlen src - 1) (HE' : 16 * E < 2 ^ 32 - 1).
Let hmask := 2 ^ b - 1.

Definition chains_ok (hash : list (list index_entry)) (count : list Z) : Prop :=
  forall i chain, hash !! i = Some chain ->
    chain_ok src hmask (Z.of_nat i) chain /\ count !! i = Some (zlen chain).

Lemma chains_ok_insert hash count i chain :
  chains_ok hash count -> zlen hash = zlen count -> 0 <= i < zlen hash ->
  chain_ok src hmask i chain ->
  chains_ok (<[Z.to_nat i := chain]> hash) (<[Z.to_nat i := zlen chain]> count).
Proof.
  unfold zlen. intros Hok Hl Hi Hch j c. destruct (decide (j = Z.to_nat i)) as [->|Hne].
  - rewrite !list_lookup_insert_eq by lia. intros [= <-]. by rewrite Z2Nat.id by lia.
  - rewrite !list_lookup_insert_ne by done. apply Hok.
Qed.

(** [k] blocks are still to be indexed; each block indexed so far has an entry
    or was merged into the entry pushed last. *)
Definition populate_inv (st : ibuild) : Prop :=
  exists k, ib_data st = 16 * (k - 1) /\ 0 <= k <= E /\
  zlen (ib_hash st) = 2 ^ b /\ zlen (ib_count st) = 2 ^ b /\
  chains_ok (ib_hash st) (ib_count st) /\
  ib_entries st = zlen (concat (ib_hash st)) + k /\
  (ib_prev st = 2 ^ 32 - 1 \/
   exists e chain, ib_hash st !! Z.to_nat (Z.land (ib_prev st) hmask) = Some (e :: chain) /\
     ie_val e = ib_prev st).

(** Both branches of the loop: the bucket of [val] gets a chain whose head has
    the fingerprint [val]. *)
Lemma populate_inv_push k hash count val chain e chain' :
  1 <= k <= E -> zlen hash = 2 ^ b -> zlen count = 2 ^ b -> chains_ok hash count ->
  hash !! Z.to_nat (Z.land val hmask) = Some chain ->
  chain_ok src hmask (Z.land val hmask) (e :: chain') -> ie_val e = val ->
  populate_inv (IBuild (16 * (k - 2)) (zlen (concat hash) - zlen chain + zlen (e :: chain') + (k - 1))
    val (<[Z.to_nat (Z.land val hmask) := e :: chain']> hash)
    (<[Z.to_nat (Z.land val hmask) := zlen (e :: chain')]> count)).
Proof.
  intros Hk Hh Hc Hok Hlk Hch Hv. exists (k - 1).
  cbn [ib_data ib_entries ib_prev ib_hash ib_count].
  rewrite !zlen_insert, (zlen_concat_insert _ _ _ _ Hlk).
  pose proof (land_mask_range val b ltac:(lia)) as Hi. fold hmask in Hi.
  split; [lia|]. split; [lia|]. split; [done|]. split; [done|]. split.
  { apply chains_ok_insert; [done|lia| |done]. unfold hmask in *. lia. }
  split; [done|]. right. exists e, chain'. split; [|done].
  apply list_lookup_insert_eq. eauto using lookup_lt_Some.
Qed.

Lemma populate_step_spec st :
  populate_inv st ->
  wp (populate_step src hmask st) (fun r =>
      match r with
      | inl st' => populate_inv st' /\ 0 <= ib_data st /\ ib_data st' = ib_data st - 16
      | inr st' => populate_inv st' /\ ib_data st' < 0
      end) (fun _ => False).
Proof.
  intros Hinv. pose proof Hinv as (k & Hd & Hk & Hh & Hc & Hchains & Hent & Hprev).
  destruct st as [data entries prev hash count].
  cbn [ib_data ib_entries ib_prev ib_hash ib_count] in *.
  unfold populate_step. case_if; [by cbn [wp]|].
  destruct (rabin_window_range src (data + 1) 16 0) as (val & Hval & Hv); [done|lia..|].
  rewrite Hval. run. unfold RABIN_WINDOW.
  pose proof (land_mask_range val b ltac:(lia)) as Hi. fold hmask in Hi.
  assert (Z.land val hmask < 2 ^ b) as Hi' by (unfold hmask in *; lia).
  assert (entry_ok src (IndexEntry (data + 16) val)) as Hok.
  { unfold entry_ok, RABIN_WINDOW. cbn [ie_ptr ie_val].
    replace (data + 16 - 15) with (data + 1) by lia. repeat split; [lia..|done]. }
  destruct (rd_in hash (Z.land val hmask)) as [chain Hrd]; [lia|].
  pose proof Hrd as [Hnn Hlk]%rd_Ret.
  destruct (Hchains _ _ Hlk) as [Hch Hcnt]. rewrite Z2Nat.id in Hch by lia.
  case_if; [subst prev|]; rewrite Hrd; run.
  - destruct Hprev as [->|(e & chain' & Hlk' & Hev)]; [lia|].
    rewrite Hlk in Hlk'. injection Hlk' as ->.
    rewrite wr_in by lia. run. cbn [wp ib_data]. split; [|lia].
    apply Forall_cons_1 in Hch as [_ Hch].
    pose proof (populate_inv_push k hash count val _ (IndexEntry (data + 16) (ie_val e)) chain'
      ltac:(lia) Hh Hc Hchains Hlk) as Hp.
    rewrite Hev in *. specialize (Hp ltac:(by constructor) eq_refl).
    rewrite !zlen_cons in Hp. rewrite zlen_cons in Hcnt.
    rewrite (list_insert_id count) in Hp by done.
    replace (data - 16) with (16 * (k - 2)) by lia. eapply eq_ind; [exact Hp|]. f_equal. lia.
  - rewrite wr_in by lia. run. rewrite (proj2 (rd_Ret count _ (zlen chain))) by done. run.
    rewrite wr_in by lia. run. cbn [wp ib_data]. split; [|lia].
    pose proof (populate_inv_push k hash count val _ (IndexEntry (data + 16) val) chain
      ltac:(lia) Hh Hc Hchains Hlk ltac:(by constructor) eq_refl) as Hp.
    rewrite !zlen_cons in Hp. rewrite (Z.add_comm (zlen chain)).
    replace (data - 16) with (16 * (k - 2)) by lia. eapply eq_ind; [exact Hp|]. f_equal. lia.
Qed.
End populate.

Lemma cull_all_spec (P : nat -> index_entry -> Prop) hash count entries :
  Forall2 (fun chain n => n = zlen chain) hash count ->
  (forall i chain, hash !! i = Some chain -> Forall (P i) chain) ->
  exists hash',
    cull_all hash count entries =
      Ret (hash', entries - (zlen (concat hash) - zlen (concat hash'))) /\
    length hash' = length hash /\
    forall i chain, hash' !! i = Some chain -> Forall (P i) chain /\ zlen chain <= HASH_LIMIT.
Proof.
  intros H. revert P entries.
  induction H as [|chain n hash count -> H IH]; intros P entries HP; cbn [cull_all].
  { exists []. cbn [concat]. split; [do 2 f_equal; lia|]. by split. }
  assert (exists chain' , (if zlen chain <=? HASH_LIMIT then Ret (chain, entries)
      else c ← cull_bucket (zlen chain) chain; Ret (c, entries - (zlen chain - HASH_LIMIT)))
      = Ret (chain', entries - (zlen chain - zlen chain')) /\
      Forall (P 0%nat) chain' /\ zlen chain' <= HASH_LIMIT) as (chain' & -> & HP' & Hl).
  { pose proof (HP 0%nat chain eq_refl) as H0. unfold HASH_LIMIT. case_if.
    - exists chain. split; [do 2 f_equal; lia|done].
    - destruct (cull_bucket_spec (P 0%nat) _ chain ltac:(done) eq_refl H0) as (kept & -> & Hk & ?).
      exists kept. run. rewrite Hk. done. }
  run. destruct (IH (fun i => P (S i)) (entries - (zlen chain - zlen chain'))) as (hash' & -> & Hlen & HP'').
  { intros i c Hc. by apply (HP (S i)). }
  run. exists (chain' :: hash'). cbn [concat]. rewrite !zlen_app. split; [do 2 f_equal; lia|].
  split; [cbn [length]; lia|]. intros [|i] c; cbn [lookup list_lookup].
  - by intros [= <-].
  - apply HP''.
Qed.

Lemma zlen_pack_hash hash off : zlen (pack_hash hash off) = zlen hash + 1.
Proof.
  revert off. induction hash as [|chain hash IH]; intros off; cbn [pack_hash]; [done|].
  rewrite !zlen_cons, IH. lia.
Qed.

(** The bucket starts are the numbers of entries before each bucket. *)
Lemma lookup_pack_hash hash off i :
  (i <= length hash)%nat ->
  pack_hash hash off !! i = Some (off + zlen (concat (take i hash))).
Proof.
  revert off i. induction hash as [|chain hash IH]; intros off i Hi; cbn [pack_hash].
  - destruct i; [|simpl in Hi; lia]. cbn. rewrite zlen_nil. f_equal. lia.
  - destruct i; [cbn; rewrite zlen_nil; f_equal; lia|].
    cbn [take concat length] in *. rewrite zlen_app.
    change ((off :: ?l) !! S i) with (l !! i). rewrite IH by lia. f_equal. lia.
Qed.

Lemma slice_concat {A} (ls : list (list A)) i l :
  ls !! i = Some l ->
  slice (concat ls) (zlen (concat (take i ls))) (zlen l) = l.
Proof.
  intros Hl. rewrite <-(take_drop_middle _ _ _ Hl) at 1.
  rewrite concat_app. cbn [concat]. unfold slice, zlen.
  rewrite !Nat2Z.id, drop_app_length. by rewrite take_app_length.
Qed.

Lemma zlen_concat_take {A} (ls : list (list A)) i l :
  ls !! i = Some l ->
  zlen (concat (take (S i) ls)) = zlen (concat (take i ls)) + zlen l /\
  zlen (concat (take i ls)) + zlen l <= zlen (concat ls).
Proof.
  intros Hl. rewrite (take_S_r _ _ _ Hl), concat_app. cbn [concat].
  rewrite app_nil_r, zlen_app. split; [done|].
  rewrite <-(take_drop_middle _ _ _ Hl) at 2. rewrite concat_app. cbn [concat].
  rewrite !zlen_app. pose proof (zlen_nonneg (concat (drop (S i) ls))). lia.
Qed.

Lemma chains_ok_counts src b hash count :
  chains_ok src b hash count -> zlen hash = zlen count ->
  Forall2 (fun chain n => n = zlen chain) hash count.
Proof.
  unfold zlen at 1 2. intros Hok Hl. apply Forall2_same_length_lookup_2; [lia|].
  intros i chain n Hc Hn. destruct (Hok i chain Hc) as [_ E]. rewrite Hn in E. by injection E.
Qed.

(** The populating loop as a whole. *)
Lemma populate_spec src b E :
  is_bytes src -> 4 <= b < 32 -> 0 <= E -> 16 * E <= zlen src - 1 -> 16 * E < 2 ^ 32 - 1 ->
  wp (loop (S (Z.to_nat E)) (populate_step src (2 ^ b - 1))
       (IBuild (E * RABIN_WINDOW - RABIN_WINDOW) E (2 ^ 32 - 1)
          (replicate (Z.to_nat (2 ^ b)) []) (replicate (Z.to_nat (2 ^ b)) 0)))
     (fun st => zlen (ib_hash st) = 2 ^ b /\ zlen (ib_count st) = 2 ^ b /\
        chains_ok src b (ib_hash st) (ib_count st) /\
        ib_entries st = zlen (concat (ib_hash st)))
     (fun _ => False).
Proof.
  intros Hs Hb HE0 HE1 HE2. assert (0 < 2 ^ b) by (apply Z.pow_pos_nonneg; lia).
  unfold RABIN_WINDOW.
  eapply (wp_loop (populate_inv src b E) (fun st => (ib_data st + 16) / 16)).
  - exists E. cbn [ib_data ib_entries ib_prev ib_hash ib_count].
    rewrite !zlen_replicate, concat_replicate_nil, zlen_nil.
    split; [lia|]. split; [lia|]. split; [lia|]. split; [lia|].
    split; [|by split; [lia|left]].
    intros i chain. rewrite !lookup_replicate. intros [-> Hi]. split; [constructor|by split].
  - cbn [ib_data]. replace (E * 16 - 16 + 16) with (E * 16) by lia. rewrite Z.div_mul; lia.
  - intros st Hst. eapply wp_mono; [by apply (populate_step_spec src b E)| |done].
    intros [st'|st'].
    + intros (? & ? & ->). split; [done|]. Z.to_euclidean_division_equations; lia.
    + intros [(k & ? & ? & ? & ? & ? & ? & _) ?]. do 3 (split; [done|]). lia.
  - cbn [ib_data]. Z.to_euclidean_division_equations; lia.
Qed.

Lemma index_ok_pack src b hash memsize :
  4 <= b < 32 -> zlen hash = 2 ^ b ->
  (forall i chain, hash !! i = Some chain ->
     Forall (fun e => entry_ok src e /\ Z.land (ie_val e) (2 ^ b - 1) = Z.of_nat i) chain /\
     zlen chain <= HASH_LIMIT) ->
  index_ok src (DeltaIndex memsize src (zlen src) (2 ^ b - 1) (pack_hash hash 0) (concat hash)).
Proof.
  intros Hb Hl Hok. split; cbn [di_src_buf di_src_size di_hash_mask di_hash di_entries].
  - done.
  - done.
  - by exists b.
  - rewrite zlen_pack_hash. lia.
  - intros i Hi. unfold zlen in Hl.
    destruct (lookup_lt_is_Some_2 hash (Z.to_nat i)) as [chain Hc]; [lia|].
    destruct (Hok _ _ Hc) as [HP Hlim]. rewrite Z2Nat.id in HP by lia.
    destruct (zlen_concat_take _ _ _ Hc) as [Ht Hle].
    pose proof (zlen_nonneg chain). pose proof (zlen_nonneg (concat (take (Z.to_nat i) hash))).
    exists (zlen (concat (take (Z.to_nat i) hash))),
      (zlen (concat (take (Z.to_nat i) hash)) + zlen chain).
    rewrite !rd_Ret. replace (Z.to_nat (i + 1)) with (S (Z.to_nat i)) by lia.
    rewrite !lookup_pack_hash, Ht by lia.
    replace (_ + zlen chain - _) with (zlen chain) by lia.
    rewrite slice_concat by done.
    repeat split; try done; lia.
Qed.

(** * Theorems *)

(** The only failure left: an allocation that did not succeed. *)
Definition oom (malloc_ok : Z -> bool) (e : failure) : Prop :=
  e = NoMem /\ exists n, malloc_ok n = false.

Lemma create_index_wp malloc_ok src :
  is_bytes src -> src <> [] -> zlen src < 2 ^ 64 ->
  wp (create_delta_index malloc_ok (Some src) (zlen src)) (index_ok src) (oom malloc_ok).
Proof.
  intros Hb Hne Hn. unfold create_delta_index.
  assert (1 <= zlen src) as Hpos.
  { destruct src; [done|]. rewrite zlen_cons. pose proof (zlen_nonneg src). lia. }
  case_if; [lia|]. destruct (index_entries_range (zlen src)) as (HE0 & HE1 & HE2); [lia|].
  set (E := index_entries (zlen src)) in *.
  destruct (index_hbits_spec (E / 4)) as (b & -> & Hb4).
  { split; [apply Z.div_pos; lia|]. apply Z.div_lt_upper_bound; lia. }
  run. rewrite Z.shiftl_1_l. case_if; [by split; eauto|]. case_if; [by split; eauto|].
  assert (0 < 2 ^ b) by (apply Z.pow_pos_nonneg; lia).
  apply wp_bind. eapply wp_mono; [apply (populate_spec src b E); done || lia| |done].
  intros st (Hh & Hc & Hok & Hent).
  destruct (cull_all_spec (fun i e => entry_ok src e /\ Z.land (ie_val e) (2 ^ b - 1) = Z.of_nat i)
    (ib_hash st) (ib_count st) (ib_entries st)) as (hash & -> & Hlen & Hhash).
  { eapply chains_ok_counts; [done|lia]. }
  { intros i chain Hi. apply (Hok i chain Hi). }
  run. case_if; [by split; eauto|]. case_if; [lia|]. cbn [wp].
  apply index_ok_pack; [lia|unfold zlen in *; lia|done].
Qed.

(** [C4] [create_delta_index] never reads outside the source, never follows a
    NULL link while culling and never fails its final [assert]: unless an
    allocation fails it returns an index that describes the source (every entry
    holds the fingerprint of the window it points behind, sits in the bucket of
    its hash, and no bucket has more than [HASH_LIMIT] entries). *)
Theorem create_delta_index_ok malloc_ok src :
  is_bytes src -> src <> [] -> zlen src < 2 ^ 64 ->
  wp (create_delta_index malloc_ok (Some src) (zlen src)) (index_ok src) (oom malloc_ok).
Proof. apply create_index_wp. Qed.

(** ** Concrete run *)

(** 40 bytes: the windows at 16 and 32 are indexed. *)
Definition w_source : list Z := (fun i => (Z.of_nat i * 7 + 3) mod 256) <$> seq 0 40.

Lemma create_delta_index_ok_witness :
  wp (create_delta_index (fun _ => true) (Some w_source) (zlen w_source)) (index_ok w_source)
     (oom (fun _ => true)).
Proof. apply (create_delta_index_ok (fun _ => true) w_source); evaluate. Defined.
