(* ===== verification/CreateDelta.v ===== *)
(** diff-delta.c, [create_delta]: the delta of a target against an indexed
    source.  The model keeps the output buffer with its positions, the pending
    insert count, the current match and the rolling fingerprint, and each write
    is a checked write.  The theorems show that the encoder stays inside its
    buffers, ends, respects [max_size], and that [patch_delta] rebuilds the
    target from every delta it returns. *)
From S2P Require Import Prelude Headers Rabin PatchDelta DeltaIndex.

(** * Model *)

Definition MAX_OP_SIZE : Z := 5 + 5 + 1 + RABIN_WINDOW + 7.

Record dstate := DState {
  d_out : list Z;
  d_outsize : Z;
  d_outpos : Z;
  d_data : Z;      (* position in the target *)
  d_inscnt : Z;
  d_moff : Z;
  d_msize : Z;
  d_val : Z;
}.

(** Store a buffer size: [while (l >= 0x80) { out[outpos++] = l | 0x80; l >>= 7; }
    out[outpos++] = l]. *)
Fixpoint store_size (fuel : nat) (out : list Z) (outpos l : Z) : outcome (list Z * Z) :=
  match fuel with
  | O => Undef
  | S fuel =>
      if l >=? 0x80 then
        out ← wr out outpos (u8 (Z.lor l 0x80));
        store_size fuel out (outpos + 1) (Z.shiftr l 7)
      else
        out ← wr out outpos (u8 l);
        Ret (out, outpos + 1)
  end.

(** The first window: [for (i = 0; i < RABIN_WINDOW && data < top; i++, data++)];
    returns [out], [outpos], [val] and the bytes taken. *)
Fixpoint first_window (n : nat) (trg : list Z) (data : Z) (out : list Z) (outpos val : Z)
    : outcome (list Z * Z * Z * Z) :=
  match n with
  | O => Ret (out, outpos, val, data)
  | S n =>
      if data <? zlen trg then
        c ← rd trg data;
        out ← wr out outpos c;
        val ← rabin_step val c;
        first_window n trg (data + 1) out (outpos + 1) val
      else Ret (out, outpos, val, data)
  end.

(** [while (ref_size-- && *src++ == *ref) ref++]; returns [ref]. *)
Definition match_step (trg src : list Z) (st : Z * Z * Z) : outcome ((Z * Z * Z) + Z) :=
  let '(ref_size, s, ref) := st in
  if ref_size =? 0 then Ret (inr ref) else
  a ← rd trg s;
  b ← rd src ref;
  if a =? b then Ret (inl (ref_size - 1, s + 1, ref + 1)) else Ret (inr ref).

(** One round of the loop over the entries of a bucket; the state is [entry]
    with [moff] and [msize]. *)
Definition probe_step (src_size : Z) (src : list Z) (entries : list index_entry)
    (hi : Z) (trg : list Z) (data val : Z) (st : Z * Z * Z) : outcome ((Z * Z * Z) + (Z * Z)) :=
  let '(entry, moff, msize) := st in
  if negb (entry <? hi) then Ret (inr (moff, msize)) else
  e ← rd entries entry;
  let ref_size := u32 (src_size - ie_ptr e) in
  if negb (ie_val e =? val) then Ret (inl (entry + 1, moff, msize)) else
  let ref_size := if ref_size >? zlen trg - data then u32 (zlen trg - data) else ref_size in
  if ref_size <=? msize then Ret (inr (moff, msize)) else
  ref ← loop (S (Z.to_nat ref_size)) (match_step trg src) (ref_size, data, ie_ptr e);
  if msize <? ref - ie_ptr e then
    let msize := ref - ie_ptr e in
    let moff := ie_ptr e in
    if msize >=? 4096 then Ret (inr (moff, msize)) else Ret (inl (entry + 1, moff, msize))
  else Ret (inl (entry + 1, moff, msize)).

(** Roll the fingerprint over the next byte and look for a longer match; returns
    [val], [moff] and [msize]. *)
Definition find_match (idx : delta_index) (trg : list Z) (data val moff msize : Z)
    : outcome (Z * Z * Z) :=
  val ← rabin_roll trg data val;
  let i := Z.land val (di_hash_mask idx) in
  lo ← rd (di_hash idx) i;
  hi ← rd (di_hash idx) (i + 1);
  '(moff, msize) ←
    loop (S (Z.to_nat (hi - lo)))
      (probe_step (di_src_size idx) (di_src_buf idx) (di_entries idx) hi trg data val)
      (lo, moff, msize);
  Ret (val, moff, msize).

(** The branch [msize < 4]: the next byte joins the pending insert. *)
Definition emit_insert (trg : list Z) (st : dstate) : outcome dstate :=
  let '(DState out outsize outpos data inscnt moff msize val) := st in
  let outpos := if tru inscnt then outpos else outpos + 1 in
  c ← rd trg data;
  out ← wr out outpos c;
  let outpos := outpos + 1 in
  let inscnt := inscnt + 1 in
  if inscnt =? 0x7f then
    out ← wr out (outpos - inscnt - 1) (u8 inscnt);
    Ret (DState out outsize outpos (data + 1) 0 moff 0 val)
  else Ret (DState out outsize outpos (data + 1) inscnt moff 0 val).

(** [while (moff && ref_data[moff-1] == data[-1])]: the match grows backwards
    over the pending insert; the state is moff, msize, data, outpos, inscnt. *)
Definition back_step (src trg : list Z) (st : Z * Z * Z * Z * Z)
    : outcome ((Z * Z * Z * Z * Z) + (Z * Z * Z * Z * Z)) :=
  let '(moff, msize, data, outpos, inscnt) := st in
  if negb (tru moff) then Ret (inr st) else
  a ← rd src (moff - 1);
  b ← rd trg (data - 1);
  if negb (a =? b) then Ret (inr st) else
  let inscnt := inscnt - 1 in
  if tru inscnt then Ret (inl (moff - 1, msize + 1, data - 1, outpos - 1, inscnt))
  else Ret (inr (moff - 1, msize + 1, data - 1, outpos - 1 - 1, inscnt - 1)).

(** [if (x & mask) out[outpos++] = x >> shift, i |= bit]. *)
Definition put_byte (x mask shift bit : Z) (st : list Z * Z * Z) : outcome (list Z * Z * Z) :=
  let '(out, outpos, i) := st in
  if tru (Z.land x mask) then
    out ← wr out outpos (u8 (Z.shiftr x shift));
    Ret (out, outpos + 1, Z.lor i bit)
  else Ret (out, outpos, i).

(** Before a copy: close the pending insert, after growing the match over it;
    returns [out], [outpos], [data], [moff] and [msize]. *)
Definition close_insert (src trg : list Z) (out : list Z) (outpos data inscnt moff msize : Z)
    : outcome (list Z * Z * Z * Z * Z) :=
  if tru inscnt then
    '(moff, msize, data, outpos, inscnt) ←
      loop (S (Z.to_nat inscnt)) (back_step src trg) (moff, msize, data, outpos, inscnt);
    out ← wr out (outpos - inscnt - 1) (u8 inscnt);
    Ret (out, outpos, data, moff, msize)
  else Ret (out, outpos, data, moff, msize).

(** The bytes of one copy operation; the code goes in front once it is known. *)
Definition put_copy (out : list Z) (outpos moff msize : Z) : outcome (list Z * Z) :=
  let op := outpos in
  '(out, outpos, i) ← put_byte moff 0x000000ff 0 0x01 (out, outpos + 1, 0x80);
  '(out, outpos, i) ← put_byte moff 0x0000ff00 8 0x02 (out, outpos, i);
  '(out, outpos, i) ← put_byte moff 0x00ff0000 16 0x04 (out, outpos, i);
  '(out, outpos, i) ← put_byte moff 0xff000000 24 0x08 (out, outpos, i);
  '(out, outpos, i) ← put_byte msize 0x00ff 0 0x10 (out, outpos, i);
  '(out, outpos, i) ← put_byte msize 0xff00 8 0x20 (out, outpos, i);
  out ← wr out op (u8 i);
  Ret (out, outpos).

(** The branch [msize >= 4]: close the pending insert and write a copy. *)
Definition emit_copy (src trg : list Z) (st : dstate) : outcome dstate :=
  let '(DState out outsize outpos data inscnt moff msize val) := st in
  '(out, outpos, data, moff, msize) ← close_insert src trg out outpos data inscnt moff msize;
  let left := if msize <? 0x10000 then 0 else u32 (msize - 0x10000) in
  let msize := msize - left in
  '(out, outpos) ← put_copy out outpos moff msize;
  let data := data + msize in
  let moff := moff + msize in
  let msize := if moff >? 0xffffffff then 0 else left in
  val ← (if msize <? 4096 then rabin_window trg (data - RABIN_WINDOW) 16 0 else Ret val);
  Ret (DState out outsize outpos data 0 moff msize val).

Section create.
(** The contents of freshly allocated memory, and which allocations succeed. *)
Context (junk : Z) (malloc_ok : Z -> bool).

(** The end of a round: enlarge the output, or leave the loop when [max_size]
    is exceeded. *)
Definition grow_out (max_size : Z) (st : dstate) : outcome (dstate + dstate) :=
  let '(DState out outsize outpos data inscnt moff msize val) := st in
  if negb (outpos >=? outsize - MAX_OP_SIZE) then Ret (inl st) else
  let outsize := outsize * 3 / 2 in
  let outsize :=
    if tru max_size && (outsize >=? max_size) then max_size + MAX_OP_SIZE + 1 else outsize in
  if tru max_size && (outpos >? max_size) then
    Ret (inr (DState out outsize outpos data inscnt moff msize val))
  else if negb (malloc_ok outsize) then Err NoMem
  else Ret (inl (DState (realloc junk out outsize) outsize outpos data inscnt moff msize val)).

(** One round of [while (data < top)]. *)
Definition delta_step (idx : delta_index) (trg : list Z) (max_size : Z) (st : dstate)
    : outcome (dstate + dstate) :=
  let '(DState out outsize outpos data inscnt moff msize val) := st in
  if negb (data <? zlen trg) then Ret (inr st) else
  '(val, moff, msize) ←
    (if msize <? 4096 then find_match idx trg data val moff msize else Ret (val, moff, msize));
  let st := DState out outsize outpos data inscnt moff msize val in
  st ← (if msize <? 4 then emit_insert trg st else emit_copy (di_src_buf idx) trg st);
  grow_out max_size st.

(** Returns the delta, [*delta_size] being its length; a NULL return for a
    delta over [max_size] is [Err Null]. *)
Definition create_delta (idx : delta_index) (trg : list Z) (max_size : Z) : outcome (list Z) :=
  if zlen trg =? 0 then Err Null else
  let outsize := 8192 in
  let outsize :=
    if tru max_size && (outsize >=? max_size) then max_size + MAX_OP_SIZE + 1 else outsize in
  if negb (malloc_ok outsize) then Err NoMem else
  let out := replicate (Z.to_nat outsize) junk in
  '(out, outpos) ← store_size 10 out 0 (di_src_size idx);
  '(out, outpos) ← store_size 10 out outpos (zlen trg);
  '(out, outpos, val, data) ← first_window 16 trg 0 out (outpos + 1) 0;
  st ← loop (S (Z.to_nat (zlen trg))) (delta_step idx trg max_size)
         (DState out outsize outpos data data 0 0 val);
  out ← (if tru (d_inscnt st) then wr (d_out st) (d_outpos st - d_inscnt st - 1) (u8 (d_inscnt st))
         else Ret (d_out st));
  if tru max_size && (d_outpos st >? max_size) then Err Null
  else Ret (take (Z.to_nat (d_outpos st)) out).
End create.

(** * Writing the header *)

Lemma store_size_spec fuel out outpos l acc :
  filled out outpos acc -> outpos + zlen (delta_hdr_digits fuel l) <= zlen out ->
  0 <= l < 2 ^ (7 * Z.of_nat fuel) -> (0 < fuel)%nat ->
  exists out', store_size fuel out outpos l = Ret (out', outpos + zlen (delta_hdr_digits fuel l)) /\
    zlen out' = zlen out /\
    filled out' (outpos + zlen (delta_hdr_digits fuel l)) (acc ++ delta_hdr_digits fuel l).
Proof.
  revert out outpos l acc. induction fuel as [|fuel IH]; intros out outpos l acc Hf Hl Hr Hpos; [lia|].
  cbn [store_size delta_hdr_digits] in *. destruct (l >=? 0x80) eqn:E; zb.
  - rewrite zlen_cons in *. pose proof (zlen_nonneg (delta_hdr_digits fuel (Z.shiftr l 7))).
    destruct (filled_wr out outpos acc (u8 (Z.lor l 0x80)) Hf) as [-> Hf']; [lia|]. run.
    assert (0 <= Z.shiftr l 7 < 2 ^ (7 * Z.of_nat fuel) /\ (0 < fuel)%nat) as [Hr' Hpos'].
    { rewrite Z.shiftr_div_pow2 by lia. change (2 ^ 7) with 128.
      replace (7 * Z.of_nat (S fuel)) with (7 + 7 * Z.of_nat fuel) in Hr by lia.
      rewrite Z.pow_add_r in Hr by lia. change (2 ^ 7) with 128 in Hr.
      split; [split; [apply Z.div_pos; lia|apply Z.div_lt_upper_bound; lia]|].
      destruct fuel; [|lia]. change (2 ^ (7 * Z.of_nat 0)) with 1 in Hr. lia. }
    destruct (IH _ (outpos + 1) (Z.shiftr l 7) _ Hf') as (out' & -> & Hlen & Hf''); [|done..|].
    { rewrite zlen_insert. lia. }
    rewrite zlen_insert in Hlen. exists out'.
    rewrite <-(assoc app) in Hf''.
    replace (outpos + (1 + zlen (delta_hdr_digits fuel (Z.shiftr l 7))))
      with (outpos + 1 + zlen (delta_hdr_digits fuel (Z.shiftr l 7))) by lia. done.
  - rewrite zlen_cons, zlen_nil in *.
    destruct (filled_wr out outpos acc (u8 l) Hf) as [-> Hf']; [lia|]. run.
    eexists. split; [done|]. rewrite zlen_insert. done.
Qed.

Lemma delta_hdr_digits_max l k :
  0 <= l < 2 ^ (7 * Z.of_nat k) -> (0 < k)%nat -> zlen (delta_hdr_digits 10 l) <= Z.of_nat k.
Proof.
  generalize 10%nat as f. intros f. revert l f. induction k as [|k IH]; intros l f Hl Hk; [lia|].
  destruct f as [|f]; cbn [delta_hdr_digits]; [rewrite zlen_nil; lia|].
  case_if; rewrite zlen_cons; [|rewrite zlen_nil; lia].
  assert (0 <= Z.shiftr l 7 < 2 ^ (7 * Z.of_nat k) /\ (0 < k)%nat) as [Hr' Hpos'].
  { rewrite Z.shiftr_div_pow2 by lia. change (2 ^ 7) with 128.
    replace (7 * Z.of_nat (S k)) with (7 + 7 * Z.of_nat k) in Hl by lia.
    rewrite Z.pow_add_r in Hl by lia. change (2 ^ 7) with 128 in Hl.
    split; [split; [apply Z.div_pos; lia|apply Z.div_lt_upper_bound; lia]|].
    destruct k; [|lia]. change (2 ^ (7 * Z.of_nat 0)) with 1 in Hl. lia. }
  specialize (IH _ f Hr' Hpos'). lia.
Qed.

Lemma first_window_spec n trg data out outpos val acc :
  is_bytes trg -> 0 <= data <= zlen trg -> 0 <= val < 2 ^ 31 ->
  filled out outpos acc -> outpos + Z.of_nat n <= zlen out ->
  let m := Z.min (Z.of_nat n) (zlen trg - data) in
  exists out' val', first_window n trg data out outpos val =
      Ret (out', outpos + m, val', data + m) /\
    zlen out' = zlen out /\ filled out' (outpos + m) (acc ++ slice trg data m) /\
    0 <= val' < 2 ^ 31 /\ rabin_window trg data (Z.to_nat m) val = Ret val'.
Proof.
  intros Hb. revert data out outpos val acc.
  induction n as [|n IH]; intros data out outpos val acc Hd Hv Hf Hl m; cbn [first_window].
  { unfold m. rewrite Z.min_l by lia. rewrite !Z.add_0_r, slice_0, app_nil_r. eauto 10. }
  destruct (data <? zlen trg) eqn:E; zb.
  - destruct (rd_in trg data) as [c Hc]; [lia|]. rewrite Hc. run.
    pose proof Hc as [_ Hlk]%rd_Ret. pose proof (is_bytes_lookup _ _ _ Hb Hlk) as Hcb.
    destruct (filled_wr out outpos acc c Hf) as [-> Hf']; [lia|]. run.
    destruct (rabin_step_range val c Hv Hcb) as (v & Hstep & Hvr). rewrite Hstep. run.
    destruct (IH (data + 1) _ (outpos + 1) v _ ltac:(lia) Hvr Hf'
      ltac:(rewrite zlen_insert; lia)) as (out' & val' & -> & Hlen & Hfl & Hr & Hw).
    replace m with (1 + Z.min (Z.of_nat n) (zlen trg - (data + 1))) by lia.
    set (m' := Z.min (Z.of_nat n) (zlen trg - (data + 1))) in *.
    exists out', val'. rewrite zlen_insert in Hlen. rewrite !Z.add_assoc.
    rewrite slice_app by lia. rewrite (slice_1 _ _ c) by done. rewrite (assoc app).
    split; [done|]. split; [done|]. split; [done|]. split; [done|].
    replace (Z.to_nat (1 + m')) with (S (Z.to_nat m')) by lia.
    cbn [rabin_window]. rewrite Hc. run. rewrite Hstep. run. done.
  - unfold m. rewrite Z.min_r by lia. replace (zlen trg - data) with 0 by lia.
    rewrite !Z.add_0_r, slice_0, app_nil_r. exists out, val. eauto 10.
Qed.

(** * Searching *)

Lemma u32_le x : 0 <= x -> 0 <= u32 x <= x.
Proof. intros. split; [apply u32_range|]. apply Z.mod_le; lia. Qed.

(** The current match: [msize] bytes at [moff] of the source are the next bytes
    of the target, and the offset fits a copy operation. *)
Definition match_ok (src trg : list Z) (data moff msize : Z) : Prop :=
  0 <= moff /\ 0 <= msize < 2 ^ 32 /\ moff + msize <= zlen src /\ data + msize <= zlen trg /\
  (0 < msize -> moff < 2 ^ 32) /\ slice src moff msize = slice trg data msize.

Lemma match_ok_none src trg data moff :
  0 <= moff <= zlen src -> 0 <= data <= zlen trg -> match_ok src trg data moff 0.
Proof. intros. unfold match_ok. rewrite !slice_0. repeat split; lia. Qed.

(** The comparison loop returns the end of a common run. *)
Lemma match_loop_spec src trg data p r :
  0 <= p -> 0 <= data -> 0 <= r -> p + r <= zlen src -> data + r <= zlen trg ->
  exists k, loop (S (Z.to_nat r)) (match_step trg src) (r, data, p) = Ret (p + k) /\
    0 <= k <= r /\ slice src p k = slice trg data k.
Proof.
  intros Hp Hd Hr Hps Hdt.
  assert (wp (loop (S (Z.to_nat r)) (match_step trg src) (r, data, p))
    (fun ref => exists k, ref = p + k /\ 0 <= k <= r /\ slice src p k = slice trg data k)
    (fun _ => False)) as Hwp.
  { eapply (wp_loop (fun '(r', s, ref) => exists k, r' = r - k /\ s = data + k /\ ref = p + k /\
      0 <= k <= r /\ slice src p k = slice trg data k) (fun st => st.1.1)); cbn [fst]; [|lia| |lia].
    { exists 0. rewrite !slice_0. repeat split; lia. }
    intros [[r' s] ref] (k & -> & -> & -> & Hk & Heq). unfold match_step.
    case_if; [cbn [wp]; eauto|].
    destruct (rd_in trg (data + k)) as [a Ha]; [lia|]. rewrite Ha. run.
    destruct (rd_in src (p + k)) as [c Hc]; [lia|]. rewrite Hc. run.
    case_if; cbn [wp fst]; [subst c|by eauto]. split; [|lia]. exists (k + 1).
    apply rd_Ret in Ha as [_ Ha]. apply rd_Ret in Hc as [_ Hc].
    split; [lia|]. split; [lia|]. split; [lia|]. split; [lia|].
    by rewrite !(slice_snoc _ _ _ a), Heq by (done || lia). }
  apply wp_exists in Hwp as (ref & -> & k & -> & Hk & Heq). eauto.
Qed.

Lemma probe_loop_spec idx src trg data val moff msize i lo hi :
  index_ok src idx -> 0 <= data < zlen trg -> match_ok src trg data moff msize ->
  0 <= lo <= hi -> hi <= zlen (di_entries idx) ->
  chain_ok src (di_hash_mask idx) i (slice (di_entries idx) lo (hi - lo)) ->
  exists moff' msize',
    loop (S (Z.to_nat (hi - lo)))
      (probe_step (di_src_size idx) (di_src_buf idx) (di_entries idx) hi trg data val)
      (lo, moff, msize) = Ret (moff', msize') /\ match_ok src trg data moff' msize'.
Proof.
  intros Hidx Hd Hm Hlo Hhi Hch. rewrite (iok_src _ _ Hidx), (iok_size _ _ Hidx).
  assert (forall entry e, lo <= entry < hi -> rd (di_entries idx) entry = Ret e -> entry_ok src e) as Hent.
  { intros entry e He Hrd. apply rd_Ret in Hrd as [_ Hrd].
    assert (slice (di_entries idx) lo (hi - lo) !! Z.to_nat (entry - lo) = Some e) as Hs.
    { rewrite lookup_slice by lia. by replace (_ + _)%nat with (Z.to_nat entry) by lia. }
    apply (Forall_lookup_1 _ _ _ _ Hch Hs). }
  clear Hch.
  assert (wp (loop (S (Z.to_nat (hi - lo)))
      (probe_step (zlen src) src (di_entries idx) hi trg data val) (lo, moff, msize))
      (fun '(moff', msize') => match_ok src trg data moff' msize') (fun _ => False)) as Hwp;
    [|apply wp_exists in Hwp as ([? ?] & -> & ?); eauto].
  eapply (wp_loop (fun '(entry, moff, msize) => lo <= entry <= hi /\ match_ok src trg data moff msize)
    (fun st => hi - st.1.1)); cbn [fst]; [|lia| |lia].
  { split; [lia|done]. }
  intros [[entry mo] ms] [He Hmo]. unfold probe_step. case_if; [done|].
  destruct (rd_in (di_entries idx) entry) as [e Hrd]; [lia|]. rewrite Hrd. run.
  destruct (Hent entry e ltac:(lia) Hrd) as (Hptr & H32 & _). unfold RABIN_WINDOW in Hptr.
  case_if; [cbn [wp fst]; split; [split; [lia|done]|lia]|].
  pose proof (u32_le (zlen src - ie_ptr e) ltac:(lia)) as Hrs.
  pose proof (u32_range (zlen src - ie_ptr e)) as Hrs'.
  set (rs := u32 (zlen src - ie_ptr e)) in *.
  set (ref_size := if rs >? zlen trg - data then u32 (zlen trg - data) else rs).
  assert (0 <= ref_size <= rs /\ ref_size <= zlen trg - data) as [Hr1 Hr2].
  { unfold ref_size. case_if; [rewrite u32_small by lia|]; lia. }
  case_if; [done|].
  destruct (match_loop_spec src trg data (ie_ptr e) ref_size) as (k & -> & Hk & Heq); [lia..|]. run.
  replace (ie_ptr e + k - ie_ptr e) with k by lia.
  assert (match_ok src trg data (ie_ptr e) k) by (unfold match_ok; repeat split; (lia || done)).
  case_if; [case_if|]; cbn [wp fst]; [done|split; [split; [lia|done]|lia]..].
Qed.

Lemma find_match_spec idx src trg data val moff msize :
  index_ok src idx -> is_bytes trg -> RABIN_WINDOW <= data < zlen trg ->
  match_ok src trg data moff msize ->
  rabin_window trg (data - RABIN_WINDOW) 16 0 = Ret val ->
  exists val' moff' msize',
    find_match idx trg data val moff msize = Ret (val', moff', msize') /\
    match_ok src trg data moff' msize' /\ 0 <= val' < 2 ^ 31 /\
    rabin_window trg (data + 1 - RABIN_WINDOW) 16 0 = Ret val'.
Proof.
  intros Hidx Hb Hd Hm Hval. unfold find_match. unfold RABIN_WINDOW in Hd.
  rewrite (rabin_roll_window _ _ _ Hb Hd Hval). unfold RABIN_WINDOW in *.
  destruct (rabin_window_range trg (data - 16 + 1) 16 0) as (val' & Hw & Hr); [done|lia..|].
  rewrite Hw. run.
  destruct (iok_mask _ _ Hidx) as (b & Hb32 & Hmask).
  pose proof (land_mask_range val' b ltac:(lia)) as Hi. rewrite <-Hmask in Hi.
  destruct (iok_bucket _ _ Hidx _ Hi) as (lo & hi & -> & -> & Hlo & Hhi & _ & Hch). run.
  destruct (probe_loop_spec idx src trg data val' moff msize _ lo hi Hidx ltac:(lia) Hm Hlo Hhi Hch)
    as (moff' & msize' & -> & Hm'). run.
  exists val', moff', msize'. split; [done|]. split; [done|]. split; [done|].
  by replace (data + 1 - 16) with (data - 16 + 1) by lia.
Qed.

(** * Writing operations *)

Lemma is_bytes_cons x l : is_bytes (x :: l) <-> is_byte x /\ is_bytes l.
Proof. by rewrite Forall_cons_iff. Qed.

Lemma opt_bit_byte x shift bit : is_byte bit -> 0 <= opt_bit x shift bit < 2 ^ 8.
Proof. unfold opt_bit, is_byte. intros. case_if; lia. Qed.

Lemma copy_code_byte off size : is_byte (copy_code off size).
Proof.
  unfold copy_code. change (0 <= copy_code off size < 2 ^ 8). unfold copy_code.
  repeat apply lor_lt; try lia; apply opt_bit_byte; unfold is_byte; lia.
Qed.

Lemma copy_op_bytes off size : is_bytes (copy_op off size).
Proof.
  assert (forall x s, is_bytes (opt_byte x s)) as Hopt.
  { intros x s. unfold opt_byte. cbv zeta. case_if; repeat constructor; apply u8_byte. }
  unfold copy_op. apply is_bytes_cons. split; [apply copy_code_byte|].
  rewrite !is_bytes_app. auto 10.
Qed.

Section emit.
Context (hdr src trg : list Z) (Htrg : is_bytes trg).

(** What has been written: complete operations that build the target up to
    [data - inscnt], then, when [inscnt > 0], the count slot and the bytes of
    the pending insert. *)
Definition pending (out : list Z) (outpos data inscnt : Z) : Prop :=
  0 <= inscnt <= data /\ data <= zlen trg /\
  exists ops, delta_ops src ops (slice trg 0 (data - inscnt)) /\ is_bytes ops /\
    ((inscnt = 0 /\ filled out outpos (hdr ++ ops)) \/
     (0 < inscnt /\ exists slot,
        filled out outpos (hdr ++ ops ++ [slot] ++ slice trg (data - inscnt) inscnt))).

(** Writing the count completes the pending insert. *)
Lemma pending_close out outpos data inscnt :
  pending out outpos data inscnt -> 1 <= inscnt <= 0x7f ->
  exists out', wr out (outpos - inscnt - 1) (u8 inscnt) = Ret out' /\
    zlen out' = zlen out /\ pending out' outpos data 0.
Proof.
  intros (Hi & Hd & ops & Hops & Hb & [[? _]|(_ & slot & Hf)]) H127; [lia|].
  set (lit := slice trg (data - inscnt) inscnt) in *.
  assert (zlen lit = inscnt) as Hlit by (apply zlen_slice; lia).
  rewrite u8_small by (unfold is_byte; lia).
  rewrite (assoc app hdr) in Hf.
  destruct (filled_set _ _ _ _ _ inscnt Hf) as [Hwr Hf'].
  assert (outpos - inscnt - 1 = zlen (hdr ++ ops)) as ->.
  { destruct Hf as [Hf _]. rewrite !zlen_app, zlen_cons, zlen_nil in *. lia. }
  eexists. split; [done|]. rewrite zlen_insert. split; [done|].
  split; [lia|]. split; [done|]. exists (ops ++ inscnt :: lit).
  split; [|split; [|left; split; [done|]]].
  - replace (data - 0) with (0 + ((data - inscnt) + inscnt)) by lia.
    rewrite Z.add_0_l, slice_app by lia. rewrite Z.add_0_l. fold lit.
    apply delta_ops_app; [done|]. rewrite <-(app_nil_r lit) at 2.
    rewrite <-(app_nil_r (inscnt :: lit)). rewrite <-Hlit at 1.
    apply ops_insert; [lia|constructor].
  - apply is_bytes_app. split; [done|]. apply is_bytes_cons.
    split; [unfold is_byte; lia|by apply is_bytes_slice].
  - by rewrite <-!(assoc app) in *.
Qed.

Lemma emit_insert_spec out outsize outpos data inscnt moff msize val :
  pending out outpos data inscnt -> inscnt < 0x7f -> data < zlen trg ->
  outpos + 2 <= zlen out ->
  exists out' outpos' inscnt',
    emit_insert trg (DState out outsize outpos data inscnt moff msize val) =
      Ret (DState out' outsize outpos' (data + 1) inscnt' moff 0 val) /\
    pending out' outpos' (data + 1) inscnt' /\ inscnt' < 0x7f /\
    zlen out' = zlen out /\ outpos' <= outpos + 2.
Proof.
  intros (Hi & Hd & ops & Hops & Hb & Hf) H127 Hlt Hroom. unfold emit_insert.
  destruct (rd_in trg data) as [c Hc]; [lia|]. rewrite Hc. run.
  apply rd_Ret in Hc as [_ Hc].
  set (pos := if tru inscnt then outpos else outpos + 1).
  assert (exists acc, filled out pos acc /\ pos + 1 <= outpos + 2 /\
    forall slot, exists slot', acc ++ [slot] = hdr ++ ops ++ [slot'] ++
      slice trg (data + 1 - (inscnt + 1)) inscnt ++ [slot]) as (acc & Hacc & Hpos & Hshape).
  { unfold pos. destruct Hf as [[-> Hf]|(Hpos & slot & Hf)].
    - destruct (filled_slot _ _ _ Hf) as [slot Hs]; [lia|]. exists ((hdr ++ ops) ++ [slot]).
      split; [done|]. split; [change (tru 0) with false; cbv iota; lia|].
      intros s. exists slot. by rewrite slice_0, <-!(assoc app).
    - rewrite (proj2 (tru_true inscnt)) by lia. eexists. split; [exact Hf|]. split; [lia|].
      intros s. exists slot. replace (data + 1 - (inscnt + 1)) with (data - inscnt) by lia.
      by rewrite <-!(assoc app). }
  destruct (filled_wr out pos acc c Hacc) as [-> Hf']; [lia|]. run.
  destruct (Hshape c) as [slot' Hs]. rewrite Hs in Hf'. clear Hs Hshape.
  rewrite <-(slice_snoc trg _ inscnt c) in Hf'
    by (lia || by replace (data + 1 - (inscnt + 1) + inscnt) with data by lia).
  set (out1 := <[Z.to_nat pos:=c]> out) in *.
  assert (pending out1 (pos + 1) (data + 1) (inscnt + 1)) as Hp.
  { split; [lia|]. split; [lia|]. exists ops.
    replace (data + 1 - (inscnt + 1)) with (data - inscnt) in * by lia.
    split; [done|]. split; [done|]. right. split; [lia|]. by exists slot'. }
  assert (zlen out1 = zlen out) as Hl by apply zlen_insert.
  case_if.
  - destruct (pending_close _ _ _ _ Hp) as (out2 & -> & Hl2 & Hp2); [lia|]. run.
    exists out2, (pos + 1), 0. split; [done|]. split; [done|]. lia.
  - exists out1, (pos + 1), (inscnt + 1). split; [done|]. split; [done|]. lia.
Qed.

(** ** Growing a match backwards *)

Definition match_at (data moff msize : Z) : Prop :=
  0 <= moff /\ 0 <= msize /\ moff + msize <= zlen src /\ data + msize <= zlen trg /\
  slice src moff msize = slice trg data msize.

Lemma match_at_back data moff msize a :
  match_at data moff msize -> 0 < moff -> 0 < data ->
  src !! Z.to_nat (moff - 1) = Some a -> trg !! Z.to_nat (data - 1) = Some a ->
  match_at (data - 1) (moff - 1) (msize + 1).
Proof.
  intros (? & ? & ? & ? & Heq) Hm Hd Ha Hb. unfold match_at.
  rewrite (slice_cons src (moff - 1) _ a), (slice_cons trg (data - 1) _ a) by (done || lia).
  replace (moff - 1 + 1) with moff by lia. replace (data - 1 + 1) with data by lia.
  replace (msize + 1 - 1) with msize by lia. rewrite Heq. repeat split; lia.
Qed.

(** Taking one byte back from the pending insert; with the last byte goes the
    count slot. *)
Lemma pending_back out outpos data inscnt :
  pending out outpos data inscnt -> 0 < inscnt ->
  if inscnt =? 1 then pending out (outpos - 2) (data - 1) 0
  else pending out (outpos - 1) (data - 1) (inscnt - 1).
Proof.
  intros (Hi & Hd & ops & Hops & Hb & [[? _]|(_ & slot & Hf)]) Hpos; [lia|].
  assert (zlen (slice trg (data - inscnt) inscnt) = inscnt) as Hl by (apply zlen_slice; lia).
  destruct (rd_in trg (data - 1)) as [c Hc]; [lia|]. apply rd_Ret in Hc as [_ Hc].
  pose proof Hf as [Hlen _]. rewrite !zlen_app, Hl, zlen_cons, zlen_nil in Hlen.
  case_if.
  - subst inscnt. split; [lia|]. split; [lia|]. exists ops. rewrite Z.sub_0_r.
    split; [done|]. split; [done|]. left. split; [done|].
    rewrite (assoc app hdr) in Hf. apply filled_prefix in Hf.
    rewrite zlen_app in Hf. by replace (outpos - 2) with (zlen hdr + zlen ops) by lia.
  - split; [lia|]. split; [lia|]. exists ops.
    replace (data - 1 - (inscnt - 1)) with (data - inscnt) by lia.
    split; [done|]. split; [done|]. right. split; [lia|]. exists slot.
    replace inscnt with (inscnt - 1 + 1) in Hf at 2 by lia.
    rewrite (slice_snoc _ _ _ c) in Hf
      by (lia || by replace (data - inscnt + (inscnt - 1)) with (data - 1) by lia).
    rewrite !(assoc app) in Hf. apply filled_prefix in Hf. rewrite <-!(assoc app) in Hf.
    rewrite !zlen_app, zlen_cons, zlen_nil, zlen_slice in Hf by lia.
    by replace (outpos - 1) with (zlen hdr + (zlen ops + (1 + 0 + (inscnt - 1)))) by lia.
Qed.

Lemma back_loop_spec out outpos data inscnt moff msize :
  pending out outpos data inscnt -> 1 <= inscnt -> match_at data moff msize ->
  exists k inscnt' outpos',
    loop (S (Z.to_nat inscnt)) (back_step src trg) (moff, msize, data, outpos, inscnt) =
      Ret (moff - k, msize + k, data - k, outpos', inscnt') /\
    0 <= k <= inscnt /\ outpos' <= outpos /\ match_at (data - k) (moff - k) (msize + k) /\
    ((1 <= inscnt' <= inscnt /\ pending out outpos' (data - k) inscnt') \/
     (inscnt' = -1 /\ pending out outpos' (data - k) 0)).
Proof.
  intros Hp Hi Hm.
  assert (wp (loop (S (Z.to_nat inscnt)) (back_step src trg) (moff, msize, data, outpos, inscnt))
    (fun r => exists k inscnt' outpos', r = (moff - k, msize + k, data - k, outpos', inscnt') /\
      0 <= k <= inscnt /\ outpos' <= outpos /\ match_at (data - k) (moff - k) (msize + k) /\
      ((1 <= inscnt' <= inscnt /\ pending out outpos' (data - k) inscnt') \/
       (inscnt' = -1 /\ pending out outpos' (data - k) 0))) (fun _ => False)) as Hwp;
    [|by apply wp_exists in Hwp as (r & -> & k & inscnt' & outpos' & -> & ?); eauto 10].
  eapply (wp_loop (fun r => exists k, r = (moff - k, msize + k, data - k, outpos - k, inscnt - k) /\
    0 <= k < inscnt /\ match_at (data - k) (moff - k) (msize + k) /\
    pending out (outpos - k) (data - k) (inscnt - k)) (fun r => r.2));
    cbn [snd]; [|lia| |lia].
  { exists 0. rewrite !Z.sub_0_r, Z.add_0_r. split; [done|]. split; [lia|done]. }
  intros r (k & -> & Hk & Hmk & Hpk). unfold back_step.
  assert (wp (Ret (inr (moff - k, msize + k, data - k, outpos - k, inscnt - k)))
    (fun r : (Z * Z * Z * Z * Z) + (Z * Z * Z * Z * Z) => match r with
      | inl _ => False
      | inr r => exists k inscnt' outpos', r = (moff - k, msize + k, data - k, outpos', inscnt') /\
      0 <= k <= inscnt /\ outpos' <= outpos /\ match_at (data - k) (moff - k) (msize + k) /\
      ((1 <= inscnt' <= inscnt /\ pending out outpos' (data - k) inscnt') \/
       (inscnt' = -1 /\ pending out outpos' (data - k) 0)) end) (fun _ => False)) as Hstop.
  { exists k, (inscnt - k), (outpos - k). split; [done|]. split; [lia|]. split; [lia|].
    split; [done|]. left. split; [lia|done]. }
  destruct Hmk as (H1 & H2 & H3 & H4 & H5). pose proof Hpk as (H6 & H7 & _).
  case_if; [exact Hstop|].
  destruct (rd_in src (moff - k - 1)) as [a Ha]; [lia|]. rewrite Ha. run.
  destruct (rd_in trg (data - k - 1)) as [b Hb]; [lia|]. rewrite Hb. run.
  case_if; [exact Hstop|]. subst b. clear Hstop.
  apply rd_Ret in Ha as [_ Ha]. apply rd_Ret in Hb as [_ Hb].
  assert (match_at (data - k - 1) (moff - k - 1) (msize + k + 1)) as Hm'.
  { by apply (match_at_back _ _ _ a); [|lia|lia|..]. }
  pose proof (pending_back _ _ _ _ Hpk ltac:(lia)) as Hpb.
  replace (data - k - 1) with (data - (k + 1)) in * by lia.
  replace (moff - k - 1) with (moff - (k + 1)) in * by lia.
  replace (msize + k + 1) with (msize + (k + 1)) in * by lia.
  destruct (tru (inscnt - k - 1)) eqn:E; zb; cbn [wp snd].
  - destruct (Z.eqb_spec (inscnt - k) 1); [lia|]. split; [|lia]. exists (k + 1).
    replace (inscnt - k - 1) with (inscnt - (k + 1)) in * by lia.
    replace (outpos - k - 1) with (outpos - (k + 1)) in * by lia.
    split; [done|]. split; [lia|done].
  - destruct (Z.eqb_spec (inscnt - k) 1); [|lia]. exists (k + 1), (-1), (outpos - k - 2).
    split; [by repeat (f_equal; try lia)|]. split; [lia|]. split; [lia|]. split; [done|].
    right. done.
Qed.

(** Closing the pending insert before a copy. *)
Lemma close_insert_spec out outpos data inscnt moff msize :
  pending out outpos data inscnt -> inscnt < 0x7f -> match_at data moff msize ->
  outpos < zlen out ->
  exists k out' outpos',
    close_insert src trg out outpos data inscnt moff msize =
      Ret (out', outpos', data - k, moff - k, msize + k) /\
    0 <= k <= inscnt /\ outpos' <= outpos /\ zlen out' = zlen out /\
    match_at (data - k) (moff - k) (msize + k) /\ pending out' outpos' (data - k) 0.
Proof.
  intros Hp H127 Hm Hroom. pose proof Hp as (Hi & _ & _). unfold close_insert.
  destruct (tru inscnt) eqn:E; zb.
  - destruct (back_loop_spec out outpos data inscnt moff msize Hp ltac:(lia) Hm)
      as (k & inscnt' & outpos' & -> & Hk & Hpos & Hmk & [[Hi' Hp']|[-> Hp']]); run.
    + destruct (pending_close _ _ _ _ Hp' ltac:(lia)) as (out' & -> & Hl & Hp''). run.
      exists k, out', outpos'. eauto 10.
    + pose proof Hp' as (_ & _ & ops & Hops & Hb & [[_ Hf]|[? _]]); [|lia].
      (* inscnt is -1: the slot given back takes it *)
      destruct (filled_wr out outpos' (hdr ++ ops) (u8 (-1)) Hf) as [Hwr Hf']; [lia|].
      replace (outpos' - -1 - 1) with outpos' by lia. rewrite Hwr. run.
      eexists k, _, outpos'. split; [done|]. split; [lia|]. split; [lia|].
      rewrite zlen_insert. split; [done|]. split; [done|].
      split; [lia|]. split; [by destruct Hp' as (? & ? & _)|]. exists ops. split; [done|].
      split; [done|]. left. split; [done|]. apply filled_prefix in Hf'.
      by rewrite (proj1 Hf) in Hf'.
  - subst inscnt. exists 0, out, outpos. rewrite !Z.sub_0_r, Z.add_0_r.
    split; [done|]. split; [lia|]. split; [lia|]. done.
Qed.

(** ** Copies *)

Lemma put_byte_spec x shift bit out outpos acc i :
  0 <= shift -> filled out outpos acc -> outpos < zlen out ->
  exists out', put_byte x (Z.shiftl 0xff shift) shift bit (out, outpos, i) =
      Ret (out', outpos + zlen (opt_byte x shift), Z.lor i (opt_bit x shift bit)) /\
    filled out' (outpos + zlen (opt_byte x shift)) (acc ++ opt_byte x shift) /\
    zlen out' = zlen out /\ 0 <= zlen (opt_byte x shift) <= 1.
Proof.
  intros Hs Hf Hlt. unfold put_byte, opt_byte, opt_bit.
  assert (Z.land x (Z.shiftl 0xff shift) = Z.shiftl (u8 (Z.shiftr x shift)) shift) as ->.
  { apply Z.bits_inj'. intros b Hb. rewrite testbit_byte_at, Z.land_spec, Z.shiftl_spec by lia.
    change 0xff with (Z.ones 8). rewrite andb_comm. f_equal.
    destruct (Z.leb_spec shift b).
    - rewrite Z.testbit_ones_nonneg by lia. destruct (Z.ltb_spec (b - shift) 8), (Z.ltb_spec b (shift + 8)); lia || done.
    - by rewrite Z.testbit_neg_r by lia. }
  assert (tru (Z.shiftl (u8 (Z.shiftr x shift)) shift) = tru (u8 (Z.shiftr x shift))) as ->.
  { unfold tru. f_equal. apply eq_bool_prop_intro. rewrite !Is_true_true, !Z.eqb_eq.
    by rewrite Z.shiftl_eq_0_iff by lia. }
  cbv zeta. destruct (tru _).
  - destruct (filled_wr out outpos acc (u8 (Z.shiftr x shift)) Hf Hlt) as [-> Hf']. run.
    rewrite zlen_cons, zlen_nil. eexists. rewrite zlen_insert. repeat split; (lia || done || apply Hf').
  - rewrite zlen_nil, Z.lor_0_r, app_nil_r, Z.add_0_r. exists out. done.
Qed.

Lemma match_at_prefix data moff msize n :
  match_at data moff msize -> 0 <= data -> 0 <= n <= msize ->
  slice src moff n = slice trg data n /\
  match_at (data + n) (moff + n) (msize - n).
Proof.
  intros (? & ? & ? & ? & Heq) Hd Hn.
  replace msize with (n + (msize - n)) in Heq by lia. rewrite !slice_app in Heq by lia.
  apply app_inj_1 in Heq as [? ?].
  2:{ apply Nat2Z.inj. fold (zlen (slice src moff n)) (zlen (slice trg data n)).
      by rewrite !zlen_slice by lia. }
  split; [done|]. unfold match_at. repeat split; (lia || done).
Qed.

Lemma put_copy_spec out outpos acc moff msize :
  filled out outpos acc -> outpos + 7 <= zlen out ->
  exists out', put_copy out outpos moff msize = Ret (out', outpos + zlen (copy_op moff msize)) /\
    filled out' (outpos + zlen (copy_op moff msize)) (acc ++ copy_op moff msize) /\
    zlen out' = zlen out /\ zlen (copy_op moff msize) <= 7.
Proof.
  intros Hf Hroom. unfold put_copy.
  destruct (filled_slot _ _ _ Hf) as [slot Hf0]; [lia|].
  change 0x000000ff with (Z.shiftl 0xff 0). change 0x0000ff00 with (Z.shiftl 0xff 8).
  change 0x00ff0000 with (Z.shiftl 0xff 16). change 0xff000000 with (Z.shiftl 0xff 24).
  destruct (put_byte_spec moff 0 0x01 _ _ _ 0x80 ltac:(lia) Hf0 ltac:(lia)) as (o1 & -> & Hf1 & Hl1 & ?). run.
  match goal with |- context [put_byte _ _ 8 _ (_, _, ?i)] =>
    destruct (put_byte_spec moff 8 0x02 _ _ _ i ltac:(lia) Hf1 ltac:(lia)) as (o2 & -> & Hf2 & Hl2 & ?) end. run.
  match goal with |- context [put_byte _ _ 16 _ (_, _, ?i)] =>
    destruct (put_byte_spec moff 16 0x04 _ _ _ i ltac:(lia) Hf2 ltac:(lia)) as (o3 & -> & Hf3 & Hl3 & ?) end. run.
  match goal with |- context [put_byte _ _ 24 _ (_, _, ?i)] =>
    destruct (put_byte_spec moff 24 0x08 _ _ _ i ltac:(lia) Hf3 ltac:(lia)) as (o4 & -> & Hf4 & Hl4 & ?) end. run.
  match goal with |- context [put_byte msize _ 0 _ (_, _, ?i)] =>
    destruct (put_byte_spec msize 0 0x10 _ _ _ i ltac:(lia) Hf4 ltac:(lia)) as (o5 & -> & Hf5 & Hl5 & ?) end. run.
  match goal with |- context [put_byte msize _ 8 _ (_, _, ?i)] =>
    destruct (put_byte_spec msize 8 0x20 _ _ _ i ltac:(lia) Hf5 ltac:(lia)) as (o6 & -> & Hf6 & Hl6 & ?) end. run.
  fold (copy_code moff msize).
  rewrite <-!(assoc app) in Hf6.
  destruct (filled_set _ _ _ _ _ (u8 (copy_code moff msize)) Hf6) as [Hwr Hf7].
  rewrite (proj1 Hf) in Hwr, Hf7. rewrite Hwr. run.
  rewrite (u8_small (copy_code moff msize)) in Hf7 by apply copy_code_byte.
  rewrite (u8_small (copy_code moff msize)) by apply copy_code_byte.
  assert (zlen (copy_op moff msize) = 1 + zlen (opt_byte moff 0) + zlen (opt_byte moff 8) +
    zlen (opt_byte moff 16) + zlen (opt_byte moff 24) + zlen (opt_byte msize 0) +
    zlen (opt_byte msize 8)) as Hlen.
  { unfold copy_op. rewrite zlen_cons, !zlen_app. lia. }
  eexists. rewrite Hlen, !Z.add_assoc. split; [done|].
  split; [|rewrite zlen_insert; lia].
  exact Hf7.
Qed.

(** The bytes [rabin_window] is asked for after a copy are those of the match
    and of the window kept before it. *)
Lemma emit_copy_spec out outsize outpos data inscnt moff msize val :
  pending out outpos data inscnt -> inscnt < 0x7f -> match_ok src trg data moff msize ->
  4 <= msize -> RABIN_WINDOW <= data -> outpos + 7 <= zlen out -> 0 <= val < 2 ^ 31 ->
  exists out' outpos' data' moff' msize' val',
    emit_copy src trg (DState out outsize outpos data inscnt moff msize val) =
      Ret (DState out' outsize outpos' data' 0 moff' msize' val') /\
    pending out' outpos' data' 0 /\ zlen out' = zlen out /\ outpos' <= outpos + 7 /\
    data < data' <= zlen trg /\ match_ok src trg data' moff' msize' /\ 0 <= val' < 2 ^ 31 /\
    (msize' < 4096 -> rabin_window trg (data' - RABIN_WINDOW) 16 0 = Ret val').
Proof.
  intros Hp H127 (Hm0 & Hm1 & Hm2 & Hm3 & Hm4 & Hm5) H4 Hd Hroom Hval.
  unfold emit_copy. pose proof (eq_refl : RABIN_WINDOW = 16) as HW.
  destruct (close_insert_spec out outpos data inscnt moff msize Hp H127)
    as (k & o1 & pos1 & -> & Hk & Hpos1 & Hl1 & Hmk & Hp1);
    [unfold match_at; repeat split; (lia || done)|lia|]. run.
  pose proof Hp1 as (Hd1 & Hd2 & ops & Hops & Hb & [[_ Hf]|[? _]]); [|lia].
  set (ms := msize + k) in *.
  set (left := if ms <? 0x10000 then 0 else u32 (ms - 0x10000)).
  assert (0 <= left < 2 ^ 32 /\ 1 <= ms - left <= 0x10000 /\ k < ms - left) as (Hleft & Hn & Hkn).
  { unfold left. case_if; [|rewrite u32_small by lia]; lia. }
  set (n := ms - left) in *.
  destruct (match_at_prefix _ _ _ n Hmk) as [Heq Hmn]; [lia|lia|].
  destruct Hmk as (Hmk0 & _ & Hmk2 & Hmk3 & _).
  destruct (put_copy_spec o1 pos1 _ (moff - k) n Hf) as (o2 & -> & Hf2 & Hl2 & Hop); [lia|]. run.
  set (data' := data - k + n) in *. set (moff' := moff - k + n) in *.
  set (msize' := if moff' >? 0xffffffff then 0 else left).
  replace (ms - n) with left in Hmn by lia.
  assert (match_ok src trg data' moff' msize') as Hmok.
  { destruct Hmn as (? & ? & ? & ? & ?). unfold msize'. case_if; [apply match_ok_none; lia|].
    unfold match_ok. repeat split; (lia || done). }
  destruct (rabin_window_range trg (data' - RABIN_WINDOW) 16 0) as (v & Hv & Hvr); [done|lia..|].
  assert (pending o2 (pos1 + zlen (copy_op (moff - k) n)) data' 0) as Hp2.
  { split; [lia|]. split; [lia|]. exists (ops ++ copy_op (moff - k) n).
    split; [|split; [apply is_bytes_app; split; [done|apply copy_op_bytes]|]].
    - rewrite !Z.sub_0_r in *. unfold data'. rewrite slice_app by lia. rewrite Z.add_0_l.
      apply delta_ops_app; [done|]. rewrite <-Heq.
      rewrite <-(app_nil_r (copy_op _ _)), <-(app_nil_r (slice _ _ _)).
      apply ops_copy; [lia..|constructor].
    - left. split; [done|]. by rewrite (assoc app). }
  exists o2, (pos1 + zlen (copy_op (moff - k) n)), data', moff', msize',
    (if msize' <? 4096 then v else val).
  destruct (msize' <? 4096) eqn:E; zb; [rewrite Hv|]; run;
    (split; [done|]); (split; [done|]); (split; [lia|]); (split; [lia|]); (split; [lia|]);
    (split; [done|]); (split; [done|]); [done|lia].
Qed.
End emit.

(** * The main loop *)

Section rounds.
Context (junk : Z) (malloc_ok : Z -> bool) (hdr src trg : list Z) (idx : delta_index) (max_size : Z).
Context (Htrg : is_bytes trg) (Hidx : index_ok src idx) (Hmax : 0 <= max_size).

Lemma pending_realloc out outpos data inscnt n :
  pending hdr src trg out outpos data inscnt -> outpos <= n ->
  pending hdr src trg (realloc junk out n) outpos data inscnt.
Proof.
  intros (Hi & Hd & ops & Hops & Hb & Hf) Hn. split; [done|]. split; [done|]. exists ops.
  split; [done|]. split; [done|].
  destruct Hf as [[? Hf]|(? & slot & Hf)]; [left|right]; eauto using filled_realloc.
Qed.

(** What holds at the head of the loop: room for the largest operation, the
    output written so far, the current match, and the fingerprint of the
    window before [data] whenever the next round will roll it. *)
Record delta_inv (st : dstate) : Prop := {
  inv_out : zlen (d_out st) = d_outsize st;
  inv_size : MAX_OP_SIZE + 2 <= d_outsize st;
  inv_room : d_outpos st + 8 <= d_outsize st;
  inv_pending : pending hdr src trg (d_out st) (d_outpos st) (d_data st) (d_inscnt st);
  inv_inscnt : d_inscnt st < 0x7f;
  inv_data : d_data st < zlen trg -> RABIN_WINDOW <= d_data st;
  inv_match : match_ok src trg (d_data st) (d_moff st) (d_msize st);
  inv_val : 0 <= d_val st < 2 ^ 31;
  inv_window : d_data st < zlen trg -> d_msize st < 4096 ->
    rabin_window trg (d_data st - RABIN_WINDOW) 16 0 = Ret (d_val st);
}.

(** What holds when the loop is left. *)
Definition delta_done (st : dstate) : Prop :=
  pending hdr src trg (d_out st) (d_outpos st) (d_data st) (d_inscnt st) /\
  d_inscnt st < 0x7f /\
  (d_data st = zlen trg \/ (max_size <> 0 /\ max_size < d_outpos st)).

Lemma MAX_OP_SIZE_34 : MAX_OP_SIZE = 34.
Proof. done. Qed.

Lemma grow_out_spec st :
  zlen (d_out st) = d_outsize st -> MAX_OP_SIZE + 2 <= d_outsize st ->
  d_outpos st <= d_outsize st ->
  pending hdr src trg (d_out st) (d_outpos st) (d_data st) (d_inscnt st) -> d_inscnt st < 0x7f ->
  (forall out outsize,
     zlen out = outsize -> MAX_OP_SIZE + 2 <= outsize -> d_outpos st + 8 <= outsize ->
     pending hdr src trg out (d_outpos st) (d_data st) (d_inscnt st) ->
     delta_inv (DState out outsize (d_outpos st) (d_data st) (d_inscnt st) (d_moff st)
       (d_msize st) (d_val st))) ->
  wp (grow_out junk malloc_ok max_size st)
    (fun r => match r with
      | inl st' => delta_inv st' /\ d_data st' = d_data st
      | inr st' => delta_done st' end) (oom malloc_ok).
Proof.
  destruct st as [out outsize outpos data inscnt moff msize val].
  cbn [d_out d_outsize d_outpos d_data d_inscnt d_moff d_msize d_val].
  intros Hout Hsize Hpos Hp Hi Hnew. unfold grow_out. rewrite MAX_OP_SIZE_34 in *.
  case_if; [cbn [wp d_data]; split; [apply Hnew; (lia || done)|done]|].
  set (outsize' := if tru max_size && (outsize * 3 / 2 >=? max_size) then max_size + 34 + 1
    else outsize * 3 / 2).
  case_if.
  { cbn [wp]. unfold delta_done. cbn [d_out d_outpos d_data d_inscnt]. split; [done|]. split; [done|]. right. lia. }
  assert (36 <= outsize' /\ outpos + 8 <= outsize') as [Hs Ho].
  { unfold outsize'. destruct (tru max_size) eqn:E; zb; cbn [andb] in *.
    - case_if; [lia|]. Z.to_euclidean_division_equations; lia.
    - Z.to_euclidean_division_equations; lia. }
  case_if; [by split; eauto|]. cbn [wp d_data]. split; [|done]. apply Hnew; [|lia|done|].
  - apply zlen_realloc. lia.
  - apply pending_realloc; [done|lia].
Qed.

Lemma delta_step_spec st :
  delta_inv st ->
  wp (delta_step junk malloc_ok idx trg max_size st)
    (fun r => match r with
      | inl st' => delta_inv st' /\ 0 <= zlen trg - d_data st' < zlen trg - d_data st
      | inr st' => delta_done st' end) (oom malloc_ok).
Proof.
  destruct st as [out outsize outpos data inscnt moff msize val].
  intros [Hout Hsize Hroom Hp Hi Hdata Hm Hval Hwin].
  cbn [d_out d_outsize d_outpos d_data d_inscnt d_moff d_msize d_val] in *.
  rewrite MAX_OP_SIZE_34 in *. unfold delta_step. pose proof (iok_src _ _ Hidx) as Hsrc.
  pose proof Hp as (Hi0 & Hd0 & _).
  case_if.
  { cbn [wp]. split; [done|]. cbn [d_inscnt d_data]. split; [done|]. left. lia. }
  pose proof (eq_refl : RABIN_WINDOW = 16) as HW.
  (* the search, or the match kept from the last round *)
  assert (exists v mo ms,
    (if msize <? 4096 then find_match idx trg data val moff msize else Ret (val, moff, msize)) =
      Ret (v, mo, ms) /\ match_ok src trg data mo ms /\ 0 <= v < 2 ^ 31 /\
    (ms < 4 -> rabin_window trg (data + 1 - RABIN_WINDOW) 16 0 = Ret v))
    as (v & mo & ms & -> & Hm' & Hv & Hw).
  { destruct (msize <? 4096) eqn:E; zb.
    - destruct (find_match_spec idx src trg data val moff msize) as (v & mo & ms & -> & ? & ? & ?);
        [done|done|lia|done|by apply Hwin|]. eauto 10.
    - exists val, moff, msize. split; [done|]. split; [done|]. split; [done|]. lia. }
  run. cbv zeta.
  destruct (ms <? 4) eqn:E; zb.
  - destruct (emit_insert_spec hdr src trg Htrg out outsize outpos data inscnt mo ms v)
      as (out' & outpos' & inscnt' & -> & Hp' & Hi' & Hl' & Hpos'); [done|done|lia|lia|]. run.
    eapply wp_mono; [apply grow_out_spec| |done];
      cbn [d_out d_outsize d_outpos d_data d_inscnt d_moff d_msize d_val];
      rewrite ?MAX_OP_SIZE_34; [lia..|done|done| |].
    + intros o os Ho Hs Hr Hpp. constructor;
        cbn [d_out d_outsize d_outpos d_data d_inscnt d_moff d_msize d_val];
        rewrite ?MAX_OP_SIZE_34; try done; try lia; try (by intros; apply Hw).
      destruct Hm' as (? & ? & ? & ? & _). apply match_ok_none; lia.
    + intros [st'|st']; [|done]. intros [? ->]. split; [done|]. lia.
  - rewrite Hsrc.
    destruct (emit_copy_spec hdr src trg Htrg out outsize outpos data inscnt mo ms v)
      as (out' & outpos' & data' & mo' & ms' & v' & -> & Hp' & Hl' & Hpos' & Hd' & Hmm & Hvv & Hww);
      [done|done|done|lia|lia|lia|done|]. run.
    eapply wp_mono; [apply grow_out_spec| |done];
      cbn [d_out d_outsize d_outpos d_data d_inscnt d_moff d_msize d_val];
      rewrite ?MAX_OP_SIZE_34; [lia..|done|lia| |].
    + intros o os Ho Hs Hr Hpp. constructor;
        cbn [d_out d_outsize d_outpos d_data d_inscnt d_moff d_msize d_val];
        rewrite ?MAX_OP_SIZE_34; try done; try lia; by intros; apply Hww.
    + intros [st'|st']; [|done]. intros [? ->]. split; [done|]. lia.
Qed.
End rounds.

(** * Theorems *)

(** The bytes before the operations. *)
Definition delta_hdr (src trg : list Z) : list Z :=
  delta_hdr_digits 10 (zlen src) ++ delta_hdr_digits 10 (zlen trg).

Lemma delta_hdr_max src trg :
  zlen src < 2 ^ 35 -> zlen trg < 2 ^ 35 -> zlen (delta_hdr src trg) <= 10.
Proof.
  intros. unfold delta_hdr. rewrite zlen_app. pose proof (zlen_nonneg src). pose proof (zlen_nonneg trg).
  pose proof (delta_hdr_digits_max (zlen src) 5). pose proof (delta_hdr_digits_max (zlen trg) 5).
  change (7 * Z.of_nat 5) with 35 in *. lia.
Qed.

(** The output once the two sizes are stored. *)
Lemma store_sizes_spec src trg (out : list Z) :
  zlen src < 2 ^ 35 -> zlen trg < 2 ^ 35 -> 10 <= zlen out ->
  exists out',
    ('(out, outpos) ← store_size 10 out 0 (zlen src); store_size 10 out outpos (zlen trg)) =
      Ret (out', zlen (delta_hdr src trg)) /\
    zlen out' = zlen out /\ filled out' (zlen (delta_hdr src trg)) (delta_hdr src trg).
Proof.
  intros Hs Ht Hout. pose proof (delta_hdr_max src trg Hs Ht) as Hmax. unfold delta_hdr in *.
  rewrite zlen_app in *. pose proof (zlen_nonneg src). pose proof (zlen_nonneg trg).
  pose proof (zlen_nonneg (delta_hdr_digits 10 (zlen trg))).
  destruct (store_size_spec 10 out 0 (zlen src) []) as (o1 & -> & Hl1 & Hf1); [apply filled_nil|lia..|].
  run. rewrite Z.add_0_l, app_nil_l in *.
  destruct (store_size_spec 10 o1 _ (zlen trg) _ Hf1) as (o2 & -> & Hl2 & Hf2); [lia..|].
  exists o2. split; [done|]. split; [lia|]. by rewrite <-zlen_app in *.
Qed.

Lemma bind_assoc {A B C} (c : outcome A) (f : A -> outcome B) (g : B -> outcome C) :
  (c ≫= f) ≫= g = c ≫= (fun a => f a ≫= g).
Proof. by destruct c. Qed.

(** The state in which the loop starts. *)
Lemma delta_inv_init src trg out outsize :
  is_bytes trg -> trg <> [] -> zlen (delta_hdr src trg) <= 10 ->
  zlen out = outsize -> MAX_OP_SIZE + 2 <= outsize ->
  filled out (zlen (delta_hdr src trg)) (delta_hdr src trg) ->
  exists out' outpos val data,
    first_window 16 trg 0 out (zlen (delta_hdr src trg) + 1) 0 = Ret (out', outpos, val, data) /\
    delta_inv (delta_hdr src trg) src trg (DState out' outsize outpos data data 0 0 val).
Proof.
  intros Hb Hne Hmax Hout Hsize Hf. rewrite MAX_OP_SIZE_34 in *.
  destruct (filled_slot _ _ _ Hf) as [slot Hs]; [lia|].
  assert (1 <= zlen trg) as Hpos.
  { destruct trg; [done|]. rewrite zlen_cons. pose proof (zlen_nonneg trg). lia. }
  destruct (first_window_spec 16 trg 0 out _ 0 _ Hb ltac:(lia) ltac:(lia) Hs ltac:(lia))
    as (out' & val & -> & Hl & Hf' & Hv & Hw).
  rewrite Z.sub_0_r, Z.add_0_l in *. change (Z.of_nat 16) with 16 in *.
  set (m := Z.min 16 (zlen trg)) in *. assert (1 <= m <= 16 /\ m <= zlen trg) as Hm by lia.
  do 4 eexists. split; [done|].
  constructor; cbn [d_out d_outsize d_outpos d_data d_inscnt d_moff d_msize d_val];
    rewrite ?MAX_OP_SIZE_34; try lia; unfold RABIN_WINDOW; try lia.
  - split; [lia|]. split; [lia|]. exists []. rewrite Z.sub_diag.
    split; [constructor|]. split; [constructor|]. right. split; [lia|]. exists slot.
    by rewrite <-!(assoc app) in Hf'.
  - apply match_ok_none; [|lia]. pose proof (zlen_nonneg src). lia.
  - intros Hlt _. assert (m = 16) as Hm16 by lia. rewrite Hm16 in *. exact Hw.
Qed.

(** What a call of [create_delta] on a valid index ends with. *)
Lemma create_delta_wp junk malloc_ok src idx trg max_size :
  index_ok src idx -> is_bytes trg -> trg <> [] -> 0 <= max_size ->
  zlen src < 2 ^ 35 -> zlen trg < 2 ^ 35 ->
  wp (create_delta junk malloc_ok idx trg max_size)
    (fun delta => (max_size = 0 \/ zlen delta <= max_size) /\
       exists ops, delta = delta_hdr src trg ++ ops /\ delta_ops src ops trg /\ is_bytes ops)
    (fun e => (e = Null /\ max_size <> 0) \/ oom malloc_ok e).
Proof.
  intros Hidx Hb Hne Hmax Hs Ht. unfold create_delta. rewrite (iok_size _ _ Hidx), MAX_OP_SIZE_34.
  pose proof (zlen_nonneg trg) as Hn.
  case_if; [destruct trg; [done|]; rewrite zlen_cons in *; pose proof (zlen_nonneg trg); lia|].
  set (outsize := if tru max_size && (8192 >=? max_size) then max_size + 34 + 1 else 8192).
  assert (36 <= outsize) as Hsize.
  { unfold outsize. destruct (tru max_size) eqn:E; zb; cbn [andb]; [case_if|]; lia. }
  case_if; [by right; split; eauto|].
  set (out0 := replicate (Z.to_nat outsize) junk).
  assert (zlen out0 = outsize) as Hout0 by (unfold out0; rewrite zlen_replicate; lia).
  destruct (store_sizes_spec src trg out0 Hs Ht ltac:(lia)) as (o1 & Hst & Hl1 & Hf1).
  apply bind_Ret_inv in Hst as ([o p] & -> & Hst). run. rewrite Hst. run.
  destruct (delta_inv_init src trg o1 outsize Hb Hne (delta_hdr_max _ _ Hs Ht)
    ltac:(lia) ltac:(rewrite MAX_OP_SIZE_34; lia) Hf1) as (o2 & outpos & val & data & -> & Hinv). run.
  apply wp_bind. eapply wp_mono with (Q := delta_done (delta_hdr src trg) src trg max_size)
    (R := oom malloc_ok); [| |by right].
  { destruct (inv_pending _ _ _ _ Hinv) as (? & ? & _). cbn [d_data] in *.
    eapply (wp_loop (delta_inv (delta_hdr src trg) src trg) (fun st => zlen trg - d_data st));
      [done|cbn [d_data]; lia| |cbn [d_data]; lia].
    intros st Hin. by apply (delta_step_spec junk malloc_ok _ src trg idx max_size). }
  intros st (Hp & Hi & Hend). apply wp_bind.
  assert (exists out', (if tru (d_inscnt st)
      then wr (d_out st) (d_outpos st - d_inscnt st - 1) (u8 (d_inscnt st)) else Ret (d_out st)) =
      Ret out' /\ pending (delta_hdr src trg) src trg out' (d_outpos st) (d_data st) 0)
    as (out' & -> & Hp').
  { pose proof Hp as (? & _). destruct (tru (d_inscnt st)) eqn:E; zb; [|rewrite E in Hp; eauto].
    destruct (pending_close _ _ _ Hb _ _ _ _ Hp ltac:(lia)) as (out' & -> & _ & ?). eauto. }
  cbn [wp]. case_if; [left; done|]. cbn [wp].
  destruct Hp' as (_ & _ & ops & Hops & Hob & [[_ Hf]|[? _]]); [|lia].
  rewrite (filled_take _ _ _ Hf). destruct Hf as [Hlen _].
  assert (max_size = 0 \/ d_outpos st <= max_size) as Hfit.
  { destruct (tru max_size) eqn:E; zb; [right|by left]. cbn [andb] in *. zb. lia. }
  split; [lia|]. exists ops. split; [done|]. split; [|done].
  destruct Hend as [Hend|?]; [|lia]. by rewrite Hend, Z.sub_0_r, slice_full in Hops.
Qed.

(** [C3] On an index of its source [create_delta] is memory-safe and ends: every
    access of source, target, index and output buffer is in range (the output
    always has room for the next operation), the only failures are a failed
    allocation and, when a size limit is given, a delta that would exceed it,
    and a returned delta is within the limit.  Source and target are below
    32 GiB, the sizes whose headers take the five bytes [MAX_OP_SIZE] plans. *)
Theorem create_delta_safe junk malloc_ok src idx trg max_size :
  index_ok src idx -> is_bytes trg -> trg <> [] -> 0 <= max_size ->
  zlen src < 2 ^ 35 -> zlen trg < 2 ^ 35 ->
  wp (create_delta junk malloc_ok idx trg max_size)
    (fun delta => max_size = 0 \/ zlen delta <= max_size)
    (fun e => (e = Null /\ max_size <> 0) \/ oom malloc_ok e).
Proof.
  intros. eapply wp_mono; [by apply (create_delta_wp junk malloc_ok src)| |done]. naive_solver.
Qed.

Section roundtrip.
Context `{GitCompatOk, DeltaHeaderOk}.

(** [C1] Deltas round-trip: [patch_delta] on the source rebuilds the target from
    every delta that [create_delta] made with an index of that source. *)
Theorem delta_roundtrip junk junk' malloc_ok malloc_ok' src trg idx delta max_size :
  is_bytes src -> src <> [] -> zlen src < 2 ^ 35 ->
  is_bytes trg -> trg <> [] -> zlen trg < 2 ^ 35 -> 0 <= max_size ->
  create_delta_index malloc_ok (Some src) (zlen src) = Ret idx ->
  create_delta junk malloc_ok' idx trg max_size = Ret delta ->
  patch_delta junk' src (zlen src) delta (zlen delta) = Ret trg.
Proof.
  intros Hsb Hsn Hs Htb Htn Ht Hmax Hidx Hdelta.
  pose proof (wp_Ret_inv _ _ _ _ (create_index_wp malloc_ok src Hsb Hsn ltac:(lia)) Hidx) as Hok.
  pose proof (wp_Ret_inv _ _ _ _ (create_delta_wp junk malloc_ok' src idx trg max_size
    Hok Htb Htn Hmax Hs Ht) Hdelta) as (_ & ops & -> & Hops & Hob).
  unfold delta_hdr. rewrite <-(assoc app). by apply patch_delta_ops; [..|lia|lia].
Qed.

(** [C2] With memory available and no size limit, a delta is always produced
    and always rebuilds the target: indexing, encoding and patching any two
    non-empty buffers returns the target. *)
Theorem delta_roundtrip_total junk src trg :
  is_bytes src -> src <> [] -> zlen src < 2 ^ 35 ->
  is_bytes trg -> trg <> [] -> zlen trg < 2 ^ 35 ->
  exists idx delta,
    create_delta_index (fun _ => true) (Some src) (zlen src) = Ret idx /\
    create_delta junk (fun _ => true) idx trg 0 = Ret delta /\
    patch_delta junk src (zlen src) delta (zlen delta) = Ret trg.
Proof.
  intros Hsb Hsn Hs Htb Htn Ht.
  pose proof (create_index_wp (fun _ => true) src Hsb Hsn ltac:(lia)) as Hi.
  destruct (create_delta_index _ _ _) as [idx|e|]; cbn [wp] in Hi;
    [|by destruct Hi as (_ & n & ?)|done].
  pose proof (create_delta_wp junk (fun _ => true) src idx trg 0 Hi Htb Htn ltac:(lia) Hs Ht) as Hc.
  exists idx.
  destruct (create_delta _ _ _ _ _) as [delta|e|]; cbn [wp] in Hc;
    [|by destruct Hc as [[_ ?]|(_ & n & ?)]|done].
  exists delta. split; [done|]. split; [done|]. destruct Hc as (_ & ops & -> & Hops & Hob).
  unfold delta_hdr. rewrite <-(assoc app). by apply patch_delta_ops; [..|lia|lia].
Qed.
End roundtrip.

(** ** Concrete runs *)

(** A target that shares 36 bytes with the source. *)
Definition w_target : list Z := [1; 2; 3] ++ slice w_source 0 36 ++ [9; 9].

Definition w_index : delta_index :=
  match create_delta_index (fun _ => true) (Some w_source) (zlen w_source) with
  | Ret idx => idx
  | _ => DeltaIndex 0 [] 0 0 [] []
  end.

Definition w_encoded : list Z :=
  match create_delta 0 (fun _ => true) w_index w_target 0 with Ret d => d | _ => [] end.

Lemma create_delta_safe_witness :
  wp (create_delta 0 (fun _ => true) w_index w_target 20)
    (fun delta => 20 = 0 \/ zlen delta <= 20)
    (fun e => (e = Null /\ 20 <> 0) \/ oom (fun _ => true) e).
Proof.
  apply (create_delta_safe 0 (fun _ => true) w_source w_index w_target 20); [|evaluate..].
  apply (create_index_wp (fun _ => true) w_source); evaluate.
Defined.

Lemma delta_roundtrip_witness :
  zlen w_encoded < zlen w_target /\
  @patch_delta compat_ref delta_ref 0 w_source (zlen w_source) w_encoded (zlen w_encoded) = Ret w_target.
Proof.
  split; [evaluate|].
  apply (@delta_roundtrip compat_ref compat_ref_ok delta_ref delta_ref_ok 0 0 (fun _ => true)
    (fun _ => true) w_source w_target w_index w_encoded 0); evaluate.
Defined.

Lemma delta_roundtrip_total_witness :
  exists idx delta,
    create_delta_index (fun _ => true) (Some w_source) (zlen w_source) = Ret idx /\
    create_delta 0 (fun _ => true) idx w_target 0 = Ret delta /\
    @patch_delta compat_ref delta_ref 0 w_source (zlen w_source) delta (zlen delta) = Ret w_target.
Proof.
  apply (@delta_roundtrip_total compat_ref compat_ref_ok delta_ref delta_ref_ok 0 w_source w_target);
    evaluate.
Defined.
