(* ===== verification/Ewah.v ===== *)
(** ewah/ewah_bitmap.c: compressed bitmaps.  The buffer of a bitmap is modelled
    with its spare room, [buffer_size] and the index of the last run-length
    word; every access is checked against the allocation and every [assert] is
    a failure the theorems exclude.  The abstract value of a bitmap is the list
    of its 64-bit words: the theorems show what each operation appends to it,
    and that the iterator reads it back. *)
From S2P Require Import Prelude Headers.

(** * Model *)

Record ewah_bitmap := EwahBitmap {
  eb_buffer : list Z;      (* alloc_size words *)
  eb_buffer_size : Z;
  eb_bit_size : Z;
  eb_rlw : Z;              (* rlw - buffer *)
}.

(** [(eword_t)(~0)] or [0]. *)
Definition fill_word (v : Z) : Z := if tru v then 2 ^ 64 - 1 else 0.

(** [DIV_ROUND_UP(n, BITS_IN_EWORD)] *)
Definition words_for (n : Z) : Z := (n + BITS_IN_EWORD - 1) / BITS_IN_EWORD.

Section model.
Context `{GitCompat, Rlw}.
(** The contents of fresh memory. *)
Context (junk : Z).

(** [*self->rlw], and its update through a setter. *)
Definition get_rlw (self : ewah_bitmap) : outcome Z := rd (eb_buffer self) (eb_rlw self).

Definition set_rlw (self : ewah_bitmap) (f : Z -> Z) : outcome ewah_bitmap :=
  w ← get_rlw self;
  buf ← wr (eb_buffer self) (eb_rlw self) (f w);
  Ret (EwahBitmap buf (eb_buffer_size self) (eb_bit_size self) (eb_rlw self)).

Definition set_bit_size (self : ewah_bitmap) (n : Z) : ewah_bitmap :=
  EwahBitmap (eb_buffer self) (eb_buffer_size self) n (eb_rlw self).

Definition min_size (a b : Z) : Z := if a <? b then a else b.
Definition max_size (a b : Z) : Z := if a >? b then a else b.

Definition buffer_grow (self : ewah_bitmap) (new_size : Z) : ewah_bitmap :=
  let alloc := alloc_grow new_size (zlen (eb_buffer self)) in
  EwahBitmap (eb_buffer self ++ replicate (Z.to_nat (alloc - zlen (eb_buffer self))) junk)
    (eb_buffer_size self) (eb_bit_size self) (eb_rlw self).

Definition buffer_push (self : ewah_bitmap) (value : Z) : outcome ewah_bitmap :=
  let self := buffer_grow self (eb_buffer_size self + 1) in
  buf ← wr (eb_buffer self) (eb_buffer_size self) value;
  Ret (EwahBitmap buf (eb_buffer_size self + 1) (eb_bit_size self) (eb_rlw self)).

Definition buffer_push_rlw (self : ewah_bitmap) (value : Z) : outcome ewah_bitmap :=
  self ← buffer_push self value;
  Ret (EwahBitmap (eb_buffer self) (eb_buffer_size self) (eb_bit_size self)
         (eb_buffer_size self - 1)).

(** A new run-length word for [len] words of bit [v]. *)
Definition push_run (self : ewah_bitmap) (v len : Z) : outcome ewah_bitmap :=
  self ← buffer_push_rlw self 0;
  self ← (if tru v then set_rlw self (fun w => rlw_set_run_bit w v) else Ret self);
  set_rlw self (fun w => rlw_set_running_len w len).

(** [while (number >= RLW_LARGEST_RUNNING_COUNT)]; the state is [self],
    [added] and [number]. *)
Definition full_runs_step (v : Z) (st : ewah_bitmap * Z * Z)
    : outcome ((ewah_bitmap * Z * Z) + (ewah_bitmap * Z * Z)) :=
  let '(self, added, number) := st in
  if negb (number >=? RLW_LARGEST_RUNNING_COUNT) then Ret (inr st) else
  self ← push_run self v RLW_LARGEST_RUNNING_COUNT;
  Ret (inl (self, added + 1, number - RLW_LARGEST_RUNNING_COUNT)).

Definition add_empty_words (self : ewah_bitmap) (v number : Z) : outcome (ewah_bitmap * Z) :=
  let added := 0 in
  w ← get_rlw self;
  '(self, added) ←
    (if negb (rlw_get_run_bit w =? v) && (rlw_size w =? 0) then
       self ← set_rlw self (fun w => rlw_set_run_bit w v);
       Ret (self, added)
     else if negb (rlw_get_literal_words w =? 0) || negb (rlw_get_run_bit w =? v) then
       self ← buffer_push_rlw self 0;
       self ← (if tru v then set_rlw self (fun w => rlw_set_run_bit w v) else Ret self);
       Ret (self, added + 1)
     else Ret (self, added));
  w ← get_rlw self;
  let runlen := rlw_get_running_len w in
  let can_add := min_size number (RLW_LARGEST_RUNNING_COUNT - runlen) in
  self ← set_rlw self (fun w => rlw_set_running_len w (runlen + can_add));
  let number := number - can_add in
  '(self, added, number) ←
    loop (S (Z.to_nat (number / RLW_LARGEST_RUNNING_COUNT))) (full_runs_step v)
      (self, added, number);
  if number >? 0 then
    self ← push_run self v number;
    Ret (self, added + 1)
  else Ret (self, added).

Definition ewah_add_empty_words (self : ewah_bitmap) (v number : Z) : outcome (ewah_bitmap * Z) :=
  if number =? 0 then Ret (self, 0)
  else add_empty_words (set_bit_size self (u64 (eb_bit_size self + number * BITS_IN_EWORD)))
         v number.

Definition add_literal (self : ewah_bitmap) (new_data : Z) : outcome (ewah_bitmap * Z) :=
  w ← get_rlw self;
  let current_num := rlw_get_literal_words w in
  if current_num >=? RLW_LARGEST_LITERAL_COUNT then
    self ← buffer_push_rlw self 0;
    self ← set_rlw self (fun w => rlw_set_literal_words w 1);
    self ← buffer_push self new_data;
    Ret (self, 2)
  else
    self ← set_rlw self (fun w => rlw_set_literal_words w (current_num + 1));
    w ← get_rlw self;
    if negb (rlw_get_literal_words w =? current_num + 1) then Err Bug else
    self ← buffer_push self new_data;
    Ret (self, 1).

(** One round of [while (1)]; the state is [self], [buffer] (a position in
    [src]) and [number]. *)
Definition dirty_step (src : list Z) (negate : bool) (st : ewah_bitmap * Z * Z)
    : outcome ((ewah_bitmap * Z * Z) + ewah_bitmap) :=
  let '(self, buffer, number) := st in
  w ← get_rlw self;
  let literals := rlw_get_literal_words w in
  let can_add := min_size number (RLW_LARGEST_LITERAL_COUNT - literals) in
  self ← set_rlw self (fun w => rlw_set_literal_words w (literals + can_add));
  let self := buffer_grow self (eb_buffer_size self + can_add) in
  ws ← rd_range src buffer can_add;
  let ws := if negate then wnot <$> ws else ws in
  buf ← wr_range (eb_buffer self) (eb_buffer_size self) ws;
  let self := EwahBitmap buf (eb_buffer_size self + can_add)
                (u64 (eb_bit_size self + can_add * BITS_IN_EWORD)) (eb_rlw self) in
  if number - can_add =? 0 then Ret (inr self) else
  self ← buffer_push_rlw self 0;
  Ret (inl (self, buffer + can_add, number - can_add)).

Definition ewah_add_dirty_words (self : ewah_bitmap) (src : list Z) (buffer number : Z)
    (negate : bool) : outcome ewah_bitmap :=
  loop (S (S (Z.to_nat number))) (dirty_step src negate) (self, buffer, number).

Definition add_empty_word (self : ewah_bitmap) (v : Z) : outcome (ewah_bitmap * Z) :=
  w ← get_rlw self;
  let no_literal := rlw_get_literal_words w =? 0 in
  let run_len := rlw_get_running_len w in
  self ← (if no_literal && (run_len =? 0) then
            self ← set_rlw self (fun w => rlw_set_run_bit w v);
            w ← get_rlw self;
            if negb (rlw_get_run_bit w =? v) then Err Bug else Ret self
          else Ret self);
  w ← get_rlw self;
  if no_literal && (rlw_get_run_bit w =? v) && (run_len <? RLW_LARGEST_RUNNING_COUNT) then
    self ← set_rlw self (fun w => rlw_set_running_len w (run_len + 1));
    w ← get_rlw self;
    if negb (rlw_get_running_len w =? run_len + 1) then Err Bug else
    Ret (self, 0)
  else
    self ← buffer_push_rlw self 0;
    w ← get_rlw self;
    if negb (rlw_get_running_len w =? 0) then Err Bug else
    if negb (rlw_get_run_bit w =? 0) then Err Bug else
    if negb (rlw_get_literal_words w =? 0) then Err Bug else
    self ← set_rlw self (fun w => rlw_set_run_bit w v);
    w ← get_rlw self;
    if negb (rlw_get_run_bit w =? v) then Err Bug else
    self ← set_rlw self (fun w => rlw_set_running_len w 1);
    w ← get_rlw self;
    if negb (rlw_get_running_len w =? 1) then Err Bug else
    if negb (rlw_get_literal_words w =? 0) then Err Bug else
    Ret (self, 1).

Definition ewah_add (self : ewah_bitmap) (word : Z) : outcome (ewah_bitmap * Z) :=
  let self := set_bit_size self (u64 (eb_bit_size self + BITS_IN_EWORD)) in
  if word =? 0 then add_empty_word self 0 else
  if word =? 2 ^ 64 - 1 then add_empty_word self 1 else
  add_literal self word.

Definition ewah_set (self : ewah_bitmap) (i : Z) : outcome ewah_bitmap :=
  let dist := u64 (words_for (i + 1) - words_for (eb_bit_size self)) in
  if negb (i >=? eb_bit_size self) then Err Bug else
  let self := set_bit_size self (i + 1) in
  let bit := Z.shiftl 1 (i mod BITS_IN_EWORD) in
  if dist >? 0 then
    self ← (if dist >? 1 then
              '(self, _) ← add_empty_words self 0 (dist - 1);
              Ret self
            else Ret self);
    '(self, _) ← add_literal self bit;
    Ret self
  else
  w ← get_rlw self;
  if rlw_get_literal_words w =? 0 then
    self ← set_rlw self (fun w => rlw_set_running_len w (rlw_get_running_len w - 1));
    '(self, _) ← add_literal self bit;
    Ret self
  else
  x ← rd (eb_buffer self) (eb_buffer_size self - 1);
  buf ← wr (eb_buffer self) (eb_buffer_size self - 1) (Z.lor x bit);
  let self := EwahBitmap buf (eb_buffer_size self) (eb_bit_size self) (eb_rlw self) in
  x ← rd (eb_buffer self) (eb_buffer_size self - 1);
  if x =? 2 ^ 64 - 1 then
    buf ← wr (eb_buffer self) (eb_buffer_size self - 1) 0;
    let self := EwahBitmap buf (eb_buffer_size self - 1) (eb_bit_size self) (eb_rlw self) in
    self ← set_rlw self (fun w => rlw_set_literal_words w (rlw_get_literal_words w - 1));
    '(self, _) ← add_empty_word self 1;
    Ret self
  else Ret self.

Definition ewah_clear (self : ewah_bitmap) : outcome ewah_bitmap :=
  buf ← wr (eb_buffer self) 0 0;
  Ret (EwahBitmap buf 1 0 0).

Definition ewah_new : outcome ewah_bitmap :=
  ewah_clear (EwahBitmap (replicate 32 junk) 0 0 0).

(** ** Iterator *)

Record ewah_iterator := EwahIterator {
  it_buffer : list Z;
  it_buffer_size : Z;
  it_pointer : Z;
  it_compressed : Z;
  it_literals : Z;
  it_rl : Z;
  it_lw : Z;
  it_b : Z;
}.

(** One round of the loop of [read_new_rlw]. *)
Definition read_rlw_step (it : ewah_iterator) : outcome (ewah_iterator + ewah_iterator) :=
  let '(EwahIterator buf size pointer compressed literals _ _ _) := it in
  word ← rd buf pointer;
  let rl := rlw_get_running_len word in
  let lw := rlw_get_literal_words word in
  let b := rlw_get_run_bit word in
  let it p := EwahIterator buf size p compressed literals rl lw b in
  if tru rl || tru lw then Ret (inr (it pointer)) else
  if pointer <? size - 1 then Ret (inl (it (pointer + 1)))
  else Ret (inr (it size)).

Definition read_new_rlw (it : ewah_iterator) : outcome ewah_iterator :=
  loop (S (Z.to_nat (it_buffer_size it - it_pointer it))) read_rlw_step
    (EwahIterator (it_buffer it) (it_buffer_size it) (it_pointer it) 0 0
       (it_rl it) (it_lw it) (it_b it)).

(** Returns [None] at the end ([return 0]), else the word in [*next]. *)
Definition ewah_iterator_next (it : ewah_iterator) : outcome (option Z * ewah_iterator) :=
  let '(EwahIterator buf size pointer compressed literals rl lw b) := it in
  if pointer >=? size then Ret (None, it) else
  '(next, pointer, compressed, literals) ←
    (if compressed <? rl then Ret (fill_word b, pointer, compressed + 1, literals)
     else if negb (literals <? lw) then Err Bug else
     let literals := literals + 1 in
     let pointer := pointer + 1 in
     if negb (pointer <? size) then Err Bug else
     next ← rd buf pointer;
     Ret (next, pointer, compressed, literals));
  it ← (if (compressed =? rl) && (literals =? lw) then
          let pointer := pointer + 1 in
          let it := EwahIterator buf size pointer compressed literals rl lw b in
          if pointer <? size then read_new_rlw it else Ret it
        else Ret (EwahIterator buf size pointer compressed literals rl lw b));
  Ret (Some next, it).

Definition ewah_iterator_init (parent : ewah_bitmap) : outcome ewah_iterator :=
  let it := EwahIterator (eb_buffer parent) (eb_buffer_size parent) 0 0 0 0 0 0 in
  if 0 <? it_buffer_size it then read_new_rlw it else Ret it.

(** ** Visiting the bits *)

(** [for (k = 0; k < len; ++k, ++pos) callback(pos)]: the positions passed to
    the callback are collected. *)
Definition run_calls (pos len : Z) : list Z :=
  (fun k => pos + Z.of_nat k) <$> seq 0 (Z.to_nat len).

(** The calls for one literal word. *)
Definition word_calls (word pos : Z) : list Z :=
  (fun c => pos + Z.of_nat c) <$>
    filter (fun c => tru (Z.land word (Z.shiftl 1 (Z.of_nat c)))) (seq 0 64).

(** The loop over the literal words; returns calls, [pos] and [pointer]. *)
Fixpoint literal_calls (n : nat) (buf : list Z) (pointer pos : Z) (calls : list Z)
    : outcome (list Z * Z * Z) :=
  match n with
  | O => Ret (calls, pos, pointer)
  | S n =>
      word ← rd buf pointer;
      literal_calls n buf (pointer + 1) (pos + BITS_IN_EWORD) (calls ++ word_calls word pos)
  end.

Definition each_bit_step (self : ewah_bitmap) (st : list Z * Z * Z)
    : outcome ((list Z * Z * Z) + list Z) :=
  let '(calls, pos, pointer) := st in
  if negb (pointer <? eb_buffer_size self) then Ret (inr calls) else
  word ← rd (eb_buffer self) pointer;
  let len := rlw_get_running_len word * BITS_IN_EWORD in
  let calls := if tru (rlw_get_run_bit word) then calls ++ run_calls pos len else calls in
  st ← literal_calls (Z.to_nat (rlw_get_literal_words word)) (eb_buffer self) (pointer + 1)
         (pos + len) calls;
  Ret (inl st).

(** The positions for which [callback] is called, in order. *)
Definition ewah_each_bit (self : ewah_bitmap) : outcome (list Z) :=
  loop (S (Z.to_nat (eb_buffer_size self))) (each_bit_step self) ([], 0, 0).

(** [crc = (crc << 5) - crc + *p++] over the bytes of the buffer, which the
    machine stores little-endian. *)
Definition word_bytes (w : Z) : list Z :=
  (fun k => u8 (Z.shiftr w (8 * Z.of_nat k))) <$> seq 0 8.

Definition ewah_checksum (self : ewah_bitmap) : outcome Z :=
  ws ← rd_range (eb_buffer self) 0 (eb_buffer_size self);
  Ret (fold_left (fun crc b => u32 (u32 (Z.shiftl crc 5) - crc + b))
         (concat (word_bytes <$> ws)) (u32 (eb_bit_size self))).
End model.

(** * Representation *)

Lemma fill_word_word v : is_word (fill_word v).
Proof. unfold fill_word, is_word. case_if; lia. Qed.

Section rep.
Context `{GitCompatOk, RlwOk}.
Context (junk : Z).

Definition run_words (w : Z) : list Z :=
  replicate (Z.to_nat (rlw_get_running_len w)) (fill_word (rlw_get_run_bit w)).

(** [segs buf ws]: the complete segments [buf] (a run-length word and its
    literals each, none of them empty) stand for the words [ws]. *)
Inductive segs : list Z -> list Z -> Prop :=
| segs_nil : segs [] []
| segs_cons w lits buf ws :
    is_word w -> Forall is_word lits -> rlw_get_literal_words w = zlen lits ->
    0 < rlw_get_running_len w + zlen lits ->
    segs buf ws ->
    segs ((w :: lits) ++ buf) ((run_words w ++ lits) ++ ws).

Lemma segs_app b1 w1 b2 w2 : segs b1 w1 -> segs b2 w2 -> segs (b1 ++ b2) (w1 ++ w2).
Proof.
  induction 1; intros; [done|]. rewrite <-!(assoc app (_ :: _)), <-!(assoc app (_ ++ _)).
  constructor; auto.
Qed.

Lemma segs_one w lits :
  is_word w -> Forall is_word lits -> rlw_get_literal_words w = zlen lits ->
  0 < rlw_get_running_len w + zlen lits -> segs (w :: lits) (run_words w ++ lits).
Proof.
  intros. rewrite <-(app_nil_r (w :: lits)), <-(app_nil_r (run_words w ++ lits)).
  by apply segs_cons; [..|constructor].
Qed.

Lemma segs_words b ws : segs b ws -> Forall is_word b /\ Forall is_word ws.
Proof.
  induction 1 as [|w lits buf ws Hw Hl _ _ _ [? ?]]; [done|]. split.
  - apply Forall_app. split; [by constructor|done].
  - apply Forall_app. split; [|done]. apply Forall_app. split; [|done].
    apply Forall_replicate, fill_word_word.
Qed.

(** The buffer: segments [pre], then the last run-length word [w], to which
    [rlw] points, with its literals. *)
Record layout (self : ewah_bitmap) (pre : list Z) (w : Z) (lits : list Z) : Prop := {
  lay_filled : filled (eb_buffer self) (eb_buffer_size self) (pre ++ [w] ++ lits);
  lay_rlw : eb_rlw self = zlen pre;
}.

Record ewah_at (self : ewah_bitmap) (pre : list Z) (w : Z) (lits ws0 : list Z) : Prop := {
  at_layout : layout self pre w lits;
  at_segs : segs pre ws0;
  at_word : is_word w;
  at_lits : Forall is_word lits;
  at_literal : rlw_get_literal_words w = zlen lits;
}.

(** [ewah_loose self ws]: [self] stands for the words [ws]; the last segment
    may be empty.  [ewah_rep]: only that of an empty bitmap is. *)
Definition ewah_loose (self : ewah_bitmap) (ws : list Z) : Prop :=
  exists pre w lits ws0, ewah_at self pre w lits ws0 /\ ws = ws0 ++ run_words w ++ lits.

Definition ewah_rep (self : ewah_bitmap) (ws : list Z) : Prop :=
  exists pre w lits ws0, ewah_at self pre w lits ws0 /\ ws = ws0 ++ run_words w ++ lits /\
    (pre = [] \/ 0 < rlw_get_running_len w + zlen lits).

Lemma ewah_rep_loose self ws : ewah_rep self ws -> ewah_loose self ws.
Proof. intros (pre & w & lits & ws0 & ? & ? & _). by exists pre, w, lits, ws0. Qed.

Lemma ewah_loose_words self ws : ewah_loose self ws -> Forall is_word ws.
Proof.
  intros (pre & w & lits & ws0 & Hat & ->). apply Forall_app. split.
  - apply (segs_words _ _ (at_segs _ _ _ _ _ Hat)).
  - apply Forall_app. split; [apply Forall_replicate, fill_word_word|apply Hat].
Qed.

(** ** The primitive accesses *)

Lemma lay_get self pre w lits : layout self pre w lits -> get_rlw self = Ret w.
Proof.
  intros [[_ [rest Hf]] Hr]. unfold get_rlw. rewrite Hr, Hf.
  rewrite <-!(assoc app). apply (at_pos_cons _ _ _ (lits ++ rest)), at_pos_pre.
Qed.

Lemma lay_set self pre w lits f :
  layout self pre w lits ->
  exists self', set_rlw self f = Ret self' /\ layout self' pre (f w) lits /\
    eb_buffer_size self' = eb_buffer_size self /\ eb_bit_size self' = eb_bit_size self.
Proof.
  intros Hl. unfold set_rlw. rewrite (lay_get _ _ _ _ Hl). run. destruct Hl as [Hf Hr]. rewrite Hr.
  destruct (filled_set _ _ _ _ _ (f w) Hf) as [-> Hf']. run.
  eexists. split; [done|]. by split; [split|].
Qed.

Lemma filled_grow self n l :
  filled (eb_buffer self) (eb_buffer_size self) l ->
  filled (eb_buffer (buffer_grow junk self n)) (eb_buffer_size self) l /\
  n <= zlen (eb_buffer (buffer_grow junk self n)).
Proof.
  intros Hf. unfold buffer_grow. cbn [eb_buffer]. split; [by apply filled_extend|].
  rewrite zlen_app, zlen_replicate.
  pose proof (alloc_grow_enough n (zlen (eb_buffer self))). lia.
Qed.

Lemma push_filled self l x :
  filled (eb_buffer self) (eb_buffer_size self) l ->
  exists self', buffer_push junk self x = Ret self' /\
    filled (eb_buffer self') (eb_buffer_size self') (l ++ [x]) /\
    eb_rlw self' = eb_rlw self /\ eb_buffer_size self' = eb_buffer_size self + 1 /\
    eb_bit_size self' = eb_bit_size self.
Proof.
  intros Hf. unfold buffer_push. cbv zeta.
  destruct (filled_grow self (eb_buffer_size self + 1) l Hf) as [Hg Hl].
  destruct (filled_wr _ _ _ x Hg ltac:(lia)) as [Hwr Hf'].
  unfold buffer_grow in *. cbn [eb_buffer eb_buffer_size eb_bit_size eb_rlw] in *.
  rewrite Hwr. run. eexists. split; [done|].
  cbn [eb_buffer eb_buffer_size eb_rlw eb_bit_size]. done.
Qed.

Lemma lay_push self pre w lits x :
  layout self pre w lits ->
  exists self', buffer_push junk self x = Ret self' /\ layout self' pre w (lits ++ [x]) /\
    eb_buffer_size self' = eb_buffer_size self + 1 /\ eb_bit_size self' = eb_bit_size self.
Proof.
  intros [Hf Hr]. destruct (push_filled self _ x Hf) as (self' & -> & Hf' & Hr' & Hn & Hb).
  eexists. split; [done|]. split; [|done]. split; [|congruence]. by rewrite <-!(assoc app) in Hf'.
Qed.

Lemma lay_push_rlw self pre w lits x :
  layout self pre w lits ->
  exists self', buffer_push_rlw junk self x = Ret self' /\
    layout self' (pre ++ w :: lits) x [] /\
    eb_buffer_size self' = eb_buffer_size self + 1 /\ eb_bit_size self' = eb_bit_size self.
Proof.
  intros [Hf Hr]. unfold buffer_push_rlw.
  destruct (push_filled self _ x Hf) as (self' & -> & Hf' & _ & Hn & Hb). run.
  eexists. split; [done|]. split; [|done]. destruct Hf as [Hl _].
  split; cbn [eb_buffer eb_buffer_size eb_rlw]; [|rewrite Hn, <-Hl; by rewrite Z.add_simpl_r].
  by rewrite app_nil_r.
Qed.

(** Opening a new segment: the last one must not be empty. *)
Lemma at_push_rlw self pre w lits ws0 :
  ewah_at self pre w lits ws0 -> 0 < rlw_get_running_len w + zlen lits ->
  exists self', buffer_push_rlw junk self 0 = Ret self' /\
    ewah_at self' (pre ++ w :: lits) 0 [] (ws0 ++ run_words w ++ lits) /\
    eb_buffer_size self' = eb_buffer_size self + 1 /\ eb_bit_size self' = eb_bit_size self.
Proof.
  intros [Hl Hs Hw Hls Hlit] Hpos.
  destruct (lay_push_rlw _ _ _ _ 0 Hl) as (self' & -> & Hl' & ?).
  eexists. split; [done|]. split; [|done]. split; [done| | |constructor|by apply rlw_zero].
  - apply segs_app; [done|]. by apply segs_one.
  - unfold is_word; lia.
Qed.

(** Setting the run of the last segment. *)
Lemma at_set self pre w lits ws0 f :
  ewah_at self pre w lits ws0 -> is_word (f w) ->
  rlw_get_literal_words (f w) = rlw_get_literal_words w ->
  exists self', set_rlw self f = Ret self' /\ ewah_at self' pre (f w) lits ws0 /\
    eb_buffer_size self' = eb_buffer_size self /\ eb_bit_size self' = eb_bit_size self.
Proof.
  intros [Hl Hs Hw Hls Hlit] Hf Hlf.
  destruct (lay_set _ _ _ _ f Hl) as (self' & -> & Hl' & ?).
  eexists. split; [done|]. split; [|done]. by split; [..|congruence].
Qed.

Lemma at_get self pre w lits ws0 : ewah_at self pre w lits ws0 -> get_rlw self = Ret w.
Proof. intros [Hl _ _ _ _]. by apply (lay_get _ _ _ _ Hl). Qed.

(** Appending a literal announced in the run-length word. *)
Lemma at_literal_push self pre w lits ws0 x n :
  ewah_at self pre w lits ws0 -> is_word x -> n = zlen lits + 1 ->
  zlen lits < RLW_LARGEST_LITERAL_COUNT ->
  let w' := rlw_set_literal_words w n in
  exists self1 self', set_rlw self (fun w => rlw_set_literal_words w n) = Ret self1 /\
    get_rlw self1 = Ret w' /\ rlw_get_literal_words w' = n /\
    buffer_push junk self1 x = Ret self' /\ ewah_at self' pre w' (lits ++ [x]) ws0 /\
    run_words w' = run_words w /\
    eb_buffer_size self' = eb_buffer_size self + 1 /\ eb_bit_size self' = eb_bit_size self.
Proof.
  intros [Hl Hs Hw Hls Hlit] Hx Hn0 Hmax w'. pose proof (zlen_nonneg lits).
  destruct (rlw_set_literal_words_spec w n Hw) as (Hw' & Hb & Hr & Hc); [lia|].
  destruct (lay_set _ _ _ _ (fun w => rlw_set_literal_words w n) Hl)
    as (self1 & -> & Hl1 & Hn1 & Hb1).
  destruct (lay_push _ _ _ _ x Hl1) as (self' & Hp & Hl' & Hn & Hbs).
  exists self1, self'. split; [done|]. split; [by apply (lay_get _ _ _ _ Hl1)|]. split; [done|].
  split; [done|]. split; [|split; [unfold run_words; unfold w'; by rewrite Hb, Hr|]].
  - split; [done|done|done|by apply Forall_app; split; [|constructor]|].
    rewrite zlen_app, zlen_cons, zlen_nil. unfold w'. lia.
  - split; congruence.
Qed.

(** ** Appending words *)

Lemma zlen_snoc {A} (l : list A) x : zlen (l ++ [x]) = zlen l + 1.
Proof. by rewrite zlen_app, zlen_cons, zlen_nil. Qed.

Lemma add_literal_spec self ws x :
  ewah_loose self ws -> is_word x ->
  exists self' added, add_literal junk self x = Ret (self', added) /\
    ewah_rep self' (ws ++ [x]) /\ eb_bit_size self' = eb_bit_size self /\
    eb_buffer_size self' = eb_buffer_size self + added.
Proof.
  intros (pre & w & lits & ws0 & Hat & ->) Hx. unfold add_literal.
  rewrite (at_get _ _ _ _ _ Hat). run. rewrite (at_literal _ _ _ _ _ Hat).
  pose proof (zlen_nonneg lits). pose proof rlw_literal_max as Hmax.
  pose proof (rlw_running_len_range w (at_word _ _ _ _ _ Hat)).
  case_if.
  - destruct (at_push_rlw _ _ _ _ _ Hat) as (s1 & -> & Hat1 & Hn1 & Hb1); [lia|]. run.
    destruct (at_literal_push _ _ _ _ _ x 1 Hat1) as (s2 & s3 & -> & _ & _ & Hp & Hat3 & Hrun & Hn & Hb);
      [done|done|change (zlen (@nil Z)) with 0; lia|]. run. rewrite Hp. run.
    do 2 eexists. split; [done|]. split; [|split; [congruence|lia]].
    eexists _, _, _, _. split; [exact Hat3|]. rewrite Hrun.
    split; [|right; rewrite zlen_snoc; pose proof (rlw_running_len_range _ (at_word _ _ _ _ _ Hat3)); change (zlen (@nil Z)) with 0; lia].
    unfold run_words at 3. destruct rlw_zero as (_ & -> & _). cbn [Z.to_nat replicate app].
    by rewrite <-!(assoc app).
  - destruct (at_literal_push _ _ _ _ _ x (zlen lits + 1) Hat) as (s2 & s3 & -> & Hg & Hl & Hp & Hat3 & Hrun & Hn & Hb);
      [done|done|lia|]. run. rewrite Hg. run. rewrite Hl, Z.eqb_refl. cbn [negb]. rewrite Hp. run.
    do 2 eexists. split; [done|]. split; [|split; [congruence|lia]].
    eexists _, _, _, _. split; [exact Hat3|]. rewrite Hrun.
    split; [by rewrite <-!(assoc app)|].
    right. rewrite zlen_snoc. pose proof (rlw_running_len_range _ (at_word _ _ _ _ _ Hat3)). lia.
Qed.

Lemma run_words_set w l :
  is_word w -> 0 <= l <= RLW_LARGEST_RUNNING_COUNT ->
  run_words (rlw_set_running_len w l) = replicate (Z.to_nat l) (fill_word (rlw_get_run_bit w)).
Proof.
  intros Hw Hl. unfold run_words.
  destruct (rlw_set_running_len_spec w l Hw Hl) as (_ & -> & -> & _). done.
Qed.

Lemma is_word_0 : is_word 0.
Proof. unfold is_word; lia. Qed.

(** A fresh run-length word with run bit [v]. *)
Lemma at_open_run self pre w lits ws0 v :
  ewah_at self pre w lits ws0 -> 0 < rlw_get_running_len w + zlen lits -> v = 0 \/ v = 1 ->
  exists self1 self' w', buffer_push_rlw junk self 0 = Ret self1 /\
    (if tru v then set_rlw self1 (fun w => rlw_set_run_bit w v) else Ret self1) = Ret self' /\
    ewah_at self' (pre ++ w :: lits) w' [] (ws0 ++ run_words w ++ lits) /\
    rlw_get_run_bit w' = v /\ rlw_get_running_len w' = 0 /\
    eb_buffer_size self' = eb_buffer_size self + 1 /\ eb_bit_size self' = eb_bit_size self.
Proof.
  intros Hat Hpos Hv. destruct (at_push_rlw _ _ _ _ _ Hat Hpos) as (s1 & Hs1 & Hat1 & Hn1 & Hb1).
  destruct (rlw_zero) as (Hz1 & Hz2 & Hz3).
  destruct (rlw_set_run_bit_spec 0 v is_word_0 Hv) as (Hw & Hg & Hr & Hl).
  destruct (tru v) eqn:E; zb.
  - destruct (at_set _ _ _ _ _ (fun w => rlw_set_run_bit w v) Hat1 Hw Hl)
      as (s2 & Hs2 & Hat2 & Hn2 & Hb2).
    exists s1, s2, (rlw_set_run_bit 0 v). split; [done|]. split; [done|]. split; [done|].
    split; [done|]. split; [congruence|]. split; congruence.
  - subst v. exists s1, s1, 0. done.
Qed.

Lemma push_run_spec self pre w lits ws0 v len :
  ewah_at self pre w lits ws0 -> 0 < rlw_get_running_len w + zlen lits -> v = 0 \/ v = 1 ->
  0 < len <= RLW_LARGEST_RUNNING_COUNT ->
  exists self' w', push_run junk self v len = Ret self' /\
    ewah_at self' (pre ++ w :: lits) w' [] (ws0 ++ run_words w ++ lits) /\
    run_words w' = replicate (Z.to_nat len) (fill_word v) /\ rlw_get_running_len w' = len /\
    eb_buffer_size self' = eb_buffer_size self + 1 /\ eb_bit_size self' = eb_bit_size self.
Proof.
  intros Hat Hpos Hv Hlen. unfold push_run.
  destruct (at_open_run _ _ _ _ _ v Hat Hpos Hv) as (s1 & s2 & w2 & -> & Hs2 & Hat2 & Hb & Hr & Hn & Hbs).
  run. rewrite Hs2. run. pose proof (at_word _ _ _ _ _ Hat2) as Hw2.
  destruct (rlw_set_running_len_spec w2 len Hw2) as (Hw3 & _ & Hr3 & Hl3); [lia|].
  destruct (at_set _ _ _ _ _ (fun w => rlw_set_running_len w len) Hat2 Hw3 Hl3)
    as (s3 & -> & Hat3 & Hn3 & Hb3).
  eexists _, _. split; [done|]. split; [exact Hat3|]. rewrite run_words_set, Hb by (done || lia).
  split; [done|]. split; [done|]. split; congruence.
Qed.

(** The first step of [add_empty_words]: the last segment has no literals and
    run bit [v]. *)
Lemma prepare_run_spec self ws v :
  ewah_loose self ws -> v = 0 \/ v = 1 ->
  exists w, get_rlw self = Ret w /\
  exists self' added pre w' ws0,
    (if negb (rlw_get_run_bit w =? v) && (rlw_size w =? 0) then
       self ← set_rlw self (fun w => rlw_set_run_bit w v);
       Ret (self, 0)
     else if negb (rlw_get_literal_words w =? 0) || negb (rlw_get_run_bit w =? v) then
       self ← buffer_push_rlw junk self 0;
       self ← (if tru v then set_rlw self (fun w => rlw_set_run_bit w v) else Ret self);
       Ret (self, 0 + 1)
     else Ret (self, 0)) = Ret (self', added) /\
    ewah_at self' pre w' [] ws0 /\ ws = ws0 ++ run_words w' /\ rlw_get_run_bit w' = v /\
    eb_buffer_size self' = eb_buffer_size self + added /\ eb_bit_size self' = eb_bit_size self.
Proof.
  intros (pre & w & lits & ws0 & Hat & ->) Hv. exists w. split; [by apply (at_get _ _ _ _ _ Hat)|].
  pose proof (at_word _ _ _ _ _ Hat) as Hw. rewrite rlw_size_spec, (at_literal _ _ _ _ _ Hat) by done.
  pose proof (zlen_nonneg lits). pose proof (rlw_running_len_range w Hw).
  case_if.
  - destruct (rlw_set_run_bit_spec w v Hw Hv) as (Hw' & Hb & Hr & Hl).
    destruct (at_set _ _ _ _ _ (fun w => rlw_set_run_bit w v) Hat Hw' Hl) as (s1 & -> & Hat1 & ? & ?). run.
    assert (lits = []) as -> by (destruct lits; [done|rewrite zlen_cons in *; pose proof (zlen_nonneg lits); lia]).
    rewrite zlen_nil in *. eexists _, _, _, _, _. split; [done|]. split; [exact Hat1|].
    unfold run_words. rewrite Hr. replace (rlw_get_running_len w) with 0 by lia.
    split; [done|]. split; [done|]. split; [lia|done].
  - case_if.
    + assert (0 < rlw_get_running_len w + zlen lits) as Hpos.
      { apply orb_true_iff in Heqb0 as [E|E]; zb; [lia|].
        apply andb_false_iff in Heqb as [E'|E']; zb; [congruence|lia]. }
      destruct (at_open_run _ _ _ _ _ v Hat Hpos Hv) as (s1 & s2 & w2 & -> & Hs2 & Hat2 & Hb & Hr & Hn & Hbs).
      run. rewrite Hs2. run. eexists _, _, _, _, _. split; [done|]. split; [exact Hat2|].
      unfold run_words at 3. rewrite Hr. cbn [Z.to_nat replicate]. rewrite app_nil_r.
      split; [done|]. split; [done|]. split; [lia|done].
    + zb. assert (lits = []) as -> by (destruct lits; [done|rewrite zlen_cons in *; pose proof (zlen_nonneg lits); lia]).
      exists self, 0, pre, w, ws0. rewrite app_nil_r. split; [done|]. split; [done|]. split; [done|].
      split; [done|]. split; [lia|done].
Qed.

(** The state of the loop over full runs: [number] words are left. *)
Definition runs_left (self0 : ewah_bitmap) (all : list Z) (v : Z)
    (self : ewah_bitmap) (added number : Z) : Prop :=
  exists pre w ws0, ewah_at self pre w [] ws0 /\ 0 < rlw_get_running_len w /\ 0 <= number /\
    all = ws0 ++ run_words w ++ replicate (Z.to_nat number) (fill_word v) /\
    eb_buffer_size self = eb_buffer_size self0 + added /\ eb_bit_size self = eb_bit_size self0.

Lemma runs_left_push self0 all v self added number len :
  runs_left self0 all v self added number -> v = 0 \/ v = 1 ->
  0 < len <= RLW_LARGEST_RUNNING_COUNT -> len <= number ->
  exists self', push_run junk self v len = Ret self' /\
    runs_left self0 all v self' (added + 1) (number - len).
Proof.
  intros (pre & w & ws0 & Hat & Hr & Hn & -> & Hs & Hb) Hv Hlen Hle.
  destruct (push_run_spec _ _ _ _ _ v len Hat) as (s1 & w1 & -> & Hat1 & Hrun & Hr1 & Hs1 & Hb1);
    [rewrite zlen_nil; lia|done|done|].
  eexists. split; [done|]. eexists _, _, _. split; [exact Hat1|].
  split; [lia|]. split; [lia|]. rewrite Hrun, app_nil_r, <-!(assoc app), <-replicate_add.
  split; [do 3 f_equal; lia|]. split; [lia|congruence].
Qed.

Lemma full_runs_spec self all v s a number :
  runs_left self all v s a number -> v = 0 \/ v = 1 ->
  exists s' a' n', loop (S (Z.to_nat (number / RLW_LARGEST_RUNNING_COUNT)))
      (full_runs_step junk v) (s, a, number) = Ret (s', a', n') /\
    runs_left self all v s' a' n' /\ n' < RLW_LARGEST_RUNNING_COUNT.
Proof.
  intros Hleft Hv. pose proof rlw_running_max as Hmax.
  pose proof Hleft as (? & ? & ? & _ & _ & Hge & _).
  assert (0 <= number / RLW_LARGEST_RUNNING_COUNT) by (apply Z.div_pos; lia).
  destruct (loop_ret (fun '(s, a, n) => runs_left self all v s a n)
    (fun st => st.2 / RLW_LARGEST_RUNNING_COUNT)
    (S (Z.to_nat (number / RLW_LARGEST_RUNNING_COUNT))) (full_runs_step junk v) (s, a, number)
    (fun '(s, a, n) => runs_left self all v s a n /\ n < RLW_LARGEST_RUNNING_COUNT))
    as ([[s' a'] n'] & Hl & ?); [|done|cbn [snd]; lia|naive_solver].
  intros [[s1 a1] n1] Hl. unfold full_runs_step. case_if; [eexists; split; [done|split; [done|lia]]|].
  destruct (runs_left_push self all v s1 a1 n1 RLW_LARGEST_RUNNING_COUNT Hl Hv) as (s' & -> & Hl');
    [lia..|]. run. eexists. split; [done|]. split; [done|].
  pose proof Hl' as (? & ? & ? & _ & _ & Hge' & _). cbn [snd].
  rewrite Hmax in *. Z.to_euclidean_division_equations; lia.
Qed.

Lemma add_empty_words_spec self ws v number :
  ewah_loose self ws -> v = 0 \/ v = 1 -> 0 < number ->
  exists self' added, add_empty_words junk self v number = Ret (self', added) /\
    ewah_rep self' (ws ++ replicate (Z.to_nat number) (fill_word v)) /\
    eb_bit_size self' = eb_bit_size self /\ eb_buffer_size self' = eb_buffer_size self + added.
Proof.
  intros Hrep Hv Hnum. unfold add_empty_words. pose proof rlw_running_max as Hmax.
  destruct (prepare_run_spec self ws v Hrep Hv)
    as (w & -> & s1 & a1 & pre & w1 & ws0 & Hstep & Hat & Hws & Hb1 & Hn1 & Hbs1).
  run. cbv zeta. rewrite Hstep. run. clear Hstep. rewrite (at_get _ _ _ _ _ Hat). run.
  pose proof (at_word _ _ _ _ _ Hat) as Hw1. pose proof (rlw_running_len_range w1 Hw1) as Hrl.
  set (rl := rlw_get_running_len w1) in *.
  set (can_add := min_size number (RLW_LARGEST_RUNNING_COUNT - rl)).
  assert (0 <= can_add <= number /\ rl + can_add <= RLW_LARGEST_RUNNING_COUNT /\
    0 < rl + can_add) as (Hca & Hca2 & Hca3).
  { unfold can_add, min_size. case_if; lia. }
  destruct (rlw_set_running_len_spec w1 (rl + can_add) Hw1) as (Hw2 & Hb2 & Hr2 & Hl2); [lia|].
  destruct (at_set _ _ _ _ _ (fun w => rlw_set_running_len w (rl + can_add)) Hat Hw2 Hl2)
    as (s2 & -> & Hat2 & Hn2 & Hbs2). run.
  set (all := ws ++ replicate (Z.to_nat number) (fill_word v)).
  assert (runs_left self all v s2 a1 (number - can_add)) as Hleft.
  { eexists _, _, _. split; [exact Hat2|]. split; [lia|]. split; [lia|].
    rewrite run_words_set, Hb1 by (done || lia).
    split; [|split; congruence]. unfold all. rewrite Hws. unfold run_words. fold rl. rewrite Hb1.
    rewrite <-(assoc app), <-!replicate_add. do 2 f_equal. lia. }
  destruct (full_runs_spec self all v s2 a1 _ Hleft Hv) as (s3 & a3 & n3 & -> & Hl3 & Hn3).
  run. case_if.
  - destruct (runs_left_push self all v s3 a3 n3 n3 Hl3 Hv) as (s4 & -> & Hl4); [lia..|]. run.
    destruct Hl4 as (pre4 & w4 & ws4 & Hat4 & Hr4 & _ & Hall & Hs4 & Hb4).
    do 2 eexists. split; [done|]. split; [|split; [done|lia]].
    exists pre4, w4, [], ws4. split; [done|]. rewrite Z.sub_diag in Hall.
    split; [done|]. right. rewrite zlen_nil. lia.
  - destruct Hl3 as (pre4 & w4 & ws4 & Hat4 & Hr4 & Hge & Hall & Hs4 & Hb4).
    do 2 eexists. split; [done|]. split; [|split; [done|lia]].
    exists pre4, w4, [], ws4. split; [done|]. replace n3 with 0 in Hall by lia.
    split; [done|]. right. rewrite zlen_nil. lia.
Qed.

Lemma zlen_0_nil {A} (l : list A) : zlen l = 0 -> l = [].
Proof. destruct l; [done|]. rewrite zlen_cons. pose proof (zlen_nonneg l). lia. Qed.

(** One more word of bit [v] after a run of [v]. *)
Lemma run_words_snoc w v :
  is_word w -> rlw_get_run_bit w = v -> rlw_get_running_len w < RLW_LARGEST_RUNNING_COUNT ->
  run_words (rlw_set_running_len w (rlw_get_running_len w + 1)) = run_words w ++ [fill_word v].
Proof.
  intros Hw Hv Hlt. pose proof (rlw_running_len_range w Hw).
  rewrite run_words_set by (done || lia). unfold run_words. rewrite Hv.
  rewrite Z2Nat.inj_add by lia. by rewrite replicate_add.
Qed.

(** Extending the run of the last segment, which has no literals. *)
Lemma at_extend_run self pre w ws0 v :
  ewah_at self pre w [] ws0 -> rlw_get_run_bit w = v ->
  rlw_get_running_len w < RLW_LARGEST_RUNNING_COUNT ->
  let n := rlw_get_running_len w + 1 in
  exists self' w', set_rlw self (fun w => rlw_set_running_len w n) = Ret self' /\
    get_rlw self' = Ret w' /\ rlw_get_running_len w' = n /\ rlw_get_literal_words w' = 0 /\
    ewah_rep self' (ws0 ++ run_words w ++ [fill_word v]) /\
    eb_buffer_size self' = eb_buffer_size self /\ eb_bit_size self' = eb_bit_size self.
Proof.
  intros Hat Hv Hlt n. pose proof (at_word _ _ _ _ _ Hat) as Hw.
  pose proof (rlw_running_len_range w Hw).
  destruct (rlw_set_running_len_spec w n Hw) as (Hw' & Hb & Hr & Hl); [lia|].
  destruct (at_set _ _ _ _ _ (fun w => rlw_set_running_len w n) Hat Hw' Hl) as (s1 & -> & Hat1 & Hn & Hbs).
  exists s1, (rlw_set_running_len w n). split; [done|]. split; [by apply (at_get _ _ _ _ _ Hat1)|].
  split; [done|]. rewrite Hl, (at_literal _ _ _ _ _ Hat). split; [done|]. split; [|done].
  exists pre, (rlw_set_running_len w n), [], ws0. split; [done|].
  rewrite app_nil_r. unfold n at 1. rewrite (run_words_snoc w v) by done.
  split; [done|]. right. rewrite zlen_nil. lia.
Qed.

Lemma add_empty_word_spec self ws v :
  ewah_loose self ws -> v = 0 \/ v = 1 ->
  exists self' added, add_empty_word junk self v = Ret (self', added) /\
    ewah_rep self' (ws ++ [fill_word v]) /\ eb_bit_size self' = eb_bit_size self /\
    eb_buffer_size self' = eb_buffer_size self + added.
Proof.
  intros (pre & w & lits & ws0 & Hat & ->) Hv. unfold add_empty_word.
  pose proof (at_word _ _ _ _ _ Hat) as Hw. pose proof (rlw_running_len_range w Hw).
  pose proof (zlen_nonneg lits). pose proof rlw_running_max as Hmax.
  rewrite (at_get _ _ _ _ _ Hat). run. cbv zeta. rewrite (at_literal _ _ _ _ _ Hat).
  (* the run bit of an empty segment is set first *)
  assert (exists self1 w1,
    (if (zlen lits =? 0) && (rlw_get_running_len w =? 0) then
       self ← set_rlw self (fun w => rlw_set_run_bit w v);
       w ← get_rlw self;
       if negb (rlw_get_run_bit w =? v) then Err Bug else Ret self
     else Ret self) = Ret self1 /\ ewah_at self1 pre w1 lits ws0 /\
    rlw_get_running_len w1 = rlw_get_running_len w /\ run_words w1 = run_words w /\
    (zlen lits = 0 -> rlw_get_running_len w = 0 -> rlw_get_run_bit w1 = v) /\
    eb_buffer_size self1 = eb_buffer_size self /\ eb_bit_size self1 = eb_bit_size self)
    as (s1 & w1 & -> & Hat1 & Hr1 & Hrw1 & Hb1 & Hn1 & Hbs1).
  { destruct (_ && _) eqn:E; zb.
    - destruct (rlw_set_run_bit_spec w v Hw Hv) as (Hw' & Hb & Hr & Hl).
      destruct (at_set _ _ _ _ _ (fun w => rlw_set_run_bit w v) Hat Hw' Hl) as (s1 & -> & Hat1 & ? & ?).
      run. rewrite (at_get _ _ _ _ _ Hat1). run. rewrite Hb, Z.eqb_refl. cbn [negb].
      exists s1, (rlw_set_run_bit w v). split; [done|]. split; [done|]. split; [done|].
      split; [|done]. unfold run_words. rewrite Hr.
      by replace (rlw_get_running_len w) with 0 by lia.
    - exists self, w. split; [done|]. split; [done|]. split; [done|]. split; [done|].
      apply andb_false_iff in E as [E|E]; zb; naive_solver. }
  run. rewrite (at_get _ _ _ _ _ Hat1). run.
  destruct (_ && _ && _) eqn:E; zb.
  - match goal with Hz : zlen lits = 0 |- _ => apply zlen_0_nil in Hz as -> end.
    rewrite app_nil_r, <-Hr1, <-Hrw1.
    destruct (at_extend_run _ _ _ _ v Hat1) as (s2 & w2 & -> & Hg & Hr2 & _ & Hrep & Hn2 & Hbs2); [done|lia|].
    run. rewrite Hg. run. rewrite Hr2, Z.eqb_refl. cbn [negb]. do 2 eexists. split; [done|].
    rewrite <-(assoc app). split; [done|]. split; [congruence|lia].
  - assert (0 < rlw_get_running_len w1 + zlen lits) as Hpos.
    { rewrite Hr1. destruct (Z.eq_dec (zlen lits) 0) as [Hz|]; [|lia].
      destruct (Z.eq_dec (rlw_get_running_len w) 0) as [Hz'|]; [|lia].
      rewrite (Hb1 Hz Hz'), Hz, Hz', !Z.eqb_refl, Hmax in E. done. }
    destruct (at_push_rlw _ _ _ _ _ Hat1 Hpos) as (s2 & -> & Hat2 & Hn2 & Hbs2). run.
    rewrite (at_get _ _ _ _ _ Hat2). run. destruct rlw_zero as (Hz1 & Hz2 & Hz3).
    rewrite Hz1, Hz2, Hz3. cbn [negb Z.eqb].
    destruct (rlw_set_run_bit_spec 0 v is_word_0 Hv) as (Hw' & Hb & Hr & Hl).
    destruct (at_set _ _ _ _ _ (fun w => rlw_set_run_bit w v) Hat2 Hw' Hl) as (s3 & -> & Hat3 & Hn3 & Hbs3).
    run. rewrite (at_get _ _ _ _ _ Hat3). run. rewrite Hb, Z.eqb_refl. cbn [negb].
    destruct (at_extend_run _ _ _ _ v Hat3) as (s4 & w4 & Hs4 & Hg4 & Hr4 & Hl4 & Hrep & Hn4 & Hbs4);
      [done|lia|]. rewrite Hr, Hz2 in Hs4, Hr4. change (0 + 1) with 1 in *. rewrite Hs4. run.
    rewrite Hg4. run. rewrite Hr4, Hl4. cbn [negb Z.eqb Pos.eqb].
    do 2 eexists. split; [done|]. split; [|split; [congruence|lia]].
    unfold run_words at 2 in Hrep. rewrite Hr, Hz2 in Hrep. cbn [Z.to_nat replicate app] in Hrep.
    by rewrite Hrw1 in Hrep.
Qed.

Lemma ewah_loose_bit_size self ws n : ewah_loose self ws -> ewah_loose (set_bit_size self n) ws.
Proof.
  intros (pre & w & lits & ws0 & [[? ?] ? ? ? ?] & ->). exists pre, w, lits, ws0.
  split; [|done]. by split; [split|..].
Qed.

Lemma ewah_rep_bit_size self ws n : ewah_rep self ws -> ewah_rep (set_bit_size self n) ws.
Proof.
  intros (pre & w & lits & ws0 & [[? ?] ? ? ? ?] & ? & ?). exists pre, w, lits, ws0.
  split; [|done]. by split; [split|..].
Qed.

Lemma ewah_add_spec self ws x :
  ewah_rep self ws -> is_word x ->
  exists self' added, ewah_add junk self x = Ret (self', added) /\
    ewah_rep self' (ws ++ [x]) /\ eb_bit_size self' = u64 (eb_bit_size self + 64) /\
    eb_buffer_size self' = eb_buffer_size self + added.
Proof.
  intros Hrep%ewah_rep_loose Hx. unfold ewah_add.
  pose proof (ewah_loose_bit_size _ _ (u64 (eb_bit_size self + BITS_IN_EWORD)) Hrep) as Hl.
  case_if; [subst x; exact (add_empty_word_spec _ _ 0 Hl ltac:(auto))|].
  case_if; [subst x; exact (add_empty_word_spec _ _ 1 Hl ltac:(auto))|].
  exact (add_literal_spec _ _ x Hl Hx).
Qed.

Lemma ewah_add_empty_words_spec self ws v number :
  ewah_rep self ws -> v = 0 \/ v = 1 -> 0 <= number -> is_word (eb_bit_size self) ->
  exists self' added, ewah_add_empty_words junk self v number = Ret (self', added) /\
    ewah_rep self' (ws ++ replicate (Z.to_nat number) (fill_word v)) /\
    eb_bit_size self' = u64 (eb_bit_size self + number * 64) /\
    eb_buffer_size self' = eb_buffer_size self + added.
Proof.
  intros Hrep Hv Hn Hb. unfold ewah_add_empty_words. case_if.
  - subst number. exists self, 0. cbn [Z.to_nat replicate]. rewrite app_nil_r.
    rewrite Z.mul_0_l, Z.add_0_r, u64_small by done. split; [done|]. split; [done|]. split; [done|lia].
  - pose proof (ewah_loose_bit_size _ _ (u64 (eb_bit_size self + number * BITS_IN_EWORD))
      (ewah_rep_loose _ _ Hrep)) as Hl.
    destruct (add_empty_words_spec _ _ v number Hl Hv) as (s1 & a & -> & ?); [lia|]. eauto.
Qed.

Lemma ewah_new_spec :
  exists self, ewah_new junk = Ret self /\ ewah_rep self [] /\ eb_bit_size self = 0.
Proof.
  unfold ewah_new, ewah_clear. cbn [eb_buffer]. rewrite wr_in by done. run.
  eexists. split; [done|]. split; [|done]. exists [], 0, [], []. destruct rlw_zero as (Hz1 & Hz2 & Hz3).
  split; [|split; [|by left]].
  - split; [split; [|done]|constructor|apply is_word_0|constructor|done].
    split; [done|]. cbn [eb_buffer]. by exists (replicate 31 junk).
  - unfold run_words. by rewrite Hz2.
Qed.

(** ** Appending literal words *)

Definition neg_words (negate : bool) (ws : list Z) : list Z :=
  if negate then wnot <$> ws else ws.

Lemma zlen_fmap {A B} (f : A -> B) l : zlen (f <$> l) = zlen l.
Proof. unfold zlen. by rewrite length_fmap. Qed.

Lemma zlen_neg_words negate ws : zlen (neg_words negate ws) = zlen ws.
Proof. destruct negate; [apply zlen_fmap|done]. Qed.

Lemma neg_words_app negate w1 w2 : neg_words negate (w1 ++ w2) = neg_words negate w1 ++ neg_words negate w2.
Proof. destruct negate; [apply fmap_app|done]. Qed.

Lemma neg_words_word negate ws : Forall is_word ws -> Forall is_word (neg_words negate ws).
Proof.
  destruct negate; [|done]. intros _. apply Forall_fmap, Forall_true. intros x. apply wnot_word.
Qed.

(** One round on the last segment: [can_add] words join its literals. *)
Lemma dirty_fill_spec self pre w lits ws0 xs :
  ewah_at self pre w lits ws0 -> Forall is_word xs ->
  zlen lits + zlen xs <= RLW_LARGEST_LITERAL_COUNT ->
  exists self1 buf w', set_rlw self (fun w => rlw_set_literal_words w (zlen lits + zlen xs)) = Ret self1 /\
    wr_range (eb_buffer (buffer_grow junk self1 (eb_buffer_size self1 + zlen xs)))
      (eb_buffer_size self1) xs = Ret buf /\
    (forall n, ewah_at (EwahBitmap buf (eb_buffer_size self1 + zlen xs) n (eb_rlw self1))
      pre w' (lits ++ xs) ws0) /\
    run_words w' = run_words w /\ rlw_get_running_len w' = rlw_get_running_len w /\
    eb_buffer_size self1 = eb_buffer_size self /\ eb_bit_size self1 = eb_bit_size self.
Proof.
  intros [Hl Hs Hw Hls Hlit] Hxs Hmax. pose proof (zlen_nonneg lits). pose proof (zlen_nonneg xs).
  set (n := zlen lits + zlen xs) in *.
  destruct (rlw_set_literal_words_spec w n Hw) as (Hw' & Hb & Hr & Hc); [lia|].
  destruct (lay_set _ _ _ _ (fun w => rlw_set_literal_words w n) Hl) as (s1 & -> & [Hf1 Hr1] & Hn1 & Hb1).
  destruct (filled_grow s1 (eb_buffer_size s1 + zlen xs) _ Hf1) as [Hg Hge].
  destruct (filled_wr_range _ _ _ xs Hg Hge) as (buf & Hwr & _ & Hf2).
  exists s1, buf, (rlw_set_literal_words w n). split; [done|]. split; [done|].
  split; [|split; [unfold run_words; by rewrite Hb, Hr|done]].
  intros bs. split; [split|done|done|by apply Forall_app|by rewrite Hc, zlen_app];
    cbn [eb_buffer eb_buffer_size eb_rlw]; [|done]. by rewrite <-!(assoc app) in Hf2.
Qed.

(** Rounds left: the words to add, and one more when the segment is full. *)
Definition dirty_measure (st : ewah_bitmap * Z * Z) : Z :=
  st.2 + match get_rlw st.1.1 with
         | Ret w => if rlw_get_literal_words w =? RLW_LARGEST_LITERAL_COUNT then 1 else 0
         | _ => 0
         end.

Lemma u64_add_idemp x y : u64 (u64 x + y) = u64 (x + y).
Proof. apply Z.add_mod_idemp_l. lia. Qed.

Lemma Forall_subslice {A} (P : A -> Prop) l off n k m :
  Forall P (slice l off n) -> 0 <= off -> 0 <= k -> 0 <= m -> k + m <= n ->
  Forall P (slice l (off + k) m).
Proof.
  intros Hf ? ? ? ?. replace n with (k + (m + (n - k - m))) in Hf by lia.
  rewrite !slice_app in Hf by lia. by apply Forall_app in Hf as [_ [? _]%Forall_app].
Qed.

(** The words before the last [n] have been added. *)
Definition dirty_inv self ws src off number negate (st : ewah_bitmap * Z * Z) : Prop :=
  let '(s, buffer, n) := st in
  0 <= n <= number /\ buffer = off + (number - n) /\
  (exists pre w lits ws0, ewah_at s pre w lits ws0 /\
     ws ++ neg_words negate (slice src off (number - n)) = ws0 ++ run_words w ++ lits /\
     (n = 0 -> pre = [] \/ 0 < rlw_get_running_len w + zlen lits)) /\
  eb_bit_size s = u64 (eb_bit_size self + (number - n) * 64).

(** What fits behind the current marker. *)
Lemma can_add_spec n (lits : list Z) (can_add := min_size n (RLW_LARGEST_LITERAL_COUNT - zlen lits)) :
  0 <= n -> 0 <= zlen lits <= RLW_LARGEST_LITERAL_COUNT ->
  0 <= can_add <= n /\ zlen lits + can_add <= RLW_LARGEST_LITERAL_COUNT /\ (can_add < n -> zlen lits + can_add = RLW_LARGEST_LITERAL_COUNT).
Proof. intros. unfold can_add, min_size. case_if; lia. Qed.

Lemma dirty_round self ws src off number negate s buffer n :
  Forall is_word (slice src off number) -> 0 <= off -> 0 <= number -> off + number <= zlen src -> is_word (eb_bit_size self) ->
  dirty_inv self ws src off number negate (s, buffer, n) ->
  exists r, dirty_step junk src negate (s, buffer, n) = Ret r /\
    match r with
    | inl st' => dirty_inv self ws src off number negate st' /\ 0 <= dirty_measure st' < dirty_measure (s, buffer, n)
    | inr self' => ewah_rep self' (ws ++ neg_words negate (slice src off number)) /\ eb_bit_size self' = u64 (eb_bit_size self + number * 64)
    end.
Proof.
  intros Hsrc Hoff Hnum Hle Hbs (Hn & -> & (pre & w & lits & ws0 & Hat & Hws & Hz) & Hb). pose proof rlw_literal_max as Hmax.
  unfold dirty_step. rewrite (at_get _ _ _ _ _ Hat). run. rewrite (at_literal _ _ _ _ _ Hat). cbv zeta.
  pose proof (zlen_nonneg lits). pose proof (at_literal _ _ _ _ _ Hat) as Hlit.
  pose proof (rlw_literal_words_range w (at_word _ _ _ _ _ Hat)) as Hlr. rewrite Hlit in Hlr.
  set (can_add := min_size n (RLW_LARGEST_LITERAL_COUNT - zlen lits)).
  destruct (can_add_spec n lits) as (Hca & Hca2 & Hca3); [lia|lia|]. fold can_add in Hca, Hca2, Hca3.
  set (xs := neg_words negate (slice src (off + (number - n)) can_add)).
  assert (zlen xs = can_add) as Hxl by (unfold xs; rewrite zlen_neg_words; apply zlen_slice; lia).
  assert (Forall is_word xs) as Hxw
    by (apply neg_words_word, (Forall_subslice _ _ off number); [done|lia..]).
  rewrite rd_range_in by lia. rewrite <-Hxl in Hca2 |- *.
  destruct (dirty_fill_spec _ _ _ _ _ xs Hat Hxw Hca2) as (s1 & buf & w' & -> & Hwr & Hat' & Hrw & Hrl & Hn1 & Hb1).
  run. cbn [buffer_grow eb_buffer_size eb_bit_size eb_rlw].
  fold (neg_words negate (slice src (off + (number - n)) (zlen xs))).
  replace (neg_words negate (slice src (off + (number - n)) (zlen xs))) with xs by (rewrite Hxl; done).
  rewrite Hwr. run. specialize (Hat' (u64 (eb_bit_size s1 + zlen xs * BITS_IN_EWORD))).
  assert (ws ++ neg_words negate (slice src off (number - (n - can_add))) =
    ws0 ++ run_words w' ++ lits ++ xs) as Hall.
  { replace (number - (n - can_add)) with (number - n + can_add) by lia.
    rewrite slice_app, neg_words_app, (assoc app), Hws, Hrw by lia. by rewrite <-!(assoc app). }
  assert (u64 (eb_bit_size s1 + zlen xs * BITS_IN_EWORD) =
    u64 (eb_bit_size self + (number - (n - can_add)) * 64)) as Hbits.
  { rewrite Hb1, Hb, u64_add_idemp, Hxl. unfold BITS_IN_EWORD. f_equal. lia. }
  case_if.
  - eexists. split; [done|]. cbv beta iota. rewrite Hxl in *.
    replace (number - (n - can_add)) with number in * by lia. split; [|done].
    eexists _, _, _, _. split; [exact Hat'|]. split; [done|]. rewrite zlen_app, Hrl, Hxl.
    pose proof (rlw_running_len_range w (at_word _ _ _ _ _ Hat)).
    destruct (Z.eq_dec n 0) as [Hn0|]; [|right; lia].
    destruct (Hz Hn0); [by left|right; lia].
  - destruct (at_push_rlw _ _ _ _ _ Hat') as (s2 & Hs2 & Hat2 & Hn2 & Hb2).
    { rewrite zlen_app, Hrl. pose proof (rlw_running_len_range w (at_word _ _ _ _ _ Hat)). lia. }
    rewrite Hs2. run. eexists. split; [done|]. cbv beta iota. rewrite Hxl in *. split.
    + split; [lia|]. split; [lia|]. split; [|by rewrite Hb2].
      eexists _, _, _, _. split; [exact Hat2|]. split; [|lia].
      destruct rlw_zero as (_ & Hz0 & _). unfold run_words at 2. rewrite Hz0.
      cbn [Z.to_nat replicate app]. by rewrite app_nil_r.
    + unfold dirty_measure. cbn [fst snd]. rewrite (at_get _ _ _ _ _ Hat2), (at_get _ _ _ _ _ Hat).
      destruct rlw_zero as (_ & _ & ->). rewrite Hlit, Hmax in *.
      replace (0 =? 2 ^ 31 - 1) with false by done. case_if; lia.
Qed.

Lemma ewah_add_dirty_words_spec self ws src off number negate :
  ewah_rep self ws -> Forall is_word (slice src off number) ->
  0 <= off -> 0 <= number -> off + number <= zlen src ->
  is_word (eb_bit_size self) ->
  exists self', ewah_add_dirty_words junk self src off number negate = Ret self' /\
    ewah_rep self' (ws ++ neg_words negate (slice src off number)) /\
    eb_bit_size self' = u64 (eb_bit_size self + number * 64).
Proof.
  intros Hrep Hsrc Hoff Hnum Hle Hbs. unfold ewah_add_dirty_words. pose proof rlw_literal_max as Hmax.
  apply (loop_ret (dirty_inv self ws src off number negate) dirty_measure).
  - intros [[s buffer] n] Hinv. by apply dirty_round.
  - destruct Hrep as (pre & w & lits & ws0 & Hat & Hws & Hz).
    split; [lia|]. split; [lia|]. rewrite Z.sub_diag, slice_0, Z.mul_0_l, Z.add_0_r, u64_small by done.
    split; [|done]. exists pre, w, lits, ws0. split; [done|]. split; [|done].
    rewrite <-Hws. destruct negate; cbn; by rewrite app_nil_r.
  - unfold dirty_measure. cbn [fst snd]. destruct (get_rlw self); [case_if|..]; lia.
Qed.

(** ** Setting a bit *)

(** Bit [k] of a list of words. *)
Definition wbit (ws : list Z) (k : Z) : bool :=
  Z.testbit (default 0 (ws !! Z.to_nat (k / 64))) (k mod 64).

Definition bit_word (i : Z) : Z := Z.shiftl 1 (i mod 64).

Lemma bit_word_word i : is_word (bit_word i).
Proof.
  unfold is_word, bit_word. rewrite Z.shiftl_1_l. pose proof (Z.mod_pos_bound i 64).
  split; [apply Z.pow_nonneg; lia|]. apply Z.pow_lt_mono_r; lia.
Qed.

Lemma testbit_bit_word i k :
  0 <= k -> Z.testbit (bit_word i) (k mod 64) = (k mod 64 =? i mod 64).
Proof.
  intros. unfold bit_word. rewrite Z.shiftl_1_l.
  rewrite Z.pow2_bits_eqb by (apply Z.mod_pos_bound; lia). apply Z.eqb_sym.
Qed.

(** The words of a bitmap that ends at bit [i], with that bit set. *)
Definition set_words (ws : list Z) (i : Z) : list Z :=
  if i / 64 <? zlen ws then
    <[Z.to_nat (i / 64) := Z.lor (default 0 (ws !! Z.to_nat (i / 64))) (bit_word i)]> ws
  else ws ++ replicate (Z.to_nat (i / 64 - zlen ws)) 0 ++ [bit_word i].

Lemma wbit_set_words ws i k : 0 <= i -> 0 <= k ->
  wbit (set_words ws i) k = wbit ws k || (k =? i).
Proof.
  intros Hi Hk. unfold wbit, set_words.
  assert ((k =? i) = (k / 64 =? i / 64) && (k mod 64 =? i mod 64)) as Heq.
  { apply eq_bool_prop_intro. rewrite !Is_true_true, andb_true_iff, !Z.eqb_eq.
    Z.to_euclidean_division_equations; lia. }
  rewrite Heq, <-testbit_bit_word by lia.
  assert (0 <= i / 64 /\ 0 <= k / 64) as [Hi6 Hk6] by (split; apply Z.div_pos; lia).
  clear Heq. revert Hi6 Hk6. generalize (i / 64) (k / 64). intros q r Hi6 Hk6.
  case_if.
  - destruct (Z.eqb_spec r q) as [->|].
    + rewrite list_lookup_insert_eq by (unfold zlen in *; lia). cbn [from_option id]. by rewrite Z.lor_spec.
    + rewrite list_lookup_insert_ne by lia. by rewrite orb_false_r.
  - destruct (decide (r < zlen ws)) as [Hlt|Hge].
    + rewrite lookup_app_l by (unfold zlen in *; lia).
      destruct (Z.eqb_spec r q); [lia|]. by rewrite orb_false_r.
    + rewrite lookup_app_r, (lookup_ge_None_2 ws) by (unfold zlen in *; lia). cbn [from_option id].
      rewrite Z.bits_0, orb_false_l.
      destruct (Z.eqb_spec r q) as [->|Hne].
      * rewrite lookup_app_r by (rewrite length_replicate; unfold zlen in *; lia).
        rewrite length_replicate.
        replace (_ - _)%nat with 0%nat by (unfold zlen in *; lia). done.
      * destruct (decide (r < q)).
        -- rewrite lookup_app_l by (rewrite length_replicate; unfold zlen in *; lia).
           rewrite lookup_replicate_2 by (unfold zlen in *; lia). by rewrite Z.bits_0.
        -- rewrite lookup_ge_None_2 by (rewrite length_app, length_replicate; simpl; unfold zlen in *; lia).
           cbn [from_option id]. by rewrite Z.bits_0.
Qed.

(** A bitmap built bit by bit: [bit_size] bits, and none set beyond. *)
Record ewah_bits (self : ewah_bitmap) (ws : list Z) : Prop := {
  bits_rep : ewah_rep self ws;
  bits_size : 0 <= eb_bit_size self < 2 ^ 64 - 1;
  bits_len : zlen ws = words_for (eb_bit_size self);
  bits_end k : eb_bit_size self <= k -> wbit ws k = false;
}.

Lemma words_for_succ i : 0 <= i -> words_for (i + 1) = i / 64 + 1.
Proof. intros. unfold words_for, BITS_IN_EWORD. Z.to_euclidean_division_equations; lia. Qed.

Lemma set_words_len ws i : 0 <= i -> zlen ws <= i / 64 + 1 -> zlen (set_words ws i) = i / 64 + 1.
Proof.
  intros Hi Hl. unfold set_words. case_if; [rewrite zlen_insert; lia|].
  rewrite !zlen_app, zlen_replicate, zlen_cons, zlen_nil. lia.
Qed.

(** The result of [ewah_set] is again such a bitmap. *)
Lemma ewah_bits_set self self' ws i :
  ewah_bits self ws -> eb_bit_size self <= i < 2 ^ 64 - 2 ->
  ewah_rep self' (set_words ws i) -> eb_bit_size self' = i + 1 ->
  ewah_bits self' (set_words ws i).
Proof.
  intros [Hrep Hs Hl He] Hi Hr Hb. split; rewrite ?Hb; [done|lia| |].
  - rewrite words_for_succ by lia. apply set_words_len; [lia|]. rewrite Hl.
    unfold words_for, BITS_IN_EWORD. Z.to_euclidean_division_equations; lia.
  - intros k Hk. rewrite wbit_set_words, He by lia. cbn [orb]. apply Z.eqb_neq. lia.
Qed.

Lemma set_words_last ws x i :
  i / 64 = zlen ws -> set_words (ws ++ [x]) i = ws ++ [Z.lor x (bit_word i)].
Proof.
  intros Hi. unfold set_words. rewrite zlen_snoc, Hi. case_if; [|lia].
  unfold zlen. rewrite Nat2Z.id, lookup_app_r, Nat.sub_diag by lia.
  by rewrite insert_app_r_alt, Nat.sub_diag by lia.
Qed.

Lemma wbit_snoc ws x k :
  k / 64 = zlen ws -> wbit (ws ++ [x]) k = Z.testbit x (k mod 64).
Proof.
  intros Hk. unfold wbit. rewrite Hk. unfold zlen.
  by rewrite Nat2Z.id, lookup_app_r, Nat.sub_diag by lia.
Qed.

Lemma segs_nil_words ws : segs [] ws -> ws = [].
Proof. by inversion 1. Qed.

(** Case 1: words are appended. *)
Lemma set_grow_spec self ws i dist :
  ewah_loose self ws -> 0 <= i -> dist = i / 64 + 1 - zlen ws -> 0 < dist ->
  exists self',
    (self ← (if dist >? 1 then
               '(self, _) ← add_empty_words junk self 0 (dist - 1);
               Ret self
             else Ret self);
     '(self, _) ← add_literal junk self (bit_word i);
     Ret self) = Ret self' /\
    ewah_rep self' (set_words ws i) /\ eb_bit_size self' = eb_bit_size self.
Proof.
  intros Hl Hi Hdist Hpos. unfold set_words. rewrite (proj2 (Z.ltb_ge (i / 64) (zlen ws))) by lia.
  assert (exists self1, (if dist >? 1 then
               '(self, _) ← add_empty_words junk self 0 (dist - 1);
               Ret self
             else Ret self) = Ret self1 /\
      ewah_loose self1 (ws ++ replicate (Z.to_nat (i / 64 - zlen ws)) 0) /\
      eb_bit_size self1 = eb_bit_size self) as (s1 & -> & Hl1 & Hb1).
  { case_if.
    - destruct (add_empty_words_spec self ws 0 (dist - 1) Hl) as (s1 & a & -> & Hr & Hb & _); [auto|lia|].
      run. eexists. split; [done|]. split; [|done].
      replace (i / 64 - zlen ws) with (dist - 1) by lia. by apply ewah_rep_loose.
    - exists self. replace (i / 64 - zlen ws) with 0 by lia. cbn [Z.to_nat replicate].
      by rewrite app_nil_r. }
  run. destruct (add_literal_spec s1 _ (bit_word i) Hl1 (bit_word_word i)) as (s2 & a & -> & Hr & Hb & _).
  run. eexists. split; [done|]. split; [by rewrite <-(assoc app) in Hr|congruence].
Qed.

(** Case 2: the last word is one of a run; it becomes a literal. *)
Lemma set_run_spec self pre w ws0 i :
  ewah_at self pre w [] ws0 -> (pre = [] \/ 0 < rlw_get_running_len w) ->
  i / 64 + 1 = zlen (ws0 ++ run_words w) -> 0 <= i ->
  wbit (ws0 ++ run_words w) i = false ->
  exists self1 self' added,
    set_rlw self (fun w => rlw_set_running_len w (rlw_get_running_len w - 1)) = Ret self1 /\
    add_literal junk self1 (bit_word i) = Ret (self', added) /\
    ewah_rep self' (set_words (ws0 ++ run_words w) i) /\ eb_bit_size self' = eb_bit_size self.
Proof.
  intros Hat Hne Hlast Hi Hbit. pose proof (at_word _ _ _ _ _ Hat) as Hw.
  pose proof (rlw_running_len_range w Hw) as Hrl.
  assert (0 <= i / 64) by (apply Z.div_pos; lia).
  assert (0 < rlw_get_running_len w) as Hpos.
  { destruct Hne as [->|]; [|done]. rewrite (segs_nil_words ws0 (at_segs _ _ _ _ _ Hat)) in Hlast.
    unfold run_words, zlen in Hlast. cbn [app] in Hlast. rewrite length_replicate in Hlast. lia. }
  set (rl := rlw_get_running_len w) in *.
  assert (run_words w = replicate (Z.to_nat (rl - 1)) (fill_word (rlw_get_run_bit w)) ++
    [fill_word (rlw_get_run_bit w)]) as Hrun.
  { unfold run_words. fold rl. replace (Z.to_nat rl) with (Z.to_nat (rl - 1) + 1)%nat by lia.
    by rewrite replicate_add. }
  set (init := ws0 ++ replicate (Z.to_nat (rl - 1)) (fill_word (rlw_get_run_bit w))).
  assert (ws0 ++ run_words w = init ++ [fill_word (rlw_get_run_bit w)]) as Hsplit
    by (unfold init; by rewrite Hrun, (assoc app)).
  rewrite Hsplit in Hlast, Hbit. rewrite Hsplit.
  rewrite zlen_snoc in Hlast. rewrite wbit_snoc in Hbit by lia.
  assert (fill_word (rlw_get_run_bit w) = 0) as Hzero.
  { unfold fill_word in *. case_if; [|done]. change (2 ^ 64 - 1) with (Z.ones 64) in Hbit.
    pose proof (Z.mod_pos_bound i 64). rewrite Z.testbit_ones_nonneg in Hbit by lia. zb. lia. }
  destruct (rlw_set_running_len_spec w (rl - 1) Hw) as (Hw' & Hb & Hr & Hl); [lia|].
  destruct (at_set _ _ _ _ _ (fun w => rlw_set_running_len w (rlw_get_running_len w - 1)) Hat Hw' Hl)
    as (s1 & -> & Hat1 & Hn1 & Hb1).
  assert (ewah_loose s1 init) as Hloose.
  { eexists _, _, _, _. split; [exact Hat1|]. cbv beta. fold rl.
    by rewrite run_words_set, app_nil_r by (done || lia). }
  destruct (add_literal_spec s1 _ (bit_word i) Hloose (bit_word_word i)) as (s2 & a & Hadd & Hrep & Hb2 & _).
  exists s1, s2, a. split; [done|]. split; [done|]. rewrite set_words_last, Hzero, Z.lor_0_l by lia.
  split; [done|congruence].
Qed.

(** Case 3: the last word is a literal; when it has become all ones it turns
    into a run. *)
Lemma set_literal_spec self pre w lits x ws0 i :
  ewah_at self pre w (lits ++ [x]) ws0 ->
  i / 64 = zlen (ws0 ++ run_words w ++ lits) ->
  exists buf self',
    rd (eb_buffer self) (eb_buffer_size self - 1) = Ret x /\
    wr (eb_buffer self) (eb_buffer_size self - 1) (Z.lor x (bit_word i)) = Ret buf /\
    rd buf (eb_buffer_size self - 1) = Ret (Z.lor x (bit_word i)) /\
    (if Z.lor x (bit_word i) =? 2 ^ 64 - 1 then
       buf ← wr buf (eb_buffer_size self - 1) 0;
       self ← set_rlw (EwahBitmap buf (eb_buffer_size self - 1) (eb_bit_size self) (eb_rlw self))
                (fun w => rlw_set_literal_words w (rlw_get_literal_words w - 1));
       '(self, _) ← add_empty_word junk self 1;
       Ret self
     else Ret (EwahBitmap buf (eb_buffer_size self) (eb_bit_size self) (eb_rlw self))) = Ret self' /\
    ewah_rep self' (set_words (ws0 ++ run_words w ++ lits ++ [x]) i) /\
    eb_bit_size self' = eb_bit_size self.
Proof.
  intros [[Hf Hr] Hs Hw Hls Hlit] Hi. set (y := Z.lor x (bit_word i)).
  apply Forall_app in Hls as [Hls Hx]. apply Forall_cons_iff in Hx as [Hx _].
  assert (is_word y) as Hy by (apply lor_lt; [lia|done|apply bit_word_word]).
  rewrite !(assoc app) in Hf. destruct (filled_last _ _ _ x y Hf) as (Hrd & buf & Hwr & Hf1).
  destruct (filled_last _ _ _ y 0 Hf1) as (Hrd1 & buf2 & Hwr2 & Hf2).
  assert (set_words (ws0 ++ run_words w ++ lits ++ [x]) i = (ws0 ++ run_words w ++ lits) ++ [y]) as ->.
  { replace (ws0 ++ run_words w ++ lits ++ [x]) with ((ws0 ++ run_words w ++ lits) ++ [x])
      by (by rewrite <-!(assoc app)). by apply set_words_last. }
  exists buf. fold y.
  pose proof (rlw_literal_words_range w Hw) as Hlr. rewrite Hlit, zlen_snoc in Hlr.
  destruct (y =? 2 ^ 64 - 1) eqn:E; zb.
  - rewrite Hwr2. run.
    set (s1 := EwahBitmap buf2 (eb_buffer_size self - 1) (eb_bit_size self) (eb_rlw self)).
    assert (layout s1 pre w lits) as Hlay.
    { split; [|done]. unfold s1. cbn [eb_buffer eb_buffer_size]. apply filled_prefix in Hf2 as Hf3.
      destruct Hf2 as [Hl2 _]. rewrite zlen_snoc in Hl2.
      replace (eb_buffer_size self - 1) with (zlen ((pre ++ [w]) ++ lits)) by lia.
      rewrite (assoc app pre [w] lits). exact Hf3. }
    pose proof (zlen_nonneg lits).
    destruct (rlw_set_literal_words_spec w (rlw_get_literal_words w - 1) Hw) as (Hw' & Hb & Hrl & Hc);
      [rewrite Hlit, zlen_snoc; lia|].
    destruct (lay_set _ _ _ _ (fun w => rlw_set_literal_words w (rlw_get_literal_words w - 1)) Hlay)
      as (s2 & -> & Hlay2 & _ & Hb2). run.
    assert (ewah_loose s2 (ws0 ++ run_words w ++ lits)) as Hloose.
    { eexists _, _, _, _. split.
      - split; [exact Hlay2|exact Hs|done|done|]. rewrite Hc, Hlit, zlen_snoc. lia.
      - unfold run_words. by rewrite Hb, Hrl. }
    destruct (add_empty_word_spec s2 _ 1 Hloose) as (s3 & a & -> & Hrep & Hb3 & _); [auto|]. run.
    exists s3. split; [done|]. split; [done|]. split; [done|]. split; [done|].
    split; [|rewrite Hb3; exact Hb2]. rewrite E. exact Hrep.
  - eexists. split; [done|]. split; [done|]. split; [done|]. split; [done|]. split; [|done].
    exists pre, w, (lits ++ [y]), ws0. split; [|split; [by rewrite <-!(assoc app)|]].
    + split; [split; [|done]|done|done|by apply Forall_app; split; [|constructor]|].
      * cbn [eb_buffer eb_buffer_size]. by rewrite !(assoc app).
      * rewrite Hlit. by rewrite !zlen_snoc.
    + right. rewrite zlen_snoc. pose proof (rlw_running_len_range w Hw). pose proof (zlen_nonneg lits). lia.
Qed.

Lemma ewah_set_spec self ws i :
  ewah_bits self ws -> eb_bit_size self <= i < 2 ^ 64 - 2 ->
  exists self', ewah_set junk self i = Ret self' /\ ewah_bits self' (set_words ws i) /\
    eb_bit_size self' = i + 1.
Proof.
  intros Hbits Hi. pose proof Hbits as [Hrep Hs Hl He].
  assert (exists self', ewah_set junk self i = Ret self' /\ ewah_rep self' (set_words ws i) /\
    eb_bit_size self' = i + 1) as (self' & ? & ? & ?); [|eauto 10 using ewah_bits_set].
  unfold ewah_set. case_if; [lia|]. cbv zeta. rewrite words_for_succ by lia. rewrite <-Hl.
  assert (zlen ws <= i / 64 + 1 < 2 ^ 64) as Hlen.
  { rewrite Hl. unfold words_for, BITS_IN_EWORD. Z.to_euclidean_division_equations; lia. }
  pose proof (zlen_nonneg ws).
  rewrite (u64_small (i / 64 + 1 - zlen ws)) by lia.
  fold (bit_word i). change (i mod BITS_IN_EWORD) with (i mod 64). fold (bit_word i).
  pose proof (ewah_rep_loose _ _ Hrep) as Hloose.
  apply (ewah_loose_bit_size _ _ (i + 1)) in Hloose.
  destruct (i / 64 + 1 - zlen ws >? 0) eqn:E; zb.
  { apply (set_grow_spec _ ws i _ Hloose); (done || lia). }
  assert (i / 64 + 1 = zlen ws) as Hlast by lia.
  destruct Hrep as (pre & w & lits & ws0 & [[Hf Hr] Hsg Hw Hls Hlit] & -> & Hne).
  assert (ewah_at (set_bit_size self (i + 1)) pre w lits ws0) as Hat by (by split; [split|..]).
  rewrite (at_get _ _ _ _ _ Hat). run. rewrite Hlit.
  destruct (zlen lits =? 0) eqn:E'; zb.
  - apply zlen_0_nil in E' as ->. rewrite app_nil_r in *. rewrite zlen_nil, Z.add_0_r in Hne.
    destruct (set_run_spec _ _ _ _ i Hat Hne) as (s1 & s2 & a & -> & Ha & Hrep & Hb);
      [done|lia|by apply He; lia|]. run. rewrite Ha. run. eauto.
  - destruct lits as [|x lits _] using rev_ind; [done|].
    rewrite !(assoc app), zlen_snoc, <-!(assoc app) in Hlast.
    destruct (set_literal_spec _ _ _ _ _ _ i Hat) as (buf & s' & Hrd & Hwr & Hrd1 & Hfin & Hrep & Hb); [lia|].
    cbn [set_bit_size eb_buffer eb_buffer_size eb_bit_size eb_rlw] in *.
    rewrite Hrd. run. rewrite Hwr. run. rewrite Hrd1. run. rewrite Hfin. eauto.
Qed.
End rep.
