(* ===== verification/EwahRead.v ===== *)
(** ewah/ewah_bitmap.c, reading: the word iterator and [ewah_each_bit].  The
    iterator yields exactly the words a bitmap stands for, whatever empty
    segments its buffer holds, and [ewah_each_bit] calls back the set bits in
    increasing order. *)
From S2P Require Import Prelude Headers Ewah.

Lemma rd_app_l {A} (l k : list A) i x : rd l i = Ret x -> rd (l ++ k) i = Ret x.
Proof.
  rewrite !rd_Ret. intros [? Hx]. split; [done|]. rewrite lookup_app_l; [done|].
  by apply lookup_lt_Some in Hx.
Qed.

Section read.
Context `{GitCompatOk, RlwOk}.

(** Segments, empty ones included. *)
Inductive lsegs : list Z -> list Z -> Prop :=
| lsegs_nil : lsegs [] []
| lsegs_cons w lits buf ws :
    is_word w -> Forall is_word lits -> rlw_get_literal_words w = zlen lits ->
    lsegs buf ws ->
    lsegs ((w :: lits) ++ buf) ((run_words w ++ lits) ++ ws).

Lemma lsegs_app b1 w1 b2 w2 : lsegs b1 w1 -> lsegs b2 w2 -> lsegs (b1 ++ b2) (w1 ++ w2).
Proof.
  induction 1; intros; [done|]. rewrite <-!(assoc app (_ :: _)), <-!(assoc app (_ ++ _)).
  constructor; auto.
Qed.

Lemma segs_lsegs b ws : segs b ws -> lsegs b ws.
Proof. induction 1; by constructor. Qed.

(** The buffer of a bitmap, as segments. *)
Lemma ewah_loose_lsegs self ws :
  ewah_loose self ws ->
  exists data, filled (eb_buffer self) (eb_buffer_size self) data /\ lsegs data ws /\ data <> [].
Proof.
  intros (pre & w & lits & ws0 & [[Hf _] Hs Hw Hl Hc] & ->).
  exists (pre ++ [w] ++ lits). split; [done|]. split; [|by destruct pre].
  apply lsegs_app; [by apply segs_lsegs|].
  rewrite <-(app_nil_r (run_words w ++ lits)), <-(app_nil_r ([w] ++ lits)).
  by apply (lsegs_cons w lits [] []); [..|constructor].
Qed.

(** ** The iterator *)

(** [it_rep data it ws]: the iterator over the buffer [data] has the words
    [ws] before it. *)
Definition it_rep (data : list Z) (it : ewah_iterator) (ws : list Z) : Prop :=
  filled (it_buffer it) (it_buffer_size it) data /\
  ((it_pointer it = it_buffer_size it /\ ws = []) \/
   exists w lits rest wsr,
     at_pos data (it_pointer it - it_literals it) ((w :: lits) ++ rest) /\
     is_word w /\ lsegs rest wsr /\
     it_rl it = rlw_get_running_len w /\ it_lw it = zlen lits /\ it_b it = rlw_get_run_bit w /\
     0 <= it_compressed it <= it_rl it /\ 0 <= it_literals it <= zlen lits /\
     (0 < it_literals it -> it_compressed it = it_rl it) /\
     ~ (it_compressed it = it_rl it /\ it_literals it = zlen lits) /\
     ws = replicate (Z.to_nat (it_rl it - it_compressed it)) (fill_word (it_b it)) ++
          drop (Z.to_nat (it_literals it)) lits ++ wsr).

Lemma read_new_rlw_spec it data rest ws :
  filled (it_buffer it) (it_buffer_size it) data ->
  at_pos data (it_pointer it) rest -> rest <> [] -> lsegs rest ws ->
  exists it', read_new_rlw it = Ret it' /\ it_rep data it' ws.
Proof.
  intros Hf Hp Hne Hs. unfold read_new_rlw.
  apply (loop_ret (fun it' => it_buffer it' = it_buffer it /\ it_buffer_size it' = it_buffer_size it /\
    it_compressed it' = 0 /\ it_literals it' = 0 /\
    exists rest, at_pos data (it_pointer it') rest /\ rest <> [] /\ lsegs rest ws)
    (fun it' => it_buffer_size it - it_pointer it')).
  - intros [buf size p c l rl lw b]. cbn [it_buffer it_buffer_size it_compressed it_literals it_pointer].
    intros (-> & -> & -> & -> & r & Hr & Hrne & Hrs). unfold read_rlw_step.
    destruct Hrs as [|w lits buf' ws' Hw Hl Hc Hs']; [done|].
    pose proof (at_pos_len _ _ _ Hr) as Hlen. pose proof (at_pos_nonneg _ _ _ Hr) as Hpp.
    cbn [app] in Hr. pose proof Hr as [Hrd Hr']%at_pos_cons.
    pose proof Hf as [Hsz [spare Hbuf]].
    rewrite Hbuf, (rd_app_l _ _ _ _ Hrd), <-Hbuf. run.
    rewrite zlen_app, zlen_cons in Hlen. pose proof (zlen_nonneg lits). pose proof (zlen_nonneg buf').
    pose proof (rlw_running_len_range w Hw) as Hrl. rewrite Hc.
    destruct (_ || _) eqn:E.
    + eexists. split; [done|]. cbv iota. split; [done|]. right.
      cbn [it_buffer it_buffer_size it_compressed it_literals it_pointer it_rl it_lw it_b].
      exists w, lits, buf', ws'. rewrite !Z.sub_0_r. split; [done|]. split; [done|].
      split; [done|]. split; [done|]. split; [done|]. split; [done|]. split; [lia|]. split; [lia|].
      split; [lia|]. split; [|by rewrite <-(assoc app)].
      intros [E1 E2]. rewrite <-E1, <-E2 in E. done.
    + apply orb_false_iff in E as [Hr0 Hl0]. apply tru_false in Hr0. apply tru_false, zlen_0_nil in Hl0 as ->.
      rewrite zlen_nil in *. rewrite app_nil_l in Hr'.
      assert ((run_words w ++ []) ++ ws' = ws') as Hrun.
      { unfold run_words. by rewrite Hr0. }
      rewrite Hrun in *.
      destruct (p <? it_buffer_size it - 1) eqn:E'; zb.
      * eexists. split; [done|]. cbv beta iota.
        cbn [it_buffer it_buffer_size it_compressed it_literals it_pointer].
        split; [|lia]. repeat (split; [done|]). exists buf'. split; [done|]. split; [|done].
        intros ->. rewrite zlen_nil in *. lia.
      * eexists. split; [done|]. cbv beta iota. split; [done|]. left.
        cbn [it_buffer_size it_pointer]. split; [done|].
        assert (zlen buf' = 0) as Hz by lia. apply zlen_0_nil in Hz as ->. by inversion Hs'.
  - cbn [it_buffer it_buffer_size it_compressed it_literals it_pointer]. eauto 10.
  - cbn [it_pointer]. pose proof (at_pos_nonneg _ _ _ Hp). destruct Hf as [? _]. lia.
Qed.

(** After the last word of a segment. *)
Lemma it_advance_spec it data rest ws :
  filled (it_buffer it) (it_buffer_size it) data ->
  at_pos data (it_pointer it) rest -> lsegs rest ws ->
  exists it', (if it_pointer it <? it_buffer_size it then read_new_rlw it else Ret it) = Ret it' /\
    it_rep data it' ws.
Proof.
  intros Hf Hp Hs. pose proof (at_pos_len _ _ _ Hp) as Hlen. pose proof Hf as [Hsz _].
  destruct (_ <? _) eqn:E; zb.
  - apply (read_new_rlw_spec it data rest ws Hf Hp); [|done]. intros ->. rewrite zlen_nil in *. lia.
  - exists it. split; [done|]. split; [done|]. left. pose proof (zlen_nonneg rest). split; [lia|].
    assert (zlen rest = 0) as Hz by lia. apply zlen_0_nil in Hz as ->. by inversion Hs.
Qed.

Lemma ewah_iterator_init_spec self ws :
  ewah_loose self ws ->
  exists data it, ewah_iterator_init self = Ret it /\ it_rep data it ws.
Proof.
  intros (data & Hf & Hs & _)%ewah_loose_lsegs. exists data.
  set (it := EwahIterator (eb_buffer self) (eb_buffer_size self) 0 0 0 0 0 0).
  apply (it_advance_spec it data data ws Hf (at_pos_0 data) Hs).
Qed.

Lemma it_next_spec data it ws :
  it_rep data it ws ->
  match ws with
  | [] => ewah_iterator_next it = Ret (None, it)
  | x :: ws => exists it', ewah_iterator_next it = Ret (Some x, it') /\ it_rep data it' ws
  end.
Proof.
  destruct it as [buf size p c l rl lw b]. unfold it_rep, ewah_iterator_next.
  cbn [it_buffer it_buffer_size it_compressed it_literals it_pointer it_rl it_lw it_b].
  intros [Hf [[-> ->]|(w & lits & rest & wsr & Hp & Hw & Hs & Hrl & -> & Hb & Hc & Hl & Hlc & Hne & ->)]].
  { rewrite Z.geb_leb, Z.leb_refl. done. }
  pose proof (at_pos_len _ _ _ Hp) as Hlen. rewrite zlen_app, zlen_cons in Hlen.
  pose proof (zlen_nonneg rest). pose proof Hf as [Hsz [spare Hbuf]].
  case_if; [lia|].
  (* where the next segment starts *)
  assert (at_pos data (p - l + 1 + zlen lits) rest) as Hrest.
  { change (w :: lits) with ([w] ++ lits) in Hp. rewrite <-(assoc app) in Hp.
    apply at_pos_app in Hp as [_ Hp]. by apply at_pos_app in Hp as [_ Hp]. }
  destruct (c <? rl) eqn:E; zb.
  - assert (l = 0) as -> by lia. run. rewrite Z.sub_0_r in *. cbn [Z.to_nat drop].
    replace (Z.to_nat (rl - c)) with (S (Z.to_nat (rl - (c + 1)))) by lia. cbn [replicate app].
    destruct (_ && _) eqn:E'; zb.
    + symmetry in H5. apply zlen_0_nil in H5 as ->. rewrite zlen_nil, Z.add_0_r in *.
      destruct (it_advance_spec (EwahIterator buf size (p + 1) (c + 1) 0 rl 0 b) data rest wsr Hf Hrest Hs)
        as (it' & Hadv & Hrep). cbn [it_pointer it_buffer_size] in Hadv. rewrite Hadv. run.
      eexists. split; [done|]. replace (rl - (c + 1)) with 0 by lia. exact Hrep.
    + run. eexists. split; [done|]. split; [done|]. right.
      cbn [it_buffer it_buffer_size it_compressed it_literals it_pointer it_rl it_lw it_b].
      exists w, lits, rest, wsr. rewrite Z.sub_0_r. by repeat (split; [done || lia|]).
  - assert (c = rl) as -> by lia. case_if; [lia|].
    rewrite Z.sub_diag in *. cbn [Z.to_nat replicate app].
    case_if; [lia|].
    destruct (lookup_lt_is_Some_2 lits (Z.to_nat l)) as [x Hx]; [unfold zlen in *; lia|].
    rewrite (drop_S _ _ _ Hx). cbn [app].
    assert (rd buf (p + 1) = Ret x) as ->.
    { rewrite Hbuf. apply rd_app_l, rd_Ret. destruct Hp as [Hpos Hd]. split; [lia|].
      replace (Z.to_nat (p + 1)) with (Z.to_nat (p - l) + S (Z.to_nat l))%nat by lia.
      rewrite <-lookup_drop, Hd. change ((lits ++ rest) !! Z.to_nat l = Some x).
      by rewrite lookup_app_l by (by apply lookup_lt_Some in Hx). }
    run. destruct (_ && _) eqn:E'; zb.
    + replace (p - l + 1 + zlen lits) with (p + 1 + 1) in Hrest by lia.
      destruct (it_advance_spec (EwahIterator buf size (p + 1 + 1) rl (l + 1) rl (zlen lits) b) data rest wsr
        Hf Hrest Hs) as (it' & Hadv & Hrep). cbn [it_pointer it_buffer_size] in Hadv. rewrite Hadv. run.
      eexists. split; [done|]. rewrite drop_ge by (unfold zlen in *; lia). exact Hrep.
    + run. eexists. split; [done|]. split; [done|]. right.
      cbn [it_buffer it_buffer_size it_compressed it_literals it_pointer it_rl it_lw it_b].
      exists w, lits, rest, wsr. replace (p + 1 - (l + 1)) with (p - l) by lia.
      repeat (split; [done || lia|]). rewrite Z.sub_diag. cbn [Z.to_nat replicate app].
      by replace (Z.to_nat (l + 1)) with (S (Z.to_nat l)) by lia.
Qed.

(** ** Visiting the bits *)

Fixpoint bits_from (pos : Z) (ws : list Z) : list Z :=
  match ws with
  | [] => []
  | w :: ws => word_calls w pos ++ bits_from (pos + 64) ws
  end.

Lemma bits_from_app pos ws1 ws2 :
  bits_from pos (ws1 ++ ws2) = bits_from pos ws1 ++ bits_from (pos + 64 * zlen ws1) ws2.
Proof.
  revert pos. induction ws1 as [|w ws1 IH]; intros pos; cbn [bits_from app].
  - by rewrite zlen_nil, Z.add_0_r.
  - rewrite IH, (assoc app), zlen_cons. do 2 f_equal. lia.
Qed.

Lemma word_calls_0 pos : word_calls 0 pos = [].
Proof. reflexivity. Qed.

Lemma run_calls_add pos a b :
  0 <= a -> 0 <= b -> run_calls pos (a + b) = run_calls pos a ++ run_calls (pos + a) b.
Proof.
  intros. unfold run_calls. rewrite Z2Nat.inj_add, seq_app, fmap_app by lia. f_equal.
  replace (seq (0 + Z.to_nat a) (Z.to_nat b)) with (Nat.add (Z.to_nat a) <$> seq 0 (Z.to_nat b))
    by (rewrite fmap_add_seq; f_equal; lia).
  rewrite <-list_fmap_compose. apply list_fmap_ext. intros _ k _.
  unfold compose. lia.
Qed.

Lemma word_calls_ones pos : word_calls (2 ^ 64 - 1) pos = run_calls pos 64.
Proof. reflexivity. Qed.

Lemma bits_from_run n b pos :
  bits_from pos (replicate n (fill_word b)) =
    if tru b then run_calls pos (Z.of_nat n * BITS_IN_EWORD) else [].
Proof.
  unfold fill_word, BITS_IN_EWORD. revert pos. induction n as [|n IH]; intros pos; cbn [replicate bits_from].
  - by destruct (tru b).
  - rewrite IH. destruct (tru b); [|by rewrite word_calls_0].
    rewrite word_calls_ones. replace (Z.of_nat (S n) * 64) with (64 + Z.of_nat n * 64) by lia.
    by rewrite run_calls_add by lia.
Qed.

Lemma literal_calls_spec data spare lits rest pos p calls :
  at_pos data p (lits ++ rest) ->
  literal_calls (length lits) (data ++ spare) p pos calls =
    Ret (calls ++ bits_from pos lits, pos + 64 * zlen lits, p + zlen lits) /\
  at_pos data (p + zlen lits) rest.
Proof.
  revert p pos calls. induction lits as [|x lits IH]; intros p pos calls Hp; cbn [length literal_calls bits_from].
  - rewrite zlen_nil, Z.mul_0_r, !Z.add_0_r, app_nil_r. done.
  - cbn [app] in Hp. apply at_pos_cons in Hp as [Hrd Hp]. rewrite (rd_app_l _ _ _ _ Hrd). run.
    destruct (IH (p + 1) (pos + BITS_IN_EWORD) (calls ++ word_calls x pos) Hp) as [-> Hp'].
    rewrite zlen_cons, <-(assoc app). unfold BITS_IN_EWORD.
    replace (pos + 64 + 64 * zlen lits) with (pos + 64 * (1 + zlen lits)) by lia.
    replace (p + 1 + zlen lits) with (p + (1 + zlen lits)) in * by lia. done.
Qed.

Lemma ewah_each_bit_calls self ws :
  ewah_loose self ws -> ewah_each_bit self = Ret (bits_from 0 ws).
Proof.
  intros (data & Hf & Hs & _)%ewah_loose_lsegs. pose proof Hf as [Hsz [spare Hbuf]].
  unfold ewah_each_bit. pose proof (zlen_nonneg data).
  destruct (loop_ret (fun '(calls, pos, pointer) => exists rest wsd wsr, at_pos data pointer rest /\
      lsegs rest wsr /\ ws = wsd ++ wsr /\ pos = 64 * zlen wsd /\ calls = bits_from 0 wsd)
    (fun st => eb_buffer_size self - st.2) (S (Z.to_nat (eb_buffer_size self))) (each_bit_step self)
    ([], 0, 0) (fun calls => calls = bits_from 0 ws)) as (b & -> & ->); [|..|done].
  - intros [[calls pos] p] (rest & wsd & wsr & Hp & Hsr & -> & -> & ->). unfold each_bit_step.
    pose proof (at_pos_len _ _ _ Hp) as Hlen. cbn [snd].
    case_if.
    + eexists. split; [done|]. cbv iota. pose proof (zlen_nonneg rest).
      assert (zlen rest = 0) as Hz by lia. apply zlen_0_nil in Hz as ->. inversion Hsr. by rewrite app_nil_r.
    + destruct Hsr as [|w lits buf' ws' Hw Hl Hc Hs']; [rewrite zlen_nil in *; lia|].
      pose proof (at_pos_nonneg _ _ _ Hp). cbn [app] in Hp. apply at_pos_cons in Hp as [Hrd Hp].
      rewrite Hbuf, (rd_app_l _ _ _ _ Hrd). run. cbv zeta. rewrite Hc.
      replace (Z.to_nat (zlen lits)) with (length lits) by (unfold zlen; lia).
      pose proof (rlw_running_len_range w Hw).
      destruct (literal_calls_spec data spare lits buf'
        (64 * zlen wsd + rlw_get_running_len w * BITS_IN_EWORD) (p + 1)
        (if tru (rlw_get_run_bit w)
         then bits_from 0 wsd ++ run_calls (64 * zlen wsd) (rlw_get_running_len w * BITS_IN_EWORD)
         else bits_from 0 wsd) Hp) as [-> Hp']. run.
      eexists. split; [done|]. cbv beta iota. cbn [snd].
      pose proof (zlen_nonneg lits). pose proof (at_pos_nonneg _ _ _ Hp').
      split; [|lia]. exists buf', (wsd ++ run_words w ++ lits), ws'.
      split; [done|]. split; [done|]. split; [by rewrite <-!(assoc app)|].
      assert (zlen (run_words w) = rlw_get_running_len w) as Hrl.
      { unfold run_words. rewrite zlen_replicate. lia. }
      rewrite !zlen_app, Hrl. unfold BITS_IN_EWORD. split; [lia|].
      rewrite !bits_from_app, Hrl, !Z.add_0_l. unfold run_words. rewrite bits_from_run.
      rewrite Z2Nat.id by lia. unfold BITS_IN_EWORD.
      replace (rlw_get_running_len w * 64) with (64 * rlw_get_running_len w) by lia.
      destruct (tru _); [by rewrite <-(assoc app)|done].
  - exists data, [], ws. split; [apply at_pos_0|]. done.
  - cbn [snd]. lia.
Qed.

Lemma wbit_app_l ws1 ws2 k : 0 <= k < 64 * zlen ws1 -> wbit (ws1 ++ ws2) k = wbit ws1 k.
Proof.
  intros Hk. unfold wbit. rewrite lookup_app_l; [done|].
  assert (0 <= k / 64 < zlen ws1) by (Z.to_euclidean_division_equations; lia). unfold zlen in *. lia.
Qed.

Lemma run_calls_elem pos n k : k ∈ run_calls pos n -> pos <= k < pos + Z.max 0 n.
Proof. unfold run_calls. intros (j & -> & [_ Hj]%elem_of_seq)%list_elem_of_fmap. lia. Qed.

Lemma filter_ext_in {A} (P Q : A -> bool) (l : list A) :
  (forall x, x ∈ l -> P x = Q x) -> filter P l = filter Q l.
Proof.
  intros Hext. induction l as [|x l IH]; [done|].
  rewrite !filter_cons, Hext by set_solver. by rewrite IH by set_solver.
Qed.

Lemma filter_map {A B} (f : A -> B) (P : B -> bool) (l : list A) :
  filter P (f <$> l) = f <$> filter (fun x => P (f x)) l.
Proof.
  induction l as [|x l IH]; [done|]. rewrite fmap_cons, !filter_cons, IH.
  by destruct (decide (P (f x))).
Qed.

(** The calls are the set bits, in increasing order. *)
Lemma bits_from_filter ws :
  bits_from 0 ws = filter (fun k => wbit ws k) (run_calls 0 (64 * zlen ws)).
Proof.
  induction ws as [|w ws IH] using rev_ind; [done|].
  rewrite bits_from_app, IH, zlen_snoc. replace (64 * (zlen ws + 1)) with (64 * zlen ws + 64) by lia.
  pose proof (zlen_nonneg ws). rewrite run_calls_add, filter_app by lia. f_equal.
  - apply filter_ext_in. intros k [? ?]%run_calls_elem. symmetry. apply wbit_app_l. lia.
  - cbn [bits_from]. rewrite app_nil_r, Z.add_0_l. unfold word_calls, run_calls.
    rewrite filter_map. f_equal. apply filter_ext_in. intros c [_ Hc]%elem_of_seq.
    rewrite wbit_snoc.
    + replace ((64 * zlen ws + Z.of_nat c) mod 64) with (Z.of_nat c)
        by (Z.to_euclidean_division_equations; lia).
      by rewrite tru_land_bit by lia.
    + Z.to_euclidean_division_equations; lia.
Qed.
End read.
