(* ===== verification/EwahXor.v ===== *)
(** ewah/ewah_rlw.c and [ewah_xor]: reading a bitmap segment by segment and
    combining two of them.  The theorem is that the result stands for the
    exclusive or of the words of both bitmaps, the shorter one extended with
    zeros. *)
From S2P Require Import Prelude Headers Ewah EwahRead.

(** * Model *)

Record rlw_iterator := RlwIterator {
  ri_buffer : list Z;
  ri_size : Z;
  ri_pointer : Z;
  ri_literal_word_start : Z;
  (* rlw *)
  ri_literal_words : Z;
  ri_running_len : Z;
  ri_literal_word_offset : Z;
  ri_running_bit : Z;
}.

Section model.
Context `{GitCompat, Rlw}.
Context (junk : Z).

Definition word_size (it : rlw_iterator) : Z :=
  rlwit_word_size (ri_running_len it) (ri_literal_words it).

(** Returns [None] for [return 0]. *)
Definition next_word (it : rlw_iterator) : outcome (option rlw_iterator) :=
  if ri_pointer it >=? ri_size it then Ret None else
  word ← rd (ri_buffer it) (ri_pointer it);
  Ret (Some (RlwIterator (ri_buffer it) (ri_size it)
    (ri_pointer it + (rlw_get_literal_words word + 1)) (ri_literal_word_start it)
    (rlw_get_literal_words word) (rlw_get_running_len word) 0 (rlw_get_run_bit word))).

(** [it->literal_word_start = rlwit_literal_words(it) + it->rlw.literal_word_offset] *)
Definition start_literals (it : rlw_iterator) : rlw_iterator :=
  RlwIterator (ri_buffer it) (ri_size it) (ri_pointer it)
    (rlwit_literal_words (ri_pointer it) (ri_literal_words it) + ri_literal_word_offset it)
    (ri_literal_words it) (ri_running_len it) (ri_literal_word_offset it) (ri_running_bit it).

(** An empty buffer would leave [it->rlw] uninitialised. *)
Definition rlwit_init (from_ewah : ewah_bitmap) : outcome rlw_iterator :=
  r ← next_word (RlwIterator (eb_buffer from_ewah) (eb_buffer_size from_ewah) 0 0 0 0 0 0);
  match r with
  | Some it => Ret (start_literals it)
  | None => Undef
  end.

(** One round of [while (x > 0)]. *)
Definition discard_step (st : rlw_iterator * Z) : outcome ((rlw_iterator * Z) + rlw_iterator) :=
  let '(it, x) := st in
  if negb (x >? 0) then Ret (inr it) else
  let '(RlwIterator buf size pointer start lw rl off b) := it in
  if rl >? x then Ret (inr (RlwIterator buf size pointer start lw (rl - x) off b)) else
  let x := x - rl in
  let discard := if x >? lw then lw else x in
  let it := RlwIterator buf size pointer (start + discard) (lw - discard) 0 off b in
  let x := x - discard in
  if (x >? 0) || (word_size it =? 0) then
    r ← next_word it;
    match r with
    | None => Ret (inr it)
    | Some it => Ret (inl (start_literals it, x))
    end
  else Ret (inl (it, x)).

Definition rlwit_discard_first_words (it : rlw_iterator) (x : Z) : outcome rlw_iterator :=
  loop (S (S (Z.to_nat (ri_size it - ri_pointer it)))) discard_step (it, x).

(** A bound on the blocks (runs and groups of literals) before an iterator. *)
Definition blocks_left (it : rlw_iterator) : Z :=
  3 * (ri_size it - ri_pointer it) + (if ri_running_len it >? 0 then 1 else 0) +
    (if ri_literal_words it >? 0 then 1 else 0).

(** One round of [rlwit_discharge]; the state is [it], [out] and [index]. *)
Definition discharge_step (max : Z) (negate : bool) (st : rlw_iterator * ewah_bitmap * Z)
    : outcome ((rlw_iterator * ewah_bitmap * Z) + (rlw_iterator * ewah_bitmap * Z)) :=
  let '(it, out, index) := st in
  if negb ((index <? max) && (word_size it >? 0)) then Ret (inr st) else
  let pl := ri_running_len it in
  let pl := if u64 (index + pl) >? max then max - index else pl in
  '(out, _) ← ewah_add_empty_words junk out (Z.lxor (ri_running_bit it) (Z.b2z negate)) pl;
  let index := index + pl in
  let pd := ri_literal_words it in
  let pd := if u64 (pd + index) >? max then max - index else pd in
  out ← ewah_add_dirty_words junk out (ri_buffer it) (ri_literal_word_start it) pd negate;
  it ← rlwit_discard_first_words it (pd + pl);
  Ret (inl (it, out, index + pd)).

Definition rlwit_discharge (it : rlw_iterator) (out : ewah_bitmap) (max : Z) (negate : bool)
    : outcome (rlw_iterator * ewah_bitmap * Z) :=
  loop (S (S (Z.to_nat (blocks_left it)))) (discharge_step max negate) (it, out, 0).

(** ** Exclusive or *)

(** One round of the inner loop on prey and predator. *)
Definition eat (prey predator : rlw_iterator) (out : ewah_bitmap)
    : outcome (rlw_iterator * rlw_iterator * ewah_bitmap) :=
  let negate_words := tru (ri_running_bit predator) in
  '(prey, out, index) ← rlwit_discharge prey out (ri_running_len predator) negate_words;
  '(out, _) ← ewah_add_empty_words junk out (Z.b2z negate_words) (ri_running_len predator - index);
  predator ← rlwit_discard_first_words predator (ri_running_len predator);
  Ret (prey, predator, out).

(** [while (rlw_i.rlw.running_len > 0 || rlw_j.rlw.running_len > 0)]. *)
Definition runs_step (st : rlw_iterator * rlw_iterator * ewah_bitmap)
    : outcome ((rlw_iterator * rlw_iterator * ewah_bitmap) +
               (rlw_iterator * rlw_iterator * ewah_bitmap)) :=
  let '(rlw_i, rlw_j, out) := st in
  if negb ((ri_running_len rlw_i >? 0) || (ri_running_len rlw_j >? 0)) then Ret (inr st) else
  if ri_running_len rlw_i <? ri_running_len rlw_j then
    '(prey, predator, out) ← eat rlw_i rlw_j out;
    Ret (inl (prey, predator, out))
  else
    '(prey, predator, out) ← eat rlw_j rlw_i out;
    Ret (inl (predator, prey, out)).

(** [for (k = 0; k < literals; ++k) ewah_add(out, ... ^ ...)]. *)
Fixpoint xor_literals (n : nat) (k : Z) (rlw_i rlw_j : rlw_iterator) (out : ewah_bitmap)
    : outcome ewah_bitmap :=
  match n with
  | O => Ret out
  | S n =>
      a ← rd (ri_buffer rlw_i) (ri_literal_word_start rlw_i + k);
      b ← rd (ri_buffer rlw_j) (ri_literal_word_start rlw_j + k);
      '(out, _) ← ewah_add junk out (Z.lxor a b);
      xor_literals n (k + 1) rlw_i rlw_j out
  end.

(** One round of the outer loop. *)
Definition xor_step (st : rlw_iterator * rlw_iterator * ewah_bitmap)
    : outcome ((rlw_iterator * rlw_iterator * ewah_bitmap) +
               (rlw_iterator * rlw_iterator * ewah_bitmap)) :=
  let '(rlw_i, rlw_j, out) := st in
  if negb ((word_size rlw_i >? 0) && (word_size rlw_j >? 0)) then Ret (inr st) else
  '(rlw_i, rlw_j, out) ←
    loop (S (Z.to_nat (blocks_left rlw_i + blocks_left rlw_j))) runs_step (rlw_i, rlw_j, out);
  let literals := min_size (ri_literal_words rlw_i) (ri_literal_words rlw_j) in
  if tru literals then
    out ← xor_literals (Z.to_nat literals) 0 rlw_i rlw_j out;
    rlw_i ← rlwit_discard_first_words rlw_i literals;
    rlw_j ← rlwit_discard_first_words rlw_j literals;
    Ret (inl (rlw_i, rlw_j, out))
  else Ret (inl (rlw_i, rlw_j, out)).

Definition ewah_xor (ewah_i ewah_j out : ewah_bitmap) : outcome ewah_bitmap :=
  rlw_i ← rlwit_init ewah_i;
  rlw_j ← rlwit_init ewah_j;
  '(rlw_i, rlw_j, out) ←
    loop (S (S (Z.to_nat (blocks_left rlw_i + blocks_left rlw_j)))) xor_step (rlw_i, rlw_j, out);
  '(_, out, _) ←
    (if word_size rlw_i >? 0 then rlwit_discharge rlw_i out (2 ^ 64 - 1) false
     else rlwit_discharge rlw_j out (2 ^ 64 - 1) false);
  Ret (set_bit_size out (max_size (eb_bit_size ewah_i) (eb_bit_size ewah_j))).
End model.

(** * The segment iterator *)

Section rlwit.
Context `{GitCompatOk, RlwOk}.
Context (junk : Z).

(** [rit_rep data it ws]: the words before the iterator are [ws]; only at the
    end is its segment empty. *)
Record rit_at (data : list Z) (it : rlw_iterator) (lits rest wsr : list Z) : Prop := {
  rit_filled : filled (ri_buffer it) (ri_size it) data;
  rit_rest : at_pos data (ri_pointer it) rest;
  rit_segs : segs rest wsr;
  rit_start : at_pos data (ri_literal_word_start it) (lits ++ rest);
  rit_lits : Forall is_word lits;
  rit_lw : ri_literal_words it = zlen lits;
  rit_rl : 0 <= ri_running_len it;
  rit_off : ri_literal_word_offset it = 0;
  rit_bit : ri_running_bit it = 0 \/ ri_running_bit it = 1;
}.

Definition rit_words (it : rlw_iterator) (lits wsr : list Z) : list Z :=
  replicate (Z.to_nat (ri_running_len it)) (fill_word (ri_running_bit it)) ++ lits ++ wsr.

Definition rit_rep (data : list Z) (it : rlw_iterator) (ws : list Z) : Prop :=
  exists lits rest wsr, rit_at data it lits rest wsr /\ ws = rit_words it lits wsr /\
    (ri_running_len it + zlen lits = 0 -> rest = []).

Lemma rit_rep_end data it ws : rit_rep data it ws -> word_size it = 0 -> ws = [].
Proof.
  intros (lits & rest & wsr & Hat & -> & Hend) Hz. unfold word_size in Hz.
  rewrite rlwit_word_size_spec, (rit_lw _ _ _ _ _ Hat) in Hz.
  pose proof (zlen_nonneg lits). pose proof (rit_rl _ _ _ _ _ Hat).
  rewrite (Hend Hz) in Hat. pose proof (segs_nil_words _ (rit_segs _ _ _ _ _ Hat)) as ->.
  assert (zlen lits = 0) as Hl by lia. apply zlen_0_nil in Hl as ->.
  unfold rit_words. by replace (ri_running_len it) with 0 by lia.
Qed.

(** Moving to the next segment. *)
Lemma next_word_spec data it lits rest wsr :
  rit_at data it lits rest wsr ->
  match rest with
  | [] => next_word it = Ret None
  | _ => exists it', next_word it = Ret (Some it') /\ rit_rep data (start_literals it') wsr /\
      0 < word_size (start_literals it') /\
      ri_pointer it < ri_pointer it' <= ri_size it /\ ri_size it' = ri_size it
  end.
Proof.
  intros [Hf Hp Hs Hst Hl Hlw Hrl Hoff Hb]. unfold next_word.
  pose proof (at_pos_len _ _ _ Hp) as Hlen. pose proof Hf as [Hsz [spare Hbuf]].
  destruct Hs as [|w lits' buf ws Hw Hl' Hc Hpos Hs].
  - rewrite zlen_nil in Hlen. case_if; [done|lia].
  - rewrite zlen_app, zlen_cons in Hlen. pose proof (zlen_nonneg lits'). pose proof (zlen_nonneg buf).
    pose proof (at_pos_nonneg _ _ _ Hp). cbn [app] in Hp |- *. case_if; [lia|].
    apply at_pos_cons in Hp as [Hrd Hp].
    rewrite Hbuf, (rd_app_l _ _ _ _ Hrd), <-Hbuf. run.
    eexists. split; [done|].
    unfold start_literals, word_size.
    cbn [ri_buffer ri_size ri_pointer ri_literal_word_start ri_literal_words ri_running_len
      ri_literal_word_offset ri_running_bit].
    rewrite rlwit_literal_words_spec, rlwit_word_size_spec, Hc.
    split; [|split; [lia|split; [lia|done]]].
    exists lits', buf, ws. unfold rit_words.
    cbn [ri_buffer ri_size ri_pointer ri_literal_word_start ri_literal_words ri_running_len
      ri_literal_word_offset ri_running_bit].
    split; [|split; [by rewrite <-(assoc app)|lia]].
    replace (ri_pointer it + (zlen lits' + 1)) with (ri_pointer it + 1 + zlen lits') by lia.
    split; cbn [ri_buffer ri_size ri_pointer ri_literal_word_start ri_literal_words ri_running_len
      ri_literal_word_offset ri_running_bit]; try done.
    + by apply at_pos_app in Hp as [_ Hp].
    + by replace (ri_pointer it + 1 + zlen lits' - zlen lits' + 0) with (ri_pointer it + 1) by lia.
    + by apply rlw_running_len_range.
    + by apply rlw_run_bit_range.
Qed.

Lemma rlwit_init_spec self ws :
  ewah_rep self ws -> exists data it, rlwit_init self = Ret it /\ rit_rep data it ws /\ ri_pointer it <= ri_size it.
Proof.
  intros (pre & w & lits & ws0 & [[Hf Hr] Hs Hw Hl Hlit] & -> & Hne).
  exists (pre ++ [w] ++ lits). unfold rlwit_init.
  set (it0 := RlwIterator (eb_buffer self) (eb_buffer_size self) 0 0 0 0 0 0).
  destruct (Z.eq_dec (rlw_get_running_len w + zlen lits) 0) as [Hz|Hz].
  - (* the empty bitmap *)
    destruct Hne as [->|]; [|lia]. rewrite (segs_nil_words _ Hs). pose proof (zlen_nonneg lits).
    pose proof (rlw_running_len_range w Hw). assert (zlen lits = 0) as Hl0 by lia.
    apply zlen_0_nil in Hl0 as ->. unfold next_word. pose proof Hf as [Hsz [spare Hbuf]].
    cbn [app] in *. rewrite zlen_cons, zlen_nil in Hsz. unfold it0. cbn [ri_pointer ri_size ri_buffer].
    rewrite <-Hsz. rewrite Hbuf. cbn [app Z.geb Z.compare]. rewrite (proj1 (at_pos_cons (w :: spare) 0 w spare (at_pos_0 _))).
    run. rewrite Hlit, zlen_nil. replace (rlw_get_running_len w) with 0 by lia. eexists. split; [done|].
    split; [|done]. exists [], [], []. unfold start_literals, rit_words, run_words.
    replace (rlw_get_running_len w) with 0 by lia.
    split; [|done]. rewrite rlwit_literal_words_spec. cbn.
    split; cbn; try done; [split; [done|by exists spare]|constructor|by apply rlw_run_bit_range].
  - assert (rit_at (pre ++ [w] ++ lits) it0 [] (pre ++ [w] ++ lits) (ws0 ++ run_words w ++ lits)) as Hat.
    { pose proof (rlw_running_len_range w Hw). pose proof (zlen_nonneg lits).
      split; cbn; try done; [apply at_pos_0| |apply at_pos_0|auto].
      apply segs_app; [done|]. by apply segs_one; [..|lia]. }
    apply next_word_spec in Hat as Hn.
    destruct (pre ++ [w] ++ lits) eqn:E; [by destruct pre|]. rewrite <-E in *.
    destruct Hn as (it' & -> & Hrep & _ & Hp & Hsize). run. eexists. split; [done|]. split; [done|].
    unfold start_literals. cbn [ri_pointer ri_size]. lia.
Qed.

(** The words of the first block. *)
Definition head_len (it : rlw_iterator) : Z :=
  if ri_running_len it >? 0 then ri_running_len it else ri_literal_words it.

(** Dropping part of the run. *)
Lemma rit_drop_run data it lits rest wsr x :
  rit_at data it lits rest wsr -> 0 <= x <= ri_running_len it ->
  let it' := RlwIterator (ri_buffer it) (ri_size it) (ri_pointer it) (ri_literal_word_start it)
               (ri_literal_words it) (ri_running_len it - x) (ri_literal_word_offset it)
               (ri_running_bit it) in
  rit_at data it' lits rest wsr /\
  drop (Z.to_nat x) (rit_words it lits wsr) = rit_words it' lits wsr.
Proof.
  intros [Hf Hp Hs Hst Hl Hlw Hrl Hoff Hb] Hx it'. split.
  - split; unfold it'; cbn [ri_buffer ri_size ri_pointer ri_literal_word_start ri_literal_words
      ri_running_len ri_literal_word_offset ri_running_bit]; (done || lia).
  - unfold rit_words, it'. cbn [ri_running_len ri_running_bit].
    rewrite drop_app_le by (rewrite length_replicate; lia). rewrite drop_replicate. do 2 f_equal. lia.
Qed.

(** Dropping literals once the run is used up. *)
Lemma rit_drop_lits data it lits rest wsr d :
  rit_at data it lits rest wsr -> 0 <= d <= zlen lits ->
  let it' := RlwIterator (ri_buffer it) (ri_size it) (ri_pointer it) (ri_literal_word_start it + d)
               (ri_literal_words it - d) 0 (ri_literal_word_offset it) (ri_running_bit it) in
  rit_at data it' (drop (Z.to_nat d) lits) rest wsr /\
  rit_words it' (drop (Z.to_nat d) lits) wsr =
    drop (Z.to_nat (ri_running_len it + d)) (rit_words it lits wsr).
Proof.
  intros [Hf Hp Hs Hst Hl Hlw Hrl Hoff Hb] Hd it'. split.
  - split; unfold it'; cbn [ri_buffer ri_size ri_pointer ri_literal_word_start ri_literal_words
      ri_running_len ri_literal_word_offset ri_running_bit]; try (done || lia).
    + rewrite <-(take_drop (Z.to_nat d) lits), <-(assoc app) in Hst.
      apply at_pos_app in Hst as [_ Hst].
      replace (zlen (take (Z.to_nat d) lits)) with d in Hst; [done|].
      unfold zlen in *. rewrite length_take. lia.
    + by apply Forall_drop.
    + rewrite Hlw. unfold zlen in *. rewrite length_drop. lia.
  - unfold rit_words, it'. cbn [ri_running_len ri_running_bit Z.to_nat replicate app].
    rewrite drop_app_ge by (rewrite length_replicate; lia). rewrite length_replicate.
    replace (Z.to_nat (ri_running_len it + d) - Z.to_nat (ri_running_len it))%nat with (Z.to_nat d) by lia.
    rewrite drop_app_le; [done|]. unfold zlen in *. lia.
Qed.

Lemma blocks_left_nonneg data it ws : rit_rep data it ws -> 0 <= blocks_left it.
Proof.
  intros (lits & rest & wsr & Hat & _). unfold blocks_left.
  pose proof (at_pos_nonneg _ _ _ (rit_rest _ _ _ _ _ Hat)).
  destruct (rit_filled _ _ _ _ _ Hat) as [? _]. repeat case_if; lia.
Qed.

(** What a round leaves to do: the words still to drop, and a smaller iterator. *)
Definition discarded data (it : rlw_iterator) (ws : list Z) (x : Z) (r : (rlw_iterator * Z) + rlw_iterator) : Prop :=
  match r with
  | inr it' => rit_rep data it' (drop (Z.to_nat x) ws) /\ blocks_left it' <= blocks_left it /\
      (head_len it <= x -> 0 < head_len it -> blocks_left it' < blocks_left it) /\
      ri_size it' = ri_size it
  | inl (it', x') => 0 <= x' /\ (x' = 0 \/ ri_pointer it < ri_pointer it') /\
      ri_pointer it <= ri_pointer it' /\
      (exists ws', rit_rep data it' ws' /\ drop (Z.to_nat x') ws' = drop (Z.to_nat x) ws) /\
      blocks_left it' <= blocks_left it /\
      (head_len it <= x -> 0 < head_len it -> blocks_left it' < blocks_left it) /\
      ri_size it' = ri_size it
  end.

(** The end of a round, at the iterator [it2] that has dropped the run and
    literals it could: [x] more words are to drop from [ws]. *)
Lemma discard_next data it2 lits rest wsr x :
  rit_at data it2 lits rest wsr -> ri_running_len it2 = 0 -> 0 <= x -> (0 < zlen lits -> x = 0) ->
  let before := 3 * (ri_size it2 - ri_pointer it2) in
  exists r, (if (x >? 0) || (word_size it2 =? 0) then
      r ← next_word it2; Ret (match r with None => inr it2 | Some it => inl (start_literals it, x) end)
    else Ret (inl (it2, x))) = Ret r /\
  match r with
  | inr it' => lits = [] /\ rit_rep data it' (drop (Z.to_nat x) (rit_words it2 lits wsr)) /\ blocks_left it' = before /\ ri_size it' = ri_size it2
  | inl (it', x') => x' = x /\ ri_pointer it2 <= ri_pointer it' /\ ri_size it' = ri_size it2 /\
      (exists ws', rit_rep data it' ws' /\ drop (Z.to_nat x') ws' = drop (Z.to_nat x) (rit_words it2 lits wsr)) /\
      ((lits = [] /\ ri_pointer it2 < ri_pointer it' /\ blocks_left it' < before) \/ (0 < zlen lits /\ it' = it2 /\ blocks_left it' = before + 1))
  end.
Proof.
  intros Hat Hrl Hx Hlx before. pose proof Hat as [Hf Hp Hs Hst Hl Hlw _ Hoff Hb]. pose proof (zlen_nonneg lits).
  assert (word_size it2 = zlen lits) as Hws by (destruct it2; unfold word_size; rewrite rlwit_word_size_spec; cbn in *; lia).
  assert (blocks_left it2 = before + (if zlen lits >? 0 then 1 else 0)) as Hb2 by (unfold blocks_left; rewrite Hrl, Hlw; change (0 >? 0) with false; cbv iota; lia).
  rewrite Hws. destruct ((x >? 0) || (zlen lits =? 0)) eqn:E.
  - assert (lits = []) as -> by (apply zlen_0_nil; apply orb_true_iff in E as [E|E]; zb; lia). rewrite zlen_nil in *.
    pose proof (next_word_spec data it2 _ _ _ Hat) as Hn. destruct rest as [|z rest].
    + rewrite Hn. run. eexists. split; [done|]. cbv iota. pose proof (segs_nil_words wsr Hs) as ->. split; [done|].
      split; [|split; [rewrite Hb2; cbn; lia|done]]. exists [], [], []. split; [done|]. split; [|done].
      assert (rit_words it2 [] [] = []) as -> by (unfold rit_words; rewrite Hrl; done). apply drop_nil.
    + destruct Hn as (it3 & -> & Hrep & Hw3 & Hp3 & Hs3). run. eexists. split; [done|]. cbv beta iota.
      assert (ri_pointer (start_literals it3) = ri_pointer it3) as -> by done. assert (ri_size (start_literals it3) = ri_size it2) as Hsz by exact Hs3.
      split; [done|]. split; [lia|]. split; [done|]. split; [exists wsr; split; [done|]; f_equal; unfold rit_words; rewrite Hrl; done|].
      left. split; [done|]. split; [lia|]. unfold blocks_left, before. rewrite Hsz. unfold start_literals. cbn [ri_pointer ri_running_len ri_literal_words].
      repeat case_if; lia.
  - apply orb_false_iff in E as [E1 E2]. zb. eexists. split; [done|]. cbv beta iota. split; [done|]. split; [lia|]. split; [done|].
    split; [|right; split; [lia|]; split; [done|]; rewrite Hb2; case_if; lia].
    eexists. split; [|done]. eexists _, _, _. split; [exact Hat|]. split; [done|]. lia.
Qed.

(** One round of [rlwit_discard_first_words] from a normal state. *)
Lemma discard_step_spec data it ws x :
  rit_rep data it ws -> 0 < x ->
  exists r, discard_step (it, x) = Ret r /\ discarded data it ws x r.
Proof.
  intros (lits & rest & wsr & Hat & -> & Hend) Hx. pose proof Hat as [Hf Hp Hs Hst Hl Hlw Hrl Hoff Hb].
  unfold discard_step. case_if; [lia|].
  pose proof (rit_drop_run data it lits rest wsr x Hat) as Hrun.
  set (d := if x - ri_running_len it >? zlen lits then zlen lits else x - ri_running_len it).
  pose proof (rit_drop_lits data it lits rest wsr d Hat) as Hlits.
  pose proof (zlen_nonneg lits).
  destruct it as [buf size p st lw rl off b].
  cbn [ri_buffer ri_size ri_pointer ri_literal_word_start ri_literal_words ri_running_len
      ri_literal_word_offset ri_running_bit] in *. subst lw off.
  case_if.
  - eexists. split; [done|]. cbv [discarded]. destruct Hrun as [Hat' Heq]; [lia|]. rewrite Heq.
    unfold blocks_left, head_len. cbn [ri_size ri_pointer ri_running_len ri_literal_words].
    split; [|repeat case_if; (split; [lia|]); (split; [lia|done])].
    eexists _, _, _. split; [exact Hat'|]. split; [done|]. cbn [ri_running_len]. lia.
  - fold d. assert (0 <= d <= zlen lits /\ d <= x - rl /\ (d < zlen lits -> d = x - rl)) as (Hd & Hdx & Hd2) by (unfold d; case_if; lia).
    destruct (Hlits Hd) as [Hat' Heq]. clear Hlits Hrun.
    set (it1 := RlwIterator buf size p st (zlen lits) rl 0 b) in *. set (it2 := RlwIterator buf size p (st + d) (zlen lits - d) 0 0 b) in *.
    assert (zlen (drop (Z.to_nat d) lits) = zlen lits - d) as Hl2 by (unfold zlen in *; rewrite length_drop; lia).
    assert (drop (Z.to_nat x) (rit_words it1 lits wsr) = drop (Z.to_nat (x - rl - d)) (rit_words it2 (drop (Z.to_nat d) lits) wsr)) as Hwords.
    { rewrite Heq, drop_drop. f_equal. lia. }
    assert (blocks_left it1 = 3 * (size - p) + (if rl >? 0 then 1 else 0) + (if zlen lits >? 0 then 1 else 0) /\
      head_len it1 = if rl >? 0 then rl else zlen lits) as [Hb1 Hh1] by done.
    destruct (discard_next data it2 _ rest wsr (x - rl - d) Hat' eq_refl) as (r & Hr & Hpost); [lia|lia|]. exists r. split.
    { rewrite <-Hr. destruct (_ || _); [|done]. by destruct (next_word it2) as [[?|]| |]. }
    unfold discarded. rewrite Hwords, Hb1, Hh1. cbn [it2 it1 ri_size ri_pointer] in Hpost |- *. destruct r as [[it' x']|it'].
    + destruct Hpost as (-> & Hp1 & Hs1 & Hws & [(Hnil & Hp2 & Hb2)|(Hpos & -> & Hb2)]); [rewrite Hnil, zlen_nil in Hl2|];
        (split; [lia|]); (split; [lia|]); (split; [lia|]); (split; [done|]); repeat case_if; (split; [lia|]); (split; [lia|done]).
    + destruct Hpost as (Hnil & Hrep & Hb2 & Hs1). rewrite Hnil, zlen_nil in Hl2. split; [done|]. repeat case_if; (split; [lia|]); (split; [lia|done]).
Qed.

Lemma rit_rep_pointer data it ws : rit_rep data it ws -> ri_pointer it <= ri_size it.
Proof.
  intros (lits & rest & wsr & Hat & _).
  pose proof (at_pos_nonneg _ _ _ (rit_rest _ _ _ _ _ Hat)).
  destruct (rit_filled _ _ _ _ _ Hat) as [? _]. lia.
Qed.

(** [rlwit_discard_first_words] drops [x] words. *)
Lemma discard_spec data it ws x :
  rit_rep data it ws -> 0 <= x ->
  exists it', rlwit_discard_first_words it x = Ret it' /\
    rit_rep data it' (drop (Z.to_nat x) ws) /\ blocks_left it' <= blocks_left it /\
    (head_len it <= x -> 0 < head_len it -> blocks_left it' < blocks_left it).
Proof.
  intros Hrep Hx. unfold rlwit_discard_first_words. pose proof (rit_rep_pointer _ _ _ Hrep).
  apply (loop_ret (fun '(it', x') => 0 <= x' /\ ri_size it' = ri_size it /\
      (exists ws', rit_rep data it' ws' /\ drop (Z.to_nat x') ws' = drop (Z.to_nat x) ws) /\
      blocks_left it' <= blocks_left it /\
      ((it' = it /\ x' = x) \/
       (head_len it <= x -> 0 < head_len it -> blocks_left it' < blocks_left it)))
    (fun '(it', x') => ri_size it - ri_pointer it' + (if x' >? 0 then 1 else 0))).
  - intros [it' x'] (Hx' & Hsz & (ws' & Hrep' & Heq) & Hble & Hstrict).
    destruct (decide (0 < x')) as [Hpos|Hz].
    + destruct (discard_step_spec data it' ws' x' Hrep' Hpos) as (r & -> & Hr).
      eexists. split; [done|]. destruct r as [[it2 x2]|it2].
      * destruct Hr as (? & Hptr & ? & (ws2 & Hrep2 & Heq2) & ? & Hst2 & ?).
        pose proof (rit_rep_pointer _ _ _ Hrep2).
        split; [|destruct Hptr; repeat case_if; lia].
        split; [lia|]. split; [congruence|]. split; [exists ws2; split; [done|congruence]|].
        split; [lia|]. right. destruct Hstrict as [[-> ->]|Hstrict]; [done|]. intros; lia.
      * destruct Hr as (Hrep2 & ? & Hst2 & ?). rewrite Heq in Hrep2.
        split; [done|]. split; [lia|]. destruct Hstrict as [[-> ->]|Hstrict]; [done|]. intros; lia.
    + assert (x' = 0) as -> by lia. unfold discard_step. cbn [Z.gtb Z.compare negb].
      eexists. split; [done|]. cbv iota. cbn [Z.to_nat] in Heq. rewrite drop_0 in Heq. subst ws'.
      split; [done|]. split; [done|]. destruct Hstrict as [[-> Hxz]|?]; [intros; lia|done].
  - split; [done|]. split; [done|]. split; [by exists ws|]. split; [lia|by left].
  - case_if; lia.
Qed.

Lemma at_pos_slice {A} (data spare k rest : list A) p :
  at_pos data p (k ++ rest) ->
  slice (data ++ spare) p (zlen k) = k /\ p + zlen k <= zlen (data ++ spare).
Proof.
  intros Hp. pose proof (at_pos_len _ _ _ Hp) as Hlen. rewrite zlen_app in Hlen.
  pose proof (zlen_nonneg rest). pose proof (zlen_nonneg spare). pose proof (zlen_nonneg k).
  rewrite zlen_app. split; [|lia]. destruct Hp as [? Hd]. unfold slice, zlen in *.
  rewrite drop_app_le by lia. rewrite Hd, Nat2Z.id, <-(assoc app). apply take_app_length.
Qed.

Lemma neg_words_fill negate n b :
  b = 0 \/ b = 1 ->
  neg_words negate (replicate n (fill_word b)) = replicate n (fill_word (Z.lxor b (Z.b2z negate))) /\
  (Z.lxor b (Z.b2z negate) = 0 \/ Z.lxor b (Z.b2z negate) = 1).
Proof.
  intros [-> | ->]; destruct negate; (split; [|cbv; auto]); cbn [neg_words];
    rewrite ?fmap_replicate; reflexivity.
Qed.

(** One round of [rlwit_discharge]: [k] words, the whole block or up to [max]. *)
Lemma discharge_round data it ws out wso max index negate :
  rit_rep data it ws -> ewah_rep out wso -> is_word (eb_bit_size out) ->
  0 <= index < max -> index + zlen ws < 2 ^ 64 -> 0 < word_size it ->
  exists it' out' k,
    discharge_step junk max negate (it, out, index) = Ret (inl (it', out', index + k)) /\
    0 < k <= zlen ws /\ index + k <= max /\ rit_rep data it' (drop (Z.to_nat k) ws) /\
    ewah_rep out' (wso ++ neg_words negate (take (Z.to_nat k) ws)) /\ is_word (eb_bit_size out') /\
    blocks_left it' <= blocks_left it /\ (index + k = max \/ blocks_left it' < blocks_left it).
Proof.
  intros Hrep Hout Hob Hidx Hbound Hws. pose proof Hrep as (lits & rest & wsr & Hat & -> & _).
  pose proof Hat as [Hf Hp Hs Hst Hl Hlw Hrl Hoff Hb]. unfold discharge_step.
  unfold word_size in *. rewrite rlwit_word_size_spec in *. rewrite Hlw in *.
  case_if; [apply andb_false_iff in Heqb as [?|?]; zb; lia|].
  pose proof (zlen_nonneg lits). pose proof (zlen_nonneg wsr).
  set (rl := ri_running_len it) in *.
  assert (zlen (rit_words it lits wsr) = rl + (zlen lits + zlen wsr)) as Hlen.
  { unfold rit_words. rewrite !zlen_app, zlen_replicate. lia. }
  rewrite Hlen in *. rewrite (u64_small (index + rl)) by lia.
  set (pl := if index + rl >? max then max - index else rl).
  assert (0 <= pl <= rl /\ index + pl <= max /\ (pl < rl -> index + pl = max)) as (Hpl & Hpl2 & Hpl3).
  { unfold pl. case_if; lia. }
  destruct (neg_words_fill negate (Z.to_nat pl) (ri_running_bit it) Hb) as [Hneg Hxb].
  destruct (ewah_add_empty_words_spec junk out wso _ pl Hout Hxb) as (o1 & a1 & -> & Ho1 & Hb1 & _);
    [lia|done|]. run.
  rewrite (u64_small (zlen lits + (index + pl))) by lia.
  set (pd := if zlen lits + (index + pl) >? max then max - (index + pl) else zlen lits).
  assert (0 <= pd <= zlen lits /\ index + (pl + pd) <= max /\
    (pd < zlen lits -> index + (pl + pd) = max)) as (Hpd & Hpd2 & Hpd3).
  { unfold pd. case_if; lia. }
  set (lp := take (Z.to_nat pd) lits).
  assert (zlen lp = pd) as Hlp by (unfold lp, zlen in *; rewrite length_take; lia).
  assert (slice (ri_buffer it) (ri_literal_word_start it) pd = lp /\
    ri_literal_word_start it + pd <= zlen (ri_buffer it)) as [Hslice Hroom].
  { rewrite <-(take_drop (Z.to_nat pd) lits), <-(assoc app) in Hst. fold lp in Hst.
    destruct Hf as [_ [spare ->]]. rewrite <-Hlp. by apply (at_pos_slice data spare) in Hst. }
  destruct (ewah_add_dirty_words_spec junk o1 _ (ri_buffer it) (ri_literal_word_start it) pd negate Ho1)
    as (o2 & -> & Ho2 & Hb2);
    [rewrite Hslice; by apply Forall_take|apply (at_pos_nonneg _ _ _ Hst)|lia|done|rewrite Hb1; apply u64_range|].
  run. rewrite Hslice in Ho2.
  destruct (discard_spec data it _ (pd + pl) Hrep) as (it' & -> & Hrep' & Hble & Hblt); [lia|]. run.
  exists it', o2, (pl + pd). rewrite Z.add_assoc. split; [done|].
  assert (0 < pl + pd) by lia.
  split; [lia|]. split; [lia|]. rewrite (Z.add_comm pd pl) in *. split; [done|].
  split; [|split; [rewrite Hb2; apply u64_range|split; [done|]]].
  - assert (take (Z.to_nat (pl + pd)) (rit_words it lits wsr) =
      replicate (Z.to_nat pl) (fill_word (ri_running_bit it)) ++ lp) as ->.
    { unfold rit_words. fold rl. rewrite take_app, length_replicate, take_replicate.
      replace (Z.to_nat (pl + pd) - Z.to_nat rl)%nat with (Z.to_nat pd) by lia.
      rewrite take_app_le by (unfold zlen in *; lia). f_equal.
      destruct (decide (pl = rl)); [f_equal; lia|]. assert (pd = 0) as -> by lia. f_equal; lia. }
    by rewrite neg_words_app, Hneg, (assoc app).
  - unfold head_len in Hblt. fold rl in Hblt. rewrite Hlw in Hblt.
    destruct (rl >? 0) eqn:E; zb; lia.
Qed.

(** [rlwit_discharge]: at most [max] words move to [out]. *)
Lemma discharge_spec data it ws out wso max negate :
  rit_rep data it ws -> ewah_rep out wso -> is_word (eb_bit_size out) ->
  0 <= max -> zlen ws < 2 ^ 64 ->
  exists it' out', rlwit_discharge junk it out max negate = Ret (it', out', Z.min max (zlen ws)) /\
    rit_rep data it' (drop (Z.to_nat max) ws) /\
    ewah_rep out' (wso ++ neg_words negate (take (Z.to_nat max) ws)) /\
    is_word (eb_bit_size out') /\ blocks_left it' <= blocks_left it.
Proof.
  intros Hrep Hout Hob Hmax Hbound. unfold rlwit_discharge.
  pose proof (blocks_left_nonneg _ _ _ Hrep) as Hbl.
  destruct (loop_ret (fun '(it', out', index) => 0 <= index <= max /\ index <= zlen ws /\
      rit_rep data it' (drop (Z.to_nat index) ws) /\
      ewah_rep out' (wso ++ neg_words negate (take (Z.to_nat index) ws)) /\
      is_word (eb_bit_size out') /\ blocks_left it' <= blocks_left it)
    (fun '(it', out', index) => blocks_left it' + (if index <? max then 1 else 0))
    (S (S (Z.to_nat (blocks_left it)))) (discharge_step junk max negate) (it, out, 0)
    (fun '(it', out', index) => index = Z.min max (zlen ws) /\
      rit_rep data it' (drop (Z.to_nat max) ws) /\
      ewah_rep out' (wso ++ neg_words negate (take (Z.to_nat max) ws)) /\
      is_word (eb_bit_size out') /\ blocks_left it' <= blocks_left it))
    as ([[it' out'] index] & -> & -> & ?); [|..|eauto 10].
  - intros [[it' out'] index] (Hi & Hiw & Hr & Ho & Hb & Hble).
    pose proof (blocks_left_nonneg _ _ _ Hr) as Hbl'.
    destruct ((index <? max) && (word_size it' >? 0)) eqn:E.
    + zb. assert (zlen (drop (Z.to_nat index) ws) = zlen ws - index) as Hlen.
      { unfold zlen in *. rewrite length_drop. lia. }
      destruct (discharge_round data it' _ out' _ max index negate Hr Ho Hb)
        as (it2 & out2 & k & -> & Hk & Hk2 & Hr2 & Ho2 & Hb2 & Hble2 & Hblt); [lia..|].
      eexists. split; [done|]. cbv beta iota. pose proof (blocks_left_nonneg _ _ _ Hr2) as Hbl2. rewrite drop_drop, <-Z2Nat.inj_add in Hr2 by lia.
      rewrite <-(assoc app), <-neg_words_app, take_take_drop, <-Z2Nat.inj_add in Ho2 by lia.
      split; [|destruct Hblt; repeat case_if; lia]. split; [lia|]. split; [lia|].
      split; [done|]. split; [done|]. split; [done|lia].
    + unfold discharge_step. rewrite E. cbn [negb]. eexists. split; [done|]. cbv beta iota.
      assert (index = max \/ drop (Z.to_nat index) ws = []) as Hend.
      { apply andb_false_iff in E as [E|E]; zb; [left; lia|right]. apply (rit_rep_end _ _ _ Hr).
        destruct Hr as (lits & ? & ? & Hat & _). unfold word_size in *.
        rewrite rlwit_word_size_spec, (rit_lw _ _ _ _ _ Hat) in *.
        pose proof (rit_rl _ _ _ _ _ Hat). pose proof (zlen_nonneg lits). lia. }
      destruct Hend as [->|Hend]; [split; [lia|done]|].
      assert (zlen ws <= index) as Hge.
      { apply (f_equal length) in Hend. rewrite length_drop in Hend. cbn in Hend. unfold zlen in *. lia. }
      split; [lia|]. rewrite Hend in Hr.
      rewrite drop_ge by (unfold zlen in *; lia). rewrite (take_ge ws) by (unfold zlen in *; lia).
      rewrite take_ge in Ho by (unfold zlen in *; lia). done.
  - cbn [Z.to_nat]. rewrite drop_0, take_0. pose proof (zlen_nonneg ws).
    split; [lia|]. split; [lia|]. split; [done|]. split; [|done].
    by destruct negate; rewrite app_nil_r.
  - case_if; lia.
Qed.
End rlwit.

(** * Exclusive or of word lists *)

(** The shorter list is extended with zeros. *)
Fixpoint xor_words (a b : list Z) : list Z :=
  match a, b with
  | [], _ => b
  | _, [] => a
  | x :: a, y :: b => Z.lxor x y :: xor_words a b
  end.

Lemma xor_words_nil_r a : xor_words a [] = a.
Proof. by destruct a. Qed.

Lemma xor_words_comm a b : xor_words a b = xor_words b a.
Proof.
  revert b. induction a as [|x a IH]; intros b; destruct b as [|y b]; cbn; try done.
  by rewrite IH, Z.lxor_comm.
Qed.

Lemma wnot_lxor x : is_word x -> Z.lxor (2 ^ 64 - 1) x = wnot x.
Proof.
  intros Hx. change (2 ^ 64 - 1) with (Z.ones 64). unfold wnot, u64. apply Z.bits_inj'. intros i Hi.
  rewrite Z.lxor_spec. destruct (decide (i < 64)).
  - rewrite Z.ones_spec_low, Z.mod_pow2_bits_low, Z.lnot_spec by lia. done.
  - rewrite Z.ones_spec_high, Z.mod_pow2_bits_high, (testbit_high x 64) by (done || lia). done.
Qed.

Lemma xor_words_fill n v p q :
  Forall is_word q ->
  xor_words (replicate n (fill_word v) ++ p) q =
    neg_words (tru v) (take n q) ++ replicate (n - length q) (fill_word v) ++ xor_words p (drop n q).
Proof.
  revert q. induction n as [|n IH]; intros q Hq.
  - rewrite take_0, drop_0. cbn [replicate app Nat.sub]. destruct (tru v); done.
  - destruct q as [|y q].
    + cbn [replicate app xor_words take drop length Nat.sub]. rewrite xor_words_nil_r.
      by destruct (tru v).
    + apply Forall_cons_iff in Hq as [Hy Hq]. cbn [replicate app xor_words take drop length Nat.sub].
      rewrite IH by done. unfold neg_words, fill_word at 1. destruct (tru v).
      * by rewrite wnot_lxor.
      * by rewrite Z.lxor_0_l.
Qed.

Lemma xor_words_app a1 a2 b1 b2 :
  length a1 = length b1 ->
  xor_words (a1 ++ a2) (b1 ++ b2) = zip_with Z.lxor a1 b1 ++ xor_words a2 b2.
Proof.
  revert b1. induction a1 as [|x a1 IH]; intros [|y b1] Hl; simpl in *; try done.
  rewrite IH; [done|lia].
Qed.

(** Bit by bit. *)
Lemma wbit_xor_words a b k : wbit (xor_words a b) k = xorb (wbit a k) (wbit b k).
Proof.
  unfold wbit. generalize (Z.to_nat (k / 64)) as i. intros i.
  assert (default 0 (xor_words a b !! i) = Z.lxor (default 0 (a !! i)) (default 0 (b !! i))) as ->;
    [|apply Z.lxor_spec].
  revert a b. induction i as [|i IH]; intros [|x a] [|y b]; cbn; try done;
    rewrite ?Z.lxor_0_r; done.
Qed.

Section xor.
Context `{GitCompatOk, RlwOk}.
Context (junk : Z).

Lemma rit_rep_words data it ws : rit_rep data it ws -> Forall is_word ws.
Proof.
  intros (lits & rest & wsr & Hat & -> & _). unfold rit_words.
  rewrite !Forall_app. split; [apply Forall_replicate, fill_word_word|].
  split; [apply Hat|]. apply (segs_words _ _ (rit_segs _ _ _ _ _ Hat)).
Qed.

(** The predator's run meets the prey's words. *)
Lemma eat_spec dq prey q dp predator p out wso :
  rit_rep dq prey q -> rit_rep dp predator p -> ewah_rep out wso -> is_word (eb_bit_size out) ->
  0 < ri_running_len predator -> zlen q < 2 ^ 64 ->
  let n := Z.to_nat (ri_running_len predator) in
  exists prey' predator' out' ws,
    eat junk prey predator out = Ret (prey', predator', out') /\
    rit_rep dq prey' (drop n q) /\ rit_rep dp predator' (drop n p) /\
    ewah_rep out' (wso ++ ws) /\ is_word (eb_bit_size out') /\
    ws ++ xor_words (drop n p) (drop n q) = xor_words p q /\
    blocks_left prey' <= blocks_left prey /\ blocks_left predator' < blocks_left predator.
Proof.
  intros Hq Hp Hout Hob Hn Hbound n. unfold eat.
  set (rl := ri_running_len predator) in *. set (v := tru (ri_running_bit predator)).
  destruct (discharge_spec junk dq prey q out wso rl v Hq Hout Hob ltac:(lia) Hbound)
    as (prey' & o1 & -> & Hq' & Ho1 & Hb1 & Hle). run. cbv zeta.
  assert (Z.b2z v = 0 \/ Z.b2z v = 1) as Hv by (destruct v; cbn; auto).
  pose proof (zlen_nonneg q).
  destruct (ewah_add_empty_words_spec junk o1 _ (Z.b2z v) (rl - Z.min rl (zlen q)) Ho1 Hv)
    as (o2 & a & -> & Ho2 & Hb2 & _); [lia|done|]. run.
  destruct (discard_spec dp predator p rl Hp) as (predator' & -> & Hp' & _ & Hlt); [lia|]. run.
  eexists _, _, _, _. split; [done|]. split; [done|]. split; [done|].
  rewrite <-(assoc app) in Ho2. split; [exact Ho2|]. split; [rewrite Hb2; apply u64_range|].
  split; [|split; [done|apply Hlt; unfold head_len; fold rl; case_if; lia]].
  destruct Hp as (lits & rest & wsr & Hat & -> & _). unfold rit_words. fold rl. fold n.
  rewrite xor_words_fill by (by eapply rit_rep_words).
  assert (drop n (replicate n (fill_word (ri_running_bit predator)) ++ lits ++ wsr) = lits ++ wsr) as ->.
  { rewrite drop_app_length'; [done|]. by rewrite length_replicate. }
  fold v. rewrite <-(assoc app). f_equal. f_equal.
  assert (fill_word (Z.b2z v) = fill_word (ri_running_bit predator)) as ->.
  { unfold fill_word. fold v. by destruct v. }
  f_equal. unfold n, zlen in *. lia.
Qed.

(** The state of the loops: what is still to be combined. *)
Definition xor_left (di dj : list Z) (all : list Z) (st : rlw_iterator * rlw_iterator * ewah_bitmap) : Prop :=
  let '(rlw_i, rlw_j, out) := st in
  exists a b wso, rit_rep di rlw_i a /\ rit_rep dj rlw_j b /\ ewah_rep out wso /\
    is_word (eb_bit_size out) /\ all = wso ++ xor_words a b /\ zlen a < 2 ^ 64 /\ zlen b < 2 ^ 64.

Definition xor_measure (st : rlw_iterator * rlw_iterator * ewah_bitmap) : Z :=
  blocks_left st.1.1 + blocks_left st.1.2.

Lemma xor_measure_nonneg di dj all st : xor_left di dj all st -> 0 <= xor_measure st.
Proof.
  destruct st as [[i j] out]. intros (a & b & wso & Hi & Hj & _). unfold xor_measure. cbn [fst snd].
  pose proof (blocks_left_nonneg _ _ _ Hi). pose proof (blocks_left_nonneg _ _ _ Hj). lia.
Qed.

Lemma zlen_drop_lt {A} (l : list A) n b : zlen l < b -> zlen (drop n l) < b.
Proof. unfold zlen. rewrite length_drop. lia. Qed.

Lemma runs_step_spec di dj all st :
  xor_left di dj all st ->
  exists r, runs_step junk st = Ret r /\
    match r with
    | inl st' => xor_left di dj all st' /\ 0 <= xor_measure st' < xor_measure st
    | inr st' => xor_left di dj all st' /\ st' = st /\
        ri_running_len st.1.1 <= 0 /\ ri_running_len st.1.2 <= 0
    end.
Proof.
  destruct st as [[i j] out]. intros Hst. pose proof Hst as (a & b & wso & Hi & Hj & Ho & Hb & -> & Ha & Hbb).
  unfold runs_step. cbn [fst snd].
  destruct ((ri_running_len i >? 0) || (ri_running_len j >? 0)) eqn:E.
  2:{ apply orb_false_iff in E as [? ?]. zb. eexists. split; [done|]. cbn. repeat split; (done || lia). }
  cbn [negb].
  assert (0 <= ri_running_len i /\ 0 <= ri_running_len j) as [Hri Hrj].
  { destruct Hi as (? & ? & ? & Hat & _), Hj as (? & ? & ? & Hat' & _).
    split; [apply Hat|apply Hat']. }
  destruct (ri_running_len i <? ri_running_len j) eqn:E'; zb.
  - destruct (eat_spec di i a dj j b out wso Hi Hj Ho Hb) as (i' & j' & o' & ws & -> & Hi' & Hj' & Ho' & Hb' & Heq & ? & ?);
      [lia|done|]. run.
    assert (xor_left di dj (wso ++ xor_words a b) (i', j', o')) as Hst'.
    { eexists _, _, _. split; [exact Hi'|]. split; [exact Hj'|]. split; [exact Ho'|]. split; [done|].
      rewrite (xor_words_comm (drop _ a)), <-(assoc app), Heq, (xor_words_comm a).
      split; [done|]. split; by apply zlen_drop_lt. }
    eexists. split; [done|]. cbv iota. split; [done|].
    pose proof (xor_measure_nonneg _ _ _ _ Hst'). unfold xor_measure in *. cbn [fst snd] in *. lia.
  - assert (0 < ri_running_len i) as Hpos by (apply orb_true_iff in E as [?|?]; zb; lia).
    destruct (eat_spec dj j b di i a out wso Hj Hi Ho Hb) as (j' & i' & o' & ws & -> & Hj' & Hi' & Ho' & Hb' & Heq & ? & ?);
      [lia|done|]. run.
    assert (xor_left di dj (wso ++ xor_words a b) (i', j', o')) as Hst'.
    { eexists _, _, _. split; [exact Hi'|]. split; [exact Hj'|]. split; [exact Ho'|]. split; [done|].
      rewrite <-(assoc app), Heq. split; [done|]. split; by apply zlen_drop_lt. }
    eexists. split; [done|]. cbv iota. split; [done|].
    pose proof (xor_measure_nonneg _ _ _ _ Hst'). unfold xor_measure in *. cbn [fst snd] in *. lia.
Qed.

Lemma xor_literals_spec di dj i j la lb ra rb k out wso :
  filled (ri_buffer i) (ri_size i) di -> filled (ri_buffer j) (ri_size j) dj ->
  at_pos di (ri_literal_word_start i + k) (la ++ ra) ->
  at_pos dj (ri_literal_word_start j + k) (lb ++ rb) ->
  length la = length lb -> Forall is_word la -> Forall is_word lb ->
  ewah_rep out wso -> is_word (eb_bit_size out) ->
  exists out', xor_literals junk (length la) k i j out = Ret out' /\
    ewah_rep out' (wso ++ zip_with Z.lxor la lb) /\ is_word (eb_bit_size out').
Proof.
  intros Hfi Hfj. revert lb k out wso. induction la as [|x la IH]; intros [|y lb] k out wso Hi Hj Hlen Hla Hlb Ho Hb;
    try done; cbn [length xor_literals zip_with].
  { exists out. by rewrite app_nil_r. }
  cbn [app] in Hi, Hj. apply at_pos_cons in Hi as [Hri Hi]. apply at_pos_cons in Hj as [Hrj Hj].
  apply Forall_cons_iff in Hla as [Hx Hla]. apply Forall_cons_iff in Hlb as [Hy Hlb].
  destruct Hfi as [? [si Hbi]], Hfj as [? [sj Hbj]].
  assert (rd (ri_buffer i) (ri_literal_word_start i + k) = Ret x) as ->
    by (rewrite Hbi; by apply rd_app_l). run.
  assert (rd (ri_buffer j) (ri_literal_word_start j + k) = Ret y) as ->
    by (rewrite Hbj; by apply rd_app_l). run.
  destruct (ewah_add_spec junk out wso (Z.lxor x y) Ho) as (o1 & a1 & -> & Ho1 & Hb1 & _);
    [by apply lxor_lt|]. run.
  destruct (IH lb (k + 1) o1 (wso ++ [Z.lxor x y])) as (o2 & -> & Ho2 & Hb2); try done;
    [by rewrite Z.add_assoc..|simpl in Hlen; lia|rewrite Hb1; apply u64_range|].
  exists o2. by rewrite <-(assoc app) in Ho2.
Qed.

(** The literals in front of an iterator whose run is used up. *)
Lemma rit_lits_split data it lits rest wsr m :
  rit_at data it lits rest wsr -> ri_running_len it <= 0 -> 0 <= m <= zlen lits ->
  exists l1 l2, rit_words it lits wsr = l1 ++ l2 ++ wsr /\ zlen l1 = m /\
    at_pos data (ri_literal_word_start it) (l1 ++ l2 ++ rest) /\ Forall is_word l1.
Proof.
  intros Hat Hrl Hm. exists (take (Z.to_nat m) lits), (drop (Z.to_nat m) lits).
  unfold rit_words. replace (Z.to_nat (ri_running_len it)) with 0%nat by lia.
  cbn [replicate app]. rewrite !(assoc app), take_drop.
  split; [done|]. split; [unfold zlen in *; rewrite length_take; lia|].
  split; [apply Hat|]. apply Forall_take, Hat.
Qed.

Lemma zlen_length_eq {A B} (l : list A) (k : list B) : zlen l = zlen k -> length l = length k.
Proof. unfold zlen. lia. Qed.

Lemma drop_zlen_app {A} (l k : list A) n : zlen l = n -> drop (Z.to_nat n) (l ++ k) = k.
Proof. intros <-. unfold zlen. by rewrite Nat2Z.id, drop_app_length. Qed.

Lemma head_len_lits it : ri_running_len it <= 0 -> head_len it = ri_literal_words it.
Proof. intros. unfold head_len. case_if; [lia|done]. Qed.

(** The literals of both, word by word. *)
Lemma xor_literals_round di dj all i j out m :
  xor_left di dj all (i, j, out) -> ri_running_len i <= 0 -> ri_running_len j <= 0 ->
  m = Z.min (ri_literal_words i) (ri_literal_words j) -> 0 < m ->
  exists out' i' j', xor_literals junk (Z.to_nat m) 0 i j out = Ret out' /\
    rlwit_discard_first_words i m = Ret i' /\ rlwit_discard_first_words j m = Ret j' /\
    xor_left di dj all (i', j', out') /\
    xor_measure (i', j', out') < xor_measure (i, j, out).
Proof.
  intros (a & b & wso & Hi & Hj & Ho & Hb & -> & Ha & Hbb) Hri Hrj Hm Hpos.
  destruct (discard_spec di i a m Hi) as (i' & -> & Hi' & Hlei & Hlti); [lia|].
  destruct (discard_spec dj j b m Hj) as (j' & -> & Hj' & Hlej & Hltj); [lia|].
  rewrite head_len_lits in Hlti by done. rewrite head_len_lits in Hltj by done.
  destruct Hi as (li & resti & wsi & Hati & -> & _), Hj as (lj & restj & wsj & Hatj & -> & _).
  pose proof (rit_lw _ _ _ _ _ Hati) as Hlwi. pose proof (rit_lw _ _ _ _ _ Hatj) as Hlwj.
  destruct (rit_lits_split _ _ _ _ _ m Hati Hri) as (a1 & a2 & Hwa & Hza & Hpa & Hfa); [lia|].
  destruct (rit_lits_split _ _ _ _ _ m Hatj Hrj) as (b1 & b2 & Hwb & Hzb & Hpb & Hfb); [lia|].
  rewrite <-(Z.add_0_r (ri_literal_word_start i)) in Hpa.
  rewrite <-(Z.add_0_r (ri_literal_word_start j)) in Hpb.
  destruct (xor_literals_spec di dj i j a1 b1 _ _ 0 out wso (rit_filled _ _ _ _ _ Hati)
    (rit_filled _ _ _ _ _ Hatj) Hpa Hpb) as (o' & Hx & Ho' & Hb'); try done;
    [apply zlen_length_eq; congruence|].
  replace (length a1) with (Z.to_nat m) in Hx by (unfold zlen in *; lia).
  rewrite Hwa, Hwb in *.
  exists o', i', j'. split; [done|]. split; [done|]. split; [done|].
  rewrite (drop_zlen_app a1 _ m Hza) in Hi'. rewrite (drop_zlen_app b1 _ m Hzb) in Hj'.
  split; [|unfold xor_measure; cbn [fst snd]; lia].
  eexists _, _, _. split; [exact Hi'|]. split; [exact Hj'|]. split; [exact Ho'|]. split; [done|].
  rewrite xor_words_app by (apply zlen_length_eq; congruence). rewrite (assoc app).
  split; [done|]. rewrite zlen_app in Ha. rewrite zlen_app in Hbb.
  pose proof (zlen_nonneg a1). pose proof (zlen_nonneg b1). lia.
Qed.

Lemma xor_step_spec di dj all st :
  xor_left di dj all st ->
  exists r, xor_step junk st = Ret r /\
    match r with
    | inl st' => xor_left di dj all st' /\ 0 <= xor_measure st' < xor_measure st
    | inr st' => xor_left di dj all st' /\ (word_size st'.1.1 <= 0 \/ word_size st'.1.2 <= 0)
    end.
Proof.
  destruct st as [[i j] out]. intros Hst. unfold xor_step.
  destruct ((word_size i >? 0) && (word_size j >? 0)) eqn:E.
  2:{ eexists. split; [done|]. cbv iota. split; [done|]. cbn [fst snd].
      apply andb_false_iff in E as [?|?]; zb; auto. }
  zb. cbn [negb]. pose proof (xor_measure_nonneg _ _ _ _ Hst) as Hm.
  change (blocks_left i + blocks_left j) with (xor_measure (i, j, out)).
  destruct (loop_ret (fun st => xor_left di dj all st /\
      (st = (i, j, out) \/ xor_measure st < xor_measure (i, j, out))) xor_measure
    (S (Z.to_nat (xor_measure (i, j, out)))) (runs_step junk) (i, j, out)
    (fun st => xor_left di dj all st /\
      (st = (i, j, out) \/ xor_measure st < xor_measure (i, j, out)) /\
      ri_running_len st.1.1 <= 0 /\ ri_running_len st.1.2 <= 0))
    as ([[i1 j1] o1] & -> & Hst1 & Hlt & Hri & Hrj); [|by eauto|lia|].
  { intros st [Hl Hlt]. destruct (runs_step_spec _ _ _ _ Hl) as (r & -> & Hr).
    eexists. split; [done|]. destruct r as [st'|st'].
    - destruct Hr as [? ?]. split; [split; [done|right]|done]. destruct Hlt as [->|]; lia.
    - destruct Hr as (? & -> & ? & ?). done. }
  cbn [fst snd] in Hri, Hrj. run.
  change (min_size (ri_literal_words i1) (ri_literal_words j1)) with
    (if ri_literal_words i1 <? ri_literal_words j1 then ri_literal_words i1 else ri_literal_words j1).
  assert ((if ri_literal_words i1 <? ri_literal_words j1 then ri_literal_words i1 else ri_literal_words j1)
    = Z.min (ri_literal_words i1) (ri_literal_words j1)) as -> by (case_if; lia).
  set (m := Z.min (ri_literal_words i1) (ri_literal_words j1)).
  assert (0 <= m) as Hm0.
  { destruct Hst1 as (? & ? & ? & (li & ? & ? & Hati & _) & (lj & ? & ? & Hatj & _) & _).
    unfold m. rewrite (rit_lw _ _ _ _ _ Hati), (rit_lw _ _ _ _ _ Hatj).
    pose proof (zlen_nonneg li). pose proof (zlen_nonneg lj). lia. }
  destruct (tru m) eqn:E'; zb.
  - destruct (xor_literals_round di dj all i1 j1 o1 m Hst1 Hri Hrj eq_refl ltac:(lia))
      as (o2 & i2 & j2 & -> & Hdi & Hdj & Hst2 & Hlt2). run. rewrite Hdi. run. rewrite Hdj. run.
    eexists. split; [done|]. cbv iota. split; [done|]. pose proof (xor_measure_nonneg _ _ _ _ Hst2).
    destruct Hlt as [Heq|]; [injection Heq as <- <- <-|]; lia.
  - eexists. split; [done|]. cbv iota. split; [done|]. pose proof (xor_measure_nonneg _ _ _ _ Hst1).
    destruct Hlt as [Heq|]; [injection Heq as <- <- <-|lia]. exfalso.
    unfold word_size in *. rewrite rlwit_word_size_spec in *. unfold m in *. lia.
Qed.

Lemma ewah_xor_words bi bj out a b wso :
  ewah_rep bi a -> ewah_rep bj b -> ewah_rep out wso -> is_word (eb_bit_size out) ->
  zlen a < 2 ^ 64 - 1 -> zlen b < 2 ^ 64 - 1 ->
  exists out', ewah_xor junk bi bj out = Ret out' /\ ewah_rep out' (wso ++ xor_words a b) /\
    eb_bit_size out' = Z.max (eb_bit_size bi) (eb_bit_size bj).
Proof.
  intros Hi Hj Ho Hb Ha Hbb. unfold ewah_xor.
  destruct (rlwit_init_spec bi a Hi) as (di & i & -> & Hri & _). run.
  destruct (rlwit_init_spec bj b Hj) as (dj & j & -> & Hrj & _). run.
  assert (xor_left di dj (wso ++ xor_words a b) (i, j, out)) as Hst.
  { exists a, b, wso. repeat (split; [done|]). lia. }
  pose proof (xor_measure_nonneg _ _ _ _ Hst).
  change (blocks_left i + blocks_left j) with (xor_measure (i, j, out)).
  destruct (loop_ret (xor_left di dj (wso ++ xor_words a b)) xor_measure
    (S (S (Z.to_nat (xor_measure (i, j, out))))) (xor_step junk) (i, j, out)
    (fun st => xor_left di dj (wso ++ xor_words a b) st /\
      (word_size st.1.1 <= 0 \/ word_size st.1.2 <= 0)))
    as ([[i1 j1] o1] & -> & Hst1 & Hend); [|done|lia|].
  { intros st Hl. destruct (xor_step_spec _ _ _ _ Hl) as (r & -> & Hr). eauto. }
  run. cbn [fst snd] in Hend. destruct Hst1 as (a1 & b1 & ws1 & Hi1 & Hj1 & Ho1 & Hb1 & -> & Ha1 & Hbb1).
  assert (forall it data ws, rit_rep data it ws -> zlen ws < 2 ^ 64 ->
    exists it' o2 n, rlwit_discharge junk it o1 (2 ^ 64 - 1) false = Ret (it', o2, n) /\
      ewah_rep o2 (ws1 ++ ws)) as Hfin.
  { intros it data ws Hr Hlen.
    destruct (discharge_spec junk data it ws o1 ws1 (2 ^ 64 - 1) false Hr Ho1 Hb1) as
      (it' & o2 & -> & _ & Ho2 & _); [lia|done|]. cbn [neg_words] in Ho2.
    rewrite take_ge in Ho2 by (unfold zlen in *; lia). eauto 10. }
  assert (max_size (eb_bit_size bi) (eb_bit_size bj) = Z.max (eb_bit_size bi) (eb_bit_size bj)) as Hmax
    by (unfold max_size; case_if; lia).
  assert (forall it data ws, rit_rep data it ws -> word_size it <= 0 -> ws = []) as Hnil.
  { intros it data ws Hr Hz. apply (rit_rep_end _ _ _ Hr). destruct Hr as (l & ? & ? & Hat & _).
    unfold word_size in *. rewrite rlwit_word_size_spec, (rit_lw _ _ _ _ _ Hat) in *.
    pose proof (rit_rl _ _ _ _ _ Hat). pose proof (zlen_nonneg l). lia. }
  destruct (word_size i1 >? 0) eqn:E; zb.
  - destruct Hend as [?|Hz]; [lia|]. rewrite (Hnil _ _ _ Hj1 Hz), xor_words_nil_r.
    destruct (Hfin i1 di a1 Hi1 Ha1) as (it' & o2 & n & -> & Ho2). run.
    eexists. split; [done|]. rewrite Hmax. split; [by apply ewah_rep_bit_size|done].
  - rewrite (Hnil _ _ _ Hi1) by lia. cbn [xor_words].
    destruct (Hfin j1 dj b1 Hj1 Hbb1) as (it' & o2 & n & -> & Ho2). run.
    eexists. split; [done|]. rewrite Hmax. split; [by apply ewah_rep_bit_size|done].
Qed.
End xor.
