(* ===== verification/EwahBitmap.v ===== *)
(** ewah/bitmap.c: uncompressed bitmaps, and their conversion to and from
    compressed ones.  The theorems describe every operation by the bits of its
    result, and show that compressing and expanding a bitmap keeps its bits. *)
From S2P Require Import Prelude Headers Ewah EwahRead.

(** * Model *)

Record bitmap := Bitmap {
  bm_words : list Z;
  bm_word_alloc : Z;
}.

Definition EWAH_MASK (x : Z) : Z := Z.shiftl 1 (x mod BITS_IN_EWORD).
Definition EWAH_BLOCK (x : Z) : Z := x / BITS_IN_EWORD.

Section model.
Context `{GitCompat, Rlw}.
Context (junk : Z).

Definition bitmap_word_alloc (word_alloc : Z) : bitmap :=
  Bitmap (replicate (Z.to_nat word_alloc) 0) word_alloc.

Definition bitmap_new : bitmap := bitmap_word_alloc 32.

Definition bitmap_dup (src : bitmap) : outcome bitmap :=
  let dst := bitmap_word_alloc (bm_word_alloc src) in
  ws ← rd_range (bm_words src) 0 (bm_word_alloc src);
  words ← wr_range (bm_words dst) 0 ws;
  Ret (Bitmap words (bm_word_alloc dst)).

(** [ALLOC_GROW(self->words, nr, self->word_alloc)] *)
Definition grow_words (self : bitmap) (nr : Z) : bitmap :=
  if nr >? bm_word_alloc self then
    let alloc := alloc_grow nr (bm_word_alloc self) in
    Bitmap (realloc junk (bm_words self) alloc) alloc
  else self.

Definition bitmap_grow (self : bitmap) (word_alloc : Z) : outcome bitmap :=
  let old_size := bm_word_alloc self in
  let self := grow_words self word_alloc in
  words ← fill_range (bm_words self) old_size (bm_word_alloc self - old_size) 0;
  Ret (Bitmap words (bm_word_alloc self)).

(** [self->words[i] = f(self->words[i])] *)
Definition upd_word (self : bitmap) (i : Z) (f : Z -> Z) : outcome bitmap :=
  w ← rd (bm_words self) i;
  words ← wr (bm_words self) i (f w);
  Ret (Bitmap words (bm_word_alloc self)).

Definition bitmap_set (self : bitmap) (pos : Z) : outcome bitmap :=
  let block := EWAH_BLOCK pos in
  self ← bitmap_grow self (block + 1);
  upd_word self block (fun w => Z.lor w (EWAH_MASK pos)).

Definition bitmap_unset (self : bitmap) (pos : Z) : outcome bitmap :=
  let block := EWAH_BLOCK pos in
  if block <? bm_word_alloc self then
    upd_word self block (fun w => Z.land w (wnot (EWAH_MASK pos)))
  else Ret self.

Definition bitmap_get (self : bitmap) (pos : Z) : outcome bool :=
  let block := EWAH_BLOCK pos in
  if block <? bm_word_alloc self then
    w ← rd (bm_words self) block;
    Ret (tru (Z.land w (EWAH_MASK pos)))
  else Ret false.

(** The loop of [bitmap_to_ewah]; the state is [ewah], [running_empty_words]
    and [last_word]. *)
Definition to_ewah_step (bm : bitmap) (i : Z) (st : ewah_bitmap * Z * Z)
    : outcome ((ewah_bitmap * Z * Z) + Empty_set) :=
  let '(ewah, running_empty_words, last_word) := st in
  w ← rd (bm_words bm) i;
  if w =? 0 then Ret (inl (ewah, running_empty_words + 1, last_word)) else
  ewah ← (if tru last_word then '(ewah, _) ← ewah_add junk ewah last_word; Ret ewah else Ret ewah);
  '(ewah, running_empty_words) ←
    (if running_empty_words >? 0 then
       '(ewah, _) ← ewah_add_empty_words junk ewah 0 running_empty_words;
       Ret (ewah, 0)
     else Ret (ewah, running_empty_words));
  Ret (inl (ewah, running_empty_words, w)).

Definition bitmap_to_ewah (bm : bitmap) : outcome ewah_bitmap :=
  ewah ← ewah_new junk;
  r ← for_range (Z.to_nat (bm_word_alloc bm)) 0 (to_ewah_step bm) (ewah, 0, 0);
  match r with
  | inl (ewah, _, last_word) => '(ewah, _) ← ewah_add junk ewah last_word; Ret ewah
  | inr e => match (e : Empty_set) with end
  end.

(** ** Loops over the words of a compressed bitmap *)

(** How many words a compressed buffer stands for: the fuel of these loops. *)
Fixpoint count_words (n : nat) (buf : list Z) (size p : Z) : Z :=
  match n with
  | O => 0
  | S n =>
      if p <? size then
        match rd buf p with
        | Ret w => rlw_get_running_len w + rlw_get_literal_words w +
                   count_words n buf size (p + 1 + rlw_get_literal_words w)
        | _ => 0
        end
      else 0
  end.

Definition word_fuel (self : ewah_bitmap) : nat :=
  S (Z.to_nat (count_words (Z.to_nat (eb_buffer_size self)) (eb_buffer self) (eb_buffer_size self) 0)).

(** One round of [while (ewah_iterator_next(&word, &it)) body]. *)
Definition each_word_step {S R} (body : Z -> S -> outcome (S + R)) (st : ewah_iterator * S)
    : outcome ((ewah_iterator * S) + (S + R)) :=
  let '(it, s) := st in
  '(next, it) ← ewah_iterator_next it;
  match next with
  | None => Ret (inr (inl s))
  | Some word =>
      r ← body word s;
      match r with
      | inl s => Ret (inl (it, s))
      | inr r => Ret (inr (inr r))
      end
  end.

Definition each_word {S R} (self : ewah_bitmap) (it : ewah_iterator)
    (body : Z -> S -> outcome (S + R)) (s : S) : outcome (S + R) :=
  loop (word_fuel self) (each_word_step body) (it, s).

(** The state is [bitmap] and [i]. *)
Definition to_bitmap_step (blowup : Z) (st : bitmap * Z) : outcome ((bitmap * Z) + Empty_set) :=
  let '(bm, i) := st in
  let bm := grow_words bm (i + 1) in
  words ← wr (bm_words bm) i blowup;
  Ret (inl (Bitmap words (bm_word_alloc bm), i + 1)).

Definition ewah_to_bitmap (ewah : ewah_bitmap) : outcome bitmap :=
  it ← ewah_iterator_init ewah;
  r ← each_word ewah it to_bitmap_step (bitmap_new, 0);
  match r with
  | inl (bm, i) => Ret (Bitmap (bm_words bm) i)
  | inr e => match (e : Empty_set) with end
  end.

(** ** Combining bitmaps *)

Definition and_not_step (other : bitmap) (i : Z) (self : bitmap) : outcome (bitmap + Empty_set) :=
  w ← rd (bm_words other) i;
  self ← upd_word self i (fun x => Z.land x (wnot w));
  Ret (inl self).

Definition bitmap_and_not (self other : bitmap) : outcome bitmap :=
  let count := if bm_word_alloc self <? bm_word_alloc other
               then bm_word_alloc self else bm_word_alloc other in
  r ← for_range (Z.to_nat count) 0 (and_not_step other) self;
  match r with inl self => Ret self | inr e => match (e : Empty_set) with end end.

Definition or_step (other : bitmap) (i : Z) (self : bitmap) : outcome (bitmap + Empty_set) :=
  w ← rd (bm_words other) i;
  self ← upd_word self i (fun x => Z.lor x w);
  Ret (inl self).

Definition bitmap_or (self other : bitmap) : outcome bitmap :=
  self ← bitmap_grow self (bm_word_alloc other);
  r ← for_range (Z.to_nat (bm_word_alloc other)) 0 (or_step other) self;
  match r with inl self => Ret self | inr e => match (e : Empty_set) with end end.

(** The first loop of [ewah_bitmap_is_subset]; the state is the iterator. *)
Definition subset_step (other : bitmap) (i : Z) (it : ewah_iterator)
    : outcome (ewah_iterator + bool) :=
  '(next, it) ← ewah_iterator_next it;
  match next with
  | None => Ret (inr true)
  | Some word =>
      w ← rd (bm_words other) i;
      if tru (Z.land word (wnot w)) then Ret (inr false) else Ret (inl it)
  end.

Definition ewah_bitmap_is_subset (self : ewah_bitmap) (other : bitmap) : outcome bool :=
  it ← ewah_iterator_init self;
  r ← for_range (Z.to_nat (bm_word_alloc other)) 0 (subset_step other) it;
  match r with
  | inr b => Ret b
  | inl it =>
      r ← each_word self it
            (fun word (_ : unit) => if tru word then Ret (inr false) else Ret (inl tt)) tt;
      match r with inl _ => Ret true | inr b => Ret b end
  end.

Definition bitmap_or_ewah (self : bitmap) (other : ewah_bitmap) : outcome bitmap :=
  let original_size := bm_word_alloc self in
  let other_final := eb_bit_size other / BITS_IN_EWORD + 1 in
  self ← (if bm_word_alloc self <? other_final then
            words ← fill_range (realloc junk (bm_words self) other_final) original_size
                      (other_final - original_size) 0;
            Ret (Bitmap words other_final)
          else Ret self);
  it ← ewah_iterator_init other;
  r ← each_word other it
        (fun word '(self, i) =>
           self ← upd_word self i (fun x => Z.lor x word);
           Ret (inl (self, i + 1))) (self, 0);
  match r with inl (self, _) => Ret self | inr e => match (e : Empty_set) with end end.

Definition bitmap_popcount (self : bitmap) : outcome Z :=
  r ← for_range (Z.to_nat (bm_word_alloc self)) 0
        (fun i count => w ← rd (bm_words self) i; Ret (inl (count + ewah_bit_popcount64 w))) 0;
  match r with inl count => Ret count | inr e => match (e : Empty_set) with end end.

Definition ewah_bitmap_popcount (self : ewah_bitmap) : outcome Z :=
  it ← ewah_iterator_init self;
  r ← each_word self it (fun word count => Ret (inl (count + ewah_bit_popcount64 word))) 0;
  match r with inl count => Ret count | inr e => match (e : Empty_set) with end end.

(** [for (; i < n; i++) if (words[i]) return answer] *)
Definition all_zero (words : list Z) (n : nat) (i : Z) : outcome bool :=
  r ← for_range n i
        (fun i (_ : unit) => w ← rd words i; if tru w then Ret (inr false) else Ret (inl tt)) tt;
  match r with inl _ => Ret true | inr b => Ret b end.

Definition bitmap_is_empty (self : bitmap) : outcome bool :=
  all_zero (bm_words self) (Z.to_nat (bm_word_alloc self)) 0.

Definition bitmap_equals (self other : bitmap) : outcome bool :=
  let '(small, big) :=
    if bm_word_alloc self <? bm_word_alloc other then (self, other) else (other, self) in
  r ← for_range (Z.to_nat (bm_word_alloc small)) 0
        (fun i (_ : unit) =>
           a ← rd (bm_words small) i;
           b ← rd (bm_words big) i;
           if negb (a =? b) then Ret (inr false) else Ret (inl tt)) tt;
  match r with
  | inr b => Ret b
  | inl _ => all_zero (bm_words big) (Z.to_nat (bm_word_alloc big - bm_word_alloc small))
               (bm_word_alloc small)
  end.

Definition bitmap_equals_ewah (self : bitmap) (other : ewah_bitmap) : outcome bool :=
  it ← ewah_iterator_init other;
  r ← each_word other it
        (fun word i =>
           '(w, i) ← (if i <? bm_word_alloc self then w ← rd (bm_words self) i; Ret (w, i + 1)
                      else Ret (0, i));
           if negb (word =? w) then Ret (inr false) else Ret (inl i)) 0;
  match r with
  | inr b => Ret b
  | inl i => all_zero (bm_words self) (Z.to_nat (bm_word_alloc self - i)) i
  end.

(** Returns 1 ([true]) when [self] has a bit that [other] has not. *)
Definition bitmap_is_subset (self other : bitmap) : outcome bool :=
  let common_size := if bm_word_alloc self <? bm_word_alloc other
                     then bm_word_alloc self else bm_word_alloc other in
  rest ← (if bm_word_alloc self <? bm_word_alloc other then Ret true
          else all_zero (bm_words self) (Z.to_nat (bm_word_alloc self - common_size)) common_size);
  if negb rest then Ret true else
  r ← for_range (Z.to_nat common_size) 0
        (fun i (_ : unit) =>
           a ← rd (bm_words self) i;
           b ← rd (bm_words other) i;
           if tru (Z.land a (wnot b)) then Ret (inr true) else Ret (inl tt)) tt;
  match r with inl _ => Ret false | inr b => Ret b end.
End model.

(** * Representation *)

Section rep.
Context `{GitCompatOk, RlwOk}.
Context (junk : Z).

(** The words of a bitmap; those allocated beyond [word_alloc] do not count. *)
Definition bm_rep (b : bitmap) (ws : list Z) : Prop :=
  filled (bm_words b) (bm_word_alloc b) ws /\ Forall is_word ws.

Lemma bm_rep_len b ws : bm_rep b ws -> bm_word_alloc b = zlen ws.
Proof. by intros [[<- _] _]. Qed.

Lemma bm_rep_rd b ws i x : bm_rep b ws -> ws !! Z.to_nat i = Some x -> 0 <= i -> rd (bm_words b) i = Ret x.
Proof. intros [[_ [rest ->]] _] Hx Hi. by apply rd_app_l, rd_Ret. Qed.

Lemma zlen_lookup {A} (l : list A) i : 0 <= i < zlen l -> exists x, l !! Z.to_nat i = Some x.
Proof. intros Hi. destruct (rd_in l i Hi) as [x [_ Hx]%rd_Ret]. eauto. Qed.

Lemma insert_prefix {A} (l r : list A) i x :
  0 <= i < zlen l -> <[Z.to_nat i := x]> (l ++ r) = <[Z.to_nat i := x]> l ++ r.
Proof. intros. apply insert_app_l. unfold zlen in *. lia. Qed.

Lemma upd_word_spec b ws i x f :
  bm_rep b ws -> 0 <= i -> ws !! Z.to_nat i = Some x -> is_word (f x) ->
  exists b', upd_word b i f = Ret b' /\ bm_rep b' (<[Z.to_nat i := f x]> ws) /\
    bm_word_alloc b' = bm_word_alloc b.
Proof.
  intros Hrep Hi Hx Hf. unfold upd_word. rewrite (bm_rep_rd _ _ _ _ Hrep Hx Hi). run.
  pose proof (bm_rep_len _ _ Hrep) as Hlen. destruct Hrep as [[Hl [rest Hw]] Hws].
  assert (0 <= i < zlen ws) as Hiw by (apply lookup_lt_Some in Hx; unfold zlen; lia).
  pose proof (zlen_nonneg rest).
  rewrite Hw, wr_in by (rewrite zlen_app; lia). run. eexists. split; [done|].
  cbn [bm_word_alloc]. split; [|done]. split.
  - cbn [bm_words bm_word_alloc]. rewrite insert_prefix by done. split; [by rewrite zlen_insert|eauto].
  - by apply Forall_insert.
Qed.

Lemma wbit_insert ws i x k :
  0 <= i < zlen ws -> 0 <= k ->
  wbit (<[Z.to_nat i := x]> ws) k = if k / 64 =? i then Z.testbit x (k mod 64) else wbit ws k.
Proof.
  intros Hi Hk. unfold wbit. assert (0 <= k / 64) by (apply Z.div_pos; lia). case_if.
  - subst i. by rewrite list_lookup_insert_eq by (unfold zlen in *; lia).
  - by rewrite list_lookup_insert_ne by lia.
Qed.

Lemma wbit_lookup ws i x k : ws !! Z.to_nat i = Some x -> k / 64 = i -> wbit ws k = Z.testbit x (k mod 64).
Proof. intros Hx <-. unfold wbit. by rewrite Hx. Qed.

Lemma wbit_zeros ws n k : wbit (ws ++ replicate n 0) k = wbit ws k.
Proof.
  unfold wbit. destruct (decide (Z.to_nat (k / 64) < length ws)%nat).
  - by rewrite lookup_app_l.
  - rewrite lookup_app_r, (lookup_ge_None_2 ws) by lia.
    destruct (decide (Z.to_nat (k / 64) - length ws < n)%nat).
    + by rewrite lookup_replicate_2.
    + by rewrite lookup_ge_None_2 by (rewrite length_replicate; lia).
Qed.

Lemma wbit_beyond ws k : 0 <= k -> zlen ws <= k / 64 -> wbit ws k = false.
Proof.
  intros Hk Hl. unfold wbit. rewrite lookup_ge_None_2 by (unfold zlen in *; lia). apply Z.bits_0.
Qed.

Lemma Forall_zeros n : Forall is_word (replicate n 0).
Proof. apply Forall_replicate, is_word_0. Qed.

(** Extending a bitmap with zeros up to [n] words. *)
Lemma zero_tail_spec b ws n :
  bm_rep b ws -> zlen ws <= n <= zlen (bm_words b) ->
  exists words, fill_range (bm_words b) (zlen ws) (n - zlen ws) 0 = Ret words /\
    bm_rep (Bitmap words n) (ws ++ replicate (Z.to_nat (n - zlen ws)) 0).
Proof.
  intros [Hf Hws] Hn. unfold fill_range. pose proof Hf as [Hl _].
  destruct (filled_wr_range _ _ _ (replicate (Z.to_nat (n - zlen ws)) 0) Hf) as (words & Hwr & _ & Hf');
    [rewrite zlen_replicate; lia|].
  rewrite Hl in *. exists words. split; [done|]. split.
  - cbn [bm_words bm_word_alloc]. rewrite zlen_replicate in Hf'.
    by replace n with (bm_word_alloc b + Z.max 0 (n - bm_word_alloc b)) at 1 by lia.
  - apply Forall_app. split; [done|apply Forall_zeros].
Qed.

Lemma grow_words_spec b ws n :
  bm_rep b ws -> 0 <= n ->
  filled (bm_words (grow_words junk b n)) (zlen ws) ws /\
  n <= bm_word_alloc (grow_words junk b n) /\ zlen ws <= bm_word_alloc (grow_words junk b n) /\
  bm_word_alloc (grow_words junk b n) <= zlen (bm_words (grow_words junk b n)).
Proof.
  intros [Hf Hws] Hn. pose proof Hf as [Hl _]. pose proof (filled_le _ _ _ Hf). unfold grow_words.
  rewrite Hl. case_if; cbn [bm_words bm_word_alloc].
  - pose proof (alloc_grow_enough n (bm_word_alloc b)). pose proof (alloc_grow_ge n (bm_word_alloc b)).
    split; [by apply filled_realloc; [|lia]|]. rewrite zlen_realloc by lia. lia.
  - split; [done|lia].
Qed.

Lemma bitmap_grow_spec b ws n :
  bm_rep b ws -> 0 <= n ->
  exists b' k, bitmap_grow junk b n = Ret b' /\ bm_rep b' (ws ++ replicate k 0) /\
    n <= bm_word_alloc b'.
Proof.
  intros Hrep Hn. unfold bitmap_grow. rewrite (bm_rep_len _ _ Hrep).
  destruct (grow_words_spec b ws n Hrep Hn) as (Hf & Hge & Hge2 & Hle).
  set (g := grow_words junk b n) in *.
  destruct (zero_tail_spec (Bitmap (bm_words g) (zlen ws)) ws (bm_word_alloc g)) as (words & Hfill & Hrep');
    [split; [done|apply Hrep]|cbn [bm_words]; lia|]. cbn [bm_words] in Hfill. cbv zeta. rewrite Hfill. run.
  eexists _, _. split; [done|]. split; [exact Hrep'|]. done.
Qed.

Lemma bitmap_new_spec : bm_rep bitmap_new (replicate 32 0).
Proof. split; [split; [done|by exists []]|]. apply Forall_zeros. Qed.

(** Changing word [k / 64] in the bits of one mask. *)
Lemma lor_mask_bit x pos k :
  0 <= k -> Z.testbit (Z.lor x (EWAH_MASK pos)) (k mod 64) = Z.testbit x (k mod 64) || (k mod 64 =? pos mod 64).
Proof. intros. rewrite Z.lor_spec. f_equal. by apply testbit_bit_word. Qed.

Lemma wnot_bit x k : 0 <= k < 64 -> Z.testbit (wnot x) k = negb (Z.testbit x k).
Proof. intros. unfold wnot, u64. rewrite Z.mod_pow2_bits_low by lia. rewrite Z.lnot_spec by lia. done. Qed.

Lemma land_mask_bit x pos k :
  0 <= k -> Z.testbit (Z.land x (wnot (EWAH_MASK pos))) (k mod 64) =
    Z.testbit x (k mod 64) && negb (k mod 64 =? pos mod 64).
Proof.
  intros. rewrite Z.land_spec, wnot_bit by (apply Z.mod_pos_bound; lia).
  do 2 f_equal. by apply testbit_bit_word.
Qed.

Lemma pos_eq k pos : 0 <= k -> 0 <= pos -> (k =? pos) = (k / 64 =? pos / 64) && (k mod 64 =? pos mod 64).
Proof.
  intros. apply eq_bool_prop_intro. rewrite !Is_true_true, andb_true_iff, !Z.eqb_eq.
  Z.to_euclidean_division_equations; lia.
Qed.

Lemma bitmap_set_spec b ws pos :
  bm_rep b ws -> 0 <= pos ->
  exists b' ws', bitmap_set junk b pos = Ret b' /\ bm_rep b' ws' /\
    forall k, 0 <= k -> wbit ws' k = wbit ws k || (k =? pos).
Proof.
  intros Hrep Hpos. unfold bitmap_set, EWAH_BLOCK, BITS_IN_EWORD. cbv zeta.
  assert (0 <= pos / 64) by (apply Z.div_pos; lia).
  destruct (bitmap_grow_spec b ws (pos / 64 + 1) Hrep) as (b1 & n & -> & Hrep1 & Hge); [lia|]. run.
  rewrite (bm_rep_len _ _ Hrep1) in Hge.
  destruct (zlen_lookup (ws ++ replicate n 0) (pos / 64)) as [x Hx]; [lia|].
  pose proof (Forall_lookup_1 _ _ _ _ (proj2 Hrep1) Hx) as Hxw.
  destruct (upd_word_spec b1 _ (pos / 64) x (fun w => Z.lor w (EWAH_MASK pos)) Hrep1) as (b2 & -> & Hrep2 & _);
    [done|done|by apply lor_lt; [lia| |apply bit_word_word]|].
  eexists _, _. split; [done|]. split; [exact Hrep2|]. intros k Hk.
  rewrite wbit_insert, (pos_eq k pos), <-(wbit_zeros ws n) by lia.
  case_if; [rewrite lor_mask_bit, (wbit_lookup _ _ x _ Hx) by done|by rewrite orb_false_r]. done.
Qed.

Lemma bitmap_unset_spec b ws pos :
  bm_rep b ws -> 0 <= pos ->
  exists b' ws', bitmap_unset b pos = Ret b' /\ bm_rep b' ws' /\
    forall k, 0 <= k -> wbit ws' k = wbit ws k && negb (k =? pos).
Proof.
  intros Hrep Hpos. unfold bitmap_unset, EWAH_BLOCK, BITS_IN_EWORD. cbv zeta.
  assert (0 <= pos / 64) by (apply Z.div_pos; lia). rewrite (bm_rep_len _ _ Hrep). case_if.
  - destruct (zlen_lookup ws (pos / 64)) as [x Hx]; [lia|].
    pose proof (Forall_lookup_1 _ _ _ _ (proj2 Hrep) Hx) as Hxw.
    destruct (upd_word_spec b ws (pos / 64) x (fun w => Z.land w (wnot (EWAH_MASK pos))) Hrep) as (b2 & -> & Hrep2 & _);
      [done|done|by apply land_lt|].
    eexists _, _. split; [done|]. split; [exact Hrep2|]. intros k Hk.
    rewrite wbit_insert, (pos_eq k pos) by lia.
    case_if; [rewrite land_mask_bit, (wbit_lookup _ _ x _ Hx) by done|by rewrite andb_true_r]. done.
  - exists b, ws. split; [done|]. split; [done|]. intros k Hk.
    destruct (Z.eqb_spec k pos) as [->|]; [|by rewrite andb_true_r].
    by rewrite wbit_beyond.
Qed.

Lemma tru_land_mask x pos : 0 <= pos -> tru (Z.land x (EWAH_MASK pos)) = Z.testbit x (pos mod 64).
Proof.
  intros. apply tru_land_bit. apply Z.mod_pos_bound. done.
Qed.

Lemma bitmap_get_spec b ws pos : bm_rep b ws -> 0 <= pos -> bitmap_get b pos = Ret (wbit ws pos).
Proof.
  intros Hrep Hpos. unfold bitmap_get, EWAH_BLOCK, BITS_IN_EWORD. cbv zeta.
  assert (0 <= pos / 64) by (apply Z.div_pos; lia). rewrite (bm_rep_len _ _ Hrep). case_if.
  - destruct (zlen_lookup ws (pos / 64)) as [x Hx]; [lia|].
    rewrite (bm_rep_rd _ _ _ _ Hrep Hx) by lia. run.
    by rewrite tru_land_mask, (wbit_lookup _ _ x _ Hx).
  - by rewrite wbit_beyond.
Qed.

(** ** Loops over words *)

Lemma word_ext x y :
  is_word x -> is_word y -> (forall k, 0 <= k < 64 -> Z.testbit x k = Z.testbit y k) -> x = y.
Proof.
  intros Hx Hy Hb. apply Z.bits_inj'. intros k Hk. destruct (decide (k < 64)); [apply Hb; lia|].
  by rewrite (testbit_high x 64), (testbit_high y 64) by (done || lia).
Qed.

(** A property of the bits of word [j]. *)
Lemma word_forall (P : Z -> bool -> Prop) ws j x :
  ws !! Z.to_nat j = Some x -> 0 <= j ->
  (forall k, 0 <= k < 64 -> P (64 * j + k) (Z.testbit x k)) <->
  (forall k, 0 <= k -> k / 64 = j -> P k (wbit ws k)).
Proof.
  intros Hx Hj. split.
  - intros Hp k Hk Hkj. rewrite (wbit_lookup ws j x k Hx Hkj).
    replace k with (64 * j + k mod 64) at 1 by (Z.to_euclidean_division_equations; lia).
    apply Hp. apply Z.mod_pos_bound. lia.
  - intros Hp k Hk. specialize (Hp (64 * j + k)).
    rewrite (wbit_lookup ws j x) in Hp by (done || (Z.to_euclidean_division_equations; lia)).
    replace ((64 * j + k) mod 64) with k in Hp by (Z.to_euclidean_division_equations; lia).
    apply Hp; [lia|Z.to_euclidean_division_equations; lia].
Qed.

(** A loop that returns [ans] at the first word where a test fails. *)
Lemma test_loop_spec (P : Z -> Prop) (ans : bool) n i (body : Z -> unit -> outcome (unit + bool)) :
  0 <= i ->
  (forall j, i <= j < i + Z.of_nat n ->
     (body j tt = Ret (inl tt) /\ (forall k, 0 <= k -> k / 64 = j -> P k)) \/
     (body j tt = Ret (inr ans) /\ ~ (forall k, 0 <= k -> k / 64 = j -> P k))) ->
  (for_range n i body tt = Ret (inl tt) /\
     (forall k, 0 <= k -> i <= k / 64 < i + Z.of_nat n -> P k)) \/
  (for_range n i body tt = Ret (inr ans) /\
     ~ (forall k, 0 <= k -> i <= k / 64 < i + Z.of_nat n -> P k)).
Proof.
  revert i. induction n as [|n IH]; intros i Hi Hbody; cbn [for_range].
  - left. split; [done|]. lia.
  - destruct (Hbody i ltac:(lia)) as [[-> Hp]|[-> Hp]]; run.
    + destruct (IH (i + 1)) as [[-> Hr]|[-> Hr]]; [lia|intros j Hj; apply Hbody; lia|left|right];
        (split; [done|]).
      * intros k Hk Hki. destruct (decide (k / 64 = i)); [by apply Hp|]. apply Hr; lia.
      * intros Hall. apply Hr. intros k Hk Hki. apply Hall; lia.
    + right. split; [done|]. intros Hall. apply Hp. intros k Hk <-. apply Hall; lia.
Qed.

Lemma all_zero_spec b ws n i :
  bm_rep b ws -> 0 <= i -> i + Z.of_nat n <= zlen ws ->
  exists r, all_zero (bm_words b) n i = Ret r /\
    (r = true <-> forall k, 0 <= k -> i <= k / 64 < i + Z.of_nat n -> wbit ws k = false).
Proof.
  intros Hrep Hi Hn. unfold all_zero.
  destruct (test_loop_spec (fun k => wbit ws k = false) false n i
    (fun i (_ : unit) => w ← rd (bm_words b) i; if tru w then Ret (inr false) else Ret (inl tt)))
    as [[-> Hr]|[-> Hr]]; [done| |by exists true|by exists false].
  intros j Hj. destruct (zlen_lookup ws j) as [x Hx]; [lia|].
  rewrite (bm_rep_rd _ _ _ _ Hrep Hx) by lia. run.
  pose proof (Forall_lookup_1 _ _ _ _ (proj2 Hrep) Hx) as Hxw.
  pose proof (word_forall (fun _ b => b = false) ws j x Hx ltac:(lia)) as Hall. cbv beta in Hall.
  destruct (tru x) eqn:E; zb; [right|left]; (split; [done|]).
  - intros Hz. apply E. pose proof (proj2 Hall Hz) as Hz'. apply word_ext; [done|apply is_word_0|].
    intros k Hk. rewrite Z.bits_0. by apply Hz'.
  - apply Hall. intros k Hk. subst x. apply Z.bits_0.
Qed.

Lemma bitmap_is_empty_spec b ws :
  bm_rep b ws ->
  exists r, bitmap_is_empty b = Ret r /\ (r = true <-> forall k, 0 <= k -> wbit ws k = false).
Proof.
  intros Hrep. unfold bitmap_is_empty. rewrite (bm_rep_len _ _ Hrep). pose proof (zlen_nonneg ws).
  destruct (all_zero_spec b ws (Z.to_nat (zlen ws)) 0 Hrep) as (r & -> & Hr); [lia..|].
  exists r. split; [done|]. rewrite Hr. split; intros Hz k Hk; [|by intros; apply Hz].
  destruct (decide (k / 64 < zlen ws)); [|by apply wbit_beyond; lia].
  apply Hz; [lia|]. assert (0 <= k / 64) by (apply Z.div_pos; lia). lia.
Qed.

(** The bits of two words agree. *)
Lemma words_agree wa wb j x y (R : bool -> bool -> Prop) :
  wa !! Z.to_nat j = Some x -> wb !! Z.to_nat j = Some y -> 0 <= j ->
  (forall k, 0 <= k < 64 -> R (Z.testbit x k) (Z.testbit y k)) <->
  (forall k, 0 <= k -> k / 64 = j -> R (wbit wa k) (wbit wb k)).
Proof.
  intros Hx Hy Hj. split.
  - intros Hp k Hk Hkj. rewrite (wbit_lookup wa j x k Hx Hkj), (wbit_lookup wb j y k Hy Hkj).
    apply Hp. apply Z.mod_pos_bound. lia.
  - intros Hp k Hk. specialize (Hp (64 * j + k)).
    rewrite (wbit_lookup wa j x), (wbit_lookup wb j y) in Hp
      by (done || (Z.to_euclidean_division_equations; lia)).
    replace ((64 * j + k) mod 64) with k in Hp by (Z.to_euclidean_division_equations; lia).
    apply Hp; [lia|Z.to_euclidean_division_equations; lia].
Qed.

Lemma equals_loop_spec a wa b wb n :
  bm_rep a wa -> bm_rep b wb -> Z.of_nat n <= zlen wa -> Z.of_nat n <= zlen wb ->
  let r := for_range n 0
    (fun i (_ : unit) =>
       x ← rd (bm_words a) i;
       y ← rd (bm_words b) i;
       if negb (x =? y) then Ret (inr false) else Ret (inl tt)) tt in
  (r = Ret (inl tt) /\ forall k, 0 <= k -> 0 <= k / 64 < 0 + Z.of_nat n -> wbit wa k = wbit wb k) \/
  (r = Ret (inr false) /\ ~ forall k, 0 <= k -> 0 <= k / 64 < 0 + Z.of_nat n -> wbit wa k = wbit wb k).
Proof.
  intros Ha Hb Hna Hnb r. apply test_loop_spec; [done|]. intros j Hj.
  destruct (zlen_lookup wa j) as [x Hx]; [lia|]. destruct (zlen_lookup wb j) as [y Hy]; [lia|].
  rewrite (bm_rep_rd _ _ _ _ Ha Hx), (bm_rep_rd _ _ _ _ Hb Hy) by lia. run.
  pose proof (Forall_lookup_1 _ _ _ _ (proj2 Ha) Hx) as Hxw.
  pose proof (Forall_lookup_1 _ _ _ _ (proj2 Hb) Hy) as Hyw.
  pose proof (words_agree wa wb j x y eq Hx Hy ltac:(lia)) as Hag.
  destruct (x =? y) eqn:E; zb; [left|right]; (split; [done|]).
  - apply Hag. by subst y.
  - intros Hall. apply E, word_ext; [done..|]. by apply Hag.
Qed.

(** [bitmap_equals] compares the bits; the lengths do not matter. *)
Lemma bitmap_equals_spec a wa b wb :
  bm_rep a wa -> bm_rep b wb ->
  exists r, bitmap_equals a b = Ret r /\ (r = true <-> forall k, 0 <= k -> wbit wa k = wbit wb k).
Proof.
  intros Ha Hb. unfold bitmap_equals. rewrite (bm_rep_len _ _ Ha), (bm_rep_len _ _ Hb).
  assert (forall s ws g wg, bm_rep s ws -> bm_rep g wg -> zlen ws <= zlen wg ->
    exists r, (r ← for_range (Z.to_nat (bm_word_alloc s)) 0
        (fun i (_ : unit) =>
           a ← rd (bm_words s) i;
           b ← rd (bm_words g) i;
           if negb (a =? b) then Ret (inr false) else Ret (inl tt)) tt;
      match r with
      | inr b => Ret b
      | inl _ => all_zero (bm_words g) (Z.to_nat (bm_word_alloc g - bm_word_alloc s)) (bm_word_alloc s)
      end) = Ret r /\ (r = true <-> forall k, 0 <= k -> wbit ws k = wbit wg k)) as Hmain.
  { clear. intros s ws g wg Hs Hg Hle. rewrite (bm_rep_len _ _ Hs), (bm_rep_len _ _ Hg).
    pose proof (zlen_nonneg ws).
    destruct (equals_loop_spec s ws g wg (Z.to_nat (zlen ws)) Hs Hg) as [[-> Hr]|[-> Hr]]; [lia..| |]; run.
    - destruct (all_zero_spec g wg (Z.to_nat (zlen wg - zlen ws)) (zlen ws) Hg) as (r & -> & Hz); [lia..|].
      exists r. split; [done|]. rewrite Hz. split; intros Heq k Hk.
      + assert (0 <= k / 64) by (apply Z.div_pos; lia).
        destruct (decide (k / 64 < zlen ws)); [apply Hr; lia|].
        rewrite wbit_beyond by lia. destruct (decide (k / 64 < zlen wg)); [symmetry; apply Heq; lia|].
        symmetry. apply wbit_beyond; lia.
      + intros Hk2. rewrite <-Heq by done. apply wbit_beyond; lia.
    - exists false. split; [done|]. split; [done|]. intros Heq. exfalso. apply Hr. intros k Hk _. by apply Heq. }
  case_if.
  - by apply (Hmain a wa b wb); [..|lia].
  - destruct (Hmain b wb a wa Hb Ha ltac:(lia)) as (r & -> & Hr). exists r. split; [done|].
    rewrite Hr. split; intros Heq k Hk; symmetry; by apply Heq.
Qed.

Lemma land_wnot_0 x y :
  is_word x -> tru (Z.land x (wnot y)) = false <->
    (forall k, 0 <= k < 64 -> Z.testbit x k = true -> Z.testbit y k = true).
Proof.
  intros Hx. rewrite tru_false. split.
  - intros Hz k Hk Hb. apply (f_equal (fun z => Z.testbit z k)) in Hz.
    rewrite Z.land_spec, wnot_bit, Hb, Z.bits_0 in Hz by lia. by destruct (Z.testbit y k).
  - intros Hb. apply word_ext; [by apply land_lt|apply is_word_0|]. intros k Hk.
    rewrite Z.land_spec, wnot_bit, Z.bits_0 by lia. specialize (Hb k Hk).
    destruct (Z.testbit x k), (Z.testbit y k); naive_solver.
Qed.

(** [bitmap_is_subset] answers 0 exactly when [a]'s bits are among [b]'s. *)
Lemma bitmap_is_subset_spec a wa b wb :
  bm_rep a wa -> bm_rep b wb ->
  exists r, bitmap_is_subset a b = Ret r /\
    (r = false <-> forall k, 0 <= k -> wbit wa k = true -> wbit wb k = true).
Proof.
  intros Ha Hb. unfold bitmap_is_subset. rewrite (bm_rep_len _ _ Ha), (bm_rep_len _ _ Hb).
  pose proof (zlen_nonneg wa). pose proof (zlen_nonneg wb).
  set (n := if zlen wa <? zlen wb then zlen wa else zlen wb).
  assert (0 <= n <= zlen wa /\ n <= zlen wb /\ (zlen wb <= zlen wa -> n = zlen wb) /\
    (zlen wa < zlen wb -> n = zlen wa)) as (Hn & Hn2 & Hn3 & Hn4) by (unfold n; case_if; lia).
  assert (exists rest, (if zlen wa <? zlen wb then Ret true
      else all_zero (bm_words a) (Z.to_nat (zlen wa - n)) n) = Ret rest /\
    (rest = true <-> forall k, 0 <= k -> n <= k / 64 -> wbit wa k = false)) as (rest & -> & Hrest).
  { case_if.
    - exists true. split; [done|]. split; [|done]. intros _ k Hk Hk2. apply wbit_beyond; lia.
    - destruct (all_zero_spec a wa (Z.to_nat (zlen wa - n)) n Ha) as (r & -> & Hr); [lia..|].
      exists r. split; [done|]. rewrite Hr. split; intros Hz k Hk Hk2.
      + destruct (decide (k / 64 < zlen wa)); [apply Hz; lia|apply wbit_beyond; lia].
      + apply Hz; lia. }
  run. destruct rest; cbn [negb].
  2:{ exists true. split; [done|]. split; [done|]. intros Hsub. exfalso.
      assert (false = true) as Hf; [|done]. apply Hrest. intros k Hk Hk2.
      destruct (wbit wa k) eqn:E; [|done]. pose proof (Hsub k Hk E) as E2.
      destruct (decide (zlen wa < zlen wb)).
      - by rewrite wbit_beyond in E by lia.
      - by rewrite wbit_beyond in E2 by lia. }
  assert (forall k, 0 <= k -> n <= k / 64 -> wbit wa k = false) as Hbeyond by (by apply Hrest).
  destruct (test_loop_spec (fun k => wbit wa k = true -> wbit wb k = true) true (Z.to_nat n) 0
    (fun i (_ : unit) =>
       x ← rd (bm_words a) i;
       y ← rd (bm_words b) i;
       if tru (Z.land x (wnot y)) then Ret (inr true) else Ret (inl tt)))
    as [[-> Hr]|[-> Hr]]; [done| |exists false|exists true]; [|(split; [done|])..].
  - intros j Hj. destruct (zlen_lookup wa j) as [x Hx]; [lia|]. destruct (zlen_lookup wb j) as [y Hy]; [lia|].
    rewrite (bm_rep_rd _ _ _ _ Ha Hx), (bm_rep_rd _ _ _ _ Hb Hy) by lia. run.
    pose proof (Forall_lookup_1 _ _ _ _ (proj2 Ha) Hx) as Hxw.
    pose proof (words_agree wa wb j x y (fun p q => p = true -> q = true) Hx Hy ltac:(lia)) as Hag.
    pose proof (land_wnot_0 x y Hxw) as Hland.
    destruct (tru (Z.land x (wnot y))); [right|left]; (split; [done|]).
    + intros Hall. by pose proof (proj2 Hland (proj2 Hag Hall)).
    + apply Hag. by apply Hland.
  - split; [|done]. intros _ k Hk Hb'. assert (0 <= k / 64) by (apply Z.div_pos; lia).
    destruct (decide (k / 64 < n)); [apply Hr; (done || lia)|]. rewrite Hbeyond in Hb' by lia. done.
  - split; [done|]. intros Hall. exfalso. apply Hr. intros k Hk _. by apply Hall.
Qed.

(** ** Combining bitmaps *)

Definition bitwise (f : Z -> Z -> Z) (op : bool -> bool -> bool) : Prop :=
  forall x w, is_word x -> is_word w -> is_word (f x w) /\
    forall k, 0 <= k < 64 -> Z.testbit (f x w) k = op (Z.testbit x k) (Z.testbit w k).

Lemma combine_loop_spec f op a wa b wb n :
  bitwise f op -> bm_rep a wa -> bm_rep b wb -> Z.of_nat n <= zlen wa -> Z.of_nat n <= zlen wb ->
  exists a' wa',
    for_range n 0
      (fun i self =>
         w ← rd (bm_words b) i;
         self ← upd_word self i (fun x => f x w);
         Ret (inl self)) a = Ret (inl a' : bitmap + Empty_set) /\
    bm_rep a' wa' /\ zlen wa' = zlen wa /\
    forall k, 0 <= k -> wbit wa' k =
      if k / 64 <? Z.of_nat n then op (wbit wa k) (wbit wb k) else wbit wa k.
Proof.
  intros Hf Ha Hb Hna Hnb.
  destruct (for_range_ret (fun i self => exists ws, bm_rep self ws /\ zlen ws = zlen wa /\
      forall k, 0 <= k -> wbit ws k = if k / 64 <? i then op (wbit wa k) (wbit wb k) else wbit wa k)
    n 0 (fun i self =>
         w ← rd (bm_words b) i;
         self ← upd_word self i (fun x => f x w);
         Ret (inl self : bitmap + Empty_set)) a (fun _ => False)) as (r & -> & Hr).
  - intros j s Hj (ws & Hs & Hl & Hbits).
    destruct (zlen_lookup wb j) as [w Hw]; [lia|]. destruct (zlen_lookup ws j) as [x Hx]; [lia|].
    rewrite (bm_rep_rd _ _ _ _ Hb Hw) by lia. run.
    pose proof (Forall_lookup_1 _ _ _ _ (proj2 Hb) Hw) as Hww.
    pose proof (Forall_lookup_1 _ _ _ _ (proj2 Hs) Hx) as Hxw.
    destruct (Hf x w Hxw Hww) as [Hfw Hft].
    destruct (upd_word_spec s ws j x (fun x => f x w) Hs) as (s' & -> & Hs' & _); [lia|done|done|]. run.
    eexists. split; [done|]. cbv iota. eexists. split; [exact Hs'|]. rewrite zlen_insert. split; [done|].
    intros k Hk. rewrite wbit_insert by lia. destruct (Z.eqb_spec (k / 64) j) as [Hkj|Hne].
    + rewrite Hft by (apply Z.mod_pos_bound; lia).
      rewrite <-(wbit_lookup wb j w k Hw Hkj), <-(wbit_lookup ws j x k Hx Hkj), Hbits by done.
      rewrite (proj2 (Z.ltb_ge (k / 64) j)), (proj2 (Z.ltb_lt (k / 64) (j + 1))) by lia. done.
    + rewrite Hbits by done. destruct (Z.ltb_spec (k / 64) j), (Z.ltb_spec (k / 64) (j + 1)); lia || done.
  - exists wa. split; [done|]. split; [done|]. intros k Hk.
    assert (0 <= k / 64) by (apply Z.div_pos; lia). case_if; [lia|done].
  - destruct r as [a'|[]]. destruct Hr as (ws & ? & ? & ?). rewrite Z.add_0_l in *. eauto 10.
Qed.

Lemma bitwise_and_not : bitwise (fun x w => Z.land x (wnot w)) (fun p q => p && negb q).
Proof.
  intros x w Hx Hw. split; [by apply land_lt|]. intros k Hk. by rewrite Z.land_spec, wnot_bit.
Qed.

Lemma bitwise_or : bitwise Z.lor orb.
Proof. intros x w Hx Hw. split; [by apply lor_lt|]. intros k Hk. by rewrite Z.lor_spec. Qed.

Lemma bitmap_and_not_spec a wa b wb :
  bm_rep a wa -> bm_rep b wb ->
  exists a' wa', bitmap_and_not a b = Ret a' /\ bm_rep a' wa' /\
    forall k, 0 <= k -> wbit wa' k = wbit wa k && negb (wbit wb k).
Proof.
  intros Ha Hb. unfold bitmap_and_not. rewrite (bm_rep_len _ _ Ha), (bm_rep_len _ _ Hb).
  pose proof (zlen_nonneg wa). pose proof (zlen_nonneg wb).
  set (n := if zlen wa <? zlen wb then zlen wa else zlen wb).
  assert (0 <= n <= zlen wa /\ n <= zlen wb /\ (n = zlen wa \/ n = zlen wb)) as (? & ? & Hn)
    by (unfold n; case_if; lia).
  destruct (combine_loop_spec _ _ a wa b wb (Z.to_nat n) bitwise_and_not Ha Hb)
    as (a' & wa' & Hloop & Ha' & _ & Hbits); [lia..|].
  unfold and_not_step. rewrite Hloop. run. eexists _, _. split; [done|]. split; [done|].
  intros k Hk. rewrite Hbits, Z2Nat.id by lia. assert (0 <= k / 64) by (apply Z.div_pos; lia).
  case_if; [done|]. destruct Hn as [Hn|Hn].
  - by rewrite wbit_beyond by lia.
  - by rewrite (wbit_beyond wb), andb_true_r by lia.
Qed.

Lemma bitmap_or_spec a wa b wb :
  bm_rep a wa -> bm_rep b wb ->
  exists a' wa', bitmap_or junk a b = Ret a' /\ bm_rep a' wa' /\
    forall k, 0 <= k -> wbit wa' k = wbit wa k || wbit wb k.
Proof.
  intros Ha Hb. unfold bitmap_or. rewrite (bm_rep_len _ _ Hb). pose proof (zlen_nonneg wb).
  destruct (bitmap_grow_spec a wa (zlen wb) Ha) as (a1 & n & -> & Ha1 & Hge); [lia|]. run.
  rewrite (bm_rep_len _ _ Ha1) in Hge.
  destruct (combine_loop_spec _ _ a1 _ b wb (Z.to_nat (zlen wb)) bitwise_or Ha1 Hb)
    as (a' & wa' & Hloop & Ha' & _ & Hbits); [lia..|].
  unfold or_step. rewrite Hloop. run. eexists _, _. split; [done|]. split; [done|].
  intros k Hk. rewrite Hbits, Z2Nat.id, !wbit_zeros by lia.
  case_if; [done|]. by rewrite (wbit_beyond wb), orb_false_r by lia.
Qed.

Lemma bitmap_dup_spec b ws :
  bm_rep b ws -> exists b', bitmap_dup b = Ret b' /\ bm_rep b' ws.
Proof.
  intros [Hf Hws]. unfold bitmap_dup, bitmap_word_alloc. cbn [bm_words bm_word_alloc].
  pose proof (filled_le _ _ _ Hf). pose proof (filled_take _ _ _ Hf) as Ht.
  rewrite rd_range_in by lia. unfold slice. change (Z.to_nat 0) with 0%nat. rewrite drop_0, Ht. run.
  destruct Hf as [Hl _].
  destruct (filled_wr_range (replicate (Z.to_nat (bm_word_alloc b)) 0) 0 [] ws (filled_nil _)) as (out & -> & _ & Hf');
    [rewrite zlen_replicate; lia|]. run.
  eexists. split; [done|]. split; [|done]. cbn [bm_words bm_word_alloc].
  by rewrite Z.add_0_l, Hl in Hf'.
Qed.

(** ** Counting bits *)

(** The number of set bits. *)
Definition count_bits (ws : list Z) : Z := zlen (bits_from 0 ws).

Lemma bit_count_calls n w :
  bit_count n w = zlen (filter (fun c => tru (Z.land w (Z.shiftl 1 (Z.of_nat c)))) (seq 0 n)).
Proof.
  induction n as [|n IH]; [done|]. cbn [bit_count]. rewrite seq_S, filter_app, zlen_app, <-IH. f_equal.
  cbn [Nat.add]. rewrite filter_cons.
  rewrite tru_land_bit by lia.
  by destruct (Z.testbit w (Z.of_nat n)).
Qed.

Lemma bits_from_len pos ws : zlen (bits_from pos ws) = count_bits ws.
Proof.
  unfold count_bits. revert pos. assert (forall ws p q, zlen (bits_from p ws) = zlen (bits_from q ws)) as Hpq;
    [|intros; apply Hpq]. intros ws'. induction ws' as [|w ws' IH]; intros p q; cbn [bits_from]; [done|].
  rewrite !zlen_app, (IH (p + 64) (q + 64)). f_equal. unfold word_calls. by rewrite !zlen_fmap.
Qed.

Lemma count_bits_app w1 w2 : count_bits (w1 ++ w2) = count_bits w1 + count_bits w2.
Proof. unfold count_bits at 1. rewrite bits_from_app, zlen_app. by rewrite !bits_from_len. Qed.

Lemma count_bits_one w : is_word w -> count_bits [w] = ewah_bit_popcount64 w.
Proof.
  intros Hw. rewrite ewah_bit_popcount64_spec, bit_count_calls by done.
  unfold count_bits. cbn [bits_from]. rewrite app_nil_r. unfold word_calls. by rewrite zlen_fmap.
Qed.

Lemma bitmap_popcount_spec b ws : bm_rep b ws -> bitmap_popcount b = Ret (count_bits ws).
Proof.
  intros Hb. unfold bitmap_popcount. rewrite (bm_rep_len _ _ Hb). pose proof (zlen_nonneg ws).
  destruct (for_range_ret (fun i count => count = count_bits (take (Z.to_nat i) ws)) (Z.to_nat (zlen ws)) 0
    (fun i count => w ← rd (bm_words b) i; Ret (inl (count + ewah_bit_popcount64 w) : Z + Empty_set)) 0
    (fun _ => False)) as (r & -> & Hr).
  - intros j c Hj ->. destruct (zlen_lookup ws j) as [x Hx]; [lia|].
    rewrite (bm_rep_rd _ _ _ _ Hb Hx) by lia. run. eexists. split; [done|]. cbv iota.
    replace (Z.to_nat (j + 1)) with (S (Z.to_nat j)) by lia.
    rewrite (take_S_r _ _ _ Hx), count_bits_app, count_bits_one; [done|].
    apply (Forall_lookup_1 _ _ _ _ (proj2 Hb) Hx).
  - done.
  - destruct r as [c|[]]. run. rewrite Hr, Z.add_0_l, Nat2Z.id, take_ge; [done|]. unfold zlen. lia.
Qed.

(** ** Loops over compressed words *)

Fixpoint fold_words {S R} (body : Z -> S -> outcome (S + R)) (ws : list Z) (s : S) : outcome (S + R) :=
  match ws with
  | [] => Ret (inl s)
  | w :: ws =>
      r ← body w s;
      match r with
      | inl s => fold_words body ws s
      | inr r => Ret (inr r)
      end
  end.

Lemma count_words_spec data spare n p rest ws :
  at_pos data p rest -> lsegs rest ws -> (length rest <= n)%nat ->
  count_words n (data ++ spare) (zlen data) p = zlen ws.
Proof.
  intros Hp Hs. revert n p Hp. induction Hs as [|w lits buf ws Hw Hl Hc Hs IH]; intros n p Hp Hn.
  - pose proof (at_pos_len _ _ _ Hp) as Hlen. rewrite zlen_nil in *.
    destruct n; cbn [count_words]; [done|]. case_if; [lia|done].
  - pose proof (at_pos_len _ _ _ Hp) as Hlen. rewrite zlen_app, zlen_cons in Hlen.
    pose proof (zlen_nonneg lits). pose proof (zlen_nonneg buf).
    rewrite length_app in Hn. cbn [length] in Hn.
    destruct n as [|n]; [lia|]. cbn [count_words]. case_if; [|lia].
    cbn [app] in Hp. apply at_pos_cons in Hp as [Hrd Hp]. rewrite (rd_app_l _ _ _ _ Hrd).
    rewrite Hc. apply at_pos_app in Hp as [_ Hp]. rewrite (IH n _ Hp) by lia.
    rewrite !zlen_app. unfold run_words. rewrite zlen_replicate.
    pose proof (rlw_running_len_range w Hw). lia.
Qed.

Lemma word_fuel_spec self ws : ewah_loose self ws -> word_fuel self = S (Z.to_nat (zlen ws)).
Proof.
  intros (data & [Hsz [spare Hbuf]] & Hs & _)%ewah_loose_lsegs. unfold word_fuel.
  rewrite Hbuf, <-Hsz, (count_words_spec data spare _ 0 data ws (at_pos_0 data) Hs); [done|].
  unfold zlen. lia.
Qed.

Lemma each_word_spec {S R} self ws0 data it ws (body : Z -> S -> outcome (S + R)) s :
  ewah_loose self ws0 -> it_rep data it ws -> zlen ws <= zlen ws0 ->
  each_word self it body s = fold_words body ws s.
Proof.
  intros Hself Hit Hle. unfold each_word. rewrite (word_fuel_spec _ _ Hself).
  assert (length ws < Datatypes.S (Z.to_nat (zlen ws0)))%nat as Hfuel by (unfold zlen in *; lia).
  revert Hfuel. generalize (Datatypes.S (Z.to_nat (zlen ws0))) as fuel. clear Hself Hle.
  intros fuel. revert fuel it s Hit. induction ws as [|w ws IH]; intros [|fuel] it s Hit Hf;
    cbn [length] in Hf; try lia; cbn [loop]; pose proof (it_next_spec _ _ _ Hit) as Hn.
  - assert (each_word_step body (it, s) = Ret (inr (inl s))) as -> by (unfold each_word_step; by rewrite Hn).
    done.
  - destruct Hn as (it' & Hn & Hit'). cbn [fold_words].
    assert (each_word_step body (it, s) = (r ← body w s;
      match r with inl s => Ret (inl (it', s)) | inr r => Ret (inr (inr r)) end)) as ->
      by (unfold each_word_step; by rewrite Hn).
    destruct (body w s) as [[s'|r]| |]; run; try done.
    apply IH; [done|lia].
Qed.

Lemma ewah_bitmap_popcount_spec self ws :
  ewah_rep self ws -> ewah_bitmap_popcount self = Ret (count_bits ws).
Proof.
  intros Hrep%ewah_rep_loose. unfold ewah_bitmap_popcount.
  destruct (ewah_iterator_init_spec self ws Hrep) as (data & it & -> & Hit). run.
  rewrite (each_word_spec self ws data it ws _ _ Hrep Hit) by lia.
  pose proof (ewah_loose_words _ _ Hrep) as Hws. clear Hrep Hit.
  assert (forall c, fold_words (fun word count => Ret (inl (count + ewah_bit_popcount64 word) : Z + Empty_set)) ws c
    = Ret (inl (c + count_bits ws))) as Hfold; [|by rewrite Hfold].
  induction Hws as [|w ws Hw Hws IH]; intros c; cbn [fold_words]; run.
  - do 2 f_equal. unfold count_bits. cbn [bits_from]. rewrite zlen_nil. lia.
  - rewrite IH. do 2 f_equal. change (w :: ws) with ([w] ++ ws). rewrite count_bits_app, count_bits_one by done. lia.
Qed.

(** Expanding gives exactly the words. *)
Lemma ewah_to_bitmap_spec self ws :
  ewah_rep self ws -> exists b, ewah_to_bitmap junk self = Ret b /\ bm_rep b ws.
Proof.
  intros Hrep%ewah_rep_loose. unfold ewah_to_bitmap.
  destruct (ewah_iterator_init_spec self ws Hrep) as (data & it & -> & Hit). run.
  rewrite (each_word_spec self ws data it ws _ _ Hrep Hit) by lia.
  pose proof (ewah_loose_words _ _ Hrep) as Hws. clear Hrep Hit.
  assert (forall done bm, filled (bm_words bm) (zlen done) done -> zlen done <= bm_word_alloc bm <= zlen (bm_words bm) ->
    exists bm', fold_words (to_bitmap_step junk) ws (bm, zlen done) = Ret (inl (bm', zlen (done ++ ws))) /\
      filled (bm_words bm') (zlen (done ++ ws)) (done ++ ws)) as Hfold.
  { clear Hws. induction ws as [|w ws IH]; intros acc bm Hf Hle; cbn [fold_words].
    { exists bm. by rewrite app_nil_r. }
    assert (filled (bm_words (grow_words junk bm (zlen acc + 1))) (zlen acc) acc /\
      zlen acc + 1 <= bm_word_alloc (grow_words junk bm (zlen acc + 1)) <=
        zlen (bm_words (grow_words junk bm (zlen acc + 1)))) as [Hf1 Hle1].
    { unfold grow_words. case_if; cbn [bm_words bm_word_alloc]; [|split; [done|lia]].
      pose proof (alloc_grow_enough (zlen acc + 1) (bm_word_alloc bm)). pose proof (zlen_nonneg acc).
      split; [apply filled_realloc; [done|lia]|]. rewrite zlen_realloc; lia. }
    destruct (filled_wr _ _ _ w Hf1) as [Hwr Hf2]; [lia|].
    set (words := <[Z.to_nat (zlen acc) := w]> (bm_words (grow_words junk bm (zlen acc + 1)))) in *.
    assert (to_bitmap_step junk w (bm, zlen acc) =
      Ret (inl (Bitmap words (bm_word_alloc (grow_words junk bm (zlen acc + 1))), zlen acc + 1))) as ->
      by (unfold to_bitmap_step; cbv zeta; by rewrite Hwr). run.
    destruct (IH (acc ++ [w]) (Bitmap words
      (bm_word_alloc (grow_words junk bm (zlen acc + 1))))) as (bm' & Hfold & Hf').
    - cbn [bm_words]. by rewrite zlen_snoc.
    - cbn [bm_words bm_word_alloc]. unfold words. rewrite zlen_insert, zlen_snoc. lia.
    - rewrite zlen_snoc in Hfold. exists bm'. rewrite <-(assoc app) in *. done. }
  destruct (Hfold [] bitmap_new (filled_nil _)) as (bm' & Hf & Hf').
  { unfold bitmap_new, bitmap_word_alloc. cbn [bm_words bm_word_alloc]. rewrite zlen_replicate, zlen_nil. lia. }
  rewrite zlen_nil, app_nil_l in *. rewrite Hf. run. eexists. split; [done|]. by split.
Qed.

(** Compressing keeps the bits. *)
Lemma bitmap_to_ewah_spec b ws :
  bm_rep b ws ->
  exists e we, bitmap_to_ewah junk b = Ret e /\ ewah_rep e we /\ forall k, wbit we k = wbit ws k.
Proof.
  intros Hb. unfold bitmap_to_ewah. rewrite (bm_rep_len _ _ Hb). pose proof (zlen_nonneg ws).
  destruct (ewah_new_spec junk) as (e0 & -> & He0 & Hbs0). run.
  destruct (for_range_ret (fun i '(e, run, last) => exists em, ewah_rep e em /\ is_word (eb_bit_size e) /\
      0 <= run /\ is_word last /\
      em ++ (if tru last then [last] else []) ++ replicate (Z.to_nat run) 0 = take (Z.to_nat i) ws)
    (Z.to_nat (zlen ws)) 0 (to_ewah_step junk b) (e0, 0, 0) (fun _ => False)) as (r & -> & Hr).
  - intros j [[e nz] last] Hj (em & He & Hbs & Hrun & Hlast & Heq).
    destruct (zlen_lookup ws j) as [w Hw]; [lia|]. unfold to_ewah_step.
    rewrite (bm_rep_rd _ _ _ _ Hb Hw) by lia. run.
    pose proof (Forall_lookup_1 _ _ _ _ (proj2 Hb) Hw) as Hww.
    replace (Z.to_nat (j + 1)) with (S (Z.to_nat j)) by lia. rewrite (take_S_r _ _ _ Hw), <-Heq.
    case_if.
    + subst w. eexists. split; [done|]. cbv beta iota. exists em.
      split; [done|]. split; [done|]. split; [lia|]. split; [done|].
      replace (Z.to_nat (nz + 1)) with (Z.to_nat nz + 1)%nat by lia.
      by rewrite replicate_add, <-!(assoc app).
    + assert (exists e1, (if tru last then '(e, _) ← ewah_add junk e last; Ret e else Ret e) = Ret e1 /\
        ewah_rep e1 (em ++ if tru last then [last] else []) /\ is_word (eb_bit_size e1)) as (e1 & -> & He1 & Hbs1).
      { destruct (tru last); [|exists e; by rewrite app_nil_r].
        destruct (ewah_add_spec junk e em last He Hlast) as (e1 & a & -> & He1 & Hb1 & _). run.
        exists e1. rewrite Hb1. split; [done|]. split; [done|apply u64_range]. }
      run.
      assert (exists e2, (if nz >? 0 then '(e, _) ← ewah_add_empty_words junk e1 0 nz; Ret (e, 0)
          else Ret (e1, nz)) = Ret (e2, 0) /\
        ewah_rep e2 ((em ++ if tru last then [last] else []) ++ replicate (Z.to_nat nz) 0) /\
        is_word (eb_bit_size e2)) as (e2 & -> & He2 & Hbs2).
      { case_if.
        - destruct (ewah_add_empty_words_spec junk e1 _ 0 nz He1) as (e2 & a & -> & He2 & Hb2 & _); [auto|lia|done|]. run.
          exists e2. rewrite Hb2. split; [done|]. split; [done|apply u64_range].
        - assert (nz = 0) as -> by lia. exists e1. by rewrite app_nil_r. }
      run. eexists. split; [done|]. cbv beta iota. eexists. split; [exact He2|]. split; [done|].
      split; [lia|]. split; [done|]. rewrite (proj2 (tru_true w)) by done. by rewrite <-!(assoc app).
  - exists []. rewrite Hbs0. split; [done|]. split; [apply is_word_0|]. split; [lia|]. split; [apply is_word_0|done].
  - destruct r as [[[e nz] last]|[]]. destruct Hr as (em & He & Hbs & Hrun & Hlast & Heq). run.
    destruct (ewah_add_spec junk e em last He Hlast) as (e1 & a & -> & He1 & _). run.
    exists e1, (em ++ [last]). split; [done|]. split; [done|].
    rewrite Z.add_0_l, Nat2Z.id, take_ge in Heq by (unfold zlen; lia).
    intros k. rewrite <-Heq. destruct (tru last) eqn:E; zb.
    + by rewrite (assoc app), wbit_zeros.
    + subst last. cbn [app]. rewrite wbit_zeros. apply (wbit_zeros em 1).
Qed.

Lemma zero_words_spec ws :
  fold_words (fun word (_ : unit) => if tru word then Ret (inr false) else Ret (inl tt)) ws tt =
    Ret (if bool_decide (Forall (fun w => w = 0) ws) then inl tt else inr false).
Proof.
  induction ws as [|w ws IH]; cbn [fold_words]; [done|]. destruct (tru w) eqn:E; zb; run.
  - rewrite bool_decide_false; [done|]. intros Hf. by inversion Hf.
  - rewrite IH. erewrite bool_decide_ext; [done|]. rewrite Forall_cons_iff. naive_solver.
Qed.

Lemma Forall_zero_bits ws n :
  Forall is_word ws -> 0 <= n ->
  Forall (fun w => w = 0) (drop (Z.to_nat n) ws) <-> (forall k, 0 <= k -> n <= k / 64 -> wbit ws k = false).
Proof.
  intros Hws Hn. split.
  - intros Hz k Hk Hnk. destruct (decide (k / 64 < zlen ws)) as [Hlt|]; [|apply wbit_beyond; lia].
    destruct (zlen_lookup ws (k / 64)) as [x Hx]; [lia|].
    rewrite (wbit_lookup ws _ x k Hx eq_refl).
    assert (drop (Z.to_nat n) ws !! (Z.to_nat (k / 64) - Z.to_nat n)%nat = Some x) as Hd.
    { rewrite lookup_drop. by replace (_ + _)%nat with (Z.to_nat (k / 64)) by lia. }
    rewrite (Forall_lookup_1 _ _ _ _ Hz Hd). apply Z.bits_0.
  - intros Hz. apply Forall_lookup. intros j x Hx. rewrite lookup_drop in Hx.
    replace (Z.to_nat n + j)%nat with (Z.to_nat (n + Z.of_nat j)) in Hx by lia.
    apply word_ext; [apply (Forall_lookup_1 _ _ _ _ Hws Hx)|apply is_word_0|].
    pose proof (word_forall (fun _ b => b = false) ws (n + Z.of_nat j) x Hx ltac:(lia)) as Hall.
    intros k Hk. rewrite Z.bits_0. apply (proj2 Hall); [|done]. intros k' Hk' Heq. apply Hz; lia.
Qed.

(** [ewah_bitmap_is_subset] answers 1 exactly when all bits of the compressed
    bitmap are in the other one. *)
Lemma ewah_bitmap_is_subset_spec e we b wb :
  ewah_rep e we -> bm_rep b wb ->
  exists r, ewah_bitmap_is_subset e b = Ret r /\
    (r = true <-> forall k, 0 <= k -> wbit we k = true -> wbit wb k = true).
Proof.
  intros He%ewah_rep_loose Hb. unfold ewah_bitmap_is_subset. rewrite (bm_rep_len _ _ Hb).
  destruct (ewah_iterator_init_spec e we He) as (data & it0 & -> & Hit). run.
  pose proof (zlen_nonneg wb). pose proof (ewah_loose_words _ _ He) as Hwe.
  destruct (for_range_ret (fun i it => it_rep data it (drop (Z.to_nat i) we) /\
      forall k, 0 <= k -> k / 64 < i -> wbit we k = true -> wbit wb k = true)
    (Z.to_nat (zlen wb)) 0 (subset_step b) it0
    (fun r => r = true <-> forall k, 0 <= k -> wbit we k = true -> wbit wb k = true)) as (r & -> & Hr).
  - intros j it Hj [Hitj Hsub]. unfold subset_step. pose proof (it_next_spec _ _ _ Hitj) as Hn.
    destruct (drop (Z.to_nat j) we) as [|x rest] eqn:Ed.
    + rewrite Hn. run. eexists. split; [done|]. cbv iota. split; [intros _|done]. intros k Hk Hbit.
      apply Hsub; [done| |done]. destruct (decide (k / 64 < j)); [done|].
      apply (f_equal length) in Ed. rewrite length_drop in Ed. cbn in Ed.
      rewrite wbit_beyond in Hbit; [done|done|unfold zlen; lia].
    + destruct Hn as (it' & -> & Hit'). run.
      assert (we !! Z.to_nat j = Some x) as Hx.
      { rewrite <-(Nat.add_0_r (Z.to_nat j)), <-lookup_drop, Ed. done. }
      destruct (zlen_lookup wb j) as [y Hy]; [lia|]. rewrite (bm_rep_rd _ _ _ _ Hb Hy) by lia. run.
      pose proof (Forall_lookup_1 _ _ _ _ Hwe Hx) as Hxw.
      pose proof (words_agree we wb j x y (fun p q => p = true -> q = true) Hx Hy ltac:(lia)) as Hag.
      pose proof (land_wnot_0 x y Hxw) as Hland.
      destruct (tru (Z.land x (wnot y))); eexists; (split; [done|]); cbv iota.
      * split; [done|]. intros Hall. assert (true = false) as Hf; [|done].
        apply (proj2 Hland), (proj2 Hag). intros k Hk _. by apply Hall.
      * replace (Z.to_nat (j + 1)) with (S (Z.to_nat j)) by lia.
        rewrite (drop_S _ _ _ Hx) in Ed. injection Ed as ->. split; [done|].
        intros k Hk Hkj. destruct (decide (k / 64 = j)); [|apply Hsub; lia].
        by apply (proj1 Hag); [apply Hland|..].
  - split; [done|]. intros k Hk Hk0. assert (0 <= k / 64) by (apply Z.div_pos; lia). lia.
  - destruct r as [it|r]; [|by exists r].
    run. rewrite Z.add_0_l, Nat2Z.id in Hr. destruct Hr as [Hit' Hsub].
    rewrite (each_word_spec e we data it _ _ _ He Hit') by (unfold zlen; rewrite length_drop; lia).
    rewrite zero_words_spec. run.
    pose proof (Forall_zero_bits we (zlen wb) Hwe ltac:(lia)) as Hz.
    case_bool_decide as Hd; eexists; (split; [done|]).
    + split; [intros _|done]. intros k Hk Hbit. destruct (decide (k / 64 < zlen wb)).
      * apply Hsub; (done || lia).
      * rewrite (proj1 Hz Hd k) in Hbit by lia. done.
    + split; [done|]. intros Hall. exfalso. apply Hd, Hz. intros k Hk Hge.
      destruct (wbit we k) eqn:E; [|done]. apply Hall in E; [|done].
      by rewrite wbit_beyond in E by lia.
Qed.

Lemma or_words_spec rest : forall self ws c,
  bm_rep self ws -> Forall is_word rest -> 0 <= c -> c + zlen rest <= zlen ws ->
  exists self' ws',
    fold_words (fun word '(self, i) =>
      self ← upd_word self i (fun x => Z.lor x word);
      Ret (inl (self, i + 1))) rest (self, c) = Ret (inl (self', c + zlen rest) : bitmap * Z + Empty_set) /\
    bm_rep self' ws' /\
    forall k, 0 <= k -> wbit ws' k = wbit ws k || (if k / 64 <? c then false else wbit rest (k - 64 * c)).
Proof.
  induction rest as [|x rest IH]; intros self ws c Hself Hrest Hc Hle.
  - exists self, ws. rewrite zlen_nil, Z.add_0_r. split; [done|]. split; [done|]. intros k Hk.
    case_if; [by rewrite orb_false_r|]. rewrite (wbit_beyond []), orb_false_r; [done|..].
    + Z.to_euclidean_division_equations; lia.
    + rewrite zlen_nil. apply Z.div_pos; [Z.to_euclidean_division_equations; lia|lia].
  - apply Forall_cons_iff in Hrest as [Hx Hrest]. rewrite zlen_cons in Hle. pose proof (zlen_nonneg rest).
    cbn [fold_words]. destruct (zlen_lookup ws c) as [w Hw]; [lia|].
    pose proof (Forall_lookup_1 _ _ _ _ (proj2 Hself) Hw) as Hww.
    destruct (upd_word_spec self ws c w (fun y => Z.lor y x) Hself Hc Hw) as (s1 & -> & Hs1 & _);
      [by apply lor_lt|]. run.
    destruct (IH s1 _ (c + 1) Hs1 Hrest) as (s2 & ws2 & -> & Hs2 & Hbits); [lia|rewrite zlen_insert; lia|].
    exists s2, ws2. rewrite zlen_cons, Z.add_assoc. split; [done|]. split; [done|].
    intros k Hk. rewrite Hbits, wbit_insert by lia.
    assert (forall q, q = k / 64 - c -> 0 <= q -> wbit (x :: rest) (k - 64 * c) =
      if q =? 0 then Z.testbit x (k mod 64) else wbit rest (k - 64 * (c + 1))) as Hcons.
    { intros q Hq Hq0. unfold wbit.
      replace ((k - 64 * c) / 64) with q by (Z.to_euclidean_division_equations; lia).
      replace ((k - 64 * (c + 1)) / 64) with (q - 1) by (Z.to_euclidean_division_equations; lia).
      replace ((k - 64 * c) mod 64) with (k mod 64) by (Z.to_euclidean_division_equations; lia).
      replace ((k - 64 * (c + 1)) mod 64) with (k mod 64) by (Z.to_euclidean_division_equations; lia).
      case_if; [by replace (Z.to_nat q) with 0%nat by lia|]. replace (Z.to_nat q) with (S (Z.to_nat (q - 1))) by lia. done. }
    destruct (Z.ltb_spec (k / 64) (c + 1)), (Z.ltb_spec (k / 64) c); try lia.
    + destruct (Z.eqb_spec (k / 64) c); [lia|done].
    + rewrite (Hcons (k / 64 - c)) by lia. destruct (Z.eqb_spec (k / 64) c) as [Heq|]; [|lia].
      rewrite (proj2 (Z.eqb_eq (k / 64 - c) 0)), orb_false_r by lia.
      rewrite Z.lor_spec. by rewrite (wbit_lookup ws c w k Hw Heq).
    + rewrite (Hcons (k / 64 - c)) by lia. destruct (Z.eqb_spec (k / 64) c); [lia|].
      destruct (Z.eqb_spec (k / 64 - c) 0); [lia|done].
Qed.

(** [bitmap_or_ewah], for a bitmap whose [bit_size] covers its words. *)
Lemma bitmap_or_ewah_spec b wb e we :
  bm_rep b wb -> ewah_rep e we -> 0 <= eb_bit_size e -> zlen we <= eb_bit_size e / 64 + 1 ->
  exists b' wb', bitmap_or_ewah junk b e = Ret b' /\ bm_rep b' wb' /\
    forall k, 0 <= k -> wbit wb' k = wbit wb k || wbit we k.
Proof.
  intros Hb He%ewah_rep_loose Hbs Hle. unfold bitmap_or_ewah. rewrite (bm_rep_len _ _ Hb).
  unfold BITS_IN_EWORD. set (n := eb_bit_size e / 64 + 1) in *.
  assert (0 < n) by (unfold n; assert (0 <= eb_bit_size e / 64) by (apply Z.div_pos; lia); lia).
  assert (exists b1 z, (if zlen wb <? n then
        words ← fill_range (realloc junk (bm_words b) n) (zlen wb) (n - zlen wb) 0; Ret (Bitmap words n)
      else Ret b) = Ret b1 /\ bm_rep b1 (wb ++ replicate z 0) /\ n <= zlen (wb ++ replicate z 0))
    as (b1 & z & -> & Hb1 & Hn1).
  { case_if.
    - destruct (zero_tail_spec (Bitmap (realloc junk (bm_words b) n) (zlen wb)) wb n) as (words & Hfill & Hrep).
      + split; [|apply Hb]. cbn [bm_words bm_word_alloc]. destruct Hb as [Hf _].
        pose proof Hf as [Hl _]. rewrite <-Hl in Hf. apply filled_realloc; [done|lia].
      + cbn [bm_words]. rewrite zlen_realloc; lia.
      + cbn [bm_words] in Hfill. rewrite Hfill. run. eexists _, _. split; [done|]. split; [exact Hrep|].
        rewrite zlen_app, zlen_replicate. lia.
    - exists b, 0%nat. cbn [replicate]. rewrite app_nil_r. done. }
  run. destruct (ewah_iterator_init_spec e we He) as (data & it & -> & Hit). run.
  rewrite (each_word_spec e we data it we _ _ He Hit) by lia.
  destruct (or_words_spec we b1 _ 0 Hb1 (ewah_loose_words _ _ He)) as (b2 & wb2 & Hfold & Hb2 & Hbits); [lia..|].
  rewrite Hfold. run. exists b2, wb2. split; [done|]. split; [done|]. intros k Hk. rewrite Hbits, wbit_zeros by done.
  assert (0 <= k / 64) by (apply Z.div_pos; lia). case_if; [lia|]. do 2 f_equal. lia.
Qed.

Lemma equals_words_spec b wb we : forall rest c,
  bm_rep b wb -> Forall is_word we -> 0 <= c -> drop (Z.to_nat c) we = rest -> c <= zlen we ->
  let r := fold_words (fun word i =>
      '(w, i) ← (if i <? bm_word_alloc b then w ← rd (bm_words b) i; Ret (w, i + 1) else Ret (0, i));
      if negb (word =? w) then Ret (inr false) else Ret (inl i)) rest (Z.min c (zlen wb)) in
  let same := forall k, 0 <= k -> c <= k / 64 < zlen we -> wbit wb k = wbit we k in
  (r = Ret (inl (Z.min (zlen we) (zlen wb))) /\ same) \/ (r = Ret (inr false) /\ ~ same).
Proof.
  intros rest. induction rest as [|x rest IH]; intros c Hb Hwe Hc Hd Hle r same.
  - left. assert (zlen we <= c) as Hge.
    { apply (f_equal length) in Hd. rewrite length_drop in Hd. cbn in Hd. unfold zlen. lia. }
    split; [|intros k Hk Hk2; lia]. unfold r. cbn [fold_words]. do 3 f_equal. lia.
  - assert (we !! Z.to_nat c = Some x) as Hx.
    { rewrite <-(Nat.add_0_r (Z.to_nat c)), <-lookup_drop, Hd. done. }
    pose proof (Forall_lookup_1 _ _ _ _ Hwe Hx) as Hxw.
    assert (c < zlen we) as Hlt by (apply lookup_lt_Some in Hx; unfold zlen; lia).
    assert (rest = drop (Z.to_nat (c + 1)) we) as Hrest.
    { replace (Z.to_nat (c + 1)) with (S (Z.to_nat c)) by lia. rewrite (drop_S _ _ _ Hx) in Hd. congruence. }
    unfold r. cbn [fold_words]. rewrite (bm_rep_len _ _ Hb) in *.
    (* the word of the bitmap, zero beyond its end *)
    assert (exists w, (if Z.min c (zlen wb) <? zlen wb then
          w ← rd (bm_words b) (Z.min c (zlen wb)); Ret (w, Z.min c (zlen wb) + 1)
        else Ret (0, Z.min c (zlen wb))) = Ret (w, Z.min (c + 1) (zlen wb)) /\ is_word w /\
      forall k, 0 <= k -> k / 64 = c -> wbit wb k = Z.testbit w (k mod 64)) as (w & -> & Hww & Hwb).
    { case_if.
      - rewrite Z.min_l by lia. destruct (zlen_lookup wb c) as [w Hw]; [lia|].
        rewrite (bm_rep_rd _ _ _ _ Hb Hw) by lia. run. exists w. split; [do 2 f_equal; lia|].
        split; [apply (Forall_lookup_1 _ _ _ _ (proj2 Hb) Hw)|]. intros k Hk Hkc. by apply (wbit_lookup wb c).
      - exists 0. split; [do 2 f_equal; lia|]. split; [apply is_word_0|]. intros k Hk Hkc.
        rewrite Z.bits_0. apply wbit_beyond; lia. }
    run. destruct (x =? w) eqn:E; zb; cbn [negb].
    + subst w. destruct (IH (c + 1) Hb Hwe) as [[Hr Hs]|[Hr Hs]]; [lia|done|lia|left|right];
        (split; [exact Hr|]).
      * intros k Hk Hkc. destruct (decide (k / 64 = c)) as [Heq|]; [|apply Hs; lia].
        by rewrite Hwb, (wbit_lookup we c x k Hx Heq) by done.
      * intros Hs'. apply Hs. intros k Hk Hkc. apply Hs'; lia.
    + right. split; [done|]. intros Hs. apply E. apply word_ext; [done..|]. intros k Hk.
      specialize (Hs (64 * c + k)). assert ((64 * c + k) / 64 = c) as Hq by (Z.to_euclidean_division_equations; lia).
      assert ((64 * c + k) mod 64 = k) as Hm by (Z.to_euclidean_division_equations; lia).
      rewrite Hwb, (wbit_lookup we c x _ Hx), Hm in Hs by (done || lia).
      symmetry. apply Hs; [lia|]. rewrite Hq. lia.
Qed.

Lemma bitmap_equals_ewah_spec b wb e we :
  bm_rep b wb -> ewah_rep e we ->
  exists r, bitmap_equals_ewah b e = Ret r /\ (r = true <-> forall k, 0 <= k -> wbit wb k = wbit we k).
Proof.
  intros Hb He%ewah_rep_loose. unfold bitmap_equals_ewah.
  destruct (ewah_iterator_init_spec e we He) as (data & it & -> & Hit). run.
  rewrite (each_word_spec e we data it we _ _ He Hit) by lia.
  pose proof (zlen_nonneg wb). pose proof (zlen_nonneg we).
  destruct (equals_words_spec b wb we we 0 Hb (ewah_loose_words _ _ He)) as [[Hr Hs]|[Hr Hs]]; [lia|done|lia|..];
    rewrite Z.min_l in Hr by lia; rewrite Hr; run.
  - rewrite (bm_rep_len _ _ Hb). set (m := Z.min (zlen we) (zlen wb)).
    destruct (all_zero_spec b wb (Z.to_nat (zlen wb - m)) m Hb) as (r & -> & Hz); [lia..|].
    exists r. split; [done|]. rewrite Hz. split; intros Hall k Hk.
    + assert (0 <= k / 64) by (apply Z.div_pos; lia).
      destruct (decide (k / 64 < zlen we)); [apply Hs; lia|]. rewrite (wbit_beyond we) by lia.
      destruct (decide (k / 64 < zlen wb)); [apply Hall; lia|apply wbit_beyond; lia].
    + intros Hk2. rewrite Hall by done. apply wbit_beyond; lia.
  - exists false. split; [done|]. split; [done|]. intros Hall. exfalso. apply Hs. intros k Hk _. by apply Hall.
Qed.
End rep.
