(* ===== verification/EwahSpec.v ===== *)
(** What the compressed and uncompressed bitmaps promise their users, in terms
    of bit positions: building refines appending to a list of words, setting
    ascending positions and visiting the bits are inverse, exclusive or and the
    set operations work bit by bit, the comparisons decide the relations of the
    bit sets, and conversion between the two forms keeps the bits. *)
From Stdlib Require Import Sorted.
From S2P Require Import Prelude Headers Ewah EwahRead EwahXor EwahBitmap.

Section spec.
Context `{GitCompatOk, RlwOk}.
Context (junk : Z).

(** ** Building *)

(** The calls that extend a compressed bitmap. *)
Inductive ewah_op :=
| Add (word : Z)
| AddEmpty (v number : Z)
| AddDirty (words : list Z) (negate : bool).

Definition op_ok (op : ewah_op) : Prop :=
  match op with
  | Add w => is_word w
  | AddEmpty v n => (v = 0 \/ v = 1) /\ 0 <= n
  | AddDirty ws _ => Forall is_word ws
  end.

Definition run_op (op : ewah_op) (self : ewah_bitmap) : outcome ewah_bitmap :=
  match op with
  | Add w => '(self, _) ← ewah_add junk self w; Ret self
  | AddEmpty v n => '(self, _) ← ewah_add_empty_words junk self v n; Ret self
  | AddDirty ws negate => ewah_add_dirty_words junk self ws 0 (zlen ws) negate
  end.

(** The words a call appends. *)
Definition op_words (op : ewah_op) : list Z :=
  match op with
  | Add w => [w]
  | AddEmpty v n => replicate (Z.to_nat n) (fill_word v)
  | AddDirty ws negate => neg_words negate ws
  end.

Fixpoint run_ops (ops : list ewah_op) (self : ewah_bitmap) : outcome ewah_bitmap :=
  match ops with
  | [] => Ret self
  | op :: ops => self ← run_op op self; run_ops ops self
  end.

Lemma run_op_spec op self ws :
  op_ok op -> ewah_rep self ws -> eb_bit_size self = u64 (64 * zlen ws) ->
  exists self', run_op op self = Ret self' /\ ewah_rep self' (ws ++ op_words op) /\
    eb_bit_size self' = u64 (64 * zlen (ws ++ op_words op)).
Proof.
  intros Hop Hrep Hbs. assert (is_word (eb_bit_size self)) as Hw by (rewrite Hbs; apply u64_range).
  pose proof (zlen_nonneg ws).
  destruct op as [w|v n|dws negate]; cbn [op_ok run_op op_words] in *.
  - destruct (ewah_add_spec junk self ws w Hrep Hop) as (s & a & -> & Hs & Hb & _). run.
    eexists. split; [done|]. split; [done|]. rewrite Hb, Hbs, u64_add_idemp, zlen_snoc. f_equal. lia.
  - destruct Hop as [Hv Hn].
    destruct (ewah_add_empty_words_spec junk self ws v n Hrep Hv Hn Hw) as (s & a & -> & Hs & Hb & _). run.
    eexists. split; [done|]. split; [done|]. rewrite Hb, Hbs, u64_add_idemp, zlen_app, zlen_replicate.
    f_equal. lia.
  - destruct (ewah_add_dirty_words_spec junk self ws dws 0 (zlen dws) negate Hrep) as (s & -> & Hs & Hb);
      [by rewrite slice_full|lia|apply zlen_nonneg|lia|done|].
    rewrite slice_full in Hs. eexists. split; [done|]. split; [done|].
    rewrite Hb, Hbs, u64_add_idemp, zlen_app, zlen_neg_words. f_equal. lia.
Qed.

Lemma ewah_build ops :
  Forall op_ok ops ->
  let words := concat (op_words <$> ops) in
  exists e, (self ← ewah_new junk; run_ops ops self) = Ret e /\ ewah_rep e words /\
    eb_bit_size e = u64 (64 * zlen words).
Proof.
  intros Hops words. destruct (ewah_new_spec junk) as (e0 & -> & He0 & Hb0). run.
  assert (forall ws self, ewah_rep self ws -> eb_bit_size self = u64 (64 * zlen ws) ->
    exists e, run_ops ops self = Ret e /\ ewah_rep e (ws ++ words) /\
      eb_bit_size e = u64 (64 * zlen (ws ++ words))) as Hrun; [|by apply (Hrun [] e0 He0); rewrite Hb0].
  unfold words. clear words. induction Hops as [|op ops Hop Hops IH]; intros ws self Hrep Hbs;
    cbn [run_ops fmap list_fmap concat].
  - exists self. by rewrite app_nil_r.
  - destruct (run_op_spec op self ws Hop Hrep Hbs) as (s & -> & Hs & Hb). run.
    destruct (IH _ s Hs Hb) as (e & -> & He & Hbe). exists e. by rewrite <-(assoc app) in *.
Qed.

(** [C6] Building refines appending: whatever sequence of [ewah_add],
    [ewah_add_empty_words] and [ewah_add_dirty_words] calls is made on a new
    bitmap, no access leaves the buffer, no [assert] fails, and the result
    stands for exactly the words of the calls in order, with their number of
    bits as [bit_size]; expanding it gives those words back. *)
Theorem ewah_build_refines ops :
  Forall op_ok ops ->
  let words := concat (op_words <$> ops) in
  exists e bm, (self ← ewah_new junk; run_ops ops self) = Ret e /\
    ewah_rep e words /\ eb_bit_size e = u64 (64 * zlen words) /\
    ewah_to_bitmap junk e = Ret bm /\ take (Z.to_nat (bm_word_alloc bm)) (bm_words bm) = words.
Proof.
  intros Hops words. destruct (ewah_build ops Hops) as (e & -> & He & Hb).
  destruct (ewah_to_bitmap_spec junk e _ He) as (bm & Hbm & [Hf _]).
  exists e, bm. split; [done|]. split; [done|]. split; [done|]. split; [done|].
  by rewrite (filled_take _ _ _ Hf).
Qed.

(** ** Positions *)

Fixpoint set_all (l : list Z) (self : ewah_bitmap) : outcome ewah_bitmap :=
  match l with
  | [] => Ret self
  | i :: l => self ← ewah_set junk self i; set_all l self
  end.

Lemma set_all_spec l self ws :
  ewah_bits self ws -> StronglySorted Z.lt l -> Forall (fun i => eb_bit_size self <= i < 2 ^ 64 - 2) l ->
  exists self' ws', set_all l self = Ret self' /\ ewah_rep self' ws' /\
    forall k, 0 <= k -> wbit ws' k = true <-> wbit ws k = true \/ k ∈ l.
Proof.
  revert self ws. induction l as [|i l IH]; intros self ws Hbits Hs Hl; cbn [set_all].
  - exists self, ws. split; [done|]. split; [apply Hbits|]. intros k _. set_solver.
  - apply StronglySorted_inv in Hs as [Hs Hlt]. apply Forall_cons_iff in Hl as [Hi Hl].
    pose proof (bits_size _ _ Hbits).
    destruct (ewah_set_spec junk self ws i Hbits Hi) as (s & -> & Hsb & Hsi). run.
    destruct (IH s _ Hsb Hs) as (s' & ws' & -> & Hrep & Hk).
    { apply Forall_forall. intros j Hj. rewrite Forall_forall in Hlt, Hl.
      specialize (Hlt j Hj). specialize (Hl j Hj). lia. }
    exists s', ws'. split; [done|]. split; [done|]. intros k Hk0. rewrite Hk, wbit_set_words by lia.
    rewrite orb_true_iff, Z.eqb_eq. set_solver.
Qed.

(** Two strictly ascending lists with the same elements. *)
Lemma ascending_unique (l1 l2 : list Z) :
  StronglySorted Z.lt l1 -> StronglySorted Z.lt l2 -> (forall x, x ∈ l1 <-> x ∈ l2) -> l1 = l2.
Proof.
  intros Hs1. revert l2. induction Hs1 as [|x l1 Hs1 IH Hx]; intros l2 Hs2 Heq.
  - destruct l2 as [|y l2]; [done|]. exfalso. assert (y ∈ @nil Z) by (apply Heq; set_solver). set_solver.
  - destruct Hs2 as [|y l2 Hs2 Hy]; [exfalso; assert (x ∈ @nil Z) by (apply Heq; set_solver); set_solver|].
    rewrite Forall_forall in Hx, Hy.
    assert (x = y) as ->.
    { assert (x ∈ y :: l2) as [?|Hx2]%elem_of_cons by (apply Heq; set_solver); [done|].
      assert (y ∈ x :: l1) as [?|Hy2]%elem_of_cons by (apply Heq; set_solver); [done|].
      specialize (Hx y Hy2). specialize (Hy x Hx2). lia. }
    f_equal. apply IH; [done|]. intros z. split; intros Hz.
    + assert (z ∈ y :: l2) as [->|?]%elem_of_cons by (apply Heq; set_solver); [|done].
      specialize (Hx y Hz). lia.
    + assert (z ∈ y :: l1) as [->|?]%elem_of_cons by (apply Heq; set_solver); [|done].
      specialize (Hy y Hz). lia.
Qed.

Lemma seq_sorted n m : StronglySorted lt (seq n m).
Proof.
  revert n. induction m as [|m IH]; intros n; cbn [seq]; constructor; [done|].
  apply Forall_forall. intros x Hx. apply elem_of_seq in Hx. lia.
Qed.

Lemma run_calls_sorted n : StronglySorted Z.lt (run_calls 0 n).
Proof.
  unfold run_calls. generalize (seq_sorted 0 (Z.to_nat n)). generalize (seq 0 (Z.to_nat n)) as l.
  induction 1 as [|x l Hs IH Hx]; constructor; [done|].
  apply Forall_fmap. eapply Forall_impl; [done|]. simpl. lia.
Qed.

Lemma filter_sorted (P : Z -> bool) (l : list Z) : StronglySorted Z.lt l -> StronglySorted Z.lt (filter P l).
Proof.
  induction 1 as [|x l Hs IH Hx]; [constructor|]. rewrite filter_cons. case_decide; [|done].
  constructor; [done|]. rewrite Forall_forall in *. intros y Hy. apply Hx.
  by apply list_elem_of_filter in Hy as [_ ?].
Qed.

Lemma run_calls_mem k n : k ∈ run_calls 0 n <-> 0 <= k < n.
Proof.
  split; [intros ?%run_calls_elem; lia|]. intros Hk. unfold run_calls. apply list_elem_of_fmap.
  exists (Z.to_nat k). split; [lia|]. apply elem_of_seq. lia.
Qed.

(** Setting ascending positions and visiting the bits are inverse: after
    [ewah_set] at every position of a strictly ascending list, starting from a
    new bitmap, [ewah_each_bit] calls back exactly those positions in that
    order, and [ewah_bitmap_popcount] is their number. *)
Theorem ewah_set_each_bit l :
  StronglySorted Z.lt l -> Forall (fun i => 0 <= i < 2 ^ 64 - 2) l ->
  exists e, (self ← ewah_new junk; set_all l self) = Ret e /\
    ewah_each_bit e = Ret l /\ ewah_bitmap_popcount e = Ret (zlen l).
Proof.
  intros Hs Hl. destruct (ewah_new_spec junk) as (e0 & -> & He0 & Hb0). run.
  destruct (set_all_spec l e0 []) as (e & ws & -> & He & Hk); [|done|by rewrite Hb0|].
  { split; rewrite ?Hb0; [done|lia|done|]. intros k Hk. apply wbit_beyond; [lia|].
    rewrite zlen_nil. by apply Z.div_pos. }
  assert (bits_from 0 ws = l) as Hbits.
  { rewrite bits_from_filter. apply ascending_unique; [apply filter_sorted, run_calls_sorted|done|].
    intros k. rewrite list_elem_of_filter, run_calls_mem. split.
    - intros [Hw Hk0]. apply Is_true_true in Hw. apply Hk in Hw as [Hw|]; [|done|lia].
      rewrite wbit_beyond in Hw; [done|lia|]. rewrite zlen_nil. apply Z.div_pos; lia.
    - intros Hin. rewrite Forall_forall in Hl. specialize (Hl k Hin).
      assert (wbit ws k = true) as Hw by (apply Hk; [lia|by right]). split; [by apply Is_true_true|].
      split; [lia|]. destruct (decide (k < 64 * zlen ws)); [done|].
      rewrite wbit_beyond in Hw; [done|lia|]. Z.to_euclidean_division_equations; lia. }
  exists e. split; [done|]. rewrite (ewah_each_bit_calls e ws (ewah_rep_loose _ _ He)), Hbits.
  split; [done|]. rewrite (ewah_bitmap_popcount_spec e ws He). unfold count_bits. by rewrite Hbits.
Qed.

(** [C7] [ewah_xor] is exclusive or, bit by bit, for bitmaps of any two lengths
    and any mix of runs and literals: expanding the result of combining two
    built bitmaps into a new one gives the exclusive or of their bits at every
    position, and its [bit_size] is the larger of the two.  The bitmaps have
    fewer than 2^30 words each, so that the lengths of runs and literals and the
    positions of the iterator, which are ints, do not overflow. *)
Theorem ewah_xor_bits ops_i ops_j :
  Forall op_ok ops_i -> Forall op_ok ops_j ->
  zlen (concat (op_words <$> ops_i)) < 2 ^ 30 -> zlen (concat (op_words <$> ops_j)) < 2 ^ 30 ->
  exists e_i e_j out bm,
    (self ← ewah_new junk; run_ops ops_i self) = Ret e_i /\
    (self ← ewah_new junk; run_ops ops_j self) = Ret e_j /\
    (self ← ewah_new junk; ewah_xor junk e_i e_j self) = Ret out /\
    eb_bit_size out = Z.max (eb_bit_size e_i) (eb_bit_size e_j) /\
    ewah_to_bitmap junk out = Ret bm /\
    forall k, 0 <= k -> bitmap_get bm k =
      Ret (xorb (wbit (concat (op_words <$> ops_i)) k) (wbit (concat (op_words <$> ops_j)) k)).
Proof.
  intros Hi Hj Hli Hlj. set (a := concat (op_words <$> ops_i)) in *. set (b := concat (op_words <$> ops_j)) in *.
  destruct (ewah_build ops_i Hi) as (e_i & Hri & Hei & _).
  destruct (ewah_build ops_j Hj) as (e_j & Hrj & Hej & _).
  destruct (ewah_new_spec junk) as (e0 & He0n & He0 & Hb0).
  destruct (ewah_xor_words junk e_i e_j e0 a b [] Hei Hej He0) as (out & Hx & Hout & Hbs);
    [rewrite Hb0; apply is_word_0|lia|lia|].
  destruct (ewah_to_bitmap_spec junk out _ Hout) as (bm & Hbm & Hrep).
  exists e_i, e_j, out, bm. split; [done|]. split; [done|]. split; [by rewrite He0n|].
  split; [done|]. split; [done|]. intros k Hk.
  by rewrite (bitmap_get_spec bm _ k Hrep Hk), app_nil_l, wbit_xor_words.
Qed.

(** ** Sets of positions *)

(** Bitmaps made from the empty one by the operations of bitmap.c, and the
    positions they stand for. *)
Inductive bitmap_cmd :=
| New
| SetBit (b : bitmap_cmd) (pos : Z)
| UnsetBit (b : bitmap_cmd) (pos : Z)
| Dup (b : bitmap_cmd)
| Or (b other : bitmap_cmd)
| AndNot (b other : bitmap_cmd)
| Compress (b : bitmap_cmd).

Fixpoint cmd_ok (c : bitmap_cmd) : Prop :=
  match c with
  | New => True
  | SetBit b pos | UnsetBit b pos => cmd_ok b /\ 0 <= pos
  | Dup b | Compress b => cmd_ok b
  | Or b other | AndNot b other => cmd_ok b /\ cmd_ok other
  end.

Fixpoint run_cmd (c : bitmap_cmd) : outcome bitmap :=
  match c with
  | New => Ret bitmap_new
  | SetBit b pos => b ← run_cmd b; bitmap_set junk b pos
  | UnsetBit b pos => b ← run_cmd b; bitmap_unset b pos
  | Dup b => b ← run_cmd b; bitmap_dup b
  | Or b other => b ← run_cmd b; other ← run_cmd other; bitmap_or junk b other
  | AndNot b other => b ← run_cmd b; other ← run_cmd other; bitmap_and_not b other
  | Compress b => b ← run_cmd b; e ← bitmap_to_ewah junk b; ewah_to_bitmap junk e
  end.

(** Whether position [k] is in the set. *)
Fixpoint cmd_bit (c : bitmap_cmd) (k : Z) : bool :=
  match c with
  | New => false
  | SetBit b pos => cmd_bit b k || (k =? pos)
  | UnsetBit b pos => cmd_bit b k && negb (k =? pos)
  | Dup b | Compress b => cmd_bit b k
  | Or b other => cmd_bit b k || cmd_bit other k
  | AndNot b other => cmd_bit b k && negb (cmd_bit other k)
  end.

Lemma run_cmd_spec c :
  cmd_ok c -> exists b ws, run_cmd c = Ret b /\ bm_rep b ws /\
    forall k, 0 <= k -> wbit ws k = cmd_bit c k.
Proof.
  induction c as [|c IH pos|c IH pos|c IH|c1 IH1 c2 IH2|c1 IH1 c2 IH2|c IH]; cbn [cmd_ok run_cmd cmd_bit]; intros Hok.
  - exists bitmap_new, (replicate 32 0). split; [done|]. split; [apply bitmap_new_spec|].
    intros k Hk. rewrite (wbit_zeros [] 32). apply wbit_beyond; [done|]. rewrite zlen_nil. by apply Z.div_pos.
  - destruct (IH (proj1 Hok)) as (b & ws & -> & Hb & Hk). run.
    destruct (bitmap_set_spec junk b ws pos Hb (proj2 Hok)) as (b' & ws' & -> & Hb' & Hk').
    exists b', ws'. split; [done|]. split; [done|]. intros k Hk0. by rewrite Hk', Hk.
  - destruct (IH (proj1 Hok)) as (b & ws & -> & Hb & Hk). run.
    destruct (bitmap_unset_spec b ws pos Hb (proj2 Hok)) as (b' & ws' & -> & Hb' & Hk').
    exists b', ws'. split; [done|]. split; [done|]. intros k Hk0. by rewrite Hk', Hk.
  - destruct (IH Hok) as (b & ws & -> & Hb & Hk). run.
    destruct (bitmap_dup_spec b ws Hb) as (b' & -> & Hb'). eauto.
  - destruct (IH1 (proj1 Hok)) as (b1 & w1 & -> & Hb1 & Hk1), (IH2 (proj2 Hok)) as (b2 & w2 & -> & Hb2 & Hk2). run.
    destruct (bitmap_or_spec junk b1 w1 b2 w2 Hb1 Hb2) as (b' & ws' & -> & Hb' & Hk').
    exists b', ws'. split; [done|]. split; [done|]. intros k Hk0. by rewrite Hk', Hk1, Hk2.
  - destruct (IH1 (proj1 Hok)) as (b1 & w1 & -> & Hb1 & Hk1), (IH2 (proj2 Hok)) as (b2 & w2 & -> & Hb2 & Hk2). run.
    destruct (bitmap_and_not_spec b1 w1 b2 w2 Hb1 Hb2) as (b' & ws' & -> & Hb' & Hk').
    exists b', ws'. split; [done|]. split; [done|]. intros k Hk0. by rewrite Hk', Hk1, Hk2.
  - destruct (IH Hok) as (b & ws & -> & Hb & Hk). run.
    destruct (bitmap_to_ewah_spec junk b ws Hb) as (e & we & -> & He & Hke). run.
    destruct (ewah_to_bitmap_spec junk e we He) as (b' & -> & Hb').
    exists b', we. split; [done|]. split; [done|]. intros k Hk0. by rewrite Hke, Hk.
Qed.

(** [C8] The bitmap operations are set operations on positions: every bitmap
    made by setting and unsetting bits, copying, or-ing, and-not-ing and
    compressing and expanding again is computed without leaving a buffer, and
    [bitmap_get] of any position - within the allocation or beyond it - tells
    whether the position is in the set. *)
Theorem bitmap_refines_set c k :
  cmd_ok c -> 0 <= k -> (b ← run_cmd c; bitmap_get b k) = Ret (cmd_bit c k).
Proof.
  intros Hc Hk. destruct (run_cmd_spec c Hc) as (b & ws & -> & Hb & Hbits). run.
  by rewrite (bitmap_get_spec b ws k Hb Hk), Hbits.
Qed.

(** [C9] The comparisons decide the relations of the sets: [bitmap_equals] is
    equality and [bitmap_is_subset] (whose 1 means "not a subset") inclusion of
    the positions, whatever the lengths of the bitmaps; [bitmap_is_empty]
    decides emptiness; comparing with the compressed form of the second
    bitmap gives the same answers. *)
Theorem bitmap_comparisons c1 c2 :
  cmd_ok c1 -> cmd_ok c2 ->
  exists b1 b2 e1 e2 eq sub empty,
    run_cmd c1 = Ret b1 /\ run_cmd c2 = Ret b2 /\
    bitmap_to_ewah junk b1 = Ret e1 /\ bitmap_to_ewah junk b2 = Ret e2 /\
    bitmap_equals b1 b2 = Ret eq /\ bitmap_equals_ewah b1 e2 = Ret eq /\
    (eq = true <-> forall k, 0 <= k -> cmd_bit c1 k = cmd_bit c2 k) /\
    bitmap_is_subset b1 b2 = Ret (negb sub) /\ ewah_bitmap_is_subset e1 b2 = Ret sub /\
    (sub = true <-> forall k, 0 <= k -> cmd_bit c1 k = true -> cmd_bit c2 k = true) /\
    bitmap_is_empty b1 = Ret empty /\
    (empty = true <-> forall k, 0 <= k -> cmd_bit c1 k = false).
Proof.
  intros Hc1 Hc2. destruct (run_cmd_spec c1 Hc1) as (b1 & w1 & Hr1 & Hb1 & Hk1).
  destruct (run_cmd_spec c2 Hc2) as (b2 & w2 & Hr2 & Hb2 & Hk2).
  destruct (bitmap_to_ewah_spec junk b1 w1 Hb1) as (e1 & we1 & He1 & Hre1 & Hke1).
  destruct (bitmap_to_ewah_spec junk b2 w2 Hb2) as (e2 & we2 & He2 & Hre2 & Hke2).
  destruct (bitmap_equals_spec b1 w1 b2 w2 Hb1 Hb2) as (eq & Heq & Heqk).
  destruct (bitmap_equals_ewah_spec b1 w1 e2 we2 Hb1 Hre2) as (eq' & Heq' & Heqk').
  destruct (bitmap_is_subset_spec b1 w1 b2 w2 Hb1 Hb2) as (sub & Hsub & Hsubk).
  destruct (ewah_bitmap_is_subset_spec e1 we1 b2 w2 Hre1 Hb2) as (sub' & Hsub' & Hsubk').
  destruct (bitmap_is_empty_spec b1 w1 Hb1) as (em & Hem & Hemk).
  assert (eq' = eq) as ->.
  { apply eq_bool_prop_intro. rewrite !Is_true_true, Heqk, Heqk'.
    split; intros Ha k Hk; specialize (Ha k Hk); by rewrite Hke2 in *. }
  assert (sub = negb sub') as ->.
  { assert (sub = false <-> sub' = true) as Hs; [|destruct sub, sub'; naive_solver].
    rewrite Hsubk, Hsubk'. split; intros Ha k Hk; specialize (Ha k Hk); by rewrite Hke1 in *. }
  exists b1, b2, e1, e2, eq, sub', em. repeat (split; [done|]).
  split; [|split; [done|split; [done|split; [|split; [done|]]]]].
  - rewrite Heqk. split; intros Ha k Hk; specialize (Ha k Hk); by rewrite Hk1, Hk2 in *.
  - rewrite Hsubk'. split; intros Ha k Hk; specialize (Ha k Hk); by rewrite Hke1, Hk1, Hk2 in *.
  - rewrite Hemk. split; intros Ha k Hk; specialize (Ha k Hk); by rewrite Hk1 in *.
Qed.

(** [bitmap_or_ewah] adds the positions of a compressed bitmap, for every
    compressed bitmap built by the [ewah_add] calls whose number of words the
    64-bit [bit_size] can express. *)
Theorem bitmap_or_ewah_bits c ops k :
  cmd_ok c -> Forall op_ok ops -> zlen (concat (op_words <$> ops)) < 2 ^ 58 -> 0 <= k ->
  exists e, (self ← ewah_new junk; run_ops ops self) = Ret e /\
    (b ← run_cmd c; b ← bitmap_or_ewah junk b e; bitmap_get b k) =
      Ret (cmd_bit c k || wbit (concat (op_words <$> ops)) k).
Proof.
  intros Hc Hops Hlen Hk. destruct (ewah_build ops Hops) as (e & He & Hrep & Hbs).
  destruct (run_cmd_spec c Hc) as (b & ws & -> & Hb & Hbits). run. pose proof (zlen_nonneg (concat (op_words <$> ops))).
  destruct (bitmap_or_ewah_spec junk b ws e _ Hb Hrep) as (b' & ws' & Hor & Hb' & Hbits').
  - rewrite Hbs. apply u64_range.
  - rewrite Hbs, u64_small by lia. Z.to_euclidean_division_equations; lia.
  - exists e. split; [done|]. rewrite Hor. run. by rewrite (bitmap_get_spec b' ws' k Hb' Hk), Hbits', Hbits.
Qed.
End spec.

(** ** Concrete runs *)

Definition w_ops : list ewah_op :=
  [AddEmpty 0 2; Add 5; AddEmpty 1 3; AddDirty [1; 2; 3] true; Add 0].
Definition w_ops2 : list ewah_op := [Add 7; AddEmpty 1 4; AddDirty [6; 9] false].

#[export] Instance op_ok_dec op : Decision (op_ok op).
Proof. destruct op; apply _. Defined.

Definition w_cmd : bitmap_cmd := AndNot (Or (SetBit New 3) (SetBit (SetBit New 70) 2100)) (SetBit New 70).

Section runs.
#[local] Existing Instance compat_ref.
#[local] Existing Instance rlw_ref.

Lemma ewah_build_refines_witness :
  exists e bm, (self ← ewah_new 0; run_ops 0 w_ops self) = Ret e /\
    ewah_rep e (concat (op_words <$> w_ops)) /\
    eb_bit_size e = u64 (64 * zlen (concat (op_words <$> w_ops))) /\
    ewah_to_bitmap 0 e = Ret bm /\
    take (Z.to_nat (bm_word_alloc bm)) (bm_words bm) = concat (op_words <$> w_ops).
Proof. apply (@ewah_build_refines _ compat_ref_ok _ rlw_ref_ok 0 w_ops). evaluate. Defined.

Lemma ewah_set_each_bit_witness :
  exists e, (self ← ewah_new 0; set_all 0 [1; 5; 63; 64; 300] self) = Ret e /\
    ewah_each_bit e = Ret [1; 5; 63; 64; 300] /\ ewah_bitmap_popcount e = Ret 5.
Proof.
  apply (@ewah_set_each_bit _ compat_ref_ok _ rlw_ref_ok 0 [1; 5; 63; 64; 300]); [|evaluate].
  repeat constructor.
Defined.

Lemma ewah_xor_bits_witness :
  exists e_i e_j out bm,
    (self ← ewah_new 0; run_ops 0 w_ops self) = Ret e_i /\
    (self ← ewah_new 0; run_ops 0 w_ops2 self) = Ret e_j /\
    (self ← ewah_new 0; ewah_xor 0 e_i e_j self) = Ret out /\
    eb_bit_size out = Z.max (eb_bit_size e_i) (eb_bit_size e_j) /\
    ewah_to_bitmap 0 out = Ret bm /\
    forall k, 0 <= k -> bitmap_get bm k =
      Ret (xorb (wbit (concat (op_words <$> w_ops)) k) (wbit (concat (op_words <$> w_ops2)) k)).
Proof. apply (@ewah_xor_bits _ compat_ref_ok _ rlw_ref_ok 0 w_ops w_ops2); evaluate. Defined.

Lemma bitmap_refines_set_witness :
  (b ← run_cmd 0 w_cmd; bitmap_get b 2100) = Ret (cmd_bit w_cmd 2100).
Proof. apply (@bitmap_refines_set _ compat_ref_ok _ rlw_ref_ok 0 w_cmd 2100); repeat split; lia. Defined.

Lemma bitmap_comparisons_witness :
  exists b1 b2 e1 e2 eq sub empty,
    run_cmd 0 w_cmd = Ret b1 /\ run_cmd 0 (SetBit New 3) = Ret b2 /\
    bitmap_to_ewah 0 b1 = Ret e1 /\ bitmap_to_ewah 0 b2 = Ret e2 /\
    bitmap_equals b1 b2 = Ret eq /\ bitmap_equals_ewah b1 e2 = Ret eq /\
    (eq = true <-> forall k, 0 <= k -> cmd_bit w_cmd k = cmd_bit (SetBit New 3) k) /\
    bitmap_is_subset b1 b2 = Ret (negb sub) /\ ewah_bitmap_is_subset e1 b2 = Ret sub /\
    (sub = true <-> forall k, 0 <= k -> cmd_bit w_cmd k = true -> cmd_bit (SetBit New 3) k = true) /\
    bitmap_is_empty b1 = Ret empty /\
    (empty = true <-> forall k, 0 <= k -> cmd_bit w_cmd k = false).
Proof.
  apply (@bitmap_comparisons _ compat_ref_ok _ rlw_ref_ok 0 w_cmd (SetBit New 3)); repeat split; lia.
Defined.

Lemma bitmap_or_ewah_bits_witness :
  exists e, (self ← ewah_new 0; run_ops 0 w_ops self) = Ret e /\
    (b ← run_cmd 0 w_cmd; b ← bitmap_or_ewah 0 b e; bitmap_get b 130) =
      Ret (cmd_bit w_cmd 130 || wbit (concat (op_words <$> w_ops)) 130).
Proof.
  apply (@bitmap_or_ewah_bits _ compat_ref_ok _ rlw_ref_ok 0 w_cmd w_ops 130); [|evaluate..].
  repeat split; lia.
Defined.
End runs.
