(* ===== verification/Heaps.v ===== *)
(** Binary heaps in lists: the order of parents and children, and what swapping an
    entry with its parent or its least child keeps of it.  The priority queues of
    prio-queue.c and reftable_pq.c share these lemmas. *)
From S2P Require Import Prelude.

Section heap.
Context {E : Type} (le : E -> E -> Prop).
Context (le_total : forall x y, le x y \/ le y x).
Context (le_trans : forall x y z, le x y -> le y z -> le x z).

Definition parent_of (i : nat) : nat := ((i - 1) / 2)%nat.

(** Every entry but the root is at least its parent, except where [i = ix]. *)
Definition up_heap (l : list E) (ix : nat) : Prop :=
  (forall i x p, i <> ix -> (0 < i)%nat -> l !! i = Some x -> l !! parent_of i = Some p -> le p x) /\
  (forall i x g, (0 < ix)%nat -> (0 < i)%nat -> parent_of i = ix ->
     l !! i = Some x -> l !! parent_of ix = Some g -> le g x).

(** ... except where the parent is [ix]. *)
Definition down_heap (l : list E) (ix : nat) : Prop :=
  (forall i x p, parent_of i <> ix -> (0 < i)%nat -> l !! i = Some x -> l !! parent_of i = Some p -> le p x) /\
  (forall i x g, (0 < ix)%nat -> (0 < i)%nat -> parent_of i = ix ->
     l !! i = Some x -> l !! parent_of ix = Some g -> le g x).

Definition heap (l : list E) : Prop :=
  forall i x p, (0 < i)%nat -> l !! i = Some x -> l !! parent_of i = Some p -> le p x.

Lemma parent_lt i : (0 < i)%nat -> (parent_of i < i)%nat.
Proof. intros. unfold parent_of. apply Nat.Div0.div_lt_upper_bound. lia. Qed.

Lemma parent_cases i p : (0 < i)%nat -> parent_of i = p <-> (i = 2 * p + 1 \/ i = 2 * p + 2)%nat.
Proof.
  intros Hi. unfold parent_of. split.
  - intros <-. pose proof (Nat.div_mod_eq (i - 1) 2). pose proof (Nat.mod_upper_bound (i - 1) 2). lia.
  - intros Hp. symmetry. apply (Nat.div_unique _ _ _ (i - 1 - 2 * p)%nat); lia.
Qed.

(** The root of a heap is least. *)
Lemma heap_root l i x r : heap l -> l !! 0%nat = Some r -> l !! i = Some x -> le r x.
Proof.
  intros Hh Hr. revert x. induction (lt_wf i) as [i _ IH]. intros x Hx.
  destruct (decide (i = 0%nat)) as [->|Hi]; [rewrite Hr in Hx; injection Hx as ->; by destruct (le_total x x)|].
  assert (0 < i)%nat as Hpos by lia. pose proof (parent_lt i Hpos) as Hlt.
  destruct (lookup_lt_is_Some_2 l (parent_of i)) as [p Hp]; [apply lookup_lt_Some in Hx; lia|].
  apply (le_trans _ p); [by apply (IH (parent_of i))|by apply (Hh i)].
Qed.

(** ** Swapping *)

Definition swap_list (l : list E) (i j : nat) : list E :=
  match l !! i, l !! j with
  | Some x, Some y => <[j := x]> (<[i := y]> l)
  | _, _ => l
  end.

Lemma swap_list_Permutation l i j x y :
  l !! i = Some x -> l !! j = Some y -> swap_list l i j ≡ₚ l.
Proof.
  intros Hx Hy. unfold swap_list. rewrite Hx, Hy.
  destruct (decide (i = j)) as [->|Hne].
  - rewrite Hx in Hy. injection Hy as ->. by rewrite list_insert_insert_eq, list_insert_id.
  - apply Permutation_inj. split; [by rewrite !length_insert|].
    exists (fun k => if decide (k = i) then j else if decide (k = j) then i else k). split.
    + intros a b. repeat case_decide; congruence.
    + intros k. pose proof (lookup_lt_Some _ _ _ Hx). pose proof (lookup_lt_Some _ _ _ Hy).
      repeat case_decide; subst; try congruence.
      * rewrite list_lookup_insert_ne, list_lookup_insert_eq by done. done.
      * rewrite list_lookup_insert_eq; [by rewrite Hx|]. by rewrite length_insert.
      * by rewrite !list_lookup_insert_ne by done.
Qed.

Lemma swap_list_lookup l i j x y k :
  l !! i = Some x -> l !! j = Some y -> i <> j ->
  swap_list l i j !! k = if decide (k = i) then Some y else if decide (k = j) then Some x else l !! k.
Proof.
  intros Hx Hy Hne. unfold swap_list. rewrite Hx, Hy.
  pose proof (lookup_lt_Some _ _ _ Hx). pose proof (lookup_lt_Some _ _ _ Hy).
  repeat case_decide; subst; try done.
  - by rewrite list_lookup_insert_ne, list_lookup_insert_eq.
  - by rewrite list_lookup_insert_eq by (by rewrite length_insert).
  - by rewrite !list_lookup_insert_ne.
Qed.

(** Bubbling an entry up keeps the rest in order. *)
Lemma up_heap_swap l ix x p :
  up_heap l ix -> (0 < ix)%nat -> l !! ix = Some x -> l !! parent_of ix = Some p -> le x p ->
  up_heap (swap_list l (parent_of ix) ix) (parent_of ix).
Proof.
  intros [Hh Hg] Hix Hx Hp Hle. pose proof (parent_lt ix Hix).
  assert (forall k, swap_list l (parent_of ix) ix !! k = if decide (k = parent_of ix) then Some x
    else if decide (k = ix) then Some p else l !! k) as Hsw by (intros; by apply swap_list_lookup; [..|lia]).
  split.
  - intros i y q Hne Hi Hy Hq. rewrite Hsw in Hy, Hq. rewrite decide_False in Hy by done.
    pose proof (parent_lt i Hi). destruct (decide (i = ix)) as [->|Hni].
    + rewrite decide_True in Hq by done. congruence.
    + destruct (decide (parent_of i = parent_of ix)) as [Heq|Hnp].
      * injection Hq as <-. apply (le_trans _ p); [done|]. apply (Hh i); [done..|]. by rewrite Heq.
      * destruct (decide (parent_of i = ix)) as [Hpi|]; [|by apply (Hh i)].
        injection Hq as <-. apply (Hg i); done.
  - intros i y g Hp0 Hi Hpi Hy Hgr. rewrite Hsw in Hy, Hgr.
    pose proof (parent_lt _ Hp0). rewrite !decide_False in Hgr by lia.
    pose proof (parent_lt i Hi). rewrite decide_False in Hy by lia.
    assert (le g p) by (by apply (Hh (parent_of ix)); [lia|..]).
    destruct (decide (i = ix)) as [->|]; [congruence|].
    apply (le_trans _ p); [done|]. apply (Hh i); [done..|congruence].
Qed.

(** Pushing an entry down to its least child. *)
Lemma down_heap_swap l ix c x y :
  down_heap l ix -> (0 < c)%nat -> parent_of c = ix -> l !! ix = Some x -> l !! c = Some y -> le y x ->
  (forall i z, (0 < i)%nat -> parent_of i = ix -> l !! i = Some z -> le y z) ->
  down_heap (swap_list l c ix) c.
Proof.
  intros [Hh Hg] Hc Hpc Hx Hy Hle Hleast. pose proof (parent_lt c Hc).
  assert (forall k, swap_list l c ix !! k = if decide (k = c) then Some x
    else if decide (k = ix) then Some y else l !! k) as Hsw by (intros; by apply swap_list_lookup; [..|lia]).
  split.
  - intros i z q Hne Hi Hz Hq. rewrite Hsw in Hz, Hq. pose proof (parent_lt i Hi).
    rewrite decide_False in Hq by done.
    destruct (decide (i = c)) as [->|Hnc].
    + rewrite decide_True in Hq by done. congruence.
    + destruct (decide (i = ix)) as [->|Hnx].
      * injection Hz as <-. rewrite decide_False in Hq by lia.
        by apply (Hg c y q Hi Hc Hpc).
      * destruct (decide (parent_of i = ix)) as [Hpx|]; [|by apply (Hh i)].
        injection Hq as <-. by apply (Hleast i).
  - intros i z g _ Hi Hpi Hz Hgr. rewrite Hsw in Hz, Hgr. pose proof (parent_lt i Hi).
    rewrite Hpc in Hgr. rewrite decide_False, decide_True in Hgr by lia. injection Hgr as <-.
    rewrite !decide_False in Hz by lia. apply (Hh i z y); [lia|done|done|by rewrite Hpi].
Qed.

Lemma heap_up l ix x p :
  up_heap l ix -> (ix = 0%nat \/ (l !! ix = Some x /\ l !! parent_of ix = Some p /\ le p x)) -> heap l.
Proof.
  intros [Hh _] Hix i y q Hi Hy Hq. destruct (decide (i = ix)) as [->|]; [|by apply (Hh i)].
  destruct Hix as [->|(Hx & Hp & Hle)]; [lia|congruence].
Qed.

Lemma heap_down l ix :
  down_heap l ix ->
  (forall i z x, (0 < i)%nat -> parent_of i = ix -> l !! i = Some z -> l !! ix = Some x -> le x z) -> heap l.
Proof.
  intros [Hh _] Hix i y q Hi Hy Hq. destruct (decide (parent_of i = ix)) as [<-|]; [by apply (Hix i)|by apply (Hh i)].
Qed.

Lemma heap_snoc l x : heap l -> up_heap (l ++ [x]) (length l).
Proof.
  intros Hh. split.
  - intros i y p Hne Hi Hy Hp. pose proof (parent_lt i Hi).
    assert (i < length l)%nat by (apply lookup_lt_Some in Hy; rewrite length_app in Hy; simpl in Hy; lia).
    rewrite lookup_app_l in Hy, Hp by lia. by apply (Hh i).
  - intros i y g Hl Hi Hpi Hy _. pose proof (parent_lt i Hi).
    apply lookup_lt_Some in Hy. rewrite length_app in Hy. simpl in Hy. lia.
Qed.

(** Moving the last entry to the root. *)
Lemma heap_replace_root l r x : heap (r :: l ++ [x]) -> down_heap (x :: l) 0%nat.
Proof.
  intros Hh. split; [|lia]. intros i y p Hne Hi Hy Hp. pose proof (parent_lt i Hi).
  destruct i as [|i]; [lia|]. destruct (parent_of (S i)) as [|j] eqn:Ej; [done|].
  apply (Hh (S i)); [lia|..].
  - simpl in *. rewrite lookup_app_l; [done|]. by apply lookup_lt_Some in Hy.
  - rewrite Ej. simpl in *. rewrite lookup_app_l; [done|]. by apply lookup_lt_Some in Hp.
Qed.
End heap.

