(* ===== verification/PrioQueue.v ===== *)
(** prio-queue.c: a priority queue in a binary heap whose ties are broken by
    insertion order, or a stack when no comparison is given.  The queue is
    modelled with its array (spare room included), [nr] and the insertion
    counter; the theorems refine it to a list of pending entries from which the
    first least one is taken. *)
From Stdlib Require Import Sorted.
From S2P Require Import Prelude Headers Heaps.

(** * Model *)

Section model.
Context `{GitCompat} {A : Type}.

Record entry := Entry {
  ctr : Z;
  data : A;
}.

Record prio_queue := PrioQueue {
  pq_compare : option (A -> A -> Z);   (* with [cb_data] applied *)
  pq_insertion_ctr : Z;
  pq_nr : Z;
  pq_array : list entry;               (* [alloc] entries *)
}.

Context (junk : entry).

Definition set_array (queue : prio_queue) (array : list entry) : prio_queue :=
  PrioQueue (pq_compare queue) (pq_insertion_ctr queue) (pq_nr queue) array.

Definition set_nr (queue : prio_queue) (nr : Z) : prio_queue :=
  PrioQueue (pq_compare queue) (pq_insertion_ctr queue) nr (pq_array queue).

(** The comparison of two entries: [queue->compare], then the counters. *)
Definition compare_entries (cmp : A -> A -> Z) (x y : entry) : Z :=
  let c := cmp (data x) (data y) in
  if tru c then c
  else Z.b2z (ctr x >? ctr y) - Z.b2z (ctr x <? ctr y).

Definition compare (cmp : A -> A -> Z) (queue : prio_queue) (i j : Z) : outcome Z :=
  x ← rd (pq_array queue) i;
  y ← rd (pq_array queue) j;
  Ret (compare_entries cmp x y).

Definition swap (queue : prio_queue) (i j : Z) : outcome prio_queue :=
  x ← rd (pq_array queue) i;
  y ← rd (pq_array queue) j;
  array ← wr (pq_array queue) i y;
  array ← wr array j x;
  Ret (set_array queue array).

(** One round of [for (i = 0; i < (j = (queue->nr - 1) - i); i++)]. *)
Definition reverse_step (st : prio_queue * Z) : outcome ((prio_queue * Z) + prio_queue) :=
  let '(queue, i) := st in
  let j := u64 (pq_nr queue - 1 - i) in
  if negb (i <? j) then Ret (inr queue) else
  queue ← swap queue i j;
  Ret (inl (queue, i + 1)).

Definition prio_queue_reverse (queue : prio_queue) : outcome prio_queue :=
  match pq_compare queue with
  | Some _ => Err Bug
  | None =>
      if pq_nr queue =? 0 then Ret queue
      else loop (S (Z.to_nat (pq_nr queue))) reverse_step (queue, 0)
  end.

Definition clear_prio_queue (queue : prio_queue) : prio_queue :=
  PrioQueue (pq_compare queue) 0 0 [].

(** [for (ix = queue->nr - 1; ix; ix = parent)] *)
Definition up_step (cmp : A -> A -> Z) (st : prio_queue * Z) : outcome ((prio_queue * Z) + prio_queue) :=
  let '(queue, ix) := st in
  if ix =? 0 then Ret (inr queue) else
  let parent := (ix - 1) / 2 in
  c ← compare cmp queue parent ix;
  if c <=? 0 then Ret (inr queue) else
  queue ← swap queue parent ix;
  Ret (inl (queue, parent)).

Definition prio_queue_put (queue : prio_queue) (thing : A) : outcome prio_queue :=
  let alloc := alloc_grow (pq_nr queue + 1) (zlen (pq_array queue)) in
  array ← wr (realloc junk (pq_array queue) alloc) (pq_nr queue)
            (Entry (pq_insertion_ctr queue) thing);
  let queue := PrioQueue (pq_compare queue) (u64 (pq_insertion_ctr queue + 1)) (pq_nr queue + 1) array in
  match pq_compare queue with
  | None => Ret queue
  | Some cmp => loop (S (Z.to_nat (pq_nr queue))) (up_step cmp) (queue, pq_nr queue - 1)
  end.

(** [for (ix = 0; ix * 2 + 1 < queue->nr; ix = child)] *)
Definition down_step (cmp : A -> A -> Z) (st : prio_queue * Z) : outcome ((prio_queue * Z) + prio_queue) :=
  let '(queue, ix) := st in
  if negb (ix * 2 + 1 <? pq_nr queue) then Ret (inr queue) else
  let child := ix * 2 + 1 in
  child ←
    (if child + 1 <? pq_nr queue then
       c ← compare cmp queue child (child + 1);
       Ret (if c >=? 0 then child + 1 else child)
     else Ret child);
  c ← compare cmp queue ix child;
  if c <=? 0 then Ret (inr queue) else
  queue ← swap queue child ix;
  Ret (inl (queue, child)).

(** Returns the result ([None] for NULL) and the queue. *)
Definition prio_queue_get (queue : prio_queue) : outcome (option A * prio_queue) :=
  if pq_nr queue =? 0 then Ret (None, queue) else
  match pq_compare queue with
  | None =>
      let queue := set_nr queue (pq_nr queue - 1) in
      x ← rd (pq_array queue) (pq_nr queue);
      Ret (Some (data x), queue)
  | Some cmp =>
      result ← rd (pq_array queue) 0;
      let queue := set_nr queue (pq_nr queue - 1) in
      if pq_nr queue =? 0 then Ret (Some (data result), queue) else
      last ← rd (pq_array queue) (pq_nr queue);
      array ← wr (pq_array queue) 0 last;
      queue ← loop (S (Z.to_nat (pq_nr queue))) (down_step cmp) (set_array queue array, 0);
      Ret (Some (data result), queue)
  end.

Definition prio_queue_peek (queue : prio_queue) : outcome (option A) :=
  if pq_nr queue =? 0 then Ret None else
  match pq_compare queue with
  | None => x ← rd (pq_array queue) (pq_nr queue - 1); Ret (Some (data x))
  | Some _ => x ← rd (pq_array queue) 0; Ret (Some (data x))
  end.
End model.

Arguments entry : clear implicits.
Arguments prio_queue : clear implicits.

(** * The queue *)

Section queue.
Context `{GitCompatOk} {A : Type}.
Context (junk : entry A).
Implicit Types (q : prio_queue A) (l : list (entry A)).

(** The entries of a queue, in array order. *)
Definition pq_rep q l : Prop := filled (pq_array q) (pq_nr q) l.

Lemma pq_rep_len q l : pq_rep q l -> pq_nr q = zlen l.
Proof. by intros [<- _]. Qed.

Lemma pq_rep_rd q l i x : pq_rep q l -> l !! i = Some x -> rd (pq_array q) (Z.of_nat i) = Ret x.
Proof.
  intros [_ [r ->]] Hx. apply rd_lookup. rewrite lookup_app_l; [done|]. by apply lookup_lt_Some in Hx.
Qed.

Lemma pq_rep_wr q l i x y array nr :
  pq_rep q l -> pq_array q = array -> pq_nr q = nr -> l !! i = Some x ->
  wr array (Z.of_nat i) y = Ret (<[i := y]> array) /\ filled (<[i := y]> array) nr (<[i := y]> l).
Proof.
  intros [Hl [r Hr]] <- <- Hx. apply lookup_lt_Some in Hx as Hlt.
  pose proof (zlen_nonneg r). split.
  - rewrite wr_in by (rewrite Hr, zlen_app; unfold zlen; lia). by rewrite Nat2Z.id.
  - split; [by rewrite zlen_insert|]. exists r. rewrite Hr. by rewrite insert_app_l.
Qed.

Lemma swap_spec q l i j x y :
  pq_rep q l -> l !! i = Some x -> l !! j = Some y ->
  exists q', swap q (Z.of_nat i) (Z.of_nat j) = Ret q' /\ pq_rep q' (swap_list l i j) /\
    pq_nr q' = pq_nr q /\ pq_compare q' = pq_compare q /\ pq_insertion_ctr q' = pq_insertion_ctr q.
Proof.
  intros Hq Hx Hy. unfold swap.
  rewrite (pq_rep_rd _ _ _ _ Hq Hx), (pq_rep_rd _ _ _ _ Hq Hy). run.
  destruct (pq_rep_wr q l i x y _ _ Hq eq_refl eq_refl Hx) as [-> Hf]. run.
  assert (exists z, <[i := y]> l !! j = Some z) as [z Hz].
  { destruct (lookup_lt_is_Some_2 (<[i := y]> l) j) as [z Hz]; [|eauto].
    rewrite length_insert. by apply lookup_lt_Some in Hy. }
  destruct (pq_rep_wr (set_array q (<[i := y]> (pq_array q))) (<[i := y]> l) j z x _ _ Hf eq_refl eq_refl Hz)
    as [Hwr Hf2].
  cbn [set_array pq_array] in Hwr. rewrite Hwr. run. eexists. split; [done|].
  split; [|done]. unfold swap_list. rewrite Hx, Hy. exact Hf2.
Qed.

(** ** The stack *)

(** After [i] rounds the first and the last [i] entries are exchanged. *)
Lemma reverse_step_spec q l :
  pq_rep q l -> 0 < pq_nr q < 2 ^ 63 ->
  exists q', loop (S (Z.to_nat (pq_nr q))) reverse_step (q, 0) = Ret q' /\ pq_rep q' (reverse l) /\
    pq_nr q' = pq_nr q /\ pq_compare q' = pq_compare q /\ pq_insertion_ctr q' = pq_insertion_ctr q.
Proof.
  intros Hq Hsmall. pose proof (pq_rep_len _ _ Hq) as Hn. pose proof (zlen_nonneg l).
  set (n := length l). assert (zlen l = Z.of_nat n) as Hzn by done.
  apply (loop_ret (fun '(q', i) => 0 <= i /\ 2 * i <= zlen l /\ pq_nr q' = pq_nr q /\
      pq_compare q' = pq_compare q /\ pq_insertion_ctr q' = pq_insertion_ctr q /\
      exists l', pq_rep q' l' /\ length l' = n /\
        forall k, (k < n)%nat -> l' !! k = if decide (k < Z.to_nat i \/ n <= k + Z.to_nat i)%nat
          then l !! (n - 1 - k)%nat else l !! k)
    (fun '(q', i) => zlen l - i)).
  - intros [q' i] (Hi & Hi2 & Hnr & Hc & Hctr & l' & Hq' & Hlen & Hl'). unfold reverse_step.
    rewrite Hnr, Hn.
    destruct (decide (i < zlen l - 1 - i)) as [Hlt|Hge].
    + rewrite (u64_small (zlen l - 1 - i)) by lia. rewrite (proj2 (Z.ltb_lt i _)) by lia. cbn [negb].
      destruct (lookup_lt_is_Some_2 l' (Z.to_nat i)) as [x Hx]; [lia|].
      destruct (lookup_lt_is_Some_2 l' (n - 1 - Z.to_nat i)) as [y Hy]; [lia|].
      assert (swap q' i (zlen l - 1 - i) =
        swap q' (Z.of_nat (Z.to_nat i)) (Z.of_nat (n - 1 - Z.to_nat i))) as -> by (f_equal; lia).
      destruct (swap_spec q' l' _ _ x y Hq' Hx Hy) as (q2 & -> & Hq2 & Hnr2 & Hc2 & Hctr2). run.
      eexists. split; [done|]. cbv beta iota. split; [|lia].
      split; [lia|]. split; [lia|]. split; [congruence|]. split; [congruence|]. split; [congruence|].
      eexists. split; [exact Hq2|].
      split; [by rewrite (Permutation_length (swap_list_Permutation _ _ _ _ _ Hx Hy))|].
      intros k Hk. rewrite (swap_list_lookup l' (Z.to_nat i) (n - 1 - Z.to_nat i) x y) by (done || lia).
      replace (Z.to_nat (i + 1)) with (S (Z.to_nat i)) by lia.
      repeat case_decide; try lia; subst.
      * rewrite <-Hy, Hl', decide_False by lia. f_equal; lia.
      * rewrite <-Hx, Hl', decide_False by lia. f_equal; lia.
      * rewrite Hl', decide_True by lia. done.
      * rewrite Hl', decide_False by lia. done.
    + rewrite (u64_small (zlen l - 1 - i)) by lia. rewrite (proj2 (Z.ltb_ge i _)) by lia. cbn [negb].
      eexists. split; [done|]. cbv iota. split; [|repeat split; congruence].
      assert (l' = reverse l) as <-; [|done]. apply list_eq_same_length with n; [by rewrite length_reverse|done|].
      intros k x y Hk Hx Hy. rewrite reverse_lookup in Hy by done. rewrite Hl' in Hx by done.
      fold n in Hy. replace (n - S k)%nat with (n - 1 - k)%nat in Hy by lia.
      case_decide; [congruence|]. replace (n - 1 - k)%nat with k in Hy by lia. congruence.
  - split; [lia|]. split; [lia|]. repeat (split; [done|]). exists l. split; [done|]. split; [done|].
    intros k Hk. by rewrite decide_False by lia.
  - lia.
Qed.

(** ** The heap *)

Section ordered.
Context (cmp : A -> A -> Z) `{!CmpOk cmp}.

Definition ele (x y : entry A) : Prop := compare_entries cmp x y <= 0.

Lemma ele_spec x y :
  ele x y <-> cmp (data x) (data y) < 0 \/ (cmp (data x) (data y) = 0 /\ ctr x <= ctr y).
Proof.
  unfold ele, compare_entries, tru. destruct (Z.eqb_spec (cmp (data x) (data y)) 0); cbn [negb]; [|lia].
  destruct (ctr x >? ctr y) eqn:E1, (ctr x <? ctr y) eqn:E2; zb; cbn [Z.b2z]; lia.
Qed.

Lemma ele_total x y : ele x y \/ ele y x.
Proof. rewrite !ele_spec. pose proof (cmp_flip (data x) (data y)). pose proof (cmp_flip (data y) (data x)). lia. Qed.

Lemma ele_trans x y z : ele x y -> ele y z -> ele x z.
Proof.
  rewrite !ele_spec. intros H1 H2.
  pose proof (cmp_trans (data x) (data y) (data z)). pose proof (cmp_trans (data z) (data x) (data y)).
  pose proof (cmp_trans (data y) (data z) (data x)).
  pose proof (cmp_flip (data x) (data z)). pose proof (cmp_flip (data z) (data x)).
  pose proof (cmp_flip (data x) (data y)). pose proof (cmp_flip (data y) (data x)).
  pose proof (cmp_flip (data y) (data z)). pose proof (cmp_flip (data z) (data y)). lia.
Qed.

Lemma ele_antisym x y : ele x y -> ele y x -> ctr x = ctr y.
Proof. rewrite !ele_spec. pose proof (cmp_flip (data x) (data y)). pose proof (cmp_flip (data y) (data x)). lia. Qed.

Lemma compare_spec q l i j x y :
  pq_rep q l -> l !! i = Some x -> l !! j = Some y ->
  compare cmp q (Z.of_nat i) (Z.of_nat j) = Ret (compare_entries cmp x y).
Proof.
  intros Hq Hx Hy. unfold compare. by rewrite (pq_rep_rd _ _ _ _ Hq Hx), (pq_rep_rd _ _ _ _ Hq Hy).
Qed.

Lemma up_loop_spec q l ix :
  pq_rep q l -> up_heap ele l ix -> (ix < length l)%nat ->
  exists q' l', loop (S (length l)) (up_step cmp) (q, Z.of_nat ix) = Ret q' /\
    pq_rep q' l' /\ heap ele l' /\ l' ≡ₚ l /\
    pq_compare q' = pq_compare q /\ pq_insertion_ctr q' = pq_insertion_ctr q.
Proof.
  intros Hq Hh Hix.
  destruct (loop_ret (fun '(q', i) => exists ix' l', i = Z.of_nat ix' /\ (ix' < length l)%nat /\ pq_rep q' l' /\
      up_heap ele l' ix' /\ l' ≡ₚ l /\
      pq_compare q' = pq_compare q /\ pq_insertion_ctr q' = pq_insertion_ctr q)
    (fun '(q', i) => i) (S (length l)) (up_step cmp) (q, Z.of_nat ix)
    (fun q' => exists l', pq_rep q' l' /\ heap ele l' /\ l' ≡ₚ l /\
      pq_compare q' = pq_compare q /\ pq_insertion_ctr q' = pq_insertion_ctr q))
    as (q' & -> & l' & ?); [|by exists ix, l|lia|by eauto].
  intros [q' i] (ix' & l' & -> & Hlt & Hq' & Hh' & Hp & Hc & Hctr). unfold up_step.
  case_if.
  { eexists. split; [done|]. cbv iota. exists l'. split; [done|]. split; [|done].
    destruct (lookup_lt_is_Some_2 l' ix') as [x Hx]; [by rewrite Hp|].
    apply (heap_up ele l' ix' x x); [done|left; lia]. }
  assert (0 < ix')%nat as Hpos by lia. pose proof (parent_lt ix' Hpos).
  replace ((Z.of_nat ix' - 1) / 2) with (Z.of_nat (parent_of ix')).
  2:{ unfold parent_of. rewrite Nat2Z.inj_div. f_equal. lia. }
  destruct (lookup_lt_is_Some_2 l' ix') as [x Hx]; [by rewrite Hp|].
  destruct (lookup_lt_is_Some_2 l' (parent_of ix')) as [p Hpar]; [rewrite Hp; lia|].
  rewrite (compare_spec q' l' _ _ _ _ Hq' Hpar Hx). run.
  case_if.
  - eexists. split; [done|]. cbv iota. exists l'. split; [done|]. split; [|done].
    apply (heap_up ele l' ix' x p); [done|]. right. done.
  - destruct (swap_spec q' l' _ _ _ _ Hq' Hpar Hx) as (q2 & -> & Hq2 & _ & Hc2 & Hctr2). run.
    eexists. split; [done|]. cbv beta iota. split; [|lia].
    eexists _, _. split; [done|]. split; [lia|]. split; [exact Hq2|]. split.
    + apply (up_heap_swap ele ele_trans l' ix' x p); try done.
      destruct (ele_total x p) as [?|Hle]; [done|]. unfold ele in Hle. lia.
    + split; [by rewrite (swap_list_Permutation _ _ _ _ _ Hpar Hx)|]. split; congruence.
Qed.

Lemma put_spec q l thing :
  pq_rep q l -> heap ele l -> pq_compare q = Some cmp ->
  exists q' l', prio_queue_put junk q thing = Ret q' /\ pq_rep q' l' /\ heap ele l' /\
    l' ≡ₚ Entry (pq_insertion_ctr q) thing :: l /\ pq_compare q' = Some cmp /\
    pq_insertion_ctr q' = u64 (pq_insertion_ctr q + 1).
Proof.
  intros Hq Hh Hc. unfold prio_queue_put.
  pose proof (alloc_grow_enough (pq_nr q + 1) (zlen (pq_array q))) as Hge.
  pose proof (filled_le _ _ _ Hq) as Hle. pose proof (pq_rep_len _ _ Hq) as Hn.
  assert (pq_nr q <= alloc_grow (pq_nr q + 1) (zlen (pq_array q))) as Hroom by lia.
  pose proof (filled_realloc junk _ _ _ _ Hq Hroom) as Hf.
  destruct (filled_wr _ _ _ (Entry (pq_insertion_ctr q) thing) Hf) as [-> Hf2];
    [rewrite zlen_realloc; lia|]. run. cbn [pq_compare pq_nr]. rewrite Hc.
  match goal with |- context [loop _ _ (?q1, _)] => set (q1' := q1) in * end.
  assert (pq_rep q1' (l ++ [Entry (pq_insertion_ctr q) thing])) as Hq1 by exact Hf2.
  destruct (up_loop_spec q1' _ (length l) Hq1 (heap_snoc ele l _ Hh)) as (q' & l' & Hl & Hq' & Hh' & Hp & Hc' & Hctr);
    [rewrite length_app; simpl; lia|].
  rewrite length_app in Hl. cbn [length] in Hl.
  replace (Z.to_nat (pq_nr q + 1)) with (length l + 1)%nat by (unfold zlen in *; lia).
  replace (pq_nr q + 1 - 1) with (Z.of_nat (length l)) by (unfold zlen in *; lia).
  exists q', l'. split; [done|]. split; [done|]. split; [done|].
  split; [|done]. rewrite Hp. by rewrite Permutation_app_comm.
Qed.

(** The child the loop picks is a least one. *)
Lemma least_child q l ix x :
  pq_rep q l -> l !! ix = Some x -> (2 * ix + 1 < length l)%nat ->
  exists c z, l !! c = Some z /\ (0 < c)%nat /\ parent_of c = ix /\
    (if Z.of_nat ix * 2 + 1 + 1 <? zlen l then
       r ← compare cmp q (Z.of_nat ix * 2 + 1) (Z.of_nat ix * 2 + 1 + 1);
       Ret (if r >=? 0 then Z.of_nat ix * 2 + 1 + 1 else Z.of_nat ix * 2 + 1)
     else Ret (Z.of_nat ix * 2 + 1)) = Ret (Z.of_nat c) /\
    forall i w, (0 < i)%nat -> parent_of i = ix -> l !! i = Some w -> ele z w.
Proof.
  intros Hq Hx Hlt.
  assert (forall w, ele w w) as Hrefl by (intros w; by destruct (ele_total w w)).
  assert (forall i w, (0 < i)%nat -> parent_of i = ix -> l !! i = Some w ->
    l !! (2 * ix + 1)%nat = Some w \/ l !! (2 * ix + 2)%nat = Some w) as Hkids.
  { intros i w Hi Hpi Hw. apply parent_cases in Hpi as [->| ->]; auto. }
  destruct (lookup_lt_is_Some_2 l (2 * ix + 1)) as [y Hy]; [lia|].
  replace (Z.of_nat ix * 2 + 1) with (Z.of_nat (2 * ix + 1)) by lia.
  replace (Z.of_nat (2 * ix + 1) + 1) with (Z.of_nat (2 * ix + 2)) by lia. unfold zlen.
  destruct (Z.ltb_spec (Z.of_nat (2 * ix + 2)) (Z.of_nat (length l))).
  - destruct (lookup_lt_is_Some_2 l (2 * ix + 2)) as [y2 Hy2]; [lia|].
    rewrite (compare_spec q l _ _ _ _ Hq Hy Hy2). run.
    assert (compare_entries cmp y y2 >= 0 -> ele y2 y) as Hge.
    { intros Hge. destruct (ele_total y2 y) as [|Hle]; [done|].
      rewrite ele_spec in *. unfold compare_entries, tru in Hge.
      pose proof (cmp_flip (data y) (data y2)). pose proof (cmp_flip (data y2) (data y)).
      destruct (Z.eqb_spec (cmp (data y) (data y2)) 0); cbn [negb] in Hge; [|lia].
      destruct (ctr y >? ctr y2) eqn:E1, (ctr y <? ctr y2) eqn:E2; zb; cbn [Z.b2z] in Hge; lia. }
    destruct (compare_entries cmp y y2 >=? 0) eqn:E; zb.
    + exists (2 * ix + 2)%nat, y2. split; [done|]. split; [lia|]. split; [apply parent_cases; lia|].
      split; [done|]. intros i w Hi Hpi Hw. destruct (Hkids i w Hi Hpi Hw) as [Hw'|Hw'].
      * rewrite Hy in Hw'. injection Hw' as <-. apply Hge; lia.
      * rewrite Hy2 in Hw'. by injection Hw' as <-.
    + exists (2 * ix + 1)%nat, y. split; [done|]. split; [lia|]. split; [apply parent_cases; lia|].
      split; [done|]. intros i w Hi Hpi Hw. destruct (Hkids i w Hi Hpi Hw) as [Hw'|Hw'].
      * rewrite Hy in Hw'. by injection Hw' as <-.
      * rewrite Hy2 in Hw'. injection Hw' as <-. unfold ele. lia.
  - exists (2 * ix + 1)%nat, y. split; [done|]. split; [lia|]. split; [apply parent_cases; lia|].
    split; [done|]. intros i w Hi Hpi Hw. destruct (Hkids i w Hi Hpi Hw) as [Hw'|Hw'].
    + rewrite Hy in Hw'. by injection Hw' as <-.
    + apply lookup_lt_Some in Hw'. lia.
Qed.

Lemma down_loop_spec q l ix :
  pq_rep q l -> down_heap ele l ix ->
  exists q' l', loop (S (length l)) (down_step cmp) (q, Z.of_nat ix) = Ret q' /\
    pq_rep q' l' /\ heap ele l' /\ l' ≡ₚ l /\
    pq_compare q' = pq_compare q /\ pq_insertion_ctr q' = pq_insertion_ctr q.
Proof.
  intros Hq Hh.
  destruct (loop_ret (fun '(q', i) => exists ix' l', i = Z.of_nat ix' /\ pq_rep q' l' /\
      down_heap ele l' ix' /\ l' ≡ₚ l /\
      pq_compare q' = pq_compare q /\ pq_insertion_ctr q' = pq_insertion_ctr q)
    (fun '(q', i) => Z.max 0 (zlen l - i)) (S (length l)) (down_step cmp) (q, Z.of_nat ix)
    (fun q' => exists l', pq_rep q' l' /\ heap ele l' /\ l' ≡ₚ l /\
      pq_compare q' = pq_compare q /\ pq_insertion_ctr q' = pq_insertion_ctr q))
    as (q' & -> & l' & ?); [|by exists ix, l|unfold zlen; lia|by eauto].
  intros [q' i] (ix' & l' & -> & Hq' & Hh' & Hp & Hc & Hctr). unfold down_step.
  assert (length l' = length l) as Hlen by (by rewrite Hp).
  rewrite (pq_rep_len _ _ Hq').
  destruct (Z.ltb_spec (Z.of_nat ix' * 2 + 1) (zlen l')) as [Hlt|Hge]; cbn [negb]; unfold zlen in *.
  2:{ eexists. split; [done|]. cbv iota. exists l'. split; [done|]. split; [|done].
      apply (heap_down ele l' ix'); [done|]. intros j z x Hj Hpj Hz _.
      apply parent_cases in Hpj; [|done]. apply lookup_lt_Some in Hz. lia. }
  destruct (lookup_lt_is_Some_2 l' ix') as [x Hx]; [lia|].
  destruct (least_child q' l' ix' x Hq' Hx ltac:(lia)) as (c & z & Hz & Hc0 & Hpc & Hpick & Hleast).
  unfold zlen in Hpick. rewrite Hpick. run.
  pose proof (parent_lt c Hc0) as Hcx. rewrite Hpc in Hcx.
  rewrite (compare_spec q' l' _ _ _ _ Hq' Hx Hz). run.
  destruct (compare_entries cmp x z <=? 0) eqn:E; zb.
  - eexists. split; [done|]. cbv iota. exists l'. split; [done|]. split; [|done].
    apply (heap_down ele l' ix'); [done|]. intros i w x' Hi Hpi Hw Hx'.
    assert (x' = x) as -> by congruence. apply (ele_trans _ z); [exact E|by apply (Hleast i)].
  - destruct (swap_spec q' l' _ _ _ _ Hq' Hz Hx) as (q2 & -> & Hq2 & _ & Hc2 & Hctr2). run.
    eexists. split; [done|]. cbv beta iota. split.
    2:{ apply lookup_lt_Some in Hz. rewrite <-Hlen. lia. }
    eexists _, _. split; [done|]. split; [exact Hq2|]. split.
    + apply (down_heap_swap ele l' ix' c x z); try done.
      destruct (ele_total z x) as [?|Hle]; [done|]. unfold ele in Hle. lia.
    + split; [by rewrite (swap_list_Permutation _ _ _ _ _ Hz Hx)|]. split; congruence.
Qed.

(** [get] takes a least entry out. *)
Lemma get_spec q x l :
  pq_rep q (x :: l) -> heap ele (x :: l) -> pq_compare q = Some cmp ->
  exists q' l', prio_queue_get q = Ret (Some (data x), q') /\ pq_rep q' l' /\ heap ele l' /\
    l' ≡ₚ l /\ pq_compare q' = Some cmp /\ pq_insertion_ctr q' = pq_insertion_ctr q.
Proof.
  intros Hq Hh Hc. unfold prio_queue_get. pose proof (pq_rep_len _ _ Hq) as Hn. rewrite zlen_cons in Hn.
  pose proof (zlen_nonneg l). rewrite (proj2 (Z.eqb_neq _ 0)) by lia. rewrite Hc.
  pose proof (pq_rep_rd q (x :: l) 0 x Hq eq_refl) as Hr0. change (Z.of_nat 0) with 0 in Hr0.
  rewrite Hr0. run. cbn [set_nr pq_nr pq_array]. destruct l as [|y l] using rev_ind.
  - change (zlen (@nil (entry A))) with 0 in *. rewrite (proj2 (Z.eqb_eq (pq_nr q - 1) 0)) by lia.
    destruct Hq as [_ [r Hr]]. exists (set_nr q (pq_nr q - 1)), []. split; [done|].
    split; [split; [cbn [set_nr pq_nr]; change (zlen (@nil (entry A))) with 0; lia|by exists (x :: r)]|].
    split; [intros i ? ? _ Hi; by rewrite lookup_nil in Hi|]. done.
  - clear IHl. rewrite zlen_app, zlen_cons in Hn. change (zlen (@nil (entry A))) with 0 in Hn.
    pose proof (zlen_nonneg l). rewrite (proj2 (Z.eqb_neq _ 0)) by lia.
    assert ((x :: l ++ [y]) !! S (length l) = Some y) as Hlast.
    { simpl. by rewrite lookup_app_r, Nat.sub_diag by lia. }
    replace (pq_nr q - 1) with (Z.of_nat (S (length l))) by (unfold zlen in *; lia).
    rewrite (pq_rep_rd _ _ _ _ Hq Hlast). run.
    destruct (pq_rep_wr q _ 0 x y _ _ Hq eq_refl eq_refl eq_refl) as [Hwr Hf].
    change (Z.of_nat 0) with 0 in Hwr. rewrite Hwr. run.
    match goal with |- context [loop _ _ (?q1, _)] => set (q1' := q1) in * end.
    assert (pq_rep q1' (y :: l)) as Hq1.
    { destruct Hf as [_ [r Hr]]. unfold pq_rep, q1'. cbn [set_array set_nr pq_array pq_nr].
      split; [unfold zlen; simpl; lia|]. exists (y :: r). rewrite Hr. simpl. by rewrite <-app_assoc. }
    destruct (down_loop_spec q1' (y :: l) 0 Hq1 (heap_replace_root ele l x y Hh))
      as (q' & l' & Hl & Hq' & Hh' & Hp & Hc' & Hctr).
    rewrite Nat2Z.id. change (Z.of_nat 0) with 0 in Hl. cbn [length] in Hl. rewrite Hl. run.
    exists q', l'. split; [done|]. split; [done|]. split; [done|]. split.
    + rewrite Hp. by rewrite Permutation_app_comm.
    + split; [by rewrite Hc'|by rewrite Hctr].
Qed.
End ordered.
End queue.

(** * Refinement *)

(** What callers see: [Put]s and takes from a list of pending elements, in the
    order in which they will come out. *)
Section pending.
Context {A : Type}.

Inductive pq_op :=
| Put (thing : A)
| Get
| Peek
| Reverse.

(** Insertion behind everything that does not compare greater. *)
Fixpoint insert_stable (cmp : A -> A -> Z) (thing : A) (l : list A) : list A :=
  match l with
  | [] => [thing]
  | x :: l' => if cmp x thing <=? 0 then x :: insert_stable cmp thing l' else thing :: l
  end.

Definition pending_step (ocmp : option (A -> A -> Z)) (l : list A) (op : pq_op) : outcome (option A * list A) :=
  match op with
  | Put thing => Ret (None, match ocmp with Some cmp => insert_stable cmp thing l | None => thing :: l end)
  | Get => Ret (head l, tail l)
  | Peek => Ret (head l, l)
  | Reverse => match ocmp with Some _ => Err Bug | None => Ret (None, reverse l) end
  end.

Definition queue_step `{GitCompat} (junk : entry A) (q : prio_queue A) (op : pq_op)
    : outcome (option A * prio_queue A) :=
  match op with
  | Put thing => q' ← prio_queue_put junk q thing; Ret (None, q')
  | Get => prio_queue_get q
  | Peek => r ← prio_queue_peek q; Ret (r, q)
  | Reverse => q' ← prio_queue_reverse q; Ret (None, q')
  end.

(** The results of a sequence of operations. *)
Fixpoint outputs {S} (step : S -> pq_op -> outcome (option A * S)) (s : S) (ops : list pq_op)
    : outcome (list (option A)) :=
  match ops with
  | [] => Ret []
  | op :: ops =>
      '(r, s) ← step s op;
      rs ← outputs step s ops;
      Ret (r :: rs)
  end.
End pending.
Arguments pq_op : clear implicits.

Section refinement.
Context `{GitCompatOk} {A : Type}.
Context (junk : entry A).
Implicit Types (q : prio_queue A) (l es : list (entry A)).

(** [es] are the entries of the queue in the order of [pending_step]. *)
Definition in_order (ocmp : option (A -> A -> Z)) q es : Prop :=
  pq_compare q = ocmp /\ 0 <= pq_insertion_ctr q /\ zlen es <= pq_insertion_ctr q /\
  match ocmp with
  | None => pq_rep q (reverse es)
  | Some cmp =>
      exists l, pq_rep q l /\ heap (ele cmp) l /\ l ≡ₚ es /\
        StronglySorted (ele cmp) es /\ NoDup (ctr <$> es) /\
        Forall (fun e => ctr e < pq_insertion_ctr q) es
  end.

(** [insert_stable] is insertion of the entry with the next counter. *)
Lemma insert_stable_entries cmp `{!CmpOk cmp} n thing es :
  StronglySorted (ele cmp) es -> Forall (fun e => ctr e < n) es ->
  exists es', data <$> es' = insert_stable cmp thing (data <$> es) /\
    es' ≡ₚ Entry n thing :: es /\ StronglySorted (ele cmp) es'.
Proof.
  intros Hs Hctr. induction Hs as [|e es Hs IH He]; cbn [fmap list_fmap insert_stable].
  { exists [Entry n thing]. split; [done|]. split; [done|]. repeat constructor. }
  apply Forall_cons_iff in Hctr as [Hn Hctr]. cbv beta in Hn.
  destruct (Z.leb_spec (cmp (data e) thing) 0) as [Hle|Hgt].
  - destruct (IH Hctr) as (es' & Hd & Hp & Hs'). exists (e :: es').
    split; [cbn [fmap list_fmap]; by rewrite <-Hd|].
    split; [rewrite Hp; by apply perm_swap|]. constructor; [done|].
    rewrite Hp. constructor; [|done]. apply ele_spec. cbn [data ctr]. lia.
  - exists (Entry n thing :: e :: es). split; [done|]. split; [done|].
    assert (ele cmp (Entry n thing) e) as Hne.
    { apply ele_spec. cbn [data ctr]. pose proof (cmp_flip (data e) thing). pose proof (cmp_flip thing (data e)). lia. }
    constructor; [by constructor|]. constructor; [done|].
    eapply Forall_impl; [exact He|]. intros x Hx. by apply (ele_trans cmp _ e).
Qed.

(** The root is the first entry. *)
Lemma root_first cmp `{!CmpOk cmp} l es x :
  heap (ele cmp) (x :: l) -> x :: l ≡ₚ es -> StronglySorted (ele cmp) es -> NoDup (ctr <$> es) ->
  exists es', es = x :: es' /\ l ≡ₚ es'.
Proof.
  intros Hh Hp Hs Hnd. destruct es as [|e es]; [by apply Permutation_nil_r in Hp|].
  assert (x = e) as <-; [|exists es; split; [done|by apply Permutation_cons_inv in Hp]].
  assert (x ∈ e :: es) as Hx by (rewrite <-Hp; left).
  apply elem_of_cons in Hx as [?|Hx]; [done|]. exfalso.
  cbn [fmap list_fmap] in Hnd. apply NoDup_cons in Hnd as [Hnin _]. apply Hnin.
  assert (ctr e = ctr x) as ->; [|by apply list_elem_of_fmap_2].
  apply (ele_antisym cmp).
  - apply StronglySorted_inv in Hs as [_ Hs]. by eapply Forall_forall in Hs.
  - assert (e ∈ x :: l) as He by (rewrite Hp; left).
    apply list_elem_of_lookup in He as [i He].
    by apply (heap_root (ele cmp) (ele_total cmp) (ele_trans cmp) (x :: l) i).
Qed.

Lemma put_step ocmp q es thing :
  (forall cmp, ocmp = Some cmp -> CmpOk cmp) ->
  in_order ocmp q es -> pq_insertion_ctr q + 1 < 2 ^ 63 ->
  exists q' es', prio_queue_put junk q thing = Ret q' /\ in_order ocmp q' es' /\
    data <$> es' = match ocmp with Some cmp => insert_stable cmp thing (data <$> es) | None => thing :: (data <$> es) end /\
    pq_insertion_ctr q' = pq_insertion_ctr q + 1.
Proof.
  intros Hok (Hc & Hpos & Hle & Hq) Hbound. destruct ocmp as [cmp|].
  - pose proof (Hok cmp eq_refl). destruct Hq as (l & Hq & Hh & Hp & Hs & Hnd & Hctr).
    destruct (put_spec junk cmp q l thing Hq Hh Hc) as (q' & l' & Hput & Hq' & Hh' & Hp' & Hc' & Hctr').
    rewrite u64_small in Hctr' by lia.
    destruct (insert_stable_entries cmp (pq_insertion_ctr q) thing es Hs Hctr) as (es' & Hd & Hpe & Hs').
    exists q', es'. split; [done|]. split; [|done]. split; [done|]. split; [lia|].
    split. { unfold zlen in *. rewrite (Permutation_length Hpe). simpl. lia. }
    exists l'. split; [done|]. split; [done|]. split; [by rewrite Hp', Hp, Hpe|]. split; [done|].
    rewrite Hpe. rewrite Hctr'. split.
    + cbn [fmap list_fmap ctr]. apply NoDup_cons. split; [|done]. intros Hin.
      apply list_elem_of_fmap in Hin as (e & He & Hin). eapply Forall_forall in Hctr; [|done].
      cbv beta in Hctr. lia.
    + constructor; [cbn [ctr]; lia|]. eapply Forall_impl; [done|]. cbv beta. intros; lia.
  - unfold prio_queue_put. pose proof (filled_le _ _ _ Hq).
    pose proof (alloc_grow_enough (pq_nr q + 1) (zlen (pq_array q))) as Hge.
    assert (pq_nr q <= alloc_grow (pq_nr q + 1) (zlen (pq_array q))) as Hroom by lia.
    pose proof (filled_realloc junk _ _ _ _ Hq Hroom) as Hf.
    destruct (filled_wr _ _ _ (Entry (pq_insertion_ctr q) thing) Hf) as [-> Hf2];
      [rewrite zlen_realloc; lia|]. run. cbn [pq_compare pq_nr]. rewrite Hc.
    eexists _, (Entry (pq_insertion_ctr q) thing :: es). split; [done|].
    cbn [pq_insertion_ctr]. rewrite u64_small by lia. split; [|done].
    unfold in_order. cbn [pq_compare pq_insertion_ctr]. split; [done|]. split; [lia|].
    split; [rewrite zlen_cons; lia|]. rewrite reverse_cons. exact Hf2.
Qed.

Lemma get_step ocmp q es :
  (forall cmp, ocmp = Some cmp -> CmpOk cmp) ->
  in_order ocmp q es ->
  exists q' , prio_queue_get q = Ret (data <$> head es, q') /\ in_order ocmp q' (tail es) /\
    pq_insertion_ctr q' = pq_insertion_ctr q.
Proof.
  intros Hok (Hc & Hpos & Hle & Hq). destruct ocmp as [cmp|].
  - pose proof (Hok cmp eq_refl). destruct Hq as (l & Hq & Hh & Hp & Hs & Hnd & Hctr).
    destruct l as [|x l].
    + apply Permutation_nil_l in Hp; subst. unfold prio_queue_get. rewrite (pq_rep_len _ _ Hq).
      exists q. split; [done|]. split; [|done]. split; [done|]. split; [done|]. split; [done|]. by exists [].
    + destruct (root_first cmp l es x Hh Hp Hs Hnd) as (es' & -> & Hp').
      destruct (get_spec cmp q x l Hq Hh Hc) as (q' & l' & Hget & Hq' & Hh' & Hp2 & Hc' & Hctr').
      exists q'. split; [done|]. split; [|done]. rewrite zlen_cons in Hle. cbn [tail].
      split; [done|]. rewrite Hctr'. split; [done|]. split; [lia|].
      exists l'. split; [done|]. split; [done|]. split; [by rewrite Hp2|].
      apply StronglySorted_inv in Hs as [Hs _]. cbn [fmap list_fmap] in Hnd.
      apply NoDup_cons in Hnd as [_ Hnd]. apply Forall_cons_iff in Hctr as [_ Hctr]. done.
  - unfold prio_queue_get. destruct es as [|e es].
    + rewrite (pq_rep_len _ _ Hq). exists q. split; [done|]. by repeat (split; [done|]).
    + pose proof (pq_rep_len _ _ Hq) as Hn. rewrite reverse_cons in Hq, Hn.
      rewrite zlen_app, zlen_cons in Hn. change (zlen (@nil (entry A))) with 0 in Hn.
      pose proof (zlen_nonneg (reverse es)). rewrite (proj2 (Z.eqb_neq _ 0)) by lia. rewrite Hc.
      cbn [set_nr pq_nr pq_array]. destruct (filled_last _ _ _ _ e Hq) as [-> _]. run.
      eexists. split; [done|]. split; [|done]. cbn [tail]. rewrite zlen_cons in Hle.
      unfold in_order. cbn [set_nr pq_compare pq_insertion_ctr]. split; [done|]. split; [done|]. split; [lia|].
      apply filled_prefix in Hq. unfold pq_rep. cbn [set_nr pq_nr pq_array].
      by replace (pq_nr q - 1) with (zlen (reverse es)) by lia.
Qed.

Lemma peek_step ocmp q es :
  (forall cmp, ocmp = Some cmp -> CmpOk cmp) ->
  in_order ocmp q es -> prio_queue_peek q = Ret (data <$> head es).
Proof.
  intros Hok (Hc & Hpos & Hle & Hq). unfold prio_queue_peek. destruct ocmp as [cmp|].
  - pose proof (Hok cmp eq_refl). destruct Hq as (l & Hq & Hh & Hp & Hs & Hnd & Hctr).
    rewrite (pq_rep_len _ _ Hq), Hc. destruct l as [|x l]; [by apply Permutation_nil_l in Hp; subst|].
    destruct (root_first cmp l es x Hh Hp Hs Hnd) as (es' & -> & _).
    rewrite zlen_cons. pose proof (zlen_nonneg l). rewrite (proj2 (Z.eqb_neq _ 0)) by lia.
    pose proof (pq_rep_rd q (x :: l) 0 x Hq eq_refl) as Hr0. change (Z.of_nat 0) with 0 in Hr0. by rewrite Hr0.
  - destruct es as [|e es]; [by rewrite (pq_rep_len _ _ Hq)|].
    pose proof (pq_rep_len _ _ Hq) as Hn. rewrite reverse_cons in Hq, Hn.
    rewrite zlen_app, zlen_cons in Hn. change (zlen (@nil (entry A))) with 0 in Hn.
    pose proof (zlen_nonneg (reverse es)). rewrite (proj2 (Z.eqb_neq _ 0)) by lia. rewrite Hc.
    by destruct (filled_last _ _ _ _ e Hq) as [-> _].
Qed.

Lemma reverse_stack q es :
  in_order None q es -> pq_insertion_ctr q < 2 ^ 63 ->
  exists q', prio_queue_reverse q = Ret q' /\ in_order None q' (reverse es) /\
    pq_insertion_ctr q' = pq_insertion_ctr q.
Proof.
  intros (Hc & Hpos & Hle & Hq) Hb. unfold prio_queue_reverse. rewrite Hc.
  pose proof (pq_rep_len _ _ Hq) as Hn. unfold zlen in Hn. rewrite length_reverse in Hn.
  destruct (Z.eqb_spec (pq_nr q) 0) as [Hz|Hnz].
  - assert (es = []) as -> by (apply length_zero_iff_nil; lia). by exists q.
  - destruct (reverse_step_spec q _ Hq) as (q' & -> & Hq' & _ & Hc' & Hctr); [unfold zlen in Hle; lia|].
    exists q'. split; [done|]. split; [|done]. split; [by rewrite Hc'|]. rewrite Hctr. split; [done|].
    split; [|done]. unfold zlen in *. by rewrite length_reverse.
Qed.

Lemma outputs_refine ocmp ops q es :
  (forall cmp, ocmp = Some cmp -> CmpOk cmp) ->
  in_order ocmp q es -> pq_insertion_ctr q + zlen ops < 2 ^ 63 ->
  outputs (queue_step junk) q ops = outputs (pending_step ocmp) (data <$> es) ops.
Proof.
  intros Hok. revert q es. induction ops as [|op ops IH]; intros q es Hq Hb; [done|].
  rewrite zlen_cons in Hb. pose proof (zlen_nonneg ops).
  destruct op as [thing| | |]; cbn [outputs queue_step pending_step].
  - destruct (put_step ocmp q es thing Hok Hq) as (q' & es' & -> & Hq' & Hd & Hctr); [lia|]. run.
    rewrite (IH q' es' Hq'), Hd by lia. done.
  - destruct (get_step ocmp q es Hok Hq) as (q' & -> & Hq' & Hctr). run.
    rewrite (IH q' _ Hq') by lia. by destruct es.
  - rewrite (peek_step ocmp q es Hok Hq). run. rewrite (IH q es Hq) by lia. by destruct es.
  - destruct ocmp as [cmp|].
    + unfold prio_queue_reverse. by rewrite (proj1 Hq).
    + destruct (reverse_stack q es Hq) as (q' & -> & Hq' & Hctr); [lia|]. run.
      rewrite (IH q' _ Hq') by lia. by rewrite fmap_reverse.
Qed.
End refinement.

(** * Claims *)

(** [C10] A priority queue refines its specification: any sequence of fewer than
    2^63 operations on a fresh queue returns what the same sequence returns on
    a list that keeps the pending elements in order -- [put] inserts behind
    everything that does not compare greater (so that equal elements come out
    in insertion order), [get] and [peek] return the first element or NULL,
    without a comparison [put] is a push, [get] a pop and [reverse] turns the
    stack around, and [reverse] of an ordered queue is a BUG. *)
Theorem prio_queue_refines `{GitCompatOk} {A} (junk : entry A) (ocmp : option (A -> A -> Z))
    (ops : list (pq_op A)) :
  (forall cmp, ocmp = Some cmp -> CmpOk cmp) ->
  zlen ops < 2 ^ 63 ->
  outputs (queue_step junk) (clear_prio_queue (PrioQueue ocmp 0 0 [])) ops =
  outputs (pending_step ocmp) [] ops.
Proof.
  intros Hok Hb. apply (outputs_refine junk ocmp ops _ []); [done| |done].
  split; [done|]. split; [done|]. split; [done|]. destruct ocmp as [cmp|].
  - exists []. split; [split; [done|by exists []]|]. split; [intros i ? ? _ Hi; by rewrite lookup_nil in Hi|].
    split; [done|]. split; [constructor|]. split; [constructor|constructor].
  - split; [done|by exists []].
Qed.

Lemma prio_queue_refines_witness :
  let ops := [Put (3, 0); Put (1, 1); Put (2, 2); Put (1, 3); Peek; Get; Get; Get; Get; Get] in
  outputs (@queue_step _ compat_ref (Entry 0 (0, 0)))
    (clear_prio_queue (PrioQueue (Some key_diff) 0 0 [])) ops =
  outputs (pending_step (Some key_diff)) [] ops /\
  outputs (pending_step (Some key_diff)) [] ops =
  Ret [None; None; None; None; Some (1, 1); Some (1, 1); Some (1, 3); Some (2, 2); Some (3, 0); None].
Proof.
  split; [|reflexivity].
  apply (@prio_queue_refines compat_ref compat_ref_ok _ (Entry 0 (0, 0)) (Some key_diff)).
  - intros cmp [= <-]. apply _.
  - evaluate.
Defined.
