(* ===== verification/StableSort.v ===== *)
(** stable-qsort.c: the merge sort behind [git_stable_qsort].  The array is a
    list of elements of [s] bytes each; all moves are moves of whole
    elements. *)
From Stdlib Require Import Sorted.
From S2P Require Import Prelude Headers.

(** * Model *)

Section model.
Context `{GitCompat} {A : Type}.
Context (cmp : A -> A -> Z).

(** The cursors of the merge: [b1] with [n1] elements left, [b2] with [n2], and
    [tmp]. *)
Record merge_state := MergeState {
  t_buf : list A;
  b1 : Z;
  b2 : Z;
  n1 : Z;
  n2 : Z;
  tmp : Z;
}.

Definition merge_step (b : list A) (st : merge_state) : outcome (merge_state + merge_state) :=
  let '(MergeState t b1 b2 n1 n2 tmp) := st in
  if (n1 >? 0) && (n2 >? 0) then
    x ← rd b b1;
    y ← rd b b2;
    if cmp x y <=? 0 then
      t ← wr t tmp x;
      Ret (inl (MergeState t (b1 + 1) b2 (n1 - 1) n2 (tmp + 1)))
    else
      t ← wr t tmp y;
      Ret (inl (MergeState t b1 (b2 + 1) n1 (n2 - 1) (tmp + 1)))
  else Ret (inr st).

(** Sorts [n] elements of [b] from [off] with [t] as scratch space; both buffers
    are returned. *)
Fixpoint msort_with_tmp (fuel : nat) (b : list A) (off n : Z) (t : list A) : outcome (list A * list A) :=
  match fuel with
  | O => Undef
  | S fuel =>
      if n <=? 1 then Ret (b, t) else
      let n1 := n / 2 in
      let n2 := n - n1 in
      '(b, t) ← msort_with_tmp fuel b off n1 t;
      '(b, t) ← msort_with_tmp fuel b (off + n1) n2 t;
      st ← loop (S (Z.to_nat n)) (merge_step b) (MergeState t off (off + n1) n1 n2 0);
      let '(MergeState t b1 _ n1 n2 tmp) := st in
      t ← (if n1 >? 0 then xs ← rd_range b b1 n1; wr_range t tmp xs else Ret t);
      xs ← rd_range t 0 (n - n2);
      b ← wr_range b off xs;
      Ret (b, t)
  end.

(** [st_mult] dies on overflow. *)
Definition git_stable_qsort (junk : A) (b : list A) (n s : Z) : outcome (list A) :=
  if 2 ^ 64 <=? n * s then Err Bug else
  '(b, _) ← msort_with_tmp (S (Z.to_nat n)) b 0 n (replicate (Z.to_nat n) junk);
  Ret b.
End model.
Arguments merge_state : clear implicits.

(** * Stable sorting *)

(** A sorted rearrangement that keeps equal elements in order. *)
Section stable.
Context {A : Type} (cmp : A -> A -> Z) `{!CmpOk cmp}.
Implicit Types l k m : list A.

Definition cle (x y : A) : Prop := cmp x y <= 0.

#[global] Instance cmp_eq_dec (x : A) : forall y, Decision (cmp x y = 0) := fun y => decide _.

Definition stable_sort_of l l' : Prop :=
  StronglySorted cle l' /\ l' ≡ₚ l /\
  forall x, filter (fun y => cmp x y = 0) l' = filter (fun y => cmp x y = 0) l.

(** The merge of two lists, preferring the left. *)
Fixpoint merge l : list A -> list A :=
  fix go k :=
    match l, k with
    | [], _ => k
    | _, [] => l
    | x :: l', y :: k' => if cmp x y <=? 0 then x :: merge l' k else y :: go k'
    end.

Lemma merge_nil_l k : merge [] k = k.
Proof. by destruct k. Qed.
Lemma merge_nil_r l : merge l [] = l.
Proof. by destruct l. Qed.
Lemma merge_cons x l y k :
  merge (x :: l) (y :: k) = if cmp x y <=? 0 then x :: merge l (y :: k) else y :: merge (x :: l) k.
Proof. done. Qed.

Lemma merge_Permutation l k : merge l k ≡ₚ l ++ k.
Proof.
  revert k. induction l as [|x l IHl]; intros k; [by rewrite merge_nil_l|].
  induction k as [|y k IHk]; [by rewrite merge_nil_r, app_nil_r|].
  rewrite merge_cons. case_if; [by rewrite IHl|].
  by rewrite IHk, Permutation_middle.
Qed.

Lemma merge_sorted l k :
  StronglySorted cle l -> StronglySorted cle k -> StronglySorted cle (merge l k).
Proof.
  revert k. induction l as [|x l IHl]; intros k Hl Hk; [by rewrite merge_nil_l|].
  induction k as [|y k IHk]; [by rewrite merge_nil_r|].
  pose proof (StronglySorted_inv Hl) as [Hl' Hx]. pose proof (StronglySorted_inv Hk) as [Hk' Hy].
  rewrite merge_cons. case_if.
  - constructor; [by apply IHl|]. rewrite merge_Permutation. apply Forall_app. split; [done|].
    constructor; [done|]. eapply Forall_impl; [exact Hy|]. intros z Hz. by apply (cmp_trans _ y).
  - constructor; [by apply IHk|]. rewrite merge_Permutation.
    assert (cle y x) by (unfold cle; pose proof (cmp_flip x y); lia).
    constructor; [done|]. apply Forall_app. split; [|done].
    eapply Forall_impl; [exact Hx|]. intros z Hz. by apply (cmp_trans _ x).
Qed.

(** Merging keeps the elements equal to any [x] in order. *)
Lemma merge_stable x l k :
  StronglySorted cle l ->
  filter (fun y => cmp x y = 0) (merge l k) =
  filter (fun y => cmp x y = 0) l ++ filter (fun y => cmp x y = 0) k.
Proof.
  revert k. induction l as [|a l IHl]; intros k Hl; [by rewrite merge_nil_l|].
  induction k as [|b k IHk]; [by rewrite merge_nil_r, app_nil_r|].
  pose proof (StronglySorted_inv Hl) as [Hl' Ha].
  rewrite merge_cons. case_if.
  - rewrite !(filter_cons _ a), IHl by done. by case_decide.
  - rewrite (filter_cons _ b (merge _ _)), IHk, (filter_cons _ b k).
    case_decide as Hb; [|done].
    (* everything left of [b] is greater than [b], so not equal to [x] *)
    assert (filter (fun y => cmp x y = 0) (a :: l) = []) as ->; [|done].
    apply elem_of_nil_inv. intros z Hz. apply list_elem_of_filter in Hz as [Hxz Hz].
    assert (cle a z) as Haz.
    { apply elem_of_cons in Hz as [->|Hz]; [unfold cle; pose proof (cmp_refl cmp a); lia|].
      by eapply Forall_forall in Ha. }
    pose proof (cmp_flip a b). pose proof (cmp_flip x z). pose proof (cmp_flip z x).
    pose proof (cmp_flip x b). pose proof (cmp_flip b x).
    unfold cle in *. pose proof (cmp_trans a z x Haz). pose proof (cmp_trans a x b). lia.
Qed.

Lemma stable_sort_merge l k l' k' :
  stable_sort_of l l' -> stable_sort_of k k' -> stable_sort_of (l ++ k) (merge l' k').
Proof.
  intros (Hl & Hpl & Hsl) (Hk & Hpk & Hsk). split; [by apply merge_sorted|]. split.
  - by rewrite merge_Permutation, Hpl, Hpk.
  - intros x. by rewrite merge_stable, Hsl, Hsk, filter_app.
Qed.
End stable.

(** * The merge loop *)

Section sort.
Context `{GitCompatOk} {A : Type}.
Context (cmp : A -> A -> Z) `{!CmpOk cmp}.
Implicit Types (b t l k : list A).

Lemma merge_step_run b t p1 p2 x y r1 r2 n1 n2 n :
  at_pos b p1 (x :: r1) -> at_pos b p2 (y :: r2) -> 0 < n1 -> 0 < n2 -> 0 <= n < zlen t ->
  merge_step cmp b (MergeState t p1 p2 n1 n2 n) =
  Ret (inl (if cmp x y <=? 0 then MergeState (<[Z.to_nat n := x]> t) (p1 + 1) p2 (n1 - 1) n2 (n + 1)
            else MergeState (<[Z.to_nat n := y]> t) p1 (p2 + 1) n1 (n2 - 1) (n + 1))).
Proof.
  intros H1 H2 Hn1 Hn2 Hn. cbn [merge_step].
  replace ((n1 >? 0) && (n2 >? 0)) with true
    by (rewrite !Z.gtb_ltb; symmetry; apply andb_true_iff; split; apply Z.ltb_lt; lia).
  destruct (at_pos_cons _ _ _ _ H1) as [-> _]. destruct (at_pos_cons _ _ _ _ H2) as [-> _]. run.
  rewrite !wr_in by lia. run. by case_if.
Qed.

(** The loop writes the merge of what the cursors point at; when it stops, at
    most one side has elements left. *)
Lemma merge_loop_spec b l k r1 r2 : forall fuel t p1 p2 n acc,
  at_pos b p1 (l ++ r1) -> at_pos b p2 (k ++ r2) ->
  filled t n acc -> n + zlen l + zlen k <= zlen t -> (length l + length k < fuel)%nat ->
  exists t' l' k' p1' p2' m,
    loop fuel (merge_step cmp b) (MergeState t p1 p2 (zlen l) (zlen k) n) =
      Ret (MergeState t' p1' p2' (zlen l') (zlen k') (n + zlen m)) /\
    filled t' (n + zlen m) (acc ++ m) /\ zlen t' = zlen t /\
    at_pos b p1' (l' ++ r1) /\ k' `suffix_of` k /\ (l' = [] \/ k' = []) /\
    m ++ l' ++ k' = merge cmp l k.
Proof.
  revert k. induction l as [|x l IHl]; intros k.
  { intros [|fuel] t p1 p2 n acc H1 H2 Ht Hroom Hf; [lia|]. exists t, [], k, p1, p2, [].
    cbn [loop merge_step]. rewrite !zlen_nil, !Z.add_0_r, app_nil_r, merge_nil_l. 
    do 5 (split; [done|]). split; [by left|done]. }
  induction k as [|y k IHk]; intros [|fuel] t p1 p2 n acc H1 H2 Ht Hroom Hf; try lia.
  { exists t, (x :: l), [], p1, p2, []. cbn [loop merge_step].
    rewrite !zlen_nil, !Z.add_0_r, !app_nil_r, merge_nil_r, andb_false_r. 
    do 5 (split; [done|]). split; [by right|done]. }
  pose proof (zlen_nonneg l). pose proof (zlen_nonneg k). rewrite merge_cons. cbn [loop].
  pose proof (filled_le _ _ _ Ht).
  destruct (at_pos_cons _ _ _ _ H1) as [_ H1']. destruct (at_pos_cons _ _ _ _ H2) as [_ H2'].
  rewrite (merge_step_run _ _ _ _ _ _ _ _ _ _ _ H1 H2); [run|rewrite ?zlen_cons in *; lia..].
  cbn [length] in Hf. rewrite !zlen_cons in Hroom. case_if.
  - destruct (filled_wr _ _ _ x Ht) as [_ Ht']; [lia|].
    replace (zlen (x :: l) - 1) with (zlen l) by (rewrite zlen_cons; lia).
    destruct (IHl (y :: k) fuel _ (p1 + 1) p2 (n + 1) _ H1' H2 Ht')
      as (t' & l' & k' & p1' & p2' & m & Hl & Hf' & Hz & ?&?&?& Hm);
      [rewrite zlen_insert, zlen_cons; lia|cbn [length]; lia|].
    exists t', l', k', p1', p2', (x :: m). rewrite (zlen_cons x m).
    replace (n + (1 + zlen m)) with (n + 1 + zlen m) by lia.
    rewrite zlen_insert in Hz. rewrite <-Hm. rewrite <-(assoc app) in Hf'. 
    split; [exact Hl|]. do 5 (split; [done|]). done.
  - destruct (filled_wr _ _ _ y Ht) as [_ Ht']; [lia|].
    replace (zlen (y :: k) - 1) with (zlen k) by (rewrite zlen_cons; lia).
    destruct (IHk fuel _ p1 (p2 + 1) (n + 1) _ H1 H2' Ht')
      as (t' & l' & k' & p1' & p2' & m & Hl & Hf' & Hz & ? & ? & ? & Hm);
      [rewrite zlen_insert, zlen_cons; lia|cbn [length]; lia|].
    exists t', l', k', p1', p2', (y :: m). rewrite (zlen_cons y m).
    replace (n + (1 + zlen m)) with (n + 1 + zlen m) by lia.
    rewrite zlen_insert in Hz. rewrite <-Hm. rewrite <-(assoc app) in Hf'.
    split; [exact Hl|]. do 3 (split; [done|]). split; [by apply suffix_cons_r|]. done.
Qed.

(** What is left of the first half goes behind the merged elements. *)
Lemma copy_rest b t m l3 k p1 :
  at_pos b p1 (l3 ++ k) -> filled t (zlen m) m -> zlen m + zlen l3 <= zlen t ->
  exists t', (if zlen l3 >? 0 then xs ← rd_range b p1 (zlen l3); wr_range t (zlen m) xs else Ret t) = Ret t' /\
    zlen t' = zlen t /\ filled t' (zlen m + zlen l3) (m ++ l3).
Proof.
  intros Hp Hf Hle. case_if.
  - destruct (at_pos_app _ _ _ _ Hp) as [-> _]. run. by apply filled_wr_range.
  - exists t. split; [done|]. split; [done|]. pose proof (zlen_nonneg l3). assert (l3 = []) as -> by (apply length_zero_iff_nil; unfold zlen in *; lia).
    by rewrite zlen_nil, Z.add_0_r, app_nil_r.
Qed.

(** The merged elements go back; what is left of the second half is in place. *)
Lemma copy_back pre old k post t new :
  filled t (zlen new) new -> zlen old = zlen new ->
  (xs ← rd_range t 0 (zlen new); b ← wr_range (pre ++ old ++ k ++ post) (zlen pre) xs; Ret (b, t)) = Ret (pre ++ new ++ k ++ post, t).
Proof.
  intros Hf Hl. pose proof (filled_le _ _ _ Hf). pose proof (zlen_nonneg pre). pose proof (zlen_nonneg (k ++ post)).
  rewrite rd_range_in by lia. unfold slice. rewrite drop_0, (filled_take _ _ _ Hf). run.
  rewrite wr_range_in by (rewrite ?zlen_app in *; lia). run. do 2 f_equal.
  assert (drop (Z.to_nat (zlen pre + zlen new)) (pre ++ old ++ k ++ post) = k ++ post) as ->.
  { rewrite (assoc app pre), drop_app_length'; [done|]. rewrite length_app. unfold zlen in *. lia. }
  unfold zlen at 1. by rewrite Nat2Z.id, take_app_length.
Qed.

(** The second half of a call: merging two sorted halves in place. *)
Lemma merge_halves pre u v u' v' post t :
  stable_sort_of cmp u u' -> stable_sort_of cmp v v' -> zlen u + zlen v <= zlen t ->
  exists l' t',
    (st ← loop (S (Z.to_nat (zlen u + zlen v))) (merge_step cmp ((pre ++ u') ++ v' ++ post))
            (MergeState t (zlen pre) (zlen pre + zlen u) (zlen u) (zlen v) 0);
     let '(MergeState t b1 _ n1 n2 tmp) := st in
     t ← (if n1 >? 0 then xs ← rd_range ((pre ++ u') ++ v' ++ post) b1 n1; wr_range t tmp xs else Ret t);
     xs ← rd_range t 0 (zlen u + zlen v - n2);
     b ← wr_range ((pre ++ u') ++ v' ++ post) (zlen pre) xs;
     Ret (b, t)) = Ret (pre ++ l' ++ post, t') /\ zlen t' = zlen t /\ stable_sort_of cmp (u ++ v) l'.
Proof.
  intros Su Sv Ht. pose proof (zlen_nonneg u). pose proof (zlen_nonneg v).
  assert (zlen u' = zlen u) as Hzu by (unfold zlen; by rewrite (Permutation_length (proj1 (proj2 Su)))).
  assert (zlen v' = zlen v) as Hzv by (unfold zlen; by rewrite (Permutation_length (proj1 (proj2 Sv)))).
  assert (at_pos ((pre ++ u') ++ v' ++ post) (zlen pre) (u' ++ (v' ++ post))) as Hp1 by (rewrite <-(assoc app); apply at_pos_pre).
  assert (at_pos ((pre ++ u') ++ v' ++ post) (zlen pre + zlen u) (v' ++ post)) as Hp2 by (rewrite <-Hzu, <-zlen_app; apply at_pos_pre).
  destruct (merge_loop_spec _ u' v' _ _ (S (Z.to_nat (zlen u + zlen v))) t _ _ 0 [] Hp1 Hp2 (filled_nil _))
    as (t3 & l3 & k3 & p1' & p2' & m & Hloop & Hf3 & Ht3 & Hp3 & [pk Hk] & _ & Hm);
    [lia|unfold zlen in *; lia|].
  rewrite Hzu, Hzv, Z.add_0_l, app_nil_l in *. rewrite Hloop. run.
  assert (zlen (m ++ l3 ++ k3) = zlen u + zlen v) as Hzm.
  { rewrite Hm. unfold zlen. rewrite (Permutation_length (merge_Permutation cmp u' v')), length_app. unfold zlen in *. lia. }
  rewrite !zlen_app in Hzm. pose proof (zlen_nonneg k3).
  destruct (copy_rest _ t3 m l3 _ _ Hp3 Hf3) as (t4 & -> & Ht4 & Hf4); [lia|]. run.
  replace (zlen u + zlen v - zlen k3) with (zlen (m ++ l3)) by (rewrite zlen_app; lia). rewrite <-zlen_app in Hf4.
  assert ((pre ++ u') ++ v' ++ post = pre ++ (u' ++ pk) ++ k3 ++ post) as -> by (rewrite Hk, <-!(assoc app); done).
  rewrite copy_back; [|done|rewrite Hk, zlen_app in Hzv; rewrite !zlen_app; lia].
  exists (m ++ l3 ++ k3), t4. split; [by rewrite <-!(assoc app)|]. split; [lia|]. rewrite Hm. by apply stable_sort_merge.
Qed.

(** What is copied back. *)
Lemma msort_spec fuel : forall pre l post t,
  (length l < fuel)%nat -> zlen l <= zlen t ->
  exists l' t', msort_with_tmp cmp fuel (pre ++ l ++ post) (zlen pre) (zlen l) t =
      Ret (pre ++ l' ++ post, t') /\ zlen t' = zlen t /\ stable_sort_of cmp l l'.
Proof.
  induction fuel as [|fuel IH]; intros pre l post t Hf Ht; [lia|]. cbn [msort_with_tmp].
  destruct (Z.leb_spec (zlen l) 1) as [Hle|Hgt].
  { exists l, t. split; [done|]. split; [done|]. split; [|done].
    destruct l as [|x [|y l]]; [constructor|by repeat constructor|].
    rewrite !zlen_cons in Hle. pose proof (zlen_nonneg l). lia. }
  set (h := Z.to_nat (zlen l / 2)).
  assert (0 < h < length l)%nat as Hh by (unfold h, zlen in *; Z.to_euclidean_division_equations; lia).
  pose proof (take_drop h l) as Hl. set (u := take h l) in *. set (v := drop h l) in *.
  assert (zlen u = zlen l / 2) as Hu by (unfold u, zlen; rewrite length_take; unfold h, zlen in *; lia).
  assert (zlen l = zlen u + zlen v) as Hluv by (rewrite <-Hl, zlen_app; done).
  assert (length u < length l /\ length v < length l)%nat as [Hlu Hlv] by (unfold u, v; rewrite length_take, length_drop; lia).
  rewrite <-Hu. replace (zlen l - zlen u) with (zlen v) by lia. pose proof (zlen_nonneg u). pose proof (zlen_nonneg v).
  replace (pre ++ l ++ post) with (pre ++ u ++ (v ++ post)) by (by rewrite <-Hl, <-!(assoc app)).
  destruct (IH pre u (v ++ post) t) as (u' & t1 & -> & Ht1 & Su); [lia|lia|].
  run. assert (zlen u' = zlen u) as Hzu by (unfold zlen; by rewrite (Permutation_length (proj1 (proj2 Su)))).
  replace (pre ++ u' ++ v ++ post) with ((pre ++ u') ++ v ++ post) by (by rewrite <-(assoc app)).
  destruct (IH (pre ++ u') v post t1) as (v' & t2 & Hms & Ht2 & Sv); [lia|lia|].
  rewrite zlen_app, Hzu in Hms. rewrite Hms, Hluv. run.
  destruct (merge_halves pre u v u' v' post t2 Su Sv) as (l' & t' & -> & Ht' & Sl); [lia|].
  exists l', t'. rewrite Hl in Sl. split; [done|]. split; [lia|done].
Qed.
End sort.

(** * compat/qsort_s.c *)

(** The same sort with a context for the comparison, which checks its arguments:
    [None] is a NULL pointer. *)
Section qsort_s.
Context {A C : Type} (junk : A) (ctx : C).

(** [msort_with_tmp] with a context. *)
Definition msort_ctx (cmp : A -> A -> C -> Z) (n : Z) (b t : list A) : outcome (list A * list A) :=
  msort_with_tmp (fun x y => cmp x y ctx) (S (Z.to_nat n)) b 0 n t.

(** The array and the value returned. *)
Definition git_qsort_s (b : option (list A)) (n s : Z) (cmp : option (A -> A -> C -> Z)) : outcome (option (list A) * Z) :=
  if 2 ^ 64 <=? n * s then Err Bug else
  if n =? 0 then Ret (b, 0) else
  match b, cmp with
  | Some l, Some cmp => '(l, _) ← msort_ctx cmp n l (replicate (Z.to_nat n) junk); Ret (Some l, 0)
  | _, _ => Ret (b, -1)
  end.

Lemma git_qsort_s_sorts (cmp : A -> A -> C -> Z) (b : list A) (s : Z) :
  CmpOk (fun x y => cmp x y ctx) -> zlen b * s < 2 ^ 64 ->
  exists b', git_qsort_s (Some b) (zlen b) s (Some cmp) = Ret (Some b', 0) /\ stable_sort_of (fun x y => cmp x y ctx) b b'.
Proof.
  intros Hcmp Hs. unfold git_qsort_s, msort_ctx. rewrite (proj2 (Z.leb_gt _ _)) by done. destruct (Z.eqb_spec (zlen b) 0) as [Hz|_].
  { exists b. split; [done|]. assert (b = []) as -> by (apply length_zero_iff_nil; unfold zlen in Hz; lia). by repeat constructor. }
  destruct (msort_spec (fun x y => cmp x y ctx) (S (Z.to_nat (zlen b))) [] b [] (replicate (Z.to_nat (zlen b)) junk))
    as (b' & t' & Hr & _ & Hst); [unfold zlen; lia|unfold zlen; rewrite length_replicate; lia|].
  rewrite app_nil_r in Hr. rewrite app_nil_l in Hr. change (zlen (@nil A)) with 0 in Hr. rewrite Hr. run. rewrite app_nil_r. by exists b'.
Qed.

Lemma git_qsort_s_null n s cmp : 0 < n -> n * s < 2 ^ 64 -> git_qsort_s None n s cmp = Ret (None, -1).
Proof. intros Hn Hs. unfold git_qsort_s. rewrite (proj2 (Z.leb_gt _ _)), (proj2 (Z.eqb_neq n 0)) by lia. done. Qed.
End qsort_s.

(** * QSORT *)

(** QSORT of git-compat-util.h: what the [qsort] of the platform makes of an array. *)
Class Qsort := qsort : forall {A}, (A -> A -> Z) -> list A -> list A.

Class QsortOk `{Qsort} : Prop := qsort_sorts : forall {A} (cmp : A -> A -> Z) (l : list A),
  CmpOk cmp -> StronglySorted (cle cmp) (qsort cmp l) /\ qsort cmp l ≡ₚ l.

(** [git_stable_qsort] in its place. *)
Definition qsort_ref : Qsort := fun A cmp l =>
  match l with
  | [] => []
  | x :: _ => match git_stable_qsort cmp x l (zlen l) 0 with Ret l' => l' | _ => l end
  end.

Lemma qsort_ref_ok : @QsortOk qsort_ref.
Proof.
  intros A cmp l Hcmp. unfold qsort, qsort_ref. destruct l as [|x l]; [repeat constructor|]. unfold git_stable_qsort. rewrite Z.mul_0_r.
  destruct (msort_spec cmp (S (Z.to_nat (zlen (x :: l)))) [] (x :: l) [] (replicate (Z.to_nat (zlen (x :: l))) x)) as (l' & t' & Hr & _ & Hst);
    [unfold zlen; lia|unfold zlen; rewrite length_replicate; lia|].
  rewrite app_nil_r, app_nil_l in Hr. change (zlen (@nil A)) with 0 in Hr. cbn [Z.leb Z.compare Z.pow Z.pow_pos Pos.iter]. rewrite Hr. run. rewrite app_nil_r.
  by destruct Hst as (? & ? & _).
Qed.

(** * Claims *)

(** [C11] [git_stable_qsort] sorts: for a comparison that orders, the [n] elements
    become a rearrangement in ascending order in which elements that compare
    equal keep their order, no element is read or written out of place, and
    the only failure is the size overflow of [st_mult]. *)
Theorem git_stable_qsort_sorts `{GitCompatOk} {A} (cmp : A -> A -> Z) `{!CmpOk cmp} (junk : A) (b : list A) (s : Z) :
  zlen b * s < 2 ^ 64 ->
  exists b', git_stable_qsort cmp junk b (zlen b) s = Ret b' /\
    StronglySorted (cle cmp) b' /\ b' ≡ₚ b /\
    forall x, filter (fun y => cmp x y = 0) b' = filter (fun y => cmp x y = 0) b.
Proof.
  intros Hs. unfold git_stable_qsort. rewrite (proj2 (Z.leb_gt _ _)) by done.
  destruct (msort_spec cmp (S (Z.to_nat (zlen b))) [] b [] (replicate (Z.to_nat (zlen b)) junk))
    as (b' & t' & Hr & _ & Hst); [unfold zlen; lia|unfold zlen; rewrite length_replicate; lia|].
  rewrite app_nil_r in Hr. rewrite app_nil_l in Hr. change (zlen (@nil A)) with 0 in Hr.
  rewrite Hr. run. rewrite app_nil_r. exists b'. by split.
Qed.

Lemma git_stable_qsort_sorts_witness :
  zlen [(3, 0); (1, 1); (3, 2); (2, 3); (1, 4)] * 16 < 2 ^ 64 /\
  git_stable_qsort key_diff (0, 0) [(3, 0); (1, 1); (3, 2); (2, 3); (1, 4)] 5 16 =
    Ret [(1, 1); (1, 4); (2, 3); (3, 0); (3, 2)] /\
  exists b', git_stable_qsort key_diff (0, 0) [(3, 0); (1, 1); (3, 2); (2, 3); (1, 4)] 5 16 = Ret b' /\
    StronglySorted (cle key_diff) b' /\ b' ≡ₚ [(3, 0); (1, 1); (3, 2); (2, 3); (1, 4)] /\
    forall x, filter (fun y => key_diff x y = 0) b' =
      filter (fun y => key_diff x y = 0) [(3, 0); (1, 1); (3, 2); (2, 3); (1, 4)].
Proof.
  split; [evaluate|]. split; [reflexivity|].
  apply (@git_stable_qsort_sorts compat_ref compat_ref_ok _ key_diff _ (0, 0)
    [(3, 0); (1, 1); (3, 2); (2, 3); (1, 4)] 16). evaluate.
Defined.
