(* ===== verification/HashLookup.v ===== *)
(** hash-lookup.c: binary search for an object name, started from an
    interpolated guess ([oid_pos]) or from a fan-out table ([bsearch_hash]). *)
From Stdlib Require Import Sorted.
From S2P Require Import Prelude Headers.

(** * Model *)

Section model.
Context `{HashHeader}.

Definition take2 (oid : list Z) (ofs : Z) : outcome Z :=
  x ← rd oid ofs;
  y ← rd oid (ofs + 1);
  Ret (Z.lor (Z.shiftl x 8) y).

(** One round of the loop over [ofs]: [inr (inl r)] returns [r], [inr (inr mi)]
    goes on to the search from [mi]. *)
Definition ofs_step (fn : Z -> outcome (list Z)) (oid : list Z) (nr ofs : Z) : outcome (Z + (Z + Z)) :=
  if negb (ofs <? rawsz - 2) then Ret (inr (inr 0)) else
  first ← fn 0;
  lov ← take2 first ofs;
  last ← fn (nr - 1);
  hiv ← take2 last ofs;
  miv ← take2 oid ofs;
  if miv <? lov then Ret (inr (inl (-1))) else
  if hiv <? miv then r ← index_pos_to_insert_pos nr; Ret (inr (inl r)) else
  if negb (lov =? hiv) then
    let mi := u64 ((nr - 1) * (miv - lov)) / (hiv - lov) in
    if (0 <=? mi) && (mi <? nr) then Ret (inr (inr mi)) else Err Bug
  else Ret (inl (ofs + 2)).

(** One round of [do ... while (lo < hi)]. *)
Definition search_step (fn : Z -> outcome (list Z)) (oid : list Z) (st : Z * Z * Z)
    : outcome ((Z * Z * Z) + Z) :=
  let '(lo, hi, mi) := st in
  k ← fn mi;
  let cmp := oidcmp k oid in
  if cmp =? 0 then Ret (inr mi) else
  let '(lo, hi) := if cmp >? 0 then (lo, mi) else (mi + 1, hi) in
  let mi := lo + (hi - lo) / 2 in
  if lo <? hi then Ret (inl (lo, hi, mi))
  else r ← index_pos_to_insert_pos lo; Ret (inr r).

Definition oid_pos (oid : list Z) (nr : Z) (fn : Z -> outcome (list Z)) : outcome Z :=
  if nr =? 0 then Ret (-1) else
  r ← (if negb (nr =? 1) then loop (S (Z.to_nat rawsz)) (ofs_step fn oid nr) 0 else Ret (inr 0));
  match r with
  | inl r => Ret r
  | inr mi => loop (S (Z.to_nat nr)) (search_step fn oid) (0, nr, mi)
  end.

(** One round of [while (lo < hi)]: [*result] and the value returned. *)
Definition bsearch_step (hash table : list Z) (stride : Z) (st : Z * Z) : outcome ((Z * Z) + (Z * Z)) :=
  let '(lo, hi) := st in
  if negb (lo <? hi) then Ret (inr (0, lo)) else
  let mi := lo + (hi - lo) / 2 in
  k ← rd_range table (mi * stride) rawsz;
  let cmp := oidcmp k hash in
  if cmp =? 0 then Ret (inr (1, mi))
  else if cmp >? 0 then Ret (inl (lo, mi))
  else Ret (inl (mi + 1, hi)).

Definition bsearch_hash (ntohl : Z -> Z) (hash fanout_nbo table : list Z) (stride : Z) : outcome (Z * Z) :=
  h ← rd hash 0;
  x ← rd fanout_nbo h;
  let hi := ntohl x in
  lo ← (if h =? 0 then Ret 0 else y ← rd fanout_nbo (h - 1); Ret (ntohl y));
  loop (S (Z.to_nat hi)) (bsearch_step hash table stride) (lo, hi).
End model.

(** * Sorted tables *)

Definition oid_le (a b : list Z) : Prop := bytes_cmp a b <= 0.

(** [p] is where [oid] belongs in [keys]: smaller names before, greater names
    from there on. *)
Definition insert_point (keys : list (list Z)) (oid : list Z) (p : Z) : Prop :=
  0 <= p <= zlen keys /\
  forall i k, keys !! i = Some k -> (Z.of_nat i < p -> bytes_cmp k oid < 0) /\ (p <= Z.of_nat i -> bytes_cmp oid k < 0).

(** A position, or an insertion point as a negative number. *)
Definition pos_result (keys : list (list Z)) (oid : list Z) (r : Z) : Prop :=
  (0 <= r /\ keys !! Z.to_nat r = Some oid) \/ (r < 0 /\ insert_point keys oid (-1 - r)).

Section search.
Context `{HashHeaderOk}.
Context (keys : list (list Z)) (oid : list Z).
Context (Hsorted : StronglySorted oid_le keys).

Lemma keys_le i j a b : (i <= j)%nat -> keys !! i = Some a -> keys !! j = Some b -> oid_le a b.
Proof.
  clear H H0. revert i j. induction Hsorted as [|k ks Hs IH Hk]; intros i j Hij Ha Hb; [done|].
  destruct i as [|i], j as [|j]; simpl in *; try lia.
  - injection Ha as ->. injection Hb as ->. unfold oid_le. by rewrite (proj2 (bytes_cmp_eq b b)).
  - injection Ha as ->. by apply (Forall_lookup_1 _ _ _ _ Hk Hb).
  - apply (IH Hs i j); [lia|done|done].
Qed.

(** [lo] and [hi] enclose the insertion point. *)
Definition bracket (lo hi : Z) : Prop :=
  0 <= lo <= hi /\ hi <= zlen keys /\
  forall i k, keys !! i = Some k -> (Z.of_nat i < lo -> bytes_cmp k oid < 0) /\ (hi <= Z.of_nat i -> bytes_cmp oid k < 0).

Lemma bracket_point lo hi : bracket lo hi -> hi <= lo -> insert_point keys oid lo.
Proof. intros (? & ? & Hb) ?. assert (hi = lo) as -> by lia. split; [lia|]. exact Hb. Qed.

Lemma bracket_low lo hi mi k :
  bracket lo hi -> lo <= mi < hi -> keys !! Z.to_nat mi = Some k -> bytes_cmp k oid < 0 -> bracket (mi + 1) hi.
Proof.
  intros (? & ? & Hb) Hmi Hk Hlt. split; [lia|]. split; [done|]. intros i k' Hk'. split; [|apply (Hb i k' Hk')].
  intros Hi. assert (oid_le k' k) as Hle by (apply (keys_le i (Z.to_nat mi)); [lia|done..]). unfold oid_le in Hle.
  pose proof (cmp_trans k' k oid). pose proof (cmp_flip k' oid). pose proof (cmp_flip oid k').
  pose proof (bytes_cmp_lt_trans k oid k' Hlt). pose proof (cmp_flip k' k). pose proof (cmp_flip k k'). lia.
Qed.

Lemma bracket_high lo hi mi k :
  bracket lo hi -> lo <= mi < hi -> keys !! Z.to_nat mi = Some k -> bytes_cmp oid k < 0 -> bracket lo mi.
Proof.
  intros (? & ? & Hb) Hmi Hk Hlt. split; [lia|]. split; [lia|]. intros i k' Hk'. split; [apply (Hb i k' Hk')|].
  intros Hi. assert (oid_le k k') as Hle by (apply (keys_le (Z.to_nat mi) i); [lia|done..]).
  by apply (bytes_cmp_lt_trans _ k).
Qed.

(** What the sign of a comparison says. *)
Lemma oidcmp_cases k :
  (oidcmp k oid = 0 /\ k = oid) \/ (0 < oidcmp k oid /\ bytes_cmp oid k < 0) \/
  (oidcmp k oid < 0 /\ bytes_cmp k oid < 0).
Proof.
  pose proof (oidcmp_spec k oid). pose proof (bytes_cmp_eq k oid). pose proof (cmp_flip k oid).
  rewrite <-bytes_cmp_eq. lia.
Qed.

Lemma search_spec fn lo hi mi :
  (forall i, fn i = rd keys i) -> zlen keys < 2 ^ 31 -> bracket lo hi -> lo <= mi < hi ->
  exists r, loop (S (Z.to_nat (hi - lo))) (search_step fn oid) (lo, hi, mi) = Ret r /\ pos_result keys oid r.
Proof.
  intros Hfn Hsmall Hb Hmi.
  apply (loop_ret (fun '(lo, hi, mi) => bracket lo hi /\ lo <= mi < hi) (fun '(lo, hi, mi) => hi - lo)); [|done|lia].
  clear Hb Hmi lo hi mi. intros [[lo hi] mi] [Hb Hmi]. unfold search_step. rewrite Hfn.
  pose proof Hb as (? & ? & _). destruct (rd_in keys mi) as [k Hk]; [lia|]. rewrite Hk. run.
  apply rd_Ret in Hk as [? Hk].
  destruct (oidcmp_cases k) as [[Hc ->]|[[Hc Hlt]|[Hc Hlt]]].
  - rewrite Hc. cbn [Z.eqb]. eexists. split; [done|]. cbv iota. by left.
  - rewrite (proj2 (Z.eqb_neq _ 0)), (proj2 (Z.gtb_lt _ 0)) by lia.
    pose proof (bracket_high _ _ _ _ Hb Hmi Hk Hlt) as Hb'. cbv beta iota.
    case_if; [eexists; split; [done|]; cbv beta iota; split; [|lia]; split; [done|];
      Z.to_euclidean_division_equations; lia|].
    rewrite index_pos_to_insert_pos_spec by lia. rewrite (proj2 (Z.ltb_lt _ _)) by lia. run.
    eexists. split; [done|]. cbv iota. right. split; [lia|]. replace (-1 - (-1 - lo)) with lo by lia.
    by apply (bracket_point lo mi).
  - rewrite (proj2 (Z.eqb_neq _ 0)) by lia. replace (oidcmp k oid >? 0) with false
      by (symmetry; rewrite Z.gtb_ltb; apply Z.ltb_ge; lia).
    pose proof (bracket_low _ _ _ _ Hb Hmi Hk Hlt) as Hb'. cbv beta iota.
    case_if; [eexists; split; [done|]; cbv beta iota; split; [|lia]; split; [done|];
      Z.to_euclidean_division_equations; lia|].
    rewrite index_pos_to_insert_pos_spec by lia. rewrite (proj2 (Z.ltb_lt _ _)) by lia. run.
    eexists. split; [done|]. cbv iota. right. split; [lia|]. replace (-1 - (-1 - (mi + 1))) with (mi + 1) by lia.
    by apply (bracket_point (mi + 1) hi).
Qed.

End search.

(** ** The interpolated guess *)

Lemma take2_split (a : list Z) ofs :
  is_bytes a -> 0 <= ofs -> ofs + 1 < zlen a ->
  exists x y, a = take (Z.to_nat ofs) a ++ x :: y :: drop (S (S (Z.to_nat ofs))) a /\
    take2 a ofs = Ret (x * 256 + y) /\ is_byte x /\ is_byte y.
Proof.
  intros Ha Hofs Hlen. destruct (rd_in a ofs) as [x Hx]; [lia|]. destruct (rd_in a (ofs + 1)) as [y Hy]; [lia|].
  unfold take2. rewrite Hx, Hy. run. apply rd_Ret in Hx as [_ Hx]. apply rd_Ret in Hy as [_ Hy].
  replace (Z.to_nat (ofs + 1)) with (S (Z.to_nat ofs)) in Hy by lia.
  pose proof (is_bytes_lookup _ _ _ Ha Hx). pose proof (is_bytes_lookup _ _ _ Ha Hy) as Hby. exists x, y. split.
  - by rewrite <-(drop_S _ _ _ Hy), <-(drop_S _ _ _ Hx), take_drop.
  - rewrite lor_shiftl_add by (unfold is_byte in *; lia). done.
Qed.

(** Equal so far, the next two bytes decide. *)
Lemma take2_compare (a b : list Z) ofs va vb :
  is_bytes a -> is_bytes b -> 0 <= ofs -> ofs + 1 < zlen a -> ofs + 1 < zlen b ->
  take (Z.to_nat ofs) a = take (Z.to_nat ofs) b -> take2 a ofs = Ret va -> take2 b ofs = Ret vb ->
  (va < vb -> bytes_cmp a b < 0) /\
  (va = vb -> take (Z.to_nat (ofs + 2)) a = take (Z.to_nat (ofs + 2)) b).
Proof.
  intros Ha Hb Hofs Hla Hlb Heq Hva Hvb.
  destruct (take2_split a ofs Ha Hofs Hla) as (x & y & Ea & Hva' & ? & ?).
  destruct (take2_split b ofs Hb Hofs Hlb) as (x' & y' & Eb & Hvb' & ? & ?).
  rewrite Hva in Hva'. rewrite Hvb in Hvb'. injection Hva' as ->. injection Hvb' as ->. unfold is_byte in *.
  set (p := take (Z.to_nat ofs) a) in *. rewrite <-Heq in Eb.
  assert (length p = Z.to_nat ofs) as Hp by (unfold p, zlen in *; rewrite length_take; lia). split.
  - intros Hlt. rewrite Ea, Eb, bytes_cmp_app. cbn [bytes_cmp].
    destruct (Z.eqb_spec x x'); [|lia]. destruct (Z.eqb_spec y y'); lia.
  - intros Hv. assert (x = x' /\ y = y') as [<- <-] by lia. rewrite Ea, Eb.
    replace (Z.to_nat (ofs + 2)) with (length (p ++ [x; y])) by (rewrite length_app, Hp; simpl; lia).
    assert (forall r, p ++ x :: y :: r = (p ++ [x; y]) ++ r) as Hassoc by (intros r; by rewrite <-(assoc app)).
    by rewrite (Hassoc (drop _ a)), (Hassoc (drop _ b)), !take_app_length.
Qed.

Section guess.
Context `{HashHeaderOk}.
Context (keys : list (list Z)) (oid : list Z).
Context (Hsorted : StronglySorted oid_le keys).
Context (Hkeys : Forall (fun k => is_bytes k /\ zlen k = rawsz) keys) (Hoid : is_bytes oid) (Hoidlen : zlen oid = rawsz).
Context (Hsmall : zlen keys < 2 ^ 31).

Lemma before_all first : keys !! 0%nat = Some first -> bytes_cmp oid first < 0 -> insert_point keys oid 0.
Proof.
  intros Hf Hlt. split; [pose proof (zlen_nonneg keys); lia|]. intros i k Hk. split; [lia|]. intros _.
  apply (bytes_cmp_lt_trans _ first); [done|]. by apply (keys_le keys Hsorted 0 i); [lia|..].
Qed.

Lemma after_all last :
  keys !! Z.to_nat (zlen keys - 1) = Some last -> bytes_cmp last oid < 0 -> insert_point keys oid (zlen keys).
Proof.
  intros Hf Hlt. split; [pose proof (zlen_nonneg keys); lia|]. intros i k Hk. apply lookup_lt_Some in Hk as Hi.
  split; [|unfold zlen; lia]. intros _.
  assert (oid_le k last) as Hle by (apply (keys_le keys Hsorted i (Z.to_nat (zlen keys - 1))); [unfold zlen; lia|done..]).
  unfold oid_le in Hle. pose proof (cmp_flip k oid). pose proof (cmp_flip oid k).
  pose proof (bytes_cmp_lt_trans last oid k Hlt). pose proof (cmp_flip k last). pose proof (cmp_flip last k). lia.
Qed.

Lemma ofs_loop_spec fn :
  (forall i, fn i = rd keys i) -> 1 < zlen keys ->
  exists r, loop (S (Z.to_nat rawsz)) (ofs_step fn oid (zlen keys)) 0 = Ret r /\
    match r with inl r => pos_result keys oid r | inr mi => 0 <= mi < zlen keys end.
Proof.
  intros Hfn Hn. pose proof rawsz_bound.
  destruct (rd_in keys 0) as [first Hfirst]; [lia|]. destruct (rd_in keys (zlen keys - 1)) as [last Hlast]; [lia|].
  pose proof (proj1 (rd_Ret _ _ _) Hfirst) as [_ Hf0]. pose proof (proj1 (rd_Ret _ _ _) Hlast) as [_ Hl0].
  destruct (Forall_lookup_1 _ _ _ _ Hkeys Hf0) as [Hfb Hfl]. destruct (Forall_lookup_1 _ _ _ _ Hkeys Hl0) as [Hlb Hll].
  apply (loop_ret (fun ofs => 0 <= ofs /\ take (Z.to_nat ofs) first = take (Z.to_nat ofs) oid /\
      take (Z.to_nat ofs) last = take (Z.to_nat ofs) oid) (fun ofs => Z.max 0 (rawsz - ofs))); [|done|lia].
  intros ofs (Hofs & Ef & El). unfold ofs_step. rewrite !Hfn, Hfirst, Hlast.
  destruct (Z.ltb_spec ofs (rawsz - 2)) as [Hlt|]; cbn [negb]; [|eexists; split; [done|]; cbv iota; lia].
  run.
  destruct (take2_split first ofs) as (x1 & y1 & _ & Hv1 & ? & ?); [done|lia|lia|].
  destruct (take2_split last ofs) as (x2 & y2 & _ & Hv2 & ? & ?); [done|lia|lia|].
  destruct (take2_split oid ofs) as (x3 & y3 & _ & Hv3 & ? & ?); [done|lia|lia|].
  rewrite Hv1, Hv2, Hv3. run.
  set (lov := x1 * 256 + y1) in *. set (hiv := x2 * 256 + y2) in *. set (miv := x3 * 256 + y3) in *.
  destruct (take2_compare oid first ofs miv lov) as [Clow _]; [done|done|lia|lia|lia|done|done|done|].
  destruct (take2_compare last oid ofs hiv miv) as [Chigh Ceq2]; [done|done|lia|lia|lia|done|done|done|].
  destruct (take2_compare first oid ofs lov miv) as [_ Ceq1]; [done|done|lia|lia|lia|done|done|done|].
  destruct (Z.ltb_spec miv lov).
  { eexists. split; [done|]. cbv iota. right. split; [lia|]. change (-1 - -1) with 0. by apply (before_all first); auto. }
  destruct (Z.ltb_spec hiv miv).
  { rewrite index_pos_to_insert_pos_spec by lia. rewrite (proj2 (Z.ltb_lt _ _)) by lia. run.
    eexists. split; [done|]. cbv iota. right. split; [lia|]. replace (-1 - (-1 - zlen keys)) with (zlen keys) by lia.
    by apply (after_all last); auto. }
  destruct (Z.eqb_spec lov hiv) as [Heq|Hne]; cbn [negb].
  { eexists. split; [done|]. cbv beta iota. split; [|lia]. split; [lia|]. split; [apply Ceq1; lia|apply Ceq2; lia]. }
  unfold is_byte in *.
  assert (0 <= (zlen keys - 1) * (miv - lov) <= (zlen keys - 1) * (hiv - lov)) as Hprod by nia.
  rewrite u64_small by nia.
  assert (0 <= (zlen keys - 1) * (miv - lov) / (hiv - lov) <= zlen keys - 1) as Hmi.
  { split; [apply Z.div_pos; lia|]. apply Z.div_le_upper_bound; lia. }
  rewrite (proj2 (Z.leb_le 0 _)), (proj2 (Z.ltb_lt _ (zlen keys))) by lia. cbn [andb].
  eexists. split; [done|]. cbv iota. lia.
Qed.

Lemma oid_pos_spec fn :
  (forall i, fn i = rd keys i) -> exists r, oid_pos oid (zlen keys) fn = Ret r /\ pos_result keys oid r.
Proof.
  intros Hfn. unfold oid_pos. pose proof (zlen_nonneg keys).
  destruct (Z.eqb_spec (zlen keys) 0) as [Hz|Hnz].
  { eexists. split; [done|]. right. split; [lia|]. split; [lia|]. intros i k Hk. apply lookup_lt_Some in Hk.
    unfold zlen in *. lia. }
  assert (forall mi, 0 <= mi < zlen keys ->
    exists r, loop (S (Z.to_nat (zlen keys))) (search_step fn oid) (0, zlen keys, mi) = Ret r /\ pos_result keys oid r) as Hs.
  { intros mi Hmi. destruct (search_spec keys oid Hsorted fn 0 (zlen keys) mi) as (r & Hr & Hp); [done|done| |done|].
    - split; [lia|]. split; [lia|]. intros i k Hk. apply lookup_lt_Some in Hk. unfold zlen. lia.
    - rewrite Z.sub_0_r in Hr. eauto. }
  destruct (Z.eqb_spec (zlen keys) 1); cbn [negb]; run; [by apply Hs; lia|].
  destruct (ofs_loop_spec fn Hfn) as ([r|mi] & -> & Hr); [lia|by exists r|]. run. by apply Hs.
Qed.
End guess.

(** ** The fan-out table *)

(** In ascending order, the names with a first byte up to [b] come first. *)
Definition first_up_to (b : Z) (k : list Z) : Prop := exists x k', k = x :: k' /\ x <= b.

#[global] Instance first_up_to_dec b k : Decision (first_up_to b k).
Proof.
  refine (match k with [] => right _ | x :: _ => cast_if (decide (x <= b)) end); unfold first_up_to; naive_solver.
Defined.

Lemma fanout_partition keys b :
  StronglySorted oid_le keys -> Forall (fun k => k <> []) keys ->
  forall i k, keys !! i = Some k -> (i < length (filter (first_up_to b) keys))%nat <-> first_up_to b k.
Proof.
  intros Hs Hne. induction Hs as [|a ks Hs IH Ha]; intros i k Hk; [done|].
  apply Forall_cons_iff in Hne as [Hane Hne]. rewrite filter_cons. destruct (decide (first_up_to b a)) as [Hab|Hab].
  - destruct i as [|i]; simpl in *; [injection Hk as <-; split; [done|lia]|]. rewrite <-(IH Hne i k Hk). lia.
  - assert (Forall (fun k => ~ first_up_to b k) (a :: ks)) as Hall.
    { constructor; [done|]. apply Forall_lookup. intros j c Hc (y & c' & -> & Hy). apply Hab.
      pose proof (Forall_lookup_1 _ _ _ _ Ha Hc) as Hle. unfold oid_le in Hle.
      destruct a as [|x a']; [done|]. exists x, a'. split; [done|]. cbn [bytes_cmp] in Hle.
      destruct (Z.eqb_spec x y); lia. }
    assert (filter (first_up_to b) ks = []) as ->.
    { apply elem_of_nil_inv. intros c Hc. apply list_elem_of_filter in Hc as [Hc1 Hc2].
      eapply Forall_forall in Hall; [by apply Hall|]. by right. }
    split; [simpl; lia|]. intros Hk'. by pose proof (Forall_lookup_1 _ _ _ _ Hall Hk).
Qed.

(** The table [table] holds the names at intervals of [stride] bytes and
    [fanout_nbo] counts, in network byte order, the names with a first byte up
    to each value. *)
Definition hash_table `{HashHeader} (ntohl : Z -> Z) (fanout_nbo table : list Z) (stride : Z) (keys : list (list Z)) : Prop :=
  (forall i k, keys !! i = Some k -> rd_range table (Z.of_nat i * stride) rawsz = Ret k) /\
  zlen fanout_nbo = 256 /\
  forall b x, fanout_nbo !! b = Some x -> ntohl x = zlen (filter (first_up_to (Z.of_nat b)) keys).

Section bsearch.
Context `{HashHeaderOk}.
Context (keys : list (list Z)) (h : Z) (rest : list Z).
Notation hash := (h :: rest).
Context (Hsorted : StronglySorted oid_le keys) (Hkeys : Forall (fun k => is_bytes k /\ zlen k = rawsz) keys).
Context (Hh : is_byte h).

(** What is returned: the position and 1, or the insertion point and 0. *)
Definition bsearch_result (r : Z * Z) : Prop :=
  (fst r = 1 /\ 0 <= snd r /\ keys !! Z.to_nat (snd r) = Some hash) \/ (fst r = 0 /\ insert_point keys hash (snd r)).

Lemma bsearch_loop_spec table stride lo hi :
  (forall i k, keys !! i = Some k -> rd_range table (Z.of_nat i * stride) rawsz = Ret k) ->
  bracket keys hash lo hi ->
  exists r, loop (S (Z.to_nat hi)) (bsearch_step hash table stride) (lo, hi) = Ret r /\ bsearch_result r.
Proof.
  intros Htable Hb.
  apply (loop_ret (fun '(lo, hi) => bracket keys hash lo hi) (fun '(lo, hi) => hi - lo));
    [|done|destruct Hb as (? & ? & _); lia].
  clear lo hi Hb. intros [lo hi] Hb. unfold bsearch_step. pose proof Hb as (? & ? & _).
  destruct (Z.ltb_spec lo hi); cbn [negb];
    [|eexists; split; [done|]; right; split; [done|]; by apply (bracket_point _ _ lo hi)].
  set (mi := lo + (hi - lo) / 2). assert (lo <= mi < hi) as Hmi by (unfold mi; Z.to_euclidean_division_equations; lia).
  destruct (lookup_lt_is_Some_2 keys (Z.to_nat mi)) as [k Hk]; [unfold zlen in *; lia|].
  pose proof (Htable _ _ Hk) as Hr. rewrite Z2Nat.id in Hr by lia. rewrite Hr. run.
  destruct (oidcmp_cases hash k) as [[Hc ->]|[[Hc Hlt]|[Hc Hlt]]].
  - rewrite Hc. cbn [Z.eqb]. eexists. split; [done|]. left. split; [done|]. split; [simpl; lia|done].
  - rewrite (proj2 (Z.eqb_neq _ 0)), (proj2 (Z.gtb_lt _ 0)) by lia.
    eexists. split; [done|]. cbv beta iota. split; [by apply (bracket_high keys hash Hsorted lo hi mi k)|lia].
  - rewrite (proj2 (Z.eqb_neq _ 0)) by lia. replace (oidcmp k hash >? 0) with false
      by (symmetry; rewrite Z.gtb_ltb; apply Z.ltb_ge; lia).
    eexists. split; [done|]. cbv beta iota. split; [by apply (bracket_low keys hash Hsorted lo hi mi k)|lia].
Qed.

Lemma bsearch_hash_spec ntohl fanout_nbo table stride :
  hash_table ntohl fanout_nbo table stride keys ->
  exists r, bsearch_hash ntohl hash fanout_nbo table stride = Ret r /\ bsearch_result r.
Proof.
  intros (Htable & Hfan & Hcount). unfold bsearch_hash. unfold is_byte in Hh. pose proof rawsz_bound.
  change (rd hash 0) with (Ret h). run.
  assert (Forall (fun k => k <> []) keys) as Hne.
  { eapply Forall_impl; [exact Hkeys|]. intros k [_ Hk] ->. change (zlen (@nil Z)) with 0 in Hk. lia. }
  assert (forall b, 0 <= b < 256 -> exists x, rd fanout_nbo b = Ret x /\ ntohl x = zlen (filter (first_up_to b) keys)) as Hrd.
  { intros b Hb. destruct (rd_in fanout_nbo b) as [x Hx]; [lia|]. exists x. split; [done|].
    apply rd_Ret in Hx as [_ Hx]. apply Hcount in Hx. by rewrite Z2Nat.id in Hx by lia. }
  destruct (Hrd h) as (x & -> & Hx); [done|]. run. rewrite Hx.
  assert (exists lo, (if h =? 0 then Ret 0 else y ← rd fanout_nbo (h - 1); Ret (ntohl y)) = Ret lo /\ 0 <= lo <= zlen keys /\
    forall i k, keys !! i = Some k -> Z.of_nat i < lo <-> first_up_to (h - 1) k) as (lo & -> & Hlo0 & Hlo).
  { destruct (Z.eqb_spec h 0) as [->|].
    - exists 0. split; [done|]. split; [pose proof (zlen_nonneg keys); lia|]. intros i k Hk. split; [lia|]. intros (y & k' & -> & Hy).
      destruct (Forall_lookup_1 _ _ _ _ Hkeys Hk) as [Hb _]. apply Forall_cons_iff in Hb as [Hb _].
      unfold is_byte in Hb. lia.
    - destruct (Hrd (h - 1)) as (y & -> & Hy); [lia|]. run. rewrite Hy. eexists. split; [done|].
      pose proof (length_filter (first_up_to (h - 1)) keys).
      split; [unfold zlen; lia|]. intros i k Hk. rewrite <-(fanout_partition keys _ Hsorted Hne i k Hk). unfold zlen. lia. }
  run. apply bsearch_loop_spec; [done|].
  assert (length (filter (first_up_to h) keys) <= length keys)%nat as Hle by apply length_filter.
  pose proof (fanout_partition keys h Hsorted Hne) as Hhi. split; [|split].
  - split; [lia|]. destruct (Z.le_gt_cases lo (zlen (filter (first_up_to h) keys))) as [|Hgt]; [done|]. exfalso.
    unfold zlen in Hgt.
    destruct (decide (length (filter (first_up_to h) keys) < length keys)%nat) as [Hlt|Hge].
    + destruct (lookup_lt_is_Some_2 _ _ Hlt) as [k Hk]. assert (first_up_to (h - 1) k) as (y & k' & -> & ?) by (apply (Hlo _ _ Hk); lia).
      assert (first_up_to h (y :: k')) as Hf by (exists y, k'; split; [done|lia]). apply (Hhi _ _ Hk) in Hf. lia.
    + unfold zlen in Hlo0. lia.
  - unfold zlen. lia.
  - intros i k Hk. destruct (Forall_lookup_1 _ _ _ _ Hkeys Hk) as [_ Hlen]. destruct k as [|y k].
    { change (zlen (@nil Z)) with 0 in Hlen. lia. }
    split.
    + intros Hi. apply (Hlo i _ Hk) in Hi as (? & ? & [= <- <-] & Hy). cbn [bytes_cmp]. destruct (Z.eqb_spec y h); lia.
    + intros Hi. cbn [bytes_cmp]. destruct (Z.eqb_spec h y) as [<-|].
      * assert (first_up_to h (h :: k)) as Hf by (exists h, k; split; [done|lia]). apply (Hhi _ _ Hk) in Hf.
        unfold zlen in Hi. lia.
      * destruct (Z.le_gt_cases y h); [|lia].
        assert (first_up_to h (y :: k)) as Hf by (exists y, k; split; [done|lia]). apply (Hhi _ _ Hk) in Hf.
        unfold zlen in Hi. lia.
Qed.
End bsearch.

(** * Claims *)

(** [C12] [oid_pos] finds: in a table of fewer than 2^31 object names in ascending
    order, whatever their distribution, the search ends, its interpolated first
    guess never leaves the table (the BUG is unreachable), and it returns the
    position of the name, or -1 minus the position at which it would have to be
    inserted when the table lacks it. *)
Theorem oid_pos_finds `{HashHeaderOk} (keys : list (list Z)) (oid : list Z) (fn : Z -> outcome (list Z)) :
  StronglySorted oid_le keys -> Forall (fun k => is_bytes k /\ zlen k = rawsz) keys ->
  is_bytes oid -> zlen oid = rawsz -> zlen keys < 2 ^ 31 -> (forall i, fn i = rd keys i) ->
  exists r, oid_pos oid (zlen keys) fn = Ret r /\ pos_result keys oid r.
Proof. intros. by apply oid_pos_spec. Qed.

Definition sample_names : list (list Z) := [[0; 7; 1]; [0; 9; 0]; [3; 1; 4]; [200; 0; 0]].

Lemma sample_names_sorted : StronglySorted oid_le sample_names.
Proof. unfold sample_names, oid_le. repeat constructor; cbn; lia. Qed.

Lemma oid_pos_finds_witness :
  @oid_pos (hash_ref 3) [3; 1; 4] 4 (rd sample_names) = Ret 2 /\
  @oid_pos (hash_ref 3) [3; 1; 5] 4 (rd sample_names) = Ret (-4) /\
  exists r, @oid_pos (hash_ref 3) [3; 1; 5] (zlen sample_names) (rd sample_names) = Ret r /\
    pos_result sample_names [3; 1; 5] r.
Proof.
  split; [vm_compute; reflexivity|]. split; [vm_compute; reflexivity|].
  apply (@oid_pos_finds (hash_ref 3) (hash_ref_ok 3 ltac:(lia)) sample_names [3; 1; 5] (rd sample_names)).
  - apply sample_names_sorted.
  - evaluate.
  - evaluate.
  - evaluate.
  - evaluate.
  - done.
Defined.

(** [bsearch_hash] finds: in a table of names in ascending order at a fixed
    stride, with a fan-out table that counts the names by first byte, it
    returns 1 and the position of the hash, or 0 and the position at which it
    would have to be inserted; it reads only whole names of the table. *)
Theorem bsearch_hash_finds `{HashHeaderOk} (keys : list (list Z)) (h : Z) (rest : list Z)
    (ntohl : Z -> Z) (fanout_nbo table : list Z) (stride : Z) :
  StronglySorted oid_le keys -> Forall (fun k => is_bytes k /\ zlen k = rawsz) keys -> is_byte h ->
  hash_table ntohl fanout_nbo table stride keys ->
  exists r, bsearch_hash ntohl (h :: rest) fanout_nbo table stride = Ret r /\ bsearch_result keys h rest r.
Proof. intros. by apply (bsearch_hash_spec _ _ _ H1 H2 H3). Qed.

(** A table of the sample names with two bytes between them. *)
Definition sample_fanout : list Z :=
  (λ b, zlen (filter (first_up_to (Z.of_nat b)) sample_names)) <$> seq 0 256.
Definition sample_table : list Z := concat ((λ k, k ++ [99; 99]) <$> sample_names).

Lemma bsearch_hash_finds_witness :
  @bsearch_hash (hash_ref 3) id [200; 0; 0] sample_fanout sample_table 5 = Ret (1, 3) /\
  @bsearch_hash (hash_ref 3) id [0; 8; 0] sample_fanout sample_table 5 = Ret (0, 1) /\
  exists r, @bsearch_hash (hash_ref 3) id [0; 8; 0] sample_fanout sample_table 5 = Ret r /\
    bsearch_result sample_names 0 [8; 0] r.
Proof.
  split; [vm_compute; reflexivity|]. split; [vm_compute; reflexivity|].
  apply (@bsearch_hash_finds (hash_ref 3) (hash_ref_ok 3 ltac:(lia)) sample_names 0 [8; 0] id sample_fanout sample_table 5).
  - apply sample_names_sorted.
  - evaluate.
  - evaluate.
  - split; [|split; [reflexivity|]].
    + intros i k Hk. do 4 (destruct i as [|i]; [injection Hk as <-; reflexivity|]). done.
    + intros b x Hx. unfold sample_fanout in Hx. rewrite list_lookup_fmap in Hx.
      apply fmap_Some in Hx as (n & Hn & ->). apply lookup_seq in Hn as [-> _]. done.
Defined.
