(* ===== verification/Varint.v ===== *)
(** varint.c: variable-length integers, seven bits a byte from the most
    significant end, where every continuation also adds one so that each number
    has exactly one encoding. *)
From S2P Require Import Prelude Headers.

(** * Model *)

Section model.
Context `{VarintHeader}.

(** One round of [while (c & 128)]; leaving it with [inl tt] is the overflow. *)
Definition decode_step (buf : list Z) (st : Z * Z * Z) : outcome ((Z * Z * Z) + (unit + (Z * Z))) :=
  let '(val, c, pos) := st in
  if negb (tru (Z.land c 128)) then Ret (inr (inr (val, pos))) else
  let val := u64 (val + 1) in
  if (val =? 0) || tru (MSB val 7) then Ret (inr (inl tt)) else
  c ← rd buf pos;
  let pos := pos + 1 in
  let val := u64 (u64 (Z.shiftl val 7) + Z.land c 127) in
  Ret (inl (val, c, pos)).

(** The value and the new [*bufp]. *)
Definition decode_varint (buf : list Z) (bufp : Z) : outcome (Z * Z) :=
  c ← rd buf bufp;
  r ← loop (S (length buf)) (decode_step buf) (Z.land c 127, c, bufp + 1);
  match r with
  | inl _ => Ret (0, bufp)
  | inr (val, pos) => Ret (val, pos)
  end.

(** One round of [while (value >>= 7)]. *)
Definition encode_step (st : Z * list Z * Z) : outcome ((Z * list Z * Z) + (list Z * Z)) :=
  let '(value, varint, pos) := st in
  let value := Z.shiftr value 7 in
  if negb (tru value) then Ret (inr (varint, pos)) else
  let value := value - 1 in
  let pos := pos - 1 in
  varint ← wr varint pos (Z.lor 128 (Z.land value 127));
  Ret (inl (value, varint, pos)).

(** The length and, where there is one, the buffer written to. *)
Definition encode_varint (junk : Z) (value : Z) (buf : option (list Z)) : outcome (Z * option (list Z)) :=
  let pos := 16 - 1 in
  varint ← wr (replicate 16 junk) pos (Z.land value 127);
  '(varint, pos) ← loop 16 encode_step (value, varint, pos);
  buf ←
    (match buf with
     | None => Ret None
     | Some buf =>
         xs ← rd_range varint pos (16 - pos);
         buf ← wr_range buf 0 xs;
         Ret (Some buf)
     end);
  Ret (16 - pos, buf).
End model.

(** * The digits of a number *)

(** The value of a string of digits, from -1 for the empty one. *)
Definition push_digit (v b : Z) : Z := (v + 1) * 128 + b mod 128.
Definition varint_value (bs : list Z) : Z := foldl push_digit (-1) bs.

(** The continued digits of [v], and all its digits; [fuel] bounds their number. *)
Fixpoint continued (fuel : nat) (v : Z) : list Z :=
  match fuel with
  | O => []
  | S fuel => if v <? 0 then [] else continued fuel (v / 128 - 1) ++ [128 + v mod 128]
  end.

Definition varint_digits (v : Z) : list Z := continued 9 (v / 128 - 1) ++ [v mod 128].

(** Every digit but the last has the high bit. *)
Definition terminated (bs : list Z) : Prop :=
  exists ds b, bs = ds ++ [b] /\ Forall (fun d => 128 <= d < 256) ds /\ 0 <= b < 128.

Lemma varint_value_snoc bs b : varint_value (bs ++ [b]) = push_digit (varint_value bs) b.
Proof. unfold varint_value. by rewrite foldl_app. Qed.

Lemma push_digit_div v b : push_digit v b / 128 - 1 = v /\ push_digit v b mod 128 = b mod 128.
Proof. unfold push_digit. Z.to_euclidean_division_equations. lia. Qed.

Lemma push_digit_gt v b : -1 <= v -> v < push_digit v b.
Proof. intros. unfold push_digit. pose proof (Z.mod_pos_bound b 128). lia. Qed.

Lemma foldl_push_ge v ds : -1 <= v -> v <= foldl push_digit v ds.
Proof.
  revert v. induction ds as [|b ds IH]; intros v Hv; [done|]. simpl.
  pose proof (push_digit_gt v b Hv). specialize (IH (push_digit v b)). lia.
Qed.

(** Digits and numbers determine each other. *)
Lemma continued_value fuel ds :
  Forall (fun d => 128 <= d < 256) ds -> (length ds <= fuel)%nat -> continued fuel (varint_value ds) = ds.
Proof.
  revert ds. induction fuel as [|fuel IH]; intros ds Hds Hf; [by destruct ds; [|simpl in Hf; lia]|].
  cbn [continued]. destruct ds as [|b ds _] using rev_ind; [done|].
  apply Forall_app in Hds as [Hds Hb]. apply Forall_cons_iff in Hb as [Hb _].
  rewrite length_app in Hf. simpl in Hf. rewrite varint_value_snoc.
  destruct (push_digit_div (varint_value ds) b) as [-> ->]. rewrite IH by (done || lia).
  pose proof (foldl_push_ge (-1) ds) as Hge. fold (varint_value ds) in Hge. pose proof (Z.mod_pos_bound b 128).
  rewrite (proj2 (Z.ltb_ge _ _)) by (unfold push_digit; lia).
  do 2 f_equal. Z.to_euclidean_division_equations. lia.
Qed.

Lemma value_continued fuel v :
  -1 <= v < 2 ^ (7 * Z.of_nat fuel) - 1 ->
  varint_value (continued fuel v) = v /\
  Forall (fun d => 128 <= d < 256) (continued fuel v) /\ (length (continued fuel v) <= fuel)%nat.
Proof.
  revert v. induction fuel as [|fuel IH]; intros v Hv.
  { change (2 ^ (7 * Z.of_nat 0)) with 1 in Hv. assert (v = -1) as -> by lia. by repeat constructor. }
  cbn [continued]. destruct (Z.ltb_spec v 0).
  { assert (v = -1) as -> by lia. repeat constructor. simpl. lia. }
  replace (7 * Z.of_nat (S fuel)) with (7 * Z.of_nat fuel + 7) in Hv by lia.
  rewrite Z.pow_add_r in Hv by lia. change (2 ^ 7) with 128 in Hv.
  destruct (IH (v / 128 - 1)) as (IH1 & IH2 & IH3); [Z.to_euclidean_division_equations; lia|].
  rewrite varint_value_snoc, IH1. pose proof (Z.mod_pos_bound v 128). split; [|split].
  - unfold push_digit. Z.to_euclidean_division_equations. lia.
  - apply Forall_app. split; [done|]. constructor; [lia|done].
  - rewrite length_app. simpl. lia.
Qed.

Lemma varint_digits_spec v :
  is_word v -> varint_value (varint_digits v) = v /\ terminated (varint_digits v) /\ 1 <= zlen (varint_digits v) <= 10.
Proof.
  intros Hv. unfold is_word, varint_digits in *.
  destruct (value_continued 9 (v / 128 - 1)) as (H1 & H2 & H3).
  { change (2 ^ (7 * Z.of_nat 9)) with (2 ^ 63). change (2 ^ 64) with (2 ^ 63 * 2) in Hv.
    Z.to_euclidean_division_equations; lia. }
  rewrite varint_value_snoc, H1. pose proof (Z.mod_pos_bound v 128). split; [|split].
  - unfold push_digit. Z.to_euclidean_division_equations. lia.
  - eexists _, _. split; [done|]. split; [done|lia].
  - unfold zlen. rewrite length_app. cbn [length]. lia.
Qed.

(** A terminated string of digits that fits is the digits of its value. *)
Lemma varint_digits_value bs :
  terminated bs -> (length bs <= 10)%nat -> varint_digits (varint_value bs) = bs.
Proof.
  intros (ds & b & -> & Hds & Hb) Hlen. rewrite length_app in Hlen. simpl in Hlen.
  unfold varint_digits. rewrite varint_value_snoc.
  destruct (push_digit_div (varint_value ds) b) as [-> ->].
  rewrite continued_value by (done || lia). by rewrite Z.mod_small.
Qed.

(** Eleven digits do not fit in 64 bits. *)
Lemma varint_value_length ds v :
  0 <= v -> foldl push_digit v ds < 2 ^ 64 -> (length ds <= 9)%nat.
Proof.
  assert (forall n v ds, -1 <= v -> n = length ds -> (v + 1) * 128 ^ Z.of_nat n <= foldl push_digit v ds + 1) as Hgrow.
  { intros n. induction n as [|n IH]; intros w es Hw Hn; destruct es as [|b es]; try done.
    - simpl. lia.
    - cbn [foldl]. injection Hn as Hn. specialize (IH (push_digit w b) es).
      pose proof (push_digit_gt w b Hw). rewrite Nat2Z.inj_succ, Z.pow_succ_r by lia.
      assert (0 < 128 ^ Z.of_nat n) by (apply Z.pow_pos_nonneg; lia).
      assert ((w + 1) * 128 <= push_digit w b + 1) by (unfold push_digit; pose proof (Z.mod_pos_bound b 128); lia).
      specialize (IH ltac:(lia) Hn). nia. }
  intros Hv Hlt. destruct (decide (length ds <= 9)%nat) as [|Hgt]; [done|]. exfalso.
  specialize (Hgrow (length ds) v ds ltac:(lia) eq_refl).
  assert (128 ^ 10 <= 128 ^ Z.of_nat (length ds)) by (apply Z.pow_le_mono_r; lia).
  change (128 ^ 10) with (64 * 2 ^ 64) in *.
  assert (1 * 128 ^ Z.of_nat (length ds) <= (v + 1) * 128 ^ Z.of_nat (length ds)) by (apply Z.mul_le_mono_nonneg_r; lia).
  lia.
Qed.

(** * Encoding *)

Section encode.
Context `{VarintHeaderOk}.

Lemma encode_digit value : 0 <= value -> Z.lor 128 (Z.land value 127) = 128 + value mod 128.
Proof.
  intros. change 127 with (Z.ones 7). rewrite Z.land_ones by lia. change (2 ^ 7) with 128.
  change 128 with (Z.shiftl 1 7) at 1. rewrite lor_shiftl_add; [done|lia|].
  change (2 ^ 7) with 128. apply Z.mod_pos_bound. lia.
Qed.

(** [tail] is written at the end of the array; the loop puts the continued
    digits before it. *)
Lemma encode_loop n : forall value varint tail,
  0 <= value < 2 ^ (7 * Z.of_nat n + 7) -> Z.of_nat n + zlen tail <= zlen varint ->
  at_pos varint (zlen varint - zlen tail) tail ->
  exists varint' tail', loop (S n) encode_step (value, varint, zlen varint - zlen tail) =
      Ret (varint', zlen varint - zlen tail') /\ zlen varint' = zlen varint /\
    at_pos varint' (zlen varint - zlen tail') tail' /\ tail' = continued n (value / 128 - 1) ++ tail.
Proof.
  assert (forall value varint pos, 0 <= value -> encode_step (value, varint, pos) =
    if negb (tru (value / 128)) then Ret (inr (varint, pos)) else
    varint ← wr varint (pos - 1) (128 + (value / 128 - 1) mod 128);
    Ret (inl (value / 128 - 1, varint, pos - 1))) as Hstep.
  { intros value varint pos Hv. unfold encode_step. rewrite Z.shiftr_div_pow2 by lia. change (2 ^ 7) with 128.
    destruct (tru (value / 128)) eqn:Ht; zb; [|done]. assert (0 <= value / 128) by (apply Z.div_pos; lia).
    cbn [negb]. by rewrite encode_digit by lia. }
  induction n as [|n IH]; intros value varint tail Hv Hroom Hat.
  { change (2 ^ (7 * Z.of_nat 0 + 7)) with 128 in Hv. exists varint, tail.
    split; [|done]. apply loop_stop. rewrite Hstep by lia. by rewrite Z.div_small by lia. }
  assert (0 <= value / 128) by (apply Z.div_pos; lia). cbn [continued].
  destruct (decide (value / 128 = 0)) as [Hz|Hnz].
  { exists varint, tail. rewrite Hz. split; [|done]. apply loop_stop. rewrite Hstep by lia. by rewrite Hz. }
  rewrite (proj2 (Z.ltb_ge _ _)) by lia. pose proof (zlen_nonneg tail).
  set (d := 128 + (value / 128 - 1) mod 128).
  set (v' := <[Z.to_nat (zlen varint - zlen tail - 1) := d]> varint).
  assert (zlen v' = zlen varint) as Hzv by apply zlen_insert.
  assert (at_pos v' (zlen v' - zlen (d :: tail)) (d :: tail)) as Hat'.
  { rewrite Hzv, zlen_cons. replace (zlen varint - (1 + zlen tail)) with (zlen varint - zlen tail - 1) by lia.
    destruct Hat as [_ Hat]. split; [rewrite Hzv; lia|].
    destruct (lookup_lt_is_Some_2 v' (Z.to_nat (zlen varint - zlen tail - 1))) as [x Hx]; [unfold zlen in *; lia|].
    rewrite (drop_S _ _ _ Hx). unfold v' in Hx |- *. rewrite drop_insert_lt by lia.
    rewrite list_lookup_insert_eq in Hx by (unfold zlen in *; lia). injection Hx as <-.
    f_equal. etransitivity; [|exact Hat]. f_equal. lia. }
  replace (7 * Z.of_nat (S n) + 7) with (7 + (7 * Z.of_nat n + 7)) in Hv by lia.
  rewrite (Z.pow_add_r 2 7) in Hv by lia. change (2 ^ 7) with 128 in Hv.
  destruct (IH (value / 128 - 1) v' (d :: tail)) as (w & t & Hl & Hz & Ha & Ht);
    [Z.to_euclidean_division_equations; lia|rewrite Hzv, zlen_cons; lia|done|].
  rewrite Hzv in *. exists w, t. split; [|split; [done|split; [done|by rewrite Ht, <-(assoc app)]]].
  rewrite <-Hl. apply loop_next. rewrite Hstep by lia.
  rewrite (proj2 (tru_true (value / 128))) by done. cbn [negb]. rewrite wr_in by lia. run.
  assert (zlen varint - zlen (d :: tail) = zlen varint - zlen tail - 1) as -> by (rewrite zlen_cons; lia). done.
Qed.

Lemma encode_varint_spec junk value buf :
  is_word value -> zlen (varint_digits value) <= zlen buf ->
  encode_varint junk value (Some buf) =
    Ret (zlen (varint_digits value), Some (varint_digits value ++ drop (length (varint_digits value)) buf)) /\
  encode_varint junk value None = Ret (zlen (varint_digits value), None).
Proof.
  intros Hv Hbuf. unfold encode_varint. rewrite wr_in by done. run.
  assert (Z.land value 127 = value mod 128) as -> by (change 127 with (Z.ones 7); by rewrite Z.land_ones).
  set (v0 := <[Z.to_nat (16 - 1) := value mod 128]> (replicate 16 junk)).
  destruct (encode_loop 9 value v0 [value mod 128]) as (varint & tail & Hl & Hz & Ha & Htail).
  - unfold is_word in Hv. change (2 ^ (7 * Z.of_nat 9 + 7)) with (64 * 2 ^ 64). lia.
  - done.
  - split; [done|]. done.
  - change (zlen v0) with 16 in *. change (16 - zlen [value mod 128]) with (16 - 1) in Hl.
    fold (varint_digits value) in Htail. subst tail.
    rewrite (loop_more _ _ 16 _ _ Hl) by lia. run.
    rewrite <-(app_nil_r (varint_digits value)) in Ha. destruct (at_pos_app _ _ _ _ Ha) as [Hr _].
    replace (16 - (16 - zlen (varint_digits value))) with (zlen (varint_digits value)) by lia.
    rewrite app_nil_r in Hr. rewrite Hr. run. rewrite wr_range_in by lia. run. split; [|done].
    do 3 f_equal. rewrite app_nil_l. do 2 f_equal. unfold zlen. lia.
Qed.

(** * Decoding *)

Lemma msb_test val : is_word val -> tru (MSB val 7) = (2 ^ 57 <=? val).
Proof.
  intros Hv. unfold is_word in Hv. rewrite MSB_spec by (done || lia). change (64 - 7) with 57.
  rewrite Z.shiftl_mul_pow2, Z.shiftr_div_pow2 by lia.
  destruct (Z.leb_spec (2 ^ 57) val) as [Hle|Hlt].
  - apply tru_true. assert (1 <= val / 2 ^ 57) by (apply Z.div_le_lower_bound; lia). nia.
  - apply tru_false. by rewrite Z.div_small by lia.
Qed.

Lemma decode_loop buf rest : forall fuel ds val c p,
  Forall is_byte ds -> terminated (c :: ds) -> at_pos buf p (ds ++ rest) -> is_word val -> (length ds < fuel)%nat ->
  loop fuel (decode_step buf) (val, c, p) =
    Ret (if foldl push_digit val ds <? 2 ^ 64 then inr (foldl push_digit val ds, p + zlen ds) else inl tt).
Proof.
  induction fuel as [|fuel IH]; intros ds val c p Hds Hterm Hat Hval Hf; [lia|].
  unfold is_word in *. destruct Hterm as (es & b & Heq & Hes & Hb). destruct es as [|e es].
  - injection Heq as -> ->. cbn [foldl]. rewrite (proj2 (Z.ltb_lt _ _)), zlen_nil, Z.add_0_r by lia.
    apply loop_stop. unfold decode_step.
    by rewrite land_128_tru, (testbit_high b 7) by (change (2 ^ 7) with 128; lia).
  - injection Heq as <- ->. apply Forall_cons_iff in Hes as [Hc Hes].
    assert (Z.testbit c 7 = true) as Hbit.
    { replace c with (Z.lor (Z.shiftl 1 7) (c - 128)).
      - rewrite Z.lor_spec, Z.shiftl_spec by lia. done.
      - rewrite lor_shiftl_add; [lia..|]. change (2 ^ 7) with 128. lia. }
    assert (exists x xs, es ++ [b] = x :: xs /\ terminated (x :: xs)) as (x & xs & Hx & Hterm').
    { destruct es as [|x xs]; eexists _, _; (split; [done|]); [by exists [], b|by exists (x :: xs), b]. }
    rewrite Hx in *. apply Forall_cons_iff in Hds as [Hbx Hds]. cbn [foldl].
    pose proof (Z.mod_pos_bound x 128) as Hxm.
    assert (push_digit val x <= foldl push_digit (push_digit val x) xs) as Hmono
      by (apply foldl_push_ge; unfold push_digit; lia).
    assert (decode_step buf (val, c, p) =
      if 2 ^ 57 <=? val + 1 then Ret (inr (inl tt)) else Ret (inl (push_digit val x, x, p + 1))) as Hstep.
    { unfold decode_step. rewrite land_128_tru, Hbit. cbn [negb].
      destruct (decide (val + 1 = 2 ^ 64)) as [->|]; [done|].
      rewrite (u64_small (val + 1)) by lia. rewrite msb_test by (unfold is_word; lia).
      rewrite (proj2 (Z.eqb_neq _ _)) by lia. cbn [orb]. destruct (Z.leb_spec (2 ^ 57) (val + 1)); [done|].
      apply at_pos_cons in Hat as [-> Hat]. run.
      rewrite Z.shiftl_mul_pow2 by lia. change 127 with (Z.ones 7). rewrite Z.land_ones by lia. change (2 ^ 7) with 128.
      by rewrite (u64_small ((val + 1) * 128)), (u64_small ((val + 1) * 128 + _)) by lia. }
    destruct (Z.leb_spec (2 ^ 57) (val + 1)) as [Hbig|Hsmall].
    + rewrite (proj2 (Z.ltb_ge _ _)) by (unfold push_digit in *; lia). by apply loop_stop.
    + rewrite (loop_next _ _ _ _ Hstep). apply at_pos_cons in Hat as [_ Hat].
      rewrite (IH xs (push_digit val x) x (p + 1)); [|done..|unfold is_word, push_digit; lia|simpl in Hf; lia].
      rewrite zlen_cons. by replace (p + 1 + zlen xs) with (p + (1 + zlen xs)) by lia.
Qed.

Lemma decode_varint_spec pre bs rest :
  terminated bs ->
  decode_varint (pre ++ bs ++ rest) (zlen pre) =
    Ret (if varint_value bs <? 2 ^ 64 then (varint_value bs, zlen pre + zlen bs) else (0, zlen pre)).
Proof.
  intros Hterm. assert (Forall is_byte bs) as Hb.
  { destruct Hterm as (ds & b & -> & Hds & Hb). apply Forall_app. split; [|constructor; [unfold is_byte; lia|done]].
    eapply Forall_impl; [exact Hds|]. unfold is_byte. intros; lia. }
  destruct bs as [|c ds]; [destruct Hterm as ([] & ? & ? & _); done|].
  apply Forall_cons_iff in Hb as [Hc Hb].
  pose proof (at_pos_pre pre ((c :: ds) ++ rest)) as Hat. unfold decode_varint.
  apply at_pos_cons in Hat as [-> Hat]. run. pose proof (Z.mod_pos_bound c 128).
  change 127 with (Z.ones 7). rewrite Z.land_ones by lia. change (2 ^ 7) with 128.
  rewrite (decode_loop _ rest _ ds (c mod 128) c); [|done..|unfold is_word; lia|rewrite !length_app; simpl; lia].
  assert (varint_value (c :: ds) = foldl push_digit (c mod 128) ds) as -> by done.
  rewrite zlen_cons. case_if; run; [|done]. do 2 f_equal. lia.
Qed.
End encode.

(** * Claims *)

(** Variable-length integers round-trip: every 64-bit value is encoded in at
    most 10 bytes, all written at the start of the buffer and inside the
    16-byte scratch array, and decoding from there returns the value and the
    end of its encoding. *)
Theorem varint_roundtrip `{VarintHeaderOk} (junk value : Z) (pre buf : list Z) :
  is_word value -> 10 <= zlen buf ->
  exists n buf', encode_varint junk value (Some buf) = Ret (n, Some buf') /\ 1 <= n <= 10 /\
    zlen buf' = zlen buf /\ drop (Z.to_nat n) buf' = drop (Z.to_nat n) buf /\
    decode_varint (pre ++ buf') (zlen pre) = Ret (value, zlen pre + n).
Proof.
  intros Hv Hbuf. destruct (varint_digits_spec value Hv) as (Hval & Hterm & Hlen).
  destruct (encode_varint_spec junk value buf Hv) as [-> _]; [lia|].
  eexists _, _. split; [done|]. split; [done|]. unfold zlen in *. split; [|split].
  - rewrite length_app, length_drop. lia.
  - by rewrite Nat2Z.id, drop_app_length.
  - fold (zlen pre). rewrite decode_varint_spec by done. rewrite Hval.
    unfold is_word in Hv. by rewrite (proj2 (Z.ltb_lt _ _)) by lia.
Qed.

Lemma varint_roundtrip_witness :
  encode_varint 9 16511 (Some (replicate 10 7)) = Ret (2, Some [255; 127; 7; 7; 7; 7; 7; 7; 7; 7]) /\
  exists n buf', encode_varint 9 (2 ^ 64 - 1) (Some (replicate 10 7)) = Ret (n, Some buf') /\ 1 <= n <= 10 /\
    zlen buf' = zlen (replicate 10 7) /\ drop (Z.to_nat n) buf' = drop (Z.to_nat n) (replicate 10 7) /\
    @decode_varint varint_ref ([5] ++ buf') 1 = Ret (2 ^ 64 - 1, 1 + n).
Proof.
  split; [reflexivity|].
  apply (@varint_roundtrip varint_ref varint_ref_ok 9 (2 ^ 64 - 1) [5] (replicate 10 7)); evaluate.
Defined.

(** [C13] Decoding is exact: from a terminated string of digits [decode_varint]
    returns the number it stands for, or 0 with the pointer where it was
    exactly when that number needs more than 64 bits; and when it fits the
    digits are the ones [encode_varint] writes, so every number has one
    encoding. *)
Theorem decode_varint_exact `{VarintHeaderOk} (junk : Z) (pre bs rest : list Z) :
  terminated bs ->
  decode_varint (pre ++ bs ++ rest) (zlen pre) =
    Ret (if varint_value bs <? 2 ^ 64 then (varint_value bs, zlen pre + zlen bs) else (0, zlen pre)) /\
  (varint_value bs < 2 ^ 64 -> encode_varint junk (varint_value bs) (Some bs) = Ret (zlen bs, Some bs)).
Proof.
  intros Hterm. split; [by apply decode_varint_spec|]. intros Hlt.
  assert (varint_digits (varint_value bs) = bs) as Hbs.
  { apply varint_digits_value; [done|]. destruct bs as [|c ds]; [simpl; lia|].
    assert (varint_value (c :: ds) = foldl push_digit (c mod 128) ds) as Hv by done. rewrite Hv in Hlt.
    apply varint_value_length in Hlt; [simpl; lia|]. apply Z.mod_pos_bound. lia. }
  destruct (encode_varint_spec junk (varint_value bs) bs) as [-> _]; [|by rewrite Hbs|].
  - split; [|done]. destruct Hterm as (ds & b & -> & _ & Hb). rewrite varint_value_snoc. unfold push_digit.
    pose proof (foldl_push_ge (-1) ds) as Hge. fold (varint_value ds) in Hge. pose proof (Z.mod_pos_bound b 128). lia.
  - by rewrite Hbs, drop_all, app_nil_r.
Qed.

Lemma decode_varint_exact_witness :
  @decode_varint varint_ref [255; 127; 1] 0 = Ret (16511, 2) /\
  @decode_varint varint_ref (replicate 12 255 ++ [0]) 0 = Ret (0, 0) /\
  @decode_varint varint_ref ([] ++ [255; 127] ++ [1]) (zlen (@nil Z)) =
    Ret (if varint_value [255; 127] <? 2 ^ 64 then (varint_value [255; 127], zlen (@nil Z) + zlen [255; 127]) else (0, zlen (@nil Z))) /\
  (varint_value [255; 127] < 2 ^ 64 -> encode_varint 0 (varint_value [255; 127]) (Some [255; 127]) = Ret (zlen [255; 127], Some [255; 127])).
Proof.
  split; [reflexivity|]. split; [reflexivity|].
  apply (@decode_varint_exact varint_ref varint_ref_ok 0 [] [255; 127] [1]).
  exists [255], 127. split; [done|]. split; [repeat constructor; lia|lia].
Defined.
