(* ===== verification/BlockHash.v ===== *)
(** The part block-sha1_sha1.c and sha256_block_sha256.c share: feeding a
    message in pieces to a function on 64-byte blocks, and the padding at the
    end.  The specification hashes the padded message block by block. *)
From S2P Require Import Prelude Headers.

(** * Model *)

Section model.
Context `{ByteOrder} {St : Type}.
Context (block : St -> list Z -> outcome St).

(** [blk_SHA_CTX] and [blk_SHA256_CTX] (whose [offset] is never read). *)
Record hash_ctx := HashCtx {
  ctx_size : Z;
  ctx_state : St;
  ctx_buf : list Z;      (* the 64 bytes of [W] or [buf] *)
}.

(** One round of [while (len >= 64)]. *)
Definition blocks_step (data : list Z) (st : St * Z * Z) : outcome ((St * Z * Z) + (St * Z * Z)) :=
  let '(state, off, len) := st in
  if len >=? 64 then
    b ← rd_range data off 64;
    state ← block state b;
    Ret (inl (state, off + 64, len - 64))
  else Ret (inr st).

(** From the [while] loop on. *)
Definition update_blocks (size : Z) (state : St) (buf data : list Z) (off len : Z) : outcome hash_ctx :=
  '(state, off, len) ← loop (S (Z.to_nat len)) (blocks_step data) (state, off, len);
  buf ← (if tru len then xs ← rd_range data off len; wr_range buf 0 xs else Ret buf);
  Ret (HashCtx size state buf).

Definition hash_update (ctx : hash_ctx) (data : list Z) (len : Z) : outcome hash_ctx :=
  let len_buf := Z.land (ctx_size ctx) 63 in
  let size := u64 (ctx_size ctx + len) in
  if tru len_buf then
    let left := 64 - len_buf in
    let left := if len <? left then len else left in
    xs ← rd_range data 0 left;
    buf ← wr_range (ctx_buf ctx) len_buf xs;
    let len_buf := Z.land (len_buf + left) 63 in
    if tru len_buf then Ret (HashCtx size (ctx_state ctx) buf) else
    state ← block (ctx_state ctx) buf;
    update_blocks size state buf data left (len - left)
  else update_blocks size (ctx_state ctx) (ctx_buf ctx) data 0 len.

(** [pad]: the bytes 0x80 0 0 ... *)
Definition hash_pad : list Z := 0x80 :: replicate 63 0.

(** Everything in the [Final] functions before the output loop. *)
Definition hash_finish (ctx : hash_ctx) : outcome hash_ctx :=
  let padlen := be32_bytes (u32 (Z.shiftr (ctx_size ctx) 29)) ++ be32_bytes (u32 (Z.shiftl (ctx_size ctx) 3)) in
  let i := Z.land (ctx_size ctx) 63 in
  ctx ← hash_update ctx hash_pad (1 + Z.land 63 (55 - i));
  hash_update ctx padlen 8.
End model.
Arguments hash_ctx : clear implicits.
Arguments HashCtx {St}.

(** * Specification *)

(** The blocks of a message. *)
Fixpoint chunks (n : nat) (m : list Z) : list (list Z) :=
  match n with
  | O => []
  | S n => take 64 m :: chunks n (drop 64 m)
  end.

(** A one, zeroes up to 56 modulo 64, and the number of bits in 8 bytes. *)
Definition padded `{ByteOrder} (m : list Z) : list Z :=
  m ++ [0x80] ++ replicate (Z.to_nat ((55 - zlen m) mod 64)) 0 ++
  be32_bytes (8 * zlen m / 2 ^ 32) ++ be32_bytes (8 * zlen m mod 2 ^ 32).

Definition hash_blocks `{ByteOrder} {St} (compress : St -> list Z -> St) (init : St) (m : list Z) : St :=
  foldl compress init (chunks (length (padded m) / 64) (padded m)).

Lemma chunks_concat blocks :
  Forall (fun b => length b = 64%nat) blocks -> chunks (length blocks) (concat blocks) = blocks.
Proof.
  induction 1 as [|b blocks Hb _ IH]; [done|]. cbn [length chunks concat].
  rewrite <-Hb at 1 2. by rewrite take_app_length, drop_app_length, IH.
Qed.

Lemma length_concat_64 (blocks : list (list Z)) :
  Forall (fun b => length b = 64%nat) blocks -> length (concat blocks) = (64 * length blocks)%nat.
Proof. induction 1 as [|b blocks Hb _ IH]; [done|]. cbn [concat length]. rewrite length_app. lia. Qed.

(** * Streaming *)

Section stream.
Context `{ByteOrderOk} {St : Type}.
Context (block : St -> list Z -> outcome St) (compress : St -> list Z -> St) (good : St -> Prop).
Context (Hblock : forall s b, good s -> is_bytes b -> zlen b = 64 ->
           block s b = Ret (compress s b) /\ good (compress s b)).
Context (init : St) (Hinit : good init).
Implicit Types (m data rest : list Z) (blocks : list (list Z)) (ctx : hash_ctx St).

(** The message so far is [blocks] and an incomplete rest in the buffer. *)
Definition absorbed ctx m : Prop :=
  exists blocks rest, m = concat blocks ++ rest /\ Forall (fun b => length b = 64%nat) blocks /\
    (length rest < 64)%nat /\ is_bytes m /\ zlen m < 2 ^ 64 /\
    ctx_size ctx = zlen m /\ ctx_state ctx = foldl compress init blocks /\ good (ctx_state ctx) /\
    zlen (ctx_buf ctx) = 64 /\ filled (ctx_buf ctx) (zlen rest) rest.

Lemma land_63 x : Z.land x 63 = x mod 64.
Proof. change 63 with (Z.ones 6). by rewrite Z.land_ones. Qed.

Lemma absorbed_len ctx m blocks rest :
  m = concat blocks ++ rest -> Forall (fun b => length b = 64%nat) blocks -> (length rest < 64)%nat ->
  zlen m mod 64 = zlen rest /\ zlen m = 64 * zlen blocks + zlen rest.
Proof.
  intros -> Hb Hr. assert (zlen (concat blocks ++ rest) = 64 * zlen blocks + zlen rest) as Hl.
  { unfold zlen. rewrite length_app, length_concat_64 by done. lia. }
  split; [|done]. rewrite Hl. unfold zlen. rewrite Z.add_comm, Z.mul_comm, Z.mod_add by lia.
  apply Z.mod_small. lia.
Qed.

Lemma blocks_loop data : forall n off s,
  is_bytes data -> good s -> 0 <= off -> off + 64 * Z.of_nat n <= zlen data < off + 64 * Z.of_nat n + 64 ->
  exists blocks rest, loop (S (Z.to_nat (zlen data - off))) (blocks_step block data) (s, off, zlen data - off) =
      Ret (foldl compress s blocks, off + 64 * Z.of_nat n, zlen rest) /\
    at_pos data (off + 64 * Z.of_nat n) rest /\ drop (Z.to_nat off) data = concat blocks ++ rest /\
    Forall (fun b => length b = 64%nat) blocks /\ (length rest < 64)%nat /\ good (foldl compress s blocks).
Proof.
  induction n as [|n IH]; intros off s Hd Hs Hoff Hlen.
  - exists [], (drop (Z.to_nat off) data).
    assert (zlen (drop (Z.to_nat off) data) = zlen data - off) as Hr by (unfold zlen in *; rewrite length_drop; lia).
    rewrite Hr. replace (off + 64 * Z.of_nat 0) with off by lia. split.
    + apply loop_stop. unfold blocks_step. destruct (zlen data - off >=? 64) eqn:E; zb; [lia|done].
    + split; [split; [lia|done]|]. split; [done|]. split; [done|]. split; [unfold zlen in Hr, Hlen; lia|done].
  - set (b := slice data off 64).
    assert (rd_range data off 64 = Ret b) as Hrd by (apply rd_range_in; lia).
    assert (zlen b = 64) as Hb by (apply zlen_slice; lia).
    destruct (Hblock s b Hs (is_bytes_slice _ _ _ Hd) Hb) as [Hblk Hgood].
    destruct (IH (off + 64) (compress s b)) as (blocks & rest & Hl & Hat & Hdrop & Hbs & Hr & Hg); [done|done|lia|lia|].
    exists (b :: blocks), rest. cbn [foldl concat].
    replace (off + 64 * Z.of_nat (S n)) with (off + 64 + 64 * Z.of_nat n) by lia. split.
    + rewrite <-Hl. assert (blocks_step block data (s, off, zlen data - off) =
        Ret (inl (compress s b, off + 64, zlen data - (off + 64)))) as Hstep.
      { unfold blocks_step. destruct (zlen data - off >=? 64) eqn:E; zb; [|lia]. rewrite Hrd. run. rewrite Hblk. run.
        do 3 f_equal. lia. }
      rewrite (loop_next _ _ _ _ Hstep).
      pose proof (loop_more (blocks_step block data) _ (Z.to_nat (zlen data - off)) _ _ Hl ltac:(lia)) as Hmore.
      by rewrite Hmore, Hl.
    + split; [done|]. split; [|split; [by constructor; [unfold zlen in Hb; lia|]|done]].
      rewrite <-(assoc app), <-Hdrop. unfold b, slice. change (Z.to_nat 64) with 64%nat.
      rewrite Z2Nat.inj_add, <-drop_drop by lia. by rewrite take_drop.
Qed.

Lemma update_blocks_spec size s buf data off :
  is_bytes data -> good s -> 0 <= off <= zlen data -> zlen buf = 64 ->
  exists blocks rest ctx', update_blocks block size s buf data off (zlen data - off) = Ret ctx' /\
    drop (Z.to_nat off) data = concat blocks ++ rest /\ Forall (fun b => length b = 64%nat) blocks /\
    (length rest < 64)%nat /\ ctx_size ctx' = size /\ ctx_state ctx' = foldl compress s blocks /\
    good (ctx_state ctx') /\ zlen (ctx_buf ctx') = 64 /\ filled (ctx_buf ctx') (zlen rest) rest.
Proof.
  intros Hd Hs Hoff Hbuf. unfold update_blocks.
  destruct (blocks_loop data (Z.to_nat ((zlen data - off) / 64)) off s)
    as (blocks & rest & -> & Hat & Hdrop & Hbs & Hr & Hg); [done|done|lia|Z.to_euclidean_division_equations; lia|].
  run. exists blocks, rest. pose proof (zlen_nonneg rest). destruct (tru (zlen rest)) eqn:Ht; zb.
  - rewrite <-(app_nil_r rest) in Hat. destruct (at_pos_app _ _ _ _ Hat) as [-> _]. run.
    destruct (filled_wr_range buf 0 [] rest) as (buf' & -> & Hz & Hf); [apply filled_nil|unfold zlen in *; lia|].
    run. eexists. split; [done|]. cbn [ctx_size ctx_state ctx_buf]. rewrite app_nil_l in Hf.
    split; [done|]. split; [done|]. split; [done|]. split; [done|]. split; [done|]. split; [done|]. split; [lia|exact Hf].
  - run. eexists. split; [done|]. cbn [ctx_size ctx_state ctx_buf]. rewrite Ht.
    assert (rest = []) as -> by (apply length_zero_iff_nil; unfold zlen in Ht; lia).
    split; [done|]. split; [done|]. split; [done|]. split; [done|]. split; [done|]. split; [done|]. split; [done|]. apply filled_nil.
Qed.

(** What the rest of the data amounts to, once the buffer is empty. *)
Lemma update_blocks_absorbed m data blocks0 off buf :
  is_bytes (m ++ data) -> zlen m + zlen data < 2 ^ 64 -> 0 <= off <= zlen data -> zlen buf = 64 ->
  good (foldl compress init blocks0) ->
  Forall (fun b => length b = 64%nat) blocks0 -> m ++ take (Z.to_nat off) data = concat blocks0 ->
  exists ctx', update_blocks block (zlen m + zlen data) (foldl compress init blocks0) buf data off (zlen data - off) = Ret ctx' /\
    absorbed ctx' (m ++ data).
Proof.
  intros Hmd Hsum Hoff Hbuf Hg0 Hb0 Hpre. assert (is_bytes data) as Hd by (by apply Forall_app in Hmd as [_ ?]).
  destruct (update_blocks_spec (zlen m + zlen data) _ buf data off Hd Hg0 Hoff Hbuf)
    as (blocks1 & rest1 & ctx' & -> & Hdrop & Hb1 & Hr1 & Hsz & Hs1 & Hg1 & Hbuf1 & Hf1).
  exists ctx'. split; [done|]. exists (blocks0 ++ blocks1), rest1.
  rewrite concat_app, <-(assoc app), <-Hdrop, <-Hpre, <-(assoc app), take_drop, zlen_app, foldl_app.
  split; [done|]. split; [by apply Forall_app|]. split; [done|]. split; [done|]. split; [done|].
  split; [done|]. split; [done|]. split; [done|]. split; [done|]. exact Hf1.
Qed.

Lemma hash_update_spec ctx m data :
  absorbed ctx m -> is_bytes data -> zlen m + zlen data < 2 ^ 64 ->
  exists ctx', hash_update block ctx data (zlen data) = Ret ctx' /\ absorbed ctx' (m ++ data).
Proof.
  intros (blocks & rest & Hm & Hbs & Hr & Hmb & Hm64 & Hsize & Hst & Hg & Hbl & Hf) Hd Hsum.
  destruct (absorbed_len ctx m blocks rest Hm Hbs Hr) as [Hmod _].
  pose proof (zlen_nonneg m). pose proof (zlen_nonneg data). pose proof (zlen_nonneg rest).
  assert (is_bytes (m ++ data)) as Hmd by by apply Forall_app.
  assert (zlen rest < 64) as Hr64 by (unfold zlen; lia).
  unfold hash_update. rewrite Hsize, land_63, Hmod, u64_small by lia.
  destruct (tru (zlen rest)) eqn:Ht; zb.
  - set (left := if zlen data <? 64 - zlen rest then zlen data else 64 - zlen rest).
    assert (0 <= left <= zlen data /\ left <= 64 - zlen rest /\ (left = zlen data \/ left = 64 - zlen rest)) as Hleft.
    { unfold left. case_if; lia. }
    rewrite rd_range_in by lia. run. unfold slice. rewrite drop_0.
    assert (zlen (take (Z.to_nat left) data) = left) as Htk by (unfold zlen in *; rewrite length_take; lia).
    destruct (filled_wr_range _ _ _ (take (Z.to_nat left) data) Hf) as (buf & -> & Hbuf & Hfb); [lia|]. run.
    rewrite Htk in Hfb. rewrite land_63.
    destruct (decide (zlen rest + left = 64)) as [H64|Hlt].
    + rewrite H64. change (tru (64 mod 64)) with false. cbv iota.
      assert (buf = rest ++ take (Z.to_nat left) data) as Hfull.
      { rewrite H64 in Hfb. rewrite <-(filled_take _ _ _ Hfb). rewrite take_ge; [done|]. unfold zlen in *. lia. }
      assert (is_bytes buf) as Hbb.
      { rewrite Hfull. apply Forall_app. split; [|by apply Forall_take].
        rewrite Hm in Hmb. by apply Forall_app in Hmb as [_ ?]. }
      destruct (Hblock (ctx_state ctx) buf Hg Hbb) as [-> Hg']; [lia|]. run.
      destruct (update_blocks_absorbed m data (blocks ++ [buf]) left buf Hmd Hsum) as (ctx' & Hu & Ha); [lia|lia| | | |].
      * rewrite foldl_app. cbn [foldl]. by rewrite <-Hst.
      * apply Forall_app. split; [done|]. constructor; [|done]. unfold zlen in *. lia.
      * rewrite concat_app, Hm, <-(assoc app), Hfull. cbn [concat]. by rewrite app_nil_r.
      * rewrite foldl_app in Hu. cbn [foldl] in Hu. rewrite <-Hst in Hu. eauto.
    + rewrite Z.mod_small by lia. rewrite (proj2 (tru_true _)) by lia.
      assert (left = zlen data) as Hall by lia. rewrite Hall in Hfb.
      assert (take (Z.to_nat (zlen data)) data = data) as Htd by (apply take_ge; unfold zlen; lia). rewrite Htd in Hfb.
      eexists. split; [done|]. exists blocks, (rest ++ data). cbn [ctx_size ctx_state ctx_buf].
      rewrite (assoc app), <-Hm, zlen_app.
      split; [done|]. split; [done|]. split; [rewrite length_app; unfold zlen in *; lia|]. split; [done|].
      split; [done|]. split; [done|]. split; [done|]. split; [done|]. split; [lia|]. rewrite zlen_app. exact Hfb.
  - destruct (update_blocks_absorbed m data blocks 0 (ctx_buf ctx) Hmd Hsum) as (ctx' & Hu & Ha); [lia|done|by rewrite <-Hst|done| |].
    + assert (rest = []) as Hnil by (apply length_zero_iff_nil; unfold zlen in Ht; lia).
      by rewrite app_nil_r, Hm, Hnil, app_nil_r.
    + rewrite Z.sub_0_r, <-Hst in Hu. eauto.
Qed.

(** Bytes after the ones to read do not matter. *)
Lemma update_blocks_extend size s buf data extra off len ctx' :
  update_blocks block size s buf data off len = Ret ctx' ->
  update_blocks block size s buf (data ++ extra) off len = Ret ctx'.
Proof.
  unfold update_blocks. intros Hu. apply bind_Ret_inv in Hu as ([[s1 off1] len1] & Hl & Hu).
  assert (forall st r, blocks_step block data st = Ret r -> blocks_step block (data ++ extra) st = Ret r) as Hmono.
  { intros [[s2 off2] len2] r. unfold blocks_step. case_if; [|done]. intros Hb.
    apply bind_Ret_inv in Hb as (b & Hr & Hb). by rewrite (rd_range_extend _ _ _ _ _ Hr). }
  rewrite (loop_mono _ _ _ _ _ Hmono Hl). run. case_if; [|done].
  run_in Hu. apply bind_Ret_inv in Hu as (buf' & Hb & Hu). apply bind_Ret_inv in Hb as (xs & Hr & Hb).
  rewrite (rd_range_extend _ _ _ _ _ Hr). run. by rewrite Hb.
Qed.

Lemma hash_update_extend ctx data extra len ctx' :
  hash_update block ctx data len = Ret ctx' -> hash_update block ctx (data ++ extra) len = Ret ctx'.
Proof.
  unfold hash_update. destruct (tru (Z.land (ctx_size ctx) 63)); [|apply update_blocks_extend]. intros Hu.
  apply bind_Ret_inv in Hu as (xs & Hr & Hu). rewrite (rd_range_extend _ _ _ _ _ Hr). run.
  apply bind_Ret_inv in Hu as (buf & -> & Hu). run.
  match goal with |- context [if ?b then Ret _ else _] => destruct b; [done|] end.
  apply bind_Ret_inv in Hu as (s & -> & Hu). run. by apply update_blocks_extend.
Qed.

(** ** Padding *)

Lemma be32_byte x : is_bytes (be32 x).
Proof. unfold be32. repeat constructor; apply Z.mod_pos_bound; lia. Qed.

Lemma length_padded m : zlen m < 2 ^ 61 -> (64 * (length (padded m) / 64))%nat = length (padded m).
Proof.
  intros Hm. pose proof (zlen_nonneg m). unfold padded.
  assert (0 <= 8 * zlen m / 2 ^ 32 < 2 ^ 32) by (Z.to_euclidean_division_equations; lia).
  rewrite !be32_bytes_spec by (done || apply Z.mod_pos_bound; lia). rewrite !length_app, length_replicate. cbn [length be32].
  unfold zlen in *. set (k := (length m + (1 + (Z.to_nat ((55 - Z.of_nat (length m)) mod 64) + (4 + 4))))%nat).
  assert (Z.of_nat k mod 64 = 0) as Hk by (unfold k; Z.to_euclidean_division_equations; lia).
  apply Nat2Z.inj. rewrite Nat2Z.inj_mul, Nat2Z.inj_div. Z.to_euclidean_division_equations. lia.
Qed.

Lemma hash_finish_spec ctx m :
  absorbed ctx m -> zlen m < 2 ^ 61 ->
  exists ctx', hash_finish block ctx = Ret ctx' /\ ctx_state ctx' = hash_blocks compress init m /\ good (ctx_state ctx').
Proof.
  intros Ha Hm. pose proof Ha as (? & ? & _ & _ & _ & Hmb & _ & Hsize & _). unfold hash_finish.
  rewrite Hsize. pose proof (zlen_nonneg m).
  rewrite (land_63 (zlen m)). rewrite Z.land_comm, land_63.
  assert ((55 - zlen m mod 64) mod 64 = (55 - zlen m) mod 64) as -> by (Z.to_euclidean_division_equations; lia).
  set (z := (55 - zlen m) mod 64). assert (0 <= z < 64) as Hz by (apply Z.mod_pos_bound; lia).
  set (pad1 := 0x80 :: replicate (Z.to_nat z) 0).
  assert (hash_pad = pad1 ++ replicate (63 - Z.to_nat z) 0) as ->.
  { unfold hash_pad, pad1. cbn [app]. rewrite <-replicate_add. do 2 f_equal. lia. }
  assert (zlen pad1 = 1 + z) as Hlp by (unfold pad1; rewrite zlen_cons, zlen_replicate; lia).
  assert (is_bytes pad1) as Hbp by (constructor; [unfold is_byte; lia|apply Forall_replicate; unfold is_byte; lia]).
  destruct (hash_update_spec ctx m pad1 Ha Hbp) as (ctx1 & Hu1 & Ha1); [lia|].
  rewrite <-Hlp, (hash_update_extend _ _ _ _ _ Hu1). run.
  assert (u32 (Z.shiftr (zlen m) 29) = 8 * zlen m / 2 ^ 32) as ->.
  { rewrite Z.shiftr_div_pow2 by lia. change (2 ^ 32) with (2 ^ 29 * 8). rewrite (Z.mul_comm 8), Z.div_mul_cancel_r by lia.
    apply u32_small. Z.to_euclidean_division_equations. lia. }
  assert (u32 (Z.shiftl (zlen m) 3) = 8 * zlen m mod 2 ^ 32) as ->.
  { unfold u32. by rewrite Z.shiftl_mul_pow2, Z.mul_comm by lia. }
  set (bits := be32_bytes _ ++ be32_bytes _).
  assert (is_bytes bits /\ zlen bits = 8) as [Hbb Hlb].
  { assert (0 <= 8 * zlen m / 2 ^ 32 < 2 ^ 32) by (Z.to_euclidean_division_equations; lia).
    unfold bits. rewrite !be32_bytes_spec by (done || apply Z.mod_pos_bound; lia).
    split; [apply Forall_app; split; apply be32_byte|done]. }
  destruct (hash_update_spec ctx1 (m ++ pad1) bits Ha1 Hbb) as (ctx2 & Hu2 & Ha2); [rewrite zlen_app; lia|].
  rewrite Hlb in Hu2. exists ctx2. split; [done|].
  assert ((m ++ pad1) ++ bits = padded m) as Hpadded.
  { unfold padded, pad1, bits. rewrite <-(assoc app). done. }
  rewrite Hpadded in Ha2. destruct Ha2 as (blocks & rest & Hcat & Hbs & Hr & _ & _ & _ & Hst & Hg & _).
  split; [|done]. rewrite Hst. unfold hash_blocks.
  pose proof (length_padded m Hm) as Hlen.
  assert (rest = []) as ->.
  { apply length_zero_iff_nil. rewrite Hcat, length_app, length_concat_64 in Hlen by done. lia. }
  rewrite app_nil_r in Hcat. rewrite Hcat, length_concat_64 by done.
  rewrite Nat.mul_comm, Nat.div_mul by lia. by rewrite chunks_concat.
Qed.

(** Any sequence of updates. *)
Lemma updates_spec ctx m datas :
  absorbed ctx m -> Forall is_bytes datas -> zlen m + zlen (concat datas) < 2 ^ 64 ->
  exists ctx', foldl (fun c data => ctx ← c; hash_update block ctx data (zlen data)) (Ret ctx) datas = Ret ctx' /\
    absorbed ctx' (m ++ concat datas).
Proof.
  revert ctx m. induction datas as [|data datas IH]; intros ctx m Ha Hd Hlen; cbn [foldl concat].
  { rewrite app_nil_r. by exists ctx. }
  apply Forall_cons_iff in Hd as [Hd Hds]. cbn [concat] in Hlen. rewrite zlen_app in Hlen.
  pose proof (zlen_nonneg (concat datas)).
  destruct (hash_update_spec ctx m data Ha Hd) as (ctx1 & Hu & Ha1); [lia|]. run. rewrite Hu.
  assert (m ++ data ++ concat datas = (m ++ data) ++ concat datas) as -> by (by rewrite <-(assoc app)). apply IH; [done..|]. rewrite zlen_app. lia.
Qed.

Lemma absorbed_init buf : zlen buf = 64 -> absorbed (HashCtx 0 init buf) [].
Proof.
  intros Hbuf. exists [], []. do 5 (split; [by (done || simpl; lia)|]). do 3 (split; [done|]). split; [done|].
  split; [done|]. apply filled_nil.
Qed.
End stream.

(** * Words of 32 bits *)

Definition is_u32 (x : Z) : Prop := 0 <= x < 2 ^ 32.

#[export] Instance is_u32_dec x : Decision (is_u32 x).
Proof. unfold is_u32. apply _. Defined.

(** Rotation right by [n]. *)
Definition rotr (n x : Z) : Z := x mod 2 ^ n * 2 ^ (32 - n) + x / 2 ^ n.

Lemma rotate_or x n :
  is_u32 x -> 0 < n < 32 -> Z.lor (u32 (Z.shiftl x (32 - n))) (Z.shiftr x n) = rotr n x.
Proof.
  intros Hx Hn. unfold is_u32, rotr in *.
  assert (2 ^ 32 = 2 ^ n * 2 ^ (32 - n)) as Hpow by (rewrite <-Z.pow_add_r by lia; f_equal; lia).
  assert (0 < 2 ^ n /\ 0 < 2 ^ (32 - n)) as [? ?] by (split; apply Z.pow_pos_nonneg; lia).
  assert (u32 (Z.shiftl x (32 - n)) = Z.shiftl (x mod 2 ^ n) (32 - n)) as ->.
  { unfold u32. rewrite !Z.shiftl_mul_pow2, Hpow by lia. by rewrite Z.mul_mod_distr_r by lia. }
  rewrite Z.shiftr_div_pow2 by lia. apply lor_shiftl_add; [lia|].
  split; [apply Z.div_pos; lia|]. apply Z.div_lt_upper_bound; lia.
Qed.

Lemma rotr_u32 x n : is_u32 x -> 0 < n < 32 -> is_u32 (rotr n x).
Proof.
  intros Hx Hn. rewrite <-rotate_or by done. apply lor_lt; [lia|apply u32_range|]. unfold is_u32 in Hx.
  rewrite Z.shiftr_div_pow2 by lia. assert (0 < 2 ^ n) by (apply Z.pow_pos_nonneg; lia).
  split; [apply Z.div_pos; lia|]. apply Z.div_lt_upper_bound; nia.
Qed.

(** Rotating a list by a number of places known up to its length. *)
Lemma rotate_mod {T} (n q r : nat) (l : list T) :
  length l = n -> (r < n)%nat ->
  rotate (n * q + r) l = drop r l ++ take r l /\
  rotate (S (n * q + r)) l = drop (S r mod n) l ++ take (S r mod n) l.
Proof.
  intros Hl Hr. unfold rotate. rewrite Hl. split.
  - by rewrite Nat.mul_comm, Nat.add_comm, Nat.Div0.mod_add, Nat.mod_small by lia.
  - replace (S (n * q + r)) with (S r + q * n)%nat by lia. by rewrite Nat.Div0.mod_add.
Qed.

Lemma rotate_multiple {T} (n : nat) (l : list T) : (n mod length l = 0)%nat -> rotate n l = l.
Proof. intros Hn. unfold rotate. by rewrite Hn, drop_0, take_0, app_nil_r. Qed.

Definition good_state (n : nat) (s : list Z) : Prop := length s = n /\ Forall is_u32 s.

Lemma good_state_add n s t :
  good_state n s -> good_state n t -> good_state n (zip_with (fun x y => u32 (x + y)) s t).
Proof.
  intros [Hs _] [Ht _]. split; [rewrite length_zip_with; lia|].
  apply (Forall_zip_with_fst _ (fun _ => True)); [by apply Forall_true|]. apply Forall_true. intros. apply u32_range.
Qed.

(** The word at a multiple of 4 in a block, and the sixteen words. *)
Definition be_word (bs : list Z) : Z := foldl (fun v b => v * 256 + b) 0 bs.
Definition block_words (b : list Z) : list Z := (fun i => be_word (slice b (4 * Z.of_nat i) 4)) <$> seq 0 16.

Lemma get_be32_word `{ByteOrderOk} b i :
  is_bytes b -> zlen b = 64 -> 0 <= i < 16 ->
  exists bs, rd_range b (4 * i) 4 = Ret bs /\ get_be32 bs = be_word (slice b (4 * i) 4) /\ is_u32 (get_be32 bs).
Proof.
  intros Hb Hlen Hi. exists (slice b (4 * i) 4). split; [apply rd_range_in; lia|].
  assert (zlen (slice b (4 * i) 4) = 4) as Hl by (apply zlen_slice; lia).
  pose proof (is_bytes_slice b (4 * i) 4 Hb) as Hs. revert Hl Hs. generalize (slice b (4 * i) 4). intros bs Hl Hs.
  destruct bs as [|x0 [|x1 [|x2 [|x3 [|? ?]]]]]; rewrite ?zlen_cons, ?zlen_nil in Hl; try lia;
    [|match goal with Hl : context [zlen ?l] |- _ => pose proof (zlen_nonneg l); lia end].
  rewrite !Forall_cons_iff in Hs. destruct Hs as (H0' & H1 & H2 & H3 & _). rewrite get_be32_spec by done.
  unfold be_word, is_u32, is_byte in *. cbn [foldl].
  change (2 ^ 24) with 16777216. change (2 ^ 16) with 65536. change (2 ^ 8) with 256.
  change (2 ^ 32) with 4294967296. lia.
Qed.

(** ** Constants from roots *)

(** The largest [r] below [acc + 2 ^ bits] with [r ^ k <= n]. *)
Fixpoint root_bits (bits : nat) (k n acc : Z) : Z :=
  match bits with
  | O => acc
  | S bits =>
      let r := acc + 2 ^ Z.of_nat bits in
      root_bits bits k n (if r ^ k <=? n then r else acc)
  end.

(** The first 32 bits of the fractional part of the [k]th root of [p]. *)
Definition root_fraction (k p : Z) : Z := root_bits 40 k (p * 2 ^ (32 * k)) 0 mod 2 ^ 32.

(** The primes below [n]. *)
Definition primes (n : Z) : list Z := filter (fun p => Forall (fun d => p mod d <> 0) (seqZ 2 (p - 2))) (seqZ 2 (n - 2)).

(** ** Output *)

(** The digest loop of the [Final] functions writes the words of the state. *)
Lemma put_words `{ByteOrderOk} (digest ws : list Z) :
  Forall is_u32 ws -> 4 * zlen ws <= zlen digest ->
  exists d, for_n (length ws) 0 (fun i digest => x ← rd ws i; wr_range digest (4 * i) (be32_bytes x)) digest = Ret d /\
    filled d (4 * zlen ws) (concat (be32 <$> ws)).
Proof.
  intros Hws Hlen.
  destruct (for_n_ret (fun i d => zlen d = zlen digest /\ filled d (4 * i) (concat (be32 <$> take (Z.to_nat i) ws))) (length ws) 0
    (fun i digest => x ← rd ws i; wr_range digest (4 * i) (be32_bytes x)) digest) as (d & -> & Hd & Hf).
  - intros i d Hi (Hd & Hf). destruct (rd_in ws i) as [x Hx]; [unfold zlen; lia|]. rewrite Hx. run.
    apply rd_Ret in Hx as [_ Hx]. rewrite be32_bytes_spec by (by apply (Forall_lookup_1 _ _ _ _ Hws Hx)).
    destruct (filled_wr_range _ _ _ (be32 x) Hf) as (d' & -> & Hd' & Hf'); [unfold zlen in *; simpl; lia|].
    exists d'. split; [done|]. split; [lia|]. change (zlen (be32 x)) with 4 in Hf'.
    replace (4 * (i + 1)) with (4 * i + 4) by lia. replace (Z.to_nat (i + 1)) with (S (Z.to_nat i)) by lia.
    rewrite (take_S_r _ _ _ Hx), fmap_app, concat_app. cbn [fmap list_fmap concat]. by rewrite app_nil_r.
  - split; [done|]. split; [done|by exists digest].
  - exists d. split; [done|]. rewrite Z.add_0_l, Nat2Z.id, take_ge in Hf by lia. exact Hf.
Qed.
