(* ===== verification/Sha1.v ===== *)
(** block-sha1_sha1.c: SHA-1, against the definition of FIPS 180-4. *)
From S2P Require Import Prelude Headers BlockHash.

(** * Model *)

Definition SHA_ROT (X l r : Z) : Z := Z.lor (u32 (Z.shiftl X l)) (Z.shiftr X r).
Definition SHA_ROL (X n : Z) : Z := SHA_ROT X n (32 - n).
Definition SHA_ROR (X n : Z) : Z := SHA_ROT X (32 - n) n.

(** The round macros, named after the rounds that use them. *)
Inductive sha_round := T_0_15 | T_16_19 | T_20_39 | T_40_59 | T_60_79.

(** The variables of the block function, as positions. *)
Notation A := 0 (only parsing).
Notation B := 1 (only parsing).
Notation C := 2 (only parsing).
Notation D := 3 (only parsing).
Notation E := 4 (only parsing).

(** [fn] and [constant] of a macro. *)
Definition round_fn (T : sha_round) (b c d : Z) : Z :=
  match T with
  | T_0_15 | T_16_19 => Z.lxor (Z.land (Z.lxor c d) b) d
  | T_20_39 | T_60_79 => Z.lxor (Z.lxor b c) d
  | T_40_59 => u32 (Z.land b c + Z.land d (Z.lxor b c))
  end.

Definition round_constant (T : sha_round) : Z :=
  match T with
  | T_0_15 | T_16_19 => 0x5a827999
  | T_20_39 => 0x6ed9eba1
  | T_40_59 => 0x8f1bbcdc
  | T_60_79 => 0xca62c1d6
  end.

Definition sha1_table : list (sha_round * Z * Z * Z * Z * Z * Z) :=
  [
   (T_0_15, 0, A, B, C, D, E);
   (T_0_15, 1, E, A, B, C, D);
   (T_0_15, 2, D, E, A, B, C);
   (T_0_15, 3, C, D, E, A, B);
   (T_0_15, 4, B, C, D, E, A);
   (T_0_15, 5, A, B, C, D, E);
   (T_0_15, 6, E, A, B, C, D);
   (T_0_15, 7, D, E, A, B, C);
   (T_0_15, 8, C, D, E, A, B);
   (T_0_15, 9, B, C, D, E, A);
   (T_0_15, 10, A, B, C, D, E);
   (T_0_15, 11, E, A, B, C, D);
   (T_0_15, 12, D, E, A, B, C);
   (T_0_15, 13, C, D, E, A, B);
   (T_0_15, 14, B, C, D, E, A);
   (T_0_15, 15, A, B, C, D, E);
   (T_16_19, 16, E, A, B, C, D);
   (T_16_19, 17, D, E, A, B, C);
   (T_16_19, 18, C, D, E, A, B);
   (T_16_19, 19, B, C, D, E, A);
   (T_20_39, 20, A, B, C, D, E);
   (T_20_39, 21, E, A, B, C, D);
   (T_20_39, 22, D, E, A, B, C);
   (T_20_39, 23, C, D, E, A, B);
   (T_20_39, 24, B, C, D, E, A);
   (T_20_39, 25, A, B, C, D, E);
   (T_20_39, 26, E, A, B, C, D);
   (T_20_39, 27, D, E, A, B, C);
   (T_20_39, 28, C, D, E, A, B);
   (T_20_39, 29, B, C, D, E, A);
   (T_20_39, 30, A, B, C, D, E);
   (T_20_39, 31, E, A, B, C, D);
   (T_20_39, 32, D, E, A, B, C);
   (T_20_39, 33, C, D, E, A, B);
   (T_20_39, 34, B, C, D, E, A);
   (T_20_39, 35, A, B, C, D, E);
   (T_20_39, 36, E, A, B, C, D);
   (T_20_39, 37, D, E, A, B, C);
   (T_20_39, 38, C, D, E, A, B);
   (T_20_39, 39, B, C, D, E, A);
   (T_40_59, 40, A, B, C, D, E);
   (T_40_59, 41, E, A, B, C, D);
   (T_40_59, 42, D, E, A, B, C);
   (T_40_59, 43, C, D, E, A, B);
   (T_40_59, 44, B, C, D, E, A);
   (T_40_59, 45, A, B, C, D, E);
   (T_40_59, 46, E, A, B, C, D);
   (T_40_59, 47, D, E, A, B, C);
   (T_40_59, 48, C, D, E, A, B);
   (T_40_59, 49, B, C, D, E, A);
   (T_40_59, 50, A, B, C, D, E);
   (T_40_59, 51, E, A, B, C, D);
   (T_40_59, 52, D, E, A, B, C);
   (T_40_59, 53, C, D, E, A, B);
   (T_40_59, 54, B, C, D, E, A);
   (T_40_59, 55, A, B, C, D, E);
   (T_40_59, 56, E, A, B, C, D);
   (T_40_59, 57, D, E, A, B, C);
   (T_40_59, 58, C, D, E, A, B);
   (T_40_59, 59, B, C, D, E, A);
   (T_60_79, 60, A, B, C, D, E);
   (T_60_79, 61, E, A, B, C, D);
   (T_60_79, 62, D, E, A, B, C);
   (T_60_79, 63, C, D, E, A, B);
   (T_60_79, 64, B, C, D, E, A);
   (T_60_79, 65, A, B, C, D, E);
   (T_60_79, 66, E, A, B, C, D);
   (T_60_79, 67, D, E, A, B, C);
   (T_60_79, 68, C, D, E, A, B);
   (T_60_79, 69, B, C, D, E, A);
   (T_60_79, 70, A, B, C, D, E);
   (T_60_79, 71, E, A, B, C, D);
   (T_60_79, 72, D, E, A, B, C);
   (T_60_79, 73, C, D, E, A, B);
   (T_60_79, 74, B, C, D, E, A);
   (T_60_79, 75, A, B, C, D, E);
   (T_60_79, 76, E, A, B, C, D);
   (T_60_79, 77, D, E, A, B, C);
   (T_60_79, 78, C, D, E, A, B);
   (T_60_79, 79, B, C, D, E, A)].

Section model.
Context `{ByteOrder}.

(** [SHA_SRC] and [SHA_MIX] *)
Definition round_input (T : sha_round) (block array : list Z) (t : Z) : outcome Z :=
  match T with
  | T_0_15 => bs ← rd_range block (t * 4) 4; Ret (get_be32 bs)
  | _ =>
      w13 ← rd array (Z.land (t + 13) 15);
      w8 ← rd array (Z.land (t + 8) 15);
      w2 ← rd array (Z.land (t + 2) 15);
      w0 ← rd array (Z.land t 15);
      Ret (SHA_ROL (Z.lxor (Z.lxor (Z.lxor w13 w8) w2) w0) 1)
  end.

(** [SHA_ROUND] on the variables and the array. *)
Definition SHA_ROUND (block : list Z) (st : list Z * list Z) (round : sha_round * Z * Z * Z * Z * Z * Z)
    : outcome (list Z * list Z) :=
  let '(vars, array) := st in
  let '(T, t, a, b, c, d, e) := round in
  TEMP ← round_input T block array t;
  array ← wr array (Z.land t 15) TEMP;
  va ← rd vars a; vb ← rd vars b; vc ← rd vars c; vd ← rd vars d; ve ← rd vars e;
  vars ← wr vars e (u32 (ve + (TEMP + SHA_ROL va 5 + round_fn T vb vc vd + round_constant T)));
  vars ← wr vars b (SHA_ROR vb 2);
  Ret (vars, array).

Fixpoint sha1_run (block : list Z) (rounds : list (sha_round * Z * Z * Z * Z * Z * Z)) (st : list Z * list Z)
    : outcome (list Z * list Z) :=
  match rounds with
  | [] => Ret st
  | round :: rounds => st ← SHA_ROUND block st round; sha1_run block rounds st
  end.

(** The new [H]; every word of [array] is written before it is read. *)
Definition blk_SHA1_Block (H : list Z) (block : list Z) : outcome (list Z) :=
  '(vars, _) ← sha1_run block sha1_table (H, replicate 16 0);
  Ret (zip_with (fun x y => u32 (x + y)) H vars).

Definition blk_SHA1_Init (junk : list Z) : hash_ctx (list Z) :=
  HashCtx 0 [0x67452301; 0xefcdab89; 0x98badcfe; 0x10325476; 0xc3d2e1f0] junk.

Definition blk_SHA1_Update (ctx : hash_ctx (list Z)) (data : list Z) (len : Z) : outcome (hash_ctx (list Z)) :=
  hash_update blk_SHA1_Block ctx data len.

(** The bytes of [hashout]. *)
Definition blk_SHA1_Final (hashout : list Z) (ctx : hash_ctx (list Z)) : outcome (list Z) :=
  ctx ← hash_finish blk_SHA1_Block ctx;
  for_n 5 0 (fun i hashout => x ← rd (ctx_state ctx) i; wr_range hashout (4 * i) (be32_bytes x)) hashout.
End model.

(** * FIPS 180-4 *)

Definition rotl (n x : Z) : Z := rotr (32 - n) x.

(** The function and the constant of step [t]; the constants are the square
    roots of 2, 3, 5 and 10 times 2^30. *)
Definition fips_f (t : nat) (x y z : Z) : Z :=
  if (t <? 20)%nat then Z.lxor (Z.land x y) (Z.land (Z.lnot x) z)
  else if (t <? 40)%nat then Z.lxor (Z.lxor x y) z
  else if (t <? 60)%nat then Z.lxor (Z.lxor (Z.land x y) (Z.land x z)) (Z.land y z)
  else Z.lxor (Z.lxor x y) z.

Definition fips_k (t : nat) : Z :=
  Z.sqrt ((if (t <? 20)%nat then 2 else if (t <? 40)%nat then 3 else if (t <? 60)%nat then 5 else 10) * 2 ^ 60).

Definition sha1_next (W : list Z) : list Z :=
  let t := length W in
  W ++ [rotl 1 (Z.lxor (Z.lxor (Z.lxor (W !!! (t - 3)%nat) (W !!! (t - 8)%nat)) (W !!! (t - 14)%nat)) (W !!! (t - 16)%nat))].

Definition sha1_schedule (b : list Z) : list Z := Nat.iter 64 sha1_next (block_words b).

Definition fips_step (s : list Z) (tw : nat * Z) : list Z :=
  match s with
  | [a; b; c; d; e] =>
      [u32 (rotl 5 a + fips_f (fst tw) b c d + e + fips_k (fst tw) + snd tw); a; rotl 30 b; c; d]
  | _ => s
  end.

Definition sha1_compress (s b : list Z) : list Z :=
  zip_with (fun x y => u32 (x + y)) s (foldl fips_step s (zip (seq 0 80) (sha1_schedule b))).

Definition sha1_H0 : list Z := [0x67452301; 0xefcdab89; 0x98badcfe; 0x10325476; 0xc3d2e1f0].

Definition fips_sha1 `{ByteOrder} (m : list Z) : list Z :=
  concat (be32 <$> hash_blocks sha1_compress sha1_H0 m).

(** * The block function *)

(** The macro of step [t], and the row of the table: the variables move by one
    place each step. *)
Definition step_macro (t : nat) : sha_round :=
  if (t <? 16)%nat then T_0_15 else if (t <? 20)%nat then T_16_19
  else if (t <? 40)%nat then T_20_39 else if (t <? 60)%nat then T_40_59 else T_60_79.

Definition step_row (t : nat) : sha_round * Z * Z * Z * Z * Z * Z :=
  let p j := (j - Z.of_nat t) mod 5 in (step_macro t, Z.of_nat t, p 0, p 1, p 2, p 3, p 4).

Lemma sha1_table_rows : sha1_table = step_row <$> seq 0 80.
Proof. vm_compute. reflexivity. Qed.

Lemma step_constant t : (t < 80)%nat -> round_constant (step_macro t) = fips_k t.
Proof.
  intros Ht. assert (Forall (fun t => round_constant (step_macro t) = fips_k t) (seq 0 80)) as Hall by evaluate.
  eapply Forall_forall in Hall; [exact Hall|]. apply elem_of_seq. lia.
Qed.

Lemma sum_maj b c d : is_u32 b -> is_u32 c -> is_u32 d ->
  u32 (Z.land b c + Z.land d (Z.lxor b c)) = Z.lxor (Z.lxor (Z.land b c) (Z.land b d)) (Z.land c d).
Proof.
  intros Hb Hc Hd. rewrite Z.add_nocarry_lxor by (bits; btauto).
  rewrite u32_small.
  - bits. btauto.
  - apply lxor_lt; [lia|by apply land_lt|by apply land_lt].
Qed.

Lemma step_fn t b c d :
  (t < 80)%nat -> is_u32 b -> is_u32 c -> is_u32 d -> round_fn (step_macro t) b c d = fips_f t b c d.
Proof.
  intros Ht Hb Hc Hd. unfold step_macro, fips_f.
  repeat match goal with |- context [(t <? ?n)%nat] => destruct (Nat.ltb_spec t n); try lia end; cbn [round_fn];
    try done; try (bits; btauto). by apply sum_maj.
Qed.

Lemma SHA_ROL_rotl x n : is_u32 x -> 0 < n < 32 -> SHA_ROL x n = rotl n x.
Proof.
  intros Hx Hn. unfold SHA_ROL, SHA_ROT, rotl. rewrite <-rotate_or by (done || lia).
  by replace (32 - (32 - n)) with n by lia.
Qed.

Lemma SHA_ROR_rotl x : is_u32 x -> SHA_ROR x 2 = rotl 30 x.
Proof. intros Hx. unfold SHA_ROR, SHA_ROT, rotl. by rewrite <-rotate_or. Qed.

Section proofs.
Context `{ByteOrderOk}.
Context (block : list Z) (Hblock : is_bytes block) (Hlen : zlen block = 64).
Notation ws := (sha1_schedule block).

(** ** The message schedule *)

Lemma sha1_next_iter n : exists tl, Nat.iter n sha1_next (block_words block) = block_words block ++ tl /\ length tl = n.
Proof.
  induction n as [|n (tl & IH & Hn)]; [exists []; by rewrite app_nil_r|].
  assert (Nat.iter (S n) sha1_next (block_words block) = sha1_next (Nat.iter n sha1_next (block_words block))) as -> by done.
  rewrite IH. unfold sha1_next. eexists. rewrite <-(assoc app). split; [done|]. rewrite length_app, Hn. simpl. lia.
Qed.

Lemma block_words_lookup t : (t < 16)%nat -> exists bs,
  rd_range block (Z.of_nat t * 4) 4 = Ret bs /\ block_words block !! t = Some (get_be32 bs) /\ is_u32 (get_be32 bs).
Proof.
  intros Ht. destruct (get_be32_word block (Z.of_nat t) Hblock Hlen) as (bs & Hr & Heq & Hu); [lia|].
  exists bs. rewrite Z.mul_comm. split; [done|]. split; [|done].
  unfold block_words. rewrite list_lookup_fmap, lookup_seq_lt by lia. simpl. by rewrite Heq.
Qed.

(** Word [t] of the schedule, from the block or from earlier words. *)
Lemma schedule_lookup n t :
  (t < 16 + n)%nat ->
  exists w, Nat.iter n sha1_next (block_words block) !! t = Some w /\ is_u32 w /\
    ((t < 16)%nat -> exists bs, rd_range block (Z.of_nat t * 4) 4 = Ret bs /\ get_be32 bs = w) /\
    ((16 <= t)%nat -> exists w3 w8 w14 w16,
      Nat.iter n sha1_next (block_words block) !! (t - 3)%nat = Some w3 /\
      Nat.iter n sha1_next (block_words block) !! (t - 8)%nat = Some w8 /\
      Nat.iter n sha1_next (block_words block) !! (t - 14)%nat = Some w14 /\
      Nat.iter n sha1_next (block_words block) !! (t - 16)%nat = Some w16 /\
      w = SHA_ROL (Z.lxor (Z.lxor (Z.lxor w3 w8) w14) w16) 1).
Proof.
  revert t. induction n as [|n IH]; intros t Ht.
  { destruct (block_words_lookup t) as (bs & Hr & Hw & Hu); [lia|]. exists (get_be32 bs).
    split; [done|]. split; [done|]. split; [by eauto|lia]. }
  assert (Nat.iter (S n) sha1_next (block_words block) = sha1_next (Nat.iter n sha1_next (block_words block))) as -> by done.
  assert (length (Nat.iter n sha1_next (block_words block)) = (16 + n)%nat) as Hl.
  { destruct (sha1_next_iter n) as (tl & -> & Htl). rewrite length_app, Htl. done. }
  set (us := Nat.iter n sha1_next (block_words block)) in *.
  assert (forall k x, us !! k = Some x -> sha1_next us !! k = Some x) as Hkeep.
  { intros k x Hk. unfold sha1_next. rewrite lookup_app_l; [done|]. by apply lookup_lt_Some in Hk. }
  destruct (decide (t < 16 + n)%nat) as [Hlt|Hge].
  - destruct (IH t Hlt) as (w & Hw & Hu & Hsrc & Hmix). exists w. split; [by apply Hkeep|]. split; [done|]. split; [done|].
    intros Ht16. destruct (Hmix Ht16) as (w3 & w8 & w14 & w16 & ? & ? & ? & ? & ?).
    exists w3, w8, w14, w16. repeat (split; [by apply Hkeep|]). done.
  - assert (t = 16 + n)%nat as -> by lia.
    destruct (IH (16 + n - 3)%nat) as (w3 & H3 & U3 & _); [lia|].
    destruct (IH (16 + n - 8)%nat) as (w8 & H8 & U8 & _); [lia|].
    destruct (IH (16 + n - 14)%nat) as (w14 & H14 & U14 & _); [lia|].
    destruct (IH (16 + n - 16)%nat) as (w16 & H16 & U16 & _); [lia|].
    assert (is_u32 (Z.lxor (Z.lxor (Z.lxor w3 w8) w14) w16)) as Hx by (repeat (apply lxor_lt; [lia| |done]); done).
    exists (rotl 1 (Z.lxor (Z.lxor (Z.lxor w3 w8) w14) w16)). split; [|split; [|split]].
    + unfold sha1_next. rewrite lookup_app_r, Hl, Nat.sub_diag by lia. simpl.
      by rewrite (list_lookup_total_correct _ _ _ H3), (list_lookup_total_correct _ _ _ H8),
        (list_lookup_total_correct _ _ _ H14), (list_lookup_total_correct _ _ _ H16).
    + apply rotr_u32; [done|lia].
    + lia.
    + intros _. exists w3, w8, w14, w16. do 4 (split; [by apply Hkeep|]). by rewrite SHA_ROL_rotl by (done || lia).
Qed.
Lemma word_lookup t :
  (t < 80)%nat ->
  exists w, ws !! t = Some w /\ is_u32 w /\
    ((t < 16)%nat -> exists bs, rd_range block (Z.of_nat t * 4) 4 = Ret bs /\ get_be32 bs = w) /\
    ((16 <= t)%nat -> exists w3 w8 w14 w16,
      ws !! (t - 3)%nat = Some w3 /\ ws !! (t - 8)%nat = Some w8 /\
      ws !! (t - 14)%nat = Some w14 /\ ws !! (t - 16)%nat = Some w16 /\
      w = SHA_ROL (Z.lxor (Z.lxor (Z.lxor w3 w8) w14) w16) 1).
Proof. exact (schedule_lookup 64 t). Qed.

#[local] Opaque sha1_schedule.

(** ** The rounds *)

(** The array holds the last sixteen words before [t]. *)
Definition rolling (array us : list Z) (t : nat) : Prop :=
  zlen array = 16 /\
  forall j w, (j < t)%nat -> (t <= j + 16)%nat -> us !! j = Some w -> array !! (j mod 16)%nat = Some w.

Lemma rolling_rd array us t k w :
  rolling array us t -> (0 < k <= 16)%nat -> (16 <= t)%nat -> us !! (t - k)%nat = Some w ->
  rd array (Z.land (Z.of_nat t + (16 - Z.of_nat k)) 15) = Ret w.
Proof.
  intros [Hl Ha] Hk Ht Hw. change 15 with (Z.ones 4). rewrite Z.land_ones by lia. change (2 ^ 4) with 16.
  apply rd_Ret. split; [apply Z.mod_pos_bound; lia|]. rewrite <-(Ha (t - k)%nat w) by (done || lia). f_equal.
  apply Nat2Z.inj. rewrite Z2Nat.id by (apply Z.mod_pos_bound; lia). rewrite Nat2Z.inj_mod.
  Z.to_euclidean_division_equations. lia.
Qed.

Lemma rolling_wr array us t w :
  rolling array us t -> us !! t = Some w ->
  exists array', wr array (Z.land (Z.of_nat t) 15) w = Ret array' /\ rolling array' us (S t).
Proof.
  intros [Hl Ha] Hw. change 15 with (Z.ones 4). rewrite Z.land_ones by lia. change (2 ^ 4) with 16.
  pose proof (Z.mod_pos_bound (Z.of_nat t) 16). rewrite wr_in by lia. eexists. split; [done|].
  assert (Z.to_nat (Z.of_nat t mod 16) = (t mod 16)%nat) as -> by (rewrite <-(Nat2Z.id (t mod 16)), Nat2Z.inj_mod; done).
  pose proof (Nat.mod_upper_bound t 16). split; [by rewrite zlen_insert|]. intros j x Hj Hjt Hx. unfold zlen in Hl.
  destruct (decide (j = t)) as [->|Hne].
  - rewrite list_lookup_insert_eq by lia. congruence.
  - rewrite list_lookup_insert_ne; [by apply Ha; [lia..|]|]. intros Heq. apply Hne.
    pose proof (Nat.div_mod_eq t 16). pose proof (Nat.div_mod_eq j 16). lia.
Qed.

Lemma round_input_word array t w :
  (t < 80)%nat -> ws !! t = Some w -> rolling array ws t ->
  round_input (step_macro t) block array (Z.of_nat t) = Ret w.
Proof.
  intros Ht Hw Hroll. destruct (word_lookup t Ht) as (w' & Hw' & _ & Hsrc & Hmix).
  assert (w' = w) as -> by congruence. clear Hw'. destruct (decide (t < 16)%nat) as [Hlt|Hge].
  - unfold step_macro. rewrite (proj2 (Nat.ltb_lt _ _) Hlt). cbn [round_input].
    destruct (Hsrc Hlt) as (bs & -> & <-). done.
  - destruct Hmix as (w3 & w8 & w14 & w16 & H3 & H8 & H14 & H16 & ->); [lia|].
    apply (rolling_rd _ _ _ _ _ Hroll) in H3, H8, H14, H16; [|lia..].
    replace (16 - Z.of_nat 3) with 13 in H3 by lia. replace (16 - Z.of_nat 8) with 8 in H8 by lia.
    replace (16 - Z.of_nat 14) with 2 in H14 by lia. replace (Z.of_nat t + (16 - Z.of_nat 16)) with (Z.of_nat t) in H16 by lia.
    unfold step_macro. rewrite (proj2 (Nat.ltb_ge _ _)) by lia.
    repeat match goal with |- context [(t <? ?n)%nat] => destruct (t <? n)%nat end; cbn [round_input];
      rewrite H3; run; rewrite H8; run; rewrite H14; run; by rewrite H16.
Qed.

(** The effect of a round on the variables, in every position. *)
Lemma round_vars t a b c d e w f k (T : Type) (array : T) :
  let p j := (j - Z.of_nat t) mod 5 in
  let vars := rotate t [a; b; c; d; e] in
  (va ← rd vars (p 0); vb ← rd vars (p 1); vc ← rd vars (p 2); vd ← rd vars (p 3); ve ← rd vars (p 4);
   vars ← wr vars (p 4) (u32 (ve + (w + SHA_ROL va 5 + f vb vc vd + k)));
   vars ← wr vars (p 1) (SHA_ROR vb 2);
   Ret (vars, array)) =
  Ret (rotate (S t) [u32 (e + (w + SHA_ROL a 5 + f b c d + k)); a; SHA_ROR b 2; c; d], array).
Proof.
  cbv beta zeta. pose proof (Nat.div_mod_eq t 5) as Hi. pose proof (Nat.mod_upper_bound t 5 ltac:(lia)) as Hr.
  set (q := (t / 5)%nat) in *. set (r := (t mod 5)%nat) in *. clearbody q r.
  assert (forall j, (j - Z.of_nat t) mod 5 = (j - Z.of_nat r) mod 5) as Hp.
  { intros j. rewrite Hi. Z.to_euclidean_division_equations. lia. }
  rewrite !Hp, Hi.
  destruct (rotate_mod 5 q r [a; b; c; d; e]) as [-> _]; [done..|].
  match goal with |- context [rotate (S (5 * q + r)) ?l] => destruct (rotate_mod 5 q r l) as [_ ->]; [done..|] end.
  clear -Hr. do 5 (destruct r as [|r]; [reflexivity|]). lia.
Qed.

Lemma fips_step_code t w a b c d e :
  (t < 80)%nat -> is_u32 a -> is_u32 b -> is_u32 c -> is_u32 d ->
  fips_step [a; b; c; d; e] (t, w) =
    [u32 (e + (w + SHA_ROL a 5 + round_fn (step_macro t) b c d + round_constant (step_macro t))); a; SHA_ROR b 2; c; d].
Proof.
  intros. cbn [fips_step fst snd]. rewrite step_fn, step_constant, SHA_ROL_rotl, SHA_ROR_rotl by (done || lia). do 2 f_equal. lia.
Qed.

Lemma SHA_ROUND_fips array t s w :
  (t < 80)%nat -> good_state 5 s -> ws !! t = Some w -> rolling array ws t ->
  exists array', SHA_ROUND block (rotate t s, array) (step_row t) = Ret (rotate (S t) (fips_step s (t, w)), array') /\
    rolling array' ws (S t) /\ good_state 5 (fips_step s (t, w)).
Proof.
  intros Ht [Hls Hs] Hw Hroll.
  destruct s as [|a [|b [|c [|d [|e [|? ?]]]]]]; try discriminate Hls. clear Hls.
  rewrite !Forall_cons_iff in Hs. destruct Hs as (Ha & Hb & Hc & Hd & He & _).
  destruct (rolling_wr array ws t w Hroll Hw) as (array' & Hwr & Hroll'). exists array'. split; [|split; [done|]].
  - unfold SHA_ROUND, step_row. rewrite (round_input_word _ _ _ Ht Hw Hroll). run. rewrite Hwr. run.
    rewrite (fips_step_code t w a b c d e Ht Ha Hb Hc Hd). apply round_vars.
  - split; [done|]. repeat (apply Forall_cons_2; [done || apply u32_range || by (apply rotr_u32; [|lia])|]). constructor.
Qed.

Lemma sha1_run_cons round rounds st :
  sha1_run block (round :: rounds) st = st ← SHA_ROUND block st round; sha1_run block rounds st.
Proof. done. Qed.

Lemma sha1_run_fips us : us = ws -> forall n t s array,
  (t + n = 80)%nat -> good_state 5 s -> rolling array us t ->
  exists array', sha1_run block (step_row <$> seq t n) (rotate t s, array) =
      Ret (rotate (t + n) (foldl fips_step s (zip (seq t n) (drop t us))), array') /\
    good_state 5 (foldl fips_step s (zip (seq t n) (drop t us))).
Proof.
  intros Hus n. induction n as [|n IH]; intros t s array Ht Hs Hroll.
  { exists array. by rewrite Nat.add_0_r. }
  assert (exists w array', us !! t = Some w /\
    SHA_ROUND block (rotate t s, array) (step_row t) = Ret (rotate (S t) (fips_step s (t, w)), array') /\
    rolling array' us (S t) /\ good_state 5 (fips_step s (t, w))) as (w & array' & Hw & Hround & Hroll' & Hs').
  { destruct (word_lookup t) as (w & Hw & _); [lia|]. rewrite Hus in *. exists w.
    destruct (SHA_ROUND_fips array t s w) as (array' & ?); [lia|done..|]. by exists array'. }
  clear Hus. destruct (IH (S t) (fips_step s (t, w)) array') as (array2 & IH1 & IH2); [lia|done..|].
  exists array2. rewrite (drop_S _ _ _ Hw). rewrite <-Nat.add_succ_comm.
  split; [|exact IH2]. change (step_row <$> seq t (S n)) with (step_row t :: (step_row <$> seq (S t) n)).
  rewrite sha1_run_cons, Hround. exact IH1.
Qed.

Lemma sha1_block_fips s :
  good_state 5 s -> blk_SHA1_Block s block = Ret (sha1_compress s block) /\ good_state 5 (sha1_compress s block).
Proof.
  intros Hs. unfold blk_SHA1_Block. rewrite sha1_table_rows.
  destruct (sha1_run_fips _ eq_refl 80 0 s (replicate 16 0)) as (array' & Hrun & Hg); [done|done|split; [done|intros; lia]|].
  rewrite (rotate_multiple 0) in Hrun by apply Nat.Div0.mod_0_l. rewrite Hrun. run. rewrite drop_0 in *.
  rewrite rotate_multiple by (by rewrite (proj1 Hg)). split; [done|]. by apply good_state_add.
Qed.
End proofs.

(** * Claims *)

(** [C14] SHA-1 of a message fed in pieces: after [blk_SHA1_Init] and any sequence
    of [blk_SHA1_Update] calls on byte buffers of together fewer than 2^61
    bytes, [blk_SHA1_Final] writes the FIPS 180-4 digest of their concatenation
    into the first 20 bytes, whatever the sizes of the pieces; the rolling
    16-word schedule and the rotating variables compute the textbook loop. *)
Theorem sha1_correct `{ByteOrderOk} (buf hashout : list Z) (datas : list (list Z)) :
  zlen buf = 64 -> 20 <= zlen hashout -> Forall is_bytes datas -> zlen (concat datas) < 2 ^ 61 ->
  exists ctx d,
    foldl (fun c data => ctx ← c; blk_SHA1_Update ctx data (zlen data)) (Ret (blk_SHA1_Init buf)) datas = Ret ctx /\
    blk_SHA1_Final hashout ctx = Ret d /\ filled d 20 (fips_sha1 (concat datas)).
Proof.
  intros Hbuf Hdig Hd Hlen.
  assert (good_state 5 sha1_H0) as Hinit by (split; evaluate).
  assert (forall s b, good_state 5 s -> is_bytes b -> zlen b = 64 ->
    blk_SHA1_Block s b = Ret (sha1_compress s b) /\ good_state 5 (sha1_compress s b)) as Hblock
    by (intros; by apply sha1_block_fips).
  pose proof (absorbed_init sha1_compress (good_state 5) sha1_H0 Hinit buf Hbuf) as Ha.
  destruct (updates_spec blk_SHA1_Block sha1_compress (good_state 5) Hblock sha1_H0 _ [] datas Ha Hd)
    as (ctx & Hu & Hctx); [rewrite zlen_nil; lia|].
  unfold blk_SHA1_Update. exists ctx. rewrite app_nil_l in Hctx. unfold blk_SHA1_Final.
  destruct (hash_finish_spec blk_SHA1_Block sha1_compress (good_state 5) Hblock sha1_H0 ctx _ Hctx Hlen)
    as (ctx' & -> & Hst & Hl & Hw). run.
  destruct (put_words hashout (ctx_state ctx') Hw) as (d & Hput & Hf); [unfold zlen in *; lia|].
  rewrite Hl in Hput. exists d. split; [exact Hu|]. split; [exact Hput|].
  unfold fips_sha1. rewrite <-Hst. unfold zlen in Hf. by rewrite Hl in Hf.
Qed.

Lemma sha1_correct_witness :
  @fips_sha1 order_ref [97; 98; 99] =
    [169; 153; 62; 54; 71; 6; 129; 106; 186; 62; 37; 113; 120; 80; 194; 108; 156; 208; 216; 157] /\
  exists ctx d,
    foldl (fun c data => ctx ← c; @blk_SHA1_Update order_ref ctx data (zlen data))
      (Ret (blk_SHA1_Init (replicate 64 9))) [[97]; replicate 70 98; []; [99]] = Ret ctx /\
    @blk_SHA1_Final order_ref (replicate 20 0) ctx = Ret d /\
    filled d 20 (@fips_sha1 order_ref (concat [[97]; replicate 70 98; []; [99]])).
Proof.
  split; [vm_compute; reflexivity|].
  apply (@sha1_correct order_ref order_ref_ok (replicate 64 9) (replicate 20 0) [[97]; replicate 70 98; []; [99]]); evaluate.
Defined.
