(* ===== verification/Sha256.v ===== *)
(** sha256_block_sha256.c: SHA-256, against the definition of FIPS 180-4 with
    its constants computed from the square and cube roots of primes. *)
From S2P Require Import Prelude Headers BlockHash.

(** * Model *)

Section model.
Context `{ByteOrder}.

Definition blk_SHA256_Init (junk : list Z) : hash_ctx (list Z) :=
  HashCtx 0
    [0x6a09e667; 0xbb67ae85; 0x3c6ef372; 0xa54ff53a; 0x510e527f; 0x9b05688c; 0x1f83d9ab; 0x5be0cd19] junk.

Definition ror (x n : Z) : Z := Z.lor (Z.shiftr x n) (u32 (Z.shiftl x (32 - n))).
Definition ch (x y z : Z) : Z := Z.lxor z (Z.land x (Z.lxor y z)).
Definition maj (x y z : Z) : Z := Z.lor (Z.land (Z.lor x y) z) (Z.land x y).
Definition sigma0 (x : Z) : Z := Z.lxor (Z.lxor (ror x 2) (ror x 13)) (ror x 22).
Definition sigma1 (x : Z) : Z := Z.lxor (Z.lxor (ror x 6) (ror x 11)) (ror x 25).
Definition gamma0 (x : Z) : Z := Z.lxor (Z.lxor (ror x 7) (ror x 18)) (Z.shiftr x 3).
Definition gamma1 (x : Z) : Z := Z.lxor (Z.lxor (ror x 17) (ror x 19)) (Z.shiftr x 10).

(** [W[0..15]], then [W[16..63]]. *)
Definition load_step (buf : list Z) (i : Z) (W : list Z) : outcome (list Z) :=
  bs ← rd_range buf (4 * i) 4;
  wr W i (get_be32 bs).

Definition extend_step (i : Z) (W : list Z) : outcome (list Z) :=
  w2 ← rd W (i - 2);
  w7 ← rd W (i - 7);
  w15 ← rd W (i - 15);
  w16 ← rd W (i - 16);
  wr W i (u32 (gamma1 w2 + w7 + gamma0 w15 + w16)).

(** The macro: positions in [S] of a to h, the round and its constant. *)
Definition RND (W S : list Z) (round : Z * Z * Z * Z * Z * Z * Z * Z * Z * Z) : outcome (list Z) :=
  let '(a, b, c, d, e, f, g, h, i, ki) := round in
  va ← rd S a; vb ← rd S b; vc ← rd S c; vd ← rd S d;
  ve ← rd S e; vf ← rd S f; vg ← rd S g; vh ← rd S h;
  w ← rd W i;
  let t0 := u32 (vh + sigma1 ve + ch ve vf vg + ki + w) in
  let t1 := u32 (sigma0 va + maj va vb vc) in
  S ← wr S d (u32 (vd + t0));
  wr S h (u32 (t0 + t1)).

Definition sha256_rounds : list (Z * Z * Z * Z * Z * Z * Z * Z * Z * Z) :=
  [
   (0, 1, 2, 3, 4, 5, 6, 7, 0, 0x428a2f98);
   (7, 0, 1, 2, 3, 4, 5, 6, 1, 0x71374491);
   (6, 7, 0, 1, 2, 3, 4, 5, 2, 0xb5c0fbcf);
   (5, 6, 7, 0, 1, 2, 3, 4, 3, 0xe9b5dba5);
   (4, 5, 6, 7, 0, 1, 2, 3, 4, 0x3956c25b);
   (3, 4, 5, 6, 7, 0, 1, 2, 5, 0x59f111f1);
   (2, 3, 4, 5, 6, 7, 0, 1, 6, 0x923f82a4);
   (1, 2, 3, 4, 5, 6, 7, 0, 7, 0xab1c5ed5);
   (0, 1, 2, 3, 4, 5, 6, 7, 8, 0xd807aa98);
   (7, 0, 1, 2, 3, 4, 5, 6, 9, 0x12835b01);
   (6, 7, 0, 1, 2, 3, 4, 5, 10, 0x243185be);
   (5, 6, 7, 0, 1, 2, 3, 4, 11, 0x550c7dc3);
   (4, 5, 6, 7, 0, 1, 2, 3, 12, 0x72be5d74);
   (3, 4, 5, 6, 7, 0, 1, 2, 13, 0x80deb1fe);
   (2, 3, 4, 5, 6, 7, 0, 1, 14, 0x9bdc06a7);
   (1, 2, 3, 4, 5, 6, 7, 0, 15, 0xc19bf174);
   (0, 1, 2, 3, 4, 5, 6, 7, 16, 0xe49b69c1);
   (7, 0, 1, 2, 3, 4, 5, 6, 17, 0xefbe4786);
   (6, 7, 0, 1, 2, 3, 4, 5, 18, 0x0fc19dc6);
   (5, 6, 7, 0, 1, 2, 3, 4, 19, 0x240ca1cc);
   (4, 5, 6, 7, 0, 1, 2, 3, 20, 0x2de92c6f);
   (3, 4, 5, 6, 7, 0, 1, 2, 21, 0x4a7484aa);
   (2, 3, 4, 5, 6, 7, 0, 1, 22, 0x5cb0a9dc);
   (1, 2, 3, 4, 5, 6, 7, 0, 23, 0x76f988da);
   (0, 1, 2, 3, 4, 5, 6, 7, 24, 0x983e5152);
   (7, 0, 1, 2, 3, 4, 5, 6, 25, 0xa831c66d);
   (6, 7, 0, 1, 2, 3, 4, 5, 26, 0xb00327c8);
   (5, 6, 7, 0, 1, 2, 3, 4, 27, 0xbf597fc7);
   (4, 5, 6, 7, 0, 1, 2, 3, 28, 0xc6e00bf3);
   (3, 4, 5, 6, 7, 0, 1, 2, 29, 0xd5a79147);
   (2, 3, 4, 5, 6, 7, 0, 1, 30, 0x06ca6351);
   (1, 2, 3, 4, 5, 6, 7, 0, 31, 0x14292967);
   (0, 1, 2, 3, 4, 5, 6, 7, 32, 0x27b70a85);
   (7, 0, 1, 2, 3, 4, 5, 6, 33, 0x2e1b2138);
   (6, 7, 0, 1, 2, 3, 4, 5, 34, 0x4d2c6dfc);
   (5, 6, 7, 0, 1, 2, 3, 4, 35, 0x53380d13);
   (4, 5, 6, 7, 0, 1, 2, 3, 36, 0x650a7354);
   (3, 4, 5, 6, 7, 0, 1, 2, 37, 0x766a0abb);
   (2, 3, 4, 5, 6, 7, 0, 1, 38, 0x81c2c92e);
   (1, 2, 3, 4, 5, 6, 7, 0, 39, 0x92722c85);
   (0, 1, 2, 3, 4, 5, 6, 7, 40, 0xa2bfe8a1);
   (7, 0, 1, 2, 3, 4, 5, 6, 41, 0xa81a664b);
   (6, 7, 0, 1, 2, 3, 4, 5, 42, 0xc24b8b70);
   (5, 6, 7, 0, 1, 2, 3, 4, 43, 0xc76c51a3);
   (4, 5, 6, 7, 0, 1, 2, 3, 44, 0xd192e819);
   (3, 4, 5, 6, 7, 0, 1, 2, 45, 0xd6990624);
   (2, 3, 4, 5, 6, 7, 0, 1, 46, 0xf40e3585);
   (1, 2, 3, 4, 5, 6, 7, 0, 47, 0x106aa070);
   (0, 1, 2, 3, 4, 5, 6, 7, 48, 0x19a4c116);
   (7, 0, 1, 2, 3, 4, 5, 6, 49, 0x1e376c08);
   (6, 7, 0, 1, 2, 3, 4, 5, 50, 0x2748774c);
   (5, 6, 7, 0, 1, 2, 3, 4, 51, 0x34b0bcb5);
   (4, 5, 6, 7, 0, 1, 2, 3, 52, 0x391c0cb3);
   (3, 4, 5, 6, 7, 0, 1, 2, 53, 0x4ed8aa4a);
   (2, 3, 4, 5, 6, 7, 0, 1, 54, 0x5b9cca4f);
   (1, 2, 3, 4, 5, 6, 7, 0, 55, 0x682e6ff3);
   (0, 1, 2, 3, 4, 5, 6, 7, 56, 0x748f82ee);
   (7, 0, 1, 2, 3, 4, 5, 6, 57, 0x78a5636f);
   (6, 7, 0, 1, 2, 3, 4, 5, 58, 0x84c87814);
   (5, 6, 7, 0, 1, 2, 3, 4, 59, 0x8cc70208);
   (4, 5, 6, 7, 0, 1, 2, 3, 60, 0x90befffa);
   (3, 4, 5, 6, 7, 0, 1, 2, 61, 0xa4506ceb);
   (2, 3, 4, 5, 6, 7, 0, 1, 62, 0xbef9a3f7);
   (1, 2, 3, 4, 5, 6, 7, 0, 63, 0xc67178f2)].

Fixpoint run_rounds {R} (round : list Z -> R -> outcome (list Z)) (rounds : list R) (S : list Z) : outcome (list Z) :=
  match rounds with
  | [] => Ret S
  | r :: rounds => S ← round S r; run_rounds round rounds S
  end.

(** The state and the block give the new state; [W] is written before it is read. *)
Definition blk_SHA256_Transform (state buf : list Z) : outcome (list Z) :=
  W ← for_n 16 0 (load_step buf) (replicate 64 0);
  W ← for_n 48 16 extend_step W;
  S ← run_rounds (RND W) sha256_rounds state;
  Ret (zip_with (fun x y => u32 (x + y)) state S).

Definition blk_SHA256_Update (ctx : hash_ctx (list Z)) (data : list Z) (len : Z) : outcome (hash_ctx (list Z)) :=
  hash_update blk_SHA256_Transform ctx data len.

(** The digest written and the final context. *)
Definition blk_SHA256_Final (digest : list Z) (ctx : hash_ctx (list Z)) : outcome (list Z) :=
  ctx ← hash_finish blk_SHA256_Transform ctx;
  for_n 8 0 (fun i digest => x ← rd (ctx_state ctx) i; wr_range digest (4 * i) (be32_bytes x)) digest.
End model.

(** * FIPS 180-4 *)

Definition fips_ch (x y z : Z) : Z := Z.lxor (Z.land x y) (Z.land (Z.lnot x) z).
Definition fips_maj (x y z : Z) : Z := Z.lxor (Z.lxor (Z.land x y) (Z.land x z)) (Z.land y z).
Definition fips_Sigma0 (x : Z) : Z := Z.lxor (Z.lxor (rotr 2 x) (rotr 13 x)) (rotr 22 x).
Definition fips_Sigma1 (x : Z) : Z := Z.lxor (Z.lxor (rotr 6 x) (rotr 11 x)) (rotr 25 x).
Definition fips_sigma0 (x : Z) : Z := Z.lxor (Z.lxor (rotr 7 x) (rotr 18 x)) (Z.shiftr x 3).
Definition fips_sigma1 (x : Z) : Z := Z.lxor (Z.lxor (rotr 17 x) (rotr 19 x)) (Z.shiftr x 10).

(** The constants: cube roots of the first 64 primes, square roots of the first
    eight. *)
Definition fips_K : list Z := root_fraction 3 <$> primes 312.
Definition fips_H0 : list Z := root_fraction 2 <$> primes 20.

(** The next word of the message schedule. *)
Definition fips_next (W : list Z) : list Z :=
  let t := length W in
  W ++ [u32 (fips_sigma1 (W !!! (t - 2)%nat) + W !!! (t - 7)%nat + fips_sigma0 (W !!! (t - 15)%nat) + W !!! (t - 16)%nat)].

Definition fips_schedule (b : list Z) : list Z := Nat.iter 48 fips_next (block_words b).

Definition fips_round (s : list Z) (kw : Z * Z) : list Z :=
  match s with
  | [a; b; c; d; e; f; g; h] =>
      let T1 := h + fips_Sigma1 e + fips_ch e f g + fst kw + snd kw in
      let T2 := fips_Sigma0 a + fips_maj a b c in
      [u32 (T1 + T2); a; b; c; u32 (d + T1); e; f; g]
  | _ => s
  end.

Definition fips_compress (s b : list Z) : list Z :=
  zip_with (fun x y => u32 (x + y)) s (foldl fips_round s (zip fips_K (fips_schedule b))).

Definition fips_sha256 `{ByteOrder} (m : list Z) : list Z :=
  concat (be32 <$> hash_blocks fips_compress fips_H0 m).

(** * The compression function *)

Lemma ch_fips x y z : ch x y z = fips_ch x y z.
Proof. unfold ch, fips_ch. bits. btauto. Qed.

Lemma maj_fips x y z : maj x y z = fips_maj x y z.
Proof. unfold maj, fips_maj. bits. btauto. Qed.

Lemma ror_fips x n : is_u32 x -> 0 < n < 32 -> ror x n = rotr n x.
Proof. intros. unfold ror. rewrite Z.lor_comm. by apply rotate_or. Qed.

Lemma sigma_fips x :
  is_u32 x -> sigma0 x = fips_Sigma0 x /\ sigma1 x = fips_Sigma1 x /\ gamma0 x = fips_sigma0 x /\ gamma1 x = fips_sigma1 x.
Proof.
  intros Hx. unfold sigma0, sigma1, gamma0, gamma1, fips_Sigma0, fips_Sigma1, fips_sigma0, fips_sigma1.
  by rewrite !ror_fips by (done || lia).
Qed.

Section proofs.
Context `{ByteOrderOk}.

(** ** The message schedule *)

Lemma load_words b W :
  is_bytes b -> zlen b = 64 -> zlen W = 64 ->
  exists W', for_n 16 0 (load_step b) W = Ret W' /\ zlen W' = 64 /\ filled W' 16 (block_words b) /\ Forall is_u32 (block_words b).
Proof.
  intros Hb Hlen HW.
  destruct (for_n_ret (fun i W => zlen W = 64 /\ filled W i (take (Z.to_nat i) (block_words b)) /\
      Forall is_u32 (take (Z.to_nat i) (block_words b))) 16 0 (load_step b) W) as (W' & -> & HW' & Hf & Hw).
  - intros i V Hi (HV & Hf & Hw). unfold load_step.
    destruct (get_be32_word b i Hb Hlen) as (bs & -> & Heq & Hu); [lia|]. run.
    destruct (filled_wr _ _ _ (get_be32 bs) Hf) as [-> Hf']; [lia|]. eexists. split; [done|].
    split; [by rewrite zlen_insert|]. replace (Z.to_nat (i + 1)) with (S (Z.to_nat i)) by lia.
    assert (block_words b !! Z.to_nat i = Some (get_be32 bs)) as Hi'.
    { unfold block_words. rewrite list_lookup_fmap, lookup_seq_lt by lia. simpl. rewrite Heq. do 3 f_equal. lia. }
    rewrite (take_S_r _ _ _ Hi'). split; [done|]. apply Forall_app. split; [done|]. by constructor.
  - split; [done|]. split; [apply filled_nil|constructor].
  - exists W'. split; [done|]. split; [done|]. change (0 + Z.of_nat 16) with 16 in *. by rewrite take_ge in Hf, Hw by done.
Qed.

Lemma fips_next_length n W : length (Nat.iter n fips_next W) = (n + length W)%nat.
Proof. induction n as [|n IH]; [done|]. cbn [Nat.iter nat_rect]. unfold fips_next at 1. rewrite length_app. simpl. unfold Nat.iter in IH. lia. Qed.

Lemma extend_words W ws :
  zlen W = 64 -> filled W 16 ws -> Forall is_u32 ws ->
  exists W', for_n 48 16 extend_step W = Ret W' /\ zlen W' = 64 /\ filled W' 64 (Nat.iter 48 fips_next ws) /\
    Forall is_u32 (Nat.iter 48 fips_next ws).
Proof.
  intros HW Hf Hws.
  destruct (for_n_ret (fun i W => zlen W = 64 /\ filled W i (Nat.iter (Z.to_nat (i - 16)) fips_next ws) /\
      Forall is_u32 (Nat.iter (Z.to_nat (i - 16)) fips_next ws)) 48 16 extend_step W) as (W' & -> & HW' & Hf' & Hw').
  - intros i V Hi (HV & HfV & Hu). set (us := Nat.iter (Z.to_nat (i - 16)) fips_next ws) in *.
    assert (length us = Z.to_nat i) as Hlen by (destruct HfV as [HfV _]; unfold zlen in HfV; lia).
    assert (forall k, (0 < k <= 16)%nat -> rd V (i - Z.of_nat k) = Ret (us !!! (length us - k)%nat) /\ is_u32 (us !!! (length us - k)%nat)) as Hrd.
    { intros k Hk. destruct (lookup_lt_is_Some_2 us (length us - k)) as [x Hx]; [lia|].
      rewrite (list_lookup_total_correct _ _ _ Hx). split; [|by apply (Forall_lookup_1 _ _ _ _ Hu Hx)].
      destruct HfV as [_ [r ->]]. apply rd_Ret. split; [lia|].
      replace (Z.to_nat (i - Z.of_nat k)) with (length us - k)%nat by lia. rewrite lookup_app_l; [done|lia]. }
    unfold extend_step.
    destruct (Hrd 2%nat) as [H2 U2]; [lia|]. destruct (Hrd 7%nat) as [H7 U7]; [lia|].
    destruct (Hrd 15%nat) as [H15 U15]; [lia|]. destruct (Hrd 16%nat) as [H16 U16]; [lia|].
    change (i - 2) with (i - Z.of_nat 2). change (i - 7) with (i - Z.of_nat 7).
    change (i - 15) with (i - Z.of_nat 15). change (i - 16) with (i - Z.of_nat 16) at 1.
    rewrite H2, H7, H15, H16. run.
    destruct (sigma_fips _ U2) as (_ & _ & _ & ->). destruct (sigma_fips _ U15) as (_ & _ & -> & _).
    destruct (filled_wr _ _ _ (u32 (fips_sigma1 (us !!! (length us - 2)%nat) + us !!! (length us - 7)%nat +
      fips_sigma0 (us !!! (length us - 15)%nat) + us !!! (length us - 16)%nat)) HfV) as [-> HfV']; [lia|].
    eexists. split; [done|]. split; [by rewrite zlen_insert|].
    assert (Nat.iter (Z.to_nat (i + 1 - 16)) fips_next ws = fips_next us) as ->.
    { replace (Z.to_nat (i + 1 - 16)) with (S (Z.to_nat (i - 16))) by lia. done. }
    split; [exact HfV'|]. unfold fips_next. apply Forall_app. split; [done|]. constructor; [apply u32_range|done].
  - done.
  - exists W'. split; [done|]. split; [done|]. exact (conj Hf' Hw').
Qed.

(** ** The rounds *)

(** The table is: at round [i] the variables have moved by [i] places and the
    constant is the [i]th. *)
Definition round_row (i : Z) (k : Z) : Z * Z * Z * Z * Z * Z * Z * Z * Z * Z :=
  let p j := (j - i) mod 8 in (p 0, p 1, p 2, p 3, p 4, p 5, p 6, p 7, i, k).

Lemma sha256_rounds_table : sha256_rounds = imap (fun i k => round_row (Z.of_nat i) k) fips_K.
Proof. vm_compute. reflexivity. Qed.

(** [S] in round [i] holds a to h rotated. *)
Lemma RND_fips W i k w s :
  good_state 8 s -> rd W (Z.of_nat i) = Ret w ->
  RND W (rotate i s) (round_row (Z.of_nat i) k) = Ret (rotate (S i) (fips_round s (k, w))) /\
  good_state 8 (fips_round s (k, w)).
Proof.
  intros [Hlen Hs] Hw.
  destruct s as [|a [|b [|c [|d [|e [|f [|g [|h [|? ?]]]]]]]]]; try discriminate Hlen. clear Hlen.
  rewrite !Forall_cons_iff in Hs. destruct Hs as (Ha & Hb & Hc & Hd & He & Hf & Hg & Hh & _).
  split; [|split; [done|]; repeat (apply Forall_cons_2; [done || apply u32_range|]); constructor].
  pose proof (Nat.div_mod_eq i 8) as Hi. pose proof (Nat.mod_upper_bound i 8 ltac:(lia)) as Hr.
  set (q := (i / 8)%nat) in *. set (r := (i mod 8)%nat) in *. clearbody q r.
  assert (forall j, (j - Z.of_nat i) mod 8 = (j - Z.of_nat r) mod 8) as Hp.
  { intros j. rewrite Hi. Z.to_euclidean_division_equations. lia. }
  assert (forall l : list Z, length l = 8%nat -> rotate i l = drop r l ++ take r l /\
    rotate (S i) l = drop (S r mod 8) l ++ take (S r mod 8) l) as Hrot.
  { intros l Hl. rewrite Hi. by apply rotate_mod. }
  destruct (Hrot [a; b; c; d; e; f; g; h]) as [-> _]; [done|].
  destruct (Hrot (fips_round [a; b; c; d; e; f; g; h] (k, w))) as [_ ->]; [done|].
  unfold round_row. rewrite !Hp. unfold RND. rewrite Hw. unfold fips_round.
  destruct (sigma_fips a Ha) as (<- & _). destruct (sigma_fips e He) as (_ & <- & _).
  rewrite <-ch_fips, <-maj_fips. cbn [fst snd].
  assert (forall x y, u32 (x + u32 y) = u32 (x + y)) as Hmod
    by (intros x y; unfold u32; apply Zplus_mod_idemp_r).
  assert (forall x y, u32 (u32 x + y) = u32 (x + y)) as Hmod'
    by (intros x y; unfold u32; apply Zplus_mod_idemp_l).
  assert (forall x, u32 (h + sigma1 e + ch e f g + k + w + x) = u32 (u32 (h + sigma1 e + ch e f g + k + w) + u32 x)) as Hsum
    by (intros x; by rewrite Hmod, Hmod').
  rewrite Hsum, <-(Hmod d). clear Hsum Hmod Hmod' Hp Hrot Hi Hw.
  do 8 (destruct r as [|r]; [reflexivity|]). lia.
Qed.

Lemma run_rounds_fips W ws : forall ks i s,
  good_state 8 s -> zlen W = 64 -> W = ws -> (i + length ks <= 64)%nat ->
  run_rounds (RND W) (imap (fun j k => round_row (Z.of_nat (i + j)) k) ks) (rotate i s) =
    Ret (rotate (i + length ks) (foldl fips_round s (zip ks (drop i ws)))) /\
  good_state 8 (foldl fips_round s (zip ks (drop i ws))).
Proof.
  intros ks. induction ks as [|k ks IH]; intros i s Hs HW <- Hlen.
  { cbn [imap run_rounds length zip_with foldl]. by rewrite Nat.add_0_r. }
  cbn [imap run_rounds length] in *. destruct (rd_in W (Z.of_nat i)) as [w Hw]; [lia|].
  rewrite Nat.add_0_r. destruct (RND_fips W i k w s Hs Hw) as [-> Hs']. run.
  apply rd_Ret in Hw as [_ Hw]. rewrite Nat2Z.id in Hw. rewrite (drop_S _ _ _ Hw). cbn [zip_with foldl].
  destruct (IH (S i) (fips_round s (k, w)) Hs' HW eq_refl) as [IH1 IH2]; [lia|].
  split; [|exact IH2]. replace (i + S (length ks))%nat with (S i + length ks)%nat by lia. rewrite <-IH1.
  f_equal. apply imap_ext. intros j x _. simpl. do 2 f_equal. lia.
Qed.

Lemma length_fips_K : length fips_K = 64%nat.
Proof. vm_compute. reflexivity. Qed.

#[local] Opaque fips_K.

Lemma transform_fips s b :
  good_state 8 s -> is_bytes b -> zlen b = 64 ->
  blk_SHA256_Transform s b = Ret (fips_compress s b) /\ good_state 8 (fips_compress s b).
Proof.
  intros Hs Hb Hlen. unfold blk_SHA256_Transform.
  unfold fips_compress.
  destruct (load_words b (replicate 64 0) Hb Hlen) as (W1 & -> & HW1 & Hf1 & Hw1); [done|]. run.
  destruct (extend_words W1 _ HW1 Hf1 Hw1) as (W & -> & HW & [Hlw [r Hr]] & Hw). run.
  assert (r = []) as ->.
  { apply length_zero_iff_nil. rewrite Hr, zlen_app, Hlw in HW. unfold zlen in HW. lia. }
  rewrite app_nil_r in Hr. assert (W = fips_schedule b) as Hws by exact Hr. clear Hr Hlw Hw. revert Hws.
  generalize (fips_schedule b) as ws. intros ws Hr.
  destruct (run_rounds_fips W _ fips_K 0 s Hs HW Hr) as [Hrun Hg]; [rewrite length_fips_K; lia|].
  rewrite sha256_rounds_table. change (rotate 0 s) with (drop (0 mod length s) s ++ take (0 mod length s) s) in Hrun.
  rewrite length_fips_K in Hrun. destruct Hs as [Hlen8 Hs]. rewrite Hlen8 in Hrun.
  change (0 mod 8)%nat with 0%nat in Hrun. rewrite drop_0, take_0, app_nil_r in Hrun.
  cbn [Nat.add] in Hrun. rewrite Hrun. run. rewrite drop_0 in *.
  set (t := foldl fips_round s (zip fips_K ws)) in *. destruct Hg as [Hlt Ht].
  assert (rotate 64 t = t) as ->.
  { apply rotate_multiple. by rewrite Hlt. }
  split; [done|]. by apply good_state_add.
Qed.
End proofs.

(** * Claims *)

(** [C15] SHA-256 of a message fed in pieces: after [blk_SHA256_Init] and any
    sequence of [blk_SHA256_Update] calls on byte buffers of together fewer
    than 2^61 bytes, [blk_SHA256_Final] writes the FIPS 180-4 digest of their
    concatenation into the first 32 bytes, whatever the sizes of the pieces. *)
Theorem sha256_correct `{ByteOrderOk} (buf digest : list Z) (datas : list (list Z)) :
  zlen buf = 64 -> 32 <= zlen digest -> Forall is_bytes datas -> zlen (concat datas) < 2 ^ 61 ->
  exists ctx d,
    foldl (fun c data => ctx ← c; blk_SHA256_Update ctx data (zlen data)) (Ret (blk_SHA256_Init buf)) datas = Ret ctx /\
    blk_SHA256_Final digest ctx = Ret d /\ filled d 32 (fips_sha256 (concat datas)).
Proof.
  intros Hbuf Hdig Hd Hlen.
  assert (good_state 8 fips_H0) as Hinit by (split; evaluate).
  pose proof (absorbed_init fips_compress (good_state 8) fips_H0 Hinit buf Hbuf) as Ha.
  assert (blk_SHA256_Init buf = HashCtx 0 fips_H0 buf) as Hi by (unfold blk_SHA256_Init; f_equal; vm_compute; reflexivity).
  destruct (updates_spec blk_SHA256_Transform fips_compress (good_state 8) transform_fips fips_H0 _ [] datas Ha Hd)
    as (ctx & Hu & Hctx); [rewrite zlen_nil; lia|].
  rewrite Hi. unfold blk_SHA256_Update. exists ctx. rewrite Hu. rewrite app_nil_l in Hctx. unfold blk_SHA256_Final.
  destruct (hash_finish_spec blk_SHA256_Transform fips_compress (good_state 8) transform_fips fips_H0 ctx _ Hctx Hlen)
    as (ctx' & -> & Hst & Hl & Hw). run.
  destruct (put_words digest (ctx_state ctx') Hw) as (d & Hput & Hf); [unfold zlen in *; lia|].
  rewrite Hl in Hput. exists d. split; [done|]. split; [exact Hput|].
  unfold fips_sha256. rewrite <-Hst. unfold zlen in Hf. by rewrite Hl in Hf.
Qed.

Lemma sha256_correct_witness :
  @fips_sha256 order_ref [97; 98; 99] =
    [186; 120; 22; 191; 143; 1; 207; 234; 65; 65; 64; 222; 93; 174; 34; 35;
     176; 3; 97; 163; 150; 23; 122; 156; 180; 16; 255; 97; 242; 0; 21; 173] /\
  exists ctx d,
    foldl (fun c data => ctx ← c; @blk_SHA256_Update order_ref ctx data (zlen data))
      (Ret (blk_SHA256_Init (replicate 64 9))) [[97]; replicate 70 98; []; [99]] = Ret ctx /\
    @blk_SHA256_Final order_ref (replicate 32 0) ctx = Ret d /\
    filled d 32 (@fips_sha256 order_ref (concat [[97]; replicate 70 98; []; [99]])).
Proof.
  split; [vm_compute; reflexivity|].
  apply (@sha256_correct order_ref order_ref_ok (replicate 64 9) (replicate 32 0) [[97]; replicate 70 98; []; [99]]); evaluate.
Defined.
