(* ===== verification/HexLl.v ===== *)
(** hex-ll.c: the table of hexadecimal digits and the conversion of digit pairs
    to bytes. *)
From S2P Require Import Prelude Headers.

(** * Model *)

Definition hexval_table : list Z :=
  [-1; -1; -1; -1; -1; -1; -1; -1; -1; -1; -1; -1; -1; -1; -1; -1;
   -1; -1; -1; -1; -1; -1; -1; -1; -1; -1; -1; -1; -1; -1; -1; -1;
   -1; -1; -1; -1; -1; -1; -1; -1; -1; -1; -1; -1; -1; -1; -1; -1;
    0;  1;  2;  3;  4;  5;  6;  7;  8;  9; -1; -1; -1; -1; -1; -1;
   -1; 10; 11; 12; 13; 14; 15; -1; -1; -1; -1; -1; -1; -1; -1; -1;
   -1; -1; -1; -1; -1; -1; -1; -1; -1; -1; -1; -1; -1; -1; -1; -1;
   -1; 10; 11; 12; 13; 14; 15; -1; -1; -1; -1; -1; -1; -1; -1; -1;
   -1; -1; -1; -1; -1; -1; -1; -1; -1; -1; -1; -1; -1; -1; -1; -1;
   -1; -1; -1; -1; -1; -1; -1; -1; -1; -1; -1; -1; -1; -1; -1; -1;
   -1; -1; -1; -1; -1; -1; -1; -1; -1; -1; -1; -1; -1; -1; -1; -1;
   -1; -1; -1; -1; -1; -1; -1; -1; -1; -1; -1; -1; -1; -1; -1; -1;
   -1; -1; -1; -1; -1; -1; -1; -1; -1; -1; -1; -1; -1; -1; -1; -1;
   -1; -1; -1; -1; -1; -1; -1; -1; -1; -1; -1; -1; -1; -1; -1; -1;
   -1; -1; -1; -1; -1; -1; -1; -1; -1; -1; -1; -1; -1; -1; -1; -1;
   -1; -1; -1; -1; -1; -1; -1; -1; -1; -1; -1; -1; -1; -1; -1; -1;
   -1; -1; -1; -1; -1; -1; -1; -1; -1; -1; -1; -1; -1; -1; -1; -1].

Definition table_value (c : Z) : Z := default (-1) (hexval_table !! Z.to_nat c).

(** What hex-ll.h defines inline. *)
Class HexHeader := {
  hexval : Z -> Z;           (* an unsigned int *)
  hex2chr : list Z -> Z;     (* of the string at the pointer, without its NUL *)
}.

Class HexHeaderOk `{HexHeader} : Prop := {
  hexval_spec c : is_byte c -> hexval c = u32 (table_value c);
  (** "Convert two consecutive hexadecimal digits into a char.  Return a negative
      value on error.  Don't run over the end of short strings." *)
  hex2chr_spec a b s :
    is_byte a -> is_byte b -> 0 <= table_value a -> 0 <= table_value b ->
    hex2chr (a :: b :: s) = table_value a * 16 + table_value b;
  hex2chr_error s :
    is_bytes s -> 0 <= hex2chr s ->
    exists a b s', s = a :: b :: s' /\ 0 <= table_value a /\ 0 <= table_value b;
}.

Section model.
Context `{HexHeader}.

(** [hex] is an offset; [binary] is written from the left, and [-1] returned
    at the first pair that is not one of digits. *)
Definition hex_to_bytes_step (hex : list Z) (i : Z) (binary : list Z) : outcome (list Z + list Z) :=
  h0 ← rd hex (2 * i);
  h1 ← rd hex (2 * i + 1);
  let val := Z.lor (u32 (Z.shiftl (hexval h0) 4)) (hexval h1) in
  if tru (Z.land val (u32 (Z.lnot 0xff))) then Ret (inr binary) else
  binary ← wr binary i val;
  Ret (inl binary).

Definition hex_to_bytes (binary hex : list Z) (len : Z) : outcome (list Z * Z) :=
  r ← for_range (Z.to_nat len) 0 (hex_to_bytes_step hex) binary;
  match r with
  | inl binary => Ret (binary, 0)
  | inr binary => Ret (binary, -1)
  end.
End model.

(** * Digits *)

(** The digit characters of 0 to 15. *)
Definition hex_digit (upper : bool) (d : Z) : Z :=
  if d <? 10 then 48 + d else (if upper then 55 else 87) + d.

(** The value of a character. *)
Definition hex_value (c : Z) : Z :=
  if (48 <=? c) && (c <=? 57) then c - 48
  else if (65 <=? c) && (c <=? 70) then c - 55
  else if (97 <=? c) && (c <=? 102) then c - 87
  else -1.

Lemma table_value_spec c : is_byte c -> table_value c = hex_value c.
Proof.
  intros Hc. assert (Forall (fun c => table_value c = hex_value c) (seqZ 0 256)) as Hall by evaluate.
  rewrite Forall_forall in Hall. apply Hall, elem_of_seqZ. unfold is_byte in Hc. lia.
Qed.

Lemma hex_value_range c : -1 <= hex_value c < 16.
Proof.
  unfold hex_value.
  destruct (Z.leb_spec 48 c), (Z.leb_spec c 57), (Z.leb_spec 65 c), (Z.leb_spec c 70), (Z.leb_spec 97 c), (Z.leb_spec c 102);
    cbn [andb]; lia.
Qed.

Lemma hex_value_digit u x : 0 <= x < 16 -> hex_value (hex_digit u x) = x.
Proof.
  intros Hx. unfold hex_digit, hex_value.
  destruct (Z.ltb_spec x 10), u; repeat (case_if; try lia);
    repeat match goal with H : (_ && _) = false |- _ => apply andb_false_iff in H as [?|?]; zb end; lia.
Qed.

Lemma hex_digit_byte u x : 0 <= x < 16 -> is_byte (hex_digit u x) /\ hex_digit u x <> 0.
Proof. intros Hx. unfold hex_digit, is_byte. destruct (Z.ltb_spec x 10), u; lia. Qed.

Lemma table_digit u x : 0 <= x < 16 -> table_value (hex_digit u x) = x.
Proof. intros Hx. rewrite table_value_spec by (by apply hex_digit_byte). by apply hex_value_digit. Qed.

(** The two digits of a byte. *)
Definition hex_pair (upper : bool) (c : Z) : list Z := [hex_digit upper (c / 16); hex_digit upper (c mod 16)].

Lemma byte_digits c : is_byte c -> 0 <= c / 16 < 16 /\ 0 <= c mod 16 < 16 /\ c / 16 * 16 + c mod 16 = c.
Proof. unfold is_byte. intros. Z.to_euclidean_division_equations; lia. Qed.

Lemma hex2chr_pair `{HexHeaderOk} u c s : is_byte c -> hex2chr (hex_pair u c ++ s) = c.
Proof.
  intros Hc. destruct (byte_digits c Hc) as (Hh & Hl & Hsum). unfold hex_pair. cbn [app].
  rewrite hex2chr_spec; rewrite ?table_digit by done; [done|by apply hex_digit_byte..|lia|lia].
Qed.

(** The byte that two characters stand for. *)
Definition pair_value (a b : Z) : option Z :=
  if (hex_value a <? 0) || (hex_value b <? 0) then None else Some (hex_value a * 16 + hex_value b).

(** The bytes that the first [2 * len] characters of a string stand for. *)
Fixpoint unhex (s : list Z) (len : nat) {struct len} : option (list Z) :=
  match len, s with
  | O, _ => Some []
  | S len, a :: b :: s =>
      c ← pair_value a b;
      rest ← unhex s len;
      Some (c :: rest)
  | _, _ => None
  end.

Lemma pair_value_byte a b c : pair_value a b = Some c -> is_byte c.
Proof.
  unfold pair_value. pose proof (hex_value_range a). pose proof (hex_value_range b). case_if; [done|].
  intros [= <-]. unfold is_byte. lia.
Qed.

Lemma unhex_bytes s n bs : unhex s n = Some bs -> is_bytes bs /\ length bs = n.
Proof.
  revert s bs. induction n as [|n IH]; intros s bs; cbn [unhex].
  - intros [= <-]. done.
  - destruct s as [|a [|b s]]; try done. destruct (pair_value a b) as [c|] eqn:Ec; [|done]. cbn [mbind option_bind].
    destruct (unhex s n) as [rest|] eqn:Er; [|done]. cbn [mbind option_bind]. intros [= <-].
    destruct (IH s rest Er) as [Hb Hl]. split; [|cbn [length]; lia]. apply Forall_cons_2; [by apply (pair_value_byte a b)|done].
Qed.

Lemma unhex_pairs u bs rest : is_bytes bs -> unhex (concat (hex_pair u <$> bs) ++ rest) (length bs) = Some bs.
Proof.
  induction bs as [|c bs IH]; intros Hb; [done|]. apply Forall_cons_iff in Hb as [Hc Hb].
  destruct (byte_digits c Hc) as (Hh & Hl & Hsum). cbn [fmap list_fmap concat hex_pair app length unhex].
  unfold pair_value. rewrite !hex_value_digit by done. rewrite (proj2 (Z.ltb_ge _ 0)), (proj2 (Z.ltb_ge _ 0)) by lia.
  cbn [orb mbind option_bind]. rewrite Hsum, IH by done. done.
Qed.

(** * Correctness *)

Section proofs.
Context `{HexHeaderOk}.

(** Checked for all digit values at once. *)
Definition two_digits_ok (x y : Z) : bool :=
  let val := Z.lor (u32 (Z.shiftl (u32 x) 4)) (u32 y) in
  let high := tru (Z.land val (u32 (Z.lnot 0xff))) in
  if (x <? 0) || (y <? 0) then high else (val =? x * 16 + y) && negb high.

Lemma two_digits x y : -1 <= x < 16 -> -1 <= y < 16 -> two_digits_ok x y = true.
Proof.
  intros Hx Hy. assert (forallb (fun x => forallb (two_digits_ok x) (seqZ (-1) 17)) (seqZ (-1) 17) = true) as Hall
    by (vm_compute; reflexivity).
  rewrite forallb_forall in Hall. specialize (Hall x). rewrite forallb_forall in Hall.
  apply Hall; apply list_elem_of_In, elem_of_seqZ; lia.
Qed.

(** The value of two digits, and the test for anything else. *)
Lemma hexval_pair a b :
  is_byte a -> is_byte b ->
  let val := Z.lor (u32 (Z.shiftl (hexval a) 4)) (hexval b) in
  match pair_value a b with
  | Some c => val = c /\ tru (Z.land val (u32 (Z.lnot 0xff))) = false
  | None => tru (Z.land val (u32 (Z.lnot 0xff))) = true
  end.
Proof.
  intros Ha Hb. cbv zeta. rewrite !hexval_spec, !table_value_spec by done. unfold pair_value.
  pose proof (hex_value_range a) as Hra. pose proof (hex_value_range b) as Hrb.
  pose proof (two_digits _ _ Hra Hrb) as Hall. unfold two_digits_ok in Hall. cbv zeta in Hall.
  destruct ((hex_value a <? 0) || (hex_value b <? 0)); [done|]. zb. split; [done|]. by apply tru_false.
Qed.

Lemma hex_to_bytes_loop hex : forall n i s binary out,
  at_pos hex (2 * i) s -> (2 * n <= length s)%nat -> is_bytes s -> filled binary i out -> i + Z.of_nat n <= zlen binary ->
  exists binary', zlen binary' = zlen binary /\
    match unhex s n with
    | Some bs => for_range n i (hex_to_bytes_step hex) binary = Ret (inl binary') /\ filled binary' (i + Z.of_nat n) (out ++ bs)
    | None => for_range n i (hex_to_bytes_step hex) binary = Ret (inr binary')
    end.
Proof.
  intros n. induction n as [|n IH]; intros i s binary out Hat Hn Hs Hf Hroom.
  { exists binary. split; [done|]. cbn [unhex for_range]. by rewrite Z.add_0_r, app_nil_r. }
  destruct s as [|a [|b s]]; [cbn [length] in Hn; lia..|]. cbn [length] in Hn.
  apply at_pos_cons in Hat as [Hra Hat]. apply at_pos_cons in Hat as [Hrb Hat].
  rewrite !Forall_cons_iff in Hs. destruct Hs as (Ha & Hb & Hs). pose proof (hexval_pair a b Ha Hb) as Hv. cbv zeta in Hv.
  cbn [for_range unhex].
  assert (hex_to_bytes_step hex i binary =
    (let val := Z.lor (u32 (Z.shiftl (hexval a) 4)) (hexval b) in
     if tru (Z.land val (u32 (Z.lnot 0xff))) then Ret (inr binary)
     else binary ← wr binary i val; Ret (inl binary))) as ->.
  { unfold hex_to_bytes_step. rewrite Hra. run. rewrite Hrb. run. done. }
  cbv zeta. destruct (pair_value a b) as [c|]; cbn [mbind option_bind].
  - destruct Hv as [-> ->]. destruct (filled_wr _ _ _ c Hf) as [-> Hf1]; [lia|]. run.
    destruct (IH (i + 1) s (<[Z.to_nat i := c]> binary) (out ++ [c])) as (binary' & Hz & Hr);
      [by replace (2 * (i + 1)) with (2 * i + 1 + 1) by lia|lia|done|done|rewrite zlen_insert; lia|].
    rewrite zlen_insert in Hz. exists binary'. split; [done|]. destruct (unhex s n) as [bs|]; cbn [mbind option_bind].
    + destruct Hr as [-> Hf']. split; [done|]. replace (i + Z.of_nat (S n)) with (i + 1 + Z.of_nat n) by lia.
      by rewrite <-(assoc app) in Hf'.
    + exact Hr.
  - rewrite Hv. run. by exists binary.
Qed.
End proofs.

(** ** An implementation of hex-ll.h *)

Definition hex_ref : HexHeader := {|
  hexval c := u32 (table_value c);
  hex2chr s :=
    match s with
    | a :: b :: _ => if (table_value a <? 0) || (table_value b <? 0) then -1 else table_value a * 16 + table_value b
    | _ => -1
    end;
|}.

Lemma hex_ref_ok : @HexHeaderOk hex_ref.
Proof.
  split.
  - done.
  - intros a b s Ha Hb Qa Qb. cbn [hex2chr hex_ref]. by rewrite (proj2 (Z.ltb_ge _ 0)), (proj2 (Z.ltb_ge _ 0)) by lia.
  - intros s Hs. cbn [hex2chr hex_ref]. destruct s as [|a [|b s]]; [lia..|]. case_if; [lia|]. intros _. exists a, b, s. split; [done|lia].
Qed.

(** * Claims *)

(** [hex_to_bytes] decides and decodes hexadecimal text: given [2 * len]
    characters and room for [len] bytes it stays inside both, returns 0 exactly
    when every character is a digit of either case, the bytes written are then
    the values of the pairs, and it returns -1 otherwise; so the digits of any
    bytes decode to these bytes. *)
Theorem hex_to_bytes_decodes `{HexHeaderOk} (binary s : list Z) (len : nat) :
  is_bytes s -> (2 * len <= length s)%nat -> Z.of_nat len <= zlen binary ->
  (exists binary' ret, hex_to_bytes binary s (Z.of_nat len) = Ret (binary', ret) /\ zlen binary' = zlen binary /\
     match unhex s len with
     | Some bs => ret = 0 /\ take len binary' = bs
     | None => ret = -1
     end) /\
  (forall u bs rest, s = concat (hex_pair u <$> bs) ++ rest -> length bs = len -> is_bytes bs -> unhex s len = Some bs).
Proof.
  intros Hs Hn Hroom. split.
  - destruct (hex_to_bytes_loop s len 0 s binary []) as (binary' & Hz & Hr); [apply at_pos_0|done|done|apply filled_nil|done|].
    unfold hex_to_bytes. rewrite Nat2Z.id. destruct (unhex s len) as [bs|].
    + destruct Hr as [-> Hf]. run. exists binary', 0. split; [done|]. split; [done|]. split; [done|].
      apply filled_take in Hf. by rewrite Z.add_0_l, Nat2Z.id in Hf.
    + rewrite Hr. run. by exists binary', (-1).
  - intros u bs rest -> <- Hb. by apply unhex_pairs.
Qed.

Lemma hex_to_bytes_decodes_witness :
  let s := [48; 97; 70; 57; 120] in          (* "0aF9x" *)
  unhex s 2 = Some [10; 249] /\
  (exists binary' ret, @hex_to_bytes hex_ref [7; 7; 7] s (Z.of_nat 2) = Ret (binary', ret) /\ zlen binary' = zlen [7; 7; 7] /\
     match unhex s 2 with
     | Some bs => ret = 0 /\ take 2 binary' = bs
     | None => ret = -1
     end) /\
  (forall u bs rest, s = concat (hex_pair u <$> bs) ++ rest -> length bs = 2%nat -> is_bytes bs -> unhex s 2 = Some bs).
Proof.
  cbv zeta. split; [vm_compute; reflexivity|].
  apply (@hex_to_bytes_decodes hex_ref hex_ref_ok [7; 7; 7] [48; 97; 70; 57; 120] 2); evaluate.
Defined.
