(* ===== verification/Strbuf.v ===== *)
(** strbuf.c: growable, NUL-terminated byte strings.  This file has the
    operations on the buffer itself -- allocation, growing, splicing, trimming,
    comparing -- and proves that they refine operations on lists of bytes. *)
From S2P Require Import Prelude Headers.

(** * The structure *)

(** [struct strbuf]; [alloc] is 0 while [buf] is the static [strbuf_slopbuf]. *)
Record strbuf := Strbuf {
  sb_alloc : Z;
  sb_len : Z;
  sb_buf : list Z;
}.

(** [STRBUF_INIT] with its buffer, [strbuf_slopbuf]. *)
Definition STRBUF_INIT : strbuf := Strbuf 0 0 [0].

(** [sb] holds the bytes [l], ends in NUL and owns [alloc] bytes or none. *)
Definition sb_rep (sb : strbuf) (l : list Z) : Prop :=
  sb_len sb = zlen l /\ (exists rest, sb_buf sb = l ++ 0 :: rest) /\
  (sb_alloc sb = 0 /\ sb_buf sb = [0] \/ 0 < sb_alloc sb /\ zlen (sb_buf sb) = sb_alloc sb).

(** What strbuf.h defines inline. *)
Class StrbufHeader := {
  strbuf_setlen : strbuf -> Z -> outcome strbuf;
  strbuf_avail : strbuf -> Z;
  strbuf_addch : strbuf -> Z -> outcome strbuf;
  strbuf_addstr : strbuf -> list Z -> outcome strbuf;      (* of a string without its NUL *)
  strbuf_complete : strbuf -> Z -> outcome strbuf;
}.

Class StrbufHeaderOk `{StrbufHeader} : Prop := {
  (** "Set the length of the buffer to a given value" of the memory it has;
      beyond that, a BUG. *)
  strbuf_setlen_spec sb len :
    0 <= len ->
    strbuf_setlen sb len =
      if len <? Z.max 1 (sb_alloc sb)
      then Ret (Strbuf (sb_alloc sb) len (<[Z.to_nat len := 0]> (sb_buf sb)))
      else Err Bug;
  (** "the amount of allocated but unused memory" *)
  strbuf_avail_spec sb : strbuf_avail sb = if tru (sb_alloc sb) then sb_alloc sb - sb_len sb - 1 else 0;
  (** "Add a single character to the buffer" *)
  strbuf_addch_spec sb l c :
    sb_rep sb l -> zlen l + 2 < 2 ^ 64 ->
    exists sb', strbuf_addch sb c = Ret sb' /\ sb_rep sb' (l ++ [u8 c]);
  (** "Add a NUL-terminated string to the buffer" *)
  strbuf_addstr_spec sb l s :
    sb_rep sb l -> zlen l + zlen s + 1 < 2 ^ 64 ->
    exists sb', strbuf_addstr sb s = Ret sb' /\ sb_rep sb' (l ++ s);
  (** "Ensure that the buffer ends with a given character" unless it is empty *)
  strbuf_complete_spec sb l c :
    sb_rep sb l -> zlen l + 2 < 2 ^ 64 ->
    exists sb', strbuf_complete sb c = Ret sb' /\
      sb_rep sb' (if bool_decide (l = [] \/ last l = Some (u8 c)) then l else l ++ [u8 c]);
}.

(** sane_ctype and the path separator of git-compat-util.h. *)
Class Ctype := {
  isspace : Z -> bool;
  isalnum : Z -> bool;
  tolower : Z -> Z;
  toupper : Z -> Z;
  is_dir_sep : Z -> bool;
}.

(** White space is a space, a tab, a newline or a carriage return, in every locale. *)
Class CtypeOk `{Ctype} : Prop := {
  isspace_spec c : is_byte c -> isspace c = bool_decide (c ∈ [9; 10; 13; 32]);
}.

(** * Model *)

Section model.
Context `{GitCompat} `{StrbufHeader} `{Ctype}.
Context (junk : Z).

Definition strbuf_grow (sb : strbuf) (extra : Z) : outcome strbuf :=
  let new_buf := negb (tru (sb_alloc sb)) in
  if unsigned_add_overflows extra 1 || unsigned_add_overflows (sb_len sb) (u64 (extra + 1)) then Err Bug else
  let buf := if new_buf then [] else sb_buf sb in
  let alloc := alloc_grow (sb_len sb + extra + 1) (sb_alloc sb) in
  let buf := realloc junk buf alloc in
  buf ← (if new_buf then wr buf 0 0 else Ret buf);
  Ret (Strbuf alloc (sb_len sb) buf).

Definition strbuf_init (hint : Z) : outcome strbuf :=
  if tru hint then strbuf_grow STRBUF_INIT hint else Ret STRBUF_INIT.

Definition strbuf_release (sb : strbuf) : outcome strbuf :=
  if tru (sb_alloc sb) then strbuf_init 0 else Ret sb.

(** The memory handed out, its length, and the emptied buffer. *)
Definition strbuf_detach (sb : strbuf) : outcome (list Z * Z * strbuf) :=
  sb ← strbuf_grow sb 0;
  let res := sb_buf sb in
  let sz := sb_len sb in
  sb ← strbuf_init 0;
  Ret (res, sz, sb).

Definition set_buf (sb : strbuf) (buf : list Z) : strbuf := Strbuf (sb_alloc sb) (sb_len sb) buf.
Definition set_len (sb : strbuf) (len : Z) : strbuf := Strbuf (sb_alloc sb) len (sb_buf sb).

(** [sb->buf[sb->len] = '\0'] *)
Definition terminate (sb : strbuf) : outcome strbuf :=
  buf ← wr (sb_buf sb) (sb_len sb) 0;
  Ret (set_buf sb buf).

Definition strbuf_attach (sb : strbuf) (buf : list Z) (len alloc : Z) : outcome strbuf :=
  sb ← strbuf_release sb;
  let sb := Strbuf alloc len buf in
  sb ← strbuf_grow sb 0;
  terminate sb.

(** One round of [while (sb->len > 0 && ...(sb->buf[sb->len - 1]))]. *)
Definition rtrim_step (drop_it : Z -> bool) (sb : strbuf) : outcome (strbuf + strbuf) :=
  if negb (sb_len sb >? 0) then Ret (inr sb) else
  c ← rd (sb_buf sb) (sb_len sb - 1);
  if drop_it c then Ret (inl (set_len sb (sb_len sb - 1))) else Ret (inr sb).

Definition strbuf_rtrim (sb : strbuf) : outcome strbuf :=
  sb ← loop (S (Z.to_nat (sb_len sb))) (rtrim_step isspace) sb;
  terminate sb.

Definition strbuf_trim_trailing_dir_sep (sb : strbuf) : outcome strbuf :=
  sb ← loop (S (Z.to_nat (sb_len sb))) (rtrim_step is_dir_sep) sb;
  terminate sb.

Definition strbuf_trim_trailing_newline (sb : strbuf) : outcome strbuf :=
  if sb_len sb >? 0 then
    c ← rd (sb_buf sb) (sb_len sb - 1);
    if c =? 10 then
      let sb := set_len sb (sb_len sb - 1) in
      sb ←
        (if sb_len sb >? 0 then
           c ← rd (sb_buf sb) (sb_len sb - 1);
           Ret (if c =? 13 then set_len sb (sb_len sb - 1) else sb)
         else Ret sb);
      terminate sb
    else Ret sb
  else Ret sb.

(** [b] is an offset. *)
Definition ltrim_step (st : strbuf * Z) : outcome ((strbuf * Z) + (strbuf * Z)) :=
  let '(sb, b) := st in
  if negb (sb_len sb >? 0) then Ret (inr st) else
  c ← rd (sb_buf sb) b;
  if isspace c then Ret (inl (set_len sb (sb_len sb - 1), b + 1)) else Ret (inr st).

Definition strbuf_ltrim (sb : strbuf) : outcome strbuf :=
  '(sb, b) ← loop (S (Z.to_nat (sb_len sb))) ltrim_step (sb, 0);
  xs ← rd_range (sb_buf sb) b (sb_len sb);
  buf ← wr_range (sb_buf sb) 0 xs;
  terminate (set_buf sb buf).

Definition strbuf_trim (sb : strbuf) : outcome strbuf :=
  sb ← strbuf_rtrim sb;
  strbuf_ltrim sb.

Definition strbuf_tolower (sb : strbuf) : outcome strbuf :=
  buf ← for_n (Z.to_nat (sb_len sb)) 0 (fun p buf => c ← rd buf p; wr buf p (tolower c)) (sb_buf sb);
  Ret (set_buf sb buf).

Definition strbuf_cmp (a b : strbuf) : outcome Z :=
  let len := if sb_len a <? sb_len b then sb_len a else sb_len b in
  x ← rd_range (sb_buf a) 0 len;
  y ← rd_range (sb_buf b) 0 len;
  let cmp := bytes_cmp x y in
  if tru cmp then Ret cmp else
  Ret (if sb_len a <? sb_len b then -1 else Z.b2z (negb (sb_len a =? sb_len b))).

Definition strbuf_splice (sb : strbuf) (pos len : Z) (data : list Z) (dlen : Z) : outcome strbuf :=
  if unsigned_add_overflows pos len then Err Bug else
  if pos >? sb_len sb then Err Bug else
  if pos + len >? sb_len sb then Err Bug else
  sb ← (if dlen >=? len then strbuf_grow sb (dlen - len) else Ret sb);
  tail ← rd_range (sb_buf sb) (pos + len) (sb_len sb - pos - len);
  buf ← wr_range (sb_buf sb) (pos + dlen) tail;
  xs ← rd_range data 0 dlen;
  buf ← wr_range buf pos xs;
  strbuf_setlen (set_buf sb buf) (sb_len sb + dlen - len).

Definition strbuf_insert (sb : strbuf) (pos : Z) (data : list Z) (len : Z) : outcome strbuf :=
  strbuf_splice sb pos 0 data len.

Definition strbuf_remove (sb : strbuf) (pos len : Z) : outcome strbuf :=
  strbuf_splice sb pos len [0] 0.

Definition strbuf_add (sb : strbuf) (data : list Z) (len : Z) : outcome strbuf :=
  sb ← strbuf_grow sb len;
  xs ← rd_range data 0 len;
  buf ← wr_range (sb_buf sb) (sb_len sb) xs;
  strbuf_setlen (set_buf sb buf) (sb_len sb + len).

(** [s] without its NUL; [st_mult] dies on overflow. *)
Definition strbuf_addstrings (sb : strbuf) (s : list Z) (n : Z) : outcome strbuf :=
  let len := zlen s in
  if 2 ^ 64 <=? len * n then Err Bug else
  sb ← strbuf_grow sb (len * n);
  for_n (Z.to_nat n) 0 (fun _ sb => strbuf_add sb s len) sb.

Definition strbuf_addbuf (sb sb2 : strbuf) : outcome strbuf :=
  sb ← strbuf_grow sb (sb_len sb2);
  xs ← rd_range (sb_buf sb2) 0 (sb_len sb2);
  buf ← wr_range (sb_buf sb) (sb_len sb) xs;
  strbuf_setlen (set_buf sb buf) (sb_len sb + sb_len sb2).

Definition strbuf_addchars (sb : strbuf) (c n : Z) : outcome strbuf :=
  sb ← strbuf_grow sb n;
  buf ← fill_range (sb_buf sb) (sb_len sb) n (u8 c);
  strbuf_setlen (set_buf sb buf) (sb_len sb + n).

(** The strings of [argv]; NULL elements do not occur below [argc]. *)
Definition strbuf_join_argv (buf : strbuf) (argc : Z) (argv : list (list Z)) (delim : Z) : outcome strbuf :=
  if negb (tru argc) then Ret buf else
  s ← rd argv 0;
  buf ← strbuf_addstr buf s;
  for_n (Z.to_nat (argc - 1)) 1
    (fun i buf => buf ← strbuf_addch buf delim; s ← rd argv i; strbuf_addstr buf s) buf.
End model.

(** * Correctness *)

Section proofs.
Context `{GitCompatOk} `{StrbufHeaderOk} `{Ctype}.
Context (junk : Z).
Implicit Types (sb : strbuf) (l xs : list Z).

Lemma sb_rep_init : sb_rep STRBUF_INIT [].
Proof. split; [done|]. split; [by exists []|by left]. Qed.

Lemma sb_rep_filled sb l : sb_rep sb l -> filled (sb_buf sb) (sb_len sb) l.
Proof. intros (Hl & [r Hr] & _). split; [done|]. by exists (0 :: r). Qed.

Lemma sb_rep_len sb l : sb_rep sb l -> sb_len sb = zlen l.
Proof. by intros [? _]. Qed.

(** The memory of a buffer. *)
Lemma sb_rep_mem sb l : sb_rep sb l -> zlen (sb_buf sb) = Z.max 1 (sb_alloc sb) /\ zlen l < Z.max 1 (sb_alloc sb).
Proof.
  intros (Hl & [r Hr] & [[Ha Hb]|[Ha Hb]]).
  - rewrite Hb, Ha in *. split; [done|]. destruct l as [|? l]; [rewrite zlen_nil; lia|].
    exfalso. injection Hr as _ Hr. by destruct l.
  - split; [lia|]. rewrite <-Hb, Hr, zlen_app, zlen_cons. pose proof (zlen_nonneg r). lia.
Qed.

(** Writing the NUL makes a buffer of what is in place. *)
Lemma filled_terminate buf n l :
  filled buf n l -> n < zlen buf -> exists rest, <[Z.to_nat n := 0]> buf = l ++ 0 :: rest.
Proof.
  intros Hf Hlt. destruct (filled_wr buf n l 0 Hf Hlt) as [_ [_ [rest ->]]]. exists rest. by rewrite <-(assoc app).
Qed.

Lemma sb_rep_terminated alloc n buf l :
  filled buf n l -> n < zlen buf -> (alloc = 0 /\ buf = [0] \/ 0 < alloc /\ zlen buf = alloc) ->
  sb_rep (Strbuf alloc n (<[Z.to_nat n := 0]> buf)) l.
Proof.
  intros Hf Hlt Ha. unfold sb_rep. cbn [sb_alloc sb_len sb_buf].
  split; [by destruct Hf as [<- _]|]. split; [by apply filled_terminate|].
  destruct Ha as [[-> ->]|[? ?]]; [left|right; by rewrite zlen_insert].
  pose proof (filled_le _ _ _ Hf). change (zlen [0]) with 1 in Hlt. replace n with 0 by lia. done.
Qed.

Lemma setlen_rep alloc n0 buf n l :
  filled buf n l -> n < zlen buf -> (alloc = 0 /\ buf = [0] \/ 0 < alloc /\ zlen buf = alloc) ->
  exists sb', strbuf_setlen (Strbuf alloc n0 buf) n = Ret sb' /\ sb_rep sb' l.
Proof.
  intros Hf Hlt Ha. pose proof (filled_le _ _ _ Hf). rewrite strbuf_setlen_spec by lia. cbn [sb_alloc sb_buf].
  assert (zlen buf = Z.max 1 alloc) as Hz by (destruct Ha as [[-> ->]|[? ?]]; [done|lia]).
  rewrite (proj2 (Z.ltb_lt _ _)) by lia. eexists. split; [done|]. by apply sb_rep_terminated.
Qed.

Lemma terminate_rep alloc n buf l :
  filled buf n l -> n < zlen buf -> (alloc = 0 /\ buf = [0] \/ 0 < alloc /\ zlen buf = alloc) ->
  exists sb', terminate (Strbuf alloc n buf) = Ret sb' /\ sb_rep sb' l.
Proof.
  intros Hf Hlt Ha. pose proof (filled_le _ _ _ Hf). unfold terminate. cbn [sb_buf sb_len].
  rewrite wr_in by lia. run. eexists. split; [done|]. by apply sb_rep_terminated.
Qed.

(** Shortening a buffer. *)
Lemma setlen_prefix sb l k : sb_rep sb (l ++ k) -> exists sb', strbuf_setlen sb (zlen l) = Ret sb' /\ sb_rep sb' l.
Proof.
  intros Hr. destruct (sb_rep_mem _ _ Hr) as [Hmem Hlt]. pose proof (sb_rep_filled _ _ Hr) as Hf. apply filled_prefix in Hf.
  destruct sb as [alloc n buf]. cbn [sb_alloc sb_buf] in *. pose proof Hr as (_ & _ & Hown).
  rewrite zlen_app in Hlt. pose proof (zlen_nonneg k). apply setlen_rep; [done|lia|exact Hown].
Qed.

(** ** Growing *)

(** After growing there is memory for [n] more bytes and the NUL. *)
Definition roomy sb l n : Prop :=
  sb_len sb = zlen l /\ filled (sb_buf sb) (sb_len sb) l /\ 0 < sb_alloc sb /\ zlen (sb_buf sb) = sb_alloc sb /\
  zlen l + n + 1 <= sb_alloc sb.

Lemma grow_ok sb l extra :
  filled (sb_buf sb) (sb_len sb) l -> (sb_alloc sb = 0 /\ l = [] \/ 0 < sb_alloc sb /\ zlen (sb_buf sb) = sb_alloc sb) ->
  0 <= extra -> zlen l + extra + 1 < 2 ^ 64 ->
  exists sb', strbuf_grow junk sb extra = Ret sb' /\ roomy sb' l extra /\
    ((exists rest, sb_buf sb = l ++ 0 :: rest) -> sb_rep sb' l).
Proof.
  intros Hf Ha Hextra Hsmall. pose proof (zlen_nonneg l). pose proof Hf as [Hlen _].
  unfold strbuf_grow. rewrite !unsigned_add_overflows_spec, u64_small, (proj2 (Z.leb_gt _ _)), (proj2 (Z.leb_gt _ _)) by lia.
  cbn [orb]. pose proof (alloc_grow_enough (sb_len sb + extra + 1) (sb_alloc sb)) as Hge.
  set (alloc := alloc_grow (sb_len sb + extra + 1) (sb_alloc sb)) in *.
  destruct Ha as [[Ha ->]|[Ha Hz]].
  - rewrite Ha. cbn [tru negb Z.eqb]. rewrite zlen_nil in *.
    rewrite wr_in by (rewrite zlen_realloc; lia). run. eexists. split; [done|]. cbn [sb_alloc sb_len sb_buf].
    assert (zlen (<[Z.to_nat 0 := 0]> (realloc junk (@nil Z) alloc)) = alloc) as Hz
      by (rewrite zlen_insert; apply zlen_realloc; lia).
    assert (exists rest, <[Z.to_nat 0 := 0]> (realloc junk (@nil Z) alloc) = [] ++ 0 :: rest) as [rest Hrest].
    { apply filled_terminate; [apply filled_nil|]. rewrite zlen_realloc; lia. }
    split.
    + split; [rewrite zlen_nil; cbn [sb_len]; lia|]. cbn [sb_buf sb_len sb_alloc]. rewrite zlen_nil, <-Hlen.
      split; [apply filled_nil|]. split; [lia|]. split; [done|lia].
    + intros _. split; [cbn [sb_len]; rewrite zlen_nil; lia|]. cbn [sb_buf sb_alloc]. split; [by exists rest|right; split; [lia|exact Hz]].
  - rewrite (proj2 (tru_true _)) by lia. cbn [negb]. run. eexists. split; [done|].
    assert (zlen (realloc junk (sb_buf sb) alloc) = alloc) as Hz' by (apply zlen_realloc; lia). split.
    + split; [cbn [sb_len]; lia|]. cbn [sb_buf sb_len sb_alloc].
      split; [apply filled_realloc; [done|lia]|]. split; [lia|]. split; [done|lia].
    + intros [rest Hrest]. split; [cbn [sb_len]; lia|]. cbn [sb_buf sb_alloc]. split; [|right; lia].
      assert (filled (realloc junk (sb_buf sb) alloc) (zlen l + 1) (l ++ [0])) as [_ [r ->]].
      { apply filled_realloc; [|lia]. split; [by rewrite zlen_app|]. exists rest. by rewrite Hrest, <-(assoc app). }
      exists r. by rewrite <-(assoc app).
Qed.

Lemma strbuf_grow_spec sb l extra :
  sb_rep sb l -> 0 <= extra -> zlen l + extra + 1 < 2 ^ 64 ->
  exists sb', strbuf_grow junk sb extra = Ret sb' /\ sb_rep sb' l /\ roomy sb' l extra.
Proof.
  intros Hr Hextra Hsmall. pose proof (sb_rep_filled _ _ Hr) as Hf. pose proof Hr as (_ & Hnul & Ha).
  destruct (grow_ok sb l extra Hf) as (sb' & -> & Hroom & Hrep); [|done|done|eauto].
  destruct Ha as [[Ha Hb]|Ha]; [left|by right]. split; [done|]. destruct Hnul as [r Hnul]. rewrite Hb in Hnul.
  destruct l as [|? l]; [done|]. exfalso. injection Hnul as _ Hnul. by destruct l.
Qed.

(** Writing [xs] at the end of a grown buffer and setting the length. *)
Lemma roomy_append sb l xs n :
  roomy sb l n -> zlen xs <= n ->
  exists buf sb', wr_range (sb_buf sb) (sb_len sb) xs = Ret buf /\
    strbuf_setlen (set_buf sb buf) (sb_len sb + zlen xs) = Ret sb' /\ sb_rep sb' (l ++ xs).
Proof.
  intros (Hlen & Hf & Ha & Hz & Hroom) Hxs.
  destruct (filled_wr_range _ _ _ xs Hf) as (buf & Hwr & Hbuf & Hf'); [lia|].
  destruct (setlen_rep (sb_alloc sb) (sb_len sb) buf _ _ Hf') as (sb' & Hs & Hrep); [lia|right; lia|].
  by exists buf, sb'.
Qed.

Lemma strbuf_add_spec sb l xs extra :
  sb_rep sb l -> zlen l + zlen xs + 1 < 2 ^ 64 ->
  exists sb', strbuf_add junk sb (xs ++ extra) (zlen xs) = Ret sb' /\ sb_rep sb' (l ++ xs).
Proof.
  intros Hr Hsmall. unfold strbuf_add. pose proof (zlen_nonneg xs).
  destruct (strbuf_grow_spec sb l (zlen xs) Hr) as (sb1 & -> & _ & Hroom); [lia|lia|]. run.
  destruct (at_pos_app _ _ _ _ (at_pos_0 (xs ++ extra))) as [-> _]. run.
  destruct (roomy_append sb1 l xs _ Hroom) as (buf & sb' & -> & Hs & Hrep); [lia|]. run. eauto.
Qed.

Lemma strbuf_addbuf_spec sb l sb2 xs :
  sb_rep sb l -> sb_rep sb2 xs -> zlen l + zlen xs + 1 < 2 ^ 64 ->
  exists sb', strbuf_addbuf junk sb sb2 = Ret sb' /\ sb_rep sb' (l ++ xs).
Proof.
  intros Hr (Hl2 & [rest Hb2] & _) Hsmall. unfold strbuf_addbuf. rewrite Hl2. pose proof (zlen_nonneg xs).
  destruct (strbuf_grow_spec sb l (zlen xs) Hr) as (sb1 & -> & _ & Hroom); [lia|lia|]. run.
  rewrite Hb2. destruct (at_pos_app _ _ _ _ (at_pos_0 (xs ++ 0 :: rest))) as [-> _]. run.
  destruct (roomy_append sb1 l xs _ Hroom) as (buf & sb' & -> & Hs & Hrep); [lia|]. run. eauto.
Qed.

Lemma strbuf_addchars_spec sb l c n :
  sb_rep sb l -> 0 <= n -> zlen l + n + 1 < 2 ^ 64 ->
  exists sb', strbuf_addchars junk sb c n = Ret sb' /\ sb_rep sb' (l ++ replicate (Z.to_nat n) (u8 c)).
Proof.
  intros Hr Hn Hsmall. unfold strbuf_addchars, fill_range.
  destruct (strbuf_grow_spec sb l n Hr) as (sb1 & -> & _ & Hroom); [lia|lia|]. run.
  assert (zlen (replicate (Z.to_nat n) (u8 c)) = n) as Hz by (rewrite zlen_replicate; lia).
  destruct (roomy_append sb1 l (replicate (Z.to_nat n) (u8 c)) _ Hroom) as (buf & sb' & -> & Hs & Hrep); [lia|].
  run. rewrite Hz in Hs. eauto.
Qed.

Lemma strbuf_addstrings_spec sb l s n :
  sb_rep sb l -> 0 <= n -> zlen l + zlen s * n + 1 < 2 ^ 64 ->
  exists sb', strbuf_addstrings junk sb s n = Ret sb' /\ sb_rep sb' (l ++ concat (replicate (Z.to_nat n) s)).
Proof.
  intros Hr Hn Hsmall. unfold strbuf_addstrings. pose proof (zlen_nonneg s). pose proof (zlen_nonneg l).
  rewrite (proj2 (Z.leb_gt _ _)) by lia.
  destruct (strbuf_grow_spec sb l (zlen s * n) Hr) as (sb1 & -> & Hr1 & _); [lia|lia|]. run.
  destruct (for_n_ret (fun i sb => sb_rep sb (l ++ concat (replicate (Z.to_nat i) s))) (Z.to_nat n) 0
    (fun _ sb => strbuf_add junk sb s (zlen s)) sb1) as (sb' & -> & Hrep).
  - intros i sb2 Hi Hr2.
    assert (zlen (concat (replicate (Z.to_nat i) s)) = zlen s * i) as Hz.
    { rewrite zlen_concat_replicate, Z2Nat.id by lia. done. }
    destruct (strbuf_add_spec sb2 _ s [] Hr2) as (sb3 & Hadd & Hr3).
    { rewrite zlen_app, Hz. assert (zlen s * (i + 1) <= zlen s * n) by (apply Z.mul_le_mono_nonneg_l; lia). lia. }
    rewrite app_nil_r in Hadd. exists sb3. split; [done|].
    replace (Z.to_nat (i + 1)) with (Z.to_nat i + 1)%nat by lia.
    rewrite replicate_add, concat_app. cbn [replicate concat]. rewrite app_nil_r, (assoc app). done.
  - by rewrite app_nil_r.
  - exists sb'. split; [done|]. by rewrite Z.add_0_l, Nat2Z.id in Hrep.
Qed.

(** ** Splicing *)

Definition splice_list l (pos len : Z) xs : list Z :=
  take (Z.to_nat pos) l ++ xs ++ drop (Z.to_nat (pos + len)) l.

Lemma strbuf_splice_spec sb l pos len xs extra :
  sb_rep sb l -> 0 <= pos -> 0 <= len -> zlen l + zlen xs + 1 < 2 ^ 64 ->
  if pos + len <=? zlen l
  then exists sb', strbuf_splice junk sb pos len (xs ++ extra) (zlen xs) = Ret sb' /\ sb_rep sb' (splice_list l pos len xs)
  else strbuf_splice junk sb pos len (xs ++ extra) (zlen xs) = Err Bug.
Proof.
  intros Hr Hpos Hlen Hsmall. pose proof (zlen_nonneg xs). pose proof (zlen_nonneg l).
  unfold strbuf_splice. rewrite unsigned_add_overflows_spec, (sb_rep_len _ _ Hr).
  destruct (Z.leb_spec (pos + len) (zlen l)) as [Hin|Hout].
  2:{ destruct (2 ^ 64 <=? pos + len); [done|]. destruct (pos >? zlen l); [done|].
      by rewrite (proj2 (Z.gtb_lt _ _)) by lia. }
  rewrite (proj2 (Z.leb_gt _ _)) by lia.
  replace (pos >? zlen l) with false by (symmetry; rewrite Z.gtb_ltb; apply Z.ltb_ge; lia).
  replace (pos + len >? zlen l) with false by (symmetry; rewrite Z.gtb_ltb; apply Z.ltb_ge; lia).
  (* the buffer to work in *)
  assert (exists sb1, (if zlen xs >=? len then strbuf_grow junk sb (zlen xs - len) else Ret sb) = Ret sb1 /\ sb_rep sb1 l /\
    zlen l + (zlen xs - len) < zlen (sb_buf sb1)) as (sb1 & -> & Hr1 & Hroom).
  { case_if.
    - destruct (strbuf_grow_spec sb l (zlen xs - len) Hr) as (sb1 & -> & Hr1 & (_ & _ & _ & Hz & Hroom)); [lia|lia|].
      exists sb1. split; [done|]. split; [done|lia].
    - exists sb. split; [done|]. split; [done|]. pose proof (sb_rep_mem _ _ Hr). lia. }
  run. rewrite (sb_rep_len _ _ Hr1).
  pose proof (sb_rep_mem _ _ Hr1) as [Hmem Hlt]. pose proof Hr1 as (_ & [rest Hbuf] & Hown).
  set (t := take (Z.to_nat pos) l). set (d := drop (Z.to_nat (pos + len)) l).
  assert (zlen t = pos /\ zlen d = zlen l - pos - len) as [Ht Hd].
  { unfold t, d, zlen in *. rewrite length_take, length_drop. lia. }
  assert (at_pos (sb_buf sb1) (pos + len) (d ++ 0 :: rest)) as Hat.
  { split; [rewrite Hbuf, zlen_app; pose proof (zlen_nonneg (0 :: rest)); lia|].
    rewrite Hbuf, drop_app_le; [done|]. unfold zlen in *. lia. }
  destruct (at_pos_app _ _ _ _ Hat) as [Hrd _]. rewrite Hd in Hrd. rewrite Hrd. run.
  rewrite wr_range_in by lia. run.
  destruct (at_pos_app _ _ _ _ (at_pos_0 (xs ++ extra))) as [-> _]. run.
  set (buf1 := take (Z.to_nat (pos + zlen xs)) (sb_buf sb1) ++ d ++ drop (Z.to_nat (pos + zlen xs + zlen d)) (sb_buf sb1)).
  assert (zlen buf1 = zlen (sb_buf sb1)) as Hb1.
  { unfold buf1, zlen in *. rewrite !length_app, length_take, length_drop. lia. }
  rewrite wr_range_in by lia. run.
  set (buf2 := take (Z.to_nat pos) buf1 ++ xs ++ drop (Z.to_nat (pos + zlen xs)) buf1).
  assert (zlen buf2 = zlen (sb_buf sb1)) as Hb2.
  { unfold buf2, zlen in *. rewrite !length_app, length_take, length_drop. lia. }
  assert (filled buf2 (zlen l + zlen xs - len) (splice_list l pos len xs)) as Hf.
  { unfold splice_list. fold t d. split; [rewrite !zlen_app; lia|].
    exists (drop (Z.to_nat (pos + zlen xs + zlen d)) (sb_buf sb1)). unfold buf2, buf1.
    rewrite take_app_le by (rewrite length_take; unfold zlen in *; lia).
    rewrite take_take, Nat.min_l by lia. rewrite Hbuf at 1. rewrite take_app_le by (unfold zlen in *; lia). fold t.
    rewrite drop_app_length' by (rewrite length_take; unfold zlen in *; lia). by rewrite <-!(assoc app). }
  apply (setlen_rep _ _ _ _ _ Hf); [lia|].
  destruct Hown as [[Ha Hb]|[Ha Hb]]; [|right; lia]. left. split; [done|]. rewrite Ha in *. change (Z.max 1 0) with 1 in *.
  assert (l = []) as Hnil by (apply length_zero_iff_nil; unfold zlen in Hlt; lia). subst l. change (zlen (@nil Z)) with 0 in *.
  assert (xs = []) as -> by (apply length_zero_iff_nil; unfold zlen in *; lia).
  assert (pos = 0) as -> by lia. assert (len = 0) as -> by lia. unfold buf2, buf1. rewrite Hb. done.
Qed.

(** ** Trimming *)

Lemma rtrim_loop p alloc buf l :
  filled buf (zlen l) l ->
  loop (S (Z.to_nat (zlen l))) (rtrim_step p) (Strbuf alloc (zlen l) buf) = Ret (Strbuf alloc (zlen (trim_end p l)) buf).
Proof.
  induction l as [|x l IH] using rev_ind; intros Hf; [done|].
  destruct (filled_last _ _ _ _ x Hf) as [Hrd _]. rewrite trim_end_snoc.
  rewrite zlen_app, zlen_cons, zlen_nil in *. pose proof (zlen_nonneg l).
  assert (rtrim_step p (Strbuf alloc (zlen l + (1 + 0)) buf) =
    if p x then Ret (inl (Strbuf alloc (zlen l) buf)) else Ret (inr (Strbuf alloc (zlen l + (1 + 0)) buf))) as Hstep.
  { unfold rtrim_step. cbn [sb_len sb_buf]. rewrite (proj2 (Z.gtb_lt _ 0)) by lia. cbn [negb]. rewrite Hrd. run.
    destruct (p x); [|done]. unfold set_len. cbn [sb_alloc sb_buf]. do 3 f_equal. lia. }
  destruct (p x).
  - rewrite (loop_next _ _ _ _ Hstep). replace (Z.to_nat (zlen l + (1 + 0))) with (S (Z.to_nat (zlen l))) by lia.
    apply IH. by apply filled_prefix in Hf.
  - rewrite (loop_stop _ _ _ _ Hstep). by rewrite zlen_app, zlen_cons, zlen_nil.
Qed.

Lemma rtrim_spec p sb l :
  sb_rep sb l ->
  exists sb', (sb ← loop (S (Z.to_nat (sb_len sb))) (rtrim_step p) sb; terminate sb) = Ret sb' /\ sb_rep sb' (trim_end p l).
Proof.
  intros Hr. pose proof (sb_rep_filled _ _ Hr) as Hf. pose proof (sb_rep_mem _ _ Hr) as [Hmem Hlt].
  pose proof Hr as (Hlen & _ & Hown). rewrite Hlen in *. destruct sb as [alloc n buf]. cbn [sb_alloc sb_len sb_buf] in *.
  subst n. rewrite rtrim_loop by done. run. destruct (trim_end_prefix p l) as (k & Hk & _).
  rewrite Hk in Hf, Hlt. apply filled_prefix in Hf. rewrite zlen_app in Hlt. pose proof (zlen_nonneg k).
  apply terminate_rep; [done|lia|]. destruct Hown as [[? ?]|[? ?]]; [by left|by right].
Qed.

(** Without a newline at the end, and a carriage return before it. *)
Definition trim_newline l : list Z :=
  if bool_decide (last l = Some 10) then
    (if bool_decide (last (removelast l) = Some 13) then removelast (removelast l) else removelast l)
  else l.

Lemma last_case l : l = [] \/ exists k x, l = k ++ [x] /\ last l = Some x /\ removelast l = k.
Proof.
  destruct l as [|x k _] using rev_ind; [by left|right]. exists k, x. by rewrite last_snoc, removelast_last.
Qed.

Lemma strbuf_trim_trailing_newline_spec sb l :
  sb_rep sb l ->
  exists sb', strbuf_trim_trailing_newline sb = Ret sb' /\
    sb_rep sb' (trim_newline l).
Proof.
  intros Hr. unfold trim_newline. pose proof (sb_rep_filled _ _ Hr) as Hf. pose proof (sb_rep_mem _ _ Hr) as [Hmem Hlt].
  pose proof Hr as (Hlen & _ & Hown). unfold strbuf_trim_trailing_newline. rewrite Hlen in *.
  destruct (last_case l) as [->|(k & x & -> & Hlast & Hrem)].
  { cbn [zlen length]. exists sb. by rewrite bool_decide_false by done. }
  rewrite Hlast, Hrem. pose proof (zlen_nonneg k). rewrite zlen_app, zlen_cons, zlen_nil in *.
  rewrite (proj2 (Z.gtb_lt _ 0)) by lia. destruct (filled_last _ _ _ _ x Hf) as [-> _]. run.
  destruct (Z.eqb_spec x 10) as [->|Hne]; [|exists sb; by rewrite bool_decide_false by congruence].
  rewrite bool_decide_true by done. cbn [set_len sb_len sb_buf sb_alloc].
  apply filled_prefix in Hf. replace (zlen k + (1 + 0) - 1) with (zlen k) by lia.
  assert (forall m j, k = m ++ j -> exists sb', terminate (Strbuf (sb_alloc sb) (zlen m) (sb_buf sb)) = Ret sb' /\ sb_rep sb' m) as Hterm.
  { intros m j ->. rewrite zlen_app in *. pose proof (zlen_nonneg j). apply terminate_rep; [by apply filled_prefix in Hf|lia|].
    destruct Hown as [[? ?]|[? ?]]; [by left|by right]. }
  destruct (last_case k) as [->|(m & y & -> & Hlast2 & Hrem2)].
  { rewrite (bool_decide_false (last [] = Some 13)) by done. apply (Hterm [] []). done. }
  rewrite Hlast2, Hrem2. pose proof (zlen_nonneg m). rewrite zlen_app, zlen_cons, zlen_nil in *.
  rewrite (proj2 (Z.gtb_lt _ 0)) by lia. destruct (filled_last _ _ _ _ y Hf) as [-> _]. run.
  destruct (Z.eqb_spec y 13) as [->|Hne].
  - rewrite bool_decide_true by done. replace (zlen m + (1 + 0) - 1) with (zlen m) by lia. by apply (Hterm m [13]).
  - rewrite bool_decide_false by congruence. destruct (Hterm (m ++ [y]) []) as (sb' & Ht & Hr'); [by rewrite app_nil_r|].
    rewrite zlen_app, zlen_cons, zlen_nil in Ht. eauto.
Qed.

Lemma ltrim_loop alloc buf rest : forall l b,
  at_pos buf b (l ++ rest) ->
  exists b', loop (S (Z.to_nat (zlen l))) ltrim_step (Strbuf alloc (zlen l) buf, b) =
      Ret (Strbuf alloc (zlen (drop_while isspace l)) buf, b') /\ at_pos buf b' (drop_while isspace l ++ rest).
Proof.
  induction l as [|x l IH]; intros b Hat; [by exists b|]. cbn [drop_while]. pose proof (zlen_nonneg l).
  destruct (at_pos_cons _ _ _ _ Hat) as [Hrd Hat'].
  assert (ltrim_step (Strbuf alloc (zlen (x :: l)) buf, b) =
    if isspace x then Ret (inl (Strbuf alloc (zlen l) buf, b + 1)) else Ret (inr (Strbuf alloc (zlen (x :: l)) buf, b))) as Hstep.
  { unfold ltrim_step. cbn [sb_len sb_buf]. rewrite (proj2 (Z.gtb_lt _ 0)) by (rewrite zlen_cons; lia). cbn [negb].
    rewrite Hrd. run. destruct (isspace x); [|done]. unfold set_len. cbn [sb_alloc sb_len sb_buf].
    rewrite zlen_cons. do 4 f_equal. lia. }
  destruct (isspace x).
  - rewrite (loop_next _ _ _ _ Hstep). rewrite zlen_cons. replace (Z.to_nat (1 + zlen l)) with (S (Z.to_nat (zlen l))) by lia.
    by apply IH.
  - rewrite (loop_stop _ _ _ _ Hstep). by exists b.
Qed.

Lemma strbuf_ltrim_spec sb l :
  sb_rep sb l -> exists sb', strbuf_ltrim sb = Ret sb' /\ sb_rep sb' (drop_while isspace l).
Proof.
  intros Hr. pose proof (sb_rep_mem _ _ Hr) as [Hmem Hlt]. pose proof Hr as (Hlen & [rest Hbuf] & Hown).
  destruct sb as [alloc n buf]. cbn [sb_alloc sb_len sb_buf] in *. subst n.
  destruct Hown as [[-> ->]|Hown].
  { destruct l as [|x l]; [|exfalso; injection Hbuf as _ Hbuf; by destruct l]. by exists (Strbuf 0 0 [0]). }
  unfold strbuf_ltrim. cbn [sb_len sb_buf].
  assert (at_pos buf 0 (l ++ 0 :: rest)) as Hat by (rewrite <-Hbuf; apply at_pos_0).
  destruct (ltrim_loop alloc buf (0 :: rest) l 0 Hat) as (b & -> & Hat'). run. cbn [sb_buf sb_len].
  destruct (at_pos_app _ _ _ _ Hat') as [-> _]. run. destruct (drop_while_suffix isspace l) as (k & Hk & _).
  rewrite Hk, zlen_app in Hlt. pose proof (zlen_nonneg k).
  destruct (filled_wr_range buf 0 [] (drop_while isspace l)) as (buf' & -> & Hz & Hf); [apply filled_nil|lia|]. run.
  unfold set_buf. cbn [sb_alloc sb_len]. rewrite Z.add_0_l, app_nil_l in Hf. apply terminate_rep; [exact Hf|lia|right; lia].
Qed.

(** ** The other operations *)

Lemma strbuf_tolower_spec sb l :
  sb_rep sb l -> exists sb', strbuf_tolower sb = Ret sb' /\ sb_rep sb' (tolower <$> l).
Proof.
  intros (Hlen & [rest Hbuf] & Hown). unfold strbuf_tolower. rewrite Hlen.
  destruct (for_n_ret (fun i buf => buf = (tolower <$> take (Z.to_nat i) l) ++ drop (Z.to_nat i) l ++ 0 :: rest) (Z.to_nat (zlen l)) 0
    (fun p buf => c ← rd buf p; wr buf p (tolower c)) (sb_buf sb)) as (buf & -> & Hb).
  - intros i buf Hi ->. destruct (rd_in l i) as [c Hc]; [lia|]. apply rd_Ret in Hc as [_ Hc].
    rewrite (drop_S _ _ _ Hc). cbn [app].
    assert (zlen (tolower <$> take (Z.to_nat i) l) = i) as Hz.
    { unfold zlen in *. rewrite length_fmap, length_take. lia. }
    pose proof (at_pos_pre (tolower <$> take (Z.to_nat i) l) (c :: drop (S (Z.to_nat i)) l ++ 0 :: rest)) as Hat.
    rewrite Hz in Hat. destruct (at_pos_cons _ _ _ _ Hat) as [-> _]. run.
    rewrite wr_in. 2:{ pose proof (at_pos_len _ _ _ Hat) as Hl. rewrite zlen_cons in Hl.
      match type of Hl with context [1 + zlen ?k] => pose proof (zlen_nonneg k) end. lia. }
    eexists. split; [done|]. replace (Z.to_nat (i + 1)) with (S (Z.to_nat i)) by lia.
    rewrite (take_S_r _ _ _ Hc), fmap_app. cbn [fmap list_fmap]. rewrite <-(assoc app). cbn [app].
    rewrite insert_app_r_alt by (rewrite length_fmap, length_take; lia).
    rewrite length_fmap, length_take, Nat.min_l by (unfold zlen in Hi; lia). by rewrite Nat.sub_diag.
  - by rewrite take_0, drop_0.
  - run. eexists. split; [done|]. rewrite Z.add_0_l, Nat2Z.id in Hb. unfold zlen in Hb.
    rewrite Nat2Z.id, take_ge, drop_ge in Hb by lia. cbn [app] in Hb.
    split; [unfold zlen; rewrite length_fmap; exact Hlen|]. split; [by exists rest|].
    assert (zlen buf = zlen (sb_buf sb)) as Hz.
    { rewrite Hb, Hbuf, !zlen_app. unfold zlen. rewrite length_fmap. done. }
    destruct Hown as [[Ha Hs]|[Ha Hs]]; [left|right; cbn [set_buf sb_alloc sb_buf]; lia]. split; [done|].
    cbn [set_buf sb_buf]. rewrite Hs in Hbuf. destruct l as [|? l]; [|exfalso; injection Hbuf as _ Hbuf; by destruct l].
    rewrite Hb. by injection Hbuf as <-.
Qed.

Lemma strbuf_cmp_spec a b l k :
  sb_rep a l -> sb_rep b k -> exists c, strbuf_cmp a b = Ret c /\ Z.sgn c = Z.sgn (bytes_cmp l k).
Proof.
  intros (Ha & [ra Hra] & _) (Hb & [rb Hrb] & _). unfold strbuf_cmp. rewrite Ha, Hb, Hra, Hrb.
  pose proof (zlen_nonneg l). pose proof (zlen_nonneg k).
  set (n := if zlen l <? zlen k then zlen l else zlen k).
  assert (n = Z.min (zlen l) (zlen k)) as Hn by (unfold n; case_if; lia). clearbody n.
  rewrite !rd_range_in by (rewrite ?zlen_app, ?zlen_cons; pose proof (zlen_nonneg ra); pose proof (zlen_nonneg rb); lia).
  run. unfold slice. rewrite !drop_0, !take_app_le by (unfold zlen in *; lia).
  exists (if tru (bytes_cmp (take (Z.to_nat n) l) (take (Z.to_nat n) k)) then bytes_cmp (take (Z.to_nat n) l) (take (Z.to_nat n) k)
    else if zlen l <? zlen k then -1 else Z.b2z (negb (zlen l =? zlen k))).
  split; [by case_if|]. clear -Hn.
  assert (forall l k m, m = Z.to_nat (Z.min (zlen l) (zlen k)) ->
    Z.sgn (if tru (bytes_cmp (take m l) (take m k)) then bytes_cmp (take m l) (take m k)
      else if zlen l <? zlen k then -1 else Z.b2z (negb (zlen l =? zlen k))) = Z.sgn (bytes_cmp l k)) as Hmain.
  { clear. intros l'. induction l' as [|x l' IH]; intros [|y k] m Hm.
    - by rewrite Hm.
    - pose proof (zlen_nonneg k). rewrite zlen_nil, zlen_cons, Z.min_l in Hm by lia. subst m. cbn [Z.to_nat take bytes_cmp].
      change (tru 0) with false. cbv iota. rewrite zlen_nil, zlen_cons. by rewrite (proj2 (Z.ltb_lt _ _)) by lia.
    - pose proof (zlen_nonneg l'). rewrite zlen_nil, zlen_cons, Z.min_r in Hm by lia. subst m. cbn [Z.to_nat take bytes_cmp].
      change (tru 0) with false. cbv iota. rewrite zlen_nil, zlen_cons.
      rewrite (proj2 (Z.ltb_ge _ _)), (proj2 (Z.eqb_neq _ _)) by lia. done.
    - pose proof (zlen_nonneg l'). pose proof (zlen_nonneg k). rewrite !zlen_cons in Hm.
      assert (m = S (Z.to_nat (Z.min (zlen l') (zlen k)))) as -> by lia. cbn [take bytes_cmp].
      destruct (Z.eqb_spec x y) as [->|Hne].
      + rewrite <-(IH k _ eq_refl). rewrite !zlen_cons.
        replace (1 + zlen l' <? 1 + zlen k) with (zlen l' <? zlen k) by (destruct (Z.ltb_spec (zlen l') (zlen k)), (Z.ltb_spec (1 + zlen l') (1 + zlen k)); lia || done).
        by replace (1 + zlen l' =? 1 + zlen k) with (zlen l' =? zlen k) by (destruct (Z.eqb_spec (zlen l') (zlen k)), (Z.eqb_spec (1 + zlen l') (1 + zlen k)); lia || done).
      + by rewrite (proj2 (tru_true (x - y))) by lia. }
  apply Hmain. by rewrite Hn.
Qed.

Lemma strbuf_init_spec hint :
  0 <= hint -> hint + 1 < 2 ^ 64 -> exists sb, strbuf_init junk hint = Ret sb /\ sb_rep sb [].
Proof.
  intros Hh Hs. unfold strbuf_init. case_if; [|exists STRBUF_INIT; split; [done|apply sb_rep_init]].
  destruct (strbuf_grow_spec STRBUF_INIT [] hint sb_rep_init) as (sb & Hg & Hr & _); [done|rewrite zlen_nil; lia|eauto].
Qed.

Lemma strbuf_release_spec sb l : sb_rep sb l -> exists sb', strbuf_release junk sb = Ret sb' /\
  sb_rep sb' [].
Proof.
  intros (Hlen & [rest Hbuf] & Hown). unfold strbuf_release. case_if.
  - exists STRBUF_INIT. split; [done|apply sb_rep_init].
  - exists sb. split; [done|]. destruct Hown as [[Ha Hb]|[Ha _]]; [|lia].
    rewrite Hb in Hbuf. destruct l as [|? l]; [|exfalso; injection Hbuf as _ Hbuf; by destruct l].
    split; [done|]. split; [exists []; done|by left].
Qed.

Lemma strbuf_detach_spec sb l :
  sb_rep sb l -> zlen l + 1 < 2 ^ 64 ->
  exists res sb', strbuf_detach junk sb = Ret (res, zlen l, sb') /\ (exists rest, res = l ++ 0 :: rest) /\ sb_rep sb' [].
Proof.
  intros Hr Hsmall. unfold strbuf_detach.
  destruct (strbuf_grow_spec sb l 0 Hr) as (sb1 & -> & (Hl1 & Hb1 & _) & _); [done|lia|]. run.
  exists (sb_buf sb1), STRBUF_INIT. rewrite Hl1. split; [done|]. split; [done|apply sb_rep_init].
Qed.

Lemma strbuf_attach_spec sb l k rest :
  sb_rep sb l -> 0 < zlen (k ++ rest) -> zlen k + 1 < 2 ^ 64 ->
  exists sb', strbuf_attach junk sb (k ++ rest) (zlen k) (zlen (k ++ rest)) = Ret sb' /\ sb_rep sb' k.
Proof.
  intros Hr Hpos Hsmall. unfold strbuf_attach.
  destruct (strbuf_release_spec sb l Hr) as (sb1 & -> & _). run.
  destruct (grow_ok (Strbuf (zlen (k ++ rest)) (zlen k) (k ++ rest)) k 0) as (sb2 & -> & (Hl & Hf & Ha & Hz & Hroom) & _).
  - split; [done|by exists rest].
  - right. done.
  - done.
  - lia.
  - run. destruct sb2 as [alloc n buf]. cbn [sb_alloc sb_len sb_buf] in *. subst n.
    apply terminate_rep; [done|lia|right; lia].
Qed.

(** Strings joined with a delimiter. *)
Fixpoint join_list (delim : Z) (ss : list (list Z)) : list Z :=
  match ss with
  | [] => []
  | [s] => s
  | s :: ss => s ++ [delim] ++ join_list delim ss
  end.

Lemma join_list_snoc delim ss s :
  ss <> [] -> join_list delim (ss ++ [s]) = join_list delim ss ++ [delim] ++ s.
Proof.
  intros Hne. induction ss as [|x [|y ss] IH]; [done|done|].
  change (join_list delim ((x :: y :: ss) ++ [s])) with (x ++ [delim] ++ join_list delim ((y :: ss) ++ [s])).
  rewrite IH by done. change (join_list delim (x :: y :: ss)) with (x ++ [delim] ++ join_list delim (y :: ss)).
  by rewrite <-!(assoc app).
Qed.

Lemma strbuf_join_argv_spec sb l argv delim :
  sb_rep sb l -> is_byte delim -> zlen l + zlen (join_list delim argv) + 2 < 2 ^ 64 ->
  exists sb', strbuf_join_argv sb (zlen argv) argv delim = Ret sb' /\ sb_rep sb' (l ++ join_list delim argv).
Proof.
  intros Hr Hdelim Hsmall. unfold strbuf_join_argv. destruct argv as [|s argv].
  { exists sb. split; [done|]. by rewrite app_nil_r. }
  pose proof (zlen_nonneg argv) as Hpos. rewrite zlen_cons. rewrite (proj2 (tru_true _)) by lia. cbn [negb].
  change (rd (s :: argv) 0) with (Ret s). run.
  assert (forall n, (S n <= length (s :: argv))%nat -> exists k, join_list delim (s :: argv) = join_list delim (take (S n) (s :: argv)) ++ k) as Hprefix.
  { intros n Hn. destruct (decide (S n = length (s :: argv))) as [->|Hne]; [rewrite firstn_all; exists []; by rewrite app_nil_r|].
    remember (s :: argv) as all eqn:Hall. clear Hall Hsmall. revert n Hn Hne. induction all as [|x all IH]; intros n Hn Hne; [simpl in Hn; lia|].
    destruct all as [|y all]; [simpl in *; lia|]. destruct n as [|n]; [by exists ([delim] ++ join_list delim (y :: all))|].
    destruct (IH n) as [k Hk]; [simpl in *; lia..|]. exists k.
    change (join_list delim (x :: y :: all)) with (x ++ [delim] ++ join_list delim (y :: all)). rewrite Hk.
    change (take (S (S n)) (x :: y :: all)) with (x :: take (S n) (y :: all)).
    change (take (S n) (y :: all)) with (y :: take n all).
    change (join_list delim (x :: y :: take n all)) with (x ++ [delim] ++ join_list delim (y :: take n all)).
    by rewrite <-!(assoc app). }
  assert (forall n, (S n <= length (s :: argv))%nat ->
    zlen (join_list delim (take (S n) (s :: argv))) <= zlen (join_list delim (s :: argv))) as Hle.
  { intros n Hn. destruct (Hprefix n Hn) as [k ->]. rewrite zlen_app. pose proof (zlen_nonneg k). lia. }
  destruct (strbuf_addstr_spec sb l s Hr) as (sb1 & -> & Hr1).
  { pose proof (Hle 0%nat ltac:(simpl; lia)) as H0le. change (join_list delim (take 1 (s :: argv))) with s in H0le. lia. }
  run.
  destruct (for_n_ret (fun i sb => sb_rep sb (l ++ join_list delim (take (Z.to_nat i) (s :: argv)))) (Z.to_nat (1 + zlen argv - 1)) 1
    (fun i sb => sb ← strbuf_addch sb delim; s ← rd (s :: argv) i; strbuf_addstr sb s) sb1) as (sb' & -> & Hrep).
  - intros i sb2 Hi Hr2. destruct (rd_in (s :: argv) i) as [x Hx]; [rewrite zlen_cons; lia|].
    pose proof (proj1 (rd_Ret _ _ _) Hx) as [_ Hlk].
    assert (join_list delim (take (Z.to_nat (i + 1)) (s :: argv)) = join_list delim (take (Z.to_nat i) (s :: argv)) ++ [delim] ++ x) as Hnext.
    { replace (Z.to_nat (i + 1)) with (S (Z.to_nat i)) by lia. rewrite (take_S_r _ _ _ Hlk). apply join_list_snoc.
      replace (Z.to_nat i) with (S (Z.to_nat (i - 1))) by lia. done. }
    pose proof (Hle (Z.to_nat i)) as Hlei. replace (S (Z.to_nat i)) with (Z.to_nat (i + 1)) in Hlei by lia.
    rewrite Hnext in Hlei. rewrite !zlen_app, zlen_cons, zlen_nil in Hlei.
    specialize (Hlei ltac:(apply lookup_lt_Some in Hlk; lia)).
    pose proof (zlen_nonneg x). pose proof (zlen_nonneg (join_list delim (take (Z.to_nat i) (s :: argv)))).
    destruct (strbuf_addch_spec sb2 _ delim Hr2) as (sb3 & -> & Hr3); [rewrite zlen_app; lia|]. run.
    rewrite Hx. run. rewrite u8_small in Hr3 by done.
    destruct (strbuf_addstr_spec sb3 _ x Hr3) as (sb4 & -> & Hr4); [rewrite !zlen_app, zlen_cons, zlen_nil; lia|].
    exists sb4. split; [done|]. rewrite Hnext, (assoc app), (assoc app). exact Hr4.
  - done.
  - exists sb'. split; [done|]. rewrite Z2Nat.id in Hrep by lia.
    replace (1 + (1 + zlen argv - 1)) with (zlen (s :: argv)) in Hrep by (rewrite zlen_cons; lia).
    unfold zlen in Hrep. by rewrite Nat2Z.id, firstn_all in Hrep.
Qed.
End proofs.

(** * Refinement *)

(** The operations, and what they do to a list of bytes. *)
Inductive sb_op :=
| Grow (extra : Z)
| Add (data : list Z)
| Addbuf (data : list Z)                  (* of a buffer with that content *)
| Addchars (c n : Z)
| Addstrings (s : list Z) (n : Z)
| Join (argv : list (list Z)) (delim : Z)
| Splice (pos len : Z) (data : list Z)
| Insert (pos : Z) (data : list Z)
| Remove (pos len : Z)
| Rtrim | Ltrim | Trim | TrimNewline | TrimDirSep
| Tolower
| Release
| Attach (k rest : list Z).               (* memory [k ++ rest], of which [k] is used *)

Section refinement.
Context `{GitCompatOk} `{StrbufHeaderOk} `{Ctype}.
Context (junk : Z).

Definition strbuf_op (op : sb_op) (sb : strbuf) : outcome strbuf :=
  match op with
  | Grow extra => strbuf_grow junk sb extra
  | Add data => strbuf_add junk sb data (zlen data)
  | Addbuf data => sb2 ← strbuf_add junk STRBUF_INIT data (zlen data); strbuf_addbuf junk sb sb2
  | Addchars c n => strbuf_addchars junk sb c n
  | Addstrings s n => strbuf_addstrings junk sb s n
  | Join argv delim => strbuf_join_argv sb (zlen argv) argv delim
  | Splice pos len data => strbuf_splice junk sb pos len data (zlen data)
  | Insert pos data => strbuf_insert junk sb pos data (zlen data)
  | Remove pos len => strbuf_remove junk sb pos len
  | Rtrim => strbuf_rtrim sb
  | Ltrim => strbuf_ltrim sb
  | Trim => strbuf_trim sb
  | TrimNewline => strbuf_trim_trailing_newline sb
  | TrimDirSep => strbuf_trim_trailing_dir_sep sb
  | Tolower => strbuf_tolower sb
  | Release => strbuf_release junk sb
  | Attach k rest => strbuf_attach junk sb (k ++ rest) (zlen k) (zlen (k ++ rest))
  end.

Definition splice_or_die (pos len : Z) (data l : list Z) : outcome (list Z) :=
  if pos + len <=? zlen l then Ret (splice_list l pos len data) else Err Bug.

Definition list_op (op : sb_op) (l : list Z) : outcome (list Z) :=
  match op with
  | Grow _ => Ret l
  | Add data | Addbuf data => Ret (l ++ data)
  | Addchars c n => Ret (l ++ replicate (Z.to_nat n) (u8 c))
  | Addstrings s n => Ret (l ++ concat (replicate (Z.to_nat n) s))
  | Join argv delim => Ret (l ++ join_list delim argv)
  | Splice pos len data => splice_or_die pos len data l
  | Insert pos data => splice_or_die pos 0 data l
  | Remove pos len => splice_or_die pos len [] l
  | Rtrim => Ret (trim_end isspace l)
  | Ltrim => Ret (drop_while isspace l)
  | Trim => Ret (drop_while isspace (trim_end isspace l))
  | TrimNewline => Ret (trim_newline l)
  | TrimDirSep => Ret (trim_end is_dir_sep l)
  | Tolower => Ret (tolower <$> l)
  | Release => Ret []
  | Attach k _ => Ret k
  end.

(** Arguments are sizes and offsets; what an operation may add to the length. *)
Definition op_ok (op : sb_op) : Prop :=
  match op with
  | Grow n | Addchars _ n | Addstrings _ n => 0 <= n
  | Join _ delim => is_byte delim
  | Splice pos len _ | Remove pos len => 0 <= pos /\ 0 <= len
  | Insert pos _ => 0 <= pos
  | Attach k rest => 0 < zlen (k ++ rest)
  | _ => True
  end.

Definition op_cost (op : sb_op) : Z :=
  match op with
  | Grow n | Addchars _ n => n
  | Add data | Addbuf data | Splice _ _ data | Insert _ data | Attach data _ => zlen data
  | Addstrings s n => zlen s * n
  | Join argv delim => zlen (join_list delim argv)
  | _ => 0
  end.

(** Both fail alike or return related results. *)
Definition outcome_rel {X Y} (R : X -> Y -> Prop) (x : outcome X) (y : outcome Y) : Prop :=
  match x, y with
  | Ret a, Ret b => R a b
  | Err e, Err e' => e = e'
  | _, _ => False
  end.

Lemma splice_or_die_spec sb l pos len data :
  sb_rep sb l -> 0 <= pos -> 0 <= len -> zlen l + zlen data + 1 < 2 ^ 64 ->
  outcome_rel sb_rep (strbuf_splice junk sb pos len data (zlen data)) (splice_or_die pos len data l).
Proof.
  intros Hr Hpos Hlen Hsmall. pose proof (strbuf_splice_spec junk sb l pos len data [] Hr Hpos Hlen Hsmall) as Hs.
  rewrite app_nil_r in Hs. unfold splice_or_die. case_if; [destruct Hs as (sb' & -> & ?)|rewrite Hs]; done.
Qed.

Lemma trim_le p (l : list Z) : zlen (trim_end p l) <= zlen l.
Proof. destruct (trim_end_prefix p l) as (k & Hk & _). rewrite Hk at 2. rewrite zlen_app. pose proof (zlen_nonneg k). lia. Qed.

Lemma drop_while_le p (l : list Z) : zlen (drop_while p l) <= zlen l.
Proof. destruct (drop_while_suffix p l) as (k & Hk & _). rewrite Hk at 2. rewrite zlen_app. pose proof (zlen_nonneg k). lia. Qed.

Lemma removelast_le (l : list Z) : zlen (removelast l) <= zlen l.
Proof. destruct (last_case l) as [->|(k & x & -> & _ & ->)]; [done|]. rewrite zlen_app. pose proof (zlen_nonneg [x]). lia. Qed.

Lemma list_op_len op l l' : op_ok op -> list_op op l = Ret l' -> zlen l' <= zlen l + op_cost op.
Proof.
  assert (forall pos len data, splice_or_die pos len data l = Ret l' -> zlen l' <= zlen l + zlen data \/ pos < 0 \/ len < 0) as Hsplice.
  { intros pos len data. unfold splice_or_die. case_if; [|done]. intros [= <-]. unfold splice_list, zlen in *.
    rewrite !length_app, length_take, length_drop. lia. }
  pose proof (zlen_nonneg l). destruct op; cbn [op_ok list_op op_cost]; intros Hok Hop;
    try (injection Hop as <-; rewrite ?zlen_app, ?zlen_replicate, ?zlen_nil; lia).
  - injection Hop as <-. rewrite zlen_app, zlen_concat_replicate, Z2Nat.id by lia. lia.
  - apply Hsplice in Hop. lia.
  - apply Hsplice in Hop. lia.
  - apply Hsplice in Hop. change (zlen (@nil Z)) with 0 in Hop. lia.
  - injection Hop as <-. pose proof (trim_le isspace l). lia.
  - injection Hop as <-. pose proof (drop_while_le isspace l). lia.
  - injection Hop as <-. pose proof (trim_le isspace l). pose proof (drop_while_le isspace (trim_end isspace l)). lia.
  - injection Hop as <-. unfold trim_newline. pose proof (removelast_le l). pose proof (removelast_le (removelast l)). repeat case_bool_decide; lia.
  - injection Hop as <-. pose proof (trim_le is_dir_sep l). lia.
  - injection Hop as <-. unfold zlen. rewrite length_fmap. lia.
Qed.

Lemma strbuf_op_spec op sb l :
  sb_rep sb l -> op_ok op -> zlen l + op_cost op + 2 < 2 ^ 64 ->
  outcome_rel sb_rep (strbuf_op op sb) (list_op op l).
Proof.
  pose proof (zlen_nonneg l).
  assert (forall (c : outcome strbuf) k, (exists sb', c = Ret sb' /\ sb_rep sb' k) -> outcome_rel sb_rep c (Ret k)) as Hret
    by (intros c k (sb' & -> & ?); done).
  intros Hr Hok Hcost. destruct op; cbn [op_ok op_cost strbuf_op list_op] in *.
  - apply Hret. destruct (strbuf_grow_spec junk sb l extra Hr) as (sb' & ? & ? & _); [done|lia|eauto].
  - apply Hret. destruct (strbuf_add_spec junk sb l data [] Hr) as (sb' & Ha & ?); [lia|]. rewrite app_nil_r in Ha. eauto.
  - apply Hret. destruct (strbuf_add_spec junk STRBUF_INIT [] data [] sb_rep_init) as (sb2 & Ha & Hr2); [rewrite zlen_nil; lia|].
    rewrite app_nil_r in Ha. rewrite Ha. run. apply strbuf_addbuf_spec; [done|done|lia].
  - apply Hret, strbuf_addchars_spec; [done|done|lia].
  - apply Hret, strbuf_addstrings_spec; [done|done|lia].
  - apply Hret, strbuf_join_argv_spec; [done|done|lia].
  - apply splice_or_die_spec; [done|lia|lia|lia].
  - apply splice_or_die_spec; [done|lia|lia|lia].
  - pose proof (strbuf_splice_spec junk sb l pos len [] [0] Hr) as Hs. rewrite zlen_nil in Hs. cbn [app] in Hs.
    specialize (Hs ltac:(lia) ltac:(lia) ltac:(lia)). unfold strbuf_remove, splice_or_die.
    case_if; [destruct Hs as (sb' & -> & ?)|rewrite Hs]; done.
  - apply Hret, rtrim_spec. done.
  - apply Hret, strbuf_ltrim_spec. done.
  - apply Hret. destruct (rtrim_spec isspace sb l Hr) as (sb1 & Ht & Hr1). unfold strbuf_trim, strbuf_rtrim. rewrite Ht. run.
    by apply strbuf_ltrim_spec.
  - apply Hret, strbuf_trim_trailing_newline_spec. done.
  - apply Hret, rtrim_spec. done.
  - apply Hret, strbuf_tolower_spec. done.
  - apply Hret, (strbuf_release_spec junk sb l). done.
  - apply Hret, (strbuf_attach_spec junk sb l); [done|done|lia].
Qed.

Lemma strbuf_ops_spec ops : forall sb l,
  sb_rep sb l -> Forall op_ok ops -> zlen l + foldr (fun op n => op_cost op + n) 0 ops + 2 < 2 ^ 64 ->
  outcome_rel sb_rep (foldl (fun c op => sb ← c; strbuf_op op sb) (Ret sb) ops)
    (foldl (fun c op => l ← c; list_op op l) (Ret l) ops).
Proof.
  induction ops as [|op ops IH]; intros sb l Hr Hok Hcost; [done|]. cbn [foldl foldr] in *. run.
  apply Forall_cons_iff in Hok as [Hop Hok].
  assert (forall op, op_ok op -> 0 <= op_cost op) as Hnn.
  { intros o Ho. destruct o; cbn [op_ok op_cost] in *; try lia; try apply zlen_nonneg.
    match goal with |- 0 <= zlen ?s * ?n => pose proof (zlen_nonneg s) end. lia. }
  assert (0 <= foldr (fun op n => op_cost op + n) 0 ops) as Hrest.
  { clear -Hok Hnn. induction Hok as [|o os Ho _ IH]; cbn [foldr]; [done|]. specialize (Hnn o Ho). lia. }
  pose proof (strbuf_op_spec op sb l Hr Hop ltac:(lia)) as Hrel.
  destruct (strbuf_op op sb) as [sb'|e|] eqn:E1, (list_op op l) as [l'|e'|] eqn:E2; try done.
  - pose proof (list_op_len op l l' Hop E2). apply IH; [done|done|lia].
  - cbn [outcome_rel] in Hrel. subst e'. clear. induction ops as [|o ops IH]; [done|]. exact IH.
Qed.
End refinement.

(** ** An implementation of strbuf.h *)

Definition strbuf_ref : StrbufHeader :=
  let setlen sb len :=
    if len <? Z.max 1 (sb_alloc sb)
    then Ret (Strbuf (sb_alloc sb) len (<[Z.to_nat len := 0]> (sb_buf sb))) else Err Bug in
  let avail sb := if tru (sb_alloc sb) then sb_alloc sb - sb_len sb - 1 else 0 in
  let append sb s :=
    sb ← @strbuf_grow compat_ref 0 sb (zlen s);
    buf ← wr_range (sb_buf sb) (sb_len sb) s;
    setlen (set_buf sb buf) (sb_len sb + zlen s) in
  {|
    strbuf_setlen := setlen;
    strbuf_avail := avail;
    strbuf_addch sb c := append sb [u8 c];
    strbuf_addstr := append;
    strbuf_complete sb c :=
      if bool_decide (take (Z.to_nat (sb_len sb)) (sb_buf sb) = [] \/ last (take (Z.to_nat (sb_len sb)) (sb_buf sb)) = Some (u8 c))
      then Ret sb else append sb [u8 c];
  |}.

Lemma strbuf_ref_append sb l s :
  sb_rep sb l -> zlen l + zlen s + 1 < 2 ^ 64 ->
  exists sb', (@strbuf_addstr strbuf_ref sb s) = Ret sb' /\ sb_rep sb' (l ++ s).
Proof.
  intros Hr Hs. cbn [strbuf_addstr strbuf_ref]. pose proof (zlen_nonneg s).
  destruct (@strbuf_grow_spec compat_ref compat_ref_ok 0 sb l (zlen s) Hr)
    as (sb1 & -> & _ & (Hlen & Hf & Ha & Hz & Hroom)); [lia|lia|]. run.
  destruct (filled_wr_range _ _ _ s Hf) as (buf & -> & Hbuf & Hf'); [lia|]. run. cbn [set_buf sb_alloc sb_buf].
  rewrite (proj2 (Z.ltb_lt _ _)) by lia. eexists. split; [done|]. apply sb_rep_terminated; [done|lia|right; lia].
Qed.

Lemma strbuf_ref_ok : @StrbufHeaderOk strbuf_ref.
Proof.
  split.
  - done.
  - done.
  - intros sb l c Hr Hs. apply (strbuf_ref_append sb l [u8 c] Hr). rewrite zlen_cons, zlen_nil. lia.
  - apply strbuf_ref_append.
  - intros sb l c Hr Hs. cbn [strbuf_complete strbuf_ref].
    rewrite (filled_take _ _ _ (sb_rep_filled _ _ Hr)). case_bool_decide; [eauto|].
    apply (strbuf_ref_append sb l [u8 c] Hr). rewrite zlen_cons, zlen_nil. lia.
Qed.

(** git's character classes. *)
Definition ctype_ref : Ctype := {|
  isspace c := bool_decide (c ∈ [9; 10; 13; 32]);
  isalnum c := (48 <=? c) && (c <=? 57) || (65 <=? c) && (c <=? 90) || (97 <=? c) && (c <=? 122);
  tolower c := if (65 <=? c) && (c <=? 90) then c + 32 else c;
  toupper c := if (97 <=? c) && (c <=? 122) then c - 32 else c;
  is_dir_sep c := c =? 47;
|}.

Lemma ctype_ref_ok : @CtypeOk ctype_ref.
Proof. done. Qed.

(** * Claims *)

(** [C16] String buffers refine lists of bytes: a sequence of operations on a
    fresh buffer -- growing, appending, splicing, joining, trimming, lower
    casing, releasing, attaching memory -- never touches memory outside the
    buffer, keeps it NUL-terminated within its allocation, and yields the bytes
    the same operations yield on a list; it dies exactly where the list
    operation does, on a splice beyond the end, as long as the sizes stay below
    2^64. *)
Theorem strbuf_refines_list `{GitCompatOk} `{StrbufHeaderOk} `{Ctype} (junk : Z) (ops : list sb_op) :
  Forall op_ok ops -> foldr (fun op n => op_cost op + n) 0 ops + 2 < 2 ^ 64 ->
  outcome_rel sb_rep
    (foldl (fun c op => sb ← c; strbuf_op junk op sb) (Ret STRBUF_INIT) ops)
    (foldl (fun c op => l ← c; list_op op l) (Ret []) ops).
Proof. intros Hok Hcost. apply strbuf_ops_spec; [apply sb_rep_init|done|exact Hcost]. Qed.

Lemma strbuf_refines_list_witness :
  let ops := [Add [32; 72; 105; 32]; Trim; Insert 1 [33; 33]; Remove 1 1; Addchars 98 3; Tolower; Join [[1]; [2]] 44] in
  Forall op_ok ops /\
  foldl (fun c op => l ← c; @list_op ctype_ref op l) (Ret []) ops = Ret [104; 33; 105; 98; 98; 98; 1; 44; 2] /\
  outcome_rel sb_rep
    (foldl (fun c op => sb ← c; @strbuf_op compat_ref strbuf_ref ctype_ref 7 op sb) (Ret STRBUF_INIT) ops)
    (foldl (fun c op => l ← c; @list_op ctype_ref op l) (Ret []) ops).
Proof.
  cbv zeta. split; [repeat constructor; simpl; unfold is_byte; lia|]. split; [vm_compute; reflexivity|].
  apply (@strbuf_refines_list compat_ref compat_ref_ok strbuf_ref strbuf_ref_ok ctype_ref 7);
    [repeat constructor; simpl; unfold is_byte; lia|evaluate].
Defined.
