(* ===== verification/StrbufText.v ===== *)
(** strbuf.c: the text functions built on the buffer -- prefixes, splitting into
    pieces, prefixed lines, quoting, URL encoding, cleaning up white space and
    reading lines from a stream. *)
From S2P Require Import Prelude Headers HexLl Strbuf.

(** What other headers provide. *)
Class TextHeader `{StrbufHeader} := {
  (** [strbuf_addf(sb, "%%%02x", c)] and with [%02X] *)
  addf_percent_hex : strbuf -> Z -> outcome strbuf;
  addf_percent_HEX : strbuf -> Z -> outcome strbuf;
  STRBUF_ENCODE_SLASH : Z;
}.

(** [%] and the two digits of a byte. *)
Definition percent_hex (upper : bool) (c : Z) : list Z :=
  37 :: hex_pair upper (u8 c).

Class TextHeaderOk `{TextHeader} : Prop := {
  addf_percent_hex_spec sb l c :
    sb_rep sb l -> zlen l + 4 < 2 ^ 64 ->
    exists sb', addf_percent_hex sb c = Ret sb' /\ sb_rep sb' (l ++ percent_hex false c);
  addf_percent_HEX_spec sb l c :
    sb_rep sb l -> zlen l + 4 < 2 ^ 64 ->
    exists sb', addf_percent_HEX sb c = Ret sb' /\ sb_rep sb' (l ++ percent_hex true c);
}.

(** * Model *)

Section model.
Context `{GitCompat} `{Hsb : StrbufHeader} `{Ctype} `{!TextHeader} `{HexHeader}.
Context (junk : Z).

(** [str] and [prefix] move together. *)
Fixpoint starts_with (str prefix : list Z) : bool :=
  match prefix with
  | [] => true
  | p :: prefix => if deref str =? p then starts_with (tail str) prefix else false
  end.

Fixpoint istarts_with (str prefix : list Z) : bool :=
  match prefix with
  | [] => true
  | p :: prefix => if tolower (deref str) =? tolower p then istarts_with (tail str) prefix else false
  end.

(** [str] has [len] bytes, which may be 0 too; reading on at [end] is checked. *)
Fixpoint starts_with_mem (str : list Z) (len : Z) (prefix : list Z) : outcome bool :=
  match prefix with
  | [] => Ret true
  | p :: prefix =>
      if len =? 0 then Ret false else
      c ← rd str 0;
      if negb (c =? p) then Ret false else starts_with_mem (tail str) (len - 1) prefix
  end.

(** Pieces that end with [terminator], at most [max] of them when that is
    positive.  A round of [while (slen)] on the pieces so far and the rest. *)
Definition split_step (terminator max : Z) (st : list strbuf * list Z * Z)
    : outcome ((list strbuf * list Z * Z) + list strbuf) :=
  let '(ret, str, slen) := st in
  if negb (tru slen) then Ret (inr ret) else
  let len := i32 slen in
  let len :=
    if (max <=? 0) || (zlen ret + 1 <? max) then
      match memchr str terminator slen with Some e => i32 (e + 1) | None => len end
    else len in
  t ← strbuf_init junk (u64 len);
  t ← strbuf_add junk t str (u64 len);
  Ret (inl (ret ++ [t], drop (Z.to_nat len) str, u64 (slen - len))).

Definition strbuf_split_buf (str : list Z) (slen terminator max : Z) : outcome (list strbuf) :=
  loop (S (Z.to_nat slen)) (split_step terminator max) ([], str, slen).

(** The strings of [slist]. *)
Fixpoint add_separated (sep_needed : bool) (str : strbuf) (sep : list Z) (items : list (list Z)) : outcome strbuf :=
  match items with
  | [] => Ret str
  | item :: items =>
      str ← (if sep_needed then strbuf_addstr str sep else Ret str);
      str ← strbuf_addstr str item;
      add_separated true str sep items
  end.

Definition strbuf_add_separated_string_list (str : strbuf) (sep : list Z) (slist : list (list Z)) : outcome strbuf :=
  add_separated false str sep slist.

(** One round of [while (size)]. *)
Definition add_lines_step (prefix : list Z) (space_after_prefix : bool) (st : strbuf * list Z * Z)
    : outcome ((strbuf * list Z * Z) + strbuf) :=
  let '(out, buf, size) := st in
  if negb (tru size) then Ret (inr out) else
  let next := match memchr buf 10 size with Some k => k + 1 | None => size end in
  out ← strbuf_addstr out prefix;
  c ← rd buf 0;
  out ← (if space_after_prefix && negb (c =? 10) && negb (c =? 9) then strbuf_addch out 32 else Ret out);
  out ← strbuf_add junk out buf next;
  Ret (inl (out, drop (Z.to_nat next) buf, size - next)).

Definition add_lines (out : strbuf) (prefix buf : list Z) (size : Z) (space_after_prefix : bool) : outcome strbuf :=
  out ← loop (S (Z.to_nat size)) (add_lines_step prefix space_after_prefix) (out, buf, size);
  strbuf_complete out 10.

Definition strbuf_add_commented_lines (out : strbuf) (buf : list Z) (size : Z) (comment_prefix : list Z) : outcome strbuf :=
  add_lines out comment_prefix buf size true.

Definition strbuf_add_lines (out : strbuf) (prefix buf : list Z) (size : Z) : outcome strbuf :=
  add_lines out prefix buf size false.

(** The text up to a percent sign; what follows it, or [None] for 0. *)
Definition strbuf_expand_step (sb : strbuf) (format : list Z) : outcome (strbuf * option (list Z)) :=
  let percent := match memchr format 37 (zlen format) with Some k => k | None => zlen format end in
  sb ← strbuf_add junk sb format percent;
  let rest := drop (Z.to_nat percent) format in
  Ret (sb, match rest with [] => None | _ :: rest => Some rest end).

Definition strbuf_expand_literal (sb : strbuf) (placeholder : list Z) : outcome (strbuf * Z) :=
  if deref placeholder =? 110 then
    sb ← strbuf_addch sb 10;
    Ret (sb, 1)
  else if deref placeholder =? 120 then
    let ch := hex2chr (tail placeholder) in
    if ch <? 0 then Ret (sb, 0) else
    sb ← strbuf_addch sb ch;
    Ret (sb, 3)
  else Ret (sb, 0).

(** The bytes of [src]. *)
Definition strbuf_addbuf_percentquote (dst src : strbuf) : outcome strbuf :=
  for_n (Z.to_nat (sb_len src)) 0
    (fun i dst =>
       c ← rd (sb_buf src) i;
       dst ← (if c =? 37 then strbuf_addch dst 37 else Ret dst);
       strbuf_addch dst c) dst.

(** The characters of the macro, the space first; [strchr] also finds the NUL. *)
Definition URL_UNSAFE_CHARS : list Z :=
  [32; 60; 62; 34; 37; 123; 125; 124; 92; 94; 96; 58; 63; 35; 91; 93; 64; 33; 36; 38; 39; 40; 41; 42; 43; 44; 59; 61].

Definition percent_encoded (flags ch : Z) : bool :=
  (ch <=? 0x1F) || (ch >=? 0x7F) || ((ch =? 47) && tru (Z.land flags STRBUF_ENCODE_SLASH)) ||
  bool_decide (ch ∈ URL_UNSAFE_CHARS ++ [0]).

Definition strbuf_add_percentencode (dst : strbuf) (src : list Z) (flags : Z) : outcome strbuf :=
  for_n (length src) 0
    (fun i dst =>
       ch ← rd src i;
       if percent_encoded flags ch then addf_percent_HEX dst ch else strbuf_addch dst ch) dst.

(** [allow_unencoded_fn] is given the [char]; here it takes the byte. *)
Definition strbuf_add_urlencode (sb : strbuf) (s : list Z) (len : Z) (allow_unencoded_fn : Z -> bool) : outcome strbuf :=
  sb ← strbuf_grow junk sb len;
  for_n (Z.to_nat len) 0
    (fun i sb =>
       ch ← rd s i;
       if allow_unencoded_fn ch then strbuf_addch sb ch else addf_percent_hex sb ch) sb.

Definition strbuf_addstr_urlencode (sb : strbuf) (s : list Z) (allow_unencoded_fn : Z -> bool) : outcome strbuf :=
  strbuf_add_urlencode sb s (zlen s) allow_unencoded_fn.

Definition xml_step (st : strbuf * list Z) : outcome ((strbuf * list Z) + strbuf) :=
  let '(buf, s) := st in
  if deref s =? 0 then Ret (inr buf) else
  let len := strcspn s [34; 60; 62; 38] in
  buf ← strbuf_add junk buf s len;
  let s := drop (Z.to_nat len) s in
  if deref s =? 34 then buf ← strbuf_addstr buf [38; 113; 117; 111; 116; 59]; Ret (inl (buf, tail s)) else
  if deref s =? 60 then buf ← strbuf_addstr buf [38; 108; 116; 59]; Ret (inl (buf, tail s)) else
  if deref s =? 62 then buf ← strbuf_addstr buf [38; 103; 116; 59]; Ret (inl (buf, tail s)) else
  if deref s =? 38 then buf ← strbuf_addstr buf [38; 97; 109; 112; 59]; Ret (inl (buf, tail s)) else
  if deref s =? 0 then Ret (inr buf) else
  Ret (inl (buf, tail s)).

Definition strbuf_addstr_xml_quoted (buf : strbuf) (s : list Z) : outcome strbuf :=
  loop (S (length s)) xml_step (buf, s).

(** [xmallocz] of [len] bytes is zeroed at the end only; every byte is written. *)
Definition xstrdup_map (f : Z -> Z) (string : list Z) : outcome (list Z) :=
  for_n (length string) 0 (fun i result => c ← rd string i; wr result i (f c)) (replicate (length string) junk ++ [0]).

Definition xstrdup_tolower (string : list Z) : outcome (list Z) := xstrdup_map tolower string.
Definition xstrdup_toupper (string : list Z) : outcome (list Z) := xstrdup_map toupper string.

(** ** White space *)

(** One round of [while (len)] of [cleanup]. *)
Definition cleanup_step (line : list Z) (len : Z) : outcome (Z + Z) :=
  if negb (tru len) then Ret (inr len) else
  c ← rd line (len - 1);
  if negb (isspace c) then Ret (inr len) else Ret (inl (len - 1)).

Definition cleanup (line : list Z) (len : Z) : outcome Z :=
  loop (S (Z.to_nat len)) (cleanup_step line) len.

(** One round of the loop: the buffer, [empties], [i] and [j]. *)
Definition stripspace_step (comment_prefix : option (list Z)) (st : strbuf * Z * Z * Z)
    : outcome ((strbuf * Z * Z * Z) + (strbuf * Z)) :=
  let '(sb, empties, i, j) := st in
  if negb (i <? sb_len sb) then Ret (inr (sb, j)) else
  rest ← rd_range (sb_buf sb) i (sb_len sb - i);
  let len := match memchr rest 10 (sb_len sb - i) with Some eol => eol + 1 | None => sb_len sb - i end in
  let comment := match comment_prefix with
                 | Some prefix => tru len && starts_with (drop (Z.to_nat i) (sb_buf sb)) prefix
                 | None => false
                 end in
  if comment then Ret (inl (sb, empties, i + len, j)) else
  newlen ← cleanup (drop (Z.to_nat i) (sb_buf sb)) len;
  if tru newlen then
    '(buf, j) ←
      (if (empties >? 0) && (j >? 0) then buf ← wr (sb_buf sb) j 10; Ret (buf, j + 1) else Ret (sb_buf sb, j));
    line ← rd_range buf i newlen;
    buf ← wr_range buf j line;
    buf ← wr buf (newlen + j) 10;
    Ret (inl (set_buf sb buf, 0, i + len, j + 1 + newlen))
  else Ret (inl (sb, empties + 1, i + len, j)).

Definition strbuf_stripspace (sb : strbuf) (comment_prefix : option (list Z)) : outcome strbuf :=
  sb ← strbuf_grow junk sb 1;
  '(sb, j) ← loop (S (Z.to_nat (sb_len sb))) (stripspace_step comment_prefix) (sb, 0, 0, 0);
  strbuf_setlen sb j.

(** ** Streams *)

(** A [FILE]: the bytes to come and the end-of-file indicator.  [getc] of none
    sets it and gives EOF. *)
Record stream := Stream { to_come : list Z; eof : bool }.

Definition getc (fp : stream) : option Z * stream :=
  match to_come fp with
  | [] => (None, Stream [] true)
  | c :: rest => (Some c, Stream rest (eof fp))
  end.

(** One round of [while ((ch = getc_unlocked(fp)) != EOF)]; left with the last
    character. *)
Definition getline_step (term : Z) (st : strbuf * stream) : outcome ((strbuf * stream) + (strbuf * stream * option Z)) :=
  let '(sb, fp) := st in
  let '(ch, fp) := getc fp in
  match ch with
  | None => Ret (inr (sb, fp, None))
  | Some c =>
      sb ← (if negb (tru (strbuf_avail sb)) then strbuf_grow junk sb 1 else Ret sb);
      buf ← wr (sb_buf sb) (sb_len sb) c;
      let sb := Strbuf (sb_alloc sb) (sb_len sb + 1) buf in
      if c =? term then Ret (inr (sb, fp, Some c)) else Ret (inl (sb, fp))
  end.

(** The buffer, the stream and whether a line was read (0) or not (EOF). *)
Definition strbuf_getwholeline (sb : strbuf) (fp : stream) (term : Z) : outcome (strbuf * stream * bool) :=
  if eof fp then Ret (sb, fp, false) else
  sb ← strbuf_setlen sb 0;
  '(sb, fp, ch) ← loop (S (S (length (to_come fp)))) (getline_step term) (sb, fp);
  match ch with
  | None => if sb_len sb =? 0 then Ret (sb, fp, false) else sb ← terminate sb; Ret (sb, fp, true)
  | Some _ => sb ← terminate sb; Ret (sb, fp, true)
  end.

Definition strbuf_appendwholeline (sb : strbuf) (fp : stream) (term : Z) : outcome (strbuf * stream * bool) :=
  '(line, fp, ok) ← strbuf_getwholeline STRBUF_INIT fp term;
  if negb ok then Ret (sb, fp, false) else
  sb ← strbuf_addbuf junk sb line;
  Ret (sb, fp, true).

Definition strbuf_getdelim (sb : strbuf) (fp : stream) (term : Z) : outcome (strbuf * stream * bool) :=
  '(sb, fp, ok) ← strbuf_getwholeline sb fp term;
  if negb ok then Ret (sb, fp, false) else
  c ← rd (sb_buf sb) (sb_len sb - 1);
  sb ← (if c =? term then strbuf_setlen sb (sb_len sb - 1) else Ret sb);
  Ret (sb, fp, true).

Definition strbuf_getdelim_strip_crlf (sb : strbuf) (fp : stream) (term : Z) : outcome (strbuf * stream * bool) :=
  '(sb, fp, ok) ← strbuf_getwholeline sb fp term;
  if negb ok then Ret (sb, fp, false) else
  c ← rd (sb_buf sb) (sb_len sb - 1);
  sb ←
    (if (term =? 10) && (c =? 10) then
       sb ← strbuf_setlen sb (sb_len sb - 1);
       if tru (sb_len sb) then
         c ← rd (sb_buf sb) (sb_len sb - 1);
         if c =? 13 then strbuf_setlen sb (sb_len sb - 1) else Ret sb
       else Ret sb
     else Ret sb);
  Ret (sb, fp, true).

Definition strbuf_getline (sb : strbuf) (fp : stream) := strbuf_getdelim_strip_crlf sb fp 10.
Definition strbuf_getline_lf (sb : strbuf) (fp : stream) := strbuf_getdelim sb fp 10.
Definition strbuf_getline_nul (sb : strbuf) (fp : stream) := strbuf_getdelim sb fp 0.
End model.

(** * Appending *)

Section proofs.
Context `{GitCompatOk} `{StrbufHeaderOk} `{Ctype} `{!TextHeader} `{!TextHeaderOk}.
Context (junk : Z).
Implicit Types (sb : strbuf) (l s : list Z).

(** A loop that appends [f c] for every byte [c] of [src]. *)
Lemma append_each (src : list Z) (f : Z -> list Z) (step : Z -> strbuf -> outcome strbuf) :
  (forall i c sb l, src !! i = Some c -> sb_rep sb l -> zlen l + zlen (f c) + 2 < 2 ^ 64 ->
     exists sb', step (Z.of_nat i) sb = Ret sb' /\ sb_rep sb' (l ++ f c)) ->
  forall dst l, sb_rep dst l -> zlen l + zlen (concat (f <$> src)) + 2 < 2 ^ 64 ->
  exists sb', for_n (length src) 0 step dst = Ret sb' /\ sb_rep sb' (l ++ concat (f <$> src)).
Proof.
  intros Hstep dst l Hr Hsmall.
  destruct (for_n_ret (fun i sb => sb_rep sb (l ++ concat (f <$> take (Z.to_nat i) src))) (length src) 0 step dst)
    as (sb' & -> & Hr').
  - intros i sb Hi Hsb. destruct (rd_in src i) as [c Hc]; [unfold zlen; lia|]. apply rd_Ret in Hc as [_ Hc].
    assert (concat (f <$> take (Z.to_nat (i + 1)) src) = concat (f <$> take (Z.to_nat i) src) ++ f c) as Hnext.
    { replace (Z.to_nat (i + 1)) with (S (Z.to_nat i)) by lia. rewrite (take_S_r _ _ _ Hc), fmap_app, concat_app.
      cbn [fmap list_fmap concat]. by rewrite app_nil_r. }
    assert (zlen (concat (f <$> take (Z.to_nat (i + 1)) src)) <= zlen (concat (f <$> src))) as Hle.
    { rewrite <-(take_drop (Z.to_nat (i + 1)) src) at 2. rewrite fmap_app, concat_app, zlen_app.
      pose proof (zlen_nonneg (concat (f <$> drop (Z.to_nat (i + 1)) src))). lia. }
    rewrite Hnext in Hle |- *. rewrite zlen_app in Hle.
    destruct (Hstep _ c sb _ Hc Hsb) as (sb' & Hs & Hr'); [rewrite zlen_app; lia|].
    rewrite Z2Nat.id in Hs by lia. exists sb'. split; [done|]. by rewrite (assoc app).
  - by rewrite app_nil_r.
  - exists sb'. split; [done|]. rewrite Z.add_0_l, Nat2Z.id, firstn_all in Hr'. done.
Qed.

(** ** Quoting *)

Definition quote_percent (c : Z) : list Z := if c =? 37 then [37; c] else [c].

Lemma strbuf_addbuf_percentquote_spec dst l src s :
  sb_rep dst l -> sb_rep src s -> is_bytes s -> zlen l + zlen (concat (quote_percent <$> s)) + 2 < 2 ^ 64 ->
  exists sb', strbuf_addbuf_percentquote dst src = Ret sb' /\ sb_rep sb' (l ++ concat (quote_percent <$> s)).
Proof.
  intros Hr (Hlen & [rest Hbuf] & _) Hs Hsmall. unfold strbuf_addbuf_percentquote. rewrite Hlen, Hbuf.
  unfold zlen at 1. rewrite Nat2Z.id. apply append_each; [|done|done].
  intros i c sb l' Hc Hr' Hsm. pose proof (is_bytes_lookup _ _ _ Hs Hc) as Hb.
  rewrite (rd_lookup (s ++ 0 :: rest) i c) by (rewrite lookup_app_l; [done|by apply lookup_lt_Some in Hc]). run.
  unfold quote_percent in *. destruct (Z.eqb_spec c 37) as [->|].
  - rewrite !zlen_cons, zlen_nil in Hsm.
    destruct (strbuf_addch_spec sb l' 37 Hr') as (sb1 & -> & Hr1); [lia|]. run.
    destruct (strbuf_addch_spec sb1 _ 37 Hr1) as (sb2 & -> & Hr2); [rewrite zlen_app, zlen_cons, zlen_nil; lia|].
    exists sb2. split; [done|]. by rewrite <-(assoc app) in Hr2.
  - run. rewrite zlen_cons, zlen_nil in Hsm. destruct (strbuf_addch_spec sb l' c Hr') as (sb1 & -> & Hr1); [lia|].
    rewrite u8_small in Hr1 by done. eauto.
Qed.

(** The text before a percent sign. *)
Lemma strbuf_expand_step_spec sb l pre rest :
  sb_rep sb l -> 37 ∉ pre -> zlen l + zlen pre + 1 < 2 ^ 64 ->
  (exists sb', strbuf_expand_step junk sb (pre ++ 37 :: rest) = Ret (sb', Some rest) /\ sb_rep sb' (l ++ pre)) /\
  (exists sb', strbuf_expand_step junk sb pre = Ret (sb', None) /\ sb_rep sb' (l ++ pre)).
Proof.
  intros Hr Hpre Hsmall. unfold strbuf_expand_step. split.
  - pose proof (memchr_split (pre ++ 37 :: rest) 37) as Hm.
    destruct (memchr (pre ++ 37 :: rest) 37 (zlen (pre ++ 37 :: rest))) as [k|].
    2:{ exfalso. apply Hm. apply elem_of_app. right. left. }
    destruct Hm as (a & b & Heq & -> & Ha).
    assert (a = pre /\ b = rest) as [-> ->].
    { clear -Heq Ha Hpre. revert a Heq Ha. induction pre as [|x pre IH]; intros [|y a] Heq Ha; simpl in Heq.
      - by injection Heq as ->.
      - injection Heq as <- _. exfalso. apply Ha. left.
      - injection Heq as -> _. exfalso. apply Hpre. left.
      - injection Heq as <- Heq. rewrite not_elem_of_cons in Hpre, Ha.
        destruct (IH (proj2 Hpre) a Heq (proj2 Ha)) as [-> ->]. done. }
    destruct (strbuf_add_spec junk sb l pre (37 :: rest) Hr) as (sb' & -> & Hr'); [lia|]. run.
    exists sb'. unfold zlen. by rewrite Nat2Z.id, drop_app_length.
  - pose proof (memchr_split pre 37) as Hm. destruct (memchr pre 37 (zlen pre)) as [k|].
    { exfalso. destruct Hm as (a & b & -> & _). apply Hpre. apply elem_of_app. right. left. }
    destruct (strbuf_add_spec junk sb l pre [] Hr) as (sb' & Hadd & Hr'); [lia|]. rewrite app_nil_r in Hadd. rewrite Hadd. run.
    exists sb'. unfold zlen. by rewrite Nat2Z.id, drop_all.
Qed.

(** Expanding quoted text, where a percent sign may only be followed by another,
    gives the text back. *)
Fixpoint expand_quoted (fuel : nat) (sb : strbuf) (format : list Z) : outcome strbuf :=
  match fuel with
  | O => Undef
  | S fuel =>
      '(sb, rest) ← strbuf_expand_step junk sb format;
      match rest with
      | None => Ret sb
      | Some rest => if deref rest =? 37 then sb ← strbuf_addch sb 37; expand_quoted fuel sb (tail rest) else Err Error
      end
  end.

Lemma expand_quoted_spec n : forall s sb l,
  (length s <= n)%nat -> sb_rep sb l -> is_bytes s -> zlen l + zlen s + 3 < 2 ^ 64 ->
  exists sb', expand_quoted (S n) sb (concat (quote_percent <$> s)) = Ret sb' /\ sb_rep sb' (l ++ s).
Proof.
  induction n as [|n IH]; intros s sb l Hn Hr Hs Hsmall.
  - destruct s; [|simpl in Hn; lia]. cbn [expand_quoted fmap list_fmap concat].
    destruct (strbuf_expand_step_spec sb l [] [] Hr) as [_ (sb' & -> & Hr')]; [apply not_elem_of_nil|rewrite zlen_nil in *; lia|].
    run. eauto.
  - assert (exists pre t, s = pre ++ t /\ 37 ∉ pre /\ (t = [] \/ exists t', t = 37 :: t')) as (pre & t & -> & Hpre & Ht).
    { clear. induction s as [|x s (pre & t & -> & Hpre & Ht)].
      - exists [], []. split; [done|]. split; [apply not_elem_of_nil|by left].
      - destruct (decide (x = 37)) as [->|Hne]; [exists [], (37 :: pre ++ t)|exists (x :: pre), t].
        + split; [done|]. split; [apply not_elem_of_nil|right; eauto].
        + split; [done|]. split; [|done]. rewrite not_elem_of_cons. split; [congruence|done]. }
    assert (concat (quote_percent <$> pre) = pre) as Hplain.
    { clear -Hpre. induction pre as [|x pre IH]; [done|]. rewrite not_elem_of_cons in Hpre. cbn [fmap list_fmap concat].
      rewrite IH by apply Hpre. unfold quote_percent. destruct (Z.eqb_spec x 37); [naive_solver|done]. }
    rewrite fmap_app, concat_app, Hplain. rewrite zlen_app in Hsmall. pose proof (zlen_nonneg pre).
    apply is_bytes_app in Hs as [_ Hst]. rewrite length_app in Hn.
    cbn [expand_quoted]. destruct Ht as [->|[t' ->]].
    + cbn [fmap list_fmap concat]. rewrite app_nil_r. rewrite zlen_nil in Hsmall.
      destruct (strbuf_expand_step_spec sb l pre [] Hr Hpre) as [_ (sb' & -> & Hr')]; [lia|]. run. eauto.
    + rewrite zlen_cons in Hsmall. pose proof (zlen_nonneg t'). cbn [fmap list_fmap concat]. unfold quote_percent at 1. cbn [Z.eqb Pos.eqb app].
      destruct (strbuf_expand_step_spec sb l pre (37 :: concat (quote_percent <$> t')) Hr Hpre) as [(sb1 & -> & Hr1) _]; [lia|].
      run. cbn [deref tail Z.eqb Pos.eqb].
      destruct (strbuf_addch_spec sb1 _ 37 Hr1) as (sb2 & -> & Hr2); [rewrite zlen_app; lia|]. run.
      apply Forall_cons_iff in Hst as [_ Hst]. simpl in Hn.
      destruct (IH t' sb2 ((l ++ pre) ++ [u8 37])) as (sb' & He & Hr'); [lia|done|done|rewrite !zlen_app, zlen_cons, zlen_nil; lia|].
      exists sb'. split; [exact He|]. by rewrite <-!(assoc app) in Hr'.
Qed.

Definition xml_char (c : Z) : list Z :=
  if c =? 34 then [38; 113; 117; 111; 116; 59] else if c =? 60 then [38; 108; 116; 59]
  else if c =? 62 then [38; 103; 116; 59] else if c =? 38 then [38; 97; 109; 112; 59] else [c].

Lemma xml_plain p : Forall (fun c => c ∉ [34; 60; 62; 38]) p -> concat (xml_char <$> p) = p.
Proof.
  induction 1 as [|c p Hc _ IH]; [done|]. cbn [fmap list_fmap concat]. rewrite IH.
  assert (xml_char c = [c]) as ->; [|done]. unfold xml_char. rewrite !not_elem_of_cons in Hc.
  destruct (Z.eqb_spec c 34), (Z.eqb_spec c 60), (Z.eqb_spec c 62), (Z.eqb_spec c 38); naive_solver.
Qed.

Lemma strbuf_addstr_xml_quoted_spec : forall fuel s buf l,
  (length s < fuel)%nat -> sb_rep buf l -> no_nul s -> zlen l + zlen (concat (xml_char <$> s)) + 2 < 2 ^ 64 ->
  exists sb', loop fuel (xml_step junk) (buf, s) = Ret sb' /\ sb_rep sb' (l ++ concat (xml_char <$> s)).
Proof.
  induction fuel as [|fuel IH]; intros s buf l Hf Hr Hs Hsmall; [lia|].
  destruct s as [|c0 s0].
  { exists buf. split; [by apply loop_stop|]. by rewrite app_nil_r. }
  set (s := c0 :: s0) in *. assert (deref s <> 0) as Hne by (by apply Forall_cons_iff in Hs as [? _]).
  destruct (strcspn_split s [34; 60; 62; 38]) as (p & t & Heq & Hz & Hplain & Hend). apply xml_plain in Hplain.
  assert (t = drop (Z.to_nat (strcspn s [34; 60; 62; 38])) s) as Ht by (rewrite <-Hz, Heq; symmetry; apply take_drop_zlen).
  rewrite Heq in Hs, Hsmall, Hf |- *. apply Forall_app in Hs as [_ Hst].
  rewrite fmap_app, concat_app, Hplain in Hsmall |- *. rewrite zlen_app in Hsmall. pose proof (zlen_nonneg (concat (xml_char <$> t))).
  destruct (strbuf_add_spec junk buf l p t Hr) as (buf1 & Hadd & Hr1); [lia|]. rewrite <-Heq, Hz in Hadd.
  rewrite <-Heq. rewrite length_app in Hf.
  assert (forall x t' e, t = x :: t' -> xml_char x = e ->
    xml_step junk (buf, s) = strbuf_addstr buf1 e ≫= (fun b : strbuf => Ret (inl (b, t'))) ->
    exists sb', loop (S fuel) (xml_step junk) (buf, s) = Ret sb' /\ sb_rep sb' (l ++ p ++ concat (xml_char <$> t))) as Hgo.
  { intros x t' e Htx He Hstep. rewrite Htx in *. cbn [fmap list_fmap concat] in *. rewrite He, zlen_app in *.
    pose proof (zlen_nonneg (concat (xml_char <$> t'))).
    destruct (strbuf_addstr_spec buf1 _ e Hr1) as (buf2 & Hadd2 & Hr2); [rewrite zlen_app; lia|].
    rewrite Hadd2 in Hstep. run_in Hstep. rewrite (loop_next _ _ _ _ Hstep).
    apply Forall_cons_iff in Hst as [_ Hst]. simpl in Hf.
    destruct (IH t' buf2 ((l ++ p) ++ e)) as (sb' & Hl & Hr'); [lia|done|done|rewrite !zlen_app; lia|].
    exists sb'. split; [done|]. by rewrite <-!(assoc app) in Hr'. }
  destruct Hend as [Hnil|(c & t' & Hc & Hin)].
  - exists buf1. rewrite Hnil. rewrite app_nil_r. split; [|done]. apply loop_stop. unfold xml_step.
    rewrite (proj2 (Z.eqb_neq _ 0)) by done. rewrite Hadd. run. by rewrite <-Ht, Hnil.
  - assert (xml_step junk (buf, s) =
      if c =? 34 then strbuf_addstr buf1 [38; 113; 117; 111; 116; 59] ≫= (fun b : strbuf => Ret (inl (b, t'))) else
      if c =? 60 then strbuf_addstr buf1 [38; 108; 116; 59] ≫= (fun b : strbuf => Ret (inl (b, t'))) else
      if c =? 62 then strbuf_addstr buf1 [38; 103; 116; 59] ≫= (fun b : strbuf => Ret (inl (b, t'))) else
      if c =? 38 then strbuf_addstr buf1 [38; 97; 109; 112; 59] ≫= (fun b : strbuf => Ret (inl (b, t'))) else
      if c =? 0 then Ret (inr buf1) else Ret (inl (buf1, t'))) as Hstep.
    { unfold xml_step. rewrite (proj2 (Z.eqb_neq _ 0)) by done. rewrite Hadd. run. rewrite <-Ht, Hc. done. }
    rewrite !elem_of_cons, elem_of_nil in Hin.
    destruct Hin as [->|[->|[->|[->|[]]]]]; eapply (Hgo _ t' _ Hc); try reflexivity; exact Hstep.
Qed.
End proofs.

(** ** An implementation of the headers *)

Definition text_ref : @TextHeader strbuf_ref := {|
  addf_percent_hex sb c := @strbuf_addstr strbuf_ref sb (percent_hex false c);
  addf_percent_HEX sb c := @strbuf_addstr strbuf_ref sb (percent_hex true c);
  STRBUF_ENCODE_SLASH := 1;
|}.

Lemma text_ref_ok : @TextHeaderOk strbuf_ref text_ref.
Proof.
  split.
  - intros sb l c Hr Hs. apply strbuf_ref_append; [done|]. change (zlen (percent_hex false c)) with 3. lia.
  - intros sb l c Hr Hs. apply strbuf_ref_append; [done|]. change (zlen (percent_hex true c)) with 3. lia.
Qed.

(** * Claims *)

(** Text quoted with [strbuf_addbuf_percentquote] survives expansion: the
    quoted bytes are appended to the destination, and repeated
    [strbuf_expand_step] calls that replace each doubled percent sign by one
    append exactly the original text. *)
Theorem percentquote_expands `{GitCompatOk} `{StrbufHeaderOk} (junk : Z) (dst src out : strbuf) (l s o : list Z) :
  sb_rep dst l -> sb_rep src s -> sb_rep out o -> is_bytes s ->
  zlen l + 2 * zlen s + 3 < 2 ^ 64 -> zlen o + zlen s + 3 < 2 ^ 64 ->
  exists dst' q out', strbuf_addbuf_percentquote dst src = Ret dst' /\ sb_rep dst' (l ++ q) /\
    expand_quoted junk (S (length s)) out q = Ret out' /\ sb_rep out' (o ++ s).
Proof.
  intros Hdst Hsrc Hout Hs Hsmall Hsmall2.
  assert (forall k, zlen (concat (quote_percent <$> k)) <= 2 * zlen k) as Hle.
  { intros k. induction k as [|c k IH]; [done|]. cbn [fmap list_fmap concat]. rewrite zlen_app, zlen_cons.
    unfold quote_percent at 1. case_if; rewrite ?zlen_cons, zlen_nil; lia. }
  specialize (Hle s).
  destruct (strbuf_addbuf_percentquote_spec dst l src s Hdst Hsrc Hs) as (dst' & Hq & Hr); [lia|].
  destruct (expand_quoted_spec junk (length s) s out o) as (out' & He & Hro); [lia|done|done|lia|].
  by exists dst', (concat (quote_percent <$> s)), out'.
Qed.

Lemma percentquote_expands_witness :
  let src := Strbuf 5 4 [49; 37; 37; 50; 0] in
  @strbuf_addbuf_percentquote strbuf_ref STRBUF_INIT src = Ret (Strbuf 24 6 ([49; 37; 37; 37; 37; 50] ++ replicate 18 0)) /\
  exists dst' q out', @strbuf_addbuf_percentquote strbuf_ref STRBUF_INIT src = Ret dst' /\ sb_rep dst' ([] ++ q) /\
    @expand_quoted compat_ref strbuf_ref 0 5 STRBUF_INIT q = Ret out' /\ sb_rep out' ([] ++ [49; 37; 37; 50]).
Proof.
  cbv zeta. split; [vm_compute; reflexivity|].
  apply (@percentquote_expands compat_ref compat_ref_ok strbuf_ref strbuf_ref_ok 0 STRBUF_INIT (Strbuf 5 4 [49; 37; 37; 50; 0])
    STRBUF_INIT [] [49; 37; 37; 50] []); [apply sb_rep_init| |apply sb_rep_init|evaluate..].
  split; [done|]. split; [by exists []|right; done].
Defined.

(** [strbuf_addstr_xml_quoted] appends the string with each of the characters
    quote, less-than, greater-than and ampersand replaced by its entity and
    every other byte as it is. *)
Theorem xml_quoted_text `{GitCompatOk} `{StrbufHeaderOk} (junk : Z) (buf : strbuf) (l s : list Z) :
  sb_rep buf l -> no_nul s -> zlen l + zlen (concat (xml_char <$> s)) + 2 < 2 ^ 64 ->
  exists buf', strbuf_addstr_xml_quoted junk buf s = Ret buf' /\ sb_rep buf' (l ++ concat (xml_char <$> s)).
Proof. intros. apply strbuf_addstr_xml_quoted_spec; [lia|done..]. Qed.

Lemma xml_quoted_text_witness :
  concat (xml_char <$> [97; 60; 38; 98]) = [97; 38; 108; 116; 59; 38; 97; 109; 112; 59; 98] /\
  exists buf', @strbuf_addstr_xml_quoted compat_ref strbuf_ref 0 STRBUF_INIT [97; 60; 38; 98] = Ret buf' /\
    sb_rep buf' ([] ++ concat (xml_char <$> [97; 60; 38; 98])).
Proof.
  split; [reflexivity|].
  apply (@xml_quoted_text compat_ref compat_ref_ok strbuf_ref strbuf_ref_ok 0 STRBUF_INIT [] [97; 60; 38; 98]);
    [apply sb_rep_init|evaluate..].
Defined.
