(* ===== verification/StrbufLines.v ===== *)
(** strbuf.c, lines: splitting at a terminator, prefixing lines, reading lines
    from a stream and stripping white space, each against a specification on
    lists of bytes. *)
From S2P Require Import Prelude Headers Strbuf StrbufText.

(** * Lines *)

(** The text up to and including the first [term], and what follows. *)
Fixpoint first_line (term : Z) (s : list Z) : list Z * list Z :=
  match s with
  | [] => ([], [])
  | c :: s' => if c =? term then ([c], s') else let '(a, b) := first_line term s' in (c :: a, b)
  end.

(** All of them; [fuel] of the length of the text is enough. *)
Fixpoint lines_of (fuel : nat) (term : Z) (s : list Z) : list (list Z) :=
  match fuel, s with
  | S fuel, _ :: _ => let '(a, b) := first_line term s in a :: lines_of fuel term b
  | _, _ => []
  end.
Definition lines (term : Z) (s : list Z) : list (list Z) := lines_of (length s) term s.

Lemma first_line_app term s : fst (first_line term s) ++ snd (first_line term s) = s.
Proof.
  induction s as [|c s IH]; [done|]. cbn [first_line]. destruct (Z.eqb_spec c term) as [->|]; [done|].
  destruct (first_line term s) as [a b]. cbn [fst snd app] in *. by rewrite IH.
Qed.

Lemma first_line_shorter term c s : (length (snd (first_line term (c :: s))) <= length s)%nat.
Proof.
  pose proof (first_line_app term (c :: s)) as Happ. cbn [first_line] in *. destruct (Z.eqb_spec c term); [done|].
  destruct (first_line term s) as [a b]. cbn [fst snd app] in *. injection Happ as Happ. rewrite <-Happ, length_app. lia.
Qed.

Lemma lines_of_fuel term n m s : (length s <= n)%nat -> (length s <= m)%nat -> lines_of n term s = lines_of m term s.
Proof.
  revert m s. induction n as [|n IH]; intros [|m] [|c s] Hn Hm; try done; simpl in Hn, Hm; try lia.
  cbn [lines_of]. pose proof (first_line_shorter term c s). destruct (first_line term (c :: s)) as [a b]. cbn [snd] in *.
  f_equal. apply IH; lia.
Qed.

Lemma lines_cons term c s :
  lines term (c :: s) = fst (first_line term (c :: s)) :: lines term (snd (first_line term (c :: s))).
Proof.
  unfold lines at 1. cbn [length lines_of]. pose proof (first_line_shorter term c s).
  destruct (first_line term (c :: s)) as [a b]. cbn [fst snd] in *. f_equal. by apply lines_of_fuel.
Qed.

Lemma concat_lines term s : concat (lines term s) = s.
Proof.
  induction s as [s IH] using length_induction. destruct s as [|c s]; [done|]. rewrite lines_cons. cbn [concat].
  pose proof (first_line_shorter term c s). rewrite IH by (cbn [length]; lia). apply first_line_app.
Qed.

(** What [memchr] finds is the end of the first line. *)
Lemma first_line_memchr term s :
  match memchr s term (zlen s) with
  | Some k => first_line term s = (take (Z.to_nat (k + 1)) s, drop (Z.to_nat (k + 1)) s) /\ 0 <= k < zlen s
  | None => first_line term s = (s, [])
  end.
Proof.
  pose proof (memchr_split s term) as Hm. destruct (memchr s term (zlen s)) as [k|].
  - destruct Hm as (a & b & -> & -> & Ha). pose proof (zlen_nonneg a). pose proof (zlen_nonneg b).
    split; [|rewrite zlen_app, zlen_cons; lia].
    replace (Z.to_nat (zlen a + 1)) with (length (a ++ [term])) by (rewrite length_app; unfold zlen; simpl; lia).
    assert (a ++ term :: b = (a ++ [term]) ++ b) as -> by (by rewrite <-(assoc app)).
    rewrite take_app_length, drop_app_length. clear -Ha. induction a as [|x a IH].
    + cbn [app first_line]. by rewrite Z.eqb_refl.
    + rewrite not_elem_of_cons in Ha. cbn [app first_line] in *. destruct (Z.eqb_spec x term); [naive_solver|].
      by rewrite IH by apply Ha.
  - induction s as [|x s IH]; [done|]. rewrite not_elem_of_cons in Hm. cbn [first_line].
    destruct (Z.eqb_spec x term); [naive_solver|]. by rewrite IH by apply Hm.
Qed.

(** Every line but the last ends with the terminator, which occurs nowhere else. *)
Lemma first_line_ends term s :
  s <> [] ->
  (exists a, fst (first_line term s) = a ++ [term] /\ term ∉ a) \/
  (term ∉ s /\ fst (first_line term s) = s /\ snd (first_line term s) = []).
Proof.
  induction s as [|c s IH]; [done|]. intros _. cbn [first_line]. destruct (Z.eqb_spec c term) as [->|Hne].
  - left. exists []. split; [done|apply not_elem_of_nil].
  - destruct s as [|c' s'].
    + right. cbn. rewrite list_elem_of_singleton. done.
    + destruct (first_line term (c' :: s')) as [a b]. cbn [fst snd] in *. destruct IH as [(a' & -> & Ha)|(Hn & -> & ->)]; [done| |].
      * left. exists (c :: a'). split; [done|]. rewrite not_elem_of_cons. done.
      * right. split; [|done]. rewrite not_elem_of_cons. done.
Qed.

(** ** Splitting *)

(** The pieces: all lines, or the first [max - 1] and the rest. *)
Fixpoint pieces_of (fuel : nat) (term max nr : Z) (s : list Z) : list (list Z) :=
  match fuel, s with
  | S fuel, _ :: _ =>
      if (max <=? 0) || (nr + 1 <? max) then
        let '(a, b) := first_line term s in a :: pieces_of fuel term max (nr + 1) b
      else [s]
  | _, _ => []
  end.

Section proofs.
Context `{GitCompatOk} `{StrbufHeaderOk} `{Ctype}.
Context (junk : Z).
Implicit Types (sb : strbuf) (l s : list Z).

Lemma split_loop term max : forall fuel s ret,
  (length s < fuel)%nat -> zlen s < 2 ^ 31 ->
  exists ret' , loop fuel (split_step junk term max) (ret, s, zlen s) = Ret (ret ++ ret') /\
    Forall2 sb_rep ret' (pieces_of (length s) term max (zlen ret) s).
Proof.
  induction fuel as [|fuel IH]; intros s ret Hf Hsmall; [lia|]. destruct s as [|c s].
  { exists []. rewrite app_nil_r. split; [by apply loop_stop|constructor]. }
  pose proof (zlen_nonneg s).
  assert (forall a b, a ++ b = c :: s -> a <> [] ->
    (if (max <=? 0) || (zlen ret + 1 <? max) then
       match memchr (c :: s) term (zlen (c :: s)) with Some e => i32 (e + 1) | None => i32 (zlen (c :: s)) end
     else i32 (zlen (c :: s))) = zlen a ->
    exists t, split_step junk term max (ret, c :: s, zlen (c :: s)) = Ret (inl (ret ++ [t], b, zlen b)) /\ sb_rep t a) as Hstep.
  { intros a b Hab Hne Hlen. pose proof (zlen_nonneg b).
    assert (zlen (c :: s) = zlen a + zlen b) as Hz by (rewrite <-Hab, zlen_app; done).
    unfold split_step. rewrite (proj2 (tru_true (zlen (c :: s)))) by (rewrite zlen_cons; lia). cbn [negb]. cbv zeta. rewrite Hlen.
    pose proof (zlen_nonneg a). rewrite !(u64_small (zlen a)) by lia.
    destruct (strbuf_init_spec junk (zlen a)) as (t0 & -> & Ht0); [lia|lia|]. run.
    destruct (strbuf_add_spec junk t0 [] a b Ht0) as (t & Ha & Ht); [rewrite zlen_nil; lia|]. rewrite Hab in Ha. rewrite Ha. run.
    exists t. split; [|done]. rewrite Hz. replace (zlen a + zlen b - zlen a) with (zlen b) by lia. rewrite u64_small by lia.
    rewrite <-Hab. unfold zlen at 1. by rewrite Nat2Z.id, drop_app_length. }
  assert (exists a b, a ++ b = c :: s /\ a <> [] /\
    (if (max <=? 0) || (zlen ret + 1 <? max) then
       match memchr (c :: s) term (zlen (c :: s)) with Some e => i32 (e + 1) | None => i32 (zlen (c :: s)) end
     else i32 (zlen (c :: s))) = zlen a /\
    pieces_of (length (c :: s)) term max (zlen ret) (c :: s) = a :: pieces_of (length s) term max (zlen ret + 1) b)
    as (a & b & Hab & Hne & Hlen & Hp).
  { cbn [length pieces_of]. destruct ((max <=? 0) || (zlen ret + 1 <? max)).
    - pose proof (first_line_memchr term (c :: s)) as Hm. pose proof (first_line_app term (c :: s)) as Happ.
      destruct (memchr (c :: s) term (zlen (c :: s))) as [k|].
      + destruct Hm as [Hfl Hk]. rewrite Hfl in *. cbn [fst snd] in Happ. eexists _, _. split; [exact Happ|].
        split; [|split; [|done]].
        * replace (Z.to_nat (k + 1)) with (S (Z.to_nat k)) by lia. done.
        * rewrite i32_small by lia. unfold zlen in *. rewrite length_take. lia.
      + rewrite Hm. exists (c :: s), []. rewrite app_nil_r. split; [done|]. split; [done|].
        split; [by rewrite i32_small by (pose proof (zlen_nonneg (c :: s)); lia)|]. done.
    - exists (c :: s), []. rewrite app_nil_r. split; [done|]. split; [done|].
      split; [by rewrite i32_small by (pose proof (zlen_nonneg (c :: s)); lia)|]. by destruct s. }
  destruct (Hstep a b Hab Hne Hlen) as (t & Hs & Ht). rewrite (loop_next _ _ _ _ Hs), Hp.
  assert (length b <= length s)%nat as Hb.
  { assert (length (a ++ b) = length (c :: s)) as Hl by (by rewrite Hab). rewrite length_app in Hl. destruct a; [done|]. simpl in Hl. lia. }
  destruct (IH b (ret ++ [t])) as (ret' & Hl & Hr); [simpl in Hf; lia|unfold zlen in *; simpl in *; lia|].
  exists (t :: ret'). rewrite Hl, <-(assoc app). split; [done|]. constructor; [done|].
  rewrite zlen_app, zlen_cons, zlen_nil in Hr. replace (zlen ret + (1 + 0)) with (zlen ret + 1) in Hr by lia.
  assert (forall n m s nr, (length s <= n)%nat -> (length s <= m)%nat -> pieces_of n term max nr s = pieces_of m term max nr s) as Hfuel.
  { clear. intros n. induction n as [|n IH]; intros [|m] [|x s] nr Hn Hm; try done; simpl in Hn, Hm; try lia.
    cbn [pieces_of]. case_if; [|done]. pose proof (first_line_shorter term x s). destruct (first_line term (x :: s)) as [u v]. cbn [snd] in *.
    f_equal. apply IH; lia. }
  by rewrite (Hfuel (length s) (length b)) by lia.
Qed.

(** ** Prefixed lines *)

Definition prefixed (prefix : list Z) (space : bool) (line : list Z) : list Z :=
  prefix ++ (if space && negb (deref line =? 10) && negb (deref line =? 9) then [32] else []) ++ line.

Lemma add_lines_loop prefix space : forall fuel s out l,
  (length s < fuel)%nat -> sb_rep out l -> zlen l + zlen (concat (prefixed prefix space <$> lines 10 s)) + 2 < 2 ^ 64 ->
  exists out', loop fuel (add_lines_step junk prefix space) (out, s, zlen s) = Ret out' /\
    sb_rep out' (l ++ concat (prefixed prefix space <$> lines 10 s)).
Proof.
  induction fuel as [|fuel IH]; intros s out l Hf Hr Hsmall; [lia|]. destruct s as [|c s].
  { exists out. split; [by apply loop_stop|]. by rewrite app_nil_r. }
  rewrite lines_cons in *. pose proof (first_line_memchr 10 (c :: s)) as Hm. pose proof (first_line_app 10 (c :: s)) as Happ.
  pose proof (first_line_shorter 10 c s) as Hshort.
  assert (deref (fst (first_line 10 (c :: s))) = c /\ match memchr (c :: s) 10 (zlen (c :: s)) with Some k => k + 1 | None => zlen (c :: s) end =
    zlen (fst (first_line 10 (c :: s)))) as [Hd Hnext].
  { destruct (memchr (c :: s) 10 (zlen (c :: s))) as [k|].
    - destruct Hm as [-> Hk]. cbn [fst]. replace (Z.to_nat (k + 1)) with (S (Z.to_nat k)) by lia. split; [done|].
      unfold zlen in *. rewrite length_take. simpl in *. lia.
    - by rewrite Hm. }
  set (a := fst (first_line 10 (c :: s))) in *. set (b := snd (first_line 10 (c :: s))) in *.
  cbn [fmap list_fmap concat] in *. unfold prefixed at 1 in Hsmall. rewrite Hd, !zlen_app in Hsmall.
  set (sp := if space && negb (c =? 10) && negb (c =? 9) then [32] else []) in *.
  pose proof (zlen_nonneg prefix). pose proof (zlen_nonneg sp). pose proof (zlen_nonneg a).
  pose proof (zlen_nonneg (concat (prefixed prefix space <$> lines 10 b))).
  assert (exists out1, add_lines_step junk prefix space (out, c :: s, zlen (c :: s)) = Ret (inl (out1, b, zlen b)) /\
    sb_rep out1 (l ++ prefixed prefix space a)) as (out1 & Hs & Hr1).
  { unfold add_lines_step. rewrite (proj2 (tru_true _)) by (rewrite zlen_cons; pose proof (zlen_nonneg s); lia). cbn [negb].
    cbv zeta. rewrite Hnext.
    destruct (strbuf_addstr_spec out l prefix Hr) as (o1 & -> & Ho1); [lia|]. run. change (rd (c :: s) 0) with (Ret c). run.
    assert (exists o2, (if space && negb (c =? 10) && negb (c =? 9) then strbuf_addch o1 32 else Ret o1) = Ret o2 /\
      sb_rep o2 ((l ++ prefix) ++ sp)) as (o2 & -> & Ho2).
    { unfold sp in *. destruct (space && negb (c =? 10) && negb (c =? 9)).
      - destruct (strbuf_addch_spec o1 _ 32 Ho1) as (o2 & -> & ?); [rewrite zlen_app; rewrite zlen_cons in *; lia|]. by exists o2.
      - exists o1. by rewrite app_nil_r. }
    run. destruct (strbuf_add_spec junk o2 _ a b Ho2) as (o3 & Hadd & Ho3); [rewrite !zlen_app; lia|].
    rewrite Happ in Hadd. rewrite Hadd. run. exists o3.
    assert (zlen (c :: s) = zlen a + zlen b) as Hz by (rewrite <-Happ, zlen_app; done).
    split.
    - do 3 f_equal; [f_equal|lia]. rewrite <-Happ. unfold zlen. by rewrite Nat2Z.id, drop_app_length.
    - unfold prefixed. rewrite Hd. fold sp. by rewrite <-!(assoc app) in Ho3. }
  rewrite (loop_next _ _ _ _ Hs).
  destruct (IH b out1 _ ltac:(simpl in Hf; lia) Hr1) as (out' & Hl & Hr').
  { unfold prefixed at 1. rewrite Hd. fold sp. rewrite !zlen_app. lia. }
  exists out'. split; [done|]. by rewrite <-(assoc app) in Hr'.
Qed.

(** ** Reading lines *)

(** A buffer being filled: not yet terminated, with room for the NUL. *)
Definition filling sb l : Prop :=
  filled (sb_buf sb) (sb_len sb) l /\ zlen l < Z.max 1 (sb_alloc sb) /\
  (sb_alloc sb = 0 /\ sb_buf sb = [0] \/ 0 < sb_alloc sb /\ zlen (sb_buf sb) = sb_alloc sb).

Lemma filling_mem sb l : filling sb l -> zlen (sb_buf sb) = Z.max 1 (sb_alloc sb) /\ (sb_alloc sb = 0 -> l = []).
Proof.
  intros (_ & Hlt & [[Ha Hb]|[Ha Hb]]); [rewrite Hb, Ha in *|split; lia]. split; [done|]. intros _.
  apply length_zero_iff_nil. change (Z.max 1 0) with 1 in Hlt. unfold zlen in Hlt. lia.
Qed.

Lemma filling_terminate sb l : filling sb l -> exists sb', terminate sb = Ret sb' /\ sb_rep sb' l.
Proof.
  intros Hfl. pose proof (filling_mem _ _ Hfl) as [Hmem _]. destruct Hfl as (Hf & Hlt & Hown). destruct sb as [alloc n buf].
  cbn [sb_alloc sb_len sb_buf] in *. apply terminate_rep; [done| |done]. destruct Hf as [<- _]. lia.
Qed.

Lemma rep_filling sb l : sb_rep sb l -> filling sb l.
Proof.
  intros Hr. pose proof (sb_rep_mem _ _ Hr) as [_ Hlt]. split; [by apply sb_rep_filled|]. split; [done|]. by destruct Hr as (_ & _ & ?).
Qed.

(** One character more. *)
Lemma getline_put sb l c :
  filling sb l -> zlen l + 2 < 2 ^ 64 ->
  exists sb1 buf, (if negb (tru (strbuf_avail sb)) then strbuf_grow junk sb 1 else Ret sb) = Ret sb1 /\
    wr (sb_buf sb1) (sb_len sb1) c = Ret buf /\ filling (Strbuf (sb_alloc sb1) (sb_len sb1 + 1) buf) (l ++ [c]).
Proof.
  intros Hfl Hsmall. pose proof (filling_mem _ _ Hfl) as [Hmem Hnil]. destruct Hfl as (Hf & Hlt & Hown).
  pose proof Hf as [Hlen _]. pose proof (zlen_nonneg l).
  assert (exists sb1, (if negb (tru (strbuf_avail sb)) then strbuf_grow junk sb 1 else Ret sb) = Ret sb1 /\
    filled (sb_buf sb1) (sb_len sb1) l /\ 0 < sb_alloc sb1 /\ zlen (sb_buf sb1) = sb_alloc sb1 /\ zlen l + 1 < sb_alloc sb1)
    as (sb1 & -> & Hf1 & Ha1 & Hz1 & Hroom).
  { rewrite strbuf_avail_spec. destruct (tru (sb_alloc sb)) eqn:Ha; zb.
    - destruct Hown as [[? _]|[Hpos Hz]]; [done|]. destruct (tru (sb_alloc sb - sb_len sb - 1)) eqn:Hav; zb; cbn [negb].
      + exists sb. split; [done|]. split; [done|]. split; [done|]. split; [done|]. lia.
      + destruct (grow_ok junk sb l 1 Hf) as (sb1 & -> & (Hl1 & Hf1 & Ha1 & Hz1 & Hr1) & _); [by right|lia|lia|].
        exists sb1. split; [done|]. split; [done|]. split; [done|]. split; [done|lia].
    - cbn [tru negb Z.eqb]. destruct (grow_ok junk sb l 1 Hf) as (sb1 & Hg & (Hl1 & Hf1 & Ha1 & Hz1 & Hr1) & _);
        [left; auto|lia|lia|]. change (tru 0) with false. cbn [negb]. rewrite Hg. exists sb1. split; [done|]. split; [done|]. split; [done|]. split; [done|lia]. }
  destruct (filled_wr _ _ _ c Hf1) as [Hwr Hf2]; [destruct Hf1 as [<- _]; lia|].
  eexists sb1, _. split; [done|]. split; [exact Hwr|]. split; [exact Hf2|]. cbn [sb_alloc sb_buf].
  rewrite zlen_app, zlen_cons, zlen_nil. split; [lia|]. right. rewrite zlen_insert. lia.
Qed.

Lemma getline_loop term : forall s fuel sb l e,
  (length s + 1 < fuel)%nat -> zlen l + zlen s + 2 < 2 ^ 64 -> filling sb l ->
  exists sb', loop fuel (getline_step junk term) (sb, Stream s e) =
      Ret (sb', Stream (snd (first_line term s)) (if bool_decide (term ∈ s) then e else true),
           if bool_decide (term ∈ s) then Some term else None) /\
    filling sb' (l ++ fst (first_line term s)).
Proof.
  induction s as [|c s IH]; intros [|fuel] sb l e Hf Hsmall Hfl; simpl in Hf; try lia.
  { exists sb. rewrite bool_decide_false by apply not_elem_of_nil. cbn [first_line fst snd]. rewrite app_nil_r.
    split; [by apply loop_stop|done]. }
  rewrite zlen_cons in Hsmall. pose proof (zlen_nonneg s).
  destruct (getline_put sb l c Hfl) as (sb1 & buf & Hg & Hwr & Hfl2); [lia|].
  assert (getline_step junk term (sb, Stream (c :: s) e) =
    if c =? term then Ret (inr (Strbuf (sb_alloc sb1) (sb_len sb1 + 1) buf, Stream s e, Some c))
    else Ret (inl (Strbuf (sb_alloc sb1) (sb_len sb1 + 1) buf, Stream s e))) as Hstep.
  { unfold getline_step, getc. cbn [to_come eof]. rewrite Hg. run. rewrite Hwr. run. done. }
  cbn [first_line]. destruct (Z.eqb_spec c term) as [->|Hne].
  - rewrite bool_decide_true by left. eexists. split; [by apply loop_stop|]. exact Hfl2.
  - rewrite (loop_next _ _ _ _ Hstep).
    destruct (IH fuel _ (l ++ [c]) e ltac:(lia) ltac:(rewrite zlen_app, zlen_cons, zlen_nil; lia) Hfl2) as (sb' & Hl & Hr).
    assert (bool_decide (term ∈ c :: s) = bool_decide (term ∈ s)) as ->.
    { apply bool_decide_ext. rewrite elem_of_cons. naive_solver. }
    destruct (first_line term s) as [a b]. cbn [fst snd] in *. exists sb'. split; [done|]. by rewrite <-(assoc app) in Hr.
Qed.

Lemma strbuf_getwholeline_spec sb l0 s term :
  sb_rep sb l0 -> zlen s + 2 < 2 ^ 64 ->
  exists sb', strbuf_getwholeline junk sb (Stream s false) term =
      Ret (sb', Stream (snd (first_line term s)) (if bool_decide (term ∈ s) then false else true), negb (bool_decide (s = []))) /\
    sb_rep sb' (fst (first_line term s)).
Proof.
  intros Hr Hsmall. unfold strbuf_getwholeline. cbn [eof to_come].
  destruct (sb_rep_mem _ _ Hr) as [Hmem Hlt]. destruct sb as [alloc n buf]. cbn [sb_alloc sb_buf] in *. pose proof Hr as (_ & _ & Hown).
  pose proof (zlen_nonneg l0).
  destruct (setlen_rep alloc n buf 0 [] (filled_nil _)) as (sb0 & -> & Hr0); [lia|exact Hown|]. run.
  destruct s as [|c s].
  { exists sb0. split; [|done]. rewrite (loop_stop _ _ _ (sb0, Stream [] true, None)) by done. run.
    by rewrite (proj2 (Z.eqb_eq _ 0) (sb_rep_len _ _ Hr0)). }
  destruct (getline_loop term (c :: s) (S (S (length (c :: s)))) sb0 [] false) as (sb1 & -> & Hfl);
    [lia|rewrite zlen_nil; lia|by apply rep_filling|].
  run. rewrite app_nil_l in Hfl. destruct (filling_terminate sb1 _ Hfl) as (sb2 & Ht & Hr2).
  exists sb2. split; [|done]. case_bool_decide as Hin; [rewrite Ht; run; done|].
  pose proof Hfl as ([Hlen _] & _). rewrite (proj2 (Z.eqb_neq _ 0)); [rewrite Ht; run; done|]. rewrite <-Hlen.
  assert (fst (first_line term (c :: s)) <> []) as Hne.
  { destruct (first_line_ends term (c :: s)) as [(a & -> & _)|(_ & -> & _)]; [done|by destruct a|done]. }
  destruct (fst (first_line term (c :: s))) as [|x k]; [done|]. rewrite zlen_cons. pose proof (zlen_nonneg k). lia.
Qed.

Lemma strip_last sb l x : sb_rep sb (l ++ [x]) ->
  rd (sb_buf sb) (sb_len sb - 1) = Ret x /\ exists sb', strbuf_setlen sb (sb_len sb - 1) = Ret sb' /\ sb_rep sb' l.
Proof.
  intros Hr. pose proof (sb_rep_filled _ _ Hr) as Hf. destruct (filled_last _ _ _ _ x Hf) as [Hrd _]. split; [done|].
  rewrite (sb_rep_len _ _ Hr), zlen_app, zlen_cons, zlen_nil. replace (zlen l + (1 + 0) - 1) with (zlen l) by lia. by apply (setlen_prefix sb l [x]).
Qed.

(** A line without its terminator. *)
Definition chop (term : Z) l : list Z := if bool_decide (last l = Some term) then removelast l else l.

Lemma strbuf_getdelim_spec sb l0 s term :
  sb_rep sb l0 -> zlen s + 2 < 2 ^ 64 ->
  exists sb', strbuf_getdelim junk sb (Stream s false) term =
      Ret (sb', Stream (snd (first_line term s)) (if bool_decide (term ∈ s) then false else true), negb (bool_decide (s = []))) /\
    sb_rep sb' (chop term (fst (first_line term s))).
Proof.
  intros Hr Hsmall. unfold strbuf_getdelim.
  destruct (strbuf_getwholeline_spec sb l0 s term Hr Hsmall) as (sb1 & -> & Hr1). run.
  case_bool_decide as Hs; cbn [negb]; [subst s; by exists sb1|].
  destruct (last_case (fst (first_line term s))) as [Hnil|(k & x & Hk & Hlast & Hrem)].
  { destruct (first_line_ends term s Hs) as [(a & Ha & _)|(_ & Ha & _)]; [|congruence]. rewrite Ha in Hnil. by destruct a. }
  unfold chop. rewrite Hlast, Hrem. rewrite Hk in Hr1 |- *. destruct (strip_last sb1 k x Hr1) as [-> (sb2 & Hs2 & Hr2)]. run.
  destruct (Z.eqb_spec x term) as [->|Hne].
  - rewrite Hs2. run. exists sb2. by rewrite (bool_decide_true (Some term = Some term)).
  - run. exists sb1. by rewrite (bool_decide_false (Some x = Some term)) by congruence.
Qed.

Lemma strbuf_getline_spec sb l0 s :
  sb_rep sb l0 -> zlen s + 2 < 2 ^ 64 ->
  exists sb', strbuf_getline junk sb (Stream s false) =
      Ret (sb', Stream (snd (first_line 10 s)) (if bool_decide (10 ∈ s) then false else true), negb (bool_decide (s = []))) /\
    sb_rep sb' (trim_newline (fst (first_line 10 s))).
Proof.
  intros Hr Hsmall. unfold strbuf_getline, strbuf_getdelim_strip_crlf.
  destruct (strbuf_getwholeline_spec sb l0 s 10 Hr Hsmall) as (sb1 & -> & Hr1). run.
  case_bool_decide as Hs; cbn [negb]; [subst s; by exists sb1|].
  destruct (last_case (fst (first_line 10 s))) as [Hnil|(k & x & Hk & Hlast & Hrem)].
  { destruct (first_line_ends 10 s Hs) as [(a & Ha & _)|(_ & Ha & _)]; [|congruence]. rewrite Ha in Hnil. by destruct a. }
  unfold trim_newline. rewrite Hlast, Hrem. rewrite Hk in Hr1 |- *. destruct (strip_last sb1 k x Hr1) as [-> (sb2 & Hs2 & Hr2)]. run.
  cbn [Z.eqb Pos.eqb andb]. destruct (Z.eqb_spec x 10) as [->|Hne].
  2:{ run. exists sb1. by rewrite (bool_decide_false (Some x = Some 10)) by congruence. }
  rewrite Hs2. run. rewrite (bool_decide_true (Some 10 = Some 10)) by done.
  destruct (last_case k) as [->|(m & y & -> & Hlast2 & Hrem2)].
  { rewrite (sb_rep_len _ _ Hr2). change (tru (zlen (@nil Z))) with false. cbv iota. run. exists sb2. done. }
  rewrite Hlast2, Hrem2, (sb_rep_len _ _ Hr2), (proj2 (tru_true _))
    by (rewrite zlen_app, zlen_cons, zlen_nil; pose proof (zlen_nonneg m); lia).
  destruct (strip_last sb2 m y Hr2) as [Hrd (sb3 & Hs3 & Hr3)]. rewrite (sb_rep_len _ _ Hr2) in Hrd, Hs3. rewrite Hrd. run.
  destruct (Z.eqb_spec y 13) as [->|Hne].
  - rewrite Hs3. run. exists sb3. by rewrite (bool_decide_true (Some 13 = Some 13)).
  - run. exists sb2. by rewrite (bool_decide_false (Some y = Some 13)) by congruence.
Qed.

(** ** Reading all lines *)

(** [while (!read(sb, fp)) ...]: the texts the calls leave in the buffer. *)
Fixpoint read_all (read : strbuf -> stream -> outcome (strbuf * stream * bool)) (fuel : nat) (sb : strbuf) (fp : stream)
    : outcome (list (list Z)) :=
  match fuel with
  | O => Undef
  | S fuel =>
      '(sb, fp, ok) ← read sb fp;
      if negb ok then Ret [] else
      line ← rd_range (sb_buf sb) 0 (sb_len sb);
      rest ← read_all read fuel sb fp;
      Ret (line :: rest)
  end.

Lemma read_all_spec term (f : list Z -> list Z) read :
  (forall sb fp, eof fp = true -> read sb fp = Ret (sb, fp, false)) ->
  (forall sb l0 s, sb_rep sb l0 -> zlen s + 2 < 2 ^ 64 ->
     exists sb', read sb (Stream s false) =
         Ret (sb', Stream (snd (first_line term s)) (if bool_decide (term ∈ s) then false else true), negb (bool_decide (s = []))) /\
       sb_rep sb' (f (fst (first_line term s)))) ->
  forall s sb l0 fuel, sb_rep sb l0 -> zlen s + 2 < 2 ^ 64 -> (length s + 1 < fuel)%nat ->
  read_all read fuel sb (Stream s false) = Ret (f <$> lines term s).
Proof.
  intros Heof Hread s. induction s as [s IH] using length_induction. intros sb l0 [|fuel] Hr Hsmall Hf; [lia|]. cbn [read_all].
  destruct (Hread sb l0 s Hr Hsmall) as (sb1 & -> & Hr1). run.
  destruct s as [|c s]; [done|]. rewrite bool_decide_false by done. cbn [negb].
  pose proof Hr1 as (Hl1 & [r1 Hb1] & _). rewrite Hl1, Hb1.
  destruct (at_pos_app _ _ _ _ (at_pos_0 (f (fst (first_line term (c :: s))) ++ 0 :: r1))) as [-> _]. run.
  rewrite lines_cons, fmap_cons. pose proof (first_line_shorter term c s) as Hshort.
  assert (read_all read fuel sb1 (Stream (snd (first_line term (c :: s))) (if bool_decide (term ∈ c :: s) then false else true)) =
    Ret (f <$> lines term (snd (first_line term (c :: s))))) as Hrest; [|rewrite Hrest; done].
  case_bool_decide as Hin.
  - assert (length (snd (first_line term (c :: s))) < length (c :: s))%nat as Hlt by (cbn [length]; lia).
    apply (IH _ Hlt sb1 _ fuel Hr1).
    + assert (zlen (snd (first_line term (c :: s))) <= zlen s) by (unfold zlen; lia).
      rewrite zlen_cons in Hsmall. lia.
    + cbn [length] in Hf. lia.
  - assert (snd (first_line term (c :: s)) = []) as ->.
    { destruct (first_line_ends term (c :: s)) as [(a & Ha & _)|(_ & _ & ->)]; [done| |done]. exfalso. apply Hin.
      rewrite <-(first_line_app term (c :: s)), Ha. apply elem_of_app. left. apply elem_of_app. right. left. }
    destruct fuel as [|fuel]; [simpl in Hf; lia|]. cbn [read_all]. by rewrite Heof.
Qed.
End proofs.

(** * Claims *)

(** [C17] Reading a stream line by line loses nothing: with [strbuf_getwholeline] as
    the reader the calls return exactly the lines of the stream, terminators
    included, whose concatenation is the stream; [strbuf_getline_lf] returns
    them without the newline and [strbuf_getline] without the newline or the
    CR-LF; an unterminated last line counts, and the call after the last one
    returns EOF. *)
Theorem getline_reads_lines `{GitCompatOk} `{StrbufHeaderOk} (junk : Z) (sb : strbuf) (l s : list Z) (term : Z) :
  sb_rep sb l -> zlen s + 2 < 2 ^ 64 ->
  concat (lines term s) = s /\
  read_all (fun sb fp => strbuf_getwholeline junk sb fp term) (length s + 2) sb (Stream s false) = Ret (lines term s) /\
  read_all (strbuf_getline_lf junk) (length s + 2) sb (Stream s false) = Ret (chop 10 <$> lines 10 s) /\
  read_all (strbuf_getline junk) (length s + 2) sb (Stream s false) = Ret (trim_newline <$> lines 10 s).
Proof.
  intros Hr Hsmall. split; [apply concat_lines|].
  assert (forall sb fp t, eof fp = true -> strbuf_getwholeline junk sb fp t = Ret (sb, fp, false)) as Heof
    by (intros b fp t He; unfold strbuf_getwholeline; by rewrite He).
  split; [|split].
  - rewrite (read_all_spec term id) with (l0 := l); [by rewrite list_fmap_id|by auto| |done|done|lia].
    intros b l0 k Hb Hk. by apply (strbuf_getwholeline_spec junk b l0).
  - apply (read_all_spec 10) with (l0 := l); [| |done|done|lia].
    + intros b fp He. unfold strbuf_getline_lf, strbuf_getdelim. by rewrite Heof.
    + intros b l0 k Hb Hk. by apply (strbuf_getdelim_spec junk b l0).
  - apply (read_all_spec 10) with (l0 := l); [| |done|done|lia].
    + intros b fp He. unfold strbuf_getline, strbuf_getdelim_strip_crlf. by rewrite Heof.
    + intros b l0 k Hb Hk. by apply (strbuf_getline_spec junk b l0).
Qed.

Lemma getline_reads_lines_witness :
  let s := [97; 13; 10; 98; 10; 10; 99] in
  lines 10 s = [[97; 13; 10]; [98; 10]; [10]; [99]] /\ trim_newline <$> lines 10 s = [[97]; [98]; []; [99]] /\
  concat (lines 10 s) = s /\
  read_all (fun sb fp => @strbuf_getwholeline compat_ref strbuf_ref 0 sb fp 10) (length s + 2) STRBUF_INIT (Stream s false) = Ret (lines 10 s) /\
  read_all (@strbuf_getline_lf compat_ref strbuf_ref 0) (length s + 2) STRBUF_INIT (Stream s false) = Ret (chop 10 <$> lines 10 s) /\
  read_all (@strbuf_getline compat_ref strbuf_ref 0) (length s + 2) STRBUF_INIT (Stream s false) = Ret (trim_newline <$> lines 10 s).
Proof.
  cbv zeta. split; [vm_compute; reflexivity|]. split; [vm_compute; reflexivity|].
  apply (@getline_reads_lines compat_ref compat_ref_ok strbuf_ref strbuf_ref_ok 0 STRBUF_INIT [] [97; 13; 10; 98; 10; 10; 99] 10);
    [apply sb_rep_init|evaluate].
Defined.

(** [strbuf_split_buf] splits without loss: the pieces are buffers whose texts
    concatenate to the input; with no limit they are its lines at the
    terminator, and with a limit [max] the first [max - 1] lines and the
    rest. *)
Theorem strbuf_split_buf_pieces `{GitCompatOk} `{StrbufHeaderOk} (junk : Z) (str : list Z) (terminator max : Z) :
  zlen str < 2 ^ 31 ->
  exists ret texts, strbuf_split_buf junk str (zlen str) terminator max = Ret ret /\ Forall2 sb_rep ret texts /\
    concat texts = str /\
    (max <= 0 -> texts = lines terminator str) /\
    (0 < max -> zlen texts <= max /\
       (zlen texts < max -> texts = lines terminator str) /\
       forall i, (i + 1 < length texts)%nat -> texts !! i = lines terminator str !! i).
Proof.
  intros Hsmall. unfold strbuf_split_buf.
  destruct (split_loop junk terminator max (S (Z.to_nat (zlen str))) str []) as (ret & Hl & Hr);
    [unfold zlen; lia|done|].
  rewrite app_nil_l in Hl. exists ret, (pieces_of (length str) terminator max 0 str). split; [done|]. split; [exact Hr|]. clear Hl Hr.
  assert (forall n s nr, (length s <= n)%nat -> 0 <= nr ->
    concat (pieces_of n terminator max nr s) = s /\
    (max <= 0 -> pieces_of n terminator max nr s = lines terminator s) /\
    (nr < max -> nr + zlen (pieces_of n terminator max nr s) <= max /\
      (nr + zlen (pieces_of n terminator max nr s) < max -> pieces_of n terminator max nr s = lines terminator s) /\
      forall i, (i + 1 < length (pieces_of n terminator max nr s))%nat ->
        pieces_of n terminator max nr s !! i = lines terminator s !! i)) as Hall.
  { intros n. induction n as [|n IH]; intros [|c s] nr Hn Hnr; simpl in Hn; try lia;
      try (split; [done|]; split; [done|]; intros Hlt; change (zlen (pieces_of _ _ _ _ [])) with 0; split; [lia|]; split; [done|];
           intros i Hi; cbn in Hi; lia).
    cbn [pieces_of]. pose proof (first_line_shorter terminator c s) as Hsh. pose proof (first_line_app terminator (c :: s)) as Happ.
    rewrite lines_cons. destruct (first_line terminator (c :: s)) as [a b]. cbn [fst snd] in *.
    destruct ((max <=? 0) || (nr + 1 <? max)) eqn:E.
    - destruct (IH b (nr + 1)) as (IH1 & IH2 & IH3); [lia|lia|]. cbn [concat]. rewrite IH1. split; [done|].
      split; [intros Hm; by rewrite IH2|]. intros Hlt. apply orb_true_iff in E as [E|E]; zb; [lia|].
      destruct (IH3 E) as (Q1 & Q2 & Q3). rewrite zlen_cons. split; [lia|]. split; [intros Hl; rewrite Q2; [done|lia]|].
      intros [|i] Hi; [done|]. simpl in *. apply Q3. lia.
    - zb. cbn [concat]. rewrite app_nil_r. split; [done|]. split; [lia|]. intros Hlt. rewrite zlen_cons, zlen_nil.
      split; [lia|]. split; [lia|]. intros i Hi. simpl in Hi. lia. }
  destruct (Hall (length str) str 0) as (Q1 & Q2 & Q3); [done|lia|]. split; [done|]. split; [done|].
  intros Hm. destruct (Q3 Hm) as (Q4 & Q5 & Q6). split; [lia|]. split; [intros; apply Q5; lia|done].
Qed.

Lemma strbuf_split_buf_pieces_witness :
  let str := [97; 44; 98; 44; 99] in
  lines 44 str = [[97; 44]; [98; 44]; [99]] /\
  exists ret texts, @strbuf_split_buf compat_ref strbuf_ref 0 str (zlen str) 44 2 = Ret ret /\ Forall2 sb_rep ret texts /\
    concat texts = str /\
    (2 <= 0 -> texts = lines 44 str) /\
    (0 < 2 -> zlen texts <= 2 /\
       (zlen texts < 2 -> texts = lines 44 str) /\
       forall i, (i + 1 < length texts)%nat -> texts !! i = lines 44 str !! i).
Proof.
  cbv zeta. split; [reflexivity|].
  apply (@strbuf_split_buf_pieces compat_ref compat_ref_ok strbuf_ref strbuf_ref_ok 0 [97; 44; 98; 44; 99] 44 2). evaluate.
Defined.

(** [add_lines] prefixes every line: [strbuf_add_lines] and
    [strbuf_add_commented_lines] append each line of the text with the prefix
    before it -- the latter with a space unless the line is empty or starts
    with a tab -- and complete the last line with a newline. *)
Theorem add_lines_prefixes `{GitCompatOk} `{StrbufHeaderOk} (junk : Z) (out : strbuf) (l prefix s : list Z) (space : bool) :
  sb_rep out l -> zlen l + zlen (concat (prefixed prefix space <$> lines 10 s)) + 3 < 2 ^ 64 ->
  let text := l ++ concat (prefixed prefix space <$> lines 10 s) in
  exists out', add_lines junk out prefix s (zlen s) space = Ret out' /\
    sb_rep out' (if bool_decide (text = [] \/ last text = Some 10) then text else text ++ [10]).
Proof.
  intros Hr Hsmall. cbv zeta. unfold add_lines.
  destruct (add_lines_loop junk prefix space (S (Z.to_nat (zlen s))) s out l) as (out1 & -> & Hr1); [unfold zlen; lia|done|lia|]. run.
  destruct (strbuf_complete_spec out1 _ 10 Hr1) as (out2 & -> & Hr2); [rewrite zlen_app; lia|]. by exists out2.
Qed.

Lemma add_lines_prefixes_witness :
  let s := [97; 10; 10; 98] in
  concat (prefixed [35] true <$> lines 10 s) = [35; 32; 97; 10; 35; 10; 35; 32; 98] /\
  let text := [] ++ concat (prefixed [35] true <$> lines 10 s) in
  exists out', @add_lines compat_ref strbuf_ref 0 STRBUF_INIT [35] s (zlen s) true = Ret out' /\
    sb_rep out' (if bool_decide (text = [] \/ last text = Some 10) then text else text ++ [10]).
Proof.
  cbv zeta. split; [reflexivity|].
  apply (@add_lines_prefixes compat_ref compat_ref_ok strbuf_ref strbuf_ref_ok 0 STRBUF_INIT [] [35] [97; 10; 10; 98] true);
    [apply sb_rep_init|evaluate].
Defined.
