(* ===== verification/Url.v ===== *)
(** url.c: decoding of percent-encoded text and of query parameters, recognising
    URLs -- and that decoding inverts the two encoders of strbuf.c. *)
From S2P Require Import Prelude Headers HexLl Strbuf StrbufText.

(** * Model *)

Section model.
Context `{GitCompat} `{Hsb : StrbufHeader} `{Ctype} `{HexHeader}.
Context (junk : Z).

(** [ch] is an [int], negative for a [char] with the high bit set. *)
Definition is_urlschemechar (first_flag : bool) (ch : Z) : bool :=
  let alphanumeric := (ch >? 0) && isalnum ch in
  let special := (ch =? 43) || (ch =? 45) || (ch =? 46) in
  alphanumeric || (negb first_flag && special).

(** The loop up to the colon; [None] is [return 0]. *)
Fixpoint scheme_end (url : list Z) : option (list Z) :=
  if (deref url =? 0) || (deref url =? 58) then Some url else
  match url with
  | [] => Some url
  | c :: url => if negb (is_urlschemechar false (s8 c)) then None else scheme_end url
  end.

Definition is_url (url : list Z) : bool :=
  if negb (is_urlschemechar true (s8 (deref url))) then false else
  match scheme_end (tail url) with
  | None => false
  | Some url => (deref url =? 58) && (deref (tail url) =? 47) && (deref (tail (tail url)) =? 47)
  end.

(** One round of [while (len)]: the pointer [q], [len] and [out].  A negative
    [len] counts down for ever, and the NUL ends the loop. *)
Definition url_decode_step (stop_at : option (list Z)) (decode_plus : bool) (st : list Z * Z * strbuf)
    : outcome ((list Z * Z * strbuf) + (list Z * strbuf)) :=
  let '(q, len, out) := st in
  if negb (tru len) then Ret (inr (q, out)) else
  let c := deref q in
  if c =? 0 then Ret (inr (q, out)) else
  if match stop_at with Some stop_at => bool_decide (c ∈ stop_at) | None => false end
  then Ret (inr (tail q, out)) else
  let val := hex2chr (tail q) in
  if (c =? 37) && ((len <? 0) || (len >=? 3)) && (0 <? val) then
    out ← strbuf_addch out val;
    Ret (inl (drop 3 q, len - 3, out))
  else
    out ← (if decode_plus && (c =? 43) then strbuf_addch out 32 else strbuf_addch out c);
    Ret (inl (tail q, len - 1, out)).

(** The detached memory and the new [*query]. *)
Definition url_decode_internal (query : list Z) (len : Z) (stop_at : option (list Z)) (out : strbuf) (decode_plus : bool)
    : outcome (list Z * list Z) :=
  '(q, out) ← loop (S (length query)) (url_decode_step stop_at decode_plus) (query, len, out);
  '(res, _, _) ← strbuf_detach junk out;
  Ret (res, q).

Definition url_decode_mem (url : list Z) (len : Z) : outcome (list Z) :=
  let out := STRBUF_INIT in
  let colon := memchr url 58 (u64 len) in
  '(out, len, url) ←
    (match colon with
     | Some k =>
         if 0 <? k then
           out ← strbuf_add junk out url k;
           Ret (out, i32 (len - k), drop (Z.to_nat k) url)
         else Ret (out, len, url)
     | None => Ret (out, len, url)
     end);
  '(res, _) ← url_decode_internal url len None out false;
  Ret res.

Definition url_decode (url : list Z) : outcome (list Z) := url_decode_mem url (i32 (zlen url)).

Definition url_percent_decode (encoded : list Z) : outcome (list Z) :=
  '(res, _) ← url_decode_internal encoded (i32 (zlen encoded)) None STRBUF_INIT false;
  Ret res.

Definition url_decode_parameter_name (query : list Z) : outcome (list Z * list Z) :=
  url_decode_internal query (-1) (Some [38; 61]) STRBUF_INIT true.

Definition url_decode_parameter_value (query : list Z) : outcome (list Z * list Z) :=
  url_decode_internal query (-1) (Some [38]) STRBUF_INIT true.

Definition end_url_with_slash (buf : strbuf) (url : list Z) : outcome strbuf :=
  buf ← strbuf_addstr buf url;
  strbuf_complete buf 47.

(** The new [*dest]; the old one is freed. *)
Definition str_end_url_with_slash (url : list Z) : outcome (list Z) :=
  buf ← end_url_with_slash STRBUF_INIT url;
  '(dest, _, _) ← strbuf_detach junk buf;
  Ret dest.
End model.

(** * Encoded text *)

(** A byte, as it is or with its percent sign and digits. *)
Definition url_char (plain : Z -> bool) (upper : bool) (c : Z) : list Z := if plain c then [c] else percent_hex upper c.

Definition url_text (plain : Z -> bool) (upper : bool) (s : list Z) : list Z := concat (url_char plain upper <$> s).

(** A string of a C program, and a memory that holds one. *)
Notation is_string s := (Forall (fun c => 0 < c < 256) s).
Definition holds (mem s : list Z) : Prop := exists rest, mem = s ++ 0 :: rest.

Lemma url_char_len plain u c : 1 <= zlen (url_char plain u c) <= 3.
Proof. unfold url_char. destruct (plain c); cbv; split; congruence. Qed.

Lemma url_text_cons plain u c s : url_text plain u (c :: s) = url_char plain u c ++ url_text plain u s.
Proof. done. Qed.

Lemma url_text_len plain u s : zlen s <= zlen (url_text plain u s) <= 3 * zlen s.
Proof.
  induction s as [|c s IH]; [done|]. rewrite url_text_cons, zlen_app, zlen_cons.
  pose proof (url_char_len plain u c). lia.
Qed.

(** The texts that decode to what was encoded: a plain byte is not a percent
    sign, does not stop the decoder, and is not a plus that it turns into a
    space. *)
Definition decodable (stop_at : option (list Z)) (decode_plus : bool) (plain : Z -> bool) : Prop :=
  (forall c, plain c = true -> c <> 37 /\ (decode_plus = true -> c <> 43) /\
     match stop_at with Some stop_at => c ∉ stop_at | None => True end) /\
  match stop_at with Some stop_at => 37 ∉ stop_at | None => True end.

Section proofs.
Context `{GitCompatOk} `{Hsb : StrbufHeaderOk} `{Ctype} `{HexHeaderOk} `{!TextHeader} `{!TextHeaderOk}.
Context (junk : Z).

Lemma strbuf_add_percentencode_spec dst l s flags :
  sb_rep dst l -> is_bytes s -> zlen l + 3 * zlen s + 3 < 2 ^ 64 ->
  exists dst', strbuf_add_percentencode dst s flags = Ret dst' /\
    sb_rep dst' (l ++ url_text (fun c => negb (percent_encoded flags c)) true s).
Proof.
  intros Hr Hs Hsmall. pose proof (url_text_len (fun c => negb (percent_encoded flags c)) true s).
  apply append_each; [|done|unfold url_text in *; lia]. intros i c sb k Hc Hk Hsm.
  rewrite (rd_lookup _ _ _ Hc). run. pose proof (is_bytes_lookup _ _ _ Hs Hc) as Hb. unfold url_char in *.
  destruct (percent_encoded flags c); cbn [negb] in *.
  - apply addf_percent_HEX_spec; [done|]. change (zlen (percent_hex true c)) with 3 in Hsm. lia.
  - rewrite zlen_cons, zlen_nil in Hsm. destruct (strbuf_addch_spec sb k c Hk) as (sb' & ? & Hr'); [lia|].
    rewrite u8_small in Hr' by done. eauto.
Qed.

Lemma strbuf_addstr_urlencode_spec sb l s allow :
  sb_rep sb l -> is_bytes s -> zlen l + 3 * zlen s + 3 < 2 ^ 64 ->
  exists sb', strbuf_addstr_urlencode junk sb s allow = Ret sb' /\ sb_rep sb' (l ++ url_text allow false s).
Proof.
  intros Hr Hs Hsmall. pose proof (url_text_len allow false s). pose proof (zlen_nonneg s). unfold strbuf_addstr_urlencode, strbuf_add_urlencode.
  destruct (strbuf_grow_spec junk sb l (zlen s) Hr) as (sb1 & -> & Hr1 & _); [lia|lia|]. run.
  unfold zlen at 1. rewrite Nat2Z.id.
  apply append_each; [|done|unfold url_text in *; lia]. intros i c sb2 k Hc Hk Hsm.
  rewrite (rd_lookup _ _ _ Hc). run. pose proof (is_bytes_lookup _ _ _ Hs Hc) as Hb. unfold url_char in *.
  destruct (allow c).
  - rewrite zlen_cons, zlen_nil in Hsm. destruct (strbuf_addch_spec sb2 k c Hk) as (sb' & ? & Hr'); [lia|].
    rewrite u8_small in Hr' by done. eauto.
  - apply addf_percent_hex_spec; [done|]. change (zlen (percent_hex false c)) with 3 in Hsm. lia.
Qed.

(** One encoded byte. *)
Lemma decode_char stop_at decode_plus plain u c rest len out l :
  decodable stop_at decode_plus plain -> 0 < c < 256 -> sb_rep out l -> zlen l + 2 < 2 ^ 64 ->
  (len < 0 \/ zlen (url_char plain u c) <= len) ->
  exists out', url_decode_step stop_at decode_plus (url_char plain u c ++ rest, len, out) =
      Ret (inl (rest, len - zlen (url_char plain u c), out')) /\ sb_rep out' (l ++ [c]).
Proof.
  intros [Hplain Hstop] Hc Hr Hsmall Hlen. unfold url_decode_step.
  assert (zlen (url_char plain u c) > 0) as Hpos by (pose proof (url_char_len plain u c); lia).
  rewrite (proj2 (tru_true len)) by lia. cbn [negb].
  destruct (strbuf_addch_spec out l c Hr Hsmall) as (out' & Hadd & Hr'). rewrite u8_small in Hr' by (unfold is_byte; lia).
  exists out'. split; [|done]. unfold url_char in *. destruct (plain c) eqn:Ep.
  - destruct (Hplain c Ep) as (Hpct & Hplus & Hst). change (zlen [c]) with 1 in *. cbn [app deref tail].
    rewrite (proj2 (Z.eqb_neq c 0)), (proj2 (Z.eqb_neq c 37)) by lia. cbn [andb].
    assert (match stop_at with Some stop_at => bool_decide (c ∈ stop_at) | None => false end = false) as ->.
    { destruct stop_at; [by apply bool_decide_false|done]. }
    assert (decode_plus && (c =? 43) = false) as ->.
    { destruct decode_plus; [|done]. cbn [andb]. apply Z.eqb_neq. auto. }
    rewrite Hadd. done.
  - unfold percent_hex in *. rewrite u8_small in * by (unfold is_byte; lia). change (zlen (37 :: hex_pair u c)) with 3 in *.
    change ((37 :: hex_pair u c) ++ rest) with (37 :: hex_pair u c ++ rest). cbn [deref tail]. change (37 =? 0) with false. cbv iota.
    assert (match stop_at with Some stop_at => bool_decide (37 ∈ stop_at) | None => false end = false) as ->.
    { destruct stop_at; [by apply bool_decide_false|done]. }
    rewrite hex2chr_pair by (unfold is_byte; lia). rewrite (proj2 (Z.ltb_lt 0 c)) by lia. change (37 =? 37) with true.
    replace ((len <? 0) || (len >=? 3)) with true; [cbn [andb]; by rewrite Hadd|]. symmetry. apply orb_true_iff.
    rewrite Z.ltb_lt, Z.geb_le. lia.
Qed.

(** Encoded text is decoded round by round. *)
Lemma decode_text stop_at decode_plus plain u : forall s fuel rest len out l,
  decodable stop_at decode_plus plain -> is_string s -> sb_rep out l -> zlen l + zlen s + 2 < 2 ^ 64 ->
  (len < 0 \/ zlen (url_text plain u s) <= len) ->
  exists out', loop (length s + fuel) (url_decode_step stop_at decode_plus) (url_text plain u s ++ rest, len, out) =
      loop fuel (url_decode_step stop_at decode_plus) (rest, len - zlen (url_text plain u s), out') /\ sb_rep out' (l ++ s).
Proof.
  intros s. induction s as [|c s IH]; intros fuel rest len out l Hd Hs Hr Hsmall Hlen.
  { exists out. rewrite app_nil_r. change (url_text plain u []) with (@nil Z). rewrite zlen_nil, Z.sub_0_r. done. }
  apply Forall_cons_iff in Hs as [Hc Hs]. rewrite zlen_cons in Hsmall. rewrite url_text_cons, zlen_app in *.
  pose proof (zlen_nonneg s). pose proof (zlen_nonneg (url_text plain u s)). pose proof (zlen_nonneg (url_char plain u c)).
  destruct (decode_char stop_at decode_plus plain u c (url_text plain u s ++ rest) len out l Hd Hc Hr) as (out1 & Hstep & Hr1);
    [lia|lia|].
  cbn [length Nat.add]. rewrite <-(app_assoc (url_char plain u c)). rewrite (loop_next _ _ _ _ Hstep).
  destruct (IH fuel rest (len - zlen (url_char plain u c)) out1 (l ++ [c]) Hd Hs Hr1) as (out' & Hl & Hr');
    [rewrite zlen_app, zlen_cons, zlen_nil; lia|lia|].
  exists out'. rewrite Hl. split; [|by rewrite <-(assoc app) in Hr']. do 3 f_equal. lia.
Qed.

(** The decoder's result where the text ends, or a stop character follows. *)
Lemma url_decode_internal_spec stop_at decode_plus plain u s rest len :
  decodable stop_at decode_plus plain -> is_string s -> zlen s + 2 < 2 ^ 64 ->
  (len = zlen (url_text plain u s) \/
   len < 0 /\ (rest = [] \/ exists c rest', rest = c :: rest' /\ c <> 0 /\ match stop_at with Some stop_at => c ∈ stop_at | None => False end)) ->
  exists res, url_decode_internal junk (url_text plain u s ++ rest) len stop_at STRBUF_INIT decode_plus =
      Ret (res, if len <? 0 then tail rest else rest) /\ holds res s.
Proof.
  intros Hd Hs Hsmall Hend. unfold url_decode_internal.
  pose proof (url_text_len plain u s) as Hle. pose proof (zlen_nonneg s).
  destruct (decode_text stop_at decode_plus plain u s (S (length (url_text plain u s ++ rest)) - length s) rest len STRBUF_INIT []) as (out & Hl & Hr);
    [done|done|apply sb_rep_init|rewrite zlen_nil; lia|destruct Hend as [->|[? _]]; [by right|by left]|].
  replace (length s + _)%nat with (S (length (url_text plain u s ++ rest))) in Hl
    by (unfold zlen in Hle; rewrite length_app; lia).
  rewrite Hl. rewrite app_nil_l in Hr.
  assert (exists f, S (length (url_text plain u s ++ rest)) - length s = S f)%nat as [f ->].
  { exists (length (url_text plain u s ++ rest) - length s)%nat. unfold zlen in Hle. rewrite length_app. lia. }
  assert (loop (S f) (url_decode_step stop_at decode_plus) (rest, len - zlen (url_text plain u s), out) =
    Ret (if len <? 0 then tail rest else rest, out)) as ->.
  { apply loop_stop. unfold url_decode_step. destruct Hend as [->|[Hneg Hrest]].
    - rewrite Z.sub_diag. change (tru 0) with false. cbn [negb]. by rewrite (proj2 (Z.ltb_ge _ 0)) by lia.
    - rewrite (proj2 (tru_true _)), (proj2 (Z.ltb_lt len 0)) by lia. cbn [negb].
      destruct Hrest as [->|(c & rest' & -> & Hne & Hin)]; [done|]. cbn [deref tail]. rewrite (proj2 (Z.eqb_neq c 0)) by done.
      destruct stop_at; [|done]. by rewrite (bool_decide_true _ Hin). }
  run. destruct (strbuf_detach_spec junk out s Hr) as (res & sb' & Hd' & Hres & _); [lia|]. rewrite Hd'. run. eexists. split; [done|]. exact Hres.
Qed.
End proofs.

Lemma percent_encode_decodable `{TextHeader} flags stop_at decode_plus :
  stop_at = None \/ stop_at = Some [38] \/ stop_at = Some [38; 61] ->
  decodable stop_at decode_plus (fun c => negb (percent_encoded flags c)).
Proof.
  intros Hstop. split.
  - intros c Hc. apply negb_true_iff in Hc. unfold percent_encoded in Hc. apply orb_false_iff in Hc as [_ Hc].
    apply bool_decide_eq_false in Hc. rewrite elem_of_app in Hc.
    assert (forall x, x ∈ URL_UNSAFE_CHARS -> c <> x) as Hne by (intros x Hx ->; tauto).
    split; [apply Hne; evaluate|]. split; [intros _; apply Hne; evaluate|].
    destruct Hstop as [->|[->| ->]]; [done|..]; rewrite ?elem_of_cons, ?elem_of_nil; intros Hin;
      repeat destruct Hin as [Hin|Hin]; try done; revert Hin; apply Hne; evaluate.
  - destruct Hstop as [->|[->| ->]]; [done|evaluate..].
Qed.

(** * Claims *)

(** URL encoding is undone by URL decoding: the text [strbuf_add_percentencode]
    makes of a string, whatever its flags, decodes to that string with
    [url_percent_decode], and as a query parameter -- a value that an ampersand
    follows, or a name and its equals sign -- with the parameter decoders,
    which leave the query behind the delimiter; the text of
    [strbuf_addstr_urlencode] decodes to the string as long as the percent
    sign is not among the characters left as they are. *)
Theorem url_roundtrip `{GitCompatOk} `{StrbufHeaderOk} `{HexHeaderOk} `{!TextHeader} `{!TextHeaderOk}
    (junk flags : Z) (allow : Z -> bool) (s rest : list Z) :
  is_string s -> 3 * zlen s + 3 < 2 ^ 31 -> allow 37 = false ->
  (exists e t d, strbuf_add_percentencode STRBUF_INIT s flags = Ret e /\ sb_rep e t /\
     url_percent_decode junk t = Ret d /\ holds d s) /\
  (exists t value name, t = url_text (fun c => negb (percent_encoded flags c)) true s /\
     url_decode_parameter_value junk (t ++ 38 :: rest) = Ret (value, rest) /\ holds value s /\
     url_decode_parameter_name junk (t ++ 61 :: rest) = Ret (name, rest) /\ holds name s) /\
  (exists e t d, strbuf_addstr_urlencode junk STRBUF_INIT s allow = Ret e /\ sb_rep e t /\
     url_percent_decode junk t = Ret d /\ holds d s).
Proof.
  intros Hs Hsmall Hallow. pose proof (zlen_nonneg s).
  assert (is_bytes s) as Hb by (eapply Forall_impl; [exact Hs|unfold is_byte; cbn; lia]).
  set (plain := fun c => negb (percent_encoded flags c)).
  assert (forall plain u, decodable None false plain -> exists d, url_percent_decode junk (url_text plain u s) = Ret d /\ holds d s) as Hdec.
  { intros p u Hd. pose proof (url_text_len p u s). unfold url_percent_decode. rewrite i32_small by lia.
    destruct (url_decode_internal_spec junk None false p u s [] (zlen (url_text p u s)) Hd Hs) as (d & Hl & Hh); [lia|by left|].
    rewrite app_nil_r in Hl. rewrite Hl. run. eauto. }
  split; [|split].
  - destruct (strbuf_add_percentencode_spec STRBUF_INIT [] s flags sb_rep_init Hb) as (e & He & Hr); [rewrite zlen_nil; lia|].
    destruct (Hdec plain true) as (d & Hd & Hh); [apply percent_encode_decodable; auto|]. exists e, (url_text plain true s), d. auto.
  - destruct (url_decode_internal_spec junk (Some [38]) true plain true s (38 :: rest) (-1)) as (v & Hv & Hvh);
      [apply percent_encode_decodable; auto|done|lia|right; split; [lia|right; exists 38, rest; split; [done|split; [done|left]]]|].
    destruct (url_decode_internal_spec junk (Some [38; 61]) true plain true s (61 :: rest) (-1)) as (n & Hn & Hnh);
      [apply percent_encode_decodable; auto|done|lia|right; split; [lia|right; exists 61, rest; split; [done|split; [done|right; left]]]|].
    exists (url_text plain true s), v, n. auto.
  - destruct (strbuf_addstr_urlencode_spec junk STRBUF_INIT [] s allow sb_rep_init Hb) as (e & He & Hr); [rewrite zlen_nil; lia|].
    destruct (Hdec allow false) as (d & Hd & Hh).
    { split; [|done]. intros c Hc. split; [intros ->; congruence|]. done. }
    exists e, (url_text allow false s), d. auto.
Qed.

Lemma url_roundtrip_witness :
  let s := [97; 47; 32; 38; 37; 43; 200] in     (* a letter, a slash, a space, & % + and a byte above ASCII *)
  @url_text (fun c => negb (@percent_encoded strbuf_ref text_ref 0 c)) true s =
    [97; 47; 37; 50; 48; 37; 50; 54; 37; 50; 53; 37; 50; 66; 37; 67; 56] /\
  (exists e t d, @strbuf_add_percentencode strbuf_ref text_ref STRBUF_INIT s 0 = Ret e /\ sb_rep e t /\
     @url_percent_decode compat_ref strbuf_ref hex_ref 9 t = Ret d /\ holds d s) /\
  (exists t value name, t = @url_text (fun c => negb (@percent_encoded strbuf_ref text_ref 0 c)) true s /\
     @url_decode_parameter_value compat_ref strbuf_ref hex_ref 9 (t ++ 38 :: [120]) = Ret (value, [120]) /\ holds value s /\
     @url_decode_parameter_name compat_ref strbuf_ref hex_ref 9 (t ++ 61 :: [120]) = Ret (name, [120]) /\ holds name s) /\
  (exists e t d, @strbuf_addstr_urlencode compat_ref strbuf_ref text_ref 9 STRBUF_INIT s (@isalnum ctype_ref) = Ret e /\ sb_rep e t /\
     @url_percent_decode compat_ref strbuf_ref hex_ref 9 t = Ret d /\ holds d s).
Proof.
  cbv zeta. split; [vm_compute; reflexivity|].
  apply (@url_roundtrip compat_ref compat_ref_ok strbuf_ref strbuf_ref_ok hex_ref hex_ref_ok text_ref text_ref_ok 9 0
    (@isalnum ctype_ref) [97; 47; 32; 38; 37; 43; 200] [120]);
    [repeat (apply Forall_cons_2; [lia|]); apply Forall_nil_2|evaluate|reflexivity].
Defined.
