(* ===== verification/Base85.v ===== *)
(** base85.c: binary data as groups of five characters for four bytes, the most
    significant digit first; the last group may stand for fewer bytes. *)
From S2P Require Import Prelude Headers BlockHash.

(** * Model *)

Definition en85 : list Z :=
  [48; 49; 50; 51; 52; 53; 54; 55; 56; 57;
   65; 66; 67; 68; 69; 70; 71; 72; 73; 74;
   75; 76; 77; 78; 79; 80; 81; 82; 83; 84;
   85; 86; 87; 88; 89; 90;
   97; 98; 99; 100; 101; 102; 103; 104; 105; 106;
   107; 108; 109; 110; 111; 112; 113; 114; 115; 116;
   117; 118; 119; 120; 121; 122;
   33; 35; 36; 37; 38; 40; 41; 42; 43; 45;
   59; 60; 61; 62; 63; 64; 94; 95; 96; 123;
   124; 125; 126].

(** [static char de85[256]] before [prep_base85] has filled it in. *)
Definition de85_zero : list Z := replicate 256 0.

Definition prep_base85 (de85 : list Z) : outcome (list Z) :=
  z ← rd de85 90;
  if tru z then Ret de85 else
  for_n (length en85) 0 (fun i de85 => ch ← rd en85 i; wr de85 ch (i + 1)) de85.

(** One digit of the [do ... while (--cnt)] loop: the position in [buffer] and
    [acc]; a character outside the alphabet leaves it. *)
Definition digit_step (de85 buffer : list Z) (_ : Z) (st : Z * Z) : outcome ((Z * Z) + unit) :=
  let '(pos, acc) := st in
  ch ← rd buffer pos;
  de ← rd de85 ch;
  let de := de - 1 in
  if de <? 0 then Ret (inr tt) else
  Ret (inl (pos + 1, u32 (acc * 85 + de))).

(** One byte of the output. *)
Definition put_step (_ : Z) (st : list Z * Z * Z) : outcome (list Z * Z * Z) :=
  let '(dst, dpos, acc) := st in
  let acc := Z.lor (u32 (Z.shiftl acc 8)) (Z.shiftr acc 24) in
  dst ← wr dst dpos (u8 acc);
  Ret (dst, dpos + 1, acc).

(** One group: positions in [buffer] and [dst], [dst] and [len]. *)
Definition decode_group (de85 buffer : list Z) (st : Z * list Z * Z * Z)
    : outcome ((Z * list Z * Z * Z) + (list Z * Z)) :=
  let '(pos, dst, dpos, len) := st in
  if negb (tru len) then Ret (inr (dst, 0)) else
  r ← for_range 4 0 (digit_step de85 buffer) (pos, 0);
  match r with
  | inr _ => Ret (inr (dst, -1))
  | inl (pos, acc) =>
      ch ← rd buffer pos;
      let pos := pos + 1 in
      de ← rd de85 ch;
      let de := de - 1 in
      if de <? 0 then Ret (inr (dst, -1)) else
      if 0xffffffff / 85 <? acc then Ret (inr (dst, -1)) else
      let acc := u32 (acc * 85) in
      if 0xffffffff - de <? acc then Ret (inr (dst, -1)) else
      let acc := u32 (acc + de) in
      let cnt := if len <? 4 then len else 4 in
      '(dst, dpos, _) ← for_n (Z.to_nat cnt) 0 put_step (dst, dpos, acc);
      Ret (inl (pos, dst, dpos, len - cnt))
  end.

(** The table, the output and the return value. *)
Definition decode_85 (de85 dst buffer : list Z) (len : Z) : outcome (list Z * list Z * Z) :=
  de85 ← prep_base85 de85;
  '(dst, ret) ← loop (S (Z.to_nat len)) (decode_group de85 buffer) (0, dst, 0, len);
  Ret (de85, dst, ret).

(** [cnt] is [24 - 8 * i]; left with [inr] by [break]. *)
Definition gather_step (data : list Z) (i : Z) (st : Z * Z * Z) : outcome ((Z * Z * Z) + (Z * Z * Z)) :=
  let '(acc, dpos, bytes) := st in
  ch ← rd data dpos;
  let acc := Z.lor acc (u32 (Z.shiftl ch (24 - 8 * i))) in
  let bytes := bytes - 1 in
  if bytes =? 0 then Ret (inr (acc, dpos + 1, bytes)) else Ret (inl (acc, dpos + 1, bytes)).

(** [cnt] is [4 - i]. *)
Definition emit_step (bpos : Z) (i : Z) (st : list Z * Z) : outcome (list Z * Z) :=
  let '(buf, acc) := st in
  c ← rd en85 (acc mod 85);
  buf ← wr buf (bpos + (4 - i)) c;
  Ret (buf, acc / 85).

Definition encode_group (data : list Z) (st : list Z * Z * Z * Z) : outcome ((list Z * Z * Z * Z) + (list Z * Z)) :=
  let '(buf, bpos, dpos, bytes) := st in
  if negb (tru bytes) then Ret (inr (buf, bpos)) else
  r ← for_range 4 0 (gather_step data) (0, dpos, bytes);
  let '(acc, dpos, bytes) := match r with inl st => st | inr st => st end in
  '(buf, _) ← for_n 5 0 (emit_step bpos) (buf, acc);
  Ret (inl (buf, bpos + 5, dpos, bytes)).

Definition encode_85 (buf data : list Z) (bytes : Z) : outcome (list Z) :=
  '(buf, bpos) ← loop (S (Z.to_nat bytes)) (encode_group data) (buf, 0, 0, bytes);
  wr buf bpos 0.

(** * Specification *)

(** The digit a character stands for: its place in the alphabet. *)
Definition digit85 (c : Z) : option Z := (fun p : nat * Z => Z.of_nat p.1) <$> list_find (eq c) en85.

(** The bytes written for a number, and the number of the first bytes of a
    string, zeros beyond its end. *)
Fixpoint be_at (k : Z) (bs : list Z) : Z :=
  match bs with
  | [] => 0
  | b :: bs => b * 2 ^ k + be_at (k - 8) bs
  end.

Definition char85 (d : Z) : Z := default 0 (en85 !! Z.to_nat d).

Definition group_of (v : Z) : list Z :=
  char85 <$> [v / 85 ^ 4 mod 85; v / 85 ^ 3 mod 85; v / 85 ^ 2 mod 85; v / 85 mod 85; v mod 85].

Fixpoint base85_groups (fuel : nat) (data : list Z) : list Z :=
  match fuel, data with
  | S fuel, _ :: _ => group_of (be_at 24 (take 4 data)) ++ base85_groups fuel (drop 4 data)
  | _, _ => []
  end.
Definition base85 (data : list Z) : list Z := base85_groups (length data) data.

(** The number five characters stand for, if they are digits of one below 2^32. *)
Definition group_value (g : list Z) : option Z :=
  ds ← mapM digit85 g;
  let v := foldl (fun v d => v * 85 + d) 0 ds in
  if v <? 2 ^ 32 then Some v else None.

Fixpoint unbase85_groups (fuel : nat) (s : list Z) (len : nat) : option (list Z) :=
  match fuel, len with
  | S fuel, S _ =>
      if bool_decide (5 <= length s)%nat then
        v ← group_value (take 5 s);
        rest ← unbase85_groups fuel (drop 5 s) (len - 4);
        Some (take len (be32 v) ++ rest)
      else None
  | _, _ => Some []
  end.

(** The [len] bytes that the text [s] stands for. *)
Definition unbase85 (s : list Z) (len : nat) : option (list Z) := unbase85_groups len s len.

(** * Correctness *)

(** ** The table *)

Definition de85_full : list Z := (fun c => match digit85 c with Some d => d + 1 | None => 0 end) <$> seqZ 0 256.

Definition de85_state (de85 : list Z) : Prop := de85 = de85_zero \/ de85 = de85_full.

Lemma prep_base85_spec de85 : de85_state de85 -> prep_base85 de85 = Ret de85_full.
Proof. intros [-> | ->]; vm_compute; reflexivity. Qed.

Lemma rd_de85 c : is_byte c -> rd de85_full c = Ret (match digit85 c with Some d => d + 1 | None => 0 end).
Proof.
  intros Hc. unfold de85_full. rewrite rd_tabulate by done. done.
Qed.

Lemma digit85_range c d : digit85 c = Some d -> 0 <= d < 85 /\ char85 d = c.
Proof.
  unfold digit85, char85. destruct (list_find (eq c) en85) as [[i x]|] eqn:E; [|done]. intros [= <-].
  apply list_find_Some in E as (Hi & <- & _). rewrite Nat2Z.id, Hi. split; [|done].
  apply lookup_lt_Some in Hi. cbn in Hi. lia.
Qed.

Lemma digit85_char d : 0 <= d < 85 -> digit85 (char85 d) = Some d /\ is_byte (char85 d).
Proof.
  intros Hd. assert (Forall (fun d => digit85 (char85 d) = Some d /\ is_byte (char85 d)) (seqZ 0 85)) as Hall by evaluate.
  rewrite Forall_forall in Hall. apply Hall, elem_of_seqZ. lia.
Qed.

Lemma rd_en85 d : 0 <= d < 85 -> rd en85 d = Ret (char85 d).
Proof.
  intros Hd. destruct (rd_in en85 d) as [c Hc]; [by change (zlen en85) with 85|]. rewrite Hc.
  apply rd_Ret in Hc as [_ Hc]. unfold char85. by rewrite Hc.
Qed.

(** ** Output bytes *)

Lemma wr_app (pre xs : list Z) k y :
  0 <= k < zlen xs -> wr (pre ++ xs) (zlen pre + k) y = Ret (pre ++ <[Z.to_nat k := y]> xs).
Proof.
  intros Hk. pose proof (zlen_nonneg pre). rewrite wr_in by (rewrite zlen_app; lia). f_equal. unfold zlen.
  rewrite insert_app_r_alt by lia. do 2 f_equal. lia.
Qed.

Lemma be_at_range k n bs : is_bytes bs -> (length bs <= n)%nat -> 8 * Z.of_nat n <= k + 8 -> 0 <= be_at k bs < 2 ^ (k + 8).
Proof.
  revert k n. induction bs as [|b bs IH]; intros k n Hb Hn Hk; cbn [be_at].
  - split; [lia|]. apply Z.pow_pos_nonneg; lia.
  - apply Forall_cons_iff in Hb as [Hb Hbs]. cbn [length] in Hn. destruct n as [|n]; [lia|].
    specialize (IH (k - 8) n Hbs). replace (k - 8 + 8) with k in IH by lia.
    assert (0 <= be_at (k - 8) bs < 2 ^ k) by (apply IH; lia).
    rewrite Z.pow_add_r by lia. change (2 ^ 8) with 256. unfold is_byte in Hb. nia.
Qed.

Lemma be_at_u32 bs : is_bytes bs -> (length bs <= 4)%nat -> is_u32 (be_at 24 bs).
Proof. intros Hb Hn. apply (be_at_range 24 4); [done|done|lia]. Qed.

Lemma be32_be_at a b c d : is_byte a -> is_byte b -> is_byte c -> is_byte d -> be32 (be_at 24 [a; b; c; d]) = [a; b; c; d].
Proof.
  unfold is_byte. intros. cbn [be_at]. unfold be32. rewrite !Z.shiftr_div_pow2 by lia.
  change (24 - 8 - 8 - 8) with 0. change (24 - 8 - 8) with 8. change (24 - 8) with 16.
  change (2 ^ 24) with 16777216. change (2 ^ 16) with 65536. change (2 ^ 8) with 256. change (2 ^ 0) with 1.
  repeat f_equal; Z.to_euclidean_division_equations; lia.
Qed.

Lemma be_at_32 v : is_u32 v -> be_at 24 (be32 v) = v.
Proof.
  unfold is_u32. intros Hv. unfold be32. cbn [be_at]. rewrite !Z.shiftr_div_pow2 by lia.
  change (24 - 8 - 8 - 8) with 0. change (24 - 8 - 8) with 8. change (24 - 8) with 16.
  change (2 ^ 32) with 4294967296 in Hv.
  change (2 ^ 24) with 16777216. change (2 ^ 16) with 65536. change (2 ^ 8) with 256. change (2 ^ 0) with 1.
  Z.to_euclidean_division_equations; lia.
Qed.

Ltac all_bytes := repeat (apply Forall_cons_2; [assumption|]); apply Forall_nil_2.

(** One byte of the output is the first one of the rotating number. *)
Lemma put_step_spec dst dpos out i a b c d :
  is_byte a -> is_byte b -> is_byte c -> is_byte d -> filled dst dpos out -> dpos < zlen dst ->
  exists dst', put_step i (dst, dpos, be_at 24 [a; b; c; d]) = Ret (dst', dpos + 1, be_at 24 [b; c; d; a]) /\
    zlen dst' = zlen dst /\ filled dst' (dpos + 1) (out ++ [a]).
Proof.
  intros Ha Hb Hc Hd Hf Hlt. unfold put_step.
  pose proof (rotate_or (be_at 24 [a; b; c; d]) 24) as Hrot. change (32 - 24) with 8 in Hrot.
  rewrite Hrot; [clear Hrot|apply be_at_u32; [all_bytes|cbn [length]; lia]|lia].
  assert (rotr 24 (be_at 24 [a; b; c; d]) = be_at 24 [b; c; d; a]) as ->.
  { unfold rotr, is_byte in *. cbn [be_at].
    change (24 - 8 - 8 - 8) with 0. change (24 - 8 - 8) with 8. change (24 - 8) with 16. change (32 - 24) with 8.
    change (2 ^ 24) with 16777216. change (2 ^ 16) with 65536. change (2 ^ 8) with 256. change (2 ^ 0) with 1.
    Z.to_euclidean_division_equations; lia. }
  assert (u8 (be_at 24 [b; c; d; a]) = a) as ->.
  { unfold u8, is_byte in *. cbn [be_at].
    change (24 - 8 - 8 - 8) with 0. change (24 - 8 - 8) with 8. change (24 - 8) with 16.
    change (2 ^ 24) with 16777216. change (2 ^ 16) with 65536. change (2 ^ 8) with 256. change (2 ^ 0) with 1.
    Z.to_euclidean_division_equations; lia. }
  destruct (filled_wr _ _ _ a Hf Hlt) as [-> Hf']. run. eexists. split; [done|]. split; [apply zlen_insert|done].
Qed.

Lemma put_bytes dst dpos out v n :
  is_u32 v -> filled dst dpos out -> (n <= 4)%nat -> dpos + Z.of_nat n <= zlen dst ->
  exists dst' acc, for_n n 0 put_step (dst, dpos, v) = Ret (dst', dpos + Z.of_nat n, acc) /\
    zlen dst' = zlen dst /\ filled dst' (dpos + Z.of_nat n) (out ++ take n (be32 v)).
Proof.
  intros Hv Hf Hn Hroom. pose proof (be_at_32 v Hv) as Hval. pose proof (be32_byte v) as Hb.
  assert (length (be32 v) = 4%nat) as Hl by done.
  revert Hval Hb Hl. generalize (be32 v). intros l Hval Hb Hl. subst v.
  assert (forall n l dst dpos out i, (n <= 4)%nat -> length l = 4%nat -> is_bytes l -> filled dst dpos out ->
    dpos + Z.of_nat n <= zlen dst ->
    exists dst' acc, for_n n i put_step (dst, dpos, be_at 24 l) = Ret (dst', dpos + Z.of_nat n, acc) /\
      zlen dst' = zlen dst /\ filled dst' (dpos + Z.of_nat n) (out ++ take n l)) as Hgo; [|by apply Hgo].
  clear. intros n. induction n as [|n IH]; intros l dst dpos out i Hn Hl Hb Hf Hroom.
  - rewrite take_0, Z.add_0_r, app_nil_r. by eexists _, _.
  - destruct l as [|a [|b [|c [|d [|]]]]]; try done. rewrite !Forall_cons_iff in Hb. destruct Hb as (Ha & Hb & Hc & Hd & _).
    cbn [for_n]. destruct (put_step_spec dst dpos out i a b c d) as (dst1 & -> & Hz & Hf1); [done..|lia|]. run.
    destruct (IH [b; c; d; a] dst1 (dpos + 1) (out ++ [a]) (i + 1)) as (dst' & acc & -> & Hz' & Hf'); [lia|done| |done|lia|].
    { all_bytes. }
    exists dst', acc. split; [do 3 f_equal; lia|]. split; [lia|].
    replace (dpos + Z.of_nat (S n)) with (dpos + 1 + Z.of_nat n) by lia.
    destruct n as [|[|[|[|]]]]; try lia; cbn [take] in *; by rewrite <-(assoc app) in Hf'.
Qed.

(** ** Decoding *)

Lemma digit_loop buffer extra : forall n i s pos acc,
  at_pos buffer pos (s ++ 0 :: extra) -> is_bytes s -> 0 <= acc -> (acc + 1) * 85 ^ Z.of_nat n <= 2 ^ 32 ->
  for_range n i (digit_step de85_full buffer) (pos, acc) =
    match (if bool_decide (n <= length s)%nat then mapM digit85 (take n s) else None) with
    | Some ds => Ret (inl (pos + Z.of_nat n, foldl (fun v d => v * 85 + d) acc ds))
    | None => Ret (inr tt)
    end.
Proof.
  intros n. induction n as [|n IH]; intros i s pos acc Hat Hs Hacc Hsmall.
  - rewrite bool_decide_true by lia. cbn [for_range take mapM foldl]. by rewrite Z.add_0_r.
  - cbn [for_range].
    assert (digit_step de85_full buffer i (pos, acc) =
      (ch ← rd buffer pos; de ← rd de85_full ch;
       if de - 1 <? 0 then Ret (inr tt) else Ret (inl (pos + 1, u32 (acc * 85 + (de - 1)))))) as -> by done.
    destruct s as [|c s].
    + rewrite bool_decide_false by (cbn [length]; lia). apply at_pos_cons in Hat as [-> _]. run.
      rewrite rd_de85 by (unfold is_byte; lia). run. done.
    + apply at_pos_cons in Hat as [-> Hat]. run. apply Forall_cons_iff in Hs as [Hc Hs]. rewrite rd_de85 by done. run.
      cbn [length take mapM]. destruct (digit85 c) as [d|] eqn:Ed.
      * apply digit85_range in Ed as [Hd _]. replace (d + 1 - 1) with d by lia. rewrite (proj2 (Z.ltb_ge d 0)) by lia. run.
        rewrite Nat2Z.inj_succ, Z.pow_succ_r in Hsmall by lia. pose proof (Z.pow_pos_nonneg 85 (Z.of_nat n)).
        rewrite u32_small by nia. rewrite (IH _ s _ _ Hat Hs) by nia.
        assert (bool_decide (S n <= S (length s))%nat = bool_decide (n <= length s)%nat) as -> by (apply bool_decide_ext; lia).
        case_bool_decide; [|done]. cbn [mbind option_bind]. destruct (mapM digit85 (take n s)) as [ds|]; [|done].
        cbn [mret option_ret foldl]. do 3 f_equal. lia.
      * cbn [mbind option_bind]. destruct (bool_decide (S n <= S (length s))%nat); done.
Qed.

Definition next_group (s : list Z) : option Z := if bool_decide (5 <= length s)%nat then group_value (take 5 s) else None.

Lemma next_group_u32 s v : next_group s = Some v -> is_u32 v.
Proof.
  unfold next_group, group_value. case_bool_decide; [|done]. destruct (mapM digit85 (take 5 s)) as [ds|] eqn:E; [|done].
  cbn [mbind option_bind]. destruct (Z.ltb_spec (foldl (fun v d => v * 85 + d) 0 ds) (2 ^ 32)); [|done]. intros [= <-].
  split; [|done]. apply mapM_Some in E.
  assert (forall acc, 0 <= acc -> 0 <= foldl (fun v d => v * 85 + d) acc ds) as Hnn; [|by apply Hnn].
  clear -E. induction E as [|c d cs ds Hd _ IH]; [done|]. intros acc Hacc. cbn [foldl]. apply IH.
  apply digit85_range in Hd. lia.
Qed.

Lemma decode_group_spec buffer extra s pos dst dpos len out :
  at_pos buffer pos (s ++ 0 :: extra) -> is_bytes s -> 0 < len -> filled dst dpos out -> dpos + len <= zlen dst ->
  match next_group s with
  | Some v =>
      exists dst', decode_group de85_full buffer (pos, dst, dpos, len) =
          Ret (inl (pos + 5, dst', dpos + Z.min len 4, len - Z.min len 4)) /\
        zlen dst' = zlen dst /\ filled dst' (dpos + Z.min len 4) (out ++ take (Z.to_nat len) (be32 v))
  | None => decode_group de85_full buffer (pos, dst, dpos, len) = Ret (inr (dst, -1))
  end.
Proof.
  intros Hat Hs Hlen Hf Hroom. unfold decode_group. rewrite (proj2 (tru_true len)) by lia. cbn [negb].
  rewrite (digit_loop _ extra 4 0 s pos 0 Hat Hs) by (simpl; lia). unfold next_group.
  destruct (decide (5 <= length s)%nat) as [H5|H5].
  2:{ rewrite (bool_decide_false (5 <= length s)%nat) by done. case_bool_decide as H4; [|done].
      destruct (mapM digit85 (take 4 s)) as [ds|]; [|done]. run.
      assert (length s = 4)%nat as Hl by lia.
      destruct (at_pos_app _ _ _ _ Hat) as [_ Hat']. replace (zlen s) with (Z.of_nat 4) in Hat' by (unfold zlen; lia).
      apply at_pos_cons in Hat' as [-> _]. run. rewrite rd_de85 by (unfold is_byte; lia). run. done. }
  rewrite !bool_decide_true by lia. destruct s as [|a [|b [|c [|d [|e s]]]]]; try (cbn [length] in H5; lia). clear H5.
  change (take 4 (a :: b :: c :: d :: e :: s)) with [a; b; c; d].
  change (take 5 (a :: b :: c :: d :: e :: s)) with [a; b; c; d; e].
  rewrite !Forall_cons_iff in Hs. destruct Hs as (_ & _ & _ & _ & He & Hs).
  change ((a :: b :: c :: d :: e :: s) ++ 0 :: extra) with ([a; b; c; d] ++ e :: (s ++ 0 :: extra)) in Hat.
  destruct (at_pos_app _ _ _ _ Hat) as [_ Hat']. change (zlen [a; b; c; d]) with (Z.of_nat 4) in Hat'.
  apply at_pos_cons in Hat' as [Hrd _]. unfold group_value. cbn [mapM].
  destruct (digit85 a) as [da|] eqn:Ea; [|done]. destruct (digit85 b) as [db|] eqn:Eb; [|done].
  destruct (digit85 c) as [dc|] eqn:Ec; [|done]. destruct (digit85 d) as [dd|] eqn:Ed; [|done].
  cbn [mbind option_bind mret option_ret outcome_bind]. rewrite Hrd. run. rewrite rd_de85 by done. run.
  destruct (digit85 e) as [de|] eqn:Ee; [|done]. cbn [mbind option_bind mret option_ret foldl].
  apply digit85_range in Ea as [Ha _], Eb as [Hb _], Ec as [Hc _], Ed as [Hd _], Ee as [He' _].
  replace (de + 1 - 1) with de by lia. rewrite (proj2 (Z.ltb_ge de 0)) by lia.
  set (acc := (((0 * 85 + da) * 85 + db) * 85 + dc) * 85 + dd). assert (0 <= acc < 85 ^ 4) as Hacc by (unfold acc; lia).
  clearbody acc. change (2 ^ 32) with 4294967296. change (4294967295 / 85) with 50529027.
  destruct (Z.ltb_spec 50529027 acc).
  { rewrite (proj2 (Z.ltb_ge _ 4294967296)) by lia. done. }
  rewrite (u32_small (acc * 85)) by lia. destruct (Z.ltb_spec (4294967295 - de) (acc * 85)).
  { rewrite (proj2 (Z.ltb_ge _ 4294967296)) by lia. done. }
  rewrite (proj2 (Z.ltb_lt _ 4294967296)), u32_small by lia.
  assert ((if len <? 4 then len else 4) = Z.min len 4) as -> by (destruct (Z.ltb_spec len 4); lia).
  destruct (put_bytes dst dpos out (acc * 85 + de) (Z.to_nat (Z.min len 4))) as (dst' & acc' & -> & Hz & Hf');
    [split; [lia|]; change (2 ^ 32) with 4294967296; lia|done|lia|lia|].
  run. rewrite Z2Nat.id in Hf' |- * by lia. exists dst'. split; [do 5 f_equal; lia|]. split; [done|].
  destruct (Z.le_gt_cases len 4); [by rewrite Z.min_l in Hf' |- * by lia|]. rewrite Z.min_r in Hf' |- * by lia.
  by rewrite take_ge in Hf' |- * by (cbn [length be32]; lia).
Qed.

Lemma decode_85_loop buffer extra : forall fuel fuel' s pos dst dpos len out,
  at_pos buffer pos (s ++ 0 :: extra) -> is_bytes s -> (len < fuel)%nat -> (len <= fuel')%nat ->
  filled dst dpos out -> dpos + Z.of_nat len <= zlen dst ->
  exists dst' ret, loop fuel (decode_group de85_full buffer) (pos, dst, dpos, Z.of_nat len) = Ret (dst', ret) /\
    zlen dst' = zlen dst /\
    match unbase85_groups fuel' s len with
    | Some bs => ret = 0 /\ length bs = len /\ filled dst' (dpos + Z.of_nat len) (out ++ bs)
    | None => ret = -1
    end.
Proof.
  intros fuel. induction fuel as [|fuel IH]; intros fuel' s pos dst dpos len out Hat Hs Hlen Hlen' Hf Hroom; [lia|].
  destruct len as [|len].
  { exists dst, 0. split; [by apply loop_stop|]. split; [done|]. destruct fuel'; cbn [unbase85_groups];
      (split; [done|]; split; [done|]; by rewrite Z.add_0_r, app_nil_r). }
  destruct fuel' as [|fuel']; [lia|]. cbn [unbase85_groups].
  pose proof (decode_group_spec buffer extra s pos dst dpos (Z.of_nat (S len)) out Hat Hs ltac:(lia) Hf Hroom) as Hg.
  unfold next_group in Hg. pose proof (next_group_u32 s) as Hu32. unfold next_group in Hu32.
  destruct (bool_decide_reflect (5 <= length s)%nat) as [H5|]; [|exists dst, (-1); split; [by apply loop_stop|done]].
  cbn [mbind option_bind]. destruct (group_value (take 5 s)) as [v|]; [|exists dst, (-1); split; [by apply loop_stop|done]].
  destruct Hg as (dst1 & Hg & Hz1 & Hf1). rewrite (loop_next _ _ _ _ Hg).
  assert (Z.of_nat (S len) - Z.min (Z.of_nat (S len)) 4 = Z.of_nat (S len - 4)) as -> by lia.
  rewrite <-(take_drop 5 s), <-(assoc app) in Hat. destruct (at_pos_app _ _ _ _ Hat) as [_ Hat'].
  replace (zlen (take 5 s)) with 5 in Hat' by (unfold zlen; rewrite length_take; lia).
  destruct (IH fuel' (drop 5 s) (pos + 5) dst1 (dpos + Z.min (Z.of_nat (S len)) 4) (S len - 4)%nat
    (out ++ take (Z.to_nat (Z.of_nat (S len))) (be32 v)) Hat')
    as (dst' & ret & Hl & Hz & Hr); [by apply Forall_drop|lia|lia|exact Hf1|lia|].
  exists dst', ret. split; [done|]. split; [lia|]. destruct (unbase85_groups fuel' (drop 5 s) (S len - 4)) as [rest|]; [|done].
  destruct Hr as (-> & Hlr & Hfr). split; [done|]. rewrite Nat2Z.id in Hfr.
  split; [rewrite length_app, length_take; cbn [length be32]; lia|].
  rewrite <-(assoc app) in Hfr. by replace (dpos + Z.min (Z.of_nat (S len)) 4 + Z.of_nat (S len - 4)) with (dpos + Z.of_nat (S len)) in Hfr by lia.
Qed.

(** ** Encoding *)

Lemma tuple3_eq (a b c a' b' c' : Z) : a = a' -> b = b' -> c = c' -> (a, b, c) = (a', b', c').
Proof. by intros -> -> ->. Qed.

Lemma gather_loop data : forall n i l k dpos,
  i + Z.of_nat n = 4 -> 0 <= i -> is_bytes l -> l <> [] -> at_pos data dpos l ->
  exists r, for_range n i (gather_step data) (k * 2 ^ (32 - 8 * i), dpos, zlen l) = Ret r /\
    match r with inl st => st | inr st => st end =
      (k * 2 ^ (32 - 8 * i) + be_at (24 - 8 * i) (take n l), dpos + Z.min (Z.of_nat n) (zlen l), zlen l - Z.min (Z.of_nat n) (zlen l)).
Proof.
  intros n. induction n as [|n IH]; intros i l k dpos Hi Hi0 Hl Hne Hat.
  { eexists. split; [done|]. rewrite take_0. cbn [be_at]. pose proof (zlen_nonneg l). apply tuple3_eq; lia. }
  destruct l as [|x l]; [done|]. cbn [for_range].
  assert (gather_step data i (k * 2 ^ (32 - 8 * i), dpos, zlen (x :: l)) =
    let st := ((k * 2 ^ 8 + x) * 2 ^ (32 - 8 * (i + 1)), dpos + 1, zlen l) in
    if zlen l =? 0 then Ret (inr st) else Ret (inl st)) as ->.
  { apply at_pos_cons in Hat as [Hrd _]. unfold gather_step. rewrite Hrd. run.
    apply Forall_cons_iff in Hl as [Hx _]. unfold is_byte in Hx.
    assert (Z.lor (k * 2 ^ (32 - 8 * i)) (u32 (Z.shiftl x (24 - 8 * i))) = (k * 2 ^ 8 + x) * 2 ^ (32 - 8 * (i + 1))) as ->.
    { replace (32 - 8 * (i + 1)) with (24 - 8 * i) by lia. replace (32 - 8 * i) with (8 + (24 - 8 * i)) by lia.
      assert (0 < 2 ^ (24 - 8 * i)) by (apply Z.pow_pos_nonneg; lia).
      assert (2 ^ (8 + (24 - 8 * i)) = 2 ^ 8 * 2 ^ (24 - 8 * i)) as Hp by (apply Z.pow_add_r; lia).
      assert (2 ^ (8 + (24 - 8 * i)) <= 2 ^ 32) by (apply Z.pow_le_mono_r; lia).
      rewrite u32_small by (rewrite Z.shiftl_mul_pow2 by lia; change (2 ^ 8) with 256 in Hp; nia).
      rewrite <-(Z.shiftl_mul_pow2 k) by lia. rewrite lor_shiftl_add.
      - rewrite Z.shiftl_mul_pow2 by lia. rewrite Hp. ring.
      - lia.
      - rewrite Z.shiftl_mul_pow2 by lia. change (2 ^ 8) with 256 in Hp. nia. }
    rewrite zlen_cons. replace (1 + zlen l - 1) with (zlen l) by lia. done. }
  cbv zeta. rewrite zlen_cons. pose proof (zlen_nonneg l). apply at_pos_cons in Hat as [_ Hat].
  apply Forall_cons_iff in Hl as [_ Hl]. cbn [take be_at].
  assert (forall t, (k * 2 ^ 8 + x) * 2 ^ (32 - 8 * (i + 1)) + t = k * 2 ^ (32 - 8 * i) + (x * 2 ^ (24 - 8 * i) + t)) as Hsum.
  { intros t. replace (32 - 8 * (i + 1)) with (24 - 8 * i) by lia. replace (32 - 8 * i) with (8 + (24 - 8 * i)) by lia.
    rewrite (Z.pow_add_r 2 8) by lia. ring. }
  destruct (Z.eqb_spec (zlen l) 0) as [Hz|Hz].
  - assert (l = []) as -> by (apply length_zero_iff_nil; unfold zlen in Hz; lia). run. eexists. split; [done|].
    rewrite take_nil. cbn [be_at]. rewrite <-Hsum. rewrite Z.min_r by (rewrite zlen_nil; lia). rewrite zlen_nil. apply tuple3_eq; lia.
  - run. destruct (IH (i + 1) l (k * 2 ^ 8 + x) (dpos + 1)) as (r & -> & Hr); [lia|lia|done|by intros ->|done|].
    exists r. split; [done|]. rewrite Hr, Hsum. replace (24 - 8 * (i + 1)) with (24 - 8 * i - 8) by lia. apply tuple3_eq; lia.
Qed.

Lemma emit_one (pre xs : list Z) i v :
  0 <= v -> 0 <= 4 - i < zlen xs ->
  emit_step (zlen pre) i (pre ++ xs, v) = Ret (pre ++ <[Z.to_nat (4 - i) := char85 (v mod 85)]> xs, v / 85).
Proof.
  intros Hv Hi. unfold emit_step. rewrite rd_en85 by (apply Z.mod_pos_bound; lia). run. by rewrite wr_app.
Qed.

Lemma emit_group (pre xs post : list Z) v :
  0 <= v -> length xs = 5%nat ->
  exists v', for_n 5 0 (emit_step (zlen pre)) (pre ++ xs ++ post, v) = Ret (pre ++ group_of v ++ post, v').
Proof.
  intros Hv Hxs. destruct xs as [|x0 [|x1 [|x2 [|x3 [|x4 [|]]]]]]; try done. clear Hxs. pose proof (zlen_nonneg post).
  assert (forall d, 0 < d -> 0 <= v / d) as Hd by (intros; apply Z.div_pos; lia).
  cbn [for_n]. do 5 (rewrite emit_one; [run| |cbn [app]; rewrite ?zlen_insert, !zlen_cons; lia]; [|rewrite ?Z.div_div by lia; first [done|apply Hd; lia]]).
  eexists. unfold group_of. rewrite !Z.div_div by lia. reflexivity.
Qed.

Lemma encode_85_loop data : forall fuel fuel' rest buf out bpos dpos,
  (length rest < fuel)%nat -> (length rest <= fuel')%nat -> is_bytes rest -> at_pos data dpos rest -> filled buf bpos out ->
  bpos + zlen (base85_groups fuel' rest) < zlen buf ->
  exists buf', loop fuel (encode_group data) (buf, bpos, dpos, zlen rest) = Ret (buf', bpos + zlen (base85_groups fuel' rest)) /\
    zlen buf' = zlen buf /\ filled buf' (bpos + zlen (base85_groups fuel' rest)) (out ++ base85_groups fuel' rest).
Proof.
  intros fuel. induction fuel as [|fuel IH]; intros fuel' rest buf out bpos dpos Hn Hn' Hb Hat Hf Hroom; [lia|].
  destruct rest as [|x rest].
  { exists buf. assert (base85_groups fuel' [] = []) as -> by (by destruct fuel'). rewrite zlen_nil, Z.add_0_r, app_nil_r.
    split; [|done]. by apply loop_stop. }
  destruct fuel' as [|fuel']; [cbn [length] in Hn'; lia|]. cbn [base85_groups] in *.
  set (l := x :: rest) in *. set (v := be_at 24 (take 4 l)) in *. change (zlen (group_of v ++ base85_groups fuel' (drop 4 l)))
    with (Z.of_nat (5 + length (base85_groups fuel' (drop 4 l)))) in *. set (tail := base85_groups fuel' (drop 4 l)) in *.
  assert (is_u32 v) as Hv.
  { apply be_at_u32; [by apply Forall_take|rewrite length_take; lia]. }
  assert (exists buf1, encode_group data (buf, bpos, dpos, zlen l) =
      Ret (inl (buf1, bpos + 5, dpos + Z.min 4 (zlen l), zlen l - Z.min 4 (zlen l))) /\
    zlen buf1 = zlen buf /\ filled buf1 (bpos + 5) (out ++ group_of v)) as (buf1 & Hstep & Hz1 & Hf1).
  { unfold encode_group. rewrite (proj2 (tru_true _)) by (unfold l; rewrite zlen_cons; pose proof (zlen_nonneg rest); lia).
    cbn [negb]. destruct (gather_loop data 4 0 l 0 dpos) as (r & Hg & Hr); [done|lia|done|done|done|].
    rewrite Z.mul_0_l in Hg, Hr. rewrite Hg. run. rewrite Hr. rewrite Z.add_0_l.
    change (24 - 8 * 0) with 24. fold v. change (Z.of_nat 4) with 4.
    pose proof Hf as [Hpos [r0 Hbuf]]. rewrite Hbuf.
    assert (exists xs post, r0 = xs ++ post /\ length xs = 5%nat) as (xs & post & -> & Hxs).
    { exists (take 5 r0), (drop 5 r0). rewrite take_drop. split; [done|]. rewrite length_take.
      rewrite Hbuf, zlen_app in Hroom. unfold zlen in *. lia. }
    rewrite <-Hpos. destruct (emit_group out xs post v) as (v' & ->); [apply Hv|done|]. run. eexists. split; [done|].
    split; [unfold zlen; rewrite !length_app; cbn [length group_of fmap list_fmap]; lia|]. split.
    - rewrite zlen_app. done.
    - exists post. by rewrite (assoc app). }
  rewrite (loop_next _ _ _ _ Hstep). assert (zlen l - Z.min 4 (zlen l) = zlen (drop 4 l)) as ->.
  { unfold zlen. rewrite length_drop. lia. }
  assert (at_pos data (dpos + Z.min 4 (zlen l)) (drop 4 l)) as Hat1.
  { rewrite <-(take_drop 4 l) in Hat. apply at_pos_app in Hat as [_ Hat].
    replace (zlen (take 4 l)) with (Z.min 4 (zlen l)) in Hat; [done|]. unfold zlen. rewrite length_take. lia. }
  destruct (IH fuel' (drop 4 l) buf1 (out ++ group_of v) (bpos + 5) (dpos + Z.min 4 (zlen l))) as (buf' & Hl & Hz & Hf');
    [rewrite length_drop; unfold l in *; cbn [length] in *; lia..|by apply Forall_drop|exact Hat1|done|fold tail; unfold zlen in *; lia|].
  exists buf'. fold tail in Hl, Hf'. rewrite Hl. replace (bpos + 5 + zlen tail) with (bpos + Z.of_nat (5 + length tail)) in * by (unfold zlen; lia).
  split; [done|]. split; [lia|]. by rewrite (assoc app).
Qed.

Lemma group_value_of v : is_u32 v -> group_value (group_of v) = Some v.
Proof.
  unfold is_u32. intros Hv. unfold group_value, group_of. cbn [fmap list_fmap mapM].
  assert (forall d, digit85 (char85 (d mod 85)) = Some (d mod 85)) as Hd by (intros; apply digit85_char, Z.mod_pos_bound; lia).
  assert (v / 85 ^ 4 mod 85 = v / 85 ^ 4) as Htop.
  { apply Z.mod_small. change (85 ^ 4) with 52200625. change (2 ^ 32) with 4294967296 in Hv. Z.to_euclidean_division_equations; lia. }
  rewrite !Hd. cbn [mbind option_bind mret option_ret foldl]. rewrite Htop.
  assert ((((0 * 85 + v / 85 ^ 4) * 85 + v / 85 ^ 3 mod 85) * 85 + v / 85 ^ 2 mod 85) * 85 + v / 85 mod 85 = v / 85) as Hpre.
  { change (85 ^ 4) with (85 * 85 * 85 * 85). change (85 ^ 3) with (85 * 85 * 85). change (85 ^ 2) with (85 * 85).
    rewrite <-!Z.div_div by lia. clear. Z.to_euclidean_division_equations; lia. }
  rewrite Hpre. replace (v / 85 * 85 + v mod 85) with v by (rewrite Z.mul_comm; apply Z.div_mod; lia).
  by rewrite (proj2 (Z.ltb_lt _ _)) by lia.
Qed.

Lemma be32_first l : is_bytes l -> (0 < length l)%nat -> take (length l) (be32 (be_at 24 (take 4 l))) = take 4 l.
Proof.
  intros Hb Hl.
  assert (forall l n, is_bytes l -> (length l + n = 4)%nat -> be_at 24 l = be_at 24 (l ++ replicate n 0)) as Hpad.
  { clear. assert (forall n k, be_at k (replicate n 0) = 0) as H0.
    { intros n. induction n as [|n IH]; intros k; [done|]. cbn [replicate be_at]. by rewrite IH. }
    assert (forall l n k, be_at k (l ++ replicate n 0) = be_at k l) as Ha.
    { intros l n. induction l as [|x l IH]; intros k; [apply H0|]. cbn [app be_at]. by rewrite IH. }
    intros. by rewrite Ha. }
  assert (forall t, is_bytes t -> length t = 4%nat -> be32 (be_at 24 t) = t) as H4.
  { intros t Ht Hlen. destruct t as [|a [|b [|c [|d [|]]]]]; try done. rewrite !Forall_cons_iff in Ht.
    destruct Ht as (? & ? & ? & ? & _). by apply be32_be_at. }
  assert (is_bytes (replicate (4 - length (take 4 l)) 0)) by (apply Forall_replicate; unfold is_byte; lia).
  rewrite (Hpad (take 4 l) (4 - length (take 4 l))%nat) by (by apply Forall_take || (rewrite length_take; lia)).
  rewrite H4 by (first [apply Forall_app; split; [by apply Forall_take|done] | rewrite length_app, length_replicate, length_take; lia]).
  destruct (Nat.le_gt_cases (length l) 4) as [Hle|Hgt].
  - rewrite (take_ge l 4) by lia. by rewrite take_app_length.
  - rewrite take_ge by (rewrite length_app, length_replicate, length_take; lia).
    rewrite length_take. replace (4 - 4 `min` length l)%nat with 0%nat by lia. apply app_nil_r.
Qed.

Lemma unbase85_base85 : forall fuel fuel' data,
  (length data <= fuel)%nat -> (length data <= fuel')%nat -> is_bytes data ->
  unbase85_groups fuel (base85_groups fuel' data) (length data) = Some data.
Proof.
  intros fuel. induction fuel as [|fuel IH]; intros fuel' data Hf Hf' Hb.
  { destruct data; [done|cbn [length] in Hf; lia]. }
  destruct data as [|x data]; [done|]. destruct fuel' as [|fuel']; [cbn [length] in Hf'; lia|].
  cbn [base85_groups]. set (l := x :: data) in *. change (length l) with (S (length data)) at 1. cbn [unbase85_groups].
  assert (forall t, bool_decide (5 <= length (group_of (be_at 24 (take 4 l)) ++ t))%nat = true) as ->.
  { intros t. apply bool_decide_true. rewrite length_app. cbn [length group_of fmap list_fmap]. lia. }
  rewrite take_app_length', drop_app_length' by done. rewrite group_value_of.
  2:{ apply be_at_u32; [by apply Forall_take|rewrite length_take; lia]. }
  cbn [mbind option_bind]. change (S (length data)) with (length l). rewrite be32_first by (done || (unfold l; cbn [length]; lia)).
  rewrite <-length_drop, IH by (first [by apply Forall_drop|rewrite length_drop; unfold l in *; cbn [length] in *; lia]).
  cbn [mbind option_bind]. by rewrite take_drop.
Qed.

Lemma base85_length fuel : forall data, (length data <= fuel)%nat -> zlen (base85_groups fuel data) = 5 * ((zlen data + 3) / 4).
Proof.
  induction fuel as [|fuel IH]; intros data Hf.
  { destruct data; [done|cbn [length] in Hf; lia]. }
  destruct data as [|x data]; [done|]. cbn [base85_groups]. set (l := x :: data) in *. rewrite zlen_app.
  rewrite IH by (rewrite length_drop; unfold l in *; cbn [length] in *; lia).
  change (zlen (group_of (be_at 24 (take 4 l)))) with 5.
  assert (zlen (drop 4 l) = Z.max 0 (zlen l - 4)) as -> by (unfold zlen; rewrite length_drop; lia).
  assert (0 < zlen l) by (unfold l; rewrite zlen_cons; pose proof (zlen_nonneg data); lia).
  Z.to_euclidean_division_equations; lia.
Qed.

Lemma decode_85_spec de85 dst s extra len :
  de85_state de85 -> is_bytes s -> Z.of_nat len <= zlen dst ->
  exists dst' ret, decode_85 de85 dst (s ++ 0 :: extra) (Z.of_nat len) = Ret (de85_full, dst', ret) /\ zlen dst' = zlen dst /\
    match unbase85 s len with
    | Some bs => ret = 0 /\ length bs = len /\ take len dst' = bs
    | None => ret = -1
    end.
Proof.
  intros Hde Hs Hroom. unfold decode_85. rewrite (prep_base85_spec de85 Hde). run.
  destruct (decode_85_loop (s ++ 0 :: extra) extra (S (Z.to_nat (Z.of_nat len))) len s 0 dst 0 len [])
    as (dst' & ret & -> & Hz & Hr); [apply at_pos_0|done|lia|lia|apply filled_nil|lia|].
  run. exists dst', ret. split; [done|]. split; [done|]. unfold unbase85. destruct (unbase85_groups len s len) as [bs|]; [|done].
  destruct Hr as (-> & Hl & Hf). split; [done|]. split; [done|]. apply filled_take in Hf. by rewrite Z.add_0_l, Nat2Z.id in Hf.
Qed.

(** * Claims *)

(** [C18] Binary data survives base 85: [encode_85] writes a NUL-terminated text of
    five characters for every four bytes begun, inside its buffer, and
    [decode_85] of that text and the number of bytes succeeds and rebuilds
    exactly the data, whether or not the static table was filled in before. *)
Theorem base85_roundtrip (de85 buf dst data : list Z) :
  de85_state de85 -> is_bytes data -> 5 * ((zlen data + 3) / 4) < zlen buf -> zlen data <= zlen dst ->
  exists text rest dst', encode_85 buf data (zlen data) = Ret (text ++ 0 :: rest) /\
    zlen text = 5 * ((zlen data + 3) / 4) /\
    decode_85 de85 dst (text ++ 0 :: rest) (zlen data) = Ret (de85_full, dst', 0) /\
    take (length data) dst' = data.
Proof.
  intros Hde Hb Hbuf Hdst. pose proof (base85_length (length data) data ltac:(lia)) as Hlen.
  destruct (encode_85_loop data (S (Z.to_nat (zlen data))) (length data) data buf [] 0 0) as (buf' & Hl & Hz & Hf);
    [unfold zlen; lia|lia|done|apply at_pos_0|apply filled_nil|lia|].
  rewrite Z.add_0_l in Hl, Hf. cbn [app] in Hf.
  destruct (filled_wr _ _ _ 0 Hf) as [Hwr [_ [rest Hbuf']]]; [lia|]. rewrite Hbuf', <-(assoc app) in Hwr. cbn [app] in Hwr.
  assert (is_bytes (base85_groups (length data) data)) as Hbt.
  { clear. generalize (length data). intros n. revert data. induction n as [|n IH]; intros [|x data]; cbn [base85_groups]; try done.
    apply Forall_app. split; [|apply IH]. unfold group_of. repeat (apply Forall_cons_2; [apply digit85_char, Z.mod_pos_bound; lia|]).
    apply Forall_nil_2. }
  destruct (decode_85_spec de85 dst (base85_groups (length data) data) rest (length data) Hde Hbt) as (dst' & ret & Hd & _ & Hr);
    [exact Hdst|].
  unfold unbase85 in Hr. rewrite unbase85_base85 in Hr by (done || lia). destruct Hr as (-> & _ & Ht).
  exists (base85_groups (length data) data), rest, dst'. split; [|done].
  unfold encode_85. rewrite Hl. run. exact Hwr.
Qed.

Lemma base85_roundtrip_witness :
  let data := [1; 2; 255; 4; 200] in
  encode_85 (replicate 11 7) data 5 = Ret ([48; 82; 115; 79; 55; 36; 78; 38; 72; 85] ++ [0]) /\
  exists text rest dst', encode_85 (replicate 11 7) data (zlen data) = Ret (text ++ 0 :: rest) /\
    zlen text = 5 * ((zlen data + 3) / 4) /\
    decode_85 de85_zero (replicate 5 0) (text ++ 0 :: rest) (zlen data) = Ret (de85_full, dst', 0) /\
    take (length data) dst' = data.
Proof.
  cbv zeta. split; [vm_compute; reflexivity|].
  apply (base85_roundtrip de85_zero (replicate 11 7) (replicate 5 0) [1; 2; 255; 4; 200]); [by left|evaluate..].
Defined.

(** [C19] [decode_85] accepts exactly the base-85 texts: on any NUL-terminated text it
    stays inside its buffers and ends, it returns 0 exactly when each group it
    needs is five characters of the alphabet whose number is below 2^32, the
    bytes written are then the big-endian bytes of those numbers, and it
    returns -1 otherwise. *)
Theorem decode_85_exact (de85 dst s extra : list Z) (len : nat) :
  de85_state de85 -> is_bytes s -> Z.of_nat len <= zlen dst ->
  exists dst' ret, decode_85 de85 dst (s ++ 0 :: extra) (Z.of_nat len) = Ret (de85_full, dst', ret) /\ zlen dst' = zlen dst /\
    match unbase85 s len with
    | Some bs => ret = 0 /\ length bs = len /\ take len dst' = bs
    | None => ret = -1
    end.
Proof. apply decode_85_spec. Qed.

Lemma decode_85_exact_witness :
  let s := [126; 126; 126; 126; 126] in       (* 85^5 - 1, beyond 32 bits *)
  unbase85 s 4 = None /\ unbase85 [124; 78; 115; 67; 48] 4 = Some [255; 255; 255; 255] /\
  exists dst' ret, decode_85 de85_full (replicate 4 0) (s ++ 0 :: []) (Z.of_nat 4) = Ret (de85_full, dst', ret) /\
    zlen dst' = zlen (replicate 4 0) /\
    match unbase85 s 4 with
    | Some bs => ret = 0 /\ length bs = 4%nat /\ take 4 dst' = bs
    | None => ret = -1
    end.
Proof.
  cbv zeta. split; [vm_compute; reflexivity|]. split; [vm_compute; reflexivity|].
  apply (decode_85_exact de85_full (replicate 4 0) [126; 126; 126; 126; 126] [] 4); [by right|evaluate..].
Defined.
