(* ===== verification/Hex.v ===== *)
(** hex.c: object names as hexadecimal text, for every hash algorithm. *)
From S2P Require Import Prelude Headers HexLl.

(** * The structures *)

(** The fields of [struct git_hash_algo] that are used here, with its position
    in [hash_algos]. *)
Record git_hash_algo := HashAlgo { algo_no : Z; rawsz : Z; hexsz : Z }.

(** [struct object_id]. *)
Record object_id := Oid { oid_hash : list Z; oid_algo : Z }.

(** hash.h and the tables it declares. *)
Class HashAlgos := {
  GIT_MAX_RAWSZ : Z;
  GIT_HASH_UNKNOWN : Z;
  GIT_MAX_HEXSZ : Z;
  hash_algos : list git_hash_algo;
  the_hash_algo : git_hash_algo;
  oid_set_algo : object_id -> git_hash_algo -> object_id;
}.

Class HashAlgosOk `{HashAlgos} : Prop := {
  GIT_HASH_UNKNOWN_0 : GIT_HASH_UNKNOWN = 0;
  GIT_MAX_HEXSZ_2 : GIT_MAX_HEXSZ = 2 * GIT_MAX_RAWSZ;
  hash_algos_no i a : hash_algos !! i = Some a -> algo_no a = Z.of_nat i;
  hash_algos_size i a : hash_algos !! i = Some a -> 0 <= rawsz a <= GIT_MAX_RAWSZ /\ hexsz a = 2 * rawsz a;
  (** "hash algorithms being in order from shortest length to longest" *)
  hash_algos_order i j a b :
    hash_algos !! i = Some a -> hash_algos !! j = Some b -> (i < j)%nat -> rawsz a < rawsz b;
  the_hash_algo_in : exists i, (0 < i)%nat /\ hash_algos !! i = Some the_hash_algo;
  oid_set_algo_spec oid algop : oid_set_algo oid algop = Oid (oid_hash oid) (algo_no algop);
}.

(** * Model *)

Section model.
Context `{HexHeader} `{HashAlgos}.

(** [hash] and the pointer [hex]; left with [return -1]. *)
Definition hash_hex_step (i : Z) (st : list Z * list Z) : outcome ((list Z * list Z) + list Z) :=
  let '(hash, hex) := st in
  let val := hex2chr hex in
  if val <? 0 then Ret (inr hash) else
  hash ← wr hash i val;
  Ret (inl (hash, drop 2 hex)).

Definition get_hash_hex_algop (hex hash : list Z) (algop : git_hash_algo) : outcome (list Z * Z) :=
  r ← for_range (Z.to_nat (rawsz algop)) 0 hash_hex_step (hash, hex);
  match r with
  | inl (hash, _) => Ret (hash, 0)
  | inr hash => Ret (hash, -1)
  end.

Definition get_hash_hex (hex sha1 : list Z) : outcome (list Z * Z) := get_hash_hex_algop hex sha1 the_hash_algo.

Definition get_oid_hex_algop (hex : list Z) (oid : object_id) (algop : git_hash_algo) : outcome (object_id * Z) :=
  '(hash, ret) ← get_hash_hex_algop hex (oid_hash oid) algop;
  let oid := Oid hash (oid_algo oid) in
  if ret =? 0 then
    let oid := oid_set_algo oid algop in
    if negb (rawsz algop =? GIT_MAX_RAWSZ) then
      hash ← fill_range (oid_hash oid) (rawsz algop) (GIT_MAX_RAWSZ - rawsz algop) 0;
      Ret (Oid hash (oid_algo oid), ret)
    else Ret (oid, ret)
  else Ret (oid, ret).

(** The loop runs from the last algorithm down to the first known one;
    [i] is [GIT_HASH_NALGOS - 1 - k]. *)
Definition oid_hex_any_step (hex : list Z) (k : Z) (oid : object_id) : outcome (object_id + (object_id * Z)) :=
  let i := zlen hash_algos - 1 - k in
  algop ← rd hash_algos i;
  '(oid, ret) ← get_oid_hex_algop hex oid algop;
  if ret =? 0 then Ret (inr (oid, i)) else Ret (inl oid).

Definition get_oid_hex_any (hex : list Z) (oid : object_id) : outcome (object_id * Z) :=
  r ← for_range (Z.to_nat (zlen hash_algos - 1)) 0 (oid_hex_any_step hex) oid;
  match r with
  | inl oid => Ret (oid, GIT_HASH_UNKNOWN)
  | inr (oid, i) => Ret (oid, i)
  end.

Definition get_oid_hex (hex : list Z) (oid : object_id) : outcome (object_id * Z) :=
  get_oid_hex_algop hex oid the_hash_algo.

(** The object, the return value and, where it is set, the new [*end]. *)
Definition parse_oid_hex_algop (hex : list Z) (oid : object_id) (algop : git_hash_algo)
    : outcome (object_id * Z * option (list Z)) :=
  '(oid, ret) ← get_oid_hex_algop hex oid algop;
  Ret (oid, ret, if ret =? 0 then Some (drop (Z.to_nat (hexsz algop)) hex) else None).

Definition parse_oid_hex_any (hex : list Z) (oid : object_id) : outcome (object_id * Z * option (list Z)) :=
  '(oid, ret) ← get_oid_hex_any hex oid;
  if tru ret then
    algop ← rd hash_algos ret;
    Ret (oid, ret, Some (drop (Z.to_nat (hexsz algop)) hex))
  else Ret (oid, ret, None).

Definition parse_oid_hex (hex : list Z) (oid : object_id) : outcome (object_id * Z * option (list Z)) :=
  parse_oid_hex_algop hex oid the_hash_algo.

(** [static const char hex[] = "0123456789abcdef"] *)
Definition hex_chars : list Z := [48; 49; 50; 51; 52; 53; 54; 55; 56; 57; 97; 98; 99; 100; 101; 102].

Definition to_hex_step (hash : list Z) (i : Z) (buffer : list Z) : outcome (list Z) :=
  val ← rd hash i;
  h ← rd hex_chars (Z.shiftr val 4);
  buffer ← wr buffer (2 * i) h;
  l ← rd hex_chars (Z.land val 0xf);
  wr buffer (2 * i + 1) l.

Definition hash_to_hex_algop_r (buffer hash : list Z) (algop : git_hash_algo) : outcome (list Z) :=
  let algop := if algo_no algop =? 0 then the_hash_algo else algop in
  buffer ← for_n (Z.to_nat (rawsz algop)) 0 (to_hex_step hash) buffer;
  wr buffer (2 * rawsz algop) 0.

Definition oid_to_hex_r (buffer : list Z) (oid : object_id) : outcome (list Z) :=
  algop ← rd hash_algos (oid_algo oid);
  hash_to_hex_algop_r buffer (oid_hash oid) algop.

(** The static variables [bufno] and [hexbuffer]; the result is the pointer to
    [hexbuffer[bufno]]. *)
Record hexbuffers := HexBuffers { bufno : Z; hexbuffer : list (list Z) }.

Definition hash_to_hex_algop (st : hexbuffers) (hash : list Z) (algop : git_hash_algo) : outcome hexbuffers :=
  let no := (bufno st + 1) mod 4 in
  buf ← rd (hexbuffer st) no;
  buf ← hash_to_hex_algop_r buf hash algop;
  bufs ← wr (hexbuffer st) no buf;
  Ret (HexBuffers no bufs).

Definition hash_to_hex (st : hexbuffers) (hash : list Z) : outcome hexbuffers := hash_to_hex_algop st hash the_hash_algo.

Definition oid_to_hex (st : hexbuffers) (oid : object_id) : outcome hexbuffers :=
  algop ← rd hash_algos (oid_algo oid);
  hash_to_hex_algop st (oid_hash oid) algop.
End model.

(** * Specification *)

Definition hex_text (bs : list Z) : list Z := concat (hex_pair false <$> bs).

(** The name [raw] padded with zeros to the size of the array. *)
Definition oid_of `{HashAlgos} (raw : list Z) (no : Z) : object_id :=
  Oid (raw ++ replicate (Z.to_nat (GIT_MAX_RAWSZ - zlen raw)) 0) no.

(** * Correctness *)

Section proofs.
Context `{HexHeaderOk} `{HashAlgosOk}.

(** ** Parsing *)

Lemma unhex_short s n : unhex s n <> None -> (2 * n <= length s)%nat.
Proof.
  revert s. induction n as [|n IH]; intros s; cbn [unhex]; [lia|]. destruct s as [|a [|b s]]; try done.
  destruct (pair_value a b); [|done]. cbn [mbind option_bind length]. specialize (IH s).
  destruct (unhex s n); [|done]. intros _. assert (2 * n <= length s)%nat by (by apply IH). lia.
Qed.

Lemma hex2chr_value s :
  is_bytes s ->
  match unhex s 1 with
  | Some bs => exists c, bs = [c] /\ hex2chr s = c /\ 0 <= c
  | None => hex2chr s < 0
  end.
Proof.
  intros Hs. destruct (Z.lt_ge_cases (hex2chr s) 0) as [Hneg|Hpos].
  - destruct (unhex s 1) as [bs|] eqn:E; [|done]. exfalso. destruct s as [|a [|b s]]; try done. cbn [unhex] in E.
    rewrite !Forall_cons_iff in Hs. destruct Hs as (Ha & Hb & _). unfold pair_value in E.
    destruct ((hex_value a <? 0) || (hex_value b <? 0)) eqn:Q; [done|]. zb. rewrite hex2chr_spec in Hneg by (rewrite ?table_value_spec by done; done || lia).
    rewrite !table_value_spec in Hneg by done. lia.
  - destruct (hex2chr_error s Hs) as (a & b & s' & -> & Ha & Hb); [lia|].
    rewrite !Forall_cons_iff in Hs. destruct Hs as (Qa & Qb & _). rewrite hex2chr_spec by done.
    rewrite !table_value_spec in * by done. cbn [unhex]. unfold pair_value.
    rewrite (proj2 (Z.ltb_ge _ 0)), (proj2 (Z.ltb_ge _ 0)) by lia. cbn [orb mbind option_bind].
    eexists. split; [done|]. split; [done|lia].
Qed.

Lemma get_hash_loop : forall n i hash s out,
  is_bytes s -> filled hash i out -> i + Z.of_nat n <= zlen hash ->
  exists hash', zlen hash' = zlen hash /\
    match unhex s n with
    | Some bs => for_range n i hash_hex_step (hash, s) = Ret (inl (hash', drop (2 * n) s)) /\ filled hash' (i + Z.of_nat n) (out ++ bs) /\
        drop (Z.to_nat i + n) hash' = drop (Z.to_nat i + n) hash
    | None => for_range n i hash_hex_step (hash, s) = Ret (inr hash')
    end.
Proof.
  intros n. induction n as [|n IH]; intros i hash s out Hs Hf Hroom.
  { exists hash. split; [done|]. cbn [unhex for_range]. rewrite Nat.mul_0_r, drop_0, Z.add_0_r, app_nil_r. done. }
  pose proof (hex2chr_value s Hs) as Hv. cbn [for_range].
  assert (hash_hex_step i (hash, s) =
    if hex2chr s <? 0 then Ret (inr hash) else hash ← wr hash i (hex2chr s); Ret (inl (hash, drop 2 s))) as -> by done.
  assert (unhex s (S n) = (bs ← unhex s 1; rest ← unhex (drop 2 s) n; Some (bs ++ rest))) as ->.
  { destruct s as [|a [|b s]]; try done. cbn [unhex drop]. by destruct (pair_value a b). }
  destruct (unhex s 1) as [bs|] eqn:E1; cbn [mbind option_bind].
  - destruct Hv as (c & -> & Hval & Hc). rewrite Hval, (proj2 (Z.ltb_ge c 0)) by done.
    destruct (filled_wr _ _ _ c Hf) as [-> Hf1]; [lia|]. run.
    assert (is_bytes (drop 2 s)) as Hs2 by (by apply Forall_drop).
    destruct (IH (i + 1) (<[Z.to_nat i := c]> hash) (drop 2 s) (out ++ [c]) Hs2) as (hash' & Hz & Hr);
      [done|rewrite zlen_insert; lia|].
    rewrite zlen_insert in Hz. exists hash'. split; [done|]. destruct (unhex (drop 2 s) n) as [rest|]; cbn [mbind option_bind].
    + destruct Hr as (-> & Hf' & Hd). pose proof (filled_le _ _ _ Hf). rewrite drop_drop. split; [do 4 f_equal; lia|].
      replace (i + Z.of_nat (S n)) with (i + 1 + Z.of_nat n) by lia. rewrite (assoc app). split; [done|].
      replace (Z.to_nat i + S n)%nat with (Z.to_nat (i + 1) + n)%nat by lia. rewrite Hd.
      rewrite drop_insert_lt by lia. done.
    + exact Hr.
  - rewrite (proj2 (Z.ltb_lt _ 0)) by done. run. by exists hash.
Qed.

Lemma get_oid_hex_algop_spec s oid algop i :
  is_bytes s -> hash_algos !! i = Some algop -> zlen (oid_hash oid) = GIT_MAX_RAWSZ ->
  match unhex s (Z.to_nat (rawsz algop)) with
  | Some raw => get_oid_hex_algop s oid algop = Ret (oid_of raw (Z.of_nat i), 0)
  | None => exists oid', get_oid_hex_algop s oid algop = Ret (oid', -1) /\ zlen (oid_hash oid') = GIT_MAX_RAWSZ /\
      oid_algo oid' = oid_algo oid
  end.
Proof.
  intros Hs Hi Hlen. pose proof (hash_algos_no _ _ Hi) as Hno. destruct (hash_algos_size _ _ Hi) as [Hraw _].
  unfold get_oid_hex_algop, get_hash_hex_algop.
  destruct (get_hash_loop (Z.to_nat (rawsz algop)) 0 (oid_hash oid) s []) as (hash & Hz & Hr); [done|apply filled_nil|lia|].
  pose proof (unhex_bytes s (Z.to_nat (rawsz algop))) as Hlenb.
  destruct (unhex s (Z.to_nat (rawsz algop))) as [raw|].
  - destruct (Hlenb raw eq_refl) as [_ Hl]. clear Hlenb. destruct Hr as (-> & Hf & _). run. change (0 =? 0) with true. cbv iota.
    cbn [app] in Hf. rewrite Z.add_0_l, Z2Nat.id in Hf by lia.
    rewrite oid_set_algo_spec. cbn [oid_hash oid_algo]. rewrite Hno. unfold oid_of.
    assert (zlen raw = rawsz algop) as -> by (unfold zlen; lia).
    destruct (Z.eqb_spec (rawsz algop) GIT_MAX_RAWSZ) as [Heq|Hne]; cbn [negb].
    + rewrite Heq, Z.sub_diag. cbn [Z.to_nat replicate]. rewrite app_nil_r. do 2 f_equal. f_equal.
      destruct Hf as [_ [rest ->]]. assert (rest = []) as ->; [|apply app_nil_r].
      apply length_zero_iff_nil. rewrite zlen_app in Hz. unfold zlen in *. lia.
    + unfold fill_range.
      assert (zlen (replicate (Z.to_nat (GIT_MAX_RAWSZ - rawsz algop)) 0) = GIT_MAX_RAWSZ - rawsz algop) as Hzr
        by (rewrite zlen_replicate; lia).
      rewrite wr_range_in by lia. run. rewrite (filled_take _ _ _ Hf), Hzr.
      rewrite drop_ge by (unfold zlen in *; lia). by rewrite app_nil_r.
  - rewrite Hr. run. change (-1 =? 0) with false. cbv iota. eexists. split; [done|]. cbn [oid_hash oid_algo]. split; [lia|done].
Qed.
(** ** Formatting *)

Lemma rd_hex_chars d : 0 <= d < 16 -> rd hex_chars d = Ret (hex_digit false d).
Proof.
  intros Hd. assert (hex_chars = hex_digit false <$> seqZ 0 16) as -> by (vm_compute; reflexivity). by apply rd_tabulate.
Qed.

Lemma hex_text_snoc bs c : hex_text (bs ++ [c]) = hex_text bs ++ hex_pair false c.
Proof. unfold hex_text. rewrite fmap_app, concat_app. cbn [fmap list_fmap concat]. by rewrite app_nil_r. Qed.

Lemma zlen_hex_text bs : zlen (hex_text bs) = 2 * zlen bs.
Proof.
  induction bs as [|c bs IH]; [done|]. unfold hex_text in *. cbn [fmap list_fmap concat]. rewrite zlen_app, zlen_cons, IH.
  change (zlen (hex_pair false c)) with 2. lia.
Qed.

Lemma hex_text_bytes bs : is_bytes bs -> is_bytes (hex_text bs).
Proof.
  induction bs as [|c bs IH]; intros Hb; [done|]. apply Forall_cons_iff in Hb as [Hc Hb].
  destruct (byte_digits c Hc) as (Hh & Hl & _). unfold hex_text in *. cbn [fmap list_fmap concat hex_pair app].
  apply Forall_cons_2; [by apply hex_digit_byte|]. apply Forall_cons_2; [by apply hex_digit_byte|]. by apply IH.
Qed.

Lemma hash_to_hex_spec buffer raw extra algop :
  is_bytes raw -> zlen raw = rawsz (if algo_no algop =? 0 then the_hash_algo else algop) -> 2 * zlen raw < zlen buffer ->
  exists buffer', hash_to_hex_algop_r buffer (raw ++ extra) algop = Ret buffer' /\ zlen buffer' = zlen buffer /\
    filled buffer' (2 * zlen raw + 1) (hex_text raw ++ [0]).
Proof.
  intros Hb Hlen Hroom. unfold hash_to_hex_algop_r. rewrite <-Hlen.
  destruct (for_n_ret (fun i b => zlen b = zlen buffer /\ filled b (2 * i) (hex_text (take (Z.to_nat i) raw)))
    (Z.to_nat (zlen raw)) 0 (to_hex_step (raw ++ extra)) buffer) as (b & -> & Hz & Hf).
  - intros i b Hi [Hz Hf]. pose proof (zlen_nonneg raw). destruct (rd_in raw i) as [c Hc]; [lia|].
    pose proof (proj1 (rd_Ret _ _ _) Hc) as [_ Hlk]. pose proof (is_bytes_lookup _ _ _ Hb Hlk) as Hcb.
    destruct (byte_digits c Hcb) as (Hh & Hl & _).
    unfold to_hex_step. assert (rd (raw ++ extra) i = Ret c) as ->.
    { apply rd_Ret. split; [lia|]. rewrite lookup_app_l; [done|]. by apply lookup_lt_Some in Hlk. }
    run. rewrite Z.shiftr_div_pow2 by lia. change 15 with (Z.ones 4). rewrite Z.land_ones by lia. change (2 ^ 4) with 16.
    rewrite !rd_hex_chars by done. run.
    destruct (filled_wr _ _ _ (hex_digit false (c / 16)) Hf) as [-> Hf1]; [lia|]. run.
    destruct (filled_wr _ _ _ (hex_digit false (c mod 16)) Hf1) as [-> Hf2]; [rewrite zlen_insert; lia|].
    eexists. split; [done|]. split; [by rewrite !zlen_insert|].
    replace (2 * (i + 1)) with (2 * i + 1 + 1) by lia. replace (Z.to_nat (i + 1)) with (S (Z.to_nat i)) by lia.
    rewrite (take_S_r _ _ _ Hlk), hex_text_snoc. by rewrite <-(assoc app) in Hf2.
  - split; [done|]. apply filled_nil.
  - pose proof (zlen_nonneg raw). run. rewrite Z.add_0_l, Z2Nat.id in Hf by lia.
    unfold zlen in Hf at 2. rewrite Nat2Z.id, firstn_all in Hf.
    destruct (filled_wr _ _ _ 0 Hf) as [-> Hf']; [lia|]. eexists. split; [done|]. by rewrite zlen_insert.
Qed.

(** The static buffers, each with room for the longest name. *)
Definition hexbuffers_ok (st : hexbuffers) : Prop :=
  0 <= bufno st < 4 /\ length (hexbuffer st) = 4%nat /\ Forall (fun b => zlen b = GIT_MAX_HEXSZ + 1) (hexbuffer st).

Lemma hash_to_hex_algop_step st hash algop st' :
  hash_to_hex_algop st hash algop = Ret st' ->
  bufno st' = (bufno st + 1) mod 4 /\
  forall i, 0 <= i -> i <> bufno st' -> hexbuffer st' !! Z.to_nat i = hexbuffer st !! Z.to_nat i.
Proof.
  intros Hc. unfold hash_to_hex_algop in Hc. set (no := (bufno st + 1) mod 4) in *.
  assert (0 <= no < 4) by (apply Z.mod_pos_bound; lia).
  apply bind_Ret_inv in Hc as (b & _ & Hc). apply bind_Ret_inv in Hc as (b' & _ & Hc).
  apply bind_Ret_inv in Hc as (bs & Hw & [= <-]). unfold wr in Hw.
  destruct ((no <? 0) || (zlen (hexbuffer st) <=? no)); [done|]. injection Hw as <-. cbn [bufno hexbuffer]. split; [done|].
  intros i Hi Hne. apply list_lookup_insert_ne. lia.
Qed.

(** A buffer is used again after three others. *)
Lemma hexbuffers_keep no buf st'' : forall calls st k,
  (length calls + k <= 3)%nat -> 0 <= no < 4 -> hexbuffer st !! Z.to_nat no = Some buf -> bufno st = (no + Z.of_nat k) mod 4 ->
  foldl (fun c call => st ← c; hash_to_hex_algop st (fst call) (snd call)) (Ret st) calls = Ret st'' ->
  hexbuffer st'' !! Z.to_nat no = Some buf.
Proof.
  intros calls. induction calls as [|call calls IH]; intros st k Hk Hno Hbuf Hst Hrun.
  - by injection Hrun as <-.
  - cbn [foldl length] in *. run_in Hrun.
    destruct (hash_to_hex_algop st (fst call) (snd call)) as [st3|e|] eqn:E.
    2,3: exfalso; revert Hrun; clear; induction calls as [|? ? IH]; [done|exact IH].
    apply hash_to_hex_algop_step in E as [Hno3 Hkeep].
    apply (IH st3 (S k)); [lia|done| |rewrite Hno3, Hst; Z.to_euclidean_division_equations; lia|done].
    rewrite Hkeep; [done|lia|]. rewrite Hno3, Hst. Z.to_euclidean_division_equations; lia.
Qed.

Lemma hash_to_hex_algop_spec st raw extra algop :
  hexbuffers_ok st -> is_bytes raw -> zlen raw = rawsz (if algo_no algop =? 0 then the_hash_algo else algop) ->
  zlen raw <= GIT_MAX_RAWSZ ->
  exists st' buf, hash_to_hex_algop st (raw ++ extra) algop = Ret st' /\ hexbuffers_ok st' /\
    hexbuffer st' !! Z.to_nat (bufno st') = Some buf /\ filled buf (2 * zlen raw + 1) (hex_text raw ++ [0]).
Proof.
  intros (Hno & Hl & Hbs) Hb Hlen Hmax. unfold hash_to_hex_algop. set (no := (bufno st + 1) mod 4).
  assert (0 <= no < 4) by (apply Z.mod_pos_bound; lia).
  destruct (rd_in (hexbuffer st) no) as [b Hrd]; [unfold zlen; lia|]. rewrite Hrd. run. apply rd_Ret in Hrd as [_ Hlk].
  pose proof (Forall_lookup_1 _ _ _ _ Hbs Hlk) as Hz. cbv beta in Hz.
  destruct (hash_to_hex_spec b raw extra algop Hb Hlen) as (b' & -> & Hz' & Hf); [rewrite Hz, GIT_MAX_HEXSZ_2; lia|]. run.
  rewrite wr_in by (unfold zlen; lia). run. eexists _, b'. split; [done|]. cbn [bufno hexbuffer]. split.
  - split; [done|]. cbn [hexbuffer]. split; [by rewrite length_insert|]. apply Forall_insert; [done|]. lia.
  - split; [|done]. apply list_lookup_insert_eq. lia.
Qed.

(** ** Text behind a name *)

(** What may follow a name: not a digit of the next byte. *)
Definition no_digit (rest : list Z) : Prop := match rest with [] => True | c :: _ => hex_value c < 0 end.

Lemma unhex_too_long raw rest n :
  is_bytes raw -> no_digit rest -> (length raw < n)%nat -> unhex (hex_text raw ++ rest) n = None.
Proof.
  intros Hb Hrest. revert n. induction raw as [|c raw IH]; intros [|n] Hn; cbn [length] in Hn; try lia.
  - unfold hex_text. cbn [fmap list_fmap concat app unhex]. destruct rest as [|a [|b rest]]; [done..|]. cbn [no_digit] in Hrest.
    unfold pair_value. by rewrite (proj2 (Z.ltb_lt _ 0)).
  - apply Forall_cons_iff in Hb as [Hc Hb]. destruct (byte_digits c Hc) as (Hh & Hl & _). unfold hex_text in *.
    cbn [fmap list_fmap concat hex_pair app unhex]. unfold pair_value. rewrite !hex_value_digit by done.
    rewrite (proj2 (Z.ltb_ge _ 0)), (proj2 (Z.ltb_ge _ 0)) by lia. cbn [orb mbind option_bind]. rewrite IH by (done || lia). done.
Qed.

Lemma get_oid_hex_any_spec raw rest oid algop i :
  is_bytes raw -> no_digit rest -> is_bytes rest -> hash_algos !! i = Some algop -> (0 < i)%nat -> zlen raw = rawsz algop ->
  zlen (oid_hash oid) = GIT_MAX_RAWSZ ->
  get_oid_hex_any (hex_text raw ++ rest) oid = Ret (oid_of raw (Z.of_nat i), Z.of_nat i).
Proof.
  intros Hb Hd Hrest Hi Hpos Hlen Hoid. unfold get_oid_hex_any.
  assert (is_bytes (hex_text raw ++ rest)) as Hs.
  { apply Forall_app. split; [by apply hex_text_bytes|done]. }
  pose proof (lookup_lt_Some _ _ _ Hi) as Hlt.
  destruct (for_range_ret (fun k oid => zlen (oid_hash oid) = GIT_MAX_RAWSZ /\ k <= zlen hash_algos - 1 - Z.of_nat i)
    (Z.to_nat (zlen hash_algos - 1)) 0 (oid_hex_any_step (hex_text raw ++ rest)) oid
    (fun r => r = (oid_of raw (Z.of_nat i), Z.of_nat i))) as (r & -> & Hr).
  - intros k oid' Hk [Hz Hki]. unfold oid_hex_any_step. set (j := zlen hash_algos - 1 - k).
    destruct (rd_in hash_algos j) as [b Hrd]; [unfold j, zlen in *; lia|]. rewrite Hrd. run. apply rd_Ret in Hrd as [Hj0 Hj].
    pose proof (get_oid_hex_algop_spec (hex_text raw ++ rest) oid' b (Z.to_nat j) Hs Hj Hz) as Hg.
    destruct (decide (j = Z.of_nat i)) as [Heq|Hne].
    + rewrite Heq, Nat2Z.id in Hj, Hg. assert (b = algop) as -> by congruence.
      replace (Z.to_nat (rawsz algop)) with (length raw) in Hg by (unfold zlen in Hlen; lia).
      unfold hex_text in Hg at 1. rewrite unhex_pairs in Hg by done. rewrite Hg. run. change (0 =? 0) with true. cbv iota.
      eexists. split; [done|]. by rewrite Heq.
    + pose proof (hash_algos_order i (Z.to_nat j) algop b Hi Hj ltac:(lia)) as Hlonger.
      rewrite unhex_too_long in Hg by (done || (unfold zlen in Hlen; lia)).
      destruct Hg as (oid2 & -> & Hz2 & _). run. change (-1 =? 0) with false. cbv iota. eexists. split; [done|]. split; [done|lia].
  - split; [done|]. unfold zlen. lia.
  - destruct r as [o|[o n]]; [|run; by rewrite Hr]. exfalso. destruct Hr as [_ Hr]. unfold zlen in Hr. lia.
Qed.
End proofs.

(** ** git's algorithms *)

Definition algos_ref : HashAlgos := {|
  GIT_MAX_RAWSZ := 32;
  GIT_HASH_UNKNOWN := 0;
  GIT_MAX_HEXSZ := 64;
  hash_algos := [HashAlgo 0 0 0; HashAlgo 1 20 40; HashAlgo 2 32 64];
  the_hash_algo := HashAlgo 1 20 40;
  oid_set_algo oid algop := Oid (oid_hash oid) (algo_no algop);
|}.

Lemma algos_ref_ok : @HashAlgosOk algos_ref.
Proof.
  split; cbn [GIT_MAX_RAWSZ GIT_HASH_UNKNOWN GIT_MAX_HEXSZ hash_algos the_hash_algo oid_set_algo algos_ref]; try done.
  - intros [|[|[|i]]] a Ha; try done; by injection Ha as <-.
  - intros [|[|[|i]]] a Ha; try done; injection Ha as <-; cbn [rawsz hexsz]; lia.
  - intros [|[|[|i]]] [|[|[|j]]] a b Ha Hb Hij; try done; try lia; injection Ha as <-; injection Hb as <-; cbn [rawsz]; lia.
  - exists 1%nat. split; [lia|done].
Qed.

(** * Claims *)

(** Object names survive printing and parsing: [oid_to_hex] returns one of the
    static buffers, holding the digits of the name and a NUL; these stay there
    during the next three conversions, of any names; and parsed from a longer
    text that goes on with no digit, the digits give back the same object, its
    algorithm and a pointer behind them -- the algorithm found by its length
    with [parse_oid_hex_any], given to [parse_oid_hex_algop], or the
    repository's with [get_oid_hex]. *)
Theorem oid_hex_roundtrip `{HexHeaderOk} `{HashAlgosOk} (st : hexbuffers) (i : nat) (algop : git_hash_algo)
    (raw rest : list Z) (oid0 : object_id) :
  hexbuffers_ok st -> (0 < i)%nat -> hash_algos !! i = Some algop -> zlen raw = rawsz algop -> is_bytes raw ->
  is_bytes rest -> no_digit rest -> zlen (oid_hash oid0) = GIT_MAX_RAWSZ ->
  let oid := oid_of raw (Z.of_nat i) in
  exists st' buf, oid_to_hex st oid = Ret st' /\ hexbuffers_ok st' /\
    hexbuffer st' !! Z.to_nat (bufno st') = Some buf /\ take (2 * length raw + 1) buf = hex_text raw ++ [0] /\
    (forall (calls : list (list Z * git_hash_algo)) (st'' : hexbuffers), (length calls <= 3)%nat ->
       foldl (fun c call => st ← c; hash_to_hex_algop st (fst call) (snd call)) (Ret st') calls = Ret st'' ->
       hexbuffer st'' !! Z.to_nat (bufno st') = Some buf) /\
    parse_oid_hex_any (hex_text raw ++ rest) oid0 = Ret (oid, Z.of_nat i, Some rest) /\
    parse_oid_hex_algop (hex_text raw ++ rest) oid0 algop = Ret (oid, 0, Some rest) /\
    (algop = the_hash_algo -> get_oid_hex (hex_text raw ++ rest) oid0 = Ret (oid, 0)).
Proof.
  intros Hst Hpos Hi Hlen Hb Hrest Hnd Hoid0. cbv zeta. destruct (hash_algos_size i algop Hi) as [Hraw Hhex].
  pose proof (hash_algos_no i algop Hi) as Hno. pose proof (lookup_lt_Some _ _ _ Hi).
  unfold oid_to_hex. cbn [oid_of oid_algo oid_hash]. rewrite (rd_lookup _ _ _ Hi). run.
  destruct (hash_to_hex_algop_spec st raw (replicate (Z.to_nat (GIT_MAX_RAWSZ - zlen raw)) 0) algop Hst Hb)
    as (st' & buf & -> & Hst' & Hbuf & Hf); [by rewrite (proj2 (Z.eqb_neq _ 0)) by lia|lia|].
  exists st', buf. split; [done|]. split; [done|]. split; [done|]. split.
  { apply filled_take in Hf. rewrite <-Hf. f_equal. unfold zlen. lia. }
  pose proof (hex_text_bytes raw Hb) as Htb.
  assert (get_oid_hex_algop (hex_text raw ++ rest) oid0 algop = Ret (oid_of raw (Z.of_nat i), 0)) as Hget.
  { pose proof (get_oid_hex_algop_spec (hex_text raw ++ rest) oid0 algop i) as Hg.
    replace (Z.to_nat (rawsz algop)) with (length raw) in Hg by (unfold zlen in Hlen; lia).
    unfold hex_text in Hg at 2. rewrite unhex_pairs in Hg by done. apply Hg; [|done|done]. by apply Forall_app. }
  assert (drop (Z.to_nat (hexsz algop)) (hex_text raw ++ rest) = rest) as Hdrop.
  { rewrite Hhex, <-Hlen, <-zlen_hex_text. unfold zlen. by rewrite Nat2Z.id, drop_app_length. }
  split; [|split; [|split]].
  - intros calls st'' Hcalls Hrun.
    apply (hexbuffers_keep (bufno st') buf st'' calls st' 0); [lia|by destruct Hst'|done| |done].
    rewrite Z.add_0_r, Z.mod_small; [done|by destruct Hst'].
  - unfold parse_oid_hex_any. rewrite (get_oid_hex_any_spec raw rest oid0 algop i) by done. run.
    rewrite (proj2 (tru_true _)) by lia. rewrite (rd_lookup _ _ _ Hi). run. by rewrite Hdrop.
  - unfold parse_oid_hex_algop. rewrite Hget. run. change (0 =? 0) with true. cbv iota. by rewrite Hdrop.
  - intros Heq. unfold get_oid_hex. by rewrite <-Heq.
Qed.

Lemma oid_hex_roundtrip_witness :
  let raw := replicate 19 7 ++ [171] in
  let oid := @oid_of algos_ref raw 1 in
  let st := HexBuffers 3 (replicate 4 (replicate 65 0)) in
  let oid0 := Oid (replicate 32 9) 0 in
  exists st' buf, @oid_to_hex algos_ref st oid = Ret st' /\ @hexbuffers_ok algos_ref st' /\
    hexbuffer st' !! Z.to_nat (bufno st') = Some buf /\ take (2 * length raw + 1) buf = hex_text raw ++ [0] /\
    (forall (calls : list (list Z * git_hash_algo)) (st'' : hexbuffers), (length calls <= 3)%nat ->
       foldl (fun c call => st ← c; @hash_to_hex_algop algos_ref st (fst call) (snd call)) (Ret st') calls = Ret st'' ->
       hexbuffer st'' !! Z.to_nat (bufno st') = Some buf) /\
    @parse_oid_hex_any hex_ref algos_ref (hex_text raw ++ [32; 120]) oid0 = Ret (oid, 1, Some [32; 120]) /\
    @parse_oid_hex_algop hex_ref algos_ref (hex_text raw ++ [32; 120]) oid0 (HashAlgo 1 20 40) = Ret (oid, 0, Some [32; 120]) /\
    (HashAlgo 1 20 40 = @the_hash_algo algos_ref -> @get_oid_hex hex_ref algos_ref (hex_text raw ++ [32; 120]) oid0 = Ret (oid, 0)).
Proof.
  cbv zeta.
  apply (@oid_hex_roundtrip hex_ref hex_ref_ok algos_ref algos_ref_ok (HexBuffers 3 (replicate 4 (replicate 65 0))) 1
    (HashAlgo 1 20 40) (replicate 19 7 ++ [171]) [32; 120] (Oid (replicate 32 9) 0)); evaluate.
Defined.

(** Parsing a name decides: on any NUL-terminated text [get_oid_hex_algop] fills
    in the object -- its bytes, zeros up to the size of the array, and the
    algorithm -- and returns 0 exactly when the text starts with the digits of
    as many bytes as the algorithm has, in either case of letters; otherwise it
    returns -1 and leaves the algorithm of the object as it was. *)
Theorem get_oid_hex_exact `{HexHeaderOk} `{HashAlgosOk} (hex : list Z) (oid : object_id) (algop : git_hash_algo) (i : nat) :
  is_bytes hex -> hash_algos !! i = Some algop -> zlen (oid_hash oid) = GIT_MAX_RAWSZ ->
  match unhex hex (Z.to_nat (rawsz algop)) with
  | Some raw => is_bytes raw /\ get_oid_hex_algop hex oid algop = Ret (oid_of raw (Z.of_nat i), 0)
  | None => exists oid', get_oid_hex_algop hex oid algop = Ret (oid', -1) /\ oid_algo oid' = oid_algo oid
  end.
Proof.
  intros Hs Hi Hlen. pose proof (get_oid_hex_algop_spec hex oid algop i Hs Hi Hlen) as Hg.
  pose proof (unhex_bytes hex (Z.to_nat (rawsz algop))) as Hb. destruct (unhex hex (Z.to_nat (rawsz algop))) as [raw|].
  - split; [by apply Hb|done].
  - destruct Hg as (oid' & ? & _ & ?). eauto.
Qed.

Lemma get_oid_hex_exact_witness :
  let hex := replicate 39 65 ++ [103] in        (* thirty-nine times A, then g *)
  match unhex hex 20 with
  | Some raw => is_bytes raw /\ @get_oid_hex_algop hex_ref algos_ref hex (Oid (replicate 32 9) 2) (HashAlgo 1 20 40) = Ret (@oid_of algos_ref raw 1, 0)
  | None => exists oid', @get_oid_hex_algop hex_ref algos_ref hex (Oid (replicate 32 9) 2) (HashAlgo 1 20 40) = Ret (oid', -1) /\ oid_algo oid' = 2
  end.
Proof.
  cbv zeta.
  apply (@get_oid_hex_exact hex_ref hex_ref_ok algos_ref algos_ref_ok (replicate 39 65 ++ [103]) (Oid (replicate 32 9) 2)
    (HashAlgo 1 20 40) 1); evaluate.
Defined.
