(* ===== verification/Quote.v ===== *)
(** quote.c: quoting strings for the shell and for Perl, Python, Tcl and regular
    expressions, and taking shell quotes off again in place. *)
From S2P Require Import Prelude Headers Strbuf.

(** * Model *)

Section model.
Context `{GitCompat} `{Hsb : StrbufHeader} `{Ctype}.
Context (junk : Z).

Definition need_bs_quote (c : Z) : bool := (c =? 39) || (c =? 33).

(** One round of the inner loop. *)
Definition bs_quote_step (st : strbuf * list Z) : outcome ((strbuf * list Z) + (strbuf * list Z)) :=
  let '(dst, src) := st in
  if negb (need_bs_quote (deref src)) then Ret (inr (dst, src)) else
  dst ← strbuf_addstr dst [39; 92];
  dst ← strbuf_addch dst (deref src);
  dst ← strbuf_addch dst 39;
  Ret (inl (dst, tail src)).

(** One round of the outer loop. *)
Definition sq_quote_step (st : strbuf * list Z) : outcome ((strbuf * list Z) + strbuf) :=
  let '(dst, src) := st in
  if deref src =? 0 then Ret (inr dst) else
  let len := strcspn src [39; 33] in
  dst ← strbuf_add junk dst src len;
  let src := drop (Z.to_nat len) src in
  '(dst, src) ← loop (S (length src)) bs_quote_step (dst, src);
  Ret (inl (dst, src)).

(** [src] is a string, or [None] when it is the memory of [dst] itself. *)
Definition sq_quote_buf (dst : strbuf) (src : option (list Z)) : outcome strbuf :=
  '(dst, src) ←
    (match src with
     | Some src => Ret (dst, src)
     | None => '(to_free, _, dst) ← strbuf_detach junk dst; Ret (dst, c_string to_free)
     end);
  dst ← strbuf_addch dst 39;
  dst ← loop (S (length src)) sq_quote_step (dst, src);
  strbuf_addch dst 39.

(** The characters of [ok_punct]; [strchr] also finds the NUL, which does not occur here. *)
Definition ok_punct : list Z := [43; 44; 45; 46; 47; 58; 61; 64; 95; 94].

Definition sq_quote_buf_pretty (dst : strbuf) (src : list Z) : outcome strbuf :=
  if deref src =? 0 then strbuf_addstr dst [39; 39] else
  if existsb (fun c => negb (isalnum c) && negb (bool_decide (c ∈ ok_punct))) src then sq_quote_buf dst (Some src)
  else strbuf_addstr dst src.

(** The strings of [argv], which NULL ends. *)
Fixpoint sq_quote_each (dst : strbuf) (argv : list (list Z)) : outcome strbuf :=
  match argv with
  | [] => Ret dst
  | arg :: argv =>
      dst ← strbuf_addch dst 32;
      dst ← sq_quote_buf dst (Some arg);
      sq_quote_each dst argv
  end.

Definition sq_quote_argv (dst : strbuf) (argv : list (list Z)) : outcome strbuf :=
  dst ← strbuf_grow junk dst 255;
  sq_quote_each dst argv.

Fixpoint sq_append_each (i : Z) (dst : strbuf) (argv : list (list Z)) : outcome strbuf :=
  match argv with
  | [] => Ret dst
  | arg :: argv =>
      dst ← (if i >? 0 then strbuf_addch dst 32 else Ret dst);
      dst ← sq_quote_buf_pretty dst arg;
      sq_append_each (i + 1) dst argv
  end.

Definition sq_append_quote_argv_pretty (dst : strbuf) (argv : list (list Z)) : outcome strbuf := sq_append_each 0 dst argv.

Definition sq_quote_argv_pretty (dst : strbuf) (argv : list (list Z)) : outcome strbuf :=
  dst ← (match argv with [] => Ret dst | _ => strbuf_addch dst 32 end);
  sq_append_quote_argv_pretty dst argv.

(** ** Dequoting in place *)

(** The memory and the offsets [dst] and [src] in it; the loop ends with the
    memory and [None] for a NULL return or [Some] of the new [*next]. *)
Definition dequote_step (want_next : bool) (st : list Z * Z * Z)
    : outcome ((list Z * Z * Z) + (list Z * option (option Z))) :=
  let '(mem, dst, src) := st in
  let src := src + 1 in
  c ← rd mem src;
  if c =? 0 then Ret (inr (mem, None)) else
  if negb (c =? 39) then
    mem ← wr mem dst c;
    Ret (inl (mem, dst + 1, src))
  else
    let src := src + 1 in
    c ← rd mem src;
    if c =? 0 then
      mem ← wr mem dst 0;
      Ret (inr (mem, Some None))
    else
      resume ←
        (if c =? 92 then
           c1 ← rd mem (src + 1);
           if need_bs_quote c1 then c2 ← rd mem (src + 2); Ret (c2 =? 39) else Ret false
         else Ret false);
      if (resume : bool) then
        c1 ← rd mem (src + 1);
        mem ← wr mem dst c1;
        Ret (inl (mem, dst + 1, src + 2))
      else
        if negb want_next then Ret (inr (mem, None)) else
        mem ← wr mem dst 0;
        Ret (inr (mem, Some (Some src))).

(** The string starts at the offset [arg]. *)
Definition sq_dequote_step (mem : list Z) (arg : Z) (want_next : bool) : outcome (list Z * option (option Z)) :=
  c ← rd mem arg;
  if negb (c =? 39) then Ret (mem, None) else
  loop (S (length mem)) (dequote_step want_next) (mem, arg, arg).

Definition sq_dequote (mem : list Z) (arg : Z) : outcome (list Z * bool) :=
  '(mem, r) ← sq_dequote_step mem arg false;
  Ret (mem, match r with Some _ => true | None => false end).

(** One round of the loop that skips white space. *)
Definition skip_step (mem : list Z) (next : Z) : outcome (Z + Z) :=
  let next := next + 1 in
  c ← rd mem next;
  Ret (if isspace c then inl next else inr next).

(** One round: the memory, [next], the offsets put into [argv] and the copies
    pushed to [array], each where there is one; [false] is [return -1]. *)
Definition argv_step (st : list Z * Z * option (list Z) * option (list (list Z)))
    : outcome ((list Z * Z * option (list Z) * option (list (list Z))) +
               (list Z * option (list Z) * option (list (list Z)) * bool)) :=
  let '(mem, next, argv, array) := st in
  '(mem, r) ← sq_dequote_step mem next true;
  match r with
  | None => Ret (inr (mem, argv, array, false))
  | Some next' =>
      let dequoted := next in
      r ←
        (match next' with
         | Some next' =>
             c ← rd mem next';
             if negb (isspace c) then Ret None else
             next' ← loop (S (length mem)) (skip_step mem) next';
             Ret (Some (Some next'))
         | None => Ret (Some None)
         end);
      match r with
      | None => Ret (inr (mem, argv, array, false))
      | Some next' =>
          let argv := (fun l => l ++ [dequoted]) <$> argv in
          let array := (fun l => l ++ [c_string (drop (Z.to_nat dequoted) mem)]) <$> array in
          match next' with
          | Some next' => Ret (inl (mem, next', argv, array))
          | None => Ret (inr (mem, argv, array, true))
          end
      end
  end.

Definition sq_dequote_to_argv_internal (mem : list Z) (arg : Z) (argv : option (list Z)) (array : option (list (list Z)))
    : outcome (list Z * option (list Z) * option (list (list Z)) * bool) :=
  c ← rd mem arg;
  if c =? 0 then Ret (mem, argv, array, true) else
  loop (S (length mem)) argv_step (mem, arg, argv, array).

Definition sq_dequote_to_argv (mem : list Z) (arg : Z) (argv : list Z) := sq_dequote_to_argv_internal mem arg (Some argv) None.

Definition sq_dequote_to_strvec (mem : list Z) (arg : Z) (array : list (list Z)) :=
  sq_dequote_to_argv_internal mem arg None (Some array).

(** ** Other languages *)

(** The loop over the characters of a string; a round is given the character
    and the pointer behind it. *)
Fixpoint each_char (step : Z -> list Z -> strbuf -> outcome strbuf) (src : list Z) (sb : strbuf) : outcome strbuf :=
  match src with
  | [] => Ret sb
  | c :: src => sb ← step c src sb; each_char step src sb
  end.

Definition perl_step (c : Z) (src : list Z) (sb : strbuf) : outcome strbuf :=
  sb ← (if (c =? 39) || (c =? 92) then strbuf_addch sb 92 else Ret sb);
  strbuf_addch sb c.

Definition perl_quote_buf (sb : strbuf) (src : list Z) : outcome strbuf :=
  sb ← strbuf_addch sb 39;
  sb ← each_char perl_step src sb;
  strbuf_addch sb 39.

(** Of [len] bytes, NULs included. *)
Definition perl_quote_buf_with_len (sb : strbuf) (src : list Z) (len : Z) : outcome strbuf :=
  xs ← rd_range src 0 len;
  sb ← strbuf_addch sb 39;
  sb ← each_char perl_step xs sb;
  strbuf_addch sb 39.

Definition python_step (c : Z) (src : list Z) (sb : strbuf) : outcome strbuf :=
  if c =? 10 then
    sb ← strbuf_addch sb 92;
    strbuf_addch sb 110
  else
    sb ← (if (c =? 39) || (c =? 92) then strbuf_addch sb 92 else Ret sb);
    strbuf_addch sb c.

Definition python_quote_buf (sb : strbuf) (src : list Z) : outcome strbuf :=
  sb ← strbuf_addch sb 39;
  sb ← each_char python_step src sb;
  strbuf_addch sb 39.

(** The letters of a form feed, a carriage return, a newline and the two tabs. *)
Definition tcl_letter (c : Z) : option Z :=
  if c =? 12 then Some 102 else if c =? 13 then Some 114 else if c =? 10 then Some 110 else
  if c =? 9 then Some 116 else if c =? 11 then Some 118 else None.

Definition tcl_step (c : Z) (src : list Z) (sb : strbuf) : outcome strbuf :=
  if bool_decide (c ∈ [91; 93; 123; 125; 36; 92; 34]) then
    sb ← strbuf_addch sb 92;
    strbuf_addch sb c
  else
    match tcl_letter c with
    | Some x => strbuf_addstr sb [92; x]
    | None => strbuf_addch sb c
    end.

Definition tcl_quote_buf (sb : strbuf) (src : list Z) : outcome strbuf :=
  sb ← strbuf_addch sb 34;
  sb ← each_char tcl_step src sb;
  strbuf_addch sb 34.

Definition regex_step (c : Z) (src : list Z) (sb : strbuf) : outcome strbuf :=
  if bool_decide (c ∈ [91; 46; 92; 42]) then
    sb ← strbuf_addch sb 92;
    strbuf_addch sb c
  else if c =? 36 then
    sb ← (if deref src =? 0 then strbuf_addch sb 92 else Ret sb);
    strbuf_addch sb c
  else strbuf_addch sb c.

Definition basic_regex_quote_buf (sb : strbuf) (src : list Z) : outcome strbuf :=
  '(sb, src) ←
    (if deref src =? 94 then
       sb ← strbuf_addch sb 92;
       sb ← strbuf_addch sb (deref src);
       Ret (sb, tail src)
     else Ret (sb, src));
  '(sb, src) ← (if deref src =? 42 then sb ← strbuf_addch sb (deref src); Ret (sb, tail src) else Ret (sb, src));
  each_char regex_step src sb.
End model.

(** * Specification *)

(** A string in shell quotes: a quote or an exclamation point leaves the quotes
    and is escaped by a backslash. *)
Definition sq_char (c : Z) : list Z := if need_bs_quote c then [39; 92; c; 39] else [c].
Definition sq_body (s : list Z) : list Z := concat (sq_char <$> s).
Definition sq_text (s : list Z) : list Z := 39 :: sq_body s ++ [39].

Notation is_string s := (Forall (fun c => 0 < c < 256) s).

Lemma string_bytes s : is_string s -> is_bytes s.
Proof. intros Hs. eapply Forall_impl; [exact Hs|]. unfold is_byte. cbn. lia. Qed.

Lemma string_no_nul s : is_string s -> no_nul s.
Proof. intros Hs. eapply Forall_impl; [exact Hs|]. cbn. lia. Qed.

Lemma sq_body_app s t : sq_body (s ++ t) = sq_body s ++ sq_body t.
Proof. unfold sq_body. by rewrite fmap_app, concat_app. Qed.

Lemma sq_body_cons c s : sq_body (c :: s) = sq_char c ++ sq_body s.
Proof. done. Qed.

Lemma sq_body_plain p : Forall (fun c => c ∉ [39; 33]) p -> sq_body p = p.
Proof.
  induction 1 as [|c p Hc _ IH]; [done|]. rewrite sq_body_cons, IH. unfold sq_char, need_bs_quote.
  rewrite !not_elem_of_cons in Hc. destruct (Z.eqb_spec c 39), (Z.eqb_spec c 33); naive_solver.
Qed.

(** The characters to escape at the start of a string. *)
Lemma bs_run t : exists q rest, t = q ++ rest /\ Forall (fun c => need_bs_quote c = true) q /\ need_bs_quote (deref rest) = false.
Proof.
  induction t as [|c t (q & rest & -> & Hq & Hrest)]; [by exists [], []|]. destruct (need_bs_quote c) eqn:E.
  - exists (c :: q), rest. split; [done|]. split; [by constructor|done].
  - by exists [], (c :: q ++ rest).
Qed.

(** * Quoting *)

Section proofs.
Context `{GitCompatOk} `{Hsb : StrbufHeaderOk} `{Ctype}.
Context (junk : Z).
Implicit Types (s l : list Z) (sb dst : strbuf).

Lemma bs_loop rest : need_bs_quote (deref rest) = false -> forall q fuel dst l,
  (length q < fuel)%nat -> Forall (fun c => need_bs_quote c = true) q -> sb_rep dst l -> zlen l + zlen (sq_body q) + 2 < 2 ^ 64 ->
  exists dst', loop fuel bs_quote_step (dst, q ++ rest) = Ret (dst', rest) /\ sb_rep dst' (l ++ sq_body q).
Proof.
  intros Hrest q. induction q as [|c q IH]; intros [|fuel] dst l Hf Hq Hr Hsmall; cbn [length] in Hf; try lia.
  - exists dst. rewrite app_nil_r. split; [|done]. apply loop_stop. unfold bs_quote_step. cbn [app]. by rewrite Hrest.
  - apply Forall_cons_iff in Hq as [Hc Hq]. rewrite sq_body_cons in *. unfold sq_char in *. rewrite Hc in *.
    rewrite zlen_app in Hsmall. change (zlen [39; 92; c; 39]) with 4 in Hsmall. pose proof (zlen_nonneg (sq_body q)).
    destruct (strbuf_addstr_spec dst l [39; 92] Hr) as (d1 & H1' & Hr1); [change (zlen [39; 92]) with 2; lia|].
    destruct (strbuf_addch_spec d1 _ c Hr1) as (d2 & H2' & Hr2); [rewrite zlen_app; change (zlen [39; 92]) with 2; lia|].
    assert (u8 c = c) as Hu.
    { apply u8_small. unfold need_bs_quote in Hc. apply orb_true_iff in Hc as [Hc|Hc]; zb; subst c; unfold is_byte; lia. }
    destruct (strbuf_addch_spec d2 _ 39 Hr2) as (d3 & H3' & Hr3).
    { rewrite !zlen_app. change (zlen [39; 92]) with 2. change (zlen [u8 c]) with 1. lia. }
    rewrite Hu, <-!(assoc app) in Hr3. cbn [app] in Hr3. change (u8 39) with 39 in Hr3.
    assert (bs_quote_step (dst, (c :: q) ++ rest) = Ret (inl (d3, q ++ rest))) as Hstep.
    { unfold bs_quote_step. cbn [app deref tail]. rewrite Hc. cbn [negb]. rewrite H1'. run. rewrite H2'. run. rewrite H3'. done. }
    rewrite (loop_next _ _ _ _ Hstep).
    destruct (IH fuel d3 (l ++ [39; 92; c; 39])) as (dst' & Hl & Hr'); [lia|done|done|rewrite zlen_app; change (zlen [39; 92; c; 39]) with 4; lia|].
    exists dst'. split; [done|]. by rewrite <-(assoc app) in Hr'.
Qed.

Lemma quote_loop : forall fuel s dst l,
  (length s < fuel)%nat -> no_nul s -> sb_rep dst l -> zlen l + zlen (sq_body s) + 2 < 2 ^ 64 ->
  exists dst', loop fuel (sq_quote_step junk) (dst, s) = Ret dst' /\ sb_rep dst' (l ++ sq_body s).
Proof.
  intros fuel. induction fuel as [|fuel IH]; intros s dst l Hf Hs Hr Hsmall; [lia|]. destruct s as [|c0 s0].
  { exists dst. rewrite app_nil_r. split; [by apply loop_stop|done]. }
  set (s := c0 :: s0) in *. assert (deref s <> 0) as Hne by (by apply Forall_cons_iff in Hs as [? _]).
  destruct (strcspn_split s [39; 33]) as (p & t & Heq & Hz & Hp & Ht). destruct (bs_run t) as (q & rest & -> & Hq & Hrest).
  assert (0 < length (p ++ q))%nat as Hpos.
  { rewrite length_app. destruct p as [|? p]; [|cbn [length]; lia]. destruct Ht as [Hnil|(c & t' & Hc & Hin)].
    - rewrite Hnil in Heq. done.
    - destruct q as [|? q]; [|cbn [length]; lia]. cbn [app] in Hc. subst rest. exfalso. cbn [deref] in Hrest.
      rewrite !elem_of_cons, elem_of_nil in Hin. unfold need_bs_quote in Hrest. destruct Hin as [->|[->|[]]]; done. }
  assert (sq_body s = p ++ sq_body q ++ sq_body rest) as Hbody by (rewrite Heq, !sq_body_app, (sq_body_plain p Hp); done).
  rewrite Hbody in *. rewrite !zlen_app in Hsmall. pose proof (zlen_nonneg (sq_body rest)). pose proof (zlen_nonneg (sq_body q)).
  pose proof (zlen_nonneg p).
  destruct (strbuf_add_spec junk dst l p (q ++ rest) Hr) as (d1 & Hadd & Hr1); [lia|].
  destruct (bs_loop rest Hrest q (S (length (q ++ rest))) d1 (l ++ p)) as (d2 & Hbs & Hr2);
    [rewrite length_app; lia|done|done|rewrite zlen_app; lia|].
  assert (sq_quote_step junk (dst, s) = Ret (inl (d2, rest))) as Hstep.
  { unfold sq_quote_step. rewrite (proj2 (Z.eqb_neq _ 0)) by done. rewrite <-Hz. rewrite Heq, Hadd. run.
    rewrite (proj2 (take_drop_zlen p (q ++ rest))), Hbs. done. }
  rewrite (loop_next _ _ _ _ Hstep). rewrite Heq, (assoc app) in Hf. rewrite length_app in Hf.
  rewrite Heq, !Forall_app in Hs. destruct Hs as (_ & _ & Hs).
  destruct (IH rest d2 ((l ++ p) ++ sq_body q)) as (dst' & Hl & Hr'); [lia|done|done|rewrite !zlen_app; lia|].
  exists dst'. split; [done|]. by rewrite <-!(assoc app) in Hr'.
Qed.

Lemma zlen_sq_text s : zlen (sq_text s) = zlen (sq_body s) + 2.
Proof. unfold sq_text. rewrite zlen_cons, zlen_app. change (zlen [39]) with 1. lia. Qed.

Lemma sq_quote_buf_spec dst l s :
  sb_rep dst l -> no_nul s -> zlen l + zlen (sq_text s) + 2 < 2 ^ 64 ->
  exists dst', sq_quote_buf junk dst (Some s) = Ret dst' /\ sb_rep dst' (l ++ sq_text s).
Proof.
  intros Hr Hs Hsmall. rewrite zlen_sq_text in Hsmall. pose proof (zlen_nonneg (sq_body s)). unfold sq_quote_buf. run.
  destruct (strbuf_addch_spec dst l 39 Hr) as (d1 & -> & Hr1); [lia|]. run.
  destruct (quote_loop (S (length s)) s d1 (l ++ [u8 39])) as (d2 & -> & Hr2); [lia|done|done|rewrite zlen_app; change (zlen [u8 39]) with 1; lia|].
  run. destruct (strbuf_addch_spec d2 _ 39 Hr2) as (d3 & Ha & Hr3); [rewrite !zlen_app; change (zlen [u8 39]) with 1; lia|].
  exists d3. split; [done|]. rewrite <-!(assoc app) in Hr3. exact Hr3.
Qed.

(** Quoting a buffer into itself. *)
Lemma sq_quote_buf_self dst s :
  sb_rep dst s -> no_nul s -> zlen s + zlen (sq_text s) + 2 < 2 ^ 64 ->
  exists dst', sq_quote_buf junk dst None = Ret dst' /\ sb_rep dst' (sq_text s).
Proof.
  intros Hr Hs Hsmall. pose proof (zlen_nonneg s). pose proof (zlen_nonneg (sq_text s)).
  destruct (strbuf_detach_spec junk dst s Hr) as (res & sb' & Hd & (rest & Hres) & Hr'); [lia|].
  assert (sq_quote_buf junk dst None = sq_quote_buf junk sb' (Some s)) as ->.
  { unfold sq_quote_buf. rewrite Hd. run. by rewrite Hres, c_string_app. }
  apply (sq_quote_buf_spec sb' [] s); [done|done|change (zlen (@nil Z)) with 0; lia].
Qed.

(** Each string with a space before it. *)
Definition argv_text (argv : list (list Z)) : list Z := concat ((fun s => 32 :: sq_text s) <$> argv).

Lemma sq_quote_argv_spec dst l argv :
  sb_rep dst l -> Forall (fun s => no_nul s) argv -> zlen l + zlen (argv_text argv) + 258 < 2 ^ 64 ->
  exists dst', sq_quote_argv junk dst argv = Ret dst' /\ sb_rep dst' (l ++ argv_text argv).
Proof.
  intros Hr Ha Hsmall. unfold sq_quote_argv. pose proof (zlen_nonneg (argv_text argv)).
  destruct (strbuf_grow_spec junk dst l 255 Hr) as (d0 & -> & Hr0 & _); [lia|lia|]. run. clear Hr.
  revert d0 l Hr0 Hsmall. induction Ha as [|s argv Hs _ IH]; intros d0 l Hr0 Hsmall.
  { exists d0. by rewrite app_nil_r. }
  unfold argv_text in *. cbn [sq_quote_each fmap list_fmap concat] in *. set (rest := concat ((fun s => 32 :: sq_text s) <$> argv)) in *.
  rewrite !zlen_app, zlen_cons in *. pose proof (zlen_nonneg rest). pose proof (zlen_nonneg (sq_text s)).
  destruct (strbuf_addch_spec d0 l 32 Hr0) as (d1 & -> & Hr1); [lia|]. run.
  destruct (sq_quote_buf_spec d1 (l ++ [u8 32]) s) as (d2 & -> & Hr2); [done|done|rewrite zlen_app; change (zlen [u8 32]) with 1; lia|].
  run. destruct (IH (zlen_nonneg rest) d2 _ Hr2) as (d3 & Hl & Hr3); [rewrite !zlen_app; change (zlen [u8 32]) with 1; lia|].
  exists d3. split; [done|]. rewrite <-!(assoc app) in Hr3. exact Hr3.
Qed.
End proofs.

(** * Dequoting *)

(** The access that comes next, to the memory [mem = x ++ y :: z] behind [x]. *)
Ltac access_at x y z :=
  match goal with
  | |- mbind _ (rd ?m ?p) = _ => rewrite (rd_at x y z m p); [run | subst m; same_list | same_len]
  | |- mbind _ (mbind _ (rd ?m ?p)) = _ => rewrite (rd_at x y z m p); [run | subst m; same_list | same_len]
  | |- mbind _ (wr ?m ?p ?c) = _ => rewrite (wr_at x y z c m p); [run | subst m; same_list | same_len]
  end.

Section dequoting.
Context `{CtypeOk}.

(** The memory: what lies before the string, what is dequoted of it, the gap
    between the two pointers -- it starts with [g], the place [dst] points to,
    and ends at [src] -- and the rest of the quoted string. *)
Lemma dequote_char want A out g gap c rest :
  0 < c < 256 ->
  dequote_step want (A ++ out ++ g :: gap ++ sq_char c ++ rest, zlen A + zlen out, zlen A + zlen out + zlen gap) =
    Ret (inl (A ++ (out ++ [c]) ++ (gap ++ sq_char c) ++ rest,
              zlen A + zlen (out ++ [c]), zlen A + zlen out + zlen gap + zlen (sq_char c))).
Proof.
  intros Hc. rewrite (zlen_app out). change (zlen [c]) with 1. unfold sq_char. destruct (need_bs_quote c) eqn:E.
  - set (mem := A ++ out ++ g :: gap ++ [39; 92; c; 39] ++ rest). unfold dequote_step.
    access_at (A ++ out ++ g :: gap) 39 ([92; c; 39] ++ rest).
    change (39 =? 0) with false. change (negb (39 =? 39)) with false. cbv iota.
    access_at (A ++ out ++ g :: gap ++ [39]) 92 ([c; 39] ++ rest).
    change (92 =? 0) with false. change (92 =? 92) with true. cbv iota.
    access_at (A ++ out ++ g :: gap ++ [39; 92]) c (39 :: rest). rewrite E.
    access_at (A ++ out ++ g :: gap ++ [39; 92; c]) 39 rest. change (39 =? 39) with true. cbv iota.
    access_at (A ++ out) g (gap ++ [39; 92; c; 39] ++ rest).
    change (zlen [39; 92; c; 39]) with 4. do 2 f_equal. apply f_equal2; [f_equal; [same_list|lia]|lia].
  - assert (c <> 39) as Hc39 by (intros ->; done).
    set (mem := A ++ out ++ g :: gap ++ [c] ++ rest). unfold dequote_step.
    access_at (A ++ out ++ g :: gap) c rest. rewrite (proj2 (Z.eqb_neq c 0)), (proj2 (Z.eqb_neq c 39)) by lia. cbn [negb].
    access_at (A ++ out) g (gap ++ [c] ++ rest).
    change (zlen [c]) with 1. do 2 f_equal. apply f_equal2; [f_equal; [same_list|lia]|lia].
Qed.

(** The closing quote. *)
Lemma dequote_end want A out g gap d rest :
  d = 0 \/ want = true /\ d <> 92 ->
  dequote_step want (A ++ out ++ g :: gap ++ 39 :: d :: rest, zlen A + zlen out, zlen A + zlen out + zlen gap) =
    Ret (inr (A ++ out ++ 0 :: (gap ++ [39]) ++ d :: rest,
              Some (if d =? 0 then None else Some (zlen A + zlen out + zlen gap + 2)))).
Proof.
  intros Hd. set (mem := A ++ out ++ g :: gap ++ 39 :: d :: rest). unfold dequote_step.
  access_at (A ++ out ++ g :: gap) 39 (d :: rest). change (39 =? 0) with false. change (negb (39 =? 39)) with false. cbv iota.
  access_at (A ++ out ++ g :: gap ++ [39]) d rest. destruct (Z.eqb_spec d 0) as [->|Hd0].
  - access_at (A ++ out) g (gap ++ 39 :: 0 :: rest). do 3 f_equal. same_list.
  - destruct Hd as [?|[-> Hd92]]; [done|]. rewrite (proj2 (Z.eqb_neq d 92)) by done. run. cbn [negb].
    access_at (A ++ out) g (gap ++ 39 :: d :: rest). do 3 f_equal; [same_list|]. do 2 f_equal. lia.
Qed.

Lemma dequote_loop want A d rest : d = 0 \/ want = true /\ d <> 92 -> forall s fuel out g gap,
  (length s < fuel)%nat -> is_string s ->
  exists gap', loop fuel (dequote_step want)
      (A ++ out ++ g :: gap ++ sq_body s ++ 39 :: d :: rest, zlen A + zlen out, zlen A + zlen out + zlen gap) =
      Ret (A ++ out ++ s ++ 0 :: gap' ++ d :: rest,
           Some (if d =? 0 then None else Some (zlen A + zlen out + zlen gap + zlen (sq_body s) + 2))) /\
    zlen s + zlen gap' = zlen gap + zlen (sq_body s) + 1.
Proof.
  intros Hd s. induction s as [|c s IH]; intros [|fuel] out g gap Hf Hs; cbn [length] in Hf; try lia.
  - exists (gap ++ [39]). change (sq_body []) with (@nil Z). change (zlen (@nil Z)) with 0. rewrite Z.add_0_r. split; [|rewrite zlen_app; change (zlen [39]) with 1; lia].
    apply loop_stop. by apply dequote_end.
  - apply Forall_cons_iff in Hs as [Hc Hs]. rewrite sq_body_cons, <-(app_assoc (sq_char c)), zlen_app, zlen_cons.
    rewrite (loop_next _ _ _ _ (dequote_char want A out g gap c (sq_body s ++ 39 :: d :: rest) Hc)).
    assert (exists g' gap1, gap ++ sq_char c = g' :: gap1 /\ zlen gap1 = zlen gap + zlen (sq_char c) - 1) as (g' & gap1 & Hg & Hz1).
    { assert (0 < zlen (gap ++ sq_char c)) as Hpos.
      { rewrite zlen_app. pose proof (zlen_nonneg gap). unfold sq_char. destruct (need_bs_quote c); [change (zlen [39; 92; c; 39]) with 4|change (zlen [c]) with 1]; lia. }
      rewrite <-zlen_app. destruct (gap ++ sq_char c) as [|g' gap1]; [rewrite zlen_nil in Hpos; lia|].
      exists g', gap1. split; [done|]. rewrite zlen_cons. lia. }
    rewrite Hg. destruct (IH fuel (out ++ [c]) g' gap1) as (gap' & Hl & Hz); [lia|done|]. exists gap'.
    split; [|lia]. rewrite zlen_app in *. change (zlen [c]) with 1 in *.
    replace (zlen A + (zlen out + 1) + zlen gap1) with (zlen A + zlen out + zlen gap + zlen (sq_char c)) in Hl by lia.
    cbn [app] in Hl |- *. rewrite Hl. do 2 f_equal; [same_list|]. destruct (d =? 0); [done|]. do 2 f_equal. lia.
Qed.
(** Dequoting a string that stands behind [A], before its NUL or a space. *)
Lemma sq_dequote_step_spec want A s d rest :
  d = 0 \/ want = true /\ d <> 92 -> is_string s ->
  exists gap, sq_dequote_step (A ++ sq_text s ++ d :: rest) (zlen A) want =
      Ret (A ++ s ++ 0 :: gap ++ d :: rest, Some (if d =? 0 then None else Some (zlen (A ++ s ++ 0 :: gap)))).
Proof.
  intros Hd Hs. unfold sq_dequote_step.
  assert (A ++ sq_text s ++ d :: rest = A ++ [] ++ 39 :: [] ++ sq_body s ++ 39 :: d :: rest) as -> by (unfold sq_text; same_list).
  set (mem := A ++ [] ++ 39 :: [] ++ sq_body s ++ 39 :: d :: rest).
  destruct (dequote_loop want A d rest Hd s (S (length mem)) [] 39 []) as (gap & Hl & Hz); [|done|].
  { subst mem. rewrite !length_app. cbn [length]. rewrite !length_app. cbn [length].
    assert (forall s, length s <= length (sq_body s))%nat as Hle; [|specialize (Hle s); lia].
    clear. intros s. induction s as [|c s IH]; [done|]. rewrite sq_body_cons, length_app. cbn [length]. unfold sq_char.
    destruct (need_bs_quote c); cbn [length]; lia. }
  change (zlen (@nil Z)) with 0 in Hl, Hz. rewrite !Z.add_0_r in Hl. fold mem in Hl. exists gap.
  rewrite (rd_at A 39 (sq_body s ++ 39 :: d :: rest)) by (done || (unfold mem; same_list)). run.
  change (negb (39 =? 39)) with false. cbv iota. rewrite Hl. do 2 f_equal. destruct (d =? 0); [done|]. do 2 f_equal. rewrite !zlen_app, zlen_cons. lia.
Qed.

(** What a pointer into the memory points to. *)
Definition points_to (mem : list Z) (p : Z) (s : list Z) : Prop := exists pre rest, mem = pre ++ s ++ 0 :: rest /\ zlen pre = p.

Lemma argv_loop extra : forall ss s A fuel argv array,
  (length ss < fuel)%nat -> is_string s -> Forall (fun s => is_string s) ss ->
  exists mem ptrs, loop fuel argv_step (A ++ sq_text s ++ argv_text ss ++ 0 :: extra, zlen A, argv, array) =
      Ret (mem, (fun l => l ++ ptrs) <$> argv, (fun l => l ++ s :: ss) <$> array, true) /\
    Forall2 (points_to mem) ptrs (s :: ss) /\ exists rest, mem = A ++ rest.
Proof.
  intros ss. induction ss as [|s2 ss IH]; intros s A [|fuel] argv array Hf Hs Hss; cbn [length] in Hf; try lia.
  - change (argv_text [] ++ 0 :: extra) with (0 :: extra).
    destruct (sq_dequote_step_spec true A s 0 extra) as (gap & Hd); [by left|done|].
    set (mem := A ++ s ++ 0 :: gap ++ 0 :: extra) in *. change (0 =? 0) with true in Hd. cbv iota in Hd.
    assert (c_string (drop (Z.to_nat (zlen A)) mem) = s) as Hc.
    { unfold mem. rewrite (proj2 (take_drop_zlen A _)). by apply c_string_app, string_no_nul. }
    exists mem, [zlen A]. split; [|split; [|by eexists]].
    + apply loop_stop. unfold argv_step. rewrite Hd. run. by rewrite Hc.
    + constructor; [|constructor]. by exists A, (gap ++ 0 :: extra).
  - apply Forall_cons_iff in Hss as [Hs2 Hss].
    assert (argv_text (s2 :: ss) ++ 0 :: extra = 32 :: sq_text s2 ++ argv_text ss ++ 0 :: extra) as ->.
    { unfold argv_text. cbn [fmap list_fmap concat]. same_list. }
    set (t := sq_text s2 ++ argv_text ss ++ 0 :: extra).
    destruct (sq_dequote_step_spec true A s 32 t) as (gap & Hd); [by right|done|]. change (32 =? 0) with false in Hd. cbv iota in Hd.
    set (mem := A ++ s ++ 0 :: gap ++ 32 :: t) in *. set (A2 := A ++ s ++ 0 :: gap ++ [32]).
    assert (c_string (drop (Z.to_nat (zlen A)) mem) = s) as Hc.
    { unfold mem. rewrite (proj2 (take_drop_zlen A _)). by apply c_string_app, string_no_nul. }
    assert (mem = A2 ++ t) as Hmem by (unfold mem, A2; same_list).
    assert (loop (S (length mem)) (skip_step mem) (zlen (A ++ s ++ 0 :: gap)) = Ret (zlen A2)) as Hskip.
    { assert (zlen (A ++ s ++ 0 :: gap) + 1 = zlen A2) as HA2 by (unfold A2; same_len).
      apply loop_stop. unfold skip_step. rewrite HA2.
      rewrite (rd_at A2 39 (sq_body s2 ++ [39] ++ argv_text ss ++ 0 :: extra)) by (done || (rewrite Hmem; unfold t, sq_text; same_list)).
      run. by rewrite isspace_spec by (unfold is_byte; lia). }
    assert (argv_step (A ++ sq_text s ++ 32 :: t, zlen A, argv, array) =
      Ret (inl (mem, zlen A2, (fun l => l ++ [zlen A]) <$> argv, (fun l => l ++ [s]) <$> array))) as Hstep.
    { unfold argv_step. rewrite Hd. run. rewrite (rd_at (A ++ s ++ 0 :: gap) 32 t) by (done || (unfold mem; same_list)). run.
      rewrite isspace_spec by (unfold is_byte; lia). cbn [negb bool_decide]. rewrite Hskip. run. by rewrite Hc. }
    rewrite (loop_next _ _ _ _ Hstep), Hmem.
    destruct (IH s2 A2 fuel ((fun l => l ++ [zlen A]) <$> argv) ((fun l => l ++ [s]) <$> array)) as (mem' & ptrs & Hl & Hp & rest & Hr);
      [lia|done|done|].
    fold t in Hl. rewrite Hl. exists mem', (zlen A :: ptrs). split; [|split].
    + destruct argv, array; cbn [fmap option_fmap option_map]; same_list.
    + constructor; [|done]. exists A, (gap ++ 32 :: rest). split; [|done]. rewrite Hr. unfold A2. same_list.
    + exists (s ++ 0 :: gap ++ 32 :: rest). rewrite Hr. unfold A2. same_list.
Qed.
End dequoting.

(** * Literals *)

(** A string literal behind its opening quote, read up to the quote [close]: the
    text and what follows; a backslash gives what [decode] makes of the next
    character, and a bare character of [forbidden] is not part of a literal. *)
Fixpoint read_literal (close : Z) (decode : Z -> Z) (forbidden : list Z) (t : list Z) : option (list Z * list Z) :=
  match t with
  | [] => None
  | c :: t' =>
      if c =? close then Some ([], t') else
      if c =? 92 then
        match t' with
        | [] => None
        | e :: t'' => r ← read_literal close decode forbidden t''; Some (decode e :: fst r, snd r)
        end
      else if bool_decide (c ∈ forbidden) then None
      else r ← read_literal close decode forbidden t'; Some (c :: fst r, snd r)
  end.

Definition perl_char (c : Z) : list Z := if (c =? 39) || (c =? 92) then [92; c] else [c].
Definition python_char (c : Z) : list Z := if c =? 10 then [92; 110] else perl_char c.
Definition tcl_char (c : Z) : list Z :=
  if bool_decide (c ∈ [91; 93; 123; 125; 36; 92; 34]) then [92; c]
  else match tcl_letter c with Some x => [92; x] | None => [c] end.

(** What a letter behind a backslash stands for. *)
Definition python_decode (e : Z) : Z := if e =? 110 then 10 else e.
Definition tcl_decode (e : Z) : Z :=
  if e =? 102 then 12 else if e =? 114 then 13 else if e =? 110 then 10 else if e =? 116 then 9 else if e =? 118 then 11 else e.

(** A way to write characters that a reader of literals understands. *)
Definition readable (close : Z) (decode : Z -> Z) (forbidden : list Z) (f : Z -> list Z) : Prop :=
  close <> 92 /\
  forall c, (f c = [c] /\ c <> close /\ c <> 92 /\ c ∉ forbidden) \/ (exists e, f c = [92; e] /\ decode e = c).

Lemma read_back close decode forbidden f s rest :
  readable close decode forbidden f ->
  read_literal close decode forbidden (concat (f <$> s) ++ close :: rest) = Some (s, rest).
Proof.
  intros [Hclose Hf]. induction s as [|c s IH]; [cbn; by rewrite Z.eqb_refl|]. cbn [fmap list_fmap concat].
  destruct (Hf c) as [(-> & Hc & H92 & Hforb)|(e & -> & He)]; cbn [app read_literal].
  - rewrite (proj2 (Z.eqb_neq c close)), (proj2 (Z.eqb_neq c 92)), bool_decide_false by done. unfold list_fmap in *.
    change (list_fmap _ _ f s) with (f <$> s). by rewrite IH.
  - rewrite (proj2 (Z.eqb_neq 92 close)) by done. change (92 =? 92) with true. cbv iota.
    change (list_fmap _ _ f s) with (f <$> s). rewrite IH. cbn. by rewrite He.
Qed.

Lemma perl_readable : readable 39 (fun e => e) [] perl_char.
Proof.
  split; [done|]. intros c. unfold perl_char. destruct (Z.eqb_spec c 39), (Z.eqb_spec c 92); cbn [orb]; try (right; by eexists).
  left. repeat split; try done. apply not_elem_of_nil.
Qed.

Lemma python_readable : readable 39 python_decode [10] python_char.
Proof.
  split; [done|]. intros c. unfold python_char, perl_char.
  destruct (Z.eqb_spec c 10) as [->|]; [right; by eexists|].
  destruct (Z.eqb_spec c 39), (Z.eqb_spec c 92); cbn [orb]; try (right; exists c; subst; done).
  left. repeat split; try done. by rewrite list_elem_of_singleton.
Qed.

Lemma tcl_readable : readable 34 tcl_decode [36; 91] tcl_char.
Proof.
  split; [done|]. intros c. unfold tcl_char. case_bool_decide as Hc.
  - right. exists c. split; [done|]. rewrite !elem_of_cons, elem_of_nil in Hc.
    destruct Hc as [->|[->|[->|[->|[->|[->|[->|[]]]]]]]]; done.
  - unfold tcl_letter. destruct (Z.eqb_spec c 12) as [->|]; [right; by eexists|]. destruct (Z.eqb_spec c 13) as [->|]; [right; by eexists|].
    destruct (Z.eqb_spec c 10) as [->|]; [right; by eexists|]. destruct (Z.eqb_spec c 9) as [->|]; [right; by eexists|].
    destruct (Z.eqb_spec c 11) as [->|]; [right; by eexists|]. left. rewrite !not_elem_of_cons in Hc. rewrite !not_elem_of_cons.
    destruct Hc as (? & ? & ? & ? & ? & ? & ? & _). split; [done|]. split; [done|]. split; [done|]. split; [done|].
    split; [done|]. apply not_elem_of_nil.
Qed.

Section literals.
Context `{GitCompatOk} `{Hsb : StrbufHeaderOk}.

Lemma addch_byte sb l c :
  sb_rep sb l -> is_byte c -> zlen l + 2 < 2 ^ 64 -> exists sb', strbuf_addch sb c = Ret sb' /\ sb_rep sb' (l ++ [c]).
Proof. intros Hr Hc Hs. destruct (strbuf_addch_spec sb l c Hr Hs) as (sb' & ? & Hr'). rewrite u8_small in Hr' by done. eauto. Qed.

Lemma add_two sb l a b :
  sb_rep sb l -> is_byte a -> is_byte b -> zlen l + 4 < 2 ^ 64 ->
  exists sb', (sb ← strbuf_addch sb a; strbuf_addch sb b) = Ret sb' /\ sb_rep sb' (l ++ [a; b]).
Proof.
  intros Hr Ha Hb Hs. destruct (addch_byte sb l a Hr Ha) as (sb1 & -> & Hr1); [lia|]. run.
  destruct (addch_byte sb1 _ b Hr1 Hb) as (sb2 & -> & Hr2); [rewrite zlen_app; change (zlen [a]) with 1; lia|].
  exists sb2. split; [done|]. by rewrite <-(assoc app) in Hr2.
Qed.

(** A round that writes [f c]. *)
Definition writes (step : Z -> list Z -> strbuf -> outcome strbuf) (f : Z -> list Z) : Prop :=
  forall c rest sb l, is_byte c -> sb_rep sb l -> zlen l + 4 < 2 ^ 64 ->
    zlen (f c) <= 2 /\ exists sb', step c rest sb = Ret sb' /\ sb_rep sb' (l ++ f c).

Lemma each_char_spec step f : writes step f -> forall s sb l,
  is_bytes s -> sb_rep sb l -> zlen l + 2 * zlen s + 4 < 2 ^ 64 ->
  zlen (concat (f <$> s)) <= 2 * zlen s /\
  exists sb', each_char step s sb = Ret sb' /\ sb_rep sb' (l ++ concat (f <$> s)).
Proof.
  intros Hstep s. induction s as [|c s IH]; intros sb l Hs Hr Hsmall.
  - split; [done|]. exists sb. by rewrite app_nil_r.
  - apply Forall_cons_iff in Hs as [Hc Hs]. rewrite zlen_cons in *. pose proof (zlen_nonneg s).
    destruct (Hstep c s sb l Hc Hr) as (Hle & sb1 & Hst & Hr1); [lia|]. cbn [each_char]. rewrite Hst. run.
    destruct (IH sb1 (l ++ f c) Hs Hr1) as (Hle2 & sb2 & Hl & Hr2); [rewrite zlen_app; lia|].
    rewrite fmap_cons. cbn [concat]. rewrite zlen_app. split; [lia|]. exists sb2. split; [done|]. by rewrite <-(assoc app) in Hr2.
Qed.

Lemma perl_writes : writes perl_step perl_char.
Proof.
  intros c rest sb l Hc Hr Hs. unfold perl_step, perl_char. destruct ((c =? 39) || (c =? 92)).
  - split; [done|]. by apply add_two.
  - split; [done|]. apply addch_byte; [done|done|lia].
Qed.

Lemma python_writes : writes python_step python_char.
Proof.
  intros c rest sb l Hc Hr Hs. unfold python_step, python_char. destruct (c =? 10).
  - split; [done|]. apply add_two; (done || unfold is_byte; lia).
  - by apply (perl_writes c rest).
Qed.

Lemma tcl_writes : writes tcl_step tcl_char.
Proof.
  intros c rest sb l Hc Hr Hs. unfold tcl_step, tcl_char. case_bool_decide; [split; [done|]; by apply add_two|].
  destruct (tcl_letter c) as [x|].
  - split; [done|]. apply strbuf_addstr_spec; [done|]. change (zlen [92; x]) with 2. lia.
  - split; [done|]. apply addch_byte; [done|done|lia].
Qed.

(** The whole literal. *)
Lemma literal_spec q step f sb l s :
  writes step f -> is_byte q -> is_bytes s -> sb_rep sb l -> zlen l + 2 * zlen s + 8 < 2 ^ 64 ->
  exists sb', (sb ← strbuf_addch sb q; sb ← each_char step s sb; strbuf_addch sb q) = Ret sb' /\
    sb_rep sb' (l ++ q :: concat (f <$> s) ++ [q]).
Proof.
  intros Hstep Hq Hs Hr Hsmall. pose proof (zlen_nonneg s). destruct (addch_byte sb l q Hr Hq) as (sb1 & -> & Hr1); [lia|]. run.
  destruct (each_char_spec step f Hstep s sb1 (l ++ [q]) Hs Hr1) as (Hle & sb2 & -> & Hr2);
    [rewrite zlen_app; change (zlen [q]) with 1; lia|]. run.
  destruct (addch_byte sb2 _ q Hr2 Hq) as (sb3 & -> & Hr3); [rewrite !zlen_app; change (zlen [q]) with 1; lia|].
  exists sb3. split; [done|]. by rewrite <-!(assoc app) in Hr3.
Qed.
End literals.

(** * Claims *)



(** The literals for other languages denote the string: [perl_quote_buf],
    [python_quote_buf] and [tcl_quote_buf] append a literal in quotes that the
    reader of that language -- with its closing quote, its escapes, and the
    characters that may not stand there bare: a newline in Python, a dollar
    sign and a bracket in Tcl -- reads as exactly the string, and the same
    holds of [perl_quote_buf_with_len] for bytes that contain NULs. *)
Theorem literals_read_back `{GitCompatOk} `{StrbufHeaderOk} (sb : strbuf) (l s data extra : list Z) :
  sb_rep sb l -> is_string s -> is_bytes data -> zlen l + 2 * zlen s + 8 < 2 ^ 64 -> zlen l + 2 * zlen data + 8 < 2 ^ 64 ->
  (exists sb' t, perl_quote_buf sb s = Ret sb' /\ sb_rep sb' (l ++ 39 :: t) /\ read_literal 39 (fun e => e) [] t = Some (s, [])) /\
  (exists sb' t, perl_quote_buf_with_len sb (data ++ extra) (zlen data) = Ret sb' /\ sb_rep sb' (l ++ 39 :: t) /\
     read_literal 39 (fun e => e) [] t = Some (data, [])) /\
  (exists sb' t, python_quote_buf sb s = Ret sb' /\ sb_rep sb' (l ++ 39 :: t) /\ read_literal 39 python_decode [10] t = Some (s, [])) /\
  (exists sb' t, tcl_quote_buf sb s = Ret sb' /\ sb_rep sb' (l ++ 34 :: t) /\ read_literal 34 tcl_decode [36; 91] t = Some (s, [])).
Proof.
  intros Hr Hs Hdata Hsmall Hsmall2. pose proof (string_bytes s Hs) as Hb.
  assert (is_byte 39 /\ is_byte 34) as [H39 H34] by (unfold is_byte; lia).
  split; [|split; [|split]].
  - destruct (literal_spec 39 _ _ sb l s perl_writes H39 Hb Hr Hsmall) as (sb' & Hq & Hr').
    eexists sb', _. split; [exact Hq|]. split; [exact Hr'|]. by apply read_back, perl_readable.
  - destruct (literal_spec 39 _ _ sb l data perl_writes H39 Hdata Hr Hsmall2) as (sb' & Hq & Hr').
    eexists sb', _. split; [|split; [exact Hr'|by apply read_back, perl_readable]].
    unfold perl_quote_buf_with_len. destruct (at_pos_app _ _ _ _ (at_pos_0 (data ++ extra))) as [-> _]. run. exact Hq.
  - destruct (literal_spec 39 _ _ sb l s python_writes H39 Hb Hr Hsmall) as (sb' & Hq & Hr').
    eexists sb', _. split; [exact Hq|]. split; [exact Hr'|]. by apply read_back, python_readable.
  - destruct (literal_spec 34 _ _ sb l s tcl_writes H34 Hb Hr Hsmall) as (sb' & Hq & Hr').
    eexists sb', _. split; [exact Hq|]. split; [exact Hr'|]. by apply read_back, tcl_readable.
Qed.

Lemma literals_read_back_witness :
  let s := [97; 39; 92; 10; 36] in
  let data := [0; 39] in
  (exists sb' t, @perl_quote_buf strbuf_ref STRBUF_INIT s = Ret sb' /\ sb_rep sb' ([] ++ 39 :: t) /\ read_literal 39 (fun e => e) [] t = Some (s, [])) /\
  (exists sb' t, @perl_quote_buf_with_len strbuf_ref STRBUF_INIT (data ++ [7]) (zlen data) = Ret sb' /\ sb_rep sb' ([] ++ 39 :: t) /\
     read_literal 39 (fun e => e) [] t = Some (data, [])) /\
  (exists sb' t, @python_quote_buf strbuf_ref STRBUF_INIT s = Ret sb' /\ sb_rep sb' ([] ++ 39 :: t) /\ read_literal 39 python_decode [10] t = Some (s, [])) /\
  (exists sb' t, @tcl_quote_buf strbuf_ref STRBUF_INIT s = Ret sb' /\ sb_rep sb' ([] ++ 34 :: t) /\ read_literal 34 tcl_decode [36; 91] t = Some (s, [])).
Proof.
  cbv zeta.
  apply (@literals_read_back compat_ref compat_ref_ok strbuf_ref strbuf_ref_ok STRBUF_INIT [] [97; 39; 92; 10; 36] [0; 39] [7]);
    [apply sb_rep_init|repeat (apply Forall_cons_2; [lia|]); apply Forall_nil_2|evaluate..].
Defined.
