(* ===== verification/QuoteC.v ===== *)
(** quote.c: path names in C style -- in double quotes, with backslash escapes and
    octal codes where a byte needs them -- and reading them back. *)
From S2P Require Import Prelude Headers Strbuf Quote.

(** * Model *)

(** quote.h *)
Class QuoteHeader := { CQUOTE_NODQ : Z }.

Definition X8 (x : Z) : list Z := [x; x; x; x; x; x; x; x].
Definition X16 (x : Z) : list Z := X8 x ++ X8 x.

Definition cq_lookup : list Z :=
  [1; 1; 1; 1; 1; 1; 1; 97] ++
  [98; 116; 110; 118; 102; 114; 1; 1] ++
  X16 1 ++
  [-1; -1; 34; -1; -1; -1; -1; -1] ++
  X16 (-1) ++ X16 (-1) ++ X16 (-1) ++
  [-1; -1; -1; -1; 92; -1; -1; -1] ++
  X16 (-1) ++ X8 (-1) ++
  [-1; -1; -1; -1; -1; -1; -1; 1] ++
  replicate 128 0.

(** Of an [unsigned char]. *)
Definition cq (c : Z) : Z := default 0 (cq_lookup !! Z.to_nat c).

(** Where the output goes -- a buffer, a stream, both or neither -- and how much. *)
Record cq_out := CqOut { cq_sb : option strbuf; cq_fp : option (list Z); cq_count : Z }.

Section model.
Context `{GitCompat} `{Hsb : StrbufHeader} `{QuoteHeader}.
Context (junk quote_path_fully : Z).

Definition cq_must_quote (c : Z) : bool := cq c + quote_path_fully >? 0.

Definition next_quote_step (s : list Z) (maxlen len : Z) : outcome (Z + Z) :=
  if maxlen <? 0 then
    c ← rd s len;
    Ret (if cq_must_quote c then inr len else inl (len + 1))
  else if negb (len <? maxlen) then Ret (inr len) else
    c ← rd s len;
    Ret (if cq_must_quote c then inr len else inl (len + 1)).

Definition next_quote_pos (s : list Z) (maxlen : Z) : outcome Z :=
  loop (S (length s)) (next_quote_step s maxlen) 0.

Definition EMIT (out : cq_out) (c : Z) : outcome cq_out :=
  sb ← (match cq_sb out with Some sb => sb ← strbuf_addch sb c; Ret (Some sb) | None => Ret None end);
  Ret (CqOut sb ((fun l => l ++ [u8 c]) <$> cq_fp out) (cq_count out + 1)).

Definition EMITBUF (out : cq_out) (s : list Z) (l : Z) : outcome cq_out :=
  sb ← (match cq_sb out with Some sb => sb ← strbuf_add junk sb s l; Ret (Some sb) | None => Ret None end);
  fp ← (match cq_fp out with Some fp => xs ← rd_range s 0 l; Ret (Some (fp ++ xs)) | None => Ret None end);
  Ret (CqOut sb fp (cq_count out + l)).

(** One round: the offset [p], [maxlen] and the output; left with [p], [len]
    and the output. *)
Definition quote_c_step (name : list Z) (no_dq : bool) (st : Z * Z * cq_out) : outcome ((Z * Z * cq_out) + (Z * Z * cq_out)) :=
  let '(p, maxlen, out) := st in
  let s := drop (Z.to_nat p) name in
  len ← next_quote_pos s maxlen;
  stop ← (if len =? maxlen then Ret true else if maxlen <? 0 then c ← rd s len; Ret (c =? 0) else Ret false);
  if (stop : bool) then Ret (inr (p, len, out)) else
  out ← (if negb no_dq && (p =? 0) then EMIT out 34 else Ret out);
  out ← EMITBUF out s len;
  out ← EMIT out 92;
  ch ← rd s len;
  let maxlen := if maxlen >=? 0 then maxlen - (len + 1) else maxlen in
  out ←
    (if cq ch >=? 32 then EMIT out (cq ch)
     else
       out ← EMIT out (Z.land (Z.shiftr ch 6) 3 + 48);
       out ← EMIT out (Z.land (Z.shiftr ch 3) 7 + 48);
       EMIT out (Z.land (Z.shiftr ch 0) 7 + 48));
  Ret (inl (p + len + 1, maxlen, out)).

(** The buffer, the stream and the return value. *)
Definition quote_c_style_counted (name : list Z) (maxlen : Z) (sb : option strbuf) (fp : option (list Z)) (flags : Z)
    : outcome (option strbuf * option (list Z) * Z) :=
  let no_dq := tru (Z.land flags CQUOTE_NODQ) in
  '(p, len, out) ← loop (S (length name)) (quote_c_step name no_dq) (0, maxlen, CqOut sb fp 0);
  out ← EMITBUF out (drop (Z.to_nat p) name) len;
  if p =? 0 then Ret (cq_sb out, cq_fp out, 0) else
  out ← (if no_dq then Ret out else EMIT out 34);
  Ret (cq_sb out, cq_fp out, cq_count out).

Definition quote_c_style (name : list Z) (sb : option strbuf) (fp : option (list Z)) (flags : Z) :=
  quote_c_style_counted name (-1) sb fp flags.

(** [prefix] and [path] end in NUL. *)
Definition quote_two_c_style (sb : strbuf) (prefix path : list Z) (flags : Z) : outcome (option strbuf) :=
  let nodq := tru (Z.land flags CQUOTE_NODQ) in
  '(_, _, n) ← quote_c_style prefix None None 0;
  m ← (if tru n then Ret n else '(_, _, m) ← quote_c_style path None None 0; Ret m);
  if tru m then
    sb ← (if nodq then Ret sb else strbuf_addch sb 34);
    '(sb, _, _) ← quote_c_style prefix (Some sb) None CQUOTE_NODQ;
    '(sb, _, _) ← quote_c_style path sb None CQUOTE_NODQ;
    match sb with
    | Some sb => sb ← (if nodq then Ret sb else strbuf_addch sb 34); Ret (Some sb)
    | None => Ret None
    end
  else
    sb ← strbuf_addstr sb (c_string prefix);
    sb ← strbuf_addstr sb (c_string path);
    Ret (Some sb).

Definition write_name_quoted (name fp : list Z) (terminator : Z) : outcome (list Z) :=
  fp ←
    (if tru terminator then
       '(_, fp, _) ← quote_c_style name None (Some fp) 0;
       Ret (default [] fp)
     else Ret (fp ++ c_string name));
  Ret (fp ++ [u8 terminator]).

(** The character behind a backslash; [None] is [goto error]. *)
Definition escape_char (ch : Z) : option Z :=
  if ch =? 97 then Some 7 else if ch =? 98 then Some 8 else if ch =? 102 then Some 12 else
  if ch =? 110 then Some 10 else if ch =? 114 then Some 13 else if ch =? 116 then Some 9 else
  if ch =? 118 then Some 11 else if (ch =? 92) || (ch =? 34) then Some ch else None.

(** Three octal digits, the first of which is [ch]; the pointer is behind it. *)
Definition octal_char (ch : Z) (quoted : list Z) : option (Z * list Z) :=
  let ac := Z.shiftl (ch - 48) 6 in
  let ch := deref quoted in
  let quoted := tail quoted in
  if (ch <? 48) || (55 <? ch) then None else
  let ac := Z.lor ac (Z.shiftl (ch - 48) 3) in
  let ch := deref quoted in
  let quoted := tail quoted in
  if (ch <? 48) || (55 <? ch) then None else
  Some (Z.lor ac (ch - 48), quoted).

(** One round; it ends with the new [*endp] or, for an error, [None]. *)
Definition unquote_step (st : strbuf * list Z) : outcome ((strbuf * list Z) + (strbuf * option (list Z))) :=
  let '(sb, quoted) := st in
  let len := strcspn quoted [34; 92] in
  sb ← strbuf_add junk sb quoted len;
  let quoted := drop (Z.to_nat len) quoted in
  let c := deref quoted in
  let quoted := tail quoted in
  if c =? 34 then Ret (inr (sb, Some quoted)) else
  if negb (c =? 92) then Ret (inr (sb, None)) else
  let ch := deref quoted in
  let quoted := tail quoted in
  let r :=
    match escape_char ch with
    | Some ch => Some (ch, quoted)
    | None => if (48 <=? ch) && (ch <=? 51) then octal_char ch quoted else None
    end in
  match r with
  | None => Ret (inr (sb, None))
  | Some (ch, quoted) => sb ← strbuf_addch sb ch; Ret (inl (sb, quoted))
  end.

(** The buffer, the return value and the new [*endp] where it is set. *)
Definition unquote_c_style (sb : strbuf) (quoted : list Z) : outcome (strbuf * Z * option (list Z)) :=
  let oldlen := sb_len sb in
  if negb (deref quoted =? 34) then Ret (sb, -1, None) else
  '(sb, r) ← loop (S (length quoted)) unquote_step (sb, tail quoted);
  match r with
  | Some endp => Ret (sb, 0, Some endp)
  | None => sb ← strbuf_setlen sb oldlen; Ret (sb, -1, None)
  end.
End model.

(** * Specification *)

(** A byte in C style. *)
Definition cq_char (quote_path_fully c : Z) : list Z :=
  if cq_must_quote quote_path_fully c then
    (if cq c >=? 32 then [92; cq c] else [92; c / 64 + 48; c / 8 mod 8 + 48; c mod 8 + 48])
  else [c].

Definition cq_body (quote_path_fully : Z) (s : list Z) : list Z := concat (cq_char quote_path_fully <$> s).

Definition cq_needed (quote_path_fully : Z) (s : list Z) : bool := existsb (cq_must_quote quote_path_fully) s.

(** The whole name: as it is, or escaped and in quotes unless [no_dq] says otherwise. *)
Definition cq_text (quote_path_fully : Z) (no_dq : bool) (s : list Z) : list Z :=
  if cq_needed quote_path_fully s then
    (if no_dq then cq_body quote_path_fully s else 34 :: cq_body quote_path_fully s ++ [34])
  else s.

(** * Bytes *)

Lemma all_bytes_check (P : Z -> bool) : forallb P (seqZ 0 256) = true -> forall c, is_byte c -> P c = true.
Proof. intros Hall c Hc. rewrite forallb_forall in Hall. apply Hall, list_elem_of_In, elem_of_seqZ. unfold is_byte in Hc. lia. Qed.

(** The escapes, and that the reader inverts each. *)
Definition escape_ok (c : Z) : bool :=
  if cq c >=? 32 then bool_decide (escape_char (cq c) = Some c) && (cq c <? 256)
  else (48 <=? c / 64 + 48) && (c / 64 + 48 <=? 51) && bool_decide (escape_char (c / 64 + 48) = None) &&
       bool_decide (octal_char (c / 64 + 48) [c / 8 mod 8 + 48; c mod 8 + 48] = Some (c, [])) &&
       (Z.land (Z.shiftr c 6) 3 =? c / 64) && (Z.land (Z.shiftr c 3) 7 =? c / 8 mod 8) && (Z.land (Z.shiftr c 0) 7 =? c mod 8).

Lemma escape_ok_all c : is_byte c -> escape_ok c = true.
Proof. apply all_bytes_check. vm_compute. reflexivity. Qed.

Lemma octal_char_app ch a b rest v : octal_char ch [a; b] = Some (v, []) -> octal_char ch (a :: b :: rest) = Some (v, rest).
Proof.
  unfold octal_char. cbn [deref tail]. destruct ((a <? 48) || (55 <? a)); [done|]. destruct ((b <? 48) || (55 <? b)); [done|].
  by intros [= <-].
Qed.

Section bytes.
Context (qpf : Z).

Lemma must_quote_special c : 0 <= qpf -> c ∈ [0; 34; 92] -> cq_must_quote qpf c = true.
Proof.
  intros Hq Hc. rewrite !elem_of_cons, elem_of_nil in Hc. unfold cq_must_quote. apply Z.gtb_lt.
  destruct Hc as [->|[->|[->|[]]]]; [change (cq 0) with 1|change (cq 34) with 34|change (cq 92) with 92]; lia.
Qed.

Lemma cq_body_app s t : cq_body qpf (s ++ t) = cq_body qpf s ++ cq_body qpf t.
Proof. unfold cq_body. by rewrite fmap_app, concat_app. Qed.

Lemma cq_body_plain s : Forall (fun c => cq_must_quote qpf c = false) s -> cq_body qpf s = s.
Proof.
  induction 1 as [|c s Hc _ IH]; [done|]. unfold cq_body in *. cbn [fmap list_fmap concat]. unfold cq_char at 1. by rewrite Hc, IH.
Qed.

Lemma cq_needed_app s t : cq_needed qpf (s ++ t) = cq_needed qpf s || cq_needed qpf t.
Proof. unfold cq_needed. apply existsb_app. Qed.

Lemma cq_needed_plain s : Forall (fun c => cq_must_quote qpf c = false) s -> cq_needed qpf s = false.
Proof. induction 1 as [|c s Hc _ IH]; [done|]. unfold cq_needed in *. cbn [existsb]. by rewrite Hc, IH. Qed.

Lemma cq_char_len c : 1 <= zlen (cq_char qpf c) <= 4.
Proof. unfold cq_char. destruct (cq_must_quote qpf c); [destruct (cq c >=? 32)|]; rewrite !zlen_cons, zlen_nil; lia. Qed.

Lemma cq_body_len s : zlen (cq_body qpf s) <= 4 * zlen s.
Proof.
  induction s as [|c s IH]; [done|]. unfold cq_body in *. cbn [fmap list_fmap concat]. rewrite zlen_app, zlen_cons.
  pose proof (cq_char_len c). lia.
Qed.

(** The text up to the first byte that needs a quote. *)
Lemma plain_run s : exists p t, s = p ++ t /\ Forall (fun c => cq_must_quote qpf c = false) p /\
  (t = [] \/ exists c t', t = c :: t' /\ cq_must_quote qpf c = true).
Proof.
  induction s as [|c s (p & t & -> & Hp & Ht)]; [exists [], []; repeat split; [constructor|by left]|].
  destruct (cq_must_quote qpf c) eqn:E.
  - exists [], (c :: p ++ t). split; [done|]. split; [constructor|]. right. eauto.
  - exists (c :: p), t. split; [done|]. split; [by constructor|done].
Qed.
End bytes.

(** * Quoting *)

Section quoting.
Context `{GitCompatOk} `{Hsb : StrbufHeaderOk} `{QuoteHeader}.
Context (junk qpf : Z) (Hqpf : 0 <= qpf).

(** The name in memory: [s], then [extra]; either a string with its NUL and a
    negative [maxlen], or bytes and their number. *)
Definition name_ok (s extra : list Z) (maxlen : Z) : Prop :=
  maxlen < 0 /\ is_string s /\ (exists rest, extra = 0 :: rest) \/ maxlen = zlen s /\ is_bytes s.

Lemma name_ok_bytes s extra maxlen : name_ok s extra maxlen -> is_bytes s.
Proof. intros [(_ & Hs & _)|[_ Hs]]; [by apply string_bytes|done]. Qed.

Lemma next_quote_pos_spec p t extra maxlen :
  Forall (fun c => cq_must_quote qpf c = false) p -> (t = [] \/ exists c t', t = c :: t' /\ cq_must_quote qpf c = true) ->
  name_ok (p ++ t) extra maxlen -> next_quote_pos qpf ((p ++ t) ++ extra) maxlen = Ret (zlen p).
Proof.
  intros Hp Ht Hname. unfold next_quote_pos.
  destruct (loop_ret (fun len => 0 <= len <= zlen p) (fun len => zlen p - len) (S (length ((p ++ t) ++ extra)))
    (next_quote_step qpf ((p ++ t) ++ extra) maxlen) 0 (fun len => len = zlen p)) as (len & Hl & ->); [| | |exact Hl].
  - intros len Hlen. assert (len < zlen p -> exists c, rd ((p ++ t) ++ extra) len = Ret c /\ cq_must_quote qpf c = false) as Hin.
    { intros Hlt. destruct (rd_in p len) as [c Hc]; [lia|]. apply rd_Ret in Hc as [_ Hc]. exists c.
      split; [|by apply (Forall_lookup_1 _ _ _ _ Hp Hc)]. apply rd_Ret. split; [lia|].
      rewrite <-(assoc app), lookup_app_l; [done|]. by apply lookup_lt_Some in Hc. }
    assert (len = zlen p -> (t = [] -> maxlen < 0) -> exists c, rd ((p ++ t) ++ extra) len = Ret c /\ cq_must_quote qpf c = true) as Hend.
    { intros -> Hneg. destruct Ht as [->|(c & t' & -> & Hc)].
      - destruct Hname as [(_ & _ & rest & ->)|[Hm _]]; [|specialize (Hneg eq_refl); pose proof (zlen_nonneg (p ++ [])); lia].
        exists 0. split; [by rewrite (rd_at p 0 rest) by (done || same_list)|]. apply must_quote_special; [done|left].
      - exists c. split; [by rewrite (rd_at p c (t' ++ extra)) by (done || same_list)|done]. }
    unfold next_quote_step. destruct (Z.ltb_spec maxlen 0) as [Hm|Hm].
    + destruct (Z.eq_dec len (zlen p)) as [->|Hne].
      * destruct (Hend eq_refl ltac:(done)) as (c & -> & Hc). run. rewrite Hc. eexists. split; [done|]. done.
      * destruct Hin as (c & -> & Hc); [lia|]. run. rewrite Hc. eexists. split; [done|]. cbn. lia.
    + destruct Hname as [(? & _)|[Hmax _]]; [lia|]. rewrite zlen_app in Hmax. pose proof (zlen_nonneg t).
      destruct (Z.ltb_spec len maxlen) as [Hlt|Hge]; cbn [negb].
      * destruct (Z.eq_dec len (zlen p)) as [->|Hne].
        -- destruct (Hend eq_refl) as (c & -> & Hc); [intros ->; rewrite zlen_nil in Hmax; lia|]. run. rewrite Hc. eexists. split; [done|]. done.
        -- destruct Hin as (c & -> & Hc); [lia|]. run. rewrite Hc. eexists. split; [done|]. cbn. lia.
      * eexists. split; [done|]. cbn. lia.
  - pose proof (zlen_nonneg p). lia.
  - unfold zlen. rewrite !length_app. lia.
Qed.

(** ** Output *)

Definition out_rep (out : cq_out) (l f : option (list Z)) (text : list Z) : Prop :=
  match cq_sb out, l with Some sb, Some l => sb_rep sb (l ++ text) | None, None => True | _, _ => False end /\
  cq_fp out = (fun f => f ++ text) <$> f /\ cq_count out = zlen text.

Definition room (l : option (list Z)) (n : Z) : Prop := match l with Some l => zlen l + n + 1 < 2 ^ 64 | None => True end.

Lemma room_le l n m : room l n -> m <= n -> room l m.
Proof. unfold room. destruct l; [lia|done]. Qed.

Lemma EMIT_spec out l f text c :
  out_rep out l f text -> is_byte c -> room l (zlen text + 1) ->
  exists out', EMIT out c = Ret out' /\ out_rep out' l f (text ++ [c]).
Proof.
  intros (Hs & Hf & Hc) Hb Hroom. unfold EMIT. rewrite u8_small by done.
  assert (exists sb', (match cq_sb out with Some sb => sb ← strbuf_addch sb c; Ret (Some sb) | None => Ret None end) = Ret sb' /\
    match sb', l with Some sb, Some l => sb_rep sb (l ++ text ++ [c]) | None, None => True | _, _ => False end) as (sb' & -> & Hs').
  { destruct (cq_sb out) as [sb|], l as [l|]; try done; [|by exists None]. cbn [room] in Hroom.
    destruct (addch_byte sb (l ++ text) c Hs Hb) as (sb' & -> & Hr); [rewrite zlen_app; lia|]. exists (Some sb'). by rewrite (assoc app). }
  run. eexists. split; [done|]. split; [done|]. cbn [cq_fp cq_count]. rewrite Hf, Hc, zlen_app. split; [|done].
  destruct f; cbn; [by rewrite <-(assoc app)|done].
Qed.

Lemma EMITBUF_spec out l f text xs extra :
  out_rep out l f text -> room l (zlen text + zlen xs) ->
  exists out', EMITBUF junk out (xs ++ extra) (zlen xs) = Ret out' /\ out_rep out' l f (text ++ xs).
Proof.
  intros (Hs & Hf & Hc) Hroom. unfold EMITBUF.
  assert (exists sb', (match cq_sb out with Some sb => sb ← strbuf_add junk sb (xs ++ extra) (zlen xs); Ret (Some sb) | None => Ret None end) = Ret sb' /\
    match sb', l with Some sb, Some l => sb_rep sb (l ++ text ++ xs) | None, None => True | _, _ => False end) as (sb' & -> & Hs').
  { destruct (cq_sb out) as [sb|], l as [l|]; try done; [|by exists None]. cbn [room] in Hroom.
    destruct (strbuf_add_spec junk sb (l ++ text) xs extra Hs) as (sb' & -> & Hr); [rewrite zlen_app; lia|]. exists (Some sb'). by rewrite (assoc app). }
  run. destruct (at_pos_app _ _ _ _ (at_pos_0 (xs ++ extra))) as [Hrd _].
  assert ((match cq_fp out with Some fp => ys ← rd_range (xs ++ extra) 0 (zlen xs); Ret (Some (fp ++ ys)) | None => Ret None end) =
    Ret ((fun f => f ++ text ++ xs) <$> f)) as ->.
  { rewrite Hf. destruct f; cbn [fmap option_fmap option_map]; [|done]. rewrite Hrd. run. by rewrite <-(assoc app). }
  run. eexists. split; [done|]. split; [done|]. cbn [cq_fp cq_count]. rewrite Hc, zlen_app. done.
Qed.

(** Several characters in a row. *)
Lemma escape_spec out l f text c :
  out_rep out l f text -> is_byte c -> cq_must_quote qpf c = true -> room l (zlen text + 4) ->
  exists out1 out', EMIT out 92 = Ret out1 /\
    (if cq c >=? 32 then EMIT out1 (cq c)
     else
       out ← EMIT out1 (Z.land (Z.shiftr c 6) 3 + 48);
       out ← EMIT out (Z.land (Z.shiftr c 3) 7 + 48);
       EMIT out (Z.land (Z.shiftr c 0) 7 + 48)) = Ret out' /\ out_rep out' l f (text ++ cq_char qpf c).
Proof.
  intros Ho Hc Hm Hroom. pose proof (escape_ok_all c Hc) as Hok. unfold escape_ok in Hok. unfold cq_char. rewrite Hm.
  destruct (EMIT_spec out l f text 92 Ho) as (o1 & H1' & Ho1); [unfold is_byte; lia|by eapply room_le; [exact Hroom|lia]|].
  exists o1. destruct (Z.geb_spec (cq c) 32) as [Hge|Hlt].
  - zb. destruct (EMIT_spec o1 l f _ (cq c) Ho1) as (o2 & H2' & Ho2); [unfold is_byte; lia|
      eapply room_le; [exact Hroom|rewrite zlen_app; change (zlen [92]) with 1; lia]|].
    exists o2. split; [done|]. split; [done|]. by rewrite <-(assoc app) in Ho2.
  - repeat (apply andb_true_iff in Hok as [Hok ?]). zb. repeat match goal with H : Z.land _ _ = _ |- _ => rewrite H; clear H end.
    unfold is_byte in Hc. assert (0 <= c / 64 < 4 /\ 0 <= c / 8 mod 8 < 8 /\ 0 <= c mod 8 < 8) as (Q1 & Q2 & Q3)
      by (Z.to_euclidean_division_equations; lia).
    destruct (EMIT_spec o1 l f _ (c / 64 + 48) Ho1) as (o2 & -> & Ho2); [unfold is_byte; lia|
      eapply room_le; [exact Hroom|rewrite zlen_app; change (zlen [92]) with 1; lia]|]. run.
    destruct (EMIT_spec o2 l f _ (c / 8 mod 8 + 48) Ho2) as (o3 & -> & Ho3); [unfold is_byte; lia|
      eapply room_le; [exact Hroom|rewrite !zlen_app; change (zlen [92]) with 1; change (zlen [c / 64 + 48]) with 1; lia]|]. run.
    destruct (EMIT_spec o3 l f _ (c mod 8 + 48) Ho3) as (o4 & -> & Ho4); [unfold is_byte; lia|
      eapply room_le; [exact Hroom|rewrite !zlen_app; change (zlen [92]) with 1; change (zlen [c / 64 + 48]) with 1;
        change (zlen [c / 8 mod 8 + 48]) with 1; lia]|].
    exists o4. split; [done|]. split; [done|]. by rewrite <-!(assoc app) in Ho4.
Qed.
(** ** The loop *)

(** What is written once the bytes [dn] are dealt with. *)
Definition written (no_dq : bool) (dn : list Z) : list Z :=
  match dn with [] => [] | _ => (if no_dq then [] else [34]) ++ cq_body qpf dn end.

Lemma written_app no_dq dn p c :
  Forall (fun c => cq_must_quote qpf c = false) p ->
  written no_dq (dn ++ p ++ [c]) = (((if no_dq then [] else [34]) ++ cq_body qpf dn) ++ p) ++ cq_char qpf c.
Proof.
  intros Hp. unfold written. destruct (dn ++ p ++ [c]) as [|x k] eqn:E; [destruct dn; [destruct p|]; done|]. rewrite <-E.
  rewrite !cq_body_app, (cq_body_plain qpf p Hp). unfold cq_body at 2. cbn [fmap list_fmap concat]. rewrite app_nil_r. same_list.
Qed.

(** The opening quote, before the first text. *)
Lemma open_quote out l f no_dq dn :
  out_rep out l f (written no_dq dn) -> room l 1 ->
  exists out', (if negb no_dq && (zlen dn =? 0) then EMIT out 34 else Ret out) = Ret out' /\
    out_rep out' l f ((if no_dq then [] else [34]) ++ cq_body qpf dn).
Proof.
  intros Hout Hroom. destruct dn as [|x dn].
  - change (zlen [] =? 0) with true. rewrite andb_true_r. destruct no_dq; cbn [negb]; [by exists out|].
    apply (EMIT_spec out l f [] 34 Hout); [unfold is_byte; lia|done].
  - rewrite (proj2 (Z.eqb_neq _ 0)) by (rewrite zlen_cons; pose proof (zlen_nonneg dn); lia).
    rewrite andb_false_r. by exists out.
Qed.

Lemma quote_c_stop dn p extra maxlen no_dq out :
  Forall (fun c => cq_must_quote qpf c = false) p -> name_ok p extra maxlen ->
  quote_c_step junk qpf (dn ++ p ++ extra) no_dq (zlen dn, maxlen, out) = Ret (inr (zlen dn, zlen p, out)).
Proof.
  intros Hp Hname. unfold quote_c_step. rewrite (proj2 (take_drop_zlen dn (p ++ extra))).
  pose proof (next_quote_pos_spec p [] extra maxlen Hp (or_introl eq_refl)) as Hn. rewrite app_nil_r in Hn. rewrite Hn by done. run.
  pose proof (zlen_nonneg p). destruct Hname as [(Hm & _ & rest & ->)|[Hm _]].
  - rewrite (proj2 (Z.eqb_neq (zlen p) maxlen)), (proj2 (Z.ltb_lt maxlen 0)) by lia.
    rewrite (rd_at p 0 rest) by done. run. done.
  - rewrite Hm, Z.eqb_refl. run. done.
Qed.

Lemma quote_c_next dn p c t extra maxlen no_dq out l f :
  Forall (fun c => cq_must_quote qpf c = false) p -> cq_must_quote qpf c = true -> name_ok (p ++ c :: t) extra maxlen ->
  out_rep out l f (written no_dq dn) -> room l (4 * zlen (dn ++ p ++ [c]) + 8) ->
  exists maxlen' out', quote_c_step junk qpf (dn ++ (p ++ c :: t) ++ extra) no_dq (zlen dn, maxlen, out) =
      Ret (inl (zlen (dn ++ p ++ [c]), maxlen', out')) /\
    name_ok t extra maxlen' /\ out_rep out' l f (written no_dq (dn ++ p ++ [c])).
Proof.
  intros Hp Hc Hname Hout Hroom. pose proof (name_ok_bytes _ _ _ Hname) as Hb. rewrite Forall_app, Forall_cons_iff in Hb.
  destruct Hb as (_ & Hbc & Hbt). pose proof (zlen_nonneg p). pose proof (zlen_nonneg t). pose proof (zlen_nonneg dn).
  rewrite !zlen_app in Hroom. change (zlen [c]) with 1 in Hroom. pose proof (cq_body_len qpf dn).
  destruct (open_quote out l f no_dq dn Hout) as (out0 & Hout0 & Ho0); [eapply room_le; [exact Hroom|lia]|].
  rewrite (written_app no_dq dn p c Hp). set (dq := if no_dq then [] else [34] : list Z) in *.
  assert (zlen dq <= 1) as Hdq by (unfold dq; destruct no_dq; cbv; congruence).
  destruct (EMITBUF_spec out0 l f _ p (c :: t ++ extra) Ho0) as (out1 & Hout1 & Ho1); [eapply room_le; [exact Hroom|rewrite zlen_app; lia]|].
  destruct (escape_spec out1 l f _ c Ho1 Hbc Hc) as (out2 & out3 & Hout2 & Hout3 & Ho3);
    [eapply room_le; [exact Hroom|rewrite !zlen_app; lia]|].
  exists (if maxlen >=? 0 then maxlen - (zlen p + 1) else maxlen), out3. split; [|split; [|done]].
  - unfold quote_c_step. rewrite (proj2 (take_drop_zlen dn _)).
    rewrite (next_quote_pos_spec p (c :: t) extra maxlen) by (eauto || done). run.
    assert ((p ++ c :: t) ++ extra = p ++ c :: t ++ extra) as -> by same_list.
    rewrite (rd_at p c (t ++ extra) _ (zlen p)) by done. run.
    assert ((if zlen p =? maxlen then Ret true else if maxlen <? 0 then Ret (c =? 0) else Ret false) = Ret false) as ->.
    { destruct Hname as [(Hm & Hs & _)|[Hm _]].
      - rewrite (proj2 (Z.eqb_neq (zlen p) maxlen)), (proj2 (Z.ltb_lt maxlen 0)) by lia. rewrite Forall_app, Forall_cons_iff in Hs.
        by rewrite (proj2 (Z.eqb_neq c 0)) by lia.
      - rewrite zlen_app, zlen_cons in Hm. by rewrite (proj2 (Z.eqb_neq (zlen p) maxlen)), (proj2 (Z.ltb_ge maxlen 0)) by lia. }
    run. rewrite Hout0. run. rewrite Hout1. run. rewrite Hout2. run. rewrite Hout3. run.
    rewrite !zlen_app. change (zlen [c]) with 1. do 4 f_equal. lia.
  - destruct Hname as [(Hm & Hs & Hex)|[Hm Hs]].
    + left. rewrite Forall_app, Forall_cons_iff in Hs. replace (maxlen >=? 0) with false by (symmetry; rewrite Z.geb_leb; apply Z.leb_gt; lia).
      split; [done|]. split; [apply Hs|done].
    + right. split; [|done]. rewrite zlen_app, zlen_cons in Hm. rewrite (proj2 (Z.geb_le _ _)) by lia. lia.
Qed.

Lemma quote_c_loop extra no_dq l f : forall fuel s dn maxlen out,
  (length s < fuel)%nat -> name_ok s extra maxlen -> out_rep out l f (written no_dq dn) ->
  (dn <> [] -> cq_needed qpf dn = true) -> room l (4 * zlen (dn ++ s) + 8) ->
  exists dn' p out', loop fuel (quote_c_step junk qpf (dn ++ s ++ extra) no_dq) (zlen dn, maxlen, out) = Ret (zlen dn', zlen p, out') /\
    dn ++ s = dn' ++ p /\ Forall (fun c => cq_must_quote qpf c = false) p /\ out_rep out' l f (written no_dq dn') /\
    (dn' <> [] -> cq_needed qpf dn' = true).
Proof.
  intros fuel. induction fuel as [|fuel IH]; intros s dn maxlen out Hf Hname Hout Hneed Hroom; [lia|].
  destruct (plain_run qpf s) as (p & t & -> & Hp & Ht). destruct Ht as [->|(c & t' & -> & Hc)].
  - rewrite app_nil_r in *. exists dn, p, out. split; [|done]. apply loop_stop. by apply quote_c_stop.
  - assert (dn ++ p ++ c :: t' = (dn ++ p ++ [c]) ++ t') as Hsplit by same_list.
    destruct (quote_c_next dn p c t' extra maxlen no_dq out l f Hp Hc Hname Hout) as (maxlen' & out' & Hstep & Hname' & Hout').
    { eapply room_le; [exact Hroom|]. rewrite Hsplit, (zlen_app _ t'). pose proof (zlen_nonneg t'). lia. }
    rewrite (loop_next _ _ _ _ Hstep).
    assert (dn ++ (p ++ c :: t') ++ extra = (dn ++ p ++ [c]) ++ t' ++ extra) as -> by same_list.
    rewrite Hsplit. apply (IH t' (dn ++ p ++ [c]) maxlen' out'); [rewrite length_app in Hf; cbn [length] in Hf; lia|done|done| |by rewrite <-Hsplit].
    intros _. rewrite !cq_needed_app. unfold cq_needed at 3. cbn [existsb]. rewrite Hc. by rewrite !orb_true_r.
Qed.

(** ** The result *)

Lemma quote_c_style_counted_spec s extra maxlen sb fp flags l :
  name_ok s extra maxlen -> match sb, l with Some sb, Some l => sb_rep sb l | None, None => True | _, _ => False end ->
  room l (4 * zlen s + 8) ->
  let no_dq := tru (Z.land flags CQUOTE_NODQ) in
  let text := cq_text qpf no_dq s in
  exists sb', quote_c_style_counted junk qpf (s ++ extra) maxlen sb fp flags =
      Ret (sb', (fun f => f ++ text) <$> fp, if cq_needed qpf s then zlen text else 0) /\
    match sb', l with Some sb, Some l => sb_rep sb (l ++ text) | None, None => True | _, _ => False end.
Proof.
  intros Hname Hbuf Hroom. cbv zeta. set (no_dq := tru (Z.land flags CQUOTE_NODQ)). unfold quote_c_style_counted. fold no_dq.
  destruct (quote_c_loop extra no_dq l fp (S (length (s ++ extra))) s [] maxlen (CqOut sb fp 0)) as (dn & p & out & Hl & Hs & Hp & Hout & Hneed).
  { rewrite length_app. lia. } { done. }
  { split; [|split; [|done]]; cbn [cq_sb cq_fp written]; [destruct sb, l; try done; by rewrite app_nil_r|destruct fp; cbn; by rewrite ?app_nil_r]. }
  { done. } { done. }
  cbn [app] in Hl, Hs. change (zlen (@nil Z)) with 0 in Hl. rewrite Hl. run.
  assert (drop (Z.to_nat (zlen dn)) (s ++ extra) = p ++ extra) as -> by (rewrite Hs, <-(assoc app); apply take_drop_zlen).
  pose proof (zlen_nonneg p). pose proof (zlen_nonneg dn). rewrite Hs in *. rewrite zlen_app in Hroom. pose proof (cq_body_len qpf dn).
  assert (zlen (written no_dq dn) <= 1 + 4 * zlen dn) as Hw.
  { unfold written. destruct dn; [rewrite zlen_nil; lia|]. rewrite zlen_app. destruct no_dq; [rewrite zlen_nil|change (zlen [34]) with 1]; lia. }
  destruct (EMITBUF_spec out l fp _ p extra Hout) as (out2 & -> & Ho2); [eapply room_le; [exact Hroom|lia]|]. run.
  assert (cq_needed qpf (dn ++ p) = negb (zlen dn =? 0)) as Hn.
  { rewrite cq_needed_app, (cq_needed_plain qpf p Hp), orb_false_r. destruct dn as [|x dn]; [done|].
    rewrite Hneed by done. rewrite zlen_cons. rewrite (proj2 (Z.eqb_neq _ 0)); [done|]. pose proof (zlen_nonneg dn). lia. }
  unfold cq_text. rewrite Hn. destruct (Z.eqb_spec (zlen dn) 0) as [Hz|Hz]; cbn [negb].
  { assert (dn = []) as -> by (apply length_zero_iff_nil; unfold zlen in Hz; lia). destruct Ho2 as (Q1 & Q2 & Q3). cbn [written app] in *.
    eexists. split; [by rewrite Q2|exact Q1]. }
  assert (written no_dq dn ++ p = (if no_dq then [] else [34]) ++ cq_body qpf (dn ++ p)) as Hwp.
  { unfold written. destruct dn; [done|]. rewrite cq_body_app, (cq_body_plain qpf p Hp). same_list. }
  rewrite Hwp in Ho2. destruct no_dq; cbn [app] in Ho2.
  - run. destruct Ho2 as (Q1 & Q2 & Q3). eexists. split; [by rewrite Q2, Q3|exact Q1].
  - assert (zlen (cq_body qpf (dn ++ p)) <= 4 * (zlen dn + zlen p)) by (rewrite <-zlen_app; apply cq_body_len).
    destruct (EMIT_spec out2 l fp _ 34 Ho2) as (out3 & -> & Q1 & Q2 & Q3); [unfold is_byte; lia|
      eapply room_le; [exact Hroom|rewrite zlen_cons; lia]|].
    run. eexists. split; [by rewrite Q2, Q3|exact Q1].
Qed.
End quoting.

(** * Unquoting *)

Section unquoting.
Context `{GitCompatOk} `{Hsb : StrbufHeaderOk}.
Context (junk qpf : Z) (Hqpf : 0 <= qpf).

Lemma unquote_char sb l p c rest :
  Forall (fun c => cq_must_quote qpf c = false) p -> cq_must_quote qpf c = true -> is_byte c ->
  sb_rep sb l -> zlen l + zlen p + 2 < 2 ^ 64 ->
  exists sb', unquote_step junk (sb, p ++ cq_char qpf c ++ rest) = Ret (inl (sb', rest)) /\ sb_rep sb' (l ++ p ++ [c]).
Proof.
  intros Hp Hc Hb Hr Hsmall. pose proof (escape_ok_all c Hb) as Hok. unfold escape_ok in Hok. pose proof (zlen_nonneg p).
  assert (Forall (fun c => c ∉ [34; 92]) p) as Hp2.
  { eapply Forall_impl; [exact Hp|]. intros x Hx Hin. cbv beta in Hx. rewrite must_quote_special in Hx; [done|done|]. right. exact Hin. }
  assert (exists e, cq_char qpf c = 92 :: e /\
    (match escape_char (deref (e ++ rest)) with
     | Some ch => Some (ch, tail (e ++ rest))
     | None => if (48 <=? deref (e ++ rest)) && (deref (e ++ rest) <=? 51) then octal_char (deref (e ++ rest)) (tail (e ++ rest)) else None
     end) = Some (c, rest)) as (e & He & Hr').
  { unfold cq_char. rewrite Hc. destruct (cq c >=? 32).
    - exists [cq c]. split; [done|]. cbn [app deref tail]. apply andb_true_iff in Hok as [Hok _]. apply bool_decide_eq_true in Hok. by rewrite Hok.
    - eexists. split; [done|]. cbn [app deref tail]. repeat (apply andb_true_iff in Hok as [Hok ?]).
      repeat match goal with Q : bool_decide _ = true |- _ => apply bool_decide_eq_true in Q end.
      match goal with Q : escape_char _ = None |- _ => rewrite Q end.
      repeat match goal with Q : (_ <=? _) = true |- _ => rewrite Q; clear Q end. cbn [andb]. by apply octal_char_app. }
  rewrite He. cbn [app]. destruct (strbuf_add_spec junk sb l p (92 :: e ++ rest) Hr) as (sb1 & Hadd & Hr1); [lia|].
  destruct (strbuf_addch_spec sb1 _ c Hr1) as (sb2 & Hch & Hr2); [rewrite zlen_app; lia|]. rewrite u8_small in Hr2 by done.
  exists sb2. split; [|by rewrite <-(assoc app) in Hr2].
  unfold unquote_step. rewrite strcspn_app by (done || (right; left)). rewrite Hadd. run. rewrite (proj2 (take_drop_zlen p _)).
  cbn [deref tail]. change (92 =? 34) with false. change (negb (92 =? 92)) with false. cbv iota. rewrite Hr'. by rewrite Hch.
Qed.

Lemma unquote_loop rest : forall fuel s sb l,
  (length s < fuel)%nat -> is_bytes s -> sb_rep sb l -> zlen l + zlen s + 2 < 2 ^ 64 ->
  exists sb', loop fuel (unquote_step junk) (sb, cq_body qpf s ++ 34 :: rest) = Ret (sb', Some rest) /\ sb_rep sb' (l ++ s).
Proof.
  intros fuel. induction fuel as [|fuel IH]; intros s sb l Hf Hs Hr Hsmall; [lia|].
  destruct (plain_run qpf s) as (p & t & -> & Hp & Ht). rewrite zlen_app in Hsmall. pose proof (zlen_nonneg p).
  rewrite cq_body_app, (cq_body_plain qpf p Hp), <-(app_assoc p). destruct Ht as [->|(c & t' & -> & Hc)].
  - rewrite app_nil_r. change (cq_body qpf [] ++ 34 :: rest) with (34 :: rest). rewrite zlen_nil in Hsmall.
    assert (Forall (fun c => c ∉ [34; 92]) p) as Hp2.
    { eapply Forall_impl; [exact Hp|]. intros x Hx Hin. cbv beta in Hx. rewrite must_quote_special in Hx; [done|done|]. right. exact Hin. }
    destruct (strbuf_add_spec junk sb l p (34 :: rest) Hr) as (sb1 & Hadd & Hr1); [lia|]. exists sb1. split; [|done].
    apply loop_stop. unfold unquote_step. rewrite strcspn_app by (done || left). rewrite Hadd. run.
    by rewrite (proj2 (take_drop_zlen p _)).
  - rewrite Forall_app, Forall_cons_iff in Hs. destruct Hs as (_ & Hbc & Hs). rewrite zlen_cons in Hsmall. pose proof (zlen_nonneg t').
    destruct (unquote_char sb l p c (cq_body qpf t' ++ 34 :: rest) Hp Hc Hbc Hr) as (sb1 & Hstep & Hr1); [lia|].
    assert (cq_body qpf (c :: t') ++ 34 :: rest = cq_char qpf c ++ cq_body qpf t' ++ 34 :: rest) as ->.
    { unfold cq_body. cbn [fmap list_fmap concat]. same_list. }
    rewrite (loop_next _ _ _ _ Hstep).
    destruct (IH t' sb1 (l ++ p ++ [c])) as (sb' & Hl & Hr'); [rewrite length_app in Hf; cbn [length] in Hf; lia|done|done|
      rewrite !zlen_app; change (zlen [c]) with 1; lia|].
    exists sb'. split; [done|]. assert (l ++ p ++ c :: t' = (l ++ p ++ [c]) ++ t') as -> by same_list. done.
Qed.

(** On any text a round goes on with less of it or ends. *)
Lemma unquote_step_total sb k q :
  sb_rep sb k -> zlen k + zlen q + 2 < 2 ^ 64 ->
  exists r, unquote_step junk (sb, q) = Ret r /\
    match r with
    | inl (sb', q') => (length q' < length q)%nat /\ exists k', sb_rep sb' (k ++ k') /\ zlen k' + zlen q' <= zlen q
    | inr (sb', _) => exists k', sb_rep sb' (k ++ k')
    end.
Proof.
  intros Hr Hsmall. destruct (strcspn_split q [34; 92]) as (p & t & -> & Hz & _ & _). rewrite zlen_app in Hsmall.
  pose proof (zlen_nonneg p). pose proof (zlen_nonneg t).
  destruct (strbuf_add_spec junk sb k p t Hr) as (sb1 & Hadd & Hr1); [lia|].
  unfold unquote_step. rewrite <-Hz, Hadd. run. rewrite (proj2 (take_drop_zlen p t)).
  destruct (deref t =? 34); [eexists; split; [done|]; cbn; eauto|].
  destruct (Z.eqb_spec (deref t) 92) as [H92|]; cbn [negb]; [|eexists; split; [done|]; cbn; eauto].
  destruct t as [|c t]; [done|]. cbn [deref tail] in *. subst c. rewrite zlen_cons in *.
  set (r := match escape_char (deref t) with Some ch => Some (ch, tail t) | None => _ end).
  assert (match r with Some (_, q') => zlen q' + 1 <= zlen t | None => True end) as Hq'.
  { unfold r. destruct t as [|ch t]; [done|]. cbn [deref tail]. rewrite zlen_cons. destruct (escape_char ch) as [?|]; [lia|].
    destruct ((48 <=? ch) && (ch <=? 51)); [|done]. unfold octal_char.
    destruct ((deref t <? 48) || (55 <? deref t)); [done|]. destruct ((deref (tail t) <? 48) || (55 <? deref (tail t))); [done|].
    destruct t as [|? [|? t]]; cbn [tail]; repeat rewrite zlen_cons; rewrite ?zlen_nil; lia. }
  clearbody r. destruct r as [[ch q']|]; [|eexists; split; [done|]; cbn; eauto].
  pose proof (zlen_nonneg q'). destruct (strbuf_addch_spec sb1 _ ch Hr1) as (sb2 & -> & Hr2); [rewrite zlen_app; lia|]. run. eexists. split; [done|].
  split; [unfold zlen in *; rewrite length_app; cbn [length]; lia|]. exists (p ++ [u8 ch]).
  rewrite (assoc app). split; [done|]. rewrite !zlen_app. change (zlen [u8 ch]) with 1. rewrite zlen_cons. lia.
Qed.

Lemma unquote_loop_total : forall fuel q sb k,
  (length q < fuel)%nat -> sb_rep sb k -> zlen k + zlen q + 2 < 2 ^ 64 ->
  exists sb' e k', loop fuel (unquote_step junk) (sb, q) = Ret (sb', e) /\ sb_rep sb' (k ++ k').
Proof.
  intros fuel. induction fuel as [|fuel IH]; intros q sb k Hf Hr Hsmall; [lia|].
  destruct (unquote_step_total sb k q Hr Hsmall) as ([[sb1 q1]|[sb1 e]] & Hstep & Hpost).
  - destruct Hpost as (Hlt & k1 & Hr1 & Hle). rewrite (loop_next _ _ _ _ Hstep).
    destruct (IH q1 sb1 (k ++ k1)) as (sb' & e & k' & Hl & Hr'); [lia|done|rewrite zlen_app; lia|].
    exists sb', e, (k1 ++ k'). by rewrite (assoc app).
  - destruct Hpost as (k1 & Hr1). exists sb1, e, k1. split; [by apply loop_stop|done].
Qed.

Lemma unquote_c_style_total sb l q :
  sb_rep sb l -> zlen l + zlen q + 2 < 2 ^ 64 ->
  exists sb' ret endp, unquote_c_style junk sb q = Ret (sb', ret, endp) /\
    (ret = 0 /\ (exists k, sb_rep sb' (l ++ k)) \/ ret = -1 /\ endp = None /\ sb_rep sb' l).
Proof.
  intros Hr Hsmall. unfold unquote_c_style. destruct (deref q =? 34); cbn [negb]; [|eauto 10].
  destruct (unquote_loop_total (S (length q)) (tail q) sb l) as (sb1 & e & k & -> & Hr1);
    [destruct q; cbn [tail length]; lia|done|destruct q; cbn [tail]; rewrite ?zlen_cons, ?zlen_nil in *; lia|].
  run. destruct e as [endp|]; [eexists _, _, _; split; [done|]; left; eauto|].
  rewrite (sb_rep_len _ _ Hr). destruct (setlen_prefix sb1 l k Hr1) as (sb2 & -> & Hr2). run. eauto 10.
Qed.
End unquoting.

(** ** An implementation of quote.h *)

Definition quote_ref : QuoteHeader := {| CQUOTE_NODQ := 1 |}.

(** * Claims *)

(** [C21] Path names survive C-style quoting, with [quote_path_fully] or without: for a
    string, or bytes with their number, [quote_c_style_counted] writes the name
    as it is and returns 0 when no byte needs a quote, and otherwise writes and
    returns the length of the quoted text -- to a buffer, a stream, both or
    neither; and [unquote_c_style] of a quoted text, whatever follows it,
    appends exactly the name and points behind the closing quote. *)
Theorem c_style_roundtrip `{GitCompatOk} `{StrbufHeaderOk} `{QuoteHeader} (junk qpf maxlen flags : Z) (s extra rest : list Z)
    (sb : strbuf) (l fp : list Z) (out : strbuf) (o : list Z) :
  0 <= qpf -> name_ok s extra maxlen -> sb_rep sb l -> sb_rep out o ->
  zlen l + 4 * zlen s + 9 < 2 ^ 64 -> zlen o + zlen s + 2 < 2 ^ 64 ->
  let text := cq_text qpf (tru (Z.land flags CQUOTE_NODQ)) s in
  let ret := if cq_needed qpf s then zlen text else 0 in
  (exists sb', quote_c_style_counted junk qpf (s ++ extra) maxlen (Some sb) (Some fp) flags = Ret (Some sb', Some (fp ++ text), ret) /\
     sb_rep sb' (l ++ text)) /\
  quote_c_style_counted junk qpf (s ++ extra) maxlen None None flags = Ret (None, None, ret) /\
  (exists out', unquote_c_style junk out (34 :: cq_body qpf s ++ 34 :: rest) = Ret (out', 0, Some rest) /\ sb_rep out' (o ++ s)).
Proof.
  intros Hq Hname Hr Hro Hsmall Hsmall2. cbv zeta. split; [|split].
  - destruct (quote_c_style_counted_spec junk qpf Hq s extra maxlen (Some sb) (Some fp) flags (Some l) Hname Hr) as (sb' & -> & Hr');
      [cbn [room]; lia|]. destruct sb' as [sb'|]; [|done]. by exists sb'.
  - destruct (quote_c_style_counted_spec junk qpf Hq s extra maxlen None None flags None Hname I I) as (sb' & -> & Hr').
    by destruct sb'.
  - unfold unquote_c_style. cbn [deref tail negb]. change (negb (34 =? 34)) with false. cbv iota.
    destruct (unquote_loop junk qpf Hq rest (S (length (34 :: cq_body qpf s ++ 34 :: rest))) s out o) as (out' & -> & Hr');
      [|by eapply name_ok_bytes|done|done|run; eauto].
    cbn [length]. rewrite length_app. assert (forall s, length s <= length (cq_body qpf s))%nat as Hle; [|specialize (Hle s); lia].
    clear. intros s. induction s as [|c s IH]; [done|]. unfold cq_body in *. cbn [fmap list_fmap concat]. rewrite length_app.
    pose proof (cq_char_len qpf c) as Hc. unfold zlen in Hc. cbn [length]. lia.
Qed.

Lemma c_style_roundtrip_witness :
  let s := [97; 34; 10; 200; 0] in
  let text := cq_text 1 (tru (Z.land 0 (@CQUOTE_NODQ quote_ref))) s in
  let ret := if cq_needed 1 s then zlen text else 0 in
  text = [34; 97; 92; 34; 92; 110; 92; 51; 49; 48; 92; 48; 48; 48; 34] /\
  (exists sb', @quote_c_style_counted compat_ref strbuf_ref quote_ref 0 1 (s ++ [7]) 5 (Some STRBUF_INIT) (Some [65]) 0 =
     Ret (Some sb', Some ([65] ++ text), ret) /\ sb_rep sb' ([] ++ text)) /\
  @quote_c_style_counted compat_ref strbuf_ref quote_ref 0 1 (s ++ [7]) 5 None None 0 = Ret (None, None, ret) /\
  (exists out', @unquote_c_style compat_ref strbuf_ref 0 STRBUF_INIT (34 :: cq_body 1 s ++ 34 :: [58]) = Ret (out', 0, Some [58]) /\ sb_rep out' ([] ++ s)).
Proof.
  cbv zeta. split; [vm_compute; reflexivity|].
  apply (@c_style_roundtrip compat_ref compat_ref_ok strbuf_ref strbuf_ref_ok quote_ref 0 1 5 0 [97; 34; 10; 200; 0] [7] [58]
    STRBUF_INIT [] [65] STRBUF_INIT []); [lia|right; split; [done|evaluate]|apply sb_rep_init|apply sb_rep_init|evaluate..].
Defined.

(** [C22] [unquote_c_style] is safe on every text: it ends inside the string, and when
    it returns -1 -- no opening quote, an unknown escape, a code that is not
    octal or above 255, no closing quote -- the buffer holds the bytes it held
    before; when it returns 0 they are followed by what was read. *)
Theorem unquote_c_style_safe `{GitCompatOk} `{StrbufHeaderOk} (junk : Z) (sb : strbuf) (l quoted : list Z) :
  sb_rep sb l -> zlen l + zlen quoted + 2 < 2 ^ 64 ->
  exists sb' ret endp, unquote_c_style junk sb quoted = Ret (sb', ret, endp) /\
    (ret = 0 /\ (exists k, sb_rep sb' (l ++ k)) \/ ret = -1 /\ endp = None /\ sb_rep sb' l).
Proof. apply unquote_c_style_total. Qed.

Lemma unquote_c_style_safe_witness :
  let quoted := [34; 97; 92; 52; 48; 48; 34] in      (* a code of 256 *)
  let sb := Strbuf 5 1 [88; 0; 0; 0; 0] in
  exists sb' ret endp, @unquote_c_style compat_ref strbuf_ref 0 sb quoted = Ret (sb', ret, endp) /\
    (ret = 0 /\ (exists k, sb_rep sb' ([88] ++ k)) \/ ret = -1 /\ endp = None /\ sb_rep sb' [88]).
Proof.
  cbv zeta.
  apply (@unquote_c_style_safe compat_ref compat_ref_ok strbuf_ref strbuf_ref_ok 0 (Strbuf 5 1 [88; 0; 0; 0; 0]) [88]
    [34; 97; 92; 52; 48; 48; 34]); [|evaluate].
  split; [done|]. split; [by exists [0; 0; 0]|by right].
Defined.
