(* ===== verification/StringList.v ===== *)
(** string-list.c: lists of strings with a pointer each, kept sorted for binary
    search or used as they come, and splitting a string into such a list. *)
From stdpp Require Import gmap sorting.
From Stdlib Require Import Sorted.
From S2P Require Import Prelude Headers StableSort.

(** * The structures *)

(** [struct string_list_item]; [util] is a pointer, 0 for NULL. *)
Record item := Item { it_string : list Z; it_util : Z }.

(** [struct string_list]: [items] has room for [alloc] of them.  Strings are
    values here: who owns their memory, and freeing it, is not modelled. *)
Record string_list := StringList { sl_items : list item; sl_nr : Z; sl_alloc : Z; strdup_strings : bool }.

(** * Model *)

Section model.
Context `{GitCompat} `{Qsort}.
Context (junk : item) (cmp : list Z -> list Z -> Z).    (* [list->cmp ? list->cmp : strcmp] *)

Definition string_list_init_nodup : string_list := StringList [] 0 0 false.
Definition string_list_init_dup : string_list := StringList [] 0 0 true.

Definition set_items (l : string_list) (items : list item) (nr : Z) : string_list :=
  StringList items nr (sl_alloc l) (strdup_strings l).

(** One round of the binary search, on [left] and [right]. *)
Definition entry_step (l : string_list) (string : list Z) (st : Z * Z) : outcome ((Z * Z) + (Z * bool)) :=
  let '(lft, rgt) := st in
  if negb (lft + 1 <? rgt) then Ret (inr (rgt, false)) else
  let middle := lft + (rgt - lft) / 2 in
  it ← rd (sl_items l) middle;
  let compare := cmp string (it_string it) in
  if compare <? 0 then Ret (inl (lft, middle))
  else if compare >? 0 then Ret (inl (middle, rgt))
  else Ret (inr (middle, true)).

(** The index and [exact_match]. *)
Definition get_entry_index (l : string_list) (string : list Z) : outcome (Z * bool) :=
  loop (S (S (Z.to_nat (sl_nr l)))) (entry_step l string) (-1, sl_nr l).

(** [ALLOC_GROW(list->items, list->nr + 1, list->alloc)] *)
Definition grow_items (l : string_list) : string_list :=
  let alloc := alloc_grow (sl_nr l + 1) (sl_alloc l) in
  StringList (realloc junk (sl_items l) alloc) (sl_nr l) alloc (strdup_strings l).

Definition add_entry (insert_at : Z) (l : string_list) (string : list Z) : outcome (string_list * Z) :=
  '(index, exact_match) ← (if negb (insert_at =? -1) then Ret (insert_at, false) else get_entry_index l string);
  if (exact_match : bool) then Ret (l, -1 - index) else
  let l := grow_items l in
  items ←
    (if index <? sl_nr l then
       xs ← rd_range (sl_items l) index (sl_nr l - index);
       wr_range (sl_items l) (index + 1) xs
     else Ret (sl_items l));
  items ← wr items index (Item string 0);
  Ret (set_items l items (sl_nr l + 1), index).

(** The list and the index of the item. *)
Definition string_list_insert (l : string_list) (string : list Z) : outcome (string_list * Z) :=
  '(l, index) ← add_entry (-1) l string;
  Ret (l, if index <? 0 then -1 - index else index).

Definition string_list_remove (l : string_list) (string : list Z) : outcome string_list :=
  '(i, exact_match) ← get_entry_index l string;
  if (exact_match : bool) then
    let nr := sl_nr l - 1 in
    xs ← rd_range (sl_items l) (i + 1) (nr - i);
    items ← wr_range (sl_items l) i xs;
    Ret (set_items l items nr)
  else Ret l.

Definition string_list_has_string (l : string_list) (string : list Z) : outcome bool :=
  '(_, exact_match) ← get_entry_index l string;
  Ret exact_match.

Definition string_list_find_insert_index (l : string_list) (string : list Z) (negative_existing_index : bool) : outcome Z :=
  '(index, exact_match) ← get_entry_index l string;
  Ret (if (exact_match : bool) then -1 - (if negative_existing_index then index else 0) else index).

(** The index of the item, or NULL. *)
Definition string_list_lookup (l : string_list) (string : list Z) : outcome (option Z) :=
  '(i, exact_match) ← get_entry_index l string;
  Ret (if (exact_match : bool) then Some i else None).

Definition remove_duplicates_step (src : Z) (st : list item * Z) : outcome (list item * Z) :=
  let '(items, dst) := st in
  a ← rd items (dst - 1);
  b ← rd items src;
  if cmp (it_string a) (it_string b) =? 0 then Ret (items, dst) else
  items ← wr items dst b;
  Ret (items, dst + 1).

Definition string_list_remove_duplicates (l : string_list) : outcome string_list :=
  if sl_nr l >? 1 then
    '(items, dst) ← for_n (Z.to_nat (sl_nr l - 1)) 1 remove_duplicates_step (sl_items l, 1);
    Ret (set_items l items dst)
  else Ret l.

(** [fn] may change the item and its own state; the state and the result. *)
Definition for_each_string_list {S} (l : string_list) (fn : item -> S -> outcome (item * S * Z)) (cb_data : S)
    : outcome (string_list * S * Z) :=
  r ← for_range (Z.to_nat (sl_nr l)) 0
    (fun i st =>
       let '(items, data) := st in
       it ← rd items i;
       '(it, data, ret) ← fn it data;
       items ← wr items i it;
       Ret (if tru ret then inr (items, data, ret) else inl (items, data))) (sl_items l, cb_data);
  match r with
  | inl (items, data) => Ret (set_items l items (sl_nr l), data, 0)
  | inr (items, data, ret) => Ret (set_items l items (sl_nr l), data, ret)
  end.

Definition filter_step (want : item -> bool) (src : Z) (st : list item * Z) : outcome (list item * Z) :=
  let '(items, dst) := st in
  it ← rd items src;
  if want it then items ← wr items dst it; Ret (items, dst + 1) else Ret (items, dst).

Definition filter_string_list (l : string_list) (want : item -> bool) : outcome string_list :=
  '(items, dst) ← for_n (Z.to_nat (sl_nr l)) 0 (filter_step want) (sl_items l, 0);
  Ret (set_items l items dst).

Definition item_is_not_empty (it : item) : bool := negb (deref (it_string it) =? 0).

Definition string_list_remove_empty_items (l : string_list) : outcome string_list := filter_string_list l item_is_not_empty.

Definition string_list_clear (l : string_list) : string_list := StringList [] 0 0 (strdup_strings l).

Definition string_list_setlen (l : string_list) (nr : Z) : outcome string_list :=
  if strdup_strings l then Err Bug else
  if nr >? sl_nr l then Err Bug else
  Ret (set_items l (sl_items l) nr).

(** The list and the index of the new item. *)
Definition string_list_append_nodup (l : string_list) (string : list Z) : outcome (string_list * Z) :=
  let l := grow_items l in
  items ← wr (sl_items l) (sl_nr l) (Item string 0);
  Ret (set_items l items (sl_nr l + 1), sl_nr l).

Definition string_list_append (l : string_list) (string : list Z) : outcome (string_list * Z) :=
  string_list_append_nodup l string.

Definition cmp_items (one two : item) : Z := cmp (it_string one) (it_string two).

Definition string_list_sort (l : string_list) : outcome string_list :=
  xs ← rd_range (sl_items l) 0 (sl_nr l);
  items ← wr_range (sl_items l) 0 (qsort cmp_items xs);
  Ret (set_items l items (sl_nr l)).

(** The index of the first item with the string. *)
Definition unsorted_string_list_lookup (l : string_list) (string : list Z) : outcome (option Z) :=
  r ← for_range (Z.to_nat (sl_nr l)) 0
    (fun i st => it ← rd (sl_items l) i; Ret (if cmp string (it_string it) =? 0 then inr i else inl st)) tt;
  Ret (match r with inl _ => None | inr i => Some i end).

Definition unsorted_string_list_has_string (l : string_list) (string : list Z) : outcome bool :=
  r ← unsorted_string_list_lookup l string;
  Ret (match r with Some _ => true | None => false end).

Definition unsorted_string_list_delete_item (l : string_list) (i : Z) : outcome string_list :=
  it ← rd (sl_items l) (sl_nr l - 1);
  items ← wr (sl_items l) i it;
  Ret (set_items l items (sl_nr l - 1)).

(** One round: the list, the pointer [p] and [count]; [delim] is not NUL. *)
Definition split_round (delim maxsplit : Z) (st : string_list * list Z * Z)
    : outcome ((string_list * list Z * Z) + (string_list * Z)) :=
  let '(l, p, count) := st in
  let count := count + 1 in
  if (maxsplit >=? 0) && (count >? maxsplit) then '(l, _) ← string_list_append l p; Ret (inr (l, count)) else
  match memchr p delim (zlen p) with
  | Some k =>
      '(l, _) ← string_list_append_nodup l (take (Z.to_nat k) p);
      Ret (inl (l, drop (Z.to_nat (k + 1)) p, count))
  | None => '(l, _) ← string_list_append l p; Ret (inr (l, count))
  end.

Definition string_list_split (l : string_list) (string : list Z) (delim maxsplit : Z) : outcome (string_list * Z) :=
  if negb (strdup_strings l) then Err Bug else
  loop (S (length string)) (split_round delim maxsplit) (l, string, 0).

(** The same on memory, with the offset [p]: NULs replace delimiters, and the
    new items are the strings that the memory then holds. *)
Definition split_in_place_round (delim : list Z) (maxsplit : Z) (st : string_list * list Z * Z * Z)
    : outcome ((string_list * list Z * Z * Z) + (string_list * list Z * Z)) :=
  let '(l, mem, p, count) := st in
  let count := count + 1 in
  let s := c_string (drop (Z.to_nat p) mem) in
  if (maxsplit >=? 0) && (count >? maxsplit) then '(l, _) ← string_list_append l s; Ret (inr (l, mem, count)) else
  let k := strcspn s delim in
  if k <? zlen s then
    mem ← wr mem (p + k) 0;
    '(l, _) ← string_list_append l (c_string (drop (Z.to_nat p) mem));
    Ret (inl (l, mem, p + k + 1, count))
  else '(l, _) ← string_list_append l s; Ret (inr (l, mem, count)).

Definition string_list_split_in_place (l : string_list) (mem delim : list Z) (maxsplit : Z) : outcome (string_list * list Z * Z) :=
  if strdup_strings l then Err Bug else
  loop (S (length mem)) (split_in_place_round delim maxsplit) (l, mem, 0, 0).
End model.

(** * Correctness *)

(** The list in memory. *)
Definition sl_rep (sl : string_list) (l : list item) : Prop :=
  filled (sl_items sl) (sl_nr sl) l /\ zlen (sl_items sl) = sl_alloc sl.

Section proofs.
Context `{GitCompatOk} (junk : item) (cmp : list Z -> list Z -> Z) `{!CmpOk cmp}.
Implicit Types (sl : string_list) (l : list item) (s : list Z) (it : item).

(** Sorted, without two items that compare equal. *)
Definition sorted l : Prop := StronglySorted (fun a b => cmp (it_string a) (it_string b) < 0) l.

Lemma sl_rep_rd sl l i it : sl_rep sl l -> l !! i = Some it -> rd (sl_items sl) (Z.of_nat i) = Ret it.
Proof.
  intros [[_ [rest ->]] _] Hi. apply rd_lookup. rewrite lookup_app_l; [done|]. by apply lookup_lt_Some in Hi.
Qed.

Lemma sl_rep_nr sl l : sl_rep sl l -> sl_nr sl = zlen l.
Proof. by intros [[<- _] _]. Qed.

Lemma sorted_lt l i j a b : sorted l -> l !! i = Some a -> l !! j = Some b -> (i < j)%nat -> cmp (it_string a) (it_string b) < 0.
Proof.
  intros Hl. revert i j. induction Hl as [|x l _ IH Hx]; intros [|i] [|j] Hi Hj Hij; try done; try lia; cbn in Hi, Hj.
  - injection Hi as ->. by apply (Forall_lookup_1 _ _ _ _ Hx Hj).
  - apply (IH i j); [done|done|lia].
Qed.

(** ** Searching *)

(** Where [s] belongs: after the items of [a], before those of [b]. *)
Definition between s (a b : list item) : Prop :=
  Forall (fun it => cmp (it_string it) s < 0) a /\ Forall (fun it => cmp s (it_string it) < 0) b.

(** The items up to [lo] are below [s], those from [hi] on above. *)
Definition searching l s (st : Z * Z) : Prop :=
  let '(lo, hi) := st in
  -1 <= lo < hi /\ hi <= zlen l /\ forall i it, l !! i = Some it ->
    (Z.of_nat i <= lo -> cmp (it_string it) s < 0) /\ (hi <= Z.of_nat i -> cmp s (it_string it) < 0).

Definition searched l s (res : Z * bool) : Prop :=
  let '(i, exact) := res in
  0 <= i <= zlen l /\
  (forall j it, l !! j = Some it -> (Z.of_nat j < i -> cmp (it_string it) s < 0) /\
     ((if exact then i < Z.of_nat j else i <= Z.of_nat j) -> cmp s (it_string it) < 0)) /\
  (exact = true -> exists it, l !! Z.to_nat i = Some it /\ cmp s (it_string it) = 0).

(** What a comparison with the item at [m] says of the items on its sides. *)
Lemma below_middle l s m j it x :
  sorted l -> l !! m = Some it -> l !! j = Some x -> (j < m)%nat -> 0 <= cmp s (it_string it) -> cmp (it_string x) s < 0.
Proof.
  intros Hl Hm Hj Hlt Hc. apply (cmp_lt_trans cmp _ (it_string it)); [by apply (sorted_lt l j m)|].
  pose proof (cmp_flip (it_string it) s). lia.
Qed.

Lemma above_middle l s m j it x :
  sorted l -> l !! m = Some it -> l !! j = Some x -> (m < j)%nat -> cmp s (it_string it) <= 0 -> cmp s (it_string x) < 0.
Proof.
  intros Hl Hm Hj Hlt Hc. pose proof (sorted_lt l m j it x Hl Hm Hj Hlt) as Hlt'.
  pose proof (cmp_lt_trans cmp (it_string it) (it_string x) s Hlt'). pose proof (cmp_flip s (it_string x)).
  pose proof (cmp_flip (it_string x) s). pose proof (cmp_flip (it_string it) s). pose proof (cmp_flip s (it_string it)).
  pose proof (cmp_trans s (it_string it) (it_string x)). lia.
Qed.

Lemma entry_step_spec sl l s st :
  sl_rep sl l -> sorted l -> searching l s st ->
  exists r, entry_step cmp sl s st = Ret r /\
    match r with
    | inl st' => searching l s st' /\ 0 <= st'.2 - st'.1 < st.2 - st.1
    | inr res => searched l s res
    end.
Proof.
  intros Hr Hl. destruct st as [lo hi]. intros (Hlo & Hhi & Hside). unfold entry_step.
  destruct (Z.ltb_spec (lo + 1) hi) as [Hlt|Hge]; cbn [negb].
  - set (m := lo + (hi - lo) / 2). assert (lo < m < hi) as Hm by (unfold m; Z.to_euclidean_division_equations; lia).
    destruct (lookup_lt_is_Some_2 l (Z.to_nat m)) as [it Hit]; [unfold zlen in *; lia|].
    pose proof (sl_rep_rd sl l _ it Hr Hit) as Hrd. rewrite Z2Nat.id in Hrd by lia. rewrite Hrd. run.
    assert (forall j x, l !! j = Some x -> Z.of_nat j = m -> x = it) as Hmid.
    { intros j x Hj Hjm. replace (Z.to_nat m) with j in Hit by lia. congruence. }
    destruct (Z.ltb_spec (cmp s (it_string it)) 0) as [Hneg|Hnn]; [|rewrite Z.gtb_ltb; destruct (Z.ltb_spec 0 (cmp s (it_string it))) as [Hpos|Hz]];
      (eexists; split; [done|]); cbn [searching searched fst snd].
    + split; [|lia]. split; [lia|]. split; [lia|]. intros j x Hj. split; [by apply (Hside j)|]. intros Hmj.
      destruct (decide (Z.of_nat j = m)) as [Hjm|Hne]; [by rewrite (Hmid j x Hj Hjm)|]. apply (above_middle l s (Z.to_nat m) j it); [done..|lia|lia].
    + split; [|lia]. split; [lia|]. split; [lia|]. intros j x Hj. split; [|by apply (Hside j)]. intros Hmj.
      destruct (decide (Z.of_nat j = m)) as [Hjm|Hne]; [rewrite (Hmid j x Hj Hjm); by apply cmp_flip|].
      apply (below_middle l s (Z.to_nat m) j it); [done..|lia|lia].
    + split; [lia|]. split; [|intros _; exists it; split; [done|lia]]. intros j x Hj.
      split; intros Hjm; [apply (below_middle l s (Z.to_nat m) j it)|apply (above_middle l s (Z.to_nat m) j it)]; (done || lia).
  - eexists. split; [done|]. cbn. split; [lia|]. split; [|done]. intros j x Hj. destruct (Hside j x Hj) as [Q1 Q2].
    split; intros ?; [apply Q1|apply Q2]; lia.
Qed.

Lemma searched_sides l s i (exact : bool) :
  searched l s (i, exact) -> between s (take (Z.to_nat i) l) (drop (if exact then S (Z.to_nat i) else Z.to_nat i) l) /\ zlen (take (Z.to_nat i) l) = i.
Proof.
  intros (Hi & Hside & _). split; [|unfold zlen in *; rewrite length_take; lia]. split; apply Forall_lookup; intros j x Hj.
  - apply lookup_take_Some in Hj as [Hj Hji]. apply (Hside j); [done|lia].
  - rewrite lookup_drop in Hj. apply (Hside _ _ Hj). destruct exact; lia.
Qed.

Lemma get_entry_index_spec sl l s :
  sl_rep sl l -> sorted l ->
  (exists a it b, l = a ++ it :: b /\ cmp s (it_string it) = 0 /\ between s a b /\ get_entry_index cmp sl s = Ret (zlen a, true)) \/
  (exists a b, l = a ++ b /\ between s a b /\ get_entry_index cmp sl s = Ret (zlen a, false)).
Proof.
  intros Hr Hl. pose proof (zlen_nonneg l). pose proof (sl_rep_nr _ _ Hr) as Hnr.
  destruct (loop_ret (searching l s) (fun st => st.2 - st.1) (S (S (Z.to_nat (sl_nr sl)))) (entry_step cmp sl s) (-1, sl_nr sl) (searched l s))
    as ([i exact] & Hrun & Hres).
  - intros st. by apply entry_step_spec.
  - cbn. rewrite Hnr. split; [lia|]. split; [lia|]. intros j x Hj. apply lookup_lt_Some in Hj. unfold zlen. split; lia.
  - cbn. lia.
  - unfold get_entry_index. rewrite Hrun. pose proof (searched_sides _ _ _ _ Hres) as [Hbt Hz]. destruct exact.
    + left. destruct Hres as (_ & _ & Hex). destruct (Hex eq_refl) as (it & Hit & Heq).
      exists (take (Z.to_nat i) l), it, (drop (S (Z.to_nat i)) l). rewrite Hz. split; [by rewrite <-(drop_S _ _ _ Hit), take_drop|done].
    + right. exists (take (Z.to_nat i) l), (drop (Z.to_nat i) l). rewrite Hz, take_drop. done.
Qed.

(** ** Inserting and removing *)

Lemma grow_items_spec sl l :
  sl_rep sl l -> sl_rep (grow_items junk sl) l /\ zlen l < zlen (sl_items (grow_items junk sl)) /\ sl_nr (grow_items junk sl) = zlen l.
Proof.
  intros [Hf Hz]. pose proof (filled_le _ _ _ Hf). pose proof (sl_rep_nr sl l (conj Hf Hz)) as Hnr.
  pose proof (alloc_grow_enough (sl_nr sl + 1) (sl_alloc sl)). unfold grow_items. cbn [sl_items sl_nr sl_alloc].
  split; [split; cbn [sl_items sl_nr sl_alloc]; [apply filled_realloc; [done|lia]|apply zlen_realloc; lia]|].
  rewrite zlen_realloc by lia. split; [lia|done].
Qed.

Lemma append_spec sl l s :
  sl_rep sl l -> exists sl', string_list_append_nodup junk sl s = Ret (sl', zlen l) /\ sl_rep sl' (l ++ [Item s 0]) /\ strdup_strings sl' = strdup_strings sl.
Proof.
  intros Hr. destruct (grow_items_spec sl l Hr) as ([Hf Hz] & Hlt & Hnr). unfold string_list_append_nodup.
  rewrite Hnr in *. destruct (filled_wr _ _ _ (Item s 0) Hf Hlt) as [-> Hf']. run. eexists. split; [done|].
  split; [|done]. split; cbn [set_items sl_items sl_nr sl_alloc]; [done|by rewrite zlen_insert].
Qed.

Lemma sorted_split a b : sorted (a ++ b) -> sorted a /\ sorted b.
Proof.
  unfold sorted. induction a as [|x a IH]; cbn [app]; intros Hs; [split; [constructor|done]|]. inversion Hs as [|? ? Hs' Hx]; subst.
  destruct (IH Hs'). apply Forall_app in Hx as [? _]. split; [by constructor|done].
Qed.

Lemma sorted_insert a b it : sorted (a ++ b) -> between (it_string it) a b -> sorted (a ++ it :: b).
Proof.
  unfold sorted, between. intros Hs [Ha Hb]. induction a as [|x a IH]; cbn [app] in *; [by constructor|].
  inversion Hs as [|? ? Hs' Hx]; subst. apply Forall_cons_iff in Ha as [Hxa Ha]. constructor; [by apply IH|].
  apply Forall_app in Hx as [Hxa' Hxb]. apply Forall_app. split; [done|]. by constructor.
Qed.

Lemma sorted_delete a it b : sorted (a ++ it :: b) -> sorted (a ++ b).
Proof.
  unfold sorted. induction a as [|x a IH]; cbn [app]; intros Hs; inversion Hs as [|? ? Hs' Hx]; subst; [done|].
  constructor; [by apply IH|]. apply Forall_app in Hx as [? Hx]. apply Forall_cons_iff in Hx as [_ ?]. by apply Forall_app.
Qed.

(** The items from an index on move up by one place. *)
Lemma open_gap (items : list item) (a b : list item) :
  filled items (zlen a + zlen b) (a ++ b) -> zlen a + zlen b < zlen items ->
  exists items', (if zlen a <? zlen a + zlen b
    then xs ← rd_range items (zlen a) (zlen a + zlen b - zlen a); wr_range items (zlen a + 1) xs
    else Ret items) = Ret items' /\ zlen items' = zlen items /\ exists x r, items' = a ++ x :: b ++ r.
Proof.
  intros [_ [rest ->]] Hlt. pose proof (zlen_nonneg b).
  assert ((a ++ b) ++ rest = a ++ b ++ rest) as Hassoc by (by rewrite <-(assoc app)).
  destruct (Z.ltb_spec (zlen a) (zlen a + zlen b)) as [Hb|Hb].
  - assert (at_pos ((a ++ b) ++ rest) (zlen a) (b ++ rest)) as Hat by (rewrite Hassoc; apply at_pos_pre).
    destruct (at_pos_app _ _ _ _ Hat) as [Hrd _]. replace (zlen a + zlen b - zlen a) with (zlen b) by lia. rewrite Hrd. run.
    assert (filled ((a ++ b) ++ rest) (zlen a) a) as Hfa by (split; [done|]; by exists (b ++ rest)).
    destruct (filled_slot _ _ _ Hfa) as [x Hfx]; [lia|].
    destruct (filled_wr_range _ _ _ b Hfx) as (items & Hw & Hzi & Hf'); [lia|]. rewrite Hw. exists items.
    split; [done|]. split; [done|]. destruct Hf' as [_ [r ->]]. exists x, r. by rewrite <-!(assoc app).
  - assert (b = []) as -> by (destruct b as [|y b]; [done|rewrite zlen_cons in Hb; pose proof (zlen_nonneg b); lia]).
    eexists. split; [done|]. split; [done|]. rewrite Hassoc in *. cbn [app] in *.
    destruct rest as [|x r]; [rewrite app_nil_r, zlen_nil in Hlt; lia|]. by exists x, r.
Qed.

Lemma string_list_insert_spec sl l s :
  sl_rep sl l -> sorted l ->
  exists sl' a it b, string_list_insert junk cmp sl s = Ret (sl', zlen a) /\ sl_rep sl' (a ++ it :: b) /\ sorted (a ++ it :: b) /\
    strdup_strings sl' = strdup_strings sl /\
    (l = a ++ it :: b /\ cmp s (it_string it) = 0 \/ l = a ++ b /\ it = Item s 0 /\ between s a b).
Proof.
  intros Hr Hl. unfold string_list_insert, add_entry. change (negb (-1 =? -1)) with false. cbv iota.
  destruct (get_entry_index_spec sl l s Hr Hl) as [(a & it & b & -> & Heq & Hbt & ->)|(a & b & -> & Hbt & ->)];
    run; pose proof (zlen_nonneg a).
  - exists sl, a, it, b. rewrite (proj2 (Z.ltb_lt _ 0)) by lia. split; [do 3 f_equal; lia|]. auto 10.
  - destruct (grow_items_spec sl (a ++ b) Hr) as ([Hf Hz] & Hlt & Hnr). pose proof (zlen_nonneg b).
    rewrite Hnr in *. rewrite zlen_app in *. destruct (open_gap _ a b Hf Hlt) as (items & -> & Hzi & x & r & Hi).
    run. rewrite (wr_at a x (b ++ r)) by done. run. eexists _, a, (Item s 0), b. rewrite (proj2 (Z.ltb_ge (zlen a) 0)) by lia.
    split; [done|]. split; [|split; [by apply sorted_insert|auto 10]]. split; cbn [set_items sl_items sl_nr sl_alloc].
    + split; [rewrite zlen_app, zlen_cons; lia|]. exists r. by rewrite <-(assoc app).
    + rewrite <-Hz, <-Hzi, Hi. by rewrite !zlen_app, !zlen_cons.
Qed.

Lemma string_list_remove_spec sl l s :
  sl_rep sl l -> sorted l ->
  exists sl' l', string_list_remove cmp sl s = Ret sl' /\ sl_rep sl' l' /\ sorted l' /\ strdup_strings sl' = strdup_strings sl /\
    ((exists a it b, l = a ++ it :: b /\ cmp s (it_string it) = 0 /\ l' = a ++ b) \/
     l' = l /\ Forall (fun it => cmp s (it_string it) <> 0) l).
Proof.
  intros Hr Hl. unfold string_list_remove.
  destruct (get_entry_index_spec sl l s Hr Hl) as [(a & it & b & -> & Heq & Hbt & ->)|(a & b & -> & Hbt & ->)]; run.
  - pose proof (zlen_nonneg a). pose proof (zlen_nonneg b). rewrite (sl_rep_nr _ _ Hr), zlen_app, zlen_cons.
    replace (zlen a + (1 + zlen b) - 1 - zlen a) with (zlen b) by lia. destruct Hr as [[_ [rest Hitems]] Hz].
    assert (at_pos (sl_items sl) (zlen a + 1) (b ++ rest)) as Hat.
    { replace (zlen a + 1) with (zlen (a ++ [it])) by (rewrite zlen_app; done). rewrite Hitems.
      assert ((a ++ it :: b) ++ rest = (a ++ [it]) ++ b ++ rest) as -> by (by rewrite <-!(assoc app)). apply at_pos_pre. }
    destruct (at_pos_app _ _ _ _ Hat) as [-> _]. run.
    assert (filled (sl_items sl) (zlen a) a) as Hfa by (split; [done|]; exists (it :: b ++ rest); by rewrite Hitems, <-(assoc app)).
    destruct (filled_wr_range _ _ _ b Hfa) as (items & -> & Hzi & Hf'); [rewrite Hitems, !zlen_app, zlen_cons; pose proof (zlen_nonneg rest); lia|].
    run. eexists _, (a ++ b). split; [done|]. split; [|split; [by eapply sorted_delete|split; [done|left; eauto 10]]].
    split; cbn [set_items sl_items sl_nr sl_alloc]; [|lia]. replace (zlen a + (1 + zlen b) - 1) with (zlen a + zlen b) by lia. done.
  - exists sl, (a ++ b). split; [done|]. split; [done|]. split; [done|]. split; [done|]. right. split; [done|].
    destruct Hbt as [Ha Hb]. apply Forall_app. split; (eapply Forall_impl; [done|]); intros x Hx; cbv beta in Hx.
    + pose proof (cmp_flip s (it_string x)). lia.
    + lia.
Qed.

Lemma string_list_lookup_spec sl l s :
  sl_rep sl l -> sorted l ->
  (exists i it, string_list_lookup cmp sl s = Ret (Some i) /\ string_list_has_string cmp sl s = Ret true /\
     rd (sl_items sl) i = Ret it /\ it ∈ l /\ cmp s (it_string it) = 0) \/
  string_list_lookup cmp sl s = Ret None /\ string_list_has_string cmp sl s = Ret false /\ Forall (fun it => cmp s (it_string it) <> 0) l.
Proof.
  intros Hr Hl. unfold string_list_lookup, string_list_has_string.
  destruct (get_entry_index_spec sl l s Hr Hl) as [(a & it & b & -> & Heq & Hbt & ->)|(a & b & -> & Hbt & ->)]; run.
  - left. exists (zlen a), it. split; [done|]. split; [done|]. split; [|split; [|done]].
    + apply (sl_rep_rd sl (a ++ it :: b) (length a) it Hr). by rewrite lookup_app_r, Nat.sub_diag by lia.
    + apply elem_of_app. right. left.
  - right. split; [done|]. split; [done|]. destruct Hbt as [Ha Hb]. apply Forall_app.
    split; (eapply Forall_impl; [done|]); intros x Hx; cbv beta in Hx; [pose proof (cmp_flip s (it_string x)); lia|lia].
Qed.
End proofs.

(** ** A sorted list is a finite map from strings to pointers *)

Section map.
Context `{GitCompatOk} (junk : item) (cmp : list Z -> list Z -> Z) `{!CmpOk cmp}.
Hypothesis cmp_eq : forall a b, cmp a b = 0 <-> a = b.

(** What callers do: [string_list_insert(l, s)->util = u], and so on. *)
Inductive list_op := Insert (s : list Z) (u : Z) | Remove (s : list Z) | Lookup (s : list Z).

Definition list_step (sl : string_list) (op : list_op) : outcome (string_list * option Z) :=
  match op with
  | Insert s u =>
      '(sl, i) ← string_list_insert junk cmp sl s;
      it ← rd (sl_items sl) i;
      items ← wr (sl_items sl) i (Item (it_string it) u);
      Ret (set_items sl items (sl_nr sl), None)
  | Remove s => sl ← string_list_remove cmp sl s; Ret (sl, None)
  | Lookup s =>
      r ← string_list_lookup cmp sl s;
      match r with
      | None => Ret (sl, None)
      | Some i => it ← rd (sl_items sl) i; Ret (sl, Some (it_util it))
      end
  end.

Fixpoint list_steps (sl : string_list) (ops : list list_op) : outcome (string_list * list (option Z)) :=
  match ops with
  | [] => Ret (sl, [])
  | op :: ops =>
      '(sl, o) ← list_step sl op;
      '(sl, os) ← list_steps sl ops;
      Ret (sl, o :: os)
  end.

Definition map_step (M : gmap (list Z) Z) (op : list_op) : gmap (list Z) Z * option Z :=
  match op with
  | Insert s u => (<[s := u]> M, None)
  | Remove s => (delete s M, None)
  | Lookup s => (M, M !! s)
  end.

Fixpoint map_steps (M : gmap (list Z) Z) (ops : list list_op) : gmap (list Z) Z * list (option Z) :=
  match ops with
  | [] => (M, [])
  | op :: ops => let '(M, o) := map_step M op in let '(M, os) := map_steps M ops in (M, o :: os)
  end.

(** The items are the map's bindings. *)
Definition binds (l : list item) (M : gmap (list Z) Z) : Prop := forall s u, Item s u ∈ l <-> M !! s = Some u.

Definition map_rep (sl : string_list) (M : gmap (list Z) Z) : Prop :=
  exists l, sl_rep sl l /\ sorted cmp l /\ binds l M.

Lemma sorted_sides a it b x :
  sorted cmp (a ++ it :: b) -> x ∈ a ++ b -> it_string x <> it_string it.
Proof.
  intros Hs Hx Heq. apply elem_of_app in Hx as [Hx|Hx]; apply list_elem_of_lookup_1 in Hx as [i Hi].
  - assert (cmp (it_string x) (it_string it) < 0) as Hlt; [|rewrite Heq, cmp_refl in Hlt by done; lia].
    pose proof (lookup_lt_Some _ _ _ Hi). apply (sorted_lt cmp (a ++ it :: b) i (length a)); [done|by rewrite lookup_app_l| |done].
    by rewrite lookup_app_r, Nat.sub_diag by lia.
  - assert (cmp (it_string it) (it_string x) < 0) as Hlt; [|rewrite Heq, cmp_refl in Hlt by done; lia].
    apply (sorted_lt cmp (a ++ it :: b) (length a) (S (length a + i))); [done| | |lia].
    + by rewrite lookup_app_r, Nat.sub_diag by lia.
    + rewrite lookup_app_r by lia. replace (S (length a + i) - length a)%nat with (S i) by lia. done.
Qed.

Lemma sorted_set a it u b : sorted cmp (a ++ it :: b) -> sorted cmp (a ++ Item (it_string it) u :: b).
Proof.
  unfold sorted. induction a as [|x a IH]; cbn [app]; intros Hs; inversion Hs as [|? ? Hs' Hx]; subst; constructor; [done|done|by apply IH|].
  apply Forall_app in Hx as [? Hx]. apply Forall_cons_iff in Hx as [? ?]. apply Forall_app. split; [done|]. by constructor.
Qed.

(** The bindings of the other strings stay. *)
Lemma binds_set a it b M u :
  sorted cmp (a ++ it :: b) -> (forall x, x ∈ a ++ b -> M !! it_string x = Some (it_util x)) ->
  (forall s v, M !! s = Some v -> s = it_string it \/ Item s v ∈ a ++ b) ->
  binds (a ++ Item (it_string it) u :: b) (<[it_string it := u]> M).
Proof.
  intros Hs H1 H2 s v. assert (Item s v ∈ a ++ Item (it_string it) u :: b <-> (s = it_string it /\ v = u) \/ Item s v ∈ a ++ b) as ->.
  { rewrite !elem_of_app, elem_of_cons. split; [intros [?|[[= -> ->]|?]]; auto|intros [[-> ->]|[?|?]]; auto]. }
  destruct (decide (s = it_string it)) as [->|Hne].
  - rewrite lookup_insert_eq. split; [intros [[_ ->]|Hin]; [done|]|intros [= ->]; auto].
    by destruct (sorted_sides _ _ _ _ Hs Hin).
  - rewrite lookup_insert_ne by done. split; [intros [[? _]|Hin]; [done|by apply (H1 _ Hin)]|].
    intros Hv. right. by destruct (H2 _ _ Hv).
Qed.

Lemma list_step_refines sl M op :
  map_rep sl M ->
  exists sl', list_step sl op = Ret (sl', (map_step M op).2) /\ map_rep sl' (map_step M op).1 /\ strdup_strings sl' = strdup_strings sl.
Proof.
  intros (l & Hr & Hs & HM). destruct op as [s u|s|s]; cbn [list_step map_step fst snd].
  - destruct (string_list_insert_spec junk cmp sl l s Hr Hs) as (sl' & a & it & b & -> & Hr' & Hs' & Hd & Hcase). run.
    assert (it_string it = s) as <- by (destruct Hcase as [[_ Q]|(_ & -> & _)]; [by apply cmp_eq in Q|done]).
    destruct Hr' as [[Hnr [rest Hi]] Hz]. rewrite <-(assoc app) in Hi. cbn [app] in Hi. rewrite Hi.
    assert (rd (a ++ it :: b ++ rest) (zlen a) = Ret it) as ->.
    { unfold zlen. apply rd_lookup. by rewrite lookup_app_r, Nat.sub_diag by lia. }
    run. rewrite (wr_at a it (b ++ rest)) by done. run. eexists. split; [done|]. split; [|done].
    exists (a ++ Item (it_string it) u :: b). split; [|split; [by apply sorted_set|]].
    + split; cbn [set_items sl_items sl_nr sl_alloc]; [|by rewrite <-Hz, Hi, !zlen_app, !zlen_cons].
      split; [by rewrite <-Hnr, !zlen_app, !zlen_cons|]. exists rest. by rewrite <-(assoc app).
    + apply binds_set; [done| |].
      * intros x Hx. apply HM. destruct x as [t v]; cbn. destruct Hcase as [[-> _]|(-> & _)]; [|done]. set_solver.
      * intros t v Hv. apply HM in Hv. destruct Hcase as [[-> _]|(-> & _)]; [|by right].
        rewrite elem_of_app, elem_of_cons in Hv. destruct Hv as [?|[<-|?]]; [right; set_solver|by left|right; set_solver].
  - destruct (string_list_remove_spec cmp sl l s Hr Hs) as (sl' & l' & -> & Hr' & Hs' & Hd & Hcase). run.
    eexists. split; [done|]. split; [|done]. exists l'. split; [done|]. split; [done|]. intros t v.
    destruct Hcase as [(a & it & b & -> & Heq & ->)|[-> Hall]].
    + apply cmp_eq in Heq as ->. rewrite lookup_delete_Some. specialize (HM t v). rewrite <-HM, elem_of_app, elem_of_app, elem_of_cons.
      split; [intros Hx; split; [|set_solver]|intros [Hne [?|[<-|?]]]; set_solver].
      apply not_eq_sym. apply elem_of_app in Hx. by apply (sorted_sides a it b (Item t v)).
    + rewrite lookup_delete_Some, <-(HM t v). split; [|by intros [_ ?]]. intros Hx. split; [|done]. intros ->.
      rewrite Forall_forall in Hall. apply (Hall _ Hx). by apply cmp_eq.
  - destruct (string_list_lookup_spec cmp sl l s Hr Hs) as [(i & it & -> & _ & Hrd & Hin & Heq)|(-> & _ & Hall)]; run.
    + rewrite Hrd. run. apply cmp_eq in Heq as ->. destruct it as [t v]. cbn. rewrite (proj1 (HM t v) Hin). eexists. split; [done|]. split; [by exists l|done].
    + destruct (M !! s) as [v|] eqn:E; [|eexists; split; [done|]; split; [by exists l|done]]. apply HM in E. rewrite Forall_forall in Hall.
      destruct (Hall _ E). by apply cmp_eq.
Qed.

Lemma list_steps_refine sl M ops :
  map_rep sl M -> exists sl', list_steps sl ops = Ret (sl', (map_steps M ops).2) /\ map_rep sl' (map_steps M ops).1.
Proof.
  revert sl M. induction ops as [|op ops IH]; intros sl M Hr; cbn [list_steps map_steps]; [by exists sl|].
  destruct (list_step_refines sl M op Hr) as (sl1 & -> & Hr1 & _). destruct (map_step M op) as [M1 o]. cbn [fst snd] in *. run.
  destruct (IH sl1 M1 Hr1) as (sl2 & -> & Hr2). destruct (map_steps M1 ops) as [M2 os]. run. by exists sl2.
Qed.

Lemma map_rep_empty sl : sl_items sl = [] -> sl_nr sl = 0 -> sl_alloc sl = 0 -> map_rep sl ∅.
Proof.
  intros Hi Hn Ha. exists []. split; [split; [split; [done|by exists []]|by rewrite Hi]|]. split; [constructor|].
  intros s u. rewrite lookup_empty. split; [intros Hin; by apply not_elem_of_nil in Hin|done].
Qed.
End map.

(** [C23]: a list that only insert, remove and lookup touch behaves as a finite
    map from strings to the pointers stored with them: every lookup answers as
    the map does, and the list stays sorted, holds exactly the bindings and
    has no string twice.  Nothing fails, whatever the order of the calls.  There
    are fewer than 2^31 - 1 calls, so that the indices and their differences, which are
    ints, do not overflow. *)
Theorem string_list_refines_map `{GitCompatOk} (junk : item) (cmp : list Z -> list Z -> Z) (dup : bool) (ops : list list_op) :
  CmpOk cmp -> (forall a b, cmp a b = 0 <-> a = b) -> zlen ops < 2 ^ 31 - 1 ->
  exists sl,
    list_steps junk cmp (if dup then string_list_init_dup else string_list_init_nodup) ops = Ret (sl, (map_steps ∅ ops).2) /\
    map_rep cmp sl (map_steps ∅ ops).1.
Proof. intros Hok Heq _. apply (list_steps_refine junk cmp Heq). by destruct dup; apply map_rep_empty. Qed.

Lemma string_list_refines_map_witness :
  exists sl,
    @list_steps compat_ref (Item [] 0) bytes_cmp string_list_init_dup
      [Insert [98] 1; Insert [97] 2; Insert [99; 97] 3; Insert [97] 4; Lookup [97]; Remove [98]; Lookup [98]] =
      Ret (sl, [None; None; None; None; Some 4; None; None]) /\
    map_rep bytes_cmp sl (<[[99; 97] := 3]> (<[[97] := 4]> ∅)).
Proof.
  destruct (@string_list_refines_map compat_ref compat_ref_ok (Item [] 0) bytes_cmp true
    [Insert [98] 1; Insert [97] 2; Insert [99; 97] 3; Insert [97] 4; Lookup [97]; Remove [98]; Lookup [98]] _ bytes_cmp_eq ltac:(reflexivity)) as (sl & H1 & H2).
  exists sl. split; [exact H1|]. cbn [map_steps map_step fst] in H2.
  replace (<[[99; 97] := 3]> (<[[97] := 4]> ∅) : gmap (list Z) Z)
    with (delete [98] (<[[97] := 4]> (<[[99; 97] := 3]> (<[[97] := 2]> (<[[98] := 1]> ∅)))) : gmap (list Z) Z); [exact H2|].
  by apply (bool_decide_unpack _).
Defined.

(** ** Splitting *)

(** The pieces put together again, with what was between them. *)
Fixpoint joined (ps : list (list Z)) (ds : list Z) : list Z :=
  match ps, ds with
  | p :: ps, d :: ds => p ++ d :: joined ps ds
  | p :: _, [] => p
  | [], _ => []
  end.

(** [split_of D n s ps ds]: [ps] are the pieces of [s] between the first [n]
    delimiters [ds], all of them if [n] is negative. *)
Inductive split_of (D : Z -> Prop) : Z -> list Z -> list (list Z) -> list Z -> Prop :=
| split_stop s : split_of D 0 s [s] []
| split_last n s : n <> 0 -> Forall (fun c => ~ D c) s -> split_of D n s [s] []
| split_more n p d s ps ds :
    n <> 0 -> Forall (fun c => ~ D c) p -> D d -> split_of D (n - 1) s ps ds ->
    split_of D n (p ++ d :: s) (p :: ps) (d :: ds).

Lemma split_of_joined D n s ps ds : split_of D n s ps ds -> joined ps ds = s.
Proof. induction 1 as [| |n p d s ps ds _ _ _ _ IH]; [done..|]. cbn [joined]. by rewrite IH. Qed.

Lemma split_of_length D n s ps ds :
  split_of D n s ps ds -> zlen ps = 1 + zlen ds /\ (0 <= n -> zlen ds <= n) /\ Forall D ds.
Proof.
  induction 1 as [|n s Hn _|n p d s ps ds Hn _ Hd _ (IH1 & IH2 & IH3)].
  - done.
  - split; [done|]. split; [|constructor]. rewrite zlen_nil. lia.
  - rewrite !zlen_cons. split; [lia|]. split; [lia|by constructor].
Qed.

Section split.
Context `{GitCompatOk} (junk : item).

Definition new_items (ps : list (list Z)) : list item := fmap (fun p => Item p 0) ps.

(** A round on a text without a delimiter, or when enough pieces are found. *)
Lemma split_round_end (delim maxsplit : Z) sl l p count :
  sl_rep sl l -> (0 <= maxsplit < count + 1 \/ delim ∉ p) ->
  exists sl', split_round junk delim maxsplit (sl, p, count) = Ret (inr (sl', count + 1)) /\
    sl_rep sl' (l ++ new_items [p]) /\ strdup_strings sl' = strdup_strings sl.
Proof.
  intros Hr Hend. destruct (append_spec junk sl l p Hr) as (sl' & Happ & Hr' & Hd). unfold split_round, string_list_append. rewrite Happ. run.
  exists sl'. split; [|done].
  destruct ((maxsplit >=? 0) && (count + 1 >? maxsplit)) eqn:E; [done|]. pose proof (memchr_split p delim) as Hm.
  destruct (memchr p delim (zlen p)) as [k|]; [|done]. destruct Hm as (a & b & -> & _). exfalso.
  destruct Hend as [Hc|Hn]; [apply andb_false_iff in E; lia|]. apply Hn. set_solver.
Qed.

Lemma split_round_next (delim maxsplit : Z) sl l p s count :
  sl_rep sl l -> ~ (0 <= maxsplit < count + 1) -> delim ∉ p ->
  exists sl', split_round junk delim maxsplit (sl, p ++ delim :: s, count) = Ret (inl (sl', s, count + 1)) /\
    sl_rep sl' (l ++ new_items [p]) /\ strdup_strings sl' = strdup_strings sl.
Proof.
  intros Hr Hc Hp. destruct (append_spec junk sl l p Hr) as (sl' & Happ & Hr' & Hd). unfold split_round.
  assert ((maxsplit >=? 0) && (count + 1 >? maxsplit) = false) as -> by (apply andb_false_iff; lia).
  rewrite (memchr_app p delim s Hp). destruct (take_drop_zlen p (delim :: s)) as [-> _]. rewrite Happ. run.
  assert (drop (Z.to_nat (zlen p + 1)) (p ++ delim :: s) = s) as ->.
  { replace (Z.to_nat (zlen p + 1)) with (Z.to_nat (zlen (p ++ [delim]))) by (rewrite zlen_app; done).
    assert (p ++ delim :: s = (p ++ [delim]) ++ s) as -> by (by rewrite <-(assoc app)). apply take_drop_zlen. }
  by exists sl'.
Qed.

Lemma list_split_loop (delim maxsplit : Z) fuel sl l s count :
  (length s < fuel)%nat -> sl_rep sl l -> 0 <= count -> (0 <= maxsplit -> count <= maxsplit) ->
  exists sl' ps ds, loop fuel (split_round junk delim maxsplit) (sl, s, count) = Ret (sl', count + zlen ps) /\
    sl_rep sl' (l ++ new_items ps) /\ split_of (fun c => c = delim) (maxsplit - count) s ps ds.
Proof.
  revert sl l s count. induction fuel as [|fuel IH]; intros sl l s count Hfuel Hr Hc Hm; [lia|].
  destruct (decide (0 <= maxsplit < count + 1)) as [Hstop|Hgo].
  { destruct (split_round_end delim maxsplit sl l s count Hr ltac:(by left)) as (sl' & Hround & Hr' & _).
    rewrite (loop_stop _ _ _ _ Hround). exists sl', [s], []. split; [done|]. split; [done|].
    replace (maxsplit - count) with 0 by lia. apply split_stop. }
  assert (maxsplit - count <> 0) as Hne by lia.
  pose proof (memchr_split s delim) as Hs. destruct (memchr s delim (zlen s)) as [k|].
  - destruct Hs as (p & t & -> & _ & Hp). rewrite length_app in Hfuel. cbn [length] in Hfuel.
    destruct (split_round_next delim maxsplit sl l p t count Hr Hgo Hp) as (sl1 & Hround & Hr1 & _).
    rewrite (loop_next _ _ _ _ Hround). destruct (IH sl1 _ t (count + 1) ltac:(lia) Hr1) as (sl2 & ps & ds & -> & Hr2 & Hsp); [lia..|].
    exists sl2, (p :: ps), (delim :: ds). split; [do 2 f_equal; rewrite zlen_cons; lia|].
    split; [by rewrite <-(assoc app) in Hr2|]. apply split_more; [done| |done|by replace (maxsplit - count - 1) with (maxsplit - (count + 1)) by lia].
    apply Forall_forall. intros c Hcp ->. done.
  - destruct (split_round_end delim maxsplit sl l s count Hr ltac:(by right)) as (sl' & Hround & Hr' & _).
    rewrite (loop_stop _ _ _ _ Hround). exists sl', [s], []. split; [done|]. split; [done|]. apply split_last; [done|].
    apply Forall_forall. intros c Hcp ->. done.
Qed.

(** One round on memory: the string from [p] on, up to its NUL. *)
Lemma split_in_place_round_end (delim : list Z) (maxsplit : Z) sl l pre s rest count :
  sl_rep sl l -> no_nul s -> (0 <= maxsplit < count + 1 \/ Forall (fun c => c ∉ delim) s) ->
  exists sl', split_in_place_round junk delim maxsplit (sl, pre ++ s ++ 0 :: rest, zlen pre, count) =
      Ret (inr (sl', pre ++ s ++ 0 :: rest, count + 1)) /\
    sl_rep sl' (l ++ new_items [s]).
Proof.
  intros Hr Hs Hend. destruct (append_spec junk sl l s Hr) as (sl' & Happ & Hr' & Hd). exists sl'. split; [|done].
  unfold split_in_place_round, string_list_append. destruct (take_drop_zlen pre (s ++ 0 :: rest)) as [_ ->].
  rewrite c_string_app by done. rewrite Happ. run.
  destruct ((maxsplit >=? 0) && (count + 1 >? maxsplit)) eqn:E; [done|].
  destruct Hend as [Hc|Hn]; [apply andb_false_iff in E; lia|]. rewrite strcspn_none by done. by rewrite Z.ltb_irrefl.
Qed.

Lemma split_in_place_round_next (delim : list Z) (maxsplit : Z) sl l pre p d s rest count :
  sl_rep sl l -> no_nul (p ++ d :: s) -> ~ (0 <= maxsplit < count + 1) -> Forall (fun c => c ∉ delim) p -> d ∈ delim ->
  exists sl', split_in_place_round junk delim maxsplit (sl, pre ++ (p ++ d :: s) ++ 0 :: rest, zlen pre, count) =
      Ret (inl (sl', (pre ++ p ++ [0]) ++ s ++ 0 :: rest, zlen (pre ++ p ++ [0]), count + 1)) /\
    sl_rep sl' (l ++ new_items [p]).
Proof.
  intros Hr Hs Hc Hp Hd. destruct (append_spec junk sl l p Hr) as (sl' & Happ & Hr' & _). exists sl'. split; [|done].
  unfold split_in_place_round, string_list_append. destruct (take_drop_zlen pre ((p ++ d :: s) ++ 0 :: rest)) as [_ ->].
  rewrite c_string_app by done. assert ((maxsplit >=? 0) && (count + 1 >? maxsplit) = false) as -> by (apply andb_false_iff; lia).
  rewrite strcspn_app by done. pose proof (zlen_nonneg s). rewrite (proj2 (Z.ltb_lt _ _)) by (rewrite zlen_app, zlen_cons; lia).
  rewrite (wr_at (pre ++ p) d (s ++ 0 :: rest)) by (same_list || same_len). run.
  assert ((pre ++ p) ++ 0 :: s ++ 0 :: rest = pre ++ p ++ 0 :: s ++ 0 :: rest) as Hmem by same_list.
  rewrite Hmem. destruct (take_drop_zlen pre (p ++ 0 :: s ++ 0 :: rest)) as [_ ->].
  apply Forall_app in Hs as [Hnp _]. rewrite c_string_app by done. rewrite Happ. run.
  assert (zlen pre + zlen p + 1 = zlen (pre ++ p ++ [0])) as -> by same_len.
  assert (pre ++ p ++ 0 :: s ++ 0 :: rest = (pre ++ p ++ [0]) ++ s ++ 0 :: rest) as -> by same_list. done.
Qed.

Lemma split_in_place_loop (delim : list Z) (maxsplit : Z) fuel sl l pre s rest count :
  (length s < fuel)%nat -> sl_rep sl l -> no_nul s -> 0 <= count -> (0 <= maxsplit -> count <= maxsplit) ->
  exists sl' ps ds,
    loop fuel (split_in_place_round junk delim maxsplit) (sl, pre ++ s ++ 0 :: rest, zlen pre, count) =
      Ret (sl', pre ++ joined ps (fmap (fun _ => 0) ds) ++ 0 :: rest, count + zlen ps) /\
    sl_rep sl' (l ++ new_items ps) /\ split_of (fun c => c ∈ delim) (maxsplit - count) s ps ds.
Proof.
  revert sl l pre s count. induction fuel as [|fuel IH]; intros sl l pre s count Hfuel Hr Hs Hc Hm; [lia|].
  destruct (decide (0 <= maxsplit < count + 1)) as [Hstop|Hgo].
  { destruct (split_in_place_round_end delim maxsplit sl l pre s rest count Hr Hs ltac:(by left)) as (sl' & Hround & Hr').
    rewrite (loop_stop _ _ _ _ Hround). exists sl', [s], []. split; [done|]. split; [done|].
    replace (maxsplit - count) with 0 by lia. apply split_stop. }
  assert (maxsplit - count <> 0) as Hne by lia.
  destruct (strcspn_split s delim) as (p & t & -> & _ & Hp & [->|(d & t' & -> & Hd)]).
  - rewrite app_nil_r in *. destruct (split_in_place_round_end delim maxsplit sl l pre p rest count Hr Hs ltac:(by right)) as (sl' & Hround & Hr').
    rewrite (loop_stop _ _ _ _ Hround). exists sl', [p], []. split; [done|]. split; [done|]. by apply split_last.
  - rewrite length_app in Hfuel. cbn [length] in Hfuel.
    destruct (split_in_place_round_next delim maxsplit sl l pre p d t' rest count Hr Hs Hgo Hp Hd) as (sl1 & Hround & Hr1).
    rewrite (loop_next _ _ _ _ Hround). apply Forall_app in Hs as [_ Hs]. apply Forall_cons_iff in Hs as [_ Hs].
    destruct (IH sl1 _ (pre ++ p ++ [0]) t' (count + 1) ltac:(lia) Hr1 Hs) as (sl2 & ps & ds & -> & Hr2 & Hsp); [lia..|].
    exists sl2, (p :: ps), (d :: ds). split; [|split; [by rewrite <-(assoc app) in Hr2|]].
    + cbn [fmap list_fmap joined]. rewrite zlen_cons. replace (count + 1 + zlen ps) with (count + (1 + zlen ps)) by lia.
      do 3 f_equal. same_list.
    + apply split_more; [done..|]. by replace (maxsplit - count - 1) with (maxsplit - (count + 1)) by lia.
Qed.
End split.

(** Both splitters cut the text into the pieces between its first
    [maxsplit] delimiters (all of them if [maxsplit] is negative), append the
    pieces in order and return their number.  The pieces with the delimiters
    between them are the text again; [string_list_split_in_place] leaves in
    memory the same pieces with NULs between them, all else untouched. *)
Theorem string_list_split_pieces `{GitCompatOk} (junk : item) (sl : string_list) (l : list item) (s rest delim : list Z) (d maxsplit : Z) :
  sl_rep sl l -> no_nul s ->
  if strdup_strings sl then
    exists sl' ps ds,
      string_list_split junk sl s d maxsplit = Ret (sl', zlen ps) /\ sl_rep sl' (l ++ new_items ps) /\
      split_of (fun c => c = d) maxsplit s ps ds /\ joined ps ds = s
  else
    exists sl' ps ds,
      string_list_split_in_place junk sl (s ++ 0 :: rest) delim maxsplit =
        Ret (sl', joined ps (fmap (fun _ => 0) ds) ++ 0 :: rest, zlen ps) /\
      sl_rep sl' (l ++ new_items ps) /\ split_of (fun c => c ∈ delim) maxsplit s ps ds /\ joined ps ds = s.
Proof.
  intros Hr Hs. unfold string_list_split, string_list_split_in_place. destruct (strdup_strings sl); cbn [negb].
  - destruct (list_split_loop junk d maxsplit (S (length s)) sl l s 0) as (sl' & ps & ds & -> & Hr' & Hsp); [lia|done|lia..|].
    rewrite Z.sub_0_r in Hsp. exists sl', ps, ds. split; [done|]. split; [done|]. split; [done|]. by apply split_of_joined in Hsp.
  - destruct (split_in_place_loop junk delim maxsplit (S (length (s ++ 0 :: rest))) sl l [] s rest 0) as (sl' & ps & ds & Hrun & Hr' & Hsp);
      [rewrite length_app; lia|done|done|lia..|].
    cbn [app] in Hrun. change (zlen []) with 0 in Hrun. rewrite Hrun. rewrite Z.sub_0_r in Hsp. exists sl', ps, ds.
    split; [done|]. split; [done|]. split; [done|]. by apply split_of_joined in Hsp.
Qed.

Lemma string_list_split_pieces_witness :
  exists sl' ps ds,
    @string_list_split_in_place compat_ref (Item [] 0) string_list_init_nodup [97; 58; 98; 59; 99; 58; 0; 7] [58; 59] 2 =
      Ret (sl', joined ps (fmap (fun _ => 0) ds) ++ [0; 7], zlen ps) /\
    sl_rep sl' (new_items ps) /\ split_of (fun c => c ∈ [58; 59]) 2 [97; 58; 98; 59; 99; 58] ps ds /\ joined ps ds = [97; 58; 98; 59; 99; 58].
Proof.
  apply (@string_list_split_pieces compat_ref compat_ref_ok (Item [] 0) string_list_init_nodup [] [97; 58; 98; 59; 99; 58] [7] [58; 59] 0 2).
  - split; [split; [done|by exists []]|done].
  - by repeat constructor.
Defined.

(** ** Compaction in place *)

(** [kept] is kept, [x] is read next: writing it behind [kept] moves the gap. *)
Lemma compact_wr {A} (kept mid : list A) (x : A) (todo : list A) :
  rd (kept ++ mid ++ x :: todo) (zlen kept + zlen mid) = Ret x /\
  exists mid', wr (kept ++ mid ++ x :: todo) (zlen kept) x = Ret ((kept ++ [x]) ++ mid' ++ todo) /\ zlen mid' = zlen mid.
Proof.
  split; [apply (rd_at (kept ++ mid) x todo); [same_list|same_len]|]. destruct mid as [|m mid].
  - exists []. split; [|done]. cbn [app]. rewrite (wr_at kept x todo) by done. f_equal. same_list.
  - exists (mid ++ [x]). split; [|same_len]. cbn [app]. rewrite (wr_at kept m (mid ++ x :: todo)) by done. f_equal. same_list.
Qed.

(** The list without the items whose string the one before has. *)
Fixpoint dedup (cmp : list Z -> list Z -> Z) (last : item) (l : list item) : list item :=
  match l with
  | [] => []
  | it :: l => if cmp (it_string last) (it_string it) =? 0 then dedup cmp last l else it :: dedup cmp it l
  end.

Lemma remove_duplicates_loop (cmp : list Z -> list Z -> Z) (todo : list item) : forall kept last mid rest,
  exists mid',
    for_n (length todo) (zlen kept + 1 + zlen mid) (remove_duplicates_step cmp)
      ((kept ++ [last]) ++ mid ++ todo ++ rest, zlen kept + 1) =
    Ret (((kept ++ [last]) ++ dedup cmp last todo) ++ mid' ++ rest, zlen kept + 1 + zlen (dedup cmp last todo)) /\
    zlen mid' + zlen (dedup cmp last todo) = zlen mid + zlen todo.
Proof.
  induction todo as [|x todo IH]; intros kept last mid rest.
  - exists mid. cbn [length for_n dedup app]. rewrite app_nil_r, zlen_nil, Z.add_0_r. split; [done|lia].
  - destruct (compact_wr (kept ++ [last]) mid x (todo ++ rest)) as (Hrd & mid1 & Hwr & Hmid).
    assert (zlen (kept ++ [last]) = zlen kept + 1) as Hz by same_len. rewrite Hz in Hrd, Hwr.
    assert (rd ((kept ++ [last]) ++ mid ++ x :: todo ++ rest) (zlen kept + 1 - 1) = Ret last) as Hlast.
    { apply (rd_at kept last (mid ++ x :: todo ++ rest)); [same_list|lia]. }
    cbn [length dedup]. rewrite <-app_comm_cons. destruct (cmp (it_string last) (it_string x) =? 0) eqn:Ec.
    + rewrite (for_n_next _ _ _ _ ((kept ++ [last]) ++ (mid ++ [x]) ++ todo ++ rest, zlen kept + 1)).
      * destruct (IH kept last (mid ++ [x]) rest) as (mid' & Hrun & Hlen). exists mid'.
        replace (zlen kept + 1 + zlen (mid ++ [x])) with (zlen kept + 1 + zlen mid + 1) in Hrun by same_len.
        split; [done|]. rewrite zlen_app, zlen_cons, zlen_nil in Hlen. rewrite zlen_cons. lia.
      * unfold remove_duplicates_step. rewrite Hlast. run. rewrite Hrd. run. rewrite Ec. do 2 f_equal. same_list.
    + rewrite (for_n_next _ _ _ _ (((kept ++ [last]) ++ [x]) ++ mid1 ++ todo ++ rest, zlen kept + 1 + 1)).
      * destruct (IH (kept ++ [last]) x mid1 rest) as (mid' & Hrun & Hlen). rewrite Hz in Hrun. exists mid'.
        rewrite !zlen_cons. split; [|lia]. rewrite <-Hmid. replace (zlen kept + 1 + zlen mid1 + 1) with (zlen kept + 1 + 1 + zlen mid1) by lia.
        rewrite Hrun, Z.add_assoc. f_equal. f_equal. same_list.
      * unfold remove_duplicates_step. rewrite Hlast. run. rewrite Hrd. run. rewrite Ec, Hwr. done.
Qed.

Lemma filter_loop (want : item -> bool) (todo : list item) : forall kept mid rest,
  exists mid',
    for_n (length todo) (zlen kept + zlen mid) (filter_step want) (kept ++ mid ++ todo ++ rest, zlen kept) =
    Ret ((kept ++ List.filter want todo) ++ mid' ++ rest, zlen kept + zlen (List.filter want todo)) /\
    zlen mid' + zlen (List.filter want todo) = zlen mid + zlen todo.
Proof.
  induction todo as [|x todo IH]; intros kept mid rest.
  - exists mid. cbn [length for_n List.filter app]. rewrite app_nil_r, zlen_nil, Z.add_0_r. split; [done|lia].
  - destruct (compact_wr kept mid x (todo ++ rest)) as (Hrd & mid1 & Hwr & Hmid).
    cbn [length List.filter]. rewrite <-app_comm_cons. destruct (want x) eqn:Ew.
    + rewrite (for_n_next _ _ _ _ ((kept ++ [x]) ++ mid1 ++ todo ++ rest, zlen kept + 1)).
      * destruct (IH (kept ++ [x]) mid1 rest) as (mid' & Hrun & Hlen). exists mid'.
        assert (zlen (kept ++ [x]) = zlen kept + 1) as Hz by same_len. rewrite Hz in Hrun. rewrite !zlen_cons. split; [|lia].
        rewrite <-Hmid. replace (zlen kept + zlen mid1 + 1) with (zlen kept + 1 + zlen mid1) by lia.
        rewrite Hrun, Z.add_assoc. f_equal. f_equal. same_list.
      * unfold filter_step. rewrite Hrd. run. by rewrite Ew, Hwr.
    + rewrite (for_n_next _ _ _ _ (kept ++ (mid ++ [x]) ++ todo ++ rest, zlen kept)).
      * destruct (IH kept (mid ++ [x]) rest) as (mid' & Hrun & Hlen). exists mid'.
        replace (zlen kept + zlen (mid ++ [x])) with (zlen kept + zlen mid + 1) in Hrun by same_len.
        split; [done|]. rewrite zlen_app, zlen_cons, zlen_nil in Hlen. rewrite zlen_cons. lia.
      * unfold filter_step. rewrite Hrd. run. rewrite Ew. do 2 f_equal. same_list.
Qed.

Lemma filter_string_list_spec (want : item -> bool) sl l :
  sl_rep sl l -> exists sl', filter_string_list sl want = Ret sl' /\ sl_rep sl' (List.filter want l) /\ strdup_strings sl' = strdup_strings sl.
Proof.
  intros [[Hnr [rest Hi]] Hz]. unfold filter_string_list. rewrite <-Hnr, Hi. replace (Z.to_nat (zlen l)) with (length l) by (unfold zlen; lia).
  destruct (filter_loop want l [] [] rest) as (mid' & Hrun & Hlen). cbn [app] in Hrun. change (zlen (@nil item) + zlen (@nil item)) with 0 in Hrun.
  change (zlen (@nil item)) with 0 in Hrun, Hlen. rewrite Hrun. run. eexists. split; [done|]. split; [|done]. rewrite Hi, zlen_app in Hz.
  split; cbn [set_items sl_items sl_nr sl_alloc]; [split; [done|by exists (mid' ++ rest)]|]. rewrite !zlen_app. lia.
Qed.

(** ** Sorting *)

Section sort.
Context `{GitCompatOk} `{QsortOk} (cmp : list Z -> list Z -> Z) `{!CmpOk cmp}.

#[local] Instance cmp_items_CmpOk : CmpOk (cmp_items cmp).
Proof. unfold cmp_items. split; intros *; [apply cmp_flip|apply cmp_trans]. Qed.

(** Sorted, where items may compare equal. *)
Definition weakly_sorted (l : list item) : Prop := StronglySorted (fun a b => cmp (it_string a) (it_string b) <= 0) l.

Lemma string_list_sort_spec sl l :
  sl_rep sl l -> exists sl' l', string_list_sort cmp sl = Ret sl' /\ sl_rep sl' l' /\ Permutation l' l /\ weakly_sorted l' /\
    strdup_strings sl' = strdup_strings sl.
Proof.
  intros [[Hnr [rest Hi]] Hz]. destruct (qsort_sorts (cmp_items cmp) l _) as [Hsort Hp]. set (l' := qsort (cmp_items cmp) l) in *.
  assert (zlen l' = zlen l) as Hlen by (unfold zlen; by rewrite Hp). unfold string_list_sort.
  assert (at_pos (sl_items sl) 0 (l ++ rest)) as Hat by (rewrite Hi; apply (at_pos_pre [] (l ++ rest))).
  destruct (at_pos_app _ _ _ _ Hat) as [Hrd _]. rewrite <-Hnr, Hrd. run. fold l'.
  assert (filled (sl_items sl) 0 []) as Hf by (split; [done|by exists (sl_items sl)]). pose proof (zlen_nonneg rest).
  destruct (filled_wr_range _ _ _ l' Hf) as (items & -> & Hzi & Hf'); [rewrite Hi, zlen_app; lia|]. run. eexists _, l'.
  split; [done|]. split; [split; cbn [set_items sl_items sl_nr sl_alloc]; [by rewrite Hlen in Hf'|lia]|]. split; [done|]. by split.
Qed.

Lemma dedup_forall (P : item -> Prop) last l : Forall P l -> Forall P (dedup cmp last l).
Proof. intros Hl. revert last. induction Hl as [|x l Hx Hl IH]; intros last; cbn [dedup]; [done|]. case_match; [apply IH|]. by constructor. Qed.

Lemma dedup_sorted last l :
  Forall (fun it => cmp (it_string last) (it_string it) <= 0) l -> weakly_sorted l -> sorted cmp (last :: dedup cmp last l).
Proof.
  intros Hall Hs. revert last Hall. unfold sorted. induction Hs as [|x l Hs IH Hx]; intros last Hall; cbn [dedup]; [by repeat constructor|].
  apply Forall_cons_iff in Hall as [Hlx Hl]. destruct (Z.eqb_spec (cmp (it_string last) (it_string x)) 0) as [Heq|Hne]; [by apply IH|].
  specialize (IH x Hx). constructor; [done|]. constructor; [lia|]. apply dedup_forall.
  eapply Forall_impl; [exact Hx|]. intros y Hy. apply (cmp_lt_trans cmp _ (it_string x)); [lia|done].
Qed.

(** Every item has one with an equal string among those kept. *)
Lemma dedup_covers last l it :
  it ∈ last :: l -> exists it', it' ∈ last :: dedup cmp last l /\ cmp (it_string it') (it_string it) = 0.
Proof.
  revert last. induction l as [|x l IH]; intros last Hin; cbn [dedup].
  - exists last. split; [set_solver|]. apply elem_of_cons in Hin as [->|Hin]; [by apply cmp_refl|set_solver].
  - destruct (Z.eqb_spec (cmp (it_string last) (it_string x)) 0) as [Heq|Hne].
    + rewrite !elem_of_cons in Hin. destruct Hin as [->|[->|Hin]]; [apply IH; set_solver|exists last; split; [set_solver|done]|apply IH; set_solver].
    + apply elem_of_cons in Hin as [->|Hin]; [exists last; split; [set_solver|by apply cmp_refl]|].
      destruct (IH x Hin) as (it' & Hin' & Heq). exists it'. split; [set_solver|done].
Qed.

Lemma string_list_remove_duplicates_spec sl l :
  sl_rep sl l -> weakly_sorted l ->
  exists sl' l', string_list_remove_duplicates cmp sl = Ret sl' /\ sl_rep sl' l' /\ sorted cmp l' /\ strdup_strings sl' = strdup_strings sl /\
    (forall it, it ∈ l' -> it ∈ l) /\ (forall it, it ∈ l -> exists it', it' ∈ l' /\ cmp (it_string it') (it_string it) = 0).
Proof.
  intros Hr Hs. unfold string_list_remove_duplicates. pose proof (sl_rep_nr _ _ Hr) as Hnr. rewrite Z.gtb_ltb.
  destruct (Z.ltb_spec 1 (sl_nr sl)) as [Hgt|Hle].
  - destruct l as [|x l]; [rewrite zlen_nil in Hnr; lia|]. destruct Hr as [[Hf [rest Hi]] Hz].
    destruct (remove_duplicates_loop cmp l [] x [] rest) as (mid' & Hrun & Hlen). change (zlen (@nil item)) with 0 in Hrun, Hlen.
    cbn [app] in Hrun, Hi. change (0 + 1 + 0) with 1 in Hrun. change (0 + 1) with 1 in Hrun. rewrite Hi, Hnr, zlen_cons.
    replace (Z.to_nat (1 + zlen l - 1)) with (length l) by (unfold zlen; lia). rewrite Hrun. run.
    inversion Hs as [|? ? Hs' Hx]; subst. eexists _, (x :: dedup cmp x l). split; [done|]. split; [|split; [by apply dedup_sorted|]].
    + rewrite Hi, zlen_cons, zlen_app in Hz. split; cbn [set_items sl_items sl_nr sl_alloc]; [|rewrite zlen_cons, !zlen_app; lia].
      split; [by rewrite zlen_cons|]. by exists (mid' ++ rest).
    + split; [done|]. split; [|apply dedup_covers]. intros it. rewrite !elem_of_cons. intros [->|Hin]; [by left|right].
      pose proof (dedup_forall (fun it => it ∈ l) x l) as Hd. rewrite !Forall_forall in Hd. by apply Hd.
  - exists sl, l. split; [done|]. split; [done|]. split; [|split; [done|split; [done|intros it Hin; exists it; split; [done|by apply cmp_refl]]]].
    unfold sorted. destruct l as [|x [|y l]]; [constructor|by repeat constructor|]. rewrite !zlen_cons in Hnr. pose proof (zlen_nonneg l). lia.
Qed.

(** The linear search, for the answer only. *)
Lemma unsorted_has_string_spec sl l s :
  sl_rep sl l ->
  exists b, unsorted_string_list_has_string cmp sl s = Ret b /\ (b = true <-> exists it, it ∈ l /\ cmp s (it_string it) = 0).
Proof.
  intros Hr. pose proof (zlen_nonneg l). unfold unsorted_string_list_has_string, unsorted_string_list_lookup. rewrite (sl_rep_nr _ _ Hr).
  destruct (for_range_ret (fun i (_ : unit) => forall j it, l !! j = Some it -> Z.of_nat j < i -> cmp s (it_string it) <> 0)
    (Z.to_nat (zlen l)) 0
    (fun i st => it ← rd (sl_items sl) i; Ret (if cmp s (it_string it) =? 0 then inr i else inl st)) tt
    (fun i => exists it, it ∈ l /\ cmp s (it_string it) = 0)) as (r & -> & Hres).
  - intros i [] Hi Hno. destruct (lookup_lt_is_Some_2 l (Z.to_nat i)) as [it Hit]; [unfold zlen in *; lia|].
    pose proof (sl_rep_rd sl l _ it Hr Hit) as Hrd. rewrite Z2Nat.id in Hrd by lia. rewrite Hrd. run. eexists. split; [done|].
    destruct (Z.eqb_spec (cmp s (it_string it)) 0) as [Heq|Hne].
    + exists it. split; [by apply list_elem_of_lookup_2 in Hit|done].
    + intros j x Hj Hji. destruct (decide (j = Z.to_nat i)) as [->|]; [congruence|]. apply (Hno j x Hj). lia.
  - intros j it _ Hj. lia.
  - run. destruct r as [u|i]; eexists; (split; [done|]); [|done]. split; [done|]. intros (it & Hin & Heq).
    apply list_elem_of_lookup_1 in Hin as [j Hj]. destruct (Hres j it Hj); [|done]. apply lookup_lt_Some in Hj. unfold zlen. lia.
Qed.

Lemma has_string_spec sl l s :
  sl_rep sl l -> sorted cmp l ->
  exists b, string_list_has_string cmp sl s = Ret b /\ (b = true <-> exists it, it ∈ l /\ cmp s (it_string it) = 0).
Proof.
  intros Hr Hs. destruct (string_list_lookup_spec cmp sl l s Hr Hs) as [(i & it & _ & -> & _ & Hin & Heq)|(_ & -> & Hall)].
  - exists true. split; [done|]. split; [by exists it|done].
  - exists false. split; [done|]. split; [done|]. intros (it & Hin & Heq). rewrite Forall_forall in Hall. by destruct (Hall it Hin).
Qed.
End sort.

(** A list filled in any order becomes searchable by sorting it and
    dropping the duplicates: it is then sorted without two equal strings, and
    the binary search answers on it what the linear search answered on the
    original list, for every string. *)
Theorem string_list_sort_unique `{GitCompatOk} `{QsortOk} (cmp : list Z -> list Z -> Z) (sl : string_list) (l : list item) :
  CmpOk cmp -> sl_rep sl l ->
  exists sl1 sl2 l2,
    string_list_sort cmp sl = Ret sl1 /\ string_list_remove_duplicates cmp sl1 = Ret sl2 /\
    sl_rep sl2 l2 /\ sorted cmp l2 /\ (forall it, it ∈ l2 -> it ∈ l) /\
    forall s, exists b, unsorted_string_list_has_string cmp sl s = Ret b /\ string_list_has_string cmp sl2 s = Ret b.
Proof.
  intros Hok Hr. destruct (string_list_sort_spec cmp sl l Hr) as (sl1 & l1 & -> & Hr1 & Hp & Hs1 & _).
  destruct (string_list_remove_duplicates_spec cmp sl1 l1 Hr1 Hs1) as (sl2 & l2 & Hdup & Hr2 & Hs2 & _ & Hsub & Hcov).
  exists sl1, sl2, l2. split; [done|]. split; [done|]. split; [done|]. split; [done|].
  split; [intros it Hin; rewrite <-Hp; by apply Hsub|]. intros s.
  destruct (unsorted_has_string_spec cmp sl l s Hr) as (b & -> & Hb). destruct (has_string_spec cmp sl2 l2 s Hr2 Hs2) as (b2 & -> & Hb2).
  exists b. split; [done|]. f_equal. apply eq_true_iff_eq. rewrite Hb, Hb2. split; intros (it & Hin & Heq).
  - exists it. split; [|done]. rewrite <-Hp. by apply Hsub.
  - rewrite <-Hp in Hin. destruct (Hcov it Hin) as (it' & Hin' & Heq'). exists it'. split; [done|].
    apply (cmp_eq_trans cmp _ (it_string it)); [done|]. pose proof (cmp_flip (it_string it') (it_string it)).
    pose proof (cmp_flip (it_string it) (it_string it')). lia.
Qed.

Lemma string_list_sort_unique_witness :
  let sl := StringList [Item [98] 1; Item [97] 2; Item [98] 3] 3 3 true in
  exists sl1 sl2 l2,
    @string_list_sort qsort_ref bytes_cmp sl = Ret sl1 /\ string_list_remove_duplicates bytes_cmp sl1 = Ret sl2 /\
    sl_rep sl2 l2 /\ sorted bytes_cmp l2 /\ (forall it, it ∈ l2 -> it ∈ sl_items sl) /\
    forall s, exists b, unsorted_string_list_has_string bytes_cmp sl s = Ret b /\ string_list_has_string bytes_cmp sl2 s = Ret b.
Proof.
  apply (@string_list_sort_unique compat_ref compat_ref_ok qsort_ref qsort_ref_ok bytes_cmp _ [Item [98] 1; Item [97] 2; Item [98] 3] _).
  split; [split; [done|by exists []]|done].
Defined.
