(* ===== verification/Strvec.v ===== *)
(** strvec.c: NULL-terminated vectors of strings, as for [execv]. *)
From S2P Require Import Prelude Headers Strbuf.

(** * The structure *)

(** A string pointer: the string or NULL. *)
Notation cstr := (option (list Z)).

(** [struct strvec]: [sv_v] is [None] while [v] is the shared [empty_strvec].
    Strings are values: freeing them is not modelled. *)
Record strvec := Strvec { sv_v : option (list cstr); sv_nr : Z; sv_alloc : Z }.

(** [STRVEC_INIT] *)
Definition STRVEC_INIT : strvec := Strvec None 0 0.

(** * Model *)

Section model.
Context `{GitCompat} `{Ctype}.
Context (junk : cstr).

Definition empty_strvec : list cstr := [None].

(** What [v] points to. *)
Definition sv_mem (a : strvec) : list cstr := match sv_v a with Some v => v | None => empty_strvec end.

(** Writes through [v]; a write to the shared array is undefined. *)
Definition sv_wr (a : strvec) (i : Z) (x : cstr) : outcome strvec :=
  match sv_v a with
  | Some v => v ← wr v i x; Ret (Strvec (Some v) (sv_nr a) (sv_alloc a))
  | None => Undef
  end.

Definition sv_move (a : strvec) (dst src n : Z) : outcome strvec :=
  match sv_v a with
  | Some v => xs ← rd_range v src n; v ← wr_range v dst xs; Ret (Strvec (Some v) (sv_nr a) (sv_alloc a))
  | None => Undef
  end.

Definition sv_set_nr (a : strvec) (nr : Z) : strvec := Strvec (sv_v a) nr (sv_alloc a).

(** [v = NULL] for the shared array, then [ALLOC_GROW]. *)
Definition sv_grow (a : strvec) (n : Z) : strvec :=
  let v := match sv_v a with Some v => v | None => [] end in
  let alloc := alloc_grow n (sv_alloc a) in
  Strvec (Some (realloc junk v alloc)) (sv_nr a) alloc.

Definition strvec_init : strvec := STRVEC_INIT.

Definition strvec_push_nodup (a : strvec) (value : cstr) : outcome strvec :=
  let a := sv_grow a (sv_nr a + 2) in
  a ← sv_wr a (sv_nr a) value;
  let a := sv_set_nr a (sv_nr a + 1) in
  sv_wr a (sv_nr a) None.

(** The vector and the pointer to the new string. *)
Definition strvec_push (a : strvec) (value : list Z) : outcome (strvec * cstr) :=
  a ← strvec_push_nodup a (Some value);
  r ← rd (sv_mem a) (sv_nr a - 1);
  Ret (a, r).

(** One round over the variable arguments, the rest of which are [args]. *)
Definition pushl_step (st : strvec * list cstr) : outcome ((strvec * list cstr) + strvec) :=
  let '(a, args) := st in
  arg ← rd args 0;
  match arg with
  | Some s => '(a, _) ← strvec_push a s; Ret (inl (a, tail args))
  | None => Ret (inr a)
  end.

Definition strvec_pushl (a : strvec) (args : list cstr) : outcome strvec :=
  loop (S (length args)) pushl_step (a, args).

Definition pushv_step (items : list cstr) (st : strvec * Z) : outcome ((strvec * Z) + strvec) :=
  let '(a, i) := st in
  item ← rd items i;
  match item with
  | Some s => '(a, _) ← strvec_push a s; Ret (inl (a, i + 1))
  | None => Ret (inr a)
  end.

Definition strvec_pushv (a : strvec) (items : list cstr) : outcome strvec :=
  loop (S (length items)) (pushv_step items) (a, 0).

Definition strvec_splice (a : strvec) (idx len : Z) (replacement : list (list Z)) : outcome strvec :=
  let replacement_len := zlen replacement in
  if u64 (idx + len) >? sv_nr a then Err Bug else
  a ← (if replacement_len >? len then
         let a := sv_grow a (sv_nr a + (replacement_len - len) + 1) in
         sv_wr a (sv_nr a + (replacement_len - len)) None
       else Ret a);
  _ ← rd_range (sv_mem a) idx len;
  a ← (if negb (replacement_len =? len) && negb (sv_nr a =? 0)
       then sv_move a (idx + replacement_len) (idx + len) (sv_nr a - idx - len + 1)
       else Ret a);
  let a := sv_set_nr a (sv_nr a + (replacement_len - len)) in
  for_n (length replacement) 0 (fun i a => s ← rd replacement i; sv_wr a (idx + i) (Some s)) a.

Definition strvec_replace (a : strvec) (idx : Z) (replacement : list Z) : outcome (strvec * cstr) :=
  if idx >=? sv_nr a then Err Bug else
  _ ← rd (sv_mem a) idx;
  a ← sv_wr a idx (Some replacement);
  r ← rd (sv_mem a) idx;
  Ret (a, r).

Definition strvec_remove (a : strvec) (idx : Z) : outcome strvec :=
  if idx >=? sv_nr a then Err Bug else
  _ ← rd (sv_mem a) idx;
  a ← sv_move a idx (idx + 1) (sv_nr a - idx);
  Ret (sv_set_nr a (sv_nr a - 1)).

Definition strvec_pop (a : strvec) : outcome strvec :=
  if sv_nr a =? 0 then Ret a else
  _ ← rd (sv_mem a) (sv_nr a - 1);
  a ← sv_wr a (sv_nr a - 1) None;
  Ret (sv_set_nr a (sv_nr a - 1)).

(** [while (isspace(c)) p++], and the opposite; [p] is the rest of a string. *)
Definition skip_spaces (p : list Z) : outcome (list Z) :=
  loop (S (length p)) (fun p => Ret (if isspace (deref p) then inl (tail p) else inr p)) p.

Definition skip_word (p : list Z) : outcome (list Z) :=
  loop (S (length p)) (fun p => Ret (if negb (deref p =? 0) && negb (isspace (deref p)) then inl (tail p) else inr p)) p.

Definition split_word_step (st : strvec * list Z) : outcome ((strvec * list Z) + strvec) :=
  let '(a, to_split) := st in
  if deref to_split =? 0 then Ret (inr a) else
  p ← skip_word to_split;
  a ← strvec_push_nodup a (Some (take (length to_split - length p) to_split));
  p ← skip_spaces p;
  Ret (inl (a, p)).

Definition strvec_split (a : strvec) (to_split : list Z) : outcome strvec :=
  to_split ← skip_spaces to_split;
  loop (S (length to_split)) split_word_step (a, to_split).

Definition strvec_clear (a : strvec) : outcome strvec :=
  match sv_v a with
  | Some v => _ ← rd_range v 0 (sv_nr a); Ret strvec_init
  | None => Ret strvec_init
  end.

(** The detached array and what is left. *)
Definition strvec_detach (a : strvec) : list cstr * strvec :=
  match sv_v a with
  | None => ([None], a)
  | Some v => (v, strvec_init)
  end.
End model.

(** * Correctness *)

(** The strings of a vector: in memory they are followed by NULL. *)
Definition sv_rep (a : strvec) (l : list (list Z)) : Prop :=
  sv_nr a = zlen l /\
  match sv_v a with
  | None => l = [] /\ sv_alloc a = 0
  | Some v => filled v (zlen l + 1) ((Some <$> l) ++ [None]) /\ zlen v = sv_alloc a
  end.

Lemma sv_rep_init : sv_rep STRVEC_INIT [].
Proof. done. Qed.

Lemma zlen_some (l : list (list Z)) : zlen (Some <$> l : list cstr) = zlen l.
Proof. unfold zlen. by rewrite length_fmap. Qed.

(** What [sv_mem] holds of the strings and the NULL. *)
Lemma sv_rep_mem a l : sv_rep a l -> exists rest, sv_mem a = (Some <$> l) ++ None :: rest.
Proof.
  unfold sv_mem. intros [_ Hv]. destruct (sv_v a) as [v|].
  - destruct Hv as [[_ [rest ->]] _]. exists rest. same_list.
  - destruct Hv as [-> _]. by exists [].
Qed.

Section proofs.
Context `{GitCompatOk} `{CtypeOk} (junk : cstr).
Implicit Types (a : strvec) (l r : list (list Z)) (s : list Z).

(** Room for [n] pointers behind the array; it may not end in NULL. *)
Lemma sv_grow_spec a l n :
  sv_rep a l -> zlen l <= n ->
  exists v, sv_grow junk a n = Strvec (Some v) (zlen l) (alloc_grow n (sv_alloc a)) /\ filled v (zlen l) (Some <$> l) /\
    zlen v = alloc_grow n (sv_alloc a) /\ n <= zlen v /\ (zlen l < n -> l <> [] -> filled v (zlen l + 1) ((Some <$> l) ++ [None])).
Proof.
  intros [Hnr Hv] Hn. pose proof (alloc_grow_enough n (sv_alloc a)) as Henough. pose proof (zlen_nonneg l).
  unfold sv_grow. rewrite Hnr. eexists. split; [done|]. rewrite zlen_realloc by lia.
  assert (filled (match sv_v a with Some v => v | None => [] end) (zlen l) (Some <$> l)) as Hf.
  { destruct (sv_v a) as [v|]; [|destruct Hv as [-> _]; apply filled_nil]. rewrite <-zlen_some. by destruct Hv as [?%filled_prefix _]. }
  split; [apply filled_realloc; [done|lia]|]. split; [done|]. split; [done|]. intros Hlt Hne. destruct (sv_v a) as [v|]; [|by destruct Hv].
  apply filled_realloc; [by destruct Hv|lia].
Qed.

Lemma strvec_push_nodup_spec a l s :
  sv_rep a l -> exists a', strvec_push_nodup junk a (Some s) = Ret a' /\ sv_rep a' (l ++ [s]).
Proof.
  intros Hr. destruct (sv_grow_spec a l (sv_nr a + 2) Hr) as (v & Hg & Hf & Hz & Hn & _); [destruct Hr as [-> _]; lia|].
  unfold strvec_push_nodup. rewrite Hg. cbn [sv_wr sv_v sv_nr sv_alloc]. assert (sv_nr a = zlen l) as Hnr by apply Hr.
  destruct (filled_wr _ _ _ (Some s) Hf) as [-> Hf1]; [lia|]. run. cbn [sv_set_nr sv_wr sv_v sv_nr sv_alloc].
  assert (forall (v : list cstr) i x, zlen (<[i := x]> v) = zlen v) as Hins by (intros; unfold zlen; by rewrite length_insert).
  destruct (filled_wr _ _ _ None Hf1) as [-> Hf2]; [rewrite Hins; lia|]. run. eexists. split; [done|].
  split; cbn [sv_nr sv_v sv_alloc]; [same_len|]. rewrite !Hins, fmap_app. split; [|done].
  replace (zlen (l ++ [s]) + 1) with (zlen l + 1 + 1) by same_len. exact Hf2.
Qed.

Lemma strvec_push_spec a l s :
  sv_rep a l -> exists a', strvec_push junk a s = Ret (a', Some s) /\ sv_rep a' (l ++ [s]).
Proof.
  intros Hr. destruct (strvec_push_nodup_spec a l s Hr) as (a' & Hpush & Hr'). unfold strvec_push. rewrite Hpush. run.
  destruct (sv_rep_mem _ _ Hr') as [rest Hm]. assert (sv_nr a' = zlen (l ++ [s])) as -> by apply Hr'. rewrite fmap_app in Hm.
  rewrite (rd_at (Some <$> l) (Some s) (None :: rest)); [by eexists|rewrite Hm; same_list|rewrite zlen_some; same_len].
Qed.

(** Both callers with a NULL-terminated list of strings push them all. *)
Lemma strvec_pushl_spec a l r rest :
  sv_rep a l -> exists a', strvec_pushl junk a ((Some <$> r) ++ None :: rest) = Ret a' /\ sv_rep a' (l ++ r).
Proof.
  intros Hr. unfold strvec_pushl. assert (length r < S (length ((Some <$> r) ++ None :: rest)))%nat as Hfuel.
  { rewrite length_app, length_fmap. lia. }
  revert a l Hr Hfuel. generalize (S (length ((Some <$> r) ++ None :: rest))). induction r as [|s r IH]; intros fuel a l Hr Hfuel; (destruct fuel as [|fuel]; [lia|]).
  - exists a. rewrite app_nil_r. split; [|done]. by rewrite (loop_stop _ _ _ a).
  - destruct (strvec_push_spec a l s Hr) as (a1 & Hpush & Hr1). cbn [length] in Hfuel.
    destruct (IH fuel a1 (l ++ [s]) Hr1 ltac:(lia)) as (a2 & Hrun & Hr2). exists a2. rewrite <-(assoc app) in Hr2. split; [|exact Hr2].
    rewrite <-Hrun. apply loop_next. cbn [fmap list_fmap app pushl_step]. change (rd (Some s :: (Some <$> r) ++ None :: rest) 0) with (Ret (Some s)).
    run. by rewrite Hpush.
Qed.

Lemma strvec_pushv_spec a l r rest :
  sv_rep a l -> exists a', strvec_pushv junk a ((Some <$> r) ++ None :: rest) = Ret a' /\ sv_rep a' (l ++ r).
Proof.
  intros Hr. unfold strvec_pushv. set (items := (Some <$> r) ++ None :: rest). assert (length r < S (length items))%nat as Hfuel.
  { unfold items. rewrite length_app, length_fmap. lia. }
  assert (items = (Some <$> []) ++ (Some <$> r) ++ None :: rest) as Hi by done. change 0 with (zlen (@nil (list Z))).
  clearbody items. revert Hi Hfuel. generalize (S (length items)) (@nil (list Z)). revert a l Hr. induction r as [|s r IH]; intros a l Hr fuel p Hi Hfuel;
    (destruct fuel as [|fuel]; [lia|]).
  - exists a. rewrite app_nil_r. split; [|done]. rewrite (loop_stop _ _ _ a); [done|]. unfold pushv_step.
    rewrite (rd_at (Some <$> p) None rest); [done|done|by rewrite zlen_some].
  - destruct (strvec_push_spec a l s Hr) as (a1 & Hpush & Hr1). cbn [length] in Hfuel.
    destruct (IH a1 (l ++ [s]) Hr1 fuel (p ++ [s])) as (a2 & Hrun & Hr2); [rewrite Hi, fmap_app; same_list|lia|].
    exists a2. rewrite <-(assoc app) in Hr2. split; [|exact Hr2]. rewrite <-Hrun. apply loop_next. unfold pushv_step.
    rewrite (rd_at (Some <$> p) (Some s) ((Some <$> r) ++ None :: rest)); [|done|by rewrite zlen_some]. run. rewrite Hpush. run.
    do 3 f_equal. same_len.
Qed.

(** ** Removing and replacing *)

Lemma sv_move_spec (p x t rest : list cstr) nr alloc n :
  0 <= n -> zlen p + n + zlen t <= zlen (p ++ x ++ t ++ rest) ->
  exists y rest', sv_move (Strvec (Some (p ++ x ++ t ++ rest)) nr alloc) (zlen p + n) (zlen p + zlen x) (zlen t) =
      Ret (Strvec (Some (p ++ y ++ t ++ rest')) nr alloc) /\
    zlen y = n /\ zlen (p ++ y ++ t ++ rest') = zlen (p ++ x ++ t ++ rest).
Proof.
  intros Hn Hle. set (v := p ++ x ++ t ++ rest) in *. pose proof (zlen_nonneg p). pose proof (zlen_nonneg t).
  assert (at_pos v (zlen p + zlen x) (t ++ rest)) as Hat.
  { assert (v = (p ++ x) ++ t ++ rest) as -> by (unfold v; same_list). replace (zlen p + zlen x) with (zlen (p ++ x)) by same_len. apply at_pos_pre. }
  destruct (at_pos_app _ _ _ _ Hat) as [Hrd _]. unfold sv_move. cbn [sv_v sv_nr sv_alloc]. rewrite Hrd. run.
  rewrite wr_range_in by lia. run. exists (drop (length p) (take (Z.to_nat (zlen p + n)) v)), (drop (Z.to_nat (zlen p + n + zlen t)) v).
  assert (take (Z.to_nat (zlen p + n)) v = p ++ drop (length p) (take (Z.to_nat (zlen p + n)) v)) as Htake.
  { rewrite <-(take_drop (length p) (take _ v)) at 1. f_equal. rewrite take_take, Nat.min_l by (unfold zlen; lia). unfold v. by rewrite take_app_length. }
  split; [rewrite Htake at 1; by rewrite <-(assoc app)|]. clearbody v. split; unfold zlen in *;
    rewrite ?length_app, ?length_drop, ?length_take; lia.
Qed.

Lemma strvec_remove_spec a p s r :
  sv_rep a (p ++ s :: r) -> exists a', strvec_remove a (zlen p) = Ret a' /\ sv_rep a' (p ++ r).
Proof.
  intros [Hnr Hv]. unfold strvec_remove. rewrite Hnr. pose proof (zlen_nonneg r). pose proof (zlen_nonneg p).
  rewrite Z.geb_leb, (proj2 (Z.leb_gt (zlen (p ++ s :: r)) (zlen p))) by same_len. destruct a as [[v|] nr alloc]; cbn [sv_v sv_nr sv_alloc sv_mem] in *;
    [|destruct Hv as [Hv _]; by destruct p]. destruct Hv as [[_ [rest Hv]] Hz].
  assert (v = (Some <$> p) ++ [Some s] ++ ((Some <$> r) ++ [None]) ++ rest) as -> by (rewrite Hv, fmap_app; same_list).
  rewrite (rd_at (Some <$> p) (Some s) (((Some <$> r) ++ [None]) ++ rest)) by (same_list || by rewrite zlen_some). run.
  destruct (sv_move_spec (Some <$> p) [Some s] ((Some <$> r) ++ [None]) rest nr alloc 0) as (y & rest' & Hmv & Hy & Hlen);
    [done|rewrite !zlen_app, !zlen_some, !zlen_cons, !zlen_nil; pose proof (zlen_nonneg rest); lia|].
  rewrite zlen_some, zlen_app, zlen_some in Hmv. change (zlen [Some s]) with 1 in Hmv. change (zlen [@None (list Z)]) with 1 in Hmv.
  replace (zlen (p ++ s :: r) - zlen p) with (zlen r + 1) by same_len. rewrite Z.add_0_r in Hmv. rewrite Hmv. run.
  assert (y = []) as -> by (apply length_zero_iff_nil; unfold zlen in Hy; lia). eexists. split; [done|].
  unfold sv_rep, sv_set_nr. cbn [sv_v sv_nr sv_alloc]. split; [rewrite Hnr; same_len|]. split; [|by rewrite Hlen].
  split; [rewrite zlen_app, zlen_some; done|]. exists rest'. rewrite fmap_app. same_list.
Qed.

Lemma strvec_replace_spec a p s r s' :
  sv_rep a (p ++ s :: r) -> exists a', strvec_replace a (zlen p) s' = Ret (a', Some s') /\ sv_rep a' (p ++ s' :: r).
Proof.
  intros [Hnr Hv]. unfold strvec_replace. rewrite Hnr. pose proof (zlen_nonneg r). pose proof (zlen_nonneg p).
  rewrite Z.geb_leb, (proj2 (Z.leb_gt (zlen (p ++ s :: r)) (zlen p))) by same_len. destruct a as [[v|] nr alloc]; cbn [sv_v sv_nr sv_alloc sv_mem sv_wr] in *;
    [|destruct Hv as [Hv _]; by destruct p]. destruct Hv as [[_ [rest Hv]] Hz].
  assert (v = (Some <$> p) ++ Some s :: (Some <$> r) ++ None :: rest) as -> by (rewrite Hv, fmap_app; same_list).
  rewrite (rd_at (Some <$> p) (Some s) ((Some <$> r) ++ None :: rest)) by (done || by rewrite zlen_some). run.
  rewrite (wr_at (Some <$> p) (Some s) ((Some <$> r) ++ None :: rest)) by (done || by rewrite zlen_some). run. cbn [sv_v].
  rewrite (rd_at (Some <$> p) (Some s') ((Some <$> r) ++ None :: rest)) by (done || by rewrite zlen_some). run.
  eexists. split; [done|]. unfold sv_rep. cbn [sv_v sv_nr sv_alloc]. split; [rewrite Hnr; same_len|]. split; [|rewrite <-Hz; same_len].
  split; [rewrite zlen_app, zlen_some; done|]. exists rest. rewrite fmap_app. same_list.
Qed.

Lemma strvec_pop_spec a l s :
  sv_rep a (l ++ [s]) -> exists a', strvec_pop a = Ret a' /\ sv_rep a' l.
Proof.
  intros [Hnr Hv]. unfold strvec_pop. pose proof (zlen_nonneg l). rewrite Hnr. rewrite (proj2 (Z.eqb_neq (zlen (l ++ [s])) 0)) by same_len.
  destruct a as [[v|] nr alloc]; cbn [sv_v sv_nr sv_alloc sv_mem sv_wr] in *; [|destruct Hv as [Hv _]; by destruct l].
  destruct Hv as [[_ [rest Hv]] Hz]. assert (v = (Some <$> l) ++ Some s :: None :: rest) as -> by (rewrite Hv, fmap_app; same_list).
  replace (zlen (l ++ [s]) - 1) with (zlen l) by same_len.
  rewrite (rd_at (Some <$> l) (Some s) (None :: rest)) by (done || by rewrite zlen_some). run.
  rewrite (wr_at (Some <$> l) (Some s) (None :: rest)) by (done || by rewrite zlen_some). run. eexists. split; [done|].
  unfold sv_rep, sv_set_nr. cbn [sv_v sv_nr sv_alloc]. rewrite Hnr. split; [same_len|]. split; [|rewrite <-Hz; same_len].
  split; [rewrite zlen_app, zlen_some; done|]. exists (None :: rest). same_list.
Qed.

(** ** Splicing *)

(** Filling a gap with new strings. *)
Lemma fill_gap (r : list (list Z)) : forall (p : list cstr) (q x t : list cstr) (r0 : list (list Z)) nr alloc,
  zlen x = zlen r -> q = p ++ (Some <$> r0) ->
  for_n (length r) (zlen r0) (fun i a => s ← rd (r0 ++ r) i; sv_wr a (zlen p + i) (Some s)) (Strvec (Some (q ++ x ++ t)) nr alloc) =
  Ret (Strvec (Some (q ++ (Some <$> r) ++ t)) nr alloc).
Proof.
  induction r as [|s r IH]; intros p q x t r0 nr alloc Hx Hq.
  - destruct x as [|c x]; [done|rewrite zlen_cons in Hx; pose proof (zlen_nonneg x); change (zlen (@nil (list Z))) with 0 in Hx; lia].
  - destruct x as [|c x]; [rewrite zlen_cons in Hx; pose proof (zlen_nonneg r); change (zlen (@nil cstr)) with 0 in Hx; lia|].
    cbn [length]. rewrite (for_n_next _ _ _ _ (Strvec (Some ((q ++ [Some s]) ++ x ++ t)) nr alloc)).
    + rewrite !zlen_cons in Hx. specialize (IH p (q ++ [Some s]) x t (r0 ++ [s]) nr alloc ltac:(lia)).
      replace (zlen r0 + 1) with (zlen (r0 ++ [s])) by same_len. assert (r0 ++ s :: r = (r0 ++ [s]) ++ r) as -> by same_list.
      rewrite IH by (rewrite Hq, fmap_app; same_list). do 3 f_equal. cbn [fmap list_fmap]. same_list.
    + rewrite (rd_at r0 s r) by done. run. unfold sv_wr. cbn [sv_v sv_nr sv_alloc].
      rewrite (wr_at q c (x ++ t)) by (done || (rewrite Hq; rewrite zlen_app, zlen_some; done)). run. do 3 f_equal. same_list.
Qed.

Lemma filled_wr_after {A} (out : list A) pos (ks : list A) i x :
  filled out pos ks -> pos <= i < zlen out -> exists out', wr out i x = Ret out' /\ zlen out' = zlen out /\ filled out' pos ks.
Proof.
  intros [<- [rest ->]] Hi. pose proof (zlen_nonneg ks). rewrite wr_in by lia. eexists. split; [done|].
  split; [unfold zlen; by rewrite length_insert|]. split; [done|]. rewrite insert_app_r_alt by (unfold zlen in Hi; lia). by eexists.
Qed.

(** The states between the steps of a splice: [p ++ m ++ t] with room for [n]
    pointers, then a gap between [p] and [t]. *)
Lemma splice_room a p m t (n : Z) :
  sv_rep a (p ++ m ++ t) -> 0 <= n -> p ++ m ++ t <> [] ->
  exists v alloc,
    (if n >? zlen m then
       let a := sv_grow junk a (sv_nr a + (n - zlen m) + 1) in sv_wr a (sv_nr a + (n - zlen m)) None
     else Ret a) = Ret (Strvec (Some v) (zlen (p ++ m ++ t)) alloc) /\
    filled v (zlen (p ++ m ++ t) + 1) ((Some <$> (p ++ m ++ t)) ++ [None]) /\ zlen v = alloc /\
    zlen p + n + zlen t + 1 <= zlen v.
Proof.
  intros Hr Hn Hne. assert (sv_nr a = zlen (p ++ m ++ t)) as Hnr by apply Hr. pose proof (zlen_nonneg m).
  assert (zlen (p ++ m ++ t) = zlen p + zlen m + zlen t) as Hlen by same_len. rewrite Z.gtb_ltb. destruct (Z.ltb_spec (zlen m) n) as [Hlt|Hge].
  - destruct (sv_grow_spec a _ (sv_nr a + (n - zlen m) + 1) Hr) as (v & Hg & _ & Hz & Henough & Hf); [lia|].
    cbv zeta. rewrite Hg. cbn [sv_nr sv_wr sv_v sv_alloc].
    destruct (filled_wr_after v _ _ (zlen (p ++ m ++ t) + (n - zlen m)) None (Hf ltac:(lia) Hne)) as (v' & -> & Hz' & Hf'); [lia|].
    run. exists v', (alloc_grow (sv_nr a + (n - zlen m) + 1) (sv_alloc a)). split; [done|]. split; [done|]. split; [congruence|lia].
  - destruct a as [[v|] nr alloc]; cbn [sv_nr sv_v sv_alloc] in *; [|destruct Hr as [_ [Hr _]]; done]. destruct Hr as [_ [Hf Hz]]. cbn [sv_v sv_alloc] in *.
    exists v, alloc. subst nr. pose proof (filled_le _ _ _ Hf). split; [done|]. split; [done|]. split; [done|lia].
Qed.

Lemma splice_gap p m t rest nr alloc (n : Z) :
  0 <= n -> nr = zlen (p ++ m ++ t) -> nr <> 0 ->
  zlen p + n + zlen t + 1 <= zlen ((Some <$> (p ++ m ++ t)) ++ None :: rest) ->
  let a := Strvec (Some ((Some <$> (p ++ m ++ t)) ++ None :: rest)) nr alloc in
  exists x rest',
    (if negb (n =? zlen m) && negb (nr =? 0) then sv_move a (zlen p + n) (zlen p + zlen m) (nr - zlen p - zlen m + 1) else Ret a) =
      Ret (Strvec (Some ((Some <$> p) ++ x ++ (Some <$> t) ++ None :: rest')) nr alloc) /\ zlen x = n /\
    zlen ((Some <$> p) ++ x ++ (Some <$> t) ++ None :: rest') = zlen ((Some <$> (p ++ m ++ t)) ++ None :: rest).
Proof.
  intros Hn Hnr Hne Hle a. rewrite (proj2 (Z.eqb_neq nr 0) Hne). cbn [negb]. rewrite andb_true_r.
  assert ((Some <$> (p ++ m ++ t)) ++ None :: rest = (Some <$> p) ++ (Some <$> m) ++ ((Some <$> t) ++ [None]) ++ rest) as Hv by (rewrite !fmap_app; same_list).
  unfold a. rewrite Hv in *. destruct (Z.eqb_spec n (zlen m)) as [->|Hnm]; cbn [negb].
  - exists (Some <$> m), rest. split; [do 3 f_equal; same_list|]. split; [apply zlen_some|]. same_len.
  - destruct (sv_move_spec (Some <$> p) (Some <$> m) ((Some <$> t) ++ [None]) rest nr alloc n) as (x & rest' & Hmv & Hx & Hlen); [done| |].
    { rewrite zlen_some, (zlen_app (Some <$> t)), zlen_some. change (zlen [@None (list Z)]) with 1. lia. }
    exists x, rest'. rewrite !zlen_some, (zlen_app (Some <$> t)), zlen_some in Hmv. change (zlen [@None (list Z)]) with 1 in Hmv.
    replace (nr - zlen p - zlen m + 1) with (zlen t + 1) by (rewrite Hnr; same_len). rewrite Hmv.
    split; [do 3 f_equal; same_list|]. split; [done|]. rewrite <-Hlen. f_equal. same_list.
Qed.

(** The last steps, once the gap is open. *)
Lemma splice_fill p x t r rest nr alloc :
  zlen x = zlen r ->
  exists a',
    for_n (length r) 0 (fun i a => s ← rd r i; sv_wr a (zlen p + i) (Some s))
      (Strvec (Some ((Some <$> p) ++ x ++ (Some <$> t) ++ None :: rest)) nr alloc) = Ret a' /\
    (nr = zlen (p ++ r ++ t) -> zlen ((Some <$> p) ++ x ++ (Some <$> t) ++ None :: rest) = alloc -> sv_rep a' (p ++ r ++ t)).
Proof.
  intros Hx. pose proof (fill_gap r (Some <$> p) (Some <$> p) x ((Some <$> t) ++ None :: rest) [] nr alloc Hx) as Hfill.
  cbn [app fmap list_fmap] in Hfill. rewrite app_nil_r in Hfill. specialize (Hfill eq_refl). rewrite zlen_some in Hfill.
  change (zlen (@nil (list Z))) with 0 in Hfill. rewrite Hfill. eexists. split; [done|]. intros Hnr Hz. split; [done|]. cbn [sv_v sv_alloc].
  split; [split; [rewrite zlen_app, zlen_some; done|exists rest; rewrite !fmap_app; same_list]|]. rewrite <-Hz.
  rewrite !zlen_app, Hx, !zlen_some. done.
Qed.

(** An empty vector has nothing to move. *)
Lemma strvec_splice_empty a r :
  sv_rep a [] -> exists a', strvec_splice junk a 0 0 r = Ret a' /\ sv_rep a' r.
Proof.
  intros Hr. assert (sv_nr a = 0) as Hnr by apply Hr. pose proof (zlen_nonneg r). unfold strvec_splice. rewrite Hnr.
  change (u64 (0 + 0) >? 0) with false. cbv iota zeta. rewrite Z.gtb_ltb.
  destruct (Z.ltb_spec 0 (zlen r)) as [Hlt|Hge].
  - destruct (sv_grow_spec a [] (0 + (zlen r - 0) + 1) Hr) as (v & -> & _ & Hz & Henough & _); [rewrite zlen_nil; lia|].
    cbn [sv_wr sv_v sv_nr sv_alloc]. rewrite zlen_nil. destruct (lookup_lt_is_Some_2 v (Z.to_nat (zlen r))) as [c Hc]; [unfold zlen in *; lia|].
    pose proof (take_drop_middle _ _ _ Hc) as Hv. set (x := take _ v) in *. set (rest := drop _ v) in *.
    assert (zlen x = zlen r) as Hx by (unfold x, zlen in *; rewrite length_take; lia). rewrite <-Hv. rewrite (wr_at x c rest) by (done || lia). run.
    cbn [sv_mem sv_v sv_nr]. rewrite rd_range_in by (done || (rewrite zlen_app, zlen_cons; pose proof (zlen_nonneg rest); lia)). run.
    change (negb (0 =? 0)) with false. rewrite andb_false_r. run. unfold sv_set_nr. cbn [sv_v sv_nr sv_alloc].
    destruct (splice_fill [] x [] r rest (0 + (zlen r - 0)) (alloc_grow (0 + (zlen r - 0) + 1) (sv_alloc a)) Hx) as (a' & Hrun & Hr').
    cbn [fmap list_fmap app] in Hrun, Hr'. rewrite app_nil_r in Hr'. exists a'. split; [exact Hrun|]. apply Hr'; [lia|].
    rewrite <-Hz, <-Hv. same_len.
  - assert (r = []) as -> by (destruct r as [|s r]; [done|rewrite zlen_cons in Hge; pose proof (zlen_nonneg r); lia]). cbn [zlen length for_n]. run.
    rewrite rd_range_in; [|done|done|apply zlen_nonneg]. run. rewrite Hnr. change (negb (0 =? 0)) with false. rewrite andb_false_r. run. eexists. split; [done|].
    destruct a. cbn [sv_set_nr sv_nr sv_v sv_alloc] in *. subst. exact Hr.
Qed.

Lemma strvec_splice_spec a p m t r :
  sv_rep a (p ++ m ++ t) -> zlen p + zlen m < 2 ^ 64 ->
  exists a', strvec_splice junk a (zlen p) (zlen m) r = Ret a' /\ sv_rep a' (p ++ r ++ t).
Proof.
  intros Hr Hb. destruct (decide (p ++ m ++ t = [])) as [Hnil|Hne].
  { apply app_nil in Hnil as [-> Hnil]. apply app_nil in Hnil as [-> ->]. rewrite app_nil_r. by apply strvec_splice_empty. }
  assert (sv_nr a = zlen (p ++ m ++ t)) as Hnr by apply Hr. assert (zlen (p ++ m ++ t) = zlen p + zlen m + zlen t) as Hlen by same_len.
  pose proof (zlen_nonneg p). pose proof (zlen_nonneg m). pose proof (zlen_nonneg t). pose proof (zlen_nonneg r).
  assert (zlen (p ++ m ++ t) <> 0) as Hpos by (unfold zlen; intros Hl; apply Hne, length_zero_iff_nil; lia).
  unfold strvec_splice. rewrite (u64_small (zlen p + zlen m)), Z.gtb_ltb, (proj2 (Z.ltb_ge _ _)) by lia.
  destruct (splice_room a p m t (zlen r) Hr ltac:(lia) Hne) as (v & alloc & Hroom & Hf & Hz & Hle). cbv zeta in Hroom |- *. rewrite Hroom. run.
  destruct Hf as [_ [rest Hv]]. assert (v = (Some <$> (p ++ m ++ t)) ++ None :: rest) as -> by (rewrite Hv; same_list).
  cbn [sv_mem sv_v sv_nr sv_alloc]. pose proof (zlen_nonneg rest).
  rewrite rd_range_in by (done || (rewrite zlen_app, zlen_some, zlen_cons; lia)). run.
  destruct (splice_gap p m t rest (zlen (p ++ m ++ t)) alloc (zlen r) ltac:(lia) eq_refl Hpos Hle) as (x & rest' & -> & Hx & Hl). run.
  unfold sv_set_nr. cbn [sv_v sv_nr sv_alloc].
  destruct (splice_fill p x t r rest' (zlen (p ++ m ++ t) + (zlen r - zlen m)) alloc Hx) as (a' & Hrun & Hr').
  exists a'. split; [exact Hrun|]. apply Hr'; [same_len|congruence].
Qed.

(** ** Splitting at white space *)

Lemma isspace_0 : isspace 0 = false.
Proof. by rewrite isspace_spec. Qed.

(** [loop] over a string while a test that fails at its end holds. *)
Lemma skip_while (f : Z -> bool) (s : list Z) : f 0 = false -> forall fuel, (length s < fuel)%nat ->
  exists p q, s = p ++ q /\ Forall (fun c => f c = true) p /\ f (deref q) = false /\
    loop fuel (fun p => Ret (if f (deref p) then inl (tail p) else inr p)) s = Ret q.
Proof.
  intros Hf. induction s as [|c s IH]; intros [|fuel] Hfuel; cbn [length] in Hfuel; try lia.
  - exists [], []. repeat split; [constructor|done|]. apply loop_stop. cbn [deref]. by rewrite Hf.
  - destruct (f c) eqn:E.
    + destruct (IH fuel) as (p & q & -> & Hp & Hq & Hrun); [lia|]. exists (c :: p), q. split; [done|]. split; [by constructor|]. split; [done|].
      rewrite <-Hrun. apply loop_next. cbn [deref tail]. by rewrite E.
    + exists [], (c :: s). repeat split; [constructor|done|]. apply loop_stop. cbn [deref]. by rewrite E.
Qed.

(** The words of a text: the maximal parts without white space; [w] is the
    beginning of the first. *)
Fixpoint words (w s : list Z) {struct s} : list (list Z) :=
  match s with
  | [] => match w with [] => [] | _ => [w] end
  | c :: s =>
      if isspace c then match w with [] => words [] s | _ => w :: words [] s end
      else words (w ++ [c]) s
  end.

Lemma words_spaces p q : Forall (fun c => isspace c = true) p -> words [] (p ++ q) = words [] q.
Proof. induction 1 as [|c p Hc _ IH]; [done|]. cbn [app words]. by rewrite Hc. Qed.

Lemma words_word w p q : Forall (fun c => isspace c = false) p -> words w (p ++ q) = words (w ++ p) q.
Proof.
  intros Hp. revert w. induction Hp as [|c p Hc _ IH]; intros w; [by rewrite app_nil_r|]. cbn [app words]. rewrite Hc, IH. f_equal. same_list.
Qed.

Lemma words_end w q : w <> [] -> q = [] \/ isspace (deref q) = true -> words w q = w :: words [] q.
Proof. destruct w as [|x w]; [done|]. intros _ [->|Hq]; [done|]. destruct q as [|c q]; [done|]. cbn [deref] in Hq. cbn [words]. by rewrite Hq. Qed.

Lemma split_words_loop fuel : forall a l s,
  (length s < fuel)%nat -> sv_rep a l -> no_nul s -> (s = [] \/ isspace (deref s) = false) ->
  exists a', loop fuel (split_word_step junk) (a, s) = Ret a' /\ sv_rep a' (l ++ words [] s).
Proof.
  induction fuel as [|fuel IH]; intros a l s Hfuel Hr Hs Hhd; [lia|]. destruct s as [|c s].
  { exists a. rewrite app_nil_r. split; [|done]. by rewrite (loop_stop _ _ _ a). }
  destruct Hhd as [|Hhd]; [done|]. cbn [deref] in Hhd.
  destruct (skip_while (fun c => negb (c =? 0) && negb (isspace c)) (c :: s) eq_refl (S (length (c :: s)))) as (w & q & Hwq & Hw & Hq & Hskip); [lia|].
  assert (c <> 0) as Hc0 by (by apply Forall_cons_iff in Hs as [? _]).
  destruct w as [|c' w]. { cbn in Hwq. rewrite <-Hwq in Hq. cbn in Hq. rewrite Hhd, (proj2 (Z.eqb_neq c 0)) in Hq by done. done. }
  destruct (skip_while isspace q isspace_0 (S (length q))) as (sp & t & -> & Hsp & Ht & Hskip2); [lia|].
  destruct (strvec_push_nodup_spec a l (c' :: w) Hr) as (a1 & Hpush & Hr1).
  assert (Forall (fun c => isspace c = false) (c' :: w)) as Hns.
  { eapply Forall_impl; [exact Hw|]. intros x Hx. apply andb_true_iff in Hx as [_ Hx]. by apply negb_true_iff in Hx. }
  assert (no_nul (sp ++ t)) as Hst by (rewrite Hwq in Hs; by apply Forall_app in Hs as [_ ?]).
  destruct (IH a1 (l ++ [c' :: w]) t) as (a2 & Hrun & Hr2); [|done|by apply Forall_app in Hst as [_ ?]|right; exact Ht|].
  { apply (f_equal length) in Hwq. rewrite !length_app in Hwq. cbn [length] in *. lia. }
  exists a2. split.
  - rewrite <-Hrun. apply loop_next. unfold split_word_step. cbn [deref]. rewrite (proj2 (Z.eqb_neq c 0)) by done.
    unfold skip_word. rewrite Hskip. run.
    assert (take (length (c :: s) - length (sp ++ t)) (c :: s) = c' :: w) as ->.
    { rewrite Hwq, (length_app (c' :: w)). replace (length (c' :: w) + length (sp ++ t) - length (sp ++ t))%nat with (length (c' :: w)) by lia.
      apply take_app_length. }
    rewrite Hpush. run. unfold skip_spaces. rewrite Hskip2. done.
  - rewrite <-(assoc app) in Hr2. rewrite Hwq, words_word by done. rewrite words_end; [|done|].
    + by rewrite words_spaces.
    + destruct (sp ++ t) as [|d q'] eqn:E; [by left|right]. cbn [deref] in Hq |- *. apply Forall_cons_iff in Hst as [Hd _].
      rewrite (proj2 (Z.eqb_neq d 0)) in Hq by done. by apply negb_false_iff in Hq.
Qed.

Lemma strvec_split_spec a l s :
  sv_rep a l -> no_nul s -> exists a', strvec_split junk a s = Ret a' /\ sv_rep a' (l ++ words [] s).
Proof.
  intros Hr Hs. unfold strvec_split, skip_spaces.
  destruct (skip_while isspace s isspace_0 (S (length s))) as (sp & t & -> & Hsp & Ht & ->); [lia|]. run. rewrite words_spaces by done.
  apply split_words_loop; [lia|done|by apply Forall_app in Hs as [_ ?]|by right].
Qed.
End proofs.

(** ** A vector refines a list of strings *)

Inductive sv_op :=
| Push (s : list Z)
| Pushl (ss : list (list Z))
| Pushv (ss : list (list Z))
| Splice (idx len : Z) (ss : list (list Z))
| Replace (idx : Z) (s : list Z)
| RemoveAt (idx : Z)
| Pop
| SplitWords (s : list Z)
| Clear.

(** [size_t] arguments that do not wrap around, and strings without NUL. *)
Definition sv_op_ok (op : sv_op) : Prop :=
  match op with
  | Splice idx len _ => 0 <= idx /\ 0 <= len /\ idx + len < 2 ^ 64
  | Replace idx _ | RemoveAt idx => 0 <= idx
  | SplitWords s => no_nul s
  | _ => True
  end.

#[export] Instance sv_op_ok_dec op : Decision (sv_op_ok op).
Proof. destruct op; cbn; apply _. Defined.

Section refine.
Context `{GitCompat} `{Ctype} (junk : cstr).

Definition sv_step (a : strvec) (op : sv_op) : outcome strvec :=
  match op with
  | Push s => '(a, _) ← strvec_push junk a s; Ret a
  | Pushl ss => strvec_pushl junk a ((Some <$> ss) ++ [None])
  | Pushv ss => strvec_pushv junk a ((Some <$> ss) ++ [None])
  | Splice idx len ss => strvec_splice junk a idx len ss
  | Replace idx s => '(a, _) ← strvec_replace a idx s; Ret a
  | RemoveAt idx => strvec_remove a idx
  | Pop => strvec_pop a
  | SplitWords s => strvec_split junk a s
  | Clear => strvec_clear a
  end.

(** The same on a list: the call dies on an index outside of the list. *)
Definition words_step (l : list (list Z)) (op : sv_op) : outcome (list (list Z)) :=
  match op with
  | Push s => Ret (l ++ [s])
  | Pushl ss | Pushv ss => Ret (l ++ ss)
  | Splice idx len ss =>
      if zlen l <? idx + len then Err Bug else Ret (take (Z.to_nat idx) l ++ ss ++ drop (Z.to_nat (idx + len)) l)
  | Replace idx s => if zlen l <=? idx then Err Bug else Ret (<[Z.to_nat idx := s]> l)
  | RemoveAt idx => if zlen l <=? idx then Err Bug else Ret (delete (Z.to_nat idx) l)
  | Pop => Ret (take (length l - 1) l)
  | SplitWords s => Ret (l ++ words [] s)
  | Clear => Ret []
  end.

Fixpoint steps {S} (step : S -> sv_op -> outcome S) (s : S) (ops : list sv_op) : outcome S :=
  match ops with
  | [] => Ret s
  | op :: ops => s ← step s op; steps step s ops
  end.
End refine.

Section refine_proofs.
Context `{GitCompatOk} `{CtypeOk} (junk : cstr).

Lemma split_at_index (l : list (list Z)) idx :
  0 <= idx < zlen l -> exists p s r, l = p ++ s :: r /\ zlen p = idx /\ Z.to_nat idx = length p.
Proof.
  intros Hi. destruct (lookup_lt_is_Some_2 l (Z.to_nat idx)) as [s Hs]; [unfold zlen in *; lia|].
  exists (take (Z.to_nat idx) l), s, (drop (S (Z.to_nat idx)) l). rewrite take_drop_middle by done. unfold zlen in *. rewrite length_take. split; [done|lia].
Qed.

(** What a list operation and an operation on a vector do alike. *)
Definition agree (r : outcome (list (list Z))) (r' : outcome strvec) : Prop :=
  match r with
  | Ret l => exists a, r' = Ret a /\ sv_rep a l
  | Err e => r' = Err e
  | Undef => False
  end.

Lemma splice_agrees a l idx len ss :
  sv_rep a l -> 0 <= idx -> 0 <= len -> idx + len < 2 ^ 64 -> agree (words_step l (Splice idx len ss)) (strvec_splice junk a idx len ss).
Proof.
  intros Hr Hi Hl Hb. cbn [words_step]. pose proof (zlen_nonneg l). destruct (Z.ltb_spec (zlen l) (idx + len)) as [Hlt|Hge]; cbn [agree].
  - unfold strvec_splice. assert (sv_nr a = zlen l) as -> by apply Hr. rewrite u64_small by lia. by rewrite Z.gtb_ltb, (proj2 (Z.ltb_lt _ _) Hlt).
  - set (p := take (Z.to_nat idx) l). set (m := take (Z.to_nat len) (drop (Z.to_nat idx) l)). set (t := drop (Z.to_nat (idx + len)) l).
    assert (l = p ++ m ++ t) as Hpmt.
    { unfold p, m, t. replace (Z.to_nat (idx + len)) with (Z.to_nat idx + Z.to_nat len)%nat by lia. by rewrite <-drop_drop, !take_drop. }
    assert (zlen p = idx) as Hp by (unfold p, zlen in *; rewrite length_take; lia).
    assert (zlen m = len) as Hm by (unfold m, zlen in *; rewrite length_take, length_drop; lia).
    rewrite Hpmt in Hr. destruct (strvec_splice_spec junk a p m t ss Hr) as (a' & Hrun & Hr'); [lia|]. rewrite Hp, Hm in Hrun. by exists a'.
Qed.

Lemma sv_step_agrees a l op : sv_rep a l -> sv_op_ok op -> agree (words_step l op) (sv_step junk a op).
Proof.
  intros Hr Hop. assert (sv_nr a = zlen l) as Hnr by apply Hr. destruct op as [s|ss|ss|idx len ss|idx s|idx| |s|]; cbn [sv_step sv_op_ok] in *.
  - destruct (strvec_push_spec junk a l s Hr) as (a' & -> & Hr'). by exists a'.
  - by apply strvec_pushl_spec.
  - by apply strvec_pushv_spec.
  - destruct Hop as (? & ? & ?). by apply splice_agrees.
  - cbn [words_step]. destruct (Z.leb_spec (zlen l) idx) as [Hle|Hlt]; cbn [agree].
    + unfold strvec_replace. by rewrite Hnr, Z.geb_leb, (proj2 (Z.leb_le _ _) Hle).
    + destruct (split_at_index l idx) as (p & s0 & r & -> & <- & ->); [lia|]. destruct (strvec_replace_spec a p s0 r s Hr) as (a' & -> & Hr').
      exists a'. split; [done|]. by rewrite insert_app_r_alt, Nat.sub_diag by lia.
  - cbn [words_step]. destruct (Z.leb_spec (zlen l) idx) as [Hle|Hlt]; cbn [agree].
    + unfold strvec_remove. by rewrite Hnr, Z.geb_leb, (proj2 (Z.leb_le _ _) Hle).
    + destruct (split_at_index l idx) as (p & s0 & r & -> & <- & ->); [lia|]. destruct (strvec_remove_spec a p s0 r Hr) as (a' & -> & Hr').
      exists a'. split; [done|]. by rewrite delete_middle.
  - cbn [words_step agree]. destruct l as [|s l' _] using rev_ind.
    + exists a. unfold strvec_pop. by rewrite Hnr.
    + destruct (strvec_pop_spec a l' s Hr) as (a' & -> & Hr'). exists a'. rewrite length_app. cbn [length].
      replace (length l' + 1 - 1)%nat with (length l') by lia. by rewrite take_app_length.
  - by apply strvec_split_spec.
  - exists STRVEC_INIT. split; [|done]. unfold strvec_clear. destruct a as [[v|] nr alloc]; [|done]. cbn [sv_v sv_nr] in *.
    destruct Hr as [_ [Hf _]]. pose proof (filled_le _ _ _ Hf). pose proof (zlen_nonneg l). by rewrite rd_range_in by lia.
Qed.

Lemma sv_steps_agree ops : forall a l, sv_rep a l -> Forall sv_op_ok ops -> agree (steps words_step l ops) (steps (sv_step junk) a ops).
Proof.
  induction ops as [|op ops IH]; intros a l Hr Hok; [by exists a|]. apply Forall_cons_iff in Hok as [Hop Hok]. cbn [steps].
  pose proof (sv_step_agrees a l op Hr Hop) as Hag. destruct (words_step l op) as [l1|e|]; cbn [agree] in Hag; [|by rewrite Hag|done].
  destruct Hag as (a1 & -> & Hr1). run. by apply IH.
Qed.
End refine_proofs.

(** [C24]: a sequence of operations on a fresh vector -- pushing one or many
    strings, splicing, replacing, removing, popping, splitting at white space,
    clearing -- does to it what it does to a list of strings, and dies exactly
    where the list operation has an index outside of the list.  What [detach]
    then hands out is the list followed by NULL. *)
Theorem strvec_refines_list `{GitCompatOk} `{CtypeOk} (junk : cstr) (ops : list sv_op) :
  Forall sv_op_ok ops ->
  match steps words_step [] ops with
  | Ret l =>
      exists a, steps (sv_step junk) strvec_init ops = Ret a /\ sv_rep a l /\
        (exists rest, (strvec_detach a).1 = (Some <$> l) ++ None :: rest) /\ sv_rep (strvec_detach a).2 []
  | r => steps (sv_step junk) strvec_init ops = Err Bug /\ r = Err Bug
  end.
Proof.
  intros Hok. pose proof (sv_steps_agree junk ops STRVEC_INIT [] sv_rep_init Hok) as Hag.
  assert (forall l, steps words_step l ops = Err Bug \/ exists l', steps words_step l ops = Ret l') as Herr.
  { clear. induction ops as [|op ops IH]; intros l; cbn [steps]; [by right; exists l|].
    destruct op; cbn [words_step]; try case_match; run; auto. }
  destruct (Herr []) as [E|[l E]]; rewrite E in Hag |- *; cbn [agree] in Hag; [done|]. destruct Hag as (a & Hrun & Hr).
  exists a. split; [exact Hrun|]. split; [done|]. destruct (sv_rep_mem a l Hr) as [rest Hm]. unfold strvec_detach, sv_mem in *.
  destruct (sv_v a) eqn:Ev; cbn [fst snd]; [split; [by exists rest|done]|].
  assert (l = []) as -> by (destruct Hr as [_ Hv]; rewrite Ev in Hv; by destruct Hv). split; [by exists []|done].
Qed.

Lemma strvec_refines_list_witness :
  let ops := [SplitWords [32; 97; 98; 9; 99]; Pushv [[100]; [101]]; Splice 1 2 [[120]; [121]; [122]]; RemoveAt 0; Pop] in
  exists a, steps (@sv_step compat_ref ctype_ref None) strvec_init ops = Ret a /\ sv_rep a [[120]; [121]; [122]] /\
    (exists rest, (strvec_detach a).1 = [Some [120]; Some [121]; Some [122]] ++ None :: rest) /\ sv_rep (strvec_detach a).2 [].
Proof.
  apply (@strvec_refines_list compat_ref compat_ref_ok ctype_ref ctype_ref_ok None
    [SplitWords [32; 97; 98; 9; 99]; Pushv [[100]; [101]]; Splice 1 2 [[120]; [121]; [122]]; RemoveAt 0; Pop]).
  evaluate.
Defined.
