(* ===== verification/Levenshtein.v ===== *)
(** levenshtein.c: the weighted Damerau-Levenshtein distance, computed with
    three rows of the distance matrix.  The theorem is that the result is the
    least cost of an edit script, that the rows are accessed in bounds and that
    no [int] overflows. *)
From S2P Require Import Prelude Headers.

(** * Model *)

(** The result of [int] arithmetic; overflow is undefined. *)
Definition int (x : Z) : outcome Z := if (- 2 ^ 31 <=? x) && (x <? 2 ^ 31) then Ret x else Undef.

Section model.
Context (junk : Z) (string1 string2 : list Z) (w s a d : Z).

(** The three places where a cheaper path replaces the entry of [row2]. *)
Definition improve (row2 : list Z) (k cost : Z) : outcome (list Z) :=
  cur ← rd row2 k;
  if cur >? cost then wr row2 k cost else Ret row2.

(** The body of the inner loop. *)
Definition cell_step (row0 row1 : list Z) (i j : Z) (row2 : list Z) : outcome (list Z) :=
  (* substitution *)
  r ← rd row1 j;
  c1 ← rd string1 i;
  c2 ← rd string2 j;
  x ← int (r + s * Z.b2z (negb (c1 =? c2)));
  row2 ← wr row2 (j + 1) x;
  (* swap *)
  row2 ←
    (if (i >? 0) && (j >? 0) then
       p1 ← rd string1 (i - 1);
       p2 ← rd string2 (j - 1);
       if (p1 =? c2) && (c1 =? p2) then r ← rd row0 (j - 1); x ← int (r + w); improve row2 (j + 1) x
       else Ret row2
     else Ret row2);
  (* deletion *)
  r ← rd row1 (j + 1);
  x ← int (r + d);
  row2 ← improve row2 (j + 1) x;
  (* insertion *)
  r ← rd row2 j;
  x ← int (r + a);
  improve row2 (j + 1) x.

(** The body of the outer loop, on [row0], [row1] and [row2]. *)
Definition row_step (i : Z) (rows : list Z * list Z * list Z) : outcome (list Z * list Z * list Z) :=
  let '(row0, row1, row2) := rows in
  x ← int ((i + 1) * d);
  row2 ← wr row2 0 x;
  row2 ← for_n (length string2) 0 (cell_step row0 row1 i) row2;
  Ret (row1, row2, row0).

Definition levenshtein : outcome Z :=
  let len2 := zlen string2 in
  let row := replicate (S (length string2)) junk in
  row1 ← for_n (S (length string2)) 0 (fun j row1 => x ← int (j * a); wr row1 j x) row;
  '(_, row1, _) ← for_n (length string1) 0 row_step (row, row1, row);
  rd row1 len2.
End model.

(** * Specification *)

(** [edits w s a d x y c]: an edit script of cost [c] turns [x] into [y], each
    letter being kept, substituted, deleted, inserted or swapped with its
    neighbour, at most once. *)
Inductive edits (w s a d : Z) : list Z -> list Z -> Z -> Prop :=
| edits_nil : edits w s a d [] [] 0
| edits_keep x y c u v :
    edits w s a d x y c -> edits w s a d (x ++ [u]) (y ++ [v]) (c + s * Z.b2z (negb (u =? v)))
| edits_swap x y c u v : edits w s a d x y c -> edits w s a d (x ++ [u; v]) (y ++ [v; u]) (c + w)
| edits_del x y c u : edits w s a d x y c -> edits w s a d (x ++ [u]) y (c + d)
| edits_add x y c v : edits w s a d x y c -> edits w s a d x (y ++ [v]) (c + a).

(** The least cost. *)
Definition distance (w s a d : Z) (x y : list Z) (c : Z) : Prop :=
  edits w s a d x y c /\ forall c', edits w s a d x y c' -> c <= c'.

(** * Correctness *)

Lemma int_ok x : - 2 ^ 31 <= x < 2 ^ 31 -> int x = Ret x.
Proof. intros Hx. unfold int. destruct (Z.leb_spec (- 2 ^ 31) x), (Z.ltb_spec x (2 ^ 31)); cbn [andb]; lia || done. Qed.

Lemma app_snoc2 {A} (x x' : list A) u v z : x' ++ [u; v] = x ++ [z] -> x = x' ++ [u] /\ v = z.
Proof.
  change (x' ++ [u; v]) with (x' ++ [u] ++ [v]). rewrite (assoc app). intros Heq. apply app_inj_tail in Heq as [<- ->]. done.
Qed.

Section proofs.
Context (w s a d : Z).
Notation edits := (edits w s a d).
Notation distance := (distance w s a d).

(** The last step of a script. *)
Lemma edits_last x u y v c :
  edits (x ++ [u]) (y ++ [v]) c ->
  (exists c0, edits x y c0 /\ c = c0 + s * Z.b2z (negb (u =? v))) \/
  (exists x0 y0 c0, x = x0 ++ [v] /\ y = y0 ++ [u] /\ edits x0 y0 c0 /\ c = c0 + w) \/
  (exists c0, edits x (y ++ [v]) c0 /\ c = c0 + d) \/
  (exists c0, edits (x ++ [u]) y c0 /\ c = c0 + a).
Proof.
  intros He. inversion He as [Hx|x' y' c0 u' v' H0 Hx Hy|x' y' c0 u' v' H0 Hx Hy|x' y' c0 u' H0 Hx Hy|x' y' c0 v' H0 Hx Hy]; subst.
  - by destruct x.
  - apply app_inj_tail in Hx as [-> ->], Hy as [-> ->]. left. by exists c0.
  - apply app_snoc2 in Hx as [-> ->], Hy as [-> ->]. right. left. by exists x', y', c0.
  - apply app_inj_tail in Hx as [-> ->]. right. right. left. by exists c0.
  - apply app_inj_tail in Hy as [-> ->]. right. right. right. by exists c0.
Qed.

Lemma edits_nil_l y c : edits [] y c -> c = zlen y * a.
Proof.
  remember [] as x eqn:Hx. induction 1 as [|x y c u v _ _|x y c u v _ _|x y c u _ _|x y c v _ IH]; try (by destruct x); [done|].
  rewrite (IH Hx), zlen_app. change (zlen [v]) with 1. lia.
Qed.

Lemma edits_nil_r x c : edits x [] c -> c = zlen x * d.
Proof.
  remember [] as y eqn:Hy. induction 1 as [|x y c u v _ _|x y c u v _ _|x y c u _ IH|x y c v _ _]; try (by destruct y); [done|].
  rewrite (IH Hy), zlen_app. change (zlen [u]) with 1. lia.
Qed.

Lemma distance_nil_l y : distance [] y (zlen y * a).
Proof.
  split; [|intros c Hc; rewrite (edits_nil_l _ _ Hc); lia]. induction y as [|v y IH] using rev_ind; [apply edits_nil|].
  rewrite zlen_app. change (zlen [v]) with 1. replace ((zlen y + 1) * a) with (zlen y * a + a) by lia. by apply edits_add.
Qed.

Lemma distance_nil_r x : distance x [] (zlen x * d).
Proof.
  split; [|intros c Hc; rewrite (edits_nil_r _ _ Hc); lia]. induction x as [|u x IH] using rev_ind; [apply edits_nil|].
  rewrite zlen_app. change (zlen [u]) with 1. replace ((zlen x + 1) * d) with (zlen x * d + d) by lia. by apply edits_del.
Qed.

(** The entry of the matrix from its neighbours; [cw] comes from the entry two
    rows up if the last two letters can be swapped. *)
Lemma distance_last x u y v cs cd ca (cw : option Z) :
  distance x y cs -> distance x (y ++ [v]) cd -> distance (x ++ [u]) y ca ->
  match cw with
  | Some c => exists x0 y0, x = x0 ++ [v] /\ y = y0 ++ [u] /\ distance x0 y0 c
  | None => ~ exists x0 y0, x = x0 ++ [v] /\ y = y0 ++ [u]
  end ->
  let c := cs + s * Z.b2z (negb (u =? v)) in
  let c := match cw with Some cw => Z.min c (cw + w) | None => c end in
  distance (x ++ [u]) (y ++ [v]) (Z.min (Z.min c (cd + d)) (ca + a)).
Proof.
  intros [Hs Hs'] [Hd Hd'] [Ha Ha'] Hw c1 c2. split.
  - pose proof (edits_keep _ _ _ _ _ _ _ u v Hs) as E1. pose proof (edits_del _ _ _ _ _ _ _ u Hd) as E3. pose proof (edits_add _ _ _ _ _ _ _ v Ha) as E4.
    assert (edits (x ++ [u]) (y ++ [v]) c2) as E2.
    { subst c2. destruct cw as [c|]; [|done]. destruct Hw as (x0 & y0 & -> & -> & Hw & _). apply Z.min_case; [done|].
      rewrite <-!(assoc app). by apply edits_swap. }
    by repeat apply Z.min_case.
  - intros c' Hc. destruct (edits_last _ _ _ _ _ Hc) as [(c0 & H0 & ->)|[(x0 & y0 & c0 & Hx & Hy & H0 & ->)|[(c0 & H0 & ->)|(c0 & H0 & ->)]]].
    + specialize (Hs' _ H0). subst c1 c2. destruct cw; lia.
    + subst c2. destruct cw as [c|]; [|exfalso; eauto]. destruct Hw as (x1 & y1 & Hx1 & Hy1 & _ & Hmin). rewrite Hx in Hx1. rewrite Hy in Hy1.
      apply app_inj_tail in Hx1 as [<- _], Hy1 as [<- _]. specialize (Hmin _ H0). lia.
    + specialize (Hd' _ H0). lia.
    + specialize (Ha' _ H0). lia.
Qed.

(** ** Bounds *)

Lemma edits_bound (K : Z) x y c :
  Z.abs w <= K -> Z.abs s <= K -> Z.abs a <= K -> Z.abs d <= K -> edits x y c -> Z.abs c <= K * (zlen x + zlen y).
Proof.
  intros Hw Hs Ha Hd. assert (forall b, Z.abs (s * Z.b2z b) <= K) as Hsb by (intros []; cbn [Z.b2z]; lia).
  induction 1 as [|x y c u v _ IH|x y c u v _ IH|x y c u _ IH|x y c v _ IH]; rewrite ?zlen_app.
  - rewrite zlen_nil. lia.
  - specialize (Hsb (negb (u =? v))). change (zlen [u]) with 1. change (zlen [v]) with 1. lia.
  - change (zlen [u; v]) with 2. change (zlen [v; u]) with 2. lia.
  - change (zlen [u]) with 1. lia.
  - change (zlen [v]) with 1. lia.
Qed.

Context (string1 string2 : list Z) (K : Z).
Context (Hw : Z.abs w <= K) (Hs : Z.abs s <= K) (Ha : Z.abs a <= K) (Hd : Z.abs d <= K).
Context (HK : K * (zlen string1 + zlen string2) < 2 ^ 31).

(** The first [n] entries of a row for the prefix [x] of [string1]. *)
Definition row_ok (x row : list Z) (n : nat) : Prop :=
  length row = S (length string2) /\ forall j, (j < n)%nat -> exists v, row !! j = Some v /\ distance x (take j string2) v.

Lemma row_rd x row n j :
  row_ok x row n -> (j < n)%nat -> exists v, rd row (Z.of_nat j) = Ret v /\ distance x (take j string2) v.
Proof. intros [_ Hrow] Hj. destruct (Hrow j Hj) as (v & Hv & Hdist). exists v. split; [by apply rd_lookup|done]. Qed.

Lemma row_step_entry x row n v :
  row_ok x row n -> (n <= length string2)%nat -> distance x (take n string2) v -> row_ok x (<[n := v]> row) (S n).
Proof.
  intros [Hl Hrow] Hn Hv. split; [by rewrite length_insert|]. intros j Hj. destruct (decide (j = n)) as [->|Hne].
  - exists v. split; [|done]. apply list_lookup_insert_eq. lia.
  - destruct (Hrow j) as (v' & Hv' & ?); [lia|]. exists v'. by rewrite list_lookup_insert_ne.
Qed.

Lemma improve_ok row k cur cost :
  row !! k = Some cur -> improve row (Z.of_nat k) cost = Ret (<[k := Z.min cur cost]> row).
Proof.
  intros Hk. unfold improve. rewrite (rd_lookup _ _ _ Hk). run. pose proof (lookup_lt_Some _ _ _ Hk). rewrite Z.gtb_ltb.
  destruct (Z.ltb_spec cost cur) as [Hlt|Hge].
  - rewrite wr_in by (unfold zlen; lia). rewrite Nat2Z.id. by rewrite Z.min_r by lia.
  - by rewrite Z.min_l, list_insert_id by (lia || done).
Qed.

Lemma distance_int x y c e :
  distance x y c -> Z.abs e <= K -> zlen x + zlen y + 1 <= zlen string1 + zlen string2 -> int (c + e) = Ret (c + e).
Proof. intros [He _] Hle Hlen. pose proof (edits_bound K x y c Hw Hs Ha Hd He). apply int_ok. nia. Qed.

(** ** One entry *)

Definition swap_part (row0 : list Z) (i j c1 c2 : Z) (row2 : list Z) : outcome (list Z) :=
  if (i >? 0) && (j >? 0) then
    p1 ← rd string1 (i - 1);
    p2 ← rd string2 (j - 1);
    if (p1 =? c2) && (c1 =? p2) then r ← rd row0 (j - 1); x ← int (r + w); improve row2 (j + 1) x
    else Ret row2
  else Ret row2.

(** What the entry before the last two letters costs, if they can be swapped. *)
Definition swap_cost (x y : list Z) (u v : Z) (cw : option Z) : Prop :=
  match cw with
  | Some c => exists x0 y0, x = x0 ++ [v] /\ y = y0 ++ [u] /\ distance x0 y0 c
  | None => ~ exists x0 y0, x = x0 ++ [v] /\ y = y0 ++ [u]
  end.

Lemma take_snoc {A} (l : list A) i x : l !! i = Some x -> take (S i) l = take i l ++ [x].
Proof. apply take_S_r. Qed.

Lemma swap_part_ok i j row0 row2 u v cur :
  string1 !! i = Some u -> string2 !! j = Some v -> row2 !! S j = Some cur ->
  ((0 < i)%nat -> row_ok (take (i - 1) string1) row0 (S (length string2))) ->
  exists cw, swap_cost (take i string1) (take j string2) u v cw /\
    swap_part row0 (Z.of_nat i) (Z.of_nat j) u v row2 =
      Ret (<[S j := match cw with Some c => Z.min cur (c + w) | None => cur end]> row2).
Proof.
  intros Hu Hv Hcur Hrow. pose proof (lookup_lt_Some _ _ _ Hu). pose proof (lookup_lt_Some _ _ _ Hv).
  assert (forall cw : option Z, cw = None -> Ret row2 = Ret (<[S j := match cw with Some c => Z.min cur (c + w) | None => cur end]> row2)) as Hkeep.
  { intros cw ->. by rewrite list_insert_id. }
  unfold swap_part. destruct i as [|i]; [|destruct j as [|j]].
  - exists None. split; [intros (x0 & y0 & Hx & _); by destruct x0|]. change (Z.of_nat 0 >? 0) with false. cbn [andb]. exact (Hkeep None eq_refl).
  - exists None. split; [intros (x0 & y0 & _ & Hy); by destruct y0|]. change (Z.of_nat 0 >? 0) with false. rewrite andb_false_r. exact (Hkeep None eq_refl).
  - destruct (lookup_lt_is_Some_2 string1 i) as [p1 Hp1]; [lia|]. destruct (lookup_lt_is_Some_2 string2 j) as [p2 Hp2]; [lia|].
    rewrite !Z.gtb_ltb, !(proj2 (Z.ltb_lt 0 _)) by lia. cbn [andb].
    replace (Z.of_nat (S i) - 1) with (Z.of_nat i) by lia. replace (Z.of_nat (S j) - 1) with (Z.of_nat j) by lia.
    rewrite (rd_lookup _ _ _ Hp1), (rd_lookup _ _ _ Hp2). run. rewrite (take_snoc _ _ _ Hp1), (take_snoc _ _ _ Hp2).
    destruct ((p1 =? v) && (u =? p2)) eqn:E.
    + apply andb_true_iff in E as [->%Z.eqb_eq ->%Z.eqb_eq]. rewrite Nat.sub_succ, Nat.sub_0_r in Hrow.
      destruct (row_rd _ _ _ j (Hrow ltac:(lia))) as (c & -> & Hc); [lia|]. run.
      rewrite (distance_int _ _ _ w Hc Hw) by (unfold zlen; rewrite !length_take; lia). run.
      exists (Some c). split; [by exists (take i string1), (take j string2)|].
      replace (Z.of_nat (S j) + 1) with (Z.of_nat (S (S j))) by lia. by apply improve_ok.
    + exists None. split; [|exact (Hkeep None eq_refl)]. intros (x0 & y0 & Hx & Hy). apply app_inj_tail in Hx as [_ ->], Hy as [_ ->].
      by rewrite !Z.eqb_refl in E.
Qed.

Lemma cell_step_ok i j row0 row1 row2 u v :
  string1 !! i = Some u -> string2 !! j = Some v ->
  row_ok (take i string1) row1 (S (length string2)) ->
  ((0 < i)%nat -> row_ok (take (i - 1) string1) row0 (S (length string2))) ->
  row_ok (take (S i) string1) row2 (S j) ->
  exists row2', cell_step string1 string2 w s a d row0 row1 (Z.of_nat i) (Z.of_nat j) row2 = Ret row2' /\
    row_ok (take (S i) string1) row2' (S (S j)).
Proof.
  intros Hu Hv Hrow1 Hrow0 Hrow2. pose proof (lookup_lt_Some _ _ _ Hu) as Hi. pose proof (lookup_lt_Some _ _ _ Hv) as Hj.
  assert (zlen (take i string1) = Z.of_nat i /\ zlen (take j string2) = Z.of_nat j) as [Hzi Hzj] by (unfold zlen; rewrite !length_take; lia).
  assert (zlen string1 = Z.of_nat (length string1) /\ zlen string2 = Z.of_nat (length string2)) as [Hz1 Hz2] by done.
  destruct (row_rd _ _ _ j Hrow1) as (cs & Hcs & Hds); [lia|]. destruct (row_rd _ _ _ (S j) Hrow1) as (cd & Hcd & Hdd); [lia|].
  destruct (row_rd _ _ _ j Hrow2) as (ca & Hca & Hda); [lia|]. pose proof Hrow2 as [Hlen2 _].
  unfold cell_step. rewrite Hcs, (rd_lookup _ _ _ Hu), (rd_lookup _ _ _ Hv). run.
  rewrite (distance_int _ _ cs _ Hds) by (destruct (negb (u =? v)); cbn [Z.b2z]; lia). run.
  replace (Z.of_nat j + 1) with (Z.of_nat (S j)) by lia. set (c1 := cs + s * Z.b2z (negb (u =? v))).
  rewrite wr_in by (unfold zlen; lia). rewrite Nat2Z.id. run.
  destruct (swap_part_ok i j row0 (<[S j := c1]> row2) u v c1 Hu Hv) as (cw & Hcw & Hswap); [apply list_lookup_insert_eq; lia|done|].
  unfold swap_part in Hswap. replace (Z.of_nat j + 1) with (Z.of_nat (S j)) in Hswap by lia. rewrite Hswap. run. rewrite list_insert_insert_eq.
  set (c2 := match cw with Some c => _ | None => _ end) in *. rewrite Hcd. run.
  rewrite (distance_int _ _ cd d Hdd Hd) by (rewrite (take_snoc _ _ _ Hv), zlen_app; change (zlen [v]) with 1; lia). run.
  rewrite (improve_ok _ (S j) c2) by (apply list_lookup_insert_eq; lia). run. rewrite list_insert_insert_eq.
  assert (rd (<[S j := Z.min c2 (cd + d)]> row2) (Z.of_nat j) = Ret ca) as ->.
  { apply rd_lookup. rewrite list_lookup_insert_ne by lia. apply rd_Ret in Hca as [_ Hca]. by rewrite Nat2Z.id in Hca. }
  run. rewrite (distance_int _ _ ca a Hda Ha) by (rewrite (take_snoc _ _ _ Hu), zlen_app; change (zlen [u]) with 1; lia). run.
  rewrite (improve_ok _ (S j) (Z.min c2 (cd + d))) by (apply list_lookup_insert_eq; lia). rewrite list_insert_insert_eq.
  eexists. split; [done|]. apply row_step_entry; [done|lia|]. rewrite (take_snoc _ _ _ Hu), (take_snoc _ _ _ Hv) in *.
  by apply (distance_last (take i string1) u (take j string2) v cs cd ca cw).
Qed.

(** ** Rows *)

Lemma first_row_ok junk :
  exists row, for_n (S (length string2)) 0 (fun j row1 => x ← int (j * a); wr row1 j x) (replicate (S (length string2)) junk) = Ret row /\
    row_ok [] row (S (length string2)).
Proof.
  destruct (for_n_ret (fun j row => row_ok [] row (Z.to_nat j)) (S (length string2)) 0 (fun j row1 => x ← int (j * a); wr row1 j x)
    (replicate (S (length string2)) junk)) as (row & Hrun & Hrow).
  - intros j row Hj Hrow. pose proof (zlen_nonneg string1). assert (zlen string2 = Z.of_nat (length string2)) as Hz2 by done.
    rewrite int_ok by nia. run. destruct Hrow as [Hl Hrow]. rewrite wr_in by (unfold zlen; lia). eexists. split; [done|].
    replace (Z.to_nat (j + 1)) with (S (Z.to_nat j)) by lia. apply row_step_entry; [by split|lia|].
    replace (j * a) with (zlen (take (Z.to_nat j) string2) * a) by (unfold zlen; rewrite length_take; f_equal; lia). apply distance_nil_l.
  - split; [by rewrite length_replicate|]. intros j Hj. lia.
  - exists row. split; [done|]. by replace (Z.to_nat (0 + Z.of_nat (S (length string2)))) with (S (length string2)) in Hrow by lia.
Qed.

Lemma row_step_ok i row0 row1 row2 u :
  string1 !! i = Some u ->
  row_ok (take i string1) row1 (S (length string2)) -> ((0 < i)%nat -> row_ok (take (i - 1) string1) row0 (S (length string2))) ->
  length row2 = S (length string2) ->
  exists row2', row_step string1 string2 w s a d (Z.of_nat i) (row0, row1, row2) = Ret (row1, row2', row0) /\
    row_ok (take (S i) string1) row2' (S (length string2)).
Proof.
  intros Hu Hrow1 Hrow0 Hl. pose proof (lookup_lt_Some _ _ _ Hu) as Hi. unfold row_step.
  assert (zlen string1 = Z.of_nat (length string1) /\ zlen string2 = Z.of_nat (length string2)) as [Hz1 Hz2] by done.
  rewrite int_ok by nia. run. rewrite wr_in by (unfold zlen; lia). run.
  destruct (for_n_ret (fun j row => row_ok (take (S i) string1) row (S (Z.to_nat j))) (length string2) 0 (cell_step string1 string2 w s a d row0 row1 (Z.of_nat i))
    (<[Z.to_nat 0 := (Z.of_nat i + 1) * d]> row2)) as (row & -> & Hrow).
  - intros j row Hj Hrow. destruct (lookup_lt_is_Some_2 string2 (Z.to_nat j)) as [v Hv]; [lia|].
    destruct (cell_step_ok i (Z.to_nat j) row0 row1 row u v Hu Hv Hrow1 Hrow0 Hrow) as (row' & Hrun & Hrow').
    rewrite Z2Nat.id in Hrun by lia. exists row'. split; [done|]. by replace (Z.to_nat (j + 1)) with (S (Z.to_nat j)) by lia.
  - apply row_step_entry; [by split; [|intros j Hj; lia]|lia|]. cbn [take].
    replace (Z.of_nat i + 1) with (zlen (take (S i) string1)) by (unfold zlen; rewrite length_take; lia). apply distance_nil_r.
  - run. exists row. split; [done|]. by replace (Z.to_nat (0 + Z.of_nat (length string2))) with (length string2) in Hrow by lia.
Qed.

Lemma levenshtein_spec junk : exists c, levenshtein junk string1 string2 w s a d = Ret c /\ distance string1 string2 c.
Proof.
  destruct (first_row_ok junk) as (row & Hfirst & Hrow). unfold levenshtein. rewrite Hfirst. run.
  destruct (for_n_ret (fun i '(row0, row1, row2) => row_ok (take (Z.to_nat i) string1) row1 (S (length string2)) /\
      ((0 < Z.to_nat i)%nat -> row_ok (take (Z.to_nat i - 1) string1) row0 (S (length string2))) /\
      length row0 = S (length string2) /\ length row2 = S (length string2))
    (length string1) 0 (row_step string1 string2 w s a d) (replicate (S (length string2)) junk, row, replicate (S (length string2)) junk))
    as ([[row0 row1] row2] & -> & Hrow1 & _).
  - intros i [[row0 row1] row2] Hi (Hrow1 & Hrow0 & Hl0 & Hl). destruct (lookup_lt_is_Some_2 string1 (Z.to_nat i)) as [u Hu]; [lia|].
    destruct (row_step_ok _ row0 row1 row2 u Hu Hrow1 Hrow0 Hl) as (row2' & Hrun & Hrow2). rewrite Z2Nat.id in Hrun by lia.
    eexists. split; [exact Hrun|]. cbn beta iota. replace (Z.to_nat (i + 1)) with (S (Z.to_nat i)) by lia. split; [done|].
    rewrite Nat.sub_succ, Nat.sub_0_r. split; [done|]. split; [by destruct Hrow1|done].
  - cbn. split; [done|]. split; [lia|]. by rewrite length_replicate.
  - run. replace (Z.to_nat (0 + Z.of_nat (length string1))) with (length string1) in Hrow1 by lia. rewrite firstn_all in Hrow1.
    destruct (row_rd _ _ _ (length string2) Hrow1) as (c & Hc & Hdist); [lia|]. exists c. rewrite firstn_all in Hdist. done.
Qed.
End proofs.

(** Turning a script around, where inserting costs what deleting does. *)
Lemma edits_sym w s a x y c : edits w s a a x y c -> edits w s a a y x c.
Proof.
  induction 1 as [|x y c u v _ IH|x y c u v _ IH|x y c u _ IH|x y c v _ IH].
  - apply edits_nil.
  - rewrite Z.eqb_sym. by apply edits_keep.
  - by apply edits_swap.
  - by apply edits_add.
  - by apply edits_del.
Qed.



(** The triangle inequality fails even for unit costs: a swap cannot be followed
    by an insertion between the swapped letters. *)
Lemma levenshtein_no_triangle :
  levenshtein 0 [67; 65] [65; 67] 1 1 1 1 = Ret 1 /\ levenshtein 0 [65; 67] [65; 66; 67] 1 1 1 1 = Ret 1 /\
  levenshtein 0 [67; 65] [65; 66; 67] 1 1 1 1 = Ret 3.
Proof. repeat split; vm_compute; reflexivity. Qed.
