(* ===== verification/Hashmap.v ===== *)
(** hashmap.c: intrusive hash tables.  The entries are nodes of the caller that
    the map links into chains, so the model has a store of nodes, and pointers;
    a chain is what following [next] from a slot of the table gives. *)
From stdpp Require Import gmap.
From S2P Require Import Prelude Headers.

(** * The structures *)

(** [struct hashmap_entry], at a pointer of the store; NULL is 0. *)
Record node := Node { he_next : Z; he_hash : Z }.
Notation store := (gmap Z node).

(** [struct hashmap]; the comparison function gets two entries and the key data,
    all pointers. *)
Record hashmap := Hashmap {
  table : option (list Z);
  cmpfn : option (Z -> Z -> Z -> Z);
  private_size : Z;
  tablesize : Z;
  grow_at : Z;
  shrink_at : Z;
  do_count_items : bool;
}.

Record hashmap_iter := Iter { iter_tablepos : Z; iter_next : Z }.

(** * Model *)

Definition FNV32_BASE : Z := 0x811c9dc5.
Definition FNV32_PRIME : Z := 0x01000193.

(** The bodies of the hash functions; [icase] upper-cases the letter first. *)
Definition hash_step (hash c : Z) : Z := Z.lxor (u32 (hash * FNV32_PRIME)) c.
Definition icase (c : Z) : Z := if (c >=? 97) && (c <=? 122) then c - 32 else c.

Definition memhash (buf : list Z) : Z := fold_left hash_step buf FNV32_BASE.
Definition memihash (buf : list Z) : Z := fold_left (fun hash c => hash_step hash (icase c)) buf FNV32_BASE.
Definition memihash_cont (hash_seed : Z) (buf : list Z) : Z := fold_left (fun hash c => hash_step hash (icase c)) buf hash_seed.

(** On memory, up to the NUL. *)
Fixpoint strhash_from (hash : Z) (str : list Z) : outcome Z :=
  match str with
  | [] => Undef
  | c :: str => if c =? 0 then Ret hash else strhash_from (hash_step hash c) str
  end.
Definition strhash (str : list Z) : outcome Z := strhash_from FNV32_BASE str.

Fixpoint strihash_from (hash : Z) (str : list Z) : outcome Z :=
  match str with
  | [] => Undef
  | c :: str => if c =? 0 then Ret hash else strihash_from (hash_step hash (icase c)) str
  end.
Definition strihash (str : list Z) : outcome Z := strihash_from FNV32_BASE str.

Definition HASHMAP_INITIAL_SIZE : Z := 64.
Definition HASHMAP_RESIZE_BITS : Z := 2.
Definition HASHMAP_LOAD_FACTOR : Z := 80.

Definition alloc_table (map : hashmap) (size : Z) : hashmap :=
  let grow_at := u32 (u64 (size * HASHMAP_LOAD_FACTOR) / 100) in
  Hashmap (Some (replicate (Z.to_nat size) 0)) (cmpfn map) (private_size map) size grow_at
    (if size <=? HASHMAP_INITIAL_SIZE then 0 else grow_at / (Z.shiftl 1 HASHMAP_RESIZE_BITS + 1)) (do_count_items map).

(** Access to a node, and to the table. *)
Definition ld (h : store) (p : Z) : outcome node := match h !! p with Some n => Ret n | None => Undef end.
Definition tab (map : hashmap) : outcome (list Z) := match table map with Some t => Ret t | None => Undef end.
Definition set_tab (map : hashmap) (t : list Z) : hashmap :=
  Hashmap (Some t) (cmpfn map) (private_size map) (tablesize map) (grow_at map) (shrink_at map) (do_count_items map).
Definition set_size (map : hashmap) (n : Z) : hashmap :=
  Hashmap (table map) (cmpfn map) n (tablesize map) (grow_at map) (shrink_at map) (do_count_items map).

Definition entry_equals (h : store) (map : hashmap) (e1 e2 keydata : Z) : outcome bool :=
  if e1 =? e2 then Ret true else
  n1 ← ld h e1;
  n2 ← ld h e2;
  if he_hash n1 =? he_hash n2 then
    match cmpfn map with
    | Some f => Ret (f e1 e2 keydata =? 0)
    | None => Undef
    end
  else Ret false.

Definition hashmap_bucket (map : hashmap) (hash : Z) : Z := Z.land hash (u32 (tablesize map - 1)).

Definition bucket (h : store) (map : hashmap) (key : Z) : outcome Z := n ← ld h key; Ret (hashmap_bucket map (he_hash n)).

(** One entry of an old chain is put in front of its new one. *)
Definition rehash_step (st : store * hashmap * Z) : outcome ((store * hashmap * Z) + (store * hashmap)) :=
  let '(h, map, e) := st in
  if e =? 0 then Ret (inr (h, map)) else
  n ← ld h e;
  b ← bucket h map e;
  t ← tab map;
  x ← rd t b;
  t ← wr t b e;
  Ret (inl (<[e := Node x (he_hash n)]> h, set_tab map t, he_next n)).

(** Fuel for following a chain: it cannot have more nodes than the store. *)
Definition chain_fuel (h : store) : nat := S (S (size h)).

Definition rehash (h : store) (map : hashmap) (newsize : Z) : outcome (store * hashmap) :=
  oldtable ← tab map;
  for_n (Z.to_nat (tablesize map)) 0
    (fun i st => let '(h, map) := st in e ← rd oldtable i; loop (chain_fuel h) rehash_step (h, map, e))
    (h, alloc_table map newsize).

(** A [struct hashmap_entry **]: a slot of the table or the [next] of a node. *)
Inductive place := TableAt (b : Z) | NextOf (p : Z).

Definition ld_place (h : store) (map : hashmap) (e : place) : outcome Z :=
  match e with
  | TableAt b => t ← tab map; rd t b
  | NextOf p => n ← ld h p; Ret (he_next n)
  end.

Definition st_place (h : store) (map : hashmap) (e : place) (x : Z) : outcome (store * hashmap) :=
  match e with
  | TableAt b => t ← tab map; t ← wr t b x; Ret (h, set_tab map t)
  | NextOf p => n ← ld h p; Ret (<[p := Node x (he_hash n)]> h, map)
  end.

Definition find_step (h : store) (map : hashmap) (key keydata : Z) (e : place) : outcome (place + place) :=
  x ← ld_place h map e;
  if x =? 0 then Ret (inr e) else
  eq ← entry_equals h map x key keydata;
  if (eq : bool) then Ret (inr e) else Ret (inl (NextOf x)).

Definition find_entry_ptr (h : store) (map : hashmap) (key keydata : Z) : outcome place :=
  b ← bucket h map key;
  loop (chain_fuel h) (find_step h map key keydata) (TableAt b).

Definition always_equal (entry1 entry2 keydata : Z) : Z := 0.

(** The size is an [unsigned int], and doubles twice a round. *)
Definition init_size (initial_size : Z) : outcome Z :=
  loop 14 (fun size => Ret (if initial_size >? size then inl (u32 (Z.shiftl size HASHMAP_RESIZE_BITS)) else inr size)) HASHMAP_INITIAL_SIZE.

Definition hashmap_init (equals_function : option (Z -> Z -> Z -> Z)) (initial_size : Z) : outcome hashmap :=
  let f := match equals_function with Some f => f | None => always_equal end in
  size ← init_size (u32 (u64 (initial_size * 100) / HASHMAP_LOAD_FACTOR));
  Ret (alloc_table (Hashmap None (Some f) 0 0 0 0 true) size).

Definition hashmap_iter_init : hashmap_iter := Iter 0 0.

Definition iter_step (h : store) (map : hashmap) (st : hashmap_iter * Z) : outcome ((hashmap_iter * Z) + (hashmap_iter * Z)) :=
  let '(iter, current) := st in
  if negb (current =? 0) then n ← ld h current; Ret (inr (Iter (iter_tablepos iter) (he_next n), current)) else
  if iter_tablepos iter >=? tablesize map then Ret (inr (iter, 0)) else
  t ← tab map;
  current ← rd t (iter_tablepos iter);
  Ret (inl (Iter (iter_tablepos iter + 1) (iter_next iter), current)).

(** The entry, or NULL at the end. *)
Definition hashmap_iter_next (h : store) (map : hashmap) (iter : hashmap_iter) : outcome (hashmap_iter * Z) :=
  loop (S (S (Z.to_nat (tablesize map)))) (iter_step h map) (iter, iter_next iter).

(** The caller's nodes are freed. *)
Definition free_step (map : hashmap) (st : store * hashmap_iter) : outcome ((store * hashmap_iter) + store) :=
  let '(h, iter) := st in
  '(iter, e) ← hashmap_iter_next h map iter;
  if e =? 0 then Ret (inr h) else Ret (inl (delete e h, iter)).

Definition free_individual_entries (h : store) (map : hashmap) : outcome store :=
  loop (chain_fuel h) (free_step map) (h, hashmap_iter_init).

Definition hashmap_partial_clear_ (h : store) (map : hashmap) (entry_offset : Z) : outcome (store * hashmap) :=
  match table map with
  | None => Ret (h, map)
  | Some t =>
      h ← (if entry_offset >=? 0 then free_individual_entries h map else Ret h);
      t ← fill_range t 0 (tablesize map) 0;
      Ret (h, Hashmap (Some t) (cmpfn map) 0 (tablesize map) (grow_at map) 0 (do_count_items map))
  end.

Definition hashmap_clear_ (h : store) (map : hashmap) (entry_offset : Z) : outcome (store * hashmap) :=
  match table map with
  | None => Ret (h, map)
  | Some t =>
      h ← (if entry_offset >=? 0 then free_individual_entries h map else Ret h);
      Ret (h, Hashmap None None 0 0 0 0 false)
  end.

(** The entry, or NULL. *)
Definition hashmap_get (h : store) (map : hashmap) (key keydata : Z) : outcome Z :=
  match table map with
  | None => Ret 0
  | Some _ => e ← find_entry_ptr h map key keydata; ld_place h map e
  end.

Definition hashmap_get_next (h : store) (map : hashmap) (entry : Z) : outcome Z :=
  n ← ld h entry;
  loop (chain_fuel h)
    (fun e =>
       if e =? 0 then Ret (inr 0) else
       eq ← entry_equals h map entry e 0;
       if (eq : bool) then Ret (inr e) else n ← ld h e; Ret (inl (he_next n))) (he_next n).

Definition hashmap_add (h : store) (map : hashmap) (entry : Z) : outcome (store * hashmap) :=
  let map := match table map with None => alloc_table map HASHMAP_INITIAL_SIZE | Some _ => map end in
  b ← bucket h map entry;
  t ← tab map;
  x ← rd t b;
  n ← ld h entry;
  let h := <[entry := Node x (he_hash n)]> h in
  t ← wr t b entry;
  let map := set_tab map t in
  if do_count_items map then
    let map := set_size map (u32 (private_size map + 1)) in
    if private_size map >? grow_at map then rehash h map (u32 (Z.shiftl (tablesize map) HASHMAP_RESIZE_BITS)) else Ret (h, map)
  else Ret (h, map).

(** The store, the map and the removed entry or NULL. *)
Definition hashmap_remove (h : store) (map : hashmap) (key keydata : Z) : outcome (store * hashmap * Z) :=
  match table map with
  | None => Ret (h, map, 0)
  | Some _ =>
      e ← find_entry_ptr h map key keydata;
      old ← ld_place h map e;
      if old =? 0 then Ret (h, map, 0) else
      n ← ld h old;
      '(h, map) ← st_place h map e (he_next n);
      n ← ld h old;
      let h := <[old := Node 0 (he_hash n)]> h in
      '(h, map) ←
        (if do_count_items map then
           let map := set_size map (u32 (private_size map - 1)) in
           if private_size map <? shrink_at map then rehash h map (Z.shiftr (tablesize map) HASHMAP_RESIZE_BITS) else Ret (h, map)
         else Ret (h, map));
      Ret (h, map, old)
  end.

Definition hashmap_put (h : store) (map : hashmap) (entry : Z) : outcome (store * hashmap * Z) :=
  '(h, map, old) ← hashmap_remove h map entry 0;
  '(h, map) ← hashmap_add h map entry;
  Ret (h, map, old).

(** * Chains *)

(** The pointer [p] leads through [ps] to NULL. *)
Fixpoint linked (h : store) (p : Z) (ps : list Z) : Prop :=
  match ps with
  | [] => p = 0
  | q :: ps => p = q /\ q <> 0 /\ exists n, h !! q = Some n /\ linked h (he_next n) ps
  end.

(** The hash of every node, which no operation changes. *)
Definition hash_of (h : store) (p : Z) : option Z := he_hash <$> h !! p.

Definition same_hashes (h h' : store) : Prop := forall p, hash_of h p = hash_of h' p.

Section chains.
Implicit Types (h : store) (p q : Z) (ps : list Z) (n : node).

Lemma linked_insert_ne h p ps q n : linked h p ps -> q ∉ ps -> linked (<[q := n]> h) p ps.
Proof.
  revert p. induction ps as [|r ps IH]; intros p Hl Hq; [done|]. apply not_elem_of_cons in Hq as [Hqr Hq].
  destruct Hl as (-> & Hr & n' & Hn' & Hl). split; [done|]. split; [done|]. exists n'. split; [by rewrite lookup_insert_ne|]. by apply IH.
Qed.

Lemma linked_nonnull h p ps q : linked h p ps -> q ∈ ps -> q <> 0 /\ is_Some (h !! q).
Proof.
  revert p. induction ps as [|r ps IH]; intros p Hl Hq; [by apply not_elem_of_nil in Hq|]. destruct Hl as (-> & Hr & n & Hn & Hl).
  apply elem_of_cons in Hq as [->|Hq]; [split; [done|by exists n]|]. by apply (IH (he_next n)).
Qed.

Lemma linked_inj h p ps ps' : linked h p ps -> linked h p ps' -> ps = ps'.
Proof.
  revert p ps'. induction ps as [|q ps IH]; intros p [|q' ps'] Hl Hl'; cbn [linked] in *; [done|by destruct Hl' as (-> & ? & _)|by destruct Hl as (-> & ? & _)|].
  destruct Hl as (-> & _ & n & Hn & Hl), Hl' as (<- & _ & n' & Hn' & Hl'). f_equal. apply (IH (he_next n)); [done|congruence].
Qed.

(** What a chain leads to from a place on it, and replacing the rest. *)
Lemma linked_app h p ps q qs :
  linked h p (ps ++ [q] ++ qs) -> exists n, h !! q = Some n /\ linked h (he_next n) qs /\ q <> 0.
Proof.
  revert p. induction ps as [|r ps IH]; intros p Hl; cbn [app linked] in Hl.
  - destruct Hl as (_ & Hq & n & Hn & Hl). by exists n.
  - destruct Hl as (_ & _ & n & _ & Hl). by apply (IH (he_next n)).
Qed.

Lemma linked_replace h p ps q qs x rs n :
  linked h p (ps ++ [q] ++ qs) -> NoDup (ps ++ [q]) -> q ∉ rs -> linked h x rs -> h !! q = Some n ->
  linked (<[q := Node x (he_hash n)]> h) p (ps ++ [q] ++ rs).
Proof.
  intros Hl Hnd Hq Hx Hn. revert p Hl. induction ps as [|r ps IH]; intros p Hl; cbn [app linked] in *.
  - destruct Hl as (-> & Hq0 & _). split; [done|]. split; [done|]. exists (Node x (he_hash n)). split; [apply lookup_insert_eq|].
    by apply linked_insert_ne.
  - destruct Hl as (-> & Hr & n' & Hn' & Hl). inversion Hnd as [|? ? Hnr Hnd']; subst. split; [done|]. split; [done|]. exists n'.
    split; [|by apply IH]. rewrite lookup_insert_ne; [done|]. intros ->. apply Hnr. set_solver.
Qed.

Lemma hash_of_insert h p x n : h !! p = Some n -> same_hashes h (<[p := Node x (he_hash n)]> h).
Proof.
  intros Hn q. unfold hash_of. destruct (decide (p = q)) as [->|Hne]; [by rewrite lookup_insert_eq, Hn|by rewrite lookup_insert_ne].
Qed.

Lemma same_hashes_trans h h' h'' : same_hashes h h' -> same_hashes h' h'' -> same_hashes h h''.
Proof. intros H1 H2 p. by rewrite H1. Qed.

(** The fuel for a chain is enough. *)
Lemma linked_size h p ps : linked h p ps -> NoDup ps -> (length ps <= size h)%nat.
Proof.
  intros Hl Hnd. assert (list_to_set ps ⊆ dom h) as Hsub.
  { intros q Hq. apply elem_of_list_to_set in Hq. apply elem_of_dom. by apply (linked_nonnull h p ps). }
  apply subseteq_size in Hsub. by rewrite size_list_to_set, size_dom in Hsub.
Qed.

Lemma same_hashes_size h h' : same_hashes h h' -> size h = size h'.
Proof.
  intros Hs. rewrite <-!size_dom. f_equal. apply set_eq. intros p. rewrite !elem_of_dom. specialize (Hs p). unfold hash_of in Hs.
  destruct (h !! p), (h' !! p); cbn in Hs; try done; split; intros [? ?]; done.
Qed.
End chains.

(** * Tables *)

(** Two maps that differ in their table only. *)
Definition same_params (map map' : hashmap) : Prop :=
  cmpfn map' = cmpfn map /\ private_size map' = private_size map /\ tablesize map' = tablesize map /\ grow_at map' = grow_at map /\
  shrink_at map' = shrink_at map /\ do_count_items map' = do_count_items map.

Lemma same_params_trans m1 m2 m3 : same_params m1 m2 -> same_params m2 m3 -> same_params m1 m3.
Proof. unfold same_params. intuition congruence. Qed.

Section tables.
Implicit Types (h : store) (p q e : Z) (ps pre rest : list Z) (map : hashmap) (chains : list (list Z)) (b : nat).

(** The bucket of a node in a table of [2 ^ k] slots. *)
Definition in_bucket h (k : Z) (b : nat) (p : Z) : Prop :=
  exists x, hash_of h p = Some x /\ Z.land x (2 ^ k - 1) = Z.of_nat b.

Record table_rep h map (k : Z) chains : Prop := {
  tr_heads : exists heads, table map = Some heads /\ Forall2 (linked h) heads chains;
  tr_k : 0 <= k < 32;
  tr_size : tablesize map = 2 ^ k;
  tr_length : zlen chains = 2 ^ k;
  tr_nodup : Forall (NoDup (A := Z)) chains;
  tr_bucket b ps p : chains !! b = Some ps -> p ∈ ps -> in_bucket h k b p;
}.

Lemma tr_chain h map k chains b ps :
  table_rep h map k chains -> chains !! b = Some ps ->
  exists heads p, table map = Some heads /\ heads !! b = Some p /\ linked h p ps /\ NoDup ps.
Proof.
  intros Hr Hb. destruct (tr_heads _ _ _ _ Hr) as (heads & Ht & Hl). destruct (Forall2_lookup_r _ _ _ _ _ Hl Hb) as (p & Hp & Hlp).
  exists heads, p. split; [done|]. split; [done|]. split; [done|]. by apply (Forall_lookup_1 _ _ _ _ (tr_nodup _ _ _ _ Hr) Hb).
Qed.

Lemma hashmap_bucket_mod h map k chains x :
  table_rep h map k chains -> hashmap_bucket map x = Z.land x (2 ^ k - 1) /\ 0 <= hashmap_bucket map x < zlen chains.
Proof.
  intros Hr. pose proof (tr_k _ _ _ _ Hr) as Hk. unfold hashmap_bucket. rewrite (tr_size _ _ _ _ Hr), (tr_length _ _ _ _ Hr).
  assert (0 < 2 ^ k < 2 ^ 32) as Hp by (split; [apply Z.pow_pos_nonneg; lia|apply Z.pow_lt_mono_r; lia]).
  rewrite u32_small by lia. split; [done|]. replace (2 ^ k - 1) with (Z.ones k) by (rewrite Z.ones_equiv; lia).
  rewrite Z.land_ones by lia. apply Z.mod_pos_bound. lia.
Qed.

Lemma in_bucket_unique h k b b' p : in_bucket h k b p -> in_bucket h k b' p -> b = b'.
Proof. intros (x & Hx & Hb) (x' & Hx' & Hb'). rewrite Hx in Hx'. injection Hx' as <-. lia. Qed.

(** Nodes of one chain are in no other. *)
Lemma chains_disjoint h map k chains b b' ps ps' p :
  table_rep h map k chains -> chains !! b = Some ps -> chains !! b' = Some ps' -> p ∈ ps -> p ∈ ps' -> b = b'.
Proof. intros Hr Hb Hb' Hp Hp'. eapply in_bucket_unique; by eapply tr_bucket. Qed.

(** Changing one chain: the nodes of the others keep their [next]. *)
Lemma table_rep_update h h' map heads k chains b ps ps' p' :
  table_rep h map k chains -> table map = Some heads -> chains !! b = Some ps ->
  same_hashes h h' -> (forall b' qs p, b' <> b -> chains !! b' = Some qs -> linked h p qs -> linked h' p qs) ->
  linked h' p' ps' -> NoDup ps' -> (forall p, p ∈ ps' -> in_bucket h k b p) ->
  table_rep h' (set_tab map (<[b := p']> heads)) k (<[b := ps']> chains).
Proof.
  intros Hr Ht Hb Hsame Hothers Hl Hnd Hin. pose proof (lookup_lt_Some _ _ _ Hb) as Hlt. destruct (tr_heads _ _ _ _ Hr) as (heads' & Ht' & Hls).
  rewrite Ht in Ht'. injection Ht' as <-. pose proof (Forall2_length _ _ _ Hls) as Hlen. split.
  - eexists. split; [done|]. apply Forall2_same_length_lookup. rewrite !length_insert. split; [done|]. intros i x qs Hx Hqs.
    destruct (decide (i = b)) as [->|Hne].
    + rewrite list_lookup_insert_eq in Hx by lia. rewrite list_lookup_insert_eq in Hqs by lia. injection Hx as <-. by injection Hqs as <-.
    + rewrite list_lookup_insert_ne in Hx by done. rewrite list_lookup_insert_ne in Hqs by done. apply (Hothers i); [done..|]. eapply Forall2_lookup_lr; done.
  - apply (tr_k _ _ _ _ Hr).
  - apply (tr_size _ _ _ _ Hr).
  - rewrite zlen_insert. apply (tr_length _ _ _ _ Hr).
  - apply Forall_insert; [apply (tr_nodup _ _ _ _ Hr)|done].
  - intros b' qs p Hqs Hp. assert (in_bucket h k b' p) as (x & Hx & ?); [|exists x; by rewrite <-Hsame].
    destruct (decide (b' = b)) as [->|Hne].
    + rewrite list_lookup_insert_eq in Hqs by lia. injection Hqs as <-. by apply Hin.
    + rewrite list_lookup_insert_ne in Hqs by done. by eapply tr_bucket.
Qed.

(** The place behind the nodes [pre] of a chain. *)
Definition place_of (b : nat) (pre : list Z) : place := match last pre with None => TableAt (Z.of_nat b) | Some q => NextOf q end.

Lemma ld_place_spec h map k chains b pre rest :
  table_rep h map k chains -> chains !! b = Some (pre ++ rest) ->
  exists p, ld_place h map (place_of b pre) = Ret p /\ linked h p rest.
Proof.
  intros Hr Hb. destruct (tr_chain _ _ _ _ _ _ Hr Hb) as (heads & p & Ht & Hp & Hl & _). unfold place_of, ld_place, tab, ld.
  destruct pre as [|q pre _] using rev_ind.
  - cbn [last]. rewrite Ht. run. rewrite (rd_lookup _ _ _ Hp). by exists p.
  - rewrite last_snoc. rewrite <-(assoc app) in Hl. destruct (linked_app _ _ _ _ _ Hl) as (n & -> & Hn & _). run. by exists (he_next n).
Qed.

Lemma st_place_spec h map k chains b pre rest rest' x :
  table_rep h map k chains -> chains !! b = Some (pre ++ rest) -> linked h x rest' -> NoDup (pre ++ rest') -> (forall p, p ∈ rest' -> p ∈ rest) ->
  exists h' map', st_place h map (place_of b pre) x = Ret (h', map') /\ table_rep h' map' k (<[b := pre ++ rest']> chains) /\ same_hashes h h' /\
    (forall p, p ∉ pre -> h' !! p = h !! p) /\ same_params map map'.
Proof.
  intros Hr Hb Hx Hnd Hsub. destruct (tr_chain _ _ _ _ _ _ Hr Hb) as (heads & p & Ht & Hp & Hl & Hndo). pose proof (lookup_lt_Some _ _ _ Hp) as Hlt.
  assert (forall q, q ∈ pre ++ rest' -> in_bucket h k b q) as Hin.
  { intros q Hq. eapply tr_bucket; [done|done|]. set_solver. }
  unfold place_of, st_place, tab, ld. destruct pre as [|q pre _] using rev_ind.
  - cbn [last]. rewrite Ht. run. rewrite wr_in by (unfold zlen; lia). run. rewrite Nat2Z.id. eexists _, _. split; [done|]. split; [|done].
    by apply (table_rep_update h h map heads k chains b rest).
  - rewrite last_snoc. rewrite <-(assoc app) in Hl. destruct (linked_app _ _ _ _ _ Hl) as (n & Hn & _ & Hq0). rewrite Hn. run.
    eexists _, map. split; [done|]. assert (q ∈ pre ++ [q]) as Hqin by set_solver.
    split; [|split; [by apply hash_of_insert|split; [|done]]].
    + assert (map = set_tab map (<[b := p]> heads)) as Hmap.
      { rewrite list_insert_id by done. destruct map. cbn in *. by rewrite Ht. }
      rewrite Hmap. apply (table_rep_update h _ map heads k chains b ((pre ++ [q]) ++ rest)); try done.
      * by apply hash_of_insert.
      * intros b' qs p' Hne Hqs Hlq. apply linked_insert_ne; [done|]. intros Hq. apply Hne. apply (chains_disjoint h map k chains b' b qs ((pre ++ [q]) ++ rest) q); [done..|set_solver].
      * rewrite <-(assoc app). apply (linked_replace h p pre q rest); [done| | |done|done].
        -- by apply NoDup_app in Hnd as (? & _ & _).
        -- apply NoDup_app in Hnd as (_ & Hd & _). by apply Hd.
    + intros p' Hp'. rewrite lookup_insert_ne; [done|]. intros ->. done.
Qed.

(** ** Finding *)

Lemma find_loop h map k chains b ps key keydata (f : Z -> bool) :
  table_rep h map k chains -> chains !! b = Some ps -> (forall p, p ∈ ps -> entry_equals h map p key keydata = Ret (f p)) ->
  forall fuel pre todo, ps = pre ++ todo -> (length todo < fuel)%nat -> Forall (fun p => f p = false) pre ->
  exists pre' rest, ps = pre' ++ rest /\ Forall (fun p => f p = false) pre' /\ (rest = [] \/ exists q r, rest = q :: r /\ f q = true) /\
    loop fuel (find_step h map key keydata) (place_of b pre) = Ret (place_of b pre').
Proof.
  intros Hr Hb Hf. induction fuel as [|fuel IH]; intros pre todo Hps Hfuel Hpre; [lia|]. rewrite Hps in Hb.
  destruct (ld_place_spec h map k chains b pre todo Hr Hb) as (p & Hld & Hl). destruct todo as [|q todo]; cbn [linked] in Hl.
  - subst p. exists pre, []. split; [done|]. split; [done|]. split; [by left|]. apply loop_stop. unfold find_step. by rewrite Hld.
  - destruct Hl as (-> & Hq & _). assert (find_step h map key keydata (place_of b pre) = Ret (if f q then inr (place_of b pre) else inl (NextOf q))) as Hstep.
    { unfold find_step. rewrite Hld. run. rewrite (proj2 (Z.eqb_neq q 0)) by done. rewrite Hf by (rewrite Hps; set_solver). run. by destruct (f q). }
    destruct (f q) eqn:Efq.
    + exists pre, (q :: todo). split; [done|]. split; [done|]. split; [right; by exists q, todo|]. by apply loop_stop.
    + rewrite (loop_next _ _ _ _ Hstep). replace (NextOf q) with (place_of b (pre ++ [q])) by (unfold place_of; by rewrite last_snoc).
      cbn [length] in Hfuel. apply (IH (pre ++ [q]) todo); [rewrite Hps; same_list|lia|]. apply Forall_app. by repeat constructor.
Qed.

(** The chain of a key, and the first entry on it that equals the key. *)
Lemma find_entry_ptr_spec h map k chains key keydata (f : Z -> bool) x :
  table_rep h map k chains -> hash_of h key = Some x ->
  (forall p, p ∈ concat chains -> entry_equals h map p key keydata = Ret (f p)) ->
  (forall p, p ∈ concat chains -> f p = true -> hash_of h p = Some x) ->
  exists b pre rest, chains !! b = Some (pre ++ rest) /\ find_entry_ptr h map key keydata = Ret (place_of b pre) /\ in_bucket h k b key /\
    ((rest = [] /\ forall p, p ∈ concat chains -> f p = false) \/ exists q r, rest = q :: r /\ f q = true).
Proof.
  intros Hr Hx Hf Hfx. destruct (hashmap_bucket_mod h map k chains x Hr) as [Hbk Hbr].
  destruct (lookup_lt_is_Some_2 chains (Z.to_nat (hashmap_bucket map x))) as [ps Hps]; [unfold zlen in Hbr; lia|]. set (b := Z.to_nat _) in *.
  destruct (tr_chain _ _ _ _ _ _ Hr Hps) as (heads & p0 & _ & _ & Hl & Hnd).
  destruct (find_loop h map k chains b ps key keydata f Hr Hps) with (fuel := chain_fuel h) (pre := @nil Z) (todo := ps)
    as (pre & rest & Hpr & Hpre & Hrest & Hloop); [intros p Hp; apply Hf; by eapply concat_lookup|done| |constructor|].
  { unfold chain_fuel. pose proof (linked_size h p0 ps Hl Hnd). lia. }
  exists b, pre, rest. rewrite <-Hpr. split; [done|].
  assert (bucket h map key = Ret (Z.of_nat b)) as Hbucket.
  { unfold bucket, ld, hash_of in *. destruct (h !! key) as [n|]; [|done]. cbn in Hx. injection Hx as <-. run. f_equal. unfold b. lia. }
  split; [unfold find_entry_ptr; rewrite Hbucket; run; exact Hloop|]. split; [exists x; split; [done|]; unfold b; lia|].
  destruct Hrest as [->|?]; [left|by right]. split; [done|]. intros p Hp. rewrite app_nil_r in Hpr. destruct (f p) eqn:E; [|done]. exfalso.
  destruct (elem_of_concat _ _ Hp) as (b' & ps' & Hb' & Hp'). assert (b' = b) as ->.
  { eapply in_bucket_unique; [by eapply tr_bucket|]. exists x. split; [by apply Hfx|]. unfold b. lia. }
  assert (ps' = ps) as -> by congruence. rewrite Forall_forall in Hpre. rewrite Hpr in Hp'. rewrite (Hpre p Hp') in E. done.
Qed.

(** ** Rehashing *)

Lemma concat_nodup h map k chains : table_rep h map k chains -> NoDup (concat chains).
Proof.
  intros Hr. pose proof (tr_nodup _ _ _ _ Hr) as Hnd. pose proof (tr_bucket _ _ _ _ Hr) as Hbk. clear Hr.
  assert (forall b b' ps ps' p, chains !! b = Some ps -> chains !! b' = Some ps' -> p ∈ ps -> p ∈ ps' -> b = b') as Hdis.
  { intros b b' ps ps' p Hb Hb' Hp Hp'. eapply in_bucket_unique; by eapply Hbk. }
  clear Hbk. induction Hnd as [|ps chains Hps Hnd IH]; cbn [concat]; [constructor|]. apply NoDup_app. split; [done|]. split.
  - intros p Hp Hp'. destruct (elem_of_concat _ _ Hp') as (b & qs & Hb & Hq). by specialize (Hdis 0%nat (S b) ps qs p eq_refl Hb Hp Hq).
  - apply IH. intros b b' qs qs' p Hb Hb' Hp Hp'. specialize (Hdis (S b) (S b') qs qs' p Hb Hb' Hp Hp'). lia.
Qed.

(** Putting a node that is in no chain in front of its chain. *)
Lemma push_spec h map k chains p n :
  table_rep h map k chains -> h !! p = Some n -> p <> 0 -> p ∉ concat chains ->
  exists t b c x, table map = Some t /\ bucket h map p = Ret (Z.of_nat b) /\ chains !! b = Some c /\ rd t (Z.of_nat b) = Ret x /\
    wr t (Z.of_nat b) p = Ret (<[b := p]> t) /\
    table_rep (<[p := Node x (he_hash n)]> h) (set_tab map (<[b := p]> t)) k (<[b := p :: c]> chains) /\
    Permutation (concat (<[b := p :: c]> chains)) (p :: concat chains).
Proof.
  intros Hr Hn Hp0 Hp. destruct (hashmap_bucket_mod h map k chains (he_hash n) Hr) as [Hbk Hbr].
  destruct (lookup_lt_is_Some_2 chains (Z.to_nat (hashmap_bucket map (he_hash n)))) as [c Hc]; [unfold zlen in Hbr; lia|]. set (b := Z.to_nat _) in *.
  destruct (tr_chain _ _ _ _ _ _ Hr Hc) as (t & x & Ht & Hx & Hl & Hnd). pose proof (lookup_lt_Some _ _ _ Hx).
  assert (p ∉ c) as Hpc by (intros Hin; apply Hp; by eapply concat_lookup).
  exists t, b, c, x. split; [done|]. split; [unfold bucket, ld; rewrite Hn; run; f_equal; unfold b; lia|]. split; [done|].
  split; [by apply rd_lookup|]. split; [rewrite wr_in by (unfold zlen; lia); by rewrite Nat2Z.id|]. split; [|by apply (concat_insert _ _ c _ [p])].
  apply (table_rep_update h _ map t k chains b c); try done.
  - by apply hash_of_insert.
  - intros b' qs q Hne Hqs Hlq. apply linked_insert_ne; [done|]. intros Hin. apply Hp. by eapply concat_lookup.
  - cbn [linked]. split; [done|]. split; [done|]. eexists. split; [apply lookup_insert_eq|]. by apply linked_insert_ne.
  - by constructor.
  - intros q Hq. apply elem_of_cons in Hq as [->|Hq]; [|by eapply tr_bucket]. exists (he_hash n). unfold hash_of. rewrite Hn. split; [done|]. unfold b. lia.
Qed.

Lemma linked_ext h h' x qs : (forall q, q ∈ qs -> h' !! q = h !! q) -> linked h x qs -> linked h' x qs.
Proof.
  revert x. induction qs as [|q qs IH]; intros x He Hl; [done|]. destruct Hl as (-> & Hq & n & Hn & Hl). split; [done|]. split; [done|].
  exists n. split; [rewrite He by set_solver; done|]. apply IH; [|done]. intros r Hr. apply He. set_solver.
Qed.

Lemma rehash_chain_spec k : forall ps fuel h map chains e,
  table_rep h map k chains -> linked h e ps -> NoDup ps -> (forall p, p ∈ ps -> p ∉ concat chains) -> (length ps < fuel)%nat ->
  exists h' map' chains', loop fuel rehash_step (h, map, e) = Ret (h', map') /\ table_rep h' map' k chains' /\
    Permutation (concat chains') (ps ++ concat chains) /\ same_hashes h h' /\ (forall q, q ∉ ps -> h' !! q = h !! q) /\ same_params map map'.
Proof.
  induction ps as [|p ps IH]; intros [|fuel] h map chains e Hr Hl Hnd Hdis Hfuel; cbn [length] in Hfuel; try lia.
  - cbn in Hl. subst e. exists h, map, chains. rewrite (loop_stop _ _ _ (h, map)) by done. done.
  - destruct Hl as (-> & Hp0 & n & Hn & Hl). inversion Hnd as [|? ? Hpps Hnd']; subst.
    destruct (push_spec h map k chains p n Hr Hn Hp0) as (t & b & c & x & Ht & Hbk & Hc & Hx & Hwr & Hr1 & Hperm); [apply Hdis; set_solver|].
    destruct (IH fuel (<[p := Node x (he_hash n)]> h) (set_tab map (<[b := p]> t)) (<[b := p :: c]> chains) (he_next n)) as (h2 & m2 & ch2 & Hrun & Hr2 & Hp2 & Hs2 & Hf2 & Hm2);
      [done|by apply linked_insert_ne|done| |lia|].
    { intros q Hq Hin. rewrite Hperm in Hin. apply elem_of_cons in Hin as [->|Hin]; [done|]. apply (Hdis q); [set_solver|done]. }
    exists h2, m2, ch2. split; [|split; [done|split; [|split; [|split]]]].
    + rewrite <-Hrun. apply loop_next. unfold rehash_step, ld, tab. rewrite (proj2 (Z.eqb_neq p 0)), Hn by done. run. rewrite Hbk. run.
      rewrite Ht. run. rewrite Hx. run. by rewrite Hwr.
    + rewrite Hp2, Hperm. cbn [app]. by rewrite Permutation_middle.
    + eapply same_hashes_trans; [by apply hash_of_insert|done].
    + intros q Hq. apply not_elem_of_cons in Hq as [Hqp Hq]. rewrite Hf2 by done. by rewrite lookup_insert_ne.
    + eapply same_params_trans; [|done]. done.
Qed.

(** An empty table. *)
Lemma alloc_table_rep h map k : 0 <= k < 32 -> table_rep h (alloc_table map (2 ^ k)) k (replicate (Z.to_nat (2 ^ k)) []).
Proof.
  intros Hk. assert (0 < 2 ^ k) as Hp by (apply Z.pow_pos_nonneg; lia). split.
  - eexists. split; [done|]. apply Forall2_replicate. done.
  - done.
  - done.
  - rewrite zlen_replicate. lia.
  - apply Forall_replicate. constructor.
  - intros b ps p Hb Hin. apply lookup_replicate in Hb as [-> _]. by apply not_elem_of_nil in Hin.
Qed.

Lemma concat_drop {A} (ls : list (list A)) i l : ls !! i = Some l -> concat (drop i ls) = l ++ concat (drop (S i) ls).
Proof. intros Hi. by rewrite (drop_S _ _ _ Hi). Qed.

(** All chains before the [i]th have been moved. *)
Definition rehashing h0 map0 k (heads : list Z) (olds : list (list Z)) (i : Z) (st : store * hashmap) : Prop :=
  let '(h, map) := st in
  exists chains, table_rep h map k chains /\ Permutation (concat chains ++ concat (drop (Z.to_nat i) olds)) (concat olds) /\
    same_hashes h0 h /\ (forall q, q ∉ concat (take (Z.to_nat i) olds) -> h !! q = h0 !! q) /\ same_params (alloc_table map0 (2 ^ k)) map.

Lemma rehash_step_chain h0 map0 k0 heads olds k i h map :
  table_rep h0 map0 k0 olds -> table map0 = Some heads -> Forall2 (linked h0) heads olds -> 0 <= i < zlen olds ->
  rehashing h0 map0 k heads olds i (h, map) ->
  exists st, (e ← rd heads i; loop (chain_fuel h) rehash_step (h, map, e)) = Ret st /\ rehashing h0 map0 k heads olds (i + 1) st.
Proof.
  intros Hr0 Ht Hls Hi (chains & Hr & Hperm & Hsame & Hframe & Hpar). pose proof (concat_nodup _ _ _ _ Hr0) as Hnd.
  destruct (lookup_lt_is_Some_2 olds (Z.to_nat i)) as [ps Hps]; [unfold zlen in Hi; lia|].
  destruct (Forall2_lookup_r _ _ _ _ _ Hls Hps) as (e & He & Hle). pose proof (concat_drop _ _ _ Hps) as Hdrop.
  assert (rd heads i = Ret e) as -> by (apply rd_Ret; split; [lia|done]). run.
  assert (Permutation (ps ++ (concat chains ++ concat (drop (S (Z.to_nat i)) olds))) (concat olds)) as Hperm'.
  { rewrite <-Hperm, Hdrop. rewrite !(assoc app). by rewrite (comm app ps). }
  assert (NoDup (ps ++ (concat chains ++ concat (drop (S (Z.to_nat i)) olds)))) as Hnd' by (by rewrite Hperm').
  apply NoDup_app in Hnd' as (Hndps & Hdis & _).
  assert (linked h e ps) as Hlh.
  { apply (linked_ext h0); [|done]. intros q Hq. apply Hframe. intros Hin. rewrite <-(take_drop (Z.to_nat i) olds), concat_app in Hnd.
    apply NoDup_app in Hnd as (_ & Hd & _). apply (Hd q Hin). rewrite Hdrop. set_solver. }
  destruct (rehash_chain_spec k ps (chain_fuel h) h map chains e Hr Hlh Hndps) as (h' & map' & chains' & Hrun & Hr' & Hp' & Hs' & Hf' & Hm').
  { intros p Hp Hin. apply (Hdis p Hp). set_solver. }
  { unfold chain_fuel. pose proof (linked_size h e ps Hlh Hndps). lia. }
  exists (h', map'). split; [exact Hrun|]. exists chains'. split; [done|]. replace (Z.to_nat (i + 1)) with (S (Z.to_nat i)) by lia.
  split; [rewrite Hp', <-Hperm', <-(assoc app); done|]. split; [by eapply same_hashes_trans|]. split; [|by eapply same_params_trans].
  intros q Hq. rewrite (take_S_r _ _ _ Hps), concat_app in Hq. cbn [concat] in Hq. rewrite app_nil_r in Hq.
  rewrite Hf' by set_solver. apply Hframe. set_solver.
Qed.

Lemma rehash_spec h map k0 olds k :
  table_rep h map k0 olds -> 0 <= k < 32 ->
  exists h' map' chains, rehash h map (2 ^ k) = Ret (h', map') /\ table_rep h' map' k chains /\ Permutation (concat chains) (concat olds) /\
    same_hashes h h' /\ (forall q, q ∉ concat olds -> h' !! q = h !! q) /\ same_params (alloc_table map (2 ^ k)) map'.
Proof.
  intros Hr Hk. destruct (tr_heads _ _ _ _ Hr) as (heads & Ht & Hls). pose proof (tr_length _ _ _ _ Hr) as Hlen. pose proof (zlen_nonneg olds).
  unfold rehash, tab. rewrite Ht. run. rewrite (tr_size _ _ _ _ Hr).
  destruct (for_n_ret (rehashing h map k heads olds) (Z.to_nat (2 ^ k0)) 0
    (fun i st => let '(h, map) := st in e ← rd heads i; loop (chain_fuel h) rehash_step (h, map, e)) (h, alloc_table map (2 ^ k)))
    as ([h' map'] & Hrun & chains & Hr' & Hp & Hs & Hf & Hm).
  - intros i [h1 m1] Hi Hinv. apply (rehash_step_chain h map k0 heads olds k i h1 m1); (done || lia).
  - exists (replicate (Z.to_nat (2 ^ k)) []). split; [by apply alloc_table_rep|]. rewrite concat_replicate_nil. cbn. done.
  - exists h', map', chains. split; [exact Hrun|]. split; [done|].
    assert (drop (Z.to_nat (0 + Z.of_nat (Z.to_nat (2 ^ k0)))) olds = []) as Hdrop by (apply drop_ge; unfold zlen in Hlen; lia).
    rewrite Hdrop in Hp. cbn [concat] in Hp. rewrite app_nil_r in Hp. split; [done|]. split; [done|]. split; [|done].
    intros q Hq. apply Hf. intros Hin. apply Hq. rewrite <-(take_drop (Z.to_nat (0 + Z.of_nat (Z.to_nat (2 ^ k0)))) olds), concat_app. set_solver.
Qed.
End tables.

(** * Operations *)

(** A map with [64 * 4 ^ j] slots that counts its entries. *)
Record map_ok (h : store) (map : hashmap) (j : Z) (chains : list (list Z)) : Prop := {
  mo_table : table_rep h map (6 + 2 * j) chains;
  mo_j : 0 <= j <= 12;
  mo_count : do_count_items map = true;
  mo_size : private_size map = zlen (concat chains);
  mo_grow : grow_at map = 2 ^ (6 + 2 * j) * 80 / 100;
  mo_shrink : shrink_at map = 0 \/ 0 < j;
}.

(** The number of entries that are supported: the table can then still grow. *)
Notation max_entries := (2 ^ 29).

Section operations.
Implicit Types (h : store) (p q e : Z) (map : hashmap) (chains : list (list Z)).

Lemma alloc_table_params map j :
  0 <= j <= 12 ->
  grow_at (alloc_table map (2 ^ (6 + 2 * j))) = 2 ^ (6 + 2 * j) * 80 / 100 /\
  (shrink_at (alloc_table map (2 ^ (6 + 2 * j))) = 0 \/ 0 < j).
Proof.
  intros Hj. assert (0 < 2 ^ (6 + 2 * j) <= 2 ^ 30) as Hp by (split; [apply Z.pow_pos_nonneg; lia|apply Z.pow_le_mono_r; lia]).
  unfold alloc_table, HASHMAP_LOAD_FACTOR, HASHMAP_INITIAL_SIZE. cbn [grow_at shrink_at]. rewrite u64_small by lia.
  split; [apply u32_small; Z.to_euclidean_division_equations; lia|]. destruct (decide (j = 0)) as [->|Hne]; [by left|right; lia].
Qed.

Lemma rehash_ok h map j chains j' :
  table_rep h map (6 + 2 * j) chains -> 0 <= j' <= 12 -> do_count_items map = true -> private_size map = zlen (concat chains) ->
  exists h' map' chains', rehash h map (2 ^ (6 + 2 * j')) = Ret (h', map') /\ map_ok h' map' j' chains' /\
    Permutation (concat chains') (concat chains) /\ same_hashes h h' /\ cmpfn map' = cmpfn map.
Proof.
  intros Hr Hj' Hc Hs. destruct (rehash_spec h map (6 + 2 * j) chains (6 + 2 * j') Hr) as (h' & map' & chains' & -> & Hr' & Hp & Hh & _ & Hm); [lia|].
  destruct Hm as (Hm1 & Hm2 & Hm3 & Hm4 & Hm5 & Hm6). destruct (alloc_table_params map j' Hj') as [Hg Hsh].
  exists h', map', chains'. split; [done|]. split; [|done]. split; [done|done|by rewrite Hm6|rewrite Hm2; cbn; rewrite Hs; unfold zlen; by rewrite Hp|by rewrite Hm4|by rewrite Hm5].
Qed.

Lemma hashmap_add_spec h map j chains p n :
  map_ok h map j chains -> h !! p = Some n -> p <> 0 -> p ∉ concat chains -> zlen (concat chains) < max_entries ->
  exists h' map' j' chains', hashmap_add h map p = Ret (h', map') /\ map_ok h' map' j' chains' /\
    Permutation (concat chains') (p :: concat chains) /\ same_hashes h h' /\ cmpfn map' = cmpfn map.
Proof.
  intros [Hr Hj Hc Hs Hg Hsh] Hn Hp0 Hp Hmax. pose proof (zlen_nonneg (concat chains)) as Hnn.
  destruct (push_spec h map _ chains p n Hr Hn Hp0 Hp) as (t & b & c & x & Ht & Hbk & Hch & Hx & Hwr & Hr1 & Hperm).
  unfold hashmap_add, tab. rewrite Ht, Hbk. run. rewrite Ht. run. rewrite Hx. run. unfold ld. rewrite Hn. run. rewrite Hwr. run.
  cbn [set_tab do_count_items]. rewrite Hc. set (m0 := set_tab map (<[b := p]> t)) in *.
  change (private_size (set_size m0 _)) with (u32 (private_size map + 1)). change (private_size m0) with (private_size map).
  change (grow_at (set_size m0 _)) with (grow_at map). change (tablesize (set_size m0 _)) with (tablesize map).
  rewrite Hs, u32_small by lia. set (h1 := <[p := _]> h) in *. set (m1 := set_size m0 (zlen (concat chains) + 1)). assert (same_hashes h h1) as Hs1 by (by apply hash_of_insert).
  assert (table_rep h1 m1 (6 + 2 * j) (<[b := p :: c]> chains)) as Hr1' by (destruct Hr1; by split).
  assert (zlen (concat (<[b := p :: c]> chains)) = zlen (concat chains) + 1) as Hlen by (unfold zlen; rewrite Hperm; cbn [length]; lia).
  rewrite Z.gtb_ltb. destruct (Z.ltb_spec (grow_at map) (zlen (concat chains) + 1)) as [Hgrow|Hfit].
  - assert (j < 12) as Hj12.
    { destruct (decide (j = 12)) as [->|]; [|lia]. rewrite Hg in Hgrow. change (2 ^ (6 + 2 * 12) * 80 / 100) with 858993459 in Hgrow. lia. }
    unfold HASHMAP_RESIZE_BITS. rewrite (tr_size _ _ _ _ Hr), Z.shiftl_mul_pow2, <-Z.pow_add_r by lia.
    rewrite u32_small by (split; [apply Z.pow_nonneg; lia|apply Z.pow_lt_mono_r; lia]). replace (6 + 2 * j + 2) with (6 + 2 * (j + 1)) by lia.
    destruct (rehash_ok h1 m1 j _ (j + 1) Hr1') as (h2 & m2 & ch2 & Hrun & Hok & Hp2 & Hs2 & Hf2); [lia|done|done|].
    exists h2, m2, (j + 1), ch2. split; [exact Hrun|]. split; [done|]. split; [by rewrite Hp2|]. split; [by eapply same_hashes_trans|done].
  - exists h1, m1, j, (<[b := p :: c]> chains). split; [done|]. split; [by split|done].
Qed.

(** The store changes at a node that is in no chain. *)
Lemma table_rep_other h map k chains p n x :
  table_rep h map k chains -> h !! p = Some n -> p ∉ concat chains -> table_rep (<[p := Node x (he_hash n)]> h) map k chains.
Proof.
  intros Hr Hn Hp. destruct Hr as [(heads & Ht & Hls) Hk Hsz Hl Hnd Hbk]. split; [|done|done|done|done|].
  - exists heads. split; [done|]. apply Forall2_same_length_lookup. split; [by eapply Forall2_length|]. intros i y qs Hy Hqs.
    apply linked_insert_ne; [by eapply Forall2_lookup_lr|]. intros Hin. apply Hp. by eapply concat_lookup.
  - intros b ps q Hb Hq. destruct (Hbk b ps q Hb Hq) as (y & Hy & ?). exists y. split; [|done]. by rewrite <-(hash_of_insert h p x n Hn q).
Qed.

Lemma hashmap_remove_spec h map j chains key keydata (f : Z -> bool) y :
  map_ok h map j chains -> hash_of h key = Some y -> zlen (concat chains) <= max_entries ->
  (forall p, p ∈ concat chains -> entry_equals h map p key keydata = Ret (f p)) ->
  (forall p, p ∈ concat chains -> f p = true -> hash_of h p = Some y) ->
  (hashmap_remove h map key keydata = Ret (h, map, 0) /\ forall p, p ∈ concat chains -> f p = false) \/
  exists h' map' j' chains' q, hashmap_remove h map key keydata = Ret (h', map', q) /\ f q = true /\ map_ok h' map' j' chains' /\
    Permutation (concat chains) (q :: concat chains') /\ same_hashes h h' /\ cmpfn map' = cmpfn map.
Proof.
  intros [Hr Hj Hc Hs Hg Hsh] Hy Hmax Hf Hfy. destruct (tr_heads _ _ _ _ Hr) as (heads & Ht & _).
  destruct (find_entry_ptr_spec h map _ chains key keydata f y Hr Hy Hf Hfy) as (b & pre & rest & Hb & Hfind & _ & Hcase).
  unfold hashmap_remove. rewrite Ht, Hfind. run. destruct (ld_place_spec h map _ chains b pre rest Hr Hb) as (old & -> & Hold). run.
  destruct Hcase as [[-> Hnone]|(q & r & -> & Hfq)]; [left; cbn in Hold; by rewrite Hold|right].
  destruct Hold as (-> & Hq0 & n & Hn & Hl). rewrite (proj2 (Z.eqb_neq q 0)) by done. assert (ld h q = Ret n) as -> by (unfold ld; by rewrite Hn). run.
  pose proof (Forall_lookup_1 _ _ _ _ (tr_nodup _ _ _ _ Hr) Hb) as Hnd. pose proof (concat_insert chains b (pre ++ r) (pre ++ q :: r) [q]) as Hperm0.
  assert (NoDup (pre ++ r) /\ q ∉ pre ++ r) as [Hnd' Hqr].
  { rewrite <-Permutation_middle in Hnd. by inversion Hnd. }
  destruct (st_place_spec h map _ chains b pre (q :: r) r (he_next n) Hr Hb Hl Hnd') as (h1 & m1 & -> & Hr1 & Hs1 & Hf1 & Hm1); [intros p Hp; set_solver|].
  run. assert (h1 !! q = Some n) as Hn1 by (rewrite Hf1 by set_solver; done).
  assert (ld h1 q = Ret n) as -> by (unfold ld; by rewrite Hn1). run.
  assert (Permutation (concat chains) (q :: concat (<[b := pre ++ r]> chains))) as Hperm.
  { pose proof (lookup_lt_Some _ _ _ Hb). specialize (concat_insert (<[b := pre ++ r]> chains) b (pre ++ r) (pre ++ q :: r) [q]) as Hci.
    rewrite list_insert_insert_eq, (list_insert_id chains b _ Hb) in Hci. apply Hci; [by apply list_lookup_insert_eq|]. by rewrite <-Permutation_middle. }
  pose proof (concat_nodup _ _ _ _ Hr) as Hndc. rewrite Hperm in Hndc. inversion Hndc as [|? ? Hqn _]; subst.
  destruct Hm1 as (M1 & M2 & M3 & M4 & M5 & M6). rewrite M6, Hc. set (h2 := <[q := _]> h1). set (ch := <[b := pre ++ r]> chains) in *.
  assert (same_hashes h h2) as Hs2 by (eapply same_hashes_trans; [done|by apply hash_of_insert]).
  assert (zlen (concat chains) = zlen (concat ch) + 1) as Hlen by (unfold zlen; rewrite Hperm; cbn [length]; lia). pose proof (zlen_nonneg (concat ch)).
  rewrite M2, Hs, u32_small by lia. set (m2 := set_size m1 (zlen (concat chains) - 1)).
  assert (table_rep h2 m2 (6 + 2 * j) ch) as Hr2 by (destruct (table_rep_other h1 m1 _ ch q n 0 Hr1 Hn1 Hqn); by split).
  cbn [m2 set_size private_size shrink_at]. rewrite M5. destruct (Z.ltb_spec (zlen (concat chains) - 1) (shrink_at map)) as [Hlow|Hfit].
  - assert (0 < j) as Hj0 by (destruct Hsh; lia).
    assert (Z.shiftr (tablesize m1) HASHMAP_RESIZE_BITS = 2 ^ (6 + 2 * (j - 1))) as Hshr.
    { rewrite M3, (tr_size _ _ _ _ Hr). unfold HASHMAP_RESIZE_BITS. rewrite Z.shiftr_div_pow2 by lia. rewrite <-Z.pow_sub_r by lia. f_equal. lia. }
    change (tablesize m2) with (tablesize m1). rewrite Hshr. destruct (rehash_ok h2 m2 j ch (j - 1) Hr2) as (h3 & m3 & ch3 & Hrun & Hok & Hp3 & Hs3 & Hf3); [lia|by cbn; rewrite M6|cbn; lia|].
    rewrite Hrun. run. exists h3, m3, (j - 1), ch3, q. split; [done|]. split; [done|]. split; [done|]. split; [by rewrite Hp3|].
    split; [by eapply same_hashes_trans|by rewrite Hf3].
  - run. exists h2, m2, j, ch, q. split; [done|]. split; [done|]. split; [|done].
    split; [done|done|by cbn; rewrite M6|cbn; lia|by cbn; rewrite M4|by cbn; rewrite M5].
Qed.

Lemma hashmap_get_spec h map j chains key keydata (f : Z -> bool) y :
  map_ok h map j chains -> hash_of h key = Some y ->
  (forall p, p ∈ concat chains -> entry_equals h map p key keydata = Ret (f p)) ->
  (forall p, p ∈ concat chains -> f p = true -> hash_of h p = Some y) ->
  (hashmap_get h map key keydata = Ret 0 /\ forall p, p ∈ concat chains -> f p = false) \/
  exists q, hashmap_get h map key keydata = Ret q /\ f q = true /\ q ∈ concat chains.
Proof.
  intros [Hr _ _ _ _ _] Hy Hf Hfy. destruct (tr_heads _ _ _ _ Hr) as (heads & Ht & _).
  destruct (find_entry_ptr_spec h map _ chains key keydata f y Hr Hy Hf Hfy) as (b & pre & rest & Hb & Hfind & _ & Hcase).
  unfold hashmap_get. rewrite Ht, Hfind. run. destruct (ld_place_spec h map _ chains b pre rest Hr Hb) as (q & -> & Hq).
  destruct Hcase as [[-> Hnone]|(q' & r & -> & Hfq)]; [left; cbn in Hq; by rewrite Hq|right]. destruct Hq as (-> & _).
  exists q'. split; [done|]. split; [done|]. eapply concat_lookup; [done|]. set_solver.
Qed.
End operations.

(** * Iteration *)

Section iteration.
Implicit Types (h : store) (map : hashmap) (chains : list (list Z)).

(** What is left to visit: the rest of a chain, and the chains from a slot on. *)
Definition to_visit h chains (iter : hashmap_iter) (current : Z) (l : list Z) : Prop :=
  exists cur, linked h current cur /\ 0 <= iter_tablepos iter <= zlen chains /\ l = cur ++ concat (drop (Z.to_nat (iter_tablepos iter)) chains).

Lemma iter_next_spec h map k chains iter l :
  table_rep h map k chains -> to_visit h chains iter (iter_next iter) l ->
  match l with
  | [] => exists iter', hashmap_iter_next h map iter = Ret (iter', 0)
  | p :: l => p <> 0 /\ exists iter', hashmap_iter_next h map iter = Ret (iter', p) /\ to_visit h chains iter' (iter_next iter') l
  end.
Proof.
  intros Hr Hv. destruct (tr_heads _ _ _ _ Hr) as (heads & Ht & Hls). pose proof (tr_length _ _ _ _ Hr) as Hlen. pose proof (tr_size _ _ _ _ Hr) as Hsz.
  destruct (loop_ret (fun '(it, current) => to_visit h chains it current l) (fun st => (zlen chains - iter_tablepos st.1) + Z.b2z (st.2 =? 0))
    (S (S (Z.to_nat (tablesize map)))) (iter_step h map) (iter, iter_next iter)
    (fun '(it, p) => match l with [] => p = 0 | q :: l => p = q /\ p <> 0 /\ to_visit h chains it (iter_next it) l end)) as ([it p] & Hrun & Hres).
  - intros [it current] (cur & Hl & Hpos & Hcur). unfold iter_step. destruct cur as [|q cur]; cbn [linked] in Hl.
    + subst current. cbn [Z.eqb negb app] in *. rewrite Z.geb_leb. destruct (Z.leb_spec (tablesize map) (iter_tablepos it)) as [Hend|Hmore].
      * eexists. split; [done|]. cbn. rewrite drop_ge in Hcur by (unfold zlen in *; lia). by rewrite Hcur.
      * destruct (lookup_lt_is_Some_2 chains (Z.to_nat (iter_tablepos it))) as [ps Hps]; [unfold zlen in *; lia|].
        destruct (Forall2_lookup_r _ _ _ _ _ Hls Hps) as (e & He & Hle). unfold tab. rewrite Ht. run.
        assert (rd heads (iter_tablepos it) = Ret e) as -> by (apply rd_Ret; split; [lia|done]). run. eexists. split; [done|]. split.
        -- exists ps. cbn [iter_tablepos]. split; [done|]. split; [lia|]. rewrite Hcur, (concat_drop _ _ _ Hps). do 3 f_equal. lia.
        -- cbn [fst snd iter_tablepos]. change (0 =? 0) with true. cbn [Z.b2z]. destruct (e =? 0); cbn [Z.b2z]; lia.
    + destruct Hl as (-> & Hq & n & Hn & Hl). rewrite (proj2 (Z.eqb_neq q 0)) by done. cbn [negb]. unfold ld. rewrite Hn. run.
      eexists. split; [done|]. cbn beta iota. rewrite Hcur. cbn [app]. split; [done|]. split; [done|]. by exists cur.
  - exact Hv.
  - destruct Hv as (cur & _ & Hpos & _). cbn [fst snd]. destruct (iter_next iter =? 0); cbn [Z.b2z]; lia.
  - unfold hashmap_iter_next. rewrite Hrun. destruct l as [|q l]; [subst p; by exists it|]. destruct Hres as (-> & Hq & Hv'). split; [done|]. by exists it.
Qed.

(** [hashmap_for_each_entry]: the entries in the order of the visits. *)
Fixpoint iterate (n : nat) h map (iter : hashmap_iter) : outcome (list Z) :=
  match n with
  | O => Undef
  | S n =>
      '(iter, e) ← hashmap_iter_next h map iter;
      if e =? 0 then Ret [] else es ← iterate n h map iter; Ret (e :: es)
  end.

Lemma iterate_spec h map k chains : table_rep h map k chains -> forall l n iter,
  to_visit h chains iter (iter_next iter) l -> (length l < n)%nat -> iterate n h map iter = Ret l.
Proof.
  intros Hr. induction l as [|p l IH]; intros [|n] iter Hv Hn; cbn [length] in Hn; try lia; cbn [iterate];
    pose proof (iter_next_spec h map k chains iter _ Hr Hv) as Hnext; cbn beta iota in Hnext.
  - destruct Hnext as (iter' & ->). done.
  - destruct Hnext as (Hp & iter' & -> & Hv'). run. rewrite (proj2 (Z.eqb_neq p 0)) by done. by rewrite (IH n iter' Hv') by lia.
Qed.

Lemma iterate_all h map k chains : table_rep h map k chains -> iterate (chain_fuel h) h map hashmap_iter_init = Ret (concat chains).
Proof.
  intros Hr. apply (iterate_spec h map k chains Hr).
  - exists []. cbn. split; [done|]. split; [pose proof (zlen_nonneg chains); lia|done].
  - unfold chain_fuel. assert (NoDup (concat chains)) as Hnd by (by eapply concat_nodup).
    assert (list_to_set (concat chains) ⊆ dom h) as Hsub.
    { intros p Hp. apply elem_of_list_to_set in Hp. destruct (elem_of_concat _ _ Hp) as (b & ps & Hb & Hin).
      destruct (tr_chain _ _ _ _ _ _ Hr Hb) as (? & x & _ & _ & Hl & _). apply elem_of_dom. by apply (linked_nonnull h x ps). }
    apply subseteq_size in Hsub. rewrite size_list_to_set, size_dom in Hsub by done. lia.
Qed.

(** [hashmap_get_next] goes on along the chain of an entry. *)
Lemma hashmap_get_next_spec h map k chains b pre q r (f : Z -> bool) :
  table_rep h map k chains -> chains !! b = Some (pre ++ q :: r) -> (forall p, p ∈ r -> entry_equals h map q p 0 = Ret (f p)) ->
  hashmap_get_next h map q = Ret (match List.filter f r with [] => 0 | p :: _ => p end).
Proof.
  intros Hr Hb Hf. destruct (tr_chain _ _ _ _ _ _ Hr Hb) as (? & x & _ & _ & Hl & Hnd). pose proof (linked_size h x _ Hl Hnd) as Hsize.
  destruct (linked_app h x pre q r Hl) as (n & Hn & Hlr & _). unfold hashmap_get_next, ld. rewrite Hn. run.
  assert (length r < chain_fuel h)%nat as Hfuel by (unfold chain_fuel; rewrite length_app in Hsize; cbn [length] in Hsize; lia).
  revert Hfuel Hlr Hf. generalize (he_next n) (chain_fuel h). clear. induction r as [|p r IH]; intros e [|fuel] Hfuel Hl Hf; cbn [length] in Hfuel; try lia.
  - cbn in Hl. subst e. by apply loop_stop.
  - destruct Hl as (-> & Hp & n & Hn & Hl). cbn [List.filter]. destruct (f p) eqn:E.
    + apply loop_stop. rewrite (proj2 (Z.eqb_neq p 0)) by done. rewrite Hf by set_solver. run. by rewrite E.
    + rewrite (loop_next _ _ _ (he_next n)).
      * apply IH; [lia|done|]. intros q' Hq'. apply Hf. set_solver.
      * rewrite (proj2 (Z.eqb_neq p 0)) by done. rewrite Hf by set_solver. run. rewrite E. by rewrite Hn.
Qed.
End iteration.

(** * A map from keys to entries *)

Lemma init_size_spec n : 0 <= n <= max_entries -> exists j, 0 <= j <= 12 /\ init_size (u32 (u64 (n * 100) / 80)) = Ret (2 ^ (6 + 2 * j)).
Proof.
  intros Hn. rewrite u64_small by lia. rewrite u32_small by (Z.to_euclidean_division_equations; lia). unfold init_size.
  assert (n * 100 / 80 <= 2 ^ 30) as Hb by (Z.to_euclidean_division_equations; lia). generalize dependent (n * 100 / 80). intros m Hm.
  destruct (loop_ret (fun size => exists j, 0 <= j <= 12 /\ size = 2 ^ (6 + 2 * j)) (fun size => (30 - Z.log2 size) / 2) 14
    (fun size => Ret (if m >? size then inl (u32 (Z.shiftl size HASHMAP_RESIZE_BITS)) else inr size)) HASHMAP_INITIAL_SIZE
    (fun size => exists j, 0 <= j <= 12 /\ size = 2 ^ (6 + 2 * j))) as (size & Hrun & j & Hj & Hs).
  - intros size (j & Hj & ->). eexists. split; [done|]. rewrite Z.gtb_ltb. destruct (Z.ltb_spec (2 ^ (6 + 2 * j)) m) as [Hlt|Hge]; [|by exists j].
    assert (j < 12) as Hj12 by (destruct (decide (j = 12)) as [->|]; [change (2 ^ (6 + 2 * 12)) with (2 ^ 30) in Hlt|]; lia).
    unfold HASHMAP_RESIZE_BITS. rewrite Z.shiftl_mul_pow2, <-Z.pow_add_r by lia. replace (6 + 2 * j + 2) with (6 + 2 * (j + 1)) by lia.
    rewrite u32_small by (split; [apply Z.pow_nonneg; lia|apply Z.pow_lt_mono_r; lia]). rewrite !Z.log2_pow2 by lia. split; [exists (j + 1); split; [lia|done]|Z.to_euclidean_division_equations; lia].
  - exists 0. split; [lia|done].
  - done.
  - exists j. split; [done|]. by rewrite Hrun, Hs.
Qed.

Lemma hashmap_init_spec h f n :
  0 <= n <= max_entries -> exists map j chains, hashmap_init (Some f) n = Ret map /\ map_ok h map j chains /\ concat chains = [] /\ cmpfn map = Some f.
Proof.
  intros Hn. destruct (init_size_spec n Hn) as (j & Hj & Hsize). unfold hashmap_init, HASHMAP_LOAD_FACTOR. rewrite Hsize. run.
  set (m0 := Hashmap None (Some f) 0 0 0 0 true). exists (alloc_table m0 (2 ^ (6 + 2 * j))), j, (replicate (Z.to_nat (2 ^ (6 + 2 * j))) []).
  split; [done|]. destruct (alloc_table_params m0 j Hj) as [Hg Hsh]. rewrite concat_replicate_nil. split; [|done].
  split; [apply alloc_table_rep; lia|done|done|by rewrite concat_replicate_nil|done|done].
Qed.

Section refine.
Context `{Countable K} (keyof : Z -> Z -> K) (hashof : K -> Z) (f : Z -> Z -> Z -> Z) (entries : gset Z).
Implicit Types (h : store) (map : hashmap) (M : gmap K Z) (p q kd : Z).

(** The key of an entry, or of a search with key data, decides [f], and the hash
    in the node is that of the key. *)
Hypothesis cmp_keys : forall p q kd, p ∈ entries -> f p q kd = 0 <-> keyof p 0 = keyof q kd.
Hypothesis few_entries : Z.of_nat (size entries) <= max_entries.

Definition hashed h q kd : Prop := hash_of h q = Some (hashof (keyof q kd)).

Inductive map_op := Put (p : Z) | Get (q kd : Z) | RemoveKey (q kd : Z).

Definition map_op_ok h (op : map_op) : Prop :=
  match op with
  | Put p => p ∈ entries /\ p <> 0 /\ hashed h p 0
  | Get q kd | RemoveKey q kd => hashed h q kd /\ (q ∈ entries -> keyof q kd = keyof q 0)
  end.

Definition hashmap_step (st : store * hashmap) (op : map_op) : outcome (store * hashmap * Z) :=
  let '(h, map) := st in
  match op with
  | Put p => hashmap_put h map p
  | Get q kd => e ← hashmap_get h map q kd; Ret (h, map, e)
  | RemoveKey q kd => hashmap_remove h map q kd
  end.

(** NULL where there is no entry. *)
Definition key_step M (op : map_op) : gmap K Z * Z :=
  match op with
  | Put p => (<[keyof p 0 := p]> M, default 0 (M !! keyof p 0))
  | Get q kd => (M, default 0 (M !! keyof q kd))
  | RemoveKey q kd => (delete (keyof q kd) M, default 0 (M !! keyof q kd))
  end.

Fixpoint hashmap_steps (st : store * hashmap) (ops : list map_op) : outcome (store * hashmap * list Z) :=
  match ops with
  | [] => Ret (st, [])
  | op :: ops => '(st, e) ← hashmap_step st op; '(st, es) ← hashmap_steps st ops; Ret (st, e :: es)
  end.

Fixpoint key_steps M (ops : list map_op) : gmap K Z * list Z :=
  match ops with
  | [] => (M, [])
  | op :: ops => let '(M, e) := key_step M op in let '(M, es) := key_steps M ops in (M, e :: es)
  end.

(** The nodes in the chains are entries, and the map has each under its key. *)
Definition chains_map h (chains : list (list Z)) M : Prop :=
  (forall p, p ∈ concat chains -> p ∈ entries /\ p <> 0 /\ hashed h p 0) /\
  (forall k p, M !! k = Some p <-> p ∈ concat chains /\ keyof p 0 = k).

Definition hashmap_rep h map M : Prop :=
  exists j chains, map_ok h map j chains /\ cmpfn map = Some f /\ chains_map h chains M.

Lemma hashed_same h h' q kd : same_hashes h h' -> hashed h q kd -> hashed h' q kd.
Proof. intros Hs Hh. unfold hashed. by rewrite <-Hs. Qed.

Lemma map_op_ok_same h h' op : same_hashes h h' -> map_op_ok h op -> map_op_ok h' op.
Proof. intros Hs. destruct op; cbn; intuition eauto using hashed_same. Qed.

(** The test of an entry against a key. *)
Definition has_key (q kd : Z) (p : Z) : bool := bool_decide (keyof p 0 = keyof q kd).

Lemma entry_equals_key h map q kd p :
  cmpfn map = Some f -> p ∈ entries -> hashed h p 0 -> hashed h q kd -> (q ∈ entries -> keyof q kd = keyof q 0) ->
  entry_equals h map p q kd = Ret (has_key q kd p).
Proof.
  intros Hf Hp Hhp Hhq Hq. unfold entry_equals, ld, has_key. destruct (Z.eqb_spec p q) as [->|Hne].
  - rewrite bool_decide_true by (symmetry; auto). done.
  - unfold hashed, hash_of in *. destruct (h !! p) as [np|]; [|done]. destruct (h !! q) as [nq|]; [|done]. cbn in Hhp, Hhq.
    injection Hhp as Hhp. injection Hhq as Hhq. run. rewrite Hhp, Hhq. case_bool_decide as Hk.
    + rewrite Hk, Z.eqb_refl, Hf. f_equal. apply Z.eqb_eq. by apply cmp_keys.
    + destruct (hashof (keyof p 0) =? hashof (keyof q kd)); [|done]. rewrite Hf. f_equal. apply Z.eqb_neq. rewrite cmp_keys by done. done.
Qed.

Lemma chains_small h map k chains M : table_rep h map k chains -> chains_map h chains M -> zlen (concat chains) <= Z.of_nat (size entries).
Proof.
  intros Hr [He _]. pose proof (concat_nodup _ _ _ _ Hr) as Hnd. assert (list_to_set (concat chains) ⊆ entries) as Hsub.
  { intros p Hp. apply elem_of_list_to_set in Hp. by apply He. }
  apply subseteq_size in Hsub. rewrite size_list_to_set in Hsub by done. unfold zlen. lia.
Qed.

Lemma chains_unique h chains M p q : chains_map h chains M -> p ∈ concat chains -> q ∈ concat chains -> keyof p 0 = keyof q 0 -> p = q.
Proof.
  intros [_ HM] Hp Hq Hk. pose proof (proj2 (HM (keyof q 0) p) (conj Hp Hk)). pose proof (proj2 (HM (keyof q 0) q) (conj Hq eq_refl)). congruence.
Qed.

(** What the operations need to know of a search. *)
Lemma search_facts h map j chains M q kd :
  map_ok h map j chains -> cmpfn map = Some f -> chains_map h chains M -> hashed h q kd -> (q ∈ entries -> keyof q kd = keyof q 0) ->
  (forall p, p ∈ concat chains -> entry_equals h map p q kd = Ret (has_key q kd p)) /\
  (forall p, p ∈ concat chains -> has_key q kd p = true -> hash_of h p = Some (hashof (keyof q kd))).
Proof.
  intros Hok Hf [He _] Hq Hqe. split.
  - intros p Hp. destruct (He p Hp) as (? & _ & ?). by apply entry_equals_key.
  - intros p Hp Hk. destruct (He p Hp) as (_ & _ & Hh). apply bool_decide_eq_true in Hk. by rewrite <-Hk.
Qed.

Lemma found_lookup h chains M q kd p :
  chains_map h chains M -> p ∈ concat chains -> has_key q kd p = true -> M !! keyof q kd = Some p.
Proof. intros [_ HM] Hp Hk%bool_decide_eq_true. by apply HM. Qed.

Lemma none_lookup h chains M q kd :
  chains_map h chains M -> (forall p, p ∈ concat chains -> has_key q kd p = false) -> M !! keyof q kd = None.
Proof.
  intros [_ HM] Hnone. destruct (M !! keyof q kd) as [p|] eqn:E; [|done]. apply HM in E as [Hp Hk].
  specialize (Hnone p Hp). unfold has_key in Hnone. by rewrite bool_decide_true in Hnone.
Qed.

Lemma remove_refines h map M q kd :
  hashmap_rep h map M -> hashed h q kd -> (q ∈ entries -> keyof q kd = keyof q 0) ->
  exists h' map', hashmap_remove h map q kd = Ret (h', map', default 0 (M !! keyof q kd)) /\
    hashmap_rep h' map' (delete (keyof q kd) M) /\ same_hashes h h'.
Proof.
  intros (j & chains & Hok & Hf & Hcm) Hq Hqe. destruct (search_facts h map j chains M q kd Hok Hf Hcm Hq Hqe) as [Heq Hhash].
  pose proof (chains_small _ _ _ _ _ (mo_table _ _ _ _ Hok) Hcm) as Hsmall.
  destruct (hashmap_remove_spec h map j chains q kd (has_key q kd) _ Hok Hq ltac:(lia) Heq Hhash)
    as [[-> Hnone]|(h' & map' & j' & chains' & p & -> & Hk & Hok' & Hperm & Hs & Hf')].
  - rewrite (none_lookup _ _ _ _ _ Hcm Hnone). exists h, map. split; [done|]. split; [|done]. rewrite delete_id by (by eapply none_lookup).
    by exists j, chains.
  - assert (p ∈ concat chains) as Hp by (rewrite Hperm; set_solver). rewrite (found_lookup _ _ _ _ _ p Hcm Hp Hk). exists h', map'.
    split; [done|]. split; [|done]. exists j', chains'. split; [done|]. split; [by rewrite Hf'|].
    pose proof (concat_nodup _ _ _ _ (mo_table _ _ _ _ Hok)) as Hnd. rewrite Hperm in Hnd. inversion Hnd as [|? ? Hpn _]; subst.
    apply bool_decide_eq_true in Hk. split.
    + intros p' Hp'. destruct (proj1 Hcm p') as (? & ? & ?); [rewrite Hperm; set_solver|]. split; [done|]. split; [done|]. by eapply hashed_same.
    + intros k p'. rewrite lookup_delete_Some, (proj2 Hcm), Hperm, elem_of_cons. split.
      * intros [Hne [[->|Hin] <-]]; [by rewrite Hk in Hne|done].
      * intros [Hin <-]. split; [|auto]. intros Hkk. apply Hpn. assert (p = p') as ->; [|done].
        eapply chains_unique; [done|by rewrite Hperm; set_solver|by rewrite Hperm; set_solver|congruence].
Qed.

Lemma put_refines h map M p :
  hashmap_rep h map M -> p ∈ entries -> p <> 0 -> hashed h p 0 ->
  exists h' map', hashmap_put h map p = Ret (h', map', default 0 (M !! keyof p 0)) /\
    hashmap_rep h' map' (<[keyof p 0 := p]> M) /\ same_hashes h h'.
Proof.
  intros Hrep Hp Hp0 Hh. destruct (remove_refines h map M p 0 Hrep Hh (fun _ => eq_refl)) as (h1 & map1 & Hrem & (j & chains & Hok & Hf & Hcm) & Hs1).
  unfold hashmap_put. rewrite Hrem. run. pose proof (hashed_same _ _ _ _ Hs1 Hh) as Hh1.
  assert (p ∉ concat chains) as Hpn. { intros Hin. destruct Hcm as [_ HM]. pose proof (proj2 (HM _ p) (conj Hin eq_refl)) as Hl. by rewrite lookup_delete_eq in Hl. }
  assert (exists n, h1 !! p = Some n) as [n Hn] by (unfold hashed, hash_of in Hh1; destruct (h1 !! p) as [n|]; [by exists n|done]).
  assert (zlen (concat chains) < max_entries) as Hroom.
  { pose proof (concat_nodup _ _ _ _ (mo_table _ _ _ _ Hok)) as Hnd. assert (list_to_set (p :: concat chains) ⊆ entries) as Hsub.
    { intros q Hq. apply elem_of_list_to_set in Hq. apply elem_of_cons in Hq as [->|Hq]; [done|]. by apply (proj1 Hcm). }
    apply subseteq_size in Hsub. rewrite size_list_to_set in Hsub by (by constructor). cbn [length] in Hsub. unfold zlen. lia. }
  destruct (hashmap_add_spec h1 map1 j chains p n Hok Hn Hp0 Hpn Hroom) as (h2 & map2 & j2 & chains2 & -> & Hok2 & Hperm & Hs2 & Hf2). run.
  exists h2, map2. split; [done|]. split; [|by eapply same_hashes_trans]. exists j2, chains2. split; [done|]. split; [by rewrite Hf2|]. split.
  - intros q Hq. rewrite Hperm in Hq. apply elem_of_cons in Hq as [->|Hq]; [split; [done|split; [done|by eapply hashed_same]]|].
    destruct (proj1 Hcm q Hq) as (? & ? & ?). split; [done|]. split; [done|]. by eapply hashed_same.
  - intros k q. rewrite Hperm, elem_of_cons. pose proof (proj2 Hcm k q) as HM. destruct (decide (k = keyof p 0)) as [->|Hne].
    + rewrite lookup_insert_eq. split; [intros [= <-]; auto|]. intros [[->|Hq] Hk]; [done|]. exfalso.
      pose proof (proj2 HM (conj Hq Hk)) as Hbad. by rewrite lookup_delete_eq in Hbad.
    + rewrite lookup_insert_ne by done. rewrite lookup_delete_ne in HM by done. rewrite HM. split; [intros [? ?]; auto|]. intros [[->|Hq] Hk]; [by rewrite Hk in Hne|done].
Qed.

Lemma hashmap_step_refines h map M op :
  hashmap_rep h map M -> map_op_ok h op ->
  exists h' map', hashmap_step (h, map) op = Ret (h', map', (key_step M op).2) /\ hashmap_rep h' map' (key_step M op).1 /\ same_hashes h h'.
Proof.
  intros Hrep Hop. destruct op as [p|q kd|q kd]; cbn [hashmap_step key_step fst snd map_op_ok] in *.
  - destruct Hop as (? & ? & ?). by apply put_refines.
  - destruct Hop as [Hq Hqe]. pose proof Hrep as (j & chains & Hok & Hf & Hcm).
    destruct (search_facts h map j chains M q kd Hok Hf Hcm Hq Hqe) as [Heq Hhash]. exists h, map.
    destruct (hashmap_get_spec h map j chains q kd (has_key q kd) _ Hok Hq Heq Hhash) as [[-> Hnone]|(p & -> & Hk & Hp)]; run.
    + by rewrite (none_lookup _ _ _ _ _ Hcm Hnone).
    + by rewrite (found_lookup _ _ _ _ _ p Hcm Hp Hk).
  - destruct Hop. by apply remove_refines.
Qed.

Lemma hashmap_steps_refine ops : forall h map M,
  hashmap_rep h map M -> Forall (map_op_ok h) ops ->
  exists h' map', hashmap_steps (h, map) ops = Ret (h', map', (key_steps M ops).2) /\ hashmap_rep h' map' (key_steps M ops).1.
Proof.
  induction ops as [|op ops IH]; intros h map M Hrep Hok; [by exists h, map|]. apply Forall_cons_iff in Hok as [Hop Hok].
  destruct (hashmap_step_refines h map M op Hrep Hop) as (h1 & map1 & Hstep & Hrep1 & Hs). cbn [hashmap_steps key_steps]. rewrite Hstep. run.
  destruct (key_step M op) as [M1 e]. cbn [fst snd] in *. destruct (IH h1 map1 M1 Hrep1) as (h2 & map2 & Hrun & Hrep2).
  { eapply Forall_impl; [exact Hok|]. intros op'. by apply map_op_ok_same. }
  rewrite Hrun. run. destruct (key_steps M1 ops) as [M2 es]. by exists h2, map2.
Qed.

Lemma hashmap_rep_init h n : 0 <= n <= max_entries -> exists map, hashmap_init (Some f) n = Ret map /\ hashmap_rep h map ∅.
Proof.
  intros Hn. destruct (hashmap_init_spec h f n Hn) as (map & j & chains & Hinit & Hok & Hnil & Hf). exists map. split; [done|]. exists j, chains.
  split; [done|]. split; [done|]. split; [intros p Hp; rewrite Hnil in Hp; by apply not_elem_of_nil in Hp|]. intros k p. rewrite lookup_empty, Hnil.
  split; [done|intros [Hp _]; by apply not_elem_of_nil in Hp].
Qed.

(** Iterating visits the map's entries. *)
Lemma iterate_refines h map M :
  hashmap_rep h map M -> exists es, iterate (chain_fuel h) h map hashmap_iter_init = Ret es /\ NoDup es /\ forall p, p ∈ es <-> M !! keyof p 0 = Some p.
Proof.
  intros (j & chains & Hok & Hf & Hcm). exists (concat chains). split; [by eapply iterate_all, mo_table|]. split; [by eapply concat_nodup, mo_table|].
  intros p. rewrite (proj2 Hcm). split; [by intros Hp|by intros [Hp _]].
Qed.
End refine.

(** [C26]: a hash map refines a finite map from keys to entries: whatever calls of
    put, get and remove follow [hashmap_init], each returns the entry that the
    map has under the key, or NULL, while the table grows and shrinks as the
    load requires; and iterating over the map at the end visits each entry once.
    The comparison function decides equality of keys, nodes carry the hash of
    their key, and there are at most 2^29 entries, so that the table size, an
    [unsigned int], can still be multiplied by four. *)
Theorem hashmap_refines_map `{Countable K} (keyof : Z -> Z -> K) (hashof : K -> Z) (f : Z -> Z -> Z -> Z) (entries : gset Z)
    (h : store) (initial_size : Z) (ops : list (map_op)) :
  (forall p q kd, p ∈ entries -> f p q kd = 0 <-> keyof p 0 = keyof q kd) -> Z.of_nat (size entries) <= max_entries ->
  0 <= initial_size <= max_entries -> Forall (map_op_ok keyof hashof entries h) ops ->
  exists map h' map' es,
    hashmap_init (Some f) initial_size = Ret map /\
    hashmap_steps (h, map) ops = Ret (h', map', (key_steps keyof ∅ ops).2) /\
    iterate (chain_fuel h') h' map' hashmap_iter_init = Ret es /\ NoDup es /\
    forall p, p ∈ es <-> (key_steps keyof ∅ ops).1 !! keyof p 0 = Some p.
Proof.
  intros Hcmp Hfew Hn Hok. destruct (hashmap_rep_init keyof hashof f entries h initial_size Hn) as (map & Hinit & Hrep).
  destruct (hashmap_steps_refine keyof hashof f entries Hcmp Hfew ops h map ∅ Hrep Hok) as (h' & map' & Hrun & Hrep').
  destruct (iterate_refines keyof hashof f entries h' map' _ Hrep') as (es & Hit & Hnd & Hes). by exists map, h', map', es.
Qed.

(** Entries at 1 to 9 whose key is the pointer modulo 3, and a search key at 10. *)
Definition w_keyof (p kd : Z) : Z := if kd =? 0 then p mod 3 else kd.
Definition w_store : store := list_to_map ((10, Node 0 2) :: ((fun i => (Z.of_nat i, Node 0 (Z.of_nat i mod 3))) <$> seq 1 9)).

Lemma hashmap_refines_map_witness :
  let ops := [Put 1; Put 4; Put 2; Get 10 2; RemoveKey 10 2; Get 10 2; Put 3] in
  exists map h' map' es,
    hashmap_init (Some (fun p q kd => Z.b2z (negb (w_keyof p 0 =? w_keyof q kd)))) 100 = Ret map /\
    hashmap_steps (w_store, map) ops = Ret (h', map', [0; 1; 0; 2; 2; 0; 0]) /\
    iterate (chain_fuel h') h' map' hashmap_iter_init = Ret es /\ NoDup es /\
    forall p, p ∈ es <-> (key_steps w_keyof ∅ ops).1 !! w_keyof p 0 = Some p.
Proof.
  cbv zeta. replace [0; 1; 0; 2; 2; 0; 0] with (key_steps w_keyof ∅ [Put 1; Put 4; Put 2; Get 10 2; RemoveKey 10 2; Get 10 2; Put 3]).2
    by (vm_compute; reflexivity).
  apply (hashmap_refines_map w_keyof id (fun p q kd => Z.b2z (negb (w_keyof p 0 =? w_keyof q kd))) (list_to_set (Z.of_nat <$> seq 1 9)) w_store 100
    [Put 1; Put 4; Put 2; Get 10 2; RemoveKey 10 2; Get 10 2; Put 3]).
  - intros p q kd _. destruct (Z.eqb_spec (w_keyof p 0) (w_keyof q kd)); cbn; intuition lia.
  - by vm_compute.
  - lia.
  - repeat (apply Forall_cons; split); [..|constructor]; cbn [map_op_ok]; unfold hashed, w_keyof; (split; [evaluate|]); try (split; [lia|]);
      try reflexivity; intros Hin; exfalso; revert Hin; evaluate.
Defined.

(** Above 2^30 the search for an initial size never ends: the size, an
    [unsigned int], wraps around to 0 and stays there. *)
Lemma init_size_never_ends m fuel :
  2 ^ 30 < m ->
  loop fuel (fun size => Ret (if m >? size then inl (u32 (Z.shiftl size HASHMAP_RESIZE_BITS)) else inr size)) HASHMAP_INITIAL_SIZE = (Undef : outcome Z).
Proof.
  intros Hm. assert (forall size, (size = 0 \/ exists j, 0 <= j <= 12 /\ size = 2 ^ (6 + 2 * j)) ->
    loop fuel (fun size => Ret (if m >? size then inl (u32 (Z.shiftl size HASHMAP_RESIZE_BITS)) else inr size)) size = (Undef : outcome Z)) as Hall.
  { induction fuel as [|fuel IH]; intros size Hs; [done|]. rewrite (loop_next _ _ _ (u32 (Z.shiftl size HASHMAP_RESIZE_BITS))).
    - apply IH. unfold HASHMAP_RESIZE_BITS. destruct Hs as [->|(j & Hj & ->)]; [by left|]. rewrite Z.shiftl_mul_pow2, <-Z.pow_add_r by lia.
      destruct (decide (j = 12)) as [->|Hne]; [by left|right]. exists (j + 1). split; [lia|]. replace (6 + 2 * j + 2) with (6 + 2 * (j + 1)) by lia.
      apply u32_small. split; [apply Z.pow_nonneg; lia|apply Z.pow_lt_mono_r; lia].
    - rewrite Z.gtb_ltb. rewrite (proj2 (Z.ltb_lt size m)); [done|]. destruct Hs as [->|(j & Hj & ->)]; [lia|].
      assert (2 ^ (6 + 2 * j) <= 2 ^ 30) by (apply Z.pow_le_mono_r; lia). lia. }
  apply Hall. right. by exists 0.
Qed.
