(* ===== verification/EwahIo.v ===== *)
(** ewah/ewah_io.c: compressed bitmaps on disk -- the number of bits, the number
    of words, the words and the position of the last marker, all in network
    byte order.  Reading gives back the bitmap that was written. *)
From S2P Require Import Prelude Headers Strbuf Ewah.

(** * compat/bswap.h *)

(** [htonll] and [ntohll], by the bytes in memory. *)
Class WordOrder := {
  htonll_bytes : Z -> list Z;    (* the memory of [htonll(x)] *)
  ntohll_word : list Z -> Z;     (* [ntohll] of the word in eight bytes of memory *)
}.

Definition be64 (x : Z) : list Z := be32 (x / 2 ^ 32) ++ be32 (x mod 2 ^ 32).

Class WordOrderOk `{WordOrder} : Prop := {
  htonll_bytes_spec x : is_word x -> htonll_bytes x = be64 x;
  ntohll_word_spec x : is_word x -> ntohll_word (be64 x) = x;
}.

(** * Model *)

Section model.
Context `{GitCompat} `{ByteOrder} `{WordOrder}.
Context (junk : Z).

Definition words_per_dump : Z := 2048.

(** The first [n] words of [dump], converted from those of the buffer. *)
Definition dump_words (buffer : list Z) (off n : Z) : outcome (list Z) :=
  for_n (Z.to_nat n) 0 (fun i dump => w ← rd buffer (off + i); Ret (dump ++ htonll_bytes w)) [].

Section writer.
Context {S : Type} (write_fun : S -> list Z -> outcome (S * Z)).

(** One round over whole dumps, on [data], [buffer] and [words_left]; [None] for
    a failed write. *)
Definition dump_step (buffer : list Z) (st : S * Z * Z) : outcome ((S * Z * Z) + (S * option (Z * Z))) :=
  let '(data, off, words_left) := st in
  if negb (words_left >=? words_per_dump) then Ret (inr (data, Some (off, words_left))) else
  dump ← dump_words buffer off words_per_dump;
  '(data, r) ← write_fun data dump;
  if negb (r =? words_per_dump * 8) then Ret (inr (data, None)) else
  Ret (inl (data, off + words_per_dump, words_left - words_per_dump)).

(** The state of the writer, and the result. *)
Definition ewah_serialize_to (self : ewah_bitmap) (data : S) : outcome (S * Z) :=
  '(data, r) ← write_fun data (be32_bytes (u32 (eb_bit_size self)));
  if negb (r =? 4) then Ret (data, -1) else
  '(data, r) ← write_fun data (be32_bytes (u32 (eb_buffer_size self)));
  if negb (r =? 4) then Ret (data, -1) else
  '(data, remains) ← loop (Datatypes.S (Z.to_nat (eb_buffer_size self))) (dump_step (eb_buffer self)) (data, 0, eb_buffer_size self);
  match remains with
  | None => Ret (data, -1)
  | Some (off, words_left) =>
      '(data, ok) ←
        (if tru words_left then
           dump ← dump_words (eb_buffer self) off words_left;
           '(data, r) ← write_fun data dump;
           Ret (data, r =? words_left * 8)
         else Ret (data, true));
      if negb ok then Ret (data, -1) else
      let rlw_pos := u32 (eb_rlw self * 8) in
      '(data, r) ← write_fun data (be32_bytes (u32 (rlw_pos / 8)));
      if negb (r =? 4) then Ret (data, -1) else
      Ret (data, i32 (3 * 4 + eb_buffer_size self * 8))
  end.
End writer.

Definition write_strbuf `{StrbufHeader} (user_data : strbuf) (data : list Z) : outcome (strbuf * Z) :=
  sb ← strbuf_add junk user_data data (zlen data);
  Ret (sb, i32 (zlen data)).

Definition ewah_serialize_strbuf `{StrbufHeader} (self : ewah_bitmap) (sb : strbuf) : outcome (strbuf * Z) :=
  ewah_serialize_to write_strbuf self sb.

(** The bitmap and the bytes read, or -1; the words are copied and converted
    one by one. *)
Definition ewah_read_mmap (self : ewah_bitmap) (map : list Z) (len : Z) : outcome (ewah_bitmap * Z) :=
  if len <? 4 then Ret (self, -1) else
  bs ← rd_range map 0 4;
  let self := EwahBitmap (eb_buffer self) (eb_buffer_size self) (get_be32 bs) (eb_rlw self) in
  let len := len - 4 in
  if len <? 4 then Ret (self, -1) else
  bs ← rd_range map 4 4;
  let n := get_be32 bs in
  let len := len - 4 in
  let buffer := realloc junk (eb_buffer self) n in
  let self := EwahBitmap buffer n (eb_bit_size self) (eb_rlw self) in
  let data_len := n * 8 in
  if 2 ^ 64 <=? data_len then Err Bug else
  if len <? data_len then Ret (self, -1) else
  buffer ← for_n (Z.to_nat n) 0 (fun i buffer => bs ← rd_range map (8 + 8 * i) 8; wr buffer i (ntohll_word bs)) buffer;
  let len := len - data_len in
  let self := EwahBitmap buffer n (eb_bit_size self) (eb_rlw self) in
  if len <? 4 then Ret (self, -1) else
  bs ← rd_range map (8 + data_len) 4;
  Ret (EwahBitmap buffer n (eb_bit_size self) (get_be32 bs), 8 + data_len + 4).
End model.

(** * Correctness *)

(** What is on disk of a bitmap with the words [mem]. *)
Definition image (bit_size rlw : Z) (mem : list Z) : list Z :=
  be32 bit_size ++ be32 (zlen mem) ++ concat (be64 <$> mem) ++ be32 rlw.

Lemma zlen_be32 x : zlen (be32 x) = 4.
Proof. done. Qed.

Lemma zlen_be64 x : zlen (be64 x) = 8.
Proof. done. Qed.

Lemma zlen_be64s mem : zlen (concat (be64 <$> mem)) = 8 * zlen mem.
Proof. induction mem as [|w mem IH]; [done|]. cbn [fmap list_fmap concat]. rewrite zlen_app, IH, zlen_be64, zlen_cons. lia. Qed.

Lemma zlen_image b r mem : zlen (image b r mem) = 12 + 8 * zlen mem.
Proof. unfold image. rewrite !zlen_app, zlen_be64s, !zlen_be32. lia. Qed.

Section proofs.
Context `{GitCompatOk} `{ByteOrderOk} `{WordOrderOk} (junk : Z).
Implicit Types (self : ewah_bitmap) (mem buffer : list Z).

Lemma get_be32_be32 x : 0 <= x < 2 ^ 32 -> get_be32 (be32 x) = x.
Proof.
  intros Hx. unfold be32. rewrite get_be32_spec by (apply Z.mod_pos_bound; lia). rewrite !Z.shiftr_div_pow2 by lia.
  change (2 ^ 32) with (2 ^ 24 * 256) in Hx. Z.to_euclidean_division_equations; lia.
Qed.

(** ** Writing *)

Lemma dump_words_spec buffer pre ws rest :
  buffer = pre ++ ws ++ rest -> Forall is_word ws -> dump_words buffer (zlen pre) (zlen ws) = Ret (concat (be64 <$> ws)).
Proof.
  intros -> Hws. unfold dump_words.
  destruct (for_n_ret (fun i dump => dump = concat (be64 <$> take (Z.to_nat i) ws)) (Z.to_nat (zlen ws)) 0
    (fun i dump => w ← rd (pre ++ ws ++ rest) (zlen pre + i); Ret (dump ++ htonll_bytes w)) []) as (dump & -> & ->).
  - intros i dump Hi ->. destruct (lookup_lt_is_Some_2 ws (Z.to_nat i)) as [w Hw]; [unfold zlen in *; lia|].
    assert (rd (pre ++ ws ++ rest) (zlen pre + i) = Ret w) as ->.
    { apply rd_Ret. split; [pose proof (zlen_nonneg pre); lia|]. rewrite lookup_app_r by (unfold zlen; lia).
      rewrite lookup_app_l by (unfold zlen in *; lia). rewrite <-Hw. f_equal. unfold zlen. lia. }
    run. eexists. split; [done|]. replace (Z.to_nat (i + 1)) with (S (Z.to_nat i)) by lia. rewrite (take_S_r _ _ _ Hw), fmap_app, concat_app.
    cbn [fmap list_fmap concat]. rewrite app_nil_r, htonll_bytes_spec; [done|]. by apply (Forall_lookup_1 _ _ _ _ Hws Hw).
  - done.
  - do 3 f_equal. apply take_ge. unfold zlen. lia.
Qed.

Section writer.
Context {S : Type} (write_fun : S -> list Z -> outcome (S * Z)) (R : S -> list Z -> Prop) (M : Z).

(** A writer that takes everything, as long as its text stays below [M]. *)
Hypothesis write_ok : forall data l xs, R data l -> zlen l + zlen xs < M -> zlen xs <= words_per_dump * 8 ->
  exists data', write_fun data xs = Ret (data', zlen xs) /\ R data' (l ++ xs).

Lemma dump_loop fuel : forall data l pre ws rest,
  (Z.to_nat (zlen ws) < fuel)%nat -> R data l -> Forall is_word ws -> zlen l + 8 * zlen ws < M ->
  exists data' pre' ws', loop fuel (dump_step write_fun (pre ++ ws ++ rest)) (data, zlen pre, zlen ws) = Ret (data', Some (zlen pre', zlen ws')) /\
    pre ++ ws = pre' ++ ws' /\ zlen ws' < words_per_dump /\
    exists done_, R data' (l ++ concat (be64 <$> done_)) /\ ws = done_ ++ ws'.
Proof.
  induction fuel as [|fuel IH]; intros data l pre ws rest Hfuel Hr Hws Hm; [lia|].
  destruct (decide (words_per_dump <= zlen ws)) as [Hmore|Hless].
  - set (a := take (Z.to_nat words_per_dump) ws). set (b := drop (Z.to_nat words_per_dump) ws).
    assert (ws = a ++ b) as Hab by (by rewrite <-(take_drop (Z.to_nat words_per_dump) ws)).
    assert (zlen a = words_per_dump) as Ha by (unfold a, zlen, words_per_dump in *; rewrite length_take; lia).
    assert (zlen ws = words_per_dump + zlen b) as Hb by (rewrite Hab, zlen_app, Ha; done). pose proof (zlen_nonneg b). pose proof (zlen_nonneg l).
    rewrite Hab in Hws. apply Forall_app in Hws as [Hwa Hwb]. assert (0 < words_per_dump) as Hwpd by done.
    destruct (write_ok data l (concat (be64 <$> a)) Hr) as (data1 & Hw & Hr1); [rewrite zlen_be64s; lia|rewrite zlen_be64s; lia|].
    destruct (IH data1 (l ++ concat (be64 <$> a)) (pre ++ a) b rest) as (data2 & pre' & ws' & Hrun & Heq & Hlt & dn & Hr2 & Hdn); [lia|exact Hr1|done|rewrite zlen_app, zlen_be64s; lia|].
    exists data2, pre', ws'. split; [|split; [rewrite Hab, <-Heq; by rewrite <-(assoc app)|split; [done|]]].
    + rewrite <-Hrun. rewrite zlen_app, Ha. assert ((pre ++ a) ++ b ++ rest = pre ++ ws ++ rest) as -> by (rewrite Hab; same_list). apply loop_next.
      unfold dump_step. rewrite Z.geb_leb, (proj2 (Z.leb_le _ _) Hmore). cbn [negb]. rewrite <-Ha at 1.
      rewrite (dump_words_spec _ pre a (b ++ rest)) by (done || (rewrite Hab; same_list)). run. rewrite Hw. run. rewrite zlen_be64s, Ha.
      replace (8 * words_per_dump) with (words_per_dump * 8) by lia. rewrite Z.eqb_refl. cbn [negb]. do 3 f_equal. lia.
    + exists (a ++ dn). rewrite fmap_app, concat_app, (assoc app). split; [done|]. rewrite Hab at 1. rewrite Hdn. same_list.
  - exists data, pre, ws. split; [|split; [done|split; [lia|exists []; rewrite app_nil_r; done]]]. apply loop_stop. unfold dump_step.
    rewrite Z.geb_leb, (proj2 (Z.leb_gt _ _)) by lia. done.
Qed.

(** The last dump, if any word is left for it. *)
Lemma dump_rest data l pre ws rest :
  R data l -> Forall is_word ws -> zlen l + 8 * zlen ws < M -> zlen ws < words_per_dump ->
  exists data',
    (if tru (zlen ws) then
       dump ← dump_words (pre ++ ws ++ rest) (zlen pre) (zlen ws);
       '(data, r) ← write_fun data dump;
       Ret (data, r =? zlen ws * 8)
     else Ret (data, true)) = Ret (data', true) /\ R data' (l ++ concat (be64 <$> ws)).
Proof.
  intros Hr Hws Hm Hlt. unfold tru. destruct (Z.eqb_spec (zlen ws) 0) as [Hz|Hnz]; cbn [negb].
  - exists data. split; [done|]. destruct ws; [by rewrite app_nil_r|]. rewrite zlen_cons in Hz. pose proof (zlen_nonneg ws). lia.
  - rewrite (dump_words_spec _ pre ws rest) by done. run.
    destruct (write_ok data l (concat (be64 <$> ws)) Hr) as (data' & -> & Hr'); [rewrite zlen_be64s; lia..|].
    exists data'. run. rewrite zlen_be64s, Z.mul_comm, Z.eqb_refl. done.
Qed.

(** A number of 32 bits. *)
Lemma write_be32 data l x :
  R data l -> zlen l + 4 < M -> 0 <= x < 2 ^ 32 ->
  exists data', write_fun data (be32_bytes (u32 x)) = Ret (data', 4) /\ R data' (l ++ be32 x).
Proof.
  intros Hr Hm Hx. rewrite u32_small, be32_bytes_spec by done.
  by apply (write_ok data l (be32 x) Hr).
Qed.

Lemma serialize_spec self data l mem rest :
  R data l -> eb_buffer self = mem ++ rest -> eb_buffer_size self = zlen mem -> Forall is_word mem ->
  0 <= eb_bit_size self < 2 ^ 32 -> 0 <= eb_rlw self < 2 ^ 29 -> 12 + 8 * zlen mem < 2 ^ 31 -> zlen l + 12 + 8 * zlen mem < M ->
  exists data', ewah_serialize_to write_fun self data = Ret (data', 12 + 8 * zlen mem) /\
    R data' (l ++ image (eb_bit_size self) (eb_rlw self) mem).
Proof.
  intros Hr Hbuf Hsize Hmem Hbit Hrlw Hsmall Hm. unfold ewah_serialize_to. rewrite Hbuf, Hsize. pose proof (zlen_nonneg mem).
  destruct (write_be32 data l (eb_bit_size self) Hr) as (d1 & -> & HR1); [lia..|]. run.
  destruct (write_be32 d1 _ (zlen mem) HR1) as (d2 & -> & HR2); [rewrite zlen_app, zlen_be32; lia|lia|]. run.
  destruct (dump_loop (Datatypes.S (Z.to_nat (zlen mem))) d2 _ [] mem rest ltac:(lia) HR2 Hmem) as (d3 & pre & ws & Hloop & Heq & Hlt & dn & HR3 & Hdn).
  { rewrite !zlen_app, !zlen_be32. lia. }
  cbn [app] in Hloop, Heq. change (zlen []) with 0 in Hloop. rewrite Hloop. run. clear Hloop.
  assert (dn = pre) as -> by (rewrite Hdn in Heq; by apply app_inv_tail in Heq). clear Hdn. subst mem. apply Forall_app in Hmem as [_ Hws].
  rewrite zlen_app in Hsmall, Hm. rewrite <-(app_assoc pre ws rest). pose proof (zlen_nonneg pre). pose proof (zlen_nonneg ws).
  destruct (dump_rest d3 _ pre ws rest HR3 Hws) as (d4 & -> & HR4); [rewrite !zlen_app, !zlen_be32, zlen_be64s; lia|done|]. run.
  rewrite (u32_small (eb_rlw self * 8)), Z.div_mul by lia.
  destruct (write_be32 d4 _ (eb_rlw self) HR4) as (d5 & -> & HR5); [rewrite !zlen_app, !zlen_be32, !zlen_be64s; lia|lia|]. run.
  exists d5. split; [do 2 f_equal; rewrite zlen_app, i32_small; lia|]. unfold image. rewrite fmap_app, concat_app, <-!(assoc app).
  by rewrite <-!(assoc app) in HR5.
Qed.
End writer.

(** The strbuf as a writer. *)
Lemma write_strbuf_spec `{StrbufHeaderOk} sb l xs :
  sb_rep sb l -> zlen l + zlen xs < 2 ^ 64 - 1 -> zlen xs <= words_per_dump * 8 ->
  exists sb', write_strbuf junk sb xs = Ret (sb', zlen xs) /\ sb_rep sb' (l ++ xs).
Proof.
  intros Hr Hm Hle. unfold write_strbuf, words_per_dump in *. pose proof (zlen_nonneg xs).
  destruct (strbuf_add_spec junk sb l xs [] Hr) as (sb' & Hadd & Hr'); [lia|]. rewrite app_nil_r in Hadd. rewrite Hadd. run.
  exists sb'. rewrite i32_small by lia. done.
Qed.

(** ** Reading *)

Lemma rd_range_mid (pre mid post : list Z) off n :
  off = zlen pre -> n = zlen mid -> rd_range (pre ++ mid ++ post) off n = Ret mid.
Proof. intros -> ->. apply (at_pos_app _ _ _ post), at_pos_pre. Qed.

(** The words converted. *)
Lemma read_words_spec m head mem tail buffer :
  m = head ++ concat (be64 <$> mem) ++ tail -> Forall is_word mem -> zlen buffer = zlen mem -> zlen head = 8 ->
  for_n (Z.to_nat (zlen mem)) 0
    (fun i buffer => bs ← rd_range m (8 + 8 * i) 8; wr buffer i (ntohll_word bs)) buffer = Ret mem.
Proof.
  intros -> Hmem Hlen Hhead.
  edestruct (for_n_ret (fun i b => exists k, b = take (Z.to_nat i) mem ++ k /\ zlen b = zlen mem) (Z.to_nat (zlen mem)) 0) as (b & -> & k & -> & Hz).
  - intros i b Hi (k & -> & Hz). destruct (lookup_lt_is_Some_2 mem (Z.to_nat i)) as [w Hw]; [unfold zlen in *; lia|].
    pose proof (take_drop_middle _ _ _ Hw) as Hmid. set (a := take (Z.to_nat i) mem) in *. set (c := drop (Datatypes.S (Z.to_nat i)) mem) in *.
    assert (zlen a = i) as Ha by (unfold a, zlen in *; rewrite length_take; lia).
    assert (head ++ concat (be64 <$> mem) ++ tail = (head ++ concat (be64 <$> a)) ++ be64 w ++ concat (be64 <$> c) ++ tail) as ->.
    { rewrite <-Hmid, fmap_app, concat_app. cbn [fmap list_fmap concat]. same_list. }
    rewrite rd_range_mid by (rewrite ?zlen_app, ?zlen_be64s, ?zlen_be64; lia). run.
    rewrite ntohll_word_spec by (by apply (Forall_lookup_1 _ _ _ _ Hmem Hw)).
    destruct k as [|x k]; [rewrite app_nil_r, Ha in Hz; unfold zlen in *; lia|]. exists (a ++ w :: k).
    split; [by apply (wr_at a x k)|]. exists k. split; [|rewrite !zlen_app, !zlen_cons in *; lia].
    replace (Z.to_nat (i + 1)) with (Datatypes.S (Z.to_nat i)) by lia. rewrite (take_S_r _ _ _ Hw). fold a. same_list.
  - exists buffer. done.
  - rewrite Z.add_0_l, Nat2Z.id, take_ge in * by (unfold zlen; lia).
    destruct k; [by rewrite app_nil_r|]. rewrite zlen_app, zlen_cons in Hz. pose proof (zlen_nonneg k). lia.
Qed.

Lemma read_mmap_spec self bit_size rlw mem rest :
  Forall is_word mem -> 0 <= bit_size < 2 ^ 32 -> 0 <= rlw < 2 ^ 32 -> zlen mem < 2 ^ 32 ->
  ewah_read_mmap junk self (image bit_size rlw mem ++ rest) (zlen (image bit_size rlw mem ++ rest)) =
    Ret (EwahBitmap mem (zlen mem) bit_size rlw, zlen (image bit_size rlw mem)).
Proof.
  intros Hmem Hb Hr Hn. pose proof (zlen_nonneg mem). pose proof (zlen_nonneg rest). unfold ewah_read_mmap.
  set (body := concat (be64 <$> mem)). assert (zlen body = 8 * zlen mem) as Hbody by apply zlen_be64s.
  set (m := image bit_size rlw mem ++ rest). assert (zlen m = 12 + 8 * zlen mem + zlen rest) as Hm by (unfold m; by rewrite zlen_app, zlen_image).
  assert (m = (be32 bit_size ++ be32 (zlen mem)) ++ body ++ be32 rlw ++ rest) as Hmap by (unfold m, image, body; same_list).
  assert (rd_range m 0 4 = Ret (be32 bit_size)) as ->.
  { rewrite Hmap, <-(assoc app). by apply (rd_range_mid []). }
  assert (rd_range m 4 4 = Ret (be32 (zlen mem))) as Hn4.
  { rewrite Hmap, <-(assoc app). by apply rd_range_mid. }
  assert (rd_range m (8 + zlen mem * 8) 4 = Ret (be32 rlw)) as Hlast.
  { rewrite Hmap, (assoc app). apply rd_range_mid; [|done]. rewrite !zlen_app, Hbody, !zlen_be32. lia. }
  rewrite Hm, !(proj2 (Z.ltb_ge _ _)) by lia. run. rewrite Hn4. run. rewrite !get_be32_be32 by lia. cbn [eb_buffer eb_buffer_size eb_bit_size eb_rlw].
  rewrite (proj2 (Z.leb_gt (2 ^ 64) _)), (proj2 (Z.ltb_ge _ (zlen mem * 8))) by lia.
  rewrite (read_words_spec _ _ _ _ _ Hmap) by (done || (rewrite zlen_realloc; lia)). run.
  rewrite (proj2 (Z.ltb_ge _ 4)) by lia. rewrite Hlast. run. rewrite get_be32_be32, zlen_image by lia. do 2 f_equal. lia.
Qed.
(** Four bytes are a number of 32 bits. *)
Lemma get_be32_range bs : is_bytes bs -> zlen bs = 4 -> 0 <= get_be32 bs < 2 ^ 32.
Proof.
  intros Hb Hlen. destruct bs as [|a [|b [|c [|d [|e bs]]]]]; try (unfold zlen in Hlen; cbn [length] in Hlen; lia).
  rewrite !Forall_cons in Hb. destruct Hb as (Ha & Hb' & Hc & Hd & _). rewrite get_be32_spec by done. unfold is_byte in *.
  change (2 ^ 32) with (256 * 2 ^ 24). change (2 ^ 24) with (256 * 256 * 256).
  change (2 ^ 16) with (256 * 256). change (2 ^ 8) with 256. lia.
Qed.

(** The words converted, whatever they are. *)
Lemma read_words_total map n buffer :
  zlen buffer = n -> 8 + 8 * n <= zlen map -> exists buffer',
    for_n (Z.to_nat n) 0 (fun i buffer => bs ← rd_range map (8 + 8 * i) 8; wr buffer i (ntohll_word bs)) buffer = Ret buffer' /\
    zlen buffer' = n.
Proof.
  intros Hb Hmap. apply (for_n_ret (fun _ buffer => zlen buffer = n)); [|done]. intros i b Hi Hlen.
  rewrite rd_range_in by lia. run. rewrite wr_in by lia. eexists. split; [done|]. by rewrite zlen_insert.
Qed.

Lemma read_mmap_total self map :
  is_bytes map -> let n := get_be32 (slice map 4 4) in
  exists self', ewah_read_mmap junk self map (zlen map) =
    Ret (self', if (8 <=? zlen map) && (12 + 8 * n <=? zlen map) then 12 + 8 * n else -1).
Proof.
  intros Hbytes n. unfold ewah_read_mmap. pose proof (zlen_nonneg map).
  destruct (Z.leb_spec 8 (zlen map)) as [H8|H8]; cbn [andb].
  2:{ destruct (Z.ltb_spec (zlen map) 4); [by eexists|]. rewrite (rd_range_in map 0 4) by lia. run. cbv zeta. rewrite (proj2 (Z.ltb_lt (zlen map - 4) 4)) by lia. by eexists. }
  rewrite (proj2 (Z.ltb_ge (zlen map) 4)) by lia. rewrite (rd_range_in map 0 4) by lia. run.
  rewrite (proj2 (Z.ltb_ge _ 4)) by lia. rewrite (rd_range_in map 4 4) by lia. run. fold n. cbn [eb_buffer eb_buffer_size eb_bit_size eb_rlw].
  assert (0 <= n < 2 ^ 32) as Hn.
  { apply get_be32_range; [by apply Forall_take, Forall_drop|]. apply zlen_slice; lia. }
  rewrite (proj2 (Z.leb_gt (2 ^ 64) _)) by lia.
  destruct (Z.leb_spec (12 + 8 * n) (zlen map)) as [Hall|Hshort].
  - rewrite (proj2 (Z.ltb_ge _ (n * 8))) by lia.
    edestruct (read_words_total map n) as (buffer' & -> & _); [apply zlen_realloc; lia|lia|]. run.
    rewrite (proj2 (Z.ltb_ge _ 4)) by lia. rewrite rd_range_in by lia. run. eexists. do 2 f_equal. lia.
  - destruct (Z.ltb_spec (zlen map - 4 - 4) (n * 8)); [by eexists|].
    edestruct (read_words_total map n) as (buffer' & -> & _); [apply zlen_realloc; lia|lia|]. run.
    rewrite (proj2 (Z.ltb_lt _ 4)) by lia. by eexists.
Qed.

(** ** A bitmap and its image *)

Lemma ewah_at_mem `{RlwOk} self pre w lits ws0 :
  ewah_at self pre w lits ws0 -> Forall is_word (pre ++ [w] ++ lits).
Proof.
  intros Hat. apply Forall_app. split; [apply (segs_words _ _ (at_segs _ _ _ _ _ Hat))|]. by constructor; apply Hat.
Qed.

(** A bitmap depends on the words of its buffer and the last marker only. *)
Lemma ewah_at_read `{RlwOk} self pre w lits ws0 bit_size :
  let mem := pre ++ [w] ++ lits in
  ewah_at self pre w lits ws0 -> ewah_at (EwahBitmap mem (zlen mem) bit_size (zlen pre)) pre w lits ws0.
Proof.
  intros mem [_ ? ? ? ?]. split; [|done..]. split; [|done]. split; [done|]. exists []. by rewrite app_nil_r.
Qed.

(** [C27] What [ewah_serialize_strbuf] appends to a strbuf, [ewah_read_mmap] reads
    back, whatever follows it in the map and whatever the bitmap it is read into
    was: the same words, the same number of bits; both return the number of
    bytes, 12 and 8 for each word of the buffer. *)
Theorem ewah_serialize_read `{RlwOk} `{StrbufHeaderOk} self self0 ws sb l rest :
  ewah_rep self ws -> 0 <= eb_bit_size self < 2 ^ 32 -> 12 + 8 * eb_buffer_size self < 2 ^ 31 ->
  sb_rep sb l -> zlen l + 13 + 8 * eb_buffer_size self < 2 ^ 64 ->
  let n := 12 + 8 * eb_buffer_size self in
  exists sb' bytes self',
    ewah_serialize_strbuf junk self sb = Ret (sb', n) /\ sb_rep sb' (l ++ bytes) /\ zlen bytes = n /\
    ewah_read_mmap junk self0 (bytes ++ rest) (zlen (bytes ++ rest)) = Ret (self', n) /\
    ewah_rep self' ws /\ eb_bit_size self' = eb_bit_size self /\ eb_buffer_size self' = eb_buffer_size self.
Proof.
  intros (pre & w & lits & ws0 & Hat & -> & Hempty) Hbit Hsmall Hr Hm n.
  destruct (at_layout _ _ _ _ _ Hat) as [[Hsize [extra Hbuf]] Hrlw]. pose proof (ewah_at_mem _ _ _ _ _ Hat) as Hmem.
  pose proof (zlen_nonneg pre). pose proof (zlen_nonneg lits).
  assert (zlen (pre ++ [w] ++ lits) = zlen pre + 1 + zlen lits) as Hz by (rewrite !zlen_app, zlen_cons, zlen_nil; lia).
  destruct (serialize_spec (write_strbuf junk) sb_rep (2 ^ 64 - 1) write_strbuf_spec self sb l _ extra Hr Hbuf (eq_sym Hsize) Hmem)
    as (sb' & Hser & Hr'); [lia..|].
  exists sb', (image (eb_bit_size self) (eb_rlw self) (pre ++ [w] ++ lits)).
  eexists. rewrite zlen_image, Hsize in *. do 2 (split; [done|]). split; [done|].
  split; [rewrite read_mmap_spec by (done || lia); by rewrite zlen_image, Hsize|]. rewrite Hrlw.
  split; [|done]. exists pre, w, lits, ws0. split; [|done].
  pose proof (ewah_at_read self _ _ _ _ (eb_bit_size self) Hat) as Hat'. cbv zeta in Hat'. by rewrite Hsize in Hat'.
Qed.

(** [C28] Reading any bytes stays inside the map, and succeeds exactly when they
    are at least the 12 bytes of the numbers and 8 for each of the words
    announced: it returns their number, and -1 when the map is shorter. *)
Theorem ewah_read_bounds self map :
  is_bytes map -> let n := get_be32 (slice map 4 4) in
  exists self' r, ewah_read_mmap junk self map (zlen map) = Ret (self', r) /\
    (r = -1 <-> zlen map < 8 \/ zlen map < 12 + 8 * n) /\ (r <> -1 -> r = 12 + 8 * n).
Proof.
  intros Hb n. destruct (read_mmap_total self map Hb) as [self' Hread]. fold n in Hread. exists self'. eexists. split; [exact Hread|].
  assert (0 <= n \/ zlen map < 8) as Hn.
  { destruct (decide (zlen map < 8)); [by right|left]. apply get_be32_range; [by apply Forall_take, Forall_drop|]. apply zlen_slice; lia. }
  destruct (Z.leb_spec 8 (zlen map)), (Z.leb_spec (12 + 8 * n) (zlen map)); cbn [andb]; lia.
Qed.
End proofs.

(** * Reference instance *)

Definition word_order_ref : WordOrder := {|
  htonll_bytes := be64;
  ntohll_word := foldl (fun v b => v * 256 + b) 0;
|}.

Lemma word_order_ref_ok : @WordOrderOk word_order_ref.
Proof.
  split; [done|]. intros x Hx. cbn [ntohll_word word_order_ref foldl be64 be32 app]. rewrite !Z.shiftr_div_pow2 by lia.
  unfold is_word in Hx. change (2 ^ 64) with (2 ^ 32 * 2 ^ 32) in Hx. change (2 ^ 32) with (256 * 2 ^ 24) in *. Z.to_euclidean_division_equations; lia.
Qed.

(** * Runs *)

Section runs.
#[local] Existing Instances compat_ref rlw_ref order_ref word_order_ref strbuf_ref.

(** One marker with one literal after it. *)
Definition w_bitmap : ewah_bitmap := EwahBitmap [2 ^ 33; 5; 0; 0] 2 64 0.

Lemma ewah_serialize_read_witness :
  exists sb' bytes self',
    ewah_serialize_strbuf 0 w_bitmap (Strbuf 0 0 [0]) = Ret (sb', 28) /\ sb_rep sb' ([] ++ bytes) /\ zlen bytes = 28 /\
    ewah_read_mmap 0 w_bitmap (bytes ++ [1; 2]) (zlen (bytes ++ [1; 2])) = Ret (self', 28) /\
    ewah_rep self' [5] /\ eb_bit_size self' = 64 /\ eb_buffer_size self' = 2.
Proof.
  apply (@ewah_serialize_read _ compat_ref_ok _ order_ref_ok _ word_order_ref_ok 0 _ rlw_ref_ok _ strbuf_ref_ok
    w_bitmap w_bitmap [5] (Strbuf 0 0 [0]) [] [1; 2]); [|cbn [eb_bit_size w_bitmap]; lia|done|by split; [|split; [exists []|left]]|done].
  exists [], (2 ^ 33), [5], []. split; [|split; [done|by left]]. split; [split; [split; [done|by exists [0; 0]]|done]|..].
  - constructor.
  - done.
  - by repeat constructor.
  - done.
Defined.

Lemma ewah_read_bounds_witness :
  exists self' r, ewah_read_mmap 0 w_bitmap [0; 0; 0; 64; 0; 0; 0; 2; 0] 9 = Ret (self', r) /\
    (r = -1 <-> 9 < 8 \/ 9 < 12 + 8 * 2) /\ (r <> -1 -> r = 12 + 8 * 2).
Proof.
  apply (@ewah_read_bounds _ order_ref_ok _ 0 w_bitmap [0; 0; 0; 64; 0; 0; 0; 2; 0]).
  by repeat constructor.
Defined.

(** The position of the last marker is taken as it is: here beyond the words. *)
Lemma ewah_read_unchecked_rlw :
  exists self', ewah_read_mmap 0 w_bitmap [0; 0; 0; 0;  0; 0; 0; 0;  0; 0; 0; 7] 12 = Ret (self', 12) /\
    eb_buffer_size self' = 0 /\ get_rlw self' = Undef.
Proof. eexists. split; [vm_compute; reflexivity|]. done. Qed.
End runs.
