(* ===== verification/Wildmatch.v ===== *)
(** wildmatch.c: shell patterns with the wildcards ?, *, ** and character classes.
    The matcher gives up early, by two special results; the theorem is that it
    answers what the definition of the patterns says. *)
From S2P Require Import Prelude.
From Stdlib Require Ascii String.
Import (notations) String.

(** * Headers *)

(** The tests of characters of git-compat-util.h; [isblank] and [isgraph] are
    there only on some systems. *)
Class WildCtype := {
  isascii : Z -> bool;
  isalnum : Z -> bool;
  isalpha : Z -> bool;
  isblank : option (Z -> bool);
  iscntrl : Z -> bool;
  isdigit : Z -> bool;
  isgraph : option (Z -> bool);
  islower : Z -> bool;
  isprint : Z -> bool;
  ispunct : Z -> bool;
  isspace : Z -> bool;
  isupper : Z -> bool;
  isxdigit : Z -> bool;
  tolower : Z -> Z;
  toupper : Z -> Z;
  is_glob_special : Z -> bool;
}.

(** Letters of the C locale, and the characters special in patterns. *)
Class WildCtypeOk `{WildCtype} : Prop := {
  isascii_spec c : is_byte c -> isascii c = (c <? 128);
  isupper_spec c : is_byte c -> isupper c = (65 <=? c) && (c <=? 90);
  tolower_spec c : 65 <= c <= 90 -> tolower c = c + 32;
  is_glob_special_spec c : is_byte c -> is_glob_special c = bool_decide (c ∈ [42; 63; 91; 92]);
}.

(** The characters of a string literal. *)
Definition lit (s : String.string) : list Z := (fun c => Z.of_N (Ascii.N_of_ascii c)) <$> String.list_ascii_of_string s.

(** * Model *)

Section model.
Context `{WildCtype}.

Definition ISBLANK (c : Z) : bool :=
  match isblank with Some f => isascii c && f c | None => (c =? 32) || (c =? 9) end.
Definition ISGRAPH (c : Z) : bool :=
  match isgraph with Some f => isascii c && f c | None => isascii c && isprint c && negb (isspace c) end.
Definition ISPRINT (c : Z) : bool := isascii c && isprint c.
Definition ISDIGIT (c : Z) : bool := isascii c && isdigit c.
Definition ISALNUM (c : Z) : bool := isascii c && isalnum c.
Definition ISALPHA (c : Z) : bool := isascii c && isalpha c.
Definition ISCNTRL (c : Z) : bool := isascii c && iscntrl c.
Definition ISLOWER (c : Z) : bool := isascii c && islower c.
Definition ISPUNCT (c : Z) : bool := isascii c && ispunct c.
Definition ISSPACE (c : Z) : bool := isascii c && isspace c.
Definition ISUPPER (c : Z) : bool := isascii c && isupper c.
Definition ISXDIGIT (c : Z) : bool := isascii c && isxdigit c.

(** The results: WM_MATCH, WM_NOMATCH, WM_ABORT_ALL and WM_ABORT_TO_STARSTAR. *)
Inductive wm := MATCH | NOMATCH | ABORT_ALL | ABORT_TO_STARSTAR.

#[export] Instance wm_eq_dec : EqDecision wm.
Proof. solve_decision. Defined.

(** The flags. *)
Context (WM_CASEFOLD WM_PATHNAME : bool).

(** A pointer into the pattern: the character before it, if it is not at the
    beginning, and the string from it.  It never moves beyond the NUL. *)
Definition cursor : Type := option Z * list Z.
Definition here (p : cursor) : Z := deref (snd p).
Definition next (p : cursor) : outcome cursor :=
  match snd p with [] => Undef | c :: s => Ret (Some c, s) end.
(** [p[1]] *)
Definition peek (p : cursor) : outcome Z := match snd p with [] => Undef | _ :: s => Ret (deref s) end.
(** [text + 1] *)
Definition advance (text : list Z) : outcome (list Z) := match text with [] => Undef | _ :: s => Ret s end.

Definition fold_case (c : Z) : Z := if WM_CASEFOLD && ISUPPER c then tolower c else c.

(** ** Character classes *)

(** A named class; [None] for an unknown name. *)
Definition named_class (name : list Z) (t_ch : Z) : option bool :=
  let eq s := bool_decide (name = lit s) in
  if eq "alnum"%string then Some (ISALNUM t_ch)
  else if eq "alpha"%string then Some (ISALPHA t_ch)
  else if eq "blank"%string then Some (ISBLANK t_ch)
  else if eq "cntrl"%string then Some (ISCNTRL t_ch)
  else if eq "digit"%string then Some (ISDIGIT t_ch)
  else if eq "graph"%string then Some (ISGRAPH t_ch)
  else if eq "lower"%string then Some (ISLOWER t_ch)
  else if eq "print"%string then Some (ISPRINT t_ch)
  else if eq "punct"%string then Some (ISPUNCT t_ch)
  else if eq "space"%string then Some (ISSPACE t_ch)
  else if eq "upper"%string then Some (ISUPPER t_ch || WM_CASEFOLD && ISLOWER t_ch)
  else if eq "xdigit"%string then Some (ISXDIGIT t_ch)
  else None.

(** The characters up to the next closing bracket, and the rest from it. *)
Fixpoint to_bracket (s : list Z) : list Z * list Z :=
  match s with
  | [] => ([], [])
  | c :: s' => if c =? 93 then ([], s) else let '(a, b) := to_bracket s' in (c :: a, b)
  end.

(** The alternatives of the loop body: the pointer, [p_ch] and [matched], or
    [None] for WM_ABORT_ALL. *)
Definition class_escape (t_ch : Z) (p : cursor) (matched : bool) : outcome (option (cursor * Z * bool)) :=
  p ← next p;
  if here p =? 0 then Ret None else
  Ret (Some (p, here p, matched || (t_ch =? here p))).

Definition class_range (t_ch prev_ch : Z) (p : cursor) (matched : bool) : outcome (option (cursor * Z * bool)) :=
  p ← next p;
  p ← (if here p =? 92 then next p else Ret p);
  if here p =? 0 then Ret None else
  let p_ch := here p in
  let hit :=
    if (t_ch <=? p_ch) && (t_ch >=? prev_ch) then true
    else if WM_CASEFOLD && ISLOWER t_ch then (toupper t_ch <=? p_ch) && (toupper t_ch >=? prev_ch)
    else false in
  Ret (Some (p, 0, matched || hit)).

Definition class_named (t_ch : Z) (p : cursor) (matched : bool) : outcome (option (cursor * Z * bool)) :=
  s ← next p;
  s ← next s;
  let '(name, rest) := to_bracket (snd s) in
  match rest with
  | [] => Ret None
  | _ =>
      let i := zlen name - 1 in
      if (i <? 0) || negb (bool_decide (last name = Some 58)) then Ret (Some (p, 91, matched || (t_ch =? 91)))
      else
        match named_class (take (Z.to_nat i) name) t_ch with
        | None => Ret None
        | Some hit => Ret (Some ((last name, rest), 0, matched || hit))
        end
  end.

(** The state: the pointer, [p_ch], [prev_ch] and [matched]; the result: the
    pointer to the closing bracket and [matched], or [None] for WM_ABORT_ALL. *)
Definition class_step (t_ch : Z) (st : cursor * Z * Z * bool) : outcome ((cursor * Z * Z * bool) + option (cursor * bool)) :=
  let '(p, p_ch, prev_ch, matched) := st in
  if p_ch =? 0 then Ret (inr None) else
  p1 ← peek p;
  r ← (if p_ch =? 92 then class_escape t_ch p matched
       else if (p_ch =? 45) && tru prev_ch && tru p1 && negb (p1 =? 93) then class_range t_ch prev_ch p matched
       else if (p_ch =? 91) && (p1 =? 58) then class_named t_ch p matched
       else Ret (Some (p, p_ch, matched || (t_ch =? p_ch))));
  match r with
  | None => Ret (inr None)
  | Some (p, p_ch, matched) =>
      let prev_ch := p_ch in
      p ← next p;
      if here p =? 93 then Ret (inr (Some (p, matched))) else Ret (inl (p, here p, prev_ch, matched))
  end.

(** [case '[']: whether the class as a whole holds of the character, and the
    pointer to the closing bracket. *)
Definition bracket (t_ch : Z) (p : cursor) : outcome (option (cursor * bool)) :=
  p ← next p;
  let p_ch := if here p =? 94 then 33 else here p in
  let negated := p_ch =? 33 in
  p ← (if negated then next p else Ret p);
  r ← loop (S (length (snd p))) (class_step t_ch) (p, (if negated then here p else p_ch), 0, false);
  match r with
  | None => Ret None
  | Some (p, matched) => Ret (Some (p, negb (Bool.eqb matched negated)))
  end.

(** ** Matching *)

(** [while ( *++p == '*') {}], on the string after the second star. *)
Fixpoint skip_stars (s : list Z) : list Z :=
  match s with
  | [] => []
  | c :: s' => if c =? 42 then skip_stars s' else s
  end.

Fixpoint strchr (s : list Z) (c : Z) : option (list Z) :=
  match s with
  | [] => None
  | x :: s' => if x =? c then Some s else strchr s' c
  end.

(** To the next character of the text that may be the literal [p_ch]; with the
    value of [t_ch] at the end. *)
Fixpoint skip_to (match_slash : bool) (p_ch : Z) (text : list Z) : list Z * Z :=
  match text with
  | [] => ([], 0)
  | c :: text' =>
      if match_slash || negb (c =? 47) then
        if fold_case c =? p_ch then (text, fold_case c) else skip_to match_slash p_ch text'
      else (text, c)
  end.

Section rounds.
(** The recursive call. *)
Context (rec : list Z -> list Z -> outcome wm).

(** [while (1)]: what follows the star is tried at one position after the other;
    on [text] and [t_ch]. *)
Definition star_step (p : cursor) (match_slash : bool) (st : list Z * Z) : outcome ((list Z * Z) + wm) :=
  let '(text, t_ch) := st in
  if t_ch =? 0 then Ret (inr ABORT_ALL) else
  let literal := negb (is_glob_special (here p)) in
  let p_ch := fold_case (here p) in
  let '(text, t_ch) := if literal then skip_to match_slash p_ch text else (text, t_ch) in
  if literal && negb (t_ch =? p_ch) then Ret (inr (if match_slash then ABORT_ALL else ABORT_TO_STARSTAR)) else
  matched ← rec (snd p) text;
  if negb (bool_decide (matched = NOMATCH)) && (negb match_slash || negb (bool_decide (matched = ABORT_TO_STARSTAR))) then
    Ret (inr matched)
  else if bool_decide (matched = NOMATCH) && negb match_slash && (t_ch =? 47) then Ret (inr ABORT_TO_STARSTAR)
  else text ← advance text; Ret (inl (text, deref text)).

(** Whether the stars are two or more that may match slashes, next to slashes. *)
Definition starstar_place (prev : option Z) (p : cursor) : outcome bool :=
  if (match prev with None => true | Some c => c =? 47 end) then
    if (here p =? 0) || (here p =? 47) then Ret true
    else if here p =? 92 then c ← peek p; Ret (c =? 47) else Ret false
  else Ret false.

(** The stars: the pointer after them and [match_slash], or WM_MATCH. *)
Definition stars (p : cursor) (text : list Z) : outcome (cursor * bool + wm) :=
  let prev := fst p in
  p ← next p;
  if here p =? 42 then
    p ← next p;
    let p := (Some 42, skip_stars (snd p)) in
    if negb WM_PATHNAME then Ret (inl (p, true)) else
    place ← starstar_place prev p;
    if place : bool then
      skip ← (if here p =? 47 then p1 ← next p; matched ← rec (snd p1) text; Ret (bool_decide (matched = MATCH)) else Ret false);
      if skip : bool then Ret (inr MATCH) else Ret (inl (p, true))
    else Ret (inl (p, false))
  else Ret (inl (p, negb WM_PATHNAME)).

(** The body of the main loop, on [p] and [text]. *)
Definition dowild_step (st : cursor * list Z) : outcome ((cursor * list Z) + wm) :=
  let '(p, text) := st in
  if here p =? 0 then Ret (inr (if tru (deref text) then NOMATCH else MATCH)) else
  let t_ch := deref text in
  if (t_ch =? 0) && negb (here p =? 42) then Ret (inr ABORT_ALL) else
  let t_ch := fold_case t_ch in
  let p_ch := fold_case (here p) in
  let continue_ p text := text ← advance text; p ← next p; Ret (inl (p, text)) in
  if p_ch =? 63 then
    if WM_PATHNAME && (t_ch =? 47) then Ret (inr NOMATCH) else continue_ p text
  else if p_ch =? 42 then
    r ← stars p text;
    match r with
    | inr matched => Ret (inr matched)
    | inl (p, match_slash) =>
        if here p =? 0 then
          Ret (inr (if negb match_slash then match strchr text 47 with Some _ => ABORT_TO_STARSTAR | None => MATCH end else MATCH))
        else if negb match_slash && (here p =? 47) then
          match strchr text 47 with
          | None => Ret (inr ABORT_ALL)
          | Some slash => continue_ p slash
          end
        else matched ← loop (S (length text)) (star_step p match_slash) (text, t_ch); Ret (inr matched)
    end
  else if p_ch =? 91 then
    r ← bracket t_ch p;
    match r with
    | None => Ret (inr ABORT_ALL)
    | Some (p, hit) => if negb hit || WM_PATHNAME && (t_ch =? 47) then Ret (inr NOMATCH) else continue_ p text
    end
  else
    p ← (if p_ch =? 92 then next p else Ret p);
    let p_ch := if p_ch =? 92 then here p else p_ch in
    if negb (t_ch =? p_ch) then Ret (inr NOMATCH) else continue_ p text.
End rounds.

(** The recursion goes to a shorter pattern; so does each round. *)
Fixpoint dowild (fuel : nat) (p text : list Z) : outcome wm :=
  match fuel with
  | O => Undef
  | S fuel => loop (S (length p)) (dowild_step (dowild fuel)) ((None, p), text)
  end.

Definition wildmatch (pattern text : list Z) : outcome wm :=
  res ← dowild (S (length pattern)) pattern text;
  Ret (if bool_decide (res = MATCH) then MATCH else NOMATCH).
End model.

(** * What patterns mean *)

Section spec.
Context `{WildCtype} (WM_CASEFOLD WM_PATHNAME : bool).
Notation fold_case := (fold_case WM_CASEFOLD).
Notation named_class := (named_class WM_CASEFOLD).

(** The elements of a character class. *)
Inductive elem :=
| Single (c : Z)
| Range (lo hi : Z)
| Named (name : list Z).

Definition elem_has (t : Z) (e : elem) : bool :=
  match e with
  | Single c => t =? c
  | Range lo hi =>
      (lo <=? t) && (t <=? hi) || WM_CASEFOLD && ISLOWER t && (lo <=? toupper t) && (toupper t <=? hi)
  | Named name => default false (named_class name t)
  end.

Definition known (name : list Z) : bool := bool_decide (is_Some (named_class name 0)).

(** The first element of [s] and what follows it; [prev], if not 0, is the
    single character before, which may begin a range. *)
Definition elem_at (prev : Z) (s : list Z) : option (elem * Z * list Z) :=
  match s with
  | [] => None
  | c :: s1 =>
      if c =? 92 then
        match s1 with [] => None | e :: s2 => Some (Single e, e, s2) end
      else if (c =? 45) && tru prev && tru (deref s1) && negb (deref s1 =? 93) then
        match s1 with
        | [] => None
        | e :: s2 =>
            if e =? 92 then match s2 with [] => None | e :: s3 => Some (Range prev e, 0, s3) end
            else Some (Range prev e, 0, s2)
        end
      else if (c =? 91) && (deref s1 =? 58) then
        let '(name, rest) := to_bracket (tail s1) in
        match rest with
        | [] => None
        | _ :: s2 =>
            match last name with
            | Some 58 => if known (removelast name) then Some (Named (removelast name), 0, s2) else None
            | _ => Some (Single 91, 91, s1)
            end
        end
      else Some (Single c, c, s1)
  end.

(** The elements up to the closing bracket, which cannot be the first of them. *)
Fixpoint set_elems (n : nat) (prev : Z) (s : list Z) : option (list elem * list Z) :=
  match n with
  | O => None
  | S n =>
      match elem_at prev s with
      | None => None
      | Some (e, prev, s) =>
          if deref s =? 93 then Some ([e], tail s)
          else match set_elems n prev s with None => None | Some (es, rest) => Some (e :: es, rest) end
      end
  end.

(** A class after its opening bracket. *)
Definition class_at (s : list Z) : option ((Z -> bool) * list Z) :=
  let negated := (deref s =? 94) || (deref s =? 33) in
  let s := if negated then tail s else s in
  match set_elems (length s) 0 s with
  | None => None
  | Some (es, rest) => Some (fun t => negb (Bool.eqb (existsb (elem_has t) es) negated), rest)
  end.

(** A part of a pattern that matches one character: which ones, the last
    character of the part, and the rest. *)
Definition item (p : list Z) : option ((Z -> bool) * Z * list Z) :=
  match p with
  | [] => None
  | c :: p1 =>
      if c =? 63 then Some (fun t => negb (WM_PATHNAME && (t =? 47)), 63, p1)
      else if c =? 42 then None
      else if c =? 91 then
        match class_at p1 with
        | None => None
        | Some (f, rest) => Some (fun t => f (fold_case t) && negb (WM_PATHNAME && (t =? 47)), 93, rest)
        end
      else if c =? 92 then
        match p1 with [] => None | e :: p2 => Some (fun t => fold_case t =? e, e, p2) end
      else Some (fun t => fold_case t =? fold_case c, c, p1)
  end.

(** Two stars or more may match slashes if the end or a slash follows. *)
Definition wide (p : list Z) : bool :=
  match p with [] => true | c :: p1 => (c =? 47) || (c =? 92) && (deref p1 =? 47) end.

(** [matches bos p t]: the pattern [p] matches the text [t]; [bos] at the
    beginning of a path component of the pattern. *)
Inductive matches : bool -> list Z -> list Z -> Prop :=
| matches_end bos : matches bos [] []
| matches_item bos p f last p' c t :
    item p = Some (f, last, p') -> f c = true -> matches (last =? 47) p' t -> matches bos p (c :: t)
| matches_star bos p t1 t2 :
    (Is_true WM_PATHNAME -> 47 ∉ t1) -> matches false p t2 -> matches bos (42 :: p) (t1 ++ t2)
| matches_starstar n p t1 t2 :
    Is_true WM_PATHNAME -> wide p = true -> matches false p t2 -> matches true (replicate (S (S n)) 42 ++ p) (t1 ++ t2)
| matches_starstar_slash n p t :
    Is_true WM_PATHNAME -> matches true p t -> matches true (replicate (S (S n)) 42 ++ 47 :: p) t.
End spec.

(** * Correctness *)

Section proofs.
Context `{WildCtypeOk} (WM_CASEFOLD WM_PATHNAME : bool).
Notation fold_case := (fold_case WM_CASEFOLD).
Notation part := (item WM_CASEFOLD WM_PATHNAME).
Notation matches := (matches WM_CASEFOLD WM_PATHNAME).
Notation no_nul := (Forall (fun c : Z => c <> 0)).

(** The characters of a C string. *)
Definition is_char (c : Z) : Prop := 0 < c < 256.
Notation is_chars := (Forall is_char).

Lemma fold_case_cases c : is_byte c -> fold_case c = c \/ 65 <= c <= 90 /\ fold_case c = c + 32.
Proof.
  intros Hc. unfold fold_case, ISUPPER. rewrite isupper_spec, isascii_spec by done.
  destruct WM_CASEFOLD; cbn [andb]; [|by left]. case_if; [|by left]. right. split; [lia|]. apply tolower_spec. lia.
Qed.

(** ** Classes *)

Lemma to_bracket_spec s : let '(a, b) := to_bracket s in s = a ++ b /\ (b = [] \/ exists b', b = 93 :: b').
Proof.
  induction s as [|c s IH]; cbn [to_bracket]; [by auto|]. destruct (Z.eqb_spec c 93) as [->|]; [eauto|].
  destruct (to_bracket s) as [a b]. destruct IH as [-> ?]. done.
Qed.

Lemma named_class_known name t : is_Some (named_class WM_CASEFOLD name t) <-> known WM_CASEFOLD name = true.
Proof.
  unfold known. rewrite bool_decide_eq_true. unfold named_class. repeat case_bool_decide; split; eauto.
Qed.

Ltac char_tests := repeat match goal with
  | |- context [(?x =? ?x)] => rewrite Z.eqb_refl
  | Hx : ?x <> ?y |- context [(?x =? ?y)] => rewrite (proj2 (Z.eqb_neq x y) Hx)
  end; cbn [negb andb orb].

Lemma range_has t prev c :
  (if (t <=? c) && (t >=? prev) then true
   else if WM_CASEFOLD && ISLOWER t then (toupper t <=? c) && (toupper t >=? prev) else false) =
  elem_has WM_CASEFOLD t (Range prev c).
Proof.
  cbn [elem_has]. rewrite !Z.geb_leb. destruct (t <=? c), (prev <=? t), WM_CASEFOLD, (ISLOWER t), (toupper t <=? c), (prev <=? toupper t); done.
Qed.

(** The end of a round at an element. *)
Definition class_round (matched : bool) (s' : list Z) (prev' : Z) (r : outcome (cursor * Z * Z * bool + option (cursor * bool))) : Prop :=
  exists q, r = if deref s' =? 93 then Ret (inr (Some ((q, s'), matched))) else Ret (inl ((q, s'), deref s', prev', matched)).

Lemma class_named_spec t q s1 matched :
  is_chars s1 -> deref s1 = 58 ->
  match elem_at WM_CASEFOLD 0 (91 :: s1) with
  | None => class_named WM_CASEFOLD t (q, 91 :: s1) matched = Ret None
  | Some (e, prev', s') => exists p,
      class_named WM_CASEFOLD t (q, 91 :: s1) matched = Ret (Some (p, prev', matched || elem_has WM_CASEFOLD t e)) /\
      snd p <> [] /\ tail (snd p) = s'
  end.
Proof.
  intros Hs H58. destruct s1 as [|x s1]; [done|]. cbn [deref] in H58. subst x. cbn [elem_at deref tail]. unfold class_named, next. repeat (cbn [snd fst]; run).
  cbn [snd]. pose proof (to_bracket_spec s1) as Hb. destruct (to_bracket s1) as [name rest].
  destruct Hb as [-> [->|[rest' ->]]].
  { done. }
  change (91 =? 92) with false. change (91 =? 45) with false. change (91 =? 91) with true. change (58 =? 58) with true. cbn [andb].
  destruct name as [|c name _] using rev_ind.
  - cbn [last zlen length]. change (zlen []) with 0. cbn [Z.ltb Z.compare orb]. exists (q, 91 :: 58 :: [] ++ 93 :: rest'). done.
  - rewrite last_snoc, removelast_last, zlen_app. change (zlen [c]) with 1. replace (zlen name + 1 - 1) with (zlen name) by lia.
    pose proof (zlen_nonneg name). rewrite (proj2 (Z.ltb_ge _ 0)) by done. cbn [orb].
    destruct (take_drop_zlen name [c]) as [-> _]. destruct (decide (c = 58)) as [->|Hne].
    + rewrite bool_decide_true by done. cbn [negb]. destruct (known WM_CASEFOLD name) eqn:Hk.
      * apply (named_class_known name t) in Hk as [hit Hhit]. cbn [elem_has]. rewrite Hhit. by exists (Some 58, 93 :: rest').
      * destruct (named_class WM_CASEFOLD name t) eqn:E; [|done]. exfalso.
        assert (known WM_CASEFOLD name = true) by (apply (named_class_known name t); eauto). congruence.
    + rewrite bool_decide_false by congruence. cbn [negb].
      assert (match c with 58 => if known WM_CASEFOLD name then Some (Named name, 0, rest') else None | _ => Some (Single 91, 91, 58 :: (name ++ [c]) ++ 93 :: rest') end
        = Some (Single 91, 91, 58 :: (name ++ [c]) ++ 93 :: rest')) as ->.
      { destruct c as [|c|c]; [done| |done]. repeat (destruct c as [c|c|]; try done). }
      by exists (q, 91 :: 58 :: (name ++ [c]) ++ 93 :: rest').
Qed.

Lemma tru_char x : is_char x -> tru x = true.
Proof. intros Hx. apply tru_true. unfold is_char in Hx. lia. Qed.

(** An element takes at least one character. *)
Lemma elem_at_rest prev s e prev' s' :
  elem_at WM_CASEFOLD prev s = Some (e, prev', s') -> exists k, s = k ++ s' /\ k <> [].
Proof.
  destruct s as [|c s1]; [done|]. cbn [elem_at]. case_if.
  { destruct s1 as [|x s2]; [done|]. intros [= _ _ <-]. by exists [c; x]. }
  case_if.
  { destruct s1 as [|x s2]; [done|]. case_if; [|intros [= _ _ <-]; by exists [c; x]].
    destruct s2 as [|y s3]; [done|]. intros [= _ _ <-]. by exists [c; x; y]. }
  case_if; [|intros [= _ _ <-]; by exists [c]]. pose proof (to_bracket_spec (tail s1)) as Hb. destruct (to_bracket (tail s1)) as [name rest].
  destruct Hb as [Hs1 _]. destruct rest as [|x s2]; [done|]. destruct s1 as [|y s1]; [done|]. cbn [tail] in Hs1. subst s1.
  assert (forall p, Some p = Some (e, prev', s') -> snd p = s2 \/ snd p = y :: name ++ x :: s2 -> exists k, c :: y :: name ++ x :: s2 = k ++ s' /\ k <> []) as Hk.
  { intros p [= ->] [Hp|Hp]; cbn [snd] in Hp; subst s'; [exists (c :: y :: name ++ [x]); split; [same_list|done]|by exists [c]]. }
  destruct (last name) as [[|l|l]|]; [by intros Hp; apply (Hk _ Hp); right| |by intros Hp; apply (Hk _ Hp); right..].
  destruct (known WM_CASEFOLD (removelast name)); repeat (destruct l as [l|l|]; try done; try by intros Hp; apply (Hk _ Hp); auto).
Qed.

(** One round reads one element. *)
Lemma class_step_spec t q s prev matched :
  is_chars s ->
  match elem_at WM_CASEFOLD prev s with
  | None => class_step WM_CASEFOLD t ((q, s), deref s, prev, matched) = Ret (inr None)
  | Some (e, prev', s') =>
      class_round (matched || elem_has WM_CASEFOLD t e) s' prev' (class_step WM_CASEFOLD t ((q, s), deref s, prev, matched))
  end.
Proof.
  intros Hs. destruct s as [|c s1]; [done|]. pose proof Hs as [Hc Hs1]%Forall_cons.
  unfold class_step. cbn [deref]. rewrite (proj2 (Z.eqb_neq c 0)) by (unfold is_char in Hc; lia). unfold peek. cbn [snd]. run.
  assert (forall p prev' s' m, snd p <> [] -> tail (snd p) = s' -> class_round m s' prev'
    (Ret (Some (p, prev', m)) ≫= fun r => match r with
      | Some (p, p_ch, matched) => p ← next p; if here p =? 93 then Ret (inr (Some (p, matched))) else Ret (inl (p, here p, p_ch, matched))
      | None => Ret (inr None) end)) as Hround.
  { intros [q' u] prev' s' m Hu <-. cbn [snd] in *. destruct u as [|x u]; [done|]. exists (Some x). by unfold next, here. }
  destruct (Z.eqb_spec c 92) as [->|H92].
  { cbn [elem_at]. rewrite Z.eqb_refl. unfold class_escape, next, here. cbn [snd]. run. destruct s1 as [|e s2]; [done|]. cbn [deref snd].
    pose proof Hs1 as [He Hs2]%Forall_cons. rewrite (proj2 (Z.eqb_neq e 0)) by (unfold is_char in He; lia).
    by apply (Hround (Some 92, e :: s2)). }
  cbn [elem_at]. rewrite (proj2 (Z.eqb_neq c 92)) by done.
  destruct ((c =? 45) && tru prev && tru (deref s1) && negb (deref s1 =? 93)) eqn:Hrange.
  { zb. subst c. destruct s1 as [|e s2]; [done|]. pose proof Hs1 as [He Hs2]%Forall_cons. unfold class_range, next, here. cbn [snd deref]. run. cbn [snd deref].
    destruct (Z.eqb_spec e 92) as [->|].
    - run. cbn [snd]. destruct s2 as [|e' s3]; [done|]. pose proof Hs2 as [He' Hs3]%Forall_cons. cbn [deref].
      rewrite (proj2 (Z.eqb_neq e' 0)) by (unfold is_char in He'; lia). rewrite range_has. by apply (Hround (Some 92, e' :: s3)).
    - run. cbn [snd deref]. rewrite (proj2 (Z.eqb_neq e 0)) by (unfold is_char in He; lia). rewrite range_has. by apply (Hround (Some 45, e :: s2)). }
  destruct ((c =? 91) && (deref s1 =? 58)) eqn:Hnamed; [|by apply (Hround (q, c :: s1))].
  zb. subst c. pose proof (class_named_spec t q s1 matched Hs1 ltac:(done)) as Hn. cbn [elem_at] in Hn.
  change (91 =? 92) with false in Hn. change (91 =? 45) with false in Hn. change (91 =? 91) with true in Hn.
  rewrite (proj2 (Z.eqb_eq (deref s1) 58)) in Hn by done. cbn [andb] in Hn.
  destruct (let '(name, rest) := to_bracket (tail s1) in _) as [[[e prev'] s']|]; [|by rewrite Hn].
  destruct Hn as (p & -> & Hp & Htl). by apply Hround.
Qed.

(** ** The class *)

Lemma class_loop_spec t fuel : forall n q s prev matched,
  is_chars s -> (length s <= n)%nat -> (length s < fuel)%nat ->
  exists q', loop fuel (class_step WM_CASEFOLD t) ((q, s), deref s, prev, matched) =
    Ret (match set_elems WM_CASEFOLD n prev s with
         | None => None
         | Some (es, rest) => Some ((q', 93 :: rest), matched || existsb (elem_has WM_CASEFOLD t) es)
         end).
Proof.
  induction fuel as [|fuel IH]; intros n q s prev matched Hs Hn Hf; [lia|].
  pose proof (class_step_spec t q s prev matched Hs) as Hstep. destruct n as [|n].
  { destruct s; [|cbn in Hn; lia]. exists q. by apply loop_stop. }
  cbn [set_elems]. destruct (elem_at WM_CASEFOLD prev s) as [[[e prev'] s']|] eqn:E.
  2:{ exists q. by apply loop_stop. }
  destruct (elem_at_rest _ _ _ _ _ E) as (k & -> & Hk). destruct k as [|x k]; [done|]. rewrite length_app in Hn, Hf. cbn [length] in Hn, Hf.
  apply Forall_app in Hs as [_ Hs']. destruct Hstep as [q' Hstep].
  destruct (Z.eqb_spec (deref s') 93) as [H93|].
  - destruct s' as [|y s']; [done|]. cbn [deref] in H93. subst y. exists q'. rewrite (loop_stop _ _ _ _ Hstep). cbn [existsb tail]. by rewrite orb_false_r.
  - rewrite (loop_next _ _ _ _ Hstep). destruct (IH n q' s' prev' (matched || elem_has WM_CASEFOLD t e) Hs') as [q'' ->]; [lia..|].
    exists q''. destruct (set_elems WM_CASEFOLD n prev' s') as [[es rest]|]; [|done]. cbn [existsb]. by rewrite orb_assoc.
Qed.

Lemma bracket_spec t q p1 :
  is_chars p1 ->
  exists q', bracket WM_CASEFOLD t (q, 91 :: p1) =
    Ret (match class_at WM_CASEFOLD p1 with None => None | Some (f, rest) => Some ((q', 93 :: rest), f t) end).
Proof.
  intros Hp. unfold bracket, class_at, next, here. cbn [snd]. run. cbn [snd].
  assert (((if deref p1 =? 94 then 33 else deref p1) =? 33) = ((deref p1 =? 94) || (deref p1 =? 33))) as -> by (by destruct (deref p1 =? 94)).
  destruct ((deref p1 =? 94) || (deref p1 =? 33)) eqn:E.
  - destruct p1 as [|c p1]; [done|]. run. cbn [snd tail]. apply Forall_cons in Hp as [_ Hp].
    destruct (class_loop_spec t (S (length p1)) (length p1) (Some c) p1 0 false Hp) as [q' ->]; [lia..|]. exists q'. run.
    by destruct (set_elems _ _ _ _) as [[es rest]|].
  - run. cbn [snd]. apply orb_false_iff in E as [-> _].
    destruct (class_loop_spec t (S (length p1)) (length p1) (Some 91) p1 0 false Hp) as [q' ->]; [lia..|]. exists q'. run.
    by destruct (set_elems _ _ _ _) as [[es rest]|].
Qed.

(** ** Parts of patterns *)

Lemma set_elems_rest n : forall prev s es rest, set_elems WM_CASEFOLD n prev s = Some (es, rest) -> exists k, s = k ++ rest.
Proof.
  induction n as [|n IH]; intros prev s es rest; [done|]. cbn [set_elems].
  destruct (elem_at WM_CASEFOLD prev s) as [[[e prev'] s']|] eqn:E; [|done]. destruct (elem_at_rest _ _ _ _ _ E) as (k & -> & _). case_if.
  - destruct s' as [|y s']; [done|]. intros [= _ <-]. exists (k ++ [y]). same_list.
  - destruct (set_elems WM_CASEFOLD n prev' s') as [[es' rest']|] eqn:E'; [|done]. intros [= _ <-].
    destruct (IH _ _ _ _ E') as [k' ->]. exists (k ++ k'). same_list.
Qed.

Lemma item_rest p f last p' : part p = Some (f, last, p') -> exists k, p = k ++ p' /\ k <> [].
Proof.
  destruct p as [|c p1]; [done|]. cbn [item]. case_if; [intros [= _ _ <-]; by exists [c]|]. case_if; [done|]. case_if.
  - unfold class_at. destruct (set_elems _ _ _ _) as [[es rest]|] eqn:E; [|done]. intros [= _ _ <-]. apply set_elems_rest in E as [k Hk].
    destruct ((deref p1 =? 94) || (deref p1 =? 33)); [|subst p1; by exists (c :: k)]. destruct p1 as [|x p1]; [|cbn [tail] in Hk; subst p1; by exists (c :: x :: k)].
    cbn [tail] in Hk. destruct k, rest; try done. by exists [c].
  - case_if; [|intros [= _ _ <-]; by exists [c]]. destruct p1 as [|e p2]; [done|]. intros [= _ _ <-]. by exists [c; e].
Qed.

Lemma item_chars p f last p' : is_chars p -> part p = Some (f, last, p') -> is_chars p' /\ (length p' < length p)%nat.
Proof.
  intros Hp Hi. destruct (item_rest _ _ _ _ Hi) as (k & -> & Hk). apply Forall_app in Hp as [_ Hp]. rewrite length_app.
  destruct k; [done|]. cbn [length]. split; [done|lia].
Qed.

(** With path names, slashes are matched by slashes. *)
Lemma item_slash p f last p' c :
  Is_true WM_PATHNAME -> is_chars p -> is_char c -> part p = Some (f, last, p') -> f c = true -> c = 47 <-> last = 47.
Proof.
  intros Hpn Hp Hc. destruct p as [|x p1]; [done|]. cbn [item]. rewrite (Is_true_eq_true _ Hpn). apply Forall_cons in Hp as [Hx Hp].
  unfold is_char in *. pose proof (fold_case_cases c ltac:(unfold is_byte; lia)) as Hfc.
  case_if; [intros [= <- <- _] Hf; zb; cbn [andb] in *; zb; lia|]. case_if; [done|]. case_if.
  - destruct (class_at WM_CASEFOLD p1) as [[g rest]|]; [|done]. intros [= <- <- _] Hf. zb. cbn [andb] in *. zb. lia.
  - pose proof (fold_case_cases x ltac:(unfold is_byte; lia)) as Hfx. case_if; [|intros [= <- <- _] Hf; zb; lia].
    destruct p1 as [|e p2]; [done|]. intros [= <- <- _] Hf. zb. lia.
Qed.

Lemma matches_item_inv bos p t f last p' :
  part p = Some (f, last, p') -> matches bos p t -> exists c t', t = c :: t' /\ f c = true /\ matches (last =? 47) p' t'.
Proof.
  intros Hi Hm. inversion Hm as [|? ? ? ? ? c t' Hi' Hf Hm'| | |]; subst; try done.
  rewrite Hi in Hi'. injection Hi' as <- <- <-. by exists c, t'.
Qed.

Lemma matches_no_item bos p t : p <> [] -> head p <> Some 42 -> part p = None -> ~ matches bos p t.
Proof. intros Hne Hh Hi Hm. inversion Hm; subst; try done. congruence. Qed.

(** Such a pattern needs a character. *)
Lemma matches_nonempty bos p : p <> [] -> head p <> Some 42 -> ~ matches bos p [].
Proof. intros Hne Hh Hm. inversion Hm; subst; done. Qed.

(** The beginning of a component matters to stars only. *)
Lemma matches_bos bos bos' p t : head p <> Some 42 -> matches bos p t -> matches bos' p t.
Proof. intros Hh Hm. inversion Hm; subst; try done; [constructor|by eapply matches_item]. Qed.

(** ** Stars *)

Lemma skip_stars_spec q : exists m, q = replicate m 42 ++ skip_stars q /\ head (skip_stars q) <> Some 42.
Proof.
  induction q as [|c q (m & IH & Hh)]; [by exists 0%nat|]. cbn [skip_stars]. destruct (Z.eqb_spec c 42) as [->|Hc].
  - exists (S m). split; [cbn; congruence|done].
  - exists 0%nat. split; [done|]. cbn. congruence.
Qed.

Lemma stars_unique m n p p' :
  replicate m 42 ++ p = replicate n 42 ++ p' -> head p <> Some 42 -> head p' <> Some 42 -> m = n /\ p = p'.
Proof.
  revert n. induction m as [|m IH]; intros [|n] Heq Hp Hp'; cbn [replicate app] in Heq.
  - done.
  - subst p. done.
  - subst p'. done.
  - injection Heq as Heq. destruct (IH n Heq Hp Hp') as [-> ->]. done.
Qed.

Lemma wide_head p : wide p = true -> head p <> Some 42.
Proof. destruct p as [|c p]; [done|]. cbn [wide head]. intros Hw [= ->]. done. Qed.

(** Stars that do not cross slashes are one star. *)
Lemma matches_stars bos m p t1 t2 :
  (Is_true WM_PATHNAME -> 47 ∉ t1) -> matches false p t2 -> matches bos (replicate (S m) 42 ++ p) (t1 ++ t2).
Proof.
  intros Ht Hm. revert bos t1 Ht. induction m as [|m IH]; intros bos t1 Ht; [by apply matches_star|].
  change (replicate (S (S m)) 42 ++ p) with (42 :: (replicate (S m) 42 ++ p)). apply matches_star; [done|]. apply (IH false []).
  intros _. apply not_elem_of_nil.
Qed.

Lemma matches_stars_inv bos m p t :
  head p <> Some 42 -> (bos = true -> Is_true WM_PATHNAME -> (1 <= m)%nat -> wide p = true -> False) ->
  matches bos (replicate (S m) 42 ++ p) t ->
  exists t1 t2, t = t1 ++ t2 /\ (Is_true WM_PATHNAME -> 47 ∉ t1) /\ matches false p t2.
Proof.
  revert bos t. induction m as [|m IH]; intros bos t Hh Hnarrow Hm.
  - inversion Hm as [|? ? ? ? ? ? ? Hi|? ? t1 t2|n p0 ? ? Hpn Hw Hm0 Hb Heq|n p0 ? Hpn Hm0 Hb Heq]; subst.
    + done.
    + by exists t1, t2.
    + by destruct Hh.
    + by destruct Hh.
  - inversion Hm as [|? ? ? ? ? ? ? Hi|? ? t1 t2 Ht Hm'|n p0 ? ? Hpn Hw Hm0 Hb Heq|n p0 ? Hpn Hm0 Hb Heq]; subst.
    + done.
    + destruct (IH false t2 Hh ltac:(done) Hm') as (u1 & u2 & -> & Hu & Hm2). exists (t1 ++ u1), u2. split; [by rewrite (assoc app)|]. split; [|done].
      intros Hpn. rewrite elem_of_app. intros [?|?]; [by apply Ht|by apply Hu].
    + exfalso. apply stars_unique in Heq as [_ ->]; [|by apply wide_head|done]. apply Hnarrow; (done || lia).
    + exfalso. apply stars_unique in Heq as [_ <-]; [|done|done]. apply Hnarrow; (done || lia).
Qed.

(** Those that do. *)
Lemma matches_wide m p t :
  Is_true WM_PATHNAME -> wide p = true -> head p <> Some 42 ->
  matches true (replicate (S (S m)) 42 ++ p) t <->
  (exists t1 t2, t = t1 ++ t2 /\ matches false p t2) \/ (exists p'', p = 47 :: p'' /\ matches true p'' t).
Proof.
  intros Hpn Hw Hh. split.
  - intros Hm. inversion Hm as [|? ? ? ? ? ? ? Hi|? ? t1 t2 Ht Hm'|n p0 t1 t2 _ Hw0 Hm0 Hb Heq|n p0 ? _ Hm0 Hb Heq]; subst.
    + done.
    + left. destruct (matches_stars_inv false m p t2 Hh ltac:(done) Hm') as (u1 & u2 & -> & _ & Hm2).
      exists (t1 ++ u1), u2. by rewrite (assoc app).
    + apply stars_unique in Heq as [_ ->]; [|by apply wide_head|done]. left. by exists t1, t2.
    + apply stars_unique in Heq as [_ <-]; [|done|done]. right. by exists p0.
  - intros [(t1 & t2 & -> & Hm)|(p'' & -> & Hm)]; [by apply matches_starstar|by apply matches_starstar_slash].
Qed.

Lemma strchr_spec s c :
  match strchr s c with
  | Some r => exists k s', s = k ++ r /\ r = c :: s' /\ c ∉ k
  | None => c ∉ s
  end.
Proof.
  induction s as [|x s IH]; cbn [strchr]; [apply not_elem_of_nil|]. destruct (Z.eqb_spec x c) as [->|Hne].
  - exists [], s. split; [done|]. split; [done|apply not_elem_of_nil].
  - destruct (strchr s c) as [r|].
    + destruct IH as (k & s' & -> & Hr & Hk). exists (x :: k), s'. split; [done|]. split; [done|]. rewrite not_elem_of_cons. split; [congruence|done].
    + rewrite not_elem_of_cons. split; [congruence|done].
Qed.

(** ** What the results mean *)

(** A later position at which an earlier part of the pattern may let [p] start,
    and one that is reached without crossing a slash. *)
Definition later (bos : bool) (t t' : list Z) : Prop :=
  exists k, t = k ++ t' /\ (Is_true WM_PATHNAME -> bos = true -> k = [] \/ last k = Some 47).
Definition near (bos : bool) (t t' : list Z) : Prop :=
  exists k, t = k ++ t' /\ 47 ∉ k /\ (bos = true -> k = []).

(** WM_ABORT_ALL: nor does the pattern match at a later position;
    WM_ABORT_TO_STARSTAR: nor at a near one. *)
Definition res_ok (bos : bool) (p t : list Z) (r : wm) : Prop :=
  (r = MATCH <-> matches bos p t) /\
  (r = ABORT_ALL -> forall t', later bos t t' -> ~ matches bos p t') /\
  (r = ABORT_TO_STARSTAR -> Is_true WM_PATHNAME /\ forall t', near bos t t' -> ~ matches bos p t').

Lemma res_ok_match bos p t : matches bos p t -> res_ok bos p t MATCH.
Proof. done. Qed.

Lemma res_ok_nomatch bos p t : ~ matches bos p t -> res_ok bos p t NOMATCH.
Proof. intros Hm. split; [split; [done|by intros ?]|done]. Qed.

Lemma later_refl bos t : later bos t t.
Proof. exists []. split; [done|by left]. Qed.

Lemma res_ok_abort bos p t : (forall t', later bos t t' -> ~ matches bos p t') -> res_ok bos p t ABORT_ALL.
Proof. intros Hm. split; [split; [done|]|done]. intros Hm'. by destruct (Hm t (later_refl bos t)). Qed.

Lemma res_ok_starstar bos p t :
  Is_true WM_PATHNAME -> (forall t', near bos t t' -> ~ matches bos p t') -> res_ok bos p t ABORT_TO_STARSTAR.
Proof.
  intros Hpn Hm. split; [split; [done|]|done]. intros Hm'. destruct (Hm t); [|done]. exists []. split; [done|]. split; [apply not_elem_of_nil|done].
Qed.

(** One part matched. *)
Lemma res_ok_item bos p f last p' c t r :
  is_chars p -> is_chars (c :: t) -> part p = Some (f, last, p') -> f c = true ->
  res_ok (last =? 47) p' t r -> res_ok bos p (c :: t) r.
Proof.
  intros Hp Hct Hi Hf (Hmatch & Habort & Hstar). pose proof Hct as [Hc Ht]%Forall_cons. split; [|split].
  - rewrite Hmatch. split; [by apply (matches_item _ _ _ _ _ _ _ _ _ Hi Hf)|]. intros Hm. destruct (matches_item_inv _ _ _ _ _ _ Hi Hm) as (c' & t' & [= -> ->] & _ & ?). done.
  - intros Hr t' (k & Hk & Hlast) Hm. destruct (matches_item_inv _ _ _ _ _ _ Hi Hm) as (c' & t1 & -> & Hf' & Hm').
    apply (Habort Hr t1); [|done]. destruct k as [|x k]; injection Hk as -> ->; [apply later_refl|].
    exists (k ++ [c']). split; [same_list|]. intros Hpn H47. right. rewrite last_snoc. f_equal. zb.
    apply (item_slash p f last p' c' Hpn Hp); [|done..]. apply Forall_app in Ht as [_ Ht]. by apply Forall_cons in Ht as [? _].
  - intros Hr. destruct (Hstar Hr) as [Hpn Hnear]. split; [done|]. intros t' (k & Hk & Hk47 & _) Hm.
    destruct (matches_item_inv _ _ _ _ _ _ Hi Hm) as (c' & t1 & -> & Hf' & Hm').
    apply (Hnear t1); [|done]. destruct k as [|x k]; injection Hk as -> ->; [by exists []|].
    apply not_elem_of_cons in Hk47 as [Hx Hk47]. assert (is_char c') as Hc' by (apply Forall_app in Ht as [_ Ht]; by apply Forall_cons in Ht as [? _]).
    assert (last <> 47) as Hlast. { intros Hl. apply (item_slash _ _ _ _ _ Hpn Hp Hc Hi Hf) in Hl. done. }
    exists (k ++ [c']). split; [same_list|]. split; [|intros Hl; zb; done]. rewrite elem_of_app, list_elem_of_singleton. intros [?|Hc47]; [done|].
    apply Hlast, (item_slash _ _ _ _ _ Hpn Hp Hc' Hi Hf'). done.
Qed.

(** ** What follows a star *)

(** [star_ok ms p t r]: the result of trying [p] at the positions of [t]. *)
Definition star_ok (ms : bool) (p t : list Z) (r : wm) : Prop :=
  (r = MATCH <-> exists k t', t = k ++ t' /\ (ms = false -> 47 ∉ k) /\ matches false p t') /\
  (r = ABORT_ALL -> forall k t', t = k ++ t' -> ~ matches false p t') /\
  (r = ABORT_TO_STARSTAR -> ms = false /\ forall k t', t = k ++ t' -> 47 ∉ k -> ~ matches false p t').

(** The next character of the text does not help. *)
Lemma star_ok_cons ms p c t r :
  ~ matches false p (c :: t) -> (ms = false -> c <> 47) -> star_ok ms p t r -> star_ok ms p (c :: t) r.
Proof.
  intros Hm Hc (Hmatch & Habort & Hstar). split; [|split].
  - rewrite Hmatch. split.
    + intros (k & t' & -> & Hk & Hm'). exists (c :: k), t'. split; [done|]. split; [|done]. intros Hms. apply not_elem_of_cons. split; [by apply not_eq_sym, Hc|by apply Hk].
    + intros (k & t' & Heq & Hk & Hm'). destruct k as [|x k]; cbn [app] in Heq; [by subst t'|]. injection Heq as -> ->. exists k, t'.
      split; [done|]. split; [|done]. intros Hms. specialize (Hk Hms). by apply not_elem_of_cons in Hk as [_ Hk].
  - intros Hr k t' Heq. destruct k as [|x k]; cbn [app] in Heq; [by subst t'|]. injection Heq as -> ->. by apply (Habort Hr k).
  - intros Hr. destruct (Hstar Hr) as [Hms Hn]. split; [done|]. intros k t' Heq Hk. destruct k as [|x k]; cbn [app] in Heq; [by subst t'|].
    injection Heq as -> ->. apply not_elem_of_cons in Hk as [_ Hk]. by apply (Hn k).
Qed.

Lemma star_ok_abort ms p : ~ matches false p [] -> star_ok ms p [] ABORT_ALL.
Proof.
  intros Hm. split; [split; [done|]|split; [|done]].
  - intros (k & t' & Heq & _ & Hm'). symmetry in Heq. apply app_eq_nil in Heq as [-> ->]. done.
  - intros _ k t' Heq. symmetry in Heq. apply app_eq_nil in Heq as [-> ->]. done.
Qed.

(** The end of the text, or the first slash that the star may not match. *)
Lemma star_ok_stop p t : (t = [] \/ exists t', t = 47 :: t') -> ~ matches false p t -> star_ok false p t ABORT_TO_STARSTAR.
Proof.
  intros Ht Hm. assert (forall k t', t = k ++ t' -> 47 ∉ k -> ~ matches false p t') as Hk.
  { intros k t' Heq Hk. destruct k as [|x k]; [by cbn in Heq; subst t'|]. destruct Ht as [->|[t'' ->]]; [done|].
    injection Heq as <- _. apply not_elem_of_cons in Hk as [? _]. done. }
  split; [split; [done|]|split; [done|split; [done|exact Hk]]]. intros (k & t' & Heq & Hk47 & Hm'). by destruct (Hk k t' Heq (Hk47 eq_refl)).
Qed.

(** Where a literal can start. *)
Lemma skip_to_spec ms p c text :
  is_chars text -> (forall x t, is_char x -> fold_case x <> c -> ~ matches false p (x :: t)) ->
  let '(text', t_ch) := skip_to WM_CASEFOLD ms c text in
  (forall r, star_ok ms p text' r -> star_ok ms p text r) /\ is_chars text' /\ (length text' <= length text)%nat /\
  (text' = [] /\ t_ch = 0 \/
   (exists x t, text' = x :: t /\ t_ch = fold_case x /\ t_ch = c) \/
   (ms = false /\ exists t, text' = 47 :: t /\ t_ch = 47)).
Proof.
  intros Htext Hlit. induction Htext as [|x text Hx Htext IH]; cbn [skip_to]; [split; [done|split; [done|split; [lia|by left]]]|].
  destruct (ms || negb (x =? 47)) eqn:Hms.
  - destruct (Z.eqb_spec (fold_case x) c) as [Heq|Hne].
    + split; [done|]. split; [by constructor|]. split; [lia|]. right. left. by exists x, text.
    + destruct (skip_to WM_CASEFOLD ms c text) as [text' t_ch]. destruct IH as (Hok & Hc & Hl & Hcase). split; [|split; [done|split; [cbn; lia|done]]].
      intros r Hr. apply star_ok_cons; [by apply Hlit| |by apply Hok]. intros ->. cbn in Hms. zb. done.
  - apply orb_false_iff in Hms as [-> H47]. zb. subst x. split; [done|]. split; [by constructor|]. split; [lia|]. right. right. split; [done|]. by exists text.
Qed.

Section star.
Context (rec : list Z -> list Z -> outcome wm) (ms : bool) (p : list Z).
Hypothesis Hp : is_chars p.
Hypothesis Hne : p <> [].
Hypothesis Hhead : head p <> Some 42.
Hypothesis Hslash : ms = false -> head p <> Some 47.
Hypothesis Hrec : forall text, is_chars text -> exists r, rec p text = Ret r /\ forall bos, res_ok bos p text r.

(** One try. *)
Lemma star_try text t_ch :
  is_chars text -> text <> [] -> t_ch = deref text \/ t_ch = fold_case (deref text) ->
  exists res,
    (matched ← rec p text;
     if negb (bool_decide (matched = NOMATCH)) && (negb ms || negb (bool_decide (matched = ABORT_TO_STARSTAR))) then
       Ret (inr matched)
     else if bool_decide (matched = NOMATCH) && negb ms && (t_ch =? 47) then Ret (inr ABORT_TO_STARSTAR)
     else text ← advance text; Ret (inl (text, deref text))) = Ret res /\
    match res with
    | inr r => star_ok ms p text r
    | inl (text', t_ch') => is_chars text' /\ (length text' < length text)%nat /\ t_ch' = deref text' /\
        forall r, star_ok ms p text' r -> star_ok ms p text r
    end.
Proof.
  intros Htext Hnil Ht. destruct text as [|x t]; [done|]. pose proof Htext as [Hx Ht']%Forall_cons. cbn [deref] in Ht.
  assert (t_ch = 47 <-> x = 47) as H47.
  { destruct Ht as [->| ->]; [done|]. unfold is_char in Hx. pose proof (fold_case_cases x ltac:(unfold is_byte; lia)). lia. }
  destruct (Hrec (x :: t) Htext) as (r & -> & Hr). run. destruct (Hr false) as (Hmatch & Habort & Hstar). clear Hr.
  assert (~ matches false p (x :: t) -> (ms = false -> x <> 47) -> exists res : list Z * Z + wm,
    Ret (inl (t, deref t)) = Ret res /\ match res with
    | inr r => star_ok ms p (x :: t) r
    | inl (text', t_ch') => is_chars text' /\ (length text' < length (x :: t))%nat /\ t_ch' = deref text' /\ forall r, star_ok ms p text' r -> star_ok ms p (x :: t) r
    end) as Hnext.
  { intros Hm Hms. exists (inl (t, deref t)). split; [done|]. split; [done|]. split; [cbn; lia|]. split; [done|]. intros r'. by apply star_ok_cons. }
  cbn [advance]. destruct r; cbn [bool_decide decide decide_rel wm_eq_dec negb andb orb].
  - rewrite orb_true_r. exists (inr MATCH). split; [done|]. assert (matches false p (x :: t)) as Hm by (by apply Hmatch).
    split; [|done]. split; [|done]. intros _. exists [], (x :: t). split; [done|]. split; [intros _; apply not_elem_of_nil|done].
  - assert (~ matches false p (x :: t)) as Hm by (intros Hm; by apply Hmatch in Hm). destruct ms; cbn [negb andb]; [by apply Hnext|].
    destruct (Z.eqb_spec t_ch 47) as [Heq|]; [|apply Hnext; [done|tauto]]. exists (inr ABORT_TO_STARSTAR). split; [done|].
    apply star_ok_stop; [|done]. right. exists t. f_equal. by apply H47.
  - rewrite orb_true_r. exists (inr ABORT_ALL). split; [done|]. split; [split; [done|]|split; [|done]].
    + intros (k & t' & Heq & _ & Hm). destruct (Habort eq_refl t'); [|done]. exists k. done.
    + intros _ k t' Heq. apply (Habort eq_refl). exists k. done.
  - rewrite orb_false_r. destruct (Hstar eq_refl) as [Hpn Hnear]. destruct ms; cbn [negb].
    + apply Hnext; [|done]. intros Hm. by apply Hmatch in Hm.
    + exists (inr ABORT_TO_STARSTAR). split; [done|]. assert (forall k t', x :: t = k ++ t' -> 47 ∉ k -> ~ matches false p t') as Hk.
      { intros k t' Heq Hk. apply Hnear. by exists k. }
      split; [split; [done|]|done]. intros (k & t' & Heq & Hk47 & Hm). by destruct (Hk k t' Heq (Hk47 eq_refl)).
Qed.

Lemma fold_case_zero x : is_char x -> fold_case x <> 0.
Proof. unfold is_char. intros Hx. pose proof (fold_case_cases x ltac:(unfold is_byte; lia)). lia. Qed.

Lemma literal_only c0 p1 x t :
  p = c0 :: p1 -> is_glob_special c0 = false -> is_char x -> fold_case x <> fold_case c0 -> ~ matches false p (x :: t).
Proof.
  intros Hp0 Hspecial Hx Hfold. pose proof Hp as Hc. rewrite Hp0 in Hc. apply Forall_cons in Hc as [Hc _]. unfold is_char in Hc.
  rewrite is_glob_special_spec in Hspecial by (unfold is_byte; lia). apply bool_decide_eq_false in Hspecial. rewrite !not_elem_of_cons in Hspecial.
  assert (part p = Some (fun t => fold_case t =? fold_case c0, c0, p1)) as Hi.
  { rewrite Hp0. cbn [item]. rewrite !(proj2 (Z.eqb_neq c0 _)) by tauto. done. }
  intros Hm. destruct (matches_item_inv _ _ _ _ _ _ Hi Hm) as (x' & t' & [= <- <-] & Hf & _). zb. done.
Qed.

(** A round of the loop. *)
Lemma star_round q text t_ch :
  is_chars text -> text <> [] -> t_ch = deref text \/ t_ch = fold_case (deref text) ->
  exists res, star_step WM_CASEFOLD rec (q, p) ms (text, t_ch) = Ret res /\
    match res with
    | inr r => star_ok ms p text r
    | inl (text', t_ch') => is_chars text' /\ (length text' < length text)%nat /\ t_ch' = deref text' /\
        forall r, star_ok ms p text' r -> star_ok ms p text r
    end.
Proof.
  intros Htext Hnil Ht. unfold star_step. assert ((t_ch =? 0) = false) as ->.
  { destruct text as [|x t]; [done|]. apply Forall_cons in Htext as [Hx _]. pose proof (fold_case_zero x Hx). unfold is_char in Hx.
    apply Z.eqb_neq. cbn [deref] in Ht. destruct Ht as [->| ->]; [lia|done]. }
  assert (exists c0 p1, p = c0 :: p1) as (c0 & p1 & Ep) by (destruct p; eauto; done). unfold here. cbn [snd]. assert (deref p = c0) as -> by (by rewrite Ep).
  destruct (is_glob_special c0) eqn:Hspecial; cbn [negb andb]; [by apply star_try|].
  pose proof (literal_only c0 p1) as Hlit. pose proof (skip_to_spec ms p (fold_case c0) text Htext (fun x t => Hlit x t Ep Hspecial)) as Hskip.
  assert (is_char c0) as Hc0 by (pose proof Hp as Hc; rewrite Ep in Hc; by apply Forall_cons in Hc as [? _]).
  destruct (skip_to WM_CASEFOLD ms (fold_case c0) text) as [text' t_ch']. destruct Hskip as (Hok & Htext' & Hlen & Hcase).
  destruct (Z.eqb_spec t_ch' (fold_case c0)) as [Heq|Hdiff]; cbn [negb].
  - assert (text' <> [] /\ (t_ch' = deref text' \/ t_ch' = fold_case (deref text'))) as [Hnil' Ht'].
    { pose proof (fold_case_zero c0 Hc0). destruct Hcase as [[-> ->]|[(x & t & -> & -> & _)|(_ & t & -> & ->)]]; [congruence|by auto..]. }
    destruct (star_try text' t_ch' Htext' Hnil' Ht') as (res & -> & Hres). exists res. split; [done|].
    destruct res as [[text'' t_ch'']|r]; [|by apply Hok]. destruct Hres as (? & ? & ? & Hres). split; [done|]. split; [lia|]. split; [done|]. intros r Hr. by apply Hok, Hres.
  - eexists. split; [done|]. cbn beta iota. apply Hok. destruct Hcase as [[-> ->]|[(x & t & -> & -> & Heq)|(-> & t & -> & ->)]]; [|done|].
    + pose proof (matches_nonempty false p Hne Hhead). destruct ms; [by apply star_ok_abort|apply star_ok_stop; [by left|done]].
    + apply star_ok_stop; [eauto|]. apply Forall_cons in Htext' as [H47 _]. apply (Hlit 47 t Ep Hspecial H47).
      pose proof (fold_case_cases 47 ltac:(done)). lia.
Qed.

Lemma star_loop q fuel : forall text t_ch,
  is_chars text -> t_ch = deref text \/ t_ch = fold_case (deref text) -> (length text < fuel)%nat ->
  exists r, loop fuel (star_step WM_CASEFOLD rec (q, p) ms) (text, t_ch) = Ret r /\ star_ok ms p text r.
Proof.
  induction fuel as [|fuel IH]; intros text t_ch Htext Ht Hf; [lia|]. destruct (decide (text = [])) as [->|Hnil].
  { exists ABORT_ALL. split; [|by apply star_ok_abort, matches_nonempty]. apply loop_stop. unfold star_step. cbn [deref] in Ht.
    pose proof (fold_case_cases 0 ltac:(done)). replace t_ch with 0 by lia. done. }
  destruct (star_round q text t_ch Htext Hnil Ht) as ([[text' t_ch']|r] & Hstep & Hres); [|exists r; split; [by apply loop_stop|done]].
  destruct Hres as (Htext' & Hlen & -> & Hok). rewrite (loop_next _ _ _ _ Hstep).
  destruct (IH text' (deref text') Htext' ltac:(auto)) as (r & -> & Hr); [lia|]. exists r. split; [done|]. by apply Hok.
Qed.
End star.

Lemma star_ok_end ms t :
  is_chars t ->
  star_ok ms [] t (if negb ms then match strchr t 47 with Some _ => ABORT_TO_STARSTAR | None => MATCH end else MATCH).
Proof.
  intros _. pose proof (strchr_spec t 47) as Hs.
  assert ((ms = false -> 47 ∉ t) -> star_ok ms [] t MATCH) as Hmatch.
  { intros Ht. split; [split; [|done]|done]. intros _. exists t, []. split; [by rewrite app_nil_r|]. split; [done|constructor]. }
  destruct ms; cbn [negb]; [by apply Hmatch|]. destruct (strchr t 47); [|by apply Hmatch]. destruct Hs as (k0 & t0 & -> & -> & _).
  assert (forall k t', k0 ++ 47 :: t0 = k ++ t' -> 47 ∉ k -> ~ matches false [] t') as Hk.
  { intros k t' Heq Hk Hm. inversion Hm as [| ? ? ? ? ? ? ? Hi| | |]; subst; [|done]. rewrite app_nil_r in Heq. subst k. apply Hk. set_solver. }
  split; [split; [done|]|done]. intros (k & t' & Heq & Hk47 & Hm). by destruct (Hk k t' Heq (Hk47 eq_refl)).
Qed.

(** ** A star before a slash *)

Lemma matches_slash_inv bos p t : is_chars t -> matches bos (47 :: p) t <-> exists u, t = 47 :: u /\ matches true p u.
Proof.
  intros Ht. pose proof (fold_case_cases 47 ltac:(done)).
  assert (part (47 :: p) = Some (fun t => fold_case t =? fold_case 47, 47, p)) as Hi by done. split.
  - intros Hm. destruct (matches_item_inv _ _ _ _ _ _ Hi Hm) as (c & u & -> & Hf & Hm'). apply Forall_cons in Ht as [Hc _].
    unfold is_char in Hc. pose proof (fold_case_cases c ltac:(unfold is_byte; lia)). zb. exists u. split; [f_equal; lia|done].
  - intros (u & -> & Hm). apply (matches_item _ _ _ _ _ _ _ _ _ Hi); [by rewrite Z.eqb_refl|done].
Qed.

Lemma first_unique (a b a' b' : list Z) x : a ++ x :: b = a' ++ x :: b' -> x ∉ a -> x ∉ a' -> b = b'.
Proof.
  revert a'. induction a as [|y a IH]; intros [|y' a'] Heq Ha Ha'; cbn [app] in Heq; injection Heq; try congruence.
  - intros _ <-. apply not_elem_of_cons in Ha' as [? _]. done.
  - intros _ ->. apply not_elem_of_cons in Ha as [? _]. done.
  - intros Heq' _. apply not_elem_of_cons in Ha as [_ Ha]. apply not_elem_of_cons in Ha' as [_ Ha']. by apply (IH a').
Qed.

Lemma star_ok_slash p t1 t3 r :
  is_chars (t1 ++ 47 :: t3) -> 47 ∉ t1 -> res_ok true p t3 r -> star_ok false (47 :: p) (t1 ++ 47 :: t3) r.
Proof.
  intros Ht H47 (Hmatch & Habort & Hstar). assert (forall k t', t1 ++ 47 :: t3 = k ++ t' -> is_chars t') as Hsuf.
  { intros k t' Heq. rewrite Heq in Ht. by apply Forall_app in Ht as [_ ?]. }
  assert (forall k t', t1 ++ 47 :: t3 = k ++ t' -> 47 ∉ k -> matches false (47 :: p) t' <-> t' = 47 :: t3 /\ matches true p t3) as Hfirst.
  { intros k t' Heq Hk. rewrite matches_slash_inv by eauto. split.
    - intros (u & -> & Hm). rewrite (first_unique _ _ _ _ _ Heq) in *; done.
    - intros [-> ?]. by exists t3. }
  split; [|split].
  - rewrite Hmatch. split.
    + intros Hm. exists t1, (47 :: t3). split; [done|]. split; [done|]. by apply (Hfirst t1).
    + intros (k & t' & Heq & Hk & Hm). by apply (Hfirst k t' Heq (Hk eq_refl)) in Hm as [_ ?].
  - intros Hr k t' Heq Hm. apply matches_slash_inv in Hm as (u & -> & Hm); [|eauto]. apply (Habort Hr u); [|done].
    clear -Heq H47. revert t1 Heq H47. induction k as [|x k IH]; intros t1 Heq H47; destruct t1 as [|y t1]; cbn [app] in Heq.
    + injection Heq as ->. apply later_refl.
    + injection Heq as -> _. apply not_elem_of_cons in H47 as [? _]. done.
    + injection Heq as _ ->. exists (k ++ [47]). split; [same_list|]. intros _ _. right. by rewrite last_snoc.
    + injection Heq as _ Heq. apply not_elem_of_cons in H47 as [_ H47]. by apply (IH t1).
  - intros Hr. destruct (Hstar Hr) as [Hpn Hnear]. split; [done|]. intros k t' Heq Hk Hm.
    apply (Hfirst k t' Heq Hk) in Hm as [_ Hm]. apply (Hnear t3); [|done]. exists []. split; [done|]. split; [apply not_elem_of_nil|done].
Qed.

Lemma star_ok_no_slash p t : is_chars t -> 47 ∉ t -> star_ok false (47 :: p) t ABORT_ALL.
Proof.
  intros Ht H47. assert (forall k t', t = k ++ t' -> ~ matches false (47 :: p) t') as Hno.
  { intros k t' -> Hm. apply matches_slash_inv in Hm as (u & -> & _); [|by apply Forall_app in Ht as [_ ?]]. set_solver. }
  split; [split; [done|]|split; [done|done]]. intros (k & t' & Heq & _ & Hm). by destruct (Hno k t' Heq).
Qed.

(** ** All stars *)

Definition bos_at (prev : option Z) : bool := match prev with None => true | Some c => c =? 47 end.

(** What the stars of [p] mean when [p'] follows them. *)
Definition narrow (bos : bool) (p p' : list Z) : Prop :=
  forall t, matches bos p t <-> exists t1 t2, t = t1 ++ t2 /\ (Is_true WM_PATHNAME -> 47 ∉ t1) /\ matches false p' t2.
Definition wide_stars (p p' : list Z) : Prop :=
  forall t, matches true p t <->
    (exists t1 t2, t = t1 ++ t2 /\ matches false p' t2) \/ (exists p'', p' = 47 :: p'' /\ matches true p'' t).

Lemma narrow_finish bos p p' t r : narrow bos p p' -> star_ok (negb WM_PATHNAME) p' t r -> res_ok bos p t r.
Proof.
  intros Hn (Hmatch & Habort & Hstar). split; [|split].
  - rewrite Hmatch, (Hn t). split; intros (t1 & t2 & Heq & Ht & Hm); exists t1, t2; (split; [done|]); (split; [|done]); destruct WM_PATHNAME; naive_solver.
  - intros Hr t' (k & -> & _) Hm. apply Hn in Hm as (t1 & t2 & -> & _ & Hm). by apply (Habort Hr (k ++ t1) t2); [rewrite (assoc app)|].
  - intros Hr. destruct (Hstar Hr) as [Hpn Hk]. apply negb_false_iff in Hpn. split; [by apply Is_true_eq_left|].
    intros t' (k & -> & Hk47 & _) Hm. apply Hn in Hm as (t1 & t2 & -> & Ht1 & Hm). apply (Hk (k ++ t1) t2); [by rewrite (assoc app)| |done].
    rewrite elem_of_app. intros [?|?]; [done|]. by apply Ht1; [apply Is_true_eq_left|].
Qed.

Lemma wide_finish p p' t r :
  is_chars t -> wide_stars p p' -> (forall p'', p' = 47 :: p'' -> ~ matches true p'' t) -> Is_true WM_PATHNAME -> star_ok true p' t r -> res_ok true p t r.
Proof.
  intros Ht Hw Hskip Hpn (Hmatch & Habort & Hstar). split; [|split].
  - rewrite Hmatch, (Hw t). split.
    + intros (t1 & t2 & Heq & _ & Hm). left. by exists t1, t2.
    + intros [(t1 & t2 & Heq & Hm)|(p'' & Hp & Hm)]; [by exists t1, t2|]. by destruct (Hskip p'' Hp).
  - intros Hr t' (k & Hk & Hlast) Hm. apply Hw in Hm as [(t1 & t2 & -> & Hm)|(p'' & -> & Hm)].
    + by apply (Habort Hr (k ++ t1) t2); [rewrite Hk; rewrite (assoc app)|].
    + destruct (Hlast Hpn eq_refl) as [->|Hl]; [cbn in Hk; subst t'; by apply (Hskip p'')|].
      apply last_Some in Hl as [k' ->]. rewrite <-(assoc app) in Hk. apply (Habort Hr k' (47 :: t') Hk).
      apply matches_slash_inv; [rewrite Hk in Ht; by apply Forall_app in Ht as [_ Ht]|]. by exists t'.
  - intros Hr. by destruct (Hstar Hr).
Qed.

Lemma starstar_place_spec prev q p : is_chars p -> starstar_place prev (q, p) = Ret (bos_at prev && wide p).
Proof.
  intros Hp.  unfold starstar_place, bos_at, here, peek. cbn [snd]. destruct (match prev with None => true | Some c => c =? 47 end); cbn [andb]; [|done].
  destruct p as [|c p1]; [done|]. cbn [deref wide]. destruct (Z.eqb_spec c 47) as [->|]; [by rewrite orb_true_r|]. rewrite orb_false_r. cbn [orb].
  apply Forall_cons in Hp as [Hc _]. rewrite (proj2 (Z.eqb_neq c 0)) by (unfold is_char in Hc; lia). by destruct (c =? 92).
Qed.

(** The main loop, with a recursive call that is right for the patterns below [L]. *)
Section main.
Context (rec : list Z -> list Z -> outcome wm) (L : nat).
Definition rec_ok (p t : list Z) : Prop :=
  exists r, rec p t = Ret r /\ forall bos, (head p = Some 42 -> Is_true WM_PATHNAME -> bos = true) -> res_ok bos p t r.
Hypothesis Hrec : forall p t, is_chars p -> is_chars t -> (length p < L)%nat -> rec_ok p t.

Lemma stars_spec prev q t :
  is_chars q -> is_chars t -> (length q < L)%nat ->
  let p := 42 :: q in
  let p' := skip_stars q in
  exists res, stars WM_PATHNAME rec (prev, p) t = Ret res /\
    match res with
    | inr r => r = MATCH /\ forall bos, (Is_true WM_PATHNAME -> bos = bos_at prev) -> matches bos p t
    | inl ((q', u), ms) => u = p' /\
        (ms = negb WM_PATHNAME /\ (forall bos, (Is_true WM_PATHNAME -> bos = bos_at prev) -> narrow bos p p') \/
         ms = true /\ Is_true WM_PATHNAME /\ bos_at prev = true /\ wide_stars p p' /\ (forall p'', p' = 47 :: p'' -> ~ matches true p'' t))
    end.
Proof.
  intros Hq Ht HL p p'. destruct (skip_stars_spec q) as (m & Hm & Hhead). assert (skip_stars q = p') as Hskip by done. clearbody p'. rewrite Hskip in Hm. rewrite Hskip in Hhead.
  assert (p = replicate (S m) 42 ++ p') as Hp by (unfold p; cbn; by rewrite <-Hm).
  assert (forall bos, (bos = true -> Is_true WM_PATHNAME -> (1 <= m)%nat -> wide p' = true -> False) -> narrow bos p p') as Hnarrow.
  { intros bos Hb u. rewrite Hp. split; [by apply matches_stars_inv|]. intros (t1 & t2 & -> & Ht1 & Hm'). by apply matches_stars. }
  unfold stars, next, here, p. cbn [fst snd deref mbind outcome_bind]. destruct (Z.eqb_spec (deref q) 42) as [H42|H42].
  2:{ assert (m = 0%nat) as ->. { destruct m; [done|]. rewrite Hm in H42. done. }
      eexists. split; [done|]. split; [done|]. left. split; [done|]. intros bos _. apply Hnarrow. lia. }
  destruct q as [|x q1]; [done|]. cbn [deref] in H42. subst x. cbn [skip_stars Z.eqb Pos.eqb] in Hskip. cbn [fst snd deref mbind outcome_bind]. rewrite Hskip.
  assert (Is_true WM_PATHNAME \/ ~ Is_true WM_PATHNAME) as [Hpn|Hpn] by (destruct WM_PATHNAME; cbn; auto).
  2:{ assert (negb WM_PATHNAME = true) as -> by (by destruct WM_PATHNAME).
      eexists. split; [done|]. split; [done|]. left. split; [done|]. intros bos _. by apply Hnarrow. }
  assert (negb WM_PATHNAME = false) as -> by (by destruct WM_PATHNAME).
  assert (is_chars p') as Hp' by (rewrite Hm in Hq; by apply Forall_app in Hq as [_ ?]).
  rewrite starstar_place_spec by done. run. destruct (bos_at prev) eqn:Hbos; cbn [andb].
  2:{ eexists. split; [done|]. split; [done|]. left. split; [done|]. intros bos Hb. apply Hnarrow. intros ->. by specialize (Hb Hpn). }
  destruct (wide p') eqn:Hw.
  2:{ eexists. split; [done|]. split; [done|]. left. split; [done|]. intros bos Hb. by apply Hnarrow. }
  destruct m as [|m]; [cbn in Hm; subst p'; done|].
  assert (wide_stars (42 :: 42 :: q1) p') as Hws by (intros u; fold p; rewrite Hp; by apply matches_wide).
  assert ((forall p'', p' = 47 :: p'' -> ~ matches true p'' t) -> exists res : cursor * bool + wm, Ret (inl ((Some 42, p'), true)) = Ret res /\
    match res with
    | inl (_, u, ms) => u = p' /\ (ms = false /\ (forall bos, (Is_true WM_PATHNAME -> bos = true) -> narrow bos (42 :: 42 :: q1) p') \/
        ms = true /\ Is_true WM_PATHNAME /\ true = true /\ wide_stars (42 :: 42 :: q1) p' /\ (forall p'', p' = 47 :: p'' -> ~ matches true p'' t))
    | inr r => r = MATCH /\ forall bos, (Is_true WM_PATHNAME -> bos = true) -> matches bos (42 :: 42 :: q1) t
    end) as Hskips.
  { intros Hskip0. exists (inl ((Some 42, p'), true)). split; [done|]. split; [done|]. by right. }
  destruct (Z.eqb_spec (deref p') 47) as [H47|H47]; [|apply Hskips; by intros p'' ->].
  destruct p' as [|c p'']; [done|]. cbn [deref] in H47. subst c. run. cbn [snd].
  destruct (Hrec p'' t) as (r & -> & Hr); [by apply Forall_cons in Hp' as [_ ?]|done| |].
  { rewrite Hm in HL. rewrite length_app, length_replicate in HL. cbn [length] in HL. lia. }
  run. destruct (Hr true ltac:(done)) as (Hmatch & _). case_bool_decide as Heq.
  - eexists. split; [done|]. split; [done|]. intros bos Hb. rewrite (Hb Hpn). apply Hws. right. exists p''. split; [done|]. by apply Hmatch.
  - apply Hskips. intros p0 [= <-] Hm0. by apply Heq, Hmatch.
Qed.

(** The result of the loop. *)
Definition round_ok (n : nat) (prev : option Z) (p t : list Z) : Prop :=
  exists r, loop n (dowild_step WM_CASEFOLD WM_PATHNAME rec) ((prev, p), t) = Ret r /\
    forall bos, (head p = Some 42 -> Is_true WM_PATHNAME -> bos = bos_at prev) -> res_ok bos p t r.

Lemma fold_slash x : is_char x -> (fold_case x =? 47) = (x =? 47).
Proof.
  unfold is_char. intros Hx. pose proof (fold_case_cases x ltac:(unfold is_byte; lia)).
  destruct (Z.eqb_spec (fold_case x) 47), (Z.eqb_spec x 47); lia || done.
Qed.

(** A part that is not a star. *)
Lemma part_step prev c p1 x t :
  is_chars (c :: p1) -> is_char x -> c <> 42 ->
  dowild_step WM_CASEFOLD WM_PATHNAME rec ((prev, c :: p1), x :: t) =
    Ret (match part (c :: p1) with
         | Some (f, last, p') => if f x then inl ((Some last, p'), t) else inr NOMATCH
         | None => inr (if c =? 91 then ABORT_ALL else NOMATCH)
         end).
Proof.
  intros [Hc Hp1]%Forall_cons Hx H42. pose proof (fold_slash x Hx) as H47. pose proof (fold_case_zero x Hx) as Hx0. unfold is_char in Hc, Hx.
  pose proof (fold_case_cases c ltac:(unfold is_byte; lia)) as Hfc. unfold dowild_step, here. cbn [snd deref item].
  rewrite (proj2 (Z.eqb_neq c 0)), (proj2 (Z.eqb_neq x 0)) by lia. cbn [andb]. rewrite H47.
  rewrite (proj2 (Z.eqb_neq (fold_case c) 42)), (proj2 (Z.eqb_neq c 42)) by lia.
  destruct (Z.eqb_spec c 63) as [->|H63].
  { replace (fold_case 63) with 63 by lia. cbn [Z.eqb Pos.eqb]. by destruct (WM_PATHNAME && (x =? 47)). }
  rewrite (proj2 (Z.eqb_neq (fold_case c) 63)) by lia. destruct (Z.eqb_spec c 91) as [->|H91].
  { replace (fold_case 91) with 91 by lia. cbn [Z.eqb Pos.eqb]. destruct (bracket_spec (fold_case x) prev p1 Hp1) as [q' ->]. run.
    destruct (class_at WM_CASEFOLD p1) as [[f rest]|]; [|done]. by destruct (f (fold_case x)), (WM_PATHNAME && (x =? 47)). }
  rewrite (proj2 (Z.eqb_neq (fold_case c) 91)) by lia. destruct (Z.eqb_spec c 92) as [->|H92].
  { replace (fold_case 92) with 92 by lia. cbn [Z.eqb Pos.eqb next snd mbind outcome_bind]. destruct p1 as [|e p2]; cbn [deref].
    - by rewrite (proj2 (Z.eqb_neq (fold_case x) 0)).
    - by destruct (fold_case x =? e). }
  rewrite (proj2 (Z.eqb_neq (fold_case c) 92)) by lia. run. by destruct (fold_case x =? fold_case c).
Qed.

Lemma star_head prev p1 t :
  dowild_step WM_CASEFOLD WM_PATHNAME rec ((prev, 42 :: p1), t) =
    (r ← stars WM_PATHNAME rec (prev, 42 :: p1) t;
     match r with
     | inr matched => Ret (inr matched)
     | inl (p, ms) =>
         if here p =? 0 then
           Ret (inr (if negb ms then match strchr t 47 with Some _ => ABORT_TO_STARSTAR | None => MATCH end else MATCH))
         else if negb ms && (here p =? 47) then
           match strchr t 47 with
           | None => Ret (inr ABORT_ALL)
           | Some slash => text ← advance slash; p ← next p; Ret (inl (p, text))
           end
         else matched ← loop (S (length t)) (star_step WM_CASEFOLD rec p ms) (t, fold_case (deref t)); Ret (inr matched)
     end).
Proof.
  unfold dowild_step. cbn [here snd deref]. change (here (prev, 42 :: p1)) with 42. change (42 =? 0) with false. change (42 =? 42) with true. cbn [negb].
  rewrite andb_false_r. assert (fold_case 42 = 42) as -> by (pose proof (fold_case_cases 42 ltac:(done)); lia). done.
Qed.

(** Stars at the beginning. *)
Lemma star_case n prev p1 t :
  (forall prev p t, is_chars p -> is_chars t -> (length p < n)%nat -> (length p <= L)%nat -> round_ok n prev p t) ->
  is_chars p1 -> is_chars t -> (length p1 < n)%nat -> (length p1 < L)%nat -> round_ok (S n) prev (42 :: p1) t.
Proof.
  intros IH Hp1 Ht Hn HL. destruct (stars_spec prev p1 t Hp1 Ht HL) as (res & Hstars & Hres). set (p' := skip_stars p1) in *.
  destruct (skip_stars_spec p1) as (m & Hm & Hhead). fold p' in Hm, Hhead. clearbody p'.
  assert (is_chars p' /\ (length p' <= length p1)%nat) as [Hp' Hlen].
  { rewrite Hm in Hp1. apply Forall_app in Hp1 as [_ ?]. split; [done|]. rewrite Hm, length_app. lia. }
  pose proof (star_head prev p1 t) as Hstep. rewrite Hstars in Hstep. run_in Hstep.
  destruct res as [[[q u] ms]|r].
  2:{ destruct Hres as [-> Hmt]. exists MATCH. split; [by apply loop_stop|]. intros bos Hb. apply res_ok_match, Hmt. by apply Hb. }
  destruct Hres as [-> Hkind].
  assert (forall r, star_ok ms p' t r -> forall bos, (head (42 :: p1) = Some 42 -> Is_true WM_PATHNAME -> bos = bos_at prev) -> res_ok bos (42 :: p1) t r) as Hfinish.
  { intros r Hr bos Hb. specialize (Hb eq_refl). destruct Hkind as [[-> Hnar]|(-> & Hpn & Hbos & Hw & Hskip)]; [apply (narrow_finish _ _ p'); [by apply Hnar|done]|].
    rewrite (Hb Hpn), Hbos. by apply (wide_finish _ p'). }
  unfold here in Hstep. cbn [snd] in Hstep. destruct p' as [|c p''] eqn:Ep'; cbn [deref] in Hstep.
  { eexists. split; [by apply (loop_stop _ _ _ _ Hstep)|]. apply Hfinish. by apply star_ok_end. }
  pose proof Hp' as [Hc Hp'']%Forall_cons. rewrite (proj2 (Z.eqb_neq c 0)) in Hstep by (unfold is_char in Hc; lia).
  destruct (negb ms && (c =? 47)) eqn:Hslash.
  - zb. subst c ms. pose proof (strchr_spec t 47) as Hs. destruct (strchr t 47) as [t0|].
    + destruct Hs as (t1 & t3 & -> & -> & H47). cbn [advance next snd mbind outcome_bind] in Hstep. pose proof Ht as [_ [_ Ht3]%Forall_cons]%Forall_app.
      destruct (IH (Some 47) p'' t3 Hp'' Ht3) as (r & Hrun & Hr); [cbn in Hlen; lia..|]. exists r.
      split; [by rewrite (loop_next _ _ _ _ Hstep)|]. apply Hfinish, star_ok_slash; [done|done|]. by apply Hr.
    + eexists. split; [by apply (loop_stop _ _ _ _ Hstep)|]. apply Hfinish. by apply star_ok_no_slash.
  - destruct (star_loop rec ms (c :: p'') Hp' ltac:(done) Hhead) with (q := q) (fuel := S (length t)) (text := t) (t_ch := fold_case (deref t)) as (r & Hrun & Hr); [..|by auto|lia|].
    + intros -> [= ->]. done.
    + intros text Htext. destruct (Hrec (c :: p'') text Hp' Htext) as (r & Hr1 & Hr2); [lia|]. exists r. split; [done|]. intros bos. by apply Hr2.
    + done.
    + rewrite Hrun in Hstep. run_in Hstep. exists r. split; [by apply (loop_stop _ _ _ _ Hstep)|]. by apply Hfinish.
Qed.

Lemma rounds n : forall prev p t,
  is_chars p -> is_chars t -> (length p < n)%nat -> (length p <= L)%nat -> round_ok n prev p t.
Proof.
  induction n as [|n IH]; intros prev p t Hp Ht Hn HL; [lia|]. destruct p as [|c p1].
  { eexists. split; [by apply loop_stop|]. intros bos _. destruct t as [|x t]; [by apply res_ok_match, matches_end|].
    apply Forall_cons in Ht as [Hx _]. cbn [deref]. rewrite (proj2 (tru_true x)) by (unfold is_char in Hx; lia). apply res_ok_nomatch. intros Hm. by inversion Hm. }
  pose proof Hp as [Hc Hp1]%Forall_cons. destruct (decide (c = 42)) as [->|H42].
  - cbn [length] in *. apply star_case; (done || lia).
  - unfold round_ok. assert (head (c :: p1) <> Some 42) as Hh by (cbn; congruence). destruct t as [|x t].
    { exists ABORT_ALL. split.
      - apply loop_stop. unfold dowild_step, here. cbn [snd deref]. unfold is_char in Hc. by rewrite (proj2 (Z.eqb_neq c 0)), (proj2 (Z.eqb_neq c 42)) by lia.
      - intros bos _. apply res_ok_abort. intros t' (k & Hk & _). symmetry in Hk. apply app_eq_nil in Hk as [-> ->]. by apply matches_nonempty. }
    pose proof Ht as [Hx Ht']%Forall_cons. pose proof (part_step prev c p1 x t Hp Hx H42) as Hstep.
    destruct (part (c :: p1)) as [[[f last] p']|] eqn:Hi.
    + destruct (item_chars _ _ _ _ Hp Hi) as [Hp' Hlen]. destruct (f x) eqn:Hf.
      * rewrite (loop_next _ _ _ _ Hstep). destruct (IH (Some last) p' t Hp' Ht' ltac:(lia) ltac:(lia)) as (r & -> & Hr).
        exists r. split; [done|]. intros bos _. apply (res_ok_item _ _ _ _ _ _ _ _ Hp Ht Hi Hf). by apply Hr.
      * eexists. split; [by apply (loop_stop _ _ _ _ Hstep)|]. intros bos _. apply res_ok_nomatch. intros Hm.
        destruct (matches_item_inv _ _ _ _ _ _ Hi Hm) as (x' & t' & [= <- <-] & Hf' & _). congruence.
    + eexists. split; [by apply (loop_stop _ _ _ _ Hstep)|]. intros bos _. pose proof (fun t => matches_no_item bos (c :: p1) t ltac:(done) Hh Hi) as Hno.
      destruct (c =? 91); [apply res_ok_abort; by intros t' _|by apply res_ok_nomatch].
Qed.
End main.

Lemma dowild_spec fuel : forall p t,
  is_chars p -> is_chars t -> (length p < fuel)%nat -> rec_ok (dowild WM_CASEFOLD WM_PATHNAME fuel) p t.
Proof.
  induction fuel as [|fuel IH]; intros p t Hp Ht Hf; [lia|]. unfold rec_ok. cbn [dowild].
  destruct (rounds (dowild WM_CASEFOLD WM_PATHNAME fuel) fuel IH (S (length p)) None p t Hp Ht) as (r & -> & Hr); [lia..|].
  exists r. done.
Qed.

(** [C29] [wildmatch] always ends, inside the pattern and the text, and answers WM_MATCH
    exactly when the pattern matches the text by the definition of patterns:
    giving up early, jumping to the next literal and collapsing stars lose no
    match, with every combination of the flags. *)
Theorem wildmatch_matches pattern text :
  is_chars pattern -> is_chars text ->
  exists r, wildmatch WM_CASEFOLD WM_PATHNAME pattern text = Ret r /\
    (r = MATCH <-> matches true pattern text) /\ (r = NOMATCH <-> ~ matches true pattern text).
Proof.
  intros Hp Ht. unfold wildmatch. destruct (dowild_spec (S (length pattern)) pattern text Hp Ht) as (r & -> & Hr); [lia|]. run.
  destruct (Hr true ltac:(done)) as (Hm & _). eexists. split; [done|]. rewrite <-Hm. case_bool_decide; split; naive_solver.
Qed.
End proofs.

(** * Reference instance *)

Definition between (lo hi c : Z) : bool := (lo <=? c) && (c <=? hi).

Definition wild_ctype_ref : WildCtype := {|
  isascii c := c <? 128;
  isalnum c := between 48 57 c || between 65 90 c || between 97 122 c;
  isalpha c := between 65 90 c || between 97 122 c;
  isblank := None;
  iscntrl c := (c <? 32) || (c =? 127);
  isdigit c := between 48 57 c;
  isgraph := None;
  islower c := between 97 122 c;
  isprint c := between 32 126 c;
  ispunct c := between 33 47 c || between 58 64 c || between 91 96 c || between 123 126 c;
  isspace c := bool_decide (c ∈ [9; 10; 13; 32]);
  isupper c := between 65 90 c;
  isxdigit c := between 48 57 c || between 65 70 c || between 97 102 c;
  tolower c := if between 65 90 c then c + 32 else c;
  toupper c := if between 97 122 c then c - 32 else c;
  is_glob_special c := bool_decide (c ∈ [42; 63; 91; 92]);
|}.

Lemma wild_ctype_ref_ok : @WildCtypeOk wild_ctype_ref.
Proof.
  split; [done|done| |done]. intros c Hc. cbn [tolower wild_ctype_ref]. unfold between.
  rewrite (proj2 (Z.leb_le _ _)), (proj2 (Z.leb_le c 90)) by lia. done.
Qed.

(** * Runs *)

Section runs.
#[local] Existing Instance wild_ctype_ref.

Definition run_wildmatch (casefold pathname : bool) (pattern text : String.string) : outcome wm :=
  wildmatch casefold pathname (lit pattern) (lit text).

Example runs_match :
  Forall (fun '(cf, pn, p, t) => run_wildmatch cf pn p t = Ret MATCH)
    [(false, false, "*f"%string, "foo/f"%string); (false, true, "**/foo"%string, "bar/baz/foo"%string); (false, true, "**/foo"%string, "foo"%string);
     (false, true, "foo/**/bar"%string, "foo/bar"%string); (false, true, "foo/**/**/bar"%string, "foo/b/a/z/bar"%string);
     (true, false, "[[:upper:]]x[a-c]"%string, "qXB"%string); (false, false, "t[!a-g]n"%string, "ton"%string);
     (false, false, "a[]]b"%string, "a]b"%string); (false, false, "[\-^]"%string, "-"%string);
     (false, false, "-*-*-*-*-*-*-12-*-*-*-m-*-*-*"%string, "-adobe-courier-bold-o-normal--12-120-75-75-m-70-iso8859-1"%string)].
Proof. repeat constructor. Qed.

Example runs_no_match :
  Forall (fun '(cf, pn, p, t) => run_wildmatch cf pn p t = Ret NOMATCH)
    [(false, true, "*f"%string, "foo/f"%string); (false, true, "foo**bar"%string, "foo/baz/bar"%string);
     (false, true, "foo/*/bar"%string, "foo/b/a/bar"%string); (false, false, "a[c-c]rt"%string, "abrt"%string); (true, false, "\A"%string, "A"%string);
     (false, false, "[[:digit:][:uper:]]"%string, "1x"%string); (false, true, "foo[/]bar"%string, "foo/bar"%string)].
Proof. repeat constructor. Qed.

Lemma wildmatch_matches_witness :
  exists r, wildmatch false true (lit "a/**/*.c"%string) (lit "a/b/x.c"%string) = Ret r /\
    (r = MATCH <-> matches false true true (lit "a/**/*.c"%string) (lit "a/b/x.c"%string)) /\
    (r = NOMATCH <-> ~ matches false true true (lit "a/**/*.c"%string) (lit "a/b/x.c"%string)).
Proof. apply (@wildmatch_matches _ wild_ctype_ref_ok); by repeat constructor. Defined.
End runs.
