(* ===== verification/OidArray.v ===== *)
(** oid-array.c: a growing array of object names that is sorted when it is searched.
    The array of the comparison function, the sort and the binary search of
    hash-lookup.c together behave as a bag of names. *)
From Stdlib Require Import Sorted.
From S2P Require Import Prelude Headers StableSort HashLookup.

(** * Data and headers *)

(** [struct object_id] and [struct oid_array]; the memory of the array has
    [alloc] entries. *)
Record object_id := Oid { oid_hash : list Z; oid_algo : Z }.
Record oid_array := OidArray { oa_oid : list object_id; oa_nr : Z; oa_alloc : Z; oa_sorted : bool }.

#[export] Instance object_id_eq_dec : EqDecision object_id.
Proof. solve_decision. Defined.

Class OidArrayHeader := {
  (** [hash_algo_by_ptr(the_hash_algo)] *)
  default_algo : Z;
  (** [oid_array_next_unique] of oid-array.h *)
  oid_array_next_unique : oid_array -> Z -> Z;
}.

(** The next entry that differs from the one before it. *)
Class OidArrayHeaderOk `{OidArrayHeader} : Prop := {
  default_algo_set : default_algo <> 0;
  next_unique_spec a cur l x :
    filled (oa_oid a) (oa_nr a) l -> 0 <= cur -> l !! Z.to_nat cur = Some x ->
    exists k rest, drop (Z.to_nat cur) l = replicate (S k) x ++ rest /\ head rest <> Some x /\
      oid_array_next_unique a cur = cur + 1 + Z.of_nat k;
}.

(** * Model *)

Section model.
Context `{GitCompat} `{HashHeader} `{Qsort} `{OidArrayHeader}.
Context (junk : object_id).

Definition OID_ARRAY_INIT : oid_array := OidArray [] 0 0 false.

Definition oid_array_append (array : oid_array) (oid : object_id) : outcome oid_array :=
  let alloc := alloc_grow (oa_nr array + 1) (oa_alloc array) in
  let mem := realloc junk (oa_oid array) alloc in
  mem ← wr mem (oa_nr array) oid;
  let nr := oa_nr array + 1 in
  mem ← (if oid_algo oid =? 0 then o ← rd mem (nr - 1); wr mem (nr - 1) (Oid (oid_hash o) default_algo) else Ret mem);
  Ret (OidArray mem nr alloc false).

Definition void_hashcmp (a b : object_id) : Z :=
  if oid_algo a =? oid_algo b then oidcmp (oid_hash a) (oid_hash b)
  else if oid_algo a >? oid_algo b then 1 else -1.

Definition oid_array_sort (array : oid_array) : outcome oid_array :=
  if oa_sorted array then Ret array else
  xs ← rd_range (oa_oid array) 0 (oa_nr array);
  mem ← wr_range (oa_oid array) 0 (qsort void_hashcmp xs);
  Ret (OidArray mem (oa_nr array) (oa_alloc array) true).

Definition oid_access (index : Z) (table : list object_id) : outcome (list Z) :=
  o ← rd table index; Ret (oid_hash o).

(** The array sorted, and the position. *)
Definition oid_array_lookup (array : oid_array) (oid : object_id) : outcome (oid_array * Z) :=
  array ← oid_array_sort array;
  r ← oid_pos (oid_hash oid) (oa_nr array) (fun i => oid_access i (oa_oid array));
  Ret (array, r).

Definition oid_array_clear (array : oid_array) : oid_array := OidArray [] 0 0 false.

(** A callback: the new data and the value returned. *)
Section callbacks.
Context {D : Type} (fn : object_id -> D -> D * Z).

Definition each_step (array : oid_array) (next : Z -> Z) (st : Z * D) : outcome ((Z * D) + (D * Z)) :=
  let '(i, data) := st in
  if negb (i <? oa_nr array) then Ret (inr (data, 0)) else
  o ← rd (oa_oid array) i;
  let '(data, ret) := fn o data in
  if tru ret then Ret (inr (data, ret)) else Ret (inl (next i, data)).

Definition oid_array_for_each (array : oid_array) (data : D) : outcome (D * Z) :=
  loop (S (Z.to_nat (oa_nr array))) (each_step array (fun i => i + 1)) (0, data).

Definition oid_array_for_each_unique (array : oid_array) (data : D) : outcome (oid_array * (D * Z)) :=
  array ← oid_array_sort array;
  r ← loop (S (Z.to_nat (oa_nr array))) (each_step array (oid_array_next_unique array)) (0, data);
  Ret (array, r).

(** The body of the loop, on the entries, [dst] and the data of the callback. *)
Definition filter_step (src : Z) (st : list object_id * Z * D) : outcome (list object_id * Z * D) :=
  let '(oids, dst, data) := st in
  o ← rd oids src;
  let '(data, want) := fn o data in
  if tru want then
    oids ← (if negb (src =? dst) then wr oids dst o else Ret oids);
    Ret (oids, dst + 1, data)
  else Ret (oids, dst, data).

Definition oid_array_filter (array : oid_array) (data : D) : outcome (oid_array * D) :=
  '(oids, dst, data) ← for_n (Z.to_nat (oa_nr array)) 0 filter_step (oa_oid array, 0, data);
  Ret (OidArray oids dst (oa_alloc array) (oa_sorted array), data).
End callbacks.
End model.

(** * Specification *)

(** A callback over a list, until it returns other than 0. *)
Fixpoint visit {D} (fn : object_id -> D -> D * Z) (l : list object_id) (data : D) : D * Z :=
  match l with
  | [] => (data, 0)
  | o :: l => let '(data, ret) := fn o data in if tru ret then (data, ret) else visit fn l data
  end.

(** The entries a callback wants, and its data afterwards. *)
Fixpoint wanted {D} (fn : object_id -> D -> D * Z) (l : list object_id) (data : D) : list object_id * D :=
  match l with
  | [] => ([], data)
  | o :: l => let '(data, want) := fn o data in let '(k, data) := wanted fn l data in (if tru want then o :: k else k, data)
  end.

Section rep.
Context `{HashHeader} `{OidArrayHeader}.

(** A name of the default algorithm. *)
Definition is_name (o : object_id) : Prop := oid_algo o = default_algo /\ is_bytes (oid_hash o) /\ zlen (oid_hash o) = rawsz.

(** The entries [l]; they are in order when the flag says so. *)
Record oa_rep (a : oid_array) (l : list object_id) : Prop := {
  oa_filled : filled (oa_oid a) (oa_nr a) l;
  oa_room : zlen (oa_oid a) = oa_alloc a;
  oa_names : Forall is_name l;
  oa_order : oa_sorted a = true -> StronglySorted (cle void_hashcmp) l;
}.
End rep.

(** * Correctness *)

Section proofs.
Context `{GitCompatOk} `{HashHeaderOk} `{QsortOk} `{OidArrayHeaderOk}.
Context (junk : object_id).
Implicit Types (a : oid_array) (l k : list object_id).

#[export] Instance void_hashcmp_CmpOk : CmpOk void_hashcmp.
Proof.
  split.
  - intros x y. unfold void_hashcmp. rewrite (Z.eqb_sym (oid_algo y)), !Z.gtb_ltb.
    pose proof (oidcmp_spec (oid_hash x) (oid_hash y)). pose proof (oidcmp_spec (oid_hash y) (oid_hash x)).
    pose proof (cmp_flip (oid_hash x) (oid_hash y)).
    destruct (Z.eqb_spec (oid_algo x) (oid_algo y)); [lia|]. destruct (Z.ltb_spec (oid_algo y) (oid_algo x)), (Z.ltb_spec (oid_algo x) (oid_algo y)); lia.
  - intros x y z. unfold void_hashcmp. rewrite !Z.gtb_ltb.
    pose proof (oidcmp_spec (oid_hash x) (oid_hash y)). pose proof (oidcmp_spec (oid_hash y) (oid_hash z)). pose proof (oidcmp_spec (oid_hash x) (oid_hash z)).
    pose proof (cmp_trans (oid_hash x) (oid_hash y) (oid_hash z)).
    destruct (Z.eqb_spec (oid_algo x) (oid_algo y)), (Z.eqb_spec (oid_algo y) (oid_algo z)), (Z.eqb_spec (oid_algo x) (oid_algo z)); try lia;
      destruct (Z.ltb_spec (oid_algo y) (oid_algo x)), (Z.ltb_spec (oid_algo z) (oid_algo y)), (Z.ltb_spec (oid_algo z) (oid_algo x)); lia.
Qed.

Lemma oa_rep_init : oa_rep OID_ARRAY_INIT [].
Proof. split; [split; [done|by exists []]|done|constructor|done]. Qed.

Lemma oid_array_append_spec a l h algo :
  oa_rep a l -> is_bytes h -> zlen h = rawsz -> algo = 0 \/ algo = default_algo ->
  exists a', oid_array_append junk a (Oid h algo) = Ret a' /\ oa_rep a' (l ++ [Oid h default_algo]).
Proof.
  intros [Hf Hz Hn Ho] Hh Hlen Halgo. unfold oid_array_append. pose proof (filled_le _ _ _ Hf).
  pose proof (alloc_grow_enough (oa_nr a + 1) (oa_alloc a)) as Hge.
  assert (oa_nr a <= alloc_grow (oa_nr a + 1) (oa_alloc a)) as Hroom by lia.
  pose proof (filled_realloc junk _ _ _ _ Hf Hroom) as Hf1.
  assert (0 <= alloc_grow (oa_nr a + 1) (oa_alloc a)) as Hpos by lia. pose proof (zlen_realloc junk (oa_oid a) _ Hpos) as Hz1.
  set (mem := realloc junk _ _) in *. clearbody mem. destruct (filled_wr _ _ _ (Oid h algo) Hf1) as [-> Hf2]; [lia|]. run.
  assert (is_name (Oid h default_algo)) as Hname by done.
  cbn [oid_algo]. destruct (Z.eqb_spec algo 0) as [->|Hnz].
  - destruct (filled_last _ _ _ _ (Oid h default_algo) Hf2) as (Hrd & mem' & Hwr & Hf3). rewrite Hrd. run. cbn [oid_hash]. rewrite Hwr. run.
    eexists. split; [done|]. split; [done| |by apply Forall_app; split; [|constructor]|done]. cbn [oa_oid oa_alloc].
    unfold wr in Hwr. destruct (_ || _); [done|]. injection Hwr as <-. by rewrite !zlen_insert.
  - destruct Halgo as [->| ->]; [done|]. run. eexists. split; [done|]. split; [done| |by apply Forall_app; split; [|constructor]|done].
    cbn [oa_oid oa_alloc]. by rewrite zlen_insert.
Qed.

Lemma oid_array_sort_spec a l :
  oa_rep a l -> exists a' l', oid_array_sort a = Ret a' /\ oa_rep a' l' /\ l' ≡ₚ l /\ StronglySorted (cle void_hashcmp) l' /\ oa_nr a' = oa_nr a.
Proof.
  intros [Hf Hz Hn Ho]. unfold oid_array_sort. destruct (oa_sorted a) eqn:E; [exists a, l; rewrite <-E in Ho; by repeat split; try apply Hf; auto|].
  destruct Hf as [Hl [rest Hmem]]. pose proof (zlen_nonneg l). pose proof (zlen_nonneg rest).
  destruct (qsort_sorts void_hashcmp l _) as [Hs Hp]. assert (zlen (qsort void_hashcmp l) = zlen l) as Hlen by (unfold zlen; by rewrite (Permutation_length Hp)).
  rewrite <-Hl, Hmem. destruct (at_pos_app _ _ _ _ (at_pos_0 (l ++ rest))) as [-> _]. run.
  rewrite wr_range_in by (rewrite ?zlen_app; lia). run. rewrite Z2Nat.inj_0, take_0, Hlen, Z.add_0_l. destruct (take_drop_zlen l rest) as [_ ->]. cbn [app].
  eexists _, (qsort void_hashcmp l). split; [done|]. split; [|done]. split; cbn [oa_oid oa_nr oa_alloc oa_sorted].
  - split; [done|by exists rest].
  - rewrite zlen_app, Hlen, <-zlen_app, <-Hmem. done.
  - by rewrite Hp.
  - done.
Qed.

(** ** Lookup *)

(** Reading further than the names does not change the search. *)
Lemma oid_pos_mono oid nr (f g : Z -> outcome (list Z)) r :
  (forall i x, f i = Ret x -> g i = Ret x) -> oid_pos oid nr f = Ret r -> oid_pos oid nr g = Ret r.
Proof.
  intros Hfg. unfold oid_pos. case_if; [done|].
  assert (forall st x, loop (S (Z.to_nat nr)) (search_step f oid) st = Ret x -> loop (S (Z.to_nat nr)) (search_step g oid) st = Ret x) as Hsearch.
  { intros st x. apply loop_mono. intros [[lo hi] mi] b Hb. unfold search_step in *. apply bind_Ret_inv in Hb as (o & Ho & Hb). by rewrite (Hfg _ _ Ho). }
  assert (forall ofs x, loop (S (Z.to_nat rawsz)) (ofs_step f oid nr) ofs = Ret x -> loop (S (Z.to_nat rawsz)) (ofs_step g oid nr) ofs = Ret x) as Hofs.
  { intros ofs x. apply loop_mono. intros o b Hb. unfold ofs_step in *. case_if; [done|]. apply bind_Ret_inv in Hb as (o1 & Ho1 & Hb). rewrite (Hfg _ _ Ho1). run.
    apply bind_Ret_inv in Hb as (lov & Hlov & Hb). rewrite Hlov. run. apply bind_Ret_inv in Hb as (o2 & Ho2 & Hb). by rewrite (Hfg _ _ Ho2). }
  intros Hr. apply bind_Ret_inv in Hr as (b & Hb & Hr). case_if; [rewrite (Hofs _ _ Hb)|rewrite Hb]; run; (destruct b; [done|by apply Hsearch]).
Qed.

Lemma keys_sorted l : Forall is_name l -> StronglySorted (cle void_hashcmp) l -> StronglySorted oid_le (oid_hash <$> l).
Proof.
  intros Hall Hs. induction Hs as [|x l Hl IH Hx]; [constructor|]. apply Forall_cons in Hall as [Hnx Hn]. cbn [fmap list_fmap]. constructor; [by apply IH|].
  apply Forall_fmap. rewrite Forall_forall in Hx |- *. intros y Hy. specialize (Hx y Hy). rewrite Forall_forall in Hn. specialize (Hn y Hy).
  unfold cle, void_hashcmp in Hx. rewrite (proj1 Hnx), (proj1 Hn), Z.eqb_refl in Hx. unfold oid_le. cbn.
  pose proof (oidcmp_spec (oid_hash x) (oid_hash y)). lia.
Qed.

Lemma oid_array_lookup_spec a l h algo :
  oa_rep a l -> is_bytes h -> zlen h = rawsz -> zlen l < 2 ^ 31 ->
  exists a' l' r, oid_array_lookup a (Oid h algo) = Ret (a', r) /\ oa_rep a' l' /\ l' ≡ₚ l /\
    StronglySorted oid_le (oid_hash <$> l') /\ pos_result (oid_hash <$> l') h r.
Proof.
  intros Hr Hh Hlen Hsmall. unfold oid_array_lookup. destruct (oid_array_sort_spec a l Hr) as (a' & l' & -> & Hr' & Hp & Hs & _). run.
  pose proof (oa_names _ _ Hr') as Hn. pose proof (keys_sorted _ Hn Hs) as Hks.
  assert (zlen (oid_hash <$> l') = oa_nr a') as Hz by (destruct (oa_filled _ _ Hr') as [<- _]; unfold zlen; by rewrite length_fmap).
  assert (zlen l' = zlen l) as Hzl by (unfold zlen; by rewrite (Permutation_length Hp)).
  destruct (oid_pos_spec (oid_hash <$> l') h Hks) with (fn := rd (oid_hash <$> l')) as (r & Hpos & Hres); [|done|done| |done|].
  - apply Forall_fmap. eapply Forall_impl; [exact Hn|]. by intros o (_ & ? & ?).
  - unfold zlen in *. rewrite length_fmap. lia.
  - exists a', l', r. split; [|done]. cbn [oid_hash]. rewrite <-Hz, (oid_pos_mono _ _ (rd (oid_hash <$> l')) _ r); [done| |done].
    intros i x Hx. apply rd_Ret in Hx as [Hi Hx]. rewrite list_lookup_fmap in Hx. apply fmap_Some in Hx as (o & Ho & ->). unfold oid_access.
    destruct (oa_filled _ _ Hr') as [_ [rest ->]]. assert (rd (l' ++ rest) i = Ret o) as ->; [|done].
    apply rd_Ret. split; [done|]. by apply lookup_app_l_Some.
Qed.

(** ** Callbacks *)

Section callbacks.
Context {D : Type} (fn : object_id -> D -> D * Z).

Lemma oid_array_for_each_spec a l data : oa_rep a l -> oid_array_for_each fn a data = Ret (visit fn l data).
Proof.
  intros Hr. unfold oid_array_for_each. destruct (oa_filled _ _ Hr) as [Hl [rest Hmem]]. rewrite <-Hl.
  assert (forall k pre data fuel, l = pre ++ k -> (length k < fuel)%nat ->
    loop fuel (each_step fn a (fun i => i + 1)) (zlen pre, data) = Ret (visit fn k data)) as Hloop.
  { induction k as [|o k IH]; intros pre d fuel Heq Hf; (destruct fuel as [|fuel]; [lia|]).
    - apply loop_stop. unfold each_step. rewrite <-Hl, Heq, app_nil_r, (proj2 (Z.ltb_ge _ _)) by lia. done.
    - assert (each_step fn a (fun i => i + 1) (zlen pre, d) = let '(d', ret) := fn o d in Ret (if tru ret then inr (d', ret) else inl (zlen pre + 1, d'))) as Hstep.
      { unfold each_step. rewrite <-Hl, Heq, zlen_app, zlen_cons. pose proof (zlen_nonneg k). rewrite (proj2 (Z.ltb_lt _ _)) by lia. cbn [negb].
        rewrite Hmem, Heq, <-(assoc app). cbn [app]. rewrite (rd_at pre o (k ++ rest)) by done. run. destruct (fn o d) as [d' ret]. by destruct (tru ret). }
      cbn [visit]. destruct (fn o d) as [d' ret]. destruct (tru ret); [by apply loop_stop|]. rewrite (loop_next _ _ _ _ Hstep).
      replace (zlen pre + 1) with (zlen (pre ++ [o])) by (rewrite zlen_app; done). cbn [length] in Hf.
      apply IH; [rewrite Heq; by rewrite <-(assoc app)|lia]. }
  apply (Hloop l []); [done|unfold zlen; lia].
Qed.

(** Without the repetitions of neighbours. *)
Fixpoint uniq (l : list object_id) : list object_id :=
  match l with
  | [] => []
  | x :: l' => match l' with y :: _ => if decide (x = y) then uniq l' else x :: uniq l' | [] => [x] end
  end.

Lemma uniq_run x n rest : head rest <> Some x -> uniq (replicate (S n) x ++ rest) = x :: uniq rest.
Proof.
  intros Hh. induction n as [|n IH].
  - cbn [replicate app uniq]. destruct rest as [|y rest]; [done|]. rewrite decide_False; [done|]. intros ->. by apply Hh.
  - cbn [replicate app uniq] in *. rewrite decide_True by done. exact IH.
Qed.

Lemma oid_array_for_each_unique_spec a l data :
  oa_rep a l -> exists a' l', oid_array_for_each_unique fn a data = Ret (a', visit fn (uniq l') data) /\
    oa_rep a' l' /\ l' ≡ₚ l /\ StronglySorted (cle void_hashcmp) l'.
Proof.
  intros Hr. unfold oid_array_for_each_unique. destruct (oid_array_sort_spec a l Hr) as (a' & l' & -> & Hr' & Hp & Hs & _). run.
  exists a', l'. split; [|done]. destruct (oa_filled _ _ Hr') as [Hl [rest Hmem]]. rewrite <-Hl.
  assert (forall n k pre data fuel, (length k <= n)%nat -> l' = pre ++ k -> (length k < fuel)%nat ->
    loop fuel (each_step fn a' (oid_array_next_unique a')) (zlen pre, data) = Ret (visit fn (uniq k) data)) as Hloop.
  { induction n as [|n IH]; intros k pre d fuel Hn Heq Hf; (destruct fuel as [|fuel]; [lia|]).
    { destruct k; [|cbn in Hn; lia]. apply loop_stop. unfold each_step. rewrite <-Hl, Heq, app_nil_r, (proj2 (Z.ltb_ge _ _)) by lia. done. }
    destruct k as [|o k]; [apply loop_stop; unfold each_step; by rewrite <-Hl, Heq, app_nil_r, (proj2 (Z.ltb_ge _ _)) by lia|].
    assert (l' !! Z.to_nat (zlen pre) = Some o) as Ho by (rewrite Heq; unfold zlen; by rewrite Nat2Z.id, list_lookup_middle).
    destruct (next_unique_spec a' (zlen pre) l' o (oa_filled _ _ Hr') (zlen_nonneg pre) Ho) as (m & rest' & Hdrop & Hh & Hnext).
    rewrite Heq in Hdrop. destruct (take_drop_zlen pre (o :: k)) as [_ Hd]. rewrite Hd in Hdrop.
    assert (each_step fn a' (oid_array_next_unique a') (zlen pre, d) =
      let '(d', ret) := fn o d in Ret (if tru ret then inr (d', ret) else inl (zlen pre + 1 + Z.of_nat m, d'))) as Hstep.
    { unfold each_step. rewrite Hnext. rewrite <-Hl, Heq, zlen_app, zlen_cons. pose proof (zlen_nonneg k). rewrite (proj2 (Z.ltb_lt _ _)) by lia. cbn [negb].
      rewrite Hmem, Heq, <-(assoc app). cbn [app]. rewrite (rd_at pre o (k ++ rest)) by done. run. destruct (fn o d) as [d' ret]. by destruct (tru ret). }
    assert (length (o :: k) = S m + length rest')%nat as Hlen by (rewrite Hdrop, length_app, length_replicate; done).
    rewrite Hdrop, (uniq_run o m rest' Hh). cbn [visit]. destruct (fn o d) as [d' ret]. destruct (tru ret); [by apply loop_stop|]. rewrite (loop_next _ _ _ _ Hstep).
    replace (zlen pre + 1 + Z.of_nat m) with (zlen (pre ++ replicate (S m) o)) by (rewrite zlen_app; unfold zlen at 2; rewrite length_replicate; lia).
    apply IH; [lia|rewrite Heq, Hdrop; by rewrite <-(assoc app)|lia]. }
  rewrite (Hloop (length l') l' []); [done|lia|done|unfold zlen; lia].
Qed.

(** ** Filtering *)

Lemma oid_filter_loop rest : forall todo kept mid data,
  exists mem, for_n (length todo) (zlen (kept ++ mid)) (filter_step fn) (kept ++ mid ++ todo ++ rest, zlen kept, data) =
      (let '(w, data') := wanted fn todo data in Ret (kept ++ w ++ mem, zlen (kept ++ w), data')) /\
    let '(w, _) := wanted fn todo data in length (w ++ mem) = length (mid ++ todo ++ rest).
Proof.
  induction todo as [|o todo IH]; intros kept mid data; cbn [length for_n wanted].
  { exists (mid ++ rest). rewrite app_nil_r. done. }
  assert (filter_step fn (zlen (kept ++ mid)) (kept ++ mid ++ (o :: todo) ++ rest, zlen kept, data) =
    let '(data', want) := fn o data in
    Ret (if tru want then ((kept ++ [o]) ++ match mid with [] => [] | _ :: mid' => mid' ++ [o] end ++ todo ++ rest, zlen (kept ++ [o]), data')
         else (kept ++ (mid ++ [o]) ++ todo ++ rest, zlen kept, data'))) as ->.
  { unfold filter_step. rewrite (rd_at (kept ++ mid) o (todo ++ rest)) by (done || same_list). run. destruct (fn o data) as [data' want].
    destruct (tru want); [|by rewrite <-(assoc app mid)]. rewrite (zlen_app kept [o]), (zlen_app kept mid). change (zlen [o]) with 1. destruct mid as [|m mid].
    - rewrite zlen_nil, Z.add_0_r, Z.eqb_refl. cbn [negb app]. run. by rewrite <-(assoc app).
    - rewrite zlen_cons. pose proof (zlen_nonneg mid). rewrite (proj2 (Z.eqb_neq _ (zlen kept))) by lia. cbn [negb app].
      rewrite (wr_at kept m (mid ++ o :: todo ++ rest) o) by done. run. do 3 f_equal. same_list. }
  destruct (fn o data) as [data' want]. destruct (tru want); run.
  - set (mid' := match mid with [] => [] | _ :: mid' => mid' ++ [o] end).
    assert (zlen (kept ++ mid) + 1 = zlen ((kept ++ [o]) ++ mid')) as -> by (unfold mid'; destruct mid; rewrite !zlen_app, ?zlen_cons, ?zlen_app, ?zlen_nil, ?zlen_cons, ?zlen_nil; lia).
    assert (length mid' = length mid) as Hmid by (unfold mid'; destruct mid; rewrite ?length_app; cbn; lia).
    clearbody mid'. destruct (IH (kept ++ [o]) mid' data') as (mem & -> & Hlen). destruct (wanted fn todo data') as [w data'']. exists mem. split.
    + by rewrite <-!(assoc app kept [o]).
    + rewrite !length_app in *. cbn [length]. lia.
  - replace (zlen (kept ++ mid) + 1) with (zlen (kept ++ mid ++ [o])) by (rewrite !zlen_app; change (zlen [o]) with 1; lia).
    destruct (IH kept (mid ++ [o]) data') as (mem & -> & Hlen). destruct (wanted fn todo data') as [w data'']. exists mem. split; [done|].
    rewrite !length_app in *. cbn [length] in *. lia.
Qed.

Lemma wanted_forall P l : forall data, Forall P l -> Forall P (wanted fn l data).1.
Proof.
  induction l as [|o l IH]; intros data Hl; cbn [wanted]; [constructor|]. apply Forall_cons in Hl as [Ho Hl]. destruct (fn o data) as [d want].
  specialize (IH d Hl). destruct (wanted fn l d) as [k d']. cbn [fst] in *. destruct (tru want); [by constructor|done].
Qed.

Lemma wanted_sorted l : forall data, StronglySorted (cle void_hashcmp) l -> StronglySorted (cle void_hashcmp) (wanted fn l data).1.
Proof.
  induction l as [|o l IH]; intros data Hl; cbn [wanted]; [constructor|]. apply StronglySorted_inv in Hl as [Hl Ho]. destruct (fn o data) as [d want].
  pose proof (wanted_forall _ l d Ho) as Hf. specialize (IH d Hl). destruct (wanted fn l d) as [k d']. cbn [fst] in *. destruct (tru want); [by constructor|done].
Qed.

Lemma oid_array_filter_spec a l data :
  oa_rep a l -> exists a', oid_array_filter fn a data = Ret (a', (wanted fn l data).2) /\ oa_rep a' (wanted fn l data).1.
Proof.
  intros [Hf Hz Hn Ho]. unfold oid_array_filter. destruct Hf as [Hl [rest Hmem]].
  destruct (oid_filter_loop rest l [] [] data) as (mem & Hrun & Hlen). cbn [app] in Hrun, Hlen. rewrite <-Hmem in Hrun. change (zlen []) with 0 in Hrun.
  assert (Z.to_nat (oa_nr a) = length l) as -> by (rewrite <-Hl; unfold zlen; lia). rewrite Hrun.
  pose proof (wanted_forall _ l data Hn) as Hn'. pose proof (wanted_sorted l data) as Hs'. destruct (wanted fn l data) as [w data']. run. cbn [fst snd] in *.
  eexists. split; [done|]. split; cbn [oa_oid oa_nr oa_alloc oa_sorted]; [split; [done|by exists mem]| |done|by auto].
  rewrite <-Hz, Hmem. unfold zlen. by rewrite Hlen.
Qed.
End callbacks.
End proofs.

(** * The array as a bag of names *)

(** Calls; the names asked for carry the default algorithm or none. *)
Inductive oa_op :=
| Append (hash : list Z) (algo : Z)
| Lookup (hash : list Z) (algo : Z)
| Filter (want : list Z -> bool)
| Clear.

Section refine.
Context `{GitCompat} `{HashHeader} `{Qsort} `{OidArrayHeader}.
Context (junk : object_id).

Definition oa_op_ok (op : oa_op) : Prop :=
  match op with
  | Append h algo | Lookup h algo => is_bytes h /\ zlen h = rawsz /\ (algo = 0 \/ algo = default_algo)
  | _ => True
  end.

(** The new array and the positions returned. *)
Definition oa_step (op : oa_op) (a : oid_array) : outcome (oid_array * list Z) :=
  match op with
  | Append h algo => a ← oid_array_append junk a (Oid h algo); Ret (a, [])
  | Lookup h algo => '(a, r) ← oid_array_lookup a (Oid h algo); Ret (a, [r])
  | Filter want => '(a, _) ← oid_array_filter (fun o (_ : unit) => (tt, Z.b2z (want (oid_hash o)))) a tt; Ret (a, [])
  | Clear => Ret (oid_array_clear a, [])
  end.

Fixpoint oa_run (ops : list oa_op) (a : oid_array) : outcome (oid_array * list Z) :=
  match ops with
  | [] => Ret (a, [])
  | op :: ops => '(a, out) ← oa_step op a; '(a, outs) ← oa_run ops a; Ret (a, out ++ outs)
  end.

(** The bag of names after a call. *)
Definition bag_step (bag : list (list Z)) (op : oa_op) : list (list Z) :=
  match op with
  | Append h _ => h :: bag
  | Lookup _ _ => bag
  | Filter want => filter (fun h => want h = true) bag
  | Clear => []
  end.

(** A position in the sorted names of the bag, or where the name belongs. *)
Definition answer (bag : list (list Z)) (h : list Z) (r : Z) : Prop :=
  exists keys, keys ≡ₚ bag /\ StronglySorted oid_le keys /\ pos_result keys h r.

Fixpoint answers (bag : list (list Z)) (ops : list oa_op) (outs : list Z) : Prop :=
  match ops with
  | [] => outs = []
  | Lookup h _ :: ops => exists r outs', outs = r :: outs' /\ answer bag h r /\ answers bag ops outs'
  | op :: ops => answers (bag_step bag op) ops outs
  end.
End refine.

Section refine_proofs.
Context `{GitCompatOk} `{HashHeaderOk} `{QsortOk} `{OidArrayHeaderOk}.
Context (junk : object_id).

(** A name as it is stored. *)
Definition stored (h : list Z) : object_id := Oid h default_algo.

Lemma stored_names l : Forall is_name l -> l = stored <$> (oid_hash <$> l).
Proof.
  induction 1 as [|[h algo] l [Ha _] _ IH]; [done|]. cbn [fmap list_fmap oid_hash] in *. cbn [oid_algo] in Ha. subst algo. by rewrite <-IH.
Qed.

Lemma wanted_pure (want : list Z -> bool) (l : list object_id) :
  (wanted (fun o (_ : unit) => (tt, Z.b2z (want (oid_hash o)))) l tt).1 = filter (fun o => want (oid_hash o) = true) l.
Proof.
  induction l as [|o l IH]; [done|]. cbn [wanted]. destruct (wanted _ l tt) as [k d]. cbn [fst] in *. rewrite filter_cons, IH.
  destruct (want (oid_hash o)); [by rewrite decide_True|by rewrite decide_False].
Qed.

Lemma filter_names (want : list Z -> bool) (l : list object_id) : oid_hash <$> filter (fun o => want (oid_hash o) = true) l = filter (fun h => want h = true) (oid_hash <$> l).
Proof.
  induction l as [|o l IH]; [done|]. cbn [fmap list_fmap]. rewrite !filter_cons, <-IH. by case_decide.
Qed.

Lemma oa_step_spec op a l bag :
  oa_rep a l -> oid_hash <$> l ≡ₚ bag -> oa_op_ok op -> zlen bag < 2 ^ 31 ->
  exists a' l' out, oa_step junk op a = Ret (a', out) /\ oa_rep a' l' /\ oid_hash <$> l' ≡ₚ bag_step bag op /\
    match op with Lookup h _ => exists r, out = [r] /\ answer bag h r | _ => out = [] end.
Proof.
  intros Hr Hbag Hok Hsmall. destruct op as [h algo|h algo|want|]; cbn [oa_step bag_step oa_op_ok] in *.
  - destruct Hok as (Hh & Hlen & Ha). destruct (oid_array_append_spec junk a l h algo Hr Hh Hlen Ha) as (a' & -> & Hr'). run.
    exists a', (l ++ [Oid h default_algo]), []. split; [done|]. split; [done|]. split; [|done]. rewrite fmap_app. cbn [fmap list_fmap oid_hash].
    rewrite Hbag. by rewrite Permutation_app_comm.
  - destruct Hok as (Hh & Hlen & _). destruct (oid_array_lookup_spec a l h algo Hr Hh Hlen) as (a' & l' & r & -> & Hr' & Hp & Hs & Hres).
    { apply Permutation_length in Hbag. rewrite length_fmap in Hbag. unfold zlen in *. lia. }
    run. assert (oid_hash <$> l' ≡ₚ bag) as Hbag' by (by rewrite Hp).
    exists a', l', [r]. split; [done|]. split; [done|]. split; [done|]. exists r. split; [done|]. by exists (oid_hash <$> l').
  - destruct (oid_array_filter_spec (fun o (_ : unit) => (tt, Z.b2z (want (oid_hash o)))) a l tt Hr) as (a' & -> & Hr'). run.
    rewrite wanted_pure in Hr'. eexists a', _, []. split; [done|]. split; [exact Hr'|]. split; [|done]. rewrite filter_names. by rewrite Hbag.
  - exists (oid_array_clear a), [], []. split; [done|]. split; [apply oa_rep_init|done].
Qed.

Lemma bag_step_length bag op : (length (bag_step bag op) <= S (length bag))%nat.
Proof. destruct op; cbn [bag_step length]; [lia|lia| |lia]. etrans; [apply length_filter|lia]. Qed.

Lemma oa_run_spec ops : forall a l bag,
  oa_rep a l -> oid_hash <$> l ≡ₚ bag -> Forall oa_op_ok ops -> zlen bag + zlen ops < 2 ^ 31 ->
  exists a' l' outs, oa_run junk ops a = Ret (a', outs) /\ oa_rep a' l' /\ oid_hash <$> l' ≡ₚ foldl bag_step bag ops /\ answers bag ops outs.
Proof.
  induction ops as [|op ops IH]; intros a l bag Hr Hbag Hok Hsmall; cbn [oa_run].
  { exists a, l, []. done. }
  apply Forall_cons in Hok as [Hop Hok]. pose proof (bag_step_length bag op). rewrite zlen_cons in Hsmall. pose proof (zlen_nonneg ops).
  destruct (oa_step_spec op a l bag Hr Hbag Hop ltac:(lia)) as (a1 & l1 & out & -> & Hr1 & Hbag1 & Hout). run.
  destruct (IH a1 l1 _ Hr1 Hbag1 Hok) as (a2 & l2 & outs & -> & Hr2 & Hbag2 & Hans); [unfold zlen in *; lia|]. run.
  exists a2, l2, (out ++ outs). split; [done|]. split; [done|]. split; [done|]. destruct op; cbn [answers bag_step] in *; try (by subst out).
  destruct Hout as (r & -> & Ha). by exists r, outs.
Qed.

(** ** The distinct names in order *)

Lemma uniq_elem l x : x ∈ uniq l <-> x ∈ l.
Proof.
  induction l as [|y l IH]; [done|]. cbn [uniq]. destruct l as [|z l]; [done|]. case_decide as Heq.
  - subst z. rewrite IH. set_solver.
  - rewrite elem_of_cons, IH. set_solver.
Qed.

Lemma uniq_sorted l :
  Forall is_name l -> StronglySorted (cle void_hashcmp) l -> StronglySorted (fun x y => bytes_cmp (oid_hash x) (oid_hash y) < 0) (uniq l).
Proof.
  intros Hn Hs. induction Hs as [|x l Hl IH Hx]; [constructor|]. apply Forall_cons in Hn as [Hnx Hn]. specialize (IH Hn). cbn [uniq].
  destruct l as [|y l]; [by repeat constructor|]. case_decide as Heq; [done|]. constructor; [done|]. apply Forall_forall. intros z Hz. rewrite uniq_elem in Hz.
  assert (forall u v, is_name u -> is_name v -> cle void_hashcmp u v -> bytes_cmp (oid_hash u) (oid_hash v) <= 0) as Hle.
  { intros u v (Hu & _) (Hv & _). unfold cle, void_hashcmp. rewrite Hu, Hv, Z.eqb_refl. pose proof (oidcmp_spec (oid_hash u) (oid_hash v)). lia. }
  apply StronglySorted_inv in Hl as [_ Hyz]. rewrite Forall_forall in Hn, Hx, Hyz.
  pose proof (Hle x y Hnx (Hn y ltac:(set_solver)) (Hx y ltac:(set_solver))) as Hxy.
  assert (bytes_cmp (oid_hash x) (oid_hash y) <> 0) as Hne.
  { rewrite bytes_cmp_eq. intros Heq'. apply Heq. destruct Hnx as [Hax _]. destruct (Hn y ltac:(set_solver)) as [Hay _].
    destruct x as [hx ax], y as [hy ay]. cbn [oid_hash oid_algo] in *. congruence. }
  apply elem_of_cons in Hz as [->|Hz]; [lia|]. apply (bytes_cmp_lt_trans _ (oid_hash y)); [lia|]. apply Hle; [apply Hn; set_solver|apply Hn; set_solver|by apply Hyz].
Qed.

(** [C30] An array of object names refines a bag of names: whatever calls follow
    the initialisation, every lookup answers with a position of the name in
    the sorted names of the bag or with where it belongs; and at the end
    [oid_array_for_each_unique] calls back for each name of the bag once, in
    ascending order, until the callback returns other than 0. *)
Theorem oid_array_refines_bag {D} (fn : object_id -> D -> D * Z) (data : D) (ops : list oa_op) :
  Forall oa_op_ok ops -> zlen ops < 2 ^ 31 ->
  exists a a' outs names,
    oa_run junk ops OID_ARRAY_INIT = Ret (a, outs) /\ answers [] ops outs /\
    oid_array_for_each_unique fn a data = Ret (a', visit fn (stored <$> names) data) /\
    StronglySorted (fun x y => bytes_cmp x y < 0) names /\ forall h, h ∈ names <-> h ∈ foldl bag_step [] ops.
Proof.
  intros Hok Hsmall. destruct (oa_run_spec ops OID_ARRAY_INIT [] [] oa_rep_init ltac:(done) Hok) as (a & l & outs & Hrun & Hr & Hbag & Hans); [done|].
  destruct (oid_array_for_each_unique_spec fn a l data Hr) as (a' & l' & Heach & Hr' & Hp & Hs). pose proof (oa_names _ _ Hr') as Hn.
  assert (Forall is_name (uniq l')) as Hnu by (apply Forall_forall; intros x Hx; rewrite uniq_elem in Hx; by apply (proj1 (Forall_forall _ _) Hn)).
  exists a, a', outs, (oid_hash <$> uniq l'). split; [done|]. split; [done|]. rewrite <-(stored_names _ Hnu). split; [done|]. split.
  - pose proof (uniq_sorted l' Hn Hs) as Hsu. clear -Hsu. induction Hsu as [|x k Hk IH Hx]; cbn [fmap list_fmap]; [constructor|]. constructor; [done|]. by apply Forall_fmap.
  - intros h. rewrite <-Hbag, <-Hp. rewrite !list_elem_of_fmap. by setoid_rewrite uniq_elem.
Qed.
End refine_proofs.

(** * Reference instance *)

Fixpoint run_length (x : object_id) (l : list object_id) : nat :=
  match l with [] => O | y :: l => if decide (x = y) then S (run_length x l) else O end.

Definition oid_array_ref : OidArrayHeader := {|
  default_algo := 1;
  oid_array_next_unique a cur :=
    let l := drop (Z.to_nat cur) (take (Z.to_nat (oa_nr a)) (oa_oid a)) in
    match l with [] => cur + 1 | x :: l => cur + 1 + Z.of_nat (run_length x l) end;
|}.

Lemma run_length_spec x l : exists rest, l = replicate (run_length x l) x ++ rest /\ head rest <> Some x.
Proof.
  induction l as [|y l (rest & IH & Hh)]; [by exists []|]. cbn [run_length]. case_decide as Heq.
  - subst y. exists rest. split; [cbn; congruence|done].
  - exists (y :: l). split; [done|]. cbn. congruence.
Qed.

Lemma oid_array_ref_ok : @OidArrayHeaderOk oid_array_ref.
Proof.
  split; [done|]. intros a cur l x Hf Hcur Hx. cbn [oid_array_next_unique oid_array_ref]. rewrite (filled_take _ _ _ Hf). rewrite (drop_S _ _ _ Hx).
    destruct (run_length_spec x (drop (S (Z.to_nat cur)) l)) as (rest & Hl & Hh). exists (run_length x (drop (S (Z.to_nat cur)) l)), rest.
    split; [cbn [replicate app]; congruence|done].
Qed.

(** * A run *)

Section runs.
#[local] Existing Instances compat_ref qsort_ref oid_array_ref.
#[local] Instance hash3 : HashHeader := hash_ref 3.

Definition w_ops : list oa_op :=
  [Append [7; 0; 1] 0; Append [3; 1; 4] 1; Append [7; 0; 1] 1; Lookup [7; 0; 1] 1; Lookup [5; 5; 5] 0; Filter (fun h => negb (bool_decide (h = [3; 1; 4])));
   Append [0; 0; 9] 0; Lookup [0; 0; 9] 0].

Lemma oid_array_refines_bag_witness :
  exists a a' outs names,
    oa_run (Oid [] 0) w_ops OID_ARRAY_INIT = Ret (a, outs) /\ answers [] w_ops outs /\
    oid_array_for_each_unique (fun o n => (n + 1, 0)) a 0 = Ret (a', visit (fun o n => (n + 1, 0)) (stored <$> names) 0) /\
    StronglySorted (fun x y => bytes_cmp x y < 0) names /\ forall h, h ∈ names <-> h ∈ foldl bag_step [] w_ops.
Proof.
  apply (@oid_array_refines_bag _ compat_ref_ok _ (hash_ref_ok 3 ltac:(lia)) _ qsort_ref_ok _ oid_array_ref_ok (Oid [] 0) Z (fun o n => (n + 1, 0)) 0 w_ops); [|done].
  unfold w_ops. repeat constructor; cbn [oa_op_ok]; (by auto || by vm_compute || by repeat constructor).
Defined.
End runs.
