(* ===== verification/SpanHash.v ===== *)
(** diffcore-delta.c: how much of one file another one copies, counted by the hashes
    of their lines (or of 64 bytes).  The counts are kept in a hash table with
    linear probing, which is sorted at the end; two sorted tables are merged. *)
From stdpp Require Import gmap sorting.
From Stdlib Require Import Sorted.
From S2P Require Import Prelude StableSort.

(** * Model *)

Definition INITIAL_HASH_SIZE : Z := 9.
Definition INITIAL_FREE (sz_log2 : Z) : Z := Z.shiftl 1 sz_log2 * (sz_log2 - 3) / sz_log2.
Definition HASHBASE : Z := 107927.

Record spanhash := SpanHash { hashval : Z; cnt : Z }.
Record spanhash_top := SpanTop { alloc_log2 : Z; free : Z; data : list spanhash }.

(** A new table, zeroed. *)
Definition new_table (log2 free : Z) : spanhash_top := SpanTop log2 free (replicate (Z.to_nat (Z.shiftl 1 log2)) (SpanHash 0 0)).

(** [while (1)]: from one bucket to the next until one is [found]. *)
Definition probe_step (data : list spanhash) (lim : Z) (found : spanhash -> bool) (bucket : Z) : outcome (Z + Z) :=
  h ← rd data bucket;
  if found h then Ret (inr bucket)
  else let bucket := bucket + 1 in Ret (inl (if lim <=? bucket then 0 else bucket)).

Definition probe (data : list spanhash) (lim : Z) (found : spanhash -> bool) (bucket : Z) : outcome Z :=
  loop (S (Z.to_nat lim)) (probe_step data lim found) bucket.

(** The body of the loop over the old entries. *)
Definition rehash_step (orig : spanhash_top) (sz i : Z) (st : spanhash_top) : outcome spanhash_top :=
  o ← rd (data orig) i;
  if negb (tru (cnt o)) then Ret st else
  b ← probe (data st) sz (fun h => negb (tru (cnt h))) (Z.land (hashval o) (sz - 1));
  d ← wr (data st) b (SpanHash (hashval o) (cnt o));
  Ret (SpanTop (alloc_log2 st) (free st - 1) d).

Definition spanhash_rehash (orig : spanhash_top) : outcome spanhash_top :=
  let osz := Z.shiftl 1 (alloc_log2 orig) in
  let sz := Z.shiftl osz 1 in
  let log2 := alloc_log2 orig + 1 in
  for_n (Z.to_nat osz) 0 (rehash_step orig sz) (new_table log2 (INITIAL_FREE log2)).

Definition add_spanhash (top : spanhash_top) (hv n : Z) : outcome spanhash_top :=
  let lim := Z.shiftl 1 (alloc_log2 top) in
  b ← probe (data top) lim (fun h => negb (tru (cnt h)) || (hashval h =? hv)) (Z.land hv (lim - 1));
  h ← rd (data top) b;
  if negb (tru (cnt h)) then
    d ← wr (data top) b (SpanHash hv n);
    let top := SpanTop (alloc_log2 top) (free top - 1) d in
    if free top <? 0 then spanhash_rehash top else Ret top
  else
    d ← wr (data top) b (SpanHash (hashval h) (u32 (cnt h + n)));
    Ret (SpanTop (alloc_log2 top) (free top) d).

Definition spanhash_cmp (a b : spanhash) : Z :=
  if negb (tru (cnt a)) then (if negb (tru (cnt b)) then 0 else 1)
  else if negb (tru (cnt b)) then -1
  else if hashval a <? hashval b then -1 else if hashval a >? hashval b then 1 else 0.

Section model.
Context `{Qsort}.

(** [struct diff_filespec]: the data, and what [diff_filespec_is_binary] says. *)
Record diff_filespec := Filespec { spec_data : list Z; spec_size : Z; is_binary : bool }.

(** One round: the place in the text, [sz], [n], [accum1], [accum2] and the table. *)
Definition chars_step (buf : list Z) (is_text : bool) (st : Z * Z * Z * Z * Z * spanhash_top)
    : outcome ((Z * Z * Z * Z * Z * spanhash_top) + (Z * Z * Z * spanhash_top)) :=
  let '(pos, sz, n, accum1, accum2, hash) := st in
  if negb (tru sz) then Ret (inr (n, accum1, accum2, hash)) else
  c ← rd buf pos;
  let pos := pos + 1 in
  let old_1 := accum1 in
  let sz := sz - 1 in
  skip ← (if is_text && (c =? 13) && tru sz then d ← rd buf pos; Ret (d =? 10) else Ret false);
  if skip : bool then Ret (inl (pos, sz, n, accum1, accum2, hash)) else
  let accum1 := Z.lxor (u32 (Z.shiftl accum1 7)) (Z.shiftr accum2 25) in
  let accum2 := Z.lxor (u32 (Z.shiftl accum2 7)) (Z.shiftr old_1 25) in
  let accum1 := u32 (accum1 + c) in
  let n := n + 1 in
  if (n <? 64) && negb (c =? 10) then Ret (inl (pos, sz, n, accum1, accum2, hash)) else
  hash ← add_spanhash hash (u32 (accum1 + u32 (accum2 * 0x61)) mod HASHBASE) n;
  Ret (inl (pos, sz, 0, 0, 0, hash)).

Definition hash_chars (one : diff_filespec) : outcome spanhash_top :=
  let sz := u32 (spec_size one) in
  let hash := new_table INITIAL_HASH_SIZE (INITIAL_FREE INITIAL_HASH_SIZE) in
  '(n, accum1, accum2, hash) ← loop (S (Z.to_nat sz)) (chars_step (spec_data one) (negb (is_binary one))) (0, sz, 0, 0, 0, hash);
  hash ← (if n >? 0 then add_spanhash hash (u32 (accum1 + u32 (accum2 * 0x61)) mod HASHBASE) n else Ret hash);
  Ret (SpanTop (alloc_log2 hash) (free hash) (qsort spanhash_cmp (data hash))).

(** [while (d->cnt)] up to the hash of [s]: [d] and [la]. *)
Definition skip_step (dd : list spanhash) (limit : option Z) (st : Z * Z) : outcome ((Z * Z) + (Z * Z)) :=
  let '(d, la) := st in
  e ← rd dd d;
  if negb (tru (cnt e)) then Ret (inr (d, la)) else
  if (match limit with Some hv => hashval e >=? hv | None => false end) then Ret (inr (d, la)) else
  Ret (inl (d + 1, la + cnt e)).

(** [for (;;)]: on [s], [d], [sc] and [la]. *)
Definition merge_round (sd dd : list spanhash) (st : Z * Z * Z * Z) : outcome ((Z * Z * Z * Z) + (Z * Z * Z)) :=
  let '(s, d, sc, la) := st in
  e ← rd sd s;
  if negb (tru (cnt e)) then Ret (inr (d, sc, la)) else
  '(d, la) ← loop (S (length dd)) (skip_step dd (Some (hashval e))) (d, la);
  let src_cnt := cnt e in
  f ← rd dd d;
  let '(dst_cnt, d) := if tru (cnt f) && (hashval f =? hashval e) then (cnt f, d + 1) else (0, d) in
  let '(sc, la) := if src_cnt <? dst_cnt then (sc + src_cnt, la + (dst_cnt - src_cnt)) else (sc + dst_cnt, la) in
  Ret (inl (s + 1, d, sc, la)).

(** The count of a file: the one kept by the caller or a new one; and what the
    caller keeps, if it does ([None] without a place to keep it). *)
Definition cached_count (count_p : option (option spanhash_top)) (one : diff_filespec) : outcome (spanhash_top * option (option spanhash_top)) :=
  match count_p with
  | Some (Some c) => Ret (c, count_p)
  | Some None => c ← hash_chars one; Ret (c, Some (Some c))
  | None => c ← hash_chars one; Ret (c, None)
  end.

(** [*src_copied], [*literal_added] and the counts the caller keeps. *)
Definition diffcore_count_changes (src dst : diff_filespec) (src_count_p dst_count_p : option (option spanhash_top))
    : outcome (Z * Z * option (option spanhash_top) * option (option spanhash_top)) :=
  '(src_count, src_count_p) ← cached_count src_count_p src;
  '(dst_count, dst_count_p) ← cached_count dst_count_p dst;
  '(d, sc, la) ← loop (S (length (data src_count))) (merge_round (data src_count) (data dst_count)) (0, 0, 0, 0);
  '(_, la) ← loop (S (length (data dst_count))) (skip_step (data dst_count) None) (d, la);
  Ret (sc, la, src_count_p, dst_count_p).
End model.

(** * Specification *)

(** The bytes counted: in a text, the CR of a CRLF is not. *)
Fixpoint counted (is_text : bool) (l : list Z) : list Z :=
  match l with
  | [] => []
  | c :: l' => if is_text && (c =? 13) && bool_decide (head l' = Some 10) then counted is_text l' else c :: counted is_text l'
  end.

(** The pieces: up to a newline or 64 bytes, the rest at the end. *)
Fixpoint pieces (cur l : list Z) : list (list Z) :=
  match l with
  | [] => if bool_decide (cur = []) then [] else [cur]
  | c :: l => let cur := cur ++ [c] in if (zlen cur <? 64) && negb (c =? 10) then pieces cur l else cur :: pieces [] l
  end.

Definition accum (l : list Z) : Z * Z :=
  foldl (fun '(a1, a2) c => (u32 (Z.lxor (u32 (Z.shiftl a1 7)) (Z.shiftr a2 25) + c), Z.lxor (u32 (Z.shiftl a2 7)) (Z.shiftr a1 25))) (0, 0) l.

Definition piece_hash (l : list Z) : Z := let '(a1, a2) := accum l in u32 (a1 + u32 (a2 * 0x61)) mod HASHBASE.

(** The bytes in pieces of hash [h]. *)
Fixpoint zsum {A} (f : A -> Z) (l : list A) : Z := match l with [] => 0 | x :: l => f x + zsum f l end.
Definition count (h : Z) (ps : list (list Z)) : Z := zsum zlen (filter (fun p => piece_hash p = h) ps).

(** * Tables *)

Section sums.
Context {A : Type}.
Implicit Types (f g : A -> Z) (l : list A).

Lemma zsum_app f l k : zsum f (l ++ k) = zsum f l + zsum f k.
Proof. induction l as [|x l IH]; cbn [app zsum]; [done|]. rewrite IH. lia. Qed.

Lemma zsum_perm f l k : l ≡ₚ k -> zsum f l = zsum f k.
Proof. induction 1; cbn [zsum]; lia. Qed.

Lemma zsum_ext f g l : (forall x, x ∈ l -> f x = g x) -> zsum f l = zsum g l.
Proof. induction l as [|x l IH]; intros Heq; cbn [zsum]; [done|]. rewrite IH by set_solver. rewrite Heq by set_solver. done. Qed.

Lemma zsum_nonneg f l : (forall x, x ∈ l -> 0 <= f x) -> 0 <= zsum f l.
Proof. induction l as [|x l IH]; intros Hf; cbn [zsum]; [done|]. pose proof (Hf x ltac:(set_solver)). pose proof (IH ltac:(set_solver)). lia. Qed.

Lemma zsum_fmap {B} (h : B -> A) f (l : list B) : zsum f (h <$> l) = zsum (fun x => f (h x)) l.
Proof. induction l as [|x l IH]; [done|]. cbn [fmap list_fmap zsum]. by rewrite <-IH. Qed.
End sums.

(** The least number with a property. *)
Lemma least (P : nat -> Prop) `{forall n, Decision (P n)} n : P n -> exists k, (k <= n)%nat /\ P k /\ forall j, (j < k)%nat -> ~ P j.
Proof.
  intros Hn. assert (forall n, (exists k, (k < n)%nat /\ P k /\ forall j, (j < k)%nat -> ~ P j) \/ (forall j, (j < n)%nat -> ~ P j)) as Hall.
  { clear n Hn. induction n as [|n [(k & Hk & Hp & Hl)|IH]]; [right; lia|left; exists k; auto with lia|].
    destruct (decide (P n)); [left; exists n; auto with lia|]. right. intros j Hj. destruct (decide (j = n)) as [->|]; [done|apply IH; lia]. }
  destruct (Hall (S n)) as [(k & Hk & Hp & Hl)|Hno]; [exists k; auto with lia|]. by destruct (Hno n ltac:(lia)).
Qed.

Section table.
Implicit Types (d : list spanhash) (m : gmap Z Z) (h : Z).

(** The bucket [k] steps from that of [h]. *)
Definition slot (lim h : Z) (k : nat) : Z := (h + Z.of_nat k) mod lim.

Lemma slot_next lim h k : 0 < lim -> slot lim h (S k) = if lim <=? slot lim h k + 1 then 0 else slot lim h k + 1.
Proof.
  intros Hl. unfold slot. pose proof (Z.mod_pos_bound (h + Z.of_nat k) lim Hl) as Hb.
  replace (h + Z.of_nat (S k)) with (h + Z.of_nat k + 1) by lia.
  assert ((h + Z.of_nat k + 1) mod lim = ((h + Z.of_nat k) mod lim + 1) mod lim) as -> by (by rewrite Zplus_mod_idemp_l).
  case_if; [|apply Z.mod_small; lia]. replace ((h + Z.of_nat k) mod lim + 1) with lim by lia. apply Z_mod_same_full.
Qed.

Lemma probe_spec d lim found h K s :
  0 < lim -> zlen d = lim ->
  (forall k, (k < K)%nat -> exists s, d !! Z.to_nat (slot lim h k) = Some s /\ found s = false) ->
  d !! Z.to_nat (slot lim h K) = Some s -> found s = true -> Z.of_nat K < lim ->
  probe d lim found (h mod lim) = Ret (slot lim h K).
Proof.
  intros Hl Hd Hbefore Hs Hfound HK. unfold probe.
  assert (forall n k fuel, (k + n = K)%nat -> (n < fuel)%nat -> loop fuel (probe_step d lim found) (slot lim h k) = Ret (slot lim h K)) as Hloop.
  { induction n as [|n IH]; intros k fuel Hk Hf; (destruct fuel as [|fuel]; [lia|]); pose proof (Z.mod_pos_bound (h + Z.of_nat k) lim Hl) as Hb; fold (slot lim h k) in Hb.
    - assert (k = K) as -> by lia. apply loop_stop. unfold probe_step. rewrite (proj2 (rd_Ret _ _ s)) by (split; [lia|done]). run. by rewrite Hfound.
    - destruct (Hbefore k ltac:(lia)) as (s' & Hs' & Hf'). erewrite loop_next; [apply (IH (S k)); lia|].
      unfold probe_step. rewrite (proj2 (rd_Ret _ _ s')) by (split; [lia|done]). run. rewrite Hf'. by rewrite slot_next. }
  replace (h mod lim) with (slot lim h 0) by (unfold slot; f_equal; lia). apply (Hloop K 0%nat); lia.
Qed.

Definition entries d : list (Z * Z) := (fun s => (hashval s, cnt s)) <$> filter (fun s => cnt s <> 0) d.

(** A table for the counts [m]: each is found by probing. *)
Record tbl d (lim : Z) m : Prop := {
  tb_lim : 0 < lim;
  tb_len : zlen d = lim;
  tb_perm : entries d ≡ₚ map_to_list m;
  tb_reach h c : m !! h = Some c -> exists k, Z.of_nat k < lim /\ d !! Z.to_nat (slot lim h k) = Some (SpanHash h c) /\
    forall j, (j < k)%nat -> exists s, d !! Z.to_nat (slot lim h j) = Some s /\ cnt s <> 0 /\ hashval s <> h;
}.

Lemma entries_lookup d lim m i s : tbl d lim m -> d !! i = Some s -> cnt s <> 0 -> m !! hashval s = Some (cnt s).
Proof.
  intros Ht Hi Hc. apply elem_of_map_to_list. rewrite <-(tb_perm _ _ _ Ht). unfold entries. apply list_elem_of_fmap. exists s. split; [done|].
  apply list_elem_of_filter. split; [done|]. by apply list_elem_of_lookup_2 in Hi.
Qed.

Lemma entries_insert d i old new :
  d !! i = Some old ->
  exists rest, d ≡ₚ old :: rest /\ <[i := new]> d ≡ₚ new :: rest.
Proof.
  intros Hi. exists (take i d ++ drop (S i) d). pose proof (lookup_lt_Some _ _ _ Hi). split.
  - rewrite <-(take_drop_middle _ _ _ Hi) at 1. by rewrite Permutation_middle.
  - rewrite insert_take_drop by done. by rewrite Permutation_middle.
Qed.

Lemma entries_perm d d' : d ≡ₚ d' -> entries d ≡ₚ entries d'.
Proof. intros Hp. unfold entries. by rewrite Hp. Qed.

Lemma entries_cons s d : entries (s :: d) = if decide (cnt s <> 0) then (hashval s, cnt s) :: entries d else entries d.
Proof. unfold entries. rewrite filter_cons. by case_decide. Qed.

(** A table with fewer entries than buckets has an empty one. *)
Lemma tbl_empty d lim m : tbl d lim m -> Z.of_nat (size m) < lim -> exists i s, d !! i = Some s /\ cnt s = 0.
Proof.
  intros Ht Hs. destruct (decide (Forall (fun s => cnt s <> 0) d)) as [Hall|Hsome].
  - exfalso. pose proof (Permutation_length (tb_perm _ _ _ Ht)) as Hlen. unfold entries in Hlen. rewrite length_fmap, length_map_to_list in Hlen.
    assert (filter (fun s => cnt s <> 0) d = d) as Heq. { clear -Hall. induction Hall as [|s d Hs _ IH]; [done|]. by rewrite filter_cons, decide_True, IH. }
    rewrite Heq in Hlen. pose proof (tb_len _ _ _ Ht). unfold zlen in *. lia.
  - apply not_Forall_Exists in Hsome; [|apply _]. apply Exists_exists in Hsome as (s & Hin & Hc). apply list_elem_of_lookup_1 in Hin as [i Hi].
    exists i, s. split; [done|]. destruct (decide (cnt s = 0)); [done|]. by destruct Hc.
Qed.

(** A bucket seen from that of [h]. *)
Lemma slot_hits lim h i : 0 < lim -> 0 <= i < lim -> exists k, Z.of_nat k < lim /\ slot lim h k = i.
Proof.
  intros Hl Hi. exists (Z.to_nat ((i - h) mod lim)). pose proof (Z.mod_pos_bound (i - h) lim Hl). split; [lia|]. unfold slot. rewrite Z2Nat.id by lia.
  rewrite Zplus_mod_idemp_r. replace (h + (i - h)) with i by lia. by apply Z.mod_small.
Qed.

Lemma slot_range lim h k : 0 < lim -> 0 <= slot lim h k < lim.
Proof. intros. by apply Z.mod_pos_bound. Qed.

Lemma tbl_nonzero d lim m h c : tbl d lim m -> m !! h = Some c -> c <> 0.
Proof.
  intros Ht Hm ->. assert ((h, 0) ∈ entries d) as Hin by (rewrite (tb_perm _ _ _ Ht); by apply elem_of_map_to_list).
  unfold entries in Hin. apply list_elem_of_fmap in Hin as (s & [= -> Heq] & Hin). apply list_elem_of_filter in Hin as [? _]. congruence.
Qed.

(** A new hash goes to the first empty bucket. *)
Lemma tbl_insert d lim m found h n :
  tbl d lim m -> Z.of_nat (size m) < lim -> m !! h = None -> 0 < n ->
  (forall s, cnt s = 0 -> found s = true) -> (forall s, cnt s <> 0 -> found s = true -> hashval s = h) ->
  exists b s, probe d lim found (h mod lim) = Ret b /\ 0 <= b < lim /\ d !! Z.to_nat b = Some s /\ cnt s = 0 /\
    tbl (<[Z.to_nat b := SpanHash h n]> d) lim (<[h := n]> m).
Proof.
  intros Ht Hsize Hm Hn Hf1 Hf2. pose proof (tb_lim _ _ _ Ht) as Hl. pose proof (tb_len _ _ _ Ht) as Hd.
  destruct (tbl_empty d lim m Ht Hsize) as (i & s0 & Hi & Hc0). pose proof (lookup_lt_Some _ _ _ Hi) as Hilt.
  destruct (slot_hits lim h (Z.of_nat i) Hl) as (k0 & Hk0 & Hs0); [unfold zlen in Hd; lia|].
  destruct (least (fun k => cnt <$> d !! Z.to_nat (slot lim h k) = Some 0) k0) as (k & Hk & Hp & Hbefore).
  { rewrite Hs0, Nat2Z.id, Hi. cbn. by rewrite Hc0. }
  apply fmap_Some in Hp as (s & Hs & Hc). symmetry in Hc.
  assert (forall j, (j < k)%nat -> exists s, d !! Z.to_nat (slot lim h j) = Some s /\ cnt s <> 0 /\ hashval s <> h) as Hb.
  { intros j Hj. pose proof (slot_range lim h j Hl) as Hr. destruct (lookup_lt_is_Some_2 d (Z.to_nat (slot lim h j))) as [s' Hs']; [unfold zlen in Hd; lia|].
    assert (cnt s' <> 0) as Hc' by (intros Hc'; apply (Hbefore j Hj); rewrite Hs'; cbn; by rewrite Hc'). exists s'. split; [done|]. split; [done|].
    intros <-. pose proof (entries_lookup _ _ _ _ _ Ht Hs' Hc'). congruence. }
  pose proof (slot_range lim h k Hl) as Hr. exists (slot lim h k), s. split; [|split; [done|split; [done|split; [done|]]]].
  - apply (probe_spec d lim found h k s Hl Hd); [|done|by apply Hf1|lia]. intros j Hj. destruct (Hb j Hj) as (s' & Hs' & Hc' & Hh'). exists s'. split; [done|].
    destruct (found s') eqn:E; [|done]. by destruct Hh', (Hf2 s').
  - destruct (entries_insert d _ s (SpanHash h n) Hs) as (rest & Hp1 & Hp2). split; [done|by rewrite zlen_insert| |].
    + rewrite (entries_perm _ _ Hp2), entries_cons. cbn [cnt hashval]. rewrite decide_True by lia. rewrite map_to_list_insert by done. constructor.
      rewrite <-(tb_perm _ _ _ Ht), (entries_perm _ _ Hp1), entries_cons. by rewrite decide_False by auto.
    + intros h' c' Hm'. destruct (decide (h' = h)) as [->|Hne].
      * rewrite lookup_insert_eq in Hm'. injection Hm' as <-. exists k. split; [lia|]. split; [apply list_lookup_insert_eq; unfold zlen in Hd; lia|].
        intros j Hj. destruct (Hb j Hj) as (s' & Hs' & Hc' & Hh'). exists s'. split; [|done]. rewrite list_lookup_insert_ne; [done|].
        intros Heq. rewrite Heq in Hs. rewrite Hs in Hs'. congruence.
      * rewrite lookup_insert_ne in Hm' by done. destruct (tb_reach _ _ _ Ht h' c' Hm') as (k' & Hk' & Hs' & Hb').
        pose proof (tbl_nonzero _ _ _ _ _ Ht Hm') as Hc0'.
        exists k'. split; [done|]. split.
        -- rewrite list_lookup_insert_ne; [done|]. intros Heq. rewrite Heq in Hs. rewrite Hs in Hs'. injection Hs' as ->. cbn in Hc. congruence.
        -- intros j Hj. destruct (Hb' j Hj) as (s' & Hs'' & Hc' & Hh'). exists s'. split; [|done]. rewrite list_lookup_insert_ne; [done|].
           intros Heq. rewrite Heq in Hs. rewrite Hs in Hs''. congruence.
Qed.
(** A hash that is there is found. *)
Lemma tbl_update d lim m found h c n :
  tbl d lim m -> m !! h = Some c -> n <> 0 -> (forall s, cnt s <> 0 -> hashval s <> h -> found s = false) -> (forall c, found (SpanHash h c) = true) ->
  exists b, probe d lim found (h mod lim) = Ret b /\ 0 <= b < lim /\ d !! Z.to_nat b = Some (SpanHash h c) /\
    tbl (<[Z.to_nat b := SpanHash h n]> d) lim (<[h := n]> m).
Proof.
  intros Ht Hm Hn Hf1 Hf2. pose proof (tb_lim _ _ _ Ht) as Hl. pose proof (tb_len _ _ _ Ht) as Hd.
  destruct (tb_reach _ _ _ Ht h c Hm) as (k & Hk & Hs & Hb). pose proof (slot_range lim h k Hl) as Hr.
  pose proof (tbl_nonzero _ _ _ _ _ Ht Hm) as Hc.
  exists (slot lim h k). split; [|split; [done|split; [done|]]].
  - apply (probe_spec d lim found h k (SpanHash h c) Hl Hd); [|done|done|lia]. intros j Hj. destruct (Hb j Hj) as (s & ? & ? & ?). exists s. auto.
  - destruct (entries_insert d _ _ (SpanHash h n) Hs) as (rest & Hp1 & Hp2). split; [done|by rewrite zlen_insert| |].
    + rewrite (entries_perm _ _ Hp2), entries_cons. cbn [cnt hashval]. rewrite decide_True by lia. rewrite <-insert_delete_eq, map_to_list_insert by apply lookup_delete_eq.
      constructor. apply (Permutation_cons_inv (a := (h, c))). rewrite (map_to_list_delete m h c Hm), <-(tb_perm _ _ _ Ht), (entries_perm _ _ Hp1), entries_cons.
      cbn [cnt hashval]. by rewrite decide_True.
    + intros h' c' Hm'. destruct (decide (h' = h)) as [->|Hne].
      * rewrite lookup_insert_eq in Hm'. injection Hm' as <-. exists k. split; [lia|]. split; [apply list_lookup_insert_eq; unfold zlen in Hd; lia|].
        intros j Hj. destruct (Hb j Hj) as (s & Hs' & Hc' & Hh'). exists s. split; [|done]. rewrite list_lookup_insert_ne; [done|].
        intros Heq. rewrite Heq in Hs. rewrite Hs in Hs'. injection Hs' as <-. by destruct Hh'.
      * rewrite lookup_insert_ne in Hm' by done. destruct (tb_reach _ _ _ Ht h' c' Hm') as (k' & Hk' & Hs' & Hb').
        exists k'. split; [done|]. split.
        -- rewrite list_lookup_insert_ne; [done|]. intros Heq. rewrite Heq in Hs. rewrite Hs in Hs'. injection Hs' as ->. done.
        -- intros j Hj. destruct (Hb' j Hj) as (s & Hs'' & Hc' & Hh'). destruct (decide (Z.to_nat (slot lim h k) = Z.to_nat (slot lim h' j))) as [Heq|Hd'].
           ++ exists (SpanHash h n). rewrite <-Heq. split; [apply list_lookup_insert_eq; unfold zlen in Hd; lia|]. by split.
           ++ exists s. by rewrite list_lookup_insert_ne.
Qed.

Lemma tbl_new log2 free : 0 <= log2 -> tbl (data (new_table log2 free)) (Z.shiftl 1 log2) ∅.
Proof.
  intros Hl. assert (0 < Z.shiftl 1 log2) by (rewrite Z.shiftl_1_l; lia). cbn [new_table data]. split; [done|rewrite zlen_replicate; lia| |].
  - rewrite map_to_list_empty. unfold entries. enough (filter (fun s => cnt s <> 0) (replicate (Z.to_nat (Z.shiftl 1 log2)) (SpanHash 0 0)) = []) as -> by done.
    induction (Z.to_nat (Z.shiftl 1 log2)) as [|k IH]; [done|]. cbn [replicate]. by rewrite filter_cons, decide_False by (cbn; lia).
  - intros h c Hm. by rewrite lookup_empty in Hm.
Qed.
End table.

(** * Growing tables *)

Section growth.
Implicit Types (top : spanhash_top) (m : gmap Z Z) (d : list spanhash).

Lemma mask h k : 0 <= k -> Z.land h (Z.shiftl 1 k - 1) = h mod Z.shiftl 1 k.
Proof. intros Hk. rewrite Z.shiftl_1_l, <-Z.land_ones by done. by rewrite Z.ones_equiv. Qed.

(** The hashes are below HASHBASE, so that 2^17 buckets are enough. *)
Definition small m : Prop := forall h c, m !! h = Some c -> 0 <= h < HASHBASE /\ 0 < c.

Record top_rep top m : Prop := {
  tr_log : 9 <= alloc_log2 top <= 17;
  tr_free : free top = INITIAL_FREE (alloc_log2 top) - Z.of_nat (size m);
  tr_room : 0 <= free top;
  tr_tbl : tbl (data top) (Z.shiftl 1 (alloc_log2 top)) m;
  tr_small : small m;
}.

Lemma small_size m : small m -> Z.of_nat (size m) <= HASHBASE.
Proof.
  intros Hm. assert (HASHBASE = Z.of_nat (length (seqZ 0 HASHBASE))) as -> by (rewrite length_seqZ; unfold HASHBASE; lia).
  rewrite <-length_map_to_list. rewrite <-(length_fmap fst (map_to_list m)). apply inj_le. apply submseteq_length, NoDup_submseteq; [apply NoDup_fst_map_to_list|].
  intros h Hin. apply list_elem_of_fmap in Hin as ([h' c] & -> & Hin). apply elem_of_map_to_list in Hin. apply elem_of_seqZ. cbn [fst].
  destruct (Hm _ _ Hin). lia.
Qed.

Lemma initial_free l : 9 <= l < 17 -> INITIAL_FREE l < INITIAL_FREE (l + 1).
Proof. intros Hl. assert (l = 9 \/ l = 10 \/ l = 11 \/ l = 12 \/ l = 13 \/ l = 14 \/ l = 15 \/ l = 16) as Hcases by lia. repeat destruct Hcases as [->|Hcases]; try done. by subst. Qed.

Lemma initial_free_lt l : 9 <= l <= 17 -> INITIAL_FREE l + 1 < Z.shiftl 1 l.
Proof. intros Hl. assert (l = 9 \/ l = 10 \/ l = 11 \/ l = 12 \/ l = 13 \/ l = 14 \/ l = 15 \/ l = 16 \/ l = 17) as Hcases by lia. repeat destruct Hcases as [->|Hcases]; try done. by subst. Qed.

Lemma entries_app d d' : entries (d ++ d') = entries d ++ entries d'.
Proof. unfold entries. by rewrite filter_app, fmap_app. Qed.

(** The first [i] buckets are in the new table. *)
Definition moved (d : list spanhash) (log2 i : Z) (st : spanhash_top) : Prop :=
  exists m, entries (take (Z.to_nat i) d) ≡ₚ map_to_list m /\ tbl (data st) (Z.shiftl 1 log2) m /\
    alloc_log2 st = log2 /\ free st = INITIAL_FREE log2 - Z.of_nat (size m).

Lemma rehash_step_spec top m log2 i st :
  tbl (data top) (Z.shiftl 1 (alloc_log2 top)) m -> small m -> 0 <= log2 -> Z.of_nat (size m) < Z.shiftl 1 log2 ->
  0 <= i < zlen (data top) -> moved (data top) log2 i st ->
  exists st', rehash_step top (Z.shiftl 1 log2) i st = Ret st' /\ moved (data top) log2 (i + 1) st'.
Proof.
  intros Ht Hm Hl Hsize Hi (m' & Hp & Ht' & Hl' & Hf'). destruct (lookup_lt_is_Some_2 (data top) (Z.to_nat i)) as [o Ho]; [unfold zlen in Hi; lia|].
  unfold rehash_step, moved. rewrite (proj2 (rd_Ret _ _ o)) by (split; [lia|done]). run.
  replace (Z.to_nat (i + 1)) with (S (Z.to_nat i)) by lia. rewrite (take_S_r _ _ _ Ho), entries_app, entries_cons.
  destruct (tru (cnt o)) eqn:Ec; cbn [negb].
  2:{ exists st. split; [done|]. exists m'. split; [|done]. apply tru_false in Ec. rewrite decide_False by auto. unfold entries at 2. by rewrite app_nil_r. }
  apply tru_true in Ec. rewrite decide_True by done. unfold entries at 2. cbn [fmap list_fmap filter list_filter].
  assert (entries (data top) = entries (take (Z.to_nat i) (data top)) ++ (hashval o, cnt o) :: entries (drop (S (Z.to_nat i)) (data top))) as Hall.
  { rewrite <-(take_drop_middle _ _ _ Ho) at 1. by rewrite entries_app, entries_cons, decide_True. }
  assert (m' !! hashval o = None) as Hnone.
  { pose proof (NoDup_fst_map_to_list m) as Hnd. rewrite <-(tb_perm _ _ _ Ht), Hall, fmap_app in Hnd. apply NoDup_app in Hnd as (_ & Hnd & _).
    destruct (m' !! hashval o) as [c|] eqn:E; [|done]. destruct (Hnd (hashval o)); [|cbn; set_solver].
    rewrite Hp. apply list_elem_of_fmap. exists (hashval o, c). split; [done|]. by apply elem_of_map_to_list. }
  assert (size m' < size m)%nat as Hle.
  { rewrite <-!length_map_to_list, <-Hp, <-(tb_perm _ _ _ Ht), Hall, length_app. cbn. lia. }
  destruct (Hm _ _ (entries_lookup _ _ _ _ _ Ht Ho Ec)) as [_ Hcpos].
  destruct (tbl_insert (data st) _ m' (fun s => negb (tru (cnt s))) (hashval o) (cnt o) Ht') as (b & s & Hprobe & Hb & Hs & Hcs & Hins);
    [lia|done|done|intros s Hs; by rewrite (proj2 (tru_false _) Hs)|intros s Hs; by rewrite (proj2 (tru_true _) Hs)|].
  rewrite mask by lia. rewrite Hprobe. run. rewrite wr_in by (pose proof (tb_len _ _ _ Ht'); lia). run. eexists. split; [done|].
  exists (<[hashval o := cnt o]> m'). split; [rewrite map_to_list_insert, <-Hp by done; by rewrite <-Permutation_cons_append|].
  split; [by destruct o|]. split; [done|]. cbn [free]. rewrite map_size_insert_None by done. lia.
Qed.

Lemma spanhash_rehash_spec top m :
  tbl (data top) (Z.shiftl 1 (alloc_log2 top)) m -> 9 <= alloc_log2 top < 17 -> small m ->
  Z.of_nat (size m) <= INITIAL_FREE (alloc_log2 top) + 1 ->
  exists top', spanhash_rehash top = Ret top' /\ top_rep top' m.
Proof.
  intros Ht Hl Hm Hsize. unfold spanhash_rehash.
  rewrite Z.shiftl_shiftl by lia. set (log2 := alloc_log2 top + 1).
  pose proof (initial_free _ Hl) as Hgrow. fold log2 in Hgrow. pose proof (initial_free_lt log2 ltac:(lia)) as Hlt. pose proof (tb_len _ _ _ Ht) as Hlen. pose proof (tb_lim _ _ _ Ht) as Hpos.
  destruct (for_n_ret (moved (data top) log2) (Z.to_nat (Z.shiftl 1 (alloc_log2 top))) 0 (rehash_step top (Z.shiftl 1 log2)) (new_table log2 (INITIAL_FREE log2)))
    as (st & Hst & m' & Hp & Ht' & Hl' & Hf').
  - intros i st Hi Hmoved. apply (rehash_step_spec top m); [done|done|lia|lia|lia|done].
  - exists ∅. split; [by rewrite take_0, map_to_list_empty|]. split; [apply tbl_new; lia|]. split; [done|]. cbn [new_table free]. rewrite map_size_empty. lia.
  - assert (m' = m) as ->.
    { apply map_to_list_inj. rewrite <-(tb_perm _ _ _ Ht), <-Hp. rewrite take_ge; [done|]. unfold zlen in Hlen. lia. }
    exists st. split; [done|]. split; rewrite ?Hl'; [lia|done|lia|done|done].
Qed.
Lemma add_spec top m h n :
  top_rep top m -> 0 <= h < HASHBASE -> 0 < n -> default 0 (m !! h) + n < 2 ^ 32 ->
  exists top', add_spanhash top h n = Ret top' /\ top_rep top' (<[h := default 0 (m !! h) + n]> m).
Proof.
  intros [Hlog Hfree Hroom Ht Hm] Hh Hn Hmax. unfold add_spanhash. rewrite mask by lia. pose proof (initial_free_lt _ Hlog) as Hlt.
  assert (small (<[h := default 0 (m !! h) + n]> m)) as Hm'.
  { intros h' c' E. destruct (decide (h' = h)) as [->|Hne]; [|rewrite lookup_insert_ne in E by done; by apply Hm].
    rewrite lookup_insert_eq in E. injection E as <-. split; [done|]. destruct (m !! h) as [c|] eqn:Ec; cbn; [|lia]. destruct (Hm _ _ Ec). lia. }
  destruct (m !! h) as [c|] eqn:Ec; [change (default 0 (Some c)) with c in *|change (default 0 None + n) with n in *].
  - destruct (Hm _ _ Ec) as [_ Hc].
    destruct (tbl_update (data top) _ m (fun s => negb (tru (cnt s)) || (hashval s =? h)) h c (c + n) Ht Ec) as (b & Hp & Hb & Hs & Hins); [lia| | |].
    { intros s Hs Hne. rewrite (proj2 (tru_true _) Hs). by apply Z.eqb_neq. }
    { intros c'. cbn [hashval]. by rewrite Z.eqb_refl, orb_true_r. }
    rewrite Hp. run. rewrite (proj2 (rd_Ret _ _ _) (conj (proj1 Hb) Hs)). run. cbn [cnt hashval]. rewrite (proj2 (tru_true c)) by lia. cbn [negb].
    rewrite u32_small by lia. rewrite wr_in by (pose proof (tb_len _ _ _ Ht); lia). run. eexists. split; [done|]. split; cbn [alloc_log2 free data]; [done| |done|done|done].
    by rewrite map_size_insert_Some by done.
  - destruct (tbl_insert (data top) _ m (fun s => negb (tru (cnt s)) || (hashval s =? h)) h n Ht) as (b & s & Hp & Hb & Hs & Hc & Hins); [lia|done|done| | |].
    { intros s Hs. by rewrite (proj2 (tru_false _) Hs). }
    { intros s Hs. rewrite (proj2 (tru_true _) Hs). apply Z.eqb_eq. }
    rewrite Hp. run. rewrite (proj2 (rd_Ret _ _ _) (conj (proj1 Hb) Hs)). run. rewrite Hc. change (tru 0) with false. cbn [negb].
    rewrite wr_in by (pose proof (tb_len _ _ _ Ht); lia). run. cbn [free].
    assert (size (<[h := n]> m) = S (size m)) as Hsize by (by apply map_size_insert_None). pose proof (small_size _ Hm') as Hmaxsize.
    case_if.
    + apply spanhash_rehash_spec; cbn [data alloc_log2]; [done| |done|lia]. split; [lia|]. destruct (decide (alloc_log2 top = 17)) as [E|]; [|lia].
      exfalso. rewrite E in Hfree. change (INITIAL_FREE 17) with 107941 in Hfree. unfold HASHBASE in Hmaxsize. lia.
    + eexists. split; [done|]. split; cbn [alloc_log2 free data]; [done|lia|lia|done|done].
Qed.
End growth.

(** * Pieces *)

Lemma accum_snoc l c : accum (l ++ [c]) =
  (u32 (Z.lxor (u32 (Z.shiftl (fst (accum l)) 7)) (Z.shiftr (snd (accum l)) 25) + c), Z.lxor (u32 (Z.shiftl (snd (accum l)) 7)) (Z.shiftr (fst (accum l)) 25)).
Proof. unfold accum. rewrite foldl_app. cbn [foldl]. by destruct (foldl _ (0, 0) l). Qed.

Lemma concat_pieces l cur : concat (pieces cur l) = cur ++ l.
Proof.
  revert cur. induction l as [|c l IH]; intros cur; cbn [pieces].
  - case_bool_decide as E; [by subst|]. cbn [concat]. done.
  - case_if; [|cbn [concat]]; rewrite IH; by rewrite <-(assoc app).
Qed.

Lemma count_app h ps qs : count h (ps ++ qs) = count h ps + count h qs.
Proof. unfold count. by rewrite filter_app, zsum_app. Qed.

Lemma count_one h p : count h [p] = if decide (piece_hash p = h) then zlen p else 0.
Proof. unfold count. rewrite filter_cons, filter_nil. case_decide; cbn [zsum]; lia. Qed.

Lemma count_nonneg h ps : 0 <= count h ps.
Proof. apply zsum_nonneg. intros. apply zlen_nonneg. Qed.

Lemma count_le h ps : count h ps <= zlen (concat ps).
Proof.
  induction ps as [|p ps IH]; [done|]. change (p :: ps) with ([p] ++ ps). rewrite count_app, count_one, concat_app, zlen_app. cbn [concat]. rewrite app_nil_r.
  pose proof (zlen_nonneg p). case_decide; lia.
Qed.

Lemma piece_hash_range p : 0 <= piece_hash p < HASHBASE.
Proof. unfold piece_hash. destruct (accum p). by apply Z.mod_pos_bound. Qed.

Lemma counted_le t l : zlen (counted t l) <= zlen l.
Proof. induction l as [|c l IH]; cbn [counted]; [done|]. case_if; rewrite ?zlen_cons; lia. Qed.

(** The table for the pieces [ps]. *)
Definition counts_for (ps : list (list Z)) (top : spanhash_top) : Prop :=
  exists m, top_rep top m /\ forall h, default 0 (m !! h) = count h ps.

Lemma counts_new : counts_for [] (new_table INITIAL_HASH_SIZE (INITIAL_FREE INITIAL_HASH_SIZE)).
Proof.
  exists ∅. split; [|intros h; by rewrite lookup_empty]. split; [done|done|done| |intros h c Hm; by rewrite lookup_empty in Hm].
  by apply tbl_new.
Qed.

Lemma counts_add ps p top :
  counts_for ps top -> p <> [] -> zlen (concat (ps ++ [p])) < 2 ^ 32 ->
  exists top', add_spanhash top (piece_hash p) (zlen p) = Ret top' /\ counts_for (ps ++ [p]) top'.
Proof.
  intros (m & Hr & Hm) Hp Hlen. pose proof (count_le (piece_hash p) (ps ++ [p])) as Hle. rewrite count_app, count_one, decide_True in Hle by done.
  assert (0 < zlen p) by (destruct p; [done|rewrite zlen_cons; pose proof (zlen_nonneg p); lia]).
  destruct (add_spec top m (piece_hash p) (zlen p) Hr) as (top' & Hrun & Hr'); [apply piece_hash_range|done|rewrite Hm; lia|].
  exists top'. split; [done|]. exists (<[piece_hash p := default 0 (m !! piece_hash p) + zlen p]> m). split; [done|]. intros h. rewrite count_app, count_one.
  destruct (decide (piece_hash p = h)) as [->|Hne]; [by rewrite lookup_insert_eq, Hm|]. rewrite lookup_insert_ne, Hm by done. lia.
Qed.

Section chars.
Context (buf : list Z) (is_text : bool) (all : list (list Z)).
Hypothesis (Hall : zlen (concat all) < 2 ^ 32).

(** The pieces done, the start of the next one and the rest of the text. *)
Definition chars_inv (st : Z * Z * Z * Z * Z * spanhash_top) : Prop :=
  let '(pos, sz, n, accum1, accum2, hash) := st in
  exists ps cur rest, at_pos buf pos rest /\ sz = zlen rest /\ n = zlen cur /\ zlen cur < 64 /\ (accum1, accum2) = accum cur /\
    counts_for ps hash /\ all = ps ++ pieces cur (counted is_text rest).

Definition chars_end (st : Z * Z * Z * spanhash_top) : Prop :=
  let '(n, accum1, accum2, hash) := st in
  exists ps cur, n = zlen cur /\ (accum1, accum2) = accum cur /\ counts_for ps hash /\ all = ps ++ pieces cur [].

Lemma chars_step_spec st : chars_inv st ->
  exists r, chars_step buf is_text st = Ret r /\
    match r with
    | inl st' => chars_inv st' /\ 0 <= (let '(_, sz, _, _, _, _) := st' in sz) < (let '(_, sz, _, _, _, _) := st in sz)
    | inr st' => chars_end st'
    end.
Proof.
  destruct st as [[[[[pos sz] n] accum1] accum2] hash]. intros (ps & cur & rest & Hat & -> & -> & Hcur & Hacc & Hps & Heq). unfold chars_step.
  destruct rest as [|c rest]; [eexists; split; [done|]; by exists ps, cur|]. pose proof (zlen_nonneg rest). rewrite zlen_cons.
  rewrite (proj2 (tru_true _)) by lia. cbn [negb]. destruct (at_pos_cons _ _ _ _ Hat) as [Hrd Hat']. rewrite Hrd. run.
  replace (1 + zlen rest - 1) with (zlen rest) by lia. cbn [counted] in Heq.
  assert ((if is_text && (c =? 13) && tru (zlen rest) then d ← rd buf (pos + 1); Ret (d =? 10) else Ret false) =
    Ret (is_text && (c =? 13) && bool_decide (head rest = Some 10))) as ->.
  { destruct (is_text && (c =? 13)); [|done]. destruct rest as [|d rest]; [done|]. cbn [andb]. rewrite zlen_cons, (proj2 (tru_true _)) by (pose proof (zlen_nonneg rest); lia).
    destruct (at_pos_cons _ _ _ _ Hat') as [-> _]. run. f_equal. apply eq_true_iff_eq. rewrite Z.eqb_eq, bool_decide_eq_true. cbn. split; congruence. }
  run. destruct (is_text && (c =? 13) && bool_decide (head rest = Some 10)).
  { eexists. split; [done|]. split; [|lia]. by exists ps, cur, rest. }
  cbn [pieces] in Heq. rewrite zlen_app in Heq. change (zlen [c]) with 1 in Heq.
  assert (accum1 = fst (accum cur)) as -> by (by rewrite <-Hacc). assert (accum2 = snd (accum cur)) as -> by (by rewrite <-Hacc).
  pose proof (accum_snoc cur c) as Hsnoc. destruct ((zlen cur + 1 <? 64) && negb (c =? 10)) eqn:Ego.
  { eexists. split; [done|]. split; [|lia]. exists ps, (cur ++ [c]), rest. rewrite zlen_app. change (zlen [c]) with 1. apply andb_prop in Ego as [E%Z.ltb_lt _]. done. }
  assert (all = (ps ++ [cur ++ [c]]) ++ pieces [] (counted is_text rest)) as Heq' by (by rewrite <-(assoc app)).
  destruct (counts_add ps (cur ++ [c]) hash Hps) as (hash' & Hadd & Hps').
  { by destruct cur. }
  { rewrite Heq', concat_app, zlen_app in Hall. pose proof (zlen_nonneg (concat (pieces [] (counted is_text rest)))). lia. }
  rewrite zlen_app in Hadd. unfold piece_hash in Hadd. rewrite Hsnoc in Hadd. change (zlen [c]) with 1 in Hadd. rewrite Hadd. run. eexists. split; [done|]. split; [|lia].
  by exists (ps ++ [cur ++ [c]]), [], rest.
Qed.
End chars.

(** * Sorting *)

#[local] Instance spanhash_cmp_CmpOk : CmpOk spanhash_cmp.
Proof.
  split; unfold spanhash_cmp; intros *; repeat match goal with |- context [tru (cnt ?x)] => destruct (tru (cnt x)) end; cbn [negb]; try lia;
    repeat match goal with |- context [?x <? ?y] => destruct (Z.ltb_spec x y) | |- context [?x >? ?y] => rewrite (Z.gtb_ltb x y) end; lia.
Qed.

Definition below (s t : spanhash) : Prop := hashval s < hashval t.

(** The entries in ascending order, then empty ones. *)
Definition listed (ps : list (list Z)) (l : list spanhash) : Prop :=
  exists es z rest, l = es ++ z :: rest /\ cnt z = 0 /\ StronglySorted below es /\ Forall (fun s => 0 <= hashval s < HASHBASE /\ 0 < cnt s < 2 ^ 32) es /\
    forall h, count h ps = zsum cnt (filter (fun s => hashval s = h) es).

Lemma split_zeros l :
  StronglySorted (cle spanhash_cmp) l -> exists es zs, l = es ++ zs /\ Forall (fun s => cnt s <> 0) es /\ Forall (fun s => cnt s = 0) zs.
Proof.
  induction 1 as [|s l _ (es & zs & -> & Hes & Hzs) Hle]; [by exists [], []|]. destruct (decide (cnt s = 0)) as [E|E].
  - exists [], (s :: es ++ zs). split; [done|]. split; [done|]. constructor; [done|]. destruct es as [|e es]; [done|]. exfalso.
    apply Forall_app in Hle as [Hle _]. inversion Hle as [|? ? Hse _]. inversion Hes as [|? ? He _]. revert Hse. unfold cle, spanhash_cmp.
    rewrite (proj2 (tru_false (cnt s))), (proj2 (tru_true (cnt e))) by done. done.
  - exists (s :: es), zs. split; [done|]. split; [by constructor|done].
Qed.

Lemma sorted_below es :
  StronglySorted (cle spanhash_cmp) es -> Forall (fun s => cnt s <> 0) es -> NoDup (hashval <$> es) -> StronglySorted below es.
Proof.
  induction 1 as [|s l _ IH Hle]; intros Hes Hnd; [constructor|]. inversion Hes as [|? ? Hs Hl]. inversion Hnd as [|? ? Hin Hnd']. subst. constructor; [by apply IH|].
  rewrite Forall_forall in Hle, Hl |- *. intros t Ht. specialize (Hle t Ht). revert Hle. unfold cle, spanhash_cmp, below.
  rewrite (proj2 (tru_true (cnt s))), (proj2 (tru_true (cnt t))) by auto. cbn [negb]. destruct (Z.ltb_spec (hashval s) (hashval t)); [done|]. rewrite Z.gtb_ltb.
  destruct (Z.ltb_spec (hashval t) (hashval s)); [done|]. intros _. destruct Hin. apply list_elem_of_fmap. exists t. split; [lia|done].
Qed.


Definition cnt_in (es : list spanhash) (h : Z) : Z := zsum cnt (filter (fun s => hashval s = h) es).

Lemma cnt_in_cons s es h : cnt_in (s :: es) h = (if decide (hashval s = h) then cnt s else 0) + cnt_in es h.
Proof. unfold cnt_in. rewrite filter_cons. case_decide; cbn [zsum]; lia. Qed.

Lemma cnt_in_none es h : h ∉ hashval <$> es -> cnt_in es h = 0.
Proof.
  induction es as [|s es IH]; [done|]. cbn [fmap list_fmap]. rewrite not_elem_of_cons, cnt_in_cons. intros [Hne Hin]. rewrite decide_False by auto. rewrite IH; [lia|done].
Qed.

Lemma cnt_in_some es s : NoDup (hashval <$> es) -> s ∈ es -> cnt_in es (hashval s) = cnt s.
Proof.
  induction es as [|t es IH]; cbn [fmap list_fmap]; [by intros _ ?%elem_of_nil|]. rewrite NoDup_cons, elem_of_cons, cnt_in_cons. intros [Hin Hnd] [->|Hs].
  - rewrite decide_True, cnt_in_none by done. lia.
  - rewrite decide_False, IH; [lia|done|done|]. intros E. apply Hin. rewrite E. apply list_elem_of_fmap. by exists s.
Qed.

Lemma entries_nonzero es : Forall (fun s => cnt s <> 0) es -> entries es = (fun s => (hashval s, cnt s)) <$> es.
Proof. induction 1 as [|s es Hs _ IH]; [done|]. by rewrite entries_cons, decide_True, IH. Qed.

Lemma entries_zero zs : Forall (fun s => cnt s = 0) zs -> entries zs = [].
Proof. induction 1 as [|s es Hs _ IH]; [done|]. by rewrite entries_cons, decide_False by auto. Qed.

Lemma counts_listed `{QsortOk} ps top : zlen (concat ps) < 2 ^ 32 -> counts_for ps top -> listed ps (qsort spanhash_cmp (data top)).
Proof.
  intros Hlen (m & [Hlog Hfree Hroom Ht Hm] & Hcount). destruct (qsort_sorts spanhash_cmp (data top) _) as [Hs Hp].
  destruct (split_zeros _ Hs) as (es & zs & Heq & Hes & Hzs). rewrite Heq in Hs, Hp |- *. apply StronglySorted_app_1_l in Hs.
  pose proof (tb_perm _ _ _ Ht) as Hperm. rewrite <-(entries_perm _ _ Hp), entries_app, (entries_zero zs), app_nil_r in Hperm by done.
  rewrite entries_nonzero in Hperm by done. assert (NoDup (hashval <$> es)) as Hnd.
  { pose proof (NoDup_fst_map_to_list m) as Hnd. rewrite <-Hperm, <-list_fmap_compose in Hnd. done. }
  destruct zs as [|z zs].
  { exfalso. pose proof (Permutation_length Hperm) as Hl. rewrite length_fmap, length_map_to_list in Hl. pose proof (tb_len _ _ _ Ht) as Hd.
    pose proof (Permutation_length Hp) as Hl'. rewrite length_app in Hl'. cbn in Hl'. pose proof (initial_free_lt _ Hlog). unfold zlen in Hd. lia. }
  assert (forall s, s ∈ es -> m !! hashval s = Some (cnt s)) as Hin.
  { intros s Hs'. apply elem_of_map_to_list. rewrite <-Hperm. apply list_elem_of_fmap. by exists s. }
  exists es, z, zs. split; [done|]. split; [by inversion Hzs|]. split; [by apply sorted_below|]. split.
  - apply Forall_forall. intros s Hs'. specialize (Hin s Hs'). destruct (Hm _ _ Hin). pose proof (count_le (hashval s) ps) as Hle. rewrite <-Hcount, Hin in Hle. cbn in Hle. lia.
  - intros h. rewrite <-Hcount. change (default 0 (m !! h) = cnt_in es h). destruct (m !! h) as [c|] eqn:E.
    + apply elem_of_map_to_list in E. rewrite <-Hperm in E. apply list_elem_of_fmap in E as (s & [= -> ->] & Hs'). by rewrite cnt_in_some.
    + rewrite cnt_in_none; [done|]. intros (s & -> & Hs')%list_elem_of_fmap. rewrite (Hin s Hs') in E. done.
Qed.

(** What is counted of a file. *)
Definition file_bytes (one : diff_filespec) : list Z := counted (negb (is_binary one)) (spec_data one).
Definition file_pieces (one : diff_filespec) : list (list Z) := pieces [] (file_bytes one).
Definition readable (one : diff_filespec) : Prop := spec_size one = zlen (spec_data one) /\ spec_size one < 2 ^ 32.

Lemma hash_chars_spec `{QsortOk} one : readable one -> exists top, hash_chars one = Ret top /\ listed (file_pieces one) (data top) /\ alloc_log2 top <= 17.
Proof.
  intros [Hsize Hmax]. unfold hash_chars. pose proof (zlen_nonneg (spec_data one)). rewrite u32_small by lia. rewrite Hsize.
  assert (zlen (concat (file_pieces one)) < 2 ^ 32) as Hlen.
  { unfold file_pieces, file_bytes. rewrite concat_pieces. cbn [app]. pose proof (counted_le (negb (is_binary one)) (spec_data one)). lia. }
  destruct (loop_ret (chars_inv (spec_data one) (negb (is_binary one)) (file_pieces one)) (fun '(_, sz, _, _, _, _) => sz) (S (Z.to_nat (zlen (spec_data one))))
    (chars_step (spec_data one) (negb (is_binary one))) (0, zlen (spec_data one), 0, 0, 0, new_table INITIAL_HASH_SIZE (INITIAL_FREE INITIAL_HASH_SIZE))
    (chars_end (file_pieces one))) as ([[[n accum1] accum2] hash] & Hrun & Hend); [| | |rewrite Hrun].
  - intros st Hst. destruct (chars_step_spec _ _ _ Hlen st Hst) as (r & Hr & Hr'). exists r. split; [done|]. destruct st as [[[[[? ?] ?] ?] ?] ?]. destruct r as [[[[[[? ?] ?] ?] ?] ?]|]; exact Hr'.
  - exists [], [], (spec_data one). split; [apply at_pos_0|]. split; [done|]. split; [done|]. split; [done|]. split; [done|]. split; [apply counts_new|done].
  - cbn. lia.
  - run. destruct Hend as (ps & cur & -> & Hacc & Hps & Heq). 
    assert (exists hash', (if zlen cur >? 0 then add_spanhash hash (u32 (accum1 + u32 (accum2 * 0x61)) mod HASHBASE) (zlen cur) else Ret hash) = Ret hash' /\
      counts_for (file_pieces one) hash') as (hash' & -> & Hc).
    { rewrite Heq in Hlen |- *. cbn [pieces] in *. destruct cur as [|c cur]; cbn [zlen]; [exists hash; split; [done|]; by rewrite app_nil_r|].
      rewrite bool_decide_eq_false_2 in Hlen |- * by done. pose proof (zlen_nonneg cur). rewrite Z.gtb_ltb, (proj2 (Z.ltb_lt 0 (zlen (c :: cur)))) by (rewrite zlen_cons; lia).
      destruct (counts_add ps (c :: cur) hash Hps) as (hash' & Hadd & Hc); [done|done|]. unfold piece_hash in Hadd. rewrite <-Hacc in Hadd. by exists hash'. }
    run. eexists. split; [done|]. split; [by apply counts_listed|]. by destruct Hc as (m & [[_ ?] _ _ _ _] & _).
Qed.

(** * Merging *)

Section merge.
Context (hs : list Z).
Hypothesis (Hnd : NoDup hs).
Hypothesis (Hhs : forall h, 0 <= h < HASHBASE -> h ∈ hs).

Definition copied_sum (f g : Z -> Z) : Z := zsum (fun h => Z.min (f h) (g h)) hs.
Definition added_sum (f g : Z -> Z) : Z := zsum (fun h => Z.max 0 (g h - f h)) hs.

Lemma zsum_change (f g : Z -> Z) l h : NoDup l -> h ∈ l -> (forall x, x <> h -> f x = g x) -> zsum f l = zsum g l + (f h - g h).
Proof.
  intros Hl Hin Heq. induction Hl as [|x l Hx Hl IH]; [by apply elem_of_nil in Hin|]. cbn [zsum]. destruct (decide (x = h)) as [->|Hne].
  - rewrite (zsum_ext f g l); [lia|]. intros x Hxl. apply Heq. by intros ->.
  - apply elem_of_cons in Hin as [->|Hin]; [done|]. rewrite (Heq x Hne), (IH Hin). lia.
Qed.

Lemma zsum_zero {A} (f : A -> Z) l : (forall x, f x = 0) -> zsum f l = 0.
Proof. intros Hf. induction l as [|x l IH]; [done|]. cbn [zsum]. rewrite Hf, IH. done. Qed.

Lemma zsum_count ps : zsum (fun h => count h ps) hs = zlen (concat ps).
Proof.
  induction ps as [|p ps IH]; [by apply zsum_zero|]. cbn [concat]. rewrite zlen_app, <-IH.
  rewrite (zsum_change (fun h => count h (p :: ps)) (fun h => count h ps) hs (piece_hash p)); [|done|apply Hhs, piece_hash_range|].
  - change (p :: ps) with ([p] ++ ps). rewrite count_app, count_one, decide_True by done. lia.
  - intros h Hne. change (p :: ps) with ([p] ++ ps). rewrite count_app, count_one, decide_False by auto. lia.
Qed.

Lemma sums_total f g : (forall h, 0 <= f h) -> copied_sum f g + added_sum f g = zsum g hs.
Proof.
  intros Hf. unfold copied_sum, added_sum. clear Hnd Hhs. induction hs as [|h l IH]; [done|]. cbn [zsum]. specialize (Hf h). lia.
Qed.

Definition entry_ok (s : spanhash) : Prop := 0 <= hashval s < HASHBASE /\ 0 < cnt s < 2 ^ 32.

Lemma cnt_in_above es h : Forall (fun s => h < hashval s) es -> cnt_in es h = 0.
Proof. intros Hes. apply cnt_in_none. intros (s & -> & Hs)%list_elem_of_fmap. rewrite Forall_forall in Hes. specialize (Hes s Hs). lia. Qed.

Lemma below_above s h es : StronglySorted below (s :: es) -> h <= hashval s -> Forall (fun t => h < hashval t) es.
Proof. intros [_ Hs]%StronglySorted_inv Hh. eapply Forall_impl; [exact Hs|]. unfold below. cbn. lia. Qed.

(** A step of the sums where both lists lose what they have of the hash [h]. *)
Lemma sums_step S D S' D' h :
  0 <= h < HASHBASE -> (forall x, x <> h -> cnt_in S x = cnt_in S' x /\ cnt_in D x = cnt_in D' x) -> cnt_in S' h = 0 -> cnt_in D' h = 0 ->
  copied_sum (cnt_in S) (cnt_in D) = Z.min (cnt_in S h) (cnt_in D h) + copied_sum (cnt_in S') (cnt_in D') /\
  added_sum (cnt_in S) (cnt_in D) = Z.max 0 (cnt_in D h - cnt_in S h) + added_sum (cnt_in S') (cnt_in D').
Proof.
  intros Hh Heq HS HD. unfold copied_sum, added_sum. split.
  - rewrite (zsum_change _ (fun h => Z.min (cnt_in S' h) (cnt_in D' h)) hs h Hnd (Hhs h Hh)); [rewrite HS, HD; lia|]. intros x Hx. destruct (Heq x Hx) as [-> ->]. done.
  - rewrite (zsum_change _ (fun h => Z.max 0 (cnt_in D' h - cnt_in S' h)) hs h Hnd (Hhs h Hh)); [rewrite HS, HD; lia|]. intros x Hx. destruct (Heq x Hx) as [-> ->]. done.
Qed.

(** Is an entry before the limit? *)
Definition before (limit : option Z) (s : spanhash) : Prop := match limit with Some hv => hashval s < hv | None => True end.

#[local] Instance before_dec limit s : Decision (before limit s).
Proof. destruct limit; unfold before; apply _. Defined.

Lemma skip_spec dd limit z rest : cnt z = 0 -> forall D pre la fuel,
  dd = pre ++ D ++ z :: rest -> Forall entry_ok D -> (length D < fuel)%nat ->
  exists D1 D2, D = D1 ++ D2 /\ loop fuel (skip_step dd limit) (zlen pre, la) = Ret (zlen (pre ++ D1), la + zsum cnt D1) /\
    Forall (before limit) D1 /\ match D2 with [] => True | d :: _ => ~ before limit d end.
Proof.
  intros Hz. induction D as [|d D IH]; intros pre la fuel Hdd Hok Hfuel; (destruct fuel as [|fuel]; [cbn in Hfuel; lia|]).
  - exists [], []. split; [done|]. split; [|done]. rewrite app_nil_r. cbn [zsum]. rewrite Z.add_0_r. apply loop_stop. unfold skip_step.
    rewrite (rd_at pre z rest) by done. run. by rewrite (proj2 (tru_false _) Hz).
  - inversion Hok as [|? ? [_ Hd] Hok']. subst x l. assert (skip_step dd limit (zlen pre, la) = if decide (before limit d) then Ret (inl (zlen pre + 1, la + cnt d)) else Ret (inr (zlen pre, la))) as Hstep.
    { unfold skip_step. rewrite (rd_at pre d (D ++ z :: rest)) by done. run. rewrite (proj2 (tru_true (cnt d))) by lia. cbn [negb]. destruct limit as [hv|]; cbn [before].
      - rewrite Z.geb_leb. destruct (Z.leb_spec hv (hashval d)); [by rewrite decide_False by lia|by rewrite decide_True by lia].
      - by rewrite decide_True. }
    case_decide as Hb.
    + destruct (IH (pre ++ [d]) (la + cnt d) fuel) as (D1 & D2 & -> & Hrun & HD1 & HD2); [by rewrite <-(assoc app)|done|cbn in Hfuel; lia|].
      exists (d :: D1), D2. split; [done|]. split; [|split; [by constructor|done]]. rewrite (loop_next _ _ _ (zlen pre + 1, la + cnt d)) by done.
      rewrite zlen_app in Hrun. change (zlen [d]) with 1 in Hrun. rewrite Hrun. cbn [zsum]. rewrite <-(assoc app). cbn [app]. do 2 f_equal. lia.
    + exists [], (d :: D). split; [done|]. rewrite app_nil_r. cbn [zsum]. rewrite Z.add_0_r. split; [by apply loop_stop|done].
Qed.
Notation M S D := (copied_sum (cnt_in S) (cnt_in D)).
Notation L S D := (added_sum (cnt_in S) (cnt_in D)).

(** The entries of the destination before all of the source are literals. *)
Lemma skip_sums S D1 D2 :
  StronglySorted below (D1 ++ D2) -> Forall entry_ok D1 -> Forall (fun d => Forall (fun s => hashval d < hashval s) S) D1 ->
  M S (D1 ++ D2) = M S D2 /\ L S (D1 ++ D2) = zsum cnt D1 + L S D2.
Proof.
  intros Hs Hok Hb. induction D1 as [|d D1 IH]; [done|]. cbn [app] in Hs |- *. inversion Hok as [|? ? [Hh Hc] Hok']. inversion Hb as [|? ? Hbd Hb']. subst.
  pose proof (cnt_in_above S _ Hbd) as Hz. pose proof (cnt_in_above _ _ (below_above d (hashval d) (D1 ++ D2) Hs ltac:(lia))) as Hz'.
  apply StronglySorted_inv in Hs as [Hs _]. destruct (IH Hs Hok' Hb') as [IH1 IH2].
  destruct (sums_step S (d :: D1 ++ D2) S (D1 ++ D2) (hashval d) Hh) as [-> ->]; [|done|done|].
  - intros x Hx. rewrite cnt_in_cons, decide_False by auto. split; lia.
  - rewrite cnt_in_cons, decide_True, Hz, Hz', IH1, IH2 by done. cbn [zsum]. lia.
Qed.

(** The head of the source against that of the destination. *)
Lemma head_sums s S D2 :
  StronglySorted below (s :: S) -> StronglySorted below D2 -> entry_ok s -> Forall entry_ok D2 -> match D2 with [] => True | d :: _ => hashval s <= hashval d end ->
  let '(dst_cnt, D3) := match D2 with [] => (0, []) | d :: D3 => if hashval d =? hashval s then (cnt d, D3) else (0, D2) end in
  M (s :: S) D2 = Z.min (cnt s) dst_cnt + M S D3 /\ L (s :: S) D2 = Z.max 0 (dst_cnt - cnt s) + L S D3.
Proof.
  intros HS HD [Hh Hc] Hok Hle. pose proof (cnt_in_above _ _ (below_above s (hashval s) S HS ltac:(lia))) as HzS.
  assert (forall D, Forall (fun d => hashval s < hashval d) D -> M (s :: S) D = Z.min (cnt s) 0 + M S D /\ L (s :: S) D = Z.max 0 (0 - cnt s) + L S D) as Hno.
  { intros D HD'. pose proof (cnt_in_above D _ HD') as HzD. destruct (sums_step (s :: S) D S D (hashval s) Hh) as [-> ->]; [|done|done|].
    - intros x Hx. rewrite cnt_in_cons, decide_False by auto. split; lia.
    - rewrite cnt_in_cons, decide_True, HzS, HzD, Z.add_0_r by done. done. }
  destruct D2 as [|d D3]; [by apply Hno|]. destruct (Z.eqb_spec (hashval d) (hashval s)) as [E|E].
  - pose proof (cnt_in_above _ _ (below_above d (hashval s) D3 HD ltac:(lia))) as HzD.
    destruct (sums_step (s :: S) (d :: D3) S D3 (hashval s) Hh) as [-> ->]; [|done|done|].
    + intros x Hx. rewrite !cnt_in_cons, !decide_False by congruence. split; lia.
    + rewrite !cnt_in_cons, !decide_True, HzS, HzD, !Z.add_0_r by congruence. done.
  - apply Hno. constructor; [lia|]. apply (below_above d); [done|lia].
Qed.

Lemma sums_end D : StronglySorted below D -> Forall entry_ok D -> M [] D = 0 /\ L [] D = zsum cnt D.
Proof.
  intros Hs Hok. destruct (skip_sums [] D []) as [HM HL]; [by rewrite app_nil_r|done|by apply Forall_true|]. rewrite app_nil_r in HM, HL. rewrite HM, HL.
  assert (M [] [] = 0) as -> by (by apply zsum_zero). assert (L [] [] = 0) as -> by (by apply zsum_zero). by rewrite Z.add_0_r.
Qed.

Section rounds.
Context (sd dd rest rest' : list spanhash) (z z' : spanhash).
Hypothesis (Hz : cnt z = 0) (Hz' : cnt z' = 0).

Lemma merge_round_spec s S preS D preD sc la :
  sd = preS ++ (s :: S) ++ z :: rest -> dd = preD ++ D ++ z' :: rest' ->
  StronglySorted below (s :: S) -> StronglySorted below D -> Forall entry_ok (s :: S) -> Forall entry_ok D ->
  exists D1 D3 sc' la', D = D1 ++ D3 /\ merge_round sd dd (zlen preS, zlen preD, sc, la) = Ret (inl (zlen (preS ++ [s]), zlen (preD ++ D1), sc', la')) /\
    sc' + M S D3 = sc + M (s :: S) D /\ la' + L S D3 = la + L (s :: S) D.
Proof.
  intros Hsd Hdd HS HD HokS HokD. inversion HokS as [|? ? Hs HokS']. subst x l. pose proof Hs as [_ Hcs]. unfold merge_round.
  rewrite (rd_at preS s (S ++ z :: rest)) by done. run. rewrite (proj2 (tru_true (cnt s))) by lia. cbn [negb].
  destruct (skip_spec dd (Some (hashval s)) z' rest' Hz' D preD la (Datatypes.S (length dd)) Hdd HokD) as (D1 & D2 & -> & -> & HD1 & HD2); [rewrite Hdd, !length_app; cbn; lia|]. run.
  apply Forall_app in HokD as [HokD1 HokD2].
  destruct (skip_sums (s :: S) D1 D2 HD HokD1) as [-> ->].
  { eapply Forall_impl; [exact HD1|]. intros d Hd. cbn in Hd. constructor; [done|]. by apply (below_above s); [|lia]. }
  apply StronglySorted_app_1_r in HD. pose proof (head_sums s S D2 HS HD Hs HokD2) as Hhead.
  destruct D2 as [|d D2].
  - destruct Hhead as [-> ->]; [done|]. rewrite (rd_at (preD ++ D1) z' rest') by first [rewrite Hdd; same_list|done]. run.
    rewrite (proj2 (tru_false _) Hz'). cbn [andb]. rewrite (proj2 (Z.ltb_ge (cnt s) 0)) by lia.
    eexists D1, [], _, _. split; [done|]. split; [by rewrite (zlen_app preS [s])|]. split; lia.
  - assert (hashval s <= hashval d) as Hle by (cbn in HD2; lia). inversion HokD2 as [|? ? [_ Hcd] _]. subst x l. specialize (Hhead Hle).
    rewrite (rd_at (preD ++ D1) d (D2 ++ z' :: rest')) by first [rewrite Hdd; same_list|done]. run. rewrite (proj2 (tru_true (cnt d))) by lia. cbn [andb].
    destruct (hashval d =? hashval s); destruct Hhead as [-> ->].
    + exists (D1 ++ [d]), D2. destruct (Z.ltb_spec (cnt s) (cnt d)); (eexists _, _; split; [same_list|]; split;
        [rewrite (zlen_app preS [s]), (app_assoc preD D1 [d]), (zlen_app (preD ++ D1) [d]); done|split; lia]).
    + rewrite (proj2 (Z.ltb_ge (cnt s) 0)) by lia. exists D1, (d :: D2). eexists _, _. split; [done|]. split; [by rewrite (zlen_app preS [s])|]. split; lia.
Qed.

Lemma merge_spec : forall S preS D preD sc la fuel,
  sd = preS ++ S ++ z :: rest -> dd = preD ++ D ++ z' :: rest' ->
  StronglySorted below S -> StronglySorted below D -> Forall entry_ok S -> Forall entry_ok D -> (length S < fuel)%nat ->
  exists D1 D2 la', D = D1 ++ D2 /\
    loop fuel (merge_round sd dd) (zlen preS, zlen preD, sc, la) = Ret (zlen (preD ++ D1), sc + M S D, la') /\ la' + zsum cnt D2 = la + L S D.
Proof.
  induction S as [|s S IH]; intros preS D preD sc la fuel Hsd Hdd HS HD HokS HokD Hfuel; (destruct fuel as [|fuel]; [cbn in Hfuel; lia|]).
  - destruct (sums_end D HD HokD) as [-> ->]. exists [], D, la. split; [done|]. rewrite app_nil_r, Z.add_0_r. split; [|done].
    apply loop_stop. unfold merge_round. rewrite (rd_at preS z rest) by done. run. by rewrite (proj2 (tru_false _) Hz).
  - destruct (merge_round_spec s S preS D preD sc la Hsd Hdd HS HD HokS HokD) as (D1 & D3 & sc' & la' & -> & Hround & Hsc & Hla).
    apply StronglySorted_inv in HS as [HS _]. apply StronglySorted_app_1_r in HD. apply Forall_app in HokD as [_ HokD]. inversion HokS as [|? ? _ HokS']. subst x l.
    destruct (IH (preS ++ [s]) D3 (preD ++ D1) sc' la' fuel) as (D2 & D4 & la2 & -> & Hrun & Hla2); [rewrite Hsd; same_list|rewrite Hdd; same_list|done|done|done|done|cbn in Hfuel; lia|].
    exists (D1 ++ D2), D4, la2. split; [same_list|]. rewrite (loop_next _ _ _ _ Hround), Hrun, Hsc, (app_assoc preD D1 D2). split; [done|lia].
Qed.
End rounds.
End merge.

Definition kept (one : diff_filespec) (c : option (option spanhash_top)) `{Qsort} : Prop :=
  match c with Some (Some c) => hash_chars one = Ret c | _ => True end.

Definition kept_after (one : diff_filespec) (c c' : option (option spanhash_top)) `{Qsort} : Prop :=
  match c with Some _ => exists t, c' = Some (Some t) /\ hash_chars one = Ret t /\ alloc_log2 t <= 17 | None => c' = None end.

Lemma cached_count_spec `{QsortOk} one c :
  readable one -> kept one c ->
  exists t c', cached_count c one = Ret (t, c') /\ listed (file_pieces one) (data t) /\ kept_after one c c'.
Proof.
  intros Hone Hc. destruct (hash_chars_spec one Hone) as (t & Ht & Hl & Hlog). unfold cached_count. destruct c as [[t'|]|]; cbn [kept] in Hc.
  - rewrite Ht in Hc. injection Hc as <-. eexists _, _. split; [done|]. split; [done|]. by exists t.
  - rewrite Ht. run. eexists _, _. split; [done|]. split; [done|]. by exists t.
  - rewrite Ht. run. by eexists _, _.
Qed.

(** What two files have in common by hash, and what the second one adds. *)
Definition common_bytes (src dst : diff_filespec) : Z :=
  zsum (fun h => Z.min (count h (file_pieces src)) (count h (file_pieces dst))) (seqZ 0 HASHBASE).
Definition new_bytes (src dst : diff_filespec) : Z :=
  zsum (fun h => Z.max 0 (count h (file_pieces dst) - count h (file_pieces src))) (seqZ 0 HASHBASE).

(** * Claims *)

(** [C31] [diffcore_count_changes] counts by hash: for files below 4 GiB, whether
    or not the caller kept the counts of an earlier call, the tables grow as they
    must, never past 2^17 buckets, no bucket is read out of place and
    every search ends; the bytes copied are those whose pieces
    both files have, the bytes added are those the destination has more of, and
    together they are the bytes of the destination (without the CR of a CRLF in
    a text).  The counts of both files are kept where there is a place for them. *)
Theorem count_changes_exact `{QsortOk} (src dst : diff_filespec) (src_count_p dst_count_p : option (option spanhash_top)) :
  readable src -> readable dst -> kept src src_count_p -> kept dst dst_count_p ->
  exists src_p dst_p,
    diffcore_count_changes src dst src_count_p dst_count_p = Ret (common_bytes src dst, new_bytes src dst, src_p, dst_p) /\
    common_bytes src dst + new_bytes src dst = zlen (file_bytes dst) /\
    kept_after src src_count_p src_p /\ kept_after dst dst_count_p dst_p.
Proof.
  intros Hsrc Hdst Hks Hkd. unfold diffcore_count_changes.
  destruct (cached_count_spec src _ Hsrc Hks) as (s & src_p & -> & (S & z & rest & HS & Hz & Hss & HokS & HcS) & Hsp). run.
  destruct (cached_count_spec dst _ Hdst Hkd) as (d & dst_p & -> & (D & z' & rest' & HD & Hz' & Hsd & HokD & HcD) & Hdp). run.
  assert (forall h, 0 <= h < HASHBASE -> h ∈ seqZ 0 HASHBASE) as Hhs by (intros h Hh; apply elem_of_seqZ; lia).
  destruct (merge_spec _ (NoDup_seqZ 0 HASHBASE) Hhs (data s) (data d) rest rest' z z' Hz Hz' S [] D [] 0 0 (Datatypes.S (length (data s))) HS HD Hss Hsd HokS HokD)
    as (D1 & D2 & la & -> & Hrun & Hla); [rewrite HS, length_app; lia|].
  change (zlen (@nil spanhash)) with 0 in Hrun. rewrite Hrun. run.
  apply Forall_app in HokD as [_ HokD].
  destruct (skip_spec (data d) None z' rest' Hz' D2 D1 la (Datatypes.S (length (data d)))) as (D3 & D4 & -> & Hskip & _ & Hend); [rewrite HD; same_list|done|rewrite HD, !length_app; lia|].
  destruct D4 as [|? ?]; [|by destruct Hend]. rewrite app_nil_r in *. cbn [app]. rewrite Hskip. run.
  assert (copied_sum (seqZ 0 HASHBASE) (cnt_in S) (cnt_in (D1 ++ D3)) = common_bytes src dst) as Hc by (apply zsum_ext; intros h _; by rewrite HcS, HcD).
  assert (added_sum (seqZ 0 HASHBASE) (cnt_in S) (cnt_in (D1 ++ D3)) = new_bytes src dst) as Hn by (apply zsum_ext; intros h _; by rewrite HcS, HcD).
  exists src_p, dst_p. rewrite Hc, Hla, Hn. split; [done|]. split; [|done].
  assert (zlen (file_bytes dst) = zlen (concat (file_pieces dst))) as -> by (unfold file_pieces; by rewrite concat_pieces). rewrite <-(zsum_count _ (NoDup_seqZ 0 HASHBASE) Hhs).
  apply (sums_total (seqZ 0 HASHBASE) (fun h => count h (file_pieces src)) (fun h => count h (file_pieces dst))). intros h. apply count_nonneg.
Qed.

(** "a", "b", "a" against "a", "c" with CRLF, one line each. *)
Definition old_file : diff_filespec := Filespec [97; 10; 98; 10; 97; 10] 6 false.
Definition new_file : diff_filespec := Filespec [97; 13; 10; 99; 10] 5 false.

Example old_new_changes : @diffcore_count_changes qsort_ref old_file new_file None None = Ret (2, 2, None, None).
Proof. by vm_compute. Qed.

Lemma count_changes_exact_witness :
  readable old_file /\ readable new_file /\
  exists src_p dst_p,
    @diffcore_count_changes qsort_ref old_file new_file None (Some None) = Ret (common_bytes old_file new_file, new_bytes old_file new_file, src_p, dst_p) /\
    common_bytes old_file new_file + new_bytes old_file new_file = zlen (file_bytes new_file) /\
    @kept_after old_file None src_p qsort_ref /\ @kept_after new_file (Some None) dst_p qsort_ref.
Proof.
  assert (readable old_file) as Hold by (split; evaluate). assert (readable new_file) as Hnew by (split; evaluate).
  split; [exact Hold|]. split; [exact Hnew|]. exact (@count_changes_exact qsort_ref qsort_ref_ok old_file new_file None (Some None) Hold Hnew I I).
Defined.
