(* ===== verification/CbTree.v ===== *)
(** cbtree.c: crit-bit trees.  A node is at once a leaf, found under its key, and
    an inner node, found under the bit at which its key left the others; a
    pointer to an inner node has its lowest bit set. *)
From stdpp Require Import gmap sorting.
From Stdlib Require Import Sorted.
From S2P Require Import Prelude.

(** * Model *)

(** [struct cb_node] and the memory that holds the nodes; NULL is 0. *)
Record cb_node := CbNode { cb_child : list Z; cb_byte : Z; otherbits : Z; cb_k : list Z }.
Notation nodes := (gmap Z cb_node).

Inductive cb_next := CB_CONTINUE | CB_BREAK.

Definition at_node (h : nodes) (p : Z) : outcome cb_node := match h !! p with Some n => Ret n | None => Undef end.

(** [1 & (uintptr_t)p]. *)
Definition inner (p : Z) : bool := tru (Z.land 1 p).

Definition cb_node_of (p : Z) : Z := p - 1.

(** [q->byte < klen ? k[q->byte] : 0] and the direction it takes. *)
Definition key_byte (k : list Z) (klen b : Z) : outcome Z := if b <? klen then rd k b else Ret 0.
Definition direction (otherbits c : Z) : Z := Z.shiftr (1 + Z.lor otherbits c) 8.

Definition best_match_step (h : nodes) (k : list Z) (klen p : Z) : outcome (Z + Z) :=
  if negb (inner p) then Ret (inr p) else
  q ← at_node h (cb_node_of p);
  c ← key_byte k klen (cb_byte q);
  p ← rd (cb_child q) (direction (otherbits q) c);
  Ret (inl p).

Definition cb_internal_best_match (h : nodes) (p : Z) (k : list Z) (klen : Z) : outcome Z :=
  loop (S (size h)) (best_match_step h k klen) p.

(** What [wherep] points to: the root, or a child of a node. *)
Inductive place := Root | Child (q direction : Z).

Definition ld_place (h : nodes) (root : Z) (w : place) : outcome Z :=
  match w with Root => Ret root | Child q d => n ← at_node h q; rd (cb_child n) d end.

(** [node->child[direction] = x]. *)
Definition set_child (h : nodes) (q d x : Z) : outcome nodes :=
  n ← at_node h q; ch ← wr (cb_child n) d x; Ret (<[q := CbNode ch (cb_byte n) (otherbits n) (cb_k n)]> h).

Definition st_place (h : nodes) (root : Z) (w : place) (x : Z) : outcome (nodes * Z) :=
  match w with Root => Ret (h, x) | Child q d => h ← set_child h q d x; Ret (h, root) end.

(** [for (newbyte = 0; ...)]: the first byte that differs, or [None]. *)
Definition differ_step (pk nk : list Z) (klen newbyte : Z) : outcome (Z + option Z) :=
  if klen <=? newbyte then Ret (inr None) else
  a ← rd pk newbyte; b ← rd nk newbyte;
  if negb (a =? b) then Ret (inr (Some newbyte)) else Ret (inl (newbyte + 1)).

(** All bits but the highest one of [x]. *)
Definition other_bits (x : Z) : Z :=
  let x := Z.lor x (Z.shiftr x 1) in
  let x := Z.lor x (Z.shiftr x 2) in
  let x := Z.lor x (Z.shiftr x 4) in
  Z.lxor (Z.land x (wnot (Z.shiftr x 1))) 255.

(** The search for the place of the new node. *)
Definition where_step (h : nodes) (root node klen newbyte newotherbits : Z) (w : place) : outcome (place + place) :=
  p ← ld_place h root w;
  if negb (inner p) then Ret (inr w) else
  q ← at_node h (cb_node_of p);
  if cb_byte q >? newbyte then Ret (inr w) else
  if (cb_byte q =? newbyte) && (otherbits q >? newotherbits) then Ret (inr w) else
  n ← at_node h node;
  c ← key_byte (cb_k n) klen (cb_byte q);
  Ret (inl (Child (cb_node_of p) (direction (otherbits q) c))).

(** From [different_byte_found] on. *)
Definition link_node (h : nodes) (root p node klen newbyte : Z) : outcome (nodes * Z) :=
  pn ← at_node h p; n ← at_node h node;
  a ← rd (cb_k pn) newbyte; b ← rd (cb_k n) newbyte;
  let newotherbits := other_bits (Z.lxor a b) in
  let newdirection := direction newotherbits a in
  h ← Ret (<[node := CbNode (cb_child n) (u32 newbyte) (u8 newotherbits) (cb_k n)]> h);
  h ← set_child h node (1 - newdirection) node;
  w ← loop (S (size h)) (where_step h root node klen newbyte newotherbits) Root;
  old ← ld_place h root w;
  h ← set_child h node newdirection old;
  st_place h root w (1 + node).

(** The node that is there already or NULL, the nodes and the root. *)
Definition cb_insert (h : nodes) (root node klen : Z) : outcome (Z * nodes * Z) :=
  if tru (Z.land node 1) then Err Bug else
  if negb (tru root) then Ret (0, h, node) else
  n ← at_node h node;
  p ← cb_internal_best_match h root (cb_k n) klen;
  pn ← at_node h p;
  d ← loop (S (Z.to_nat klen)) (differ_step (cb_k pn) (cb_k n) klen) 0;
  match d with
  | None => Ret (p, h, root)
  | Some newbyte => '(h, root) ← link_node h root p node klen newbyte; Ret (0, h, root)
  end.

Definition cb_lookup (h : nodes) (root : Z) (k : list Z) (klen : Z) : outcome Z :=
  p ← cb_internal_best_match h root k klen;
  if negb (tru p) then Ret 0 else
  n ← at_node h p;
  a ← rd_range (cb_k n) 0 klen; b ← rd_range k 0 klen;
  Ret (if bytes_cmp a b =? 0 then p else 0).

Section each.
Context {A : Type} (fn : Z -> A -> cb_next * A).

Fixpoint cb_descend (fuel : nat) (h : nodes) (p : Z) (arg : A) : outcome (cb_next * A) :=
  match fuel with
  | O => Undef
  | S fuel =>
      if inner p then
        q ← at_node h (cb_node_of p);
        c0 ← rd (cb_child q) 0;
        '(n, arg) ← cb_descend fuel h c0 arg;
        match n with CB_BREAK => Ret (n, arg) | CB_CONTINUE => c1 ← rd (cb_child q) 1; cb_descend fuel h c1 arg end
      else Ret (fn p arg)
  end.

(** On [p] and [top]. *)
Definition top_step (h : nodes) (kpfx : list Z) (klen : Z) (st : Z * Z) : outcome ((Z * Z) + (Z * Z)) :=
  let '(p, top) := st in
  if negb (inner p) then Ret (inr (p, top)) else
  q ← at_node h (cb_node_of p);
  c ← key_byte kpfx klen (cb_byte q);
  p ← rd (cb_child q) (direction (otherbits q) c);
  Ret (inl (p, if cb_byte q <? klen then p else top)).

Definition cb_each (h : nodes) (root : Z) (kpfx : list Z) (klen : Z) (arg : A) : outcome A :=
  if negb (tru root) then Ret arg else
  '(p, top) ← loop (S (size h)) (top_step h kpfx klen) (root, root);
  n ← at_node h p;
  d ← loop (S (Z.to_nat klen)) (differ_step (cb_k n) kpfx klen) 0;
  match d with
  | Some _ => Ret arg
  | None => '(_, arg) ← cb_descend (S (size h)) h top arg; Ret arg
  end.
End each.

(** * Keys as bits *)

(** Bit [n] of a key, the first one being the highest of the first byte. *)
Definition kbit (k : list Z) (n : Z) : bool := Z.testbit (default 0 (k !! Z.to_nat (n / 8))) (7 - n mod 8).

(** The same first [n] bits. *)
Definition agree (n : Z) (k k' : list Z) : Prop := forall m, 0 <= m < n -> kbit k m = kbit k' m.

Section keys.
Implicit Types (k : list Z) (n m : Z).

Lemma agree_refl n k : agree n k k.
Proof. done. Qed.
Lemma agree_sym n k k' : agree n k k' -> agree n k' k.
Proof. intros H m Hm. by rewrite H. Qed.
Lemma agree_trans n k1 k2 k3 : agree n k1 k2 -> agree n k2 k3 -> agree n k1 k3.
Proof. intros H1 H2 m Hm. by rewrite H1, H2. Qed.
Lemma agree_le m n k k' : n <= m -> agree m k k' -> agree n k k'.
Proof. intros Hle H i Hi. apply H. lia. Qed.

(** What an inner node keeps of the bit [n]. *)
Definition crit_bits (n : Z) : Z := Z.lxor (2 ^ (7 - n mod 8)) 255.

Lemma all_below (P : Z -> bool) n : forallb P (seqZ 0 n) = true -> forall x, 0 <= x < n -> P x = true.
Proof. intros HP x Hx. rewrite forallb_forall in HP. apply HP, list_elem_of_In, elem_of_seqZ. lia. Qed.

Lemma direction_bit n c : is_byte c -> direction (crit_bits n) c = if Z.testbit c (7 - n mod 8) then 1 else 0.
Proof.
  intros Hc. unfold crit_bits. pose proof (Z.mod_pos_bound n 8 ltac:(lia)) as Hn. set (j := 7 - n mod 8). assert (0 <= j < 8) as Hj by (unfold j; lia). clearbody j. clear Hn.
  pose proof (all_below (fun j => forallb (fun c => direction (Z.lxor (2 ^ j) 255) c =? (if Z.testbit c j then 1 else 0)) (seqZ 0 256)) 8 ltac:(by vm_compute) j Hj) as Hall.
  cbn beta in Hall. apply Z.eqb_eq. exact (all_below _ 256 Hall c Hc).
Qed.

Lemma other_bits_log2 x : 0 < x < 256 -> other_bits x = Z.lxor (2 ^ Z.log2 x) 255.
Proof.
  intros Hx. apply Z.eqb_eq. pose proof (all_below (fun x => (x =? 0) || (other_bits x =? Z.lxor (2 ^ Z.log2 x) 255)) 256 ltac:(by vm_compute) x ltac:(lia)) as Hall.
  cbn beta in Hall. apply orb_prop in Hall as [H%Z.eqb_eq|H]; [lia|done].
Qed.

Lemma crit_bits_byte n : is_byte (crit_bits n).
Proof.
  unfold crit_bits, is_byte. apply (lxor_lt _ 255 8); [lia| |lia]. pose proof (Z.mod_pos_bound n 8 ltac:(lia)). split; [lia|]. apply Z.pow_lt_mono_r; lia.
Qed.

(** Larger positions within a byte. *)
Lemma crit_bits_gt n m : n / 8 = m / 8 -> (crit_bits n >? crit_bits m) = (m <? n).
Proof.
  intros Hd. pose proof (Z.div_mod n 8 ltac:(lia)). pose proof (Z.div_mod m 8 ltac:(lia)).
  pose proof (Z.mod_pos_bound n 8 ltac:(lia)) as Hn. pose proof (Z.mod_pos_bound m 8 ltac:(lia)) as Hm. unfold crit_bits.
  replace (m <? n) with (m mod 8 <? n mod 8) by (apply eq_true_iff_eq; rewrite !Z.ltb_lt; lia).
  pose proof (all_below (fun a => forallb (fun b => Bool.eqb (Z.lxor (2 ^ (7 - a)) 255 >? Z.lxor (2 ^ (7 - b)) 255) (b <? a)) (seqZ 0 8)) 8 ltac:(by vm_compute) (n mod 8) Hn) as Hall.
  cbn beta in Hall. apply Bool.eqb_prop. exact (all_below _ 8 Hall (m mod 8) Hm).
Qed.

(** Bytes that differ first in bit [i]. *)
Lemma byte_lt x y j : is_byte x -> is_byte y -> 0 <= j < 8 -> (forall i, j < i < 8 -> Z.testbit x i = Z.testbit y i) ->
  Z.testbit x j = false -> Z.testbit y j = true -> x < y.
Proof.
  intros Hx Hy Hj Heq Hxj Hyj.
  assert (Z.shiftr x (j + 1) = Z.shiftr y (j + 1)) as Hhigh.
  { apply Z.bits_inj'. intros i Hi. rewrite !Z.shiftr_spec by lia. destruct (decide (i + (j + 1) < 8)); [apply Heq; lia|].
    by rewrite !(testbit_high _ 8) by (unfold is_byte in *; lia). }
  assert (forall z, z = 2 ^ (j + 1) * Z.shiftr z (j + 1) + (Z.b2z (Z.testbit z j) * 2 ^ j + z mod 2 ^ j)) as Hsplit.
  { intros z. rewrite (Z.testbit_spec' z j), Z.shiftr_div_pow2 by lia. rewrite Z.pow_add_r by lia. change (2 ^ 1) with 2.
    pose proof (Z.div_mod z (2 ^ j) ltac:(lia)). rewrite <-Z.div_div by lia. pose proof (Z.div_mod (z / 2 ^ j) 2 ltac:(lia)). nia. }
  rewrite (Hsplit x), (Hsplit y), Hhigh, Hxj, Hyj. cbn [Z.b2z]. pose proof (Z.mod_pos_bound x (2 ^ j) ltac:(lia)). pose proof (Z.mod_pos_bound y (2 ^ j) ltac:(lia)). lia.
Qed.

Lemma kbit_cons_lt x k n : 0 <= n < 8 -> kbit (x :: k) n = Z.testbit x (7 - n).
Proof. intros Hn. unfold kbit. rewrite Z.div_small, Z.mod_small by lia. done. Qed.

Lemma kbit_cons x k n : 0 <= n -> kbit (x :: k) (n + 8) = kbit k n.
Proof.
  intros Hn. unfold kbit. replace (n + 8) with (n + 1 * 8) by lia. rewrite Z.div_add, Z.mod_add by lia.
  pose proof (Z.div_pos n 8 Hn ltac:(lia)). by replace (Z.to_nat (n / 8 + 1)) with (S (Z.to_nat (n / 8))) by lia.
Qed.

Lemma byte_ext x y : is_byte x -> is_byte y -> (forall i, 0 <= i < 8 -> Z.testbit x i = Z.testbit y i) -> x = y.
Proof.
  intros Hx Hy Heq. apply Z.bits_inj'. intros i Hi. destruct (decide (i < 8)); [apply Heq; lia|]. by rewrite !(testbit_high _ 8) by (unfold is_byte in *; lia).
Qed.

(** Keys that leave each other at bit [n] are in its order. *)
Lemma leave_lt n k k' :
  is_bytes k -> is_bytes k' -> 0 <= n < 8 * zlen k -> length k = length k' -> agree n k k' -> kbit k n = false -> kbit k' n = true -> bytes_cmp k k' < 0.
Proof.
  revert n k'. induction k as [|x k IH]; intros n [|y k'] Hk Hk' Hn Hlen Hag H0 H1; [change (zlen (@nil Z)) with 0 in Hn; lia|done|done|].
  inversion Hk as [|? ? Hx Hks]. inversion Hk' as [|? ? Hy Hks']. subst. rewrite zlen_cons in Hn. cbn [bytes_cmp]. destruct (decide (n < 8)) as [Hsmall|Hbig].
  - rewrite kbit_cons_lt in H0, H1 by lia. assert (x < y).
    { apply (byte_lt x y (7 - n)); [done|done|lia| |done|done]. intros i Hi. specialize (Hag (7 - i) ltac:(lia)). rewrite !kbit_cons_lt in Hag by lia.
      by replace (7 - (7 - i)) with i in Hag by lia. }
    destruct (Z.eqb_spec x y); lia.
  - assert (x = y) as ->.
    { apply byte_ext; [done|done|]. intros i Hi. specialize (Hag (7 - i) ltac:(lia)). rewrite !kbit_cons_lt in Hag by lia. by replace (7 - (7 - i)) with i in Hag by lia. }
    rewrite Z.eqb_refl. replace n with ((n - 8) + 8) in H0, H1 by lia. rewrite kbit_cons in H0, H1 by lia. apply (IH (n - 8)); [done|done|lia|cbn in Hlen; lia| |done|done].
    intros m Hm. specialize (Hag (m + 8) ltac:(lia)). by rewrite !kbit_cons in Hag by lia.
Qed.

Lemma agree_prefix n k k' : is_bytes k -> is_bytes k' -> 0 <= n <= zlen k -> n <= zlen k' -> agree (8 * n) k k' <-> take (Z.to_nat n) k = take (Z.to_nat n) k'.
Proof.
  intros Hk Hk' Hn Hn'. split.
  - intros Hag. apply list_eq. intros i. destruct (decide (i < Z.to_nat n)%nat) as [Hi|Hi]; [|rewrite !lookup_take_ge by lia; done]. rewrite !lookup_take_lt by lia.
    destruct (lookup_lt_is_Some_2 k i) as [x Hx]; [unfold zlen in *; lia|]. destruct (lookup_lt_is_Some_2 k' i) as [y Hy]; [unfold zlen in *; lia|].
    rewrite Hx, Hy. f_equal. apply byte_ext; [by apply (is_bytes_lookup k i)|by apply (is_bytes_lookup k' i)|]. intros j Hj.
    specialize (Hag (8 * Z.of_nat i + (7 - j)) ltac:(lia)). unfold kbit in Hag. rewrite Z.mul_comm, Z.div_add_l, (Z.div_small (7 - j)), Z.add_0_r, Nat2Z.id in Hag by lia.
    rewrite Z.add_comm, Z.mod_add, Z.mod_small in Hag by lia. rewrite Hx, Hy in Hag. cbn in Hag. by replace (7 - (7 - j)) with j in Hag by lia.
  - intros Heq m Hm. unfold kbit. pose proof (Z.div_pos m 8 ltac:(lia) ltac:(lia)). assert (m / 8 < n) by (apply Z.div_lt_upper_bound; lia).
    rewrite <-(lookup_take_lt k (Z.to_nat n)), Heq, lookup_take_lt by lia. done.
Qed.
End keys.

(** * Trees *)

(** A leaf, with its node and key, or an inner node, with the bit it decides. *)
Inductive ctree := Ext (a : Z) (k : list Z) | Int (a n : Z) (l r : ctree).

Fixpoint leaves (t : ctree) : list (list Z * Z) := match t with Ext a k => [(k, a)] | Int _ _ l r => leaves l ++ leaves r end.
Fixpoint internals (t : ctree) : list Z := match t with Ext _ _ => [] | Int a _ l r => a :: internals l ++ internals r end.
Fixpoint best (k : list Z) (t : ctree) : list Z * Z :=
  match t with Ext a k' => (k', a) | Int _ n l r => if kbit k n then best k r else best k l end.

(** The position of the root is behind [n]. *)
Definition behind (n : Z) (t : ctree) : Prop := match t with Ext _ _ => True | Int _ m _ _ => n < m end.

(** The keys below a node agree before its bit, and that bit says on which side they are. *)
Fixpoint wf (klen : Z) (t : ctree) : Prop :=
  match t with
  | Ext a k => is_bytes k /\ zlen k = klen
  | Int a n l r => (0 <= n < 8 * klen /\ wf klen l /\ wf klen r) /\ (behind n l /\ behind n r) /\
      (forall x, x ∈ leaves l -> kbit (fst x) n = false) /\ (forall x, x ∈ leaves r -> kbit (fst x) n = true) /\
      (forall x y, x ∈ leaves l ++ leaves r -> y ∈ leaves l ++ leaves r -> agree n (fst x) (fst y))
  end.

Section trees.
Context (klen : Z).
Implicit Types (t : ctree) (k : list Z).

Lemma best_in k t : best k t ∈ leaves t.
Proof. induction t as [a k'|a n l IHl r IHr]; cbn [best leaves]; [set_solver|]. apply elem_of_app. destruct (kbit k n); auto. Qed.

Lemma wf_key t x : wf klen t -> x ∈ leaves t -> is_bytes (fst x) /\ zlen (fst x) = klen.
Proof.
  induction t as [a k'|a n l IHl r IHr]; cbn [wf leaves]; [intros ? ->%list_elem_of_singleton; done|]. intros [(_ & Hl & Hr) _] [?|?]%elem_of_app; auto.
Qed.

(** The best match agrees with a key as far as any leaf does. *)
Lemma best_agree t k x n : wf klen t -> x ∈ leaves t -> agree n (fst x) k -> agree n (fst (best k t)) k.
Proof.
  induction t as [a k'|a m l IHl r IHr]; cbn [wf leaves best]; [by intros _ ->%list_elem_of_singleton|].
  intros [(Hm & Hl & Hr) (_ & H0 & H1 & Hag)] Hx Hxk. pose proof (best_in k (Int a m l r)) as Hb. cbn [best leaves] in Hb.
  destruct (decide (n <= m)) as [Hle|Hgt].
  - apply (agree_trans n _ (fst x)); [|done]. apply (agree_le m); [done|]. by apply Hag.
  - assert (kbit (fst x) m = kbit k m) as Hbit by (apply Hxk; lia). apply elem_of_app in Hx as [Hx|Hx].
    + rewrite (H0 x Hx) in Hbit. rewrite <-Hbit in *. auto.
    + rewrite (H1 x Hx) in Hbit. rewrite <-Hbit in *. auto.
Qed.

Definition key_lt (x y : list Z * Z) : Prop := bytes_cmp (fst x) (fst y) < 0.

Lemma leaves_sorted t : wf klen t -> StronglySorted key_lt (leaves t).
Proof.
  induction t as [a k'|a n l IHl r IHr]; cbn [wf leaves]; [repeat constructor|]. intros [(Hn & Hl & Hr) (_ & H0 & H1 & Hag)].
  apply StronglySorted_app_2; [|auto|auto]. intros x y Hx Hy. destruct (wf_key l x Hl Hx) as [Hbx Hlx]. destruct (wf_key r y Hr Hy) as [Hby Hly].
  apply (leave_lt n); [done|done|lia|unfold zlen in *; lia| |auto|auto]. apply Hag; set_solver.
Qed.

Lemma below_agree t k n x : wf klen t -> behind n t -> x ∈ leaves t -> agree (n + 1) (fst x) (fst (best k t)).
Proof.
  pose proof (best_in k t) as Hb. destruct t as [a k'|a m l r]; cbn [wf leaves behind].
  - by intros _ _ ->%list_elem_of_singleton.
  - intros [_ (_ & _ & _ & Hag)] Hnm Hx. apply (agree_le m); [lia|]. by apply Hag.
Qed.

(** ** Insertion *)

Definition join (k : list Z) (n a : Z) (t : ctree) : ctree := if kbit k n then Int a n t (Ext a k) else Int a n (Ext a k) t.

Fixpoint ins (k : list Z) (n a : Z) (t : ctree) : ctree :=
  match t with
  | Ext _ _ => join k n a t
  | Int b m l r => if n <? m then join k n a t else if kbit k m then Int b m l (ins k n a r) else Int b m (ins k n a l) r
  end.

(** The key [k] leaves the best match, and so the tree, at bit [n]. *)
Definition leaves_at (k : list Z) (n : Z) (t : ctree) : Prop := agree n (fst (best k t)) k /\ kbit (fst (best k t)) n = negb (kbit k n).

Lemma join_wf k n a t :
  wf klen t -> is_bytes k -> zlen k = klen -> 0 <= n < 8 * klen -> leaves_at k n t -> behind n t ->
  wf klen (join k n a t) /\ leaves (join k n a t) ≡ₚ (k, a) :: leaves t /\ internals (join k n a t) ≡ₚ a :: internals t.
Proof.
  intros Ht Hk Hlen Hn [Hag Hbit] Hb.
  assert (forall x, x ∈ leaves t -> agree n (fst x) k /\ kbit (fst x) n = negb (kbit k n)) as Hall.
  { intros x Hx. pose proof (below_agree t k n x Ht Hb Hx) as Hbest. split; [apply (agree_trans n _ (fst (best k t))); [by apply (agree_le (n + 1)); [lia|]|done]|].
    rewrite Hbest by lia. done. }
  unfold join. destruct (kbit k n) eqn:Ek; cbn [wf leaves internals behind negb] in *.
  - split; [|split; [by rewrite Permutation_app_comm|by rewrite app_nil_r]]. split; [done|]. split; [done|]. split; [intros x Hx; by apply Hall|].
    split; [by intros x ->%list_elem_of_singleton|]. intros x y Hx Hy.
    assert (forall z, z ∈ leaves t ++ [(k, a)] -> agree n (fst z) k) as Hz by (intros z [?| ->%list_elem_of_singleton]%elem_of_app; [by apply Hall|done]).
    apply (agree_trans n _ k); [by apply Hz|by apply agree_sym, Hz].
  - split; [|done]. split; [done|]. split; [done|]. split; [by intros x ->%list_elem_of_singleton|]. split; [intros x Hx; by apply Hall|]. intros x y Hx Hy.
    assert (forall z, z ∈ [(k, a)] ++ leaves t -> agree n (fst z) k) as Hz by (intros z [->%list_elem_of_singleton|?]%elem_of_app; [done|by apply Hall]).
    apply (agree_trans n _ k); [by apply Hz|by apply agree_sym, Hz].
Qed.

Lemma ins_wf k n a t :
  wf klen t -> is_bytes k -> zlen k = klen -> 0 <= n < 8 * klen -> leaves_at k n t ->
  wf klen (ins k n a t) /\ leaves (ins k n a t) ≡ₚ (k, a) :: leaves t /\ internals (ins k n a t) ≡ₚ a :: internals t /\
  forall b, b < n -> behind b t -> behind b (ins k n a t).
Proof.
  intros Ht Hk Hlen Hn Hat. induction t as [b k'|b m l IHl r IHr]; cbn [ins].
  - destruct (join_wf k n a (Ext b k') Ht Hk Hlen Hn Hat I) as (Hw & Hl & Hi). split; [done|]. split; [done|]. split; [done|].
    intros c Hc _. unfold join. by destruct (kbit k n).
  - destruct (Z.ltb_spec n m) as [Hlt|Hge].
    { destruct (join_wf k n a (Int b m l r) Ht Hk Hlen Hn Hat Hlt) as (Hw & Hl & Hi). split; [done|]. split; [done|]. split; [done|].
      intros c Hc _. unfold join. by destruct (kbit k n). }
    cbn [wf] in Ht. destruct Ht as [(Hm & Hwl & Hwr) ((Hbl & Hbr) & H0 & H1 & Hag)]. unfold leaves_at in Hat. cbn [best] in Hat.
    destruct (kbit k m) eqn:Ekm.
    + destruct (decide (n = m)) as [->|Hne]; [rewrite (H1 _ (best_in k r)), Ekm in Hat; by destruct Hat|].
      destruct (IHr Hwr Hat) as (Hw & Hl & Hi & Hb). cbn [wf leaves internals behind]. split; [|split; [|split; [|done]]].
      * split; [done|]. split; [split; [done|apply Hb; [lia|done]]|]. split; [done|]. split.
        { intros x Hx. rewrite Hl in Hx. apply elem_of_cons in Hx as [->|Hx]; [done|auto]. }
        assert (forall x, x ∈ leaves l ++ leaves (ins k n a r) -> agree m (fst x) k) as Hall.
        { destruct Hat as [Hat _]. pose proof (best_in k r) as Hbest. intros x Hx. rewrite Hl, <-Permutation_middle in Hx. apply elem_of_cons in Hx as [->|Hx]; [done|].
          apply (agree_trans m _ (fst (best k r))); [|apply (agree_le n); [lia|done]]. apply Hag; [done|]. apply elem_of_app. by right. }
        intros x y Hx Hy. apply (agree_trans m _ k); [by apply Hall|by apply agree_sym, Hall].
      * rewrite Hl. by rewrite <-Permutation_middle.
      * rewrite Hi. rewrite <-Permutation_middle. constructor 3.
    + destruct (decide (n = m)) as [->|Hne]; [rewrite (H0 _ (best_in k l)), Ekm in Hat; by destruct Hat|].
      destruct (IHl Hwl Hat) as (Hw & Hl & Hi & Hb). cbn [wf leaves internals behind]. split; [|split; [|split; [|done]]].
      * split; [done|]. split; [split; [apply Hb; [lia|done]|done]|]. split.
        { intros x Hx. rewrite Hl in Hx. apply elem_of_cons in Hx as [->|Hx]; [done|auto]. }
        split; [done|].
        assert (forall x, x ∈ leaves (ins k n a l) ++ leaves r -> agree m (fst x) k) as Hall.
        { destruct Hat as [Hat _]. pose proof (best_in k l) as Hbest. intros x Hx. rewrite Hl in Hx. cbn [app] in Hx. apply elem_of_cons in Hx as [->|Hx]; [done|].
          apply (agree_trans m _ (fst (best k l))); [|apply (agree_le n); [lia|done]]. apply Hag; [done|]. apply elem_of_app. by left. }
        intros x y Hx Hy. apply (agree_trans m _ k); [by apply Hall|by apply agree_sym, Hall].
      * rewrite Hl. done.
      * rewrite Hi. constructor 3.
Qed.
End trees.

(** * Trees in memory *)

Fixpoint rep (h : nodes) (p : Z) (t : ctree) : Prop :=
  match t with
  | Ext a k => p = a /\ Z.land a 1 = 0 /\ cb_k <$> h !! a = Some k
  | Int a m l r => p = a + 1 /\ Z.land a 1 = 0 /\ exists n c0 c1, h !! a = Some n /\ cb_child n = [c0; c1] /\ cb_byte n = m / 8 /\ otherbits n = crit_bits m /\
      rep h c0 l /\ rep h c1 r
  end.

Section memory.
Implicit Types (h : nodes) (t : ctree) (k : list Z).

Lemma inner_even a : Z.land a 1 = 0 -> inner a = false.
Proof. intros Ha. unfold inner. by rewrite Z.land_comm, Ha. Qed.

Lemma inner_odd a : Z.land a 1 = 0 -> inner (a + 1) = true.
Proof.
  intros Ha. change 1 with (Z.ones 1) in Ha at 1. rewrite Z.land_ones in Ha by lia. unfold inner. rewrite Z.land_comm. change 1 with (Z.ones 1) at 2. rewrite Z.land_ones by lia.
  change (2 ^ 1) with 2 in *. apply tru_true. rewrite Z.add_mod, Ha by lia. done.
Qed.

Lemma at_node_Some h a n : h !! a = Some n -> at_node h a = Ret n.
Proof. intros Ha. unfold at_node. by rewrite Ha. Qed.

Lemma internals_dom h p t a : rep h p t -> a ∈ internals t -> is_Some (h !! a).
Proof.
  revert p. induction t as [b k'|b m l IHl r IHr]; intros p; cbn [rep internals]; [by intros _ ?%elem_of_nil|].
  intros (_ & _ & n & c0 & c1 & Hn & _ & _ & _ & Hl & Hr) [->|[?|?]%elem_of_app]%elem_of_cons; eauto.
Qed.

Lemma internals_size h p t : rep h p t -> NoDup (internals t) -> (length (internals t) <= size h)%nat.
Proof.
  intros Hr Hnd. rewrite <-length_map_to_list, <-(length_fmap fst). apply submseteq_length, NoDup_submseteq; [done|]. intros a Ha.
  destruct (internals_dom h p t a Hr Ha) as [n Hn]. apply list_elem_of_fmap. exists (a, n). split; [done|]. by apply elem_of_map_to_list.
Qed.

(** What the walks read of a key of [klen] bytes at a node. *)
Lemma key_byte_bit k klen m : is_bytes k -> zlen k = klen -> 0 <= m ->
  exists c, key_byte k klen (m / 8) = Ret c /\ direction (crit_bits m) c = if kbit k m then 1 else 0.
Proof.
  intros Hk Hlen Hm. pose proof (Z.div_pos m 8 Hm ltac:(lia)). exists (default 0 (k !! Z.to_nat (m / 8))). unfold key_byte, kbit. split.
  - case_if.
    + destruct (lookup_lt_is_Some_2 k (Z.to_nat (m / 8))) as [c Hc]; [unfold zlen in *; lia|]. rewrite Hc. by apply rd_Ret.
    + by rewrite lookup_ge_None_2 by (unfold zlen in *; lia).
  - apply direction_bit. destruct (k !! Z.to_nat (m / 8)) as [c|] eqn:E; [by apply (is_bytes_lookup k (Z.to_nat (m / 8)))|]. done.
Qed.

(** A step down from an inner node. *)
Lemma rep_child h p a m l r k klen : rep h p (Int a m l r) -> is_bytes k -> zlen k = klen -> 0 <= m ->
  inner p = true /\ exists n c q, at_node h (cb_node_of p) = Ret n /\ cb_byte n = m / 8 /\ otherbits n = crit_bits m /\ key_byte k klen (cb_byte n) = Ret c /\
    direction (otherbits n) c = (if kbit k m then 1 else 0) /\ rd (cb_child n) (direction (otherbits n) c) = Ret q /\ rep h q (if kbit k m then r else l).
Proof.
  intros (-> & Ha & n & c0 & c1 & Hn & Hc & Hb & Ho & Hl & Hr) Hk Hlen Hm. split; [by apply inner_odd|].
  destruct (key_byte_bit k klen m Hk Hlen Hm) as (c & Hkc & Hd). exists n, c, (if kbit k m then c1 else c0). rewrite Hb, Ho, Hd, Hc, Hkc.
  unfold cb_node_of. replace (a + 1 - 1) with a by lia. rewrite (at_node_Some _ _ _ Hn). repeat split; by destruct (kbit k m).
Qed.

Lemma rep_leaf h p a k : rep h p (Ext a k) -> inner p = false /\ p = a /\ exists n, h !! a = Some n /\ cb_k n = k.
Proof. intros (-> & Ha & Hk). split; [by apply inner_even|]. split; [done|]. apply fmap_Some in Hk as (n & ? & ->). by exists n. Qed.

Lemma best_match_spec h t : forall p k klen klen' fuel,
  rep h p t -> wf klen t -> is_bytes k -> zlen k = klen' -> (length (internals t) < fuel)%nat ->
  loop fuel (best_match_step h k klen') p = Ret (snd (best k t)).
Proof.
  induction t as [a k'|a m l IHl r IHr]; intros p k klen klen' fuel Hr Hw Hk Hlen Hf; (destruct fuel as [|fuel]; [lia|]).
  - destruct (rep_leaf _ _ _ _ Hr) as (Hin & -> & _). apply loop_stop. unfold best_match_step. by rewrite Hin.
  - destruct Hw as [(Hm & Hwl & Hwr) _]. destruct (rep_child _ _ _ _ _ _ k klen' Hr Hk Hlen ltac:(lia)) as (Hin & n & c & q & Hn & _ & _ & Hc & _ & Hq & Hrq).
    cbn [internals length] in Hf. rewrite length_app in Hf. rewrite (loop_next _ _ _ q) by (unfold best_match_step; rewrite Hin; cbn [negb]; rewrite Hn; run; rewrite Hc; run; by rewrite Hq).
    cbn [best]. destruct (kbit k m); [apply (IHr q k klen)|apply (IHl q k klen)]; (done || lia).
Qed.
(** ** Prefixes *)

(** The subtree of a prefix. *)
Fixpoint under (k : list Z) t : ctree :=
  match t with Ext _ _ => t | Int _ m l r => if m / 8 <? zlen k then under k (if kbit k m then r else l) else t end.

Definition has_prefix (k : list Z) (x : list Z * Z) : Prop := take (length k) (fst x) = k.

Lemma has_prefix_agree k x : is_bytes k -> is_bytes (fst x) -> zlen k <= zlen (fst x) -> has_prefix k x <-> agree (8 * zlen k) (fst x) k.
Proof.
  intros Hk Hx Hlen. pose proof (zlen_nonneg k). rewrite (agree_prefix (zlen k) (fst x) k) by (done || lia). unfold has_prefix.
  assert (Z.to_nat (zlen k) = length k) as -> by (unfold zlen; lia). by rewrite firstn_all.
Qed.

#[global] Instance has_prefix_dec k x : Decision (has_prefix k x).
Proof. unfold has_prefix. apply _. Defined.

Lemma filter_all {A} (P : A -> Prop) `{forall x, Decision (P x)} (l : list A) : (forall x, x ∈ l -> P x) -> filter P l = l.
Proof. induction l as [|x l IH]; intros Hl; [done|]. rewrite filter_cons, decide_True, IH by set_solver. done. Qed.

Lemma filter_none {A} (P : A -> Prop) `{forall x, Decision (P x)} (l : list A) : (forall x, x ∈ l -> ~ P x) -> filter P l = [].
Proof. induction l as [|x l IH]; intros Hl; [done|]. rewrite filter_cons, decide_False by (apply Hl; set_solver). apply IH. set_solver. Qed.

Lemma div8_lt m n : m / 8 < n <-> m < 8 * n.
Proof. split; intros H; [|apply Z.div_lt_upper_bound; lia]. pose proof (Z.mul_succ_div_gt m 8 ltac:(lia)). lia. Qed.

Lemma under_spec klen k t :
  wf klen t -> is_bytes k -> zlen k <= klen -> has_prefix k (best k t) -> leaves (under k t) = filter (has_prefix k) (leaves t).
Proof.
  intros Hw Hk Hlen. induction t as [a k'|a m l IHl r IHr]; intros Hb; cbn [under leaves].
  - symmetry. apply filter_all. by intros x ->%list_elem_of_singleton.
  - pose proof Hw as [(Hm & Hwl & Hwr) (_ & H0 & H1 & Hag)]. cbn [best] in Hb. destruct (Z.ltb_spec (m / 8) (zlen k)) as [Hlt%div8_lt|Hge].
    + rewrite filter_app. destruct (kbit k m) eqn:Ek.
      * rewrite (filter_none _ (leaves l)), app_nil_l by (intros x Hx Hp; destruct (wf_key _ _ _ Hwl Hx); apply has_prefix_agree in Hp; [|done|done|lia];
          specialize (Hp m ltac:(lia)); rewrite (H0 x Hx), Ek in Hp; done). by apply IHr.
      * rewrite (filter_none _ (leaves r)), app_nil_r by (intros x Hx Hp; destruct (wf_key _ _ _ Hwr Hx); apply has_prefix_agree in Hp; [|done|done|lia];
          specialize (Hp m ltac:(lia)); rewrite (H1 x Hx), Ek in Hp; done). by apply IHl.
    + symmetry. apply (filter_all (has_prefix k)). cbn [leaves]. intros x Hx.
      assert (8 * zlen k <= m) as Hle by (destruct (decide (m < 8 * zlen k)) as [Hc%div8_lt|]; lia).
      assert (best k (Int a m l r) ∈ leaves (Int a m l r)) as Hbi by apply best_in. cbn [best leaves] in Hbi.
      destruct (wf_key klen (Int a m l r) x Hw Hx) as [Hbx Hlx]. destruct (wf_key klen (Int a m l r) _ Hw Hbi) as [Hbb Hlb].
      apply has_prefix_agree; [done|done|lia|]. apply has_prefix_agree in Hb; [|done|done|lia].
      apply (agree_trans _ _ (fst (if kbit k m then best k r else best k l))); [|done]. apply (agree_le m); [done|]. by apply (Hag x _ Hx Hbi).
Qed.

Lemma no_prefix klen k t : wf klen t -> is_bytes k -> zlen k <= klen -> ~ has_prefix k (best k t) -> filter (has_prefix k) (leaves t) = [].
Proof.
  intros Hw Hk Hlen Hb. apply filter_none. intros x Hx Hp. apply Hb. destruct (wf_key _ _ _ Hw Hx). destruct (wf_key _ _ _ Hw (best_in k t)).
  apply has_prefix_agree; [done|done|lia|]. apply (best_agree klen t k x); [done|done|]. apply has_prefix_agree; (done || lia).
Qed.

Lemma top_step_next h p a m l r k klen top : rep h p (Int a m l r) -> is_bytes k -> zlen k = klen -> 0 <= m ->
  exists q, top_step h k klen (p, top) = Ret (inl (q, if m / 8 <? klen then q else top)) /\ rep h q (if kbit k m then r else l).
Proof.
  intros Hr Hk Hlen Hm. destruct (rep_child _ _ _ _ _ _ k klen Hr Hk Hlen Hm) as (Hin & n & c & q & Hn & Hb & _ & Hc & _ & Hq & Hrq).
  exists q. split; [|done]. unfold top_step. rewrite Hin. cbn [negb]. rewrite Hn. run. rewrite Hc. run. rewrite Hq. run. by rewrite Hb.
Qed.

Lemma top_stays h t : forall p k klen fuel top,
  rep h p t -> wf klen t -> is_bytes k -> behind (8 * zlen k - 1) t -> (length (internals t) < fuel)%nat ->
  loop fuel (top_step h k (zlen k)) (p, top) = Ret (snd (best k t), top).
Proof.
  induction t as [a k'|a m l IHl r IHr]; intros p k klen fuel top Hr Hw Hk Hb Hf; (destruct fuel as [|fuel]; [lia|]).
  - destruct (rep_leaf _ _ _ _ Hr) as (Hin & -> & _). apply loop_stop. unfold top_step. by rewrite Hin.
  - destruct Hw as [(Hm & Hwl & Hwr) ((Hbl & Hbr) & _)]. destruct (top_step_next _ _ _ _ _ _ k (zlen k) top Hr Hk eq_refl ltac:(lia)) as (q & Hstep & Hrq).
    cbn [internals length behind] in Hf, Hb. rewrite length_app in Hf. rewrite (loop_next _ _ _ _ Hstep).
    assert (~ m / 8 < zlen k) as Hge by (rewrite div8_lt; lia). rewrite (proj2 (Z.ltb_ge _ _)) by lia.
    assert (forall n t, m < n -> behind m t -> behind (8 * zlen k - 1) t) as Hmono by (intros n [|] ?; cbn; lia).
    cbn [best]. destruct (kbit k m); [apply (IHr q k klen)|apply (IHl q k klen)]; (done || lia || (apply (Hmono (m + 1)); [lia|done])).
Qed.

Lemma top_spec h t : forall p k klen fuel,
  rep h p t -> wf klen t -> is_bytes k -> (length (internals t) < fuel)%nat ->
  exists q, loop fuel (top_step h k (zlen k)) (p, p) = Ret (snd (best k t), q) /\ rep h q (under k t).
Proof.
  induction t as [a k'|a m l IHl r IHr]; intros p k klen fuel Hr Hw Hk Hf; (destruct fuel as [|fuel]; [lia|]).
  - destruct (rep_leaf _ _ _ _ Hr) as (Hin & Hpa & _). exists p. split; [|done]. rewrite Hpa in *. apply loop_stop. unfold top_step. by rewrite Hin.
  - pose proof Hw as [(Hm & Hwl & Hwr) ((Hbl & Hbr) & _)]. cbn [under]. destruct (Z.ltb_spec (m / 8) (zlen k)) as [Hlt|Hge].
    + destruct (top_step_next _ _ _ _ _ _ k (zlen k) p Hr Hk eq_refl ltac:(lia)) as (q & Hstep & Hrq). rewrite (proj2 (Z.ltb_lt _ _)) in Hstep by done.
      cbn [internals length] in Hf. rewrite length_app in Hf. rewrite (loop_next _ _ _ _ Hstep). cbn [best].
      destruct (kbit k m); [apply (IHr q k klen)|apply (IHl q k klen)]; (done || lia).
    + exists p. split; [|done]. apply (top_stays h _ p k klen); [done|done|done| |done]. cbn [behind].
      destruct (decide (m < 8 * zlen k)) as [Hc%div8_lt|]; lia.
Qed.

(** ** Visits *)

Section visit.
Context {A : Type} (fn : Z -> A -> cb_next * A).

(** The callback on each node until it breaks. *)
Fixpoint visit (l : list Z) (arg : A) : cb_next * A :=
  match l with
  | [] => (CB_CONTINUE, arg)
  | a :: l => match fn a arg with (CB_BREAK, arg) => (CB_BREAK, arg) | (CB_CONTINUE, arg) => visit l arg end
  end.

Lemma visit_app l l' arg : visit (l ++ l') arg = let '(n, arg) := visit l arg in match n with CB_BREAK => (n, arg) | CB_CONTINUE => visit l' arg end.
Proof. revert arg. induction l as [|a l IH]; intros arg; [done|]. cbn [app visit]. destruct (fn a arg) as [[|] arg']; [apply IH|done]. Qed.

Lemma cb_descend_spec h t : forall p fuel arg, rep h p t -> (length (internals t) < fuel)%nat -> cb_descend fn fuel h p arg = Ret (visit (snd <$> leaves t) arg).
Proof.
  induction t as [a k'|a m l IHl r IHr]; intros p fuel arg Hr Hf; (destruct fuel as [|fuel]; [lia|]); cbn [cb_descend].
  - destruct (rep_leaf _ _ _ _ Hr) as (-> & -> & _). cbn. by destruct (fn a arg) as [[|] arg'].
  - destruct Hr as (-> & Ha & n & c0 & c1 & Hn & Hc & _ & _ & Hl & Hr). rewrite inner_odd by done. unfold cb_node_of. replace (a + 1 - 1) with a by lia.
    rewrite (at_node_Some _ _ _ Hn). run. rewrite Hc. cbn [internals length] in Hf. rewrite length_app in Hf.
    change (rd [c0; c1] 0) with (Ret c0). run. rewrite (IHl c0 fuel arg Hl) by lia. run. cbn [leaves]. rewrite fmap_app, visit_app.
    destruct (visit (snd <$> leaves l) arg) as [[|] arg']; [|done]. change (rd [c0; c1] 1) with (Ret c1). run. apply IHr; [done|lia].
Qed.
End visit.

Lemma differ_spec pk nk klen : klen <= zlen pk -> klen <= zlen nk -> forall todo i fuel,
  0 <= i -> klen = i + Z.of_nat todo -> take (Z.to_nat i) pk = take (Z.to_nat i) nk -> (todo < fuel)%nat ->
  exists d, loop fuel (differ_step pk nk klen) i = Ret d /\
    match d with
    | None => take (Z.to_nat klen) pk = take (Z.to_nat klen) nk
    | Some j => i <= j < klen /\ take (Z.to_nat j) pk = take (Z.to_nat j) nk /\ exists a b, pk !! Z.to_nat j = Some a /\ nk !! Z.to_nat j = Some b /\ a <> b
    end.
Proof.
  intros Hp Hn. induction todo as [|todo IH]; intros i fuel Hi Hlen Heq Hf; (destruct fuel as [|fuel]; [lia|]).
  - exists None. replace klen with i at 2 3 by lia. split; [|done]. apply loop_stop. unfold differ_step. by rewrite (proj2 (Z.leb_le _ _)) by lia.
  - destruct (lookup_lt_is_Some_2 pk (Z.to_nat i)) as [a Ha]; [unfold zlen in *; lia|]. destruct (lookup_lt_is_Some_2 nk (Z.to_nat i)) as [b Hb]; [unfold zlen in *; lia|].
    assert (differ_step pk nk klen i = if decide (a = b) then Ret (inl (i + 1)) else Ret (inr (Some i))) as Hstep.
    { unfold differ_step. rewrite (proj2 (Z.leb_gt _ _)) by lia. rewrite (proj2 (rd_Ret pk i a)), (proj2 (rd_Ret nk i b)) by done. run.
      destruct (Z.eqb_spec a b); [by rewrite decide_True|by rewrite decide_False]. }
    case_decide as Hab.
    + subst b. destruct (IH (i + 1) fuel) as (d & Hrun & Hd); [lia|lia| |lia|].
      { replace (Z.to_nat (i + 1)) with (S (Z.to_nat i)) by lia. by rewrite (take_S_r _ _ _ Ha), (take_S_r _ _ _ Hb), Heq. }
      exists d. rewrite (loop_next _ _ _ _ Hstep). split; [done|]. destruct d as [j|]; [|done]. destruct Hd as (? & ? & ?). split; [lia|done].
    + exists (Some i). split; [by apply loop_stop|]. split; [lia|]. split; [done|]. by exists a, b.
Qed.
End memory.

(** * Insertion in memory *)

Section insert.
Implicit Types (h : nodes) (t : ctree) (k : list Z).

(** The subtree at a child of an inner node, and what surrounds it. *)
Inductive inside : ctree -> Z -> Z -> ctree -> (ctree -> ctree) -> Prop :=
  | in_l a m l r : inside (Int a m l r) a 0 l (fun x => Int a m x r)
  | in_r a m l r : inside (Int a m l r) a 1 r (fun x => Int a m l x)
  | in_l_deep a m l r b d x c : inside l b d x c -> inside (Int a m l r) b d x (fun y => Int a m (c y) r)
  | in_r_deep a m l r b d x c : inside r b d x c -> inside (Int a m l r) b d x (fun y => Int a m l (c y)).

Lemma inside_internal t b d x c : inside t b d x c -> b ∈ internals t.
Proof. induction 1; cbn [internals]; set_solver. Qed.

Lemma inside_sub t b d x c : inside t b d x c -> NoDup (internals t) -> (forall a, a ∈ internals x -> a ∈ internals t) /\ b ∉ internals x.
Proof.
  induction 1 as [a m l r|a m l r|a m l r b d x c Hin IH|a m l r b d x c Hin IH]; cbn [internals]; rewrite NoDup_cons, NoDup_app; intros [Hna (Hl & Hlr & Hr)]; [set_solver..| |].
  - destruct (IH Hl). split; [set_solver|done].
  - destruct (IH Hr). split; [set_solver|done].
Qed.

(** Memory with the same keys, and the same inner nodes. *)
Lemma rep_frame h h' p t :
  rep h p t -> cb_k <$> h' = cb_k <$> h -> (forall a, a ∈ internals t -> h' !! a = h !! a) -> rep h' p t.
Proof.
  intros Hr Hkeys. revert p Hr. induction t as [a k|a m l IHl r IHr]; intros p; cbn [rep internals].
  - intros (-> & Ha & Hk) _. split; [done|]. split; [done|]. by rewrite <-lookup_fmap, Hkeys, lookup_fmap.
  - intros (-> & Ha & n & c0 & c1 & Hn & Hc & Hb & Ho & Hl & Hr) Hsame. split; [done|]. split; [done|]. exists n, c0, c1.
    rewrite (Hsame a) by set_solver. repeat split; try done; [apply IHl|apply IHr]; (done || intros; apply Hsame; set_solver).
Qed.

Lemma rep_inside h p t b d x c : rep h p t -> inside t b d x c ->
  exists n q, h !! b = Some n /\ rd (cb_child n) d = Ret q /\ rep h q x /\ (d = 0 \/ d = 1) /\ length (cb_child n) = 2%nat.
Proof.
  intros Hr Hin. revert p Hr. induction Hin as [a m l r|a m l r|a m l r b d x c Hin IH|a m l r b d x c Hin IH]; intros p; cbn [rep];
    intros (_ & _ & n & c0 & c1 & Hn & Hc & _ & _ & Hl & Hr); [| |by apply (IH c0)|by apply (IH c1)].
  - exists n, c0. rewrite Hc. repeat split; auto.
  - exists n, c1. rewrite Hc. repeat split; auto.
Qed.

(** A new subtree in the place of the old one. *)
Lemma rep_store h p t b d x c n q y :
  rep h p t -> inside t b d x c -> NoDup (internals t) -> h !! b = Some n ->
  let h' := <[b := CbNode (<[Z.to_nat d := q]> (cb_child n)) (cb_byte n) (otherbits n) (cb_k n)]> h in
  rep h' q y -> rep h' p (c y).
Proof.
  intros Hr Hin Hnd Hb h' Hy.
  assert (cb_k <$> h' = cb_k <$> h) as Hkeys by (unfold h'; rewrite fmap_insert; cbn [cb_k]; apply insert_id; by rewrite lookup_fmap, Hb).
  assert (forall a, a <> b -> h' !! a = h !! a) as Hother by (intros a Ha; by apply lookup_insert_ne).
  revert p Hr. induction Hin as [a m l r|a m l r|a m l r b d x c Hin IH|a m l r b d x c Hin IH]; intros p; cbn [rep internals] in *;
    intros (-> & Ha & n' & c0 & c1 & Hn & Hc & Hby & Ho & Hl & Hr); apply NoDup_cons in Hnd as [Hna (Hndl & Hlr & Hndr)%NoDup_app]; (split; [done|]; split; [done|]).
  - rewrite Hn in Hb. injection Hb as <-. eexists _, q, c1. split; [apply lookup_insert_eq|]. cbn. rewrite Hc. repeat split; try done.
    apply (rep_frame h); [done|done|]. intros e He. apply Hother. intros ->. set_solver.
  - rewrite Hn in Hb. injection Hb as <-. eexists _, c0, q. split; [apply lookup_insert_eq|]. cbn. rewrite Hc. repeat split; try done.
    apply (rep_frame h); [done|done|]. intros e He. apply Hother. intros ->. set_solver.
  - pose proof (inside_internal _ _ _ _ _ Hin) as Hbl. exists n', c0, c1. rewrite Hother by (intros ->; set_solver). repeat split; try done; [by apply IH|].
    apply (rep_frame h); [done|done|]. intros e He. apply Hother. intros ->. by apply (Hlr b).
  - pose proof (inside_internal _ _ _ _ _ Hin) as Hbr. exists n', c0, c1. rewrite Hother by (intros ->; set_solver). repeat split; try done; [|by apply IH].
    apply (rep_frame h); [done|done|]. intros e He. apply Hother. intros ->. by apply (Hlr b).
Qed.

(** The place [where_step] finds: the new node takes it, with the old content below. *)
Lemma where_spec h root node nn klen newbyte n : h !! node = Some nn -> is_bytes (cb_k nn) -> zlen (cb_k nn) = klen -> 0 <= n -> newbyte = n / 8 ->
  forall t p w fuel, ld_place h root w = Ret p -> rep h p t -> wf klen t -> (length (internals t) < fuel)%nat ->
  exists w', loop fuel (where_step h root node klen newbyte (crit_bits n)) w = Ret w' /\
    ((w' = w /\ ins (cb_k nn) n node t = join (cb_k nn) n node t) \/
     exists b d x c, w' = Child b d /\ inside t b d x c /\ ins (cb_k nn) n node t = c (join (cb_k nn) n node x)).
Proof.
  intros Hnode Hk Hlen Hn ->. induction t as [a k'|a m l IHl r IHr]; intros p w fuel Hld Hr Hw Hf; (destruct fuel as [|fuel]; [lia|]).
  - destruct (rep_leaf _ _ _ _ Hr) as (Hin & -> & _). exists w. split; [|by left]. apply loop_stop. unfold where_step. rewrite Hld. run. by rewrite Hin.
  - destruct Hw as [(Hm & Hwl & Hwr) _]. cbn [ins]. assert (exists d q, (d = if kbit (cb_k nn) m then 1 else 0) /\ ld_place h root (Child a d) = Ret q /\ rep h q (if kbit (cb_k nn) m then r else l) /\
        where_step h root node klen (n / 8) (crit_bits n) w = Ret (if n <? m then inr w else inl (Child a d))) as (d & q & Hd & Hq & Hrq & Hstep).
    { pose proof Hr as (-> & Ha & _). destruct (rep_child _ _ _ _ _ _ (cb_k nn) klen Hr Hk Hlen ltac:(lia)) as (Hin & qn & c & q & Hqn & Hb & Ho & Hc & Hdir & Hq & Hrq).
      exists (if kbit (cb_k nn) m then 1 else 0), q. split; [done|]. unfold cb_node_of in Hqn. replace (a + 1 - 1) with a in Hqn by lia. split; [cbn [ld_place]; rewrite Hqn; run; by rewrite <-Hdir|].
      split; [done|]. unfold where_step. rewrite Hld. run. rewrite Hin. cbn [negb]. unfold cb_node_of. replace (a + 1 - 1) with a by lia. rewrite Hqn. run.
      rewrite (at_node_Some _ _ _ Hnode), Hb, Ho. rewrite Hb in Hc. rewrite Ho in Hdir. rewrite Z.gtb_ltb. destruct (Z.ltb_spec (n / 8) (m / 8)) as [Hlt|Hge].
      - destruct (Z.ltb_spec n m) as [|Hnm]; [done|]. pose proof (Z.div_le_mono m n 8 ltac:(lia) Hnm). lia.
      - destruct (Z.eqb_spec (m / 8) (n / 8)) as [Heq|Hne]; cbn [andb].
        + rewrite crit_bits_gt by done. destruct (n <? m); [done|]. run. rewrite Hc. run. by rewrite Hdir.
        + destruct (Z.ltb_spec n m) as [Hnm|]; [pose proof (Z.div_le_mono n m 8 ltac:(lia) ltac:(lia)); lia|]. run. rewrite Hc. run. by rewrite Hdir. }
    cbn [internals length] in Hf. rewrite length_app in Hf. destruct (n <? m); [exists w; split; [by apply loop_stop|by left]|]. rewrite (loop_next _ _ _ _ Hstep).
    destruct (kbit (cb_k nn) m); subst d.
    + destruct (IHr q (Child a 1) fuel Hq Hrq Hwr ltac:(lia)) as (w' & Hrun & [[-> Hins]|(b & d & x & c & -> & Hin & Hins)]); (eexists; split; [exact Hrun|]; right).
      * exists a, 1, r, (fun y => Int a m l y). split; [done|]. split; [constructor|by rewrite Hins].
      * exists b, d, x, (fun y => Int a m l (c y)). split; [done|]. split; [by constructor|by rewrite Hins].
    + destruct (IHl q (Child a 0) fuel Hq Hrq Hwl ltac:(lia)) as (w' & Hrun & [[-> Hins]|(b & d & x & c & -> & Hin & Hins)]); (eexists; split; [exact Hrun|]; right).
      * exists a, 0, l, (fun y => Int a m y r). split; [done|]. split; [constructor|by rewrite Hins].
      * exists b, d, x, (fun y => Int a m (c y) r). split; [done|]. split; [by constructor|by rewrite Hins].
Qed.
End insert.

(** * Operations *)

Section operations.
Context (klen : Z).
Implicit Types (h : nodes) (t : ctree) (k : list Z).

(** Aligned nodes with keys of [klen] bytes. *)
Definition nodes_ok h : Prop := forall a n, h !! a = Some n ->
  Z.land a 1 = 0 /\ a <> 0 /\ length (cb_child n) = 2%nat /\ is_bytes (cb_k n) /\ zlen (cb_k n) = klen.

(** The root of a tree with the leaves [m]. *)
Definition cb_rep h (root : Z) (m : gmap (list Z) Z) : Prop :=
  nodes_ok h /\ ((root = 0 /\ m = ∅) \/
    exists t, rep h root t /\ wf klen t /\ NoDup (internals t) /\ (forall a, a ∈ internals t -> a ∈ (leaves t).*2) /\ leaves t ≡ₚ map_to_list m).

Lemma rep_leaves h p t k a : rep h p t -> (k, a) ∈ leaves t -> cb_k <$> h !! a = Some k.
Proof.
  revert p. induction t as [b k'|b m l IHl r IHr]; intros p; cbn [rep leaves].
  - by intros (_ & _ & Hk) [= -> ->]%list_elem_of_singleton.
  - intros (_ & _ & n & c0 & c1 & _ & _ & _ & _ & Hl & Hr) [?|?]%elem_of_app; eauto.
Qed.

Lemma rep_nonzero h p t : nodes_ok h -> rep h p t -> p <> 0.
Proof.
  intros Hok. destruct t as [a k|a m l r]; cbn [rep].
  - intros (-> & _ & (n & Hn & _)%fmap_Some). by destruct (Hok a n Hn) as (_ & ? & _).
  - intros (-> & Ha & n & c0 & c1 & Hn & _) Heq. replace a with (-1) in Ha by lia. done.
Qed.

Lemma set_child_spec h a n d x : h !! a = Some n -> length (cb_child n) = 2%nat -> d = 0 \/ d = 1 ->
  set_child h a d x = Ret (<[a := CbNode (<[Z.to_nat d := x]> (cb_child n)) (cb_byte n) (otherbits n) (cb_k n)]> h).
Proof. intros Ha Hl Hd. unfold set_child. rewrite (at_node_Some _ _ _ Ha). run. rewrite wr_in by (unfold zlen; lia). by run. Qed.

Lemma same_keys h a n ch b o : h !! a = Some n -> cb_k <$> <[a := CbNode ch b o (cb_k n)]> h = cb_k <$> h.
Proof. intros Ha. rewrite fmap_insert. cbn [cb_k]. apply insert_id. by rewrite lookup_fmap, Ha. Qed.

Lemma nodes_ok_set h a n ch b o : nodes_ok h -> h !! a = Some n -> length ch = 2%nat -> nodes_ok (<[a := CbNode ch b o (cb_k n)]> h).
Proof.
  intros Hok Ha Hl a' n' Hn'. destruct (decide (a' = a)) as [->|Hne]; [|rewrite lookup_insert_ne in Hn' by done; by apply Hok].
  rewrite lookup_insert_eq in Hn'. injection Hn' as <-. destruct (Hok a n Ha) as (? & ? & _ & ?). done.
Qed.

(** The bit at which two keys leave each other, from their first different byte. *)
Lemma leave_bit k k' j a b :
  is_bytes k -> is_bytes k' -> 0 <= j < zlen k -> take (Z.to_nat j) k = take (Z.to_nat j) k' -> k !! Z.to_nat j = Some a -> k' !! Z.to_nat j = Some b -> a <> b ->
  exists n, n / 8 = j /\ other_bits (Z.lxor a b) = crit_bits n /\ agree n k k' /\ kbit k n = negb (kbit k' n) /\ direction (crit_bits n) a = (if kbit k n then 1 else 0) /\
    u8 (crit_bits n) = crit_bits n.
Proof.
  intros Hk Hk' Hj Heq Ha Hb Hab. pose proof (is_bytes_lookup _ _ _ Hk Ha) as Hba. pose proof (is_bytes_lookup _ _ _ Hk' Hb) as Hbb.
  assert (0 < Z.lxor a b < 256) as Hx.
  { pose proof (lxor_lt a b 8 ltac:(lia) Hba Hbb). assert (Z.lxor a b <> 0) by (intros E; apply Hab; by apply Z.lxor_eq_0_iff). lia. }
  set (i := Z.log2 (Z.lxor a b)). assert (0 <= i < 8) as Hi by (unfold i; split; [apply Z.log2_nonneg|]; apply Z.log2_lt_pow2; lia).
  exists (8 * j + (7 - i)). assert ((8 * j + (7 - i)) / 8 = j) as Hdiv by (rewrite Z.mul_comm, Z.div_add_l, Z.div_small by lia; lia).
  assert ((8 * j + (7 - i)) mod 8 = 7 - i) as Hmod by (rewrite Z.add_comm, Z.mul_comm, Z.mod_add, Z.mod_small by lia; done).
  assert (forall k c, k !! Z.to_nat j = Some c -> forall m, m / 8 = j -> kbit k m = Z.testbit c (7 - m mod 8)) as Hbit by (intros k0 c Hc m Hm; unfold kbit; by rewrite Hm, Hc).
  split; [done|]. split; [rewrite other_bits_log2 by done; unfold crit_bits; rewrite Hmod; fold i; by replace (7 - (7 - i)) with i by lia|]. split; [|split; [|split]].
  - intros m Hm. assert (m / 8 <= j) as Hle by (rewrite <-Hdiv; apply Z.div_le_mono; lia). destruct (decide (m / 8 = j)) as [E|Hne].
    + rewrite (Hbit k a Ha m E), (Hbit k' b Hb m E). pose proof (Z.div_mod m 8 ltac:(lia)). apply Bool.xorb_eq. rewrite <-Z.lxor_spec. apply Z.bits_above_log2; [lia|]. fold i. lia.
    + unfold kbit. pose proof (Z.div_pos m 8 ltac:(lia) ltac:(lia)). rewrite <-(lookup_take_lt k (Z.to_nat j)), Heq, lookup_take_lt by lia. done.
  - rewrite (Hbit k a Ha _ Hdiv), (Hbit k' b Hb _ Hdiv), Hmod. replace (7 - (7 - i)) with i by lia.
    assert (Z.testbit (Z.lxor a b) i = true) as Ht by (apply Z.bit_log2; lia). rewrite Z.lxor_spec in Ht. by destruct (Z.testbit a i), (Z.testbit b i).
  - rewrite direction_bit by done. by rewrite (Hbit k a Ha _ Hdiv).
  - apply u8_small, crit_bits_byte.
Qed.
Hypothesis (Hklen : klen <= 2 ^ 32).

(** The new node and its subtree. *)
Lemma join_rep h node nd k n q x :
  h !! node = Some nd -> Z.land node 1 = 0 -> cb_k nd = k -> cb_byte nd = n / 8 -> otherbits nd = crit_bits n ->
  cb_child nd = (if kbit k n then [q; node] else [node; q]) -> rep h q x -> rep h (1 + node) (join k n node x).
Proof.
  intros Hnode Heven Hk Hb Ho Hc Hx. assert (rep h node (Ext node k)) as He by (split; [done|]; split; [done|]; by rewrite Hnode, <-Hk).
  unfold join. destruct (kbit k n); (split; [lia|]; split; [done|]); [exists nd, q, node|exists nd, node, q]; done.
Qed.

(** The new node takes its place and points to what was there. *)
Lemma place_node_spec h root t node nd n dir :
  nodes_ok h -> rep h root t -> wf klen t -> NoDup (internals t) -> h !! node = Some nd -> node ∉ internals t -> 0 <= n ->
  cb_byte nd = n / 8 -> otherbits nd = crit_bits n -> dir = (if kbit (cb_k nd) n then 0 else 1) -> cb_child nd !! Z.to_nat (1 - dir) = Some node ->
  exists h' root', (w ← loop (S (size h)) (where_step h root node klen (n / 8) (crit_bits n)) Root;
      old ← ld_place h root w; h ← set_child h node dir old; st_place h root w (1 + node)) = Ret (h', root') /\
    rep h' root' (ins (cb_k nd) n node t) /\ nodes_ok h' /\ cb_k <$> h' = cb_k <$> h.
Proof.
  intros Hok Hr Hw Hnd Hnode Hfresh Hn Hb Ho Hdir Hother. destruct (Hok _ _ Hnode) as (Heven & Hnz & Hch & Hkb & Hkl).
  assert (dir = 0 \/ dir = 1) as Hd by (subst dir; destruct (kbit _ _); auto). pose proof (internals_size h root t Hr Hnd) as Hsize.
  destruct (where_spec h root node nd klen _ n Hnode Hkb Hkl Hn eq_refl t root Root (S (size h)) eq_refl Hr Hw ltac:(lia)) as (w & -> & Hcase). run.
  assert (forall q, exists n', set_child h node dir q = Ret (<[node := n']> h) /\ nodes_ok (<[node := n']> h) /\ cb_k <$> <[node := n']> h = cb_k <$> h /\
    forall h' x, h' !! node = Some n' -> rep h' q x -> rep h' (1 + node) (join (cb_k nd) n node x)) as Hset.
  { intros q. rewrite (set_child_spec h node nd dir q Hnode Hch Hd). eexists. split; [done|]. split; [by apply nodes_ok_set; [| |rewrite length_insert]|]. split; [by apply same_keys|].
    intros h' x Hn' Hx. eapply join_rep; [exact Hn'|done|done|done|done| |done]. cbn [cb_child].
    destruct (cb_child nd) as [|x0 [|x1 [|]]]; [done|done| |done]. subst dir. destruct (kbit (cb_k nd) n); cbn in Hother; injection Hother as ->; done. }
  assert (forall n' p x, rep h p x -> node ∉ internals x -> cb_k <$> <[node := n']> h = cb_k <$> h -> rep (<[node := n']> h) p x) as Hframe.
  { intros n' p x Hx Hnx Hkeys. apply (rep_frame h); [done|done|]. intros e He. apply lookup_insert_ne. by intros ->. }
  destruct Hcase as [[-> ->]|(b & d & x & c & -> & Hin & ->)].
  - cbn [ld_place st_place]. run. destruct (Hset root) as (n' & -> & Hok' & Hkeys & Hjoin). run. eexists _, _. split; [done|]. split; [|done].
    apply Hjoin; [apply lookup_insert_eq|]. by apply Hframe.
  - destruct (rep_inside _ _ _ _ _ _ _ Hr Hin) as (bn & q & Hbn & Hq & Hx & Hd' & Hbl). destruct (inside_sub _ _ _ _ _ Hin Hnd) as [Hsub Hbx].
    pose proof (inside_internal _ _ _ _ _ Hin) as Hbt. assert (b <> node) as Hne by (by intros ->).
    cbn [ld_place]. rewrite (at_node_Some _ _ _ Hbn). run. rewrite Hq. run. destruct (Hset q) as (n' & -> & Hok' & Hkeys & Hjoin). run. cbn [st_place].
    assert (<[node := n']> h !! b = Some bn) as Hbn' by (by rewrite lookup_insert_ne).
    rewrite (set_child_spec _ b bn d (1 + node) Hbn' Hbl Hd'). run. eexists _, _. split; [done|]. split; [|split].
    + apply (rep_store (<[node := n']> h) root t b d x c bn (1 + node)); [by apply Hframe|done|done|done|]. apply Hjoin; [rewrite lookup_insert_ne by done; apply lookup_insert_eq|].
      apply (rep_frame (<[node := n']> h)); [apply Hframe; [done|by intros ?%Hsub|done]|by apply same_keys|]. intros e He. apply lookup_insert_ne. by intros ->.
    + apply nodes_ok_set; [done|done|by rewrite length_insert].
    + rewrite (same_keys _ b bn) by done. done.
Qed.

Lemma link_node_spec h root t node nd pn :
  nodes_ok h -> rep h root t -> wf klen t -> NoDup (internals t) -> h !! node = Some nd -> node ∉ internals t ->
  h !! snd (best (cb_k nd) t) = Some pn -> cb_k pn = fst (best (cb_k nd) t) ->
  forall j a b, 0 <= j < klen -> take (Z.to_nat j) (cb_k pn) = take (Z.to_nat j) (cb_k nd) -> cb_k pn !! Z.to_nat j = Some a -> cb_k nd !! Z.to_nat j = Some b -> a <> b ->
  exists n h' root', link_node h root (snd (best (cb_k nd) t)) node klen j = Ret (h', root') /\ 0 <= n < 8 * klen /\ leaves_at (cb_k nd) n t /\
    rep h' root' (ins (cb_k nd) n node t) /\ nodes_ok h' /\ cb_k <$> h' = cb_k <$> h.
Proof.
  intros Hok Hr Hw Hnd Hnode Hfresh Hpn Hpk j a b Hj Heq Ha Hb Hab. destruct (Hok _ _ Hnode) as (Heven & Hnz & Hch & Hkb & Hkl). destruct (Hok _ _ Hpn) as (_ & _ & _ & Hpb & Hpl).
  destruct (leave_bit (cb_k pn) (cb_k nd) j a b Hpb Hkb ltac:(lia) Heq Ha Hb Hab) as (n & Hdiv & Hother & Hag & Hbit & Hdir & Hu8).
  assert (0 <= n < 8 * klen) as Hn by (pose proof (Z.mod_pos_bound n 8 ltac:(lia)); pose proof (Z.div_mod n 8 ltac:(lia)); lia).
  unfold link_node. rewrite (at_node_Some _ _ _ Hpn), (at_node_Some _ _ _ Hnode). run. rewrite (proj2 (rd_Ret (cb_k pn) j a)), (proj2 (rd_Ret (cb_k nd) j b)) by (split; [lia|done]). run.
  rewrite Hother, Hdir, Hu8, u32_small by lia. set (dir := if kbit (cb_k pn) n then 1 else 0). assert (dir = 0 \/ dir = 1) as Hd by (unfold dir; destruct (kbit _ _); auto).
  set (n1 := CbNode (cb_child nd) j (crit_bits n) (cb_k nd)). assert (<[node := n1]> h !! node = Some n1) as Hn1 by apply lookup_insert_eq.
  rewrite (set_child_spec _ node n1 (1 - dir) node Hn1 Hch) by lia. run. rewrite insert_insert_eq. cbn [cb_child cb_byte otherbits cb_k n1].
  set (n2 := CbNode (<[Z.to_nat (1 - dir) := node]> (cb_child nd)) j (crit_bits n) (cb_k nd)).
  assert (cb_k <$> <[node := n2]> h = cb_k <$> h) as Hkeys2 by (by apply same_keys).
  destruct (place_node_spec (<[node := n2]> h) root t node n2 n dir) as (h' & root' & Hrun & Hrep & Hok' & Hkeys').
  - apply nodes_ok_set; [done|done|by rewrite length_insert].
  - apply (rep_frame h); [done|done|]. intros e He. apply lookup_insert_ne. by intros ->.
  - done.
  - done.
  - apply lookup_insert_eq.
  - done.
  - lia.
  - done.
  - done.
  - unfold dir. rewrite Hbit. cbn [cb_k n2]. by destruct (kbit (cb_k nd) n).
  - cbn [cb_child n2]. apply list_lookup_insert_eq. lia.
  - rewrite Hdiv in Hrun. rewrite Hrun. exists n, h', root'. split; [done|]. split; [done|]. split; [by split; rewrite <-Hpk|]. split; [done|]. split; [done|]. by rewrite Hkeys'.
Qed.

Lemma leaf_elem t (m : gmap (list Z) Z) k a : leaves t ≡ₚ map_to_list m -> (k, a) ∈ leaves t <-> m !! k = Some a.
Proof. intros Hp. by rewrite Hp, elem_of_map_to_list. Qed.

(** A key in the tree is its best match. *)
Lemma best_found t k x : wf klen t -> is_bytes k -> zlen k = klen -> x ∈ leaves t -> fst x = k -> fst (best k t) = k.
Proof.
  intros Hw Hk Hlen Hx <-. destruct (wf_key _ _ _ Hw (best_in (fst x) t)) as [Hb Hl]. assert (agree (8 * klen) (fst (best (fst x) t)) (fst x)) as Hag by (by apply (best_agree klen t _ x)).
  pose proof (zlen_nonneg (fst x)). apply agree_prefix in Hag; [|done|done|lia|lia]. rewrite <-Hlen in Hag at 2. rewrite <-Hl in Hag at 1. unfold zlen in Hag. by rewrite !Nat2Z.id, !firstn_all in Hag.
Qed.

Lemma insert_spec h root m node nd : cb_rep h root m -> h !! node = Some nd ->
  exists h' root', cb_insert h root node klen = Ret (default 0 (m !! cb_k nd), h', root') /\
    cb_rep h' root' (match m !! cb_k nd with Some _ => m | None => <[cb_k nd := node]> m end) /\ cb_k <$> h' = cb_k <$> h.
Proof.
  intros [Hok Hroot] Hnode. destruct (Hok _ _ Hnode) as (Heven & Hnz & Hch & Hkb & Hkl). unfold cb_insert. rewrite Heven. change (tru 0) with false. cbn [negb].
  destruct Hroot as [[-> ->]|(t & Hr & Hw & Hnd & Hint & Hp)].
  - eexists h, node. split; [done|]. split; [|done]. rewrite lookup_empty. split; [done|]. right. exists (Ext node (cb_k nd)).
    split; [split; [done|]; split; [done|]; by rewrite Hnode|]. split; [done|]. split; [apply NoDup_nil_2|]. split; [by intros a ?%elem_of_nil|].
    cbn [leaves]. by rewrite insert_empty, map_to_list_singleton.
  - rewrite (proj2 (tru_true root)) by (by apply (rep_nonzero h root t)). cbn [negb]. rewrite (at_node_Some _ _ _ Hnode). run.
    pose proof (internals_size h root t Hr Hnd). unfold cb_internal_best_match. rewrite (best_match_spec h t root (cb_k nd) klen klen) by (done || lia). run.
    pose proof (best_in (cb_k nd) t) as Hbest. assert (cb_k <$> h !! snd (best (cb_k nd) t) = Some (fst (best (cb_k nd) t))) as Hbn by (apply (rep_leaves h root t); [done|by destruct (best (cb_k nd) t)]).
    apply fmap_Some in Hbn as (pn & Hpn & Hpk). rewrite (at_node_Some _ _ _ Hpn). run. destruct (Hok _ _ Hpn) as (_ & _ & _ & Hpb & Hpl). pose proof (zlen_nonneg (cb_k nd)).
    destruct (differ_spec (cb_k pn) (cb_k nd) klen ltac:(lia) ltac:(lia) (Z.to_nat klen) 0 (S (Z.to_nat klen))) as (d & -> & Hd); [lia|lia|by rewrite !take_0|lia|]. run.
    destruct d as [j|].
    + destruct Hd as (Hj & Heq & a & b & Ha & Hb & Hab). assert (m !! cb_k nd = None) as Hnone.
      { destruct (m !! cb_k nd) as [a'|] eqn:E; [|done]. apply (leaf_elem t m _ _ Hp) in E. pose proof (best_found t (cb_k nd) _ Hw Hkb Hkl E eq_refl) as Hf. rewrite Hpk in Hf. rewrite Hf in Ha. congruence. }
      assert (node ∉ internals t) as Hfresh.
      { intros ([k' a'] & Heqa & Hin)%Hint%list_elem_of_fmap. cbn in Heqa. subst a'. pose proof (rep_leaves h root t k' node Hr Hin) as Hk'. rewrite Hnode in Hk'. injection Hk' as <-.
        apply (leaf_elem t m _ _ Hp) in Hin. congruence. }
      destruct (link_node_spec h root t node nd pn Hok Hr Hw Hnd Hnode Hfresh Hpn (eq_sym Hpk) j a b ltac:(lia) Heq Ha Hb Hab) as (n & h' & root' & -> & Hn & Hat & Hr' & Hok' & Hkeys).
      run. rewrite Hnone. exists h', root'. split; [done|]. split; [|done]. split; [done|]. right. exists (ins (cb_k nd) n node t).
      destruct (ins_wf klen (cb_k nd) n node t Hw Hkb Hkl Hn Hat) as (Hw' & Hl' & Hi' & _). split; [done|]. split; [done|]. split; [rewrite Hi'; by constructor|]. split.
      * intros a'. rewrite Hi', Hl'. cbn [fmap list_fmap snd]. intros [->|Ha']%elem_of_cons; [set_solver|]. specialize (Hint a' Ha'). set_solver.
      * by rewrite Hl', map_to_list_insert, Hp.
    + assert (fst (best (cb_k nd) t) = cb_k nd) as Hk. { rewrite Hpk. rewrite <-Hpl in Hd at 1. rewrite <-Hkl in Hd. unfold zlen in Hd. by rewrite !Nat2Z.id, !firstn_all in Hd. }
      assert (m !! cb_k nd = Some (snd (best (cb_k nd) t))) as -> by (apply (leaf_elem t m _ _ Hp); rewrite <-Hk at 1; by destruct (best (cb_k nd) t)).
      exists h, root. split; [done|]. split; [|done]. split; [done|]. right. by exists t.
Qed.

Lemma lookup_spec h root m k : cb_rep h root m -> is_bytes k -> zlen k = klen -> cb_lookup h root k klen = Ret (default 0 (m !! k)).
Proof.
  intros [Hok Hroot] Hk Hlen. unfold cb_lookup. destruct Hroot as [[-> ->]|(t & Hr & Hw & Hnd & Hint & Hp)]; [done|].
  pose proof (internals_size h root t Hr Hnd). unfold cb_internal_best_match. rewrite (best_match_spec h t root k klen klen) by (done || lia). run.
  pose proof (best_in k t) as Hbest. assert (cb_k <$> h !! snd (best k t) = Some (fst (best k t))) as Hbn by (apply (rep_leaves h root t); [done|by destruct (best k t)]).
  apply fmap_Some in Hbn as (pn & Hpn & Hpk). destruct (Hok _ _ Hpn) as (_ & Hnz & _ & _ & Hpl). rewrite (proj2 (tru_true _)) by done. cbn [negb].
  rewrite (at_node_Some _ _ _ Hpn). run. pose proof (zlen_nonneg k). rewrite !rd_range_in by lia. run. rewrite <-Hpl at 1. rewrite <-Hlen, !slice_full, <-Hpk. f_equal.
  destruct (Z.eqb_spec (bytes_cmp (fst (best k t)) k) 0) as [He%bytes_cmp_eq|Hne].
  - assert (m !! k = Some (snd (best k t))) as -> by (apply (leaf_elem t m _ _ Hp); rewrite <-He at 1; by destruct (best k t)). done.
  - destruct (m !! k) as [a|] eqn:E; [|done]. apply (leaf_elem t m _ _ Hp) in E. destruct Hne. by rewrite (best_found t k _ Hw Hk Hlen E eq_refl), (proj2 (bytes_cmp_eq k k)).
Qed.
End operations.

(** * Refinement *)

(** The nodes whose keys have a prefix, in the order of the keys. *)
Definition key_le (x y : list Z * Z) : Prop := bytes_cmp (fst x) (fst y) <= 0.
#[local] Instance key_le_dec x y : Decision (key_le x y).
Proof. unfold key_le. apply _. Defined.
Definition matching (pfx : list Z) (m : gmap (list Z) Z) : list Z := snd <$> merge_sort key_le (filter (has_prefix pfx) (map_to_list m)).

Lemma filter_StronglySorted {A} (R : A -> A -> Prop) (P : A -> Prop) `{forall x, Decision (P x)} (l : list A) : StronglySorted R l -> StronglySorted R (filter P l).
Proof.
  induction 1 as [|x l Hs IH Hx]; [constructor|]. rewrite filter_cons. case_decide; [|done]. constructor; [done|].
  rewrite Forall_forall in *. intros y Hy. apply Hx. by apply list_elem_of_filter in Hy as [_ ?].
Qed.

Lemma matching_leaves klen t m pfx : wf klen t -> leaves t ≡ₚ map_to_list m -> snd <$> filter (has_prefix pfx) (leaves t) = matching pfx m.
Proof.
  intros Hw Hp. unfold matching. f_equal. apply (StronglySorted_unique_strong key_le).
  - intros [k1 a1] [k2 a2] H1 H2 Hle Hge. unfold key_le in Hle, Hge. cbn [fst] in *. assert (k1 = k2) as -> by (apply bytes_cmp_eq; pose proof (@cmp_flip _ bytes_cmp _ k2 k1); lia).
    apply list_elem_of_filter in H1 as [_ H1]. rewrite merge_sort_Permutation in H2. apply list_elem_of_filter in H2 as [_ H2].
    rewrite Hp in H1. apply elem_of_map_to_list in H1, H2. congruence.
  - apply filter_StronglySorted. pose proof (leaves_sorted klen t Hw) as Hs. clear -Hs. induction Hs as [|x l _ IH Hx]; constructor; [done|]. eapply Forall_impl; [exact Hx|]. intros y. unfold key_lt, key_le. lia.
  - apply StronglySorted_merge_sort; [intros x y z; apply cmp_trans|intros x y; apply (cmp_total bytes_cmp)].
  - by rewrite merge_sort_Permutation, Hp.
Qed.

Section ops.
Context {A : Type} (fn : Z -> A -> cb_next * A) (klen : Z).

Inductive cb_op := Insert (node : Z) | Lookup (k : list Z) | Each (kpfx : list Z) (arg : A).
Inductive cb_out := Found (p : Z) | Visited (arg : A).

Definition cb_step (h : nodes) (root : Z) (op : cb_op) : outcome (cb_out * nodes * Z) :=
  match op with
  | Insert node => '(p, h, root) ← cb_insert h root node klen; Ret (Found p, h, root)
  | Lookup k => p ← cb_lookup h root k klen; Ret (Found p, h, root)
  | Each kpfx arg => arg ← cb_each fn h root kpfx (zlen kpfx) arg; Ret (Visited arg, h, root)
  end.

Fixpoint cb_run (h : nodes) (root : Z) (ops : list cb_op) : outcome (list cb_out) :=
  match ops with
  | [] => Ret []
  | op :: ops => '(out, h, root) ← cb_step h root op; outs ← cb_run h root ops; Ret (out :: outs)
  end.

(** The same on a finite map from keys to nodes. *)
Definition map_step (keys : gmap Z (list Z)) (m : gmap (list Z) Z) (op : cb_op) : cb_out * gmap (list Z) Z :=
  match op with
  | Insert node => let k := default [] (keys !! node) in (Found (default 0 (m !! k)), match m !! k with Some _ => m | None => <[k := node]> m end)
  | Lookup k => (Found (default 0 (m !! k)), m)
  | Each kpfx arg => (Visited (snd (visit fn (matching kpfx m) arg)), m)
  end.

Fixpoint map_run (keys : gmap Z (list Z)) (m : gmap (list Z) Z) (ops : list cb_op) : list cb_out :=
  match ops with [] => [] | op :: ops => let '(out, m) := map_step keys m op in out :: map_run keys m ops end.

Definition op_ok (keys : gmap Z (list Z)) (op : cb_op) : Prop :=
  match op with
  | Insert node => is_Some (keys !! node)
  | Lookup k => is_bytes k /\ zlen k = klen
  | Each kpfx _ => is_bytes kpfx /\ zlen kpfx <= klen
  end.

Lemma each_spec h root m kpfx arg : cb_rep klen h root m -> is_bytes kpfx -> zlen kpfx <= klen ->
  cb_each fn h root kpfx (zlen kpfx) arg = Ret (snd (visit fn (matching kpfx m) arg)).
Proof.
  intros [Hok Hroot] Hk Hlen. unfold cb_each. destruct Hroot as [[-> ->]|(t & Hr & Hw & Hnd & Hint & Hp)].
  { change (tru 0) with false. cbn [negb]. unfold matching. by rewrite map_to_list_empty. }
  rewrite (proj2 (tru_true root)) by (by apply (rep_nonzero klen h root t)). cbn [negb]. pose proof (internals_size h root t Hr Hnd) as Hsize.
  destruct (top_spec h t root kpfx klen (S (size h)) Hr Hw Hk ltac:(lia)) as (q & -> & Hq). run.
  pose proof (best_in kpfx t) as Hbest. assert (cb_k <$> h !! snd (best kpfx t) = Some (fst (best kpfx t))) as Hbn by (apply (rep_leaves h root t); [done|by destruct (best kpfx t)]).
  apply fmap_Some in Hbn as (pn & Hpn & Hpk). rewrite (at_node_Some _ _ _ Hpn). run. destruct (Hok _ _ Hpn) as (_ & _ & _ & Hpb & Hpl). pose proof (zlen_nonneg kpfx).
  destruct (differ_spec (cb_k pn) kpfx (zlen kpfx) ltac:(lia) ltac:(lia) (Z.to_nat (zlen kpfx)) 0 (S (Z.to_nat (zlen kpfx)))) as (d & -> & Hd); [lia|lia|by rewrite !take_0|lia|]. run.
  assert (Z.to_nat (zlen kpfx) = length kpfx) as Hn by (unfold zlen; lia). rewrite <-(matching_leaves klen t m kpfx Hw Hp).
  destruct d as [j|].
  - destruct Hd as (Hj & _ & a & b & Ha & Hb & Hab). rewrite (no_prefix klen kpfx t Hw Hk Hlen); [done|]. unfold has_prefix. rewrite Hpk. intros Heq.
    rewrite <-Heq in Hb. rewrite lookup_take_lt in Hb by lia. congruence.
  - assert (has_prefix kpfx (best kpfx t)) as Hpre by (unfold has_prefix; rewrite Hpk, <-Hn, Hd, Hn; by rewrite firstn_all).
    rewrite (cb_descend_spec fn h (under kpfx t) q (S (size h)) arg Hq).
    + run. rewrite (under_spec klen kpfx t Hw Hk Hlen Hpre). by destruct (visit _ _ _).
    + apply Nat.lt_succ_r. etransitivity; [|exact Hsize]. clear. induction t as [a k|a m l IHl r IHr]; [done|]. cbn [under]. case_if; [|done].
      cbn [internals length]. rewrite length_app. destruct (kbit kpfx m); lia.
Qed.

Lemma cb_steps_refine keys ops : klen <= 2 ^ 32 -> forall h root m, cb_rep klen h root m -> cb_k <$> h = keys -> Forall (op_ok keys) ops ->
  cb_run h root ops = Ret (map_run keys m ops).
Proof.
  intros Hklen. induction ops as [|op ops IH]; intros h root m Hr Hkeys Hops; [done|]. inversion Hops as [|? ? Hop Hops']. subst x l. cbn [cb_run map_run].
  destruct op as [node|k|kpfx arg]; cbn [cb_step map_step op_ok] in *.
  - destruct Hop as [k Hk]. rewrite Hk. cbn [default]. rewrite <-Hkeys, lookup_fmap in Hk. apply fmap_Some in Hk as (nd & Hnode & ->).
    destruct (insert_spec klen Hklen h root m node nd Hr Hnode) as (h' & root' & -> & Hr' & Hkeys'). run. rewrite (IH h' root' _ Hr'); [done|by rewrite Hkeys'|done].
  - destruct Hop as [Hk Hlen]. rewrite (lookup_spec klen h root m k Hr Hk Hlen). run. by rewrite (IH h root m Hr Hkeys Hops').
  - destruct Hop as [Hk Hlen]. rewrite (each_spec h root m kpfx arg Hr Hk Hlen). run. by rewrite (IH h root m Hr Hkeys Hops').
Qed.
End ops.

(** * Claims *)

(** [C32] A crit-bit tree is a map from keys to nodes: starting from the empty tree,
    every sequence of insertions, lookups and visits, with keys of [klen] bytes,
    gives what it gives on a finite map; an insertion returns the node that
    already has the key, or links the new one, a lookup finds the node of a key,
    and a visit calls back on the nodes whose keys have a prefix, each once and in
    ascending order of their keys, until the callback breaks.  Every walk ends
    and stays on nodes of the tree. *)
Theorem crit_bit_refines_map {A} (fn : Z -> A -> cb_next * A) (klen : Z) (h : nodes) (ops : list cb_op) :
  klen <= 2 ^ 32 -> nodes_ok klen h -> Forall (op_ok klen (cb_k <$> h)) ops ->
  cb_run fn klen h 0 ops = Ret (map_run fn (cb_k <$> h) ∅ ops).
Proof. intros Hklen Hok Hops. apply cb_steps_refine; [done| |done|done]. split; [done|by left]. Qed.

(** Four nodes with keys of two bytes, two of them equal; a callback that stops after two nodes. *)
Definition some_nodes : nodes :=
  {[ 16 := CbNode [0; 0] 0 0 [97; 98]; 32 := CbNode [0; 0] 0 0 [97; 99]; 48 := CbNode [0; 0] 0 0 [80; 255]; 64 := CbNode [0; 0] 0 0 [97; 99] ]}.
Definition two_nodes (p : Z) (seen : list Z) : cb_next * list Z := (if bool_decide (length seen = 1%nat) then CB_BREAK else CB_CONTINUE, seen ++ [p]).
Definition some_ops : list (cb_op (A := list Z)) :=
  [Lookup [97; 99]; Insert 32; Insert 16; Insert 48; Insert 64; Lookup [97; 98]; Lookup [97; 97]; Each [97] []; Each [] []; Each [98] []].

Example some_outputs : cb_run two_nodes 2 some_nodes 0 some_ops =
  Ret [Found 0; Found 0; Found 0; Found 0; Found 32; Found 16; Found 0; Visited [16; 32]; Visited [48; 16]; Visited []].
Proof. by vm_compute. Qed.

Lemma crit_bit_refines_map_witness :
  2 <= 2 ^ 32 /\ nodes_ok 2 some_nodes /\ Forall (op_ok 2 (cb_k <$> some_nodes)) some_ops /\
  cb_run two_nodes 2 some_nodes 0 some_ops = Ret (map_run two_nodes (cb_k <$> some_nodes) ∅ some_ops).
Proof.
  assert (2 <= 2 ^ 32) as Hlen by lia.
  assert (nodes_ok 2 some_nodes) as Hok.
  { apply map_Forall_lookup. unfold some_nodes. repeat apply map_Forall_insert_2; try apply map_Forall_singleton; evaluate. }
  assert (Forall (op_ok 2 (cb_k <$> some_nodes)) some_ops) as Hops by (repeat constructor; evaluate).
  split; [exact Hlen|]. split; [exact Hok|]. split; [exact Hops|]. exact (crit_bit_refines_map two_nodes 2 some_nodes some_ops Hlen Hok Hops).
Defined.
