(* ===== verification/ReftableBasics.v ===== *)
(** reftable_basics.c: the buffers, integers and searches of the reftable library,
    and what it takes from its headers and its allocator. *)
From S2P Require Import Prelude.

(** * Headers *)

(** basics.h: the capacity REFTABLE_ALLOC_GROW asks for, whether the allocator has
    [n] bytes, and what new memory holds; the kinds of hashes and their sizes. *)
Class ReftableHeader := {
  grow_to : Z -> Z -> Z;
  can_alloc : Z -> bool;
  fresh : Z;
  REFTABLE_HASH_SHA1 : Z;
  REFTABLE_HASH_SHA256 : Z;
  REFTABLE_HASH_SIZE_SHA1 : Z;
  REFTABLE_HASH_SIZE_SHA256 : Z;
}.

Class ReftableHeaderOk `{ReftableHeader} : Prop := {
  grow_to_enough nr alloc : nr <= grow_to nr alloc;
  hash_kinds : REFTABLE_HASH_SHA1 <> 0 /\ REFTABLE_HASH_SHA256 <> 0 /\ REFTABLE_HASH_SHA1 <> REFTABLE_HASH_SHA256;
  hash_sizes : 0 < REFTABLE_HASH_SIZE_SHA1 /\ 0 < REFTABLE_HASH_SIZE_SHA256;
}.

(** * Model *)

(** [struct reftable_buf]: [buf] has [alloc] bytes, and is NULL when that is 0. *)
Record reftable_buf := Buf { rb_alloc : Z; rb_len : Z; rb_buf : list Z }.

Section model.
Context `{ReftableHeader}.

(** NULL for no bytes, or when there is no memory. *)
Definition reftable_malloc (sz : Z) : outcome (list Z) :=
  if negb (tru sz) then Err NoMem else if can_alloc sz then Ret (replicate (Z.to_nat sz) fresh) else Err NoMem.

Definition reftable_realloc (p : list Z) (sz : Z) : outcome (list Z) :=
  if negb (tru sz) then Err NoMem else if can_alloc sz then Ret (realloc fresh p sz) else Err NoMem.

Definition reftable_calloc (nelem elsize : Z) : outcome (list Z) :=
  if tru nelem && ((2 ^ 64 - 1) / nelem <? elsize) then Err NoMem else
  p ← reftable_malloc (u64 (nelem * elsize));
  fill_range p 0 (u64 (nelem * elsize)) 0.

(** The string with its NUL. *)
Definition reftable_strdup (str : list Z) : outcome (list Z) :=
  let len := zlen str in
  result ← reftable_malloc (len + 1);
  wr_range result 0 (str ++ [0]).

Definition reftable_buf_init : reftable_buf := Buf 0 0 [].

Definition reftable_buf_release (buf : reftable_buf) : reftable_buf := reftable_buf_init.

Definition reftable_buf_reset (buf : reftable_buf) : outcome reftable_buf :=
  if tru (rb_alloc buf) then mem ← wr (rb_buf buf) 0 0; Ret (Buf (rb_alloc buf) 0 mem) else Ret buf.

Definition reftable_buf_setlen (buf : reftable_buf) (len : Z) : outcome reftable_buf :=
  if len >? rb_len buf then Err Error else
  if len =? rb_len buf then Ret buf else
  mem ← wr (rb_buf buf) len 0;
  Ret (Buf (rb_alloc buf) len mem).

Definition reftable_buf_cmp (a b : reftable_buf) : outcome Z :=
  let len := if rb_len a <? rb_len b then rb_len a else rb_len b in
  cmp ← (if tru len then x ← rd_range (rb_buf a) 0 len; y ← rd_range (rb_buf b) 0 len; Ret (bytes_cmp x y) else Ret 0);
  if tru cmp then Ret cmp else
  Ret (if rb_len a <? rb_len b then -1 else Z.b2z (negb (rb_len a =? rb_len b))).

Definition reftable_buf_add (buf : reftable_buf) (data : list Z) : outcome reftable_buf :=
  let len := zlen data in
  let newlen := u64 (rb_len buf + len) in
  buf ← (if u64 (newlen + 1) >? rb_alloc buf then
           let alloc := grow_to (u64 (newlen + 1)) (rb_alloc buf) in
           mem ← reftable_realloc (rb_buf buf) alloc;
           Ret (Buf alloc (rb_len buf) mem)
         else Ret buf);
  mem ← wr_range (rb_buf buf) (rb_len buf) data;
  mem ← wr mem newlen 0;
  Ret (Buf (rb_alloc buf) newlen mem).

Definition reftable_buf_addstr (buf : reftable_buf) (s : list Z) : outcome reftable_buf := reftable_buf_add buf s.

Definition reftable_buf_detach (buf : reftable_buf) : list Z * reftable_buf := (rb_buf buf, reftable_buf_init).

(** [put_be24] and [put_be16] at a place of a buffer. *)
Definition put_be24 (mem : list Z) (out i : Z) : outcome (list Z) :=
  mem ← wr mem out (u8 (Z.land (Z.shiftr i 16) 0xff));
  mem ← wr mem (out + 1) (u8 (Z.land (Z.shiftr i 8) 0xff));
  wr mem (out + 2) (u8 (Z.land i 0xff)).

Definition get_be24 (mem : list Z) (at_ : Z) : outcome Z :=
  a ← rd mem at_; b ← rd mem (at_ + 1); c ← rd mem (at_ + 2);
  Ret (Z.lor (Z.lor (Z.shiftl a 16) (Z.shiftl b 8)) c).

Definition put_be16 (mem : list Z) (out i : Z) : outcome (list Z) :=
  mem ← wr mem out (u8 (Z.land (Z.shiftr i 8) 0xff));
  wr mem (out + 1) (u8 (Z.land i 0xff)).

(** One round on [lo] and [hi]; a negative answer ends the search with [sz]. *)
Definition binsearch_step (f : Z -> outcome Z) (sz : Z) (st : Z * Z) : outcome ((Z * Z) + (Z + Z * Z)) :=
  let '(lo, hi) := st in
  if negb (hi - lo >? 1) then Ret (inr (inr (lo, hi))) else
  let mid := lo + (hi - lo) / 2 in
  ret ← f mid;
  if ret <? 0 then Ret (inr (inl sz)) else
  if ret >? 0 then Ret (inl (lo, mid)) else Ret (inl (mid, hi)).

Definition binsearch (sz : Z) (f : Z -> outcome Z) : outcome Z :=
  r ← loop (S (Z.to_nat sz)) (binsearch_step f sz) (0, sz);
  match r with
  | inl res => Ret res
  | inr (lo, hi) => if tru lo then Ret hi else r ← f 0; Ret (if tru r then 0 else 1)
  end.

(** NULL-terminated arrays of strings. *)
Fixpoint names_length (names : list (option (list Z))) : outcome Z :=
  match names with
  | [] => Undef
  | None :: _ => Ret 0
  | Some _ :: names => n ← names_length names; Ret (n + 1)
  end.

Fixpoint names_equal (a b : list (option (list Z))) : outcome bool :=
  match a, b with
  | Some x :: a, Some y :: b => if tru (bytes_cmp x y) then Ret false else names_equal a b
  | x :: _, y :: _ => Ret (bool_decide (x = None /\ y = None))
  | _, _ => Undef
  end.

Definition common_prefix_step (a b : reftable_buf) (p : Z) : outcome (Z + Z) :=
  if negb ((p <? rb_len a) && (p <? rb_len b)) then Ret (inr p) else
  x ← rd (rb_buf a) p; y ← rd (rb_buf b) p;
  if negb (x =? y) then Ret (inr p) else Ret (inl (p + 1)).

Definition common_prefix_size (a b : reftable_buf) : outcome Z := loop (S (Z.to_nat (rb_len a))) (common_prefix_step a b) 0.

Definition hash_size (id : Z) : outcome Z :=
  if negb (tru id) then Ret REFTABLE_HASH_SIZE_SHA1 else
  if id =? REFTABLE_HASH_SHA1 then Ret REFTABLE_HASH_SIZE_SHA1 else
  if id =? REFTABLE_HASH_SHA256 then Ret REFTABLE_HASH_SIZE_SHA256 else
  Err Bug.
End model.

(** * Buffers *)

(** The buffer holds the bytes [s], with a NUL behind them. *)
Definition buf_rep (b : reftable_buf) (s : list Z) : Prop :=
  rb_len b = zlen s /\ zlen s < 2 ^ 31 /\ zlen (rb_buf b) = rb_alloc b /\ ((rb_alloc b = 0 /\ s = []) \/ exists rest, rb_buf b = s ++ 0 :: rest).

Section buffers.
Context `{ReftableHeaderOk}.

(** No failure of the allocator. *)
Definition memory_enough : Prop := forall n, can_alloc n = true.

Lemma buf_rep_init : buf_rep reftable_buf_init [].
Proof. split; [done|]. split; [done|]. split; [done|]. by left. Qed.

Lemma buf_rep_slice b s off n : buf_rep b s -> 0 <= off -> 0 <= n -> off + n <= zlen s -> rd_range (rb_buf b) off n = Ret (slice s off n).
Proof.
  intros (Hl & _ & Ha & [[Hz ->]|[rest Hb]]) Hoff Hn Hle.
  - change (zlen (@nil Z)) with 0 in Hle. assert (off = 0) as -> by lia. assert (n = 0) as -> by lia. destruct (rb_buf b); [done|]. rewrite zlen_cons in Ha. pose proof (zlen_nonneg l). lia.
  - rewrite Hb. apply rd_range_extend. by apply rd_range_in.
Qed.

Lemma buf_rep_rd b s i x : buf_rep b s -> 0 <= i -> s !! Z.to_nat i = Some x -> rd (rb_buf b) i = Ret x.
Proof.
  intros (_ & _ & _ & [[_ ->]|[rest ->]]) Hi Hx; [done|]. apply rd_Ret. split; [done|]. rewrite lookup_app_l; [done|]. by eapply lookup_lt_Some.
Qed.

Lemma buf_rep_ext b b' s : buf_rep b s -> zlen (rb_buf b') = rb_alloc b' -> rb_len b' = rb_len b -> (exists rest, rb_buf b' = s ++ 0 :: rest) -> buf_rep b' s.
Proof. intros (Hl & Hs & _) Ha Hl' Hr. split; [lia|]. split; [done|]. split; [done|]. by right. Qed.

Lemma reset_spec b s : buf_rep b s -> exists b', reftable_buf_reset b = Ret b' /\ buf_rep b' [].
Proof.
  intros (Hl & Hs & Ha & Hr). unfold reftable_buf_reset. destruct (tru (rb_alloc b)) eqn:Et.
  - apply tru_true in Et. destruct Hr as [[? _]|[rest Hb]]; [done|]. pose proof (zlen_nonneg (rb_buf b)). rewrite wr_in by lia. run. eexists. split; [done|].
    split; [done|]. split; [done|]. cbn [rb_buf rb_alloc]. split; [by rewrite zlen_insert|]. right. destruct (rb_buf b) as [|x mem]; [by destruct s|]. by exists mem.
  - apply tru_false in Et. destruct Hr as [[_ ->]|[rest Hb]]; [by exists b; split; [|split; [|split; [|split; [|left]]]]|].
    rewrite Hb, zlen_app, zlen_cons in Ha. pose proof (zlen_nonneg s). pose proof (zlen_nonneg rest). lia.
Qed.

Lemma setlen_spec b s n : buf_rep b s -> 0 <= n <= zlen s -> exists b', reftable_buf_setlen b n = Ret b' /\ buf_rep b' (take (Z.to_nat n) s).
Proof.
  intros Hr Hn. pose proof Hr as (Hl & Hs & Ha & Hc). unfold reftable_buf_setlen. rewrite Z.gtb_ltb, (proj2 (Z.ltb_ge _ _)) by lia. destruct (Z.eqb_spec n (rb_len b)) as [->|Hne].
  - exists b. split; [done|]. rewrite take_ge; [done|]. unfold zlen in Hl. lia.
  - destruct Hc as [[_ ->]|[rest Hb]]; [change (zlen (@nil Z)) with 0 in *; lia|]. destruct (lookup_lt_is_Some_2 s (Z.to_nat n)) as [x Hx]; [unfold zlen in *; lia|].
    assert (rb_buf b = take (Z.to_nat n) s ++ x :: drop (S (Z.to_nat n)) s ++ 0 :: rest) as Hsplit 
      by (rewrite Hb; transitivity ((take (Z.to_nat n) s ++ x :: drop (S (Z.to_nat n)) s) ++ 0 :: rest); [by rewrite (take_drop_middle _ _ _ Hx)|same_list]).
    assert (zlen (take (Z.to_nat n) s) = n) as Hlen by (unfold zlen in *; rewrite length_take; lia).
    rewrite (wr_at _ _ _ 0 _ n Hsplit) by done. run. eexists. split; [done|]. split; [done|]. split; [lia|]. cbn [rb_buf rb_alloc]. split; [rewrite <-Ha, Hsplit; same_len|]. right. by eexists.
Qed.

Lemma buf_add_spec b s data : buf_rep b s -> zlen s + zlen data < 2 ^ 31 -> memory_enough -> exists b', reftable_buf_add b data = Ret b' /\ buf_rep b' (s ++ data).
Proof.
  intros (Hl & Hs & Ha & Hc) Hlen Hmem. unfold reftable_buf_add. pose proof (zlen_nonneg s). pose proof (zlen_nonneg data). rewrite Hl, (u64_small (zlen s + zlen data)), (u64_small (zlen s + zlen data + 1)) by lia.
  assert (exists b1, (if zlen s + zlen data + 1 >? rb_alloc b then
      mem ← reftable_realloc (rb_buf b) (grow_to (zlen s + zlen data + 1) (rb_alloc b)); Ret (Buf (grow_to (zlen s + zlen data + 1) (rb_alloc b)) (zlen s) mem) else Ret b) = Ret b1 /\ rb_len b1 = zlen s /\ zlen (rb_buf b1) = rb_alloc b1 /\
      zlen s + zlen data + 1 <= rb_alloc b1 /\ exists r, rb_buf b1 = s ++ r) as (b1 & Hb1 & Hl1 & Ha1 & Hroom & r & Hr1).
  { rewrite Z.gtb_ltb. case_if.
    - pose proof (grow_to_enough (zlen s + zlen data + 1) (rb_alloc b)) as Hg. unfold reftable_realloc. rewrite (proj2 (tru_true _)), Hmem by lia. cbn [negb]. run.
      eexists. split; [done|]. cbn [rb_len rb_buf rb_alloc]. split; [done|]. split; [by rewrite zlen_realloc by lia|]. split; [lia|]. unfold realloc.
      destruct Hc as [[_ ->]|[rest ->]]; [by eexists|]. rewrite take_app_ge by (unfold zlen in *; lia). rewrite <-app_assoc. by eexists.
    - exists b. split; [done|]. split; [done|]. split; [done|]. split; [lia|]. destruct Hc as [[_ ->]|[rest ->]]; by eexists. }
  rewrite Hb1. run. rewrite Hl1. rewrite wr_range_in by lia. run.
  assert (exists x rest, drop (Z.to_nat (zlen s + zlen data)) (rb_buf b1) = x :: rest) as (x & rest & Hx).
  { destruct (drop _ _) as [|x rest] eqn:E; [|by eexists _, _]. apply (f_equal length) in E. rewrite length_drop in E. cbn in E. unfold zlen in *. lia. }
  assert (take (Z.to_nat (zlen s)) (rb_buf b1) = s) as Htake by (rewrite Hr1; by apply take_drop_zlen). rewrite Htake, Hx.
  rewrite (wr_at (s ++ data) x rest) by first [same_list|same_len]. run. eexists. split; [done|]. split; [by rewrite zlen_app|]. split; [rewrite zlen_app; lia|]. cbn [rb_buf rb_alloc].
  split; [|right; by eexists]. rewrite <-Ha1. apply (f_equal zlen) in Hx. unfold zlen in Hx. rewrite length_drop in Hx. cbn [length] in Hx. unfold zlen. rewrite !length_app. cbn [length]. unfold zlen in *. lia.
Qed.
End buffers.

(** An allocator that always has memory. *)
#[export] Instance reftable_ref : ReftableHeader := {
  grow_to nr alloc := Z.max nr (2 * alloc + 1); can_alloc _ := true; fresh := 170;
  REFTABLE_HASH_SHA1 := 1; REFTABLE_HASH_SHA256 := 2; REFTABLE_HASH_SIZE_SHA1 := 20; REFTABLE_HASH_SIZE_SHA256 := 32;
}.

Lemma reftable_ref_ok : @ReftableHeaderOk reftable_ref.
Proof. split; [intros; cbn; lia|done|done]. Qed.

Lemma reftable_ref_memory : @memory_enough reftable_ref.
Proof. done. Qed.

(** * Integers *)

Lemma land_255 x : 0 <= x -> Z.land x 0xff = x mod 256.
Proof. intros. change 0xff with (Z.ones 8). by rewrite Z.land_ones. Qed.

(** The bytes of a 16-bit and of a 24-bit number. *)
Definition be16_bytes (i : Z) : list Z := [i / 256; i mod 256].
Definition be24_bytes (i : Z) : list Z := [i / 65536; i / 256 mod 256; i mod 256].

Lemma put_be16_spec pre x y rest i : 0 <= i < 2 ^ 16 -> put_be16 (pre ++ x :: y :: rest) (zlen pre) i = Ret (pre ++ be16_bytes i ++ rest).
Proof.
  intros Hi. unfold put_be16, be16_bytes. rewrite Z.shiftr_div_pow2 by lia. assert (0 <= i / 256 < 256) by (split; [apply Z.div_pos; lia|apply Z.div_lt_upper_bound; lia]).
  pose proof (Z.mod_pos_bound i 256 ltac:(lia)). change (2 ^ 8) with 256. rewrite !land_255, (Z.mod_small (i / 256)), !u8_small by (unfold is_byte; lia).
  rewrite (wr_at pre x (y :: rest)) by done. run. rewrite (wr_at (pre ++ [i / 256]) y rest) by first [same_list|same_len]. by rewrite <-app_assoc.
Qed.

Lemma put_be24_spec pre x y z rest i : 0 <= i < 2 ^ 24 -> put_be24 (pre ++ x :: y :: z :: rest) (zlen pre) i = Ret (pre ++ be24_bytes i ++ rest).
Proof.
  intros Hi. unfold put_be24, be24_bytes. rewrite !Z.shiftr_div_pow2 by lia. change (2 ^ 16) with 65536. change (2 ^ 8) with 256.
  assert (0 <= i / 65536 < 256) by (split; [apply Z.div_pos; lia|apply Z.div_lt_upper_bound; lia]). assert (0 <= i / 256) by (apply Z.div_pos; lia).
  pose proof (Z.mod_pos_bound i 256 ltac:(lia)). pose proof (Z.mod_pos_bound (i / 256) 256 ltac:(lia)).
  rewrite !land_255, (Z.mod_small (i / 65536)), !u8_small by (unfold is_byte; lia). set (a := i / 65536) in *. set (b := i / 256 mod 256) in *. set (c := i mod 256) in *.
  rewrite (wr_at pre x (y :: z :: rest)) by done. run. rewrite (wr_at (pre ++ [a]) y (z :: rest)) by first [same_list|same_len]. run.
  rewrite (wr_at (pre ++ [a; b]) z rest) by first [same_list|same_len]. f_equal. same_list.
Qed.

Lemma get_be24_at mem pre rest i n : mem = pre ++ be24_bytes i ++ rest -> n = zlen pre -> 0 <= i < 2 ^ 24 -> get_be24 mem n = Ret i.
Proof.
  intros -> -> Hi. unfold get_be24, be24_bytes. assert (0 <= i / 65536 < 256) by (split; [apply Z.div_pos; lia|apply Z.div_lt_upper_bound; lia]). assert (0 <= i / 256) by (apply Z.div_pos; lia).
  pose proof (Z.mod_pos_bound i 256 ltac:(lia)). pose proof (Z.mod_pos_bound (i / 256) 256 ltac:(lia)). set (a := i / 65536) in *. set (b := i / 256 mod 256) in *. set (c := i mod 256) in *.
  rewrite (rd_at pre a (b :: c :: rest) _ (zlen pre)) by first [same_list|done]. run. rewrite (rd_at (pre ++ [a]) b (c :: rest) _ (zlen pre + 1)) by first [same_list|same_len]. run.
  rewrite (rd_at (pre ++ [a; b]) c rest _ (zlen pre + 2)) by first [same_list|same_len]. run. f_equal.
  assert (Z.lor (Z.shiftl a 16) (Z.shiftl b 8) = Z.shiftl (a * 256 + b) 8) as ->.
  { replace (Z.shiftl a 16) with (Z.shiftl (Z.shiftl a 8) 8) by (by rewrite Z.shiftl_shiftl). rewrite <-Z.shiftl_lor. f_equal. rewrite lor_shiftl_add; [|lia..]. done. }
  rewrite lor_shiftl_add by lia. change (2 ^ 8) with 256. subst a b c. Z.to_euclidean_division_equations. lia.
Qed.

(** * Searches *)

(** The first place where the answer is positive, [sz] when there is none. *)
Lemma binsearch_loop f (g : Z -> bool) sz : (forall k, 0 <= k < sz -> exists r, f k = Ret r /\ 0 <= r /\ (0 < r <-> g k = true)) ->
  forall fuel lo hi, 0 <= lo <= hi -> hi <= sz -> (hi - lo < Z.of_nat fuel) -> (forall k, hi <= k < sz -> g k = true) -> (lo = 0 \/ g lo = false) -> (hi = sz \/ g hi = true) ->
  (forall i j, 0 <= i <= j -> j < sz -> g i = true -> g j = true) ->
  exists lo' hi', loop fuel (binsearch_step f sz) (lo, hi) = Ret (inr (lo', hi')) /\ 0 <= lo' <= hi' /\ hi' <= sz /\ hi' - lo' <= 1 /\ (lo' = 0 \/ g lo' = false) /\
    (hi' = sz \/ g hi' = true) /\ (0 < hi - lo -> 0 < hi' - lo').
Proof.
  intros Hf. induction fuel as [|fuel IH]; intros lo hi Hlo Hhi Hfuel Hup Hl Hh Hmono; [lia|]. destruct (decide (hi - lo <= 1)) as [Hle|Hgt].
  - exists lo, hi. split; [|repeat split; (done || lia)]. apply loop_stop. unfold binsearch_step. rewrite Z.gtb_ltb, (proj2 (Z.ltb_ge _ _)) by lia. done.
  - set (mid := lo + (hi - lo) / 2). assert (lo < mid < hi) as Hmid by (unfold mid; Z.to_euclidean_division_equations; lia).
    destruct (Hf mid ltac:(lia)) as (r & Hr & Hr0 & Hg). assert (binsearch_step f sz (lo, hi) = Ret (inl (if 0 <? r then (lo, mid) else (mid, hi)))) as Hstep.
    { unfold binsearch_step. rewrite Z.gtb_ltb, (proj2 (Z.ltb_lt _ _)) by lia. cbn [negb]. fold mid. rewrite Hr. run. rewrite (proj2 (Z.ltb_ge r 0)) by lia. rewrite Z.gtb_ltb. by destruct (0 <? r). }
    rewrite (loop_next _ _ _ _ Hstep). destruct (Z.ltb_spec 0 r) as [Hpos|Hzero].
    + destruct (IH lo mid) as (lo' & hi' & Hrun & ? & ? & ? & ? & ? & Hne); [lia|lia|lia| |done|right; by apply Hg|done|].
      { intros k Hk. apply (Hmono mid); [lia|lia|by apply Hg]. }
      exists lo', hi'. repeat split; (done || lia).
    + destruct (IH mid hi) as (lo' & hi' & Hrun & ? & ? & ? & ? & ? & Hne); [lia|lia|lia|done| |done|done|].
      { right. destruct (g mid) eqn:E; [|done]. pose proof (proj2 Hg eq_refl). lia. }
      exists lo', hi'. repeat split; (done || lia).
Qed.

Lemma binsearch_spec f (g : Z -> bool) sz :
  0 < sz -> (forall k, 0 <= k < sz -> exists r, f k = Ret r /\ 0 <= r /\ (0 < r <-> g k = true)) -> (forall i j, 0 <= i <= j -> j < sz -> g i = true -> g j = true) ->
  exists k, binsearch sz f = Ret k /\ 0 <= k <= sz /\ (forall i, 0 <= i < k -> g i = false) /\ (forall i, k <= i < sz -> g i = true).
Proof.
  intros Hsz Hf Hmono. destruct (binsearch_loop f g sz Hf (S (Z.to_nat sz)) 0 sz) as (lo & hi & Hrun & ? & ? & ? & Hlo & Hhi & Hne); [lia|lia|lia|lia|by left|by left|done|].
  assert (forall i, hi <= i < sz -> g i = true) as Hup by (intros i Hi; destruct Hhi as [->|Hhi]; [lia|apply (Hmono hi); (done || lia)]).
  unfold binsearch. rewrite Hrun. run. destruct (decide (lo = 0)) as [->|Hnz].
  - cbn [tru negb Z.eqb]. change (tru 0) with false. cbn [negb]. destruct (Hf 0 ltac:(lia)) as (r & -> & Hr0 & Hg). run. destruct (tru r) eqn:Er.
    + exists 0. apply tru_true in Er. split; [done|]. split; [lia|]. split; [lia|]. intros i Hi. apply (Hmono 0); [lia|lia|]. apply Hg. lia.
    + exists 1. apply tru_false in Er. subst r. assert (g 0 = false) as Hg0 by (destruct (g 0); [pose proof (proj2 Hg eq_refl); lia|done]). split; [done|]. split; [lia|].
      split; [intros i Hi; by assert (i = 0) as -> by lia|]. intros i Hi. apply Hup. lia.
  - rewrite (proj2 (tru_true _)) by done. exists hi. split; [done|]. split; [lia|]. split; [|done]. destruct Hlo as [?|Hlo]; [lia|].
    intros i Hi. destruct (g i) eqn:E; [|done]. rewrite (Hmono i lo) in Hlo; (done || lia).
Qed.

(** The length of the longest common prefix. *)
Fixpoint common_prefix (s t : list Z) : Z :=
  match s, t with x :: s, y :: t => if x =? y then 1 + common_prefix s t else 0 | _, _ => 0 end.

Lemma common_prefix_range s t : 0 <= common_prefix s t <= zlen s /\ common_prefix s t <= zlen t /\ take (Z.to_nat (common_prefix s t)) s = take (Z.to_nat (common_prefix s t)) t.
Proof.
  revert t. induction s as [|x s IH]; intros t.
  { pose proof (zlen_nonneg t). split; [done|]. by split. }
  pose proof (zlen_nonneg (x :: s)). destruct t as [|y t]; cbn [common_prefix]; [split; [lia|by split]|]. pose proof (zlen_nonneg (y :: t)). rewrite !zlen_cons in *.
  destruct (Z.eqb_spec x y) as [->|]; [|split; [lia|split; [lia|done]]]. destruct (IH t) as (? & ? & Heq). split; [lia|]. split; [lia|].
  replace (Z.to_nat (1 + common_prefix s t)) with (S (Z.to_nat (common_prefix s t))) by lia. cbn [take]. by rewrite Heq.
Qed.

Lemma common_prefix_spec a b s t : buf_rep a s -> buf_rep b t -> common_prefix_size a b = Ret (common_prefix s t).
Proof.
  intros Ha Hb. unfold common_prefix_size. pose proof Ha as [Hla _]. pose proof Hb as [Hlb _].
  assert (forall s2 t2 s1 t1 fuel, s = s1 ++ s2 -> t = t1 ++ t2 -> length s1 = length t1 -> (length s2 < fuel)%nat ->
    loop fuel (common_prefix_step a b) (zlen s1) = Ret (zlen s1 + common_prefix s2 t2)) as Hloop.
  { induction s2 as [|x s2 IH]; intros t2 s1 t1 fuel Hs Ht Hlen Hf; (destruct fuel as [|fuel]; [lia|]).
    - cbn [common_prefix]. rewrite Z.add_0_r. apply loop_stop. unfold common_prefix_step. rewrite (proj2 (Z.ltb_ge (zlen s1) (rb_len a))); [done|]. rewrite Hla, Hs, zlen_app, zlen_nil. lia.
    - pose proof (zlen_nonneg s2). assert ((zlen s1 <? rb_len a) = true) as Hlt by (apply Z.ltb_lt; rewrite Hla, Hs, zlen_app, zlen_cons; lia).
      destruct t2 as [|y t2].
      + cbn [common_prefix]. rewrite Z.add_0_r. apply loop_stop. unfold common_prefix_step. rewrite Hlt, (proj2 (Z.ltb_ge (zlen s1) (rb_len b))); [done|]. rewrite Hlb, Ht, zlen_app, zlen_nil. unfold zlen. lia.
      + pose proof (zlen_nonneg t2). assert ((zlen s1 <? rb_len b) = true) as Hlt' by (apply Z.ltb_lt; rewrite Hlb, Ht, zlen_app, zlen_cons; unfold zlen in *; lia).
        assert (common_prefix_step a b (zlen s1) = if x =? y then Ret (inl (zlen s1 + 1)) else Ret (inr (zlen s1))) as Hstep.
        { unfold common_prefix_step. rewrite Hlt, Hlt'. cbn [andb negb]. rewrite (buf_rep_rd a s (zlen s1) x Ha) by (apply zlen_nonneg || (rewrite Hs; unfold zlen; rewrite Nat2Z.id; by apply list_lookup_middle)). run.
          rewrite (buf_rep_rd b t (zlen s1) y Hb) by (apply zlen_nonneg || (rewrite Ht; unfold zlen; rewrite Nat2Z.id; by apply list_lookup_middle)). run. by destruct (x =? y). }
        cbn [common_prefix]. destruct (x =? y).
        * rewrite (loop_next _ _ _ _ Hstep). specialize (IH t2 (s1 ++ [x]) (t1 ++ [y]) fuel). rewrite zlen_app in IH. change (zlen [x]) with 1 in IH. rewrite IH; [f_equal; lia|rewrite Hs; same_list|rewrite Ht; same_list|rewrite !length_app; cbn; lia|cbn in Hf; lia].
        * rewrite Z.add_0_r. by apply loop_stop. }
  specialize (Hloop s t [] [] (S (Z.to_nat (rb_len a))) eq_refl eq_refl eq_refl). rewrite Hla in Hloop. unfold zlen in Hloop at 1. rewrite Nat2Z.id in Hloop. specialize (Hloop ltac:(lia)).
  change (zlen (@nil Z)) with 0 in Hloop. rewrite Hla. rewrite Hloop. done.
Qed.
