(* ===== verification/ReftableRecord.v ===== *)
(** reftable_record.c: the records of the reftable format, their keys, and how both
    are written into blocks and read back. *)
From S2P Require Import Prelude Headers Varint ReftableBasics.

(** * Headers *)

(** reftable-record.h, constants.h and basics.h: the kinds of values and of
    records, and big-endian integers. *)
Class RecordHeader := {
  REFTABLE_REF_DELETION : Z;
  REFTABLE_REF_VAL1 : Z;
  REFTABLE_REF_VAL2 : Z;
  REFTABLE_REF_SYMREF : Z;
  REFTABLE_LOG_DELETION : Z;
  REFTABLE_LOG_UPDATE : Z;
  BLOCK_TYPE_REF : Z;
  BLOCK_TYPE_LOG : Z;
  BLOCK_TYPE_OBJ : Z;
  BLOCK_TYPE_INDEX : Z;
  put_be64 : Z -> list Z;
  get_be64 : list Z -> Z;
  get_be16 : list Z -> Z;
}.

(** The 64 bits of a number, from the highest byte. *)
Fixpoint be_bytes (n : nat) (x : Z) : list Z := match n with O => [] | S n => be_bytes n (x / 256) ++ [x mod 256] end.

Class RecordHeaderOk `{RecordHeader} : Prop := {
  ref_kinds : NoDup [REFTABLE_REF_DELETION; REFTABLE_REF_VAL1; REFTABLE_REF_VAL2; REFTABLE_REF_SYMREF];
  ref_kinds_fit : Forall (fun t => 0 <= t < 8) [REFTABLE_REF_DELETION; REFTABLE_REF_VAL1; REFTABLE_REF_VAL2; REFTABLE_REF_SYMREF];
  log_kinds : REFTABLE_LOG_DELETION = 0 /\ REFTABLE_LOG_UPDATE = 1;
  block_types : NoDup [BLOCK_TYPE_REF; BLOCK_TYPE_LOG; BLOCK_TYPE_OBJ; BLOCK_TYPE_INDEX];
  put_be64_spec x : is_word x -> put_be64 x = be_bytes 8 x;
  get_be64_spec x : is_word x -> get_be64 (be_bytes 8 x) = x;
  get_be16_spec x : 0 <= x < 2 ^ 16 -> get_be16 (be16_bytes x) = x;
}.

(** [struct string_view] into a memory, and [string_view_consume]. *)
Record string_view := View { sv_buf : Z; sv_len : Z }.

Definition string_view_consume (v : string_view) (n : Z) : string_view := View (sv_buf v + n) (u64 (sv_len v - n)).

(** * Model *)

(** ** Integers, strings and keys *)

(** One round of [while (in->buf[ptr] & 0x80)] on [ptr] and [val]. *)
Definition get_step (mem : list Z) (v : string_view) (st : Z * Z) : outcome ((Z * Z) + (Z * Z + unit)) :=
  let '(ptr, val) := st in
  c ← rd mem (sv_buf v + ptr);
  if negb (tru (Z.land c 0x80)) then Ret (inr (inl (ptr, val))) else
  let ptr := ptr + 1 in
  if ptr >? sv_len v then Ret (inr (inr tt)) else
  c ← rd mem (sv_buf v + ptr);
  Ret (inl (ptr, Z.lor (u64 (Z.shiftl (u64 (val + 1)) 7)) (Z.land c 0x7f))).

(** The number of bytes and the value. *)
Definition get_var_int (mem : list Z) (v : string_view) : outcome (Z * Z) :=
  if sv_len v =? 0 then Err Error else
  c ← rd mem (sv_buf v);
  r ← loop (S (S (Z.to_nat (sv_len v)))) (get_step mem v) (0, Z.land c 0x7f);
  match r with inr _ => Err Error | inl (ptr, val) => Ret (ptr + 1, val) end.

(** One round of [while (1)] on [val], [buf] and [i]. *)
Definition put_step (st : Z * list Z * Z) : outcome ((Z * list Z * Z) + (list Z * Z)) :=
  let '(val, buf, i) := st in
  let val := Z.shiftr val 7 in
  if negb (tru val) then Ret (inr (buf, i)) else
  let val := val - 1 in
  buf ← wr buf i (u8 (Z.lor 0x80 (Z.land val 0x7f)));
  Ret (inl (val, buf, i - 1)).

(** The memory and the number of bytes; [Err] for -1. *)
Definition put_var_int (mem : list Z) (v : string_view) (val : Z) : outcome (list Z * Z) :=
  buf ← wr (replicate 10 0) 9 (u8 (Z.land val 0x7f));
  '(buf, i) ← loop 10 put_step (val, buf, 9 - 1);
  let n := 10 - i - 1 in
  if sv_len v <? n then Err Error else
  xs ← rd_range buf (i + 1) n;
  mem ← wr_range mem (sv_buf v) xs;
  Ret (mem, n).

Definition encode_string (mem : list Z) (str : list Z) (s : string_view) : outcome (list Z * Z) :=
  let start := s in
  let l := i32 (zlen str) in
  '(mem, n) ← put_var_int mem s (u64 l);
  let s := string_view_consume s n in
  if sv_len s <? u64 l then Err Error else
  xs ← rd_range str 0 l;
  mem ← wr_range mem (sv_buf s) xs;
  let s := string_view_consume s l in
  Ret (mem, i32 (u64 (sv_len start - sv_len s))).

Section model.
Context `{ReftableHeader} `{RecordHeader}.

Definition decode_string (mem : list Z) (dest : reftable_buf) (in_ : string_view) : outcome (reftable_buf * Z) :=
  let start_len := i32 (sv_len in_) in
  '(n, tsize) ← get_var_int mem in_;
  if n <=? 0 then Err Error else
  let in_ := string_view_consume in_ n in
  if sv_len in_ <? tsize then Err Error else
  dest ← reftable_buf_reset dest;
  xs ← rd_range mem (sv_buf in_) tsize;
  dest ← reftable_buf_add dest xs;
  let in_ := string_view_consume in_ tsize in
  Ret (dest, i32 (u64 (start_len - sv_len in_))).

(** The memory, [*restart] and the length. *)
Definition reftable_encode_key (mem : list Z) (dest : string_view) (prev_key key : reftable_buf) (extra : Z) : outcome (list Z * bool * Z) :=
  let start := dest in
  prefix_len ← common_prefix_size prev_key key;
  let suffix_len := u64 (rb_len key - prefix_len) in
  '(mem, n) ← put_var_int mem dest prefix_len;
  let dest := string_view_consume dest n in
  let restart := prefix_len =? 0 in
  '(mem, n) ← put_var_int mem dest (Z.lor (u64 (Z.shiftl suffix_len 3)) extra);
  let dest := string_view_consume dest n in
  if sv_len dest <? suffix_len then Err Error else
  xs ← rd_range (rb_buf key) prefix_len suffix_len;
  mem ← wr_range mem (sv_buf dest) xs;
  let dest := string_view_consume dest suffix_len in
  Ret (mem, restart, i32 (u64 (sv_len start - sv_len dest))).

(** The length of the two lengths, the prefix, the suffix and [extra]. *)
Definition reftable_decode_keylen (mem : list Z) (in_ : string_view) : outcome (Z * Z * Z * Z) :=
  let start_len := sv_len in_ in
  '(n, prefix_len) ← get_var_int mem in_;
  let in_ := string_view_consume in_ n in
  '(n, suffix_len) ← get_var_int mem in_;
  if n <=? 0 then Err Error else
  let in_ := string_view_consume in_ n in
  Ret (i32 (u64 (start_len - sv_len in_)), prefix_len, Z.shiftr suffix_len 3, Z.land suffix_len 0x7).

Definition reftable_decode_key (mem : list Z) (last_key : reftable_buf) (in_ : string_view) : outcome (reftable_buf * Z * Z) :=
  let start_len := i32 (sv_len in_) in
  '(n, prefix_len, suffix_len, extra) ← reftable_decode_keylen mem in_;
  let in_ := string_view_consume in_ n in
  if (sv_len in_ <? suffix_len) || (prefix_len >? rb_len last_key) then Err Error else
  last_key ← reftable_buf_setlen last_key prefix_len;
  xs ← rd_range mem (sv_buf in_) suffix_len;
  last_key ← reftable_buf_add last_key xs;
  let in_ := string_view_consume in_ suffix_len in
  Ret (last_key, extra, i32 (u64 (start_len - sv_len in_))).

(** ** Records *)

(** [REFTABLE_ALLOC_GROW] of a string: the new capacity. *)
Definition grow_cap (nr cap : Z) : outcome Z :=
  if nr >? cap then (if can_alloc (grow_to nr cap) then Ret (grow_to nr cap) else Err NoMem) else Ret cap.

(** [REFTABLE_ALLOC_ARRAY] of [n] elements of [size] bytes. *)
Definition alloc_array (n size : Z) : outcome unit :=
  if negb (tru n) then Err NoMem else if can_alloc (n * size) then Ret tt else Err NoMem.

(** A reference: deleted, a hash, a tag's hash and its target, or the name of another one. *)
Inductive ref_value := RefDeletion | RefVal1 (val1 : list Z) | RefVal2 (value target_value : list Z) | RefSymref (symref : list Z).
Record ref_record := RefRecord { rr_refname : list Z; rr_refname_cap : Z; rr_update_index : Z; rr_value : ref_value }.

Definition reftable_ref_record_val_type (r : ref_record) : Z :=
  match rr_value r with
  | RefDeletion => REFTABLE_REF_DELETION
  | RefVal1 _ => REFTABLE_REF_VAL1
  | RefVal2 _ _ => REFTABLE_REF_VAL2
  | RefSymref _ => REFTABLE_REF_SYMREF
  end.

Definition reftable_ref_record_key (r : ref_record) (dest : reftable_buf) : outcome reftable_buf :=
  dest ← reftable_buf_reset dest; reftable_buf_addstr dest (rr_refname r).

Definition reftable_ref_record_encode (mem : list Z) (r : ref_record) (s : string_view) (hash_size : Z) : outcome (list Z * Z) :=
  if hash_size <=? 0 then Err Bug else
  let start := s in
  '(mem, n) ← put_var_int mem s (rr_update_index r);
  let s := string_view_consume s n in
  '(mem, s) ←
    (match rr_value r with
     | RefSymref symref =>
         '(mem, n) ← encode_string mem symref s;
         Ret (mem, string_view_consume s n)
     | RefVal2 value target_value =>
         if sv_len s <? 2 * hash_size then Err Error else
         xs ← rd_range value 0 hash_size; mem ← wr_range mem (sv_buf s) xs;
         let s := string_view_consume s hash_size in
         xs ← rd_range target_value 0 hash_size; mem ← wr_range mem (sv_buf s) xs;
         Ret (mem, string_view_consume s hash_size)
     | RefVal1 val1 =>
         if sv_len s <? hash_size then Err Error else
         xs ← rd_range val1 0 hash_size; mem ← wr_range mem (sv_buf s) xs;
         Ret (mem, string_view_consume s hash_size)
     | RefDeletion => Ret (mem, s)
     end);
  Ret (mem, i32 (u64 (sv_len start - sv_len s))).

(** The switch over the kinds: the value, the view behind it and the scratch buffer. *)
Definition ref_decode_value (mem : list Z) (val_type : Z) (in_ : string_view) (hash_size : Z) (scratch : reftable_buf) : outcome (ref_value * string_view * reftable_buf) :=
  if val_type =? REFTABLE_REF_VAL1 then
    if sv_len in_ <? hash_size then Err Error else
    xs ← rd_range mem (sv_buf in_) hash_size;
    Ret (RefVal1 xs, string_view_consume in_ hash_size, scratch)
  else if val_type =? REFTABLE_REF_VAL2 then
    if sv_len in_ <? 2 * hash_size then Err Error else
    xs ← rd_range mem (sv_buf in_) hash_size;
    let in_ := string_view_consume in_ hash_size in
    ys ← rd_range mem (sv_buf in_) hash_size;
    Ret (RefVal2 xs ys, string_view_consume in_ hash_size, scratch)
  else if val_type =? REFTABLE_REF_SYMREF then
    '(scratch, n) ← decode_string mem scratch in_;
    let '(symref, scratch) := reftable_buf_detach scratch in
    Ret (RefSymref (c_string symref), string_view_consume in_ n, scratch)
  else if val_type =? REFTABLE_REF_DELETION then Ret (RefDeletion, in_, scratch)
  else Err Bug.

(** The record, the scratch buffer and the length. *)
Definition reftable_ref_record_decode (mem : list Z) (r : ref_record) (key : reftable_buf) (val_type : Z) (in_ : string_view) (hash_size : Z)
    (scratch : reftable_buf) : outcome (ref_record * reftable_buf * Z) :=
  if hash_size <=? 0 then Err Bug else
  let start := in_ in
  '(n, update_index) ← get_var_int mem in_;
  let in_ := string_view_consume in_ n in
  refname_cap ← grow_cap (rb_len key + 1) (rr_refname_cap r);
  xs ← rd_range (rb_buf key) 0 (rb_len key);
  let refname := c_string (xs ++ [0]) in
  '(value, in_, scratch) ← ref_decode_value mem val_type in_ hash_size scratch;
  Ret (RefRecord refname refname_cap update_index value, scratch, i32 (u64 (sv_len start - sv_len in_))).

(** Where the objects are whose names start with a prefix. *)
Record obj_record := ObjRecord { or_hash_prefix : list Z; or_offsets : list Z }.

Definition offset_len (r : obj_record) : Z := zlen (or_offsets r).

Definition reftable_obj_record_val_type (r : obj_record) : Z := if (offset_len r >? 0) && (offset_len r <? 8) then offset_len r else 0.

Definition reftable_obj_record_key (r : obj_record) (dest : reftable_buf) : outcome reftable_buf :=
  dest ← reftable_buf_reset dest; reftable_buf_add dest (or_hash_prefix r).

(** The body of the loop on the memory, the view and [last]. *)
Definition put_offset_step (r : obj_record) (i : Z) (st : list Z * string_view * Z) : outcome (list Z * string_view * Z) :=
  let '(mem, s, last) := st in
  o ← rd (or_offsets r) i;
  '(mem, n) ← put_var_int mem s (u64 (o - last));
  Ret (mem, string_view_consume s n, o).

Definition reftable_obj_record_encode (mem : list Z) (r : obj_record) (s : string_view) : outcome (list Z * Z) :=
  let start := s in
  '(mem, s) ←
    (if (offset_len r =? 0) || (offset_len r >=? 8) then
       '(mem, n) ← put_var_int mem s (offset_len r); Ret (mem, string_view_consume s n)
     else Ret (mem, s));
  if offset_len r =? 0 then Ret (mem, i32 (u64 (sv_len start - sv_len s))) else
  o ← rd (or_offsets r) 0;
  '(mem, n) ← put_var_int mem s o;
  let s := string_view_consume s n in
  '(mem, s, _) ← for_n (Z.to_nat (offset_len r - 1)) 1 (put_offset_step r) (mem, s, o);
  Ret (mem, i32 (u64 (sv_len start - sv_len s))).

Definition get_offset_step (mem : list Z) (j : Z) (st : list Z * string_view * Z) : outcome (list Z * string_view * Z) :=
  let '(offsets, in_, last) := st in
  '(n, delta) ← get_var_int mem in_;
  let in_ := string_view_consume in_ n in
  let last := u64 (delta + last) in
  offsets ← wr offsets j last;
  Ret (offsets, in_, last).

Definition reftable_obj_record_decode (mem : list Z) (key : reftable_buf) (val_type : Z) (in_ : string_view) : outcome (obj_record * Z) :=
  let start := in_ in
  _ ← alloc_array (rb_len key) 1;
  hash_prefix ← rd_range (rb_buf key) 0 (rb_len key);
  '(count, in_) ←
    (if val_type =? 0 then '(n, count) ← get_var_int mem in_; Ret (count, string_view_consume in_ n) else Ret (val_type, in_));
  if count =? 0 then Ret (ObjRecord hash_prefix [], i32 (u64 (sv_len start - sv_len in_))) else
  _ ← alloc_array count 8;
  '(n, first) ← get_var_int mem in_;
  offsets ← wr (replicate (Z.to_nat count) fresh) 0 first;
  let in_ := string_view_consume in_ n in
  '(offsets, in_, _) ← for_n (Z.to_nat (count - 1)) 1 (get_offset_step mem) (offsets, in_, first);
  Ret (ObjRecord hash_prefix offsets, i32 (u64 (sv_len start - sv_len in_))).

(** The last key of a block and where the block is. *)
Record index_record := IndexRecord { ir_last_key : reftable_buf; ir_offset : Z }.

Definition reftable_index_record_val_type (r : index_record) : Z := 0.

Definition reftable_index_record_key (r : index_record) (dest : reftable_buf) : outcome reftable_buf :=
  dest ← reftable_buf_reset dest; xs ← rd_range (rb_buf (ir_last_key r)) 0 (rb_len (ir_last_key r)); reftable_buf_add dest xs.

Definition reftable_index_record_encode (mem : list Z) (r : index_record) (out : string_view) : outcome (list Z * Z) :=
  let start := out in
  '(mem, n) ← put_var_int mem out (ir_offset r);
  let out := string_view_consume out n in
  Ret (mem, i32 (u64 (sv_len start - sv_len out))).

Definition reftable_index_record_decode (mem : list Z) (r : index_record) (key : reftable_buf) (in_ : string_view) : outcome (index_record * Z) :=
  let start := in_ in
  last_key ← reftable_buf_reset (ir_last_key r);
  xs ← rd_range (rb_buf key) 0 (rb_len key);
  last_key ← reftable_buf_add last_key xs;
  '(n, offset) ← get_var_int mem in_;
  let in_ := string_view_consume in_ n in
  Ret (IndexRecord last_key offset, i32 (u64 (sv_len start - sv_len in_))).

(** An entry of the log of a reference; [None] is a NULL string. *)
Record log_update := LogUpdate {
  lu_new_hash : list Z; lu_old_hash : list Z; lu_name : option (list Z); lu_email : option (list Z);
  lu_time : Z; lu_tz_offset : Z; lu_message : option (list Z); lu_message_cap : Z }.
Record log_record := LogRecord { lr_refname : list Z; lr_refname_cap : Z; lr_update_index : Z; lr_value_type : Z; lr_update : log_update }.

Definition reftable_log_record_is_deletion (r : log_record) : bool := lr_value_type r =? REFTABLE_LOG_DELETION.

Definition reftable_log_record_val_type (r : log_record) : Z := if reftable_log_record_is_deletion r then 0 else 1.

Definition reftable_log_record_key (r : log_record) (dest : reftable_buf) : outcome reftable_buf :=
  dest ← reftable_buf_reset dest;
  dest ← reftable_buf_add dest (lr_refname r ++ [0]);
  let ts := u64 (wnot 0 - lr_update_index r) in
  reftable_buf_add dest (put_be64 ts).

Definition reftable_log_record_encode (mem : list Z) (r : log_record) (s : string_view) (hash_size : Z) : outcome (list Z * Z) :=
  let start := s in
  let u := lr_update r in
  if reftable_log_record_is_deletion r then Ret (mem, 0) else
  if sv_len s <? 2 * hash_size then Err Error else
  xs ← rd_range (lu_old_hash u) 0 hash_size; mem ← wr_range mem (sv_buf s) xs;
  xs ← rd_range (lu_new_hash u) 0 hash_size; mem ← wr_range mem (sv_buf s + hash_size) xs;
  let s := string_view_consume s (2 * hash_size) in
  '(mem, n) ← encode_string mem (default [] (lu_name u)) s;
  let s := string_view_consume s n in
  '(mem, n) ← encode_string mem (default [] (lu_email u)) s;
  let s := string_view_consume s n in
  '(mem, n) ← put_var_int mem s (lu_time u);
  let s := string_view_consume s n in
  if sv_len s <? 2 then Err Error else
  mem ← put_be16 mem (sv_buf s) (lu_tz_offset u mod 2 ^ 16);
  let s := string_view_consume s 2 in
  '(mem, n) ← encode_string mem (default [] (lu_message u)) s;
  let s := string_view_consume s n in
  Ret (mem, i32 (u64 (sv_len start - sv_len s))).

(** The string is kept when it is the one read, and reallocated otherwise. *)
Definition keep_string (old : option (list Z)) (scratch : reftable_buf) : outcome (list Z) :=
  let str := c_string (rb_buf scratch) in
  if (match old with None => true | Some o => tru (bytes_cmp o str) end) then
    p ← reftable_realloc [] (rb_len scratch + 1);
    xs ← rd_range (rb_buf scratch) 0 (rb_len scratch);
    Ret (c_string (xs ++ [0]))
  else Ret (default [] old).

Definition s16 (x : Z) : Z := (x + 2 ^ 15) mod 2 ^ 16 - 2 ^ 15.

(** The hashes, strings and numbers of an update: the update, the view behind it and
    the scratch buffer. *)
Definition log_decode_update (mem : list Z) (u : log_update) (in_ : string_view) (hash_size : Z) (scratch : reftable_buf) : outcome (log_update * string_view * reftable_buf) :=
  if sv_len in_ <? 2 * hash_size then Err Error else
  old_hash ← rd_range mem (sv_buf in_) hash_size;
  new_hash ← rd_range mem (sv_buf in_ + hash_size) hash_size;
  let in_ := string_view_consume in_ (2 * hash_size) in
  '(scratch, n) ← decode_string mem scratch in_;
  let in_ := string_view_consume in_ n in
  name ← keep_string (lu_name u) scratch;
  '(scratch, n) ← decode_string mem scratch in_;
  let in_ := string_view_consume in_ n in
  email ← keep_string (lu_email u) scratch;
  '(n, time) ← get_var_int mem in_;
  let in_ := string_view_consume in_ n in
  if sv_len in_ <? 2 then Err Error else
  tz ← rd_range mem (sv_buf in_) 2;
  let in_ := string_view_consume in_ 2 in
  '(scratch, n) ← decode_string mem scratch in_;
  let in_ := string_view_consume in_ n in
  message_cap ← grow_cap (rb_len scratch + 1) (lu_message_cap u);
  xs ← rd_range (rb_buf scratch) 0 (rb_len scratch);
  let message := c_string (xs ++ [0]) in
  Ret (LogUpdate new_hash old_hash (Some name) (Some email) time (s16 (get_be16 tz)) (Some message) message_cap, in_, scratch).

Definition reftable_log_record_decode (mem : list Z) (r : log_record) (key : reftable_buf) (val_type : Z) (in_ : string_view) (hash_size : Z)
    (scratch : reftable_buf) : outcome (log_record * reftable_buf * Z) :=
  let start := in_ in
  if rb_len key <=? 9 then Err Error else
  c ← rd (rb_buf key) (rb_len key - 9);
  if tru c then Err Error else
  refname_cap ← grow_cap (rb_len key - 8) (lr_refname_cap r);
  xs ← rd_range (rb_buf key) 0 (rb_len key - 8);
  let refname := c_string xs in
  ts ← rd_range (rb_buf key) (rb_len key - 8) 8;
  let update_index := u64 (wnot 0 - get_be64 ts) in
  let u := lr_update r in
  let u := if negb (val_type =? lr_value_type r) && (lr_value_type r =? REFTABLE_LOG_UPDATE)
           then LogUpdate (lu_new_hash u) (lu_old_hash u) None None (lu_time u) (lu_tz_offset u) None 0 else u in
  if val_type =? REFTABLE_LOG_DELETION then Ret (LogRecord refname refname_cap update_index val_type u, scratch, 0) else
  '(u, in_, scratch) ← log_decode_update mem u in_ hash_size scratch;
  Ret (LogRecord refname refname_cap update_index val_type u, scratch, i32 (u64 (sv_len start - sv_len in_))).

(** ** Copies *)

Definition strdup_string (s : list Z) : outcome (list Z) := p ← reftable_strdup s; Ret (c_string p).

Definition reftable_ref_record_copy_from (ref src : ref_record) (hash_size : Z) : outcome ref_record :=
  if hash_size <=? 0 then Err Bug else
  refname_cap ← grow_cap (zlen (rr_refname src) + 1) (rr_refname_cap ref);
  value ←
    (match rr_value src with
     | RefDeletion => Ret RefDeletion
     | RefVal1 val1 => xs ← rd_range val1 0 hash_size; Ret (RefVal1 xs)
     | RefVal2 value target_value => xs ← rd_range value 0 hash_size; ys ← rd_range target_value 0 hash_size; Ret (RefVal2 xs ys)
     | RefSymref symref => s ← strdup_string symref; Ret (RefSymref s)
     end);
  Ret (RefRecord (rr_refname src) refname_cap (rr_update_index src) value).

Definition reftable_obj_record_copy_from (src : obj_record) : outcome obj_record :=
  _ ← alloc_array (zlen (or_hash_prefix src)) 1;
  _ ← alloc_array (offset_len src) 8;
  Ret (ObjRecord (or_hash_prefix src) (or_offsets src)).

Definition strdup_text (s : option (list Z)) : outcome (list Z) := match s with Some s => strdup_string s | None => Err NoMem end.

(** The capacities are those of the source. *)
Definition reftable_log_record_copy_from (src : log_record) : outcome log_record :=
  refname ← strdup_string (lr_refname src);
  let u := lr_update src in
  u ← (if lr_value_type src =? REFTABLE_LOG_UPDATE then
         email ← strdup_text (lu_email u); name ← strdup_text (lu_name u); message ← strdup_text (lu_message u);
         Ret (LogUpdate (lu_new_hash u) (lu_old_hash u) (Some name) (Some email) (lu_time u) (lu_tz_offset u) (Some message) (lu_message_cap u))
       else Ret u);
  Ret (LogRecord refname (lr_refname_cap src) (lr_update_index src) (lr_value_type src) u).

Definition reftable_index_record_copy_from (dst src : index_record) : outcome index_record :=
  last_key ← reftable_buf_reset (ir_last_key dst);
  xs ← rd_range (rb_buf (ir_last_key src)) 0 (rb_len (ir_last_key src));
  last_key ← reftable_buf_add last_key xs;
  Ret (IndexRecord last_key (ir_offset src)).

(** ** Comparisons *)

Definition null_streq (a b : option (list Z)) : bool := bytes_cmp (default [] a) (default [] b) =? 0.

(** [memcmp] of [n] bytes. *)
Definition memcmp (a b : list Z) (n : Z) : outcome Z := x ← rd_range a 0 n; y ← rd_range b 0 n; Ret (bytes_cmp x y).

Definition reftable_ref_record_equal (a b : ref_record) (hash_size : Z) : outcome bool :=
  if hash_size <=? 0 then Err Bug else
  if negb (null_streq (Some (rr_refname a)) (Some (rr_refname b))) then Ret false else
  if negb (rr_update_index a =? rr_update_index b) || negb (reftable_ref_record_val_type a =? reftable_ref_record_val_type b) then Ret false else
  match rr_value a, rr_value b with
  | RefSymref s, RefSymref t => Ret (bytes_cmp s t =? 0)
  | RefVal2 v t, RefVal2 v' t' => c ← memcmp v v' hash_size; if tru c then Ret false else c ← memcmp t t' hash_size; Ret (negb (tru c))
  | RefVal1 v, RefVal1 v' => c ← memcmp v v' hash_size; Ret (negb (tru c))
  | RefDeletion, RefDeletion => Ret true
  | _, _ => Ret false
  end.

Definition reftable_obj_record_equal_void (a b : obj_record) : outcome bool :=
  if negb (zlen (or_hash_prefix a) =? zlen (or_hash_prefix b)) || negb (offset_len a =? offset_len b) then Ret false else
  c ← (if tru (zlen (or_hash_prefix a)) then memcmp (or_hash_prefix a) (or_hash_prefix b) (zlen (or_hash_prefix a)) else Ret 0);
  if tru c then Ret false else
  Ret (bool_decide (or_offsets a = or_offsets b)).

Definition reftable_index_record_equal (a b : index_record) : outcome bool :=
  if negb (ir_offset a =? ir_offset b) then Ret false else
  c ← reftable_buf_cmp (ir_last_key a) (ir_last_key b); Ret (negb (tru c)).

Definition reftable_log_record_equal (a b : log_record) (hash_size : Z) : outcome bool :=
  let u := lr_update a in let w := lr_update b in
  if negb (null_streq (Some (lr_refname a)) (Some (lr_refname b)) && (lr_update_index a =? lr_update_index b) && (lr_value_type a =? lr_value_type b)) then Ret false else
  if lr_value_type a =? REFTABLE_LOG_DELETION then Ret true else
  if lr_value_type a =? REFTABLE_LOG_UPDATE then
    if negb (null_streq (lu_name u) (lu_name w) && (lu_time u =? lu_time w) && (lu_tz_offset u =? lu_tz_offset w) && null_streq (lu_email u) (lu_email w) &&
             null_streq (lu_message u) (lu_message w)) then Ret false else
    c ← memcmp (lu_old_hash u) (lu_old_hash w) hash_size; if tru c then Ret false else
    c ← memcmp (lu_new_hash u) (lu_new_hash w) hash_size; Ret (negb (tru c))
  else Err Bug.

Definition reftable_ref_record_cmp_void (a b : ref_record) : Z := bytes_cmp (rr_refname a) (rr_refname b).

(** The length compared is the longer one. *)
Definition reftable_obj_record_cmp_void (a b : obj_record) : outcome Z :=
  let la := zlen (or_hash_prefix a) in let lb := zlen (or_hash_prefix b) in
  cmp ← memcmp (or_hash_prefix a) (or_hash_prefix b) (if la >? lb then la else lb);
  if tru cmp then Ret cmp else Ret (la - lb).

Definition reftable_index_record_cmp (a b : index_record) : outcome Z := reftable_buf_cmp (ir_last_key a) (ir_last_key b).

(** The difference of the indices is cut to an int. *)
Definition reftable_log_record_cmp_void (a b : log_record) : Z :=
  let cmp := bytes_cmp (lr_refname a) (lr_refname b) in
  if tru cmp then cmp else i32 (u64 (lr_update_index b - lr_update_index a)).

Definition reftable_log_record_compare_key (a b : log_record) : Z :=
  let cmp := bytes_cmp (lr_refname a) (lr_refname b) in
  if tru cmp then cmp else
  if lr_update_index a >? lr_update_index b then -1 else if lr_update_index a <? lr_update_index b then 1 else 0.

Definition reftable_is_block_type (typ : Z) : bool := (typ =? BLOCK_TYPE_REF) || (typ =? BLOCK_TYPE_LOG) || (typ =? BLOCK_TYPE_OBJ) || (typ =? BLOCK_TYPE_INDEX).

(** The name's object and a tag's target, [None] for NULL. *)
Definition reftable_ref_record_val1 (r : ref_record) : option (list Z) := match rr_value r with RefVal1 v | RefVal2 v _ => Some v | _ => None end.
Definition reftable_ref_record_val2 (r : ref_record) : option (list Z) := match rr_value r with RefVal2 _ t => Some t | _ => None end.

Definition reftable_ref_record_compare_name (a b : ref_record) : Z := bytes_cmp (rr_refname a) (rr_refname b).

Definition reftable_ref_record_is_deletion (ref : ref_record) : bool := reftable_ref_record_val_type ref =? REFTABLE_REF_DELETION.

(** ** All records *)

Inductive reftable_record := RecRef (r : ref_record) | RecLog (r : log_record) | RecObj (r : obj_record) | RecIndex (r : index_record).

Definition reftable_record_type (rec : reftable_record) : Z :=
  match rec with RecRef _ => BLOCK_TYPE_REF | RecLog _ => BLOCK_TYPE_LOG | RecObj _ => BLOCK_TYPE_OBJ | RecIndex _ => BLOCK_TYPE_INDEX end.

Definition reftable_record_key (rec : reftable_record) (dest : reftable_buf) : outcome reftable_buf :=
  match rec with
  | RecRef r => reftable_ref_record_key r dest
  | RecLog r => reftable_log_record_key r dest
  | RecObj r => reftable_obj_record_key r dest
  | RecIndex r => reftable_index_record_key r dest
  end.

Definition reftable_record_val_type (rec : reftable_record) : Z :=
  match rec with
  | RecRef r => reftable_ref_record_val_type r
  | RecLog r => reftable_log_record_val_type r
  | RecObj r => reftable_obj_record_val_type r
  | RecIndex r => reftable_index_record_val_type r
  end.

Definition reftable_record_encode (mem : list Z) (rec : reftable_record) (dest : string_view) (hash_size : Z) : outcome (list Z * Z) :=
  match rec with
  | RecRef r => reftable_ref_record_encode mem r dest hash_size
  | RecLog r => reftable_log_record_encode mem r dest hash_size
  | RecObj r => reftable_obj_record_encode mem r dest
  | RecIndex r => reftable_index_record_encode mem r dest
  end.

Definition reftable_record_decode (mem : list Z) (rec : reftable_record) (key : reftable_buf) (extra : Z) (src : string_view) (hash_size : Z)
    (scratch : reftable_buf) : outcome (reftable_record * reftable_buf * Z) :=
  match rec with
  | RecRef r => '(r, scratch, n) ← reftable_ref_record_decode mem r key extra src hash_size scratch; Ret (RecRef r, scratch, n)
  | RecLog r => '(r, scratch, n) ← reftable_log_record_decode mem r key extra src hash_size scratch; Ret (RecLog r, scratch, n)
  | RecObj r => '(r, n) ← reftable_obj_record_decode mem key extra src; Ret (RecObj r, scratch, n)
  | RecIndex r => '(r, n) ← reftable_index_record_decode mem r key src; Ret (RecIndex r, scratch, n)
  end.

Definition reftable_record_copy_from (rec src : reftable_record) (hash_size : Z) : outcome reftable_record :=
  match rec, src with
  | RecRef rec, RecRef src => r ← reftable_ref_record_copy_from rec src hash_size; Ret (RecRef r)
  | RecLog _, RecLog src => r ← reftable_log_record_copy_from src; Ret (RecLog r)
  | RecObj _, RecObj src => r ← reftable_obj_record_copy_from src; Ret (RecObj r)
  | RecIndex rec, RecIndex src => r ← reftable_index_record_copy_from rec src; Ret (RecIndex r)
  | _, _ => Err Bug
  end.

(** An empty record of a type. *)
Definition reftable_record_init (typ : Z) : outcome reftable_record :=
  if typ =? BLOCK_TYPE_REF then Ret (RecRef (RefRecord [] 0 0 RefDeletion)) else
  if typ =? BLOCK_TYPE_LOG then Ret (RecLog (LogRecord [] 0 0 0 (LogUpdate [] [] None None 0 0 None 0))) else
  if typ =? BLOCK_TYPE_OBJ then Ret (RecObj (ObjRecord [] [])) else
  if typ =? BLOCK_TYPE_INDEX then Ret (RecIndex (IndexRecord reftable_buf_init 0)) else
  Err Bug.

Definition reftable_record_equal (a b : reftable_record) (hash_size : Z) : outcome bool :=
  match a, b with
  | RecRef a, RecRef b => reftable_ref_record_equal a b hash_size
  | RecLog a, RecLog b => reftable_log_record_equal a b hash_size
  | RecObj a, RecObj b => reftable_obj_record_equal_void a b
  | RecIndex a, RecIndex b => reftable_index_record_equal a b
  | _, _ => Ret false
  end.

Definition reftable_record_is_deletion (rec : reftable_record) : bool :=
  match rec with
  | RecRef r => reftable_ref_record_is_deletion r
  | RecLog r => reftable_log_record_is_deletion r
  | RecObj _ | RecIndex _ => false
  end.

Definition reftable_record_cmp (a b : reftable_record) : outcome Z :=
  match a, b with
  | RecRef a, RecRef b => Ret (reftable_ref_record_cmp_void a b)
  | RecLog a, RecLog b => Ret (reftable_log_record_cmp_void a b)
  | RecObj a, RecObj b => reftable_obj_record_cmp_void a b
  | RecIndex a, RecIndex b => reftable_index_record_cmp a b
  | _, _ => Err Bug
  end.
End model.

(** * Writing and reading at a view *)

(** [f] writes [out] at the start of the view if there is room, and nothing else. *)
Definition writes (f : list Z -> string_view -> outcome (list Z * Z)) (out : list Z) : Prop :=
  forall pre room post, zlen room < 2 ^ 31 ->
    f (pre ++ room ++ post) (View (zlen pre) (zlen room)) =
      if zlen room <? zlen out then Err Error else Ret (pre ++ out ++ drop (length out) room ++ post, zlen out).

(** [f] reads [out] from the start of the view, whatever follows. *)
Definition reads {A} (f : list Z -> string_view -> outcome A) (out : list Z) (res : A) : Prop :=
  forall pre rest post, zlen (out ++ rest) < 2 ^ 31 -> f (pre ++ out ++ rest ++ post) (View (zlen pre) (zlen (out ++ rest))) = Ret res.

Section views.
Implicit Types (pre room post out rest : list Z).

Lemma zlen_drop room n : (n <= length room)%nat -> zlen (drop n room) = zlen room - Z.of_nat n.
Proof. intros. unfold zlen. rewrite length_drop. lia. Qed.

Lemma consume_view pre room out : zlen out <= zlen room < 2 ^ 31 ->
  string_view_consume (View (zlen pre) (zlen room)) (zlen out) = View (zlen (pre ++ out)) (zlen (drop (length out) room)).
Proof.
  intros Hlen. pose proof (zlen_nonneg out). unfold string_view_consume. cbn [sv_buf sv_len]. rewrite zlen_app, u64_small by lia. f_equal.
  rewrite zlen_drop by (unfold zlen in *; lia). done.
Qed.

Lemma consume_view_rest pre out rest : zlen (out ++ rest) < 2 ^ 31 ->
  string_view_consume (View (zlen pre) (zlen (out ++ rest))) (zlen out) = View (zlen (pre ++ out)) (zlen rest).
Proof. intros Hlen. rewrite consume_view by (rewrite zlen_app in *; pose proof (zlen_nonneg rest); lia). by rewrite drop_app_length. Qed.

(** A read in a memory [mem] with the bytes [out] at the view. *)
Lemma reads_go {A} (f : list Z -> string_view -> outcome A) out res mem pre rest post :
  reads f out res -> mem = pre ++ out ++ rest ++ post -> zlen (out ++ rest) < 2 ^ 31 -> f mem (View (zlen pre) (zlen (out ++ rest))) = Ret res.
Proof. intros Hf -> Hlen. by apply Hf. Qed.

(** A write followed by the rest of the function. *)
Lemma writes_next {A} f out (k : list Z -> Z -> outcome A) pre room post : writes f out -> zlen room < 2 ^ 31 ->
  ('(mem, n) ← f (pre ++ room ++ post) (View (zlen pre) (zlen room)); k mem n) =
    if zlen room <? zlen out then Err Error else k ((pre ++ out) ++ drop (length out) room ++ post) (zlen out).
Proof. intros Hf Hroom. rewrite Hf by done. case_if; run; [done|]. by rewrite <-app_assoc. Qed.

(** [memcpy] into the view. *)
Lemma wr_view pre room post out : zlen out <= zlen room -> wr_range (pre ++ room ++ post) (zlen pre) out = Ret ((pre ++ out) ++ drop (length out) room ++ post).
Proof.
  intros Hlen. pose proof (zlen_nonneg pre). pose proof (zlen_nonneg post). rewrite wr_range_in by (rewrite ?zlen_app; lia). destruct (take_drop_zlen pre (room ++ post)) as [-> _].
  replace (Z.to_nat (zlen pre + zlen out)) with (length pre + length out)%nat by (unfold zlen; lia). rewrite drop_app_add, drop_app_le by (unfold zlen in *; lia). by rewrite <-app_assoc.
Qed.

Lemma rd_view pre out rest : rd_range (pre ++ out ++ rest) (zlen pre) (zlen out) = Ret out.
Proof.
  pose proof (zlen_nonneg pre). pose proof (zlen_nonneg out). pose proof (zlen_nonneg rest). rewrite rd_range_in by (rewrite ?zlen_app; lia). unfold slice.
  destruct (take_drop_zlen pre (out ++ rest)) as [_ ->]. f_equal. apply take_drop_zlen.
Qed.

End views.

(** * Integers *)

Section integers.

Lemma put_step_encode val buf i : put_step (val, buf, i) =
  match encode_step (val, buf, i + 1) with
  | Ret (inl (val, buf, pos)) => Ret (inl (val, buf, pos - 1))
  | Ret (inr (buf, pos)) => Ret (inr (buf, pos - 1))
  | Err e => Err e
  | Undef => Undef
  end.
Proof.
  unfold put_step, encode_step. destruct (tru (Z.shiftr val 7)); cbn [negb]; [|do 3 f_equal; lia]. replace (i + 1 - 1) with i by lia.
  rewrite u8_small; [by destruct (wr buf i _)|]. apply (lor_lt _ _ 8); [lia|lia|]. pose proof (Z.mod_pos_bound (Z.shiftr val 7 - 1) 128 ltac:(lia)).
  change 127 with (Z.ones 7). rewrite Z.land_ones by lia. change (2 ^ 7) with 128. change (2 ^ 8) with 256. lia.
Qed.

Lemma put_loop fuel : forall val buf i buf' pos, loop fuel encode_step (val, buf, i + 1) = Ret (buf', pos) -> loop fuel put_step (val, buf, i) = Ret (buf', pos - 1).
Proof.
  induction fuel as [|fuel IH]; intros val buf i buf' pos; [done|]. cbn [loop]. rewrite put_step_encode. destruct (encode_step (val, buf, i + 1)) as [[[[v b] p]|[b p]]|e|]; run; try done.
  - intros Hl. apply IH. by replace (p - 1 + 1) with p by lia.
  - by intros [= -> ->].
Qed.

Lemma put_var_int_writes val : is_word val -> writes (fun mem v => put_var_int mem v val) (varint_digits val).
Proof.
  intros Hv pre room post Hroom. unfold put_var_int. rewrite wr_in by done. run. assert (u8 (Z.land val 0x7f) = val mod 128) as ->.
  { change 0x7f with (Z.ones 7). rewrite Z.land_ones by lia. apply u8_small. unfold is_byte. pose proof (Z.mod_pos_bound val (2 ^ 7) ltac:(lia)). change (2 ^ 7) with 128 in *. lia. }
  set (v0 := <[Z.to_nat 9 := val mod 128]> (replicate 10 0)).
  destruct (encode_loop 9 val v0 [val mod 128]) as (buf & tail & Hl & Hz & Hat & Htail).
  - unfold is_word in Hv. change (2 ^ (7 * Z.of_nat 9 + 7)) with (64 * 2 ^ 64). lia.
  - done.
  - by split.
  - change (zlen v0) with 10 in *. change (10 - zlen [val mod 128]) with (9 - 1 + 1) in Hl. fold (varint_digits val) in Htail. subst tail.
    rewrite (put_loop _ _ _ _ _ _ Hl). run. replace (10 - (10 - zlen (varint_digits val) - 1) - 1) with (zlen (varint_digits val)) by lia.
    cbn [sv_len sv_buf]. case_if; [done|]. rewrite <-(app_nil_r (varint_digits val)) in Hat at 2. destruct (at_pos_app _ _ _ _ Hat) as [Hr _].
    replace (10 - zlen (varint_digits val) - 1 + 1) with (10 - zlen (varint_digits val)) by lia. rewrite Hr. run. rewrite wr_view by lia. run. by rewrite <-app_assoc.
Qed.

Lemma high_bit c : is_byte c -> tru (Z.land c 0x80) = (128 <=? c).
Proof.
  intros Hc. change 0x80 with 128. rewrite land_128_tru. unfold is_byte in Hc. destruct (Z.leb_spec 128 c).
  - replace c with (Z.lor (Z.shiftl 1 7) (c - 128)); [by rewrite Z.lor_spec|]. rewrite lor_shiftl_add; [lia..|]. change (2 ^ 7) with 128. lia.
  - apply (testbit_high _ 7); [|lia]. change (2 ^ 7) with 128. lia.
Qed.

Lemma push_digit_or val c : 0 <= val -> push_digit val c < 2 ^ 64 -> Z.lor (u64 (Z.shiftl (u64 (val + 1)) 7)) (Z.land c 0x7f) = push_digit val c.
Proof.
  intros Hv Hp. unfold push_digit in *. pose proof (Z.mod_pos_bound c 128 ltac:(lia)). rewrite (u64_small (val + 1)) by lia. rewrite u64_small by (rewrite Z.shiftl_mul_pow2 by lia; change (2 ^ 7) with 128; lia).
  change 0x7f with (Z.ones 7). rewrite Z.land_ones by lia. change (2 ^ 7) with 128. rewrite lor_shiftl_add; [|lia|change (2 ^ 7) with 128; lia]. done.
Qed.

Lemma get_loop mem v : forall fs fuel es c, sv_len v < 2 ^ 31 -> is_byte c -> Forall is_byte fs -> terminated (c :: fs) ->
  (forall i x, (es ++ c :: fs) !! i = Some x -> rd mem (sv_buf v + Z.of_nat i) = Ret x) -> zlen (es ++ c :: fs) <= sv_len v ->
  0 <= varint_value (es ++ [c]) -> varint_value (es ++ c :: fs) < 2 ^ 64 -> (length fs < fuel)%nat ->
  loop fuel (get_step mem v) (zlen es, varint_value (es ++ [c])) = Ret (inl (zlen (es ++ fs), varint_value (es ++ c :: fs))).
Proof.
  induction fs as [|c' fs IH]; intros fuel es c Hmax Hc Hfs Hterm Hmem Hlen H0 Hval Hf; (destruct fuel as [|fuel]; [lia|]); destruct Hterm as (ds & b & Heq & Hds & Hb).
  - destruct ds as [|d ds]; [|by destruct ds]. injection Heq as ->. rewrite app_nil_r. apply loop_stop. unfold get_step. change (zlen es) with (Z.of_nat (length es)). rewrite (Hmem (length es) b) by (by apply list_lookup_middle). run.
    by rewrite high_bit, (proj2 (Z.leb_gt _ _)) by (done || lia).
  - destruct ds as [|d ds]; [done|]. injection Heq as <- Heq. apply Forall_cons_iff in Hds as [Hcd Hds]. apply Forall_cons_iff in Hfs as [Hc' Hfs].
    assert (es ++ c :: c' :: fs = (es ++ [c]) ++ c' :: fs) as Hsplit by same_list. assert (terminated (c' :: fs)) as Hterm' by (rewrite Heq; by exists ds, b).
    assert (varint_value ((es ++ [c]) ++ [c']) = push_digit (varint_value (es ++ [c])) c') as Hpush by apply varint_value_snoc.
    assert (push_digit (varint_value (es ++ [c])) c' <= varint_value (es ++ c :: c' :: fs)) as Hmono.
    { assert (varint_value (es ++ c :: c' :: fs) = foldl push_digit (varint_value ((es ++ [c]) ++ [c'])) fs) as -> by (unfold varint_value; rewrite <-foldl_app; f_equal; same_list). rewrite Hpush.
      apply foldl_push_ge. unfold push_digit. pose proof (Z.mod_pos_bound c' 128 ltac:(lia)). lia. }
    assert (get_step mem v (zlen es, varint_value (es ++ [c])) = Ret (inl (zlen (es ++ [c]), varint_value ((es ++ [c]) ++ [c'])))) as Hstep.
    { unfold get_step. rewrite !zlen_app, !zlen_cons in Hlen. change (zlen [c]) with 1 in *. pose proof (zlen_nonneg fs). pose proof (zlen_nonneg es).
      change (sv_buf v + zlen es) with (sv_buf v + Z.of_nat (length es)). rewrite (Hmem (length es) c) by (by apply list_lookup_middle). run. rewrite high_bit, (proj2 (Z.leb_le _ _)) by (done || lia). cbn [negb].
      rewrite Z.gtb_ltb, (proj2 (Z.ltb_ge _ _)) by lia. replace (zlen es + 1) with (Z.of_nat (length (es ++ [c]))) by (rewrite length_app; unfold zlen; cbn; lia).
      rewrite (Hmem (length (es ++ [c])) c') by (rewrite Hsplit; by apply list_lookup_middle). run. rewrite push_digit_or by lia. by rewrite Hpush. }
    rewrite (loop_next _ _ _ _ Hstep), (IH fuel (es ++ [c]) c'); [by rewrite Hsplit; replace (zlen ((es ++ [c]) ++ fs)) with (zlen (es ++ c' :: fs)) by same_len|done|done|done|done|by rewrite <-Hsplit|by rewrite <-Hsplit| |by rewrite <-Hsplit|cbn in Hf; lia].
    rewrite Hpush. unfold push_digit. pose proof (Z.mod_pos_bound c' 128 ltac:(lia)). lia.
Qed.

Lemma get_var_int_reads val : is_word val -> reads get_var_int (varint_digits val) (zlen (varint_digits val), val).
Proof.
  intros Hv pre rest post Hlen. destruct (varint_digits_spec val Hv) as (Hval & Hterm & Hrange). unfold is_word in Hv. destruct (varint_digits val) as [|c fs]; [rewrite zlen_nil in Hrange; lia|].
  assert (Forall is_byte (c :: fs)) as Hb by (destruct Hterm as (ds & b & -> & Hds & ?); apply Forall_app; split; [eapply Forall_impl; [exact Hds|]; unfold is_byte; cbn; lia|constructor; [unfold is_byte; lia|done]]).
  apply Forall_cons_iff in Hb as [Hc Hfs]. unfold get_var_int. cbn [sv_len sv_buf]. rewrite zlen_app, zlen_cons in Hlen |- *. pose proof (zlen_nonneg fs). pose proof (zlen_nonneg rest).
  rewrite (proj2 (Z.eqb_neq _ _)) by lia. cbn [app]. rewrite (rd_at pre c (fs ++ rest ++ post)) by done. run.
  assert (Z.land c 0x7f = varint_value [c]) as Hfirst by (change 0x7f with (Z.ones 7); by rewrite Z.land_ones).
  assert (0 <= varint_value [c]) as Hv0 by (rewrite <-Hfirst; apply Z.land_nonneg; lia). rewrite Hfirst.
  pose proof (get_loop (pre ++ c :: fs ++ rest ++ post) (View (zlen pre) (1 + zlen fs + zlen rest)) fs (S (S (Z.to_nat (1 + zlen fs + zlen rest)))) [] c) as Hloop.
  cbn [app sv_len sv_buf] in Hloop. rewrite Hval in Hloop. change (zlen (@nil Z)) with 0 in Hloop. rewrite Hloop; [run; do 2 f_equal; lia|done|done|done|done| |rewrite zlen_cons; lia|done|lia|unfold zlen; lia].
  intros i x Hx. apply rd_Ret. split; [unfold zlen; lia|]. replace (Z.to_nat (zlen pre + Z.of_nat i)) with (length pre + i)%nat by (unfold zlen; lia). rewrite lookup_app_r by lia.
  replace (length pre + i - length pre)%nat with i by lia. change (c :: fs ++ rest ++ post) with ((c :: fs) ++ rest ++ post). rewrite lookup_app_l; [done|by eapply lookup_lt_Some].
Qed.
End integers.

(** * Strings *)

(** A length and the bytes. *)
Definition string_bytes (s : list Z) : list Z := varint_digits (zlen s) ++ s.

Section strings.

Lemma is_word_len (s : list Z) : zlen s < 2 ^ 31 -> is_word (zlen s).
Proof. intros Hs. pose proof (zlen_nonneg s). unfold is_word. lia. Qed.

Lemma encode_string_writes str : zlen str < 2 ^ 31 -> writes (fun mem s => encode_string mem str s) (string_bytes str).
Proof.
  intros Hstr pre room post Hroom. pose proof (zlen_nonneg str). unfold encode_string, string_bytes. rewrite i32_small, u64_small by lia.
  rewrite (writes_next _ _ _ _ _ _ (put_var_int_writes (zlen str) (is_word_len str Hstr))) by done. rewrite zlen_app. case_if; [by rewrite (proj2 (Z.ltb_lt _ _)) by lia|].
  rewrite consume_view by lia. cbn [sv_len sv_buf]. assert (zlen (drop (length (varint_digits (zlen str))) room) = zlen room - zlen (varint_digits (zlen str))) as Hdrop by (rewrite zlen_drop; unfold zlen in *; lia).
  rewrite Hdrop. destruct (Z.ltb_spec (zlen room - zlen (varint_digits (zlen str))) (zlen str)); [by rewrite (proj2 (Z.ltb_lt _ _)) by lia|]. rewrite (proj2 (Z.ltb_ge _ _)) by lia.
  assert (rd_range str 0 (zlen str) = Ret str) as -> by (rewrite rd_range_in by lia; by rewrite slice_full). run. rewrite wr_view by lia. run. f_equal. f_equal.
  - rewrite drop_drop, length_app. same_list.
  - unfold string_view_consume. cbn [sv_len]. pose proof (zlen_nonneg (varint_digits (zlen str))). rewrite (u64_small (zlen room - zlen (varint_digits (zlen str)) - zlen str)) by lia. rewrite u64_small, i32_small by lia. lia.
Qed.

Context `{ReftableHeaderOk} `{RecordHeader}.

Lemma decode_string_reads str dest s0 : zlen str < 2 ^ 31 -> buf_rep dest s0 -> memory_enough ->
  exists dest', buf_rep dest' str /\ reads (fun mem v => decode_string mem dest v) (string_bytes str) (dest', zlen (string_bytes str)).
Proof.
  intros Hstr Hdest Hmem. pose proof (zlen_nonneg str). destruct (reset_spec dest s0 Hdest) as (d1 & Hd1 & Hr1). destruct (buf_add_spec d1 [] str Hr1) as (d2 & Hd2 & Hr2); [rewrite zlen_nil; lia|done|].
  exists d2. split; [done|]. intros pre rest post Hlen. unfold decode_string, string_bytes in *. rewrite <-!app_assoc in *.
  pose proof (get_var_int_reads (zlen str) (is_word_len str Hstr) pre (str ++ rest) post Hlen) as Hg. rewrite <-app_assoc in Hg. rewrite Hg. run.
  destruct (varint_digits_spec (zlen str) (is_word_len str Hstr)) as (_ & _ & Hd). rewrite (proj2 (Z.leb_gt _ _)) by lia. rewrite consume_view_rest by done. cbn [sv_len sv_buf].
  assert (zlen (str ++ rest) = zlen str + zlen rest) as Hz by apply zlen_app. assert (zlen (varint_digits (zlen str) ++ str ++ rest) = zlen (varint_digits (zlen str)) + (zlen str + zlen rest)) as Hz' by (rewrite !zlen_app; lia).
  pose proof (zlen_nonneg rest). rewrite (proj2 (Z.ltb_ge _ _)) by lia. rewrite Hd1. run. rewrite (app_assoc pre), rd_view. run. rewrite Hd2. run.
  unfold string_view_consume. cbn [sv_len]. rewrite (u64_small (_ - zlen str)), (i32_small (zlen (_ ++ _ ++ _))) by lia. rewrite Hz', Hz, zlen_app. rewrite u64_small by lia. rewrite i32_small by lia. do 2 f_equal. lia.
Qed.
End strings.

(** * Keys *)

(** What the key [t] after the key [s] is written as. *)
Definition key_bytes (s t : list Z) (extra : Z) : list Z :=
  let p := common_prefix s t in varint_digits p ++ varint_digits ((zlen t - p) * 8 + extra) ++ drop (Z.to_nat p) t.

Section keys.
Context `{ReftableHeaderOk} `{RecordHeader}.

Lemma suffix_len (t : list Z) p : 0 <= p <= zlen t -> zlen (drop (Z.to_nat p) t) = zlen t - p.
Proof. intros Hp. rewrite zlen_drop by (unfold zlen in *; lia). lia. Qed.

Lemma encode_key_writes prev key s t extra pre room post : buf_rep prev s -> buf_rep key t -> 0 <= extra < 8 -> zlen room < 2 ^ 31 ->
  reftable_encode_key (pre ++ room ++ post) (View (zlen pre) (zlen room)) prev key extra =
    if zlen room <? zlen (key_bytes s t extra) then Err Error
    else Ret (pre ++ key_bytes s t extra ++ drop (length (key_bytes s t extra)) room ++ post, common_prefix s t =? 0, zlen (key_bytes s t extra)).
Proof.
  intros Hs Ht He Hroom. unfold reftable_encode_key. rewrite (common_prefix_spec prev key s t Hs Ht). run. pose proof Ht as (Hlen & Hmax & _). rewrite Hlen.
  destruct (common_prefix_range s t) as (Hp & Hpt & _). unfold key_bytes. set (p := common_prefix s t) in *. rewrite (u64_small (zlen t - p)) by lia.
  assert (Z.lor (u64 (Z.shiftl (zlen t - p) 3)) extra = (zlen t - p) * 8 + extra) as ->.
  { rewrite u64_small by (rewrite Z.shiftl_mul_pow2 by lia; change (2 ^ 3) with 8; lia). by rewrite lor_shiftl_add by (change (2 ^ 3) with 8; lia). }
  set (d1 := varint_digits p). set (d2 := varint_digits ((zlen t - p) * 8 + extra)). set (x := drop (Z.to_nat p) t). assert (zlen x = zlen t - p) as Hx by (apply suffix_len; lia).
  pose proof (zlen_nonneg d1). pose proof (zlen_nonneg d2). pose proof (zlen_nonneg x). rewrite !zlen_app.
  rewrite (writes_next _ d1 _ _ _ _ (put_var_int_writes p ltac:(unfold is_word; lia))) by done. case_if; [by rewrite (proj2 (Z.ltb_lt _ _)) by lia|]. rewrite consume_view by lia.
  assert (zlen (drop (length d1) room) = zlen room - zlen d1) as Hr1 by (rewrite zlen_drop; unfold zlen in *; lia).
  rewrite (writes_next _ d2 _ _ _ _ (put_var_int_writes ((zlen t - p) * 8 + extra) ltac:(unfold is_word; lia))) by lia. rewrite Hr1. case_if; [by rewrite (proj2 (Z.ltb_lt _ _)) by lia|].
  rewrite <-Hr1, consume_view by lia. set (room2 := drop (length d2) (drop (length d1) room)). assert (zlen room2 = zlen room - zlen d1 - zlen d2) as Hr2 by (unfold room2; rewrite zlen_drop; unfold zlen in *; rewrite ?length_drop; lia).
  cbn [sv_len sv_buf]. rewrite Hr2. rewrite <-Hx. case_if; [by rewrite (proj2 (Z.ltb_lt _ _)) by lia|]. rewrite (proj2 (Z.ltb_ge _ _)) by lia.
  assert (rd_range (rb_buf key) p (zlen x) = Ret x) as ->.
  { rewrite (buf_rep_slice key t p (zlen x) Ht) by lia. unfold slice. rewrite take_ge; [done|]. unfold x, zlen. rewrite length_drop. lia. }
  run. rewrite wr_view by lia. run. f_equal. f_equal; [f_equal|].
  - unfold room2. rewrite !drop_drop, !length_app, Nat.add_assoc. same_list.
  - unfold string_view_consume. cbn [sv_len]. rewrite (u64_small (zlen room - zlen d1 - zlen d2 - zlen x)) by lia. rewrite u64_small by lia. rewrite i32_small by lia. lia.
Qed.

(** The two lengths before a key. *)
Definition keylen_bytes (p n extra : Z) : list Z := varint_digits p ++ varint_digits (n * 8 + extra).

Lemma decode_keylen_reads p n extra : is_word p -> 0 <= n < 2 ^ 31 -> 0 <= extra < 8 ->
  reads reftable_decode_keylen (keylen_bytes p n extra) (zlen (keylen_bytes p n extra), p, n, extra).
Proof.
  intros Hp Hn He pre rest post Hlen. unfold keylen_bytes in *. set (q := n * 8 + extra) in *. assert (is_word q) as Hq by (unfold is_word; lia). set (d1 := varint_digits p) in *. set (d2 := varint_digits q) in *.
  destruct (varint_digits_spec q Hq) as (_ & _ & Hd2). fold d2 in Hd2. pose proof (zlen_nonneg d1). pose proof (zlen_nonneg rest). rewrite <-!app_assoc in *.
  assert (zlen (d1 ++ d2 ++ rest) = zlen d1 + zlen d2 + zlen rest) as Hz1 by (rewrite !zlen_app; lia). assert (zlen (d2 ++ rest) = zlen d2 + zlen rest) as Hz2 by apply zlen_app.
  unfold reftable_decode_keylen. pose proof (get_var_int_reads p Hp pre (d2 ++ rest) post Hlen) as Hg1. fold d1 in Hg1. rewrite <-!app_assoc in Hg1. rewrite Hg1. run. rewrite (consume_view_rest pre d1) by done.
  pose proof (get_var_int_reads q Hq (pre ++ d1) rest post) as Hg2. fold d2 in Hg2. rewrite <-!app_assoc in Hg2. rewrite Hg2 by lia. run.
  rewrite (proj2 (Z.leb_gt _ _)) by lia. rewrite (consume_view_rest (pre ++ d1) d2) by lia. cbn [sv_len]. rewrite Hz1, u64_small by lia. rewrite i32_small, zlen_app by lia.
  assert (Z.shiftr q 3 = n) as -> by (rewrite Z.shiftr_div_pow2 by lia; change (2 ^ 3) with 8; unfold q; rewrite Z.div_add_l, Z.div_small by lia; lia).
  assert (Z.land q 0x7 = extra) as -> by (change 0x7 with (Z.ones 3); rewrite Z.land_ones by lia; change (2 ^ 3) with 8; unfold q; rewrite Z.add_comm, Z.mod_add, Z.mod_small by lia; done).
  do 4 f_equal. lia.
Qed.

(** The key before need not be the one written, only agree with it so far. *)
Lemma decode_key_reads_as last u s t extra : buf_rep last u -> common_prefix s t <= zlen u -> take (Z.to_nat (common_prefix s t)) u = take (Z.to_nat (common_prefix s t)) t ->
  zlen t < 2 ^ 31 -> 0 <= extra < 8 -> memory_enough ->
  exists last', buf_rep last' t /\ reads (fun mem v => reftable_decode_key mem last v) (key_bytes s t extra) (last', extra, zlen (key_bytes s t extra)).
Proof.
  intros Hs Hpu Htake Ht He Hmem. destruct (common_prefix_range s t) as (Hp & Hpt & _). unfold key_bytes. set (p := common_prefix s t) in *. pose proof (zlen_nonneg t).
  assert (zlen (drop (Z.to_nat p) t) = zlen t - p) as Hx by (apply suffix_len; lia). set (x := drop (Z.to_nat p) t) in *.
  destruct (setlen_spec last u p Hs ltac:(lia)) as (l1 & Hl1 & Hr1). assert (zlen (take (Z.to_nat p) u) = p) as Hzp by (unfold zlen in *; rewrite length_take; lia).
  destruct (buf_add_spec l1 _ x Hr1) as (l2 & Hl2 & Hr2); [lia|done|]. exists l2. split; [unfold x in Hr2; by rewrite Htake, take_drop in Hr2|]. intros pre rest post Hlen.
  rewrite (app_assoc (varint_digits p)) in *. pose proof (decode_keylen_reads p (zlen t - p) extra ltac:(unfold is_word; lia) ltac:(lia) He) as Hk. unfold keylen_bytes in Hk. set (d := varint_digits p ++ varint_digits _) in *.
  pose proof (zlen_nonneg rest). pose proof (zlen_nonneg d). rewrite <-!app_assoc in *. assert (zlen (d ++ x ++ rest) = zlen d + zlen x + zlen rest) as Hz1 by (rewrite !zlen_app; lia).
  assert (zlen (x ++ rest) = zlen x + zlen rest) as Hz3 by (rewrite !zlen_app; lia).
  unfold reftable_decode_key. rewrite (reads_go _ d _ _ pre (x ++ rest) post Hk) by (same_list || done). run. rewrite (consume_view_rest pre d) by done. cbn [sv_len sv_buf].
  rewrite Hz3, Hz1, <-Hx, (proj2 (Z.ltb_ge _ _)) by lia. pose proof Hs as (Hls & _). rewrite Hls, Z.gtb_ltb, (proj2 (Z.ltb_ge _ _)) by lia. cbn [orb]. rewrite Hl1. run.
  replace (pre ++ d ++ x ++ rest ++ post) with ((pre ++ d) ++ x ++ rest ++ post) by same_list. rewrite rd_view. run. rewrite Hl2. run.
  unfold string_view_consume. cbn [sv_len]. rewrite (u64_small (_ - zlen x)), (i32_small (_ + zlen rest)) by lia. rewrite u64_small by lia. rewrite i32_small by lia. do 2 f_equal. rewrite zlen_app. lia.
Qed.

Lemma decode_key_reads last s t extra : buf_rep last s -> zlen t < 2 ^ 31 -> 0 <= extra < 8 -> memory_enough ->
  exists last', buf_rep last' t /\ reads (fun mem v => reftable_decode_key mem last v) (key_bytes s t extra) (last', extra, zlen (key_bytes s t extra)).
Proof. intros Hs. destruct (common_prefix_range s t) as (Hp & Hpt & Htake). apply (decode_key_reads_as last s s t extra Hs); [lia|done]. Qed.
End keys.

(** * Records *)

(** A write that fits, and the view behind it. *)
Lemma writes_go {A} f out (k : list Z -> Z -> outcome A) pre room post :
  writes f out -> zlen room < 2 ^ 31 -> zlen out <= zlen room ->
  ('(mem, n) ← f (pre ++ room ++ post) (View (zlen pre) (zlen room)); k mem n) = k ((pre ++ out) ++ drop (length out) room ++ post) (zlen out).
Proof. intros Hf Hroom Hle. by rewrite (writes_next f out k pre room post Hf Hroom), (proj2 (Z.ltb_ge _ _)) by lia. Qed.

Lemma view_facts (pre room out : list Z) : zlen room < 2 ^ 31 -> zlen out <= zlen room ->
  string_view_consume (View (zlen pre) (zlen room)) (zlen out) = View (zlen (pre ++ out)) (zlen (drop (length out) room)) /\
  zlen (drop (length out) room) = zlen room - zlen out.
Proof. intros Hroom Hle. split; [apply consume_view; lia|]. rewrite zlen_drop; unfold zlen in *; lia. Qed.

Lemma writes_stop {A} f out (k : list Z -> Z -> outcome A) pre room post :
  writes f out -> zlen room < zlen out -> zlen room < 2 ^ 31 -> ('(mem, n) ← f (pre ++ room ++ post) (View (zlen pre) (zlen room)); k mem n) = Err Error.
Proof. intros Hf Hlt Hroom. by rewrite (writes_next f out k pre room post Hf Hroom), (proj2 (Z.ltb_lt _ _)) by lia. Qed.

(** Goes past a write on both branches; [H] says what is written. *)
Ltac past_write H :=
  match type of H with
  | writes _ ?out =>
      match goal with
      | |- context [View (zlen ?pre) (zlen ?room)] =>
          destruct (Z.ltb_spec (zlen room) (zlen out)) as [?Hlt|?Hge];
            [rewrite (writes_stop _ _ _ _ _ _ H) by lia
            |rewrite (writes_go _ _ _ _ _ _ H) by lia;
             let Hv := fresh in let Hd := fresh in
             destruct (view_facts pre room out) as [Hv Hd]; [lia|lia|]; rewrite ?Hv; clear Hv]
      end
  end.

(** The same for [memcpy] of [xs]. *)
Ltac past_copy xs :=
  match goal with
  | |- context [wr_range (?pre ++ ?room ++ ?post) _ xs] =>
      rewrite (wr_view pre room post xs) by lia; run;
      let Hv := fresh in let Hd := fresh in destruct (view_facts pre room xs) as [Hv Hd]; [lia|lia|]; rewrite ?Hv; clear Hv
  end.

Ltac fits := rewrite ?zlen_app in *; lia.

(** Both sides of an encoder's equation, out of room and done. *)
Ltac no_room := by rewrite (proj2 (Z.ltb_lt _ _)) by lia.
Ltac all_written :=
  rewrite (proj2 (Z.ltb_ge _ _)) by lia; cbn [sv_len]; f_equal; f_equal; [rewrite ?drop_drop, ?length_app, ?Nat.add_assoc; same_list|rewrite u64_small by lia; rewrite i32_small by lia; lia].

Lemma rd_whole (xs : list Z) n : zlen xs = n -> rd_range xs 0 n = Ret xs.
Proof. intros <-. pose proof (zlen_nonneg xs). rewrite rd_range_in by lia. by rewrite slice_full. Qed.

Lemma rd_go mem pre (xs rest : list Z) n : mem = pre ++ xs ++ rest -> n = zlen xs -> rd_range mem (zlen pre) n = Ret xs.
Proof. intros -> ->. apply rd_view. Qed.

Section ref_records.
Context `{ReftableHeaderOk} `{RecordHeaderOk} (hash_size : Z).
Hypothesis (Hhash : 0 < hash_size).

Definition value_bytes (v : ref_value) : list Z :=
  match v with RefDeletion => [] | RefVal1 v => v | RefVal2 v t => v ++ t | RefSymref s => string_bytes s end.

Definition ref_bytes (r : ref_record) : list Z := varint_digits (rr_update_index r) ++ value_bytes (rr_value r).

(** Names without NUL, hashes of the right size, 64-bit indices. *)
Definition ref_ok (r : ref_record) : Prop :=
  no_nul (rr_refname r) /\ is_word (rr_update_index r) /\
  match rr_value r with
  | RefDeletion => True
  | RefVal1 v => zlen v = hash_size
  | RefVal2 v t => zlen v = hash_size /\ zlen t = hash_size
  | RefSymref s => no_nul s /\ zlen s < 2 ^ 31
  end.

Lemma ref_encode_writes r : ref_ok r -> writes (fun mem v => reftable_ref_record_encode mem r v hash_size) (ref_bytes r).
Proof.
  intros (_ & Hidx & Hval) pre room post Hroom. unfold reftable_ref_record_encode. rewrite (proj2 (Z.leb_gt _ _)) by lia.
  pose proof (put_var_int_writes _ Hidx) as Hw. unfold ref_bytes. set (d := varint_digits (rr_update_index r)) in *. rewrite zlen_app. pose proof (zlen_nonneg d).
  past_write Hw; [pose proof (zlen_nonneg (value_bytes (rr_value r))); no_room|].
  destruct (rr_value r) as [|v|v t|s]; cbn [value_bytes].
  - run. rewrite zlen_nil, app_nil_r. all_written.
  - cbn [sv_len sv_buf]. rewrite <-Hval. case_if; [no_room|]. rewrite (rd_whole v) by done. run. past_copy v. all_written.
  - destruct Hval as [Hv Ht]. cbn [sv_len sv_buf]. rewrite (zlen_app v t). case_if; [no_room|]. rewrite (rd_whole v) by done. run. rewrite <-Hv. past_copy v. cbn [sv_len sv_buf].
    rewrite (rd_whole t) by lia. run. assert (zlen v = zlen t) as -> by lia. past_copy t. all_written.
  - destruct Hval as [_ Hs]. pose proof (encode_string_writes s Hs) as Hs'. set (e := string_bytes s) in *. pose proof (zlen_nonneg e). past_write Hs'; [no_room|]. run. all_written.
Qed.

Lemma grow_cap_ok nr cap : memory_enough -> exists cap', grow_cap nr cap = Ret cap'.
Proof. intros Hmem. unfold grow_cap. rewrite Hmem. case_if; by eexists. Qed.

Lemma key_string key s : buf_rep key s -> rd_range (rb_buf key) 0 (rb_len key) = Ret s.
Proof.
  intros Hk. pose proof Hk as (Hl & _). pose proof (zlen_nonneg s). rewrite Hl, (buf_rep_slice key s 0 (zlen s) Hk) by lia. by rewrite slice_full.
Qed.

Lemma buf_c_string b s : buf_rep b s -> no_nul s -> c_string (rb_buf b) = s.
Proof.
  intros (_ & _ & Ha & [[Hz ->]|[rest ->]]) Hs; [|by apply c_string_app]. destruct (rb_buf b) as [|c mem]; [done|]. rewrite zlen_cons in Ha. pose proof (zlen_nonneg mem). lia.
Qed.

(** The same reference. *)
Definition same_ref (r r' : ref_record) : Prop := rr_refname r' = rr_refname r /\ rr_update_index r' = rr_update_index r /\ rr_value r' = rr_value r.

Lemma ref_value_reads r scratch s0 : ref_ok r -> buf_rep scratch s0 -> memory_enough ->
  exists scratch' s1, buf_rep scratch' s1 /\ forall mem pre rest post, mem = pre ++ value_bytes (rr_value r) ++ rest ++ post -> zlen (value_bytes (rr_value r) ++ rest) < 2 ^ 31 ->
    ref_decode_value mem (reftable_ref_record_val_type r) (View (zlen pre) (zlen (value_bytes (rr_value r) ++ rest))) hash_size scratch =
      Ret (rr_value r, View (zlen (pre ++ value_bytes (rr_value r))) (zlen rest), scratch').
Proof.
  intros (_ & _ & Hval) Hscratch Hmem. unfold reftable_ref_record_val_type, ref_decode_value. pose proof ref_kinds as Hnd. rewrite !NoDup_cons, !not_elem_of_cons in Hnd.
  destruct Hnd as ((Hd1 & Hd2 & Hds & _) & (H12 & H1s & _) & (H2s & _) & _). destruct (rr_value r) as [|v|v t|s]; cbn [value_bytes].
  - exists scratch, s0. split; [done|]. intros mem pre rest post -> Hlen. rewrite !(proj2 (Z.eqb_neq _ _)), Z.eqb_refl by done. by rewrite app_nil_r.
  - exists scratch, s0. split; [done|]. intros mem pre rest post Hm Hlen. rewrite Z.eqb_refl. cbn [sv_len sv_buf]. rewrite <-Hval. pose proof (zlen_nonneg rest).
    rewrite (proj2 (Z.ltb_ge _ _)) by (rewrite zlen_app; lia). rewrite (rd_go mem pre v (rest ++ post) (zlen v)) by done. run. by rewrite consume_view_rest.
  - exists scratch, s0. split; [done|]. intros mem pre rest post Hm Hlen. rewrite (proj2 (Z.eqb_neq _ REFTABLE_REF_VAL1)), Z.eqb_refl by done. destruct Hval as [Hv Ht]. cbn [sv_len sv_buf]. pose proof (zlen_nonneg rest).
    rewrite (proj2 (Z.ltb_ge _ _)) by (rewrite !zlen_app; lia). rewrite <-app_assoc in Hlen |- *. rewrite (rd_go mem pre v (t ++ rest ++ post)) by (done || (rewrite Hm; same_list)). run.
    rewrite <-Hv, consume_view_rest by done. cbn [sv_len sv_buf]. rewrite (rd_go mem (pre ++ v) t (rest ++ post)) by (lia || (rewrite Hm; same_list)). run.
    assert (zlen v = zlen t) as -> by lia. rewrite (consume_view_rest (pre ++ v) t rest) by (rewrite zlen_app in Hlen; pose proof (zlen_nonneg v); lia). by rewrite app_assoc.
  - destruct Hval as [Hs Hmax]. destruct (decode_string_reads s scratch s0 Hmax Hscratch Hmem) as (b & Hb & Hreads). exists reftable_buf_init, []. split; [apply buf_rep_init|].
    intros mem pre rest post Hm Hlen. rewrite (proj2 (Z.eqb_neq _ REFTABLE_REF_VAL1)), (proj2 (Z.eqb_neq _ REFTABLE_REF_VAL2)), Z.eqb_refl by done.
    rewrite (reads_go (fun mem v => decode_string mem scratch v) _ _ mem pre rest post Hreads Hm Hlen). run. cbn [reftable_buf_detach]. rewrite consume_view_rest by done. by rewrite (buf_c_string b s).
Qed.

Lemma ref_decode_reads r old key scratch s0 : ref_ok r -> buf_rep key (rr_refname r) -> buf_rep scratch s0 -> memory_enough ->
  exists r' scratch' s1, reads (fun mem v => reftable_ref_record_decode mem old key (reftable_ref_record_val_type r) v hash_size scratch) (ref_bytes r)
      (r', scratch', zlen (ref_bytes r)) /\ same_ref r r' /\ buf_rep scratch' s1.
Proof.
  intros Hok Hkey Hscratch Hmem. destruct (grow_cap_ok (rb_len key + 1) (rr_refname_cap old) Hmem) as [cap Hcap]. pose proof Hok as (Hname & Hidx & _).
  destruct (ref_value_reads r scratch s0 Hok Hscratch Hmem) as (scratch' & s1 & Hs1 & Hvalue). exists (RefRecord (rr_refname r) cap (rr_update_index r) (rr_value r)), scratch', s1.
  split; [|done]. intros pre rest post Hlen. unfold reftable_ref_record_decode. rewrite (proj2 (Z.leb_gt _ _)) by lia. change (ref_bytes r) with (varint_digits (rr_update_index r) ++ value_bytes (rr_value r)) in *.
  set (d := varint_digits (rr_update_index r)) in *. set (tail := value_bytes (rr_value r)) in *. pose proof (zlen_nonneg d). pose proof (zlen_nonneg tail). pose proof (zlen_nonneg rest).
  assert (zlen ((d ++ tail) ++ rest) = zlen d + zlen tail + zlen rest) as Hz by (rewrite !zlen_app; lia). rewrite Hz in Hlen.
  replace (View (zlen pre) (zlen ((d ++ tail) ++ rest))) with (View (zlen pre) (zlen (d ++ tail ++ rest))) by (by rewrite <-app_assoc).
  rewrite (reads_go _ _ _ _ pre (tail ++ rest) post (get_var_int_reads _ Hidx)) by (same_list || (rewrite !zlen_app; fold d; lia)). run. fold d. rewrite consume_view_rest by (rewrite !zlen_app; lia).
  rewrite Hcap. run. rewrite (key_string key _ Hkey). run. rewrite (c_string_app (rr_refname r) []) by done.
  unfold tail at 2. rewrite (Hvalue _ (pre ++ d) rest post) by (same_list || (fold tail; rewrite !zlen_app; lia)). run. cbn [sv_len]. do 2 f_equal.
  rewrite !zlen_app. rewrite u64_small by lia. rewrite i32_small by lia. lia.
Qed.
End ref_records.

(** ** Objects and indices *)

Section obj_records.
Context `{ReftableHeaderOk} `{RecordHeader}.

(** Each offset as the distance from the one before. *)
Fixpoint deltas (last : Z) (os : list Z) : list Z := match os with [] => [] | o :: os => varint_digits (u64 (o - last)) ++ deltas o os end.

Definition obj_bytes (r : obj_record) : list Z :=
  (if (offset_len r =? 0) || (offset_len r >=? 8) then varint_digits (offset_len r) else []) ++
  match or_offsets r with [] => [] | o :: os => varint_digits o ++ deltas o os end.

(** A prefix of at least one byte and 64-bit offsets. *)
Definition obj_ok (r : obj_record) : Prop := or_hash_prefix r <> [] /\ zlen (or_hash_prefix r) < 2 ^ 31 /\ Forall is_word (or_offsets r) /\ offset_len r < 2 ^ 31.

Lemma u64_word x : is_word (u64 x).
Proof. apply u64_range. Qed.

Lemma delta_back o last : is_word o -> u64 (u64 (o - last) + last) = o.
Proof. intros Ho. unfold u64. rewrite Zplus_mod_idemp_l. replace (o - last + last) with o by lia. by apply Z.mod_small. Qed.

Lemma put_offsets r os : forall dn pre room post last, or_offsets r = dn ++ os -> Forall is_word os -> zlen room < 2 ^ 31 ->
  for_n (length os) (zlen dn) (put_offset_step r) (pre ++ room ++ post, View (zlen pre) (zlen room), last) =
    if zlen room <? zlen (deltas last os) then Err Error
    else Ret ((pre ++ deltas last os) ++ drop (length (deltas last os)) room ++ post, View (zlen (pre ++ deltas last os)) (zlen (drop (length (deltas last os)) room)), foldl (fun _ o => o) last os).
Proof.
  induction os as [|o os IH]; intros dn pre room post last Hr Hos Hroom.
  - pose proof (zlen_nonneg room). cbn [for_n length deltas foldl]. rewrite zlen_nil, (proj2 (Z.ltb_ge _ _)) by lia. cbn [drop length]. by rewrite app_nil_r.
  - apply Forall_cons_iff in Hos as [Ho Hos]. cbn [for_n length deltas foldl]. unfold put_offset_step at 2. rewrite (rd_at dn o os) by done. run.
    pose proof (put_var_int_writes _ (u64_word (o - last))) as Hw. set (d := varint_digits (u64 (o - last))) in *. rewrite zlen_app. pose proof (zlen_nonneg d). pose proof (zlen_nonneg (deltas o os)).
    past_write Hw; [run; no_room|]. run. replace (zlen dn + 1) with (zlen (dn ++ [o])) by (rewrite zlen_app; done).
    rewrite (IH (dn ++ [o]) (pre ++ d) (drop (length d) room) post o) by (done || lia || (rewrite Hr; same_list)). set (x := deltas o os) in *.
    replace (zlen (drop (length d) room) <? zlen x) with (zlen room <? zlen d + zlen x) by (apply eq_true_iff_eq; rewrite !Z.ltb_lt; lia).
    case_if; [done|]. rewrite drop_drop, length_app, <-!app_assoc. done.
Qed.

Lemma obj_encode_writes r : obj_ok r -> writes (fun mem v => reftable_obj_record_encode mem r v) (obj_bytes r).
Proof.
  intros (_ & _ & Hos & Hlen) pre room post Hroom. unfold reftable_obj_record_encode, obj_bytes. assert (0 <= offset_len r) as Hnn by apply zlen_nonneg.
  pose proof (put_var_int_writes (offset_len r) ltac:(unfold is_word; lia)) as Hcount.
  set (c := if (offset_len r =? 0) || (offset_len r >=? 8) then varint_digits (offset_len r) else []). set (body := match or_offsets r with [] => [] | o :: os => varint_digits o ++ deltas o os end).
  pose proof (zlen_nonneg c). pose proof (zlen_nonneg body). rewrite (zlen_app c body).
  assert ((if (offset_len r =? 0) || (offset_len r >=? 8) then '(mem, n) ← put_var_int (pre ++ room ++ post) (View (zlen pre) (zlen room)) (offset_len r); Ret (mem, string_view_consume (View (zlen pre) (zlen room)) n)
       else Ret (pre ++ room ++ post, View (zlen pre) (zlen room))) =
    if zlen room <? zlen c then Err Error else Ret ((pre ++ c) ++ drop (length c) room ++ post, View (zlen (pre ++ c)) (zlen (drop (length c) room)))) as ->.
  { unfold c. destruct ((offset_len r =? 0) || (offset_len r >=? 8)).
    - set (d := varint_digits (offset_len r)) in *. past_write Hcount; done.
    - pose proof (zlen_nonneg room). rewrite zlen_nil, (proj2 (Z.ltb_ge _ _)) by lia. cbn [drop length]. by rewrite app_nil_r. }
  destruct (Z.ltb_spec (zlen room) (zlen c)); [run; no_room|]. run. destruct (view_facts pre room c) as [_ Hc]; [lia|lia|].
  destruct (or_offsets r) as [|o os] eqn:Eos.
  - assert (offset_len r = 0) as -> by (unfold offset_len; by rewrite Eos). cbn [Z.eqb]. unfold body. rewrite zlen_nil, app_nil_r. all_written.
  - assert (offset_len r = 1 + zlen os) as Ho by (unfold offset_len; rewrite Eos; apply zlen_cons). pose proof (zlen_nonneg os). rewrite (proj2 (Z.eqb_neq _ _)) by lia.
    apply Forall_cons_iff in Hos as [Hwo Hos]. change (rd (o :: os) 0) with (Ret o). run. pose proof (put_var_int_writes o Hwo) as Hw. unfold body in *. set (d := varint_digits o) in *. rewrite (zlen_app d) in *.
    pose proof (zlen_nonneg d). pose proof (zlen_nonneg (deltas o os)). past_write Hw; [run; no_room|]. run.
    replace (Z.to_nat (offset_len r - 1)) with (length os) by (rewrite Ho; unfold zlen; lia).
    change 1 with (zlen [o]) at 1. rewrite (put_offsets r os [o]) by (done || lia). set (x := deltas o os) in *. case_if; [run; no_room|]. run.
    destruct (view_facts ((pre ++ c) ++ d) (drop (length d) (drop (length c) room)) x) as [_ Hx]; [lia|lia|]. all_written.
Qed.

Lemma get_offsets mem os : forall dn junk pre rest post last, mem = pre ++ deltas last os ++ rest ++ post -> zlen (deltas last os ++ rest) < 2 ^ 31 -> Forall is_word os -> length junk = length os ->
  for_n (length os) (zlen dn) (get_offset_step mem) (dn ++ junk, View (zlen pre) (zlen (deltas last os ++ rest)), last) =
    Ret (dn ++ os, View (zlen (pre ++ deltas last os)) (zlen rest), foldl (fun _ o => o) last os).
Proof.
  induction os as [|o os IH]; intros dn junk pre rest post last Hm Hlen Hos Hj.
  - destruct junk; [|done]. cbn [for_n length deltas foldl app]. by rewrite !app_nil_r.
  - destruct junk as [|y junk]; [done|]. apply Forall_cons_iff in Hos as [Ho Hos]. cbn [for_n length deltas foldl] in *. unfold get_offset_step at 2.
    pose proof (get_var_int_reads _ (u64_word (o - last))) as Hg. set (d := varint_digits (u64 (o - last))) in *. rewrite <-app_assoc in Hm, Hlen |- *.
    rewrite (reads_go _ _ _ _ pre (deltas o os ++ rest) post Hg) by (done || (rewrite Hm; same_list)). run. rewrite (consume_view_rest pre d) by done. rewrite delta_back by done.
    rewrite (wr_at dn y junk) by done. run. replace (dn ++ o :: junk) with ((dn ++ [o]) ++ junk) by same_list. replace (zlen dn + 1) with (zlen (dn ++ [o])) by (rewrite zlen_app; done).
    rewrite zlen_app in Hlen. pose proof (zlen_nonneg d). rewrite (IH (dn ++ [o]) junk (pre ++ d) rest post o); [by rewrite <-!app_assoc|rewrite Hm; same_list|lia|done|by injection Hj].
Qed.

Lemma obj_decode_reads r key : obj_ok r -> buf_rep key (or_hash_prefix r) -> memory_enough ->
  reads (fun mem v => reftable_obj_record_decode mem key (reftable_obj_record_val_type r) v) (obj_bytes r) (r, zlen (obj_bytes r)).
Proof.
  intros (Hne & Hmax & Hos & Hlen) Hkey Hmem pre rest post Hz. unfold reftable_obj_record_decode, obj_bytes in *. assert (0 <= offset_len r) as Hnn by apply zlen_nonneg.
  pose proof (get_var_int_reads (offset_len r) ltac:(unfold is_word; lia)) as Hcount.
  set (c := if (offset_len r =? 0) || (offset_len r >=? 8) then varint_digits (offset_len r) else []) in *. set (body := match or_offsets r with [] => [] | o :: os => varint_digits o ++ deltas o os end) in *.
  pose proof (zlen_nonneg c). pose proof (zlen_nonneg body). pose proof (zlen_nonneg rest). assert (zlen ((c ++ body) ++ rest) = zlen c + zlen body + zlen rest) as Hz' by (rewrite !zlen_app; lia). rewrite Hz' in Hz.
  assert (0 < zlen (or_hash_prefix r)) as Hpos by (destruct (or_hash_prefix r) as [|x l]; [done|rewrite zlen_cons; pose proof (zlen_nonneg l); lia]).
  assert (forall n k, n <> 0 -> alloc_array n k = Ret tt) as Halloc by (intros n k Hn; unfold alloc_array; rewrite (proj2 (tru_true n) Hn); cbn [negb]; by rewrite Hmem).
  pose proof Hkey as (Hkl & _). rewrite Halloc by lia. run. rewrite (key_string key _ Hkey). run.
  assert ((if reftable_obj_record_val_type r =? 0 then '(n, count) ← get_var_int (pre ++ (c ++ body) ++ rest ++ post) (View (zlen pre) (zlen ((c ++ body) ++ rest)));
      Ret (count, string_view_consume (View (zlen pre) (zlen ((c ++ body) ++ rest))) n) else Ret (reftable_obj_record_val_type r, View (zlen pre) (zlen ((c ++ body) ++ rest)))) =
    Ret (offset_len r, View (zlen (pre ++ c)) (zlen (body ++ rest)))) as ->.
  { replace (View (zlen pre) (zlen ((c ++ body) ++ rest))) with (View (zlen pre) (zlen (c ++ body ++ rest))) by (by rewrite <-app_assoc).
    unfold reftable_obj_record_val_type, c in *. rewrite Z.gtb_ltb, Z.geb_leb in *. destruct (Z.eqb_spec (offset_len r) 0) as [E|E], (Z.leb_spec 8 (offset_len r)) as [E8|E8]; cbn [orb] in *.
    1,2,3: (replace ((if (0 <? offset_len r) && (offset_len r <? 8) then offset_len r else 0) =? 0) with true
        by (destruct (Z.ltb_spec 0 (offset_len r)), (Z.ltb_spec (offset_len r) 8); cbn [andb]; try done; lia));
      (rewrite (reads_go _ _ _ _ pre (body ++ rest) post Hcount) by (same_list || (rewrite !zlen_app in *; lia))); run; by rewrite consume_view_rest by (rewrite !zlen_app in *; lia).
    rewrite (proj2 (Z.ltb_lt 0 _)), (proj2 (Z.ltb_lt _ 8)) by lia. cbn [andb]. rewrite (proj2 (Z.eqb_neq _ _)) by done. by rewrite app_nil_r. }
  run. destruct r as [prefix os0]. cbn [or_offsets or_hash_prefix] in *. destruct os0 as [|o os].
  - cbn [Z.eqb offset_len zlen length or_offsets]. change (offset_len (ObjRecord prefix [])) with 0. cbn [Z.eqb sv_len]. unfold body in *. rewrite app_nil_r in *. do 2 f_equal.
    rewrite zlen_nil in *. cbn [app]. rewrite (zlen_app c rest), u64_small, i32_small by lia. lia.
  - assert (offset_len (ObjRecord prefix (o :: os)) = 1 + zlen os) as Ho by apply zlen_cons. rewrite Ho in *. pose proof (zlen_nonneg os). rewrite (proj2 (Z.eqb_neq _ _)), Halloc by lia. run.
    apply Forall_cons_iff in Hos as [Hwo Hos]. unfold body in *. pose proof (get_var_int_reads o Hwo) as Hg. set (d := varint_digits o) in *. rewrite <-!(app_assoc d (deltas o os) rest).
    rewrite (zlen_app d (deltas o os)) in *. pose proof (zlen_nonneg d). pose proof (zlen_nonneg (deltas o os)). 
    rewrite (reads_go _ _ _ _ (pre ++ c) (deltas o os ++ rest) post Hg) by (same_list || (rewrite !zlen_app; lia)). run.
    rewrite (consume_view_rest (pre ++ c) d) by (rewrite !zlen_app; lia). replace (Z.to_nat (1 + zlen os)) with (S (length os)) by (unfold zlen; lia). cbn [replicate]. rewrite (wr_at [] fresh (replicate (length os) fresh)) by done. run.
    replace (Z.to_nat (1 + zlen os - 1)) with (length os) by (unfold zlen; lia). change 1 with (zlen [o]) at 1. cbn [app]. change (o :: replicate (length os) fresh) with ([o] ++ replicate (length os) fresh).
    rewrite (get_offsets _ os [o] _ ((pre ++ c) ++ d) rest post o) by (same_list || (rewrite ?zlen_app; lia) || done || apply length_replicate). run. cbn [sv_len]. do 2 f_equal.
    rewrite !zlen_app. rewrite u64_small by lia. rewrite i32_small by lia. lia.
Qed.
End obj_records.

Section index_records.
Context `{ReftableHeaderOk} `{RecordHeader}.

Lemma index_encode_writes r : is_word (ir_offset r) -> writes (fun mem v => reftable_index_record_encode mem r v) (varint_digits (ir_offset r)).
Proof.
  intros Hoff pre room post Hroom. unfold reftable_index_record_encode. pose proof (put_var_int_writes _ Hoff) as Hw. set (d := varint_digits (ir_offset r)) in *. pose proof (zlen_nonneg d).
  past_write Hw; [done|]. cbn [sv_len]. rewrite u64_small by lia. rewrite i32_small by lia. do 2 f_equal; [same_list|lia].
Qed.

Lemma index_decode_reads r old s s0 key : is_word (ir_offset r) -> buf_rep (ir_last_key r) s -> buf_rep (ir_last_key old) s0 -> buf_rep key s -> memory_enough ->
  exists r', reads (fun mem v => reftable_index_record_decode mem old key v) (varint_digits (ir_offset r)) (r', zlen (varint_digits (ir_offset r))) /\
    buf_rep (ir_last_key r') s /\ ir_offset r' = ir_offset r.
Proof.
  intros Hoff Hr Hold Hkey Hmem. destruct (reset_spec _ s0 Hold) as (k1 & Hk1 & Hr1). pose proof Hkey as (_ & Hmax & _).
  destruct (buf_add_spec k1 [] s Hr1) as (k2 & Hk2 & Hr2); [rewrite zlen_nil; lia|done|]. exists (IndexRecord k2 (ir_offset r)). split; [|done]. intros pre rest post Hlen.
  unfold reftable_index_record_decode. rewrite Hk1. run. rewrite (key_string key s Hkey). run. rewrite Hk2. run. rewrite (get_var_int_reads _ Hoff) by done. run. rewrite consume_view_rest by done. cbn [sv_len].
  rewrite zlen_app in *. pose proof (zlen_nonneg rest). pose proof (zlen_nonneg (varint_digits (ir_offset r))). rewrite u64_small by lia. rewrite i32_small by lia. do 2 f_equal. lia.
Qed.
End index_records.

(** ** Log entries *)

Section log_records.
Context `{ReftableHeaderOk} `{RecordHeaderOk} (hash_size : Z).
Hypothesis (Hhash : 0 < hash_size).

(** A string that may be NULL. *)
Definition text (s : option (list Z)) : list Z := default [] s.

Definition update_bytes (u : log_update) : list Z :=
  lu_old_hash u ++ lu_new_hash u ++ string_bytes (text (lu_name u)) ++ string_bytes (text (lu_email u)) ++ varint_digits (lu_time u) ++
  be16_bytes (lu_tz_offset u mod 2 ^ 16) ++ string_bytes (text (lu_message u)).

Definition log_bytes (r : log_record) : list Z := if reftable_log_record_is_deletion r then [] else update_bytes (lr_update r).

Definition text_ok (s : option (list Z)) : Prop := no_nul (text s) /\ zlen (text s) < 2 ^ 31.

Definition update_ok (u : log_update) : Prop :=
  zlen (lu_old_hash u) = hash_size /\ zlen (lu_new_hash u) = hash_size /\ is_word (lu_time u) /\ - 2 ^ 15 <= lu_tz_offset u < 2 ^ 15 /\
  text_ok (lu_name u) /\ text_ok (lu_email u) /\ text_ok (lu_message u).

(** A name of at least one byte, and an update unless it is a deletion. *)
Definition log_ok (r : log_record) : Prop :=
  no_nul (lr_refname r) /\ lr_refname r <> [] /\ is_word (lr_update_index r) /\
  (lr_value_type r = REFTABLE_LOG_DELETION \/ lr_value_type r = REFTABLE_LOG_UPDATE /\ update_ok (lr_update r)).

(** Two [memcpy]s next to each other. *)
Lemma wr_pair {A} pre room post a b n (k : list Z -> outcome A) : zlen a = n -> zlen a + zlen b <= zlen room ->
  (mem ← wr_range (pre ++ room ++ post) (zlen pre) a; mem ← wr_range mem (zlen pre + n) b; k mem) =
    k ((pre ++ a ++ b) ++ drop (length (a ++ b)) room ++ post).
Proof.
  intros <- Hle. pose proof (zlen_nonneg a). pose proof (zlen_nonneg b). rewrite wr_view by lia. run. rewrite <-zlen_app. assert (zlen (drop (length a) room) = zlen room - zlen a) as Hd by (rewrite zlen_drop; unfold zlen in *; lia).
  rewrite wr_view by lia. run. f_equal. rewrite drop_drop, length_app. same_list.
Qed.

Lemma be16_view pre room post i : 0 <= i < 2 ^ 16 -> 2 <= zlen room ->
  put_be16 (pre ++ room ++ post) (zlen pre) i = Ret ((pre ++ be16_bytes i) ++ drop (length (be16_bytes i)) room ++ post).
Proof.
  intros Hi Hroom. destruct room as [|x [|y room]]; [by rewrite zlen_nil in Hroom|by change (zlen [x]) with 1 in Hroom|]. cbn [app]. rewrite put_be16_spec by done. by rewrite <-app_assoc.
Qed.

Lemma log_encode_writes r : log_ok r -> writes (fun mem v => reftable_log_record_encode mem r v hash_size) (log_bytes r).
Proof.
  intros (_ & _ & _ & Hr) pre room post Hroom. unfold reftable_log_record_encode, log_bytes, reftable_log_record_is_deletion. destruct log_kinds as [Hk0 Hk1]. pose proof (zlen_nonneg room).
  destruct Hr as [->|(-> & Hold & Hnew & Htime & Htz & [_ Hname] & [_ Hemail] & [_ Hmsg])].
  { rewrite Z.eqb_refl, zlen_nil, (proj2 (Z.ltb_ge _ _)) by lia. done. }
  rewrite (proj2 (Z.eqb_neq _ _)) by lia. set (u := lr_update r) in *. unfold update_bytes. cbn [sv_len sv_buf].
  pose proof (encode_string_writes _ Hname) as Hw1. pose proof (encode_string_writes _ Hemail) as Hw2. pose proof (put_var_int_writes _ Htime) as Hw3. pose proof (encode_string_writes _ Hmsg) as Hw5.
  change (default [] (lu_name u)) with (text (lu_name u)). change (default [] (lu_email u)) with (text (lu_email u)). change (default [] (lu_message u)) with (text (lu_message u)).
  set (d1 := string_bytes (text (lu_name u))) in *. set (d2 := string_bytes (text (lu_email u))) in *. set (d3 := varint_digits (lu_time u)) in *. set (d5 := string_bytes (text (lu_message u))) in *.
  assert (0 <= lu_tz_offset u mod 2 ^ 16 < 2 ^ 16) as Htz' by (apply Z.mod_pos_bound; lia). set (tz := lu_tz_offset u mod 2 ^ 16) in *. set (h := lu_old_hash u ++ lu_new_hash u).
  assert (zlen h = 2 * hash_size) as Hh by (unfold h; rewrite zlen_app; lia). change (zlen (be16_bytes tz)) with 2.
  pose proof (zlen_nonneg d1). pose proof (zlen_nonneg d2). pose proof (zlen_nonneg d3). pose proof (zlen_nonneg d5).
  assert (lu_old_hash u ++ lu_new_hash u ++ d1 ++ d2 ++ d3 ++ be16_bytes tz ++ d5 = h ++ d1 ++ d2 ++ d3 ++ be16_bytes tz ++ d5) as -> by (unfold h; same_list).
  rewrite !(zlen_app h), !(zlen_app d1), !(zlen_app d2), !(zlen_app d3), !(zlen_app (be16_bytes tz)). change (zlen (be16_bytes tz)) with 2.
  case_if; [no_room|]. rewrite (rd_whole (lu_old_hash u)) by done. run. rewrite (rd_whole (lu_new_hash u)) by done. run.
  rewrite (wr_pair pre room post _ _ hash_size) by lia. fold h. rewrite <-!Hh in *. destruct (view_facts pre room h) as [Hv Hd]; [lia|lia|]. rewrite !Hv. clear Hv.
  past_write Hw1; [no_room|]. past_write Hw2; [no_room|]. past_write Hw3; [no_room|]. cbn [sv_len sv_buf].
  case_if; [no_room|]. rewrite be16_view by lia. run. set (pre4 := (((pre ++ h) ++ d1) ++ d2) ++ d3). set (room4 := drop (length d3) (drop (length d2) (drop (length d1) (drop (length h) room)))) in *.
  destruct (view_facts pre4 room4 (be16_bytes tz)) as [Hv4 Hd4]; [lia|change (zlen (be16_bytes tz)) with 2; lia|]. change (zlen (be16_bytes tz)) with 2 in Hv4, Hd4. rewrite !Hv4.
  assert (zlen room - zlen h - zlen d1 - zlen d2 - zlen d3 = zlen room4) by lia. past_write Hw5; [no_room|]. unfold pre4, room4 in *. all_written.
Qed.

(** The name, a NUL and the index counted down. *)
Definition log_key (r : log_record) : list Z := lr_refname r ++ 0 :: be_bytes 8 (u64 (wnot 0 - lr_update_index r)).

Lemma keep_string_spec old scratch s : buf_rep scratch s -> no_nul s -> memory_enough -> keep_string old scratch = Ret s.
Proof.
  intros Hs Hn Hmem. pose proof Hs as (Hl & _). pose proof (zlen_nonneg s). unfold keep_string. rewrite (buf_c_string scratch s) by done.
  assert (forall A (k : list Z -> outcome A), (p ← reftable_realloc [] (rb_len scratch + 1); xs ← rd_range (rb_buf scratch) 0 (rb_len scratch); k xs) = k s) as Hnew.
  { intros A k. unfold reftable_realloc. rewrite Hl, (proj2 (tru_true _)), Hmem by lia. cbn [negb]. run. rewrite <-Hl, (key_string scratch s) by done. done. }
  destruct old as [o|]; [|rewrite Hnew; by rewrite (c_string_app s [])].
  destruct (tru (bytes_cmp o s)) eqn:E; [rewrite Hnew; by rewrite (c_string_app s [])|]. apply tru_false, bytes_cmp_eq in E. by subst o.
Qed.

Lemma complement_back x : is_word x -> is_word (u64 (wnot 0 - x)) /\ u64 (wnot 0 - u64 (wnot 0 - x)) = x.
Proof. intros Hx. split; [apply u64_range|]. unfold is_word in Hx. change (wnot 0) with (2 ^ 64 - 1). rewrite (u64_small (_ - x)) by lia. rewrite u64_small by lia. lia. Qed.

Lemma be_bytes_length n x : length (be_bytes n x) = n.
Proof. revert x. induction n as [|n IH]; intros x; [done|]. cbn [be_bytes]. rewrite length_app, IH. cbn. lia. Qed.

(** What the decoder takes from the key. *)
Lemma log_key_read r key : no_nul (lr_refname r) -> lr_refname r <> [] -> buf_rep key (log_key r) ->
  (rb_len key <=? 9) = false /\ rd (rb_buf key) (rb_len key - 9) = Ret 0 /\
  rd_range (rb_buf key) 0 (rb_len key - 8) = Ret (lr_refname r ++ [0]) /\
  rd_range (rb_buf key) (rb_len key - 8) 8 = Ret (be_bytes 8 (u64 (wnot 0 - lr_update_index r))).
Proof.
  intros Hn Hne Hk. pose proof Hk as (Hl & _). unfold log_key in *. set (name := lr_refname r) in *. set (ts := be_bytes 8 _) in *. assert (zlen ts = 8) as Hts by (unfold zlen, ts; by rewrite be_bytes_length).
  assert (0 < zlen name) as Hpos by (destruct name as [|x l]; [done|rewrite zlen_cons; pose proof (zlen_nonneg l); lia]). rewrite zlen_app, zlen_cons in Hl.
  assert (rb_len key = zlen name + 9) as -> by lia. split; [apply Z.leb_gt; lia|].
  split; [|split].
  - apply (buf_rep_rd _ _ _ _ Hk); [lia|]. replace (Z.to_nat (zlen name + 9 - 9)) with (length name) by (unfold zlen; lia). by apply list_lookup_middle.
  - rewrite (buf_rep_slice _ _ _ _ Hk) by (rewrite ?zlen_app, ?zlen_cons; lia). f_equal. replace (name ++ 0 :: ts) with ((name ++ [0]) ++ ts) by same_list.
    replace (zlen name + 9 - 8) with (zlen (name ++ [0])) by (rewrite zlen_app; change (zlen [0]) with 1; lia). apply (take_drop_zlen (name ++ [0]) ts).
  - rewrite (buf_rep_slice _ _ _ _ Hk) by (rewrite ?zlen_app, ?zlen_cons; lia). f_equal. unfold slice. replace (name ++ 0 :: ts) with ((name ++ [0]) ++ ts) by same_list.
    replace (zlen name + 9 - 8) with (zlen (name ++ [0])) by (rewrite zlen_app; change (zlen [0]) with 1; lia). rewrite (proj2 (take_drop_zlen (name ++ [0]) ts)). apply take_ge. unfold zlen in Hts. lia.
Qed.

(** The same entry, NULL strings being read as empty ones. *)
Definition same_update (u w : log_update) : Prop :=
  lu_old_hash w = lu_old_hash u /\ lu_new_hash w = lu_new_hash u /\ lu_time w = lu_time u /\ lu_tz_offset w = lu_tz_offset u /\
  text (lu_name w) = text (lu_name u) /\ text (lu_email w) = text (lu_email u) /\ text (lu_message w) = text (lu_message u).

Definition same_log (r r' : log_record) : Prop :=
  lr_refname r' = lr_refname r /\ lr_update_index r' = lr_update_index r /\ lr_value_type r' = lr_value_type r /\
  (lr_value_type r = REFTABLE_LOG_UPDATE -> same_update (lr_update r) (lr_update r')).

Lemma s16_back x : - 2 ^ 15 <= x < 2 ^ 15 -> s16 (x mod 2 ^ 16) = x.
Proof. intros Hx. unfold s16. rewrite Zplus_mod_idemp_l, Z.mod_small by lia. lia. Qed.

(** Goes past a read at the view of the memory [mem], which ends with [post]. *)
Ltac past_read mem post H :=
  match type of H with
  | reads ?f ?out _ =>
      match goal with
      | Hm : mem = _ |- context [View (zlen ?pre) (zlen (out ++ ?rest))] =>
          let Hr := fresh in pose proof (reads_go f out _ mem pre rest post H ltac:(rewrite Hm; same_list) ltac:(fits)) as Hr; cbv beta in Hr; rewrite Hr; clear Hr; run;
          rewrite (consume_view_rest pre out rest) by fits
      end
  end.

Lemma update_reads u u0 scratch s0 : update_ok u -> buf_rep scratch s0 -> memory_enough ->
  exists u' scratch' s1, buf_rep scratch' s1 /\ same_update u u' /\
    forall mem pre rest post, mem = pre ++ update_bytes u ++ rest ++ post -> zlen (update_bytes u ++ rest) < 2 ^ 31 ->
      log_decode_update mem u0 (View (zlen pre) (zlen (update_bytes u ++ rest))) hash_size scratch = Ret (u', View (zlen (pre ++ update_bytes u)) (zlen rest), scratch').
Proof.
  intros (Hold & Hnew & Htime & Htz & [Hn1 Hl1] & [Hn2 Hl2] & [Hn3 Hl3]) Hscratch Hmem.
  destruct (decode_string_reads _ scratch s0 Hl1 Hscratch Hmem) as (b1 & Hb1 & Hw1). destruct (decode_string_reads _ b1 _ Hl2 Hb1 Hmem) as (b2 & Hb2 & Hw2).
  pose proof (get_var_int_reads _ Htime) as Hw3. destruct (decode_string_reads _ b2 _ Hl3 Hb2 Hmem) as (b3 & Hb3 & Hw5).
  destruct (grow_cap_ok (rb_len b3 + 1) (lu_message_cap u0) Hmem) as [cap Hcap].
  exists (LogUpdate (lu_new_hash u) (lu_old_hash u) (Some (text (lu_name u))) (Some (text (lu_email u))) (lu_time u) (lu_tz_offset u) (Some (text (lu_message u))) cap), b3, (text (lu_message u)).
  split; [done|]. split; [done|]. intros mem pre rest post Hm Hlen. unfold update_bytes in *.
  set (d1 := string_bytes (text (lu_name u))) in *. set (d2 := string_bytes (text (lu_email u))) in *. set (d3 := varint_digits (lu_time u)) in *. set (d5 := string_bytes (text (lu_message u))) in *.
  set (d4 := be16_bytes (lu_tz_offset u mod 2 ^ 16)) in *. assert (zlen d4 = 2) as Hd4 by done. set (h1 := lu_old_hash u) in *. set (h2 := lu_new_hash u) in *. pose proof (zlen_nonneg rest).
  replace ((h1 ++ h2 ++ d1 ++ d2 ++ d3 ++ d4 ++ d5) ++ rest) with ((h1 ++ h2) ++ d1 ++ d2 ++ d3 ++ d4 ++ d5 ++ rest) in * by same_list.
  pose proof (zlen_nonneg d1). pose proof (zlen_nonneg d2). pose proof (zlen_nonneg d3). pose proof (zlen_nonneg d5). assert (zlen (h1 ++ h2) = 2 * hash_size) as Hh by (rewrite zlen_app; lia).
  unfold log_decode_update. cbn [sv_len sv_buf]. rewrite (proj2 (Z.ltb_ge _ _)) by fits.
  rewrite (rd_go mem pre h1 (h2 ++ d1 ++ d2 ++ d3 ++ d4 ++ d5 ++ rest ++ post)) by (done || (rewrite Hm; same_list)). run. replace (zlen pre + hash_size) with (zlen (pre ++ h1)) by (rewrite zlen_app; lia).
  rewrite (rd_go mem (pre ++ h1) h2 (d1 ++ d2 ++ d3 ++ d4 ++ d5 ++ rest ++ post)) by (done || (rewrite Hm; same_list)). run. rewrite <-Hh, (consume_view_rest pre (h1 ++ h2)) by done.
  past_read mem post Hw1. rewrite (keep_string_spec (lu_name u0) b1 _ Hb1 Hn1 Hmem). run.
  past_read mem post Hw2. rewrite (keep_string_spec (lu_email u0) b2 _ Hb2 Hn2 Hmem). run. past_read mem post Hw3. cbn [sv_len sv_buf]. rewrite (proj2 (Z.ltb_ge _ _)) by fits.
  match goal with |- context [rd_range mem (zlen ?p) 2] => rewrite (rd_go mem p d4 (d5 ++ rest ++ post)) by (done || (rewrite Hm; same_list)) end. run. rewrite <-Hd4, consume_view_rest by fits.
  past_read mem post Hw5. rewrite Hcap. run. rewrite (key_string b3 _ Hb3). run. rewrite c_string_app by done. unfold d4 at 1. rewrite get_be16_spec, s16_back by (done || (apply Z.mod_pos_bound; lia)).
  do 5 f_equal. same_list.
Qed.

Lemma log_decode_reads r old key scratch s0 : log_ok r -> buf_rep key (log_key r) -> buf_rep scratch s0 -> memory_enough ->
  exists r' scratch' s1, reads (fun mem v => reftable_log_record_decode mem old key (reftable_log_record_val_type r) v hash_size scratch) (log_bytes r)
      (r', scratch', zlen (log_bytes r)) /\ same_log r r' /\ buf_rep scratch' s1.
Proof.
  intros (Hname & Hne & Hidx & Hr) Hkey Hscratch Hmem. destruct (log_key_read r key Hname Hne Hkey) as (Hk1 & Hk2 & Hk3 & Hk4). destruct log_kinds as [Hz0 Hz1].
  destruct (complement_back _ Hidx) as [Hword Hback]. unfold log_bytes, reftable_log_record_val_type, reftable_log_record_is_deletion.
  destruct (grow_cap_ok (rb_len key - 8) (lr_refname_cap old) Hmem) as [cap Hcap]. destruct Hr as [Hty|(Hty & Hu)]; rewrite Hty.
  - rewrite Z.eqb_refl. eexists (LogRecord (lr_refname r) cap (lr_update_index r) 0 _), scratch, s0. split; [|split; [|done]].
    + intros pre rest post Hlen. unfold reftable_log_record_decode. rewrite Hk1, Hk2. run. change (tru 0) with false. cbn [negb]. rewrite Hcap. run. rewrite Hk3. run. rewrite Hk4. run.
      rewrite get_be64_spec, Hback by done. rewrite c_string_app by done. rewrite Hz0, Z.eqb_refl. reflexivity.
    + split; [done|]. split; [done|]. split; [by rewrite Hty, Hz0|]. intros; lia.
  - rewrite (proj2 (Z.eqb_neq _ _)) by lia.
    destruct (update_reads (lr_update r) (if negb (1 =? lr_value_type old) && (lr_value_type old =? REFTABLE_LOG_UPDATE)
      then LogUpdate (lu_new_hash (lr_update old)) (lu_old_hash (lr_update old)) None None (lu_time (lr_update old)) (lu_tz_offset (lr_update old)) None 0 else lr_update old)
      scratch s0 Hu Hscratch Hmem) as (u' & scratch' & s1 & Hs1 & Hsame & Hread).
    exists (LogRecord (lr_refname r) cap (lr_update_index r) 1 u'), scratch', s1. split; [|split; [|done]]; [|by split; [|split; [|split; [rewrite Hty, Hz1|]]]].
    intros pre rest post Hlen. unfold reftable_log_record_decode. rewrite Hk1, Hk2. run. change (tru 0) with false. cbn [negb]. rewrite Hcap. run. rewrite Hk3. run. rewrite Hk4. run.
    rewrite get_be64_spec, Hback by done. rewrite c_string_app by done. rewrite Hz0. change (1 =? 0) with false. cbn match. rewrite (Hread _ pre rest post) by (same_list || done). run. cbn [sv_len].
    rewrite zlen_app in *. pose proof (zlen_nonneg rest). pose proof (zlen_nonneg (update_bytes (lr_update r))). rewrite u64_small by lia. rewrite i32_small by lia. do 2 f_equal. lia.
Qed.
End log_records.

(** * All records *)

Section records.
Context `{ReftableHeaderOk} `{RecordHeaderOk} (hash_size : Z).
Hypothesis (Hhash : 0 < hash_size).

Definition record_ok (rec : reftable_record) : Prop :=
  match rec with RecRef r => ref_ok hash_size r | RecLog r => log_ok hash_size r | RecObj r => obj_ok r | RecIndex r => is_word (ir_offset r) end.

(** [k] is the key of the record. *)
Definition record_keyed (rec : reftable_record) (k : list Z) : Prop :=
  match rec with RecRef r => k = rr_refname r | RecLog r => k = log_key r | RecObj r => k = or_hash_prefix r | RecIndex r => buf_rep (ir_last_key r) k end.

Definition record_bytes (rec : reftable_record) : list Z :=
  match rec with RecRef r => ref_bytes r | RecLog r => log_bytes r | RecObj r => obj_bytes r | RecIndex r => varint_digits (ir_offset r) end.

(** What the bytes say of a record; capacities and the place of a key are left out. *)
Definition same_record (a b : reftable_record) : Prop :=
  match a, b with
  | RecRef a, RecRef b => same_ref a b
  | RecLog a, RecLog b => same_log a b
  | RecObj a, RecObj b => a = b
  | RecIndex a, RecIndex b => ir_offset a = ir_offset b /\ exists k, buf_rep (ir_last_key a) k /\ buf_rep (ir_last_key b) k
  | _, _ => False
  end.

(** A record to decode into. *)
Definition same_kind (a b : reftable_record) : Prop :=
  match a, b with
  | RecRef _, RecRef _ | RecLog _, RecLog _ | RecObj _, RecObj _ => True
  | RecIndex _, RecIndex b => exists s, buf_rep (ir_last_key b) s
  | _, _ => False
  end.

Lemma record_key_spec rec k dest s : record_keyed rec k -> zlen k < 2 ^ 31 -> buf_rep dest s -> memory_enough ->
  exists key, reftable_record_key rec dest = Ret key /\ buf_rep key k.
Proof.
  intros Hk Hlen Hdest Hmem. destruct (reset_spec dest s Hdest) as (d0 & Hd0 & Hr0). pose proof (zlen_nonneg k).
  destruct (buf_add_spec d0 [] k Hr0) as (d1 & Hd1 & Hr1); [rewrite zlen_nil; lia|done|].
  destruct rec as [r|r|r|r]; cbn [record_keyed reftable_record_key] in *.
  - subst k. exists d1. split; [|done]. unfold reftable_ref_record_key. rewrite Hd0. run. done.
  - subst k. unfold log_key in *. replace (lr_refname r ++ 0 :: be_bytes 8 (u64 (wnot 0 - lr_update_index r))) with ((lr_refname r ++ [0]) ++ be_bytes 8 (u64 (wnot 0 - lr_update_index r))) in * by same_list.
    set (ts := be_bytes 8 _) in *. rewrite zlen_app in *. pose proof (zlen_nonneg ts). destruct (buf_add_spec d0 [] (lr_refname r ++ [0]) Hr0) as (e1 & He1 & Hs1); [rewrite zlen_nil; lia|done|].
    destruct (buf_add_spec e1 _ ts Hs1) as (e2 & He2 & Hs2); [cbn [app]; lia|done|]. exists e2. split; [|done]. unfold reftable_log_record_key. rewrite Hd0. run. rewrite He1. run.
    rewrite put_be64_spec by apply u64_range. done.
  - subst k. exists d1. split; [|done]. unfold reftable_obj_record_key. rewrite Hd0. run. done.
  - exists d1. split; [|done]. unfold reftable_index_record_key. rewrite Hd0. run. rewrite (key_string _ k Hk). run. done.
Qed.

Lemma record_encode_writes rec : record_ok rec -> writes (fun mem v => reftable_record_encode mem rec v hash_size) (record_bytes rec).
Proof.
  destruct rec as [r|r|r|r]; intros Hok; [by apply ref_encode_writes|by apply log_encode_writes|by apply obj_encode_writes|by apply index_encode_writes].
Qed.

Lemma val_type_fits rec : record_ok rec -> 0 <= reftable_record_val_type rec < 8.
Proof.
  destruct rec as [r|r|r|r]; intros Hok; cbn [reftable_record_val_type].
  - pose proof ref_kinds_fit as Hf. rewrite !Forall_cons in Hf. destruct Hf as (? & ? & ? & ? & _). unfold reftable_ref_record_val_type. by destruct (rr_value r).
  - unfold reftable_log_record_val_type. case_if; lia.
  - unfold reftable_obj_record_val_type. rewrite Z.gtb_ltb. destruct (Z.ltb_spec 0 (offset_len r)), (Z.ltb_spec (offset_len r) 8); cbn [andb]; lia.
  - done.
Qed.

Lemma record_decode_reads rec old k key scratch s0 : record_ok rec -> record_keyed rec k -> same_kind rec old -> buf_rep key k -> buf_rep scratch s0 -> memory_enough ->
  exists rec' scratch' s1, reads (fun mem v => reftable_record_decode mem old key (reftable_record_val_type rec) v hash_size scratch) (record_bytes rec)
      (rec', scratch', zlen (record_bytes rec)) /\ same_record rec rec' /\ buf_rep scratch' s1.
Proof.
  intros Hok Hk Hkind Hkey Hscratch Hmem. destruct rec as [r|r|r|r], old as [o|o|o|o]; try done; cbn [record_ok record_keyed same_kind record_bytes] in *.
  - subst k. destruct (ref_decode_reads hash_size Hhash r o key scratch s0) as (r' & scratch' & s1 & Hr & Hsame & Hs1); [done..|]. exists (RecRef r'), scratch', s1. split; [|done].
    intros pre rest post Hlen. cbn [reftable_record_decode reftable_record_val_type]. by rewrite Hr.
  - subst k. destruct (log_decode_reads hash_size Hhash r o key scratch s0) as (r' & scratch' & s1 & Hr & Hsame & Hs1); [done..|]. exists (RecLog r'), scratch', s1. split; [|done].
    intros pre rest post Hlen. cbn [reftable_record_decode reftable_record_val_type]. by rewrite Hr.
  - subst k. exists (RecObj r), scratch, s0. split; [|done]. intros pre rest post Hlen. cbn [reftable_record_decode reftable_record_val_type]. by rewrite (obj_decode_reads r key).
  - destruct Hkind as [s Hs]. destruct (index_decode_reads r o k s key) as (r' & Hr & Hk' & Ho); [done..|]. exists (RecIndex r'), scratch, s0. split; [|split; [|done]]; [|split; [done|by exists k]].
    intros pre rest post Hlen. cbn [reftable_record_decode]. by rewrite Hr.
Qed.
Lemma bytes_cmp_refl x : bytes_cmp x x = 0.
Proof. by apply bytes_cmp_eq. Qed.

Lemma memcmp_refl x n : 0 <= n <= zlen x -> memcmp x x n = Ret 0.
Proof. intros Hn. unfold memcmp. rewrite rd_range_in by lia. run. by rewrite bytes_cmp_refl. Qed.

Lemma buf_cmp_same a b k : buf_rep a k -> buf_rep b k -> reftable_buf_cmp a b = Ret 0.
Proof.
  intros Ha Hb. unfold reftable_buf_cmp. pose proof Ha as (-> & _). pose proof Hb as (Hlb & _). rewrite Hlb, Z.ltb_irrefl. cbn match. pose proof (key_string a k Ha) as Hra. pose proof (key_string b k Hb) as Hrb.
  pose proof Ha as (Hla & _). rewrite Hla in Hra. rewrite Hlb in Hrb. rewrite Hra, Hrb. run. rewrite bytes_cmp_refl, Z.eqb_refl. by destruct (tru (zlen k)).
Qed.

Lemma same_record_equal rec rec' : record_ok rec -> same_record rec rec' -> reftable_record_equal rec rec' hash_size = Ret true.
Proof.
  destruct rec as [r|r|r|r], rec' as [r'|r'|r'|r']; intros Hok Hsame; try done; cbn [reftable_record_equal same_record record_ok] in *.
  - destruct Hsame as (Hname & Hidx & Hval). destruct Hok as (_ & _ & Hv). unfold reftable_ref_record_equal, null_streq, reftable_ref_record_val_type. rewrite (proj2 (Z.leb_gt _ _)) by lia. cbn [default].
    change (default [] (Some ?x)) with x. rewrite Hname, Hidx, Hval, bytes_cmp_refl, !Z.eqb_refl. cbn [negb orb]. destruct (rr_value r) as [|v|v t|s]; [done| | |by rewrite bytes_cmp_refl].
    + rewrite memcmp_refl by lia. done.
    + destruct Hv. rewrite memcmp_refl by lia. run. change (tru 0) with false. cbn match. rewrite memcmp_refl by lia. done.
  - destruct Hsame as (Hname & Hidx & Hty & Hu). destruct Hok as (_ & _ & _ & Hr). unfold reftable_log_record_equal, null_streq. rewrite Hname, Hidx, Hty, !bytes_cmp_refl, !Z.eqb_refl. cbn [andb negb].
    destruct Hr as [->|(Heq & Hold & Hnew & _)]; [by rewrite Z.eqb_refl|]. destruct log_kinds as [Hz0 Hz1]. rewrite (proj2 (Z.eqb_neq _ _)) by lia. rewrite Heq, Z.eqb_refl.
    destruct (Hu Heq) as (-> & -> & -> & -> & Hn1 & Hn2 & Hn3). unfold text in *. rewrite Hn1, Hn2, Hn3, !bytes_cmp_refl, !Z.eqb_refl. cbn [andb negb].
    rewrite memcmp_refl by lia. run. change (tru 0) with false. cbn match. rewrite memcmp_refl by lia. done.
  - subst r'. unfold reftable_obj_record_equal_void. rewrite !Z.eqb_refl. cbn [negb orb]. pose proof (zlen_nonneg (or_hash_prefix r)). rewrite memcmp_refl by lia.
    rewrite bool_decide_eq_true_2 by done. by destruct (tru (zlen (or_hash_prefix r))).
  - destruct Hsame as (Hoff & k & Hk & Hk'). unfold reftable_index_record_equal. rewrite Hoff, Z.eqb_refl. cbn [negb]. by rewrite (buf_cmp_same _ _ k).
Qed.

(** ** Copies *)

(** Objects with offsets, and log entries without NULL strings. *)
Definition copyable (rec : reftable_record) : Prop :=
  match rec with
  | RecObj r => or_offsets r <> []
  | RecLog r => lr_value_type r = REFTABLE_LOG_UPDATE -> lu_name (lr_update r) <> None /\ lu_email (lr_update r) <> None /\ lu_message (lr_update r) <> None
  | _ => True
  end.

Lemma strdup_spec s : no_nul s -> memory_enough -> strdup_string s = Ret s.
Proof.
  intros Hs Hmem. pose proof (zlen_nonneg s). unfold strdup_string, reftable_strdup, reftable_malloc. rewrite (proj2 (tru_true _)), Hmem by lia. cbn [negb]. run.
  rewrite wr_range_in; [|lia|rewrite zlen_app; change (zlen [0]) with 1; unfold zlen; rewrite length_replicate; lia]. run. rewrite <-app_assoc. change (Z.to_nat 0) with 0%nat. rewrite take_0. cbn [app]. by rewrite c_string_app.
Qed.

Lemma strdup_text_spec s : text_ok s -> s <> None -> memory_enough -> strdup_text s = Ret (text s).
Proof. intros [Hs _] Hne Hmem. destruct s as [s|]; [by apply strdup_spec|done]. Qed.

Lemma zlen_nonempty (l : list Z) : l <> [] -> zlen l <> 0.
Proof. destruct l as [|x l]; [done|]. rewrite zlen_cons. pose proof (zlen_nonneg l). lia. Qed.

Lemma alloc_array_ok n size : n <> 0 -> memory_enough -> alloc_array n size = Ret tt.
Proof. intros Hn Hmem. unfold alloc_array. by rewrite (proj2 (tru_true n) Hn), Hmem. Qed.

Lemma record_copy_same rec old k : record_ok rec -> record_keyed rec k -> same_kind rec old -> copyable rec -> memory_enough ->
  exists rec', reftable_record_copy_from old rec hash_size = Ret rec' /\ same_record rec rec'.
Proof.
  intros Hok Hk Hkind Hcopy Hmem. destruct rec as [r|r|r|r], old as [o|o|o|o]; try done; cbn [record_ok same_kind copyable reftable_record_copy_from record_keyed] in *.
  - destruct (grow_cap_ok (zlen (rr_refname r) + 1) (rr_refname_cap o) Hmem) as [cap Hcap]. destruct Hok as (_ & _ & Hv). exists (RecRef (RefRecord (rr_refname r) cap (rr_update_index r) (rr_value r))).
    split; [|done]. unfold reftable_ref_record_copy_from. rewrite (proj2 (Z.leb_gt _ _)), Hcap by lia. run. destruct (rr_value r) as [|v|v t|s]; [done| | |by rewrite strdup_spec by tauto].
    + by rewrite rd_whole by done.
    + destruct Hv. rewrite rd_whole by done. run. by rewrite rd_whole by done.
  - destruct Hok as (Hname & _ & _ & Hr). unfold reftable_log_record_copy_from. rewrite strdup_spec by done. run. destruct log_kinds as [Hz0 Hz1]. destruct Hr as [Hty|(Hty & Hu)]; rewrite Hty in *.
    + rewrite (proj2 (Z.eqb_neq _ _)) by lia. run. eexists. split; [done|]. split; [done|]. split; [done|]. split; [done|]. intros; lia.
    + rewrite Z.eqb_refl. destruct Hu as (_ & _ & _ & _ & Hn1 & Hn2 & Hn3), (Hcopy eq_refl) as (Hs1 & Hs2 & Hs3). rewrite (strdup_text_spec _ Hn2), (strdup_text_spec _ Hn1), (strdup_text_spec _ Hn3) by done. by eexists.
  - exists (RecObj r). split; [|done]. destruct Hok as (Hne & _). unfold reftable_obj_record_copy_from, offset_len. rewrite !alloc_array_ok by (done || by apply zlen_nonempty). by destruct r.
  - destruct Hkind as [s Hs]. destruct (reset_spec _ s Hs) as (k1 & Hk1 & Hr1). pose proof Hk as (_ & Hmax & _). destruct (buf_add_spec k1 [] k Hr1) as (k2 & Hk2 & Hr2); [rewrite zlen_nil; lia|done|].
    exists (RecIndex (IndexRecord k2 (ir_offset r))). split; [|split; [done|by exists k]]. unfold reftable_index_record_copy_from. rewrite Hk1. run. rewrite (key_string _ k Hk). run. by rewrite Hk2.
Qed.

(** [C33] A record is written into a block as its key, cut by what it has in common
    with the key before it, and its value.  For records of all four kinds, references,
    log entries, object prefixes and indices: when there is room for them,
    [reftable_record_key], [reftable_encode_key] and [reftable_record_encode] succeed,
    write nothing outside the view, and [reftable_decode_key] and
    [reftable_record_decode] take the same number of bytes back, whatever follows
    them, and give a record that [reftable_record_equal] finds equal. *)
Theorem reftable_record_roundtrip rec old k s last last' s0 dest scratch s1 pre room post :
  record_ok rec -> record_keyed rec k -> same_kind rec old -> zlen k < 2 ^ 31 -> memory_enough ->
  buf_rep last s -> buf_rep last' s -> buf_rep dest s0 -> buf_rep scratch s1 ->
  let out := key_bytes s k (reftable_record_val_type rec) ++ record_bytes rec in zlen out <= zlen room < 2 ^ 31 ->
  let v := View (zlen pre) (zlen room) in let mem := pre ++ out ++ drop (length out) room ++ post in
  exists key mem1 restart n m key' rec' scratch',
    reftable_record_key rec dest = Ret key /\
    reftable_encode_key (pre ++ room ++ post) v last key (reftable_record_val_type rec) = Ret (mem1, restart, n) /\
    reftable_record_encode mem1 rec (string_view_consume v n) hash_size = Ret (mem, m) /\
    reftable_decode_key mem last' v = Ret (key', reftable_record_val_type rec, n) /\
    reftable_record_decode mem old key' (reftable_record_val_type rec) (string_view_consume v n) hash_size scratch = Ret (rec', scratch', m) /\
    same_record rec rec' /\ reftable_record_equal rec rec' hash_size = Ret true.
Proof.
  intros Hok Hk Hkind Hlen Hmem Hlast Hlast' Hdest Hscratch out Hroom v mem. pose proof (val_type_fits rec Hok) as Hx. set (x := reftable_record_val_type rec) in *. set (d := key_bytes s k x) in *.
  destruct (record_key_spec rec k dest s0) as (key & Hkey & Hrk); [done..|]. destruct (decode_key_reads last' s k x Hlast' Hlen Hx Hmem) as (key' & Hrk' & Hread). fold d in Hread.
  destruct (record_decode_reads rec old k key' scratch s1) as (rec' & scratch' & s2 & Hdec & Hsame & _); [done..|]. fold x in Hdec. pose proof (record_encode_writes rec Hok) as Hw. set (e := record_bytes rec) in *.
  unfold out in *. set (rest := drop (length (d ++ e)) room) in *. rewrite zlen_app in Hroom. pose proof (zlen_nonneg d). pose proof (zlen_nonneg e). destruct (view_facts pre room d) as [Hv Hd]; [lia|lia|].
  assert (zlen rest = zlen room - zlen d - zlen e) as Hrest by (unfold rest; rewrite zlen_drop; unfold zlen in *; rewrite length_app; lia).
  exists key, (pre ++ d ++ drop (length d) room ++ post), (common_prefix s k =? 0), (zlen d), (zlen e), key', rec', scratch'. unfold v. rewrite Hv.
  split; [done|]. split; [|split; [|split; [|split; [|split; [done|by apply same_record_equal]]]]].
  - rewrite (encode_key_writes last key s k) by (done || lia). fold d. by rewrite (proj2 (Z.ltb_ge _ _)) by lia.
  - pose proof (Hw (pre ++ d) (drop (length d) room) post ltac:(lia)) as He. cbv beta in He. rewrite <-app_assoc in He. rewrite He, (proj2 (Z.ltb_ge _ _)) by lia. unfold mem, rest. do 2 f_equal.
    rewrite drop_drop, length_app. same_list.
  - assert (zlen room = zlen (d ++ e ++ rest)) as -> by (rewrite !zlen_app; lia).
    unfold mem. replace (pre ++ (d ++ e) ++ rest ++ post) with (pre ++ d ++ (e ++ rest) ++ post) by same_list. apply (Hread pre (e ++ rest) post). fits.
  - assert (zlen (drop (length d) room) = zlen (e ++ rest)) as -> by (rewrite !zlen_app; lia).
    unfold mem. replace (pre ++ (d ++ e) ++ rest ++ post) with ((pre ++ d) ++ e ++ rest ++ post) by same_list. apply (Hdec (pre ++ d) rest post). fits.
Qed.
(** ** Order *)

(** Comparing the ends of two strings of one length comes second. *)
Lemma bytes_cmp_app_len p q a b : length p = length q -> bytes_cmp (p ++ a) (q ++ b) = if bytes_cmp p q =? 0 then bytes_cmp a b else bytes_cmp p q.
Proof.
  revert q. induction p as [|x p IH]; intros [|y q] Hlen; try done. cbn [app bytes_cmp]. destruct (Z.eqb_spec x y); [apply IH; by injection Hlen|]. by rewrite (proj2 (Z.eqb_neq _ _)) by lia.
Qed.

(** Big-endian integers are in the order of their bytes. *)
Lemma be_bytes_order n : forall x y, 0 <= x < 256 ^ Z.of_nat n -> 0 <= y < 256 ^ Z.of_nat n -> Z.sgn (bytes_cmp (be_bytes n x) (be_bytes n y)) = Z.sgn (x - y).
Proof.
  induction n as [|n IH]; intros x y Hx Hy; [change (256 ^ Z.of_nat 0) with 1 in *; assert (x = 0) as -> by lia; assert (y = 0) as -> by lia; done|]. cbn [be_bytes].
  rewrite Nat2Z.inj_succ, Z.pow_succ_r in Hx, Hy by lia. rewrite bytes_cmp_app_len by (by rewrite !be_bytes_length).
  assert (Z.sgn (bytes_cmp (be_bytes n (x / 256)) (be_bytes n (y / 256))) = Z.sgn (x / 256 - y / 256)) as Hrec by (apply IH; (split; [apply Z.div_pos; lia|apply Z.div_lt_upper_bound; lia])).
  pose proof (Z.div_mod x 256 ltac:(lia)). pose proof (Z.div_mod y 256 ltac:(lia)). pose proof (Z.mod_pos_bound x 256 ltac:(lia)). pose proof (Z.mod_pos_bound y 256 ltac:(lia)).
  destruct (Z.eqb_spec (bytes_cmp (be_bytes n (x / 256)) (be_bytes n (y / 256))) 0) as [E|E].
  - rewrite E in Hrec. cbn [bytes_cmp]. destruct (Z.eqb_spec (x mod 256) (y mod 256)); lia.
  - rewrite Hrec. lia.
Qed.

(** The NUL behind a name sorts a name before the longer ones. *)
Lemma name_order p q a b : Forall (fun c => 0 < c) p -> Forall (fun c => 0 < c) q -> p <> q -> Z.sgn (bytes_cmp (p ++ 0 :: a) (q ++ 0 :: b)) = Z.sgn (bytes_cmp p q).
Proof.
  revert q. induction p as [|x p IH]; intros [|y q] Hp Hq Hne; [done| | |]; rewrite ?Forall_cons in Hp; rewrite ?Forall_cons in Hq; cbn [app bytes_cmp].
  - rewrite (proj2 (Z.eqb_neq _ _)) by lia. lia.
  - rewrite (proj2 (Z.eqb_neq _ _)) by lia. lia.
  - destruct (Z.eqb_spec x y) as [->|]; [|done]. apply IH; [tauto|tauto|congruence].
Qed.

Definition name_ok (s : list Z) : Prop := Forall (fun c => 0 < c) s.

Lemma log_key_order a b : name_ok (lr_refname a) -> name_ok (lr_refname b) -> is_word (lr_update_index a) -> is_word (lr_update_index b) ->
  Z.sgn (bytes_cmp (log_key a) (log_key b)) = Z.sgn (reftable_log_record_compare_key a b).
Proof.
  intros Ha Hb Hia Hib. unfold log_key, reftable_log_record_compare_key. destruct (decide (lr_refname a = lr_refname b)) as [E|E].
  - rewrite E, bytes_cmp_app, bytes_cmp_refl. change (tru 0) with false. cbn [bytes_cmp Z.eqb]. unfold is_word in *. change (wnot 0) with (2 ^ 64 - 1). rewrite !(u64_small (2 ^ 64 - 1 - _)) by lia.
    rewrite be_bytes_order by (change (256 ^ Z.of_nat 8) with (2 ^ 64); lia). rewrite Z.gtb_ltb. destruct (Z.ltb_spec (lr_update_index b) (lr_update_index a)), (Z.ltb_spec (lr_update_index a) (lr_update_index b)); lia.
  - rewrite name_order by done. destruct (tru (bytes_cmp (lr_refname a) (lr_refname b))) eqn:T; [done|]. by apply tru_false, bytes_cmp_eq in T.
Qed.

(** Object prefixes of one length, indices that are not too far apart. *)
Definition comparable (a b : reftable_record) : Prop :=
  match a, b with
  | RecRef _, RecRef _ => True
  | RecLog a, RecLog b => name_ok (lr_refname a) /\ name_ok (lr_refname b) /\ Z.abs (lr_update_index b - lr_update_index a) < 2 ^ 31
  | RecObj a, RecObj b => zlen (or_hash_prefix a) = zlen (or_hash_prefix b)
  | RecIndex _, RecIndex _ => True
  | _, _ => False
  end.

(** Strings compare as the common part of them and then as their lengths. *)
Lemma bytes_cmp_min s t : let n := if zlen s <? zlen t then zlen s else zlen t in
  0 <= n <= zlen s /\ n <= zlen t /\
  bytes_cmp s t = if bytes_cmp (take (Z.to_nat n) s) (take (Z.to_nat n) t) =? 0 then (if zlen s <? zlen t then -1 else Z.b2z (negb (zlen s =? zlen t))) else bytes_cmp (take (Z.to_nat n) s) (take (Z.to_nat n) t).
Proof.
  intros n. assert (0 <= n <= zlen s /\ n <= zlen t) as [Hn1 Hn2] by (unfold n; pose proof (zlen_nonneg s); pose proof (zlen_nonneg t); destruct (Z.ltb_spec (zlen s) (zlen t)); lia). split; [done|]. split; [done|].
  pose proof (bytes_cmp_app_len (take (Z.to_nat n) s) (take (Z.to_nat n) t) (drop (Z.to_nat n) s) (drop (Z.to_nat n) t) ltac:(rewrite !length_take; unfold zlen in *; lia)) as Hc. rewrite !take_drop in Hc. rewrite Hc.
  destruct (Z.eqb_spec (bytes_cmp (take (Z.to_nat n) s) (take (Z.to_nat n) t)) 0); [|done]. unfold n in *. destruct (Z.ltb_spec (zlen s) (zlen t)).
  - rewrite (drop_ge s) by (unfold zlen; lia). destruct (drop _ t) eqn:E; [|done]. apply (f_equal length) in E. rewrite length_drop in E. cbn in E. unfold zlen in *. lia.
  - rewrite (drop_ge t) by (unfold zlen; lia). destruct (drop _ s) eqn:E; apply (f_equal length) in E; rewrite length_drop in E; cbn [length] in E; destruct (Z.eqb_spec (zlen s) (zlen t)); (done || (unfold zlen in *; lia)).
Qed.

Lemma buf_cmp_spec a b s t : buf_rep a s -> buf_rep b t -> reftable_buf_cmp a b = Ret (bytes_cmp s t).
Proof.
  intros Ha Hb. pose proof Ha as (Hla & _). pose proof Hb as (Hlb & _). unfold reftable_buf_cmp. rewrite Hla, Hlb. destruct (bytes_cmp_min s t) as (? & ? & ->). set (n := if zlen s <? zlen t then zlen s else zlen t) in *.
  assert ((if tru n then x ← rd_range (rb_buf a) 0 n; y ← rd_range (rb_buf b) 0 n; Ret (bytes_cmp x y) else Ret 0) = Ret (bytes_cmp (take (Z.to_nat n) s) (take (Z.to_nat n) t))) as ->.
  { destruct (tru n) eqn:E; [|by apply tru_false in E as ->]. rewrite (buf_rep_slice a s) by (done || lia). run. rewrite (buf_rep_slice b t) by (done || lia). done. }
  run. unfold tru. by destruct (_ =? 0).
Qed.
Lemma i32_u64 x : Z.abs x < 2 ^ 31 -> i32 (u64 x) = x.
Proof.
  intros Hx. destruct (Z.le_gt_cases 0 x); [rewrite u64_small by lia; by apply i32_small; lia|]. unfold u64, i32. replace (x mod 2 ^ 64) with (x + 2 ^ 64).
  - replace (x + 2 ^ 64 + 2 ^ 31) with (x + 2 ^ 31 + 2 ^ 32 * 2 ^ 32) by lia. rewrite Z.mod_add, Z.mod_small by lia. lia.
  - rewrite <-(Z.mod_small (x + 2 ^ 64) (2 ^ 64)) by lia. replace (x + 2 ^ 64) with (x + 1 * 2 ^ 64) by lia. by rewrite Z.mod_add by lia.
Qed.

Lemma record_cmp_keys a b ka kb :
  record_ok a -> record_ok b -> record_keyed a ka -> record_keyed b kb -> comparable a b ->
  exists c, reftable_record_cmp a b = Ret c /\ Z.sgn c = Z.sgn (bytes_cmp ka kb).
Proof.
  intros Ha Hb Hka Hkb Hc. destruct a as [a|a|a|a], b as [b|b|b|b]; try done; cbn [record_ok record_keyed comparable reftable_record_cmp] in *.
  - subst ka kb. by eexists.
  - subst ka kb. eexists. split; [done|]. destruct Ha as (_ & _ & Hia & _), Hb as (_ & _ & Hib & _), Hc as (Hna & Hnb & Hd). rewrite log_key_order by done.
    unfold reftable_log_record_cmp_void, reftable_log_record_compare_key. case_if; [done|]. rewrite i32_u64 by done. rewrite Z.gtb_ltb.
    destruct (Z.ltb_spec (lr_update_index b) (lr_update_index a)), (Z.ltb_spec (lr_update_index a) (lr_update_index b)); lia.
  - subst ka kb. unfold reftable_obj_record_cmp_void. rewrite Hc, Z.gtb_ltb, Z.ltb_irrefl. unfold memcmp. rewrite (rd_whole (or_hash_prefix a)), (rd_whole (or_hash_prefix b)) by done. run.
    destruct (tru (bytes_cmp (or_hash_prefix a) (or_hash_prefix b))) eqn:T; [by eexists|]. apply tru_false in T. rewrite T. exists 0. split; [|done]. f_equal. lia.
  - eexists. split; [by apply buf_cmp_spec|done].
Qed.

(** [reftable_record_cmp] puts records of one kind in the order of their keys,
    which is the order they have in a table: references by name, log entries by name
    and then from the newest to the oldest, objects by prefix and indices by last key.
    Objects need prefixes of one length, and log entries of one reference indices
    less than 2^31 apart. *)
Theorem reftable_record_cmp_keys a b ka kb :
  record_ok a -> record_ok b -> record_keyed a ka -> record_keyed b kb -> comparable a b ->
  exists c, reftable_record_cmp a b = Ret c /\ Z.sgn c = Z.sgn (bytes_cmp ka kb).
Proof. apply record_cmp_keys. Qed.
End records.

(** * What the code does not promise *)

(** The length is tested after the index has moved, and lets it reach the end. *)
Lemma get_var_int_past_end : get_var_int [0x80] (View 0 1) = Undef.
Proof. reflexivity. Qed.

(** The shorter prefix is read past its end. *)
Lemma obj_cmp_past_end : reftable_obj_record_cmp_void (ObjRecord [1; 2] []) (ObjRecord [1; 2; 3] []) = Undef.
Proof. reflexivity. Qed.

(** Copies fail for want of memory when there is nothing to allocate. *)
Lemma copy_no_offsets `{ReftableHeader} prefix : memory_enough -> prefix <> [] -> reftable_obj_record_copy_from (ObjRecord prefix []) = Err NoMem.
Proof. intros Hmem Hne. unfold reftable_obj_record_copy_from. cbn [or_hash_prefix]. rewrite (alloc_array_ok (zlen prefix)) by (done || (by apply zlen_nonempty)). done. Qed.

(** Indices far apart are compared by the sign of 32 bits of their difference. *)
Lemma log_cmp_truncates name u :
  let entry i := LogRecord name 0 i 1 u in
  0 < reftable_log_record_compare_key (entry 0) (entry (2 ^ 31)) /\ reftable_log_record_cmp_void (entry 0) (entry (2 ^ 31)) < 0.
Proof.
  intros entry. unfold reftable_log_record_compare_key, reftable_log_record_cmp_void. cbn [lr_refname lr_update_index entry]. by rewrite (proj2 (bytes_cmp_eq name name)).
Qed.

(** * Reference headers *)

#[export] Instance record_ref : RecordHeader := {
  REFTABLE_REF_DELETION := 0; REFTABLE_REF_VAL1 := 1; REFTABLE_REF_VAL2 := 2; REFTABLE_REF_SYMREF := 3;
  REFTABLE_LOG_DELETION := 0; REFTABLE_LOG_UPDATE := 1;
  BLOCK_TYPE_REF := 114; BLOCK_TYPE_LOG := 103; BLOCK_TYPE_OBJ := 111; BLOCK_TYPE_INDEX := 105;
  put_be64 := be_bytes 8; get_be64 := foldl (fun v c => v * 256 + c) 0; get_be16 := foldl (fun v c => v * 256 + c) 0;
}.

Lemma be_bytes_value n x : 0 <= x < 256 ^ Z.of_nat n -> foldl (fun v c => v * 256 + c) 0 (be_bytes n x) = x.
Proof.
  revert x. induction n as [|n IH]; intros x Hx; [change (256 ^ Z.of_nat 0) with 1 in Hx; cbn; lia|]. rewrite Nat2Z.inj_succ, Z.pow_succ_r in Hx by lia. cbn [be_bytes]. rewrite foldl_app, IH.
  - cbn. pose proof (Z.div_mod x 256 ltac:(lia)). lia.
  - split; [apply Z.div_pos; lia|apply Z.div_lt_upper_bound; lia].
Qed.

Lemma record_ref_ok : @RecordHeaderOk record_ref.
Proof.
  split.
  - apply (bool_decide_unpack _). by vm_compute.
  - repeat constructor; cbn; lia.
  - done.
  - apply (bool_decide_unpack _). by vm_compute.
  - done.
  - intros x Hx. by apply be_bytes_value.
  - intros x Hx. unfold be16_bytes. cbn. pose proof (Z.div_mod x 256 ltac:(lia)). lia.
Qed.

(** * Witnesses *)

Section witnesses.

(** A log entry, and its bytes behind another key with a byte of room left. *)
Definition log_example : log_record := LogRecord [109; 97] 0 7 1 (LogUpdate [1; 2] [3; 4] (Some [65]) None 300 (-60) (Some [104; 105; 10]) 0).
Definition log_example_bytes : list Z := key_bytes [109; 98] (log_key log_example) 1 ++ record_bytes (RecLog log_example).

Lemma reftable_record_roundtrip_witness :
  let mem := [9] ++ log_example_bytes ++ [0; 8] in let v := View 1 (zlen log_example_bytes + 1) in
  exists key' rec' scratch' n m,
    reftable_decode_key mem (Buf 3 2 [109; 98; 0]) v = Ret (key', 1, n) /\
    reftable_record_decode mem (RecLog (LogRecord [] 0 0 0 (LogUpdate [] [] None None 0 0 None 0))) key' 1 (string_view_consume v n) 2 reftable_buf_init = Ret (rec', scratch', m) /\
    reftable_record_equal (RecLog log_example) rec' 2 = Ret true.
Proof.
  destruct (@reftable_record_roundtrip reftable_ref reftable_ref_ok record_ref record_ref_ok 2 ltac:(lia) (RecLog log_example) (RecLog (LogRecord [] 0 0 0 (LogUpdate [] [] None None 0 0 None 0)))
    (log_key log_example) [109; 98] (Buf 3 2 [109; 98; 0]) (Buf 3 2 [109; 98; 0]) [] reftable_buf_init reftable_buf_init [] [9] (replicate (length log_example_bytes) 0 ++ [0]) [8])
    as (key & mem1 & restart & n & m & key' & rec' & scratch' & _ & _ & _ & Hkey & Hrec & _ & Heq).
  - evaluate.
  - done.
  - done.
  - done.
  - done.
  - split; [done|]. split; [done|]. split; [done|]. right. by exists [].
  - split; [done|]. split; [done|]. split; [done|]. right. by exists [].
  - apply buf_rep_init.
  - apply buf_rep_init.
  - by vm_compute.
  - exists key', rec', scratch', n, m. split; [exact Hkey|]. split; [exact Hrec|exact Heq].
Defined.

Lemma reftable_record_cmp_keys_witness :
  exists c, reftable_record_cmp (RecLog (LogRecord [109] 0 7 0 (lr_update log_example))) (RecLog (LogRecord [109] 0 9 0 (lr_update log_example))) = Ret c /\
    Z.sgn c = Z.sgn (bytes_cmp (log_key (LogRecord [109] 0 7 0 (lr_update log_example))) (log_key (LogRecord [109] 0 9 0 (lr_update log_example)))).
Proof.
  apply (@reftable_record_cmp_keys record_ref 2 (RecLog (LogRecord [109] 0 7 0 (lr_update log_example))) (RecLog (LogRecord [109] 0 9 0 (lr_update log_example)))).
  all: try done; evaluate.
Defined.
End witnesses.
