(* ===== verification/ReftableBlock.v ===== *)
(** reftable_block.c: blocks of records with restart points, how they are written,
    read from the start and searched. *)
From stdpp Require Import sorting.
From S2P Require Import Prelude Headers Varint ReftableBasics ReftableRecord.

(** * Headers *)

(** constants.h and zlib.h: [deflate] and [inflate] of a whole buffer with Z_FINISH;
    [inflate] gets the size of its output and returns the output and the number of
    bytes of input it left, or [None] when the stream did not end. *)
Class BlockHeader := {
  MAX_RESTARTS : Z;
  deflateBound : Z -> Z;
  deflate : list Z -> list Z;
  inflate : list Z -> Z -> option (list Z * Z);
}.

Class BlockHeaderOk `{BlockHeader} : Prop := {
  max_restarts_fits : 0 < MAX_RESTARTS < 2 ^ 16;
  deflate_bound x : zlen (deflate x) <= deflateBound (zlen x);
  inflate_deflate x rest : inflate (deflate x ++ rest) (zlen x) = Some (x, zlen rest);
}.

(** * Model *)

(** [struct block_writer] without its zlib stream, whose state does not outlive a block. *)
Record block_writer := BlockWriter {
  bw_block : list Z; bw_block_size : Z; bw_header_off : Z; bw_restart_interval : Z; bw_hash_size : Z;
  bw_next : Z; bw_restarts : list Z; bw_restart_len : Z; bw_restart_cap : Z; bw_last_key : reftable_buf; bw_scratch : reftable_buf; bw_entries : Z;
  bw_compressed : list Z; bw_compressed_cap : Z }.

(** [struct reftable_block], and [struct block_reader] on the data of its block. *)
Record reftable_block := Block { bk_data : list Z; bk_len : Z }.
Record block_reader := BlockReader {
  br_header_off : Z; br_block : reftable_block; br_hash_size : Z; br_uncompressed_data : list Z; br_uncompressed_cap : Z;
  br_block_len : Z; br_restart_bytes : Z; br_restart_count : Z; br_full_block_size : Z }.

Record block_iter := BlockIter {
  it_next_off : Z; it_block : list Z; it_block_len : Z; it_hash_size : Z; it_last_key : reftable_buf; it_scratch : reftable_buf }.

Definition header_size (version : Z) : outcome Z := if version =? 1 then Ret 24 else if version =? 2 then Ret 28 else Err Bug.
Definition footer_size (version : Z) : outcome Z := if version =? 1 then Ret 68 else if version =? 2 then Ret 72 else Err Bug.

Section model.
Context `{ReftableHeader} `{RecordHeader} `{BlockHeader}.

(** [REFTABLE_ALLOC_GROW] of an array. *)
Definition grow_array (p : list Z) (nr cap : Z) : outcome (list Z * Z) :=
  cap' ← grow_cap nr cap;
  Ret (if nr >? cap then realloc fresh p cap' else p, cap').

(** ** The writer *)

Definition block_writer_register_restart (w : block_writer) (n : Z) (is_restart : bool) (key : reftable_buf) : outcome block_writer :=
  let rlen := bw_restart_len w in
  let is_restart := if rlen >=? MAX_RESTARTS then false else is_restart in
  let rlen := if is_restart then rlen + 1 else rlen in
  if 2 + 3 * rlen + n >? u32 (bw_block_size w - bw_next w) then Err Error else
  '(restarts, restart_len, restart_cap) ←
    (if is_restart then
       '(restarts, cap) ← grow_array (bw_restarts w) (bw_restart_len w + 1) (bw_restart_cap w);
       restarts ← wr restarts (bw_restart_len w) (bw_next w);
       Ret (restarts, bw_restart_len w + 1, cap)
     else Ret (bw_restarts w, bw_restart_len w, bw_restart_cap w));
  last_key ← reftable_buf_reset (bw_last_key w);
  xs ← rd_range (rb_buf key) 0 (rb_len key);
  last_key ← reftable_buf_add last_key xs;
  Ret (BlockWriter (bw_block w) (bw_block_size w) (bw_header_off w) (bw_restart_interval w) (bw_hash_size w) (u32 (bw_next w + n)) restarts restart_len restart_cap
         last_key (bw_scratch w) (bw_entries w + 1) (bw_compressed w) (bw_compressed_cap w)).

Definition block_writer_init (bw : block_writer) (typ : Z) (block : list Z) (block_size header_off hash_size : Z) : outcome block_writer :=
  block ← wr block header_off typ;
  Ret (BlockWriter block block_size header_off 16 hash_size (u32 (header_off + 4)) (bw_restarts bw) 0 (bw_restart_cap bw)
         (Buf (rb_alloc (bw_last_key bw)) 0 (rb_buf (bw_last_key bw))) (bw_scratch bw) 0 (bw_compressed bw) (bw_compressed_cap bw)).

Definition block_writer_type (bw : block_writer) : outcome Z := rd (bw_block bw) (bw_header_off bw).

(** The writer with a new block and a new scratch buffer. *)
Definition with_block (w : block_writer) (block : list Z) (next : Z) (scratch : reftable_buf) : block_writer :=
  BlockWriter block (bw_block_size w) (bw_header_off w) (bw_restart_interval w) (bw_hash_size w) next (bw_restarts w) (bw_restart_len w) (bw_restart_cap w)
    (bw_last_key w) scratch (bw_entries w) (bw_compressed w) (bw_compressed_cap w).

Definition block_writer_add (w : block_writer) (rec : reftable_record) : outcome block_writer :=
  let last := if bw_entries w mod bw_restart_interval w =? 0 then reftable_buf_init else bw_last_key w in
  let out := View (bw_next w) (u32 (bw_block_size w - bw_next w)) in
  let start := out in
  scratch ← reftable_record_key rec (bw_scratch w);
  if negb (tru (rb_len scratch)) then Err Error else
  '(block, is_restart, n) ← reftable_encode_key (bw_block w) out last scratch (reftable_record_val_type rec);
  let out := string_view_consume out n in
  '(block, n) ← reftable_record_encode block rec out (bw_hash_size w);
  let out := string_view_consume out n in
  block_writer_register_restart (with_block w block (bw_next w) scratch) (i32 (u64 (sv_len start - sv_len out))) is_restart scratch.

(** The body of the loop over the restart points, on the block and [next]. *)
Definition finish_step (w : block_writer) (i : Z) (st : list Z * Z) : outcome (list Z * Z) :=
  let '(block, next) := st in
  r ← rd (bw_restarts w) i;
  block ← put_be24 block next r;
  Ret (block, u32 (next + 3)).

(** The restart points, their number, and the length in the header. *)
Definition finish_restarts (w : block_writer) : outcome (list Z * Z) :=
  '(block, next) ← for_n (Z.to_nat (bw_restart_len w)) 0 (finish_step w) (bw_block w, bw_next w);
  block ← put_be16 block next (bw_restart_len w mod 2 ^ 16);
  let next := u32 (next + 2) in
  block ← put_be24 block (1 + bw_header_off w) next;
  Ret (block, next).

(** The compressed block, [next], and the buffer for the compressed data. *)
Definition compress_block (w : block_writer) (block : list Z) (next : Z) : outcome (list Z * Z * list Z * Z) :=
  let block_header_skip := 4 + bw_header_off w in
  let src_len := u64 (next - block_header_skip) in
  let compressed_len := deflateBound src_len in
  '(compressed, compressed_cap) ← grow_array (bw_compressed w) compressed_len (bw_compressed_cap w);
  src ← rd_range block block_header_skip src_len;
  if zlen (deflate src) >? compressed_len then Err Error else
  compressed ← wr_range compressed 0 (deflate src);
  xs ← rd_range compressed 0 (zlen (deflate src));
  block ← wr_range block block_header_skip xs;
  Ret (block, u32 (zlen (deflate src) + block_header_skip), compressed, compressed_cap).

(** The writer and its [next]. *)
Definition block_writer_finish (w : block_writer) : outcome (block_writer * Z) :=
  '(block, next) ← finish_restarts w;
  let w := with_block w block next (bw_scratch w) in
  typ ← block_writer_type w;
  if typ =? BLOCK_TYPE_LOG then
    '(block, next, compressed, compressed_cap) ← compress_block w block next;
    let w := with_block w block next (bw_scratch w) in
    Ret (BlockWriter (bw_block w) (bw_block_size w) (bw_header_off w) (bw_restart_interval w) (bw_hash_size w) next (bw_restarts w) (bw_restart_len w) (bw_restart_cap w)
           (bw_last_key w) (bw_scratch w) (bw_entries w) compressed compressed_cap, next)
  else Ret (w, next).

(** ** The reader *)

(** The inflated block: its data, its capacity, and [full_block_size]. *)
Definition inflate_block (br : block_reader) (block : reftable_block) (header_off sz : Z) : outcome (list Z * Z * Z) :=
  let block_header_skip := 4 + header_off in
  let dst_len := u64 (sz - block_header_skip) in
  let src_len := u64 (bk_len block - block_header_skip) in
  '(data, cap) ← grow_array (br_uncompressed_data br) sz (br_uncompressed_cap br);
  hd ← rd_range (bk_data block) 0 block_header_skip;
  data ← wr_range data 0 hd;
  src ← rd_range (bk_data block) block_header_skip src_len;
  match inflate src dst_len with
  | None => Err Error
  | Some (out, avail_in) =>
      data ← wr_range data block_header_skip out;
      if negb (zlen out + block_header_skip =? sz) then Err Error else
      Ret (data, cap, u32 (src_len + block_header_skip - avail_in))
  end.

Definition block_reader_init (br : block_reader) (block : reftable_block) (header_off table_block_size hash_size : Z) : outcome block_reader :=
  let full_block_size := table_block_size in
  typ ← rd (bk_data block) header_off;
  sz ← get_be24 (bk_data block) (header_off + 1);
  if negb (reftable_is_block_type typ) then Err Error else
  '(block, uncompressed, cap, full_block_size) ←
    (if typ =? BLOCK_TYPE_LOG then
       '(data, cap, full) ← inflate_block br block header_off sz;
       Ret (Block data sz, data, cap, full)
     else
       full ←
         (if full_block_size =? 0 then Ret sz else
          if (sz <? full_block_size) && (sz <? bk_len block) then
            c ← rd (bk_data block) sz; Ret (if tru c then sz else full_block_size)
          else Ret full_block_size);
       Ret (block, br_uncompressed_data br, br_uncompressed_cap br, full));
  xs ← rd_range (bk_data block) (sz - 2) 2;
  let restart_count := get_be16 xs in
  let restart_start := u32 (sz - 2 - 3 * restart_count) in
  Ret (BlockReader header_off block hash_size uncompressed cap restart_start restart_start restart_count full_block_size).

Definition block_reader_type (r : block_reader) : outcome Z := rd (bk_data (br_block r)) (br_header_off r).

Definition block_reader_first_key (br : block_reader) (key : reftable_buf) : outcome reftable_buf :=
  let off := br_header_off br + 4 in
  key ← reftable_buf_reset key;
  '(key, extra, n) ← reftable_decode_key (bk_data (br_block br)) key (View off (u32 (br_block_len br - off)));
  if negb (tru (rb_len key)) then Err Error else Ret key.

Definition block_reader_restart_offset (br : block_reader) (idx : Z) : outcome Z := get_be24 (bk_data (br_block br)) (br_restart_bytes br + 3 * idx).

(** ** The iterator *)

Definition block_iter_seek_start (it : block_iter) (br : block_reader) : outcome block_iter :=
  last_key ← reftable_buf_reset (it_last_key it);
  Ret (BlockIter (br_header_off br + 4) (bk_data (br_block br)) (br_block_len br) (br_hash_size br) last_key (it_scratch it)).

(** The error flag ends the search with REFTABLE_FORMAT_ERROR. *)
Definition restart_needle_less (reader : block_reader) (needle : reftable_buf) (idx : Z) : outcome Z :=
  off ← block_reader_restart_offset reader idx;
  let in_ := View off (u32 (br_block_len reader - off)) in
  '(n, prefix_len, suffix_len, extra) ← reftable_decode_keylen (bk_data (br_block reader)) in_;
  if tru prefix_len then Err Error else
  let in_ := string_view_consume in_ n in
  if suffix_len >? sv_len in_ then Err Error else
  let m := if rb_len needle <? suffix_len then rb_len needle else suffix_len in
  a ← rd_range (rb_buf needle) 0 m; b ← rd_range (bk_data (br_block reader)) (sv_buf in_) m;
  let n := bytes_cmp a b in
  if tru n then Ret (Z.b2z (n <? 0)) else
  Ret (Z.b2z (rb_len needle <? suffix_len)).

(** [None] at the end of the block. *)
Definition block_iter_next (it : block_iter) (rec : reftable_record) : outcome (option (reftable_record * block_iter)) :=
  let in_ := View (it_next_off it) (u64 (it_block_len it - it_next_off it)) in
  let start := in_ in
  if it_next_off it >=? it_block_len it then Ret None else
  '(last_key, extra, n) ← reftable_decode_key (it_block it) (it_last_key it) in_;
  if negb (tru (rb_len last_key)) then Err Error else
  let in_ := string_view_consume in_ n in
  '(rec, scratch, n) ← reftable_record_decode (it_block it) rec last_key extra in_ (it_hash_size it) (it_scratch it);
  let in_ := string_view_consume in_ n in
  Ret (Some (rec, BlockIter (u32 (it_next_off it + u64 (sv_len start - sv_len in_))) (it_block it) (it_block_len it) (it_hash_size it) last_key scratch)).

Definition block_iter_reset (it : block_iter) : outcome block_iter :=
  last_key ← reftable_buf_reset (it_last_key it);
  Ret (BlockIter 0 [] 0 0 last_key (it_scratch it)).

Definition block_iter_close (it : block_iter) : block_iter :=
  BlockIter (it_next_off it) (it_block it) (it_block_len it) (it_hash_size it) (reftable_buf_release (it_last_key it)) (reftable_buf_release (it_scratch it)).

(** The iterator at another place, with another last key. *)
Definition iter_at (it : block_iter) (off : Z) (last_key : reftable_buf) : block_iter :=
  BlockIter off (it_block it) (it_block_len it) (it_hash_size it) last_key (it_scratch it).

(** One round of [while (1)] on the iterator and [rec]. *)
Definition seek_step (want : reftable_buf) (st : block_iter * reftable_record) : outcome ((block_iter * reftable_record) + block_iter) :=
  let '(it, rec) := st in
  let prev_off := it_next_off it in
  r ← block_iter_next it rec;
  match r with
  | None => Ret (inr (iter_at it prev_off (it_last_key it)))
  | Some (rec, it) =>
      last_key ← reftable_record_key rec (it_last_key it);
      c ← reftable_buf_cmp last_key want;
      if c >=? 0 then Ret (inr (iter_at it prev_off last_key)) else Ret (inl (iter_at it (it_next_off it) last_key, rec))
  end.

Definition block_iter_seek_key (it : block_iter) (br : block_reader) (want : reftable_buf) : outcome block_iter :=
  i ← binsearch (br_restart_count br) (restart_needle_less br want);
  next_off ← (if i >? 0 then block_reader_restart_offset br (i - 1) else Ret (br_header_off br + 4));
  let it := BlockIter next_off (bk_data (br_block br)) (br_block_len br) (br_hash_size br) (it_last_key it) (it_scratch it) in
  typ ← block_reader_type br;
  rec ← reftable_record_init typ;
  loop (S (Z.to_nat (br_block_len br))) (seek_step want) (it, rec).
End model.

(** * Entries *)

Section entries.
Context `{RecordHeader}.

(** A record of a block: the key it is written against, its own key, and itself. *)
Record entry := Entry { e_prev : list Z; e_key : list Z; e_rec : reftable_record }.

Definition entry_bytes (e : entry) : list Z := key_bytes (e_prev e) (e_key e) (reftable_record_val_type (e_rec e)) ++ record_bytes (e_rec e).
Fixpoint body (es : list entry) : list Z := match es with [] => [] | e :: es => entry_bytes e ++ body es end.

Definition shared (e : entry) : Z := common_prefix (e_prev e) (e_key e).

(** The key of the last entry. *)
Fixpoint last_key_of (s : list Z) (es : list entry) : list Z := match es with [] => s | e :: es => last_key_of (e_key e) es end.

(** Every entry is written against nothing or the key before it. *)
Fixpoint linked (s : list Z) (es : list entry) : Prop := match es with [] => True | e :: es => (e_prev e = [] \/ e_prev e = s) /\ linked (e_key e) es end.

Lemma body_app es fs : body (es ++ fs) = body es ++ body fs.
Proof. induction es as [|e es IH]; cbn [app body]; [done|]. by rewrite IH, app_assoc. Qed.

Lemma entries_linked_app s es fs : linked s (es ++ fs) <-> linked s es /\ linked (last_key_of s es) fs.
Proof. revert s. induction es as [|e es IH]; intros s; cbn [app linked last_key_of]; [tauto|]. rewrite IH. tauto. Qed.

Lemma last_key_app s es fs : last_key_of s (es ++ fs) = last_key_of (last_key_of s es) fs.
Proof. revert s. induction es as [|e es IH]; intros s; cbn [app last_key_of]; [done|apply IH]. Qed.

Lemma last_key_lookup es e : last es = Some e -> forall s, last_key_of s es = e_key e.
Proof.
  induction es as [|f es IH]; intros Hl s; [done|]. destruct es as [|g es]; [by injection Hl as ->|]. cbn [last_key_of] in *. by apply IH.
Qed.

(** Offset [j] of an entry from the start of the block's entries. *)
Definition offset_of (base : Z) (es : list entry) (j : nat) : Z := base + zlen (body (take j es)).

(** The entries written at restart points: in ascending order, the first one among
    them, all written against nothing. *)
Definition restarts_ok (es : list entry) (js : list nat) : Prop :=
  StronglySorted lt js /\ Forall (fun j => exists e, es !! j = Some e /\ shared e = 0) js /\ (es <> [] -> exists js', js = 0%nat :: js').

Lemma restarts_snoc es js e : restarts_ok es js -> shared e = 0 -> restarts_ok (es ++ [e]) (js ++ [length es]).
Proof.
  intros (Hs & Hf & Hh) He. assert (Forall (fun j => (j < length es)%nat) js) as Hlt by (eapply Forall_impl; [exact Hf|]; intros j (f & Hj & _); by eapply lookup_lt_Some).
  split; [|split].
  - clear Hf Hh He. induction Hs as [|j js Hs IH Hj]; cbn [app]; [repeat constructor|]. apply Forall_cons_iff in Hlt as [Hjl Hlt]. constructor; [by apply IH|]. apply Forall_app. by repeat constructor.
  - apply Forall_app. split; [|constructor; [|done]].
    + eapply Forall_impl; [exact Hf|]. intros j (f & Hj & Hf0). exists f. split; [|done]. by apply lookup_app_l_Some.
    + exists e. split; [by apply list_lookup_middle|done].
  - intros _. destruct es as [|f es].
    + destruct js as [|j js]; [by exists []|]. apply Forall_cons_iff in Hlt as [? _]. cbn in *. lia.
    + destruct Hh as [js' ->]; [done|]. by exists (js' ++ [length (f :: es)]).
Qed.

Lemma restarts_same es js e : restarts_ok es js -> js <> [] -> restarts_ok (es ++ [e]) js.
Proof.
  intros (Hs & Hf & Hh) Hne. split; [done|]. split.
  - eapply Forall_impl; [exact Hf|]. intros j (f & Hj & Hf0). exists f. split; [|done]. by apply lookup_app_l_Some.
  - intros _. destruct es as [|f es]; [|by apply Hh]. destruct js as [|j js]; [done|]. apply Forall_cons_iff in Hf as [(g & Hg & _) _]. done.
Qed.

Lemma offsets_snoc base es js e : Forall (fun j => (j < length es)%nat) js -> offset_of base (es ++ [e]) <$> js = offset_of base es <$> js.
Proof.
  intros Hj. induction Hj as [|j js Hj _ IH]; [done|]. rewrite !fmap_cons, IH. f_equal. unfold offset_of. by rewrite take_app_le by lia.
Qed.
End entries.

(** A buffer to reset, whatever it holds. *)
Definition buf_valid (b : reftable_buf) : Prop := zlen (rb_buf b) = rb_alloc b /\ (rb_alloc b = 0 -> rb_len b = 0).

Lemma buf_rep_valid b s : buf_rep b s -> buf_valid b.
Proof.
  intros (Hl & _ & Ha & Hr). split; [done|]. intros Hz. destruct Hr as [[_ ->]|[rest Hb]]; [by rewrite Hl|]. rewrite Hb, zlen_app, zlen_cons in Ha. pose proof (zlen_nonneg s). pose proof (zlen_nonneg rest). lia.
Qed.

Lemma reset_valid b : buf_valid b -> exists b', reftable_buf_reset b = Ret b' /\ buf_rep b' [].
Proof.
  intros [Ha Hz]. unfold reftable_buf_reset. pose proof (zlen_nonneg (rb_buf b)). destruct (tru (rb_alloc b)) eqn:E.
  - apply tru_true in E. rewrite wr_in by lia. run. eexists. split; [done|]. split; [done|]. split; [done|]. cbn [rb_buf rb_alloc]. split; [by rewrite zlen_insert|]. right.
    destruct (rb_buf b) as [|x mem]; [by rewrite zlen_nil in Ha|]. by exists mem.
  - apply tru_false in E. exists b. split; [done|]. split; [by apply Hz|]. split; [done|]. split; [done|]. by left.
Qed.

Lemma be24_view pre room post i : 0 <= i < 2 ^ 24 -> 3 <= zlen room -> put_be24 (pre ++ room ++ post) (zlen pre) i = Ret ((pre ++ be24_bytes i) ++ drop (length (be24_bytes i)) room ++ post).
Proof.
  intros Hi Hroom. destruct room as [|x [|y [|z room]]]; [by rewrite zlen_nil in Hroom|by change (zlen [x]) with 1 in Hroom|by change (zlen [x; y]) with 2 in Hroom|].
  cbn [app]. rewrite put_be24_spec by done. by rewrite <-app_assoc.
Qed.

(** * The writer *)

Section writer.
Context `{ReftableHeaderOk} `{RecordHeaderOk} `{BlockHeaderOk} (hash_size : Z).
Hypothesis (Hhash : 0 < hash_size).

Definition entry_ok (e : entry) : Prop := record_ok hash_size (e_rec e) /\ record_keyed (e_rec e) (e_key e) /\ e_key e <> [] /\ zlen (e_key e) < 2 ^ 31.

(** What the writer holds after the entries [es], [js] of them at restart points. *)
Record writer_inv (w : block_writer) (typ : Z) (hd : list Z) (es : list entry) (js : list nat) : Prop := {
  wi_block : exists room, bw_block w = hd ++ body es ++ room /\ (es <> [] -> 2 + 3 * zlen js <= zlen room);
  wi_head : 0 <= bw_header_off w /\ zlen hd = bw_header_off w + 4 /\ hd !! Z.to_nat (bw_header_off w) = Some typ;
  wi_size : zlen (bw_block w) = bw_block_size w /\ bw_block_size w < 2 ^ 24;
  wi_next : bw_next w = zlen (hd ++ body es);
  wi_hash : bw_hash_size w = hash_size;
  wi_entries : bw_entries w = zlen es /\ 0 < bw_restart_interval w;
  wi_linked : linked [] es;
  wi_ok : Forall entry_ok es;
  wi_last : buf_valid (bw_last_key w) /\ (es <> [] -> buf_rep (bw_last_key w) (last_key_of [] es));
  wi_scratch : exists s, buf_rep (bw_scratch w) s;
  wi_restarts : exists junk, bw_restarts w = (offset_of (zlen hd) es <$> js) ++ junk;
  wi_count : bw_restart_len w = zlen js /\ zlen (bw_restarts w) = bw_restart_cap w /\ zlen js <= MAX_RESTARTS;
  wi_js : restarts_ok es js;
  wi_compressed : zlen (bw_compressed w) = bw_compressed_cap w;
}.

Lemma restarts_lt es js : restarts_ok es js -> Forall (fun j => (j < length es)%nat) js.
Proof. intros (_ & Hf & _). eapply Forall_impl; [exact Hf|]. intros j (e & Hj & _). by eapply lookup_lt_Some. Qed.

(** The entry a record becomes. *)
Definition next_entry (w : block_writer) (es : list entry) (k : list Z) (rec : reftable_record) : entry :=
  Entry (if bw_entries w mod bw_restart_interval w =? 0 then [] else last_key_of [] es) k rec.

(** The restart points with the new entry. *)
Definition next_restarts (es : list entry) (js : list nat) (e : entry) : list nat := if (shared e =? 0) && (zlen js <? MAX_RESTARTS) then js ++ [length es] else js.
Lemma entry_bytes_nonneg e : 0 <= zlen (entry_bytes e).
Proof. apply zlen_nonneg. Qed.

Definition needed (es : list entry) (js : list nat) (e : entry) : Z := zlen (entry_bytes e) + 2 + 3 * zlen (next_restarts es js e).

Lemma grow_array_ok p nr cap : memory_enough -> zlen p = cap -> 0 <= nr -> exists p' cap' junk, grow_array p nr cap = Ret (p', cap') /\ p' = p ++ junk /\ zlen p' = cap' /\ nr <= cap'.
Proof.
  intros Hmem Hp Hnr. unfold grow_array, grow_cap. pose proof (zlen_nonneg p). rewrite Z.gtb_ltb. destruct (Z.ltb_spec cap nr).
  - rewrite Hmem. run. pose proof (grow_to_enough nr cap). eexists _, _, _. split; [done|]. split; [|by rewrite zlen_realloc by lia]. unfold realloc. rewrite take_ge; [done|]. unfold zlen in *. lia.
  - run. exists p, cap, []. rewrite app_nil_r. split; [done|]. split; [done|]. split; [done|lia].
Qed.

Lemma next_restarts_ok es js e : restarts_ok es js -> (es = [] -> shared e = 0) -> zlen js <= MAX_RESTARTS -> restarts_ok (es ++ [e]) (next_restarts es js e) /\ zlen (next_restarts es js e) <= MAX_RESTARTS.
Proof.
  intros Hjs He Hmax. unfold next_restarts. destruct (Z.eqb_spec (shared e) 0) as [E|E], (Z.ltb_spec (zlen js) MAX_RESTARTS); cbn [andb].
  1: (split; [by apply restarts_snoc|]; rewrite zlen_app; change (zlen [length es]) with 1; lia).
  all: split; [apply restarts_same; [done|]|done]; destruct es as [|f es]; [|destruct Hjs as (_ & _ & Hh); by destruct Hh as [js' ->]].
  all: try (by specialize (He eq_refl)).
  intros ->. change (zlen (@nil nat)) with 0 in *. pose proof max_restarts_fits. lia.
Qed.

(** The array of restart points after an entry. *)
Lemma push_restart w (hd : list Z) es js e junk : memory_enough -> restarts_ok es js -> bw_restarts w = (offset_of (zlen hd) es <$> js) ++ junk -> bw_restart_len w = zlen js -> zlen (bw_restarts w) = bw_restart_cap w ->
  bw_next w = zlen hd + zlen (body es) ->
  exists restarts cap' junk',
    (if (shared e =? 0) && (zlen js <? MAX_RESTARTS) then
       '(restarts, cap) ← grow_array (bw_restarts w) (bw_restart_len w + 1) (bw_restart_cap w); restarts ← wr restarts (bw_restart_len w) (bw_next w); Ret (restarts, bw_restart_len w + 1, cap)
     else Ret (bw_restarts w, bw_restart_len w, bw_restart_cap w)) = Ret (restarts, zlen (next_restarts es js e), cap') /\
    zlen restarts = cap' /\ restarts = (offset_of (zlen hd) (es ++ [e]) <$> next_restarts es js e) ++ junk'.
Proof.
  intros Hmem Hjs Hres Hlen Hcap Hnext. pose proof (offsets_snoc (zlen hd) es js e (restarts_lt es js Hjs)) as Hoff. pose proof (zlen_nonneg js). unfold next_restarts. destruct ((shared e =? 0) && (zlen js <? MAX_RESTARTS)).
  - destruct (grow_array_ok (bw_restarts w) (bw_restart_len w + 1) (bw_restart_cap w) Hmem Hcap ltac:(lia)) as (p' & cap' & junk2 & -> & Hp' & Hz & Hge). run.
    set (offs := offset_of (zlen hd) es <$> js) in *. assert (zlen offs = zlen js) as Ho by (unfold offs, zlen; by rewrite length_fmap). assert (p' = offs ++ (junk ++ junk2)) as -> by (rewrite Hp', Hres; same_list).
    destruct (junk ++ junk2) as [|x rest]; [rewrite app_nil_r in Hz; lia|]. rewrite (wr_at offs x rest _ _ (bw_restart_len w)) by (done || lia). run. eexists _, cap', rest. split; [do 2 f_equal; f_equal; rewrite zlen_app, Hlen; done|].
    split; [rewrite <-Hz, !zlen_app, !zlen_cons; done|]. rewrite fmap_app, Hoff. cbn [fmap list_fmap]. fold offs. rewrite <-app_assoc. cbn [app]. do 2 f_equal. unfold offset_of. by rewrite take_app_length.
  - exists (bw_restarts w), (bw_restart_cap w), junk. rewrite Hoff, Hlen. done.
Qed.

Lemma register_spec w w1 typ hd es js e key scratch room :
  writer_inv w typ hd es js -> memory_enough -> w1 = with_block w (hd ++ body (es ++ [e]) ++ room) (bw_next w) scratch -> zlen (hd ++ body (es ++ [e]) ++ room) = bw_block_size w ->
  entry_ok e -> linked (last_key_of [] es) [e] -> buf_rep key (e_key e) -> buf_rep scratch (e_key e) ->
  if zlen (entry_bytes e ++ room) <? needed es js e then block_writer_register_restart w1 (zlen (entry_bytes e)) (shared e =? 0) key = Err Error
  else exists w', block_writer_register_restart w1 (zlen (entry_bytes e)) (shared e =? 0) key = Ret w' /\ writer_inv w' typ hd (es ++ [e]) (next_restarts es js e) /\
    bw_block_size w' = bw_block_size w /\ bw_header_off w' = bw_header_off w.
Proof.
  intros Hinv Hmem -> Hsize Hok Hlink Hkey Hscratch. pose proof Hinv as [Hblock Hhead [Hsz Hmax] Hnext Hhs Hent Hlk Heok [Hval _] _ [junk Hres] [Hlen [Hcap Hmr]] Hjs Hcomp].
  pose proof (zlen_nonneg hd). pose proof (zlen_nonneg (body es)). pose proof (entry_bytes_nonneg e). pose proof (zlen_nonneg room). pose proof (zlen_nonneg js).
  destruct (next_restarts_ok es js e Hjs) as [Hjs' Hmr']; [intros ->; destruct Hlink as [[Hp|Hp] _]; unfold shared; by rewrite Hp|done|].
  rewrite body_app in *. cbn [body] in *. rewrite app_nil_r in *. rewrite !zlen_app in Hsize. rewrite zlen_app in Hnext.
  unfold block_writer_register_restart, with_block. cbn [bw_restart_len bw_block_size bw_next bw_restarts bw_restart_cap bw_last_key bw_block bw_header_off bw_restart_interval bw_hash_size bw_scratch bw_entries bw_compressed bw_compressed_cap].
  rewrite (u32_small (bw_block_size w - bw_next w)) by lia.
  assert ((if bw_restart_len w >=? MAX_RESTARTS then false else shared e =? 0) = (shared e =? 0) && (zlen js <? MAX_RESTARTS)) as ->.
  { rewrite Hlen, Z.geb_leb. destruct (Z.leb_spec MAX_RESTARTS (zlen js)), (Z.ltb_spec (zlen js) MAX_RESTARTS); try lia; by rewrite ?andb_false_r, ?andb_true_r. }
  set (b := (shared e =? 0) && (zlen js <? MAX_RESTARTS)) in *. assert ((if b then bw_restart_len w + 1 else bw_restart_len w) = zlen (next_restarts es js e)) as Hcount.
  { unfold next_restarts. fold b. rewrite Hlen. destruct b; [|done]. rewrite zlen_app. done. }
  rewrite Hcount. unfold needed. rewrite zlen_app, Z.gtb_ltb.
  replace (bw_block_size w - bw_next w <? 2 + 3 * zlen (next_restarts es js e) + zlen (entry_bytes e)) with (zlen (entry_bytes e) + zlen room <? zlen (entry_bytes e) + 2 + 3 * zlen (next_restarts es js e)) by (apply eq_true_iff_eq; rewrite !Z.ltb_lt; lia).
  case_if; [done|].
  destruct (push_restart w hd es js e junk Hmem Hjs Hres Hlen Hcap Hnext) as (restarts & cap' & junk' & Hpush & Hcap' & Hres'). fold b in Hpush. rewrite Hpush. clear Hpush.
  run. destruct (reset_valid _ Hval) as (k1 & -> & Hk1). run. rewrite (key_string key _ Hkey). run. destruct Hok as (Hok & Hkeyed & Hne & Hkmax). destruct (buf_add_spec k1 [] (e_key e) Hk1) as (k2 & -> & Hk2); [rewrite zlen_nil; lia|done|]. run.
  eexists. split; [done|]. split; [|done]. split; cbn [bw_restart_len bw_block_size bw_next bw_restarts bw_restart_cap bw_last_key bw_block bw_header_off bw_restart_interval bw_hash_size bw_scratch bw_entries bw_compressed bw_compressed_cap].
  - exists room. rewrite body_app. cbn [body]. rewrite app_nil_r. split; [done|]. intros _. lia.
  - done.
  - split; [rewrite !zlen_app; lia|done].
  - rewrite body_app. cbn [body]. rewrite app_nil_r, u32_small by lia. rewrite !zlen_app. lia.
  - done.
  - rewrite zlen_app. change (zlen [e]) with 1. lia.
  - by apply entries_linked_app.
  - apply Forall_app. by repeat constructor.
  - split; [by eapply buf_rep_valid|]. intros _. rewrite last_key_app. done.
  - by eexists.
  - by eexists.
  - done.
  - done.
  - done.
Qed.
Lemma next_entry_linked w es k rec : linked (last_key_of [] es) [next_entry w es k rec].
Proof. unfold next_entry. cbn [linked e_prev]. case_if; by split; [|done]; auto. Qed.

(** A record is added when its bytes, the restart points and their number fit. *)
Lemma block_writer_add_spec w typ hd es js rec k :
  writer_inv w typ hd es js -> memory_enough -> record_ok hash_size rec -> record_keyed rec k -> k <> [] -> zlen k < 2 ^ 31 ->
  let e := next_entry w es k rec in
  if bw_block_size w - bw_next w <? needed es js e then block_writer_add w rec = Err Error
  else exists w', block_writer_add w rec = Ret w' /\ writer_inv w' typ hd (es ++ [e]) (next_restarts es js e) /\ bw_block_size w' = bw_block_size w /\ bw_header_off w' = bw_header_off w.
Proof.
  intros Hinv Hmem Hok Hkeyed Hne Hmax e. pose proof Hinv as [[room [Hblock _]] _ [Hsz Hsmax] Hnext Hhs [Hent Hint] _ _ [_ Hlast] [s0 Hscr] _ _ _ _].
  destruct (record_key_spec rec k (bw_scratch w) s0) as (key & Hkey & Hrk); [done..|]. pose proof Hrk as (Hkl & _). pose proof (zlen_nonneg (next_restarts es js e)).
  assert (buf_rep (if bw_entries w mod bw_restart_interval w =? 0 then reftable_buf_init else bw_last_key w) (e_prev e)) as Hprev.
  { unfold e, next_entry. cbn [e_prev]. destruct (Z.eqb_spec (bw_entries w mod bw_restart_interval w) 0) as [|Hm]; [apply buf_rep_init|]. apply Hlast. intros ->. rewrite Hent in Hm. by change (zlen (@nil entry)) with 0 in Hm. }
  set (pre := hd ++ body es) in *. assert (bw_block w = pre ++ room ++ []) as Hb by (rewrite Hblock, app_nil_r; unfold pre; same_list). assert (zlen (bw_block w) = zlen pre + zlen room) as Hz by (rewrite Hb, !zlen_app, zlen_nil; lia).
  pose proof (zlen_nonneg pre). pose proof (zlen_nonneg room). unfold block_writer_add. rewrite Hkey. run. rewrite Hkl, (proj2 (tru_true _)) by (by apply zlen_nonempty). cbn [negb].
  rewrite u32_small by lia. replace (bw_block_size w - bw_next w) with (zlen room) by lia. rewrite Hnext, Hb.
  rewrite (encode_key_writes _ key (e_prev e) k _ pre room []) by (done || lia || by apply (val_type_fits hash_size)). set (x := reftable_record_val_type rec). set (d := key_bytes (e_prev e) k x).
  assert (entry_bytes e = d ++ record_bytes rec) as Heb by done. unfold needed. rewrite Heb, zlen_app. pose proof (zlen_nonneg d). pose proof (zlen_nonneg (record_bytes rec)).
  destruct (Z.ltb_spec (zlen room) (zlen d)); [run; by rewrite (proj2 (Z.ltb_lt _ _)) by lia|]. run. destruct (view_facts pre room d) as [Hv Hd]; [lia|lia|]. rewrite Hv, Hhs.
  pose proof (record_encode_writes hash_size Hhash rec Hok (pre ++ d) (drop (length d) room) [] ltac:(lia)) as Hw. cbv beta in Hw. rewrite <-app_assoc in Hw. rewrite Hw.
  destruct (Z.ltb_spec (zlen (drop (length d) room)) (zlen (record_bytes rec))); [run; by rewrite (proj2 (Z.ltb_lt _ _)) by lia|]. run.
  destruct (view_facts (pre ++ d) (drop (length d) room) (record_bytes rec)) as [Hv' Hd']; [lia|lia|]. rewrite Hv'. cbn [sv_len]. rewrite u64_small, i32_small by (rewrite ?u64_small; lia).
  set (room' := drop _ (drop _ room)) in *. replace (zlen room - zlen room') with (zlen (entry_bytes e)) by (rewrite Heb, zlen_app; lia). rewrite <-Hnext.
  pose proof (register_spec w (with_block w (hd ++ body (es ++ [e]) ++ room') (bw_next w) key) typ hd es js e key key room' Hinv Hmem eq_refl) as Hreg.
  assert (((pre ++ d) ++ record_bytes rec ++ room' ++ []) = hd ++ body (es ++ [e]) ++ room') as Hnew by (rewrite body_app; cbn [body]; rewrite Heb, !app_nil_r; unfold pre; same_list).
  rewrite Hnew. change (common_prefix (e_prev e) k) with (shared e).
  replace (zlen room <? zlen d + zlen (record_bytes rec) + 2 + 3 * zlen (next_restarts es js e)) with (zlen (entry_bytes e ++ room') <? needed es js e)
    by (unfold needed; apply eq_true_iff_eq; rewrite !Z.ltb_lt, zlen_app, Heb, zlen_app; lia).
  apply Hreg; [|by split|apply next_entry_linked|done|done]. rewrite <-Hnew, <-Hsz, Hz, !zlen_app, zlen_nil. lia.
Qed.
(** A writer to start a block with, new or used before. *)
Definition writer_valid (w : block_writer) : Prop :=
  zlen (rb_buf (bw_last_key w)) = rb_alloc (bw_last_key w) /\ (exists s, buf_rep (bw_scratch w) s) /\ zlen (bw_restarts w) = bw_restart_cap w /\ zlen (bw_compressed w) = bw_compressed_cap w.

Lemma block_writer_init_spec bw typ block header_off :
  writer_valid bw -> 0 <= header_off -> header_off + 4 <= zlen block < 2 ^ 24 ->
  exists w hd, block_writer_init bw typ block (zlen block) header_off hash_size = Ret w /\ writer_inv w typ hd [] [] /\ bw_block_size w = zlen block /\ bw_header_off w = header_off.
Proof.
  intros (Hlast & [s Hs] & Hres & Hcomp) Hoff Hsize. unfold block_writer_init. rewrite wr_in by lia. run. set (mem := <[_:=typ]> block).
  assert (zlen mem = zlen block) as Hz by apply zlen_insert. eexists _, (take (Z.to_nat (header_off + 4)) mem). split; [done|]. split; [|done].
  assert (zlen (take (Z.to_nat (header_off + 4)) mem) = header_off + 4) as Ht by (unfold zlen in *; rewrite length_take; lia).
  split; cbn [bw_restart_len bw_block_size bw_next bw_restarts bw_restart_cap bw_last_key bw_block bw_header_off bw_restart_interval bw_hash_size bw_scratch bw_entries bw_compressed bw_compressed_cap body app].
  - exists (drop (Z.to_nat (header_off + 4)) mem). by rewrite take_drop.
  - split; [done|]. split; [done|]. rewrite lookup_take_lt by lia. apply list_lookup_insert_eq. unfold zlen in *. lia.
  - lia.
  - rewrite app_nil_r, Ht, u32_small by lia. done.
  - done.
  - done.
  - done.
  - done.
  - by split.
  - by exists s.
  - by eexists.
  - pose proof max_restarts_fits. change (zlen (@nil nat)) with 0. split; [done|]. split; [done|lia].
  - split; [constructor|]. by split.
  - done.
Qed.

(** The callers' loop. *)
Fixpoint add_all (w : block_writer) (recs : list reftable_record) : outcome block_writer :=
  match recs with [] => Ret w | rec :: recs => w ← block_writer_add w rec; add_all w recs end.

Definition good (rec : reftable_record) (k : list Z) : Prop := record_ok hash_size rec /\ record_keyed rec k /\ k <> [] /\ zlen k < 2 ^ 31.

Lemma add_all_spec recs : forall ks w w' typ hd es js, memory_enough -> Forall2 good recs ks -> writer_inv w typ hd es js -> add_all w recs = Ret w' ->
  exists es' js', writer_inv w' typ hd (es ++ es') js' /\ e_rec <$> es' = recs /\ e_key <$> es' = ks /\ bw_block_size w' = bw_block_size w /\ bw_header_off w' = bw_header_off w.
Proof.
  induction recs as [|rec recs IH]; intros ks w w' typ hd es js Hmem Hgood Hinv Hadd.
  - apply Forall2_nil_inv_l in Hgood as ->. injection Hadd as <-. exists [], js. by rewrite app_nil_r.
  - apply Forall2_cons_inv_l in Hgood as (k & ks' & (Hok & Hkeyed & Hne & Hmax) & Hgood & ->). pose proof (block_writer_add_spec w typ hd es js rec k Hinv Hmem Hok Hkeyed Hne Hmax) as Hspec. cbv zeta in Hspec.
    cbn [add_all] in Hadd. destruct (bw_block_size w - bw_next w <? _); [by rewrite Hspec in Hadd|]. destruct Hspec as (w1 & Hw1 & Hinv1 & Hs1 & Ho1). rewrite Hw1 in Hadd. run_in Hadd.
    destruct (IH ks' w1 w' typ hd _ _ Hmem Hgood Hinv1 Hadd) as (es' & js' & Hinv' & Hrec & Hkey & Hs & Ho). exists (next_entry w es k rec :: es'), js'.
    rewrite <-app_assoc in Hinv'. split; [done|]. rewrite !fmap_cons, Hrec, Hkey. split; [done|]. split; [done|]. split; congruence.
Qed.

(** ** Finishing *)

Definition restart_bytes (offs : list Z) : list Z := concat (be24_bytes <$> offs).

Lemma restart_bytes_len offs : length (restart_bytes offs) = (3 * length offs)%nat.
Proof. induction offs as [|o offs IH]; [done|]. unfold restart_bytes in *. rewrite fmap_cons. cbn [concat]. rewrite length_app, IH. cbn [be24_bytes length]. lia. Qed.

Lemma finish_loop w offs junk : forall dn pre room, bw_restarts w = dn ++ offs ++ junk -> Forall (fun o => 0 <= o < 2 ^ 24) offs -> 3 * zlen offs <= zlen room -> zlen pre + zlen room < 2 ^ 24 ->
  for_n (length offs) (zlen dn) (finish_step w) (pre ++ room, zlen pre) = Ret ((pre ++ restart_bytes offs) ++ drop (length (restart_bytes offs)) room, zlen (pre ++ restart_bytes offs)).
Proof.
  induction offs as [|o offs IH]; intros dn pre room Hres Hoffs Hlen Hmax; [cbn; by rewrite app_nil_r|]. apply Forall_cons_iff in Hoffs as [Ho Hoffs]. rewrite zlen_cons in Hlen. pose proof (zlen_nonneg offs). pose proof (zlen_nonneg pre).
  assert (finish_step w (zlen dn) (pre ++ room, zlen pre) = Ret ((pre ++ be24_bytes o) ++ drop (length (be24_bytes o)) room, zlen (pre ++ be24_bytes o))) as Hstep.
  { unfold finish_step. rewrite (rd_at dn o (offs ++ junk) _ _ Hres) by done. run. rewrite <-(app_nil_r room). rewrite be24_view by (done || lia). run. rewrite !app_nil_r. do 2 f_equal. rewrite u32_small by lia. rewrite zlen_app. done. }
  cbn [length]. rewrite (for_n_next _ _ _ _ _ Hstep). replace (zlen dn + 1) with (zlen (dn ++ [o])) by (rewrite zlen_app; done).
  assert (zlen (drop (length (be24_bytes o)) room) = zlen room - 3) as Hd by (rewrite zlen_drop; [done|]; unfold zlen in *; cbn; lia).
  rewrite IH; [|rewrite Hres; same_list|done|lia|rewrite zlen_app; change (zlen (be24_bytes o)) with 3; lia].
  unfold restart_bytes. rewrite fmap_cons. cbn [concat]. rewrite drop_drop, length_app, <-!app_assoc. done.
Qed.
(** The entries, the restart points and their number. *)
Definition payload (off : Z) (es : list entry) (js : list nat) : list Z := body es ++ restart_bytes (offset_of (off + 4) es <$> js) ++ be16_bytes (zlen js).

Lemma payload_len off es js : zlen (payload off es js) = zlen (body es) + 3 * zlen js + 2.
Proof. unfold payload. rewrite !zlen_app. change (zlen (be16_bytes _)) with 2. unfold zlen at 2. rewrite restart_bytes_len, length_fmap. unfold zlen. lia. Qed.

(** A finished block that is not compressed yet: its type, its length and its payload. *)
Definition block_image (off typ : Z) (es : list entry) (js : list nat) (sz : Z) (data : list Z) : Prop :=
  exists h0 rest, zlen h0 = off /\ sz = off + 4 + zlen (payload off es js) /\ data = h0 ++ typ :: be24_bytes sz ++ payload off es js ++ rest.

Lemma offset_of_range base es j : 0 <= base -> base <= offset_of base es j <= base + zlen (body es).
Proof.
  intros Hb. unfold offset_of. pose proof (zlen_nonneg (body (take j es))). split; [lia|]. rewrite <-(take_drop j es) at 2. rewrite body_app, zlen_app. pose proof (zlen_nonneg (body (drop j es))). lia.
Qed.

Lemma finish_restarts_spec w typ hd es js : writer_inv w typ hd es js -> es <> [] ->
  exists data sz, finish_restarts w = Ret (data, sz) /\ block_image (bw_header_off w) typ es js sz data /\ zlen data = bw_block_size w /\ sz <= bw_block_size w.
Proof.
  intros Hinv Hne. pose proof Hinv as [[room [Hblock Hroom]] [Hoff [Hhd Htyp]] [Hsz Hsmax] Hnext _ _ _ _ _ _ [junk Hres] [Hlen [_ Hmr]] Hjs _]. specialize (Hroom Hne).
  set (offs := offset_of (zlen hd) es <$> js) in *. set (rb := restart_bytes offs). assert (length offs = length js) as Hlo by (unfold offs; by rewrite length_fmap).
  assert (zlen rb = 3 * zlen js) as Hrb by (unfold rb, zlen; rewrite restart_bytes_len, Hlo; lia). pose proof (zlen_nonneg (body es)). pose proof (zlen_nonneg js).
  assert (zlen hd + zlen (body es) + zlen room = bw_block_size w) as Htotal by (rewrite <-Hsz, Hblock, !zlen_app; lia).
  assert (Forall (fun o => 0 <= o < 2 ^ 24) offs) as Hofs.
  { apply Forall_fmap, Forall_forall. intros j _. cbn. pose proof (offset_of_range (zlen hd) es j ltac:(lia)). lia. }
  unfold finish_restarts. rewrite Hblock, Hnext, Hlen. replace (Z.to_nat (zlen js)) with (length offs) by (unfold zlen; lia). rewrite app_assoc.
  pose proof (finish_loop w offs junk [] (hd ++ body es) room Hres Hofs) as Hloop. change (zlen (@nil Z)) with 0 in Hloop. rewrite Hloop; [|unfold zlen in *; lia|rewrite zlen_app; lia]. clear Hloop. run. fold rb.
  set (room1 := drop (length rb) room). assert (zlen room1 = zlen room - 3 * zlen js) as Hr1 by (unfold room1; rewrite zlen_drop; unfold zlen in *; lia).
  pose proof max_restarts_fits. rewrite (Z.mod_small (zlen js)) by lia. rewrite <-(app_nil_r room1), be16_view by lia. run. change (length (be16_bytes (zlen js))) with 2%nat. set (room2 := drop 2 room1).
  set (sz := bw_header_off w + 4 + zlen (body es) + 3 * zlen js + 2). replace (u32 (zlen ((hd ++ body es) ++ rb) + 2)) with sz by (rewrite u32_small, !zlen_app; unfold sz; rewrite ?zlen_app; lia).
  destruct (take_drop_middle hd _ _ Htyp). set (h0 := take (Z.to_nat (bw_header_off w)) hd) in *. set (t := drop (S (Z.to_nat (bw_header_off w))) hd) in *.
  assert (zlen h0 = bw_header_off w) as Hh0 by (unfold h0, zlen in *; rewrite length_take; lia). assert (zlen t = 3) as Ht by (unfold t; rewrite zlen_drop; unfold zlen in *; lia).
  set (tail := body es ++ rb ++ be16_bytes (zlen js) ++ room2). replace (((((h0 ++ typ :: t) ++ body es) ++ rb) ++ be16_bytes (zlen js)) ++ room2 ++ []) with ((h0 ++ [typ]) ++ t ++ tail) by (unfold tail; rewrite app_nil_r; same_list).
  replace (1 + bw_header_off w) with (zlen (h0 ++ [typ])) by (rewrite zlen_app, Hh0; change (zlen [typ]) with 1; lia).
  assert (0 <= sz <= bw_block_size w) as Hszr by (unfold sz; lia). rewrite be24_view by lia. run. assert (drop (length (be24_bytes sz)) t = []) as -> by (apply drop_ge; unfold zlen in Ht; cbn; lia).
  eexists _, sz. split; [done|]. split; [|split; [|lia]].
  - exists h0, room2. split; [done|]. split; [rewrite payload_len; unfold sz; lia|]. unfold tail, payload. rewrite <-Hhd. fold offs. fold rb. same_list.
  - cbn [app]. unfold tail. rewrite !zlen_app, Hh0. change (zlen [typ]) with 1. change (zlen (be24_bytes sz)) with 3. change (zlen (be16_bytes (zlen js))) with 2.
    assert (zlen room2 = zlen room1 - 2) as -> by (unfold room2; rewrite zlen_drop; unfold zlen in *; lia). lia.
Qed.
Lemma image_type off typ es js sz data : block_image off typ es js sz data -> rd data off = Ret typ.
Proof. intros (h0 & rest & Hh0 & _ & Hd). apply (rd_at h0 typ (be24_bytes sz ++ payload off es js ++ rest) _ _ Hd). done. Qed.

(** What a block has on disk, log blocks compressed. *)
Definition disk_image (off typ : Z) (es : list entry) (js : list nat) (data : list Z) : Prop :=
  exists h0, zlen h0 = off /\
    data = h0 ++ typ :: be24_bytes (off + 4 + zlen (payload off es js)) ++ if typ =? BLOCK_TYPE_LOG then deflate (payload off es js) else payload off es js.

(** The room a compressed block needs. *)
Definition compressed_fits (w : block_writer) : Prop :=
  forall block next, finish_restarts w = Ret (block, next) ->
    bw_header_off w + 4 + zlen (deflate (slice block (bw_header_off w + 4) (next - (bw_header_off w + 4)))) <= bw_block_size w.

Lemma compress_spec w off h0 typ sz p rest : memory_enough -> zlen (bw_compressed w) = bw_compressed_cap w -> 0 <= bw_header_off w -> zlen h0 = bw_header_off w -> sz = bw_header_off w + 4 + zlen p ->
  off = bw_header_off w + 4 -> sz < 2 ^ 24 -> off + zlen (deflate p) <= zlen (h0 ++ typ :: be24_bytes sz ++ p ++ rest) -> zlen (h0 ++ typ :: be24_bytes sz ++ p ++ rest) < 2 ^ 24 ->
  exists compressed cap rest', compress_block w (h0 ++ typ :: be24_bytes sz ++ p ++ rest) sz =
    Ret (h0 ++ typ :: be24_bytes sz ++ deflate p ++ rest', off + zlen (deflate p), compressed, cap).
Proof.
  intros Hmem Hcomp Hoff Hh0 Hsz Hskip Hmax Hfits Hblk. unfold compress_block. pose proof (zlen_nonneg p). pose proof (zlen_nonneg (deflate p)). pose proof (deflate_bound p) as Hbound. set (hd := h0 ++ typ :: be24_bytes sz) in *.
  assert (zlen hd = off) as Hhd by (unfold hd; rewrite zlen_app, zlen_cons; change (zlen (be24_bytes sz)) with 3; lia). replace (4 + bw_header_off w) with off by lia. rewrite u64_small by lia. replace (sz - off) with (zlen p) by lia.
  assert (0 <= deflateBound (zlen p)) as Hb0 by lia. destruct (grow_array_ok (bw_compressed w) (deflateBound (zlen p)) (bw_compressed_cap w) Hmem Hcomp Hb0) as (mem & cap & junk & -> & _ & Hz & Hge). run.
  replace (h0 ++ typ :: be24_bytes sz ++ p ++ rest) with (hd ++ (p ++ rest) ++ []) in * by (unfold hd; rewrite app_nil_r; same_list).
  replace (rd_range (hd ++ (p ++ rest) ++ []) off (zlen p)) with (Ret p) by (symmetry; rewrite <-Hhd, <-app_assoc; apply rd_view). run. rewrite Z.gtb_ltb, (proj2 (Z.ltb_ge _ _)) by lia.
  assert (zlen (deflate p) <= zlen mem) as Hfit by lia. pose proof (wr_view [] mem [] (deflate p) Hfit) as Hw. rewrite app_nil_r in Hw. cbn [app] in Hw. change (zlen (@nil Z)) with 0 in Hw. rewrite Hw. run.
  pose proof (rd_view [] (deflate p) (drop (length (deflate p)) mem ++ [])) as Hr. cbn [app] in Hr. change (zlen (@nil Z)) with 0 in Hr. rewrite Hr. run.
  assert (zlen (deflate p) <= zlen (p ++ rest)) as Hfit2 by (rewrite !zlen_app, zlen_nil in Hfits; rewrite zlen_app; lia). pose proof (wr_view hd (p ++ rest) [] (deflate p) Hfit2) as Hw2. rewrite Hhd in Hw2. rewrite Hw2. run.
  eexists _, _, (drop (length (deflate p)) (p ++ rest)). rewrite !zlen_app, zlen_nil in *. pose proof (zlen_nonneg rest). rewrite u32_small by lia.
  replace (zlen (deflate p) + off) with (off + zlen (deflate p)) by lia. replace (h0 ++ typ :: be24_bytes sz ++ deflate p ++ drop (length (deflate p)) (p ++ rest)) with ((hd ++ deflate p) ++ drop (length (deflate p)) (p ++ rest) ++ [])
    by (unfold hd; rewrite app_nil_r; same_list). done.
Qed.

Lemma take_image (h0 : list Z) typ b p rest mem len : mem = h0 ++ typ :: b ++ p ++ rest -> len = zlen (h0 ++ typ :: b ++ p) -> take (Z.to_nat len) mem = h0 ++ typ :: b ++ p.
Proof.
  intros -> ->. replace (h0 ++ typ :: b ++ p ++ rest) with ((h0 ++ typ :: b ++ p) ++ rest) by same_list. apply take_drop_zlen.
Qed.

Lemma slice_image (h0 : list Z) typ sz p rest off n : off = zlen h0 + 4 -> n = zlen p -> slice (h0 ++ typ :: be24_bytes sz ++ p ++ rest) off n = p.
Proof.
  intros -> ->. unfold slice. replace (h0 ++ typ :: be24_bytes sz ++ p ++ rest) with ((h0 ++ typ :: be24_bytes sz) ++ p ++ rest) by same_list.
  replace (zlen h0 + 4) with (zlen (h0 ++ typ :: be24_bytes sz)) by (rewrite zlen_app, zlen_cons; done). rewrite (proj2 (take_drop_zlen (h0 ++ typ :: be24_bytes sz) (p ++ rest))). apply take_drop_zlen.
Qed.

Lemma block_writer_finish_spec w typ hd es js : writer_inv w typ hd es js -> es <> [] -> memory_enough -> (typ = BLOCK_TYPE_LOG -> compressed_fits w) ->
  exists w' len, block_writer_finish w = Ret (w', len) /\ disk_image (bw_header_off w) typ es js (take (Z.to_nat len) (bw_block w')) /\ len <= bw_block_size w /\
    bw_header_off w + 4 + zlen (payload (bw_header_off w) es js) <= bw_block_size w.
Proof.
  intros Hinv Hne Hmem Hfits. destruct (finish_restarts_spec w typ hd es js Hinv Hne) as (data & sz & Hfin & Himg & Hdata & Hsz). pose proof (image_type _ _ _ _ _ _ Himg) as Htyp.
  pose proof Hinv as [_ [Hoff _] [_ Hmax] _ _ _ _ _ _ _ _ _ _ Hcomp]. destruct Himg as (h0 & rest & Hh0 & Hsz' & Hd). unfold block_writer_finish. rewrite Hfin. run. unfold block_writer_type, with_block. cbn [bw_block bw_header_off]. rewrite Htyp. run.
  set (p := payload (bw_header_off w) es js) in *. pose proof (zlen_nonneg p). unfold disk_image. fold p. rewrite <-Hsz'. destruct (Z.eqb_spec typ BLOCK_TYPE_LOG) as [Hlog|Hlog].
  - specialize (Hfits Hlog data sz Hfin). replace (slice data (bw_header_off w + 4) (sz - (bw_header_off w + 4))) with p in Hfits.
    + destruct (compress_spec (with_block w data sz (bw_scratch w)) (bw_header_off w + 4) h0 typ sz p rest) as (c & cap & rest' & Hc); try done; [lia|rewrite <-Hd, Hdata; lia|rewrite <-Hd, Hdata; lia|].
      unfold with_block in Hc. rewrite <-Hd in Hc. rewrite Hc. run. eexists _, _. split; [done|]. cbn [bw_block]. split; [|split; lia]. exists h0. split; [done|].
      apply take_image with (rest := rest'); [done|]. rewrite !zlen_app, zlen_cons, zlen_app. change (zlen (be24_bytes sz)) with 3. lia.
    + rewrite Hd. symmetry. apply slice_image; lia.
  - eexists _, sz. split; [done|]. cbn [bw_block]. split; [|split; lia]. exists h0. split; [done|]. apply take_image with (rest := rest); [done|]. rewrite !zlen_app, zlen_cons, zlen_app. change (zlen (be24_bytes sz)) with 3. lia.
Qed.
End writer.

(** * The reader *)

Section reader.
Context `{ReftableHeaderOk} `{RecordHeaderOk} `{BlockHeaderOk} (hash_size : Z).
Hypothesis (Hhash : 0 < hash_size).

(** A reader of a block with the entries [es], [js] of them at restart points. *)
Definition reader_ok (br : block_reader) (off typ : Z) (es : list entry) (js : list nat) : Prop :=
  (exists sz, block_image off typ es js sz (bk_data (br_block br)) /\ sz < 2 ^ 24) /\ br_header_off br = off /\ br_hash_size br = hash_size /\
  br_block_len br = off + 4 + zlen (body es) /\ br_restart_bytes br = br_block_len br /\ br_restart_count br = zlen js.

Lemma is_block_type rec : reftable_is_block_type (reftable_record_type rec) = true.
Proof. unfold reftable_is_block_type. destruct rec; cbn [reftable_record_type]; rewrite Z.eqb_refl, ?orb_true_r; done. Qed.

Lemma inflate_block_spec br h0 sz p more : zlen (br_uncompressed_data br) = br_uncompressed_cap br -> memory_enough ->
  let typ := BLOCK_TYPE_LOG in let off := zlen h0 in sz = off + 4 + zlen p -> sz < 2 ^ 24 ->
  let data := h0 ++ typ :: be24_bytes sz ++ deflate p ++ more in zlen data < 2 ^ 31 ->
  exists cap full rest, inflate_block br (Block data (zlen data)) off sz = Ret (h0 ++ typ :: be24_bytes sz ++ p ++ rest, cap, full) .
Proof.
  intros Hcap Hmem typ off Hsz Hmax data Hlen. unfold inflate_block. cbn [bk_len bk_data]. set (hd := h0 ++ typ :: be24_bytes sz). assert (zlen hd = off + 4) as Hhd by (unfold hd; rewrite zlen_app, zlen_cons; done).
  pose proof (zlen_nonneg h0). pose proof (zlen_nonneg p). pose proof (zlen_nonneg (deflate p)). pose proof (zlen_nonneg more).
  assert (data = hd ++ (deflate p ++ more) ++ []) as Hdata by (unfold data, hd; rewrite app_nil_r; same_list). assert (zlen data = off + 4 + (zlen (deflate p) + zlen more)) as Hz by (rewrite Hdata, !zlen_app, zlen_nil; lia).
  replace (4 + off) with (zlen hd) by lia. assert (0 <= sz) as Hsz0 by lia. destruct (grow_array_ok (br_uncompressed_data br) sz (br_uncompressed_cap br) Hmem Hcap Hsz0) as (mem & cap & junk & -> & _ & Hzm & Hge). run.
  rewrite Hz. rewrite (u64_small (off + 4 + _ - zlen hd)), (u64_small (sz - zlen hd)) by lia. replace (off + 4 + (zlen (deflate p) + zlen more) - zlen hd) with (zlen (deflate p ++ more)) by (rewrite zlen_app; lia). replace (sz - zlen hd) with (zlen p) by lia.
  pose proof (rd_view [] hd ((deflate p ++ more) ++ [])) as Hr1. cbn [app] in Hr1. change (zlen (@nil Z)) with 0 in Hr1. rewrite Hdata, Hr1. run.
  assert (zlen hd <= zlen mem) as Hfit1 by lia. pose proof (wr_view [] mem [] hd Hfit1) as Hw1. rewrite app_nil_r in Hw1. cbn [app] in Hw1. change (zlen (@nil Z)) with 0 in Hw1. rewrite Hw1. run.
  rewrite rd_view. run. rewrite inflate_deflate. set (room := drop (length hd) mem). assert (zlen room = zlen mem - zlen hd) as Hroom by (unfold room; rewrite zlen_drop; unfold zlen in *; lia).
  rewrite wr_view by lia. run. replace (zlen p + zlen hd) with sz by lia. rewrite Z.eqb_refl. cbn [negb]. eexists cap, _, (drop (length p) room ++ []). do 2 f_equal. unfold hd. f_equal. same_list.
Qed.

Lemma block_reader_init_spec br off typ es js disk more table_block_size rec :
  zlen (br_uncompressed_data br) = br_uncompressed_cap br -> memory_enough -> typ = reftable_record_type rec ->
  disk_image off typ es js disk -> off + 4 + zlen (payload off es js) < 2 ^ 24 -> zlen js < 2 ^ 16 -> zlen (disk ++ more) < 2 ^ 31 ->
  exists br', block_reader_init br (Block (disk ++ more) (zlen (disk ++ more))) off table_block_size hash_size = Ret br' /\ reader_ok br' off typ es js.
Proof.
  intros Hcap Hmem Htyp (h0 & Hh0 & Hdisk) Hmax Hjs Hlen. set (p := payload off es js) in *. set (sz := off + 4 + zlen p) in *. pose proof (zlen_nonneg h0). pose proof (zlen_nonneg p). pose proof (zlen_nonneg js). pose proof (zlen_nonneg (body es)).
  set (stored := if typ =? BLOCK_TYPE_LOG then deflate p else p) in *. assert (disk ++ more = h0 ++ typ :: be24_bytes sz ++ stored ++ more) as Hdata by (rewrite Hdisk; same_list). unfold block_reader_init. cbn [bk_data bk_len].
  assert (rd (disk ++ more) off = Ret typ) as -> by (apply (rd_at h0 typ _ _ _ Hdata); done). run.
  assert (get_be24 (disk ++ more) (off + 1) = Ret sz) as -> by (apply (get_be24_at _ (h0 ++ [typ]) (stored ++ more)); [rewrite Hdata; same_list|rewrite zlen_app, Hh0; done|unfold sz; lia]). run.
  rewrite Htyp, is_block_type. cbn [negb]. rewrite <-Htyp.
  assert (exists un cap full rest blen, (if typ =? BLOCK_TYPE_LOG then '(data, cap, full) ← inflate_block br (Block (disk ++ more) (zlen (disk ++ more))) off sz; Ret (Block data sz, data, cap, full)
     else full ← (if table_block_size =? 0 then Ret sz else if (sz <? table_block_size) && (sz <? zlen (disk ++ more)) then c ← rd (disk ++ more) sz; Ret (if tru c then sz else table_block_size) else Ret table_block_size);
       Ret (Block (disk ++ more) (zlen (disk ++ more)), br_uncompressed_data br, br_uncompressed_cap br, full)) = Ret (Block (h0 ++ typ :: be24_bytes sz ++ p ++ rest) blen, un, cap, full)) as (un & cap & full & rest & blen & ->).
  { unfold stored in Hdata. destruct (Z.eqb_spec typ BLOCK_TYPE_LOG) as [Hlog|Hlog].
    - destruct (inflate_block_spec br h0 sz p more Hcap Hmem) as (cap & full & rest & Hi); [lia|lia|rewrite <-Hlog, <-Hdata; done|]. rewrite <-Hlog, <-Hdata, Hh0 in Hi. rewrite Hi. run. by eexists _, _, _, rest, sz.
    - assert (exists full, (if table_block_size =? 0 then Ret sz else if (sz <? table_block_size) && (sz <? zlen (disk ++ more)) then c ← rd (disk ++ more) sz; Ret (if tru c then sz else table_block_size) else Ret table_block_size) = Ret full) as [full ->].
      { case_if; [by eexists|]. destruct ((sz <? table_block_size) && (sz <? zlen (disk ++ more))) eqn:Eb; [|by eexists]. apply andb_true_iff in Eb as [_ Hlt]. apply Z.ltb_lt in Hlt. destruct (lookup_lt_is_Some_2 (disk ++ more) (Z.to_nat sz)) as [c Hc]; [unfold zlen in *; lia|].
        rewrite (proj2 (rd_Ret (disk ++ more) sz c)) by (split; [lia|done]). run. by eexists. }
      run. eexists _, _, _, more, _. by rewrite <-Hdata. }
  run. cbn [bk_data]. assert (p = body es ++ restart_bytes (offset_of (off + 4) es <$> js) ++ be16_bytes (zlen js)) as Hp by done. set (rs := restart_bytes _) in *.
  assert (zlen p = zlen (body es) + 3 * zlen js + 2) as Hpl by apply payload_len. assert (zlen rs = 3 * zlen js) as Hrs by (unfold rs, zlen; rewrite restart_bytes_len, length_fmap; lia).
  replace (sz - 2) with (zlen (h0 ++ typ :: be24_bytes sz ++ body es ++ rs)) by (rewrite zlen_app, zlen_cons, !zlen_app; change (zlen (be24_bytes sz)) with 3; unfold sz; lia).
  rewrite (rd_go _ (h0 ++ typ :: be24_bytes sz ++ body es ++ rs) (be16_bytes (zlen js)) rest 2) by (done || (rewrite Hp; same_list)). run. rewrite get_be16_spec by lia.
  replace (zlen (h0 ++ typ :: be24_bytes sz ++ body es ++ rs) - 3 * zlen js) with (off + 4 + zlen (body es)) by (rewrite zlen_app, zlen_cons, !zlen_app; change (zlen (be24_bytes sz)) with 3; lia).
  rewrite u32_small by lia. eexists. split; [done|]. split; [|done]. exists sz. split; [|done]. exists h0, rest. done.
Qed.
End reader.

(** * The iterator *)

Section iterator.
Context `{ReftableHeaderOk} `{RecordHeaderOk} `{BlockHeaderOk} (hash_size : Z).
Hypothesis (Hhash : 0 < hash_size).

(** The string [s] can stand for the key before the entry. *)
Definition stands_for (s : list Z) (e : entry) : Prop := shared e <= zlen s /\ take (Z.to_nat (shared e)) s = take (Z.to_nat (shared e)) (e_key e).

Lemma stands_prev e : stands_for (e_prev e) e.
Proof. destruct (common_prefix_range (e_prev e) (e_key e)) as (? & ? & ?). by split; [unfold shared; lia|]. Qed.

Lemma stands_own e : stands_for (e_key e) e.
Proof. destruct (common_prefix_range (e_prev e) (e_key e)) as (? & ? & ?). by split; [unfold shared; lia|]. Qed.

Lemma stands_restart s e : shared e = 0 -> stands_for s e.
Proof. intros He. unfold stands_for. rewrite He. pose proof (zlen_nonneg s). by split. Qed.

Lemma linked_next s es j e : linked s es -> es !! S j = Some e -> forall f, es !! j = Some f -> stands_for (e_key f) e.
Proof.
  revert s j. induction es as [|g es IH]; intros s j Hlk He f Hf; [done|]. destruct Hlk as [_ Hl]. destruct j as [|j]; [|by apply (IH _ j Hl)]. injection Hf as <-. destruct es as [|h es]; [done|]. injection He as ->. destruct Hl as [[Hp|Hp] _].
  - apply stands_restart. unfold shared. by rewrite Hp.
  - rewrite <-Hp. apply stands_prev.
Qed.

(** The iterator before the entry [j], with a last key that can stand for the one before it. *)
Record iter_inv (it : block_iter) (br : block_reader) (off : Z) (es : list entry) (j : nat) (s : list Z) : Prop := {
  ii_block : it_block it = bk_data (br_block br) /\ it_block_len it = br_block_len br /\ it_hash_size it = hash_size;
  ii_off : it_next_off it = offset_of (off + 4) es j;
  ii_key : buf_rep (it_last_key it) s;
  ii_scratch : exists s', buf_rep (it_scratch it) s';
  ii_stands : forall e, es !! j = Some e -> stands_for s e;
}.

Lemma body_split es j e : es !! j = Some e -> body es = body (take j es) ++ entry_bytes e ++ body (drop (S j) es).
Proof. intros Hj. rewrite <-(take_drop_middle _ _ _ Hj) at 1. by rewrite body_app. Qed.

Lemma offset_next base es j e : es !! j = Some e -> offset_of base es (S j) = offset_of base es j + zlen (entry_bytes e).
Proof. intros Hj. unfold offset_of. rewrite (take_S_r _ _ _ Hj), body_app, zlen_app. cbn [body]. rewrite app_nil_r. lia. Qed.

Lemma block_iter_end it br off typ es js j s rec : reader_ok hash_size br off typ es js -> iter_inv it br off es j s -> (length es <= j)%nat -> block_iter_next it rec = Ret None.
Proof.
  intros (_ & _ & _ & Hlen & _) [(_ & Hbl & _) Hoff _ _ _] Hj. unfold block_iter_next. rewrite Hbl, Hlen, Hoff. unfold offset_of. rewrite take_ge by done. by rewrite Z.geb_leb, Z.leb_refl.
Qed.

Lemma key_bytes_pos s t x : zlen t < 2 ^ 31 -> 0 < zlen (key_bytes s t x).
Proof.
  intros Ht. destruct (common_prefix_range s t) as (? & ? & _). unfold key_bytes. set (p := common_prefix s t) in *. destruct (varint_digits_spec p ltac:(unfold is_word; lia)) as (_ & _ & Hd).
  rewrite !zlen_app. pose proof (zlen_nonneg (varint_digits ((zlen t - p) * 8 + x))). pose proof (zlen_nonneg (drop (Z.to_nat p) t)). lia.
Qed.

(** Where an entry is in the block. *)
Lemma entry_at br off typ es js j e : 0 <= off -> reader_ok hash_size br off typ es js -> es !! j = Some e ->
  exists pre post, bk_data (br_block br) = pre ++ (entry_bytes e ++ body (drop (S j) es)) ++ post /\ zlen pre = offset_of (off + 4) es j /\
    br_block_len br = zlen pre + zlen (entry_bytes e ++ body (drop (S j) es)) /\ br_block_len br < 2 ^ 24.
Proof.
  intros Hoff ((sz & (h0 & rest & Hh0 & Hsz & Hdata) & Hmax) & _ & _ & Hlen & _) Hj. rewrite payload_len in Hsz. pose proof (zlen_nonneg js). pose proof (body_split es j e Hj) as Hbody.
  exists (h0 ++ typ :: be24_bytes sz ++ body (take j es)), (restart_bytes (offset_of (off + 4) es <$> js) ++ be16_bytes (zlen js) ++ rest).
  assert (zlen (h0 ++ typ :: be24_bytes sz ++ body (take j es)) = offset_of (off + 4) es j) as Hpre by (unfold offset_of; rewrite zlen_app, zlen_cons, zlen_app; change (zlen (be24_bytes sz)) with 3; lia).
  split; [rewrite Hdata; unfold payload; rewrite Hbody at 1; same_list|]. split; [done|]. rewrite Hpre, Hlen. split; [rewrite Hbody at 1; unfold offset_of; rewrite zlen_app; lia|lia].
Qed.

Lemma block_iter_next_spec it br off typ es js j s e old : 0 <= off -> reader_ok hash_size br off typ es js -> Forall (entry_ok hash_size) es -> linked [] es -> memory_enough ->
  iter_inv it br off es j s -> es !! j = Some e -> same_kind (e_rec e) old ->
  exists rec' it', block_iter_next it old = Ret (Some (rec', it')) /\ same_record (e_rec e) rec' /\ iter_inv it' br off es (S j) (e_key e).
Proof.
  intros Hoff0 Hbr Hes Hlk Hmem [(Hblk & Hbl & Hih) Hoff Hkey [s' Hscr] Hst] Hj Hkind. pose proof (proj1 (Forall_lookup _ _) Hes j e Hj) as (Hok & Hkeyed & Hne & Hkmax).
  destruct (entry_at br off typ es js j e Hoff0 Hbr Hj) as (pre & post & Hdata & Hpre & Hlen & Hmax). unfold entry_bytes in Hdata, Hlen. rewrite <-(app_assoc (key_bytes _ _ _)) in Hdata, Hlen.
  set (d := key_bytes (e_prev e) (e_key e) (reftable_record_val_type (e_rec e))) in *. set (r := record_bytes (e_rec e)) in *. set (tail := body (drop (S j) es)) in *.
  assert (0 < zlen d) as Hpos by (by apply key_bytes_pos). pose proof (zlen_nonneg r). pose proof (zlen_nonneg tail). pose proof (zlen_nonneg pre). assert (zlen (d ++ r ++ tail) = zlen d + zlen r + zlen tail) as Hv by (rewrite !zlen_app; lia).
  assert (it_block_len it - it_next_off it = zlen (d ++ r ++ tail)) as Hview by lia. assert (it_block it = pre ++ d ++ (r ++ tail) ++ post) as Hmem' by (rewrite Hblk, Hdata; same_list).
  unfold block_iter_next. rewrite Hview, u64_small, Z.geb_leb, (proj2 (Z.leb_gt _ _)) by lia.
  destruct (decode_key_reads_as (it_last_key it) s (e_prev e) (e_key e) (reftable_record_val_type (e_rec e)) Hkey) as (key' & Hrk & Hread); [apply (Hst e Hj)|apply (Hst e Hj)|done|by apply (val_type_fits hash_size)|done|]. fold d in Hread.
  destruct (record_decode_reads hash_size Hhash (e_rec e) old (e_key e) key' (it_scratch it) s') as (rec' & scratch' & s1 & Hdec & Hsame & Hs1); [done..|]. fold r in Hdec.
  rewrite Hoff, <-Hpre. rewrite (reads_go (fun mem v => reftable_decode_key mem (it_last_key it) v) d _ (it_block it) pre (r ++ tail) post Hread Hmem') by lia. run. pose proof Hrk as (Hkl & _). rewrite Hkl, (proj2 (tru_true _)) by (by apply zlen_nonempty). cbn [negb].
  rewrite (consume_view_rest pre d) by lia. rewrite Hih.
  rewrite (reads_go (fun mem v => reftable_record_decode mem old key' (reftable_record_val_type (e_rec e)) v hash_size (it_scratch it)) r _ (it_block it) (pre ++ d) tail post Hdec) by (rewrite ?Hmem'; (same_list || fits)). run.
  rewrite (consume_view_rest (pre ++ d) r) by fits. cbn [sv_len sv_buf]. exists rec'. eexists. split; [done|]. split; [done|].
  assert (u32 (zlen pre + u64 (zlen (d ++ r ++ tail) - zlen tail)) = offset_of (off + 4) es (S j)) as ->.
  { rewrite (offset_next _ _ _ _ Hj), <-Hpre. unfold entry_bytes. fold d r. rewrite (zlen_app d r), Hv, u64_small, u32_small by (rewrite ?u64_small; lia). lia. }
  split; cbn [it_block it_block_len it_hash_size it_next_off it_last_key it_scratch]; [done|done|done|by exists s1|]. intros f Hf. by apply (linked_next [] es j f).
Qed.
(** ** Reading a block *)

(** The callers' loop. *)
Fixpoint read_all (fuel : nat) (it : block_iter) (rec : reftable_record) : outcome (list reftable_record) :=
  match fuel with
  | O => Undef
  | S fuel =>
      r ← block_iter_next it rec;
      match r with None => Ret [] | Some (rec, it) => recs ← read_all fuel it rec; Ret (rec :: recs) end
  end.

Lemma same_kind_type a b : reftable_record_type a = reftable_record_type b -> match b with RecIndex b => exists s, buf_rep (ir_last_key b) s | _ => True end -> same_kind a b.
Proof.
  intros Ht Hb. pose proof block_types as Hnd. rewrite !NoDup_cons, !not_elem_of_cons in Hnd. destruct a, b; cbn [reftable_record_type] in Ht; try done; exfalso; intuition congruence.
Qed.

Lemma same_kind_of a b c : same_record a b -> reftable_record_type a = reftable_record_type c -> same_kind c b.
Proof.
  intros Hs Ht. assert (reftable_record_type a = reftable_record_type b) as Hab by (by destruct a, b). apply same_kind_type; [congruence|]. destruct a, b; try done. destruct Hs as (_ & k & _ & Hk). by exists k.
Qed.

Definition all_type (typ : Z) (es : list entry) : Prop := Forall (fun e => reftable_record_type (e_rec e) = typ) es.

Lemma block_read_all_spec br off typ es js : 0 <= off -> reader_ok hash_size br off typ es js -> Forall (entry_ok hash_size) es -> linked [] es -> all_type typ es -> memory_enough ->
  forall n j it s old fuel, length es = (j + n)%nat -> (n < fuel)%nat -> iter_inv it br off es j s -> (forall e, es !! j = Some e -> same_kind (e_rec e) old) ->
  exists recs, read_all fuel it old = Ret recs /\ Forall2 same_record (e_rec <$> drop j es) recs.
Proof.
  intros Hoff Hbr Hes Hlk Hall Hmem. induction n as [|n IH]; intros j it s old fuel Hn Hfuel Hit Hkind; (destruct fuel as [|fuel]; [lia|]).
  - exists []. rewrite drop_ge by lia. split; [|constructor]. cbn [read_all]. rewrite (block_iter_end it br off typ es js j s) by (done || lia). done.
  - destruct (lookup_lt_is_Some_2 es j) as [e Hj]; [lia|]. destruct (block_iter_next_spec it br off typ es js j s e old) as (rec' & it' & Hnext & Hsame & Hit'); [done..|by apply Hkind|].
    destruct (IH (S j) it' (e_key e) rec' fuel) as (recs & Hrecs & Hf); [lia|lia|done| |].
    { intros f Hf. apply (same_kind_of (e_rec e)); [done|]. pose proof (proj1 (Forall_lookup _ _) Hall) as Hty. by rewrite (Hty j e Hj), (Hty (S j) f Hf). }
    exists (rec' :: recs). cbn [read_all] in *. rewrite Hnext. run. rewrite Hrecs. run. split; [done|]. rewrite (drop_S es e j Hj), fmap_cons. by constructor.
Qed.

(** ** Searching *)

Lemma restart_offset_spec br off typ es js i j : 0 <= off -> reader_ok hash_size br off typ es js -> js !! i = Some j -> block_reader_restart_offset br (Z.of_nat i) = Ret (offset_of (off + 4) es j).
Proof.
  intros Hoff ((sz & (h0 & rest & Hh0 & Hsz & Hdata) & Hmax) & _ & _ & Hlen & Hrb & _) Hi. unfold block_reader_restart_offset. rewrite Hrb, Hlen. set (offs := offset_of (off + 4) es <$> js).
  assert (offs !! i = Some (offset_of (off + 4) es j)) as Ho by (unfold offs; rewrite list_lookup_fmap, Hi; done). pose proof (take_drop_middle _ _ _ Ho) as Hsplit. rewrite payload_len in Hsz. pose proof (zlen_nonneg js).
  pose proof (offset_of_range (off + 4) es j ltac:(lia)).
  apply (get_be24_at _ (h0 ++ typ :: be24_bytes sz ++ body es ++ restart_bytes (take i offs)) (restart_bytes (drop (S i) offs) ++ be16_bytes (zlen js) ++ rest)); [| |lia].
  - rewrite Hdata. unfold payload. fold offs. rewrite <-Hsplit at 1. unfold restart_bytes. rewrite fmap_app, fmap_cons, concat_app. cbn [concat]. same_list.
  - rewrite zlen_app, zlen_cons, !zlen_app. change (zlen (be24_bytes sz)) with 3. unfold zlen at 4. rewrite restart_bytes_len, length_take, Nat.min_l by (apply lookup_lt_Some in Ho; lia). lia.
Qed.

Lemma restart_needle_spec br off typ es js i j e needle want : 0 <= off -> reader_ok hash_size br off typ es js -> Forall (entry_ok hash_size) es -> js !! i = Some j -> es !! j = Some e -> shared e = 0 -> buf_rep needle want ->
  exists b, restart_needle_less br needle (Z.of_nat i) = Ret b /\ 0 <= b /\ (0 < b <-> bytes_cmp want (e_key e) < 0).
Proof.
  intros Hoff Hbr Hes Hi Hj He Hwant. unfold restart_needle_less. rewrite (restart_offset_spec br off typ es js i j Hoff Hbr Hi). run.
  pose proof (proj1 (Forall_lookup _ _) Hes j e Hj) as (Hok & Hkeyed & Hne & Hkmax). destruct (entry_at br off typ es js j e Hoff Hbr Hj) as (pre & post & Hdata & <- & Hlen & Hmax). rewrite Hlen.
  set (x := reftable_record_val_type (e_rec e)). set (k := e_key e) in *. set (d := keylen_bytes 0 (zlen k) x). set (tail := record_bytes (e_rec e) ++ body (drop (S j) es)).
  assert (entry_bytes e ++ body (drop (S j) es) = d ++ k ++ tail) as Heq.
  { unfold entry_bytes, key_bytes, tail. fold k x. change (common_prefix (e_prev e) k) with (shared e). rewrite He, Z.sub_0_r. change (Z.to_nat 0) with 0%nat. rewrite drop_0. unfold d, keylen_bytes. same_list. }
  rewrite Heq in *. pose proof (zlen_nonneg pre). pose proof (zlen_nonneg d). pose proof (zlen_nonneg k). pose proof (zlen_nonneg tail). assert (zlen (d ++ k ++ tail) = zlen d + zlen k + zlen tail) as Hz by (rewrite !zlen_app; lia).
  rewrite u32_small by lia. replace (zlen pre + zlen (d ++ k ++ tail) - zlen pre) with (zlen (d ++ (k ++ tail))) by lia. pose proof (val_type_fits hash_size (e_rec e) Hok) as Hx.
  pose proof (decode_keylen_reads 0 (zlen k) x ltac:(done) ltac:(lia) Hx) as Hread. fold d in Hread. rewrite (reads_go _ d _ _ pre (k ++ tail) post Hread) by (rewrite ?Hdata; (same_list || lia)). run. change (tru 0) with false. cbn match.
  rewrite (consume_view_rest pre d) by lia. cbn [sv_len sv_buf]. rewrite zlen_app, Z.gtb_ltb, (proj2 (Z.ltb_ge _ _)) by lia.
  pose proof Hwant as (Hwl & _). rewrite Hwl. destruct (bytes_cmp_min want k) as (? & ? & ->). set (m := if zlen want <? zlen k then zlen want else zlen k) in *. rewrite (buf_rep_slice needle want) by (done || lia). run.
  assert (rd_range (bk_data (br_block br)) (zlen (pre ++ d)) m = Ret (take (Z.to_nat m) k)) as ->.
  { rewrite <-(take_drop (Z.to_nat m) k) in Hdata. apply (rd_go _ (pre ++ d) _ (drop (Z.to_nat m) k ++ tail ++ post)); [rewrite Hdata; same_list|]. unfold zlen in *. rewrite length_take. lia. }
  run. change (slice want 0 m) with (take (Z.to_nat m) want). unfold tru. destruct (Z.eqb_spec (bytes_cmp (take (Z.to_nat m) want) (take (Z.to_nat m) k)) 0); cbn [negb]; eexists; (split; [done|]).
  - destruct (Z.ltb_spec (zlen want) (zlen k)); [done|]. destruct (Z.eqb_spec (zlen want) (zlen k)); done.
  - destruct (Z.ltb_spec (bytes_cmp (take (Z.to_nat m) want) (take (Z.to_nat m) k)) 0); cbn [Z.b2z]; lia.
Qed.
(** Strictly ascending keys. *)
Definition ascending (es : list entry) : Prop := forall i j e f, (i < j)%nat -> es !! i = Some e -> es !! j = Some f -> bytes_cmp (e_key e) (e_key f) < 0.

Lemma buf_rep_inj b s t : buf_rep b s -> buf_rep b t -> s = t.
Proof.
  intros Hs Ht. pose proof (key_string b s Hs) as H1'. pose proof (key_string b t Ht) as H2'. rewrite H1' in H2'. by injection H2'.
Qed.

Lemma same_record_keyed a b k : same_record a b -> record_keyed a k -> record_keyed b k.
Proof.
  destruct a as [a|a|a|a], b as [b|b|b|b]; intros Hs Hk; try done; cbn [same_record record_keyed] in *.
  - destruct Hs as (-> & _). done.
  - destruct Hs as (Hn & Hi & _). unfold log_key in *. by rewrite Hn, Hi.
  - by subst b.
  - destruct Hs as (_ & k' & Hk1 & Hk2). by rewrite (buf_rep_inj _ _ _ Hk Hk1).
Qed.

Lemma entries_short es : Forall (entry_ok hash_size) es -> Z.of_nat (length es) <= zlen (body es).
Proof.
  induction 1 as [|e es (_ & _ & _ & Hk) _ IH]; [done|]. cbn [body length]. rewrite zlen_app. unfold entry_bytes. rewrite zlen_app. pose proof (key_bytes_pos (e_prev e) (e_key e) (reftable_record_val_type (e_rec e)) Hk).
  pose proof (zlen_nonneg (record_bytes (e_rec e))). lia.
Qed.

(** The entries before [j] are less than [w]. *)
Definition below (es : list entry) (w : list Z) (j : nat) : Prop := forall i e, (i < j)%nat -> es !! i = Some e -> bytes_cmp (e_key e) w < 0.

Lemma seek_loop br off typ es js want w : 0 <= off -> reader_ok hash_size br off typ es js -> Forall (entry_ok hash_size) es -> linked [] es -> all_type typ es -> memory_enough -> buf_rep want w ->
  forall n j it rec s fuel, length es = (j + n)%nat -> (n < fuel)%nat -> iter_inv it br off es j s -> below es w j -> (forall e, es !! j = Some e -> same_kind (e_rec e) rec) ->
  exists it' j' s', loop fuel (seek_step want) (it, rec) = Ret it' /\ iter_inv it' br off es j' s' /\ below es w j' /\ (j' <= length es)%nat /\ (forall e, es !! j' = Some e -> 0 <= bytes_cmp (e_key e) w).
Proof.
  intros Hoff Hbr Hes Hlk Hall Hmem Hwant. induction n as [|n IH]; intros j it rec s fuel Hn Hfuel Hit Hlow Hkind; (destruct fuel as [|fuel]; [lia|]).
  - exists (iter_at it (it_next_off it) (it_last_key it)), j, s. split; [|split; [by destruct Hit|split; [done|split; [lia|]]]].
    + apply loop_stop. unfold seek_step. rewrite (block_iter_end it br off typ es js j s) by (done || lia). done.
    + intros e He. apply lookup_lt_Some in He. lia.
  - destruct (lookup_lt_is_Some_2 es j) as [e Hj]; [lia|]. destruct (block_iter_next_spec it br off typ es js j s e rec) as (rec' & it' & Hnext & Hsame & Hit'); [done..|by apply Hkind|].
    pose proof (proj1 (Forall_lookup _ _) Hes j e Hj) as (_ & Hkeyed & _ & Hkmax). pose proof Hit' as [Hi1 Hi2 Hi3 Hi4 Hi5].
    destruct (record_key_spec rec' (e_key e) (it_last_key it') (e_key e)) as (key & Hkey & Hrk); [by eapply same_record_keyed|done..|].
    assert (seek_step want (it, rec) = if bytes_cmp (e_key e) w >=? 0 then Ret (inr (iter_at it' (it_next_off it) key)) else Ret (inl (iter_at it' (it_next_off it') key, rec'))) as Hstep.
    { unfold seek_step. rewrite Hnext. run. rewrite Hkey. run. rewrite (buf_cmp_spec key want (e_key e) w Hrk Hwant). done. }
    rewrite Z.geb_leb in Hstep. destruct (Z.leb_spec 0 (bytes_cmp (e_key e) w)) as [Hge|Hlt].
    + exists (iter_at it' (it_next_off it) key), j, (e_key e). split; [by apply loop_stop|]. split; [|split; [done|split; [lia|]]].
      * split; cbn [iter_at it_block it_block_len it_hash_size it_next_off it_last_key it_scratch]; [done|by destruct Hit|done|done|]. intros f Hf. rewrite Hj in Hf. injection Hf as <-. apply stands_own.
      * intros f Hf. rewrite Hj in Hf. by injection Hf as <-.
    + rewrite (loop_next _ _ _ _ Hstep). apply (IH (S j) _ _ (e_key e)); [lia|lia| | |].
      * split; cbn [iter_at it_block it_block_len it_hash_size it_next_off it_last_key it_scratch]; done.
      * intros i f Hi Hf. destruct (decide (i = j)) as [->|]; [rewrite Hj in Hf; by injection Hf as <-|]. apply (Hlow i f); [lia|done].
      * intros f Hf. apply (same_kind_of (e_rec e)); [done|]. pose proof (proj1 (Forall_lookup _ _) Hall) as Hty. by rewrite (Hty j e Hj), (Hty (S j) f Hf).
Qed.

Lemma record_init_kind typ rec0 : reftable_record_type rec0 = typ -> exists rec, reftable_record_init typ = Ret rec /\ forall rec1, reftable_record_type rec1 = typ -> same_kind rec1 rec.
Proof.
  intros <-. pose proof block_types as Hnd. rewrite !NoDup_cons, !not_elem_of_cons in Hnd. destruct Hnd as ((? & ? & ? & _) & (? & ? & _) & (? & _) & _). unfold reftable_record_init.
  destruct rec0; cbn [reftable_record_type]; rewrite ?Z.eqb_refl, ?(proj2 (Z.eqb_neq _ _)) by done; (eexists; split; [done|]); intros rec1 Ht; apply same_kind_type; try done.
  exists []. apply buf_rep_init.
Qed.

Lemma sorted_lookup {A} (R : A -> A -> Prop) js i j a b : StronglySorted R js -> (i < j)%nat -> js !! i = Some a -> js !! j = Some b -> R a b.
Proof.
  intros Hs. revert i j. induction Hs as [|c js Hs IH Hc]; intros i j Hij Ha Hb; [done|]. destruct j as [|j]; [lia|]. destruct i as [|i]; [|apply (IH i j); (done || lia)].
  injection Ha as <-. by apply (proj1 (Forall_lookup _ _) Hc j).
Qed.

Lemma block_iter_seek_key_spec br off typ es js it want w s0 s1 : 0 <= off -> reader_ok hash_size br off typ es js -> Forall (entry_ok hash_size) es -> linked [] es -> all_type typ es -> ascending es -> restarts_ok es js -> es <> [] -> memory_enough ->
  buf_rep (it_last_key it) s0 -> buf_rep (it_scratch it) s1 -> buf_rep want w ->
  exists it' j s', block_iter_seek_key it br want = Ret it' /\ iter_inv it' br off es j s' /\ below es w j /\ (j <= length es)%nat /\ (forall i e, (j <= i)%nat -> es !! i = Some e -> 0 <= bytes_cmp (e_key e) w).
Proof.
  intros Hoff Hbr Hes Hlk Hall Hasc (Hsorted & Hjs & Hfirst) Hne Hmem Hlast Hscr Hwant. pose proof Hbr as ((sz & Himg & Hmax) & Hho & Hhs & Hlen & _ & Hcount).
  set (g k := match js !! Z.to_nat k with Some j => match es !! j with Some e => bytes_cmp w (e_key e) <? 0 | None => false end | None => false end).
  destruct (Hfirst Hne) as [js' Hjs0]. assert (0 < zlen js) as Hpos by (rewrite Hjs0, zlen_cons; pose proof (zlen_nonneg js'); lia).
  destruct (binsearch_spec (restart_needle_less br want) g (zlen js) Hpos) as (k & Hk & Hkr & Hbelow & Habove).
  { intros k Hk. destruct (lookup_lt_is_Some_2 js (Z.to_nat k)) as [j Hj]; [unfold zlen in *; lia|]. destruct (proj1 (Forall_lookup _ _) Hjs _ _ Hj) as (e & He & Hs).
    destruct (restart_needle_spec br off typ es js (Z.to_nat k) j e want w Hoff Hbr Hes Hj He Hs Hwant) as (b & Hb & Hb0 & Hbl). rewrite Z2Nat.id in Hb by lia. exists b. split; [done|]. split; [done|]. unfold g. by rewrite Hj, He, Z.ltb_lt. }
  { intros i j Hij Hj Hgi. destruct (decide (i = j)) as [<-|Hne']; [done|]. unfold g in *. destruct (js !! Z.to_nat i) as [a|] eqn:Ha; [|done]. destruct (es !! a) as [e|] eqn:He; [|done].
    destruct (lookup_lt_is_Some_2 js (Z.to_nat j)) as [b Hb]; [unfold zlen in *; lia|]. rewrite Hb. destruct (proj1 (Forall_lookup _ _) Hjs _ _ Hb) as (f & Hf & _). rewrite Hf. apply Z.ltb_lt in Hgi. apply Z.ltb_lt.
    apply (bytes_cmp_lt_trans w (e_key e)); [done|]. apply Z.lt_le_incl, (Hasc a b e f); [|done|done]. apply (sorted_lookup lt js (Z.to_nat i) (Z.to_nat j)); (done || lia). }
  unfold block_iter_seek_key. rewrite Hcount, Hk. run.
  assert (exists j0 e0, (if k >? 0 then block_reader_restart_offset br (k - 1) else Ret (br_header_off br + 4)) = Ret (offset_of (off + 4) es j0) /\ es !! j0 = Some e0 /\ shared e0 = 0 /\ below es w j0) as (j0 & e0 & -> & He0 & Hs0 & Hlow).
  { rewrite Z.gtb_ltb. destruct (Z.ltb_spec 0 k) as [Hk0|Hk0].
    - destruct (lookup_lt_is_Some_2 js (Z.to_nat (k - 1))) as [j Hj]; [unfold zlen in *; lia|]. destruct (proj1 (Forall_lookup _ _) Hjs _ _ Hj) as (e & He & Hs). exists j, e. split; [|split; [done|split; [done|]]].
      + replace (k - 1) with (Z.of_nat (Z.to_nat (k - 1))) by lia. by apply (restart_offset_spec br off typ es js).
      + specialize (Hbelow (k - 1) ltac:(lia)). unfold g in Hbelow. rewrite Hj, He in Hbelow. apply Z.ltb_ge in Hbelow. intros i f Hi Hf. apply (bytes_cmp_lt_trans _ (e_key e)); [by apply (Hasc i j)|]. pose proof (cmp_flip (cmp := bytes_cmp) (e_key e) w). lia.
    - rewrite Hjs0 in Hjs. apply Forall_cons_iff in Hjs as [(e & He & Hs) _]. exists 0%nat, e. split; [|split; [done|split; [done|]]].
      + rewrite Hho. unfold offset_of. rewrite take_0. cbn [body]. rewrite zlen_nil. f_equal. lia.
      + intros i f Hi. lia. }
  run. unfold block_reader_type. rewrite Hho, (image_type _ _ _ _ _ _ Himg). run. destruct es as [|e es]; [done|]. destruct (record_init_kind typ (e_rec e)) as (rec & -> & Hrec); [by apply Forall_cons_iff in Hall as [? _]|]. run.
  assert (j0 < length (e :: es))%nat as Hj0 by (by eapply lookup_lt_Some). pose proof (entries_short _ Hes) as Hshort.
  destruct (seek_loop br off typ (e :: es) js want w Hoff Hbr Hes Hlk Hall Hmem Hwant (length (e :: es) - j0) j0
    (BlockIter (offset_of (off + 4) (e :: es) j0) (bk_data (br_block br)) (br_block_len br) (br_hash_size br) (it_last_key it) (it_scratch it)) rec s0 (S (Z.to_nat (br_block_len br))))
    as (it' & j & s' & Hrun & Hit' & Hb & Hj & Hat); [lia|lia| |done| |].
  { split; cbn [it_block it_block_len it_hash_size it_next_off it_last_key it_scratch]; [done|done|done|by exists s1|]. intros f Hf. rewrite He0 in Hf. injection Hf as <-. by apply stands_restart. }
  { intros f Hf. apply Hrec. by apply (proj1 (Forall_lookup _ _) Hall j0). }
  exists it', j, s'. split; [done|]. split; [done|]. split; [done|]. split; [done|]. intros i f Hi Hf. destruct (lookup_lt_is_Some_2 (e :: es) j) as [h Hh]; [apply lookup_lt_Some in Hf; lia|].
  specialize (Hat h Hh). destruct (decide (i = j)) as [->|]; [rewrite Hh in Hf; by injection Hf as <-|]. pose proof (Hasc j i h f ltac:(lia) Hh Hf) as Hlt.
  destruct (Z.le_gt_cases 0 (bytes_cmp (e_key f) w)); [done|]. pose proof (bytes_cmp_lt_trans (e_key h) (e_key f) w Hlt ltac:(lia)). lia.
Qed.
End iterator.

(** * Blocks *)

Section blocks.
Context `{ReftableHeaderOk} `{RecordHeaderOk} `{BlockHeaderOk} (hash_size : Z).
Hypothesis (Hhash : 0 < hash_size).

(** A reader and an iterator to start with, new or used before. *)
Definition reader_valid (br : block_reader) : Prop := zlen (br_uncompressed_data br) = br_uncompressed_cap br.
Definition iter_valid (it : block_iter) : Prop := (exists s, buf_rep (it_last_key it) s) /\ (exists s, buf_rep (it_scratch it) s).

(** A block of records of one type, and a reader on what is on disk. *)
Lemma block_written bw typ block off recs ks w br more tbs :
  writer_valid bw -> 0 <= off -> off + 4 <= zlen block < 2 ^ 24 -> memory_enough -> Forall2 (good hash_size) recs ks -> recs <> [] -> Forall (fun r => reftable_record_type r = typ) recs ->
  (w ← block_writer_init bw typ block (zlen block) off hash_size; add_all w recs) = Ret w -> (typ = BLOCK_TYPE_LOG -> compressed_fits w) -> reader_valid br -> zlen more < 2 ^ 30 ->
  exists w' len, block_writer_finish w = Ret (w', len) /\ len <= zlen block /\
    let data := take (Z.to_nat len) (bw_block w') ++ more in
    exists br' es js, block_reader_init br (Block data (zlen data)) off tbs hash_size = Ret br' /\ reader_ok hash_size br' off typ es js /\
      Forall (entry_ok hash_size) es /\ linked [] es /\ restarts_ok es js /\ all_type typ es /\ es <> [] /\ e_rec <$> es = recs /\ e_key <$> es = ks.
Proof.
  intros Hbw Hoff Hsize Hmem Hgood Hne Htype Hrun Hfits Hbr Hmore. destruct (block_writer_init_spec hash_size bw typ block off Hbw Hoff Hsize) as (w0 & hd & Hinit & Hinv0 & Hs0 & Ho0). rewrite Hinit in Hrun. run_in Hrun.
  destruct (add_all_spec hash_size Hhash recs ks w0 w typ hd [] [] Hmem Hgood Hinv0 Hrun) as (es & js & Hinv & Hrec & Hkey & Hs1 & Ho1). cbn [app] in Hinv.
  assert (es <> []) as Hes by (intros ->; by destruct recs). destruct (block_writer_finish_spec hash_size w typ hd es js Hinv Hes Hmem Hfits) as (w' & len & Hfin & Hdisk & Hlen & Hpay). rewrite Ho1, Ho0 in Hdisk, Hpay. rewrite Hs1, Hs0 in Hlen, Hpay.
  exists w', len. split; [done|]. split; [done|]. intros data. pose proof Hinv as [_ _ _ _ _ _ Hlk Hok _ _ _ [_ [_ Hmr]] Hjs _]. pose proof max_restarts_fits.
  assert (all_type typ es) as Hall.
  { apply Forall_lookup. intros i e He. apply (proj1 (Forall_lookup _ _) Htype i). rewrite <-Hrec, list_lookup_fmap, He. done. }
  destruct es as [|e es]; [done|]. assert (typ = reftable_record_type (e_rec e)) as Ht by (by apply Forall_cons_iff in Hall as [? _]).
  destruct (block_reader_init_spec hash_size br off typ (e :: es) js (take (Z.to_nat len) (bw_block w')) more tbs (e_rec e)) as (br' & Hbr' & Hrok); [done|done|done|done|lia|lia| |].
  { unfold data. rewrite zlen_app. assert (zlen (take (Z.to_nat len) (bw_block w')) <= Z.max 0 len) by (unfold zlen; rewrite length_take; lia). lia. }
  exists br', (e :: es), js. done.
Qed.

(** [C34] A block keeps its records: when records of one type with the keys [ks] have
    been added to a new block and it is finished, compressed if it holds log entries,
    a reader that is given the bytes, with anything behind them, succeeds, and an
    iterator from the start returns the same records in order and then ends.  Writer,
    reader and iterator may have been used before.  Of a block of log entries it is
    assumed that what [deflate] makes of it fits into the block ([compressed_fits]):
    [block_writer_finish] does not check that, and writes behind the block when log
    entries that fit as they are do not fit compressed ([log_block_overflows]). *)
Theorem block_roundtrip bw typ block off recs ks w br it more tbs old :
  writer_valid bw -> 0 <= off -> off + 4 <= zlen block < 2 ^ 24 -> memory_enough -> Forall2 (good hash_size) recs ks -> recs <> [] -> Forall (fun r => reftable_record_type r = typ) recs ->
  (w ← block_writer_init bw typ block (zlen block) off hash_size; add_all w recs) = Ret w -> (typ = BLOCK_TYPE_LOG -> compressed_fits w) -> reader_valid br -> iter_valid it -> zlen more < 2 ^ 30 ->
  reftable_record_init typ = Ret old ->
  exists w' len, block_writer_finish w = Ret (w', len) /\ len <= zlen block /\
    let data := take (Z.to_nat len) (bw_block w') ++ more in
    exists br' it' recs', block_reader_init br (Block data (zlen data)) off tbs hash_size = Ret br' /\ block_iter_seek_start it br' = Ret it' /\
      read_all (S (length recs)) it' old = Ret recs' /\ Forall2 same_record recs recs'.
Proof.
  intros Hbw Hoff Hsize Hmem Hgood Hne Htype Hrun Hfits Hbr [[s0 Hlast] [s1 Hscr]] Hmore Hold.
  destruct (block_written bw typ block off recs ks w br more tbs) as (w' & len & Hfin & Hlen & br' & es & js & Hbr' & Hrok & Hes & Hlk & Hjs & Hall & Hne' & Hrec & Hkey); [done..|].
  exists w', len. split; [done|]. split; [done|]. intros data. destruct (reset_spec _ _ Hlast) as (k & Hk & Hrk). pose proof Hrok as (_ & Hho & Hhs & _).
  eexists br', _. rewrite <-Hrec. destruct es as [|e es]; [done|]. pose proof (proj1 (proj1 (Forall_cons_iff _ _ _) Hall)) as Hty. destruct (record_init_kind typ (e_rec e) Hty) as (old' & Hold' & Hkind). rewrite Hold in Hold'. injection Hold' as <-.
  destruct (block_read_all_spec hash_size Hhash br' off typ (e :: es) js Hoff Hrok Hes Hlk Hall Hmem (length (e :: es)) 0 (BlockIter (off + 4) (bk_data (br_block br')) (br_block_len br') hash_size k (it_scratch it)) [] old (S (length (e :: es))))
    as (recs' & Hread & Hsame); [done|lia| |intros f Hf; apply Hkind; by apply (proj1 (Forall_lookup _ _) Hall 0%nat)|].
  { split; cbn [it_block it_block_len it_hash_size it_next_off it_last_key it_scratch]; [done| |done|by exists s1|].
    - unfold offset_of. rewrite take_0. cbn [body]. rewrite zlen_nil. lia.
    - intros f [= <-]. destruct Hlk as [[Hp|Hp] _]; apply stands_restart; unfold shared; by rewrite Hp. }
  exists recs'. split; [done|]. unfold block_iter_seek_start. rewrite Hk. run. rewrite Hho, Hhs. split; [done|]. rewrite length_fmap. by rewrite drop_0 in Hsame.
Qed.
(** The records whose keys are not less than [w]. *)
Definition from_key (w : list Z) (recs : list reftable_record) (ks : list (list Z)) : list reftable_record :=
  (filter (fun p => 0 <= bytes_cmp (snd p) w) (zip recs ks)).*1.

Lemma from_key_drop es w j : below es w j -> (forall i e, (j <= i)%nat -> es !! i = Some e -> 0 <= bytes_cmp (e_key e) w) -> from_key w (e_rec <$> es) (e_key <$> es) = e_rec <$> drop j es.
Proof.
  unfold from_key. revert j. induction es as [|e es IH]; intros j Hlow Hhigh; [by rewrite drop_nil|]. rewrite !fmap_cons. cbn [zip_with]. rewrite filter_cons. destruct j as [|j].
  - rewrite decide_True by (by apply (Hhigh 0%nat); [lia|]). rewrite fmap_cons. cbn [fst drop]. rewrite fmap_cons. f_equal. rewrite (IH 0%nat); [by rewrite drop_0|intros i f Hi; lia|].
    intros i f _ Hf. by apply (Hhigh (S i)); [lia|].
  - rewrite decide_False by (specialize (Hlow 0%nat e ltac:(lia) eq_refl); cbn [snd]; lia). cbn [drop]. apply IH.
    + intros i f Hi Hf. by apply (Hlow (S i)); [lia|].
    + intros i f Hi Hf. by apply (Hhigh (S i)); [lia|].
Qed.

(** [C35] A block finds its records: with strictly ascending keys, [block_iter_seek_key]
    places an iterator, whatever it was used for before, so that it returns exactly
    the records whose keys are not less than the wanted one, in order, and then ends.
    The binary search over the restart points and the search in the section behind one
    end, and stay inside the block.  As in [block_roundtrip], a block of log entries
    must fit when it is compressed. *)
Theorem block_seek_finds bw typ block off recs ks w br it more tbs old want k :
  writer_valid bw -> 0 <= off -> off + 4 <= zlen block < 2 ^ 24 -> memory_enough -> Forall2 (good hash_size) recs ks -> recs <> [] -> Forall (fun r => reftable_record_type r = typ) recs ->
  StronglySorted (fun a b => bytes_cmp a b < 0) ks ->
  (w ← block_writer_init bw typ block (zlen block) off hash_size; add_all w recs) = Ret w -> (typ = BLOCK_TYPE_LOG -> compressed_fits w) -> reader_valid br -> iter_valid it -> zlen more < 2 ^ 30 ->
  reftable_record_init typ = Ret old -> buf_rep want k ->
  exists w' len, block_writer_finish w = Ret (w', len) /\
    let data := take (Z.to_nat len) (bw_block w') ++ more in
    exists br' it' recs', block_reader_init br (Block data (zlen data)) off tbs hash_size = Ret br' /\ block_iter_seek_key it br' want = Ret it' /\
      read_all (S (length recs)) it' old = Ret recs' /\ Forall2 same_record (from_key k recs ks) recs'.
Proof.
  intros Hbw Hoff Hsize Hmem Hgood Hne Htype Hsorted Hrun Hfits Hbr [[s0 Hlast] [s1 Hscr]] Hmore Hold Hwant.
  destruct (block_written bw typ block off recs ks w br more tbs) as (w' & len & Hfin & Hlen & br' & es & js & Hbr' & Hrok & Hes & Hlk & Hjs & Hall & Hne' & <- & <-); [done..|].
  exists w', len. split; [done|]. intros data. assert (ascending es) as Hasc.
  { intros i j e f Hij He Hf. apply (sorted_lookup _ (e_key <$> es) i j _ _ Hsorted Hij); [by rewrite list_lookup_fmap, He|by rewrite list_lookup_fmap, Hf]. }
  destruct (block_iter_seek_key_spec hash_size Hhash br' off typ es js it want k s0 s1) as (it' & j & s' & Hseek & Hit' & Hlow & Hj & Hhigh); [done..|].
  destruct (record_init_kind typ (e_rec (hd (Entry [] [] (RecObj (ObjRecord [] []))) es))) as (old' & Hold' & Hkind); [by destruct es; [|apply Forall_cons_iff in Hall as [? _]]|]. rewrite Hold in Hold'. injection Hold' as <-.
  destruct (block_read_all_spec hash_size Hhash br' off typ es js Hoff Hrok Hes Hlk Hall Hmem (length es - j) j it' s' old (S (length es))) as (recs' & Hread & Hsame); [lia|lia|done|intros f Hf; apply Hkind; by apply (proj1 (Forall_lookup _ _) Hall j)|].
  exists br', it', recs'. split; [done|]. split; [done|]. rewrite length_fmap. split; [done|]. by rewrite (from_key_drop es k j).
Qed.
End blocks.

(** * Reference headers and witnesses *)

#[export] Instance block_ref : BlockHeader := {
  MAX_RESTARTS := 65535;
  deflateBound n := n + 1;
  deflate x := 120 :: x;
  inflate src n := match src with c :: x => if (c =? 120) && (n <=? zlen x) then Some (take (Z.to_nat n) x, zlen x - n) else None | [] => None end;
}.

Lemma block_ref_ok : @BlockHeaderOk block_ref.
Proof.
  split; cbn.
  - done.
  - intros x. rewrite zlen_cons. lia.
  - intros x rest. rewrite zlen_app. pose proof (zlen_nonneg rest). rewrite (proj2 (Z.leb_le _ _)) by lia. destruct (take_drop_zlen x rest) as [-> _]. do 2 f_equal. lia.
Qed.

Section witnesses.

(** Three references, with a common prefix, in a block of 64 bytes. *)
Definition ref_examples : list reftable_record :=
  [RecRef (RefRecord [97] 0 1 (RefVal1 [7; 8])); RecRef (RefRecord [97; 98] 0 2 RefDeletion); RecRef (RefRecord [97; 99] 0 3 (RefSymref [97]))].
Definition ref_keys : list (list Z) := [[97]; [97; 98]; [97; 99]].
Definition fresh_writer : block_writer := BlockWriter [] 0 0 0 0 0 [] 0 0 reftable_buf_init reftable_buf_init 0 [] 0.
Definition fresh_reader : block_reader := BlockReader 0 (Block [] 0) 0 [] 0 0 0 0 0.
Definition fresh_iter : block_iter := BlockIter 0 [] 0 0 reftable_buf_init reftable_buf_init.
Definition written : outcome block_writer := w ← block_writer_init fresh_writer 114 (replicate 64 9) 64 2 2; add_all w ref_examples.
Definition ref_writer : block_writer := match written with Ret w => w | _ => fresh_writer end.

Lemma ref_examples_good : Forall2 (good 2) ref_examples ref_keys.
Proof. repeat apply Forall2_cons_2; try apply Forall2_nil_2; (split; [evaluate|by split]). Qed.

(** A log entry that fits into a block of 23 bytes, and does not when [deflate] adds one. *)
Example log_block_overflows :
  (exists w, (w ← block_writer_init fresh_writer 103 (replicate 23 9) 23 2 2; add_all w [RecLog (LogRecord [97] 0 5 0 (LogUpdate [] [] None None 0 0 None 0))]) = Ret w) /\
  (w ← block_writer_init fresh_writer 103 (replicate 23 9) 23 2 2; w ← add_all w [RecLog (LogRecord [97] 0 5 0 (LogUpdate [] [] None None 0 0 None 0))]; block_writer_finish w) = Undef.
Proof. split; [eexists|]; by vm_compute. Qed.

Lemma block_roundtrip_witness :
  exists w' len br' it' recs', block_writer_finish ref_writer = Ret (w', len) /\
    block_reader_init fresh_reader (Block (take (Z.to_nat len) (bw_block w') ++ [1; 2]) (zlen (take (Z.to_nat len) (bw_block w') ++ [1; 2]))) 2 0 2 = Ret br' /\
    block_iter_seek_start fresh_iter br' = Ret it' /\ read_all 4 it' (RecRef (RefRecord [] 0 0 RefDeletion)) = Ret recs' /\ Forall2 same_record ref_examples recs'.
Proof.
  destruct (@block_roundtrip reftable_ref reftable_ref_ok record_ref record_ref_ok block_ref block_ref_ok 2 ltac:(lia) fresh_writer 114 (replicate 64 9) 2 ref_examples ref_keys ref_writer fresh_reader fresh_iter [1; 2] 0
    (RecRef (RefRecord [] 0 0 RefDeletion))) as (w' & len & Hfin & _ & br' & it' & recs' & H1 & H2 & H3 & H4).
  - split; [done|]. split; [exists []; apply buf_rep_init|done].
  - lia.
  - split; by vm_compute.
  - done.
  - exact ref_examples_good.
  - done.
  - repeat constructor.
  - by vm_compute.
  - intros [=].
  - done.
  - split; exists []; apply buf_rep_init.
  - done.
  - done.
  - exists w', len, br', it', recs'. split; [exact Hfin|]. split; [exact H1|]. split; [exact H2|]. split; [exact H3|exact H4].
Defined.

Lemma block_seek_finds_witness :
  exists w' len br' it' recs', block_writer_finish ref_writer = Ret (w', len) /\
    block_reader_init fresh_reader (Block (take (Z.to_nat len) (bw_block w') ++ []) (zlen (take (Z.to_nat len) (bw_block w') ++ []))) 2 0 2 = Ret br' /\
    block_iter_seek_key fresh_iter br' (Buf 3 2 [97; 98; 0]) = Ret it' /\ read_all 4 it' (RecRef (RefRecord [] 0 0 RefDeletion)) = Ret recs' /\
    Forall2 same_record (from_key [97; 98] ref_examples ref_keys) recs'.
Proof.
  destruct (@block_seek_finds reftable_ref reftable_ref_ok record_ref record_ref_ok block_ref block_ref_ok 2 ltac:(lia) fresh_writer 114 (replicate 64 9) 2 ref_examples ref_keys ref_writer fresh_reader fresh_iter [] 0
    (RecRef (RefRecord [] 0 0 RefDeletion)) (Buf 3 2 [97; 98; 0]) [97; 98]) as (w' & len & Hfin & br' & it' & recs' & H1 & H2 & H3 & H4).
  - split; [done|]. split; [exists []; apply buf_rep_init|done].
  - lia.
  - split; by vm_compute.
  - done.
  - exact ref_examples_good.
  - done.
  - repeat constructor.
  - repeat constructor.
  - by vm_compute.
  - intros [=].
  - done.
  - split; exists []; apply buf_rep_init.
  - done.
  - done.
  - split; [done|]. split; [done|]. split; [done|]. right. by exists [].
  - exists w', len, br', it', recs'. split; [exact Hfin|]. split; [exact H1|]. split; [exact H2|]. split; [exact H3|exact H4].
Defined.
End witnesses.
