(* ===== verification/ReftablePq.v ===== *)
(** reftable_pq.c: the priority queue of a merged iterator.  Its entries point to the
    records that the iterator keeps, and are ordered by the keys of these records;
    of equal keys the one of the newest table, which has the highest index, is first. *)
From S2P Require Import Prelude Heaps ReftableBasics ReftableRecord.

(** * Model *)

(** [struct pq_entry]; [rec] points into the records of the iterator. *)
Record pq_entry := PqEntry { pe_index : Z; pe_rec : Z }.

(** [struct merged_iter_pqueue]; [heap] has [cap] entries. *)
Record merged_iter_pqueue := Pqueue { pq_heap : list pq_entry; pq_len : Z }.

(** pq.h *)
Class PqHeader := {
  merged_iter_pqueue_is_empty : merged_iter_pqueue -> bool;
  merged_iter_pqueue_top : merged_iter_pqueue -> outcome pq_entry;
}.

Class PqHeaderOk `{PqHeader} : Prop := {
  pqueue_is_empty_spec pq : 0 <= pq_len pq -> merged_iter_pqueue_is_empty pq = (pq_len pq =? 0);
  pqueue_top_spec pq : 0 < pq_len pq -> merged_iter_pqueue_top pq = rd (pq_heap pq) 0;
}.

Section model.
Context `{ReftableHeader} `{RecordHeader}.
Context (junk : pq_entry).
Implicit Types (recs : list reftable_record).

Definition pq_less recs (a b : pq_entry) : outcome bool :=
  x ← rd recs (pe_rec a);
  y ← rd recs (pe_rec b);
  cmp ← reftable_record_cmp x y;
  Ret (if cmp =? 0 then pe_index a >? pe_index b else cmp <? 0).

(** [pq_less(&heap[i], &heap[j])] and [SWAP(heap[i], heap[j])]. *)
Definition less_at recs (pq : merged_iter_pqueue) (i j : Z) : outcome bool :=
  a ← rd (pq_heap pq) i; b ← rd (pq_heap pq) j; pq_less recs a b.

Definition swap_at (pq : merged_iter_pqueue) (i j : Z) : outcome merged_iter_pqueue :=
  a ← rd (pq_heap pq) i;
  b ← rd (pq_heap pq) j;
  heap ← wr (pq_heap pq) i b;
  heap ← wr heap j a;
  Ret (Pqueue heap (pq_len pq)).

(** One round of [while (i < pq->len)]. *)
Definition remove_step recs (st : merged_iter_pqueue * Z) : outcome ((merged_iter_pqueue * Z) + merged_iter_pqueue) :=
  let '(pq, i) := st in
  if negb (i <? pq_len pq) then Ret (inr pq) else
  let min := i in
  let j := 2 * i + 1 in
  let k := 2 * i + 2 in
  min ← (if j <? pq_len pq then b ← less_at recs pq j i; Ret (if (b : bool) then j else min) else Ret min);
  min ← (if k <? pq_len pq then b ← less_at recs pq k min; Ret (if (b : bool) then k else min) else Ret min);
  if min =? i then Ret (inr pq) else
  pq ← swap_at pq i min;
  Ret (inl (pq, min)).

Definition merged_iter_pqueue_remove recs (pq : merged_iter_pqueue) : outcome (pq_entry * merged_iter_pqueue) :=
  e ← rd (pq_heap pq) 0;
  last ← rd (pq_heap pq) (u64 (pq_len pq - 1));
  heap ← wr (pq_heap pq) 0 last;
  let len := u64 (pq_len pq - 1) in
  pq ← loop (S (Z.to_nat len)) (remove_step recs) (Pqueue heap len, 0);
  Ret (e, pq).

(** One round of [while (i > 0)]. *)
Definition add_step recs (st : merged_iter_pqueue * Z) : outcome ((merged_iter_pqueue * Z) + merged_iter_pqueue) :=
  let '(pq, i) := st in
  if negb (i >? 0) then Ret (inr pq) else
  let j := (i - 1) / 2 in
  b ← less_at recs pq j i;
  if (b : bool) then Ret (inr pq) else
  pq ← swap_at pq j i;
  Ret (inl (pq, j)).

(** The capacity is counted in entries of 16 bytes. *)
Definition merged_iter_pqueue_add recs (pq : merged_iter_pqueue) (e : pq_entry) : outcome merged_iter_pqueue :=
  let nr := u64 (pq_len pq + 1) in
  heap ←
    (if nr >? zlen (pq_heap pq) then
       let cap := grow_to nr (zlen (pq_heap pq)) in
       if can_alloc (16 * cap) then Ret (realloc junk (pq_heap pq) cap) else Err NoMem
     else Ret (pq_heap pq));
  heap ← wr heap (pq_len pq) e;
  let pq := Pqueue heap nr in
  loop (S (Z.to_nat nr)) (add_step recs) (pq, u64 (pq_len pq - 1)).

Definition merged_iter_pqueue_release (pq : merged_iter_pqueue) : merged_iter_pqueue := Pqueue [] 0.
End model.

(** * The queue *)

Section queue.
Context `{ReftableHeaderOk} `{RecordHeader}.
Context (junk : pq_entry) (recs : list reftable_record) (key : pq_entry -> list Z).
Implicit Types (pq : merged_iter_pqueue) (l : list pq_entry) (x y z : pq_entry).

Definition less x y : bool :=
  let c := bytes_cmp (key x) (key y) in if c =? 0 then pe_index x >? pe_index y else c <? 0.

Definition ple x y : Prop := bytes_cmp (key x) (key y) < 0 \/ key x = key y /\ pe_index y <= pe_index x.

(** The records of the entries compare as their keys. *)
Definition orders l : Prop := forall x y, x ∈ l -> y ∈ l -> pq_less recs x y = Ret (less x y).

Definition pq_rep pq l : Prop := filled (pq_heap pq) (pq_len pq) l /\ pq_len pq < 2 ^ 32.

Lemma ple_total x y : ple x y \/ ple y x.
Proof.
  unfold ple. pose proof (cmp_flip (key x) (key y)). pose proof (cmp_flip (key y) (key x)).
  destruct (Z.lt_trichotomy (bytes_cmp (key x) (key y)) 0) as [?|[Heq|?]]; [auto| |right; left; lia].
  apply bytes_cmp_eq in Heq. rewrite Heq. destruct (Z.le_gt_cases (pe_index y) (pe_index x)); [left|right]; right; (split; [done|lia]).
Qed.

Lemma ple_trans x y z : ple x y -> ple y z -> ple x z.
Proof.
  intros [Hxy|[Hxy ?]] [Hyz|[Hyz ?]].
  - left. eapply bytes_cmp_lt_trans; [exact Hxy|lia].
  - left. by rewrite <-Hyz.
  - left. by rewrite Hxy.
  - right. split; [congruence|lia].
Qed.

Lemma less_ple x y : if less x y then ple x y else ple y x.
Proof.
  unfold less, ple. pose proof (cmp_flip (key x) (key y)). pose proof (cmp_flip (key y) (key x)).
  destruct (Z.eqb_spec (bytes_cmp (key x) (key y)) 0) as [Heq|Hne].
  - apply bytes_cmp_eq in Heq. rewrite Heq, Z.gtb_ltb. destruct (Z.ltb_spec (pe_index y) (pe_index x)); right; (split; [done|lia]).
  - destruct (Z.ltb_spec (bytes_cmp (key x) (key y)) 0); left; lia.
Qed.

Lemma pqueue_rep_rd pq l i x : pq_rep pq l -> l !! i = Some x -> rd (pq_heap pq) (Z.of_nat i) = Ret x.
Proof. intros [[_ [r ->]] _] Hx. apply rd_lookup. rewrite lookup_app_l; [done|]. by apply lookup_lt_Some in Hx. Qed.

Lemma less_at_spec pq l i j x y : pq_rep pq l -> orders l -> l !! i = Some x -> l !! j = Some y -> less_at recs pq (Z.of_nat i) (Z.of_nat j) = Ret (less x y).
Proof.
  intros Hq Ho Hx Hy. unfold less_at. rewrite (pqueue_rep_rd _ _ _ _ Hq Hx), (pqueue_rep_rd _ _ _ _ Hq Hy). run.
  apply Ho; by eapply list_elem_of_lookup_2.
Qed.

Lemma filled_replace {A} (out : list A) pos k i (x y : A) : filled out pos k -> k !! i = Some x ->
  wr out (Z.of_nat i) y = Ret (<[i := y]> out) /\ filled (<[i := y]> out) pos (<[i := y]> k).
Proof.
  intros [Hl [r ->]] Hx. apply lookup_lt_Some in Hx as Hlt. split.
  - rewrite wr_in by (rewrite zlen_app; pose proof (zlen_nonneg r); unfold zlen in *; lia). by rewrite Nat2Z.id.
  - split; [by rewrite zlen_insert|]. exists r. by rewrite insert_app_l.
Qed.

Lemma swap_at_spec pq l i j x y : pq_rep pq l -> l !! i = Some x -> l !! j = Some y ->
  exists pq', swap_at pq (Z.of_nat i) (Z.of_nat j) = Ret pq' /\ pq_rep pq' (swap_list l i j) /\ pq_len pq' = pq_len pq.
Proof.
  intros Hq Hx Hy. unfold swap_at. rewrite (pqueue_rep_rd _ _ _ _ Hq Hx), (pqueue_rep_rd _ _ _ _ Hq Hy). run. destruct Hq as [Hf Hb].
  destruct (filled_replace _ _ _ i x y Hf Hx) as [-> Hf1]. run.
  destruct (lookup_lt_is_Some_2 (<[i := y]> l) j) as [z Hz]; [rewrite length_insert; by apply lookup_lt_Some in Hy|].
  destruct (filled_replace _ _ _ j z x Hf1 Hz) as [-> Hf2]. run. eexists. split; [done|]. split; [|done].
  unfold swap_list. rewrite Hx, Hy. by split.
Qed.

Lemma orders_perm l l' : l' ≡ₚ l -> orders l -> orders l'.
Proof. intros Hp Ho x y Hx Hy. rewrite Hp in Hx, Hy. by apply Ho. Qed.

(** The child that goes up is before its siblings and its parent. *)
Lemma pick_spec pq l ix x : pq_rep pq l -> orders l -> l !! ix = Some x ->
  exists m z, l !! m = Some z /\ (m = ix \/ (0 < m)%nat /\ parent_of m = ix) /\
    (min ← (if 2 * Z.of_nat ix + 1 <? pq_len pq then b ← less_at recs pq (2 * Z.of_nat ix + 1) (Z.of_nat ix); Ret (if (b : bool) then 2 * Z.of_nat ix + 1 else Z.of_nat ix) else Ret (Z.of_nat ix));
     if 2 * Z.of_nat ix + 2 <? pq_len pq then b ← less_at recs pq (2 * Z.of_nat ix + 2) min; Ret (if (b : bool) then 2 * Z.of_nat ix + 2 else min) else Ret min) = Ret (Z.of_nat m) /\
    ple z x /\ forall i w, (0 < i)%nat -> parent_of i = ix -> l !! i = Some w -> ple z w.
Proof.
  intros Hq Ho Hx. pose proof Hq as [[Hlen _] _]. assert (forall w, ple w w) as Hrefl by (intros w; by destruct (ple_total w w)).
  replace (2 * Z.of_nat ix + 1) with (Z.of_nat (2 * ix + 1)) by lia. replace (2 * Z.of_nat ix + 2) with (Z.of_nat (2 * ix + 2)) by lia.
  assert (exists m z, l !! m = Some z /\ (m = ix \/ m = (2 * ix + 1)%nat) /\
    (if Z.of_nat (2 * ix + 1) <? pq_len pq then b ← less_at recs pq (Z.of_nat (2 * ix + 1)) (Z.of_nat ix); Ret (if (b : bool) then Z.of_nat (2 * ix + 1) else Z.of_nat ix) else Ret (Z.of_nat ix)) = Ret (Z.of_nat m) /\
    ple z x /\ forall w, l !! (2 * ix + 1)%nat = Some w -> ple z w) as (m & z & Hz & Hm & -> & Hzx & Hkid).
  { destruct (Z.ltb_spec (Z.of_nat (2 * ix + 1)) (pq_len pq)).
    - destruct (lookup_lt_is_Some_2 l (2 * ix + 1)) as [y Hy]; [unfold zlen in *; lia|]. rewrite (less_at_spec pq l _ _ y x) by done. run.
      pose proof (less_ple y x). destruct (less y x); [exists (2 * ix + 1)%nat, y|exists ix, x]; repeat (split; [by auto|]); intros w Hw; by simplify_eq.
    - exists ix, x. repeat (split; [by auto|]). intros w Hw. apply lookup_lt_Some in Hw. unfold zlen in *; lia. }
  run. destruct (Z.ltb_spec (Z.of_nat (2 * ix + 2)) (pq_len pq)).
  - destruct (lookup_lt_is_Some_2 l (2 * ix + 2)) as [y Hy]; [unfold zlen in *; lia|]. rewrite (less_at_spec pq l _ _ y z) by done. run. pose proof (less_ple y z) as Hp. destruct (less y z).
    + exists (2 * ix + 2)%nat, y. split; [done|]. split; [right; split; [lia|apply parent_cases; lia]|]. split; [done|]. split; [by apply (ple_trans _ z)|].
      intros i w Hi [->| ->]%parent_cases Hw; [apply (ple_trans _ z); auto| |done]. by simplify_eq.
    + exists m, z. split; [done|]. split; [destruct Hm as [->| ->]; [by left|right; split; [lia|apply parent_cases; lia]]|]. split; [done|]. split; [done|].
      intros i w Hi [->| ->]%parent_cases Hw; [auto| |done]. by simplify_eq.
  - exists m, z. split; [done|]. split; [destruct Hm as [->| ->]; [by left|right; split; [lia|apply parent_cases; lia]]|]. split; [done|]. split; [done|].
    intros i w Hi [->| ->]%parent_cases Hw; [auto| |done]. apply lookup_lt_Some in Hw. unfold zlen in *; lia.
Qed.

Lemma remove_loop pq l : pq_rep pq l -> orders l -> down_heap ple l 0 ->
  exists pq' l', loop (S (length l)) (remove_step recs) (pq, 0) = Ret pq' /\ pq_rep pq' l' /\ heap ple l' /\ l' ≡ₚ l.
Proof.
  intros Hq Ho Hh.
  destruct (loop_ret (fun '(q, i) => exists ix l', i = Z.of_nat ix /\ pq_rep q l' /\ down_heap ple l' ix /\ l' ≡ₚ l)
    (fun '(q, i) => Z.max 0 (zlen l - i)) (S (length l)) (remove_step recs) (pq, 0) (fun q => exists l', pq_rep q l' /\ heap ple l' /\ l' ≡ₚ l))
    as (q' & -> & l' & ?); [|by exists 0%nat, l|unfold zlen; lia|by eauto].
  intros [q i] (ix & l' & -> & Hq' & Hh' & Hp). assert (length l' = length l) as Hlen by (by rewrite Hp). unfold remove_step.
  pose proof Hq' as [[Hl' _] _]. destruct (Z.ltb_spec (Z.of_nat ix) (pq_len q)) as [Hlt|Hge]; cbn [negb].
  2:{ eexists. split; [done|]. cbv iota. exists l'. split; [done|]. split; [|done]. apply (heap_down ple l' ix); [done|]. intros j z x Hj Hpj Hz _. pose proof (parent_lt j Hj). apply lookup_lt_Some in Hz. unfold zlen in *. lia. }
  destruct (lookup_lt_is_Some_2 l' ix) as [x Hx]; [unfold zlen in *; lia|].
  destruct (pick_spec q l' ix x Hq' (orders_perm _ _ Hp Ho) Hx) as (m & z & Hz & Hm & Hpick & Hzx & Hleast).
  set (first := if _ <? pq_len q then _ else _) in *. destruct first as [m1| |] eqn:E1; run; run_in Hpick; [|done|done]. subst first. rewrite Hpick. run.
  destruct (Z.eqb_spec (Z.of_nat m) (Z.of_nat ix)) as [He|He].
  - eexists. split; [done|]. cbv iota. exists l'. split; [done|]. split; [|done]. assert (m = ix) as -> by lia. simplify_eq.
    apply (heap_down ple l' ix); [done|]. intros i w x' Hi Hpi Hw Hx'. simplify_eq. by apply (Hleast i).
  - destruct Hm as [->|[Hm0 Hpm]]; [done|]. pose proof (parent_lt m Hm0) as Hmx. rewrite Hpm in Hmx.
    destruct (swap_at_spec q l' ix m x z Hq' Hx Hz) as (q2 & -> & Hq2 & Hl2). run. eexists. split; [done|]. cbv beta iota. split.
    2:{ apply lookup_lt_Some in Hz. unfold zlen in *. lia. }
    exists m, (swap_list l' m ix). split; [done|]. assert (swap_list l' ix m = swap_list l' m ix) as Hsw.
    { unfold swap_list. rewrite Hx, Hz. apply list_insert_insert_ne. lia. }
    rewrite Hsw in Hq2. split; [exact Hq2|]. split; [by apply (down_heap_swap ple l' ix m x z)|]. by rewrite (swap_list_Permutation _ _ _ _ _ Hz Hx).
Qed.

(** [remove] takes a first entry out. *)
Lemma pqueue_remove_spec pq x l : pq_rep pq (x :: l) -> heap ple (x :: l) -> orders (x :: l) ->
  exists pq' l', merged_iter_pqueue_remove recs pq = Ret (x, pq') /\ pq_rep pq' l' /\ heap ple l' /\ l' ≡ₚ l.
Proof.
  intros Hq Hh Ho. unfold merged_iter_pqueue_remove. pose proof Hq as [[Hlen _] Hb]. rewrite zlen_cons in Hlen. pose proof (zlen_nonneg l).
  pose proof (pqueue_rep_rd pq _ 0 x Hq eq_refl) as Hr0. change (Z.of_nat 0) with 0 in Hr0. rewrite Hr0. run. rewrite u64_small by lia.
  replace (pq_len pq - 1) with (zlen l) by lia.
  destruct l as [|y l _] using rev_ind.
  - change (zlen []) with 0. rewrite Hr0. run. destruct Hq as [Hf _]. destruct (filled_replace _ _ _ 0 x x Hf eq_refl) as [Hwr Hf']. change (Z.of_nat 0) with 0 in Hwr. rewrite Hwr. run.
    exists (Pqueue (<[0%nat := x]> (pq_heap pq)) 0), []. split; [done|]. split; [split; [by apply (filled_prefix _ _ [] [x]) in Hf'|done]|]. split; [|done]. intros i ? ? _ Hi. by rewrite lookup_nil in Hi.
  - assert ((x :: l ++ [y]) !! S (length l) = Some y) as Hy by (cbn [lookup list_lookup]; by apply list_lookup_middle).
    pose proof (pqueue_rep_rd pq _ _ y Hq Hy) as Hr. replace (Z.of_nat (S (length l))) with (zlen (l ++ [y])) in Hr by (rewrite zlen_app, zlen_cons, zlen_nil; unfold zlen; lia). rewrite Hr. run.
    destruct Hq as [Hf _]. destruct (filled_replace _ _ _ 0 x y Hf eq_refl) as [Hwr Hf']. change (Z.of_nat 0) with 0 in Hwr. rewrite Hwr. run.
    cbn [insert list_insert] in Hf'. change (y :: l ++ [y]) with ((y :: l) ++ [y]) in Hf'. apply filled_prefix in Hf'. replace (zlen (y :: l)) with (zlen (l ++ [y])) in Hf' by (rewrite zlen_app, !zlen_cons, zlen_nil; lia).
    assert ((y :: l) ≡ₚ l ++ [y]) as Hperm by (by rewrite (Permutation_app_comm l [y])).
    destruct (remove_loop (Pqueue (<[0%nat := y]> (pq_heap pq)) (zlen (l ++ [y]))) (y :: l)) as (pq' & l' & Hloop & Hq' & Hh' & Hp).
    + split; [exact Hf'|cbn [pq_len]; lia].
    + intros a b Ha Hb'. apply Ho; (rewrite <-Hperm; by apply elem_of_cons; right).
    + by apply (heap_replace_root ple _ x).
    + replace (Z.to_nat (zlen (l ++ [y]))) with (length (y :: l)) by (unfold zlen; rewrite length_app; cbn [length]; lia). rewrite Hloop. run.
      exists pq', l'. split; [done|]. split; [done|]. split; [done|]. by rewrite Hp.
Qed.

Lemma add_loop pq l : pq_rep pq l -> orders l -> up_heap ple l (length l - 1) -> l <> [] ->
  exists pq' l', loop (S (length l)) (add_step recs) (pq, Z.of_nat (length l - 1)) = Ret pq' /\ pq_rep pq' l' /\ heap ple l' /\ l' ≡ₚ l.
Proof.
  intros Hq Ho Hh Hne. assert (0 < length l)%nat by (by destruct l; [|cbn [length]; lia]).
  destruct (loop_ret (fun '(q, i) => exists ix l', i = Z.of_nat ix /\ (ix < length l)%nat /\ pq_rep q l' /\ up_heap ple l' ix /\ l' ≡ₚ l)
    (fun '(q, i) => i) (S (length l)) (add_step recs) (pq, Z.of_nat (length l - 1)) (fun q => exists l', pq_rep q l' /\ heap ple l' /\ l' ≡ₚ l))
    as (q' & -> & l' & ?); [|exists (length l - 1)%nat, l; split; [done|]; split; [lia|done]|lia|by eauto].
  intros [q i] (ix & l' & -> & Hlt & Hq' & Hh' & Hp). assert (length l' = length l) as Hlen by (by rewrite Hp). unfold add_step. rewrite Z.gtb_ltb.
  destruct (lookup_lt_is_Some_2 l' ix) as [x Hx]; [lia|].
  destruct (Z.ltb_spec 0 (Z.of_nat ix)) as [Hpos|Hz]; cbn [negb].
  2:{ eexists. split; [done|]. cbv iota. exists l'. split; [done|]. split; [|done]. apply (heap_up ple l' ix x x); [done|left; lia]. }
  assert (0 < ix)%nat as Hpos' by lia. pose proof (parent_lt ix Hpos'). replace ((Z.of_nat ix - 1) / 2) with (Z.of_nat (parent_of ix)) by (unfold parent_of; rewrite Nat2Z.inj_div; f_equal; lia).
  destruct (lookup_lt_is_Some_2 l' (parent_of ix)) as [p Hpar]; [lia|].
  rewrite (less_at_spec q l' _ _ p x Hq' (orders_perm _ _ Hp Ho) Hpar Hx). run. pose proof (less_ple p x) as Hless. destruct (less p x).
  - eexists. split; [done|]. cbv iota. exists l'. split; [done|]. split; [|done]. apply (heap_up ple l' ix x p); [done|by right].
  - destruct (swap_at_spec q l' _ _ p x Hq' Hpar Hx) as (q2 & -> & Hq2 & Hl2). run. eexists. split; [done|]. cbv beta iota. split; [|lia].
    eexists _, _. split; [done|]. split; [lia|]. split; [exact Hq2|]. split; [by apply (up_heap_swap ple ple_trans l' ix x p)|]. by rewrite (swap_list_Permutation _ _ _ _ _ Hpar Hx).
Qed.

(** [add] puts an entry in. *)
Lemma pqueue_add_spec pq l e : pq_rep pq l -> heap ple l -> orders (e :: l) -> zlen l + 1 < 2 ^ 32 -> memory_enough ->
  exists pq' l', merged_iter_pqueue_add junk recs pq e = Ret pq' /\ pq_rep pq' l' /\ heap ple l' /\ l' ≡ₚ e :: l.
Proof.
  intros [Hf Hb] Hh Ho Hlen Hmem. unfold merged_iter_pqueue_add. pose proof Hf as [Hl _]. pose proof (zlen_nonneg l). rewrite (u64_small (pq_len pq + 1)) by lia. pose proof (filled_le _ _ _ Hf).
  assert (exists heap, (if pq_len pq + 1 >? zlen (pq_heap pq) then if can_alloc (16 * grow_to (pq_len pq + 1) (zlen (pq_heap pq))) then Ret (realloc junk (pq_heap pq) (grow_to (pq_len pq + 1) (zlen (pq_heap pq)))) else Err NoMem
      else Ret (pq_heap pq)) = Ret heap /\ filled heap (pq_len pq) l /\ pq_len pq < zlen heap) as (hp & Hhp & Hfh & Hroom).
  { rewrite Z.gtb_ltb. case_if; [|eexists; split; [done|]; split; [done|lia]]. rewrite Hmem. pose proof (grow_to_enough (pq_len pq + 1) (zlen (pq_heap pq))).
    eexists. split; [done|]. split; [apply filled_realloc; [done|lia]|rewrite zlen_realloc; lia]. }
  rewrite Hhp. run. destruct (filled_wr _ _ _ e Hfh Hroom) as [-> Hf2]. run. cbn [pq_len]. rewrite u64_small by lia.
  assert (length (l ++ [e]) = length l + 1)%nat as Hlen' by (by rewrite length_app).
  assert (l ++ [e] ≡ₚ e :: l) as Hperm by (by rewrite Permutation_app_comm).
  destruct (add_loop (Pqueue (<[Z.to_nat (pq_len pq) := e]> hp) (pq_len pq + 1)) (l ++ [e])) as (pq' & l' & Hloop & Hq' & Hh' & Hp).
  - split; [exact Hf2|]. cbn [pq_len]. lia.
  - by apply (orders_perm _ _ Hperm).
  - rewrite Hlen'. replace (length l + 1 - 1)%nat with (length l) by lia. by apply heap_snoc.
  - by destruct l.
  - rewrite Hlen' in Hloop. replace (Z.to_nat (pq_len pq + 1)) with (length l + 1)%nat by (unfold zlen in *; lia). replace (pq_len pq + 1 - 1) with (Z.of_nat (length l + 1 - 1)) by (unfold zlen in *; lia).
    exists pq', l'. split; [done|]. split; [done|]. split; [done|]. by rewrite Hp.
Qed.
End queue.

(** * Reference header *)

#[export] Instance pq_ref : PqHeader := { merged_iter_pqueue_is_empty pq := pq_len pq =? 0; merged_iter_pqueue_top pq := rd (pq_heap pq) 0 }.

Lemma pq_ref_ok : @PqHeaderOk pq_ref.
Proof. by split. Qed.
