(* ===== verification/ReftableIter.v ===== *)
(** reftable_iter.c: iterators over the records of a table.  An iterator is known by
    its functions to seek and to read the next record; [IteratorOk] is what they promise,
    and the iterators built from others are proved against it. *)
From stdpp Require Import sorting.
From S2P Require Import Prelude ReftableBasics ReftableRecord.

(** * Model *)

(** [struct reftable_iterator_vtable] of the iterators of one type; the result is 0 for
    success, positive at the end, and [Err] when it is negative. *)
Class IteratorVtable (It : Type) := {
  vt_seek : It -> reftable_record -> outcome (It * Z);
  vt_next : It -> reftable_record -> outcome (It * reftable_record * Z);
}.

Section model.
Context `{RecordHeader} {It : Type} `{!IteratorVtable It}.

Definition iterator_seek (it : It) (want : reftable_record) : outcome (It * Z) := vt_seek it want.

Definition iterator_next (it : It) (rec : reftable_record) : outcome (It * reftable_record * Z) := vt_next it rec.

Definition reftable_iterator_seek_ref (it : It) (name : list Z) : outcome (It * Z) :=
  let want := RecRef (RefRecord name 0 0 RefDeletion) in
  vt_seek it want.

(** Reading the union of a record of another kind is not defined. *)
Definition reftable_iterator_next_ref (it : It) (ref : ref_record) : outcome (It * ref_record * Z) :=
  let rec := RecRef ref in
  '(it, rec, err) ← iterator_next it rec;
  match rec with RecRef ref => Ret (it, ref, err) | _ => Undef end.

Definition reftable_iterator_seek_log_at (it : It) (name : list Z) (update_index : Z) : outcome (It * Z) :=
  let want := RecLog (LogRecord name 0 update_index 0 (LogUpdate [] [] None None 0 0 None 0)) in
  vt_seek it want.

Definition reftable_iterator_seek_log (it : It) (name : list Z) : outcome (It * Z) :=
  reftable_iterator_seek_log_at it name (wnot 0).

Definition reftable_iterator_next_log (it : It) (log : log_record) : outcome (It * log_record * Z) :=
  let rec := RecLog log in
  '(it, rec, err) ← iterator_next it rec;
  match rec with RecLog log => Ret (it, log, err) | _ => Undef end.

(** ** The empty iterator *)

Definition empty_iterator_seek (arg : unit) (want : reftable_record) : outcome (unit * Z) := Ret (arg, 0).

Definition empty_iterator_next (arg : unit) (rec : reftable_record) : outcome (unit * reftable_record * Z) := Ret (arg, rec, 1).

(** ** References to an object *)

(** [struct filtering_ref_iterator] *)
Record filtering_ref_iterator := Filtering { fri_oid : reftable_buf; fri_it : It }.

Definition filtering_ref_iterator_seek (fri : filtering_ref_iterator) (want : reftable_record) : outcome (filtering_ref_iterator * Z) :=
  '(it, err) ← iterator_seek (fri_it fri) want;
  Ret (Filtering (fri_oid fri) it, err).

(** The strings are freed and the record is all zeros. *)
Definition reftable_ref_record_release (ref : ref_record) : ref_record := RefRecord [] 0 0 RefDeletion.

(** The tests of the two kinds of values. *)
Definition ref_matches (oid : reftable_buf) (ref : ref_record) : outcome bool :=
  match rr_value ref with
  | RefVal2 value target_value =>
      c ← memcmp (rb_buf oid) target_value (rb_len oid);
      if negb (tru c) then Ret true else
      c ← memcmp (rb_buf oid) value (rb_len oid);
      Ret (negb (tru c))
  | RefVal1 val1 =>
      c ← memcmp (rb_buf oid) val1 (rb_len oid);
      Ret (negb (tru c))
  | _ => Ret false
  end.

(** One round of [while (1)]; it ends with [err] and the record. *)
Definition filtering_step (st : filtering_ref_iterator * ref_record) : outcome ((filtering_ref_iterator * ref_record) + (filtering_ref_iterator * ref_record * Z)) :=
  let '(fri, ref) := st in
  '(it, ref, err) ← reftable_iterator_next_ref (fri_it fri) ref;
  let fri := Filtering (fri_oid fri) it in
  if tru err then Ret (inr (fri, reftable_ref_record_release ref, err)) else
  found ← ref_matches (fri_oid fri) ref;
  if (found : bool) then Ret (inr (fri, ref, 0)) else Ret (inl (fri, ref)).

(** At most [fuel] records are read. *)
Definition filtering_ref_iterator_next (fuel : nat) (fri : filtering_ref_iterator) (rec : reftable_record) : outcome (filtering_ref_iterator * reftable_record * Z) :=
  match rec with
  | RecRef ref =>
      '(fri, ref, err) ← loop fuel filtering_step (fri, ref);
      Ret (fri, RecRef ref, err)
  | _ => Undef
  end.
End model.

Arguments filtering_ref_iterator : clear implicits.

#[export] Instance empty_vtable : IteratorVtable unit := { vt_seek := empty_iterator_seek; vt_next := empty_iterator_next }.

Definition filtering_ref_iterator_vtable `{RecordHeader} {It} `{!IteratorVtable It} (fuel : nat) : IteratorVtable (filtering_ref_iterator It) :=
  {| vt_seek := filtering_ref_iterator_seek; vt_next := filtering_ref_iterator_next fuel |}.

(** * Records and their keys *)

Section keys.
Context `{RecordHeader}.
Implicit Types (r e f : reftable_record) (l : list reftable_record).

Definition rec_key r : list Z :=
  match r with
  | RecRef r => rr_refname r
  | RecLog r => log_key r
  | RecObj r => or_hash_prefix r
  | RecIndex r => take (Z.to_nat (rb_len (ir_last_key r))) (rb_buf (ir_last_key r))
  end.

Lemma rec_key_keyed r k : record_keyed r k -> rec_key r = k.
Proof.
  destruct r as [r|r|r|r]; cbn [record_keyed rec_key]; try done. intros (-> & _ & Ha & [[Hz ->]|[rest ->]]).
  - by rewrite zlen_nil.
  - unfold zlen. by rewrite Nat2Z.id, take_app_length.
Qed.

(** Lookup by key, in strictly ascending lists. *)
Definition rec_lt e f : Prop := bytes_cmp (rec_key e) (rec_key f) < 0.

Fixpoint lookup_key (k : list Z) l : option reftable_record :=
  match l with
  | [] => None
  | e :: l => if bytes_cmp (rec_key e) k =? 0 then Some e else lookup_key k l
  end.

(** The records whose keys are not less than [k]. *)
Definition since (k : list Z) l : list reftable_record := filter (fun r => 0 <= bytes_cmp (rec_key r) k) l.

#[export] Instance rec_lt_trans : Transitive rec_lt.
Proof. intros x y z Hxy Hyz. unfold rec_lt in *. eapply bytes_cmp_lt_trans; [exact Hxy|lia]. Qed.

Lemma lookup_key_Some k l r : lookup_key k l = Some r -> r ∈ l /\ rec_key r = k.
Proof.
  induction l as [|e l IH]; [done|]. cbn [lookup_key]. destruct (Z.eqb_spec (bytes_cmp (rec_key e) k) 0) as [Hk|].
  - intros [= ->]. apply bytes_cmp_eq in Hk. split; [by left|done].
  - intros Hr. destruct (IH Hr) as [Hin ?]. split; [by right|done].
Qed.

Lemma lookup_key_None k l : lookup_key k l = None <-> forall r, r ∈ l -> rec_key r <> k.
Proof.
  induction l as [|e l IH]; cbn [lookup_key]; [by split; [intros _ r Hr; inversion Hr|]|]. destruct (Z.eqb_spec (bytes_cmp (rec_key e) k) 0) as [Hk|Hk].
  - apply bytes_cmp_eq in Hk. split; [done|]. intros Hne. by destruct (Hne e (list_elem_of_here _ _)).
  - rewrite IH. split; [|intros Hne r Hr; apply Hne; by right]. intros Hne r [->|Hr]%elem_of_cons; [|by apply Hne]. by rewrite <-bytes_cmp_eq.
Qed.

Lemma lookup_key_below k l : Forall (fun r => bytes_cmp k (rec_key r) < 0) l -> lookup_key k l = None.
Proof.
  intros Hl. apply lookup_key_None. intros r Hr <-. rewrite Forall_forall in Hl. specialize (Hl r Hr). rewrite (proj2 (bytes_cmp_eq _ _)) in Hl by done. lia.
Qed.

(** A list is known by its keys and what is found at them. *)
Lemma lookup_key_inj l l' : StronglySorted rec_lt l -> StronglySorted rec_lt l' -> (forall k, lookup_key k l = lookup_key k l') -> l = l'.
Proof.
  intros Hs. revert l'. induction Hs as [|e l Hs IH He]; intros l' Hs' Heq.
  - destruct l' as [|f l']; [done|]. specialize (Heq (rec_key f)). cbn [lookup_key] in Heq. by rewrite (proj2 (bytes_cmp_eq (rec_key f) _)), Z.eqb_refl in Heq.
  - destruct Hs' as [|f l' Hs' Hf].
    { specialize (Heq (rec_key e)). cbn [lookup_key] in Heq. by rewrite (proj2 (bytes_cmp_eq (rec_key e) _)), Z.eqb_refl in Heq. }
    assert (forall x y l, Forall (rec_lt y) l -> bytes_cmp x (rec_key y) <= 0 -> lookup_key x l = None) as Hnone.
    { intros x y m Hm Hx. apply lookup_key_below. eapply Forall_impl; [exact Hm|]. intros r Hr. unfold rec_lt in Hr.
      destruct (decide (bytes_cmp x (rec_key y) = 0)) as [->%bytes_cmp_eq|]; [done|]. eapply bytes_cmp_lt_trans; [|by apply Z.lt_le_incl]. lia. }
    assert (bytes_cmp (rec_key e) (rec_key f) = 0) as Hk.
    { pose proof (Heq (rec_key e)) as He1. pose proof (Heq (rec_key f)) as Hf1. cbn [lookup_key] in He1, Hf1.
      rewrite (proj2 (bytes_cmp_eq (rec_key e) (rec_key e))), Z.eqb_refl in He1 by done. rewrite (proj2 (bytes_cmp_eq (rec_key f) (rec_key f))), Z.eqb_refl in Hf1 by done.
      pose proof (cmp_flip (rec_key e) (rec_key f)). pose proof (cmp_flip (rec_key f) (rec_key e)).
      destruct (Z.lt_trichotomy (bytes_cmp (rec_key e) (rec_key f)) 0) as [Hc|[Hc|Hc]]; [|done|].
      - rewrite (proj2 (Z.eqb_neq (bytes_cmp (rec_key f) _) 0)), (Hnone _ f) in He1 by (done || lia). done.
      - rewrite (proj2 (Z.eqb_neq (bytes_cmp (rec_key e) _) 0)), (Hnone _ e) in Hf1 by (done || lia). done. }
    apply bytes_cmp_eq in Hk. pose proof (proj2 (bytes_cmp_eq (rec_key e) (rec_key e)) eq_refl) as Hself. pose proof (Heq (rec_key e)) as He1. cbn [lookup_key] in He1.
    rewrite <-Hk, Hself in He1. injection He1 as <-. f_equal. apply IH; [done|]. intros k. specialize (Heq k). cbn [lookup_key] in Heq.
    destruct (Z.eqb_spec (bytes_cmp (rec_key e) k) 0) as [Hek|]; [|done]. apply bytes_cmp_eq in Hek. subst k. rewrite (Hnone (rec_key e) e l), (Hnone (rec_key e) e l'); by (done || lia).
Qed.

Lemma since_sorted k l : StronglySorted rec_lt l -> StronglySorted rec_lt (since k l).
Proof.
  intros Hs. unfold since. induction Hs as [|e l Hs IH He]; [constructor|]. rewrite filter_cons. case_decide; [|done]. constructor; [done|].
  rewrite Forall_forall in *. intros r [_ Hr]%list_elem_of_filter. by apply He.
Qed.

Lemma since_lookup k k' l : lookup_key k' (since k l) = if 0 <=? bytes_cmp k' k then lookup_key k' l else None.
Proof.
  induction l as [|e l IH]; [by case_if|]. unfold since in *. rewrite filter_cons. cbn [lookup_key]. destruct (Z.eqb_spec (bytes_cmp (rec_key e) k') 0) as [Heq|Hne].
  - apply bytes_cmp_eq in Heq as <-. case_decide as Hk.
    + cbn [lookup_key]. rewrite (proj2 (bytes_cmp_eq (rec_key e) (rec_key e))) by done. by rewrite (proj2 (Z.leb_le _ _) Hk).
    + rewrite IH. by rewrite (proj2 (Z.leb_gt _ _)) by lia.
  - case_decide; [|done]. cbn [lookup_key]. by rewrite (proj2 (Z.eqb_neq _ _) Hne).
Qed.

Lemma since_filter k (P : reftable_record -> bool) l : since k (filter (fun r => P r) l) = filter (fun r => P r) (since k l).
Proof. unfold since. rewrite !list_filter_filter. apply list_filter_iff. tauto. Qed.

Lemma sublist_Forall (P : reftable_record -> Prop) l l' : Forall P l -> l' `sublist_of` l -> Forall P l'.
Proof. rewrite !Forall_forall. intros Hl Hs r Hr. by eapply Hl, elem_of_sublist. Qed.

(** ** Records that say the same *)

Lemma same_record_ok hash_size e r : record_ok hash_size e -> same_record e r -> record_ok hash_size r.
Proof.
  destruct e as [e|e|e|e], r as [r|r|r|r]; cbn [same_record record_ok]; try done.
  - unfold same_ref, ref_ok. by intros (? & ? & ?) (-> & -> & ->).
  - unfold same_log, log_ok. intros (? & ? & ? & Hv) (-> & -> & -> & Hu). repeat (split; [done|]). destruct Hv as [|[Hv Hok]]; [by left|right]. split; [done|].
    destruct (Hu Hv) as (Ho & Hn & Ht & Hz & Hs1 & Hs2 & Hs3). unfold update_ok, text_ok in *. by rewrite Ho, Hn, Ht, Hz, Hs1, Hs2, Hs3.
  - by intros ? <-.
  - by intros ? [<- _].
Qed.

Lemma same_record_key e r k : record_keyed e k -> same_record e r -> record_keyed r k.
Proof.
  destruct e as [e|e|e|e], r as [r|r|r|r]; cbn [same_record record_keyed]; try done.
  - by intros -> (-> & _).
  - unfold log_key. by intros -> (-> & -> & _).
  - by intros ? <-.
  - intros He (_ & s & Hs & Hr). by rewrite <-(rec_key_keyed (RecIndex e) k He), (rec_key_keyed (RecIndex e) s Hs).
Qed.

Lemma same_record_type e r : same_record e r -> reftable_record_type r = reftable_record_type e.
Proof. by destruct e, r. Qed.

Lemma same_record_deletion e r : same_record e r -> reftable_record_is_deletion r = reftable_record_is_deletion e.
Proof.
  destruct e as [e|e|e|e], r as [r|r|r|r]; cbn [same_record]; try done.
  - intros (_ & _ & Hv). cbn [reftable_record_is_deletion]. unfold reftable_ref_record_is_deletion, reftable_ref_record_val_type. by rewrite Hv.
  - intros (_ & _ & Hv & _). cbn [reftable_record_is_deletion]. unfold reftable_log_record_is_deletion. by rewrite Hv.
Qed.

Lemma same_record_comparable e f r s : comparable e f -> same_record e r -> same_record f s -> comparable r s.
Proof.
  destruct e as [e|e|e|e], f as [f|f|f|f]; try done; destruct r as [r|r|r|r]; try done; destruct s as [s|s|s|s]; try done; cbn [same_record comparable].
  - by intros (? & ? & ?) (-> & -> & _) (-> & -> & _).
  - by intros ? <- <-.
Qed.

(** A record that an iterator of the type can read into. *)
Definition accepts (typ : Z) r : Prop := reftable_record_type r = typ /\ match r with RecIndex r => exists s, buf_rep (ir_last_key r) s | _ => True end.

Lemma same_record_accepts e r : same_record e r -> accepts (reftable_record_type e) r.
Proof.
  intros Hs. split; [by apply same_record_type|]. destruct e, r; try done. destruct Hs as (_ & s & _ & Hr). by exists s.
Qed.

Lemma record_init_accepts `{!RecordHeaderOk} typ r : reftable_record_type r = typ -> exists rec, reftable_record_init typ = Ret rec /\ accepts typ rec.
Proof.
  intros <-. pose proof block_types as Hnd. rewrite !NoDup_cons, !not_elem_of_cons in Hnd. destruct Hnd as ((? & ? & ? & _) & (? & ? & _) & (? & _) & _). unfold reftable_record_init.
  destruct r; cbn [reftable_record_type]; rewrite ?Z.eqb_refl, ?(proj2 (Z.eqb_neq _ _)) by done; (eexists; split; [done|]); split; try done. exists []. apply buf_rep_init.
Qed.

(** A record of a table. *)
Definition listed (hash_size typ : Z) r : Prop := record_ok hash_size r /\ record_keyed r (rec_key r) /\ reftable_record_type r = typ.
End keys.

(** * The contract *)

(** [rep it all rest]: the iterator reads a table of the records [all], of which [rest]
    are still to come.  A seek places it at the first record not below the wanted key,
    from wherever it was; reading gives the records one after the other, and then
    nothing any more. *)
Class IteratorOk `{RecordHeader} (It : Type) `{IteratorVtable It} (typ : Z) (rep : It -> list reftable_record -> list reftable_record -> Prop) : Prop := {
  seek_spec it all rest want k : rep it all rest -> reftable_record_type want = typ -> record_keyed want k ->
    exists it' err, iterator_seek it want = Ret (it', err) /\ 0 <= err /\ rep it' all (since k all) /\ (0 < err -> since k all = []);
  next_some it all e rest rec : rep it all (e :: rest) -> accepts typ rec ->
    exists it' rec', iterator_next it rec = Ret (it', rec', 0) /\ rep it' all rest /\ same_record e rec';
  next_none it all rec : rep it all [] -> accepts typ rec ->
    exists it' rec' err, iterator_next it rec = Ret (it', rec', err) /\ 0 < err /\ rep it' all [] /\ accepts typ rec';
}.

(** Calling [iterator_next] until the end. *)
Fixpoint read_on {It} `{IteratorVtable It} (fuel : nat) (it : It) (rec : reftable_record) : outcome (list reftable_record) :=
  match fuel with
  | O => Undef
  | S fuel =>
      '(it, rec, err) ← iterator_next it rec;
      if tru err then Ret [] else recs ← read_on fuel it rec; Ret (rec :: recs)
  end.

Section contract.
Context `{RecordHeader} {It : Type} `{!IteratorVtable It} {typ : Z} {rep : It -> list reftable_record -> list reftable_record -> Prop} `{!IteratorOk It typ rep}.

Lemma read_on_spec it all rest rec fuel : rep it all rest -> accepts typ rec -> Forall (fun e => reftable_record_type e = typ) rest -> (length rest < fuel)%nat ->
  exists recs, read_on fuel it rec = Ret recs /\ Forall2 same_record rest recs.
Proof.
  revert it rec fuel. induction rest as [|e rest IH]; intros it rec fuel Hrep Hacc Hty Hf; (destruct fuel as [|fuel]; [cbn [length] in Hf; lia|]); cbn [read_on].
  - destruct (next_none it all rec Hrep Hacc) as (it' & rec' & err & -> & Herr & _). run. rewrite (proj2 (tru_true err)) by lia. by exists [].
  - destruct (next_some it all e rest rec Hrep Hacc) as (it' & rec' & -> & Hrep' & Hsame). run. change (tru 0) with false. cbv iota. apply Forall_cons_iff in Hty as [Hte Hty].
    destruct (IH it' rec' fuel Hrep') as (recs & -> & Hrecs); [rewrite <-Hte; by apply same_record_accepts|done|cbn [length] in Hf; lia|]. run. exists (rec' :: recs). split; [done|]. by constructor.
Qed.
End contract.

(** * The iterators *)

(** A table with no records. *)
#[export] Instance empty_iterator_ok `{RecordHeader} typ : IteratorOk unit typ (fun _ all rest => all = [] /\ rest = []).
Proof.
  split.
  - intros it all rest want k [-> ->] _ _. exists it, 0. by repeat split.
  - intros it all e rest rec [_ ?]. done.
  - intros it all rec [-> _] Hacc. exists it, rec, 1. split; [done|]. split; [lia|]. by split.
Qed.

Section filtering.
Context `{RecordHeaderOk} (hash_size : Z).
Context {It : Type} `{!IteratorVtable It} {rep : It -> list reftable_record -> list reftable_record -> Prop} `{!IteratorOk It BLOCK_TYPE_REF rep}.

(** The references whose value, or the object their tag points to, starts with [oid]. *)
Definition points_to (oid : list Z) (r : reftable_record) : bool :=
  match r with
  | RecRef r =>
      let starts v := bool_decide (take (length oid) v = oid) in
      match rr_value r with RefVal1 v => starts v | RefVal2 v t => starts t || starts v | _ => false end
  | _ => false
  end.

Lemma memcmp_prefix oid o v : buf_rep oid o -> zlen o <= zlen v -> exists c, memcmp (rb_buf oid) v (rb_len oid) = Ret c /\ negb (tru c) = bool_decide (take (length o) v = o).
Proof.
  intros Hb Hv. pose proof Hb as (Hl & _). pose proof (zlen_nonneg o). unfold memcmp. rewrite Hl, (buf_rep_slice oid o 0) by (done || lia). run. rewrite rd_range_in by lia. run.
  eexists. split; [done|]. rewrite slice_full. unfold slice. cbn [Z.to_nat drop]. unfold zlen. rewrite Nat2Z.id. unfold tru. rewrite negb_involutive.
  apply Bool.eq_iff_eq_true. rewrite bool_decide_eq_true, Z.eqb_eq, bytes_cmp_eq. done.
Qed.

Lemma ref_matches_spec oid o r : buf_rep oid o -> zlen o <= hash_size -> ref_ok hash_size r -> ref_matches oid r = Ret (points_to o (RecRef r)).
Proof.
  intros Hb Ho (_ & _ & Hv). unfold ref_matches, points_to. destruct (rr_value r) as [|v|v t|s]; try done.
  - destruct (memcmp_prefix oid o v Hb ltac:(lia)) as (c & -> & Hc). run. by rewrite Hc.
  - destruct Hv as [Hv Ht]. destruct (memcmp_prefix oid o t Hb ltac:(lia)) as (c & -> & Hc). run. rewrite Hc. destruct (bool_decide _); [done|]. cbn [orb].
    destruct (memcmp_prefix oid o v Hb ltac:(lia)) as (c' & -> & Hc'). run. by rewrite Hc'.
Qed.

Definition filtering_rep (o : list Z) (fuel : nat) (fri : filtering_ref_iterator It) (all rest : list reftable_record) : Prop :=
  buf_rep (fri_oid fri) o /\ zlen o <= hash_size /\ exists all0 rest0, rep (fri_it fri) all0 rest0 /\ Forall (listed hash_size BLOCK_TYPE_REF) all0 /\ rest0 `sublist_of` all0 /\
    (length all0 < fuel)%nat /\ all = filter (fun r => points_to o r) all0 /\ rest = filter (fun r => points_to o r) rest0.

Lemma accepts_ref rec : accepts BLOCK_TYPE_REF rec -> exists r, rec = RecRef r.
Proof.
  intros [Ht _]. pose proof block_types as Hnd. rewrite !NoDup_cons, !not_elem_of_cons in Hnd. destruct rec; cbn [reftable_record_type] in Ht; [by eexists|exfalso; intuition congruence..].
Qed.

(** The loop reads up to the first match, or to the end. *)
Lemma filtering_loop o : forall rest0 all0 oid it ref fuel, buf_rep oid o -> zlen o <= hash_size -> rep it all0 rest0 -> Forall (listed hash_size BLOCK_TYPE_REF) rest0 -> (length rest0 < fuel)%nat ->
  exists fri' ref' err, loop fuel filtering_step (Filtering oid it, ref) = Ret (fri', ref', err) /\ fri_oid fri' = oid /\ 0 <= err /\
    match filter (fun r => points_to o r) rest0 with
    | [] => 0 < err /\ rep (fri_it fri') all0 []
    | e :: rest => err = 0 /\ same_record e (RecRef ref') /\ exists rest0', rep (fri_it fri') all0 rest0' /\ rest0' `sublist_of` rest0 /\ rest = filter (fun r => points_to o r) rest0'
    end.
Proof.
  induction rest0 as [|e rest0 IH]; intros all0 oid it ref fuel Hoid Ho Hrep Hl Hf; (destruct fuel as [|fuel]; [cbn [length] in Hf; lia|]).
  - destruct (next_none it all0 (RecRef ref) Hrep) as (it' & rec' & err & Hnext & Herr & Hrep' & Hacc'); [done|]. destruct (accepts_ref _ Hacc') as (ref' & ->).
    eexists _, _, _. split.
    { apply loop_stop. unfold filtering_step, reftable_iterator_next_ref. cbn [fri_it fri_oid]. rewrite Hnext. run. rewrite (proj2 (tru_true err)) by lia. done. }
    split; [done|]. split; [lia|]. rewrite filter_nil. by split.
  - apply Forall_cons_iff in Hl as [(Hok & _ & Hty) Hl]. destruct (next_some it all0 e rest0 (RecRef ref) Hrep) as (it' & rec' & Hnext & Hrep' & Hsame); [done|].
    pose proof (same_record_accepts _ _ Hsame) as Hacc. rewrite Hty in Hacc. destruct (accepts_ref _ Hacc) as (ref' & ->).
    assert (points_to o e = points_to o (RecRef ref')) as Hpt by (destruct e as [e| | |]; try done; destruct Hsame as (_ & _ & Hv); unfold points_to; by rewrite Hv).
    pose proof (ref_matches_spec oid o ref' Hoid Ho (same_record_ok _ _ _ Hok Hsame)) as Hm. rewrite <-Hpt in Hm.
    assert (forall k, loop (S fuel) filtering_step (Filtering oid it, ref) = k -> k = k) by done.
    rewrite filter_cons. destruct (points_to o e) eqn:Ee.
    + rewrite decide_True by done. eexists _, _, _. split.
      { apply loop_stop. unfold filtering_step, reftable_iterator_next_ref. cbn [fri_it fri_oid]. rewrite Hnext. run. change (tru 0) with false. cbv iota. rewrite Hm. run. done. }
      split; [done|]. split; [done|]. split; [done|]. split; [done|]. exists rest0. split; [done|]. split; [by apply sublist_cons|done].
    + rewrite decide_False by (by intros ?). destruct (IH all0 oid it' ref' fuel Hoid Ho Hrep' Hl) as (fri' & ref'' & err & Hloop & Hoid' & Herr & Hres); [cbn [length] in Hf; lia|].
      exists fri', ref'', err. split.
      { rewrite (loop_next _ _ _ (Filtering oid it', ref')); [done|]. unfold filtering_step, reftable_iterator_next_ref. cbn [fri_it fri_oid]. rewrite Hnext. run. change (tru 0) with false. cbv iota. rewrite Hm. run. done. }
      split; [done|]. split; [done|]. destruct (filter _ rest0); [done|]. destruct Hres as (? & ? & rest0' & ? & ? & ?). split; [done|]. split; [done|]. exists rest0'. split; [done|]. split; [by apply sublist_cons|done].
Qed.

Lemma filtering_ok o fuel : @IteratorOk _ (filtering_ref_iterator It) (filtering_ref_iterator_vtable fuel) BLOCK_TYPE_REF (filtering_rep o fuel).
Proof.
  split.
  - intros fri all rest want k (Hoid & Ho & all0 & rest0 & Hrep & Hl & Hsuf & Hf & -> & ->) Hty Hk. destruct (seek_spec _ _ _ want k Hrep Hty Hk) as (it' & err & Hseek & Herr & Hrep' & Hnone).
    exists (Filtering (fri_oid fri) it'), err. unfold iterator_seek at 1. cbn [vt_seek filtering_ref_iterator_vtable]. unfold filtering_ref_iterator_seek. rewrite Hseek. run. split; [done|]. split; [done|].
    rewrite (since_filter k (points_to o)). split; [|intros He; by rewrite (Hnone He)]. split; [done|]. split; [done|]. exists all0, (since k all0). split; [done|]. split; [done|]. split; [apply sublist_filter|]. done.
  - intros fri all e rest rec (Hoid & Ho & all0 & rest0 & Hrep & Hl & Hsub & Hf & -> & Hrest) Hacc. destruct (accepts_ref _ Hacc) as (ref & ->). destruct fri as [oid it]. cbn [fri_oid fri_it] in *. pose proof (sublist_length _ _ Hsub).
    destruct (filtering_loop o rest0 all0 oid it ref fuel Hoid Ho Hrep) as (fri' & ref' & err & Hloop & Hoid' & Herr & Hres); [by eapply sublist_Forall|lia|]. rewrite <-Hrest in Hres. destruct Hres as (-> & Hsame & rest0' & Hrep' & Hsub' & ->).
    exists fri', (RecRef ref'). unfold iterator_next. cbn [vt_next filtering_ref_iterator_vtable]. unfold filtering_ref_iterator_next. rewrite Hloop. run. split; [done|]. split; [|done].
    split; [by rewrite Hoid'|]. split; [done|]. exists all0, rest0'. repeat (split; [done|]). split; [by transitivity rest0|done].
  - intros fri all rec (Hoid & Ho & all0 & rest0 & Hrep & Hl & Hsub & Hf & -> & Hrest) Hacc. destruct (accepts_ref _ Hacc) as (ref & ->). destruct fri as [oid it]. cbn [fri_oid fri_it] in *. pose proof (sublist_length _ _ Hsub).
    destruct (filtering_loop o rest0 all0 oid it ref fuel Hoid Ho Hrep) as (fri' & ref' & err & Hloop & Hoid' & Herr & Hres); [by eapply sublist_Forall|lia|]. rewrite <-Hrest in Hres. destruct Hres as (Herr' & Hrep').
    exists fri', (RecRef ref'), err. unfold iterator_next. cbn [vt_next filtering_ref_iterator_vtable]. unfold filtering_ref_iterator_next. rewrite Hloop. run. split; [done|]. split; [done|]. split; [|done].
    split; [by rewrite Hoid'|]. split; [done|]. exists all0, []. repeat (split; [done|]). split; [apply sublist_nil_l|done].
Qed.
End filtering.

(** * Reference iterator *)

(** A table in memory. *)
Record list_iterator := ListIter { li_all : list reftable_record; li_rest : list reftable_record }.

#[export] Instance list_vtable `{RecordHeader} : IteratorVtable list_iterator := {
  vt_seek it want := Ret (ListIter (li_all it) (since (rec_key want) (li_all it)), 0);
  vt_next it rec := match li_rest it with [] => Ret (it, rec, 1) | e :: rest => Ret (ListIter (li_all it) rest, e, 0) end;
}.

Definition list_rep `{RecordHeader} (it : list_iterator) (all rest : list reftable_record) : Prop :=
  li_all it = all /\ li_rest it = rest /\ Forall (fun r => same_record r r) all /\ rest `sublist_of` all.

#[export] Instance list_iterator_ok `{RecordHeader} typ : IteratorOk list_iterator typ list_rep.
Proof.
  split.
  - intros [all' rest'] all rest want k (<- & <- & Hall & Hsub) _ Hk%rec_key_keyed. subst k. cbn [li_all] in *. eexists _, 0. split; [done|]. split; [done|]. split; [|done]. split; [done|]. split; [done|]. split; [done|]. apply sublist_filter.
  - intros [all' rest'] all e rest rec (<- & Hrest & Hall & Hsub) Hacc. cbn [li_all li_rest] in *. subst rest'. eexists _, e. split; [done|]. split.
    + split; [done|]. split; [done|]. split; [done|]. transitivity (e :: rest); [by apply sublist_cons|done].
    + rewrite Forall_forall in Hall. apply Hall. eapply elem_of_sublist; [|exact Hsub]. by left.
  - intros [all' rest'] all rec (<- & Hrest & Hall & Hsub) Hacc. cbn [li_all li_rest] in *. subst rest'. eexists _, rec, 1. split; [done|]. split; [lia|]. split; [|done]. by split.
Qed.
