(* ===== verification/ReftableMerged.v ===== *)
(** reftable_merged.c: one iterator over a stack of tables.  It keeps the next record of
    every table in a priority queue; of records with one key it returns the one of the
    newest table and skips the others, and it can leave out deletions.  It meets the
    contract of iterators for the overlay of the tables, when theirs do. *)
From stdpp Require Import sorting functions.
From S2P Require Import Prelude Heaps ReftableBasics ReftableRecord ReftablePq ReftableIter.

(** * Model *)

(** The sizes of structures of which parts are declared in headers. *)
Class MergedHeader := { sizeof_merged_subiter : Z; sizeof_merged_iter : Z; sizeof_merged_table : Z }.

(** reader.h: what the tables promise; the iterators of all tables have one type. *)
Class TableReader (reader It : Type) := {
  reftable_reader_min_update_index : reader -> Z;
  reftable_reader_max_update_index : reader -> Z;
  reftable_reader_hash_id : reader -> Z;
  reader_init_iter : reader -> Z -> outcome It;
}.

(** [struct merged_subiter], [struct merged_iter] with [subiters_len] iterators, and
    [struct reftable_merged_table]. *)
Record merged_subiter It := Subiter { ms_iter : It; ms_rec : reftable_record }.
Arguments Subiter {It}.
Arguments ms_iter {It}.
Arguments ms_rec {It}.

Record merged_iter It := MergedIter {
  mi_subiters : list (merged_subiter It);
  mi_pq : merged_iter_pqueue;
  mi_suppress_deletions : bool;
  mi_advance_index : Z;
}.
Arguments MergedIter {It}.
Arguments mi_subiters {It}.
Arguments mi_pq {It}.
Arguments mi_suppress_deletions {It}.
Arguments mi_advance_index {It}.

Record reftable_merged_table reader := MergedTable {
  mt_readers : list reader;
  mt_hash_id : Z;
  mt_suppress_deletions : bool;
  mt_min : Z;
  mt_max : Z;
}.
Arguments MergedTable {reader}.
Arguments mt_readers {reader}.
Arguments mt_hash_id {reader}.
Arguments mt_suppress_deletions {reader}.
Arguments mt_min {reader}.
Arguments mt_max {reader}.

Section model.
Context `{ReftableHeader} `{RecordHeader} `{PqHeader} `{MergedHeader} {It : Type} `{!IteratorVtable It}.
Context (junk : pq_entry).
Implicit Types (mi : merged_iter It).

(** The memory that the entries of the queue point into. *)
Definition mi_recs mi : list reftable_record := ms_rec <$> mi_subiters mi.

Definition set_subiters mi subiters : merged_iter It := MergedIter subiters (mi_pq mi) (mi_suppress_deletions mi) (mi_advance_index mi).
Definition set_pq mi pq : merged_iter It := MergedIter (mi_subiters mi) pq (mi_suppress_deletions mi) (mi_advance_index mi).
Definition set_advance mi i : merged_iter It := MergedIter (mi_subiters mi) (mi_pq mi) (mi_suppress_deletions mi) i.

Definition merged_iter_advance_subiter mi (idx : Z) : outcome (merged_iter It * Z) :=
  let e := PqEntry idx idx in
  s ← rd (mi_subiters mi) idx;
  '(it, rec, err) ← iterator_next (ms_iter s) (ms_rec s);
  subiters ← wr (mi_subiters mi) idx (Subiter it rec);
  let mi := set_subiters mi subiters in
  if tru err then Ret (mi, err) else
  pq ← merged_iter_pqueue_add junk (mi_recs mi) (mi_pq mi) e;
  Ret (set_pq mi pq, 0).

(** [while (!merged_iter_pqueue_is_empty(mi->pq))] *)
Definition drain_step mi (pq : merged_iter_pqueue) : outcome (merged_iter_pqueue + merged_iter_pqueue) :=
  if merged_iter_pqueue_is_empty pq then Ret (inr pq) else
  '(_, pq) ← merged_iter_pqueue_remove (mi_recs mi) pq;
  Ret (inl pq).

(** The body of the loop over the iterators. *)
Definition seek_step (want : reftable_record) (i : Z) mi : outcome (merged_iter It) :=
  s ← rd (mi_subiters mi) i;
  '(it, err) ← iterator_seek (ms_iter s) want;
  subiters ← wr (mi_subiters mi) i (Subiter it (ms_rec s));
  let mi := set_subiters mi subiters in
  if err >? 0 then Ret mi else
  '(mi, _) ← merged_iter_advance_subiter mi i;
  Ret mi.

Definition merged_iter_seek mi (want : reftable_record) : outcome (merged_iter It * Z) :=
  let mi := set_advance mi (-1) in
  pq ← loop (S (Z.to_nat (pq_len (mi_pq mi)))) (drain_step mi) (mi_pq mi);
  let mi := set_pq mi pq in
  mi ← for_n (length (mi_subiters mi)) 0 (seek_step want) mi;
  Ret (mi, 0).

(** One round of the loop that drops older records of the key of [entry]. *)
Definition drop_step (entry : pq_entry) mi : outcome (merged_iter It + merged_iter It) :=
  if merged_iter_pqueue_is_empty (mi_pq mi) then Ret (inr mi) else
  top ← merged_iter_pqueue_top (mi_pq mi);
  x ← rd (mi_recs mi) (pe_rec top);
  y ← rd (mi_recs mi) (pe_rec entry);
  cmp ← reftable_record_cmp x y;
  if cmp >? 0 then Ret (inr mi) else
  '(_, pq) ← merged_iter_pqueue_remove (mi_recs mi) (mi_pq mi);
  '(mi, _) ← merged_iter_advance_subiter (set_pq mi pq) (pe_index top);
  Ret (inl mi).

(** From the removal of the first entry on. *)
Definition take_entry mi (rec : reftable_record) : outcome (merged_iter It * reftable_record * Z) :=
  '(entry, pq) ← merged_iter_pqueue_remove (mi_recs mi) (mi_pq mi);
  mi ← loop (S (length (mi_subiters mi))) (drop_step entry) (set_pq mi pq);
  let mi := set_advance mi (pe_index entry) in
  s ← rd (mi_subiters mi) (pe_rec entry);
  subiters ← wr (mi_subiters mi) (pe_rec entry) (Subiter (ms_iter s) rec);
  Ret (set_subiters mi subiters, ms_rec s, 0).

Definition merged_iter_next_entry mi (rec : reftable_record) : outcome (merged_iter It * reftable_record * Z) :=
  let empty := merged_iter_pqueue_is_empty (mi_pq mi) in
  if mi_advance_index mi >=? 0 then
    if empty then
      s ← rd (mi_subiters mi) (mi_advance_index mi);
      '(it, rec, err) ← iterator_next (ms_iter s) rec;
      subiters ← wr (mi_subiters mi) (mi_advance_index mi) (Subiter it (ms_rec s));
      Ret (set_subiters mi subiters, rec, err)
    else
      '(mi, err) ← merged_iter_advance_subiter mi (mi_advance_index mi);
      take_entry (set_advance mi (-1)) rec
  else if empty then Ret (mi, rec, 1) else take_entry mi rec.

(** One round of [while (1)]. *)
Definition next_step (st : merged_iter It * reftable_record) : outcome ((merged_iter It * reftable_record) + (merged_iter It * reftable_record * Z)) :=
  let '(mi, rec) := st in
  '(mi, rec, err) ← merged_iter_next_entry mi rec;
  if tru err then Ret (inr (mi, rec, err)) else
  if mi_suppress_deletions mi && reftable_record_is_deletion rec then Ret (inl (mi, rec)) else
  Ret (inr (mi, rec, 0)).

(** At most [fuel] records are looked at. *)
Definition merged_iter_next_void (fuel : nat) mi (rec : reftable_record) : outcome (merged_iter It * reftable_record * Z) :=
  loop fuel next_step (mi, rec).

Definition merged_iter_seek_void mi (want : reftable_record) : outcome (merged_iter It * Z) := merged_iter_seek mi want.

Definition merged_iter_vtable (fuel : nat) : IteratorVtable (merged_iter It) :=
  {| vt_seek := merged_iter_seek_void; vt_next := merged_iter_next_void fuel |}.

(** ** Merged tables *)

Context {reader : Type} `{!TableReader reader It}.

(** The body of the loop on [first_min] and [last_max]. *)
Definition table_step (readers : list reader) (hash_id : Z) (i : Z) (st : Z * Z) : outcome (Z * Z) :=
  let '(first_min, last_max) := st in
  r ← rd readers i;
  let min := reftable_reader_min_update_index r in
  let max := reftable_reader_max_update_index r in
  if negb (reftable_reader_hash_id r =? hash_id) then Err Error else
  Ret (if (i =? 0) || (min <? first_min) then min else first_min, if (i =? 0) || (max >? last_max) then max else last_max).

Definition reftable_merged_table_new (readers : list reader) (hash_id : Z) : outcome (reftable_merged_table reader) :=
  '(first_min, last_max) ← for_n (length readers) 0 (table_step readers hash_id) (0, 0);
  _ ← alloc_array 1 sizeof_merged_table;
  Ret (MergedTable readers hash_id false first_min last_max).

(** The array of iterators is filled from the front; what is behind is zero, and only
    released when a later table fails. *)
Definition init_step (mt : reftable_merged_table reader) (typ : Z) (i : Z) (subiters : list (merged_subiter It)) : outcome (list (merged_subiter It)) :=
  rec ← reftable_record_init typ;
  r ← rd (mt_readers mt) i;
  it ← reader_init_iter r typ;
  Ret (subiters ++ [Subiter it rec]).

Definition merged_table_init_iter (mt : reftable_merged_table reader) (typ : Z) : outcome (merged_iter It) :=
  _ ← (if tru (zlen (mt_readers mt)) then alloc_array (zlen (mt_readers mt)) sizeof_merged_subiter else Ret tt);
  subiters ← for_n (length (mt_readers mt)) 0 (init_step mt typ) [];
  _ ← alloc_array 1 sizeof_merged_iter;
  Ret (MergedIter subiters (Pqueue [] 0) (mt_suppress_deletions mt) (-1)).

Definition reftable_merged_table_init_ref_iterator (mt : reftable_merged_table reader) : outcome (merged_iter It) := merged_table_init_iter mt BLOCK_TYPE_REF.
Definition reftable_merged_table_init_log_iterator (mt : reftable_merged_table reader) : outcome (merged_iter It) := merged_table_init_iter mt BLOCK_TYPE_LOG.

Definition reftable_merged_table_max_update_index (mt : reftable_merged_table reader) : Z := mt_max mt.
Definition reftable_merged_table_min_update_index (mt : reftable_merged_table reader) : Z := mt_min mt.
Definition reftable_merged_table_hash_id (mt : reftable_merged_table reader) : Z := mt_hash_id mt.
End model.

(** * The overlay of tables *)

Section overlay.
Context `{RecordHeader}.
Implicit Types (r e f : reftable_record) (l t : list reftable_record) (tables : list (list reftable_record)).

(** A record takes the place of one with its key. *)
Fixpoint insert_rec e l : list reftable_record :=
  match l with
  | [] => [e]
  | f :: l' =>
      let c := bytes_cmp (rec_key e) (rec_key f) in
      if c <? 0 then e :: l else if c =? 0 then e :: l' else f :: insert_rec e l'
  end.

(** The tables one over the other, the newest last. *)
Definition overlay l t : list reftable_record := foldr insert_rec l t.
Definition merged_records tables : list reftable_record := foldl overlay [] tables.

(** What the newest table that knows the key says of it. *)
Definition newest (k : list Z) tables : option reftable_record :=
  foldl (fun found t => match lookup_key k t with Some r => Some r | None => found end) None tables.

Lemma bytes_cmp_self k : bytes_cmp k k = 0.
Proof. by apply bytes_cmp_eq. Qed.

Lemma insert_rec_elem e l r : r ∈ insert_rec e l -> r = e \/ r ∈ l.
Proof.
  induction l as [|f l IH]; cbn [insert_rec]; [by intros ->%list_elem_of_singleton; left|]. destruct (_ <? 0); [by intros [->|?]%elem_of_cons; auto|].
  destruct (_ =? 0); [intros [->|?]%elem_of_cons; [by left|right; by right]|]. intros [->|Hr]%elem_of_cons; [right; by left|]. destruct (IH Hr); [by left|right; by right].
Qed.

Lemma insert_rec_sorted e l : StronglySorted rec_lt l -> StronglySorted rec_lt (insert_rec e l).
Proof.
  intros Hs. induction Hs as [|f l Hs IH Hf]; [by repeat constructor|]. cbn [insert_rec]. destruct (Z.ltb_spec (bytes_cmp (rec_key e) (rec_key f)) 0) as [Hlt|Hge].
  - constructor; [by constructor|]. constructor; [done|]. eapply Forall_impl; [exact Hf|]. intros r Hr. by transitivity f.
  - destruct (Z.eqb_spec (bytes_cmp (rec_key e) (rec_key f)) 0) as [Heq|Hne].
    + constructor; [done|]. eapply Forall_impl; [exact Hf|]. intros r. unfold rec_lt. apply bytes_cmp_eq in Heq. by rewrite Heq.
    + constructor; [done|]. rewrite Forall_forall in *. intros r [->|Hr]%insert_rec_elem; [|by apply Hf]. unfold rec_lt. pose proof (cmp_flip (rec_key e) (rec_key f)). pose proof (cmp_flip (rec_key f) (rec_key e)). lia.
Qed.

Lemma insert_rec_lookup e l k : lookup_key k (insert_rec e l) = if bytes_cmp (rec_key e) k =? 0 then Some e else lookup_key k l.
Proof.
  induction l as [|f l IH]; [done|]. cbn [insert_rec]. destruct (bytes_cmp (rec_key e) (rec_key f) <? 0); [done|]. destruct (Z.eqb_spec (bytes_cmp (rec_key e) (rec_key f)) 0) as [Heq|Hne].
  - cbn [lookup_key]. apply bytes_cmp_eq in Heq. rewrite <-Heq. by destruct (_ =? 0).
  - cbn [lookup_key]. rewrite IH. destruct (Z.eqb_spec (bytes_cmp (rec_key f) k) 0) as [Hf|]; [|done]. apply bytes_cmp_eq in Hf as <-. by rewrite (proj2 (Z.eqb_neq _ _) Hne).
Qed.

Lemma overlay_lookup l t k : lookup_key k (overlay l t) = match lookup_key k t with Some r => Some r | None => lookup_key k l end.
Proof.
  induction t as [|e t IH]; [done|]. cbn [overlay foldr lookup_key]. rewrite insert_rec_lookup. destruct (_ =? 0); [done|]. exact IH.
Qed.

Lemma merged_snoc tables t : merged_records (tables ++ [t]) = overlay (merged_records tables) t.
Proof. unfold merged_records. by rewrite foldl_app. Qed.

Lemma newest_snoc k tables t : newest k (tables ++ [t]) = match lookup_key k t with Some r => Some r | None => newest k tables end.
Proof. unfold newest. by rewrite foldl_app. Qed.

Lemma merged_lookup k tables : lookup_key k (merged_records tables) = newest k tables.
Proof. induction tables as [|t tables IH] using rev_ind; [done|]. rewrite merged_snoc, newest_snoc, overlay_lookup. by rewrite IH. Qed.

Lemma merged_sorted tables : StronglySorted rec_lt (merged_records tables).
Proof.
  induction tables as [|t tables IH] using rev_ind; [constructor|]. rewrite merged_snoc. unfold overlay. induction t as [|e t IHt]; [done|]. by apply insert_rec_sorted.
Qed.

Lemma merged_elem r tables : r ∈ merged_records tables -> exists t, t ∈ tables /\ r ∈ t.
Proof.
  induction tables as [|t tables IH] using rev_ind; [intros Hr; inversion Hr|]. rewrite merged_snoc. intros Hr.
  assert (r ∈ t \/ r ∈ merged_records tables) as [Ht|Hm].
  { clear IH. unfold overlay in Hr. induction t as [|e t IHt]; [by right|]. cbn [foldr] in Hr. apply insert_rec_elem in Hr as [->|Hr]; [left; by left|]. destruct (IHt Hr); [left; by right|by right]. }
  - exists t. split; [|done]. apply elem_of_app. right. by left.
  - destruct (IH Hm) as (t' & ? & ?). exists t'. split; [|done]. apply elem_of_app. by left.
Qed.

Lemma newest_last k tables i t r : tables !! i = Some t -> lookup_key k t = Some r -> (forall j t', (i < j)%nat -> tables !! j = Some t' -> lookup_key k t' = None) -> newest k tables = Some r.
Proof.
  induction tables as [|t0 tables IH] using rev_ind; [done|]. intros Ht Hr Hlater. rewrite newest_snoc. destruct (decide (i = length tables)) as [->|Hi].
  - rewrite list_lookup_middle in Ht by done. injection Ht as ->. by rewrite Hr.
  - assert (i < length tables)%nat as Hlt by (apply lookup_lt_Some in Ht; rewrite length_app in Ht; cbn [length] in Ht; lia). rewrite lookup_app_l in Ht by done.
    rewrite (Hlater (length tables) t0) by (done || by apply list_lookup_middle). apply (IH Ht Hr). intros j t' Hj Ht'. apply (Hlater j); [done|]. rewrite lookup_app_l; [done|]. by eapply lookup_lt_Some.
Qed.

Lemma merged_nil tables : Forall (fun t => t = []) tables -> merged_records tables = [].
Proof. intros Hn. unfold merged_records. induction Hn as [|t tables -> Hn IH]; [done|]. exact IH. Qed.

(** The records behind those of a key. *)
Definition drop_key (k : list Z) l : list reftable_record :=
  match l with e :: l' => if bytes_cmp (rec_key e) k =? 0 then l' else l | [] => [] end.

Lemma sorted_head_lookup e l k : StronglySorted rec_lt (e :: l) -> bytes_cmp k (rec_key e) <= 0 -> lookup_key k l = None.
Proof.
  intros [_ Hf]%StronglySorted_inv Hk. apply lookup_key_below. eapply Forall_impl; [exact Hf|]. intros r Hr. unfold rec_lt in Hr.
  destruct (decide (bytes_cmp k (rec_key e) = 0)) as [->%bytes_cmp_eq|]; [done|]. eapply bytes_cmp_lt_trans; [|by apply Z.lt_le_incl]. lia.
Qed.

Lemma drop_key_lookup k0 k l : bytes_cmp k0 k <> 0 -> lookup_key k (drop_key k0 l) = lookup_key k l.
Proof.
  intros Hne. destruct l as [|e l]; [done|]. cbn [drop_key lookup_key]. destruct (Z.eqb_spec (bytes_cmp (rec_key e) k0) 0) as [He|]; [|done]. apply bytes_cmp_eq in He. rewrite He. by rewrite (proj2 (Z.eqb_neq _ _) Hne).
Qed.

(** The record [r] of table [i] is the least, and the newest of its key. *)
Definition first_of tables (i : nat) r : Prop :=
  forall j h t, tables !! j = Some (h :: t) -> bytes_cmp (rec_key r) (rec_key h) < 0 \/ rec_key r = rec_key h /\ (j <= i)%nat.

Lemma drop_key_above tables i r j p e : Forall (StronglySorted rec_lt) tables -> first_of tables i r -> tables !! j = Some p -> e ∈ drop_key (rec_key r) p -> rec_lt r e.
Proof.
  intros Hs Hf Hp He. rewrite Forall_lookup in Hs. pose proof (Hs _ _ Hp) as Hsp. destruct p as [|h t]; [inversion He|]. cbn [drop_key] in He. pose proof (Hf _ _ _ Hp) as Hh.
  apply StronglySorted_inv in Hsp as [_ Ht]. rewrite Forall_forall in Ht. pose proof (cmp_flip (rec_key r) (rec_key h)).
  destruct (Z.eqb_spec (bytes_cmp (rec_key h) (rec_key r)) 0) as [Heq|Hne].
  - apply bytes_cmp_eq in Heq. unfold rec_lt. rewrite <-Heq. by apply Ht.
  - assert (rec_lt r h) as Hrh by (destruct Hh as [?|[Heq _]]; [done|by rewrite Heq, bytes_cmp_self in Hne]). apply elem_of_cons in He as [->|He]; [done|]. transitivity h; [done|by apply Ht].
Qed.

Lemma merged_first tables i r rest : Forall (StronglySorted rec_lt) tables -> tables !! i = Some (r :: rest) -> first_of tables i r ->
  merged_records tables = r :: merged_records (drop_key (rec_key r) <$> tables).
Proof.
  intros Hs Hi Hf. apply lookup_key_inj; [apply merged_sorted| |].
  - constructor; [apply merged_sorted|]. rewrite Forall_forall. intros e (t & Ht & He)%merged_elem. apply list_elem_of_fmap in Ht as (p & -> & Hp). apply list_elem_of_lookup_1 in Hp as [j Hj]. by eapply drop_key_above.
  - intros k. cbn [lookup_key]. rewrite !merged_lookup. destruct (Z.eqb_spec (bytes_cmp (rec_key r) k) 0) as [Hk|Hk].
    + apply bytes_cmp_eq in Hk as <-. apply (newest_last _ _ i (r :: rest)); [done| |].
      * cbn [lookup_key]. by rewrite bytes_cmp_self.
      * intros j t Hj Ht. destruct t as [|h t]; [done|]. destruct (Hf _ _ _ Ht) as [Hlt|[_ ?]]; [|lia]. cbn [lookup_key]. pose proof (cmp_flip (rec_key r) (rec_key h)).
        rewrite (proj2 (Z.eqb_neq _ _)); [|intros Hz%bytes_cmp_eq; rewrite Hz, bytes_cmp_self in Hlt; lia]. apply (sorted_head_lookup h); [by apply (Forall_lookup_1 _ _ _ _ Hs Ht)|lia].
    + unfold newest. generalize (@None reftable_record). clear -Hk. induction tables as [|t tables IH]; intros found; [done|]. cbn [fmap list_fmap foldl]. by rewrite drop_key_lookup.
Qed.

Lemma merged_since k tables : merged_records (since k <$> tables) = since k (merged_records tables).
Proof.
  apply lookup_key_inj; [apply merged_sorted|apply since_sorted, merged_sorted|]. intros k'. rewrite since_lookup, !merged_lookup. unfold newest.
  destruct (0 <=? bytes_cmp k' k) eqn:E.
  - generalize (@None reftable_record). induction tables as [|t tables IH]; intros found; [done|]. cbn [fmap list_fmap foldl]. by rewrite since_lookup, E.
  - induction tables as [|t tables IH]; [done|]. cbn [fmap list_fmap foldl]. by rewrite since_lookup, E.
Qed.
End overlay.

(** * The iterator *)

Section iterator.
Context `{ReftableHeaderOk} `{RecordHeaderOk} `{PqHeaderOk} `{MergedHeader} (hash_size typ : Z) (junk : pq_entry).
Context {It : Type} `{!IteratorVtable It} {rep : It -> list reftable_record -> list reftable_record -> Prop} `{!IteratorOk It typ rep}.
Hypothesis (Hmem : memory_enough).
Implicit Types (mi : merged_iter It) (s : merged_subiter It) (subs : list (merged_subiter It)) (l : list pq_entry) (i j : nat) (pend : list (list reftable_record)).

(** The tables, each with ascending keys, and with records that can be compared. *)
Definition tables_ok (tables : list (list reftable_record)) : Prop :=
  Forall (fun t => StronglySorted rec_lt t /\ Forall (listed hash_size typ) t) tables /\
  (forall t t' e f, t ∈ tables -> t' ∈ tables -> e ∈ t -> f ∈ t' -> comparable e f) /\ zlen tables < 2 ^ 32.

Context (alls : list (list reftable_record)) (Halls : tables_ok alls).

(** [pend] has what is still to come of every table.  The record of a table is in the
    queue with the rest to be read, all of it is to be read, or nothing is left;
    of a table that was not sought again nothing is known. *)
Inductive mode := Plain | Loose | Wild.

Definition queued l i : Prop := exists e, e ∈ l /\ pe_index e = Z.of_nat i.

Definition stands (m : mode) l i s (p rest : list reftable_record) : Prop :=
  match m with
  | Plain => queued l i /\ (exists h, p = h :: rest) \/ ~ queued l i /\ p = []
  | Loose => ~ queued l i /\ p = rest
  | Wild => ~ queued l i
  end.

Definition sub_inv (m : mode) l i s (all p : list reftable_record) : Prop :=
  accepts typ (ms_rec s) /\ (m <> Wild -> p `sublist_of` all) /\ exists rest, rep (ms_iter s) all rest /\ stands m l i s p rest.

Definition held (subs : list (merged_subiter It)) pend (e : pq_entry) : Prop :=
  pe_rec e = pe_index e /\ exists i s h t, pe_index e = Z.of_nat i /\ subs !! i = Some s /\ pend !! i = Some (h :: t) /\ same_record h (ms_rec s).

Definition head_key pend (e : pq_entry) : list Z :=
  match pend !! Z.to_nat (pe_index e) with Some (h :: _) => rec_key h | _ => [] end.

Record base (subs : list (merged_subiter It)) pend l (m : nat -> mode) : Prop := {
  base_alls : length alls = length subs;
  base_pend : length pend = length subs;
  base_nodup : NoDup (pe_index <$> l);
  base_held : Forall (held subs pend) l;
  base_subs i s all p : subs !! i = Some s -> alls !! i = Some all -> pend !! i = Some p -> sub_inv (m i) l i s all p;
}.

Record inv mi pend l (m : nat -> mode) : Prop := {
  inv_base : base (mi_subiters mi) pend l m;
  inv_pq : pq_rep (mi_pq mi) l;
  inv_heap : heap (ple (head_key pend)) l;
}.

Lemma sublist_sorted (t p : list reftable_record) : p `sublist_of` t -> StronglySorted rec_lt t -> StronglySorted rec_lt p.
Proof.
  induction 1 as [|x p t Hs IH|x p t Hs IH]; intros Ht; [constructor| |]; apply StronglySorted_inv in Ht as [Ht Hx]; [|by apply IH]. constructor; [by apply IH|]. by apply (sublist_Forall _ _ _ Hx).
Qed.

(** Everything known of the record at the head of an entry. *)
Lemma held_head subs pend l m e : base subs pend l m -> e ∈ l ->
  exists i s h t all, pe_index e = Z.of_nat i /\ pe_rec e = Z.of_nat i /\ subs !! i = Some s /\ pend !! i = Some (h :: t) /\ alls !! i = Some all /\
    same_record h (ms_rec s) /\ listed hash_size typ h /\ h ∈ all /\ head_key pend e = rec_key h /\ rep (ms_iter s) all t /\ m i = Plain /\ StronglySorted rec_lt (h :: t).
Proof.
  intros Hinv He. pose proof (base_held _ _ _ _ Hinv) as Hh. rewrite Forall_forall in Hh. destruct (Hh e He) as (Hr & i & s & h & t & Hi & Hs & Hp & Hsame).
  destruct (lookup_lt_is_Some_2 alls i) as [all Hall]; [rewrite (base_alls _ _ _ _ Hinv); by eapply lookup_lt_Some|].
  destruct (base_subs _ _ _ _ Hinv i s all (h :: t) Hs Hall Hp) as (_ & Hsub & rest & Hrep & Hst). assert (queued l i) as Hq by (by exists e).
  assert (m i = Plain /\ rest = t) as [Hm ->].
  { unfold stands in Hst. destruct (m i); [|by destruct Hst|done]. split; [done|]. destruct Hst as [[_ [h' Heq]]|[? _]]; [by simplify_eq|done]. }
  specialize (Hsub ltac:(congruence)). destruct Halls as (Htab & _ & _). rewrite Forall_lookup in Htab. destruct (Htab i all Hall) as [Hsort Hlist].
  exists i, s, h, t, all. split; [done|]. split; [congruence|]. split; [done|]. split; [done|]. split; [done|]. split; [done|].
  assert (h ∈ all) as Hin by (eapply elem_of_sublist; [|exact Hsub]; by left). rewrite Forall_forall in Hlist.
  split; [by apply Hlist|]. split; [done|]. split; [|split; [done|split; [done|by eapply sublist_sorted]]]. unfold head_key. by rewrite Hi, Nat2Z.id, Hp.
Qed.

Lemma recs_lookup subs i s : subs !! i = Some s -> rd (ms_rec <$> subs) (Z.of_nat i) = Ret (ms_rec s).
Proof. intros Hs. apply rd_lookup. by rewrite list_lookup_fmap, Hs. Qed.

Lemma mi_recs_lookup mi i s : mi_subiters mi !! i = Some s -> rd (mi_recs mi) (Z.of_nat i) = Ret (ms_rec s).
Proof. apply recs_lookup. Qed.

(** Records of tables compare as their keys. *)
Lemma table_cmp t t' e f r r' : t ∈ alls -> t' ∈ alls -> e ∈ t -> f ∈ t' -> same_record e r -> same_record f r' ->
  exists c, reftable_record_cmp r r' = Ret c /\ Z.sgn c = Z.sgn (bytes_cmp (rec_key e) (rec_key f)).
Proof.
  intros Ht Ht' He Hf Hr Hr'. destruct Halls as (Htab & Hcmp & _). rewrite Forall_forall in Htab.
  destruct (Htab t Ht) as [_ Hl]. destruct (Htab t' Ht') as [_ Hl']. rewrite Forall_forall in Hl, Hl'. destruct (Hl e He) as (Hok & Hk & _). destruct (Hl' f Hf) as (Hok' & Hk' & _).
  apply (record_cmp_keys hash_size); [by apply (same_record_ok _ e)|by apply (same_record_ok _ f)|by apply (same_record_key e)|by apply (same_record_key f)|].
  apply (same_record_comparable e f); [|done|done]. by apply (Hcmp t t').
Qed.

Lemma base_orders subs pend l m : base subs pend l m -> orders (ms_rec <$> subs) (head_key pend) l.
Proof.
  intros Hinv x y Hx Hy. destruct (held_head _ _ _ _ x Hinv Hx) as (i & s & h & t & all & Hi & Hri & Hs & Hp & Hall & Hsame & _ & Hin & Hkey & _).
  destruct (held_head _ _ _ _ y Hinv Hy) as (j & s' & h' & t' & all' & Hj & Hrj & Hs' & Hp' & Hall' & Hsame' & _ & Hin' & Hkey' & _).
  unfold pq_less, less. rewrite Hri, Hrj, (recs_lookup _ _ _ Hs), (recs_lookup _ _ _ Hs'). run.
  destruct (table_cmp all all' h h' (ms_rec s) (ms_rec s')) as (c & -> & Hc); try done; [by eapply list_elem_of_lookup_2..|]. run. rewrite Hkey, Hkey'. f_equal.
  destruct (Z.eqb_spec c 0), (Z.eqb_spec (bytes_cmp (rec_key h) (rec_key h')) 0); lia.
Qed.

Lemma heap_ext (key key' : pq_entry -> list Z) l : (forall e, e ∈ l -> key e = key' e) -> heap (ple key) l -> heap (ple key') l.
Proof.
  intros Hk Hh i x p Hi Hx Hp. pose proof (Hh i x p Hi Hx Hp) as Hle. unfold ple in *. rewrite <-(Hk x), <-(Hk p) by (by eapply list_elem_of_lookup_2). done.
Qed.

Lemma queued_perm l l' i : l ≡ₚ l' -> queued l i <-> queued l' i.
Proof. intros Hp. unfold queued. split; intros (e & He & ?); exists e; (split; [|done]); [by rewrite <-Hp|by rewrite Hp]. Qed.
Lemma queued_tail x l l' i j : l' ≡ₚ l -> pe_index x = Z.of_nat i -> j <> i -> queued l' j <-> queued (x :: l) j.
Proof.
  intros Hp Hx Hj. rewrite (queued_perm l' l) by done. unfold queued. split; intros (e & He & Hi).
  - exists e. split; [by right|done].
  - apply elem_of_cons in He as [->|He]; [lia|]. by exists e.
Qed.

Lemma stands_queued m l l' j s p rest : (queued l' j <-> queued l j) -> stands m l j s p rest -> stands m l' j s p rest.
Proof. unfold stands. destruct m; tauto. Qed.

Lemma not_queued x l l' i : NoDup (pe_index <$> x :: l) -> l' ≡ₚ l -> pe_index x = Z.of_nat i -> ~ queued l' i.
Proof.
  rewrite fmap_cons. intros [Hx _]%NoDup_cons Hp Hi (e & He & Hei). apply Hx. rewrite Hi, <-Hei. apply list_elem_of_fmap_2. by rewrite <-Hp.
Qed.

(** The first entry is taken out; the rest of its table is to be read. *)
Lemma pop_spec mi pend x l m : inv mi pend (x :: l) m ->
  exists i s h t pq' l', merged_iter_pqueue_remove (mi_recs mi) (mi_pq mi) = Ret (x, pq') /\ l' ≡ₚ l /\ inv (set_pq mi pq') (<[i := t]> pend) l' (<[i := Loose]> m) /\
    pe_index x = Z.of_nat i /\ pe_rec x = Z.of_nat i /\ mi_subiters mi !! i = Some s /\ pend !! i = Some (h :: t) /\ same_record h (ms_rec s) /\ head_key pend x = rec_key h.
Proof.
  intros [Hb Hpq Hheap]. destruct (held_head _ _ _ _ x Hb) as (i & s & h & t & all & Hi & Hr & Hs & Hp & Hall & Hsame & _ & Hin & Hkey & Hrep & Hm & Hsort); [by left|].
  destruct (pqueue_remove_spec (mi_recs mi) (head_key pend) (mi_pq mi) x l Hpq Hheap (base_orders _ _ _ _ Hb)) as (pq' & l' & Hrem & Hpq' & Hheap' & Hperm).
  exists i, s, h, t, pq', l'. split; [done|]. split; [done|]. pose proof (not_queued x l l' i (base_nodup _ _ _ _ Hb) Hperm Hi) as Hnq.
  assert (forall e, e ∈ l' -> pe_index e <> Z.of_nat i) as Hother by (intros e He Hei; apply Hnq; by exists e).
  assert (forall e, e ∈ l' -> Z.to_nat (pe_index e) <> i) as Hother'.
  { intros e He Hei. pose proof (base_held _ _ _ _ Hb) as Hh. rewrite Forall_forall in Hh. destruct (Hh e) as (_ & j & _ & _ & _ & Hj & _); [right; by rewrite <-Hperm|]. apply (Hother e He). lia. }
  split; [|done]. split; [|done|].
  - split.
    + apply (base_alls _ _ _ _ Hb).
    + rewrite length_insert. apply (base_pend _ _ _ _ Hb).
    + rewrite Hperm. pose proof (base_nodup _ _ _ _ Hb) as Hn. rewrite fmap_cons in Hn. by apply NoDup_cons in Hn as [_ Hn].
    + rewrite Forall_forall. intros e He. pose proof (base_held _ _ _ _ Hb) as Hh. rewrite Forall_forall in Hh. destruct (Hh e) as (Her & j & s' & h' & t' & Hj & Hs' & Hp' & Hsame'); [right; by rewrite <-Hperm|].
      split; [done|]. exists j, s', h', t'. split; [done|]. split; [done|]. split; [|done]. rewrite list_lookup_insert_ne; [done|]. intros <-. by apply (Hother e He).
    + intros j s' all' p' Hs' Hall' Hp'. cbn [set_pq mi_subiters] in Hs'. destruct (decide (j = i)) as [->|Hne].
      * rewrite fn_lookup_insert. rewrite list_lookup_insert_eq in Hp' by (by eapply lookup_lt_Some). simplify_eq. destruct (base_subs _ _ _ _ Hb i s all (h :: p') Hs Hall Hp) as (Hacc & Hsub & _).
        split; [done|]. split; [intros _; transitivity (h :: p'); [by apply sublist_cons|apply Hsub; congruence]|]. by exists p'.
      * rewrite fn_lookup_insert_ne by done. rewrite list_lookup_insert_ne in Hp' by done. destruct (base_subs _ _ _ _ Hb j s' all' p' Hs' Hall' Hp') as (Hacc & Hsub & rest & Hrest & Hst).
        split; [done|]. split; [done|]. exists rest. split; [done|]. by apply (stands_queued _ (x :: l)); [apply (queued_tail _ _ _ i)|].
  - apply (heap_ext (head_key pend)); [|done]. intros e He. unfold head_key. rewrite list_lookup_insert_ne; [done|]. intros Hq. by apply (Hother' e He).
Qed.
(** The queue holds at most one entry of every table. *)
Lemma queue_short subs pend l m i : base subs pend l m -> (i < length subs)%nat -> ~ queued l i -> (length l < length subs)%nat.
Proof.
  intros Hb Hi Hq. assert (pe_index <$> PqEntry (Z.of_nat i) (Z.of_nat i) :: l ⊆+ Z.of_nat <$> seq 0 (length subs)) as Hsub.
  { apply NoDup_submseteq.
    - rewrite fmap_cons. apply NoDup_cons. split; [|apply (base_nodup _ _ _ _ Hb)]. intros (e & He & Hin)%list_elem_of_fmap. apply Hq. by exists e.
    - intros k (e & -> & He)%list_elem_of_fmap. apply list_elem_of_fmap. apply elem_of_cons in He as [->|He]; [exists i; split; [done|]; apply elem_of_seq; lia|].
      pose proof (base_held _ _ _ _ Hb) as Hh. rewrite Forall_forall in Hh. destruct (Hh e He) as (_ & j & s & _ & _ & Hj & Hs & _). exists j. split; [done|]. apply elem_of_seq. apply lookup_lt_Some in Hs. lia. }
  apply submseteq_length in Hsub. rewrite !length_fmap, length_seq in Hsub. cbn [length] in Hsub. lia.
Qed.

Lemma wr_lookup subs i s s' : subs !! i = Some s -> wr subs (Z.of_nat i) s' = Ret (<[i := s']> subs).
Proof. intros Hs%lookup_lt_Some. rewrite wr_in by (unfold zlen; lia). by rewrite Nat2Z.id. Qed.

Lemma base_perm subs pend l l' m : l' ≡ₚ l -> base subs pend l m -> base subs pend l' m.
Proof.
  intros Hp [Ha Hpe Hn Hh Hs]. split; [done|done|by rewrite Hp|by rewrite Hp|]. intros i s all p Hsi Hall Hpi. destruct (Hs i s all p Hsi Hall Hpi) as (Hacc & Hsub & rest & Hrest & Hst).
  split; [done|]. split; [done|]. exists rest. split; [done|]. by apply (stands_queued _ l); [apply queued_perm|].
Qed.

Lemma base_mode subs pend l m m' : (forall i, m i = m' i) -> base subs pend l m -> base subs pend l m'.
Proof. intros Hm [Ha Hpe Hn Hh Hs]. split; [done..|]. intros i. rewrite <-Hm. apply Hs. Qed.

Lemma replace_sub subs i s s' j : subs !! i = Some s -> <[i := s']> subs !! j = if decide (j = i) then Some s' else subs !! j.
Proof.
  intros Hs. case_decide as Hj; [subst j; apply list_lookup_insert_eq; by eapply lookup_lt_Some|by apply list_lookup_insert_ne].
Qed.

(** Replacing the iterator, the record and the rest of a table that is not in the queue. *)
Lemma base_replace subs pend l m i s s' all p p' mo : base subs pend l m -> subs !! i = Some s -> alls !! i = Some all -> pend !! i = Some p -> ~ queued l i ->
  sub_inv mo l i s' all p' -> base (<[i := s']> subs) (<[i := p']> pend) l (<[i := mo]> m).
Proof.
  intros Hb Hs Hall Hp Hq Hnew. split.
  - rewrite length_insert. apply (base_alls _ _ _ _ Hb).
  - rewrite !length_insert. apply (base_pend _ _ _ _ Hb).
  - apply (base_nodup _ _ _ _ Hb).
  - rewrite Forall_forall. intros e He. pose proof (base_held _ _ _ _ Hb) as Hh. rewrite Forall_forall in Hh. destruct (Hh e He) as (Her & j & s0 & h & t & Hj & Hs0 & Hp0 & Hsame).
    assert (j <> i) as Hji by (intros ->; apply Hq; by exists e). split; [done|]. exists j, s0, h, t. split; [done|]. by rewrite !list_lookup_insert_ne by done.
  - intros j s0 all0 p0 Hs0 Hall0 Hp0. destruct (decide (j = i)) as [->|Hj].
    + rewrite fn_lookup_insert. rewrite list_lookup_insert_eq in Hs0 by (by eapply lookup_lt_Some). rewrite list_lookup_insert_eq in Hp0 by (by eapply lookup_lt_Some). by simplify_eq.
    + rewrite fn_lookup_insert_ne by done. rewrite list_lookup_insert_ne in Hs0 by done. rewrite list_lookup_insert_ne in Hp0 by done. by apply (base_subs _ _ _ _ Hb).
Qed.

Lemma inv_replace mi pend l m i s s' all p p' mo : inv mi pend l m -> mi_subiters mi !! i = Some s -> alls !! i = Some all -> pend !! i = Some p -> ~ queued l i ->
  sub_inv mo l i s' all p' -> inv (set_subiters mi (<[i := s']> (mi_subiters mi))) (<[i := p']> pend) l (<[i := mo]> m).
Proof.
  intros [Hb Hpq Hheap] Hs Hall Hp Hq Hnew. split; [by eapply base_replace|done|]. apply (heap_ext (head_key pend)); [|done]. intros e He. unfold head_key.
  pose proof (base_held _ _ _ _ Hb) as Hh. rewrite Forall_forall in Hh. destruct (Hh e He) as (_ & j & _ & _ & _ & Hj & _). rewrite list_lookup_insert_ne; [done|]. intros Hi. apply Hq. exists e. split; [done|]. lia.
Qed.

Lemma inv_mode mi pend l m m' : (forall i, m i = m' i) -> inv mi pend l m -> inv mi pend l m'.
Proof. intros Hm [Hb Hpq Hheap]. split; [|done|done]. by apply (base_mode _ _ _ m). Qed.

(** Another entry for a table whose record is at hand. *)
Lemma base_queue subs pend l m i s all h t : base subs pend l m -> subs !! i = Some s -> alls !! i = Some all -> pend !! i = Some (h :: t) -> ~ queued l i ->
  same_record h (ms_rec s) -> h :: t `sublist_of` all -> rep (ms_iter s) all t -> base subs pend (PqEntry (Z.of_nat i) (Z.of_nat i) :: l) (<[i := Plain]> m).
Proof.
  intros Hb Hs Hall Hp Hq Hsame Hsub Hrep. split.
  - apply (base_alls _ _ _ _ Hb).
  - apply (base_pend _ _ _ _ Hb).
  - rewrite fmap_cons. apply NoDup_cons. split; [|apply (base_nodup _ _ _ _ Hb)]. intros (e & He & Hin)%list_elem_of_fmap. apply Hq. by exists e.
  - constructor; [|apply (base_held _ _ _ _ Hb)]. split; [done|]. by exists i, s, h, t.
  - intros j s0 all0 p0 Hs0 Hall0 Hp0. destruct (base_subs _ _ _ _ Hb j s0 all0 p0 Hs0 Hall0 Hp0) as (Hacc & Hs1 & rest & Hrest & Hst). destruct (decide (j = i)) as [->|Hj].
    + rewrite fn_lookup_insert. simplify_eq. split; [done|]. split; [done|]. exists t. split; [done|]. left. split; [|by exists h]. exists (PqEntry (Z.of_nat i) (Z.of_nat i)). split; [by left|done].
    + rewrite fn_lookup_insert_ne by done. split; [done|]. split; [done|]. exists rest. split; [done|]. apply (stands_queued _ l); [|done].
      symmetry. by apply (queued_tail (PqEntry (Z.of_nat i) (Z.of_nat i)) l l i).
Qed.

Lemma advance_spec mi pend l m i s p : inv mi pend l m -> m i = Loose -> mi_subiters mi !! i = Some s -> pend !! i = Some p ->
  exists mi' l' err, merged_iter_advance_subiter junk mi (Z.of_nat i) = Ret (mi', err) /\ 0 <= err /\ inv mi' pend l' (<[i := Plain]> m) /\
    mi_suppress_deletions mi' = mi_suppress_deletions mi /\ mi_advance_index mi' = mi_advance_index mi /\ length (mi_subiters mi') = length (mi_subiters mi) /\
    (forall j, j <> i -> mi_subiters mi' !! j = mi_subiters mi !! j) /\
    match p with [] => l' = l | _ => l' ≡ₚ PqEntry (Z.of_nat i) (Z.of_nat i) :: l end.
Proof.
  intros [Hb Hpq Hheap] Hm Hs Hp. pose proof (lookup_lt_Some _ _ _ Hs) as Hlt.
  destruct (lookup_lt_is_Some_2 alls i) as [all Hall]; [by rewrite (base_alls _ _ _ _ Hb)|].
  destruct (base_subs _ _ _ _ Hb i s all p Hs Hall Hp) as (Hacc & Hsub & rest & Hrest & Hst). rewrite Hm in Hst. destruct Hst as [Hq ->]. specialize (Hsub ltac:(congruence)).
  unfold merged_iter_advance_subiter. rewrite (rd_lookup _ _ _ Hs). run. destruct rest as [|h rest].
  - destruct (next_none (ms_iter s) all (ms_rec s) Hrest Hacc) as (it' & rec' & err & -> & Herr & Hrest' & Hacc'). run. rewrite (wr_lookup _ _ _ _ Hs). run. rewrite (proj2 (tru_true err)) by lia.
    eexists _, l, err. split; [done|]. split; [lia|]. cbn [set_subiters mi_subiters mi_suppress_deletions mi_advance_index]. split; [|split; [done|split; [done|split; [by rewrite length_insert|split; [|done]]]]].
    + split; [|done|done]. rewrite <-(list_insert_id pend i [] Hp). apply (base_replace _ _ _ _ _ s _ all [] []); try done. split; [done|]. split; [done|]. exists []. split; [done|]. by right.
    + intros j Hj. rewrite (replace_sub _ _ _ _ _ Hs). by rewrite decide_False.
  - destruct (next_some (ms_iter s) all h rest (ms_rec s) Hrest Hacc) as (it' & rec' & -> & Hrest' & Hsame). run. rewrite (wr_lookup _ _ _ _ Hs). run. change (tru 0) with false. cbv iota.
    assert (base (<[i := Subiter it' rec']> (mi_subiters mi)) pend (PqEntry (Z.of_nat i) (Z.of_nat i) :: l) (<[i := Plain]> (<[i := Wild]> m))) as Hb'.
    { assert (base (<[i := Subiter it' rec']> (mi_subiters mi)) pend l (<[i := Wild]> m)) as Hb1.
      - rewrite <-(list_insert_id pend i (h :: rest) Hp). apply (base_replace _ _ _ _ _ s _ all (h :: rest)); try done. destruct Halls as (Htab & _). rewrite Forall_lookup in Htab. destruct (Htab i all Hall) as [_ Hl]. rewrite Forall_forall in Hl.
        destruct (Hl h) as (_ & _ & Ht); [eapply elem_of_sublist; [|exact Hsub]; by left|]. split; [rewrite <-Ht; by apply same_record_accepts|]. split; [done|]. by exists rest.
      - apply (base_queue _ _ _ _ _ (Subiter it' rec') all h rest); try done. rewrite (replace_sub _ _ _ _ _ Hs). by rewrite decide_True. }
    destruct (pqueue_add_spec junk (ms_rec <$> <[i := Subiter it' rec']> (mi_subiters mi)) (head_key pend) (mi_pq mi) l (PqEntry (Z.of_nat i) (Z.of_nat i)) Hpq Hheap (base_orders _ _ _ _ Hb')) as (pq' & l' & Hadd & Hpq' & Hheap' & Hperm); [|done|].
    { pose proof (queue_short _ _ _ _ i Hb Hlt Hq). pose proof (base_alls _ _ _ _ Hb). destruct Halls as (_ & _ & Hn). unfold zlen in *. lia. }
    unfold mi_recs. cbn [set_subiters mi_subiters mi_pq]. rewrite Hadd. run. eexists _, l', 0. split; [done|]. split; [done|]. cbn [set_subiters set_pq mi_subiters mi_pq mi_suppress_deletions mi_advance_index].
    split; [|split; [done|split; [done|split; [by rewrite length_insert|split; [|done]]]]].
    + split; [|done|done]. apply (base_mode _ _ _ (<[i := Plain]> (<[i := Wild]> m))); [by intros j; unfold insert, fn_insert; repeat case_decide|].
      by apply (base_perm _ _ (PqEntry (Z.of_nat i) (Z.of_nat i) :: l)).
    + intros j Hj. rewrite (replace_sub _ _ _ _ _ Hs). by rewrite decide_False.
Qed.

(** ** Dropping older records *)

Lemma pend_sorted subs pend l m : base subs pend l m -> (forall i, m i <> Wild) -> Forall (StronglySorted rec_lt) pend.
Proof.
  intros Hb Hm. rewrite Forall_lookup. intros i p Hp. pose proof (lookup_lt_Some _ _ _ Hp) as Hlt. pose proof (base_alls _ _ _ _ Hb). pose proof (base_pend _ _ _ _ Hb).
  destruct (lookup_lt_is_Some_2 subs i) as [s Hs]; [lia|]. destruct (lookup_lt_is_Some_2 alls i) as [all Hall]; [lia|].
  destruct (base_subs _ _ _ _ Hb i s all p Hs Hall Hp) as (_ & Hsub & _). destruct Halls as (Htab & _). rewrite Forall_lookup in Htab. destruct (Htab i all Hall) as [Hsort _].
  eapply sublist_sorted; [by apply Hsub|done].
Qed.

Lemma plain_queued subs pend l m i h t : base subs pend l m -> m i = Plain -> pend !! i = Some (h :: t) -> queued l i.
Proof.
  intros Hb Hm Hp. pose proof (lookup_lt_Some _ _ _ Hp) as Hlt. pose proof (base_alls _ _ _ _ Hb). pose proof (base_pend _ _ _ _ Hb).
  destruct (lookup_lt_is_Some_2 subs i) as [s Hs]; [lia|]. destruct (lookup_lt_is_Some_2 alls i) as [all Hall]; [lia|].
  destruct (base_subs _ _ _ _ Hb i s all _ Hs Hall Hp) as (_ & _ & rest & _ & Hst). rewrite Hm in Hst. by destruct Hst as [[? _]|[_ ?]].
Qed.

Lemma root_least pend l x e : heap (ple (head_key pend)) (x :: l) -> e ∈ x :: l -> ple (head_key pend) x e.
Proof.
  intros Hh [k Hk]%list_elem_of_lookup_1. by apply (heap_root _ (ple_total (head_key pend)) (ple_trans (head_key pend)) (x :: l) k).
Qed.

Lemma pq_nonempty pq l : pq_rep pq l -> merged_iter_pqueue_is_empty pq = true <-> l = [].
Proof.
  intros [[Hl _] _]. pose proof (zlen_nonneg l). rewrite pqueue_is_empty_spec by lia. rewrite Z.eqb_eq, <-Hl. destruct l; [done|]. rewrite zlen_cons. pose proof (zlen_nonneg l). split; [lia|done].
Qed.

Lemma count_insert (P : list reftable_record -> bool) pend j p p' : pend !! j = Some p -> P p = true -> P p' = false ->
  (S (length (filter (fun p => P p) (<[j := p']> pend))) = length (filter (fun p => P p) pend))%nat.
Proof.
  intros Hp Ht Hf. pose proof (lookup_lt_Some _ _ _ Hp). rewrite insert_take_drop by done. rewrite <-(take_drop_middle pend j p Hp) at 3.
  rewrite !filter_app, !length_app, (filter_cons_False _ p') by (rewrite Hf; by intros ?). rewrite (filter_cons_True _ p) by (by rewrite Ht). cbn [length]. lia.
Qed.

(** What one round drops is a record of the key, and none is left behind it. *)
Definition at_key (k : list Z) (p : list reftable_record) : bool := match p with h :: _ => bytes_cmp (rec_key h) k =? 0 | [] => false end.

Section drop.
Context (pend : list (list reftable_record)) (i0 : nat) (r : reftable_record) (all0 : list reftable_record) (Hall0 : alls !! i0 = Some all0) (Hr : r ∈ all0).
Context (Hsorted : Forall (StronglySorted rec_lt) pend) (Hfirst : first_of pend i0 r) (entry : pq_entry) (Hentry : pe_rec entry = Z.of_nat i0).

Definition only (i : nat) : nat -> mode := <[i := Loose]> (fun _ => Plain).

Definition dropping (mi0 : merged_iter It) mi (pc : list (list reftable_record)) l : Prop :=
  inv mi pc l (only i0) /\ mi_suppress_deletions mi = mi_suppress_deletions mi0 /\ length (mi_subiters mi) = length (mi_subiters mi0) /\
  mi_subiters mi !! i0 = mi_subiters mi0 !! i0 /\ pc !! i0 = drop_key (rec_key r) <$> pend !! i0 /\ length pc = length pend /\
  forall j p, j <> i0 -> pc !! j = Some p -> pend !! j = Some p \/ exists q, pend !! j = Some q /\ p = drop_key (rec_key r) q.

(** Either the round ends the loop and all is dropped, or it drops one record. *)
Lemma drop_round mi0 s0 mi pc l : mi_subiters mi0 !! i0 = Some s0 -> same_record r (ms_rec s0) -> dropping mi0 mi pc l ->
  (exists mi', drop_step junk entry mi = Ret (inr mi') /\ dropping mi0 mi' (drop_key (rec_key r) <$> pend) l) \/
  exists mi' j p l', drop_step junk entry mi = Ret (inl mi') /\ dropping mi0 mi' (<[j := p]> pc) l' /\
    (S (length (filter (fun p => at_key (rec_key r) p) (<[j := p]> pc))) = length (filter (fun p => at_key (rec_key r) p) pc))%nat.
Proof.
  intros Hs0 Hsame0 (Hinv & Hsup & Hlen & Hkeep & Hpc0 & Hlpc & Hpcs). pose proof Hinv as [Hb Hpq Hheap].
  assert ((forall e, e ∈ l -> bytes_cmp (rec_key r) (head_key pc e) < 0) -> pc = drop_key (rec_key r) <$> pend) as Hdone.
  { intros Habove. apply list_eq. intros j. rewrite list_lookup_fmap. destruct (decide (j = i0)) as [->|Hj]; [done|]. destruct (pc !! j) as [p|] eqn:Ep.
    - destruct (Hpcs j p Hj Ep) as [Hp|(q & Hq & ->)]; [|by rewrite Hq]. rewrite Hp. cbn [fmap option_fmap option_map]. f_equal. destruct p as [|h t]; [done|]. cbn [drop_key].
      destruct (plain_queued _ _ _ _ j h t Hb) as (e & He & Hej); [unfold only; by rewrite fn_lookup_insert_ne|done|]. specialize (Habove e He). unfold head_key in Habove. rewrite Hej, Nat2Z.id, Ep in Habove.
      pose proof (cmp_flip (rec_key r) (rec_key h)). pose proof (cmp_flip (rec_key h) (rec_key r)). rewrite (proj2 (Z.eqb_neq _ _)); [done|]. intros Hz%bytes_cmp_eq. rewrite Hz, bytes_cmp_self in Habove. lia.
    - apply lookup_ge_None in Ep. by rewrite (proj2 (lookup_ge_None _ _)) by lia. }
  unfold drop_step. destruct (merged_iter_pqueue_is_empty (mi_pq mi)) eqn:Eempty.
  { left. apply (pq_nonempty _ l Hpq) in Eempty as ->. exists mi. split; [done|]. rewrite <-Hdone; [done|]. intros e He. inversion He. }
  destruct l as [|x l]; [by rewrite (proj2 (pq_nonempty _ [] Hpq)) in Eempty|].
  assert (0 < pq_len (mi_pq mi)) as Hpos by (destruct Hpq as [[<- _] _]; rewrite zlen_cons; pose proof (zlen_nonneg l); lia).
  rewrite pqueue_top_spec by done. pose proof (pqueue_rep_rd _ _ 0 x Hpq eq_refl) as Htop. change (Z.of_nat 0) with 0 in Htop. rewrite Htop. run.
  destruct (held_head _ _ _ _ x Hb) as (j & s & h & t & all & Hj & Hrj & Hs & Hp & Hall & Hsame & _ & Hin & Hkey & Hrep & Hm & Hsort); [by left|].
  rewrite Hrj, Hentry, (mi_recs_lookup _ _ _ Hs), (mi_recs_lookup _ _ s0) by congruence. run.
  destruct (table_cmp all all0 h r (ms_rec s) (ms_rec s0)) as (c & -> & Hc); try done; [by eapply list_elem_of_lookup_2..|]. run. rewrite Z.gtb_ltb. destruct (Z.ltb_spec 0 c) as [Hgt|Hle].
  { left. exists mi. split; [done|]. rewrite <-Hdone; [done|]. intros e He. pose proof (root_least _ _ _ _ Hheap He) as Hle. unfold ple in Hle. rewrite Hkey in Hle.
    pose proof (cmp_flip (rec_key r) (rec_key h)). pose proof (cmp_flip (rec_key h) (rec_key r)). destruct Hle as [Hle|[Hle _]]; [|rewrite <-Hle; lia]. eapply bytes_cmp_lt_trans; [|by apply Z.lt_le_incl]. lia. }
  right. assert (j <> i0) as Hji by (intros ->; unfold only in Hm; by rewrite fn_lookup_insert in Hm).
  assert (pend !! j = Some (h :: t) /\ rec_key h = rec_key r) as [Hpj Hhr].
  { pose proof (cmp_flip (rec_key r) (rec_key h)). pose proof (cmp_flip (rec_key h) (rec_key r)). destruct (Hpcs j _ Hji Hp) as [Hpj|(q & Hq & Heq)].
    - split; [done|]. destruct (Hfirst _ _ _ Hpj) as [?|[? _]]; [lia|done].
    - assert (rec_lt r h) as Hlt by (eapply drop_key_above; [exact Hsorted|exact Hfirst|exact Hq|rewrite <-Heq; by left]). unfold rec_lt in Hlt. lia. }
  destruct (pop_spec mi pc x l (only i0) Hinv) as (j' & s' & h' & t' & pq' & l' & Hpop & Hperm & Hinv' & Hj' & _ & Hs' & Hp' & _). assert (j' = j) as -> by lia. rewrite Hs in Hs'. rewrite Hp in Hp'. simplify_eq.
  rewrite Hpop. run. destruct (advance_spec _ _ _ _ j s' t' Hinv') as (mi' & l'' & err & Hadv & _ & Hinv'' & Hsup'' & _ & Hlen'' & Hkeep'' & _); [by rewrite fn_lookup_insert|done|apply list_lookup_insert_eq; by eapply lookup_lt_Some|].
  rewrite Hj, Hadv. run. exists mi', j, t', l''. split; [done|]. split.
  - split; [|split; [by rewrite Hsup''|split; [by rewrite Hlen''|split; [|split; [|split]]]]].
    + eapply inv_mode; [|exact Hinv'']. intros k. unfold only, insert, fn_insert. repeat case_decide; congruence.
    + rewrite Hkeep'' by done. exact Hkeep.
    + by rewrite list_lookup_insert_ne.
    + by rewrite length_insert.
    + intros k p Hk Hpk. destruct (decide (k = j)) as [->|Hkj].
      * rewrite list_lookup_insert_eq in Hpk by (by eapply lookup_lt_Some). injection Hpk as <-. right. exists (h' :: t'). split; [done|]. cbn [drop_key]. by rewrite Hhr, bytes_cmp_self.
      * rewrite list_lookup_insert_ne in Hpk by done. by apply Hpcs.
  - apply (count_insert (at_key (rec_key r)) _ _ (h' :: t')); [done|cbn [at_key]; by rewrite Hhr, bytes_cmp_self|]. destruct t' as [|g t']; [done|]. cbn [at_key]. apply Z.eqb_neq. intros Hz%bytes_cmp_eq.
    apply StronglySorted_inv in Hsort as [_ Hgt]. apply Forall_cons_iff in Hgt as [Hgt _]. unfold rec_lt in Hgt. rewrite Hhr, Hz, bytes_cmp_self in Hgt. lia.
Qed.

Lemma drop_loop mi0 s0 pc l : mi_subiters mi0 !! i0 = Some s0 -> same_record r (ms_rec s0) -> dropping mi0 mi0 pc l ->
  exists mi' l', loop (S (length (mi_subiters mi0))) (drop_step junk entry) mi0 = Ret mi' /\ dropping mi0 mi' (drop_key (rec_key r) <$> pend) l'.
Proof.
  intros Hs0 Hsame Hd. enough (forall n mi pc l, (length (filter (fun p => at_key (rec_key r) p) pc) < n)%nat -> dropping mi0 mi pc l ->
    exists mi' l', loop n (drop_step junk entry) mi = Ret mi' /\ dropping mi0 mi' (drop_key (rec_key r) <$> pend) l') as Hgo.
  { apply (Hgo _ _ pc l); [|done]. destruct Hd as ([Hb _ _] & _). rewrite <-(base_pend _ _ _ _ Hb). pose proof (sublist_length _ _ (sublist_filter (fun p => at_key (rec_key r) p) pc)). lia. }
  induction n as [|n IH]; intros mi pc' l' Hn Hd'; [lia|]. destruct (drop_round mi0 s0 mi pc' l' Hs0 Hsame Hd') as [(mi' & Hstep & Hend)|(mi' & j & p & l2 & Hstep & Hnext & Hcount)].
  - exists mi', l'. split; [by apply loop_stop|done].
  - rewrite (loop_next _ _ _ _ Hstep). apply (IH mi' (<[j := p]> pc') l2); [lia|done].
Qed.
End drop.


(** ** The next record *)

Lemma inv_advance mi pend l m k : inv mi pend l m -> inv (set_advance mi k) pend l m.
Proof. by intros [Hb Hpq Hheap]. Qed.

Lemma take_spec mi pend l rec : inv mi pend l (fun _ => Plain) -> l <> [] -> accepts typ rec ->
  exists mi' rec' r l' i, take_entry junk mi rec = Ret (mi', rec', 0) /\ merged_records pend = r :: merged_records (drop_key (rec_key r) <$> pend) /\ same_record r rec' /\
    inv mi' (drop_key (rec_key r) <$> pend) l' (only i) /\ mi_advance_index mi' = Z.of_nat i /\ (i < length alls)%nat /\ mi_suppress_deletions mi' = mi_suppress_deletions mi /\ accepts typ rec'.
Proof.
  intros Hinv Hne Hacc. destruct l as [|x l]; [done|]. clear Hne. pose proof Hinv as [Hb Hpq Hheap]. pose proof (pend_sorted _ _ _ _ Hb ltac:(done)) as Hsorted.
  destruct (held_head _ _ _ _ x Hb) as (i & s & r & t & all & Hi & Hri & Hs & Hp & Hall & Hsame & (_ & _ & Hty) & Hin & Hkey & _ & _ & _); [by left|].
  assert (first_of pend i r) as Hfirst.
  { intros j h q Hj. destruct (plain_queued _ _ _ _ j h q Hb eq_refl Hj) as (e & He & Hej). pose proof (root_least _ _ _ _ Hheap He) as Hle. unfold ple in Hle. rewrite Hkey in Hle.
    unfold head_key in Hle. rewrite Hej, Nat2Z.id, Hj, Hi in Hle. destruct Hle as [|[? ?]]; [by left|right; split; [done|lia]]. }
  destruct (pop_spec mi pend x l _ Hinv) as (i' & s' & r' & t' & pq' & l' & Hpop & Hperm & Hinv' & Hi' & _ & Hs' & Hp' & Hsame' & _). assert (i' = i) as -> by lia. rewrite Hs in Hs'. rewrite Hp in Hp'. injection Hs' as <-. injection Hp' as <- <-.
  unfold take_entry. rewrite Hpop. run. pose proof (lookup_lt_Some _ _ _ Hp) as Hlt. pose proof (base_alls _ _ _ _ Hb). pose proof (base_pend _ _ _ _ Hb).
  destruct (drop_loop pend i r all Hall Hin Hsorted Hfirst x Hri (set_pq mi pq') s (<[i := t]> pend) l' Hs Hsame) as (mi' & l'' & Hloop & Hd).
  { split; [exact Hinv'|]. split; [done|]. split; [done|]. split; [done|]. split; [rewrite list_lookup_insert_eq, Hp by done; cbn [fmap option_fmap option_map drop_key]; by rewrite bytes_cmp_self|].
    split; [by rewrite length_insert|]. intros j p Hj Hpj. left. by rewrite list_lookup_insert_ne in Hpj. }
  change (mi_subiters (set_pq mi pq')) with (mi_subiters mi) in Hloop. rewrite Hloop. run. destruct Hd as (Hinv'' & Hsup & Hlen & Hkeep & Hpi & _). cbn [set_pq mi_subiters mi_suppress_deletions] in Hkeep, Hsup, Hlen.
  assert (mi_subiters mi' !! i = Some s) as Hs'' by congruence. cbn [set_advance mi_subiters]. rewrite Hri, (rd_lookup _ _ _ Hs''). run. rewrite (wr_lookup _ _ _ _ Hs''). run.
  eexists _, (ms_rec s), r, l'', i. split; [done|]. split; [by apply (merged_first pend i r t)|]. split; [done|]. cbn [set_subiters set_advance mi_advance_index mi_suppress_deletions].
  split; [|split; [done|split; [lia|split; [done|rewrite <-Hty; by apply same_record_accepts]]]].
  assert (drop_key (rec_key r) <$> pend = <[i := t]> (drop_key (rec_key r) <$> pend)) as Hid.
  { symmetry. apply list_insert_id. rewrite list_lookup_fmap, Hp. cbn [fmap option_fmap option_map drop_key]. by rewrite bytes_cmp_self. }
  pose proof Hinv'' as [Hb'' _ _]. assert ((drop_key (rec_key r) <$> pend) !! i = Some t) as Hpt by (rewrite Hid; apply list_lookup_insert_eq; by rewrite length_fmap).
  destruct (base_subs _ _ _ _ Hb'' i s all t Hs'' Hall Hpt) as (_ & Hsub & rest & Hrest & Hst). unfold only in Hst, Hsub. rewrite fn_lookup_insert in Hst, Hsub. destruct Hst as [Hnq <-].
  rewrite Hid. apply (inv_mode _ _ _ (<[i := Loose]> (only i))); [intros j; unfold only, insert, fn_insert; by repeat case_decide|].
  apply (inv_replace (set_advance mi' (pe_index x)) _ l'' (only i) i s _ all t t Loose (inv_advance _ _ _ _ _ Hinv'') Hs'' Hall Hpt Hnq). split; [done|]. split; [done|]. by exists t.
Qed.

(** Between two calls: at most one table has its next record still to be read. *)
Definition merged_inv mi pend : Prop :=
  exists l, (mi_advance_index mi = -1 /\ inv mi pend l (fun _ => Plain)) \/ exists i, mi_advance_index mi = Z.of_nat i /\ (i < length alls)%nat /\ inv mi pend l (only i).

(** With an empty queue only the loose table has records left. *)
Lemma empty_queue subs pend m i p : base subs pend [] m -> m i = Plain -> pend !! i = Some p -> p = [].
Proof.
  intros Hb Hm Hp. destruct p as [|h t]; [done|]. destruct (plain_queued _ _ _ _ i h t Hb Hm Hp) as (e & He & _). inversion He.
Qed.

(** The end is reached when there are no more records, and else the first of them is
    returned. *)
Lemma next_entry_spec mi pend rec : merged_inv mi pend -> accepts typ rec ->
  exists mi' rec' err, merged_iter_next_entry junk mi rec = Ret (mi', rec', err) /\ mi_suppress_deletions mi' = mi_suppress_deletions mi /\ accepts typ rec' /\
    match merged_records pend with
    | [] => 0 < err /\ merged_inv mi' pend
    | r :: rest => err = 0 /\ same_record r rec' /\ exists pend', merged_inv mi' pend' /\ merged_records pend' = rest
    end.
Proof.
  intros (l & [[Hadv Hinv]|(i & Hadv & Hi & Hinv)]) Hacc; pose proof Hinv as [Hb Hpq Hheap]; unfold merged_iter_next_entry; rewrite Hadv.
  - change (-1 >=? 0) with false. cbv iota. destruct (merged_iter_pqueue_is_empty (mi_pq mi)) eqn:Ee.
    + apply (pq_nonempty _ l Hpq) in Ee as ->. exists mi, rec, 1. split; [done|]. split; [done|]. split; [done|]. rewrite merged_nil; [split; [done|]; exists []; by left|].
      rewrite Forall_lookup. intros j p Hp. by apply (empty_queue _ _ _ j p Hb).
    + destruct (take_spec mi pend l rec Hinv) as (mi' & rec' & r & l' & i & -> & -> & Hsame & Hinv' & Hadv' & Hi & Hsup & Hacc'); [by intros ->; rewrite (proj2 (pq_nonempty _ [] Hpq)) in Ee|done|].
      exists mi', rec', 0. split; [done|]. split; [done|]. split; [done|]. split; [done|]. split; [done|]. eexists. split; [|done]. exists l'. right. by exists i.
  - rewrite Z.geb_leb, (proj2 (Z.leb_le _ _)) by lia. pose proof (base_alls _ _ _ _ Hb). pose proof (base_pend _ _ _ _ Hb).
    destruct (lookup_lt_is_Some_2 (mi_subiters mi) i) as [s Hs]; [lia|]. destruct (lookup_lt_is_Some_2 alls i) as [all Hall]; [lia|]. destruct (lookup_lt_is_Some_2 pend i) as [p Hp]; [lia|].
    destruct (merged_iter_pqueue_is_empty (mi_pq mi)) eqn:Ee.
    + apply (pq_nonempty _ l Hpq) in Ee as ->. destruct (base_subs _ _ _ _ Hb i s all p Hs Hall Hp) as (Hsacc & Hsub & rest & Hrest & Hst). unfold only in Hst, Hsub. rewrite fn_lookup_insert in Hst, Hsub. destruct Hst as [Hnq ->].
      specialize (Hsub ltac:(done)). assert (forall j q, j <> i -> pend !! j = Some q -> q = []) as Hothers by (intros j q Hj Hq; apply (empty_queue _ _ _ j q Hb); [unfold only; by rewrite fn_lookup_insert_ne|done]).
      rewrite (rd_lookup _ _ _ Hs). run. destruct rest as [|h rest].
      * destruct (next_none (ms_iter s) all rec Hrest Hacc) as (it' & rec' & err & -> & Herr & Hrest' & Hacc'). run. rewrite (wr_lookup _ _ _ _ Hs). run. eexists _, rec', err. split; [done|]. split; [done|]. split; [done|].
        rewrite merged_nil. 2:{ rewrite Forall_lookup. intros j q Hq. destruct (decide (j = i)) as [->|Hj]; [by simplify_eq|by apply (Hothers j)]. }
        split; [done|]. exists []. right. exists i. split; [done|]. split; [done|]. rewrite <-(list_insert_id pend i [] Hp).
        apply (inv_mode _ _ _ (<[i := Loose]> (only i))); [intros j; unfold only, insert, fn_insert; by repeat case_decide|].
        apply (inv_replace mi pend [] (only i) i s _ all [] [] Loose Hinv Hs Hall Hp Hnq). split; [done|]. split; [done|]. by exists [].
      * destruct (next_some (ms_iter s) all h rest rec Hrest Hacc) as (it' & rec' & -> & Hrest' & Hsame). run. rewrite (wr_lookup _ _ _ _ Hs). run. eexists _, rec', 0. split; [done|]. split; [done|]. split.
        { destruct Halls as (Htab & _). rewrite Forall_lookup in Htab. destruct (Htab i all Hall) as [_ Hl]. rewrite Forall_forall in Hl. destruct (Hl h) as (_ & _ & <-); [eapply elem_of_sublist; [|exact Hsub]; by left|by apply same_record_accepts]. }
        assert (drop_key (rec_key h) <$> pend = <[i := rest]> pend) as Hdrop.
        { apply list_eq. intros j. rewrite list_lookup_fmap. destruct (decide (j = i)) as [->|Hj].
          - rewrite list_lookup_insert_eq, Hp by lia. cbn [fmap option_fmap option_map drop_key]. by rewrite bytes_cmp_self.
          - rewrite list_lookup_insert_ne by done. destruct (pend !! j) as [q|] eqn:Eq; [|done]. by rewrite (Hothers j q Hj Eq). }
        rewrite (merged_first pend i h rest).
        -- split; [done|]. split; [done|]. exists (<[i := rest]> pend). split; [|by rewrite Hdrop]. exists []. right. exists i. split; [done|]. split; [done|].
           apply (inv_mode _ _ _ (<[i := Loose]> (only i))); [intros j; unfold only, insert, fn_insert; by repeat case_decide|].
           apply (inv_replace mi pend [] (only i) i s _ all (h :: rest) rest Loose Hinv Hs Hall Hp Hnq). split; [done|]. split; [intros _; transitivity (h :: rest); [by apply sublist_cons|done]|]. by exists rest.
        -- apply (pend_sorted _ _ _ _ Hb). intros j. unfold only, insert, fn_insert. by case_decide.
        -- done.
        -- intros j h' t' Hj. destruct (decide (j = i)) as [->|Hne]; [simplify_eq; by right|]. by apply (Hothers j) in Hj.
    + destruct (advance_spec mi pend l (only i) i s p Hinv) as (mi1 & l1 & err & Hadvance & Herr & Hinv1 & Hsup1 & _ & Hlen1 & _ & Hl1); [unfold only; by rewrite fn_lookup_insert|done..|]. rewrite Hadvance. run.
      assert (inv (set_advance mi1 (-1)) pend l1 (fun _ => Plain)) as Hinv2 by (apply inv_advance; eapply inv_mode; [|exact Hinv1]; intros j; unfold only, insert, fn_insert; by repeat case_decide).
      destruct (take_spec _ pend l1 rec Hinv2) as (mi' & rec' & r & l' & i' & -> & -> & Hsame & Hinv' & Hadv' & Hi' & Hsup & Hacc'); [|done|].
      { intros ->. destruct p; [|by apply Permutation_nil_cons in Hl1]. subst l. by rewrite (proj2 (pq_nonempty _ [] Hpq)) in Ee. }
      exists mi', rec', 0. split; [done|]. split; [by rewrite Hsup|]. split; [done|]. split; [done|]. split; [done|]. eexists. split; [|done]. exists l'. right. by exists i'.
Qed.


(** The records that are not suppressed. *)
Definition live (suppress : bool) (recs : list reftable_record) : list reftable_record := filter (fun r => negb (suppress && reftable_record_is_deletion r)) recs.

Lemma next_void_spec fuel : forall mi pend rec, merged_inv mi pend -> accepts typ rec -> (length (merged_records pend) < fuel)%nat ->
  exists mi' rec' err, merged_iter_next_void junk fuel mi rec = Ret (mi', rec', err) /\ mi_suppress_deletions mi' = mi_suppress_deletions mi /\ accepts typ rec' /\
    exists pend', merged_inv mi' pend' /\ (length (merged_records pend') <= length (merged_records pend))%nat /\
    match live (mi_suppress_deletions mi) (merged_records pend) with
    | [] => 0 < err /\ merged_records pend' = []
    | r :: rest => err = 0 /\ same_record r rec' /\ live (mi_suppress_deletions mi) (merged_records pend') = rest
    end.
Proof.
  induction fuel as [|fuel IH]; intros mi pend rec Hm Hacc Hf; [lia|]. unfold merged_iter_next_void in *.
  destruct (next_entry_spec mi pend rec Hm Hacc) as (mi' & rec' & err & Hnext & Hsup & Hacc' & Hres). destruct (merged_records pend) as [|r rest] eqn:Em.
  - destruct Hres as [Herr Hm']. exists mi', rec', err. split.
    { apply loop_stop. unfold next_step. rewrite Hnext. run. by rewrite (proj2 (tru_true err)) by lia. }
    split; [done|]. split; [done|]. exists pend. rewrite Em. split; [done|]. split; [done|]. split; [done|done].
  - destruct Hres as (-> & Hsame & pend' & Hm' & Hrest). unfold live. rewrite filter_cons.
    assert (next_step junk (mi, rec) = if mi_suppress_deletions mi && reftable_record_is_deletion r then Ret (inl (mi', rec')) else Ret (inr (mi', rec', 0))) as Hstep.
    { unfold next_step. rewrite Hnext. run. change (tru 0) with false. cbv iota. by rewrite Hsup, (same_record_deletion r rec' Hsame). }
    destruct (mi_suppress_deletions mi && reftable_record_is_deletion r) eqn:Ed.
    + rewrite decide_False by (by intros ?). rewrite (loop_next _ _ _ _ Hstep). destruct (IH mi' pend' rec' Hm' Hacc') as (mi2 & rec2 & err2 & Hloop & Hsup2 & Hacc2 & pend2 & Hm2 & Hle & Hres2); [rewrite Hrest; cbn [length] in Hf; lia|].
      exists mi2, rec2, err2. split; [done|]. split; [by rewrite Hsup2|]. split; [done|]. exists pend2. split; [done|]. rewrite Hrest, Hsup in *. split; [cbn [length]; lia|]. exact Hres2.
    + rewrite decide_True by done. exists mi', rec', 0. split; [by apply loop_stop|]. split; [done|]. split; [done|]. exists pend'. split; [done|]. rewrite Hrest. split; [cbn [length]; lia|]. done.
Qed.

(** ** Seeking *)

Lemma drain_spec mi l : forall n pend m, inv mi pend l m -> (length l < n)%nat -> exists pq', loop n (drain_step mi) (mi_pq mi) = Ret pq' /\ pq_rep pq' [].
Proof.
  remember (length l) as k eqn:Ek. revert mi l Ek. induction k as [k IH] using lt_wf_ind. intros mi l -> n pend m Hinv Hn. destruct n as [|n]; [lia|]. pose proof Hinv as [Hb Hpq Hheap].
  destruct l as [|x l].
  - exists (mi_pq mi). split; [|done]. apply loop_stop. unfold drain_step. by rewrite (proj2 (pq_nonempty _ [] Hpq)).
  - destruct (pop_spec mi pend x l m Hinv) as (i & s & h & t & pq' & l' & Hpop & Hperm & Hinv' & _). rewrite (loop_next _ _ _ pq').
    + assert (length l' = length l) as Hl by (by rewrite Hperm). destruct (IH (length l') ltac:(cbn [length]; lia) (set_pq mi pq') l' eq_refl n _ _ Hinv') as (pq2 & Hloop & Hpq2); [cbn [length] in Hn; lia|]. by exists pq2.
    + unfold drain_step. destruct (merged_iter_pqueue_is_empty (mi_pq mi)) eqn:Ee; [by apply (pq_nonempty _ _ Hpq) in Ee|]. rewrite Hpop. done.
Qed.

Definition sought (k : Z) (j : nat) : mode := if Z.of_nat j <? k then Plain else Wild.

Lemma seek_step_spec want k mi l i : inv mi (since k <$> alls) l (sought (Z.of_nat i)) -> (i < length alls)%nat -> reftable_record_type want = typ -> record_keyed want k ->
  exists mi' l', seek_step junk want (Z.of_nat i) mi = Ret mi' /\ inv mi' (since k <$> alls) l' (sought (Z.of_nat i + 1)) /\
    mi_suppress_deletions mi' = mi_suppress_deletions mi /\ mi_advance_index mi' = mi_advance_index mi /\ length (mi_subiters mi') = length (mi_subiters mi).
Proof.
  intros Hinv Hi Hty Hk. pose proof Hinv as [Hb _ _]. pose proof (base_alls _ _ _ _ Hb) as Hla.
  destruct (lookup_lt_is_Some_2 (mi_subiters mi) i) as [s Hs]; [lia|]. destruct (lookup_lt_is_Some_2 alls i) as [all Hall]; [lia|].
  assert ((since k <$> alls) !! i = Some (since k all)) as Hp by (by rewrite list_lookup_fmap, Hall).
  destruct (base_subs _ _ _ _ Hb i s all _ Hs Hall Hp) as (Hacc & _ & rest & Hrest & Hq). unfold sought in Hq at 1. rewrite Z.ltb_irrefl in Hq.
  unfold seek_step. rewrite (rd_lookup _ _ _ Hs). run. destruct (seek_spec _ _ _ want k Hrest Hty Hk) as (it' & err & -> & Herr & Hrest' & Hnone). run. rewrite (wr_lookup _ _ _ _ Hs). run.
  assert (forall j, (<[i := Plain]> (sought (Z.of_nat i))) j = sought (Z.of_nat i + 1) j) as Hmode.
  { intros j. unfold sought, insert, fn_insert. case_decide; [subst j; by rewrite (proj2 (Z.ltb_lt _ _)) by lia|]. destruct (Z.ltb_spec (Z.of_nat j) (Z.of_nat i)), (Z.ltb_spec (Z.of_nat j) (Z.of_nat i + 1)); (done || lia). }
  rewrite Z.gtb_ltb. destruct (Z.ltb_spec 0 err) as [Hpos|Hzero].
  - eexists _, l. split; [done|]. split; [|split; [done|split; [done|cbn [set_subiters mi_subiters]; by rewrite length_insert]]]. eapply inv_mode; [exact Hmode|]. rewrite <-(list_insert_id _ _ _ Hp).
    apply (inv_replace mi _ l _ i s _ all _ _ Plain Hinv Hs Hall Hp Hq). specialize (Hnone Hpos). rewrite Hnone in *. split; [done|]. split; [intros _; apply sublist_nil_l|]. exists []. split; [done|]. by right.
  - assert (inv (set_subiters mi (<[i := Subiter it' (ms_rec s)]> (mi_subiters mi))) (since k <$> alls) l (<[i := Loose]> (sought (Z.of_nat i)))) as Hinv1.
    { rewrite <-(list_insert_id _ _ _ Hp). apply (inv_replace mi _ l _ i s _ all _ _ Loose Hinv Hs Hall Hp Hq). split; [done|]. split; [intros _; apply sublist_filter|]. by exists (since k all). }
    destruct (advance_spec _ _ l _ i (Subiter it' (ms_rec s)) (since k all) Hinv1) as (mi' & l' & err' & Hadv & _ & Hinv' & Hsup & Hadvi & Hlen & _); [by rewrite fn_lookup_insert| |done|].
    { cbn [set_subiters mi_subiters]. apply list_lookup_insert_eq. by eapply lookup_lt_Some. }
    rewrite Hadv. run. exists mi', l'. split; [done|]. cbn [set_subiters mi_subiters] in Hlen. rewrite length_insert in Hlen. split; [|done]. eapply inv_mode; [|exact Hinv']. intros j. rewrite <-Hmode. unfold insert, fn_insert. by repeat case_decide.
Qed.

Lemma merged_seek_spec mi pend want k : merged_inv mi pend -> reftable_record_type want = typ -> record_keyed want k ->
  exists mi', merged_iter_seek junk mi want = Ret (mi', 0) /\ merged_inv mi' (since k <$> alls) /\ mi_suppress_deletions mi' = mi_suppress_deletions mi.
Proof.
  intros Hm Hty Hk. assert (exists l m, inv mi pend l m) as (l & m & Hinv) by (destruct Hm as (l & [[_ Hinv]|(i & _ & _ & Hinv)]); eauto). apply (inv_advance _ _ _ _ (-1)) in Hinv.
  unfold merged_iter_seek. pose proof Hinv as [Hb Hpq _]. pose proof (base_alls _ _ _ _ Hb) as Hla. cbn [set_advance mi_subiters] in Hla.
  destruct (drain_spec (set_advance mi (-1)) l (S (Z.to_nat (pq_len (mi_pq (set_advance mi (-1)))))) pend m Hinv) as (pq' & Hloop & Hpq'); [destruct Hpq as [[<- _] _]; unfold zlen; lia|]. rewrite Hloop. run.
  assert (inv (set_pq (set_advance mi (-1)) pq') (since k <$> alls) [] (sought 0)) as Hinv0.
  { split; [|done|]; [|intros i x p _ Hx; by rewrite lookup_nil in Hx]. cbn [set_pq set_advance mi_subiters] in *. split; [done|by rewrite length_fmap|by constructor|by constructor|].
    intros i s all p Hs Hall Hp. unfold sought. rewrite (proj2 (Z.ltb_ge _ _)) by lia. destruct (lookup_lt_is_Some_2 pend i) as [p0 Hp0]; [pose proof (base_pend _ _ _ _ Hb) as Hlp; cbn [mi_subiters] in Hlp; apply lookup_lt_Some in Hs; lia|].
    destruct (base_subs _ _ _ _ Hb i s all p0 Hs Hall Hp0) as (Hacc & _ & rest & Hrest & _). split; [done|]. split; [done|]. exists rest. split; [done|]. intros (e & He & _). inversion He. }
  destruct (for_n_ret (fun (j : Z) mi' => exists l', inv mi' (since k <$> alls) l' (sought j) /\ mi_suppress_deletions mi' = mi_suppress_deletions mi /\ mi_advance_index mi' = -1 /\ length (mi_subiters mi') = length (mi_subiters mi))
    (length (mi_subiters mi)) 0 (seek_step junk want) (set_pq (set_advance mi (-1)) pq')) as (mi' & Hfor & l' & Hinv' & Hsup & Hadv & _).
  - intros j mi1 Hj (l1 & Hinv1 & Hs1 & Ha1 & Hl1). replace j with (Z.of_nat (Z.to_nat j)) in * by lia. destruct (seek_step_spec want k mi1 l1 _ Hinv1) as (mi2 & l2 & Hstep & Hinv2 & Hs2 & Ha2 & Hl2); [lia|done..|].
    exists mi2. split; [done|]. exists l2. split; [done|]. split; [congruence|]. split; congruence.
  - exists []. split; [exact Hinv0|done].
  - cbn [set_pq set_advance mi_subiters] in *. rewrite Hfor. run. exists mi'. split; [done|]. split; [|done]. exists l'. left. split; [done|]. split; [|by destruct Hinv'..].
    destruct Hinv' as [[Ha' Hp' Hn' Hh' Hs'] _ _]. split; [done..|]. intros i s all p Hsi Hai Hpi. pose proof (Hs' i s all p Hsi Hai Hpi) as Hsub. unfold sought in Hsub.
    rewrite (proj2 (Z.ltb_lt _ _)) in Hsub; [done|]. apply lookup_lt_Some in Hai. lia.
Qed.

(** ** The merged iterator is an iterator over the overlay *)

Definition merged_rep (suppress : bool) (fuel : nat) mi (all rest : list reftable_record) : Prop :=
  mi_suppress_deletions mi = suppress /\ all = live suppress (merged_records alls) /\ (length (merged_records alls) < fuel)%nat /\
  exists pend, merged_inv mi pend /\ rest = live suppress (merged_records pend) /\ (length (merged_records pend) < fuel)%nat.

Lemma merged_iter_ok suppress fuel : @IteratorOk _ (merged_iter It) (merged_iter_vtable junk fuel) typ (merged_rep suppress fuel).
Proof.
  split.
  - intros mi all rest want k (Hsup & -> & Hf & pend & Hm & _ & _) Hty Hk. destruct (merged_seek_spec mi pend want k Hm Hty Hk) as (mi' & Hseek & Hm' & Hsup'). exists mi', 0.
    split; [exact Hseek|]. split; [done|]. assert (since k (live suppress (merged_records alls)) = live suppress (merged_records (since k <$> alls))) as -> by (rewrite merged_since; apply (since_filter k (fun r => negb (suppress && reftable_record_is_deletion r)))).
    split; [|lia]. split; [congruence|]. split; [done|]. split; [done|]. exists (since k <$> alls). split; [done|]. split; [done|]. rewrite merged_since. pose proof (sublist_length _ _ (sublist_filter (fun r => 0 <= bytes_cmp (rec_key r) k) (merged_records alls))). unfold since. lia.
  - intros mi all e rest rec (Hsup & -> & Hf & pend & Hm & Hrest & Hfp) Hacc. destruct (next_void_spec fuel mi pend rec Hm Hacc Hfp) as (mi' & rec' & err & Hnext & Hsup' & _ & pend' & Hm' & Hle & Hres). rewrite Hsup, <-Hrest in Hres. destruct Hres as (-> & Hsame & Hrest').
    exists mi', rec'. split; [exact Hnext|]. split; [|done]. split; [congruence|]. split; [done|]. split; [done|]. exists pend'. split; [done|]. split; [done|]. lia.
  - intros mi all rec (Hsup & -> & Hf & pend & Hm & Hrest & Hfp) Hacc. destruct (next_void_spec fuel mi pend rec Hm Hacc Hfp) as (mi' & rec' & err & Hnext & Hsup' & Hacc' & pend' & Hm' & Hle & Hres). rewrite Hsup, <-Hrest in Hres. destruct Hres as (Herr & Hrest').
    exists mi', rec', err. split; [exact Hnext|]. split; [done|]. split; [|done]. split; [congruence|]. split; [done|]. split; [done|]. exists pend'. split; [done|]. rewrite Hrest'. split; [done|]. cbn [length]. lia.
Qed.

End iterator.

(** * Merged tables *)

(** [table_of r]: the records of the table behind a reader. *)
Class TableReaderOk (reader It : Type) `{RecordHeader} `{TableReader reader It} (typ : Z) (rep : It -> list reftable_record -> list reftable_record -> Prop) (table_of : reader -> list reftable_record) : Prop := {
  reader_init_iter_spec r : exists it rest, reader_init_iter r typ = Ret it /\ rep it (table_of r) rest;
}.

Section tables.
Context `{ReftableHeaderOk} `{RecordHeaderOk} `{PqHeaderOk} `{MergedHeader} (hash_size typ : Z) (junk : pq_entry).
Context {It reader : Type} `{!IteratorVtable It} {rep : It -> list reftable_record -> list reftable_record -> Prop} `{!IteratorOk It typ rep} `{!TableReader reader It} {table_of : reader -> list reftable_record} `{!TableReaderOk reader It typ rep table_of}.
Hypothesis (Hmem : memory_enough).
Implicit Types (mt : reftable_merged_table reader).

(** The ascending list of what is found under every key. *)
Lemma merged_records_spec tables : StronglySorted rec_lt (merged_records tables) /\ forall r, r ∈ merged_records tables <-> newest (rec_key r) tables = Some r.
Proof.
  split; [apply merged_sorted|]. intros r. rewrite <-merged_lookup. split; [|by intros [Hr _]%lookup_key_Some]. pose proof (merged_sorted tables) as Hs. revert Hs. generalize (merged_records tables). intros l Hs Hr.
  induction Hs as [|e l Hs IH He]; [inversion Hr|]. cbn [lookup_key]. apply elem_of_cons in Hr as [->|Hr]; [by rewrite bytes_cmp_self|]. rewrite Forall_forall in He. specialize (He r Hr). unfold rec_lt in He.
  rewrite (proj2 (Z.eqb_neq _ _)) by lia. by apply IH.
Qed.

(** What the loop has seen of the first readers. *)
Lemma merged_table_new_spec (readers : list reader) hash_id :
  if forallb (fun r => reftable_reader_hash_id r =? hash_id) readers then
    exists min max, reftable_merged_table_new readers hash_id = Ret (MergedTable readers hash_id false min max) /\
      match readers with
      | [] => min = 0 /\ max = 0
      | _ => min ∈ (reftable_reader_min_update_index <$> readers) /\ max ∈ (reftable_reader_max_update_index <$> readers) /\
          Forall (fun r => min <= reftable_reader_min_update_index r /\ reftable_reader_max_update_index r <= max) readers
      end
  else reftable_merged_table_new readers hash_id = Err Error.
Proof.
  set (good := fun l : list reader => forallb (fun r => reftable_reader_hash_id r =? hash_id) l).
  set (seen := fun (l : list reader) (st : Z * Z) => match l with [] => st = (0, 0) | _ => st.1 ∈ (reftable_reader_min_update_index <$> l) /\ st.2 ∈ (reftable_reader_max_update_index <$> l) /\
          Forall (fun r => st.1 <= reftable_reader_min_update_index r /\ reftable_reader_max_update_index r <= st.2) l end).
  enough (forall rest dn st, readers = dn ++ rest -> seen dn st -> if good rest then exists st', for_n (length rest) (zlen dn) (table_step readers hash_id) st = Ret st' /\ seen readers st' else
      for_n (length rest) (zlen dn) (table_step readers hash_id) st = Err Error) as Hgo.
  { specialize (Hgo readers [] (0, 0) eq_refl eq_refl). fold (good readers). unfold reftable_merged_table_new. rewrite zlen_nil in Hgo. destruct (good readers).
    - destruct Hgo as ([min max] & -> & Hseen). run. rewrite alloc_array_ok by done. run. exists min, max. split; [done|]. unfold seen in Hseen. destruct readers; [by simplify_eq|done].
    - by rewrite Hgo. }
  induction rest as [|r rest IH]; intros dn st Hsplit Hseen; cbn [good forallb].
  { exists st. split; [done|]. by rewrite Hsplit, app_nil_r. }
  assert (table_step readers hash_id (zlen dn) st = if reftable_reader_hash_id r =? hash_id then
      Ret (if (zlen dn =? 0) || (reftable_reader_min_update_index r <? st.1) then reftable_reader_min_update_index r else st.1,
           if (zlen dn =? 0) || (reftable_reader_max_update_index r >? st.2) then reftable_reader_max_update_index r else st.2) else Err Error) as Hstep.
  { unfold table_step. destruct st as [min max]. assert (rd readers (zlen dn) = Ret r) as -> by (rewrite Hsplit; apply rd_lookup; by apply list_lookup_middle). run. by destruct (_ =? hash_id). }
  cbn [length for_n]. rewrite Hstep. destruct (reftable_reader_hash_id r =? hash_id); cbn [andb]; [|done]. run. replace (zlen dn + 1) with (zlen (dn ++ [r])) by (rewrite zlen_app, zlen_cons, zlen_nil; lia).
  apply IH; [by rewrite <-app_assoc|]. destruct dn as [|d dn].
  - cbn [app seen]. rewrite zlen_nil. cbn [Z.eqb orb fst snd]. rewrite !fmap_cons. split; [by left|]. split; [by left|]. repeat constructor; lia.
  - unfold seen in Hseen. destruct st as [min max]. cbn [fst snd] in *. destruct Hseen as (Hmin & Hmax & Hall). unfold seen. cbn [app]. rewrite zlen_cons, (proj2 (Z.eqb_neq _ 0)) by (pose proof (zlen_nonneg dn); lia).
    cbn [orb fst snd]. rewrite Z.gtb_ltb. change (d :: dn ++ [r]) with ((d :: dn) ++ [r]). rewrite !fmap_app, !elem_of_app, Forall_app.
    assert (reftable_reader_min_update_index r ∈ (reftable_reader_min_update_index <$> [r])) by (by left). assert (reftable_reader_max_update_index r ∈ (reftable_reader_max_update_index <$> [r])) by (by left).
    split; [case_if; auto|]. split; [case_if; auto|]. split; [eapply Forall_impl; [exact Hall|]; intros q [? ?]; cbv beta in *|repeat constructor]; repeat case_if; lia.
Qed.

Lemma init_loop mt rec0 : reftable_record_init typ = Ret rec0 -> forall rest dn subs, mt_readers mt = dn ++ rest -> length subs = length dn -> Forall2 (fun r s => ms_rec s = rec0 /\ exists t, rep (ms_iter s) (table_of r) t) dn subs ->
  exists subs', for_n (length rest) (zlen dn) (init_step mt typ) subs = Ret subs' /\ Forall2 (fun r s => ms_rec s = rec0 /\ exists t, rep (ms_iter s) (table_of r) t) (mt_readers mt) subs'.
Proof.
  intros Hrec. induction rest as [|r rest IH]; intros dn subs Hsplit Hlen Hall.
  - exists subs. split; [done|]. by rewrite Hsplit, app_nil_r.
  - destruct (reader_init_iter_spec r) as (it & t & Hinit & Hrep). cbn [length]. rewrite (for_n_next _ _ _ _ (subs ++ [Subiter it rec0])).
    + replace (zlen dn + 1) with (zlen (dn ++ [r])) by (rewrite zlen_app, zlen_cons, zlen_nil; lia). apply IH; [by rewrite <-app_assoc|rewrite !length_app; cbn [length]; lia|]. apply Forall2_app; [done|]. constructor; [|done]. split; [done|]. by exists t.
    + unfold init_step. rewrite Hrec. run. assert (rd (mt_readers mt) (zlen dn) = Ret r) as -> by (rewrite Hsplit; apply rd_lookup; by apply list_lookup_middle). run. by rewrite Hinit.
Qed.

(** A new iterator reads nothing before it is sought. *)
Lemma merged_table_init_spec mt rec0 : reftable_record_init typ = Ret rec0 -> accepts typ rec0 ->
  exists mi, merged_table_init_iter mt typ = Ret mi /\ mi_suppress_deletions mi = mt_suppress_deletions mt /\ merged_inv typ (rep := rep) (table_of <$> mt_readers mt) mi ((fun _ => []) <$> mt_readers mt).
Proof.
  intros Hrec Hacc. destruct (init_loop mt rec0 Hrec (mt_readers mt) [] [] eq_refl eq_refl) as (subs & Hfor & Hall); [done|]. unfold merged_table_init_iter.
  assert ((if tru (zlen (mt_readers mt)) then alloc_array (zlen (mt_readers mt)) sizeof_merged_subiter else Ret tt) = Ret tt) as ->.
  { destruct (tru (zlen (mt_readers mt))) eqn:Et; [|done]. apply alloc_array_ok; [by apply tru_true|done]. }
  run. rewrite zlen_nil in Hfor. rewrite Hfor. run. rewrite alloc_array_ok by done. run. eexists. split; [done|]. split; [done|]. exists []. left. split; [done|].
  pose proof (Forall2_length _ _ _ Hall) as Hlen. split; [|by split; [split; [|exists []]|]|intros i x p _ Hx; by rewrite lookup_nil in Hx]. cbn [mi_subiters]. split; [by rewrite length_fmap|by rewrite length_fmap|constructor|by constructor|].
  intros i s all p Hs Hal Hp. rewrite list_lookup_fmap in Hal, Hp. destruct (mt_readers mt !! i) as [r|] eqn:Er; [|done]. cbn in Hal, Hp. injection Hal as <-. injection Hp as <-.
  rewrite Forall2_lookup in Hall. specialize (Hall i). rewrite Hs, Er in Hall. inversion Hall as [? ? Hpair|]; subst. destruct Hpair as [Hms (t & Hrep)]. split; [by rewrite Hms|]. split; [intros _; apply sublist_nil_l|]. exists t. split; [done|]. right. split; [|done]. intros (e & He & _). inversion He.
Qed.

(** [C36] A merged table reads as its tables laid one over the other: an iterator over
    the table can be made and placed at any key, and the calls of [next] then return,
    in ascending order, for every key from there on exactly one record, that of the
    newest table that has the key, and then report the end.  Deletions hide the
    records of older tables, and are returned themselves unless they are suppressed.
    The queue, the shortcut for the last table and the loops that skip older records
    and deletions stay in bounds and end.  [tables_ok] asks of the tables that each is
    sorted, and that the update indices of any two log entries for one name are less
    than 2^31 apart, because the comparison of log entries goes through an int. *)
Theorem merged_table_reads mt want k rec fuel n :
  tables_ok hash_size typ (table_of <$> mt_readers mt) -> reftable_record_type want = typ -> record_keyed want k -> accepts typ rec ->
  let merged := merged_records (table_of <$> mt_readers mt) in
  (length merged < fuel)%nat -> (length merged < n)%nat ->
  exists mi mi' recs, merged_table_init_iter mt typ = Ret mi /\ merged_iter_seek junk mi want = Ret (mi', 0) /\
    @read_on _ (merged_iter_vtable junk fuel) n mi' rec = Ret recs /\
    Forall2 same_record (live (mt_suppress_deletions mt) (since k merged)) recs.
Proof.
  intros Hok Hty Hk Hacc merged Hfuel Hn. destruct (record_init_accepts typ want Hty) as (rec0 & Hrec0 & Hacc0). destruct (merged_table_init_spec mt rec0 Hrec0 Hacc0) as (mi & Hmi & Hsup & Hinv).
  destruct (merged_seek_spec hash_size typ junk Hmem _ Hok mi _ want k Hinv Hty Hk) as (mi' & Hseek & Hinv' & Hsup'). exists mi, mi'.
  assert (merged_rep (rep := rep) typ (table_of <$> mt_readers mt) (mt_suppress_deletions mt) fuel mi' (live (mt_suppress_deletions mt) merged) (live (mt_suppress_deletions mt) (since k merged))) as Hrep.
  { split; [congruence|]. split; [done|]. split; [done|]. eexists. split; [exact Hinv'|]. rewrite merged_since. split; [done|]. pose proof (sublist_length _ _ (sublist_filter (fun r => 0 <= bytes_cmp (rec_key r) k) merged)). unfold since. fold merged. lia. }
  destruct (@read_on_spec _ _ (merged_iter_vtable junk fuel) typ _ (merged_iter_ok hash_size typ junk Hmem _ Hok (mt_suppress_deletions mt) fuel) mi' _ _ rec n Hrep Hacc) as (recs & Hread & Hsame).
  - rewrite Forall_forall. intros r [_ Hr]%list_elem_of_filter. apply list_elem_of_filter in Hr as [_ Hr]. apply merged_elem in Hr as (t & Ht & Hr). destruct Hok as (Htab & _). rewrite Forall_forall in Htab.
    destruct (Htab t Ht) as [_ Hl]. rewrite Forall_forall in Hl. by destruct (Hl r Hr) as (_ & _ & ?).
  - pose proof (sublist_length _ _ (sublist_filter (fun r => 0 <= bytes_cmp (rec_key r) k) merged)). pose proof (sublist_length _ _ (sublist_filter (fun r => negb (mt_suppress_deletions mt && reftable_record_is_deletion r)) (since k merged))). unfold live, since in *. lia.
  - exists recs. done.
Qed.
End tables.

(** * Witnesses *)

Section witnesses.

#[export] Instance merged_ref : MergedHeader := { sizeof_merged_subiter := 112; sizeof_merged_iter := 64; sizeof_merged_table := 48 }.

Definition ref_to (name : Z) (value : ref_value) : reftable_record := RecRef (RefRecord [name] 0 1 value).

(** The newer table deletes one reference, adds one and changes one. *)
Definition older_table : list reftable_record := [ref_to 97 (RefVal1 [1; 2]); ref_to 98 (RefVal1 [3; 4]); ref_to 100 (RefVal1 [5; 6])].
Definition newer_table : list reftable_record := [ref_to 98 RefDeletion; ref_to 99 (RefVal1 [7; 8]); ref_to 100 (RefVal1 [9; 9])].

(** The two tables in memory. *)
Definition two_tables (newer : bool) : list reftable_record := if newer then newer_table else older_table.

#[local] Instance list_reader : TableReader bool list_iterator := {
  reftable_reader_min_update_index _ := 1; reftable_reader_max_update_index _ := 1; reftable_reader_hash_id _ := 1;
  reader_init_iter r _ := Ret (ListIter (two_tables r) []);
}.

#[local] Instance list_reader_ok : TableReaderOk bool list_iterator BLOCK_TYPE_REF list_rep two_tables.
Proof.
  split. intros r. eexists _, []. split; [done|]. split; [done|]. split; [done|]. split; [|apply sublist_nil_l]. destruct r; repeat constructor.
Qed.

Lemma two_tables_ok : tables_ok 2 BLOCK_TYPE_REF (two_tables <$> [false; true]).
Proof.
  split; [|split; [|done]].
  - repeat constructor; try done; cbn; unfold is_word; lia.
  - intros t t' e f Ht Ht' He Hf. assert (forall t r, t ∈ (two_tables <$> [false; true]) -> r ∈ t -> exists q, r = RecRef q) as Href.
    { intros u r Hu Hr. assert (Forall (Forall (fun r => exists q, r = RecRef q)) (two_tables <$> [false; true])) as Hall by (repeat constructor; by eexists). rewrite Forall_forall in Hall. specialize (Hall u Hu). rewrite Forall_forall in Hall. by apply Hall. }
    destruct (Href t e Ht He) as [? ->], (Href t' f Ht' Hf) as [? ->]. done.
Qed.

(** Seen from the deleted name on, without deletions. *)
Lemma merged_table_reads_witness :
  let mt := MergedTable [false; true] 1 true 1 1 in
  exists mi mi' recs, merged_table_init_iter mt BLOCK_TYPE_REF = Ret mi /\ merged_iter_seek (PqEntry 0 0) mi (ref_to 98 RefDeletion) = Ret (mi', 0) /\
    @read_on _ (merged_iter_vtable (PqEntry 0 0) 5) 5 mi' (ref_to 120 RefDeletion) = Ret recs /\
    Forall2 same_record [ref_to 99 (RefVal1 [7; 8]); ref_to 100 (RefVal1 [9; 9])] recs.
Proof.
  apply (@merged_table_reads reftable_ref reftable_ref_ok record_ref record_ref_ok pq_ref pq_ref_ok merged_ref 2 BLOCK_TYPE_REF (PqEntry 0 0) list_iterator bool list_vtable list_rep _ list_reader two_tables _
    reftable_ref_memory (MergedTable [false; true] 1 true 1 1) (ref_to 98 RefDeletion) [98] (ref_to 120 RefDeletion) 5 5 two_tables_ok).
  - done.
  - done.
  - done.
  - apply Nat.ltb_lt. by vm_compute.
  - apply Nat.ltb_lt. by vm_compute.
Defined.
End witnesses.
