(* ===== verification/XdiffFile.v ===== *)
(** The data of the diff library (xdiff_xdiffi.c, xdiff_xprepare.c): files as arrays of
    records, with an array of marks for the lines that changed; and the sequence of the
    lines without a mark, which a diff leaves alone. *)
From S2P Require Import Prelude.

(** * Data *)

(** [xrecord_t]: a line, with its hash or, once it is classified, its class. *)
Record xrecord := XRecord { rec_line : list Z; rec_ha : Z }.

(** [xdfile_t]: the lines, their marks with a zero before and after them, and the lines
    that the search looks at, with their indices.  [rchg[i]] is at [i + 1]. *)
Record xdfile := XdFile {
  recs : list xrecord;
  dstart : Z;
  dend : Z;
  rchg : list Z;
  rindex : list Z;
  nreff : Z;
  ha : list Z;
}.

Definition nrec (xdf : xdfile) : Z := zlen (recs xdf).
Definition set_rchg (r : list Z) (xdf : xdfile) : xdfile := XdFile (recs xdf) (dstart xdf) (dend xdf) r (rindex xdf) (nreff xdf) (ha xdf).

(** [xdchange_t], in a list instead of linked by [next]. *)
Record xdchange := XdChange { ch_i1 : Z; ch_i2 : Z; ch_chg1 : Z; ch_chg2 : Z; ch_ignore : bool }.

(** What the C files take from headers: the flags, the class of white space and the hash
    of a number to some bits. *)
Class XdiffH := {
  XDF_NEED_MINIMAL : Z;
  XDF_IGNORE_WHITESPACE : Z;
  XDF_IGNORE_WHITESPACE_CHANGE : Z;
  XDF_IGNORE_WHITESPACE_AT_EOL : Z;
  XDF_IGNORE_CR_AT_EOL : Z;
  XDF_WHITESPACE_FLAGS : Z;
  XDF_IGNORE_BLANK_LINES : Z;
  XDF_INDENT_HEURISTIC : Z;
  XDF_PATIENCE_DIFF : Z;
  XDF_HISTOGRAM_DIFF : Z;
  XDF_DIFF_ALGORITHM_MASK : Z;
  XDL_ISSPACE : Z -> bool;
  XDL_HASHLONG : Z -> Z -> Z;
}.

(** The flags are different bits; white space is that of git-compat-util.h; the hash has
    as many bits as asked for. *)
Class XdiffHOk `{XdiffH} : Prop := {
  xdf_whitespace flags : tru (Z.land flags XDF_WHITESPACE_FLAGS) =
    tru (Z.land flags XDF_IGNORE_WHITESPACE) || tru (Z.land flags XDF_IGNORE_WHITESPACE_CHANGE) || tru (Z.land flags XDF_IGNORE_WHITESPACE_AT_EOL) || tru (Z.land flags XDF_IGNORE_CR_AT_EOL);
  xdf_cr_only flags : (Z.land flags XDF_WHITESPACE_FLAGS =? XDF_IGNORE_CR_AT_EOL) =
    negb (tru (Z.land flags XDF_IGNORE_WHITESPACE)) && negb (tru (Z.land flags XDF_IGNORE_WHITESPACE_CHANGE)) && negb (tru (Z.land flags XDF_IGNORE_WHITESPACE_AT_EOL)) && tru (Z.land flags XDF_IGNORE_CR_AT_EOL);
  xdf_algorithms : XDF_PATIENCE_DIFF <> 0 /\ XDF_HISTOGRAM_DIFF <> 0 /\ XDF_PATIENCE_DIFF <> XDF_HISTOGRAM_DIFF;
  xdf_apart f : f ∈ [XDF_IGNORE_WHITESPACE; XDF_IGNORE_WHITESPACE_CHANGE; XDF_IGNORE_WHITESPACE_AT_EOL; XDF_IGNORE_CR_AT_EOL] -> Z.land XDF_DIFF_ALGORITHM_MASK f = 0;
  xdl_isspace_spec c : is_byte c -> XDL_ISSPACE c = bool_decide (c ∈ [9; 10; 13; 32]);
  xdl_hashlong_range v b : 0 <= b -> 0 <= XDL_HASHLONG v b < 2 ^ b;
}.

(** The values of git's xdiff.h and xmacros.h. *)
#[export] Instance xdiff_ref : XdiffH := {
  XDF_NEED_MINIMAL := 2 ^ 0;
  XDF_IGNORE_WHITESPACE := 2 ^ 1;
  XDF_IGNORE_WHITESPACE_CHANGE := 2 ^ 2;
  XDF_IGNORE_WHITESPACE_AT_EOL := 2 ^ 3;
  XDF_IGNORE_CR_AT_EOL := 2 ^ 4;
  XDF_WHITESPACE_FLAGS := 30;
  XDF_IGNORE_BLANK_LINES := 2 ^ 7;
  XDF_INDENT_HEURISTIC := 2 ^ 23;
  XDF_PATIENCE_DIFF := 2 ^ 14;
  XDF_HISTOGRAM_DIFF := 2 ^ 15;
  XDF_DIFF_ALGORITHM_MASK := 2 ^ 14 + 2 ^ 15;
  XDL_ISSPACE c := bool_decide (c ∈ [9; 10; 13; 32]);
  XDL_HASHLONG v b := Z.land (u64 (v + Z.shiftr v b)) (2 ^ b - 1);
}.

Lemma land_pow2 x k : 0 <= k -> tru (Z.land x (2 ^ k)) = Z.testbit x k.
Proof. intros Hk. rewrite <-(Z.mul_1_l (2 ^ k)), <-Z.shiftl_mul_pow2 by done. by apply tru_land_bit. Qed.

#[export] Instance xdiff_ref_ok : XdiffHOk.
Proof.
  assert (forall x, Z.land x 30 = Z.lor (Z.lor (Z.land x (2 ^ 1)) (Z.land x (2 ^ 2))) (Z.lor (Z.land x (2 ^ 3)) (Z.land x (2 ^ 4)))) as Hor by (intros x; by rewrite <-!Z.land_lor_distr_r).
  assert (forall x k, 0 <= k -> Z.land x (2 ^ k) = if Z.testbit x k then 2 ^ k else 0) as Hbit.
  { intros x k Hk. apply Z.bits_inj'. intros i Hi. rewrite Z.land_spec, Z.pow2_bits_eqb by done. destruct (Z.eqb_spec k i) as [->|Hne].
    - rewrite andb_true_r. destruct (Z.testbit x i); [|by rewrite Z.bits_0]. by rewrite Z.pow2_bits_true.
    - rewrite andb_false_r. destruct (Z.testbit x k); [|by rewrite Z.bits_0]. by rewrite Z.pow2_bits_false. }
  split.
  - intros flags. cbn [XDF_IGNORE_WHITESPACE XDF_IGNORE_WHITESPACE_CHANGE XDF_IGNORE_WHITESPACE_AT_EOL XDF_IGNORE_CR_AT_EOL XDF_WHITESPACE_FLAGS xdiff_ref]. rewrite Hor, !Hbit by done.
    by destruct (Z.testbit flags 1), (Z.testbit flags 2), (Z.testbit flags 3), (Z.testbit flags 4).
  - intros flags. cbn [XDF_IGNORE_WHITESPACE XDF_IGNORE_WHITESPACE_CHANGE XDF_IGNORE_WHITESPACE_AT_EOL XDF_IGNORE_CR_AT_EOL XDF_WHITESPACE_FLAGS xdiff_ref]. rewrite Hor, !Hbit by done.
    by destruct (Z.testbit flags 1), (Z.testbit flags 2), (Z.testbit flags 3), (Z.testbit flags 4).
  - done.
  - intros f Hf. rewrite !elem_of_cons in Hf. destruct Hf as [->|[->|[->|[->|Hf]]]]; [done..|by apply elem_of_nil in Hf].
  - done.
  - intros v b Hb. cbn [XDL_HASHLONG xdiff_ref]. rewrite Z.sub_1_r, <-Z.ones_equiv, Z.land_ones by done. apply Z.mod_pos_bound. lia.
Qed.

(** ** Reading arrays *)

Definition getk (l : list Z) (i : Z) : Z := default 0 (l !! Z.to_nat i).

Lemma rd_getk l i : 0 <= i < zlen l -> rd l i = Ret (getk l i).
Proof.
  intros Hi. destruct (lookup_lt_is_Some_2 l (Z.to_nat i)) as [x Hx]; [unfold zlen in Hi; lia|]. unfold getk. rewrite Hx. apply rd_Ret. split; [lia|done].
Qed.

Lemma wr_getk l i v : 0 <= i < zlen l -> exists l', wr l i v = Ret l' /\ zlen l' = zlen l /\ forall j, 0 <= j -> getk l' j = if decide (j = i) then v else getk l j.
Proof.
  intros Hi. rewrite wr_in by done. eexists. split; [done|]. split; [apply zlen_insert|]. intros j Hj. unfold getk. case_decide as Hji.
  - subst j. rewrite list_lookup_insert_eq; [done|]. unfold zlen in Hi. lia.
  - rewrite list_lookup_insert_ne; [done|]. lia.
Qed.

(** * Lines without a mark *)

(** The lines from [lo] to [hi] without a mark, in the order of the file. *)
Definition unmarked {A} (cls : Z -> A) (mark : Z -> Z) (lo hi : Z) : list A := omap (fun i => if mark i =? 0 then Some (cls i) else None) (seqZ lo (hi - lo)).

Section unmarked.
Context {A : Type}.
Implicit Types (cls : Z -> A) (mark : Z -> Z) (lo hi mid : Z).

Lemma unmarked_nil cls mark lo hi : hi <= lo -> unmarked cls mark lo hi = [].
Proof. intros Hle. unfold unmarked. by rewrite seqZ_nil by lia. Qed.

Lemma unmarked_app cls mark lo mid hi : lo <= mid <= hi -> unmarked cls mark lo hi = unmarked cls mark lo mid ++ unmarked cls mark mid hi.
Proof.
  intros Hle. unfold unmarked. replace (hi - lo) with ((mid - lo) + (hi - mid)) by lia. rewrite seqZ_app, omap_app by lia. by replace (lo + (mid - lo)) with mid by lia.
Qed.

Lemma unmarked_cons cls mark lo hi : lo < hi -> unmarked cls mark lo hi = (if mark lo =? 0 then [cls lo] else []) ++ unmarked cls mark (lo + 1) hi.
Proof.
  intros Hlt. rewrite (unmarked_app cls mark lo (lo + 1) hi) by lia. f_equal. unfold unmarked. replace (lo + 1 - lo) with 1 by lia. rewrite seqZ_cons, seqZ_nil by lia. cbn. by destruct (mark lo =? 0).
Qed.

Lemma unmarked_snoc cls mark lo hi : lo < hi -> unmarked cls mark lo hi = unmarked cls mark lo (hi - 1) ++ (if mark (hi - 1) =? 0 then [cls (hi - 1)] else []).
Proof.
  intros Hlt. rewrite (unmarked_app cls mark lo (hi - 1) hi) by lia. rewrite (unmarked_cons cls mark (hi - 1) hi) by lia. by rewrite (unmarked_nil _ _ (hi - 1 + 1)), app_nil_r by lia.
Qed.

(** Lines that agree one by one. *)
Lemma unmarked_same cls cls' mark mark' n : forall lo lo', (forall i, 0 <= i < n -> cls (lo + i) = cls' (lo' + i) /\ mark (lo + i) = mark' (lo' + i)) ->
  unmarked cls mark lo (lo + n) = unmarked cls' mark' lo' (lo' + n).
Proof.
  remember (Z.to_nat n) as k eqn:Hk. revert n Hk. induction k as [|k IH]; intros n Hk lo lo' Hx; [by rewrite !unmarked_nil by lia|].
  rewrite (unmarked_cons cls mark), (unmarked_cons cls' mark') by lia. destruct (Hx 0 ltac:(lia)) as [Hc Hm]. rewrite !Z.add_0_r in Hc, Hm. rewrite Hc, Hm. f_equal.
  specialize (IH (n - 1) ltac:(lia) (lo + 1) (lo' + 1)). replace (lo + 1 + (n - 1)) with (lo + n) in IH by lia. replace (lo' + 1 + (n - 1)) with (lo' + n) in IH by lia. apply IH.
  intros i Hi. specialize (Hx (1 + i) ltac:(lia)). by rewrite !Z.add_assoc in Hx.
Qed.

Lemma unmarked_ext cls cls' mark mark' lo hi : (forall i, lo <= i < hi -> cls i = cls' i /\ mark i = mark' i) -> unmarked cls mark lo hi = unmarked cls' mark' lo hi.
Proof. intros Hx. replace hi with (lo + (hi - lo)) by lia. apply unmarked_same. intros i Hi. apply Hx. lia. Qed.

Lemma unmarked_none cls mark lo hi : (forall i, lo <= i < hi -> mark i <> 0) -> unmarked cls mark lo hi = [].
Proof.
  intros Hx. unfold unmarked. assert (forall i, In i (seqZ lo (hi - lo)) -> mark i <> 0) as Hin by (intros i Hi; apply list_elem_of_In, elem_of_seqZ in Hi; apply Hx; lia).
  induction (seqZ lo (hi - lo)) as [|i l IH]; [done|]. cbn. destruct (Z.eqb_spec (mark i) 0) as [Hm|]; [by destruct (Hin i (or_introl eq_refl))|]. apply IH. intros j Hj. apply Hin. by right.
Qed.

(** One line without a mark. *)
Lemma unmarked_solo cls mark lo hi p : lo <= p < hi -> mark p = 0 -> (forall i, lo <= i < hi -> i <> p -> mark i <> 0) -> unmarked cls mark lo hi = [cls p].
Proof.
  intros Hp Hm Hx. rewrite (unmarked_app _ _ lo p hi), (unmarked_cons _ _ p hi), Hm by lia. rewrite !unmarked_none; [done|..]; intros i Hi; apply Hx; lia.
Qed.

End unmarked.

Section count.
Implicit Types (mark : Z -> Z) (lo hi : Z).

(** How many lines before [i] have no mark. *)
Definition cnt mark (i : Z) : Z := zlen (unmarked id mark 0 i).

Lemma unmarked_fmap {A} (cls : Z -> A) mark lo hi : unmarked cls mark lo hi = cls <$> unmarked id mark lo hi.
Proof. unfold unmarked. rewrite list_fmap_omap. apply list_omap_ext, Forall_Forall2_diag, Forall_true. intros i. by destruct (mark i =? 0). Qed.

Lemma unmarked_len {A} (cls : Z -> A) mark i : zlen (unmarked cls mark 0 i) = cnt mark i.
Proof. rewrite unmarked_fmap. unfold cnt, zlen. by rewrite length_fmap. Qed.

Lemma cnt_0 mark : cnt mark 0 = 0.
Proof. unfold cnt. by rewrite unmarked_nil. Qed.

Lemma cnt_next mark i : 0 <= i -> cnt mark (i + 1) = cnt mark i + if mark i =? 0 then 1 else 0.
Proof. intros Hi. unfold cnt. rewrite (unmarked_snoc _ _ 0 (i + 1)), zlen_app by lia. replace (i + 1 - 1) with i by lia. by destruct (mark i =? 0). Qed.

Lemma cnt_run mark i j : 0 <= i <= j -> (forall k, i <= k < j -> mark k <> 0) -> cnt mark j = cnt mark i.
Proof. intros Hi Hx. unfold cnt. by rewrite (unmarked_app _ _ 0 i j), (unmarked_none _ _ i j), app_nil_r by (done || lia). Qed.

Lemma cnt_mono mark i j : 0 <= i <= j -> cnt mark i <= cnt mark j <= cnt mark i + (j - i).
Proof.
  intros Hi. remember (Z.to_nat (j - i)) as k eqn:Hk. revert j Hi Hk. induction k as [|k IH]; intros j Hi Hk; [assert (j = i) as -> by lia; lia|].
  specialize (IH (j - 1) ltac:(lia) ltac:(lia)). pose proof (cnt_next mark (j - 1) ltac:(lia)) as Hn. replace (j - 1 + 1) with j in Hn by lia. destruct (mark (j - 1) =? 0); lia.
Qed.

Lemma cnt_none mark i : 0 <= i -> (forall j, 0 <= j < i -> mark j = 0) -> cnt mark i = i.
Proof.
  intros Hi Hx. remember (Z.to_nat i) as k eqn:Hk. revert i Hi Hx Hk. induction k as [|k IH]; intros i Hi Hx Hk; [assert (i = 0) as -> by lia; apply cnt_0|].
  replace i with (i - 1 + 1) at 1 by lia. rewrite cnt_next, (Hx (i - 1)), IH by (lia || (intros j Hj; apply Hx; lia)). cbn. lia.
Qed.

Lemma cnt_full mark i : cnt mark i = i -> forall j, 0 <= j < i -> mark j = 0.
Proof.
  intros Hc j Hj. destruct (Z.eq_dec (mark j) 0) as [|Hne]; [done|]. pose proof (cnt_mono mark 0 j ltac:(lia)) as H1. pose proof (cnt_next mark j ltac:(lia)) as H2. pose proof (cnt_mono mark (j + 1) i ltac:(lia)) as H3.
  rewrite cnt_0 in H1. rewrite (proj2 (Z.eqb_neq _ _) Hne) in H2. lia.
Qed.

Lemma cnt_ext mark mark' i : (forall j, 0 <= j < i -> mark j = mark' j) -> cnt mark i = cnt mark' i.
Proof. intros Hx. unfold cnt. f_equal. apply unmarked_ext. intros j Hj. split; [done|by apply Hx]. Qed.
(** Classes that say no less. *)
Lemma unmarked_transfer {A B} (c1 c2 : Z -> A) (d1 d2 : Z -> B) (m1 m2 : Z -> Z) n1 n2 : (forall i j, 0 <= i < n1 -> 0 <= j < n2 -> c1 i = c2 j -> d1 i = d2 j) -> unmarked c1 m1 0 n1 = unmarked c2 m2 0 n2 -> unmarked d1 m1 0 n1 = unmarked d2 m2 0 n2.
Proof.
  intros Himp. rewrite (unmarked_fmap c1), (unmarked_fmap c2), (unmarked_fmap d1), (unmarked_fmap d2).
  assert (forall m n, Forall (fun i => 0 <= i < n) (unmarked id m 0 n)) as Hin.
  { intros m n. unfold unmarked. apply Forall_forall. intros i Hi. apply list_elem_of_omap in Hi as (j & Hj & Hji). apply elem_of_seqZ in Hj. destruct (m j =? 0); [|done]. injection Hji as <-. unfold id. lia. }
  pose proof (Hin m1 n1) as H1. pose proof (Hin m2 n2) as H2. generalize dependent (unmarked id m2 0 n2). induction (unmarked id m1 0 n1) as [|i l IH]; intros [|j l'] H2 Heq; try done.
  rewrite !fmap_cons in *. injection Heq as Hc Heq. apply Forall_cons in H1 as [Hi H1]. apply Forall_cons in H2 as [Hj H2]. f_equal; [by apply Himp|by apply IH].
Qed.
End count.

(** ** The marks of a file *)

Definition classes (xdf : xdfile) : list Z := rec_ha <$> recs xdf.
Definition cls (xdf : xdfile) (i : Z) : Z := getk (classes xdf) i.
Definition mark (xdf : xdfile) (i : Z) : Z := getk (rchg xdf) (i + 1).

(** There is a mark for every line, and a zero at both ends. *)
Record file_ok (xdf : xdfile) : Prop := {
  file_len : zlen (rchg xdf) = nrec xdf + 2;
  file_first : mark xdf (-1) = 0;
  file_last : mark xdf (nrec xdf) = 0;
}.

(** The classes of the lines without a mark. *)
Definition rest (xdf : xdfile) : list Z := unmarked (cls xdf) (mark xdf) 0 (nrec xdf).

Lemma rd_rec xdf i : 0 <= i < nrec xdf -> exists r, rd (recs xdf) i = Ret r /\ recs xdf !! Z.to_nat i = Some r /\ rec_ha r = cls xdf i.
Proof.
  intros Hi. destruct (rd_in (recs xdf) i) as [r Hr]; [done|]. exists r. split; [done|]. apply rd_Ret in Hr as [_ Hr]. split; [done|]. unfold cls, getk, classes. by rewrite list_lookup_fmap, Hr.
Qed.

Lemma rd_mark xdf i : file_ok xdf -> -1 <= i <= nrec xdf -> rd (rchg xdf) (i + 1) = Ret (mark xdf i).
Proof. intros [Hl _ _] Hi. apply rd_getk. lia. Qed.

Lemma wr_mark xdf i v : file_ok xdf -> 0 <= i < nrec xdf -> exists r, wr (rchg xdf) (i + 1) v = Ret r /\ file_ok (set_rchg r xdf) /\ forall j, -1 <= j -> mark (set_rchg r xdf) j = if decide (j = i) then v else mark xdf j.
Proof.
  intros [Hl H1 H2] Hi. destruct (wr_getk (rchg xdf) (i + 1) v) as (r & Hr & Hlr & Hg); [lia|]. exists r. split; [done|].
  assert (forall j, -1 <= j -> mark (set_rchg r xdf) j = if decide (j = i) then v else mark xdf j) as Hm.
  { intros j Hj. unfold mark, set_rchg. cbn [rchg]. rewrite Hg by lia. do 2 case_decide; try lia; done. }
  split; [|done]. split; unfold nrec in *; cbn [recs set_rchg] in *; [cbn [rchg set_rchg]; lia| |]; (rewrite Hm by (pose proof (zlen_nonneg (recs xdf)); lia)); (rewrite decide_False by lia); done.
Qed.

(** How many lines have no mark. *)
Definition total (xdf : xdfile) : Z := cnt (mark xdf) (nrec xdf).

Lemma nrec_set_rchg r xdf : nrec (set_rchg r xdf) = nrec xdf.
Proof. done. Qed.

Lemma cls_set_rchg r xdf : cls (set_rchg r xdf) = cls xdf.
Proof. done. Qed.

