(* ===== verification/XdiffUtils.v ===== *)
(** xdiff_xutils.c: the hash of a line and whether two lines match, under the flags that
    ignore white space, against a normal form of lines; and numbers in decimal. *)
From S2P Require Import Prelude StrbufLines XdiffFile.

(** * Model *)

(** [xdl_bogosqrt]; a [long] has at most 32 pairs of bits. *)
Definition bogosqrt_step (st : Z * Z) : outcome ((Z * Z) + Z) :=
  let '(i, n) := st in
  if n >? 0 then Ret (inl (Z.shiftl i 1, Z.shiftr n 2)) else Ret (inr i).

Definition xdl_bogosqrt (n : Z) : outcome Z := loop 33 bogosqrt_step (1, n).

(** [xdl_hashbits] *)
Definition hashbits_step (size : Z) (st : Z * Z) : outcome ((Z * Z) + Z) :=
  let '(val, bits) := st in
  if (val <? size) && (bits <? 32) then Ret (inl (u32 (Z.shiftl val 1), bits + 1)) else Ret (inr bits).

Definition xdl_hashbits (size : Z) : outcome Z :=
  bits ← loop 34 (hashbits_step size) (1, 0);
  Ret (if tru bits then bits else 1).

(** One round of the loop in [xdl_guess_lines] on [nl] and [cur]. *)
Definition guess_step (mf : list Z) (sample : Z) (st : Z * Z) : outcome ((Z * Z) + (Z * Z)) :=
  let '(nl, cur) := st in
  if negb ((nl <? sample) && (cur <? zlen mf)) then Ret (inr (nl, cur)) else
  Ret (inl (nl + 1, match memchr (drop (Z.to_nat cur) mf) 10 (zlen mf - cur) with None => zlen mf | Some k => cur + k + 1 end)).

Definition xdl_guess_lines (mf : list Z) (sample : Z) : outcome Z :=
  '(nl, tsize) ← loop (S (length mf)) (guess_step mf sample) (0, 0);
  if tru nl && tru tsize then
    let per_line := Z.quot tsize nl in
    if per_line =? 0 then Undef else Ret (Z.quot (zlen mf) per_line + 1)
  else Ret (nl + 1).

Section model.
Context `{XdiffH}.

Definition flag (flags f : Z) : bool := tru (Z.land flags f).

(** [while (i < s && XDL_ISSPACE(l[i])) i++;] *)
Definition skip_step (l : list Z) (i : Z) : outcome (Z + Z) :=
  if negb (i <? zlen l) then Ret (inr i) else
  c ← rd l i;
  Ret (if XDL_ISSPACE c then inl (i + 1) else inr i).

Definition skip_space (l : list Z) (i : Z) : outcome Z := loop (S (Z.to_nat (zlen l - i))) (skip_step l) i.

Definition xdl_blankline (line : list Z) (flags : Z) : outcome bool :=
  if negb (flag flags XDF_WHITESPACE_FLAGS) then Ret (zlen line <=? 1) else
  i ← skip_space line 0;
  Ret (i =? zlen line).

Definition ends_with_optional_cr (l : list Z) (i : Z) : outcome bool :=
  let s := zlen l in
  complete ← (if tru s then c ← rd l (s - 1); Ret (c =? 10) else Ret false);
  let s := if (complete : bool) then s - 1 else s in
  if s =? i then Ret true else
  if complete && (s =? i + 1) then c ← rd l i; Ret (c =? 13) else Ret false.

(** One round of the loop for [-w], for [-b], and for the flags on the end of a line, on
    [i1] and [i2]; [None] is a difference. *)
Definition w_step (l1 l2 : list Z) (st : Z * Z) : outcome ((Z * Z) + option (Z * Z)) :=
  let '(i1, i2) := st in
  if negb ((i1 <? zlen l1) && (i2 <? zlen l2)) then Ret (inr (Some (i1, i2))) else
  x ← rd l1 i1;
  y ← rd l2 i2;
  if negb (x =? y) then Ret (inr None) else
  i1 ← skip_space l1 (i1 + 1);
  i2 ← skip_space l2 (i2 + 1);
  Ret (inl (i1, i2)).

Definition b_step (l1 l2 : list Z) (st : Z * Z) : outcome ((Z * Z) + option (Z * Z)) :=
  let '(i1, i2) := st in
  if negb ((i1 <? zlen l1) && (i2 <? zlen l2)) then Ret (inr (Some (i1, i2))) else
  x ← rd l1 i1;
  y ← rd l2 i2;
  if XDL_ISSPACE x && XDL_ISSPACE y then
    i1 ← skip_space l1 i1;
    i2 ← skip_space l2 i2;
    Ret (inl (i1, i2))
  else if negb (x =? y) then Ret (inr None) else
  Ret (inl (i1 + 1, i2 + 1)).

Definition eol_step (l1 l2 : list Z) (st : Z * Z) : outcome ((Z * Z) + (Z * Z)) :=
  let '(i1, i2) := st in
  if negb ((i1 <? zlen l1) && (i2 <? zlen l2)) then Ret (inr (i1, i2)) else
  x ← rd l1 i1;
  y ← rd l2 i2;
  Ret (if x =? y then inl (i1 + 1, i2 + 1) else inr (i1, i2)).

(** The remaining side must have nothing but white space. *)
Definition rest_matches (l1 l2 : list Z) (i1 i2 : Z) : outcome bool :=
  ok ← (if i1 <? zlen l1 then i1 ← skip_space l1 i1; Ret (zlen l1 =? i1) else Ret true);
  if negb (ok : bool) then Ret false else
  if i2 <? zlen l2 then i2 ← skip_space l2 i2; Ret (zlen l2 =? i2) else Ret true.

Definition xdl_recmatch (l1 l2 : list Z) (flags : Z) : outcome bool :=
  if bool_decide (l1 = l2) then Ret true else
  if negb (flag flags XDF_WHITESPACE_FLAGS) then Ret false else
  let fuel := S (length l1 + length l2) in
  if flag flags XDF_IGNORE_WHITESPACE then
    i1 ← skip_space l1 0;
    i2 ← skip_space l2 0;
    r ← loop fuel (w_step l1 l2) (i1, i2);
    match r with None => Ret false | Some (i1, i2) => rest_matches l1 l2 i1 i2 end
  else if flag flags XDF_IGNORE_WHITESPACE_CHANGE then
    r ← loop fuel (b_step l1 l2) (0, 0);
    match r with None => Ret false | Some (i1, i2) => rest_matches l1 l2 i1 i2 end
  else if flag flags XDF_IGNORE_WHITESPACE_AT_EOL then
    '(i1, i2) ← loop fuel (eol_step l1 l2) (0, 0);
    rest_matches l1 l2 i1 i2
  else if flag flags XDF_IGNORE_CR_AT_EOL then
    '(i1, i2) ← loop fuel (eol_step l1 l2) (0, 0);
    b1 ← ends_with_optional_cr l1 i1;
    if (b1 : bool) then ends_with_optional_cr l2 i2 else Ret false
  else rest_matches l1 l2 0 0.

(** [ha += (ha << 5); ha ^= (unsigned long) c;] for a [char] *)
Definition hash_add (ha c : Z) : Z := Z.lxor (u64 (ha + u64 (Z.shiftl ha 5))) (u64 (s8 c)).

(** [ptr + 1 < top && XDL_ISSPACE(ptr[1]) && ptr[1] != '\n'] *)
Definition run_step (data : list Z) (ptr : Z) : outcome (Z + Z) :=
  if negb (ptr + 1 <? zlen data) then Ret (inr ptr) else
  c ← rd data (ptr + 1);
  Ret (if XDL_ISSPACE c && negb (c =? 10) then inl (ptr + 1) else inr ptr).

(** One round of the loops of the two hash functions, on [ptr] and [ha]. *)
Definition ws_hash_step (data : list Z) (flags : Z) (st : Z * Z) : outcome ((Z * Z) + (Z * Z)) :=
  let '(ptr, ha) := st in
  let cr_at_eol_only := Z.land flags XDF_WHITESPACE_FLAGS =? XDF_IGNORE_CR_AT_EOL in
  if negb (ptr <? zlen data) then Ret (inr (ptr, ha)) else
  c ← rd data ptr;
  if c =? 10 then Ret (inr (ptr, ha)) else
  if cr_at_eol_only then
    skip ← (if (c =? 13) && (ptr + 1 <? zlen data) then x ← rd data (ptr + 1); Ret (x =? 10) else Ret false);
    Ret (inl (ptr + 1, if (skip : bool) then ha else hash_add ha c))
  else if XDL_ISSPACE c then
    let ptr2 := ptr in
    ptr ← loop (S (Z.to_nat (zlen data - ptr))) (run_step data) ptr;
    at_eol ← (if zlen data <=? ptr + 1 then Ret true else x ← rd data (ptr + 1); Ret (x =? 10));
    ha ← (if flag flags XDF_IGNORE_WHITESPACE then Ret ha
          else if flag flags XDF_IGNORE_WHITESPACE_CHANGE && negb at_eol then Ret (hash_add ha 32)
          else if flag flags XDF_IGNORE_WHITESPACE_AT_EOL && negb at_eol then
            for_n (Z.to_nat (ptr + 1 - ptr2)) ptr2 (fun i ha => c ← rd data i; Ret (hash_add ha c)) ha
          else Ret ha);
    Ret (inl (ptr + 1, ha))
  else Ret (inl (ptr + 1, hash_add ha c)).

Definition hash_step (data : list Z) (st : Z * Z) : outcome ((Z * Z) + (Z * Z)) :=
  let '(ptr, ha) := st in
  if negb (ptr <? zlen data) then Ret (inr (ptr, ha)) else
  c ← rd data ptr;
  Ret (if c =? 10 then inr (ptr, ha) else inl (ptr + 1, hash_add ha c)).

(** The hash and the start of the next line. *)
Definition xdl_hash_record_with_whitespace (data : list Z) (ptr flags : Z) : outcome (Z * Z) :=
  '(ptr, ha) ← loop (S (Z.to_nat (zlen data - ptr))) (ws_hash_step data flags) (ptr, 5381);
  Ret (ha, if ptr <? zlen data then ptr + 1 else ptr).

Definition xdl_hash_record (data : list Z) (ptr flags : Z) : outcome (Z * Z) :=
  if flag flags XDF_WHITESPACE_FLAGS then xdl_hash_record_with_whitespace data ptr flags else
  '(ptr, ha) ← loop (S (Z.to_nat (zlen data - ptr))) (hash_step data) (ptr, 5381);
  Ret (ha, if ptr <? zlen data then ptr + 1 else ptr).
End model.

(** * The normal form of lines *)

Section normal.
Context `{XdiffHOk}.
Implicit Types (l t : list Z) (flags : Z).

(** Every run of white space as one space, and none at the end; [pending] after a run. *)
Fixpoint squeeze (pending : bool) (l : list Z) : list Z :=
  match l with
  | [] => []
  | c :: l => if XDL_ISSPACE c then squeeze true l else (if pending then [32] else []) ++ c :: squeeze false l
  end.

(** Without the newline, and without the carriage return before it. *)
Definition chomp (l : list Z) : list Z := if bool_decide (last l = Some 10) then removelast l else l.
Definition chomp_cr (l : list Z) : list Z :=
  if bool_decide (last l = Some 10) then let l := removelast l in if bool_decide (last l = Some 13) then removelast l else l else l.

(** What of a line counts. *)
Definition normal flags (l : list Z) : list Z :=
  if flag flags XDF_IGNORE_WHITESPACE then List.filter (fun c => negb (XDL_ISSPACE c)) l
  else if flag flags XDF_IGNORE_WHITESPACE_CHANGE then squeeze false l
  else if flag flags XDF_IGNORE_WHITESPACE_AT_EOL then trim_end XDL_ISSPACE l
  else if flag flags XDF_IGNORE_CR_AT_EOL then chomp_cr l
  else chomp l.

Lemma isspace_newline : XDL_ISSPACE 10 = true.
Proof. by rewrite xdl_isspace_spec. Qed.

Lemma isspace_blank : XDL_ISSPACE 32 = true.
Proof. by rewrite xdl_isspace_spec. Qed.

(** ** Skipping white space *)

Lemma skip_loop l : forall t i k, at_pos l i t -> (length t < k)%nat ->
  exists j, loop k (skip_step l) i = Ret j /\ at_pos l j (drop_while XDL_ISSPACE t).
Proof.
  induction t as [|c t IH]; intros i k Hat Hk; (destruct k as [|k]; [lia|]); pose proof (at_pos_len _ _ _ Hat) as Hlen.
  - rewrite zlen_nil in Hlen. exists i. split; [|done]. apply loop_stop. unfold skip_step. destruct (Z.ltb_spec i (zlen l)); [lia|done].
  - rewrite zlen_cons in Hlen. pose proof (zlen_nonneg t). destruct (at_pos_cons _ _ _ _ Hat) as [Hrd Hat'].
    assert (skip_step l i = Ret (if XDL_ISSPACE c then inl (i + 1) else inr i)) as Hstep by (unfold skip_step; rewrite Hrd; destruct (Z.ltb_spec i (zlen l)); [done|lia]).
    cbn [drop_while]. destruct (XDL_ISSPACE c).
    + rewrite (loop_next _ _ _ _ Hstep). apply IH; [done|cbn [length] in Hk; lia].
    + rewrite (loop_stop _ _ _ _ Hstep). by exists i.
Qed.

Lemma skip_blanks_spec l i t : at_pos l i t -> exists j, skip_space l i = Ret j /\ at_pos l j (drop_while XDL_ISSPACE t).
Proof. intros Hat. apply skip_loop; [done|]. pose proof (at_pos_len _ _ _ Hat). unfold zlen in *. lia. Qed.

Lemma at_pos_end {A} (l : list A) i (t : list A) `{!Decision (t = [])} : at_pos l i t -> (i <? zlen l) = negb (bool_decide (t = [])).
Proof.
  intros Hat. apply at_pos_len in Hat. destruct t as [|x t]; [rewrite zlen_nil in Hat|rewrite zlen_cons in Hat; pose proof (zlen_nonneg t)].
  - rewrite bool_decide_true by done. apply Z.ltb_ge. lia.
  - rewrite bool_decide_false by done. apply Z.ltb_lt. lia.
Qed.

Lemma at_pos_done {A} (l : list A) i (t : list A) `{!Decision (t = [])} : at_pos l i t -> (i =? zlen l) = bool_decide (t = []).
Proof.
  intros Hat. pose proof (at_pos_end _ _ _ Hat) as He. apply at_pos_nonneg in Hat. destruct (bool_decide (t = [])); cbn [negb] in He.
  - apply Z.ltb_ge in He. apply Z.eqb_eq. lia.
  - apply Z.ltb_lt in He. apply Z.eqb_neq. lia.
Qed.

Definition blank (t : list Z) : bool := bool_decide (drop_while XDL_ISSPACE t = []).

Lemma rest_spec l1 l2 i1 i2 t1 t2 : at_pos l1 i1 t1 -> at_pos l2 i2 t2 -> rest_matches l1 l2 i1 i2 = Ret (blank t1 && blank t2).
Proof.
  intros H1 H2. assert (forall l i t, at_pos l i t -> (if i <? zlen l then i ← skip_space l i; Ret (zlen l =? i) else Ret true) = Ret (blank t)) as Hone.
  { intros l i t Hat. rewrite (at_pos_end _ _ _ Hat). destruct t as [|c t]; [done|]. rewrite bool_decide_false by done. cbn [negb].
    destruct (skip_blanks_spec _ _ _ Hat) as (j & -> & Hat'). run. by rewrite Z.eqb_sym, (at_pos_done _ _ _ Hat'). }
  unfold rest_matches. rewrite (Hone _ _ _ H1). run. destruct (blank t1); cbn [negb andb]; [|done]. by apply Hone.
Qed.

(** ** Lines that match *)

Lemma filter_drop_while l : List.filter (fun c => negb (XDL_ISSPACE c)) (drop_while XDL_ISSPACE l) = List.filter (fun c => negb (XDL_ISSPACE c)) l.
Proof. induction l as [|c l IH]; [done|]. cbn [drop_while List.filter]. destruct (XDL_ISSPACE c) eqn:E; cbn [negb]; [done|]. cbn [List.filter]. by rewrite E. Qed.

Lemma drop_while_idem l : drop_while XDL_ISSPACE (drop_while XDL_ISSPACE l) = drop_while XDL_ISSPACE l.
Proof. induction l as [|c l IH]; [done|]. cbn [drop_while]. destruct (XDL_ISSPACE c) eqn:E; [done|]. cbn [drop_while]. by rewrite E. Qed.

Lemma drop_while_shorter l : (length (drop_while XDL_ISSPACE l) <= length l)%nat.
Proof. induction l as [|c l IH]; [done|]. cbn [drop_while]. destruct (XDL_ISSPACE c); cbn [length]; lia. Qed.

Lemma drop_while_head l c t : drop_while XDL_ISSPACE l = c :: t -> XDL_ISSPACE c = false.
Proof. intros Hl. pose proof (drop_while_idem l) as Hi. rewrite Hl in Hi. cbn [drop_while] in Hi. destruct (XDL_ISSPACE c) eqn:E; [|done]. pose proof (drop_while_shorter t) as Hs. rewrite Hi in Hs. cbn [length] in Hs. lia. Qed.

Definition answer (l1 l2 : list Z) (r : option (Z * Z)) : outcome bool := match r with None => Ret false | Some (i1, i2) => rest_matches l1 l2 i1 i2 end.

Lemma w_loop l1 l2 : forall k i1 i2 t1 t2, at_pos l1 i1 t1 -> at_pos l2 i2 t2 -> (length t1 + length t2 < k)%nat -> drop_while XDL_ISSPACE t1 = t1 -> drop_while XDL_ISSPACE t2 = t2 ->
  (r ← loop k (w_step l1 l2) (i1, i2); answer l1 l2 r) = Ret (bool_decide (List.filter (fun c => negb (XDL_ISSPACE c)) t1 = List.filter (fun c => negb (XDL_ISSPACE c)) t2)).
Proof.
  induction k as [|k IH]; intros i1 i2 t1 t2 H1 H2 Hk Hd1 Hd2; [lia|].
  destruct t1 as [|x t1]; [|destruct t2 as [|y t2]].
  - rewrite (loop_stop _ _ _ (Some (i1, i2))) by (unfold w_step; by rewrite (at_pos_end _ _ _ H1)). run. cbn [answer]. rewrite (rest_spec _ _ _ _ _ _ H1 H2). cbn [blank drop_while List.filter]. f_equal.
    unfold blank. rewrite Hd2. destruct t2 as [|y t2]; [done|]. cbn [List.filter]. rewrite (drop_while_head _ _ _ Hd2). done.
  - rewrite (loop_stop _ _ _ (Some (i1, i2))) by (unfold w_step; rewrite (at_pos_end _ _ _ H2), andb_false_r; done). run. cbn [answer]. rewrite (rest_spec _ _ _ _ _ _ H1 H2). f_equal.
    unfold blank. rewrite Hd1. cbn [List.filter]. rewrite (drop_while_head _ _ _ Hd1). done.
  - destruct (at_pos_cons _ _ _ _ H1) as [Hrd1 H1']. destruct (at_pos_cons _ _ _ _ H2) as [Hrd2 H2'].
    pose proof (drop_while_head _ _ _ Hd1) as Hx. pose proof (drop_while_head _ _ _ Hd2) as Hy.
    assert (w_step l1 l2 (i1, i2) = if negb (x =? y) then Ret (inr None) else i1 ← skip_space l1 (i1 + 1); i2 ← skip_space l2 (i2 + 1); Ret (inl (i1, i2))) as Hstep.
    { unfold w_step. rewrite (at_pos_end _ _ _ H1), (at_pos_end _ _ _ H2). cbn [negb bool_decide andb decide_rel]. by rewrite Hrd1, Hrd2. }
    cbn [List.filter]. rewrite Hx, Hy. cbn [negb]. destruct (Z.eqb_spec x y) as [->|Hne]; cbn [negb] in Hstep.
    + destruct (skip_blanks_spec _ _ _ H1') as (j1 & Hs1 & Hj1). destruct (skip_blanks_spec _ _ _ H2') as (j2 & Hs2 & Hj2). rewrite Hs1 in Hstep. run_in Hstep. rewrite Hs2 in Hstep. run_in Hstep.
      rewrite (loop_next _ _ _ _ Hstep), (IH _ _ _ _ Hj1 Hj2); [|pose proof (drop_while_shorter t1); pose proof (drop_while_shorter t2); cbn [length] in Hk; lia|apply drop_while_idem..].
      rewrite !filter_drop_while. f_equal. apply bool_decide_ext. naive_solver congruence.
    + rewrite (loop_stop _ _ _ _ Hstep). cbn [answer mbind outcome_bind]. rewrite bool_decide_false; [done|]. congruence.
Qed.

(** ** Lines that match but for the amount of white space *)

Lemma squeeze_true t : squeeze true t = if bool_decide (drop_while XDL_ISSPACE t = []) then [] else 32 :: squeeze false (drop_while XDL_ISSPACE t).
Proof. induction t as [|c t IH]; [done|]. cbn [squeeze drop_while]. destruct (XDL_ISSPACE c) eqn:E; [done|]. rewrite bool_decide_false by done. cbn [squeeze]. by rewrite E. Qed.

Lemma squeeze_nil t : squeeze false t = [] <-> drop_while XDL_ISSPACE t = [].
Proof. destruct t as [|c t]; [done|]. cbn [squeeze drop_while]. destruct (XDL_ISSPACE c) eqn:E; [|done]. rewrite squeeze_true. case_bool_decide; naive_solver. Qed.

Lemma b_loop l1 l2 : forall k i1 i2 t1 t2, at_pos l1 i1 t1 -> at_pos l2 i2 t2 -> (length t1 + length t2 < k)%nat ->
  (r ← loop k (b_step l1 l2) (i1, i2); answer l1 l2 r) = Ret (bool_decide (squeeze false t1 = squeeze false t2)).
Proof.
  induction k as [|k IH]; intros i1 i2 t1 t2 H1 H2 Hk; [lia|].
  destruct t1 as [|x t1]; [|destruct t2 as [|y t2]].
  - rewrite (loop_stop _ _ _ (Some (i1, i2))) by (unfold b_step; by rewrite (at_pos_end _ _ _ H1)). run. cbn [answer]. rewrite (rest_spec _ _ _ _ _ _ H1 H2). cbn [blank drop_while squeeze andb]. f_equal.
    apply bool_decide_ext. rewrite <-squeeze_nil. naive_solver.
  - rewrite (loop_stop _ _ _ (Some (i1, i2))) by (unfold b_step; rewrite (at_pos_end _ _ _ H2), andb_false_r; done). run. cbn [answer]. rewrite (rest_spec _ _ _ _ _ _ H1 H2). f_equal.
    rewrite andb_true_r. apply bool_decide_ext. by rewrite <-squeeze_nil.
  - destruct (at_pos_cons _ _ _ _ H1) as [Hrd1 H1']. destruct (at_pos_cons _ _ _ _ H2) as [Hrd2 H2'].
    assert (b_step l1 l2 (i1, i2) = if XDL_ISSPACE x && XDL_ISSPACE y then i1 ← skip_space l1 i1; i2 ← skip_space l2 i2; Ret (inl (i1, i2)) else if negb (x =? y) then Ret (inr None) else Ret (inl (i1 + 1, i2 + 1))) as Hstep.
    { unfold b_step. rewrite (at_pos_end _ _ _ H1), (at_pos_end _ _ _ H2). cbn [negb bool_decide andb decide_rel]. by rewrite Hrd1, Hrd2. }
    cbn [length] in Hk. cbn [squeeze app]. destruct (XDL_ISSPACE x) eqn:Ex, (XDL_ISSPACE y) eqn:Ey; cbn [andb] in Hstep.
    + destruct (skip_blanks_spec _ _ _ H1) as (j1 & Hs1 & Hj1). destruct (skip_blanks_spec _ _ _ H2) as (j2 & Hs2 & Hj2). rewrite Hs1 in Hstep. run_in Hstep. rewrite Hs2 in Hstep. run_in Hstep. cbn [drop_while] in Hj1, Hj2. rewrite Ex in Hj1. rewrite Ey in Hj2.
      pose proof (drop_while_shorter t1). pose proof (drop_while_shorter t2). rewrite (loop_next _ _ _ _ Hstep), (IH _ _ _ _ Hj1 Hj2) by lia. f_equal. apply bool_decide_ext. rewrite !squeeze_true.
      pose proof (squeeze_nil (drop_while XDL_ISSPACE t1)) as Hn1. pose proof (squeeze_nil (drop_while XDL_ISSPACE t2)) as Hn2. rewrite drop_while_idem in Hn1, Hn2.
      case_bool_decide as Hb1; case_bool_decide as Hb2; [by rewrite Hb1, Hb2| | |split; congruence].
      * rewrite Hb1. split; [|done]. intros Heq. cbn [squeeze] in Heq. symmetry in Heq. by apply Hn2 in Heq.
      * rewrite Hb2. split; [|done]. intros Heq. cbn [squeeze] in Heq. by apply Hn1 in Heq.
    + assert (x <> y) as Hne by congruence. rewrite (proj2 (Z.eqb_neq x y) Hne) in Hstep. rewrite (loop_stop _ _ _ _ Hstep). cbn [answer mbind outcome_bind]. rewrite bool_decide_false; [done|].
      rewrite squeeze_true. case_bool_decide; [done|]. intros [= <- _]. by rewrite isspace_blank in Ey.
    + assert (x <> y) as Hne by congruence. rewrite (proj2 (Z.eqb_neq x y) Hne) in Hstep. rewrite (loop_stop _ _ _ _ Hstep). cbn [answer mbind outcome_bind]. rewrite bool_decide_false; [done|].
      rewrite squeeze_true. case_bool_decide; [done|]. intros [= -> _]. by rewrite isspace_blank in Ex.
    + destruct (Z.eqb_spec x y) as [->|Hne]; cbn [negb] in Hstep.
      * rewrite (loop_next _ _ _ _ Hstep), (IH _ _ _ _ H1' H2') by lia. f_equal. apply bool_decide_ext. naive_solver congruence.
      * rewrite (loop_stop _ _ _ _ Hstep). cbn [answer mbind outcome_bind]. rewrite bool_decide_false; [done|]. congruence.
Qed.

(** ** Lines that match but for white space at the end *)

Lemma drop_while_app (a b : list Z) : drop_while XDL_ISSPACE (a ++ b) = if bool_decide (drop_while XDL_ISSPACE a = []) then drop_while XDL_ISSPACE b else drop_while XDL_ISSPACE a ++ b.
Proof. induction a as [|c a IH]; [done|]. cbn [drop_while app]. by destruct (XDL_ISSPACE c). Qed.

Lemma blank_app (a b : list Z) : blank (a ++ b) = blank a && blank b.
Proof.
  unfold blank. rewrite drop_while_app. destruct (drop_while XDL_ISSPACE a) as [|x l] eqn:Ha; [done|]. by rewrite (bool_decide_false (x :: l = [])).
Qed.

Lemma blank_reverse t : blank (reverse t) = blank t.
Proof. induction t as [|c t IH]; [done|]. change (c :: t) with ([c] ++ t). by rewrite reverse_app, !blank_app, IH, andb_comm. Qed.

Lemma trim_end_cons c t : trim_end XDL_ISSPACE (c :: t) = if blank (c :: t) then [] else c :: trim_end XDL_ISSPACE t.
Proof.
  unfold trim_end. rewrite reverse_cons, drop_while_app. fold (blank (reverse t)). rewrite blank_reverse. change (c :: t) with ([c] ++ t). rewrite blank_app.
  destruct (blank t) eqn:E.
  - unfold blank at 1. rewrite andb_true_r. assert (drop_while XDL_ISSPACE (reverse t) = []) as -> by (rewrite <-blank_reverse in E; by apply bool_decide_eq_true in E).
    cbn [drop_while]. destruct (XDL_ISSPACE c); [done|]. by rewrite bool_decide_false.
  - by rewrite andb_false_r, reverse_snoc.
Qed.

Lemma trim_end_nil t : trim_end XDL_ISSPACE t = [] <-> blank t = true.
Proof. destruct t as [|c t]; [done|]. rewrite trim_end_cons. by destruct (blank (c :: t)). Qed.

Lemma eol_loop l1 l2 : forall k i1 i2 t1 t2, at_pos l1 i1 t1 -> at_pos l2 i2 t2 -> (length t1 + length t2 < k)%nat ->
  ('(i1, i2) ← loop k (eol_step l1 l2) (i1, i2); rest_matches l1 l2 i1 i2) = Ret (bool_decide (trim_end XDL_ISSPACE t1 = trim_end XDL_ISSPACE t2)).
Proof.
  induction k as [|k IH]; intros i1 i2 t1 t2 H1 H2 Hk; [lia|].
  destruct t1 as [|x t1]; [|destruct t2 as [|y t2]].
  - rewrite (loop_stop _ _ _ (i1, i2)) by (unfold eol_step; by rewrite (at_pos_end _ _ _ H1)). run. rewrite (rest_spec _ _ _ _ _ _ H1 H2). f_equal. change (blank []) with true. cbn [andb].
    apply eq_true_iff_eq. rewrite bool_decide_eq_true, <-trim_end_nil. split; [by intros ->|by intros <-].
  - rewrite (loop_stop _ _ _ (i1, i2)) by (unfold eol_step; rewrite (at_pos_end _ _ _ H2), andb_false_r; done). run. rewrite (rest_spec _ _ _ _ _ _ H1 H2). f_equal. change (blank []) with true. rewrite andb_true_r.
    apply eq_true_iff_eq. by rewrite bool_decide_eq_true, <-trim_end_nil.
  - destruct (at_pos_cons _ _ _ _ H1) as [Hrd1 H1']. destruct (at_pos_cons _ _ _ _ H2) as [Hrd2 H2'].
    assert (eol_step l1 l2 (i1, i2) = Ret (if x =? y then inl (i1 + 1, i2 + 1) else inr (i1, i2))) as Hstep.
    { unfold eol_step. rewrite (at_pos_end _ _ _ H1), (at_pos_end _ _ _ H2). cbn [negb bool_decide andb decide_rel]. by rewrite Hrd1, Hrd2. }
    cbn [length] in Hk. rewrite !trim_end_cons. destruct (Z.eqb_spec x y) as [->|Hne].
    + rewrite (loop_next _ _ _ _ Hstep), (IH _ _ _ _ H1' H2') by lia. f_equal. apply bool_decide_ext. change (y :: t1) with ([y] ++ t1). change (y :: t2) with ([y] ++ t2). rewrite !blank_app.
      destruct (blank [y]) eqn:Ey; cbn [andb]; [|split; [by intros ->|by intros [= ->]]].
      destruct (blank t1) eqn:E1, (blank t2) eqn:E2; pose proof (trim_end_nil t1) as Hn1; pose proof (trim_end_nil t2) as Hn2; rewrite ?E1, ?E2 in *.
      * rewrite (proj2 Hn1 eq_refl), (proj2 Hn2 eq_refl). done.
      * rewrite (proj2 Hn1 eq_refl). split; [|done]. intros Heq. symmetry in Heq. by apply Hn2 in Heq.
      * rewrite (proj2 Hn2 eq_refl). split; [|done]. intros Heq. by apply Hn1 in Heq.
      * split; [by intros ->|by intros [= ->]].
    + rewrite (loop_stop _ _ _ _ Hstep). run. rewrite (rest_spec _ _ _ _ _ _ H1 H2). f_equal. destruct (blank (x :: t1)), (blank (y :: t2)); cbn [andb]; [done..|]. rewrite bool_decide_false; [done|]. congruence.
Qed.

Lemma recmatch_spec l1 l2 flags : flag flags XDF_IGNORE_WHITESPACE || flag flags XDF_IGNORE_WHITESPACE_CHANGE || flag flags XDF_IGNORE_WHITESPACE_AT_EOL = true ->
  xdl_recmatch l1 l2 flags = Ret (bool_decide (normal flags l1 = normal flags l2)).
Proof.
  intros Hf. unfold xdl_recmatch. case_bool_decide as Heq; [subst; by rewrite bool_decide_true|]. unfold flag at 1. rewrite xdf_whitespace. fold (flag flags XDF_IGNORE_WHITESPACE) (flag flags XDF_IGNORE_WHITESPACE_CHANGE) (flag flags XDF_IGNORE_WHITESPACE_AT_EOL). rewrite Hf. cbn [orb negb].
  pose proof (at_pos_0 l1) as H1. pose proof (at_pos_0 l2) as H2. unfold normal. destruct (flag flags XDF_IGNORE_WHITESPACE); [|destruct (flag flags XDF_IGNORE_WHITESPACE_CHANGE); [|destruct (flag flags XDF_IGNORE_WHITESPACE_AT_EOL); [|done]]].
  - destruct (skip_blanks_spec _ _ _ H1) as (j1 & -> & Hj1). run. destruct (skip_blanks_spec _ _ _ H2) as (j2 & -> & Hj2). run. fold (answer l1 l2).
    pose proof (drop_while_shorter l1). pose proof (drop_while_shorter l2). rewrite (w_loop _ _ _ _ _ _ _ Hj1 Hj2); [|lia|apply drop_while_idem..]. by rewrite !filter_drop_while.
  - apply (b_loop _ _ _ _ _ _ _ H1 H2). lia.
  - apply (eol_loop _ _ _ _ _ _ _ H1 H2). lia.
Qed.

Lemma recmatch_exact l1 l2 flags : flag flags XDF_WHITESPACE_FLAGS = false -> xdl_recmatch l1 l2 flags = Ret (bool_decide (l1 = l2)).
Proof. intros Hf. unfold xdl_recmatch. case_bool_decide; [done|]. by rewrite Hf. Qed.

(** ** The hash is that of the normal form *)

Definition hash_list (ha : Z) (l : list Z) : Z := fold_left hash_add l ha.

(** The bytes of a line up to its end, where the data end or a newline is next. *)
Definition line_end (r : list Z) : Prop := r = [] \/ exists r', r = 10 :: r'.

(** What of these bytes counts; [nl] if a newline is next. *)
Definition normal_body flags (nl : bool) (a : list Z) : list Z :=
  if flag flags XDF_IGNORE_WHITESPACE then List.filter (fun c => negb (XDL_ISSPACE c)) a
  else if flag flags XDF_IGNORE_WHITESPACE_CHANGE then squeeze false a
  else if flag flags XDF_IGNORE_WHITESPACE_AT_EOL then trim_end XDL_ISSPACE a
  else if flag flags XDF_IGNORE_CR_AT_EOL then (if nl && bool_decide (last a = Some 13) then removelast a else a)
  else a.

Lemma filter_snoc_space a c : XDL_ISSPACE c = true -> List.filter (fun c => negb (XDL_ISSPACE c)) (a ++ [c]) = List.filter (fun c => negb (XDL_ISSPACE c)) a.
Proof. intros Hc. rewrite List.filter_app. cbn [List.filter]. rewrite Hc. cbn [negb]. by rewrite app_nil_r. Qed.

Lemma squeeze_snoc_space c : XDL_ISSPACE c = true -> forall a p, squeeze p (a ++ [c]) = squeeze p a.
Proof. intros Hc. induction a as [|x a IH]; intros p; cbn [app squeeze]; [by rewrite Hc|]. destruct (XDL_ISSPACE x); by rewrite IH. Qed.

Lemma normal_newline flags a : normal flags (a ++ [10]) = normal_body flags true a.
Proof.
  unfold normal, normal_body, chomp_cr, chomp. rewrite filter_snoc_space, squeeze_snoc_space, trim_end_snoc, isspace_newline by apply isspace_newline. rewrite last_snoc, bool_decide_true, removelast_last by done. done.
Qed.

Lemma normal_open flags a : 10 ∉ a -> normal flags a = normal_body flags false a.
Proof.
  intros Hn. unfold normal, normal_body, chomp_cr, chomp. rewrite bool_decide_false; [done|]. intros Hl. apply last_Some_elem_of in Hl. done.
Qed.

Lemma trim_end_run run a : Forall (fun c => XDL_ISSPACE c = true) run -> blank a = false -> trim_end XDL_ISSPACE (run ++ a) = run ++ trim_end XDL_ISSPACE a.
Proof.
  intros _ Ha. induction run as [|c run IH]; [done|]. cbn [app]. rewrite trim_end_cons. change (c :: run ++ a) with ((c :: run) ++ a). by rewrite blank_app, Ha, andb_false_r, IH.
Qed.

Section hash.
Context (data r : list Z) (Hr : line_end r).
Implicit Types (a : list Z) (ptr ha : Z).

Definition nl : bool := negb (bool_decide (r = [])).

Lemma hash_loop : forall a ptr ha k, at_pos data ptr (a ++ r) -> 10 ∉ a -> (length a < k)%nat ->
  loop k (hash_step data) (ptr, ha) = Ret (ptr + zlen a, hash_list ha a).
Proof.
  induction a as [|c a IH]; intros ptr ha k Hat Hn Hk; (destruct k as [|k]; [lia|]); cbn [app] in Hat.
  - rewrite zlen_nil, Z.add_0_r. apply loop_stop. unfold hash_step. rewrite (at_pos_end _ _ _ Hat). destruct Hr as [->|[r' ->]]; [done|]. destruct (at_pos_cons _ _ _ _ Hat) as [-> _]. done.
  - destruct (at_pos_cons _ _ _ _ Hat) as [Hrd Hat']. rewrite not_elem_of_cons in Hn. destruct Hn as [Hc Hn]. rewrite (loop_next _ _ _ (ptr + 1, hash_add ha c)).
    + cbn [length] in Hk. rewrite (IH _ _ _ Hat' Hn) by lia. rewrite zlen_cons. f_equal. f_equal. lia.
    + unfold hash_step. rewrite (at_pos_end _ _ _ Hat). cbn [negb bool_decide decide_rel]. rewrite Hrd. run. destruct (Z.eqb_spec c 10); [congruence|done].
Qed.

Lemma run_loop : forall a ptr k, at_pos data (ptr + 1) (a ++ r) -> 10 ∉ a -> (length a < k)%nat ->
  loop k (run_step data) ptr = Ret (ptr + zlen a - zlen (drop_while XDL_ISSPACE a)) /\ at_pos data (ptr + zlen a - zlen (drop_while XDL_ISSPACE a) + 1) (drop_while XDL_ISSPACE a ++ r).
Proof.
  induction a as [|c a IH]; intros ptr k Hat Hn Hk; (destruct k as [|k]; [lia|]); cbn [app] in Hat.
  - cbn [drop_while]. rewrite zlen_nil, Z.add_0_r, Z.sub_0_r. split; [|done]. apply loop_stop. unfold run_step. rewrite (at_pos_end _ _ _ Hat). destruct Hr as [->|[r' ->]]; [done|]. destruct (at_pos_cons _ _ _ _ Hat) as [-> _]. run. by rewrite andb_false_r.
  - destruct (at_pos_cons _ _ _ _ Hat) as [Hrd Hat']. rewrite not_elem_of_cons in Hn. destruct Hn as [Hc Hn].
    assert (run_step data ptr = Ret (if XDL_ISSPACE c then inl (ptr + 1) else inr ptr)) as Hstep.
    { unfold run_step. rewrite (at_pos_end _ _ _ Hat). cbn [negb bool_decide decide_rel]. rewrite Hrd. run. destruct (Z.eqb_spec c 10); [congruence|]. by rewrite andb_true_r. }
    cbn [drop_while]. destruct (XDL_ISSPACE c).
    + rewrite (loop_next _ _ _ _ Hstep). cbn [length] in Hk. rewrite zlen_cons. replace (ptr + (1 + zlen a)) with (ptr + 1 + zlen a) by lia. apply IH; [done..|lia].
    + rewrite (loop_stop _ _ _ _ Hstep). replace (ptr + zlen (c :: a) - zlen (c :: a)) with ptr by lia. done.
Qed.

Lemma for_hash rest : forall l ptr ha, at_pos data ptr (l ++ rest) -> for_n (length l) ptr (fun i ha => c ← rd data i; Ret (hash_add ha c)) ha = Ret (hash_list ha l).
Proof.
  induction l as [|c l IH]; intros ptr ha Hat; [done|]. cbn [app] in Hat. destruct (at_pos_cons _ _ _ _ Hat) as [Hrd Hat']. cbn [length for_n]. rewrite Hrd. run. by rewrite (IH _ _ Hat').
Qed.

(** One byte, or one run of white space. *)
Lemma ws_round flags c a ptr ha : flag flags XDF_IGNORE_WHITESPACE || flag flags XDF_IGNORE_WHITESPACE_CHANGE || flag flags XDF_IGNORE_WHITESPACE_AT_EOL = true ->
  at_pos data ptr (c :: a ++ r) -> 10 ∉ c :: a ->
  exists a' ptr' ha', ws_hash_step data flags (ptr, ha) = Ret (inl (ptr', ha')) /\ at_pos data ptr' (a' ++ r) /\ 10 ∉ a' /\ (length a' <= length a)%nat /\ ptr' + zlen a' = ptr + zlen (c :: a) /\
    hash_list ha' (normal_body flags nl a') = hash_list ha (normal_body flags nl (c :: a)).
Proof.
  intros Hf Hat Hn. destruct (at_pos_cons _ _ _ _ Hat) as [Hrd Hat']. rewrite not_elem_of_cons in Hn. destruct Hn as [Hc Hn].
  assert ((Z.land flags XDF_WHITESPACE_FLAGS =? XDF_IGNORE_CR_AT_EOL) = false) as Hcr.
  { rewrite xdf_cr_only. fold (flag flags XDF_IGNORE_WHITESPACE) (flag flags XDF_IGNORE_WHITESPACE_CHANGE) (flag flags XDF_IGNORE_WHITESPACE_AT_EOL). destruct (flag flags XDF_IGNORE_WHITESPACE), (flag flags XDF_IGNORE_WHITESPACE_CHANGE), (flag flags XDF_IGNORE_WHITESPACE_AT_EOL); done. }
  unfold ws_hash_step. rewrite Hcr, (at_pos_end _ _ _ Hat). cbn [negb bool_decide decide_rel]. rewrite Hrd. run. destruct (Z.eqb_spec c 10); [congruence|]. rewrite zlen_cons. destruct (XDL_ISSPACE c) eqn:Esp.
  - destruct (run_loop a ptr (S (Z.to_nat (zlen data - ptr))) Hat' Hn) as [-> Hend]; [pose proof (at_pos_len _ _ _ Hat); rewrite zlen_cons, zlen_app in *; pose proof (zlen_nonneg r); unfold zlen in *; lia|]. run.
    destruct (drop_while_suffix XDL_ISSPACE a) as (run & Ha & Hrun). set (a' := drop_while XDL_ISSPACE a) in *. set (ptr' := ptr + zlen a - zlen a') in *.
    assert (10 ∉ a') as Hn' by (rewrite Ha in Hn; intros Hin; apply Hn; apply elem_of_app; by right).
    assert ((if zlen data <=? ptr' + 1 then Ret true else x ← rd data (ptr' + 1); Ret (x =? 10)) = Ret (bool_decide (a' = []))) as ->.
    { pose proof (at_pos_end _ _ _ Hend) as Hle. destruct a' as [|x a''] eqn:Ea'; cbn [app] in *.
      - destruct Hr as [Hr0|[r' Hr0]]; rewrite Hr0 in *.
        + cbn in Hle. apply Z.ltb_ge in Hle. by rewrite (proj2 (Z.leb_le (zlen data) (ptr' + 1)) Hle).
        + cbn in Hle. apply Z.ltb_lt in Hle. rewrite (proj2 (Z.leb_gt (zlen data) (ptr' + 1)) Hle). by destruct (at_pos_cons _ _ _ _ Hend) as [-> _].
      - cbn in Hle. apply Z.ltb_lt in Hle. rewrite (proj2 (Z.leb_gt (zlen data) (ptr' + 1)) Hle). destruct (at_pos_cons _ _ _ _ Hend) as [-> _]. run. rewrite not_elem_of_cons in Hn'. f_equal. apply Z.eqb_neq. destruct Hn'. congruence. }
    run. pose proof (drop_while_shorter a) as Hshort. fold a' in Hshort.
    assert (zlen a = zlen run + zlen a') as Hzl by (rewrite Ha at 1; by rewrite zlen_app).
    unfold normal_body. cbn [List.filter squeeze]. rewrite Esp. cbn [negb]. destruct (flag flags XDF_IGNORE_WHITESPACE).
    { exists a', (ptr' + 1), ha. split; [done|]. split; [done|]. split; [done|]. split; [done|]. split; [lia|]. unfold a'. by rewrite filter_drop_while. }
    destruct (flag flags XDF_IGNORE_WHITESPACE_CHANGE); cbn [andb].
    { rewrite squeeze_true. fold a'. destruct (bool_decide (a' = [])) eqn:Eb; cbn [negb].
      - apply bool_decide_eq_true in Eb. rewrite andb_false_r. exists a', (ptr' + 1), ha. split; [done|]. split; [done|]. split; [done|]. split; [done|]. split; [lia|]. by rewrite Eb.
      - exists a', (ptr' + 1), (hash_add ha 32). split; [done|]. split; [done|]. split; [done|]. split; [done|]. split; [lia|]. done. }
    cbn [orb] in Hf. rewrite Hf. cbn [andb]. rewrite trim_end_cons. destruct (bool_decide (a' = [])) eqn:Eb; cbn [negb].
    + apply bool_decide_eq_true in Eb. exists a', (ptr' + 1), ha. split; [done|]. split; [done|]. split; [done|]. split; [done|]. split; [lia|]. unfold blank. cbn [drop_while]. rewrite Esp. fold a'. by rewrite Eb.
    + replace (Z.to_nat (ptr' + 1 - ptr)) with (length (c :: run)) by (cbn [length]; unfold zlen in *; lia).
      rewrite (for_hash (a' ++ r)) by (cbn [app]; by rewrite (assoc app), <-Ha). run. exists a', (ptr' + 1), (hash_list ha (c :: run)). split; [done|]. split; [done|]. split; [done|]. split; [done|]. split; [lia|].
      unfold blank. cbn [drop_while]. rewrite Esp. fold a'. rewrite Eb.
      assert (trim_end XDL_ISSPACE a = run ++ trim_end XDL_ISSPACE a') as ->.
      { rewrite <-trim_end_run; [by rewrite <-Ha|done|]. unfold blank, a'. by rewrite drop_while_idem. }
      unfold hash_list. change (c :: run ++ trim_end XDL_ISSPACE a') with ((c :: run) ++ trim_end XDL_ISSPACE a'). by rewrite fold_left_app.
  - exists a, (ptr + 1), (hash_add ha c). split; [done|]. split; [done|]. split; [done|]. split; [done|]. split; [lia|]. unfold normal_body. cbn [List.filter squeeze]. rewrite Esp. cbn [negb app].
    destruct (flag flags XDF_IGNORE_WHITESPACE); [done|]. destruct (flag flags XDF_IGNORE_WHITESPACE_CHANGE); [done|]. cbn [orb] in Hf. rewrite Hf, trim_end_cons. unfold blank. cbn [drop_while]. by rewrite Esp.
Qed.

Lemma cr_round flags c a ptr ha : flag flags XDF_IGNORE_WHITESPACE || flag flags XDF_IGNORE_WHITESPACE_CHANGE || flag flags XDF_IGNORE_WHITESPACE_AT_EOL = false -> flag flags XDF_IGNORE_CR_AT_EOL = true ->
  at_pos data ptr (c :: a ++ r) -> 10 ∉ c :: a ->
  exists ha', ws_hash_step data flags (ptr, ha) = Ret (inl (ptr + 1, ha')) /\ hash_list ha' (normal_body flags nl a) = hash_list ha (normal_body flags nl (c :: a)).
Proof.
  intros Hf Hf4 Hat Hn. destruct (at_pos_cons _ _ _ _ Hat) as [Hrd Hat']. rewrite not_elem_of_cons in Hn. destruct Hn as [Hc Hn]. apply orb_false_iff in Hf as [Hf Hf3]. apply orb_false_iff in Hf as [Hf1 Hf2].
  assert ((Z.land flags XDF_WHITESPACE_FLAGS =? XDF_IGNORE_CR_AT_EOL) = true) as Hcr by (unfold flag in *; by rewrite xdf_cr_only, Hf1, Hf2, Hf3, Hf4).
  unfold ws_hash_step. rewrite Hcr, (at_pos_end _ _ _ Hat). cbn [negb bool_decide decide_rel]. rewrite Hrd. run. destruct (Z.eqb_spec c 10); [congruence|].
  assert ((if (c =? 13) && (ptr + 1 <? zlen data) then x ← rd data (ptr + 1); Ret (x =? 10) else Ret false) = Ret ((c =? 13) && nl && bool_decide (a = []))) as ->.
  { destruct (c =? 13); cbn [andb]; [|done]. rewrite (at_pos_end _ _ _ Hat'). destruct a as [|x a]; cbn [app] in *.
    - unfold nl. destruct Hr as [->|[r' ->]]; [done|]. cbn. by destruct (at_pos_cons _ _ _ _ Hat') as [-> _].
    - cbn [negb bool_decide decide_rel]. destruct (at_pos_cons _ _ _ _ Hat') as [-> _]. run. rewrite (bool_decide_false (x :: a = [])), andb_false_r by done. rewrite not_elem_of_cons in Hn. f_equal. apply Z.eqb_neq. destruct Hn. congruence. }
  run. eexists. split; [done|]. unfold normal_body. rewrite Hf1, Hf2, Hf3, Hf4. destruct nl; cbn [andb]; [|by rewrite andb_false_r]. rewrite andb_true_r. destruct a as [|x a].
  - rewrite (bool_decide_true ([] = [])), andb_true_r by done. cbn [last]. destruct (Z.eqb_spec c 13) as [->|Hne]; [done|]. rewrite (bool_decide_false (Some c = Some 13)) by congruence. done.
  - rewrite (bool_decide_false (x :: a = [])), andb_false_r by done. change (last (c :: x :: a)) with (last (x :: a)). case_bool_decide; [|done]. done.
Qed.

Lemma ws_loop flags : flag flags XDF_WHITESPACE_FLAGS = true -> forall k a ptr ha, at_pos data ptr (a ++ r) -> 10 ∉ a -> (length a < k)%nat ->
  loop k (ws_hash_step data flags) (ptr, ha) = Ret (ptr + zlen a, hash_list ha (normal_body flags nl a)).
Proof.
  intros Hf. unfold flag in Hf. rewrite xdf_whitespace in Hf. fold (flag flags XDF_IGNORE_WHITESPACE) (flag flags XDF_IGNORE_WHITESPACE_CHANGE) (flag flags XDF_IGNORE_WHITESPACE_AT_EOL) (flag flags XDF_IGNORE_CR_AT_EOL) in Hf.
  induction k as [|k IH]; intros a ptr ha Hat Hn Hk; [lia|]. destruct a as [|c a]; cbn [app] in Hat.
  - rewrite zlen_nil, Z.add_0_r. rewrite (loop_stop _ _ _ (ptr, ha)).
    + do 2 f_equal. unfold normal_body. cbn [List.filter squeeze last]. rewrite (bool_decide_false (None = Some 13)), andb_false_r by done. change (trim_end XDL_ISSPACE []) with (@nil Z). by repeat case_if.
    + unfold ws_hash_step. rewrite (at_pos_end _ _ _ Hat). destruct Hr as [->|[r' ->]]; [done|]. by destruct (at_pos_cons _ _ _ _ Hat) as [-> _].
  - destruct (flag flags XDF_IGNORE_WHITESPACE || flag flags XDF_IGNORE_WHITESPACE_CHANGE || flag flags XDF_IGNORE_WHITESPACE_AT_EOL) eqn:E.
    + destruct (ws_round flags c a ptr ha E Hat Hn) as (a' & ptr' & ha' & Hstep & Hat' & Hn' & Hle & Hptr & Hha). rewrite (loop_next _ _ _ _ Hstep). cbn [length] in Hk. rewrite (IH a' ptr' ha' Hat' Hn') by lia. by rewrite Hptr, Hha.
    + cbn [orb] in Hf. destruct (cr_round flags c a ptr ha E Hf Hat Hn) as (ha' & Hstep & Hha). rewrite (loop_next _ _ _ _ Hstep). destruct (at_pos_cons _ _ _ _ Hat) as [_ Hat']. rewrite not_elem_of_cons in Hn. cbn [length] in Hk.
      rewrite (IH a (ptr + 1) ha' Hat' (proj2 Hn)) by lia. rewrite Hha, zlen_cons. do 2 f_equal. lia.
Qed.
End hash.

(** The hash of the next line of the data, and where the line after it starts. *)
Lemma hash_record_spec data ptr s flags : at_pos data ptr s -> s <> [] ->
  xdl_hash_record data ptr flags = Ret (hash_list 5381 (normal flags (fst (first_line 10 s))), ptr + zlen (fst (first_line 10 s))) /\
  at_pos data (ptr + zlen (fst (first_line 10 s))) (snd (first_line 10 s)).
Proof.
  intros Hat Hne. pose proof (first_line_app 10 s) as Happ.
  assert (at_pos data (ptr + zlen (fst (first_line 10 s))) (snd (first_line 10 s))) as Hat' by (eapply at_pos_app; by rewrite Happ). split; [|done].
  assert (exists a r, s = a ++ r /\ line_end r /\ 10 ∉ a /\ normal flags (fst (first_line 10 s)) = normal_body flags (nl r) a /\ zlen (fst (first_line 10 s)) = zlen a + if bool_decide (r = []) then 0 else 1) as (a & r & Hs & Hr & Hn & Hnorm & Hlen).
  { destruct (first_line_ends 10 s Hne) as [(a & Hl & Hn)|(Hn & Hl & Hr)].
    - exists a, (10 :: snd (first_line 10 s)). rewrite Hl in *. split; [rewrite <-Happ at 1; by rewrite <-(assoc app)|]. split; [right; by eexists|]. split; [done|]. split; [by rewrite normal_newline|]. by rewrite zlen_app.
    - exists s, []. rewrite Hl. split; [by rewrite app_nil_r|]. split; [by left|]. split; [done|]. split; [by rewrite normal_open|]. rewrite bool_decide_true by done. lia. }
  rewrite Hs in Hat. rewrite Hnorm, Hlen. clear Hnorm Hlen Hat' Happ. pose proof (at_pos_len _ _ _ Hat) as Hz. rewrite zlen_app in Hz. pose proof (zlen_nonneg r).
  assert ((if ptr + zlen a <? zlen data then ptr + zlen a + 1 else ptr + zlen a) = ptr + (zlen a + if bool_decide (r = []) then 0 else 1)) as Hend.
  { destruct Hr as [->|[r' ->]]; cbn; rewrite ?zlen_nil, ?zlen_cons in Hz; [destruct (Z.ltb_spec (ptr + zlen a) (zlen data)); lia|]. pose proof (zlen_nonneg r'). destruct (Z.ltb_spec (ptr + zlen a) (zlen data)); lia. }
  unfold xdl_hash_record, xdl_hash_record_with_whitespace. destruct (flag flags XDF_WHITESPACE_FLAGS) eqn:Ef.
  - rewrite (ws_loop data r Hr flags Ef _ _ _ _ Hat Hn) by (unfold zlen in *; lia). run. by rewrite Hend.
  - rewrite (hash_loop data r Hr _ _ _ _ Hat Hn) by (unfold zlen in *; lia). run. rewrite Hend. do 2 f_equal. unfold normal_body.
    unfold flag in Ef. rewrite xdf_whitespace in Ef. apply orb_false_iff in Ef as [Ef E4]. apply orb_false_iff in Ef as [Ef E3]. apply orb_false_iff in Ef as [E1 E2]. unfold flag. by rewrite E1, E2, E3, E4.
Qed.

End normal.

(** * Sizes *)

Lemma bogosqrt_loop : forall k i n, 0 <= n < 4 ^ Z.of_nat k -> exists r, loop (S k) bogosqrt_step (i, n) = Ret r.
Proof.
  induction k as [|k IH]; intros i n Hn.
  - change (4 ^ Z.of_nat 0) with 1 in Hn. assert (n = 0) as -> by lia. by eexists.
  - destruct (Z.eq_dec n 0) as [->|Hne]; [by eexists|]. rewrite (loop_next _ _ _ (Z.shiftl i 1, Z.shiftr n 2)).
    + apply IH. rewrite Z.shiftr_div_pow2 by lia. change (2 ^ 2) with 4. rewrite Nat2Z.inj_succ, Z.pow_succ_r in Hn by lia. split; [apply Z.div_pos; lia|apply Z.div_lt_upper_bound; lia].
    + unfold bogosqrt_step. rewrite Z.gtb_ltb. by rewrite (proj2 (Z.ltb_lt 0 n)) by lia.
Qed.

Lemma bogosqrt_total n : 0 <= n < 2 ^ 63 -> exists r, xdl_bogosqrt n = Ret r.
Proof. intros Hn. apply (bogosqrt_loop 32). change (4 ^ Z.of_nat 32) with (2 ^ 64). lia. Qed.

Lemma hashbits_spec size : 0 <= size <= 2 ^ 30 -> exists b, xdl_hashbits size = Ret b /\ 1 <= b <= 30.
Proof.
  intros Hs. unfold xdl_hashbits.
  destruct (loop_ret (fun '(val, bits) => val = 2 ^ bits /\ 0 <= bits <= 30) (fun '(_, bits) => 30 - bits) 34 (hashbits_step size) (1, 0) (fun b => 0 <= b <= 30)) as (b & -> & Hb); [|done|lia|].
  - intros [val bits] [-> Hb]. unfold hashbits_step. destruct (Z.ltb_spec (2 ^ bits) size) as [Hlt|]; cbn [andb]; [|by eexists].
    assert (bits < 30) by (apply (Z.pow_lt_mono_r_iff 2); lia). rewrite (proj2 (Z.ltb_lt bits 32)) by lia. eexists. split; [done|]. cbv beta iota. split; [|lia]. split; [|lia].
    rewrite Z.shiftl_mul_pow2, Z.pow_add_r, u32_small by lia || done. assert (2 ^ bits * 2 ^ 1 <= 2 ^ 29 * 2 ^ 1) by (apply Z.mul_le_mono_nonneg_r; [lia|apply Z.pow_le_mono_r; lia]).
    pose proof (Z.pow_pos_nonneg 2 bits). lia.
  - run. exists (if tru b then b else 1). split; [done|]. destruct (tru b) eqn:E; [apply tru_true in E|]; lia.
Qed.

Lemma guess_lines_spec mf sample : exists g, xdl_guess_lines mf sample = Ret g /\ 1 <= g <= zlen mf + 1.
Proof.
  pose proof (zlen_nonneg mf) as Hz. unfold xdl_guess_lines.
  destruct (loop_ret (fun '(nl, cur) => 0 <= nl <= cur /\ cur <= zlen mf) (fun '(_, cur) => zlen mf - cur) (S (length mf)) (guess_step mf sample) (0, 0) (fun '(nl, cur) => 0 <= nl <= cur /\ cur <= zlen mf)) as ([nl cur] & -> & Hnl & Hcur); [|lia|unfold zlen; lia|].
  - intros [nl cur] [Hnl Hcur]. unfold guess_step. destruct (nl <? sample); cbn [andb negb]; [|by eexists]. destruct (Z.ltb_spec cur (zlen mf)); cbn [negb]; [|by eexists].
    eexists. split; [done|]. pose proof (first_line_memchr 10 (drop (Z.to_nat cur) mf)) as Hm. assert (zlen (drop (Z.to_nat cur) mf) = zlen mf - cur) as Hzd by (unfold zlen in *; rewrite length_drop; lia). rewrite Hzd in Hm.
    destruct (memchr _ _ _) as [k|]; [destruct Hm as [_ Hm]; lia|lia].
  - run. destruct (tru nl) eqn:E1; cbn [andb]; [|exists (nl + 1); split; [done|lia]]. destruct (tru cur) eqn:E2; [|apply tru_false in E2; exists (nl + 1); split; [done|lia]].
    apply tru_true in E1, E2. assert (1 <= Z.quot cur nl) as Hq by (apply Z.quot_le_lower_bound; lia). rewrite (proj2 (Z.eqb_neq (Z.quot cur nl) 0)) by lia.
    eexists. split; [done|]. assert (0 <= Z.quot (zlen mf) (Z.quot cur nl) <= zlen mf); [|lia]. split; [apply Z.quot_pos; lia|]. apply Z.quot_le_upper_bound; nia.
Qed.

(** * What the classes of lines stand for *)

Section key.
Context `{XdiffHOk}.
Implicit Types (flags : Z).

(** The flags for which a match is an equality of normal forms: all but the one that
    ignores carriage returns alone. *)
Definition precise flags : bool := flag flags XDF_IGNORE_WHITESPACE || flag flags XDF_IGNORE_WHITESPACE_CHANGE || flag flags XDF_IGNORE_WHITESPACE_AT_EOL || negb (flag flags XDF_WHITESPACE_FLAGS).

Definition key flags (l : list Z) : list Z := if flag flags XDF_WHITESPACE_FLAGS then normal flags l else l.

Lemma recmatch_key l1 l2 flags : precise flags = true -> xdl_recmatch l1 l2 flags = Ret (bool_decide (key flags l1 = key flags l2)).
Proof.
  intros Hp. unfold precise in Hp. unfold key. destruct (flag flags XDF_WHITESPACE_FLAGS) eqn:Ef; cbn [negb] in Hp.
  - rewrite orb_false_r in Hp. by apply recmatch_spec.
  - by apply recmatch_exact.
Qed.

Lemma key_normal l1 l2 flags : key flags l1 = key flags l2 -> normal flags l1 = normal flags l2.
Proof. unfold key. destruct (flag flags XDF_WHITESPACE_FLAGS); congruence. Qed.

Definition line_hash flags (l : list Z) : Z := hash_list 5381 (normal flags l).

(** ** Carriage returns alone *)

(** Without the newline and all carriage returns before it. *)
Definition weak (l : list Z) : list Z := trim_end (fun c => c =? 13) (chomp l).

(** What lines of the same class have in common. *)
Definition loose flags (l : list Z) : list Z := if precise flags then key flags l else weak l.

Lemma imprecise flags : precise flags = false -> flag flags XDF_WHITESPACE_FLAGS = true /\ flag flags XDF_IGNORE_WHITESPACE = false /\ flag flags XDF_IGNORE_WHITESPACE_CHANGE = false /\ flag flags XDF_IGNORE_WHITESPACE_AT_EOL = false /\ flag flags XDF_IGNORE_CR_AT_EOL = true.
Proof.
  unfold precise. intros Hp. apply orb_false_iff in Hp as [Hp Hw]. apply orb_false_iff in Hp as [Hp H3]. apply orb_false_iff in Hp as [H1 H2]. apply negb_false_iff in Hw. repeat (split; [done|]).
  unfold flag in Hw. rewrite xdf_whitespace in Hw. fold (flag flags XDF_IGNORE_WHITESPACE) (flag flags XDF_IGNORE_WHITESPACE_CHANGE) (flag flags XDF_IGNORE_WHITESPACE_AT_EOL) (flag flags XDF_IGNORE_CR_AT_EOL) in Hw. by rewrite H1, H2, H3 in Hw.
Qed.

Lemma cr_loop l1 l2 : forall k i1 i2 t1 t2, at_pos l1 i1 t1 -> at_pos l2 i2 t2 -> (length t1 + length t2 < k)%nat ->
  exists j1 j2 p u1 u2, loop k (eol_step l1 l2) (i1, i2) = Ret (j1, j2) /\ t1 = p ++ u1 /\ t2 = p ++ u2 /\ at_pos l1 j1 u1 /\ at_pos l2 j2 u2.
Proof.
  induction k as [|k IH]; intros i1 i2 t1 t2 H1 H2 Hk; [lia|]. assert (forall r, eol_step l1 l2 (i1, i2) = Ret (inr r) -> r = (i1, i2) -> exists j1 j2 p u1 u2, loop (S k) (eol_step l1 l2) (i1, i2) = Ret (j1, j2) /\ t1 = p ++ u1 /\ t2 = p ++ u2 /\ at_pos l1 j1 u1 /\ at_pos l2 j2 u2) as Hstop.
  { intros r Hr ->. exists i1, i2, [], t1, t2. by rewrite (loop_stop _ _ _ _ Hr). }
  destruct t1 as [|x t1]; [eapply Hstop; [unfold eol_step; by rewrite (at_pos_end _ _ _ H1)|done]|]. destruct t2 as [|y t2]; [eapply Hstop; [unfold eol_step; rewrite (at_pos_end _ _ _ H2), andb_false_r; done|done]|].
  destruct (at_pos_cons _ _ _ _ H1) as [Hrd1 H1']. destruct (at_pos_cons _ _ _ _ H2) as [Hrd2 H2'].
  assert (eol_step l1 l2 (i1, i2) = Ret (if x =? y then inl (i1 + 1, i2 + 1) else inr (i1, i2))) as Hstep.
  { unfold eol_step. rewrite (at_pos_end _ _ _ H1), (at_pos_end _ _ _ H2). cbn [negb bool_decide andb decide_rel]. by rewrite Hrd1, Hrd2. }
  destruct (Z.eqb_spec x y) as [->|Hne]; [|by eapply Hstop]. cbn [length] in Hk. destruct (IH _ _ _ _ H1' H2' ltac:(lia)) as (j1 & j2 & p & u1 & u2 & Hl & -> & -> & Hj1 & Hj2).
  exists j1, j2, (y :: p), u1, u2. rewrite (loop_next _ _ _ _ Hstep). done.
Qed.

Lemma optional_cr_spec l i u : at_pos l i u -> exists b, ends_with_optional_cr l i = Ret b /\ (b = true -> u = [] /\ last l <> Some 10 \/ u = [10] \/ u = [13; 10]).
Proof.
  intros Hat. pose proof (at_pos_len _ _ _ Hat) as Hlen. pose proof (zlen_nonneg u) as Hu. pose proof Hat as [Hi Hdrop]. unfold ends_with_optional_cr.
  destruct (tru (zlen l)) eqn:Hz; [apply tru_true in Hz|apply tru_false in Hz; run; destruct (Z.eqb_spec (zlen l) i); [|by exists false]; exists true; split; [done|]; intros _; left; destruct l; [|rewrite zlen_cons in Hz; pose proof (zlen_nonneg l); lia]; destruct u; [done|rewrite zlen_cons in Hlen; pose proof (zlen_nonneg u); lia]].
  destruct (rd_in l (zlen l - 1)) as [c Hc]; [pose proof (zlen_nonneg l); lia|]. rewrite Hc. run. apply rd_Ret in Hc as [_ Hc]. assert (last l = Some c) as Hlast by (rewrite last_lookup; replace (Nat.pred (length l)) with (Z.to_nat (zlen l - 1)) by (unfold zlen; lia); exact Hc).
  assert (u <> [] -> last u = Some c) as Hlu. { intros Hne. rewrite <-Hlast, <-(take_drop (Z.to_nat i) l), Hdrop, last_app. destruct u; [done|]. by destruct (last (z :: u)) eqn:E; [|apply last_None in E]. }
  destruct (Z.eqb_spec c 10) as [->|Hne]; cbn [andb].
  - destruct (Z.eqb_spec (zlen l - 1) i).
    + exists true. split; [done|]. intros _. right. left. assert (zlen u = 1) as H1 by lia. destruct u as [|x [|y u]]; try (unfold zlen in H1; cbn in H1; lia). specialize (Hlu ltac:(done)). by injection Hlu as ->.
    + destruct (Z.eqb_spec (zlen l - 1) (i + 1)); [|by exists false]. assert (zlen u = 2) as H2 by lia. destruct u as [|x [|y [|z u]]]; try (unfold zlen in H2; cbn in H2; lia).
      destruct (at_pos_cons _ _ _ _ Hat) as [-> _]. run. specialize (Hlu ltac:(done)). injection Hlu as ->. exists (x =? 13). split; [done|]. intros ->%Z.eqb_eq. by right; right.
  - destruct (Z.eqb_spec (zlen l) i); [|by exists false]. exists true. split; [done|]. intros _. left. split; [|congruence]. destruct u; [done|rewrite zlen_cons in Hlen; pose proof (zlen_nonneg u); lia].
Qed.

Lemma weak_end p u : u = [] /\ last (p ++ u) <> Some 10 \/ u = [10] \/ u = [13; 10] -> weak (p ++ u) = trim_end (fun c => c =? 13) p.
Proof.
  unfold weak, chomp. intros [[-> Hl]|[->| ->]].
  - rewrite app_nil_r in *. by rewrite bool_decide_false.
  - by rewrite last_snoc, bool_decide_true, removelast_last by done.
  - replace (p ++ [13; 10]) with ((p ++ [13]) ++ [10]) by (by rewrite <-(assoc app)). rewrite last_snoc, bool_decide_true, removelast_last by done. by rewrite trim_end_snoc.
Qed.

(** For all flags matching ends, and lines that match are equal but for what the flags ignore. *)
Lemma recmatch_loose l1 l2 flags : exists b, xdl_recmatch l1 l2 flags = Ret b /\ (b = true -> loose flags l1 = loose flags l2) /\ (precise flags = true -> b = bool_decide (key flags l1 = key flags l2)).
Proof.
  unfold loose. destruct (precise flags) eqn:Hp.
  - exists (bool_decide (key flags l1 = key flags l2)). split; [by apply recmatch_key|]. split; [by intros ?%bool_decide_eq_true|done].
  - destruct (imprecise flags Hp) as (Hw & H1 & H2 & H3 & H4). unfold xdl_recmatch. case_bool_decide as Heq; [exists true; split; [done|]; split; [by subst|done]|]. rewrite Hw, H1, H2, H3, H4. cbn [negb].
    destruct (cr_loop l1 l2 (S (length l1 + length l2)) 0 0 l1 l2 (at_pos_0 l1) (at_pos_0 l2) ltac:(lia)) as (j1 & j2 & p & u1 & u2 & -> & Hl1 & Hl2 & Hj1 & Hj2). run.
    destruct (optional_cr_spec _ _ _ Hj1) as (b1 & -> & Hb1). run. destruct b1; [|exists false; split; [done|by split]]. destruct (optional_cr_spec _ _ _ Hj2) as (b2 & -> & Hb2). exists b2. split; [done|]. split; [|done].
    intros ->. specialize (Hb1 eq_refl). specialize (Hb2 eq_refl). clear Hj1 Hj2. subst l1 l2. by rewrite !weak_end.
Qed.

(** A line: its only newline is at its end. *)
Definition is_line (l : list Z) : Prop := l <> [] /\ fst (first_line 10 l) = l.

(** [C40] Matching and hashing lines end within the lines, and agree: but for the flag that
    ignores carriage returns alone, matching decides equality of normal forms (no white
    space with -w, runs of white space as one with -b, without white space at the end, or
    the line itself without such flags), so that it is an equivalence, and lines that
    match have the same hash: [xdl_classify_record] may look for them by their hash.  With
    that one flag lines that match are equal up to newline and carriage returns at their
    end ([recmatch_cr_hash] shows that the other two properties fail).  The lines are
    shorter than 2 GiB, because [xdl_recmatch] keeps positions in ints. *)
Theorem recmatch_hash l1 l2 flags : is_line l1 -> is_line l2 -> zlen l1 < 2 ^ 31 -> zlen l2 < 2 ^ 31 ->
  exists b h1 h2, xdl_recmatch l1 l2 flags = Ret b /\ xdl_hash_record l1 0 flags = Ret (h1, zlen l1) /\ xdl_hash_record l2 0 flags = Ret (h2, zlen l2) /\
    (precise flags = true -> (b = true <-> key flags l1 = key flags l2) /\ (b = true -> h1 = h2)) /\
    (precise flags = false -> b = true -> weak l1 = weak l2).
Proof.
  intros [Hne1 Hl1] [Hne2 Hl2] _ _. destruct (recmatch_loose l1 l2 flags) as (b & Hb & Hloose & Hkey). exists b, (line_hash flags l1), (line_hash flags l2). split; [done|].
  destruct (hash_record_spec l1 0 l1 flags (at_pos_0 l1) Hne1) as [-> _]. destruct (hash_record_spec l2 0 l2 flags (at_pos_0 l2) Hne2) as [-> _]. rewrite Hl1, Hl2. split; [done|]. split; [done|]. split.
  - intros Hp. rewrite (Hkey Hp). rewrite bool_decide_eq_true. split; [done|]. intros Hk. unfold line_hash. by rewrite (key_normal _ _ _ Hk).
  - intros Hp Hbt. specialize (Hloose Hbt). unfold loose in Hloose. by rewrite Hp in Hloose.
Qed.
End key.

Lemma recmatch_hash_witness : let flags := XDF_IGNORE_WHITESPACE_CHANGE in let l1 := [97; 32; 32; 98; 13; 10] in let l2 := [97; 9; 98; 10] in
  exists b h1 h2, xdl_recmatch l1 l2 flags = Ret b /\ xdl_hash_record l1 0 flags = Ret (h1, zlen l1) /\ xdl_hash_record l2 0 flags = Ret (h2, zlen l2) /\
    (precise flags = true -> (b = true <-> key flags l1 = key flags l2) /\ (b = true -> h1 = h2)) /\ (precise flags = false -> b = true -> weak l1 = weak l2).
Proof.
  cbv zeta. apply (@recmatch_hash xdiff_ref xdiff_ref_ok [97; 32; 32; 98; 13; 10] [97; 9; 98; 10] XDF_IGNORE_WHITESPACE_CHANGE).
  - split; [discriminate|reflexivity].
  - split; [discriminate|reflexivity].
  - reflexivity.
  - reflexivity.
Defined.

(** With the flag for carriage returns alone a match does not imply the same hash: the
    last line of a file without newline keeps its carriage return in the hash. *)
Example recmatch_cr_hash : let flags := XDF_IGNORE_CR_AT_EOL in
  xdl_recmatch [97; 13] [97; 13; 10] flags = Ret true /\ (exists h1 h2, xdl_hash_record [97; 13] 0 flags = Ret (h1, 2) /\ xdl_hash_record [97; 13; 10] 0 flags = Ret (h2, 3) /\ h1 <> h2) /\
  xdl_recmatch [97; 13; 10] [97; 10] flags = Ret true /\ xdl_recmatch [97; 13] [97; 10] flags = Ret false.
Proof. cbv zeta. split; [by vm_compute|]. split; [|by vm_compute]. eexists _, _. split; [by vm_compute|]. split; [by vm_compute|]. done. Qed.
