(* ===== verification/XdiffSplit.v ===== *)
(** xdiff_xdiffi.c, [xdl_split]: the search for a point where to divide a box of two
    files, by Myers' algorithm from both corners at once, with the heuristics that
    cut it short.  The theorem is that the search stays in its arrays, ends, and
    divides the box into two smaller ones. *)
From S2P Require Import Prelude XdiffFile.

(** * Model *)

(** [xdalgoenv_t] and [xdpsplit_t] *)
Record xdalgoenv := AlgoEnv { mxcost : Z; snake_cnt : Z; heur_min : Z }.
Record xdpsplit := Split { spl_i1 : Z; spl_i2 : Z; min_lo : bool; min_hi : bool }.

Definition XDL_MAX_COST_MIN : Z := 256.
Definition XDL_HEUR_MIN_COST : Z := 256.
Definition XDL_LINE_MAX : Z := 2 ^ 63 - 1.
Definition XDL_SNAKE_CNT : Z := 20.
Definition XDL_K_HEUR : Z := 4.

(** The two files as the classes of their lines, the box, and where the diagonals
    start in the array [kvd] that holds both paths. *)
Section model.
Context (ha1 ha2 : list Z) (off1 lim1 off2 lim2 kvdf kvdb : Z) (need_min : bool) (xenv : xdalgoenv).

Let dmin : Z := off1 - lim2.
Let dmax : Z := lim1 - off2.
Let fmid : Z := off1 - off2.
Let bmid : Z := lim1 - lim2.
Let odd : bool := Z.odd (fmid - bmid).

(** [for (; i1 < lim1 && i2 < lim2 && ha1[i1] == ha2[i2]; i1++, i2++);] *)
Definition snake_step (st : Z * Z) : outcome ((Z * Z) + (Z * Z)) :=
  let '(i1, i2) := st in
  if negb ((i1 <? lim1) && (i2 <? lim2)) then Ret (inr (i1, i2)) else
  x ← rd ha1 i1;
  y ← rd ha2 i2;
  Ret (if x =? y then inl (i1 + 1, i2 + 1) else inr (i1, i2)).

(** [for (; i1 > off1 && i2 > off2 && ha1[i1 - 1] == ha2[i2 - 1]; i1--, i2--);] *)
Definition back_snake_step (st : Z * Z) : outcome ((Z * Z) + (Z * Z)) :=
  let '(i1, i2) := st in
  if negb ((i1 >? off1) && (i2 >? off2)) then Ret (inr (i1, i2)) else
  x ← rd ha1 (i1 - 1);
  y ← rd ha2 (i2 - 1);
  Ret (if x =? y then inl (i1 - 1, i2 - 1) else inr (i1, i2)).

(** One round of [for (d = fmax; d >= fmin; d -= 2)] on [kvd], [got_snake] and [d]; it
    ends with the point where the paths cross, if they do. *)
Definition forward_step (fmin bmin bmax : Z) (st : list Z * bool * Z) : outcome ((list Z * bool * Z) + (list Z * bool * option xdpsplit)) :=
  let '(kvd, got_snake, d) := st in
  if negb (d >=? fmin) then Ret (inr (kvd, got_snake, None)) else
  x ← rd kvd (kvdf + (d - 1));
  y ← rd kvd (kvdf + (d + 1));
  let i1 := if x >=? y then x + 1 else y in
  let prev1 := i1 in
  let i2 := i1 - d in
  '(i1, i2) ← loop (S (Z.to_nat (lim1 - i1))) snake_step (i1, i2);
  let got_snake := got_snake || (i1 - prev1 >? snake_cnt xenv) in
  kvd ← wr kvd (kvdf + d) i1;
  crossed ← (if odd && (bmin <=? d) && (d <=? bmax) then b ← rd kvd (kvdb + d); Ret (b <=? i1) else Ret false);
  if (crossed : bool) then Ret (inr (kvd, got_snake, Some (Split i1 i2 true true))) else
  Ret (inl (kvd, got_snake, d - 2)).

(** The same for [for (d = bmax; d >= bmin; d -= 2)]. *)
Definition backward_step (bmin fmin fmax : Z) (st : list Z * bool * Z) : outcome ((list Z * bool * Z) + (list Z * bool * option xdpsplit)) :=
  let '(kvd, got_snake, d) := st in
  if negb (d >=? bmin) then Ret (inr (kvd, got_snake, None)) else
  x ← rd kvd (kvdb + (d - 1));
  y ← rd kvd (kvdb + (d + 1));
  let i1 := if x <? y then x else y - 1 in
  let prev1 := i1 in
  let i2 := i1 - d in
  '(i1, i2) ← loop (S (Z.to_nat (i1 - off1))) back_snake_step (i1, i2);
  let got_snake := got_snake || (prev1 - i1 >? snake_cnt xenv) in
  kvd ← wr kvd (kvdb + d) i1;
  crossed ← (if negb odd && (fmin <=? d) && (d <=? fmax) then f ← rd kvd (kvdf + d); Ret (i1 <=? f) else Ret false);
  if (crossed : bool) then Ret (inr (kvd, got_snake, Some (Split i1 i2 true true))) else
  Ret (inl (kvd, got_snake, d - 2)).

(** [for (k = 1; ha1[i1 - k] == ha2[i2 - k]; k++)] and its mirror image: is there a
    snake of [snake_cnt] lines? *)
Definition long_snake_step (i1 i2 : Z) (k : Z) : outcome (Z + bool) :=
  x ← rd ha1 (i1 - k);
  y ← rd ha2 (i2 - k);
  if negb (x =? y) then Ret (inr false) else
  if k =? snake_cnt xenv then Ret (inr true) else Ret (inl (k + 1)).

Definition back_long_snake_step (i1 i2 : Z) (k : Z) : outcome (Z + bool) :=
  x ← rd ha1 (i1 + k);
  y ← rd ha2 (i2 + k);
  if negb (x =? y) then Ret (inr false) else
  if k =? snake_cnt xenv - 1 then Ret (inr true) else Ret (inl (k + 1)).

(** The samples of the diagonals: [best] and the point. *)
Definition sample_step (kvd : list Z) (ec fmin : Z) (st : Z * Z * Z * Z) : outcome ((Z * Z * Z * Z) + (Z * Z * Z)) :=
  let '(d, best, s1, s2) := st in
  if negb (d >=? fmin) then Ret (inr (best, s1, s2)) else
  let dd := if d >? fmid then d - fmid else fmid - d in
  i1 ← rd kvd (kvdf + d);
  let i2 := i1 - d in
  let v := (i1 - off1) + (i2 - off2) - dd in
  found ← (if (v >? XDL_K_HEUR * ec) && (v >? best) && (off1 + snake_cnt xenv <=? i1) && (i1 <? lim1) && (off2 + snake_cnt xenv <=? i2) && (i2 <? lim2)
           then loop (S (Z.to_nat (snake_cnt xenv))) (long_snake_step i1 i2) 1 else Ret false);
  Ret (inl (if (found : bool) then (d - 2, v, i1, i2) else (d - 2, best, s1, s2))).

Definition back_sample_step (kvd : list Z) (ec bmin : Z) (st : Z * Z * Z * Z) : outcome ((Z * Z * Z * Z) + (Z * Z * Z)) :=
  let '(d, best, s1, s2) := st in
  if negb (d >=? bmin) then Ret (inr (best, s1, s2)) else
  let dd := if d >? bmid then d - bmid else bmid - d in
  i1 ← rd kvd (kvdb + d);
  let i2 := i1 - d in
  let v := (lim1 - i1) + (lim2 - i2) - dd in
  found ← (if (v >? XDL_K_HEUR * ec) && (v >? best) && (off1 <? i1) && (i1 <=? lim1 - snake_cnt xenv) && (off2 <? i2) && (i2 <=? lim2 - snake_cnt xenv)
           then loop (S (Z.to_nat (snake_cnt xenv))) (back_long_snake_step i1 i2) 0 else Ret false);
  Ret (inl (if (found : bool) then (d - 2, v, i1, i2) else (d - 2, best, s1, s2))).

(** A point on an interesting path, if a diagonal has one. *)
Definition interesting (kvd : list Z) (ec fmin fmax bmin bmax : Z) : outcome (option xdpsplit) :=
  '(best, s1, s2) ← loop (S (S (Z.to_nat (fmax - fmin)))) (sample_step kvd ec fmin) (fmax, 0, 0, 0);
  if best >? 0 then Ret (Some (Split s1 s2 true false)) else
  '(best, s1, s2) ← loop (S (S (Z.to_nat (bmax - bmin)))) (back_sample_step kvd ec bmin) (bmax, 0, s1, s2);
  if best >? 0 then Ret (Some (Split s1 s2 false true)) else Ret None.

(** The furthest point of the paths, within the box: its sum and its first index. *)
Definition furthest_step (kvd : list Z) (fmin : Z) (st : Z * Z * Z) : outcome ((Z * Z * Z) + (Z * Z)) :=
  let '(d, fbest, fbest1) := st in
  if negb (d >=? fmin) then Ret (inr (fbest, fbest1)) else
  x ← rd kvd (kvdf + d);
  let i1 := Z.min x lim1 in
  let i2 := i1 - d in
  let '(i1, i2) := if lim2 <? i2 then (lim2 + d, lim2) else (i1, i2) in
  Ret (inl (if fbest <? i1 + i2 then (d - 2, i1 + i2, i1) else (d - 2, fbest, fbest1))).

Definition back_furthest_step (kvd : list Z) (bmin : Z) (st : Z * Z * Z) : outcome ((Z * Z * Z) + (Z * Z)) :=
  let '(d, bbest, bbest1) := st in
  if negb (d >=? bmin) then Ret (inr (bbest, bbest1)) else
  x ← rd kvd (kvdb + d);
  let i1 := Z.max off1 x in
  let i2 := i1 - d in
  let '(i1, i2) := if i2 <? off2 then (off2 + d, off2) else (i1, i2) in
  Ret (inl (if i1 + i2 <? bbest then (d - 2, i1 + i2, i1) else (d - 2, bbest, bbest1))).

Definition furthest (kvd : list Z) (fmin fmax bmin bmax : Z) : outcome xdpsplit :=
  '(fbest, fbest1) ← loop (S (S (Z.to_nat (fmax - fmin)))) (furthest_step kvd fmin) (fmax, -1, -1);
  '(bbest, bbest1) ← loop (S (S (Z.to_nat (bmax - bmin)))) (back_furthest_step kvd bmin) (bmax, XDL_LINE_MAX, XDL_LINE_MAX);
  Ret (if (lim1 + lim2) - bbest <? fbest - (off1 + off2) then Split fbest1 (fbest - fbest1) true false
       else Split bbest1 (bbest - bbest1) false true).

(** One more diagonal on either side, or one less at the edge of the box. *)
Definition extend_min (kvd : list Z) (base lo sentinel : Z) : outcome (list Z * Z) :=
  if lo >? dmin then kvd ← wr kvd (base + (lo - 1 - 1)) sentinel; Ret (kvd, lo - 1) else Ret (kvd, lo + 1).

Definition extend_max (kvd : list Z) (base hi sentinel : Z) : outcome (list Z * Z) :=
  if hi <? dmax then kvd ← wr kvd (base + (hi + 1 + 1)) sentinel; Ret (kvd, hi + 1) else Ret (kvd, hi - 1).

(** One round of [for (ec = 1;; ec++)] on [kvd], [ec] and the ends of the diagonals. *)
Definition split_round (st : list Z * Z * Z * Z * Z * Z) : outcome ((list Z * Z * Z * Z * Z * Z) + (list Z * xdpsplit * Z)) :=
  let '(kvd, ec, fmin, fmax, bmin, bmax) := st in
  '(kvd, fmin) ← extend_min kvd kvdf fmin (-1);
  '(kvd, fmax) ← extend_max kvd kvdf fmax (-1);
  '(kvd, got_snake, found) ← loop (S (S (Z.to_nat (fmax - fmin)))) (forward_step fmin bmin bmax) (kvd, false, fmax);
  match found with
  | Some spl => Ret (inr (kvd, spl, ec))
  | None =>
      '(kvd, bmin) ← extend_min kvd kvdb bmin XDL_LINE_MAX;
      '(kvd, bmax) ← extend_max kvd kvdb bmax XDL_LINE_MAX;
      '(kvd, got_snake, found) ← loop (S (S (Z.to_nat (bmax - bmin)))) (backward_step bmin fmin fmax) (kvd, got_snake, bmax);
      match found with
      | Some spl => Ret (inr (kvd, spl, ec))
      | None =>
          if need_min then Ret (inl (kvd, ec + 1, fmin, fmax, bmin, bmax)) else
          sample ← (if got_snake && (ec >? heur_min xenv) then interesting kvd ec fmin fmax bmin bmax else Ret None);
          match sample with
          | Some spl => Ret (inr (kvd, spl, ec))
          | None =>
              if ec >=? mxcost xenv then spl ← furthest kvd fmin fmax bmin bmax; Ret (inr (kvd, spl, ec))
              else Ret (inl (kvd, ec + 1, fmin, fmax, bmin, bmax))
          end
      end
  end.

(** The K vectors, the split, and the cost. *)
Definition xdl_split (kvd : list Z) : outcome (list Z * xdpsplit * Z) :=
  kvd ← wr kvd (kvdf + fmid) off1;
  kvd ← wr kvd (kvdb + bmid) lim1;
  loop (S (Z.to_nat ((lim1 - off1) + (lim2 - off2)))) split_round (kvd, 1, fmid, fmid, bmid, bmid).
End model.

(** * The paths *)

(** One of the two paths, in a box from [o1, o2] to [l1, l2]; the other is the mirror
    image of one.  After [e] steps it is known on the diagonals [on e], where it is at
    [F d] in the first file and [F d - d] in the second. *)
Section path.
Context (o1 l1 o2 l2 : Z) (Hn : o1 < l1) (Hm : o2 < l2).
Implicit Types (e d p : Z) (F G : Z -> Z).

Ltac Zify.zify_post_hook ::= Z.div_mod_to_equations.

Definition on e d : Prop := o1 - l2 <= d <= l1 - o2 /\ Z.abs (d - (o1 - o2)) <= e /\ (d - (o1 - o2) - e) mod 2 = 0.

(** A path that leaves the box on one side has a neighbour at that side. *)
Definition level e F : Prop := forall d, on e d ->
  (o1 <= F d /\ o2 <= F d - d /\ o1 + o2 + e <= 2 * F d - d) /\
  (l2 + 1 <= F d - d -> l1 - o2 < d + 2 \/ (on e (d + 2) /\ l2 <= F (d + 2) - (d + 2))) /\
  (l1 + 1 <= F d -> d - 2 < o1 - l2 \/ (on e (d - 2) /\ l1 <= F (d - 2))).

(** The further of the two neighbours, one step on. *)
Definition reach e F' d p : Prop :=
  ((on (e - 1) (d - 1) /\ p = F' (d - 1) + 1) \/ (on (e - 1) (d + 1) /\ p = F' (d + 1))) /\
  (on (e - 1) (d - 1) -> F' (d - 1) + 1 <= p) /\ (on (e - 1) (d + 1) -> F' (d + 1) <= p).

(** ... and then a snake within the box. *)
Definition next_level e F' F : Prop := forall d, on e d -> exists p, reach e F' d p /\ (F d = p \/ (p < F d /\ F d <= l1 /\ F d - d <= l2)).

Lemma level_0 F : F (o1 - o2) = o1 -> level 0 F.
Proof. intros HF d Hd. assert (d = o1 - o2) as -> by (unfold on in Hd; lia). rewrite HF. lia. Qed.

Lemma on_down e d : 1 <= e -> on (e - 1) (d + 1) -> d + 2 <= l1 - o2 -> on e (d + 2).
Proof. unfold on. lia. Qed.

Lemma on_up e d : 1 <= e -> on (e - 1) (d - 1) -> o1 - l2 <= d - 2 -> on e (d - 2).
Proof. unfold on. lia. Qed.

Lemma next_ge e F' F d : next_level e F' F -> on e d -> (on (e - 1) (d - 1) -> F' (d - 1) + 1 <= F d) /\ (on (e - 1) (d + 1) -> F' (d + 1) <= F d).
Proof. intros HF Hd. destruct (HF d Hd) as (p & (_ & H1 & H2) & Hp). split; intros Hon; [specialize (H1 Hon)|specialize (H2 Hon)]; lia. Qed.

Lemma reach_low e F' d p : level (e - 1) F' -> reach e F' d p -> o1 <= p /\ o2 <= p - d /\ o1 + o2 + e <= 2 * p - d.
Proof. intros HF ([[Hon ->]|[Hon ->]] & _); destruct (HF _ Hon) as (? & _); lia. Qed.

Lemma level_ext e F F' : (forall d, on e d -> F d = F' d) -> level e F -> level e F'.
Proof.
  intros Hx HF d Hd. destruct (HF d Hd) as (Hl & HI & HJ). rewrite <-Hx by done. split; [done|]. split; [intros Ho; destruct (HI Ho) as [?|[Hd2 ?]]|intros Ho; destruct (HJ Ho) as [?|[Hd2 ?]]]; try (by left); right; by rewrite <-Hx.
Qed.

Lemma level_next e F' F : 1 <= e -> level (e - 1) F' -> next_level e F' F -> level e F.
Proof.
  intros He HF' HF d Hd. destruct (HF d Hd) as (p & (Hsrc & _ & _) & Hp).
  assert ((o1 <= p /\ o2 <= p - d /\ o1 + o2 + e <= 2 * p - d) /\ (l2 + 1 <= p - d -> l1 - o2 < d + 2 \/ (on e (d + 2) /\ l2 <= F (d + 2) - (d + 2))) /\
    (l1 + 1 <= p -> d - 2 < o1 - l2 \/ (on e (d - 2) /\ l1 <= F (d - 2)))) as (Hlow & Hbelow & Hright).
  { destruct Hsrc as [[Hon ->]|[Hon ->]]; destruct (HF' _ Hon) as (Hl & HI & HJ).
    - split; [lia|]. split.
      + intros Hout. destruct (HI ltac:(lia)) as [?|[Hon2 Hedge]]; [left; lia|]. replace (d - 1 + 2) with (d + 1) in * by lia.
        destruct (Z.le_gt_cases (d + 2) (l1 - o2)); [right|left; lia]. pose proof (on_down e d He Hon2 ltac:(lia)) as Hon3. split; [done|].
        destruct (next_ge e F' F (d + 2) HF Hon3) as [Hge _]. replace (d + 2 - 1) with (d + 1) in Hge by lia. specialize (Hge Hon2). lia.
      + intros Hout. destruct (Z.le_gt_cases (o1 - l2) (d - 2)); [right|left; lia]. pose proof (on_up e d He Hon ltac:(lia)) as Hon3. split; [done|].
        destruct (next_ge e F' F (d - 2) HF Hon3) as [_ Hge]. replace (d - 2 + 1) with (d - 1) in Hge by lia. specialize (Hge Hon). lia.
    - split; [lia|]. split.
      + intros Hout. destruct (Z.le_gt_cases (d + 2) (l1 - o2)); [right|left; lia]. pose proof (on_down e d He Hon ltac:(lia)) as Hon3. split; [done|].
        destruct (next_ge e F' F (d + 2) HF Hon3) as [Hge _]. replace (d + 2 - 1) with (d + 1) in Hge by lia. specialize (Hge Hon). lia.
      + intros Hout. destruct (HJ ltac:(lia)) as [?|[Hon2 Hedge]]; [left; lia|]. replace (d + 1 - 2) with (d - 1) in * by lia.
        destruct (Z.le_gt_cases (o1 - l2) (d - 2)); [right|left; lia]. pose proof (on_up e d He Hon2 ltac:(lia)) as Hon3. split; [done|].
        destruct (next_ge e F' F (d - 2) HF Hon3) as [_ Hge]. replace (d - 2 + 1) with (d - 1) in Hge by lia. specialize (Hge Hon2). lia. }
  destruct Hp as [->|(? & ? & ?)]; [done|]. split; [lia|]. split; lia.
Qed.
End path.

(** The path from one corner and the mirror image [G] of the path from the other. *)
Section meeting.
Context (o1 l1 o2 l2 : Z) (Hn : o1 < l1) (Hm : o2 < l2).
Implicit Types (e g d p : Z) (F G : Z -> Z).

Local Ltac Zify.zify_post_hook ::= Z.div_mod_to_equations.

Notation onF := (on o1 l1 o2 l2).
Notation onG := (on (- l1) (- o1) (- l2) (- o2)).
Notation levelF := (level o1 l1 o2 l2).
Notation levelG := (level (- l1) (- o1) (- l2) (- o2)).

(** The paths do not meet: on common diagonals the first is before the second. *)
Definition apart e g F G : Prop := forall d, onF e d -> onG g (- d) -> F d + G (- d) < 0.

(** Where the paths can meet, they are in the box. *)
Lemma no_right e g F' G d : 1 <= g -> levelF (e - 1) F' -> levelG (g - 1) G -> apart (e - 1) (g - 1) F' G ->
  onF (e - 1) (d - 1) -> onG g (- d) -> l1 <= F' (d - 1) -> False.
Proof.
  intros Hg HF HG Hap Hd HdG Hout. destruct (decide (l1 - l2 - g <= d - 2)) as [Hin|Hin].
  - assert (onG (g - 1) (- (d - 1))) as Hon by (unfold on in *; lia). pose proof (Hap _ Hd Hon). destruct (HG _ Hon) as (? & _). lia.
  - assert (d = l1 - l2 - g) as Hdv by (unfold on in HdG; lia). destruct (HF _ Hd) as (_ & HI & _). destruct (HI ltac:(lia)) as [?|[Hd2 Hedge]]; [unfold on in *; lia|]. replace (d - 1 + 2) with (d + 1) in * by lia.
    assert (onG (g - 1) (- (d + 1))) as Hon by (unfold on in *; lia). pose proof (Hap _ Hd2 Hon). destruct (HG _ Hon) as (? & _). lia.
Qed.

Lemma no_below e g F' G d : 1 <= g -> levelF (e - 1) F' -> levelG (g - 1) G -> apart (e - 1) (g - 1) F' G ->
  onF (e - 1) (d + 1) -> onG g (- d) -> l2 <= F' (d + 1) - (d + 1) -> False.
Proof.
  intros Hg HF HG Hap Hd HdG Hout. destruct (decide (d + 2 <= l1 - l2 + g)) as [Hin|Hin].
  - assert (onG (g - 1) (- (d + 1))) as Hon by (unfold on in *; lia). pose proof (Hap _ Hd Hon). destruct (HG _ Hon) as (? & _). lia.
  - assert (d = l1 - l2 + g) as Hdv by (unfold on in HdG; lia). destruct (HF _ Hd) as (_ & _ & HJ). destruct (HJ ltac:(lia)) as [?|[Hd2 Hedge]]; [unfold on in *; lia|]. replace (d + 1 - 2) with (d - 1) in * by lia.
    assert (onG (g - 1) (- (d - 1))) as Hon by (unfold on in *; lia). pose proof (Hap _ Hd2 Hon). destruct (HG _ Hon) as (? & _). lia.
Qed.

Lemma meet_inside e g F' G d p : 1 <= g -> levelF (e - 1) F' -> levelG (g - 1) G -> apart (e - 1) (g - 1) F' G -> reach o1 l1 o2 l2 e F' d p ->
  onF e d -> onG g (- d) -> p <= l1 /\ p - d <= l2.
Proof.
  intros Hg HF HG Hap (Hsrc & _) Hd HdG. pose proof (no_right e g F' G d Hg HF HG Hap) as Hr. pose proof (no_below e g F' G d Hg HF HG Hap) as Hb.
  destruct Hsrc as [[Hon ->]|[Hon ->]]; destruct (HF _ Hon) as (_ & HI & HJ).
  - destruct (decide (l1 <= F' (d - 1))) as [?|Hlt]; [by destruct Hr|]. split; [lia|]. destruct (decide (l2 + 1 <= F' (d - 1) - (d - 1))) as [Hout|]; [|lia].
    destruct (HI Hout) as [?|[Hd2 Hedge]]; [unfold on in *; lia|]. replace (d - 1 + 2) with (d + 1) in * by lia. by destruct Hb.
  - destruct (decide (l2 <= F' (d + 1) - (d + 1))) as [?|Hlt]; [by destruct Hb|]. split; [|lia]. destruct (decide (l1 + 1 <= F' (d + 1))) as [Hout|]; [|lia].
    destruct (HJ Hout) as [?|[Hd2 Hedge]]; [unfold on in *; lia|]. replace (d + 1 - 2) with (d - 1) in * by lia. by destruct Hr.
Qed.

Lemma first_inside F' d p : F' (o1 - o2) = o1 -> reach o1 l1 o2 l2 1 F' d p -> p <= l1 /\ p - d <= l2.
Proof.
  intros HF (Hsrc & _). destruct Hsrc as [[Hon ->]|[Hon ->]].
  - assert (d - 1 = o1 - o2) as E by (unfold on in Hon; lia). rewrite E, HF. lia.
  - assert (d + 1 = o1 - o2) as E by (unfold on in Hon; lia). rewrite E, HF. lia.
Qed.

(** A path comes to the other corner only along a snake. *)
Lemma corner_by_snake e g F' G p : 1 <= g -> g mod 2 = 1 -> levelG g G -> apart (e - 1) g F' G -> reach o1 l1 o2 l2 e F' (l1 - l2) p -> p < l1.
Proof.
  intros Hg Hodd HG Hap (Hsrc & _). destruct Hsrc as [[Hon ->]|[Hon ->]].
  - assert (onG g (- (l1 - l2 - 1))) as HonG by (unfold on in *; lia). pose proof (Hap _ Hon HonG). destruct (HG _ HonG) as (? & _). lia.
  - assert (onG g (- (l1 - l2 + 1))) as HonG by (unfold on in *; lia). pose proof (Hap _ Hon HonG). destruct (HG _ HonG) as (? & _). lia.
Qed.

Lemma first_corner F' p : F' (o1 - o2) = o1 -> reach o1 l1 o2 l2 1 F' (l1 - l2) p -> p < l1.
Proof.
  intros HF (Hsrc & _). destruct Hsrc as [[Hon ->]|[Hon ->]].
  - assert (l1 - l2 - 1 = o1 - o2) as E by (unfold on in Hon; lia). rewrite E, HF. lia.
  - assert (l1 - l2 + 1 = o1 - o2) as E by (unfold on in Hon; lia). rewrite E, HF. lia.
Qed.

(** They meet after as many steps as the box has lines, at the latest. *)
Lemma must_meet e g F G : levelF e F -> levelG g G -> (l1 - o1) + (l2 - o2) <= e -> (l1 - o1) + (l2 - o2) - 1 <= g -> (e + g - ((o1 - o2) - (l1 - l2))) mod 2 = 0 -> ~ apart e g F G.
Proof.
  intros HF HG He Hg Hpar Hap.
  assert (exists d, onF e d /\ onG g (- d)) as (d & Hd & HdG) by (exists (o1 - l2 + (o1 - l2 - (o1 - o2) - e) mod 2); unfold on; lia).
  pose proof (Hap d Hd HdG). destruct (HF d Hd) as (? & _). destruct (HG _ HdG) as (? & _). lia.
Qed.
End meeting.

(** * The ends of the diagonals *)

Section ends.
Local Ltac Zify.zify_post_hook ::= Z.div_mod_to_equations.

(** The first diagonal after [e] steps from [mid], in a box whose first one is [dmin]. *)
Definition lo_of (dmin mid e : Z) : Z := if mid - e <? dmin then dmin + (mid - e - dmin) mod 2 else mid - e.
Definition hi_of (dmax mid e : Z) : Z := if dmax <? mid + e then dmax - (mid + e - dmax) mod 2 else mid + e.

Lemma lo_step dmin mid e : dmin < mid -> 0 <= e -> (if lo_of dmin mid e >? dmin then lo_of dmin mid e - 1 else lo_of dmin mid e + 1) = lo_of dmin mid (e + 1).
Proof. intros Hd He. unfold lo_of. rewrite Z.gtb_ltb. repeat case_if; lia. Qed.

Lemma hi_step dmax mid e : mid < dmax -> 0 <= e -> (if hi_of dmax mid e <? dmax then hi_of dmax mid e + 1 else hi_of dmax mid e - 1) = hi_of dmax mid (e + 1).
Proof. intros Hd He. unfold hi_of. repeat case_if; lia. Qed.

Lemma on_ends o1 l1 o2 l2 e d : o1 < l1 -> o2 < l2 -> 0 <= e ->
  on o1 l1 o2 l2 e d <-> lo_of (o1 - l2) (o1 - o2) e <= d <= hi_of (l1 - o2) (o1 - o2) e /\ (d - (o1 - o2) - e) mod 2 = 0.
Proof. intros Hn Hm He. unfold on, lo_of, hi_of. repeat case_if; lia. Qed.

Lemma back_on_ends o1 l1 o2 l2 e d : o1 < l1 -> o2 < l2 -> 0 <= e ->
  on (- l1) (- o1) (- l2) (- o2) e (- d) <-> lo_of (o1 - l2) (l1 - l2) e <= d <= hi_of (l1 - o2) (l1 - l2) e /\ (d - (l1 - l2) - e) mod 2 = 0.
Proof. intros Hn Hm He. unfold on, lo_of, hi_of. repeat case_if; lia. Qed.

Lemma ends_range dmin dmax mid e : dmin < mid < dmax -> 0 <= e ->
  dmin <= lo_of dmin mid e <= mid /\ mid <= hi_of dmax mid e <= dmax /\ (lo_of dmin mid e - mid - e) mod 2 = 0 /\ (hi_of dmax mid e - mid - e) mod 2 = 0.
Proof. intros Hd He. unfold lo_of, hi_of. repeat case_if; lia. Qed.
Lemma neighbour o1 l1 o2 l2 e d : o1 < l1 -> o2 < l2 -> 1 <= e -> on o1 l1 o2 l2 e d -> on o1 l1 o2 l2 (e - 1) (d - 1) \/ on o1 l1 o2 l2 (e - 1) (d + 1).
Proof. unfold on. lia. Qed.
End ends.

(** * The search *)

Section search.
Context (ha1 ha2 : list Z) (off1 lim1 off2 lim2 kvdf kvdb : Z) (need_min : bool) (xenv : xdalgoenv).

(** A box with lines of both files, of which the first two and the last two differ. *)
Record box_ok : Prop := {
  box_1 : 0 <= off1 < lim1 /\ lim1 <= zlen ha1 /\ lim1 < XDL_LINE_MAX;
  box_2 : 0 <= off2 < lim2 /\ lim2 <= zlen ha2 /\ lim1 + lim2 <= XDL_LINE_MAX;
  box_first : getk ha1 off1 <> getk ha2 off2;
  box_last : getk ha1 (lim1 - 1) <> getk ha2 (lim2 - 1);
  box_snake : 1 <= snake_cnt xenv;
}.

(** The diagonals of both paths have their places in [n] numbers. *)
Definition places (n : Z) : Prop := 0 <= kvdf + (off1 - lim2 - 1) /\ kvdf + (lim1 - off2 + 1) < kvdb + (off1 - lim2 - 1) /\ kvdb + (lim1 - off2 + 1) < n.

Context (Hbox : box_ok) (n : Z) (Hplaces : places n).
Implicit Types (kvd : list Z) (d e v : Z).

Notation onF := (on off1 lim1 off2 lim2).
Notation onG := (on (- lim1) (- off1) (- lim2) (- off2)).
Notation dmin := (off1 - lim2).
Notation dmax := (lim1 - off2).
Notation fmid := (off1 - off2).
Notation bmid := (lim1 - lim2).

Definition fwd kvd : Z -> Z := fun d => getk kvd (kvdf + d).
Definition bwd kvd : Z -> Z := fun d => getk kvd (kvdb + d).
Definition mirror (F : Z -> Z) : Z -> Z := fun d => - F (- d).

Lemma mirror_at F d : mirror F (- d) = - F d.
Proof. unfold mirror. by rewrite Z.opp_involutive. Qed.

Lemma snake_spec : forall k i1 i2, (Z.to_nat (lim1 - i1) < k)%nat -> 0 <= i1 -> 0 <= i2 ->
  exists v, loop k (snake_step ha1 ha2 lim1 lim2) (i1, i2) = Ret (v, v - (i1 - i2)) /\
    (v = i1 \/ i1 < v /\ v <= lim1 /\ v - (i1 - i2) <= lim2 /\ getk ha1 (v - 1) = getk ha2 (v - (i1 - i2) - 1)).
Proof.
  destruct Hbox as [[_ Hl1] [_ Hl2] _ _ _]. induction k as [|k IH]; intros i1 i2 Hk H1 H2; [lia|]. destruct ((i1 <? lim1) && (i2 <? lim2)) eqn:Ein.
  - assert (i1 < lim1 /\ i2 < lim2) as [Hi1 Hi2] by (apply andb_prop in Ein as [?%Z.ltb_lt ?%Z.ltb_lt]; done).
    assert (snake_step ha1 ha2 lim1 lim2 (i1, i2) = Ret (if getk ha1 i1 =? getk ha2 i2 then inl (i1 + 1, i2 + 1) else inr (i1, i2))) as Hstep.
    { unfold snake_step. rewrite Ein. cbn [negb]. rewrite !rd_getk by lia. done. }
    destruct (Z.eqb_spec (getk ha1 i1) (getk ha2 i2)) as [Heq|Hne].
    + rewrite (loop_next _ _ _ _ Hstep). destruct (IH (i1 + 1) (i2 + 1)) as (v & -> & Hv); [lia..|]. replace (i1 + 1 - (i2 + 1)) with (i1 - i2) in * by lia. exists v. split; [done|]. right.
      destruct Hv as [->|?]; [|lia]. replace (i1 + 1 - 1) with i1 by lia. replace (i1 + 1 - (i1 - i2) - 1) with i2 by lia. lia.
    + rewrite (loop_stop _ _ _ _ Hstep). exists i1. replace (i1 - (i1 - i2)) with i2 by lia. split; [done|by left].
  - exists i1. rewrite (loop_stop _ _ _ (i1, i2)) by (unfold snake_step; by rewrite Ein). replace (i1 - (i1 - i2)) with i2 by lia. split; [done|by left].
Qed.

Lemma back_snake_spec : forall k i1 i2, (Z.to_nat (i1 - off1) < k)%nat -> i1 <= lim1 -> i2 <= lim2 ->
  exists v, loop k (back_snake_step ha1 ha2 off1 off2) (i1, i2) = Ret (v, v - (i1 - i2)) /\
    (v = i1 \/ v < i1 /\ off1 <= v /\ off2 <= v - (i1 - i2) /\ getk ha1 v = getk ha2 (v - (i1 - i2))).
Proof.
  destruct Hbox as [[? Hl1] [? Hl2] _ _ _]. induction k as [|k IH]; intros i1 i2 Hk H1 H2; [lia|]. destruct ((i1 >? off1) && (i2 >? off2)) eqn:Ein.
  - assert (off1 < i1 /\ off2 < i2) as [Hi1 Hi2] by (rewrite !Z.gtb_ltb in Ein; apply andb_prop in Ein as [?%Z.ltb_lt ?%Z.ltb_lt]; done).
    assert (back_snake_step ha1 ha2 off1 off2 (i1, i2) = Ret (if getk ha1 (i1 - 1) =? getk ha2 (i2 - 1) then inl (i1 - 1, i2 - 1) else inr (i1, i2))) as Hstep.
    { unfold back_snake_step. rewrite Ein. cbn [negb]. rewrite !rd_getk by lia. done. }
    destruct (Z.eqb_spec (getk ha1 (i1 - 1)) (getk ha2 (i2 - 1))) as [Heq|Hne].
    + rewrite (loop_next _ _ _ _ Hstep). destruct (IH (i1 - 1) (i2 - 1)) as (v & -> & Hv); [lia..|]. replace (i1 - 1 - (i2 - 1)) with (i1 - i2) in * by lia. exists v. split; [done|]. right.
      destruct Hv as [->|?]; [|lia]. replace (i1 - 1 - (i1 - i2)) with (i2 - 1) by lia. lia.
    + rewrite (loop_stop _ _ _ _ Hstep). exists i1. replace (i1 - (i1 - i2)) with i2 by lia. split; [done|by left].
  - exists i1. rewrite (loop_stop _ _ _ (i1, i2)) by (unfold back_snake_step; by rewrite Ein). replace (i1 - (i1 - i2)) with i2 by lia. split; [done|by left].
Qed.

(** One step of a path on a diagonal: the further neighbour, and a snake. *)
Definition moved e (F : Z -> Z) d v : Prop :=
  exists p, reach off1 lim1 off2 lim2 e F d p /\ (v = p \/ p < v /\ v <= lim1 /\ v - d <= lim2 /\ getk ha1 (v - 1) = getk ha2 (v - d - 1)).

Definition back_moved e (B : Z -> Z) d v : Prop :=
  exists p, reach (- lim1) (- off1) (- lim2) (- off2) e (mirror B) (- d) (- p) /\ (v = p \/ v < p /\ off1 <= v /\ off2 <= v - d /\ getk ha1 v = getk ha2 (v - d)).

(** What the loops find of the step before: a sentinel where the path was not. *)
Definition fenced e (F : Z -> Z) : Prop := forall d, onF e d -> (onF (e - 1) (d - 1) \/ F (d - 1) = -1) /\ (onF (e - 1) (d + 1) \/ F (d + 1) = -1).

Definition back_fenced e (B : Z -> Z) : Prop := forall d, onG e (- d) -> (onG (e - 1) (- (d - 1)) \/ B (d - 1) = XDL_LINE_MAX) /\ (onG (e - 1) (- (d + 1)) \/ B (d + 1) = XDL_LINE_MAX).

Lemma farther_spec e F d : 1 <= e -> level off1 lim1 off2 lim2 (e - 1) F -> fenced e F -> onF e d ->
  reach off1 lim1 off2 lim2 e F d (if F (d - 1) >=? F (d + 1) then F (d - 1) + 1 else F (d + 1)).
Proof.
  intros He HF Hfence Hd. destruct Hbox as [? ? _ _ _]. destruct (Hfence d Hd) as [Hl Hr].
  assert (forall x, onF (e - 1) x -> 0 <= F x) as Hpos by (intros x Hx; destruct (HF x Hx) as (? & _); lia).
  pose proof (neighbour off1 lim1 off2 lim2 e d ltac:(lia) ltac:(lia) He Hd) as Hnb. rewrite Z.geb_leb. unfold reach.
  destruct (decide (onF (e - 1) (d - 1))) as [Ol|Nl], (decide (onF (e - 1) (d + 1))) as [Or|Nr].
  - destruct (Z.leb_spec (F (d + 1)) (F (d - 1))); (split; [auto|split; intros; lia]).
  - destruct Hr as [?|Hr]; [done|]. pose proof (Hpos _ Ol). rewrite Hr. destruct (Z.leb_spec (-1) (F (d - 1))); [|lia]. split; [auto|split; [lia|done]].
  - destruct Hl as [?|Hl]; [done|]. pose proof (Hpos _ Or). rewrite Hl. destruct (Z.leb_spec (F (d + 1)) (-1)); [lia|]. split; [auto|split; [done|lia]].
  - tauto.
Qed.

Lemma back_pick_spec e B d : 1 <= e -> level (- lim1) (- off1) (- lim2) (- off2) (e - 1) (mirror B) -> back_fenced e B -> onG e (- d) ->
  reach (- lim1) (- off1) (- lim2) (- off2) e (mirror B) (- d) (- (if B (d - 1) <? B (d + 1) then B (d - 1) else B (d + 1) - 1)).
Proof.
  intros He HF Hfence Hd. destruct Hbox as [? ? _ _ _]. destruct (Hfence d Hd) as [Hl Hr].
  assert (forall x, onG (e - 1) (- x) -> B x < XDL_LINE_MAX) as Hpos by (intros x Hx; destruct (HF (- x) Hx) as (Hlow & _); rewrite mirror_at in Hlow; lia).
  pose proof (neighbour (- lim1) (- off1) (- lim2) (- off2) e (- d) ltac:(lia) ltac:(lia) He Hd) as Hnb. unfold reach. replace (- d - 1) with (- (d + 1)) in * by lia. replace (- d + 1) with (- (d - 1)) in * by lia. rewrite !mirror_at.
  destruct (decide (onG (e - 1) (- (d - 1)))) as [Ol|Nl], (decide (onG (e - 1) (- (d + 1)))) as [Or|Nr].
  - destruct (Z.ltb_spec (B (d - 1)) (B (d + 1))); (split; [first [left; split; [done|lia]|right; split; [done|lia]]|split; intros; lia]).
  - destruct Hr as [?|Hr]; [done|]. pose proof (Hpos _ Ol). rewrite Hr. destruct (Z.ltb_spec (B (d - 1)) XDL_LINE_MAX); [|lia]. split; [auto|split; [done|lia]].
  - destruct Hl as [?|Hl]; [done|]. pose proof (Hpos _ Or). rewrite Hl. destruct (Z.ltb_spec XDL_LINE_MAX (B (d + 1))); [lia|]. split; [left; split; [done|lia]|split; [lia|done]].
  - tauto.
Qed.
Local Ltac Zify.zify_post_hook ::= Z.div_mod_to_equations.

Notation is_odd := (Z.odd (fmid - bmid)).

Lemma place_f kvd d : zlen kvd = n -> dmin - 1 <= d <= dmax + 1 -> 0 <= kvdf + d < zlen kvd.
Proof. destruct Hplaces as (? & ? & ?). destruct Hbox as [? ? _ _ _]. lia. Qed.

Lemma place_b kvd d : zlen kvd = n -> dmin - 1 <= d <= dmax + 1 -> 0 <= kvdb + d < zlen kvd.
Proof. destruct Hplaces as (? & ? & ?). destruct Hbox as [? ? _ _ _]. lia. Qed.

Lemma places_apart d d' : dmin - 1 <= d <= dmax + 1 -> dmin - 1 <= d' <= dmax + 1 -> kvdf + d < kvdb + d'.
Proof. destruct Hplaces as (? & ? & ?). lia. Qed.

Lemma moved_ext e F F' d v : (forall x, onF (e - 1) x -> F x = F' x) -> moved e F d v -> moved e F' d v.
Proof.
  intros Hx (p & (Hsrc & Hl & Hr) & Hv). exists p. split; [|done]. split; [|split].
  - destruct Hsrc as [[Hon ->]|[Hon ->]]; [left|right]; by rewrite Hx.
  - intros Hon. rewrite <-Hx by done. by apply Hl.
  - intros Hon. rewrite <-Hx by done. by apply Hr.
Qed.

(** The loop over the diagonals of the first path: it finds where the paths meet, or
    moves the path on everywhere. *)
Definition forward_post e kvd0 bmin bmax (r : list Z * bool * option xdpsplit) : Prop :=
  let '(kvd, _, found) := r in zlen kvd = n /\
  match found with
  | None => (forall d, onF e d -> moved e (fwd kvd0) d (fwd kvd d)) /\ (forall i, 0 <= i -> (forall d, onF e d -> i <> kvdf + d) -> getk kvd i = getk kvd0 i) /\
      (is_odd = true -> forall d, onF e d -> bmin <= d <= bmax -> fwd kvd d < bwd kvd0 d)
  | Some spl => is_odd = true /\ exists d v, onF e d /\ bmin <= d <= bmax /\ moved e (fwd kvd0) d v /\ spl = Split v (v - d) true true
  end.

Lemma forward_spec e kvd0 got0 fmin fmax bmin bmax : 1 <= e -> zlen kvd0 = n -> level off1 lim1 off2 lim2 (e - 1) (fwd kvd0) -> fenced e (fwd kvd0) ->
  fmin = lo_of dmin fmid e -> fmax = hi_of dmax fmid e -> dmin <= bmin -> bmax <= dmax ->
  exists r, loop (S (S (Z.to_nat (fmax - fmin)))) (forward_step ha1 ha2 off1 lim1 off2 lim2 kvdf kvdb xenv fmin bmin bmax) (kvd0, got0, fmax) = Ret r /\ forward_post e kvd0 bmin bmax r.
Proof.
  intros He Hn0 Hlev Hfence Hfmin Hfmax Hbmin Hbmax. destruct Hbox as [Hb1 Hb2 _ _ _]. pose proof (ends_range dmin dmax fmid e ltac:(lia) ltac:(lia)) as Hr. rewrite <-Hfmin, <-Hfmax in Hr.
  assert (forall d, onF e d <-> fmin <= d <= fmax /\ (d - fmid - e) mod 2 = 0) as Hends by (intros d; rewrite Hfmin, Hfmax; apply on_ends; lia).
  apply (loop_ret (fun '(kvd, got, d) => zlen kvd = n /\ (d - fmid - e) mod 2 = 0 /\ fmin - 2 <= d <= fmax /\
      (forall d', onF e d' -> d < d' -> moved e (fwd kvd0) d' (fwd kvd d')) /\ (forall i, 0 <= i -> (forall d', onF e d' -> d < d' -> i <> kvdf + d') -> getk kvd i = getk kvd0 i) /\
      (is_odd = true -> forall d', onF e d' -> d < d' -> bmin <= d' <= bmax -> fwd kvd d' < bwd kvd0 d'))
    (fun '(_, _, d) => Z.max 0 (d - fmin + 1)) (S (S (Z.to_nat (fmax - fmin)))) (forward_step ha1 ha2 off1 lim1 off2 lim2 kvdf kvdb xenv fmin bmin bmax) (kvd0, got0, fmax)).
  2:{ split; [done|]. split; [lia|]. split; [lia|]. split; [intros d' Hd' ?; apply Hends in Hd'; lia|]. split; [done|]. intros _ d' Hd' ?. apply Hends in Hd'; lia. }
  2:{ cbv beta iota. lia. }
  intros [[kvd got] d] (Hlen & Hpar & Hd & Hmoved & Hframe & Hapart). unfold forward_step. rewrite Z.geb_leb. destruct (Z.leb_spec fmin d) as [Hge|Hlt]; cbn [negb].
  2:{ eexists. split; [done|]. split; [done|]. cbv beta iota. split; [intros d' Hd'; apply Hmoved; [done|]; apply Hends in Hd'; lia|]. split.
      - intros i Hi Hne. apply Hframe; [done|]. intros d' Hd' _. by apply Hne.
      - intros Ho d' Hd'. apply Hapart; [done..|]. apply Hends in Hd'; lia. }
  assert (onF e d) as Hon by (apply Hends; lia). pose proof (place_f kvd d Hlen ltac:(lia)) as Hpd.
  assert (forall x, dmin - 1 <= x <= dmax + 1 -> (x - d) mod 2 = 1 -> getk kvd (kvdf + x) = getk kvd0 (kvdf + x)) as Hold.
  { intros x Hx Hodd. apply Hframe; [pose proof (place_f kvd x Hlen Hx); lia|]. intros d' Hd' _ Heq. apply Hends in Hd'. lia. }
  rewrite !rd_getk by (apply place_f; [done|lia]). run. rewrite !Hold by lia. fold (fwd kvd0 (d - 1)) (fwd kvd0 (d + 1)).
  pose proof (farther_spec e (fwd kvd0) d He Hlev Hfence Hon) as Hpick. set (p := if _ >=? _ then _ else _) in *.
  assert (0 <= p /\ 0 <= p - d) as [Hp1 Hp2] by (destruct Hpick as ([[Ho ->]|[Ho ->]] & _); destruct (Hlev _ Ho) as (? & _); lia).
  destruct (snake_spec (S (Z.to_nat (lim1 - p))) p (p - d) ltac:(lia) Hp1 Hp2) as (v & -> & Hv). replace (p - (p - d)) with d in Hv by lia. replace (v - (p - (p - d))) with (v - d) by lia. run.
  destruct (wr_getk kvd (kvdf + d) v Hpd) as (kvd1 & -> & Hlen1 & Hget). run. assert (moved e (fwd kvd0) d v) as Hmv by (exists p; split; [done|]; lia).
  assert (forall x, onF e x -> d < x -> fwd kvd1 x = fwd kvd x) as Hkeep by (intros x Hx Hlt; unfold fwd; apply Hends in Hx; pose proof (place_f kvd x Hlen ltac:(lia)); rewrite Hget by lia; rewrite decide_False by lia; done).
  assert (fwd kvd1 d = v) as Hnew by (unfold fwd; rewrite Hget by lia; by rewrite decide_True).
  assert (exists b : bool, (if is_odd && (bmin <=? d) && (d <=? bmax) then b ← rd kvd1 (kvdb + d); Ret (b <=? v) else Ret false) = Ret b /\ (b = true -> is_odd = true /\ bmin <= d <= bmax) /\
    (b = false -> is_odd = true -> bmin <= d <= bmax -> v < bwd kvd0 d)) as (b & Hcross & Hyes & Hno).
  { destruct is_odd; cbn [andb]; [|exists false; by repeat split]. destruct (Z.leb_spec bmin d), (Z.leb_spec d bmax); cbn [andb]; try (exists false; split; [done|]; split; [done|]; lia).
    rewrite rd_getk by (rewrite Hlen1; apply place_b; [done|lia]). run. exists (getk kvd1 (kvdb + d) <=? v). split; [done|]. split; [done|]. intros Hb _ _. apply Z.leb_gt in Hb.
    pose proof (place_b kvd d Hlen ltac:(lia)). pose proof (places_apart d d ltac:(lia) ltac:(lia)). rewrite Hget, decide_False in Hb by lia. rewrite Hframe in Hb; [done|lia|]. intros d' Hd' _ Heq. apply Hends in Hd'. pose proof (places_apart d' d ltac:(lia) ltac:(lia)). lia. }
  rewrite Hcross. run. destruct b.
  - destruct (Hyes eq_refl) as [Ho Hbd]. eexists. split; [done|]. cbv beta iota. split; [by rewrite Hlen1|]. split; [done|]. by exists d, v.
  - eexists. split; [done|]. cbv beta iota. split; [|lia]. split; [by rewrite Hlen1|]. split; [lia|]. split; [lia|]. split; [|split].
    + intros d' Hd' Hlt. destruct (decide (d' = d)) as [->|Hne]; [by rewrite Hnew|]. assert (d < d') as Hdd by (apply Hends in Hd'; lia). rewrite Hkeep by done. by apply Hmoved.
    + intros i Hi Hne. rewrite Hget by done. rewrite decide_False by (by apply Hne; [|lia]). apply Hframe; [done|]. intros d' Hd' Hlt. apply Hne; [done|lia].
    + intros Ho d' Hd' Hlt Hbd. destruct (decide (d' = d)) as [->|Hne]; [rewrite Hnew; by apply Hno|]. assert (d < d') as Hdd by (apply Hends in Hd'; lia). rewrite Hkeep by done. by apply Hapart.
Qed.


(** The loop over the diagonals of the other path. *)
Definition backward_post e kvd0 fmin fmax (r : list Z * bool * option xdpsplit) : Prop :=
  let '(kvd, _, found) := r in zlen kvd = n /\
  match found with
  | None => (forall d, onG e (- d) -> back_moved e (bwd kvd0) d (bwd kvd d)) /\ (forall i, 0 <= i -> (forall d, onG e (- d) -> i <> kvdb + d) -> getk kvd i = getk kvd0 i) /\
      (is_odd = false -> forall d, onG e (- d) -> fmin <= d <= fmax -> fwd kvd0 d < bwd kvd d)
  | Some spl => is_odd = false /\ exists d v, onG e (- d) /\ fmin <= d <= fmax /\ back_moved e (bwd kvd0) d v /\ spl = Split v (v - d) true true
  end.

Lemma backward_spec e kvd0 got0 bmin bmax fmin fmax : 1 <= e -> zlen kvd0 = n -> level (- lim1) (- off1) (- lim2) (- off2) (e - 1) (mirror (bwd kvd0)) -> back_fenced e (bwd kvd0) ->
  bmin = lo_of dmin bmid e -> bmax = hi_of dmax bmid e -> dmin <= fmin -> fmax <= dmax ->
  exists r, loop (S (S (Z.to_nat (bmax - bmin)))) (backward_step ha1 ha2 off1 lim1 off2 lim2 kvdf kvdb xenv bmin fmin fmax) (kvd0, got0, bmax) = Ret r /\ backward_post e kvd0 fmin fmax r.
Proof.
  intros He Hn0 Hlev Hfence Hbmin Hbmax Hfmin Hfmax. destruct Hbox as [Hb1 Hb2 _ _ _]. pose proof (ends_range dmin dmax bmid e ltac:(lia) ltac:(lia)) as Hr. rewrite <-Hbmin, <-Hbmax in Hr.
  assert (forall d, onG e (- d) <-> bmin <= d <= bmax /\ (d - bmid - e) mod 2 = 0) as Hends by (intros d; rewrite Hbmin, Hbmax; apply back_on_ends; lia).
  apply (loop_ret (fun '(kvd, got, d) => zlen kvd = n /\ (d - bmid - e) mod 2 = 0 /\ bmin - 2 <= d <= bmax /\
      (forall d', onG e (- d') -> d < d' -> back_moved e (bwd kvd0) d' (bwd kvd d')) /\ (forall i, 0 <= i -> (forall d', onG e (- d') -> d < d' -> i <> kvdb + d') -> getk kvd i = getk kvd0 i) /\
      (is_odd = false -> forall d', onG e (- d') -> d < d' -> fmin <= d' <= fmax -> fwd kvd0 d' < bwd kvd d'))
    (fun '(_, _, d) => Z.max 0 (d - bmin + 1)) (S (S (Z.to_nat (bmax - bmin)))) (backward_step ha1 ha2 off1 lim1 off2 lim2 kvdf kvdb xenv bmin fmin fmax) (kvd0, got0, bmax)).
  2:{ split; [done|]. split; [lia|]. split; [lia|]. split; [intros d' Hd' ?; apply Hends in Hd'; lia|]. split; [done|]. intros _ d' Hd' ?. apply Hends in Hd'; lia. }
  2:{ cbv beta iota. lia. }
  intros [[kvd got] d] (Hlen & Hpar & Hd & Hmoved & Hframe & Hapart). unfold backward_step. rewrite Z.geb_leb. destruct (Z.leb_spec bmin d) as [Hge|Hlt]; cbn [negb].
  2:{ eexists. split; [done|]. split; [done|]. cbv beta iota. split; [intros d' Hd'; apply Hmoved; [done|]; apply Hends in Hd'; lia|]. split.
      - intros i Hi Hne. apply Hframe; [done|]. intros d' Hd' _. by apply Hne.
      - intros Ho d' Hd'. apply Hapart; [done..|]. apply Hends in Hd'; lia. }
  assert (onG e (- d)) as Hon by (apply Hends; lia). pose proof (place_b kvd d Hlen ltac:(lia)) as Hpd.
  assert (forall x, dmin - 1 <= x <= dmax + 1 -> (x - d) mod 2 = 1 -> getk kvd (kvdb + x) = getk kvd0 (kvdb + x)) as Hold.
  { intros x Hx Hodd. apply Hframe; [pose proof (place_b kvd x Hlen Hx); lia|]. intros d' Hd' _ Heq. apply Hends in Hd'. lia. }
  rewrite !rd_getk by (apply place_b; [done|lia]). run. rewrite !Hold by lia. fold (bwd kvd0 (d - 1)) (bwd kvd0 (d + 1)).
  pose proof (back_pick_spec e (bwd kvd0) d He Hlev Hfence Hon) as Hpick. set (p := if _ <? _ then _ else _) in *.
  assert (p <= lim1 /\ p - d <= lim2) as [Hp1 Hp2] by (destruct Hpick as ([[Ho ?]|[Ho ?]] & _); destruct (Hlev _ Ho) as (? & _); lia).
  destruct (back_snake_spec (S (Z.to_nat (p - off1))) p (p - d) ltac:(lia) Hp1 Hp2) as (v & -> & Hv). replace (p - (p - d)) with d in Hv by lia. replace (v - (p - (p - d))) with (v - d) by lia. run.
  destruct (wr_getk kvd (kvdb + d) v Hpd) as (kvd1 & -> & Hlen1 & Hget). run. assert (back_moved e (bwd kvd0) d v) as Hmv by (exists p; split; [done|]; lia).
  assert (forall x, onG e (- x) -> d < x -> bwd kvd1 x = bwd kvd x) as Hkeep by (intros x Hx Hlt; unfold bwd; apply Hends in Hx; pose proof (place_b kvd x Hlen ltac:(lia)); rewrite Hget by lia; rewrite decide_False by lia; done).
  assert (bwd kvd1 d = v) as Hnew by (unfold bwd; rewrite Hget by lia; by rewrite decide_True).
  assert (exists b : bool, (if negb is_odd && (fmin <=? d) && (d <=? fmax) then f ← rd kvd1 (kvdf + d); Ret (v <=? f) else Ret false) = Ret b /\ (b = true -> is_odd = false /\ fmin <= d <= fmax) /\
    (b = false -> is_odd = false -> fmin <= d <= fmax -> fwd kvd0 d < v)) as (b & Hcross & Hyes & Hno).
  { destruct is_odd; cbn [andb negb]; [exists false; by repeat split|]. destruct (Z.leb_spec fmin d), (Z.leb_spec d fmax); cbn [andb]; try (exists false; split; [done|]; split; [done|]; lia).
    rewrite rd_getk by (rewrite Hlen1; apply place_f; [done|lia]). run. exists (v <=? getk kvd1 (kvdf + d)). split; [done|]. split; [done|]. intros Hb _ _. apply Z.leb_gt in Hb.
    pose proof (place_f kvd d Hlen ltac:(lia)). pose proof (places_apart d d ltac:(lia) ltac:(lia)). rewrite Hget, decide_False in Hb by lia. rewrite Hframe in Hb; [done|lia|]. intros d' Hd' _ Heq. apply Hends in Hd'. pose proof (places_apart d d' ltac:(lia) ltac:(lia)). lia. }
  rewrite Hcross. run. destruct b.
  - destruct (Hyes eq_refl) as [Ho Hbd]. eexists. split; [done|]. cbv beta iota. split; [by rewrite Hlen1|]. split; [done|]. by exists d, v.
  - eexists. split; [done|]. cbv beta iota. split; [|lia]. split; [by rewrite Hlen1|]. split; [lia|]. split; [lia|]. split; [|split].
    + intros d' Hd' Hlt. destruct (decide (d' = d)) as [->|Hne]; [by rewrite Hnew|]. assert (d < d') as Hdd by (apply Hends in Hd'; lia). rewrite Hkeep by done. by apply Hmoved.
    + intros i Hi Hne. rewrite Hget by done. rewrite decide_False by (by apply Hne; [|lia]). apply Hframe; [done|]. intros d' Hd' Hlt. apply Hne; [done|lia].
    + intros Ho d' Hd' Hlt Hbd. destruct (decide (d' = d)) as [->|Hne]; [rewrite Hnew; by apply Hno|]. assert (d < d') as Hdd by (apply Hends in Hd'; lia). rewrite Hkeep by done. by apply Hapart.
Qed.


(** Both ends of the diagonals move out, or in at the edge of the box. *)
Lemma extend_spec base mid sentinel kvd e : zlen kvd = n -> (forall d, dmin - 1 <= d <= dmax + 1 -> 0 <= base + d < n) -> dmin < mid < dmax -> 1 <= e ->
  exists kvd1 kvd2, extend_min off1 lim2 kvd base (lo_of dmin mid (e - 1)) sentinel = Ret (kvd1, lo_of dmin mid e) /\ extend_max lim1 off2 kvd1 base (hi_of dmax mid (e - 1)) sentinel = Ret (kvd2, hi_of dmax mid e) /\
    zlen kvd2 = n /\ (forall i, 0 <= i -> (forall d, dmin - 1 <= d <= dmax + 1 -> i <> base + d) -> getk kvd2 i = getk kvd i) /\
    (forall d, lo_of dmin mid (e - 1) <= d <= hi_of dmax mid (e - 1) -> getk kvd2 (base + d) = getk kvd (base + d)) /\
    (forall d, (d - mid - e) mod 2 = 0 -> lo_of dmin mid e <= d <= hi_of dmax mid e ->
      (lo_of dmin mid (e - 1) <= d - 1 \/ getk kvd2 (base + (d - 1)) = sentinel) /\ (d + 1 <= hi_of dmax mid (e - 1) \/ getk kvd2 (base + (d + 1)) = sentinel)).
Proof.
  intros Hn0 Hp Hmid He. pose proof (ends_range dmin dmax mid (e - 1) Hmid ltac:(lia)) as Hr. pose proof (ends_range dmin dmax mid e Hmid ltac:(lia)) as Hr'.
  pose proof (lo_step dmin mid (e - 1) ltac:(lia) ltac:(lia)) as Hlo. pose proof (hi_step dmax mid (e - 1) ltac:(lia) ltac:(lia)) as Hhi. replace (e - 1 + 1) with e in Hlo, Hhi by lia.
  set (lo := lo_of dmin mid (e - 1)) in *. set (hi := hi_of dmax mid (e - 1)) in *. set (lo' := lo_of dmin mid e) in *. set (hi' := hi_of dmax mid e) in *. clearbody lo hi lo' hi'. rewrite Z.gtb_ltb in Hlo.
  assert (exists kvd1, extend_min off1 lim2 kvd base lo sentinel = Ret (kvd1, lo') /\ zlen kvd1 = n /\ (forall i, 0 <= i -> (dmin < lo -> i <> base + (lo - 2)) -> getk kvd1 i = getk kvd i) /\ (dmin < lo -> getk kvd1 (base + (lo - 2)) = sentinel)) as (kvd1 & Hmin & Hn1 & Hf1 & Hs1).
  { unfold extend_min. rewrite Z.gtb_ltb. destruct (Z.ltb_spec dmin lo) as [Hlt|Hge].
    - destruct (wr_getk kvd (base + (lo - 1 - 1)) sentinel) as (kvd1 & -> & Hl & Hg); [rewrite Hn0; apply Hp; lia|]. run. exists kvd1. subst lo'. pose proof (Hp (lo - 2) ltac:(lia)). split; [done|]. split; [lia|]. split.
      + intros i Hi Hne. rewrite Hg, decide_False by (done || (specialize (Hne Hlt); lia)). done.
      + intros _. rewrite Hg, decide_True by lia. done.
    - exists kvd. subst lo'. split; [done|]. split; [done|]. split; [done|lia]. }
  assert (exists kvd2, extend_max lim1 off2 kvd1 base hi sentinel = Ret (kvd2, hi') /\ zlen kvd2 = n /\ (forall i, 0 <= i -> (hi < dmax -> i <> base + (hi + 2)) -> getk kvd2 i = getk kvd1 i) /\ (hi < dmax -> getk kvd2 (base + (hi + 2)) = sentinel)) as (kvd2 & Hmax & Hn2 & Hf2 & Hs2).
  { unfold extend_max. destruct (Z.ltb_spec hi dmax) as [Hlt|Hge].
    - destruct (wr_getk kvd1 (base + (hi + 1 + 1)) sentinel) as (kvd2 & -> & Hl & Hg); [rewrite Hn1; apply Hp; lia|]. run. exists kvd2. subst hi'. pose proof (Hp (hi + 2) ltac:(lia)). split; [done|]. split; [lia|]. split.
      + intros i Hi Hne. rewrite Hg, decide_False by (done || (specialize (Hne Hlt); lia)). done.
      + intros _. rewrite Hg, decide_True by lia. done.
    - exists kvd1. subst hi'. split; [done|]. split; [done|]. split; [done|lia]. }
  exists kvd1, kvd2. split; [done|]. split; [done|]. split; [done|]. split; [|split].
  - intros i Hi Hne. rewrite Hf2, Hf1; [done|done| |done|]; intros Hlt; apply Hne; lia.
  - intros d Hd. pose proof (Hp d ltac:(lia)). rewrite Hf2, Hf1; [done|lia|lia|lia|lia].
  - intros d Hpar Hd. split.
    + destruct (Z.le_gt_cases lo (d - 1)) as [|Hlt]; [by left|right]. destruct (Z.ltb_spec dmin lo) as [Hdm|]; [|lia]. assert (d - 1 = lo - 2) as -> by lia. rewrite Hf2; [by apply Hs1|pose proof (Hp (lo - 2) ltac:(lia)); lia|lia].
    + destruct (Z.le_gt_cases (d + 1) hi) as [|Hgt]; [by left|right]. destruct (Z.ltb_spec hi dmax) as [Hdm|]; [|lia]. assert (d + 1 = hi + 2) as -> by lia. by apply Hs2.
Qed.

(** ** Where the paths meet *)

Definition good_split (spl : xdpsplit) : Prop :=
  off1 <= spl_i1 spl <= lim1 /\ off2 <= spl_i2 spl <= lim2 /\ off1 + off2 < spl_i1 spl + spl_i2 spl < lim1 + lim2.

Notation apartF := (apart off1 lim1 off2 lim2).
Notation levelF := (level off1 lim1 off2 lim2).
Notation levelG := (level (- lim1) (- off1) (- lim2) (- off2)).

Lemma apart_mirror e g F G : apartF e g F G -> apart (- lim1) (- off1) (- lim2) (- off2) g e G F.
Proof.
  intros Hap d Hd Hd'. rewrite !Z.opp_involutive in Hd'. specialize (Hap (- d) Hd'). rewrite Z.opp_involutive in Hap. specialize (Hap Hd). lia.
Qed.

(** What a path has reached after [e] steps, and what of the other one is known. *)
Definition met (e g : Z) (F G : Z -> Z) : Prop := levelF e F /\ levelG g G /\ apartF e g F G.

Lemma odd_parity : (fmid - bmid) mod 2 = if is_odd then 1 else 0.
Proof. apply Zmod_odd. Qed.

Lemma forward_meets e F G d v : 1 <= e -> is_odd = true -> (e = 1 -> F fmid = off1) -> levelF (e - 1) F -> (1 < e -> levelG (e - 2) G /\ apartF (e - 1) (e - 2) F G) ->
  onF e d -> onG (e - 1) (- d) -> moved e F d v -> good_split (Split v (v - d) true true).
Proof.
  intros He Hodd Hfirst HF HG Hd HdG (p & Hreach & Hv). destruct Hbox as [Hb1 Hb2 _ Hlast _]. pose proof odd_parity as Hpar. rewrite Hodd in Hpar.
  pose proof (reach_low off1 lim1 off2 lim2 e F d p HF Hreach) as Hlow.
  assert (p <= lim1 /\ p - d <= lim2) as Hin.
  { destruct (decide (e = 1)) as [->|Hne]; [by apply (first_inside off1 lim1 off2 lim2 ltac:(lia) ltac:(lia) F d p (Hfirst eq_refl))|]. destruct (HG ltac:(lia)) as [HlG Hap].
    apply (meet_inside off1 lim1 off2 lim2 ltac:(lia) ltac:(lia) e (e - 1) F G d p); try done; [lia| |]; by replace (e - 1 - 1) with (e - 2) by lia. }
  unfold good_split. cbn [spl_i1 spl_i2]. split; [lia|]. split; [lia|]. split; [lia|]. destruct (decide (v = lim1 /\ v - d = lim2)) as [[Hv1 Hv2]|Hno]; [|lia]. exfalso. assert (d = bmid) as -> by lia.
  assert (p < lim1) as Hplt.
  { destruct (decide (e = 1)) as [->|Hne]; [by apply (first_corner off1 lim1 off2 lim2 ltac:(lia) ltac:(lia) F p (Hfirst eq_refl))|]. destruct (HG ltac:(lia)) as [HlG Hap].
    apply (corner_by_snake off1 lim1 off2 lim2 ltac:(lia) ltac:(lia) e (e - 2) F G p); try done; unfold on in *; lia. }
  destruct Hv as [->|(_ & _ & _ & Heq)]; [lia|]. apply Hlast. rewrite <-Hv1, <-Hv2. exact Heq.
Qed.

Lemma back_corner e g F B p : 1 <= g -> g mod 2 = 1 -> levelF g F -> apartF g (e - 1) F (mirror B) -> reach (- lim1) (- off1) (- lim2) (- off2) e (mirror B) (- fmid) (- p) -> off1 < p.
Proof.
  intros Hg Hodd HF Hap Hreach. destruct Hbox as [Hb1 Hb2 _ _ _]. pose proof (corner_by_snake (- lim1) (- off1) (- lim2) (- off2) ltac:(lia) ltac:(lia) e g (mirror B) F (- p) Hg Hodd) as Hc. rewrite !Z.opp_involutive in Hc.
  specialize (Hc HF). pose proof (apart_mirror _ _ _ _ Hap) as Ham. replace (- off1 - - off2) with (- fmid) in Hc by lia. specialize (Hc Ham Hreach). lia.
Qed.

Lemma backward_meets e F B d v : 1 <= e -> is_odd = false -> levelG (e - 1) (mirror B) -> levelF (e - 1) F -> apartF (e - 1) (e - 1) F (mirror B) ->
  onG e (- d) -> onF e d -> back_moved e B d v -> good_split (Split v (v - d) true true).
Proof.
  intros He Heven HG HF Hap Hd HdF (p & Hreach & Hv). destruct Hbox as [Hb1 Hb2 Hfirst _ _]. pose proof odd_parity as Hpar. rewrite Heven in Hpar.
  pose proof (reach_low (- lim1) (- off1) (- lim2) (- off2) e (mirror B) (- d) (- p) HG Hreach) as Hlow.
  assert (- p <= - off1 /\ - p - - d <= - off2) as Hin.
  { apply (meet_inside (- lim1) (- off1) (- lim2) (- off2) ltac:(lia) ltac:(lia) e e (mirror B) F (- d) (- p)); rewrite ?Z.opp_involutive; try done. by apply apart_mirror. }
  unfold good_split. cbn [spl_i1 spl_i2]. split; [lia|]. split; [lia|]. split; [|lia]. destruct (decide (v = off1 /\ v - d = off2)) as [[Hv1 Hv2]|Hno]; [|lia]. exfalso. assert (d = fmid) as -> by lia.
  assert (2 <= e /\ e mod 2 = 0) as [He2 Hepar] by (unfold on in *; lia). pose proof (back_corner e (e - 1) F B p ltac:(lia) ltac:(lia) HF Hap Hreach) as Hp.
  destruct Hv as [->|(_ & _ & _ & Heq)]; [lia|]. apply Hfirst. rewrite <-Hv1, <-Hv2. replace (v - (v - fmid)) with fmid in Heq by lia. exact Heq.
Qed.


(** ** The heuristics *)

Lemma long_snake_total i1 i2 : off1 + snake_cnt xenv <= i1 < lim1 -> off2 + snake_cnt xenv <= i2 < lim2 -> exists b, loop (S (Z.to_nat (snake_cnt xenv))) (long_snake_step ha1 ha2 xenv i1 i2) 1 = Ret b.
Proof.
  intros H1 H2. destruct Hbox as [Hb1 Hb2 _ _ Hs].
  destruct (loop_ret (fun k => 1 <= k <= snake_cnt xenv) (fun k => snake_cnt xenv - k) (S (Z.to_nat (snake_cnt xenv))) (long_snake_step ha1 ha2 xenv i1 i2) 1 (fun _ => True)) as (b & -> & _); [|lia|lia|by exists b].
  intros k Hk. unfold long_snake_step. rewrite !rd_getk by lia. run. destruct (_ =? _); cbn [negb]; [|by eexists]. destruct (Z.eqb_spec k (snake_cnt xenv)); [by eexists|]. eexists. split; [done|]. cbv beta iota. lia.
Qed.

Lemma back_long_snake_total i1 i2 : off1 < i1 <= lim1 - snake_cnt xenv -> off2 < i2 <= lim2 - snake_cnt xenv -> exists b, loop (S (Z.to_nat (snake_cnt xenv))) (back_long_snake_step ha1 ha2 xenv i1 i2) 0 = Ret b.
Proof.
  intros H1 H2. destruct Hbox as [Hb1 Hb2 _ _ Hs].
  destruct (loop_ret (fun k => 0 <= k <= snake_cnt xenv - 1) (fun k => snake_cnt xenv - k) (S (Z.to_nat (snake_cnt xenv))) (back_long_snake_step ha1 ha2 xenv i1 i2) 0 (fun _ => True)) as (b & -> & _); [|lia|lia|by exists b].
  intros k Hk. unfold back_long_snake_step. rewrite !rd_getk by lia. run. destruct (_ =? _); cbn [negb]; [|by eexists]. destruct (Z.eqb_spec k (snake_cnt xenv - 1)); [by eexists|]. eexists. split; [done|]. cbv beta iota. lia.
Qed.

Definition within (s1 s2 : Z) : Prop := off1 < s1 < lim1 /\ off2 < s2 < lim2.

Lemma sample_spec kvd ec fmin fmax : zlen kvd = n -> dmin <= fmin <= fmax -> fmax <= dmax ->
  exists r, loop (S (S (Z.to_nat (fmax - fmin)))) (sample_step ha1 ha2 off1 lim1 off2 lim2 kvdf xenv kvd ec fmin) (fmax, 0, 0, 0) = Ret r /\ let '(best, s1, s2) := r in 0 < best -> within s1 s2.
Proof.
  intros Hlen Hf1 Hf2. destruct Hbox as [Hb1 Hb2 _ _ Hs].
  apply (loop_ret (fun '(d, best, s1, s2) => fmin - 2 <= d <= fmax /\ 0 <= best /\ (0 < best -> within s1 s2)) (fun '(d, _, _, _) => Z.max 0 (d - fmin + 1))
    (S (S (Z.to_nat (fmax - fmin)))) (sample_step ha1 ha2 off1 lim1 off2 lim2 kvdf xenv kvd ec fmin) (fmax, 0, 0, 0)); [|split; lia|cbv beta iota; lia].
  intros [[[d best] s1] s2] (Hd & Hbest & Hin). unfold sample_step. rewrite Z.geb_leb. destruct (Z.leb_spec fmin d); cbn [negb]; [|eexists; split; [done|]; exact Hin]. rewrite rd_getk by (apply place_f; [done|lia]). run.
  set (i1 := getk kvd (kvdf + d)). set (v := i1 - off1 + (i1 - d - off2) - _). rewrite !Z.gtb_ltb.
  destruct (Z.ltb_spec (XDL_K_HEUR * ec) v), (Z.ltb_spec best v), (Z.leb_spec (off1 + snake_cnt xenv) i1), (Z.ltb_spec i1 lim1), (Z.leb_spec (off2 + snake_cnt xenv) (i1 - d)), (Z.ltb_spec (i1 - d) lim2); cbn [andb];
    try (run; eexists; split; [done|]; cbv beta iota; split; [split; [lia|done]|lia]).
  destruct (long_snake_total i1 (i1 - d) ltac:(lia) ltac:(lia)) as (b & ->). run. eexists. split; [done|]. destruct b; cbv beta iota; (split; [|lia]); (split; [lia|]); [|done]. split; [lia|]. intros _. unfold within. lia.
Qed.

Lemma back_sample_spec kvd ec bmin bmax s1' s2' : zlen kvd = n -> dmin <= bmin <= bmax -> bmax <= dmax ->
  exists r, loop (S (S (Z.to_nat (bmax - bmin)))) (back_sample_step ha1 ha2 off1 lim1 off2 lim2 kvdb xenv kvd ec bmin) (bmax, 0, s1', s2') = Ret r /\ let '(best, s1, s2) := r in 0 < best -> within s1 s2.
Proof.
  intros Hlen Hf1 Hf2. destruct Hbox as [Hb1 Hb2 _ _ Hs].
  apply (loop_ret (fun '(d, best, s1, s2) => bmin - 2 <= d <= bmax /\ 0 <= best /\ (0 < best -> within s1 s2)) (fun '(d, _, _, _) => Z.max 0 (d - bmin + 1))
    (S (S (Z.to_nat (bmax - bmin)))) (back_sample_step ha1 ha2 off1 lim1 off2 lim2 kvdb xenv kvd ec bmin) (bmax, 0, s1', s2')); [|split; lia|cbv beta iota; lia].
  intros [[[d best] s1] s2] (Hd & Hbest & Hin). unfold back_sample_step. rewrite Z.geb_leb. destruct (Z.leb_spec bmin d); cbn [negb]; [|eexists; split; [done|]; exact Hin]. rewrite rd_getk by (apply place_b; [done|lia]). run.
  set (i1 := getk kvd (kvdb + d)). set (v := lim1 - i1 + (lim2 - (i1 - d)) - _). rewrite !Z.gtb_ltb.
  destruct (Z.ltb_spec (XDL_K_HEUR * ec) v), (Z.ltb_spec best v), (Z.ltb_spec off1 i1), (Z.leb_spec i1 (lim1 - snake_cnt xenv)), (Z.ltb_spec off2 (i1 - d)), (Z.leb_spec (i1 - d) (lim2 - snake_cnt xenv)); cbn [andb];
    try (run; eexists; split; [done|]; cbv beta iota; split; [split; [lia|done]|lia]).
  destruct (back_long_snake_total i1 (i1 - d) ltac:(lia) ltac:(lia)) as (b & ->). run. eexists. split; [done|]. destruct b; cbv beta iota; (split; [|lia]); (split; [lia|]); [|done]. split; [lia|]. intros _. unfold within. lia.
Qed.

Lemma interesting_spec kvd ec fmin fmax bmin bmax : zlen kvd = n -> dmin <= fmin <= fmax -> fmax <= dmax -> dmin <= bmin <= bmax -> bmax <= dmax ->
  exists r, interesting ha1 ha2 off1 lim1 off2 lim2 kvdf kvdb xenv kvd ec fmin fmax bmin bmax = Ret r /\ forall spl, r = Some spl -> good_split spl.
Proof.
  intros Hlen Hf1 Hf2 Hb1 Hb2. unfold interesting. destruct (sample_spec kvd ec fmin fmax Hlen Hf1 Hf2) as ([[best s1] s2] & -> & Hin). run. rewrite Z.gtb_ltb. destruct (Z.ltb_spec 0 best).
  - eexists. split; [done|]. intros spl [= <-]. specialize (Hin ltac:(lia)). unfold within, good_split in *. cbn [spl_i1 spl_i2]. lia.
  - destruct (back_sample_spec kvd ec bmin bmax s1 s2 Hlen Hb1 Hb2) as ([[best' s1'] s2'] & -> & Hin'). run. rewrite Z.gtb_ltb. destruct (Z.ltb_spec 0 best').
    + eexists. split; [done|]. intros spl [= <-]. specialize (Hin' ltac:(lia)). unfold within, good_split in *. cbn [spl_i1 spl_i2]. lia.
    + by eexists.
Qed.

(** The paths, cut off at the sides of the box, have not come to the other corner. *)
Lemma furthest_spec kvd e : zlen kvd = n -> 1 <= e -> levelF e (fwd kvd) -> levelG e (mirror (bwd kvd)) -> (onF e bmid -> fwd kvd bmid < lim1) -> (onG e (- fmid) -> off1 < bwd kvd fmid) ->
  exists spl, furthest off1 lim1 off2 lim2 kvdf kvdb kvd (lo_of dmin fmid e) (hi_of dmax fmid e) (lo_of dmin bmid e) (hi_of dmax bmid e) = Ret spl /\ good_split spl.
Proof.
  intros Hlen He HF HG Hcf Hcb. destruct Hbox as [Hb1 Hb2 _ _ _].
  pose proof (ends_range dmin dmax fmid e ltac:(lia) ltac:(lia)) as Hr. pose proof (ends_range dmin dmax bmid e ltac:(lia) ltac:(lia)) as Hr'.
  assert (forall d, onF e d <-> lo_of dmin fmid e <= d <= hi_of dmax fmid e /\ (d - fmid - e) mod 2 = 0) as Hends by (intros d; apply on_ends; lia).
  assert (forall d, onG e (- d) <-> lo_of dmin bmid e <= d <= hi_of dmax bmid e /\ (d - bmid - e) mod 2 = 0) as Hends' by (intros d; apply back_on_ends; lia).
  set (fmin := lo_of dmin fmid e) in *. set (fmax := hi_of dmax fmid e) in *. set (bmin := lo_of dmin bmid e) in *. set (bmax := hi_of dmax bmid e) in *. clearbody fmin fmax bmin bmax.
  set (good := fun s s1 => off1 <= s1 <= lim1 /\ off2 <= s - s1 <= lim2 /\ off1 + off2 < s < lim1 + lim2).
  unfold furthest.
  destruct (loop_ret (fun '(d, s, s1) => fmin - 2 <= d <= fmax /\ (d - fmid - e) mod 2 = 0 /\ ((s = -1 /\ d = fmax) \/ good s s1)) (fun '(d, _, _) => Z.max 0 (d - fmin + 1))
    (S (S (Z.to_nat (fmax - fmin)))) (furthest_step lim1 lim2 kvdf kvd fmin) (fmax, -1, -1) (fun '(s, s1) => good s s1)) as ([fbest fbest1] & -> & Hf).
  { intros [[d s] s1] (Hd & Hpar & Hs). unfold furthest_step. rewrite Z.geb_leb. destruct (Z.leb_spec fmin d); cbn [negb]; [|eexists; split; [done|]; cbv beta iota; destruct Hs as [[_ ->]|Hs]; [lia|done]].
    rewrite rd_getk by (apply place_f; [done|lia]). run. assert (onF e d) as Hon by (apply Hends; lia). destruct (HF d Hon) as (Hlow & _ & _). fold (fwd kvd d).
    assert (d = bmid -> fwd kvd d < lim1) as Hc by (intros ->; by apply Hcf).
    assert (exists i1, (let '(i1, i2) := if lim2 <? Z.min (fwd kvd d) lim1 - d then (lim2 + d, lim2) else (Z.min (fwd kvd d) lim1, Z.min (fwd kvd d) lim1 - d) in
        Ret (inl (if s <? i1 + i2 then (d - 2, i1 + i2, i1) else (d - 2, s, s1)))) = Ret (inl (if s <? i1 + (i1 - d) then (d - 2, i1 + (i1 - d), i1) else (d - 2, s, s1))) :> outcome ((Z * Z * Z) + (Z * Z)) /\ good (i1 + (i1 - d)) i1) as (i1 & -> & Hgood).
    { destruct (Z.ltb_spec lim2 (Z.min (fwd kvd d) lim1 - d)); [exists (lim2 + d)|exists (Z.min (fwd kvd d) lim1)]; (split; [|unfold good; lia]); [|done]. by replace (lim2 + d - d) with lim2 by lia. }
    eexists. split; [done|]. destruct (Z.ltb_spec s (i1 + (i1 - d))); cbv beta iota; (split; [|lia]); (split; [lia|]); (split; [lia|]); right; [done|]. destruct Hs as [[-> _]|Hs]; [|done]. unfold good in Hgood. lia. }
  { split; [lia|]. split; [lia|]. by left. }
  { cbv beta iota. lia. }
  run.
  destruct (loop_ret (fun '(d, s, s1) => bmin - 2 <= d <= bmax /\ (d - bmid - e) mod 2 = 0 /\ ((s = XDL_LINE_MAX /\ d = bmax) \/ good s s1)) (fun '(d, _, _) => Z.max 0 (d - bmin + 1))
    (S (S (Z.to_nat (bmax - bmin)))) (back_furthest_step off1 off2 kvdb kvd bmin) (bmax, XDL_LINE_MAX, XDL_LINE_MAX) (fun '(s, s1) => good s s1)) as ([bbest bbest1] & -> & Hb).
  { intros [[d s] s1] (Hd & Hpar & Hs). unfold back_furthest_step. rewrite Z.geb_leb. destruct (Z.leb_spec bmin d); cbn [negb]; [|eexists; split; [done|]; cbv beta iota; destruct Hs as [[_ ->]|Hs]; [lia|done]].
    rewrite rd_getk by (apply place_b; [done|lia]). run. assert (onG e (- d)) as Hon by (apply Hends'; lia). destruct (HG (- d) Hon) as (Hlow & _ & _). rewrite mirror_at in Hlow. fold (bwd kvd d).
    assert (d = fmid -> off1 < bwd kvd d) as Hc by (intros ->; by apply Hcb).
    assert (exists i1, (let '(i1, i2) := if Z.max off1 (bwd kvd d) - d <? off2 then (off2 + d, off2) else (Z.max off1 (bwd kvd d), Z.max off1 (bwd kvd d) - d) in
        Ret (inl (if i1 + i2 <? s then (d - 2, i1 + i2, i1) else (d - 2, s, s1)))) = Ret (inl (if i1 + (i1 - d) <? s then (d - 2, i1 + (i1 - d), i1) else (d - 2, s, s1))) :> outcome ((Z * Z * Z) + (Z * Z)) /\ good (i1 + (i1 - d)) i1) as (i1 & -> & Hgood).
    { destruct (Z.ltb_spec (Z.max off1 (bwd kvd d) - d) off2); [exists (off2 + d)|exists (Z.max off1 (bwd kvd d))]; (split; [|unfold good; lia]); [|done]. by replace (off2 + d - d) with off2 by lia. }
    eexists. split; [done|]. destruct (Z.ltb_spec (i1 + (i1 - d)) s); cbv beta iota; (split; [|lia]); (split; [lia|]); (split; [lia|]); right; [done|]. destruct Hs as [[-> _]|Hs]; [|done]. unfold good, XDL_LINE_MAX in *. lia. }
  { split; [lia|]. split; [lia|]. by left. }
  { cbv beta iota. lia. }
  run. eexists. split; [done|]. unfold good, good_split in *. case_if; cbn [spl_i1 spl_i2]; lia.
Qed.


(** ** A round *)

Lemma onF_ends e d : 0 <= e -> onF e d <-> lo_of dmin fmid e <= d <= hi_of dmax fmid e /\ (d - fmid - e) mod 2 = 0.
Proof. destruct Hbox as [? ? _ _ _]. apply on_ends; lia. Qed.

Lemma onG_ends e d : 0 <= e -> onG e (- d) <-> lo_of dmin bmid e <= d <= hi_of dmax bmid e /\ (d - bmid - e) mod 2 = 0.
Proof. destruct Hbox as [? ? _ _ _]. apply back_on_ends; lia. Qed.

Lemma moved_level e F F' : 1 <= e -> levelF (e - 1) F -> (forall d, onF e d -> moved e F d (F' d)) -> levelF e F'.
Proof.
  intros He HF Hm. destruct Hbox as [Hb1 Hb2 _ _ _]. apply (level_next off1 lim1 off2 lim2 ltac:(lia) ltac:(lia) e F F' He HF). intros d Hd. destruct (Hm d Hd) as (p & Hr & Hv). exists p. split; [done|lia].
Qed.

Lemma back_moved_level e B B' : 1 <= e -> levelG (e - 1) (mirror B) -> (forall d, onG e (- d) -> back_moved e B d (B' d)) -> levelG e (mirror B').
Proof.
  intros He HG Hm. destruct Hbox as [Hb1 Hb2 _ _ _]. apply (level_next (- lim1) (- off1) (- lim2) (- off2) ltac:(lia) ltac:(lia) e (mirror B) (mirror B') He HG). intros d Hd.
  destruct (Hm (- d)) as (p & Hr & Hv); [by rewrite Z.opp_involutive|]. rewrite Z.opp_involutive in Hr. exists (- p). split; [done|]. unfold mirror. lia.
Qed.

(** Both paths after [e] steps, which have not met. *)
Record paths (e : Z) (kvd : list Z) : Prop := {
  paths_len : zlen kvd = n;
  paths_f : levelF e (fwd kvd);
  paths_b : levelG e (mirror (bwd kvd));
  paths_start : e = 0 -> fwd kvd fmid = off1;
  paths_even : is_odd = false -> apartF e e (fwd kvd) (mirror (bwd kvd));
  paths_odd : is_odd = true -> 1 <= e -> exists G, levelG (e - 1) G /\ apartF e (e - 1) (fwd kvd) G;
}.

Lemma paths_end e kvd : 0 <= e -> paths e kvd -> e < (lim1 - off1) + (lim2 - off2).
Proof.
  intros He [_ HF HG _ Heven Hodd]. destruct Hbox as [Hb1 Hb2 _ _ _]. pose proof odd_parity as Hpar. destruct (Z.lt_ge_cases e ((lim1 - off1) + (lim2 - off2))) as [|Hge]; [done|exfalso].
  destruct is_odd.
  - destruct (Hodd eq_refl ltac:(lia)) as (G & HG' & Hap). by apply (must_meet off1 lim1 off2 lim2 ltac:(lia) ltac:(lia) e (e - 1) (fwd kvd) G HF HG' ltac:(lia) ltac:(lia) ltac:(lia)).
  - by apply (must_meet off1 lim1 off2 lim2 ltac:(lia) ltac:(lia) e e (fwd kvd) (mirror (bwd kvd)) HF HG ltac:(lia) ltac:(lia) ltac:(lia)), Heven.
Qed.

Lemma forward_phase e kvd : 1 <= e -> paths (e - 1) kvd ->
  exists kvd1 kvd2 kvd3 got found,
    extend_min off1 lim2 kvd kvdf (lo_of dmin fmid (e - 1)) (-1) = Ret (kvd1, lo_of dmin fmid e) /\ extend_max lim1 off2 kvd1 kvdf (hi_of dmax fmid (e - 1)) (-1) = Ret (kvd2, hi_of dmax fmid e) /\
    loop (S (S (Z.to_nat (hi_of dmax fmid e - lo_of dmin fmid e)))) (forward_step ha1 ha2 off1 lim1 off2 lim2 kvdf kvdb xenv (lo_of dmin fmid e) (lo_of dmin bmid (e - 1)) (hi_of dmax bmid (e - 1))) (kvd2, false, hi_of dmax fmid e) = Ret (kvd3, got, found) /\
    zlen kvd3 = n /\ match found with
    | Some spl => good_split spl
    | None => levelF e (fwd kvd3) /\ (forall d, dmin - 1 <= d <= dmax + 1 -> bwd kvd3 d = bwd kvd d) /\ (is_odd = true -> apartF e (e - 1) (fwd kvd3) (mirror (bwd kvd)))
    end.
Proof.
  intros He [Hlen HF HG Hstart _ Hodd]. destruct Hbox as [Hb1 Hb2 _ _ _].
  destruct (extend_spec kvdf fmid (-1) kvd e Hlen) as (kvd1 & kvd2 & Hmin & Hmax & Hlen2 & Hframe & Hkeep & Hsent); [intros d Hd; rewrite <-Hlen; by apply place_f|lia|done|].
  assert (forall d, onF (e - 1) d -> fwd kvd d = fwd kvd2 d) as Hsame by (intros d Hd; symmetry; apply Hkeep; apply onF_ends in Hd; lia).
  assert (forall d, dmin - 1 <= d <= dmax + 1 -> bwd kvd2 d = bwd kvd d) as Hback.
  { intros d Hd. apply Hframe; [pose proof (place_b kvd d Hlen Hd); lia|]. intros d' Hd' Heq. pose proof (places_apart d' d Hd' Hd). lia. }
  pose proof (level_ext off1 lim1 off2 lim2 (e - 1) (fwd kvd) (fwd kvd2) Hsame HF) as HF2.
  assert (fenced e (fwd kvd2)) as Hfence.
  { intros d Hd. pose proof (proj1 (onF_ends e d ltac:(lia)) Hd) as [Hrange Hpar]. destruct (Hsent d Hpar Hrange) as [H1 H2].
    pose proof (ends_range dmin dmax fmid (e - 1) ltac:(lia) ltac:(lia)). split.
    - destruct H1 as [?|?]; [left|by right]. apply onF_ends; [lia|]. pose proof (ends_range dmin dmax fmid e ltac:(lia) ltac:(lia)). pose proof (hi_step dmax fmid (e - 1) ltac:(lia) ltac:(lia)) as Hhi. replace (e - 1 + 1) with e in Hhi by lia. revert Hhi; case_if; lia.
    - destruct H2 as [?|?]; [left|by right]. apply onF_ends; [lia|]. pose proof (ends_range dmin dmax fmid e ltac:(lia) ltac:(lia)). pose proof (lo_step dmin fmid (e - 1) ltac:(lia) ltac:(lia)) as Hlo. replace (e - 1 + 1) with e in Hlo by lia. revert Hlo; case_if; lia. }
  pose proof (ends_range dmin dmax bmid (e - 1) ltac:(lia) ltac:(lia)) as Hbr.
  destruct (forward_spec e kvd2 false _ _ (lo_of dmin bmid (e - 1)) (hi_of dmax bmid (e - 1)) He Hlen2 HF2 Hfence eq_refl eq_refl ltac:(lia) ltac:(lia)) as ([[kvd3 got] found] & Hloop & Hlen3 & Hpost).
  exists kvd1, kvd2, kvd3, got, found. split; [done|]. split; [done|]. split; [done|]. split; [done|]. destruct found as [spl|].
  - destruct Hpost as (Ho & d & v & Hon & Hd & Hmv & ->). apply (moved_ext e _ (fwd kvd) d v) in Hmv; [|intros x Hx; symmetry; by apply Hsame].
    assert (onG (e - 1) (- d)) as HonG by (apply onG_ends; [lia|]; split; [done|]; pose proof odd_parity as Hpar; rewrite Ho in Hpar; unfold on in Hon; lia).
    destruct (Z.eq_dec e 1) as [->|Hne].
    + apply (forward_meets 1 (fwd kvd) (fwd kvd) d v); try done; lia.
    + destruct (Hodd Ho ltac:(lia)) as (G & HG' & Hap). replace (e - 1 - 1) with (e - 2) in * by lia. apply (forward_meets e (fwd kvd) G d v); try done; lia.
  - destruct Hpost as (Hmoved & Hframe3 & Hapart). split; [by apply (moved_level e (fwd kvd2))|]. split.
    + intros d Hd. rewrite <-Hback by done. apply Hframe3; [pose proof (place_b kvd d Hlen Hd); lia|]. intros d' Hd' Heq. apply onF_ends in Hd'; [|lia]. pose proof (ends_range dmin dmax fmid e ltac:(lia) ltac:(lia)). pose proof (places_apart d' d ltac:(lia) Hd). lia.
    + intros Ho d Hd HdG. apply onG_ends in HdG; [|lia]. rewrite mirror_at. pose proof (Hapart Ho d Hd ltac:(lia)) as Hlt. rewrite Hback in Hlt by lia. lia.
Qed.


Lemma backward_phase e kvd kvd3 got0 : 1 <= e -> paths (e - 1) kvd -> zlen kvd3 = n -> levelF e (fwd kvd3) ->
  (forall d, dmin - 1 <= d <= dmax + 1 -> bwd kvd3 d = bwd kvd d) -> (is_odd = true -> apartF e (e - 1) (fwd kvd3) (mirror (bwd kvd))) ->
  exists kvd4 kvd5 kvd6 got found,
    extend_min off1 lim2 kvd3 kvdb (lo_of dmin bmid (e - 1)) XDL_LINE_MAX = Ret (kvd4, lo_of dmin bmid e) /\ extend_max lim1 off2 kvd4 kvdb (hi_of dmax bmid (e - 1)) XDL_LINE_MAX = Ret (kvd5, hi_of dmax bmid e) /\
    loop (S (S (Z.to_nat (hi_of dmax bmid e - lo_of dmin bmid e)))) (backward_step ha1 ha2 off1 lim1 off2 lim2 kvdf kvdb xenv (lo_of dmin bmid e) (lo_of dmin fmid e) (hi_of dmax fmid e)) (kvd5, got0, hi_of dmax bmid e) = Ret (kvd6, got, found) /\
    zlen kvd6 = n /\ match found with
    | Some spl => good_split spl
    | None => paths e kvd6 /\ (onF e bmid -> fwd kvd6 bmid < lim1) /\ (onG e (- fmid) -> off1 < bwd kvd6 fmid)
    end.
Proof.
  intros He [Hlen HF0 HG Hstart Heven Hodd] Hlen3 HF Hback Hap. destruct Hbox as [Hb1 Hb2 Hfirst _ _]. pose proof odd_parity as Hpar.
  destruct (extend_spec kvdb bmid XDL_LINE_MAX kvd3 e Hlen3) as (kvd4 & kvd5 & Hmin & Hmax & Hlen5 & Hframe & Hkeep & Hsent); [intros d Hd; rewrite <-Hlen; by apply place_b|lia|done|].
  pose proof (ends_range dmin dmax bmid (e - 1) ltac:(lia) ltac:(lia)) as Hr0. pose proof (ends_range dmin dmax bmid e ltac:(lia) ltac:(lia)) as Hr. pose proof (ends_range dmin dmax fmid e ltac:(lia) ltac:(lia)) as Hfr.
  assert (forall d, onG (e - 1) (- d) -> bwd kvd d = bwd kvd5 d) as Hsame.
  { intros d Hd. apply onG_ends in Hd; [|lia]. rewrite <-Hback by lia. symmetry. apply Hkeep. lia. }
  assert (forall d, dmin - 1 <= d <= dmax + 1 -> fwd kvd5 d = fwd kvd3 d) as Hforw.
  { intros d Hd. apply Hframe; [pose proof (place_f kvd d Hlen Hd); lia|]. intros d' Hd' Heq. pose proof (places_apart d d' Hd Hd'). lia. }
  assert (levelG (e - 1) (mirror (bwd kvd5))) as HG5.
  { apply (level_ext _ _ _ _ _ (mirror (bwd kvd))); [|done]. intros d Hd. unfold mirror. by rewrite Hsame; [|rewrite Z.opp_involutive]. }
  assert (levelF e (fwd kvd5)) as HF5 by (apply (level_ext _ _ _ _ _ (fwd kvd3)); [|done]; intros d Hd; apply onF_ends in Hd; [|lia]; rewrite Hforw by lia; done).
  assert (back_fenced e (bwd kvd5)) as Hfence.
  { intros d Hd. pose proof (proj1 (onG_ends e d ltac:(lia)) Hd) as [Hrange Hpd]. destruct (Hsent d Hpd Hrange) as [H1 H2]. split.
    - destruct H1 as [?|?]; [left|by right]. apply onG_ends; [lia|]. pose proof (hi_step dmax bmid (e - 1) ltac:(lia) ltac:(lia)) as Hhi. replace (e - 1 + 1) with e in Hhi by lia. revert Hhi. case_if; lia.
    - destruct H2 as [?|?]; [left|by right]. apply onG_ends; [lia|]. pose proof (lo_step dmin bmid (e - 1) ltac:(lia) ltac:(lia)) as Hlo. replace (e - 1 + 1) with e in Hlo by lia. revert Hlo. case_if; lia. }
  destruct (backward_spec e kvd5 got0 _ _ (lo_of dmin fmid e) (hi_of dmax fmid e) He Hlen5 HG5 Hfence eq_refl eq_refl ltac:(lia) ltac:(lia)) as ([[kvd6 got] found] & Hloop & Hlen6 & Hpost).
  exists kvd4, kvd5, kvd6, got, found. split; [done|]. split; [done|]. split; [done|]. split; [done|].
  assert (forall d v, back_moved e (bwd kvd5) d v -> back_moved e (bwd kvd) d v) as Hmv_ext.
  { intros d v (p & (Hsrc & Hl & Hr') & Hv). exists p. split; [|done]. split; [|split].
    - destruct Hsrc as [[Hon ->]|[Hon ->]]; [left|right]; (split; [done|]); unfold mirror; by rewrite Hsame; [|rewrite Z.opp_involutive].
    - intros Hon. rewrite <-(Hl Hon). unfold mirror. rewrite Hsame; [lia|by rewrite Z.opp_involutive].
    - intros Hon. rewrite <-(Hr' Hon). unfold mirror. rewrite Hsame; [lia|by rewrite Z.opp_involutive]. }
  destruct found as [spl|].
  - destruct Hpost as (Ho & d & v & Hon & Hd & Hmv & ->). apply Hmv_ext in Hmv. rewrite Ho in Hpar.
    apply (backward_meets e (fwd kvd) (bwd kvd) d v); try done; [by apply Heven|]. apply onF_ends; [lia|]. apply onG_ends in Hon; lia.
  - destruct Hpost as (Hmoved & Hframe6 & Hapart). pose proof (back_moved_level e (bwd kvd5) (bwd kvd6) He HG5 Hmoved) as HG6.
    assert (forall d, dmin - 1 <= d <= dmax + 1 -> fwd kvd6 d = fwd kvd3 d) as Hforw6.
    { intros d Hd. rewrite <-Hforw by done. apply Hframe6; [pose proof (place_f kvd d Hlen Hd); lia|]. intros d' Hd' Heq. apply onG_ends in Hd'; [|lia]. pose proof (places_apart d d' Hd ltac:(lia)). lia. }
    assert (levelF e (fwd kvd6)) as HF6 by (apply (level_ext _ _ _ _ _ (fwd kvd3)); [|done]; intros d Hd; apply onF_ends in Hd; [|lia]; rewrite Hforw6 by lia; done).
    assert (is_odd = false -> apartF e e (fwd kvd6) (mirror (bwd kvd6))) as Hev6.
    { intros Ho d Hd HdG. rewrite mirror_at. apply onF_ends in Hd; [|lia]. pose proof (Hapart Ho d HdG ltac:(lia)) as Hlt. rewrite Hforw, <-Hforw6 in Hlt by lia. lia. }
    assert (is_odd = true -> apartF e (e - 1) (fwd kvd6) (mirror (bwd kvd))) as Hod6.
    { intros Ho d Hd HdG. pose proof (Hap Ho d Hd HdG). apply onF_ends in Hd; [|lia]. rewrite Hforw6 by lia. done. }
    split; [|split].
    + split; [done|done|done|lia|done|]. intros Ho _. exists (mirror (bwd kvd)). split; [done|by apply Hod6].
    + intros Hd. destruct is_odd.
      * assert (onG (e - 1) (- bmid)) as HdG by (unfold on in *; lia). pose proof (Hod6 eq_refl _ Hd HdG). destruct (HG _ HdG) as (? & _). lia.
      * assert (onG e (- bmid)) as HdG by (unfold on in *; lia). pose proof (Hev6 eq_refl _ Hd HdG). destruct (HG6 _ HdG) as (? & _). lia.
    + intros HdG. destruct is_odd.
      * destruct (Hmv_ext _ _ (Hmoved _ HdG)) as (p & Hreach & Hv). pose proof (back_corner e e (fwd kvd6) (bwd kvd) p He ltac:(unfold on in HdG; lia) HF6 (Hod6 eq_refl) Hreach) as Hp.
        destruct (Z.eq_dec (bwd kvd6 fmid) off1) as [Heq|Hne]; [|lia]. exfalso. destruct Hv as [Hv|(_ & _ & _ & Hv)]; [lia|]. apply Hfirst. rewrite Heq in Hv. by replace (off1 - fmid) with off2 in Hv by lia.
      * assert (onF e fmid) as Hd by (unfold on in *; lia). pose proof (Hev6 eq_refl _ Hd HdG) as Hlt. rewrite mirror_at in Hlt. destruct (HF6 _ Hd) as (? & _). lia.
Qed.


Definition round_inv (st : list Z * Z * Z * Z * Z * Z) : Prop :=
  let '(kvd, ec, fmin, fmax, bmin, bmax) := st in
  1 <= ec /\ paths (ec - 1) kvd /\ fmin = lo_of dmin fmid (ec - 1) /\ fmax = hi_of dmax fmid (ec - 1) /\ bmin = lo_of dmin bmid (ec - 1) /\ bmax = hi_of dmax bmid (ec - 1).

Definition steps_left (st : list Z * Z * Z * Z * Z * Z) : Z := let '(_, ec, _, _, _, _) := st in (lim1 - off1) + (lim2 - off2) - (ec - 1).

Definition split_done (r : list Z * xdpsplit * Z) : Prop := let '(kvd, spl, ec) := r in zlen kvd = n /\ 1 <= ec <= (lim1 - off1) + (lim2 - off2) /\ good_split spl.

Lemma found_done kvd spl ec : zlen kvd = n -> 1 <= ec <= (lim1 - off1) + (lim2 - off2) -> good_split spl -> split_done (kvd, spl, ec).
Proof. by split. Qed.

Lemma split_round_spec st : round_inv st ->
  exists r, split_round ha1 ha2 off1 lim1 off2 lim2 kvdf kvdb need_min xenv st = Ret r /\
    match r with inl st' => round_inv st' /\ steps_left st' = steps_left st - 1 /\ 0 < steps_left st' | inr res => split_done res end.
Proof.
  destruct st as [[[[[kvd e] fmin] fmax] bmin] bmax]. intros (He & Hpaths & -> & -> & -> & ->). destruct Hbox as [Hb1 Hb2 _ _ _]. pose proof (paths_end (e - 1) kvd ltac:(lia) Hpaths) as Hfew. assert (1 <= e <= (lim1 - off1) + (lim2 - off2)) as Hec by lia.
  destruct (forward_phase e kvd He Hpaths) as (kvd1 & kvd2 & kvd3 & got & found & Hmin & Hmax & Hloop & Hlen3 & Hfound).
  unfold split_round. rewrite Hmin. run. rewrite Hmax. run. rewrite Hloop. run. destruct found as [spl|]; [eexists; split; [done|]; by apply found_done|]. destruct Hfound as (HF & Hback & Hap).
  destruct (backward_phase e kvd kvd3 got He Hpaths Hlen3 HF Hback Hap) as (kvd4 & kvd5 & kvd6 & got' & found & Hmin' & Hmax' & Hloop' & Hlen6 & Hfound).
  rewrite Hmin'. run. rewrite Hmax'. run. rewrite Hloop'. run. destruct found as [spl|]; [eexists; split; [done|]; by apply found_done|]. destruct Hfound as (Hpaths' & Hcf & Hcb).
  pose proof (paths_end e kvd6 ltac:(lia) Hpaths') as Hend.
  assert (round_inv (kvd6, e + 1, lo_of dmin fmid e, hi_of dmax fmid e, lo_of dmin bmid e, hi_of dmax bmid e)) as Hinv by (unfold round_inv; replace (e + 1 - 1) with e by lia; split; [lia|]; split; [exact Hpaths'|done]).
  assert (exists r, Ret (inl (kvd6, e + 1, lo_of dmin fmid e, hi_of dmax fmid e, lo_of dmin bmid e, hi_of dmax bmid e)) = Ret r :> outcome ((list Z * Z * Z * Z * Z * Z) + (list Z * xdpsplit * Z)) /\
    match r with inl st' => round_inv st' /\ steps_left st' = (lim1 - off1) + (lim2 - off2) - (e - 1) - 1 /\ 0 < steps_left st' | inr res => split_done res end) as Hgo.
  { eexists. split; [done|]. cbv beta iota. split; [done|]. unfold steps_left. lia. }
  destruct need_min; [done|].
  pose proof (ends_range dmin dmax fmid e ltac:(lia) ltac:(lia)) as Hfr. pose proof (ends_range dmin dmax bmid e ltac:(lia) ltac:(lia)) as Hbr.
  destruct (interesting_spec kvd6 e (lo_of dmin fmid e) (hi_of dmax fmid e) (lo_of dmin bmid e) (hi_of dmax bmid e) Hlen6 ltac:(lia) ltac:(lia) ltac:(lia) ltac:(lia)) as (sample & Hsample & Hgood).
  assert (exists s, (if got' && (e >? heur_min xenv) then interesting ha1 ha2 off1 lim1 off2 lim2 kvdf kvdb xenv kvd6 e (lo_of dmin fmid e) (hi_of dmax fmid e) (lo_of dmin bmid e) (hi_of dmax bmid e) else Ret None) = Ret s /\
    forall spl, s = Some spl -> good_split spl) as (s & -> & Hs) by (destruct (got' && _); [by exists sample|by exists None]).
  run. destruct s as [spl|]; [eexists; split; [done|]; apply found_done; auto|]. rewrite Z.geb_leb. destruct (Z.leb_spec (mxcost xenv) e); [|done].
  destruct (furthest_spec kvd6 e Hlen6 He (paths_f _ _ Hpaths') (paths_b _ _ Hpaths') Hcf Hcb) as (spl & -> & Hspl). run. eexists. split; [done|]. by apply found_done.
Qed.

Lemma split_spec kvd : zlen kvd = n ->
  exists kvd' spl ec, xdl_split ha1 ha2 off1 lim1 off2 lim2 kvdf kvdb need_min xenv kvd = Ret (kvd', spl, ec) /\ zlen kvd' = n /\ 1 <= ec <= (lim1 - off1) + (lim2 - off2) /\ good_split spl.
Proof.
  intros Hlen. destruct Hbox as [Hb1 Hb2 _ _ _]. unfold xdl_split.
  destruct (wr_getk kvd (kvdf + fmid) off1) as (kvd1 & -> & Hl1 & Hg1); [apply place_f; [done|lia]|]. run.
  destruct (wr_getk kvd1 (kvdb + bmid) lim1) as (kvd2 & -> & Hl2 & Hg2); [rewrite Hl1; apply place_b; [done|lia]|]. run.
  pose proof (place_f kvd fmid Hlen ltac:(lia)) as Hpf. pose proof (place_b kvd bmid Hlen ltac:(lia)) as Hpb. pose proof (places_apart fmid bmid ltac:(lia) ltac:(lia)).
  assert (fwd kvd2 fmid = off1) as Hf0 by (unfold fwd; rewrite Hg2, decide_False, Hg1, decide_True by lia; done).
  assert (bwd kvd2 bmid = lim1) as Hb0 by (unfold bwd; rewrite Hg2, decide_True by lia; done).
  assert (paths 0 kvd2) as Hpaths.
  { split; [lia|apply level_0; try lia; done|apply level_0; try lia; unfold mirror; replace (- (- lim1 - - lim2)) with bmid by lia; lia|done| |lia].
    intros Ho d Hd HdG. unfold on in Hd, HdG. assert (d = fmid) as -> by lia. assert (bmid = fmid) as Heq by lia. rewrite mirror_at, Hf0, <-Heq, Hb0. lia. }
  destruct (loop_ret round_inv (fun st => steps_left st) (S (Z.to_nat ((lim1 - off1) + (lim2 - off2)))) (split_round ha1 ha2 off1 lim1 off2 lim2 kvdf kvdb need_min xenv) (kvd2, 1, fmid, fmid, bmid, bmid) split_done) as ([[kvd' spl] ec] & -> & Hd & Hec & Hspl).
  - intros st Hst. destruct (split_round_spec st Hst) as (r & -> & Hr). eexists. split; [done|]. destruct r; [|done]. destruct Hr as (? & ? & ?). split; [done|lia].
  - split; [lia|]. split; [done|]. unfold lo_of, hi_of. repeat case_if; lia.
  - unfold steps_left. lia.
  - by exists kvd', spl, ec.
Qed.

End search.

(** [C38] [xdl_split], on a box whose first lines differ and whose last lines differ, and
    with arrays for its diagonals, stays in these arrays and ends, after at most as many
    rounds as the box has lines, with a point that divides the box into two smaller
    ones, whatever the heuristics. *)
Theorem xdl_split_divides ha1 ha2 off1 lim1 off2 lim2 kvdf kvdb need_min xenv n kvd :
  box_ok ha1 ha2 off1 lim1 off2 lim2 xenv -> places off1 lim1 off2 lim2 kvdf kvdb n -> zlen kvd = n ->
  exists kvd' spl ec, xdl_split ha1 ha2 off1 lim1 off2 lim2 kvdf kvdb need_min xenv kvd = Ret (kvd', spl, ec) /\ zlen kvd' = n /\ 1 <= ec <= (lim1 - off1) + (lim2 - off2) /\
    off1 <= spl_i1 spl <= lim1 /\ off2 <= spl_i2 spl <= lim2 /\ off1 + off2 < spl_i1 spl + spl_i2 spl < lim1 + lim2.
Proof. intros Hbox Hplaces Hlen. by apply split_spec. Qed.

Lemma xdl_split_divides_witness :
  exists kvd' spl ec, xdl_split [1; 2; 3; 1; 2; 2; 1] [3; 2; 1; 2; 1; 3] 0 7 0 6 7 23 false (AlgoEnv 256 20 256) (replicate 34 7) = Ret (kvd', spl, ec) /\ zlen kvd' = 34 /\ 1 <= ec <= (7 - 0) + (6 - 0) /\
    0 <= spl_i1 spl <= 7 /\ 0 <= spl_i2 spl <= 6 /\ 0 + 0 < spl_i1 spl + spl_i2 spl < 7 + 6.
Proof.
  apply (xdl_split_divides [1; 2; 3; 1; 2; 2; 1] [3; 2; 1; 2; 1; 3] 0 7 0 6 7 23 false (AlgoEnv 256 20 256) 34 (replicate 34 7)).
  - split; [evaluate..|done|done|done].
  - evaluate.
  - reflexivity.
Defined.
