(* ===== verification/XdiffCmp.v ===== *)
(** xdiff_xdiffi.c, [xdl_recs_cmp]: the comparison of two files by dividing, and the edit
    script.  The theorem is that the lines that get no mark are the same in both files. *)
From S2P Require Import Prelude XdiffFile XdiffSplit.

(** * Model *)

(** [rchg[rindex[i]] = 1] *)
Definition mark_step (rindex : list Z) (i : Z) (rchg : list Z) : outcome (list Z) :=
  r ← rd rindex i;
  wr rchg (r + 1) 1.

(** The marks of both files and the K vectors; the recursion is as deep as the box has
    lines. *)
Fixpoint xdl_recs_cmp (fuel : nat) (ha1 rindex1 ha2 rindex2 : list Z) (kvdf kvdb : Z) (xenv : xdalgoenv) (off1 lim1 off2 lim2 : Z) (need_min : bool)
    (st : list Z * list Z * list Z) : outcome (list Z * list Z * list Z) :=
  match fuel with
  | O => Undef
  | S fuel =>
      let '(rchg1, rchg2, kvd) := st in
      '(off1, off2) ← loop (S (Z.to_nat (lim1 - off1))) (snake_step ha1 ha2 lim1 lim2) (off1, off2);
      '(lim1, lim2) ← loop (S (Z.to_nat (lim1 - off1))) (back_snake_step ha1 ha2 off1 off2) (lim1, lim2);
      if off1 =? lim1 then rchg2 ← for_n (Z.to_nat (lim2 - off2)) off2 (mark_step rindex2) rchg2; Ret (rchg1, rchg2, kvd) else
      if off2 =? lim2 then rchg1 ← for_n (Z.to_nat (lim1 - off1)) off1 (mark_step rindex1) rchg1; Ret (rchg1, rchg2, kvd) else
      '(kvd, spl, ec) ← xdl_split ha1 ha2 off1 lim1 off2 lim2 kvdf kvdb need_min xenv kvd;
      if ec <? 0 then Err Error else
      st ← xdl_recs_cmp fuel ha1 rindex1 ha2 rindex2 kvdf kvdb xenv off1 (spl_i1 spl) off2 (spl_i2 spl) (min_lo spl) (rchg1, rchg2, kvd);
      xdl_recs_cmp fuel ha1 rindex1 ha2 rindex2 kvdf kvdb xenv (spl_i1 spl) lim1 (spl_i2 spl) lim2 (min_hi spl) st
  end.

(** * Snakes *)

Section snakes.
Context (ha1 ha2 : list Z).

Lemma snake_run lim1 lim2 : lim1 <= zlen ha1 -> lim2 <= zlen ha2 -> forall k i1 i2, (Z.to_nat (lim1 - i1) < k)%nat -> 0 <= i1 <= lim1 -> 0 <= i2 <= lim2 ->
  exists c, 0 <= c /\ loop k (snake_step ha1 ha2 lim1 lim2) (i1, i2) = Ret (i1 + c, i2 + c) /\ i1 + c <= lim1 /\ i2 + c <= lim2 /\
    (forall j, 0 <= j < c -> getk ha1 (i1 + j) = getk ha2 (i2 + j)) /\ (i1 + c < lim1 -> i2 + c < lim2 -> getk ha1 (i1 + c) <> getk ha2 (i2 + c)).
Proof.
  intros Hl1 Hl2. induction k as [|k IH]; intros i1 i2 Hk H1 H2; [lia|]. destruct ((i1 <? lim1) && (i2 <? lim2)) eqn:Ein.
  - apply andb_prop in Ein as [Hi1%Z.ltb_lt Hi2%Z.ltb_lt].
    assert (snake_step ha1 ha2 lim1 lim2 (i1, i2) = Ret (if getk ha1 i1 =? getk ha2 i2 then inl (i1 + 1, i2 + 1) else inr (i1, i2))) as Hstep.
    { unfold snake_step. rewrite (proj2 (Z.ltb_lt i1 lim1) Hi1), (proj2 (Z.ltb_lt i2 lim2) Hi2). cbn [andb negb]. rewrite !rd_getk by lia. done. }
    destruct (Z.eqb_spec (getk ha1 i1) (getk ha2 i2)) as [Heq|Hne].
    + rewrite (loop_next _ _ _ _ Hstep). destruct (IH (i1 + 1) (i2 + 1)) as (c & Hc & -> & Hc1 & Hc2 & Hsame & Hend); [lia..|]. exists (c + 1). split; [lia|]. split; [f_equal; f_equal; lia|]. split; [lia|]. split; [lia|]. split.
      * intros j Hj. destruct (Z.eq_dec j 0) as [->|Hj0]; [by rewrite !Z.add_0_r|]. specialize (Hsame (j - 1) ltac:(lia)). replace (i1 + 1 + (j - 1)) with (i1 + j) in Hsame by lia. by replace (i2 + 1 + (j - 1)) with (i2 + j) in Hsame by lia.
      * replace (i1 + (c + 1)) with (i1 + 1 + c) by lia. replace (i2 + (c + 1)) with (i2 + 1 + c) by lia. done.
    + rewrite (loop_stop _ _ _ _ Hstep). exists 0. rewrite !Z.add_0_r. split; [lia|]. split; [done|]. split; [lia|]. split; [lia|]. split; [lia|done].
  - exists 0. rewrite (loop_stop _ _ _ (i1, i2)) by (unfold snake_step; by rewrite Ein). rewrite !Z.add_0_r. split; [lia|]. split; [done|]. split; [lia|]. split; [lia|]. split; [lia|]. intros Hlt1 Hlt2. apply Z.ltb_lt in Hlt1, Hlt2. by rewrite Hlt1, Hlt2 in Ein.
Qed.

Lemma back_snake_run off1 off2 : 0 <= off1 -> 0 <= off2 -> forall k i1 i2, (Z.to_nat (i1 - off1) < k)%nat -> off1 <= i1 <= zlen ha1 -> off2 <= i2 <= zlen ha2 ->
  exists c, 0 <= c /\ loop k (back_snake_step ha1 ha2 off1 off2) (i1, i2) = Ret (i1 - c, i2 - c) /\ off1 <= i1 - c /\ off2 <= i2 - c /\
    (forall j, 0 <= j < c -> getk ha1 (i1 - c + j) = getk ha2 (i2 - c + j)) /\ (off1 < i1 - c -> off2 < i2 - c -> getk ha1 (i1 - c - 1) <> getk ha2 (i2 - c - 1)).
Proof.
  intros Hl1 Hl2. induction k as [|k IH]; intros i1 i2 Hk H1 H2; [lia|]. destruct ((i1 >? off1) && (i2 >? off2)) eqn:Ein.
  - apply andb_prop in Ein as [Hi1 Hi2]. pose proof Hi1 as Hg1. pose proof Hi2 as Hg2. apply Z.gtb_lt in Hg1, Hg2.
    assert (back_snake_step ha1 ha2 off1 off2 (i1, i2) = Ret (if getk ha1 (i1 - 1) =? getk ha2 (i2 - 1) then inl (i1 - 1, i2 - 1) else inr (i1, i2))) as Hstep.
    { unfold back_snake_step. rewrite Hi1, Hi2. cbn [andb negb]. rewrite !rd_getk by lia. done. }
    destruct (Z.eqb_spec (getk ha1 (i1 - 1)) (getk ha2 (i2 - 1))) as [Heq|Hne].
    + rewrite (loop_next _ _ _ _ Hstep). destruct (IH (i1 - 1) (i2 - 1)) as (c & Hc & -> & Hc1 & Hc2 & Hsame & Hend); [lia..|]. exists (c + 1). replace (i1 - (c + 1)) with (i1 - 1 - c) by lia. replace (i2 - (c + 1)) with (i2 - 1 - c) by lia.
      split; [lia|]. split; [done|]. split; [lia|]. split; [lia|]. split; [|done]. intros j Hj. destruct (Z.eq_dec j c) as [->|Hjc]; [|apply Hsame; lia]. replace (i1 - 1 - c + c) with (i1 - 1) by lia. by replace (i2 - 1 - c + c) with (i2 - 1) by lia.
    + rewrite (loop_stop _ _ _ _ Hstep). exists 0. rewrite !Z.sub_0_r. split; [lia|]. split; [done|]. split; [lia|]. split; [lia|]. split; [lia|done].
  - exists 0. rewrite (loop_stop _ _ _ (i1, i2)) by (unfold back_snake_step; by rewrite Ein). rewrite !Z.sub_0_r. split; [lia|]. split; [done|]. split; [lia|]. split; [lia|]. split; [lia|]. intros Hlt1 Hlt2. apply Z.gtb_lt in Hlt1, Hlt2. by rewrite Hlt1, Hlt2 in Ein.
Qed.
End snakes.

(** * Marks *)

(** The mark of the line at a place in the index. *)
Definition mark_of (rindex rchg : list Z) (i : Z) : Z := getk rchg (getk rindex i + 1).

(** The first [n] places of the index are increasing and have marks. *)
Record index_ok (rindex : list Z) (n len : Z) : Prop := {
  index_len : n <= zlen rindex;
  index_in : forall i, 0 <= i < n -> 0 <= getk rindex i + 1 < len;
  index_lt : forall i j, 0 <= i < j -> j < n -> getk rindex i < getk rindex j;
}.

(** Marks set on the places from [lo] to [hi], and nowhere else. *)
Record marked (rindex : list Z) (lo hi : Z) (rchg rchg' : list Z) : Prop := {
  marked_len : zlen rchg' = zlen rchg;
  marked_out : forall j, 0 <= j -> (forall i, lo <= i < hi -> j <> getk rindex i + 1) -> getk rchg' j = getk rchg j;
  marked_in : forall j, 0 <= j -> getk rchg' j = getk rchg j \/ getk rchg' j = 1;
}.

Section marks.
Context (rindex : list Z).
Implicit Types (rchg : list Z) (lo mid hi : Z).

Lemma marked_refl lo hi rchg : marked rindex lo hi rchg rchg.
Proof. split; auto. Qed.

Lemma marked_trans lo hi rchg rchg' rchg'' : marked rindex lo hi rchg rchg' -> marked rindex lo hi rchg' rchg'' -> marked rindex lo hi rchg rchg''.
Proof.
  intros [Hl Ho Hi] [Hl' Ho' Hi']. split; [congruence| |].
  - intros j Hj Hn. by rewrite Ho', Ho.
  - intros j Hj. destruct (Hi' j Hj) as [->|]; auto.
Qed.

Lemma marked_widen lo lo' hi hi' rchg rchg' : lo' <= lo -> hi <= hi' -> marked rindex lo hi rchg rchg' -> marked rindex lo' hi' rchg rchg'.
Proof. intros Hlo Hhi [Hl Ho Hi]. split; [done| |done]. intros j Hj Hn. apply Ho; [done|]. intros i Hin. apply Hn. lia. Qed.

(** Places outside of the range keep their marks. *)
Lemma marked_keep n lo hi rchg rchg' i : index_ok rindex n (zlen rchg) -> marked rindex lo hi rchg rchg' -> 0 <= lo -> hi <= n -> 0 <= i < n -> i < lo \/ hi <= i -> mark_of rindex rchg' i = mark_of rindex rchg i.
Proof.
  intros [_ Hin Hlt] [_ Ho _] Hlo Hhi Hi Hout. apply Ho; [by apply Hin|]. intros i' Hi'. destruct Hout as [?|?]; [specialize (Hlt i i' ltac:(lia) ltac:(lia)); lia|specialize (Hlt i' i ltac:(lia) ltac:(lia)); lia].
Qed.

Lemma mark_all n lo hi rchg : index_ok rindex n (zlen rchg) -> 0 <= lo <= hi -> hi <= n ->
  exists rchg', for_n (Z.to_nat (hi - lo)) lo (mark_step rindex) rchg = Ret rchg' /\ marked rindex lo hi rchg rchg' /\ forall i, lo <= i < hi -> mark_of rindex rchg' i = 1.
Proof.
  intros Hok Hlo Hhi. pose proof Hok as [Hlen Hin Hlt].
  destruct (for_n_ret (fun k r => lo <= k <= hi /\ marked rindex lo hi rchg r /\ forall i, lo <= i < k -> mark_of rindex r i = 1) (Z.to_nat (hi - lo)) lo (mark_step rindex) rchg) as (r & -> & _ & Hm & Hone).
  - intros k r Hk (_ & Hm & Hone). unfold mark_step. rewrite rd_getk by lia. run. pose proof (Hin k ltac:(lia)) as Hk'.
    destruct (wr_getk r (getk rindex k + 1) 1) as (r' & -> & Hl & Hg); [by rewrite (marked_len _ _ _ _ _ Hm)|]. exists r'. split; [done|]. split; [lia|]. split.
    + apply (marked_trans _ _ _ r); [done|]. split; [done| |].
      * intros j Hj Hn. rewrite Hg, decide_False by (done || (apply Hn; lia)). done.
      * intros j Hj. rewrite Hg by done. case_decide; auto.
    + intros i Hi. unfold mark_of. rewrite Hg by (apply Hin; lia). case_decide as Heq; [done|]. apply Hone. assert (i <> k) by congruence. lia.
  - split; [lia|]. split; [apply marked_refl|lia].
  - exists r. split; [done|]. split; [done|]. intros i Hi. apply Hone. lia.
Qed.
End marks.

(** * The comparison *)

Section cmp.
Context (ha1 rindex1 ha2 rindex2 : list Z) (kvdf kvdb : Z) (xenv : xdalgoenv) (n N1 N2 len1 len2 : Z).
Context (Hsnake : 1 <= snake_cnt xenv) (Hha1 : N1 <= zlen ha1) (Hha2 : N2 <= zlen ha2) (Hmax : N1 + N2 <= XDL_LINE_MAX).
Context (Hindex1 : index_ok rindex1 N1 len1) (Hindex2 : index_ok rindex2 N2 len2).
Context (Hplaces : places 0 N1 0 N2 kvdf kvdb n).

Notation left1 rchg lo hi := (unmarked (getk ha1) (mark_of rindex1 rchg) lo hi).
Notation left2 rchg lo hi := (unmarked (getk ha2) (mark_of rindex2 rchg) lo hi).

(** Snakes before and after a box do not matter. *)
Lemma around off1 lim1 off2 lim2 c b rchg1 rchg2 : 0 <= c -> 0 <= b -> off1 + c <= lim1 - b -> off2 + c <= lim2 - b ->
  (forall j, 0 <= j < c -> getk ha1 (off1 + j) = getk ha2 (off2 + j) /\ mark_of rindex1 rchg1 (off1 + j) = 0 /\ mark_of rindex2 rchg2 (off2 + j) = 0) ->
  (forall j, 0 <= j < b -> getk ha1 (lim1 - b + j) = getk ha2 (lim2 - b + j) /\ mark_of rindex1 rchg1 (lim1 - b + j) = 0 /\ mark_of rindex2 rchg2 (lim2 - b + j) = 0) ->
  left1 rchg1 (off1 + c) (lim1 - b) = left2 rchg2 (off2 + c) (lim2 - b) -> left1 rchg1 off1 lim1 = left2 rchg2 off2 lim2.
Proof.
  intros Hc Hb H1 H2 Hfront Hback Hmid. rewrite (unmarked_app _ _ off1 (off1 + c) lim1), (unmarked_app _ _ off2 (off2 + c) lim2) by lia.
  rewrite (unmarked_app _ _ (off1 + c) (lim1 - b) lim1), (unmarked_app _ _ (off2 + c) (lim2 - b) lim2) by lia. rewrite Hmid. f_equal; [|f_equal].
  - apply unmarked_same. intros i Hi. destruct (Hfront i Hi) as (-> & -> & ->). done.
  - replace lim1 with (lim1 - b + b) at 2 by lia. replace lim2 with (lim2 - b + b) at 2 by lia. apply unmarked_same. intros i Hi. destruct (Hback i Hi) as (-> & -> & ->). done.
Qed.

Definition cmp_post off1 lim1 off2 lim2 (rchg1 rchg2 : list Z) (st : list Z * list Z * list Z) : Prop :=
  let '(rchg1', rchg2', kvd') := st in
  zlen kvd' = n /\ marked rindex1 off1 lim1 rchg1 rchg1' /\ marked rindex2 off2 lim2 rchg2 rchg2' /\ left1 rchg1' off1 lim1 = left2 rchg2' off2 lim2.

Lemma recs_cmp_spec : forall fuel off1 lim1 off2 lim2 need_min rchg1 rchg2 kvd, (Z.to_nat ((lim1 - off1) + (lim2 - off2)) < fuel)%nat ->
  0 <= off1 <= lim1 -> lim1 <= N1 -> 0 <= off2 <= lim2 -> lim2 <= N2 -> zlen kvd = n -> zlen rchg1 = len1 -> zlen rchg2 = len2 ->
  (forall i, off1 <= i < lim1 -> mark_of rindex1 rchg1 i = 0) -> (forall i, off2 <= i < lim2 -> mark_of rindex2 rchg2 i = 0) ->
  exists st, xdl_recs_cmp fuel ha1 rindex1 ha2 rindex2 kvdf kvdb xenv off1 lim1 off2 lim2 need_min (rchg1, rchg2, kvd) = Ret st /\ cmp_post off1 lim1 off2 lim2 rchg1 rchg2 st.
Proof.
  induction fuel as [|fuel IH]; intros off1 lim1 off2 lim2 need_min rchg1 rchg2 kvd Hfuel H1 Hl1 H2 Hl2 Hkvd Hr1 Hr2 Hclear1 Hclear2; [lia|]. cbn [xdl_recs_cmp].
  destruct (snake_run ha1 ha2 lim1 lim2 ltac:(lia) ltac:(lia) (S (Z.to_nat (lim1 - off1))) off1 off2 ltac:(lia) ltac:(lia) ltac:(lia)) as (c & Hc & -> & Hc1 & Hc2 & Hfront & Hfirst). run.
  destruct (back_snake_run ha1 ha2 (off1 + c) (off2 + c) ltac:(lia) ltac:(lia) (S (Z.to_nat (lim1 - (off1 + c)))) lim1 lim2 ltac:(lia) ltac:(lia) ltac:(lia)) as (b & Hb & -> & Hb1 & Hb2 & Hback & Hlast). run.
  assert (forall st, cmp_post (off1 + c) (lim1 - b) (off2 + c) (lim2 - b) rchg1 rchg2 st -> cmp_post off1 lim1 off2 lim2 rchg1 rchg2 st) as Hwrap.
  { intros [[rchg1' rchg2'] kvd'] (Hk & Hm1 & Hm2 & Hsame). split; [done|]. split; [by apply (marked_widen _ (off1 + c) _ (lim1 - b)); [lia..|]|]. split; [by apply (marked_widen _ (off2 + c) _ (lim2 - b)); [lia..|]|].
    apply (around off1 lim1 off2 lim2 c b); try lia; [intros j Hj|intros j Hj|done].
    - rewrite (marked_keep rindex1 N1 _ _ rchg1 rchg1' (off1 + j) ltac:(by rewrite Hr1) Hm1), (marked_keep rindex2 N2 _ _ rchg2 rchg2' (off2 + j) ltac:(by rewrite Hr2) Hm2) by lia.
      split; [by apply Hfront|]. split; [apply Hclear1|apply Hclear2]; lia.
    - rewrite (marked_keep rindex1 N1 _ _ rchg1 rchg1' (lim1 - b + j) ltac:(by rewrite Hr1) Hm1), (marked_keep rindex2 N2 _ _ rchg2 rchg2' (lim2 - b + j) ltac:(by rewrite Hr2) Hm2) by lia.
      split; [by apply Hback|]. split; [apply Hclear1|apply Hclear2]; lia. }
  set (o1 := off1 + c) in *. set (o2 := off2 + c) in *. set (l1 := lim1 - b) in *. set (l2 := lim2 - b) in *.
  assert (forall i, o1 <= i < l1 -> mark_of rindex1 rchg1 i = 0) as Hcl1 by (intros i Hi; apply Hclear1; lia). assert (forall i, o2 <= i < l2 -> mark_of rindex2 rchg2 i = 0) as Hcl2 by (intros i Hi; apply Hclear2; lia).
  assert (o1 <= l1 /\ o2 <= l2 /\ 0 <= o1 /\ 0 <= o2 /\ l1 <= lim1 /\ l2 <= lim2 /\ l1 <= N1 /\ l2 <= N2 /\ (l1 - o1) + (l2 - o2) <= (lim1 - off1) + (lim2 - off2)) as Hr by lia. clearbody o1 o2 l1 l2. clear Hfront Hback Hclear1 Hclear2.
  destruct (Z.eqb_spec o1 l1) as [->|Hne1]; [|destruct (Z.eqb_spec o2 l2) as [->|Hne2]].
  - destruct (mark_all rindex2 N2 o2 l2 rchg2) as (rchg2' & -> & Hm & Hone); [by rewrite Hr2|lia..|]. run. eexists. split; [done|]. apply Hwrap. split; [done|]. split; [apply marked_refl|]. split; [done|].
    rewrite unmarked_nil by lia. rewrite unmarked_none; [done|]. intros i Hi. rewrite Hone by lia. done.
  - destruct (mark_all rindex1 N1 o1 l1 rchg1) as (rchg1' & -> & Hm & Hone); [by rewrite Hr1|lia..|]. run. eexists. split; [done|]. apply Hwrap. split; [done|]. split; [done|]. split; [apply marked_refl|].
    rewrite (unmarked_nil _ _ l2) by lia. apply unmarked_none. intros i Hi. rewrite Hone by lia. done.
  - assert (box_ok ha1 ha2 o1 l1 o2 l2 xenv) as Hbox by (split; try lia; apply Hfirst; lia). assert (places o1 l1 o2 l2 kvdf kvdb n) as Hpl by (unfold places in *; lia).
    destruct (split_spec ha1 ha2 o1 l1 o2 l2 kvdf kvdb need_min xenv Hbox n Hpl kvd Hkvd) as (kvd' & spl & ec & -> & Hkvd' & Hec & Hs1 & Hs2 & Hs). run.
    destruct (Z.ltb_spec ec 0); [lia|]. destruct (IH o1 (spl_i1 spl) o2 (spl_i2 spl) (min_lo spl) rchg1 rchg2 kvd') as ([[rchg1' rchg2'] kvd''] & -> & Hk & Hm1 & Hm2 & Hlow); try lia; try done; [intros i Hi; apply Hcl1; lia|intros i Hi; apply Hcl2; lia|]. run.
    destruct (IH (spl_i1 spl) l1 (spl_i2 spl) l2 (min_hi spl) rchg1' rchg2' kvd'') as ([[rchg1'' rchg2''] kvd'''] & -> & Hk' & Hm1' & Hm2' & Hhigh); try lia; try done;
      [by rewrite (marked_len _ _ _ _ _ Hm1)|by rewrite (marked_len _ _ _ _ _ Hm2)| | |].
    + intros i Hi. rewrite (marked_keep rindex1 N1 _ _ rchg1 rchg1' i ltac:(by rewrite Hr1) Hm1) by lia. apply Hcl1. lia.
    + intros i Hi. rewrite (marked_keep rindex2 N2 _ _ rchg2 rchg2' i ltac:(by rewrite Hr2) Hm2) by lia. apply Hcl2. lia.
    + eexists. split; [done|]. apply Hwrap. split; [done|]. split; [|split].
      * apply (marked_trans _ _ _ _ rchg1'); [by apply (marked_widen _ o1 _ (spl_i1 spl)); [lia..|]|by apply (marked_widen _ (spl_i1 spl) _ l1); [lia..|]].
      * apply (marked_trans _ _ _ _ rchg2'); [by apply (marked_widen _ o2 _ (spl_i2 spl)); [lia..|]|by apply (marked_widen _ (spl_i2 spl) _ l2); [lia..|]].
      * rewrite (unmarked_app _ _ o1 (spl_i1 spl) l1), (unmarked_app _ _ o2 (spl_i2 spl) l2) by lia. rewrite Hhigh. f_equal.
        rewrite (unmarked_ext _ (getk ha1) _ (mark_of rindex1 rchg1') o1), Hlow; [|intros i Hi; split; [done|apply (marked_keep rindex1 N1 (spl_i1 spl) l1); try done; [by rewrite (marked_len _ _ _ _ _ Hm1), Hr1|lia..]]].
        apply unmarked_ext. intros i Hi. split; [done|]. symmetry. apply (marked_keep rindex2 N2 (spl_i2 spl) l2); try done; [by rewrite (marked_len _ _ _ _ _ Hm2), Hr2|lia..].
Qed.
End cmp.
