(* ===== verification/XdiffPrepare.v ===== *)
(** xdiff_xprepare.c: files as lines with classes, the lines that both files start and
    end with, and the lines that the search leaves out; and the part of [xdl_do_diff]
    that compares prepared files by Myers' algorithm. *)
From S2P Require Import Prelude StrbufLines XdiffFile XdiffUtils XdiffSplit XdiffCmp.

(** * Model *)

(** [xdlclass_t], known by its place in [rcrecs] *)
Record xdlclass := XdlClass { cls_ha : Z; cls_line : list Z; cls_len1 : Z; cls_len2 : Z }.

(** [xdlclassifier_t]: [rchash] has the chains of classes with a hash. *)
Record xdlclassifier := Classifier { hbits : Z; rchash : list (list Z); rcrecs : list xdlclass; cf_flags : Z }.

(** [xdfenv_t] *)
Record xdfenv := XdfEnv { xdf1 : xdfile; xdf2 : xdfile }.

Definition XDL_KPDIS_RUN : Z := 4.
Definition XDL_MAX_EQLIMIT : Z := 1024.
Definition XDL_SIMSCAN_WINDOW : Z := 100.
Definition XDL_GUESS_NLINES1 : Z := 256.
Definition XDL_GUESS_NLINES2 : Z := 20.

(** [1 << hbits] as an [int] *)
Definition hash_size (hbits : Z) : outcome Z := if hbits <? 31 then Ret (2 ^ hbits) else Undef.

Section model.
Context `{XdiffH} (junk : Z).

(** The macro of xdiff.h, and the test for neither of the other algorithms. *)
Definition XDF_DIFF_ALG (flags : Z) : Z := Z.land flags XDF_DIFF_ALGORITHM_MASK.
Definition myers (flags : Z) : bool := negb (XDF_DIFF_ALG flags =? XDF_PATIENCE_DIFF) && negb (XDF_DIFF_ALG flags =? XDF_HISTOGRAM_DIFF).

Definition xdl_init_classifier (size flags : Z) : outcome xdlclassifier :=
  hbits ← xdl_hashbits (u32 size);
  hsize ← hash_size hbits;
  Ret (Classifier hbits (replicate (Z.to_nat hsize) []) [] flags).

(** The search of a chain for the class of a line. *)
Fixpoint find_class (cf : xdlclassifier) (ha : Z) (line : list Z) (chain : list Z) : outcome (option Z) :=
  match chain with
  | [] => Ret None
  | idx :: chain =>
      rcrec ← rd (rcrecs cf) idx;
      same ← (if cls_ha rcrec =? ha then xdl_recmatch (cls_line rcrec) line (cf_flags cf) else Ret false);
      if (same : bool) then Ret (Some idx) else find_class cf ha line chain
  end.

(** A class of its own for a record, at the front of its chain. *)
Definition new_class (cf : xdlclassifier) (hi : Z) (chain : list Z) (rec : xrecord) : outcome (xdlclassifier * Z) :=
  let idx := zlen (rcrecs cf) in
  rchash ← wr (rchash cf) hi (idx :: chain);
  Ret (Classifier (hbits cf) rchash (rcrecs cf ++ [XdlClass (rec_ha rec) (rec_line rec) 0 0]) (cf_flags cf), idx).

(** The class of a record, and the record in the chains [rhash] of its file, where it is
    known by its place [i]. *)
Definition xdl_classify_record (pass : Z) (cf : xdlclassifier) (rhash : list (list Z)) (rbits : Z) (i : Z) (rec : xrecord) : outcome (xdlclassifier * list (list Z) * xrecord) :=
  let hi := XDL_HASHLONG (rec_ha rec) (hbits cf) in
  chain ← rd (rchash cf) hi;
  found ← find_class cf (rec_ha rec) (rec_line rec) chain;
  '(cf, idx) ← match found with Some idx => Ret (cf, idx) | None => new_class cf hi chain rec end;
  rcrec ← rd (rcrecs cf) idx;
  let rcrec := if pass =? 1 then XdlClass (cls_ha rcrec) (cls_line rcrec) (cls_len1 rcrec + 1) (cls_len2 rcrec)
               else XdlClass (cls_ha rcrec) (cls_line rcrec) (cls_len1 rcrec) (cls_len2 rcrec + 1) in
  rcrecs ← wr (rcrecs cf) idx rcrec;
  let hi := XDL_HASHLONG idx rbits in
  rchain ← rd rhash hi;
  rhash ← wr rhash hi (i :: rchain);
  Ret (Classifier (hbits cf) (rchash cf) rcrecs (cf_flags cf), rhash, XRecord (rec_line rec) idx).

(** One line, on [cur], the records, [rhash] and the classifier. *)
Definition ctx_step (pass : Z) (mf : list Z) (flags rbits : Z) (st : Z * list xrecord * list (list Z) * xdlclassifier) :
    outcome ((Z * list xrecord * list (list Z) * xdlclassifier) + (list xrecord * list (list Z) * xdlclassifier)) :=
  let '(cur, recs, rhash, cf) := st in
  if negb (cur <? zlen mf) then Ret (inr (recs, rhash, cf)) else
  let prev := cur in
  '(hav, cur) ← xdl_hash_record mf cur flags;
  '(cf, rhash, crec) ← xdl_classify_record pass cf rhash rbits (zlen recs) (XRecord (slice mf prev (cur - prev)) hav);
  Ret (inl (cur, recs ++ [crec], rhash, cf)).

Definition xdl_prepare_ctx (pass : Z) (mf : list Z) (narec flags : Z) (cf : xdlclassifier) : outcome (xdlclassifier * xdfile) :=
  rbits ← xdl_hashbits (u32 narec);
  hsize ← hash_size rbits;
  '(recs, _, cf) ← loop (S (length mf)) (ctx_step pass mf flags rbits) (0, [], replicate (Z.to_nat hsize) [], cf);
  let nrec := zlen recs in
  (* NULL for the algorithms that do not use them *)
  let rindex := if myers flags then replicate (Z.to_nat (nrec + 1)) junk else [] in
  let ha := if myers flags then replicate (Z.to_nat (nrec + 1)) junk else [] in
  Ret (cf, XdFile recs 0 (nrec - 1) (replicate (Z.to_nat (nrec + 2)) 0) rindex 0 ha).

(** ** Lines left out *)

(** One round of the scans before and after line [i]: [dir] is -1 or 1. *)
Definition scan_step (dis : list Z) (base i dir stop : Z) (st : Z * Z * Z) : outcome ((Z * Z * Z) + (Z * Z)) :=
  let '(r, rdis, rpdis) := st in
  if negb (if dir <? 0 then i - r >=? stop else i + r <=? stop) then Ret (inr (rdis, rpdis)) else
  d ← rd dis (base + (i + dir * r));
  Ret (if d =? 0 then inl (r + 1, rdis + 1, rpdis) else if d =? 2 then inl (r + 1, rdis, rpdis + 1) else inr (rdis, rpdis)).

Definition xdl_clean_mmatch (dis : list Z) (base i s e : Z) : outcome bool :=
  let s := if i - s >? XDL_SIMSCAN_WINDOW then i - XDL_SIMSCAN_WINDOW else s in
  let e := if e - i >? XDL_SIMSCAN_WINDOW then i + XDL_SIMSCAN_WINDOW else e in
  '(rdis0, rpdis0) ← loop (S (Z.to_nat (i - s + 1))) (scan_step dis base i (-1) s) (1, 0, 1);
  if rdis0 =? 0 then Ret false else
  '(rdis1, rpdis1) ← loop (S (Z.to_nat (e - i + 1))) (scan_step dis base i 1 e) (1, 0, 1);
  if rdis1 =? 0 then Ret false else
  let rdis1 := rdis1 + rdis0 in
  let rpdis1 := rpdis1 + rpdis0 in
  Ret (rpdis1 * XDL_KPDIS_RUN <? rpdis1 + rdis1).

(** [dis[i] = (nm == 0) ? 0 : (nm >= mlim) ? 2 : 1], where [len] counts the other file. *)
Definition dis_step (cf : xdlclassifier) (recs : list xrecord) (len : xdlclass -> Z) (mlim base : Z) (i : Z) (dis : list Z) : outcome (list Z) :=
  rec ← rd recs i;
  rcrec ← rd (rcrecs cf) (rec_ha rec);
  let nm := len rcrec in
  wr dis (base + i) (if nm =? 0 then 0 else if nm >=? mlim then 2 else 1).

Definition mlim_of (n : Z) : outcome Z := mlim ← xdl_bogosqrt n; Ret (if mlim >? XDL_MAX_EQLIMIT then XDL_MAX_EQLIMIT else mlim).

(** A line is kept, or marked, on [rindex], [ha], [nreff] and [rchg]. *)
Definition keep_step (dis : list Z) (base : Z) (xdf : xdfile) (i : Z) (st : list Z * list Z * Z * list Z) : outcome (list Z * list Z * Z * list Z) :=
  let '(rindex, ha, nreff, rchg) := st in
  d ← rd dis (base + i);
  keep ← (if d =? 1 then Ret true else if d =? 2 then b ← xdl_clean_mmatch dis base i (dstart xdf) (dend xdf); Ret (negb b) else Ret false);
  if (keep : bool) then
    rindex ← wr rindex nreff i;
    rec ← rd (recs xdf) i;
    ha ← wr ha nreff (rec_ha rec);
    Ret (rindex, ha, nreff + 1, rchg)
  else
    rchg ← wr rchg (i + 1) 1;
    Ret (rindex, ha, nreff, rchg).

Definition cleanup_file (dis : list Z) (base : Z) (xdf : xdfile) : outcome xdfile :=
  '(rindex, ha, nreff, rchg) ← for_n (Z.to_nat (dend xdf - dstart xdf + 1)) (dstart xdf) (keep_step dis base xdf) (rindex xdf, ha xdf, 0, rchg xdf);
  Ret (XdFile (recs xdf) (dstart xdf) (dend xdf) rchg rindex nreff ha).

Definition xdl_cleanup_records (cf : xdlclassifier) (xdf1 xdf2 : xdfile) : outcome (xdfile * xdfile) :=
  let dis := replicate (Z.to_nat (nrec xdf1 + nrec xdf2 + 2)) 0 in
  let base2 := nrec xdf1 + 1 in
  mlim ← mlim_of (nrec xdf1);
  dis ← for_n (Z.to_nat (dend xdf1 - dstart xdf1 + 1)) (dstart xdf1) (dis_step cf (recs xdf1) cls_len2 mlim 0) dis;
  mlim ← mlim_of (nrec xdf2);
  dis ← for_n (Z.to_nat (dend xdf2 - dstart xdf2 + 1)) (dstart xdf2) (dis_step cf (recs xdf2) cls_len1 mlim base2) dis;
  xdf1 ← cleanup_file dis 0 xdf1;
  xdf2 ← cleanup_file dis base2 xdf2;
  Ret (xdf1, xdf2).

(** One round of the comparison of the first or the last lines. *)
Definition trim_step (recs1 recs2 : list xrecord) (lim p1 p2 dir : Z) (i : Z) : outcome (Z + Z) :=
  if negb (i <? lim) then Ret (inr i) else
  r1 ← rd recs1 (p1 + dir * i);
  r2 ← rd recs2 (p2 + dir * i);
  Ret (if rec_ha r1 =? rec_ha r2 then inl (i + 1) else inr i).

Definition set_ends (ds de : Z) (xdf : xdfile) : xdfile := XdFile (recs xdf) ds de (rchg xdf) (rindex xdf) (nreff xdf) (ha xdf).

Definition xdl_trim_ends (xdf1 xdf2 : xdfile) : outcome (xdfile * xdfile) :=
  let lim := Z.min (nrec xdf1) (nrec xdf2) in
  i ← loop (S (Z.to_nat lim)) (trim_step (recs xdf1) (recs xdf2) lim 0 0 1) 0;
  let ds := i in
  let lim := lim - i in
  i ← loop (S (Z.to_nat lim)) (trim_step (recs xdf1) (recs xdf2) lim (nrec xdf1 - 1) (nrec xdf2 - 1) (-1)) 0;
  Ret (set_ends ds (nrec xdf1 - i - 1) xdf1, set_ends ds (nrec xdf2 - i - 1) xdf2).

Definition xdl_optimize_ctxs (cf : xdlclassifier) (xdf1 xdf2 : xdfile) : outcome (xdfile * xdfile) :=
  '(xdf1, xdf2) ← xdl_trim_ends xdf1 xdf2;
  xdl_cleanup_records cf xdf1 xdf2.

Definition xdl_prepare_env (mf1 mf2 : list Z) (flags : Z) : outcome xdfenv :=
  let sample := if XDF_DIFF_ALG flags =? XDF_HISTOGRAM_DIFF then XDL_GUESS_NLINES2 else XDL_GUESS_NLINES1 in
  g1 ← xdl_guess_lines mf1 sample;
  g2 ← xdl_guess_lines mf2 sample;
  let enl1 := g1 + 1 in
  let enl2 := g2 + 1 in
  cf ← xdl_init_classifier (enl1 + enl2 + 1) flags;
  '(cf, xdf1) ← xdl_prepare_ctx 1 mf1 enl1 flags cf;
  '(cf, xdf2) ← xdl_prepare_ctx 2 mf2 enl2 flags cf;
  '(xdf1, xdf2) ← (if myers flags then xdl_optimize_ctxs cf xdf1 xdf2 else Ret (xdf1, xdf2));
  Ret (XdfEnv xdf1 xdf2).

(** [xdl_do_diff] from the allocation of [kvd] on. *)
Definition myers_diff (xe : xdfenv) (flags : Z) : outcome xdfenv :=
  let nreff1 := nreff (xdf1 xe) in
  let nreff2 := nreff (xdf2 xe) in
  let ndiags := nreff1 + nreff2 + 3 in
  let kvd := replicate (Z.to_nat (2 * ndiags + 2)) junk in
  let kvdf := nreff2 + 1 in
  let kvdb := ndiags + nreff2 + 1 in
  cost ← xdl_bogosqrt ndiags;
  let xenv := AlgoEnv (if cost <? XDL_MAX_COST_MIN then XDL_MAX_COST_MIN else cost) XDL_SNAKE_CNT XDL_HEUR_MIN_COST in
  '(rchg1, rchg2, _) ← xdl_recs_cmp (S (Z.to_nat (nreff1 + nreff2))) (ha (xdf1 xe)) (rindex (xdf1 xe)) (ha (xdf2 xe)) (rindex (xdf2 xe)) kvdf kvdb xenv
                         0 nreff1 0 nreff2 (flag flags XDF_NEED_MINIMAL) (rchg (xdf1 xe), rchg (xdf2 xe), kvd);
  Ret (XdfEnv (set_rchg rchg1 (xdf1 xe)) (set_rchg rchg2 (xdf2 xe))).
End model.

(** * The lines that the search looks at *)

(** The index has the lines from [lo] to [hi] that have no mark. *)
Record indexed (cls : Z -> Z) (lo hi : Z) (rindex ha : list Z) (nreff : Z) (rchg : list Z) : Prop := {
  ix_nreff : 0 <= nreff <= Z.max 0 (hi - lo);
  ix_in : forall k, 0 <= k < nreff -> lo <= getk rindex k < hi;
  ix_lt : forall k k', 0 <= k < k' -> k' < nreff -> getk rindex k < getk rindex k';
  ix_ha : forall k, 0 <= k < nreff -> getk ha k = cls (getk rindex k);
  ix_clear : forall k, 0 <= k < nreff -> getk rchg (getk rindex k + 1) = 0;
  ix_all : forall j, lo <= j < hi -> (exists k, 0 <= k < nreff /\ getk rindex k = j) \/ getk rchg (j + 1) = 1;
}.

(** The lines of the file without a mark are those of the index. *)
Lemma unmarked_index (cls : Z -> Z) rindex rchg : forall n lo hi, (forall k, 0 <= k < Z.of_nat n -> lo <= getk rindex k < hi) -> (forall k k', 0 <= k < k' -> k' < Z.of_nat n -> getk rindex k < getk rindex k') ->
  (forall j, lo <= j < hi -> (exists k, 0 <= k < Z.of_nat n /\ getk rindex k = j) \/ getk rchg (j + 1) = 1) ->
  unmarked cls (fun i => getk rchg (i + 1)) lo hi = unmarked (fun k => cls (getk rindex k)) (mark_of rindex rchg) 0 (Z.of_nat n).
Proof.
  induction n as [|n IH]; intros lo hi Hin Hlt Hall.
  - rewrite unmarked_none; [done|]. intros i Hi. destruct (Hall i Hi) as [(k & ? & _)| ->]; [lia|done].
  - set (p := getk rindex (Z.of_nat n)). pose proof (Hin (Z.of_nat n) ltac:(lia)) as Hp. fold p in Hp.
    rewrite (unmarked_app _ _ lo p hi) by lia. rewrite (unmarked_cons _ _ p hi) by lia. rewrite (unmarked_none _ _ (p + 1) hi), app_nil_r.
    + rewrite (unmarked_snoc _ _ 0 (Z.of_nat (S n))) by lia. replace (Z.of_nat (S n) - 1) with (Z.of_nat n) by lia. rewrite (IH lo p); [done| | |].
      * intros k Hk. split; [apply Hin; lia|]. apply Hlt; lia.
      * intros k k' Hk Hk'. apply Hlt; lia.
      * intros j Hj. destruct (Hall j ltac:(lia)) as [(k & Hk & Hkj)|]; [|by right]. left. exists k. split; [|done]. assert (k <> Z.of_nat n) by (intros ->; fold p in Hkj; lia). lia.
    + intros i Hi. destruct (Hall i ltac:(lia)) as [(k & Hk & Hki)| ->]; [|done]. destruct (Z.eq_dec k (Z.of_nat n)) as [->|Hne]; [fold p in Hki; lia|]. pose proof (Hlt k (Z.of_nat n) ltac:(lia) ltac:(lia)) as Hkp. fold p in Hkp. lia.
Qed.

Section cleanup.
Context (dis : list Z) (base : Z).

Lemma scan_total i dir stop : (dir = -1 -> stop <= i) -> (dir = 1 -> i <= stop) -> dir = -1 \/ dir = 1 ->
  (forall j, Z.min i stop <= j <= Z.max i stop -> 0 <= base + j < zlen dis) -> forall fuel, (Z.to_nat (Z.abs (i - stop) + 1) < fuel)%nat ->
  exists r, loop fuel (scan_step dis base i dir stop) (1, 0, 1) = Ret r.
Proof.
  intros H1 H2 Hdir Hin fuel Hfuel.
  destruct (loop_ret (fun '(r, _, _) => 1 <= r <= Z.abs (i - stop) + 1) (fun '(r, _, _) => Z.abs (i - stop) + 1 - r) fuel (scan_step dis base i dir stop) (1, 0, 1) (fun _ => True)) as (b & -> & _); [|lia|lia|by exists b].
  intros [[r rdis] rpdis] Hr. unfold scan_step. rewrite Z.geb_leb.
  assert ((if dir <? 0 then stop <=? i - r else i + r <=? stop) = (r <=? Z.abs (i - stop))) as ->.
  { destruct Hdir as [->| ->]; cbn [Z.ltb Z.compare]; [specialize (H1 eq_refl)|specialize (H2 eq_refl)]; apply eq_true_iff_eq; rewrite !Z.leb_le; lia. }
  destruct (Z.leb_spec r (Z.abs (i - stop))); cbn [negb]; [|by eexists]. rewrite rd_getk by (apply Hin; destruct Hdir as [->| ->]; lia). run.
  destruct (getk dis (base + (i + dir * r)) =? 0); [eexists; split; [done|]; cbv beta iota; lia|]. destruct (getk dis (base + (i + dir * r)) =? 2); [eexists; split; [done|]; cbv beta iota; lia|by eexists].
Qed.

Lemma clean_mmatch_total i s e : s <= i <= e -> (forall j, s <= j <= e -> 0 <= base + j < zlen dis) -> exists b, xdl_clean_mmatch dis base i s e = Ret b.
Proof.
  intros Hi Hin. unfold xdl_clean_mmatch. rewrite !Z.gtb_ltb. set (s' := if _ <? i - s then _ else _). set (e' := if _ <? e - i then _ else _).
  assert (s <= s' <= i /\ i <= e' <= e) as [Hs He] by (unfold s', e', XDL_SIMSCAN_WINDOW; do 2 case_if; lia). clearbody s' e'.
  destruct (scan_total i (-1) s' ltac:(lia) ltac:(lia) ltac:(by left) ltac:(intros; apply Hin; lia) (S (Z.to_nat (i - s' + 1))) ltac:(lia)) as ([rdis0 rpdis0] & ->). run.
  destruct (rdis0 =? 0); [by eexists|].
  destruct (scan_total i 1 e' ltac:(lia) ltac:(lia) ltac:(by right) ltac:(intros; apply Hin; lia) (S (Z.to_nat (e' - i + 1))) ltac:(lia)) as ([rdis1 rpdis1] & ->). run.
  destruct (rdis1 =? 0); by eexists.
Qed.

(** The loop over the lines between the ends. *)
Lemma cleanup_file_spec xdf : 0 <= dstart xdf -> dend xdf < nrec xdf -> (forall j, dstart xdf <= j <= dend xdf -> 0 <= base + j < zlen dis) ->
  zlen (rchg xdf) = nrec xdf + 2 -> nrec xdf + 1 <= zlen (rindex xdf) -> nrec xdf + 1 <= zlen (ha xdf) -> (forall j, 0 <= j -> getk (rchg xdf) j = 0) ->
  exists xdf', cleanup_file dis base xdf = Ret xdf' /\ recs xdf' = recs xdf /\ dstart xdf' = dstart xdf /\ dend xdf' = dend xdf /\ zlen (rchg xdf') = nrec xdf + 2 /\
    zlen (rindex xdf') = zlen (rindex xdf) /\ zlen (ha xdf') = zlen (ha xdf) /\
    indexed (cls xdf) (dstart xdf) (dend xdf + 1) (rindex xdf') (ha xdf') (nreff xdf') (rchg xdf') /\ (forall j, 0 <= j -> j < dstart xdf + 1 \/ dend xdf + 1 < j -> getk (rchg xdf') j = 0).
Proof.
  intros Hds Hde Hin Hlr Hli Hlh Hzero. unfold cleanup_file.
  destruct (Z.le_gt_cases (dend xdf + 1) (dstart xdf)) as [Hle|Hgt].
  { replace (Z.to_nat (dend xdf - dstart xdf + 1)) with O by lia. cbn [for_n]. run. eexists. split; [done|]. cbn [recs dstart dend rchg rindex ha nreff]. repeat (split; [done|]). split; [split; lia|]. intros j Hj _. by apply Hzero. }
  destruct (for_n_ret (fun i '(rindex', ha', nreff', rchg') => dstart xdf <= i <= dend xdf + 1 /\ zlen rchg' = nrec xdf + 2 /\ zlen rindex' = zlen (rindex xdf) /\ zlen ha' = zlen (ha xdf) /\
      indexed (cls xdf) (dstart xdf) i rindex' ha' nreff' rchg' /\ (forall j, 0 <= j -> j < dstart xdf + 1 \/ i < j -> getk rchg' j = 0))
    (Z.to_nat (dend xdf - dstart xdf + 1)) (dstart xdf) (keep_step dis base xdf) (rindex xdf, ha xdf, 0, rchg xdf)) as ([[[rindex' ha'] nreff'] rchg'] & -> & _ & Hlr' & Hli' & Hlh' & Hix & Hz').
  - intros i [[[ri h] nr] rc] Hi (Hrange & Hl1 & Hl2 & Hl3 & Hix & Hz). pose proof Hix as [Hnr Hixin Hixlt Hixha Hixclear Hixall]. unfold keep_step.
    rewrite rd_getk by (apply Hin; lia). run.
    destruct (clean_mmatch_total i (dstart xdf) (dend xdf) ltac:(lia) Hin) as (b & Hb).
    assert (exists keep, (if getk dis (base + i) =? 1 then Ret true else if getk dis (base + i) =? 2 then b ← xdl_clean_mmatch dis base i (dstart xdf) (dend xdf); Ret (negb b) else Ret false) = Ret keep) as [keep ->].
    { destruct (_ =? 1); [by eexists|]. destruct (_ =? 2); [rewrite Hb; by eexists|by eexists]. }
    run. destruct keep.
    + destruct (wr_getk ri nr i) as (ri' & -> & Hlri & Hgri); [lia|]. run. destruct (rd_rec xdf i) as (r & -> & _ & Hrc); [lia|]. run. destruct (wr_getk h nr (rec_ha r)) as (h' & -> & Hlh1 & Hgh); [lia|]. run.
      eexists. split; [done|]. cbv beta iota. split; [lia|]. split; [done|]. split; [lia|]. split; [lia|]. split; [|intros j Hj Hout; apply Hz; [done|lia]].
      assert (forall k, 0 <= k < nr + 1 -> getk ri' k = if decide (k = nr) then i else getk ri k) as Hri by (intros k Hk; rewrite Hgri by lia; done).
      split; [lia| | | | |].
      * intros k Hk. rewrite Hri by done. case_decide; [lia|]. specialize (Hixin k ltac:(lia)). lia.
      * intros k k' Hk Hk'. rewrite !Hri by lia. do 2 case_decide; try lia; [specialize (Hixin k ltac:(lia)); lia|apply Hixlt; lia].
      * intros k Hk. rewrite Hri, Hgh by lia. case_decide; [by rewrite Hrc|]. apply Hixha. lia.
      * intros k Hk. rewrite Hri by done. case_decide; [apply Hz; lia|]. apply Hixclear. lia.
      * intros j Hj. destruct (Z.eq_dec j i) as [->|Hne]; [left; exists nr; split; [lia|]; rewrite Hri, decide_True by lia; done|]. destruct (Hixall j ltac:(lia)) as [(k & Hk & Hkj)|]; [|by right].
        left. exists k. split; [lia|]. rewrite Hri, decide_False by lia. done.
    + destruct (wr_getk rc (i + 1) 1) as (rc' & -> & Hlrc & Hgrc); [lia|]. run. eexists. split; [done|]. cbv beta iota. split; [lia|]. split; [lia|]. split; [done|]. split; [done|]. split.
      * split; [lia| |done|done| |].
        -- intros k Hk. specialize (Hixin k Hk). lia.
        -- intros k Hk. specialize (Hixin k Hk). rewrite Hgrc, decide_False by lia. by apply Hixclear.
        -- intros j Hj. destruct (Z.eq_dec j i) as [->|Hne]; [right; rewrite Hgrc, decide_True by lia; done|]. destruct (Hixall j ltac:(lia)) as [?|?]; [by left|right]. rewrite Hgrc, decide_False by lia. done.
      * intros j Hj Hout. rewrite Hgrc, decide_False by lia. apply Hz; lia.
  - split; [lia|]. split; [done|]. split; [done|]. split; [done|]. split; [split; lia|]. intros j Hj _. by apply Hzero.
  - run. eexists. split; [done|]. cbn [recs dstart dend rchg rindex ha nreff]. replace (dstart xdf + Z.of_nat (Z.to_nat (dend xdf - dstart xdf + 1))) with (dend xdf + 1) in * by lia. repeat (split; [done|]). done.
Qed.
End cleanup.

(** ** The ends *)

Lemma trim_run xdf1 xdf2 lim p1 p2 dir : dir = 1 \/ dir = -1 -> 0 <= lim -> (forall i, 0 <= i < lim -> 0 <= p1 + dir * i < nrec xdf1 /\ 0 <= p2 + dir * i < nrec xdf2) ->
  exists c, loop (S (Z.to_nat lim)) (trim_step (recs xdf1) (recs xdf2) lim p1 p2 dir) 0 = Ret c /\ 0 <= c <= lim /\ (forall j, 0 <= j < c -> cls xdf1 (p1 + dir * j) = cls xdf2 (p2 + dir * j)) /\
    (c < lim -> cls xdf1 (p1 + dir * c) <> cls xdf2 (p2 + dir * c)).
Proof.
  intros Hdir Hlim Hin.
  apply (loop_ret (fun i => 0 <= i <= lim /\ forall j, 0 <= j < i -> cls xdf1 (p1 + dir * j) = cls xdf2 (p2 + dir * j)) (fun i => lim - i)); [|split; [lia|intros j Hj; lia]|lia].
  intros i [Hi Hsame]. unfold trim_step. destruct (Z.ltb_spec i lim); cbn [negb]; [|eexists; split; [done|]; split; [done|]; split; [done|lia]]. destruct (Hin i ltac:(lia)) as [H1 H2].
  destruct (rd_rec xdf1 _ H1) as (r1 & -> & _ & Hc1). destruct (rd_rec xdf2 _ H2) as (r2 & -> & _ & Hc2). run. eexists. split; [done|].
  destruct (Z.eqb_spec (rec_ha r1) (rec_ha r2)) as [Heq|Hne]; [|split; [done|]; split; [done|]; intros _; congruence]. split; [|lia]. split; [lia|]. intros j Hj. destruct (Z.eq_dec j i) as [->|]; [congruence|]. apply Hsame. lia.
Qed.

(** Both files start with the same lines and end with the same lines. *)
Record ends_ok (xdf1 xdf2 : xdfile) : Prop := {
  ends_start : dstart xdf1 = dstart xdf2;
  ends_range : 0 <= dstart xdf1 <= dend xdf1 + 1 /\ dstart xdf2 <= dend xdf2 + 1;
  ends_end : dend xdf1 < nrec xdf1 /\ dend xdf2 < nrec xdf2 /\ nrec xdf1 - dend xdf1 = nrec xdf2 - dend xdf2;
  ends_front : forall i, 0 <= i < dstart xdf1 -> cls xdf1 i = cls xdf2 i;
  ends_back : forall i, 0 <= i < nrec xdf1 - (dend xdf1 + 1) -> cls xdf1 (dend xdf1 + 1 + i) = cls xdf2 (dend xdf2 + 1 + i);
  ends_same : classes xdf1 = classes xdf2 -> dstart xdf1 = nrec xdf1;
}.

Lemma trim_ends_spec xdf1 xdf2 : exists ds e1 e2, xdl_trim_ends xdf1 xdf2 = Ret (set_ends ds e1 xdf1, set_ends ds e2 xdf2) /\ ends_ok (set_ends ds e1 xdf1) (set_ends ds e2 xdf2).
Proof.
  pose proof (zlen_nonneg (recs xdf1)) as Hn1. pose proof (zlen_nonneg (recs xdf2)) as Hn2. fold (nrec xdf1) in Hn1. fold (nrec xdf2) in Hn2. unfold xdl_trim_ends.
  destruct (trim_run xdf1 xdf2 (Z.min (nrec xdf1) (nrec xdf2)) 0 0 1 ltac:(by left) ltac:(lia) ltac:(lia)) as (c & -> & Hc & Hfront & Hmax). run.
  destruct (trim_run xdf1 xdf2 (Z.min (nrec xdf1) (nrec xdf2) - c) (nrec xdf1 - 1) (nrec xdf2 - 1) (-1) ltac:(by right) ltac:(lia) ltac:(lia)) as (b & -> & Hb & Hback & _). run.
  eexists _, _, _. split; [done|]. split; cbn [dstart dend set_ends]; change (nrec (set_ends ?a ?b xdf1)) with (nrec xdf1); change (nrec (set_ends ?a ?b xdf2)) with (nrec xdf2); [done|lia|lia| | |].
  - intros i Hi. specialize (Hfront i Hi). replace (0 + 1 * i) with i in Hfront by lia. exact Hfront.
  - intros i Hi. specialize (Hback (b - 1 - i) ltac:(lia)). replace (nrec xdf1 - 1 + -1 * (b - 1 - i)) with (nrec xdf1 - b - 1 + 1 + i) in Hback by lia. replace (nrec xdf2 - 1 + -1 * (b - 1 - i)) with (nrec xdf2 - b - 1 + 1 + i) in Hback by lia. exact Hback.
  - change (classes (set_ends ?a ?b xdf1)) with (classes xdf1). change (classes (set_ends ?a ?b xdf2)) with (classes xdf2). intros Heq.
    assert (nrec xdf1 = nrec xdf2) as Hn by (apply (f_equal length) in Heq; unfold classes in Heq; rewrite !length_fmap in Heq; unfold nrec, zlen; lia).
    destruct (Z.eq_dec c (nrec xdf1)) as [|Hne]; [done|]. exfalso. apply Hmax; [lia|]. unfold cls. by rewrite Heq.
Qed.

(** ** Both files *)

(** A file as [xdl_prepare_ctx] leaves it, with [n] classes. *)
Record fresh (xdf : xdfile) (n : Z) : Prop := {
  fresh_rchg : rchg xdf = replicate (Z.to_nat (nrec xdf + 2)) 0;
  fresh_rindex : zlen (rindex xdf) = nrec xdf + 1;
  fresh_ha : zlen (ha xdf) = nrec xdf + 1;
  fresh_cls : forall i, 0 <= i < nrec xdf -> 0 <= cls xdf i < n;
}.

Lemma getk_replicate n j : getk (replicate n 0) j = 0.
Proof. unfold getk. destruct (replicate n 0 !! Z.to_nat j) as [x|] eqn:E; [|done]. by apply lookup_replicate_1 in E as [-> _]. Qed.

Lemma dis_loop cf xdf len mlim base dis : 0 <= dstart xdf -> dend xdf < nrec xdf -> (forall i, 0 <= i < nrec xdf -> 0 <= cls xdf i < zlen (rcrecs cf)) -> (forall j, dstart xdf <= j <= dend xdf -> 0 <= base + j < zlen dis) ->
  exists dis', for_n (Z.to_nat (dend xdf - dstart xdf + 1)) (dstart xdf) (dis_step cf (recs xdf) len mlim base) dis = Ret dis' /\ zlen dis' = zlen dis.
Proof.
  intros Hds Hde Hcls Hin.
  destruct (for_n_ret (fun _ d => zlen d = zlen dis) (Z.to_nat (dend xdf - dstart xdf + 1)) (dstart xdf) (dis_step cf (recs xdf) len mlim base) dis) as (d & -> & Hd); [|done|by exists d].
  intros j d Hj Hd. unfold dis_step. destruct (rd_rec xdf j ltac:(lia)) as (r & -> & _ & Hr). run. destruct (rd_in (rcrecs cf) (rec_ha r)) as [c ->]; [rewrite Hr; apply Hcls; lia|]. run.
  destruct (wr_getk d (base + j) (if len c =? 0 then 0 else if len c >=? mlim then 2 else 1)) as (d' & -> & Hl & _); [rewrite Hd; apply Hin; lia|]. exists d'. split; [done|lia].
Qed.

Lemma mlim_total n : 0 <= n < 2 ^ 63 -> exists m, mlim_of n = Ret m.
Proof. intros Hn. unfold mlim_of. destruct (bogosqrt_total n Hn) as [r ->]. run. by eexists. Qed.

(** A file ready for the comparison. *)
Record reduced (xdf xdf' : xdfile) : Prop := {
  reduced_recs : recs xdf' = recs xdf;
  reduced_ends : dstart xdf' = dstart xdf /\ dend xdf' = dend xdf;
  reduced_len : zlen (rchg xdf') = nrec xdf + 2;
  reduced_arrays : zlen (rindex xdf') = nrec xdf + 1 /\ zlen (ha xdf') = nrec xdf + 1;
  reduced_index : indexed (cls xdf) (dstart xdf) (dend xdf + 1) (rindex xdf') (ha xdf') (nreff xdf') (rchg xdf');
  reduced_zero : forall j, 0 <= j -> j < dstart xdf + 1 \/ dend xdf + 1 < j -> getk (rchg xdf') j = 0;
}.

Lemma cleanup_reduced dis base xdf n : fresh xdf n -> 0 <= dstart xdf -> dend xdf < nrec xdf -> (forall j, dstart xdf <= j <= dend xdf -> 0 <= base + j < zlen dis) ->
  exists xdf', cleanup_file dis base xdf = Ret xdf' /\ reduced xdf xdf'.
Proof.
  intros [Hr Hri Hh _] Hds Hde Hin. pose proof (zlen_nonneg (recs xdf)) as Hn. fold (nrec xdf) in Hn.
  destruct (cleanup_file_spec dis base xdf Hds Hde Hin) as (xdf' & He & H1 & H2 & H3 & H4 & H5 & H6 & H7 & H8); [rewrite Hr, zlen_replicate; lia|lia|lia|intros j _; rewrite Hr; apply getk_replicate|].
  exists xdf'. split; [done|]. by split; [..|split; congruence| |].
Qed.

Lemma cleanup_records_spec cf xdf1 xdf2 : ends_ok xdf1 xdf2 -> fresh xdf1 (zlen (rcrecs cf)) -> fresh xdf2 (zlen (rcrecs cf)) -> nrec xdf1 < 2 ^ 63 -> nrec xdf2 < 2 ^ 63 ->
  exists xdf1' xdf2', xdl_cleanup_records cf xdf1 xdf2 = Ret (xdf1', xdf2') /\ reduced xdf1 xdf1' /\ reduced xdf2 xdf2'.
Proof.
  intros [Hs Hr He _ _ _] Hf1 Hf2 Hm1 Hm2. pose proof (zlen_nonneg (recs xdf1)) as Hn1. pose proof (zlen_nonneg (recs xdf2)) as Hn2. fold (nrec xdf1) in Hn1. fold (nrec xdf2) in Hn2. unfold xdl_cleanup_records.
  destruct (mlim_total (nrec xdf1) ltac:(lia)) as [m1 ->]. run. set (dis := replicate _ 0). assert (zlen dis = nrec xdf1 + nrec xdf2 + 2) as Hd by (unfold dis; rewrite zlen_replicate; lia).
  destruct (dis_loop cf xdf1 cls_len2 m1 0 dis) as (dis1 & -> & Hd1); [lia|lia|apply Hf1|lia|]. run.
  destruct (mlim_total (nrec xdf2) ltac:(lia)) as [m2 ->]. run.
  destruct (dis_loop cf xdf2 cls_len1 m2 (nrec xdf1 + 1) dis1) as (dis2 & -> & Hd2); [lia|lia|apply Hf2|lia|]. run.
  destruct (cleanup_reduced dis2 0 xdf1 _ Hf1) as (xdf1' & -> & Hred1); [lia|lia|lia|]. run.
  destruct (cleanup_reduced dis2 (nrec xdf1 + 1) xdf2 _ Hf2) as (xdf2' & -> & Hred2); [lia|lia|lia|]. run. by eexists _, _.
Qed.

(** The comparison of what is left compares the files. *)
Lemma reduced_compare xdf1 xdf2 xdf1' xdf2' rchg1 rchg2 : ends_ok xdf1 xdf2 -> reduced xdf1 xdf1' -> reduced xdf2 xdf2' ->
  marked (rindex xdf1') 0 (nreff xdf1') (rchg xdf1') rchg1 -> marked (rindex xdf2') 0 (nreff xdf2') (rchg xdf2') rchg2 ->
  unmarked (getk (ha xdf1')) (mark_of (rindex xdf1') rchg1) 0 (nreff xdf1') = unmarked (getk (ha xdf2')) (mark_of (rindex xdf2') rchg2) 0 (nreff xdf2') ->
  file_ok (set_rchg rchg1 xdf1') /\ file_ok (set_rchg rchg2 xdf2') /\ rest (set_rchg rchg1 xdf1') = rest (set_rchg rchg2 xdf2') /\
    (classes xdf1 = classes xdf2 -> total (set_rchg rchg1 xdf1') = nrec xdf1).
Proof.
  intros [Hs Hr He Hfront Hback Heqf] Hred1 Hred2 Hm1 Hm2 Hsame.
  assert (forall xdf xdf' rc, 0 <= dstart xdf <= dend xdf + 1 -> dend xdf < nrec xdf -> reduced xdf xdf' -> marked (rindex xdf') 0 (nreff xdf') (rchg xdf') rc ->
    (forall j, 0 <= j -> j < dstart xdf + 1 \/ dend xdf + 1 < j -> getk rc j = 0) /\ zlen rc = nrec xdf' + 2 /\
    unmarked (cls xdf) (fun i => getk rc (i + 1)) (dstart xdf) (dend xdf + 1) = unmarked (getk (ha xdf')) (mark_of (rindex xdf') rc) 0 (nreff xdf')) as Hone.
  { intros xdf xdf' rc Hd1 Hd2 [Hrecs _ Hlen _ Hix Hz] [Hml Hmo Hmi]. pose proof Hix as [Hnr Hin Hlt Hha _ Hall]. split; [|split].
    - intros j Hj Hout. rewrite Hmo; [by apply Hz|done|]. intros i Hi ->. specialize (Hin i Hi). lia.
    - rewrite Hml, Hlen. unfold nrec. by rewrite Hrecs.
    - pose proof (unmarked_index (cls xdf) (rindex xdf') rc (Z.to_nat (nreff xdf')) (dstart xdf) (dend xdf + 1)) as Hu. rewrite Z2Nat.id in Hu by lia. rewrite Hu; [|done..|].
      + apply unmarked_ext. intros k Hk. split; [by rewrite Hha|done].
      + intros j Hj. destruct (Hall j Hj) as [?|H1]; [by left|right]. destruct (Hmi (j + 1) ltac:(lia)) as [->|]; done. }
  destruct (Hone xdf1 xdf1' rchg1 ltac:(lia) ltac:(lia) Hred1 Hm1) as (Hz1 & Hl1 & Hu1). destruct (Hone xdf2 xdf2' rchg2 ltac:(lia) ltac:(lia) Hred2 Hm2) as (Hz2 & Hl2 & Hu2).
  pose proof (reduced_recs _ _ Hred1) as Hrecs1. pose proof (reduced_recs _ _ Hred2) as Hrecs2. assert (nrec xdf1' = nrec xdf1) as Hn1 by (unfold nrec; by rewrite Hrecs1). assert (nrec xdf2' = nrec xdf2) as Hn2 by (unfold nrec; by rewrite Hrecs2).
  pose proof (zlen_nonneg (recs xdf1)) as Hp1. pose proof (zlen_nonneg (recs xdf2)) as Hp2. fold (nrec xdf1) in Hp1. fold (nrec xdf2) in Hp2.
  assert (forall xdf rc, nrec (set_rchg rc xdf) = nrec xdf) as Hnr by done.
  split; [split; [exact Hl1|apply Hz1; lia|unfold mark; rewrite Hnr; apply Hz1; lia]|]. split; [split; [exact Hl2|apply Hz2; lia|unfold mark; rewrite Hnr; apply Hz2; lia]|].
  assert (forall xdf xdf' rc, recs xdf' = recs xdf -> rest (set_rchg rc xdf') = unmarked (cls xdf) (fun i => getk rc (i + 1)) 0 (nrec xdf)) as Hrest by (intros xdf xdf' rc Hrc; unfold rest, cls, classes, mark, nrec; cbn [recs rchg set_rchg]; by rewrite Hrc).
  split.
  2:{ intros Heq. specialize (Heqf Heq). unfold total. rewrite nrec_set_rchg, Hn1. apply cnt_none; [done|]. intros j Hj. apply Hz1; lia. }
  rewrite (Hrest xdf1), (Hrest xdf2) by done. rewrite (unmarked_app _ _ 0 (dstart xdf1) (nrec xdf1)), (unmarked_app _ _ 0 (dstart xdf2) (nrec xdf2)) by lia.
  rewrite (unmarked_app _ _ (dstart xdf1) (dend xdf1 + 1) (nrec xdf1)), (unmarked_app _ _ (dstart xdf2) (dend xdf2 + 1) (nrec xdf2)) by lia. rewrite Hu1, Hu2, Hsame. f_equal; [|f_equal].
  - rewrite <-Hs. replace (dstart xdf1) with (0 + dstart xdf1) by lia. apply unmarked_same. intros i Hi. split; [by apply Hfront|]. rewrite Hz1, Hz2 by lia. done.
  - replace (nrec xdf1) with (dend xdf1 + 1 + (nrec xdf1 - (dend xdf1 + 1))) by lia. replace (nrec xdf2) with (dend xdf2 + 1 + (nrec xdf1 - (dend xdf1 + 1))) by lia. apply unmarked_same.
    intros i Hi. split; [by apply Hback|]. rewrite Hz1, Hz2 by lia. done.
Qed.

(** * Classes *)

Section classify.
Context `{XdiffHOk} (junk flags : Z).
Implicit Types (cf : xdlclassifier) (line : list Z).

(** What the lines of a class have in common; but for the flag that ignores carriage returns
    alone it tells the classes apart. *)
Notation same_key l l' := (loose flags l = loose flags l').

(** The chains have every class under its hash, and no two classes match. *)
Record cf_ok cf : Prop := {
  cf_bits : 0 <= hbits cf;
  cf_size : zlen (rchash cf) = 2 ^ hbits cf;
  cf_flagged : cf_flags cf = flags;
  cf_in : forall h chain idx, rchash cf !! h = Some chain -> idx ∈ chain -> 0 <= idx < zlen (rcrecs cf);
  cf_chain : forall (i : nat) c chain, rcrecs cf !! i = Some c -> rchash cf !! Z.to_nat (XDL_HASHLONG (cls_ha c) (hbits cf)) = Some chain -> Z.of_nat i ∈ chain;
  cf_hash : forall (i : nat) c, rcrecs cf !! i = Some c -> cls_ha c = line_hash flags (cls_line c);
  cf_distinct : precise flags = true -> forall (i j : nat) c c', rcrecs cf !! i = Some c -> rcrecs cf !! j = Some c' -> same_key (cls_line c) (cls_line c') -> i = j;
}.

(** Classes stay, but for their counts. *)
Definition extends cf cf' : Prop := forall (i : nat) c, rcrecs cf !! i = Some c -> exists c', rcrecs cf' !! i = Some c' /\ cls_line c' = cls_line c.

(** A record has the class of its line. *)
Definition in_class cf (r : xrecord) : Prop := 0 <= rec_ha r /\ exists c, rcrecs cf !! Z.to_nat (rec_ha r) = Some c /\ same_key (cls_line c) (rec_line r).

Lemma extends_trans cf cf' cf'' : extends cf cf' -> extends cf' cf'' -> extends cf cf''.
Proof. intros H1 H2 i c Hc. destruct (H1 i c Hc) as (c' & Hc' & <-). by apply H2. Qed.

Lemma extends_class cf cf' r : extends cf cf' -> in_class cf r -> in_class cf' r.
Proof. intros He [Hr (c & Hc & Hk)]. split; [done|]. destruct (He _ _ Hc) as (c' & Hc' & Hl). exists c'. split; [done|]. by rewrite Hl. Qed.

Lemma extends_len cf cf' : extends cf cf' -> zlen (rcrecs cf) <= zlen (rcrecs cf').
Proof.
  intros He. destruct (rcrecs cf) as [|c l] eqn:E; [apply zlen_nonneg|]. destruct (lookup_lt_is_Some_2 (rcrecs cf) (length l)) as [x Hx]; [rewrite E; cbn; lia|].
  destruct (He _ _ Hx) as (x' & Hx' & _). apply lookup_lt_Some in Hx'. unfold zlen. cbn [length]. lia.
Qed.

(** Records of the same class have lines that match, and the other way round. *)
Lemma class_sound cf r r' : in_class cf r -> in_class cf r' -> rec_ha r = rec_ha r' -> same_key (rec_line r) (rec_line r').
Proof. intros [Hr (c & Hc & Hk)] [Hr' (c' & Hc' & Hk')] Heq. rewrite Heq in Hc. rewrite Hc in Hc'. injection Hc' as <-. congruence. Qed.

Lemma class_complete cf r r' : precise flags = true -> cf_ok cf -> in_class cf r -> in_class cf r' -> same_key (rec_line r) (rec_line r') -> rec_ha r = rec_ha r'.
Proof. intros Hp Hok [Hr (c & Hc & Hk)] [Hr' (c' & Hc' & Hk')] Heq. pose proof (cf_distinct _ Hok Hp _ _ _ _ Hc Hc' ltac:(congruence)). lia. Qed.

Lemma loose_hash l l' : precise flags = true -> same_key l l' -> line_hash flags l = line_hash flags l'.
Proof. unfold loose. intros -> Hk. unfold line_hash. by rewrite (key_normal _ _ _ Hk). Qed.

Lemma find_class_spec cf line chain : cf_ok cf -> (forall idx, idx ∈ chain -> 0 <= idx < zlen (rcrecs cf)) ->
  exists found, find_class cf (line_hash flags line) line chain = Ret found /\
    match found with
    | Some idx => 0 <= idx /\ exists c, rcrecs cf !! Z.to_nat idx = Some c /\ same_key (cls_line c) line
    | None => precise flags = true -> forall (i : nat) c, rcrecs cf !! i = Some c -> Z.of_nat i ∈ chain -> ~ same_key (cls_line c) line
    end.
Proof.
  intros Hok. induction chain as [|idx chain IH]; intros Hin; [exists None; split; [done|]; intros _ i c _ Hi; by apply elem_of_nil in Hi|].
  cbn [find_class]. destruct (rd_in (rcrecs cf) idx) as [c Hc]; [apply Hin; by left|]. rewrite Hc. run. apply rd_Ret in Hc as [Hidx Hc].
  assert (exists b, (if cls_ha c =? line_hash flags line then xdl_recmatch (cls_line c) line (cf_flags cf) else Ret false) = Ret b /\ (b = true -> same_key (cls_line c) line) /\ (precise flags = true -> same_key (cls_line c) line -> b = true)) as (b & -> & Hyes & Hno).
  { rewrite (cf_hash _ Hok _ _ Hc), (cf_flagged _ Hok). destruct (Z.eqb_spec (line_hash flags (cls_line c)) (line_hash flags line)) as [|Hne]; [|exists false; split; [done|]; split; [done|]; intros Hp Hk; by destruct (Hne (loose_hash _ _ Hp Hk))].
    destruct (recmatch_loose (cls_line c) line flags) as (b & -> & Hb & Hpb). exists b. split; [done|]. split; [done|]. intros Hp. rewrite (Hpb Hp). unfold loose. rewrite Hp. intros Hk. by apply bool_decide_eq_true. }
  run. destruct b.
  - exists (Some idx). split; [done|]. split; [done|]. exists c. split; [done|]. by apply Hyes.
  - destruct IH as (found & -> & Hf); [intros j Hj; apply Hin; by right|]. exists found. split; [done|]. destruct found; [done|]. intros Hp i c' Hc' Hi Hk. apply elem_of_cons in Hi as [Hi|Hi]; [|by apply (Hf Hp i c')].
    rewrite <-Hi, Nat2Z.id in Hc. rewrite Hc in Hc'. injection Hc' as <-. by discriminate (Hno Hp Hk).
Qed.

Lemma classify_spec pass cf rhash rbits i line : cf_ok cf -> 0 <= rbits -> zlen rhash = 2 ^ rbits ->
  exists cf' rhash' idx, xdl_classify_record pass cf rhash rbits i (XRecord line (line_hash flags line)) = Ret (cf', rhash', XRecord line idx) /\
    cf_ok cf' /\ zlen rhash' = 2 ^ rbits /\ extends cf cf' /\ in_class cf' (XRecord line idx).
Proof.
  intros Hok Hrb Hrh. unfold xdl_classify_record. cbn [rec_ha rec_line]. pose proof (xdl_hashlong_range (line_hash flags line) (hbits cf) (cf_bits _ Hok)) as Hhi. set (hi := XDL_HASHLONG _ (hbits cf)) in *.
  destruct (rd_in (rchash cf) hi) as [chain Hchain]; [rewrite (cf_size _ Hok); lia|]. rewrite Hchain. run. apply rd_Ret in Hchain as [_ Hchain].
  destruct (find_class_spec cf line chain Hok) as (found & -> & Hfound); [intros idx; by apply (cf_in _ Hok (Z.to_nat hi))|]. run.
  assert (exists cf1 idx, match found with Some idx => Ret (cf, idx) | None => new_class cf hi chain (XRecord line (line_hash flags line)) end = Ret (cf1, idx) /\
    cf_ok cf1 /\ extends cf cf1 /\ in_class cf1 (XRecord line idx)) as (cf1 & idx & -> & Hok1 & Hext1 & Hidx & c & Hc & Hk).
  { destruct found as [idx|].
    - exists cf, idx. split; [done|]. split; [done|]. split; [intros j c Hc; by exists c|done].
    - unfold new_class. cbn [rec_ha rec_line]. rewrite wr_in by (rewrite (cf_size _ Hok); lia). run. eexists _, _. split; [done|]. pose proof Hok as [Hb Hsz Hfl Hin Hch Hha Hdis]. pose proof (zlen_nonneg (rcrecs cf)) as Hzn.
      assert (forall j c, (rcrecs cf ++ [XdlClass (line_hash flags line) line 0 0]) !! j = Some c -> rcrecs cf !! j = Some c \/ (j = length (rcrecs cf) /\ c = XdlClass (line_hash flags line) line 0 0)) as Hcase.
      { intros j c Hc. apply lookup_app_Some in Hc as [Hc|[Hj Hc]]; [by left|right]. apply list_lookup_singleton_Some in Hc as [Hj' <-]. split; [lia|done]. }
      assert (precise flags = true -> forall j c, rcrecs cf !! j = Some c -> ~ same_key (cls_line c) line) as Hnew.
      { intros Hp j c Hc Hk. refine (Hfound Hp j c Hc _ Hk). eapply Hch; [exact Hc|]. rewrite (Hha _ _ Hc), (loose_hash _ _ Hp Hk). exact Hchain. }
      split; [split; cbn [hbits rchash rcrecs cf_flags]|split].
      + done.
      + by rewrite zlen_insert.
      + done.
      + intros h ch j Hh Hj. rewrite zlen_app, zlen_cons, zlen_nil. destruct (decide (h = Z.to_nat hi)) as [->|Hne].
        * rewrite list_lookup_insert_eq in Hh by (by apply lookup_lt_Some in Hchain). injection Hh as <-. apply elem_of_cons in Hj as [->|Hj]; [lia|]. specialize (Hin _ _ _ Hchain Hj). lia.
        * rewrite list_lookup_insert_ne in Hh by done. specialize (Hin _ _ _ Hh Hj). lia.
      + intros j c ch Hc Hh. destruct (Hcase j c Hc) as [Hc'|[-> ->]]; cbn [cls_ha] in Hh.
        * destruct (decide (Z.to_nat (XDL_HASHLONG (cls_ha c) (hbits cf)) = Z.to_nat hi)) as [He|Hne].
          -- rewrite He, list_lookup_insert_eq in Hh by (by apply lookup_lt_Some in Hchain). injection Hh as <-. right. eapply Hch; [done|]. by rewrite He.
          -- rewrite list_lookup_insert_ne in Hh by done. by eapply Hch.
        * fold hi in Hh. rewrite list_lookup_insert_eq in Hh by (by apply lookup_lt_Some in Hchain). injection Hh as <-. by left.
      + intros j c Hc. destruct (Hcase j c Hc) as [Hc'|[_ ->]]; [by eapply Hha|done].
      + intros Hp j j' c c' Hc Hc' Hk. destruct (Hcase j c Hc) as [Hc1|[-> ->]], (Hcase j' c' Hc') as [Hc1'|[-> ->]]; [by eapply Hdis|by destruct (Hnew Hp j c Hc1)|by destruct (Hnew Hp j' c' Hc1')|done].
      + intros j c Hc. exists c. split; [by apply lookup_app_l_Some|done].
      + split; [cbn [rec_ha]; lia|]. exists (XdlClass (line_hash flags line) line 0 0). split; [|done]. cbn [rcrecs rec_ha]. unfold zlen. rewrite Nat2Z.id, lookup_app_r by lia. by rewrite Nat.sub_diag. }
  run. cbn [rec_ha rec_line] in *. assert (idx < zlen (rcrecs cf1)) as Hlt by (apply lookup_lt_Some in Hc; unfold zlen; lia). assert (rd (rcrecs cf1) idx = Ret c) as -> by (by apply rd_Ret). run.
  set (c' := if pass =? 1 then _ else _). assert (cls_ha c' = cls_ha c /\ cls_line c' = cls_line c) as [Hca Hcl] by (unfold c'; by destruct (pass =? 1)). clearbody c'. rewrite wr_in by lia. run.
  destruct (rd_in rhash (XDL_HASHLONG idx rbits)) as [rchain ->]; [rewrite Hrh; by apply xdl_hashlong_range|]. run. rewrite wr_in by (rewrite Hrh; by apply xdl_hashlong_range). run.
  eexists _, _, _. split; [done|].
  assert (forall j x, <[Z.to_nat idx:=c']> (rcrecs cf1) !! j = Some x -> exists x0, rcrecs cf1 !! j = Some x0 /\ cls_ha x = cls_ha x0 /\ cls_line x = cls_line x0) as Hback.
  { intros j x Hx. destruct (decide (j = Z.to_nat idx)) as [->|Hne].
    - rewrite list_lookup_insert_eq in Hx by (by apply lookup_lt_Some in Hc). injection Hx as <-. by exists c.
    - rewrite list_lookup_insert_ne in Hx by done. by exists x. }
  pose proof Hok1 as [Hb Hsz Hfl Hin Hch Hha Hdis]. split; [|split; [by rewrite zlen_insert|split]].
  - split; cbn [hbits rchash rcrecs cf_flags]; [done|done|done|intros; rewrite zlen_insert; by eapply Hin| | |].
    + intros j x ch Hx Hh. destruct (Hback j x Hx) as (x0 & Hx0 & He & _). rewrite He in Hh. by eapply Hch.
    + intros j x Hx. destruct (Hback j x Hx) as (x0 & Hx0 & -> & ->). by eapply Hha.
    + intros Hp j j' x x' Hx Hx' Hkk. destruct (Hback j x Hx) as (x0 & Hx0 & _ & Hl). destruct (Hback j' x' Hx') as (x0' & Hx0' & _ & Hl'). rewrite Hl, Hl' in Hkk. by eapply Hdis.
  - eapply extends_trans; [exact Hext1|]. intros j x Hx. cbn [rcrecs]. destruct (decide (j = Z.to_nat idx)) as [->|Hne].
    + rewrite Hc in Hx. injection Hx as <-. exists c'. split; [|done]. apply list_lookup_insert_eq. by apply lookup_lt_Some in Hc.
    + exists x. split; [|done]. by rewrite list_lookup_insert_ne.
  - split; [cbn [rec_ha]; lia|]. cbn [rec_ha rec_line rcrecs]. exists c'. split; [|by rewrite Hcl]. apply list_lookup_insert_eq. by apply lookup_lt_Some in Hc.
Qed.

(** ** Reading a file *)

Lemma lines_length s : zlen (lines 10 s) <= zlen s.
Proof.
  induction s as [s IH] using length_induction. destruct s as [|c s]; [done|]. rewrite lines_cons, zlen_cons. pose proof (first_line_shorter 10 c s) as Hs. specialize (IH (snd (first_line 10 (c :: s)))). unfold zlen in *. cbn [length] in *. specialize (IH ltac:(lia)). lia.
Qed.

Lemma ctx_loop pass mf rbits : 0 <= rbits -> forall k s cur recs rhash cf, at_pos mf cur s -> (length s < k)%nat -> cf_ok cf -> zlen rhash = 2 ^ rbits -> Forall (in_class cf) recs ->
  exists recs' rhash' cf', loop k (ctx_step pass mf flags rbits) (cur, recs, rhash, cf) = Ret (recs ++ recs', rhash', cf') /\ rec_line <$> recs' = lines 10 s /\
    cf_ok cf' /\ extends cf cf' /\ Forall (in_class cf') (recs ++ recs').
Proof.
  intros Hrb. induction k as [|k IH]; intros s cur recs rhash cf Hat Hk Hok Hrh Hrecs; [lia|]. destruct s as [|c s].
  - exists [], rhash, cf. rewrite app_nil_r. split; [apply loop_stop; unfold ctx_step; by rewrite (at_pos_end _ _ _ Hat)|]. split; [done|]. split; [done|]. split; [intros i x Hx; by exists x|done].
  - destruct (hash_record_spec mf cur (c :: s) flags Hat ltac:(done)) as [Hhash Hat']. set (line := fst (first_line 10 (c :: s))) in *.
    assert (slice mf cur (cur + zlen line - cur) = line) as Hslice.
    { rewrite <-(first_line_app 10 (c :: s)) in Hat. fold line in Hat. destruct (at_pos_app _ _ _ _ Hat) as [Hrd _]. replace (cur + zlen line - cur) with (zlen line) by lia. unfold rd_range in Hrd. destruct (_ || _ || _); [done|]. by injection Hrd. }
    destruct (classify_spec pass cf rhash rbits (zlen recs) line Hok Hrb Hrh) as (cf1 & rhash1 & idx & Hcl & Hok1 & Hrh1 & Hext1 & Hin1).
    rewrite (loop_next _ _ _ (cur + zlen line, recs ++ [XRecord line idx], rhash1, cf1)).
    + destruct (IH (snd (first_line 10 (c :: s))) (cur + zlen line) (recs ++ [XRecord line idx]) rhash1 cf1 Hat') as (recs' & rhash' & cf' & Hl & Hlines & Hok' & Hext' & Hall); [pose proof (first_line_shorter 10 c s); cbn [length] in Hk; lia|done|done| |].
      { apply Forall_app. split; [|by constructor]. eapply Forall_impl; [exact Hrecs|]. intros r. by apply extends_class. }
      exists (XRecord line idx :: recs'), rhash', cf'. rewrite <-(assoc app) in Hl, Hall. split; [exact Hl|]. split; [rewrite lines_cons; cbn [fmap list_fmap rec_line]; f_equal; exact Hlines|]. split; [done|]. split; [by eapply extends_trans|exact Hall].
    + unfold ctx_step. rewrite (at_pos_end _ _ _ Hat). cbn [negb bool_decide decide_rel]. rewrite Hhash. run. rewrite Hslice. fold (line_hash flags line). rewrite Hcl. done.
Qed.

Lemma prepare_ctx_spec pass mf narec cf : 0 <= narec <= 2 ^ 30 -> cf_ok cf ->
  exists cf' xdf, xdl_prepare_ctx junk pass mf narec flags cf = Ret (cf', xdf) /\ cf_ok cf' /\ extends cf cf' /\ Forall (in_class cf') (recs xdf) /\ rec_line <$> recs xdf = lines 10 mf /\
    rchg xdf = replicate (Z.to_nat (nrec xdf + 2)) 0 /\ dstart xdf = 0 /\ dend xdf = nrec xdf - 1 /\ (myers flags = true -> zlen (rindex xdf) = nrec xdf + 1 /\ zlen (ha xdf) = nrec xdf + 1).
Proof.
  intros Hna Hok. unfold xdl_prepare_ctx. rewrite u32_small by lia. destruct (hashbits_spec narec Hna) as (rbits & -> & Hrb). run. unfold hash_size. rewrite (proj2 (Z.ltb_lt rbits 31)) by lia. run.
  destruct (ctx_loop pass mf rbits ltac:(lia) (S (length mf)) mf 0 [] (replicate (Z.to_nat (2 ^ rbits)) []) cf (at_pos_0 mf) ltac:(lia) Hok) as (recs' & rhash' & cf' & -> & Hlines & Hok' & Hext & Hall); [rewrite zlen_replicate; pose proof (Z.pow_pos_nonneg 2 rbits); lia|done|].
  run. cbn [app] in *. pose proof (zlen_nonneg recs'). eexists _, _. split; [done|]. cbn [recs rchg rindex ha dstart dend]. unfold nrec. cbn [recs]. split; [exact Hok'|]. split; [exact Hext|]. split; [exact Hall|]. split; [exact Hlines|]. split; [done|]. split; [done|]. split; [done|].
  intros ->. rewrite !zlen_replicate. lia.
Qed.

Lemma fresh_ends xdf cf ds de : Forall (in_class cf) (recs xdf) -> rchg xdf = replicate (Z.to_nat (nrec xdf + 2)) 0 -> zlen (rindex xdf) = nrec xdf + 1 -> zlen (ha xdf) = nrec xdf + 1 -> fresh (set_ends ds de xdf) (zlen (rcrecs cf)).
Proof.
  intros Hall H1 H2 H3. split; [done..|]. intros i Hi. destruct (rd_rec (set_ends ds de xdf) i Hi) as (r & _ & Hr & <-). rewrite Forall_lookup in Hall. destruct (Hall _ _ Hr) as [Hp (c & Hc & _)]. apply lookup_lt_Some in Hc. unfold zlen. lia.
Qed.

Lemma init_ok n : 0 <= n <= 2 ^ 30 -> exists cf, xdl_init_classifier n flags = Ret cf /\ cf_ok cf.
Proof.
  intros Hn. unfold xdl_init_classifier. rewrite u32_small by lia. destruct (hashbits_spec n Hn) as (b & -> & Hb). run. unfold hash_size. rewrite (proj2 (Z.ltb_lt b 31)) by lia. run. eexists. split; [done|].
  pose proof (Z.pow_pos_nonneg 2 b ltac:(lia) ltac:(lia)) as Hp. split; cbn [hbits rchash rcrecs cf_flags]; try (intros i c; intros; by rewrite lookup_nil in *); [lia|rewrite zlen_replicate; lia|done|].
  intros h chain idx Hh Hidx. apply lookup_replicate_1 in Hh as [-> _]. by apply elem_of_nil in Hidx.
Qed.

(** ** The marks *)

(** The lines of two files with their classes. *)
Record classed (mf1 mf2 : list Z) (xe : xdfenv) : Prop := {
  classed_lines1 : rec_line <$> recs (xdf1 xe) = lines 10 mf1;
  classed_lines2 : rec_line <$> recs (xdf2 xe) = lines 10 mf2;
  classed_sound : forall r r', r ∈ recs (xdf1 xe) ++ recs (xdf2 xe) -> r' ∈ recs (xdf1 xe) ++ recs (xdf2 xe) -> rec_ha r = rec_ha r' -> same_key (rec_line r) (rec_line r');
  classed_complete : precise flags = true -> forall r r', r ∈ recs (xdf1 xe) ++ recs (xdf2 xe) -> r' ∈ recs (xdf1 xe) ++ recs (xdf2 xe) -> same_key (rec_line r) (rec_line r') -> rec_ha r = rec_ha r';
}.

(** Line [i] of a file. *)
Definition line_at (xdf : xdfile) (i : Z) : list Z := default [] (rec_line <$> recs xdf !! Z.to_nat i).

(** The lines without a mark, up to what the flags ignore. *)
Definition rest_lines (xdf : xdfile) : list (list Z) := unmarked (fun i => loose flags (line_at xdf i)) (mark xdf) 0 (nrec xdf).

Lemma classed_same mf1 mf2 xe x y i j : classed mf1 mf2 xe -> x = xdf1 xe \/ x = xdf2 xe -> y = xdf1 xe \/ y = xdf2 xe -> 0 <= i < nrec x -> 0 <= j < nrec y -> cls x i = cls y j -> loose flags (line_at x i) = loose flags (line_at y j).
Proof.
  intros Hc Hx Hy Hi Hj Heq. destruct (rd_rec x i) as (r & _ & Hr & Hcr); [done|]. destruct (rd_rec y j) as (r' & _ & Hr' & Hcr'); [done|]. unfold line_at. rewrite Hr, Hr'. cbn [fmap option_fmap option_map default].
  assert (forall z k q, z = xdf1 xe \/ z = xdf2 xe -> recs z !! k = Some q -> q ∈ recs (xdf1 xe) ++ recs (xdf2 xe)) as Hin by (intros z k q [->| ->] Hq; apply elem_of_app; [left|right]; by eapply list_elem_of_lookup_2).
  apply (classed_sound _ _ _ Hc); [by eapply (Hin x)|by eapply (Hin y)|congruence].
Qed.

(** What [xdl_do_diff] and the functions that follow it promise: the files with the
    classes of their lines, and marks outside of which their lines match. *)
Record diffs (mf1 mf2 : list Z) (xe : xdfenv) : Prop := {
  diffs_classed : classed mf1 mf2 xe;
  diffs_ok1 : file_ok (xdf1 xe);
  diffs_ok2 : file_ok (xdf2 xe);
  diffs_rest : rest_lines (xdf1 xe) = rest_lines (xdf2 xe);
  diffs_same : myers flags = true -> classes (xdf1 xe) = classes (xdf2 xe) -> total (xdf1 xe) = nrec (xdf1 xe);
}.

Lemma indexed_ok xdf xdf' : 0 <= dstart xdf <= dend xdf + 1 -> dend xdf < nrec xdf -> reduced xdf xdf' -> index_ok (rindex xdf') (nreff xdf') (nrec xdf + 2).
Proof. intros Hd1 Hd2 [_ _ _ [Ha1 Ha2] [Hnr Hin Hlt _ _ _] _]. split; [lia| |done]. intros i Hi. specialize (Hin i Hi). lia. Qed.

(** The files as they are before the ends are trimmed. *)
Record unmarked_file (xdf : xdfile) : Prop := {
  uf_rchg : rchg xdf = replicate (Z.to_nat (nrec xdf + 2)) 0;
  uf_dstart : dstart xdf = 0;
  uf_dend : dend xdf = nrec xdf - 1;
}.

(** What [xdl_prepare_env] returns: for Myers' algorithm trimmed and reduced files, and for the
    other two whole ones without marks. *)
Lemma prepare_env_spec mf1 mf2 : zlen mf1 + zlen mf2 + 5 <= 2 ^ 30 -> exists xe, xdl_prepare_env junk mf1 mf2 flags = Ret xe /\ classed mf1 mf2 xe /\ nrec (xdf1 xe) <= zlen mf1 /\ nrec (xdf2 xe) <= zlen mf2 /\
  if myers flags then exists x1 x2, ends_ok x1 x2 /\ reduced x1 (xdf1 xe) /\ reduced x2 (xdf2 xe)
  else unmarked_file (xdf1 xe) /\ unmarked_file (xdf2 xe).
Proof.
  intros Hsize. pose proof (zlen_nonneg mf1) as Hz1. pose proof (zlen_nonneg mf2) as Hz2. unfold xdl_prepare_env. set (sample := if XDF_DIFF_ALG flags =? XDF_HISTOGRAM_DIFF then _ else _). clearbody sample.
  destruct (guess_lines_spec mf1 sample) as (g1 & -> & Hg1). run. destruct (guess_lines_spec mf2 sample) as (g2 & -> & Hg2). run.
  destruct (init_ok (g1 + 1 + (g2 + 1) + 1) ltac:(lia)) as (cf0 & -> & Hok0). run.
  destruct (prepare_ctx_spec 1 mf1 (g1 + 1) cf0 ltac:(lia) Hok0) as (cf1 & x1 & -> & Hok1 & Hext1 & Hall1 & Hlines1 & Hr1 & Hds1 & Hde1 & Hm1). run.
  destruct (prepare_ctx_spec 2 mf2 (g2 + 1) cf1 ltac:(lia) Hok1) as (cf2 & x2 & -> & Hok2 & Hext2 & Hall2 & Hlines2 & Hr2 & Hds2 & Hde2 & Hm2). run.
  assert (Forall (in_class cf2) (recs x1)) as Hall1' by (eapply Forall_impl; [exact Hall1|]; intros r; by apply extends_class).
  assert (nrec x1 <= zlen mf1) as Hn1 by (pose proof (lines_length mf1) as Hl; rewrite <-Hlines1 in Hl; unfold nrec, zlen in *; rewrite length_fmap in Hl; lia).
  assert (nrec x2 <= zlen mf2) as Hn2 by (pose proof (lines_length mf2) as Hl; rewrite <-Hlines2 in Hl; unfold nrec, zlen in *; rewrite length_fmap in Hl; lia).
  assert (forall r, r ∈ recs x1 ++ recs x2 -> in_class cf2 r) as Hin.
  { intros r Hr. apply elem_of_app in Hr as [Hr|Hr]; [rewrite Forall_forall in Hall1'; by apply Hall1'|rewrite Forall_forall in Hall2; by apply Hall2]. }
  assert (classed mf1 mf2 (XdfEnv x1 x2)) as Hcl.
  { split; cbn [xdf1 xdf2]; [done|done| |]; [intros r r' Hr Hr'; by apply (class_sound cf2); apply Hin|intros Hp r r' Hr Hr'; by apply (class_complete cf2); [..|apply Hin|apply Hin]]. }
  destruct (myers flags) eqn:Hmy; [|run; exists (XdfEnv x1 x2); split; [done|]; split; [done|]; split; [done|]; split; [done|]; split; by split].
  destruct (Hm1 eq_refl) as [Hri1 Hh1]. destruct (Hm2 eq_refl) as [Hri2 Hh2]. unfold xdl_optimize_ctxs. destruct (trim_ends_spec x1 x2) as (ds & e1 & e2 & -> & Hends). run.
  pose proof (fresh_ends x1 cf2 ds e1 Hall1' Hr1 Hri1 Hh1) as Hf1. pose proof (fresh_ends x2 cf2 ds e2 Hall2 Hr2 Hri2 Hh2) as Hf2.
  destruct (cleanup_records_spec cf2 (set_ends ds e1 x1) (set_ends ds e2 x2) Hends Hf1 Hf2) as (y1 & y2 & -> & Hred1 & Hred2); [change (nrec (set_ends ds e1 x1)) with (nrec x1); lia|change (nrec (set_ends ds e2 x2)) with (nrec x2); lia|].
  run. pose proof (reduced_recs _ _ Hred1) as Hrec1. pose proof (reduced_recs _ _ Hred2) as Hrec2. cbn [recs set_ends] in Hrec1, Hrec2. eexists. split; [done|]. cbn [xdf1 xdf2]. unfold nrec at 1 2. rewrite Hrec1, Hrec2. split; [|split; [done|]; split; [done|]; by exists (set_ends ds e1 x1), (set_ends ds e2 x2)].
  destruct Hcl as [Hc1 Hc2 Hc3 Hc4]. cbn [xdf1 xdf2] in *. split; cbn [xdf1 xdf2]; by rewrite ?Hrec1, ?Hrec2.
Qed.

(** Myers' algorithm on prepared files. *)
Lemma myers_diff_spec mf1 mf2 xe x1 x2 : zlen mf1 + zlen mf2 + 5 <= 2 ^ 30 -> classed mf1 mf2 xe -> nrec (xdf1 xe) <= zlen mf1 -> nrec (xdf2 xe) <= zlen mf2 -> ends_ok x1 x2 -> reduced x1 (xdf1 xe) -> reduced x2 (xdf2 xe) ->
  exists xe', myers_diff junk xe flags = Ret xe' /\ diffs mf1 mf2 xe' /\ recs (xdf1 xe') = recs (xdf1 xe) /\ recs (xdf2 xe') = recs (xdf2 xe).
Proof.
  destruct xe as [y1 y2]. cbn [xdf1 xdf2]. intros Hsize Hcl Hn1 Hn2 Hends Hred1 Hred2. pose proof (reduced_recs _ _ Hred1) as Hrec1. pose proof (reduced_recs _ _ Hred2) as Hrec2.
  assert (nrec y1 = nrec x1) as Hnr1' by (unfold nrec; by rewrite Hrec1). assert (nrec y2 = nrec x2) as Hnr2' by (unfold nrec; by rewrite Hrec2).
  pose proof Hends as [Hst Hrange Hend _ _ _]. pose proof (indexed_ok x1 y1 ltac:(lia) ltac:(lia) Hred1) as Hi1. pose proof (indexed_ok x2 y2 ltac:(lia) ltac:(lia) Hred2) as Hi2.
  pose proof (ix_nreff _ _ _ _ _ _ _ (reduced_index _ _ Hred1)) as Hnr1. pose proof (ix_nreff _ _ _ _ _ _ _ (reduced_index _ _ Hred2)) as Hnr2. pose proof (reduced_arrays _ _ Hred1) as [_ Ha1]. pose proof (reduced_arrays _ _ Hred2) as [_ Ha2].
  unfold myers_diff. cbn [xdf1 xdf2]. destruct (bogosqrt_total (nreff y1 + nreff y2 + 3)) as [cost ->]; [lia|]. run. set (xenv := AlgoEnv _ _ _).
  destruct (recs_cmp_spec (ha y1) (rindex y1) (ha y2) (rindex y2) (nreff y2 + 1) (nreff y1 + nreff y2 + 3 + nreff y2 + 1) xenv (2 * (nreff y1 + nreff y2 + 3) + 2) (nreff y1) (nreff y2) (nrec x1 + 2) (nrec x2 + 2) ltac:(done) ltac:(lia) ltac:(lia)
    ltac:(unfold XDL_LINE_MAX; lia) Hi1 Hi2 ltac:(unfold places; lia) (S (Z.to_nat (nreff y1 + nreff y2))) 0 (nreff y1) 0 (nreff y2) (flag flags XDF_NEED_MINIMAL) (rchg y1) (rchg y2) (replicate (Z.to_nat (2 * (nreff y1 + nreff y2 + 3) + 2)) junk))
    as ([[rchg1 rchg2] kvd] & -> & _ & Hm1 & Hm2 & Hsame); [lia|lia|lia|lia|lia|rewrite zlen_replicate; lia|apply (reduced_len _ _ Hred1)|apply (reduced_len _ _ Hred2)|apply (ix_clear _ _ _ _ _ _ _ (reduced_index _ _ Hred1))|apply (ix_clear _ _ _ _ _ _ _ (reduced_index _ _ Hred2))|].
  run. eexists. split; [done|]. split; [|done]. destruct (reduced_compare _ _ _ _ rchg1 rchg2 Hends Hred1 Hred2 Hm1 Hm2 Hsame) as (Hfile1 & Hfile2 & Hrest & Htot).
  assert (classed mf1 mf2 (XdfEnv (set_rchg rchg1 y1) (set_rchg rchg2 y2))) as Hcl' by (by destruct Hcl; split).
  split; cbn [xdf1 xdf2]; [done|done|done|revert Hrest; apply unmarked_transfer; intros i j Hi Hj; apply (classed_same _ _ _ _ _ _ _ Hcl'); [by left|by right|done|done]|].
  intros _ Heq. change (nrec (set_rchg rchg1 y1)) with (nrec y1). rewrite Hnr1'. apply Htot. unfold classes in *. cbn [recs set_rchg] in *. by rewrite Hrec1, Hrec2 in Heq.
Qed.
End classify.
