(* ===== verification/XdiffRange.v ===== *)
(** Parts of two files, for the algorithms that cut the files and compare the parts: what a
    comparison of two parts promises, how the parts are put together again, and
    [xdl_fall_back_diff] (xdiff_xutils.c), which compares two parts as files of their own. *)
From S2P Require Import Prelude StrbufLines XdiffFile XdiffUtils XdiffPrepare.

(** * Model *)

(** [xpparam_t]: a regular expression of [ignore_regex] is a test of lines. *)
Record xpparam := XpParam { xpp_flags : Z; anchors : list (list Z); ignore_regex : list (list Z -> bool) }.

(** [while (count--) rchg[line++ - 1] = 1;] *)
Definition mark_lines (rchg : list Z) (line count : Z) : outcome (list Z) := for_n (Z.to_nat count) line (fun l rchg => wr rchg l 1) rchg.

(** The memory from the start of line [line] to the end of the last of [count] lines; the
    records are one behind the other. *)
Definition subfile (xdf : xdfile) (line count : Z) : outcome (list Z) :=
  _ ← rd (recs xdf) (line - 1);
  _ ← rd (recs xdf) (line + count - 2);
  Ret (concat (slice (rec_line <$> recs xdf) (line - 1) count)).

(** On the marks of both files; [do_diff] is [xdl_do_diff]. *)
Definition xdl_fall_back_diff (do_diff : list Z -> list Z -> xpparam -> outcome xdfenv) (xdf1 xdf2 : xdfile) (xpp : xpparam) (line1 count1 line2 count2 : Z) (st : list Z * list Z) : outcome (list Z * list Z) :=
  let '(rchg1, rchg2) := st in
  subfile1 ← subfile xdf1 line1 count1;
  subfile2 ← subfile xdf2 line2 count2;
  env ← do_diff subfile1 subfile2 xpp;
  xs ← rd_range (rchg (XdiffPrepare.xdf1 env)) 1 count1;
  rchg1 ← wr_range rchg1 line1 xs;
  xs ← rd_range (rchg (XdiffPrepare.xdf2 env)) 1 count2;
  rchg2 ← wr_range rchg2 line2 xs;
  Ret (rchg1, rchg2).

(** The flags for the part: no algorithm, and nothing else of [xpp]. *)
Definition classic_param `{XdiffH} (xpp : xpparam) : xpparam := XpParam (Z.land (xpp_flags xpp) (Z.lnot XDF_DIFF_ALGORITHM_MASK)) [] [].

(** * Parts *)

(** The mark of line [i] in an array of marks. *)
Definition mk (r : list Z) (i : Z) : Z := getk r (i + 1).

Definition clear (r : list Z) (a n : Z) : Prop := forall i, a <= i < a + n -> mk r i = 0.

(** Marks were set in [n1] lines from [a1] on and [n2] lines from [a2] on, and outside of
    them these lines agree. *)
Record covers {A} (cls1 cls2 : Z -> A) (a1 n1 a2 n2 : Z) (r1 r2 r1' r2' : list Z) : Prop := {
  cov_len1 : zlen r1' = zlen r1;
  cov_len2 : zlen r2' = zlen r2;
  cov_out1 : forall i, -1 <= i -> i < a1 \/ a1 + n1 <= i -> mk r1' i = mk r1 i;
  cov_out2 : forall i, -1 <= i -> i < a2 \/ a2 + n2 <= i -> mk r2' i = mk r2 i;
  cov_same : unmarked cls1 (mk r1') a1 (a1 + n1) = unmarked cls2 (mk r2') a2 (a2 + n2);
}.

Section parts.
Context {A : Type} (cls1 cls2 : Z -> A).
Implicit Types (r : list Z).

Lemma clear_out r r' a n b m : (forall i, -1 <= i -> i < a \/ a + n <= i -> mk r' i = mk r i) -> clear r b m -> 0 <= b -> b + m <= a \/ a + n <= b -> clear r' b m.
Proof. intros Hout Hc Hb Hd i Hi. rewrite Hout by lia. by apply Hc. Qed.

(** Nothing to do. *)
Lemma covers_same a1 a2 n r1 r2 : 0 <= n -> clear r1 a1 n -> clear r2 a2 n -> (forall k, 0 <= k < n -> cls1 (a1 + k) = cls2 (a2 + k)) -> covers cls1 cls2 a1 n a2 n r1 r2 r1 r2.
Proof. intros Hn H1 H2 Hs. split; [done..|]. apply unmarked_same. intros i Hi. split; [by apply Hs|]. rewrite H1, H2 by lia. done. Qed.

Lemma mark_lines_spec r line count : 1 <= line -> 0 <= count -> line + count <= zlen r ->
  exists r', mark_lines r line count = Ret r' /\ zlen r' = zlen r /\ (forall i, -1 <= i -> mk r' i = if decide (line - 1 <= i < line - 1 + count) then 1 else mk r i).
Proof.
  intros Hl Hc Hfit. unfold mark_lines.
  destruct (for_n_ret (fun j r' => zlen r' = zlen r /\ forall i, -1 <= i -> mk r' i = if decide (line - 1 <= i < j - 1) then 1 else mk r i) (Z.to_nat count) line (fun l r => wr r l 1) r) as (r' & -> & Hlen & Hm).
  - intros j s Hj [Hs Hm]. destruct (wr_getk s j 1) as (s' & -> & Hs' & Hg); [lia|]. exists s'. split; [done|]. split; [lia|]. intros i Hi. unfold mk in *. rewrite Hg by lia. specialize (Hm i Hi). repeat case_decide; try lia; done.
  - split; [done|]. intros i Hi. rewrite decide_False by lia. done.
  - exists r'. split; [done|]. split; [done|]. intros i Hi. rewrite Hm by done. replace (line + Z.of_nat (Z.to_nat count) - 1) with (line - 1 + count) by lia. done.
Qed.

(** All lines of both parts are marked. *)
Lemma covers_all a1 n1 a2 n2 r1 r2 r1' r2' : zlen r1' = zlen r1 -> zlen r2' = zlen r2 -> (forall i, -1 <= i -> mk r1' i = if decide (a1 <= i < a1 + n1) then 1 else mk r1 i) -> (forall i, -1 <= i -> mk r2' i = if decide (a2 <= i < a2 + n2) then 1 else mk r2 i) ->
  0 <= a1 -> 0 <= a2 -> covers cls1 cls2 a1 n1 a2 n2 r1 r2 r1' r2'.
Proof.
  intros Hl1 Hl2 Hm1 Hm2 Ha1 Ha2. split; [done|done|intros i Hi Hout; rewrite Hm1, decide_False by lia; done|intros i Hi Hout; rewrite Hm2, decide_False by lia; done|].
  rewrite !unmarked_none; [done|intros i Hi; rewrite Hm2, decide_True by lia; done|intros i Hi; rewrite Hm1, decide_True by lia; done].
Qed.

(** One part after the other. *)
Lemma covers_app a1 n1 m1 a2 n2 m2 r1 r2 s1 s2 t1 t2 : 0 <= a1 -> 0 <= a2 -> 0 <= n1 -> 0 <= n2 -> 0 <= m1 -> 0 <= m2 ->
  covers cls1 cls2 a1 n1 a2 n2 r1 r2 s1 s2 -> covers cls1 cls2 (a1 + n1) m1 (a2 + n2) m2 s1 s2 t1 t2 -> covers cls1 cls2 a1 (n1 + m1) a2 (n2 + m2) r1 r2 t1 t2.
Proof.
  intros Ha1 Ha2 Hn1 Hn2 Hm1 Hm2 [L1 L2 O1 O2 Hs] [L1' L2' O1' O2' Hs']. split; [lia|lia|intros i Hi Hout; rewrite O1', O1 by lia; done|intros i Hi Hout; rewrite O2', O2 by lia; done|].
  rewrite (unmarked_app _ _ a1 (a1 + n1)), (unmarked_app _ _ a2 (a2 + n2)) by lia. rewrite !Z.add_assoc, Hs'. f_equal.
  rewrite (unmarked_ext cls1 cls1 (mk t1) (mk s1)) by (intros i Hi; split; [done|apply O1'; lia]). rewrite (unmarked_ext cls2 cls2 (mk t2) (mk s2)) by (intros i Hi; split; [done|apply O2'; lia]). exact Hs.
Qed.

(** Lines in both files first, or last. *)
Lemma covers_front a1 n1 a2 n2 d r1 r2 r1' r2' : 0 <= a1 -> 0 <= a2 -> 0 <= d -> 0 <= n1 -> 0 <= n2 -> clear r1 a1 d -> clear r2 a2 d -> (forall k, 0 <= k < d -> cls1 (a1 + k) = cls2 (a2 + k)) ->
  covers cls1 cls2 (a1 + d) n1 (a2 + d) n2 r1 r2 r1' r2' -> covers cls1 cls2 a1 (d + n1) a2 (d + n2) r1 r2 r1' r2'.
Proof. intros H1 H2 Hd Hn1 Hn2 Hc1 Hc2 Hs Hcov. apply (covers_app a1 d n1 a2 d n2 r1 r2 r1 r2); [lia..| |done]. by apply covers_same. Qed.

Lemma unmarked_shift (cls : Z -> A) r a n : unmarked cls (mk r) a (a + n) = unmarked (fun i => cls (a + i)) (fun i => mk r (a + i)) 0 n.
Proof. symmetry. replace n with (0 + n) at 1 by lia. by apply unmarked_same. Qed.

End parts.

(** * Parts as files *)

Lemma first_line_whole t a rest : t ∉ a -> first_line t (a ++ t :: rest) = (a ++ [t], rest).
Proof.
  induction a as [|c a IH]; intros Ha; cbn [app first_line]; [by rewrite Z.eqb_refl|]. apply not_elem_of_cons in Ha as [Hc Ha]. rewrite (proj2 (Z.eqb_neq c t)) by done. by rewrite IH.
Qed.

Lemma lines_whole t a rest : t ∉ a -> lines t (a ++ t :: rest) = (a ++ [t]) :: lines t rest.
Proof.
  intros Ha. pose proof (first_line_whole t a rest Ha) as Hf. assert (exists c s, a ++ t :: rest = c :: s) as (c & s & Heq) by (destruct a; by eexists _, _). rewrite Heq in *. by rewrite lines_cons, Hf.
Qed.

(** A text is made of lines that end in a newline, and a last one that may be open. *)
Lemma lines_shape s : exists ls last, lines 10 s = ls ++ last /\ Forall (fun l => exists a, 10 ∉ a /\ l = a ++ [10]) ls /\ (last = [] \/ exists l, last = [l] /\ l <> [] /\ 10 ∉ l).
Proof.
  induction s as [s IH] using length_induction. destruct s as [|c s]; [exists [], []; split; [done|]; split; [done|by left]|]. rewrite lines_cons. pose proof (first_line_shorter 10 c s) as Hsh. destruct (first_line_ends 10 (c :: s) ltac:(done)) as [(a & Hl & Hn)|(Hn & Hl & Hr)].
  - destruct (IH (snd (first_line 10 (c :: s)))) as (ls & last & -> & Hls & Hlast); [cbn [length]; lia|]. exists (fst (first_line 10 (c :: s)) :: ls), last. split; [done|]. split; [|done]. constructor; [by exists a|done].
  - rewrite Hl, Hr. exists [], [c :: s]. split; [done|]. split; [done|]. right. by exists (c :: s).
Qed.

Lemma lines_concat ls last : Forall (fun l => exists a, 10 ∉ a /\ l = a ++ [10]) ls -> (last = [] \/ exists l, last = [l] /\ l <> [] /\ 10 ∉ l) -> lines 10 (concat (ls ++ last)) = ls ++ last.
Proof.
  induction ls as [|l ls IH]; intros Hls Hlast; cbn [app concat].
  - destruct Hlast as [->|(l & -> & Hne & Hl)]; [done|]. cbn [concat]. rewrite app_nil_r. destruct l as [|c l]; [done|]. rewrite lines_cons. destruct (first_line_ends 10 (c :: l) ltac:(done)) as [(a & Heq & _)|(_ & Heq & ->)]; [|by rewrite Heq].
    exfalso. apply Hl. rewrite <-(first_line_app 10 (c :: l)), Heq. apply elem_of_app. left. apply elem_of_app. right. by apply list_elem_of_singleton.
  - apply Forall_cons in Hls as [(a & Ha & ->) Hls]. rewrite <-(assoc app). cbn [app]. rewrite lines_whole by done. by rewrite IH.
Qed.

(** Lines cut out of a text are its own lines again. *)
Lemma lines_slice s a n : lines 10 (concat (slice (lines 10 s) a n)) = slice (lines 10 s) a n.
Proof.
  destruct (lines_shape s) as (ls & last & -> & Hls & Hlast). unfold slice. rewrite drop_app, take_app. apply lines_concat.
  - by apply Forall_take, Forall_drop.
  - destruct Hlast as [->|(l & -> & Hl)]; [left; by rewrite skipn_nil, firstn_nil|]. destruct (Z.to_nat a - length ls)%nat as [|k]; [|left; cbn [drop]; by rewrite skipn_nil, firstn_nil]. cbn [drop]. destruct (Z.to_nat n - _)%nat; [by left|right]. exists l. cbn [take]. by rewrite firstn_nil.
Qed.

Lemma concat_slice_len (ls : list (list Z)) a n : zlen (concat (slice ls a n)) <= zlen (concat ls).
Proof.
  unfold slice. assert (concat ls = concat (take (Z.to_nat a) ls) ++ concat (take (Z.to_nat n) (drop (Z.to_nat a) ls)) ++ concat (drop (Z.to_nat n) (drop (Z.to_nat a) ls))) as -> by (by rewrite <-!List.concat_app, take_drop, take_drop).
  rewrite !zlen_app. pose proof (zlen_nonneg (concat (take (Z.to_nat a) ls))). pose proof (zlen_nonneg (concat (drop (Z.to_nat n) (drop (Z.to_nat a) ls)))). lia.
Qed.

Lemma getk_wr_range (l xs l' : list Z) off j : 0 <= off -> off + zlen xs <= zlen l -> wr_range l off xs = Ret l' -> 0 <= j -> getk l' j = if decide (off <= j < off + zlen xs) then getk xs (j - off) else getk l j.
Proof.
  intros Hoff Hfit Hwr Hj. rewrite wr_range_in in Hwr by done. injection Hwr as <-. unfold getk. f_equal. unfold zlen in *. case_decide.
  - rewrite lookup_app_r by (rewrite length_take; lia). rewrite lookup_app_l by (rewrite length_take; lia). rewrite length_take. do 2 f_equal. lia.
  - destruct (Z.lt_ge_cases j off).
    + rewrite lookup_app_l by (rewrite length_take; lia). by rewrite lookup_take_lt by lia.
    + rewrite lookup_app_r by (rewrite length_take; lia). rewrite lookup_app_r by (rewrite length_take; lia). rewrite lookup_drop, length_take. do 2 f_equal. lia.
Qed.

Section fall_back.
Context `{XdiffHOk} (xpp : xpparam) (mf1 mf2 : list Z) (x1 x2 : xdfile) (do_diff : list Z -> list Z -> xpparam -> outcome xdfenv).
Notation flags := (xpp_flags xpp).
Notation flags' := (xpp_flags (classic_param xpp)).
Context (Hclassed : classed flags mf1 mf2 (XdfEnv x1 x2)) (Hsize : zlen mf1 + zlen mf2 + 5 <= 2 ^ 30).
Context (Hdo : forall t1 t2, zlen t1 + zlen t2 + 5 <= 2 ^ 30 -> exists xe, do_diff t1 t2 (classic_param xpp) = Ret xe /\ diffs flags' t1 t2 xe).

Lemma classic_flag f : f ∈ [XDF_IGNORE_WHITESPACE; XDF_IGNORE_WHITESPACE_CHANGE; XDF_IGNORE_WHITESPACE_AT_EOL; XDF_IGNORE_CR_AT_EOL] -> flag flags' f = flag flags f.
Proof.
  intros Hf. pose proof (xdf_apart f Hf) as Ha. unfold flag, classic_param. cbn [xpp_flags]. f_equal. apply Z.bits_inj'. intros i Hi. apply (f_equal (fun z => Z.testbit z i)) in Ha. rewrite Z.land_spec, Z.bits_0 in Ha. rewrite !Z.land_spec, Z.lnot_spec by done. destruct (Z.testbit XDF_DIFF_ALGORITHM_MASK i), (Z.testbit f i), (Z.testbit flags i); done.
Qed.

Lemma classic_whitespace : flag flags' XDF_WHITESPACE_FLAGS = flag flags XDF_WHITESPACE_FLAGS.
Proof.
  unfold flag. rewrite !xdf_whitespace. fold (flag flags' XDF_IGNORE_WHITESPACE) (flag flags' XDF_IGNORE_WHITESPACE_CHANGE) (flag flags' XDF_IGNORE_WHITESPACE_AT_EOL) (flag flags' XDF_IGNORE_CR_AT_EOL).
  fold (flag flags XDF_IGNORE_WHITESPACE) (flag flags XDF_IGNORE_WHITESPACE_CHANGE) (flag flags XDF_IGNORE_WHITESPACE_AT_EOL) (flag flags XDF_IGNORE_CR_AT_EOL). rewrite !classic_flag; [done|..]; rewrite !elem_of_cons; tauto.
Qed.

Lemma classic_loose l : loose flags' l = loose flags l.
Proof.
  unfold loose, precise, key, normal. rewrite classic_whitespace. rewrite !classic_flag; [done|..]; rewrite !elem_of_cons; tauto.
Qed.

(** A line of the part is a line of the file. *)
Lemma part_line xdf mf xdf' a n i : rec_line <$> recs xdf = lines 10 mf -> rec_line <$> recs xdf' = slice (lines 10 mf) a n -> 0 <= a -> 0 <= i < n -> line_at xdf' i = line_at xdf (a + i).
Proof.
  intros Hl Hl' Ha Hi. unfold line_at. f_equal. rewrite <-!list_lookup_fmap, Hl, Hl', lookup_slice by lia. f_equal. lia.
Qed.

Lemma subfile_spec xdf line count : 1 <= line -> 1 <= count -> line - 1 + count <= nrec xdf -> subfile xdf line count = Ret (concat (slice (rec_line <$> recs xdf) (line - 1) count)).
Proof. intros Hl Hc Hin. unfold subfile. destruct (rd_rec xdf (line - 1)) as (? & -> & _); [lia|]. run. destruct (rd_rec xdf (line + count - 2)) as (? & -> & _); [lia|]. by run. Qed.

Lemma fall_back_spec line1 count1 line2 count2 r1 r2 : 1 <= line1 -> 1 <= count1 -> line1 - 1 + count1 <= nrec x1 -> 1 <= line2 -> 1 <= count2 -> line2 - 1 + count2 <= nrec x2 -> zlen r1 = nrec x1 + 2 -> zlen r2 = nrec x2 + 2 ->
  exists r1' r2', xdl_fall_back_diff do_diff x1 x2 (classic_param xpp) line1 count1 line2 count2 (r1, r2) = Ret (r1', r2') /\ covers (fun i => loose flags (line_at x1 i)) (fun i => loose flags (line_at x2 i)) (line1 - 1) count1 (line2 - 1) count2 r1 r2 r1' r2'.
Proof.
  intros Hl1 Hc1 Hin1 Hl2 Hc2 Hin2 Hr1 Hr2. destruct Hclassed as [Hlines1 Hlines2 _ _]. cbn [xdf1 xdf2] in *. unfold xdl_fall_back_diff. rewrite !subfile_spec by done. run. rewrite Hlines1, Hlines2.
  set (t1 := concat (slice (lines 10 mf1) _ _)). set (t2 := concat (slice (lines 10 mf2) _ _)).
  assert (zlen t1 <= zlen mf1) as Ht1 by (unfold t1; rewrite <-(concat_lines 10 mf1) at 2; apply concat_slice_len). assert (zlen t2 <= zlen mf2) as Ht2 by (unfold t2; rewrite <-(concat_lines 10 mf2) at 2; apply concat_slice_len).
  destruct (Hdo t1 t2) as ([y1 y2] & -> & [[Hy1 Hy2 _ _] Hok1 Hok2 Hrest _]); [lia|]. run. cbn [xdf1 xdf2] in *. unfold t1 in Hy1. unfold t2 in Hy2. rewrite lines_slice in Hy1, Hy2.
  assert (nrec x1 = zlen (lines 10 mf1)) as Hx1 by (unfold nrec, zlen; by rewrite <-Hlines1, length_fmap). assert (nrec x2 = zlen (lines 10 mf2)) as Hx2 by (unfold nrec, zlen; by rewrite <-Hlines2, length_fmap).
  assert (nrec y1 = count1) as Hn1 by (apply (f_equal zlen) in Hy1; rewrite zlen_slice in Hy1 by lia; unfold nrec, zlen in *; by rewrite length_fmap in Hy1). assert (nrec y2 = count2) as Hn2 by (apply (f_equal zlen) in Hy2; rewrite zlen_slice in Hy2 by lia; unfold nrec, zlen in *; by rewrite length_fmap in Hy2).
  pose proof (file_len _ Hok1) as Hf1. pose proof (file_len _ Hok2) as Hf2. rewrite (rd_range_in (rchg y1) 1 count1), (rd_range_in (rchg y2) 1 count2) by lia. run.
  pose proof (zlen_slice (rchg y1) 1 count1 ltac:(lia) ltac:(lia) ltac:(lia)) as Hs1. pose proof (zlen_slice (rchg y2) 1 count2 ltac:(lia) ltac:(lia) ltac:(lia)) as Hs2.
  assert (exists r1', wr_range r1 line1 (slice (rchg y1) 1 count1) = Ret r1') as [r1' Hw1] by (eexists; apply wr_range_in; lia). rewrite Hw1. run.
  assert (exists r2', wr_range r2 line2 (slice (rchg y2) 1 count2) = Ret r2') as [r2' Hw2] by (eexists; apply wr_range_in; lia). rewrite Hw2. run. exists r1', r2'. split; [done|].
  assert (forall r r' y line count, 1 <= line -> 0 <= count -> nrec y = count -> zlen (rchg y) = count + 2 -> line + count <= zlen r -> zlen (slice (rchg y) 1 count) = count -> wr_range r line (slice (rchg y) 1 count) = Ret r' ->
    zlen r' = zlen r /\ (forall i, -1 <= i -> i < line - 1 \/ line - 1 + count <= i -> mk r' i = mk r i) /\ (forall i, 0 <= i < count -> mk r' (line - 1 + i) = mark y i)) as Hcopy.
  { clear. intros r r' y line count Hl Hc Hn Hlen Hfit Hs Hw. split; [by apply wr_range_fill in Hw as [? _]|]. split.
    - intros i Hi Hout. unfold mk. rewrite (getk_wr_range r (slice (rchg y) 1 count) r' line _ ltac:(lia) ltac:(lia) Hw) by lia. by rewrite decide_False by lia.
    - intros i Hi. unfold mk. rewrite (getk_wr_range r (slice (rchg y) 1 count) r' line _ ltac:(lia) ltac:(lia) Hw), decide_True by lia. unfold mark, getk. rewrite lookup_slice by lia. do 2 f_equal. lia. }
  destruct (Hcopy r1 r1' y1 line1 count1) as (Ha1 & Hb1 & Hd1); [lia..|done|]. destruct (Hcopy r2 r2' y2 line2 count2) as (Ha2 & Hb2 & Hd2); [lia..|done|]. split; [done..|].
  rewrite !unmarked_shift. unfold rest_lines in Hrest. rewrite Hn1, Hn2 in Hrest.
  rewrite (unmarked_ext _ (fun i => loose flags' (line_at y1 i)) (fun i => mk r1' (line1 - 1 + i)) (mark y1)) by (intros i Hi; rewrite classic_loose, (part_line x1 mf1 y1 (line1 - 1) count1) by (done || lia); split; [done|by apply Hd1]).
  rewrite (unmarked_ext _ (fun i => loose flags' (line_at y2 i)) (fun i => mk r2' (line2 - 1 + i)) (mark y2)) by (intros i Hi; rewrite classic_loose, (part_line x2 mf2 y2 (line2 - 1) count2) by (done || lia); split; [done|by apply Hd2]).
  exact Hrest.
Qed.
End fall_back.
