(* ===== verification/XdiffHistogram.v ===== *)
(** xdiff_xhistogram.c: the histogram algorithm, which finds the longest common part among
    those with the rarest lines and goes on before and after it.  Lines are numbered from 1. *)
From S2P Require Import Prelude XdiffFile XdiffUtils XdiffPrepare XdiffRange.

(** * Model *)

(** [struct record], known by its place in the store of [rcha]; [next] is in the chains. *)
Record hrecord := HRecord { h_ptr : Z; h_cnt : Z }.

(** [struct histindex]: [records] has the chains of the table; NULL in [line_map] is -1. *)
Record histindex := HistIndex {
  rcha : list hrecord;
  records : list (list Z);
  line_map : list Z;
  next_ptrs : list Z;
  table_bits : Z;
  ptr_shift : Z;
}.

(** [struct region] *)
Record region := Region { begin1 : Z; end1 : Z; begin2 : Z; end2 : Z }.

Definition MAX_PTR : Z := 2 ^ 32 - 1.
Definition MAX_CNT : Z := 2 ^ 32 - 1.
Definition max_chain_length : Z := 64.

Definition LINE_END (line count : Z) : Z := line + count - 1.

Section model.
Context `{XdiffH} (x1 x2 : xdfile).

(** [cmp_recs], and the macros [REC], [CMP], [TABLE_HASH], [NEXT_PTR], [LINE_MAP] and [CNT]. *)
Definition cmp_recs (r1 r2 : xrecord) : bool := rec_ha r1 =? rec_ha r2.

Definition REC (xdf : xdfile) (l : Z) : outcome xrecord := rd (recs xdf) (l - 1).

Definition CMP (s1 : xdfile) (l1 : Z) (s2 : xdfile) (l2 : Z) : outcome bool :=
  r1 ← REC s1 l1;
  r2 ← REC s2 l2;
  Ret (cmp_recs r1 r2).

Definition TABLE_HASH (index : histindex) (side : xdfile) (line : Z) : outcome Z :=
  r ← REC side line;
  Ret (XDL_HASHLONG (rec_ha r) (table_bits index)).

Definition NEXT_PTR (index : histindex) (ptr : Z) : outcome Z := rd (next_ptrs index) (ptr - ptr_shift index).

Definition CNT (index : histindex) (ptr : Z) : outcome Z :=
  r ← rd (line_map index) (ptr - ptr_shift index);
  rec ← rd (rcha index) r;
  Ret (h_cnt rec).

(** ** The occurrences of lines in the first file *)

(** The record of a chain whose line is that of [ptr]. *)
Fixpoint scan_chain (index : histindex) (ptr : Z) (chain : list Z) : outcome (option Z) :=
  match chain with
  | [] => Ret None
  | r :: chain =>
      rec ← rd (rcha index) r;
      same ← CMP x1 (h_ptr rec) x1 ptr;
      if (same : bool) then Ret (Some r) else scan_chain index ptr chain
  end.

(** [ptr] at the front of the occurrences of record [r]. *)
Definition known_line (index : histindex) (ptr r : Z) : outcome histindex :=
  rec ← rd (rcha index) r;
  next_ptrs ← wr (next_ptrs index) (ptr - ptr_shift index) (h_ptr rec);
  rcha ← wr (rcha index) r (HRecord ptr (Z.min MAX_CNT (u32 (h_cnt rec + 1))));
  line_map ← wr (line_map index) (ptr - ptr_shift index) r;
  Ret (HistIndex rcha (records index) line_map next_ptrs (table_bits index) (ptr_shift index)).

(** A record of its own for [ptr], at the front of its chain. *)
Definition new_line (index : histindex) (ptr tbl_idx : Z) (chain : list Z) : outcome histindex :=
  let r := zlen (rcha index) in
  records ← wr (records index) tbl_idx (r :: chain);
  line_map ← wr (line_map index) (ptr - ptr_shift index) r;
  Ret (HistIndex (rcha index ++ [HRecord ptr 1]) records line_map (next_ptrs index) (table_bits index) (ptr_shift index)).

(** One round of [scanA] on [ptr] and the index. *)
Definition scan_line (line1 : Z) (st : Z * histindex) : outcome ((Z * histindex) + histindex) :=
  let '(ptr, index) := st in
  if negb (line1 <=? ptr) then Ret (inr index) else
  tbl_idx ← TABLE_HASH index x1 ptr;
  chain ← rd (records index) tbl_idx;
  found ← scan_chain index ptr chain;
  index ← match found with
          | Some r => known_line index ptr r
          | None => if zlen chain =? max_chain_length then Err Error else new_line index ptr tbl_idx chain
          end;
  Ret (inl (ptr - 1, index)).

Definition scanA (index : histindex) (line1 count1 : Z) : outcome histindex := loop (S (Z.to_nat count1)) (scan_line line1) (LINE_END line1 count1, index).

(** ** The longest common part *)

Section try_lcs.
Context (index : histindex) (line1 count1 line2 count2 : Z).

(** The loops that take lines before and after, on the two lines and [rc]. *)
Definition extend_step (dir : Z) (st : Z * Z * Z) : outcome ((Z * Z * Z) + (Z * Z * Z)) :=
  let '(a, b, rc) := st in
  if negb (if dir <? 0 then (line1 <? a) && (line2 <? b) else (a <? LINE_END line1 count1) && (b <? LINE_END line2 count2)) then Ret (inr (a, b, rc)) else
  same ← CMP x1 (a + dir) x2 (b + dir);
  if negb same then Ret (inr (a, b, rc)) else
  let a := a + dir in
  let b := b + dir in
  rc ← (if 1 <? rc then c ← CNT index a; Ret (Z.min rc c) else Ret rc);
  Ret (inl (a, b, rc)).

(** [while (np <= ae)], where 0 stands for [should_break]. *)
Definition next_step (ae np : Z) : outcome (Z + Z) :=
  if negb (np <=? ae) then Ret (inr np) else
  np ← NEXT_PTR index np;
  Ret (if np =? 0 then inr 0 else inl np).

(** One occurrence [as] of the line, on it, [b_next], [lcs] and the [cnt] of the index. *)
Definition occurrence_step (b_ptr rec_cnt : Z) (st : Z * Z * region * Z) : outcome ((Z * Z * region * Z) + (Z * region * Z)) :=
  let '(a, b_next, lcs, cnt) := st in
  np ← NEXT_PTR index a;
  '(as_, bs, rc) ← loop (S (Z.to_nat count1)) (extend_step (-1)) (a, b_ptr, rec_cnt);
  '(ae, be, rc) ← loop (S (Z.to_nat count1)) (extend_step 1) (a, b_ptr, rc);
  let b_next := if b_next <=? be then be + 1 else b_next in
  let better := (end1 lcs - begin1 lcs <? ae - as_) || (rc <? cnt) in
  let lcs := if better then Region as_ ae bs be else lcs in
  let cnt := if better then rc else cnt in
  if np =? 0 then Ret (inr (b_next, lcs, cnt)) else
  np ← loop (S (Z.to_nat count1)) (next_step ae) np;
  Ret (if np =? 0 then inr (b_next, lcs, cnt) else inl (np, b_next, lcs, cnt)).

(** The loop over a chain, on [b_next], [lcs], [cnt] and [has_common]. *)
Fixpoint try_chain (b_ptr : Z) (chain : list Z) (st : Z * region * Z * bool) : outcome (Z * region * Z * bool) :=
  match chain with
  | [] => Ret st
  | r :: chain =>
      let '(b_next, lcs, cnt, has_common) := st in
      rec ← rd (rcha index) r;
      if h_cnt rec >? cnt then
        has_common ← (if has_common then Ret true else CMP x1 (h_ptr rec) x2 b_ptr);
        try_chain b_ptr chain (b_next, lcs, cnt, has_common)
      else
        same ← CMP x1 (h_ptr rec) x2 b_ptr;
        if negb same then try_chain b_ptr chain st else
        '(b_next, lcs, cnt) ← loop (S (Z.to_nat count1)) (occurrence_step b_ptr (h_cnt rec)) (h_ptr rec, b_next, lcs, cnt);
        try_chain b_ptr chain (b_next, lcs, cnt, true)
  end.

(** Line [b_ptr] of the second file, on [lcs], [cnt] and [has_common]; with the line to go on
    from. *)
Definition try_lcs (lcs : region) (b_ptr cnt : Z) (has_common : bool) : outcome (Z * region * Z * bool) :=
  tbl_idx ← TABLE_HASH index x2 b_ptr;
  chain ← rd (records index) tbl_idx;
  try_chain b_ptr chain (b_ptr + 1, lcs, cnt, has_common).

Definition lcs_step (st : Z * region * Z * bool) : outcome ((Z * region * Z * bool) + (region * Z * bool)) :=
  let '(b_ptr, lcs, cnt, has_common) := st in
  if negb (b_ptr <=? LINE_END line2 count2) then Ret (inr (lcs, cnt, has_common)) else
  st ← try_lcs lcs b_ptr cnt has_common;
  Ret (inl st).
End try_lcs.

(** The region, and whether the only common lines are frequent ones. *)
Definition find_lcs (lcs : region) (line1 count1 line2 count2 : Z) : outcome (region * bool) :=
  table_bits ← xdl_hashbits (u32 count1);
  records_size ← hash_size table_bits;
  let index := HistIndex [] (replicate (Z.to_nat records_size) []) (replicate (Z.to_nat count1) (-1)) (replicate (Z.to_nat count1) 0) table_bits line1 in
  index ← scanA index line1 count1;
  '(lcs, cnt, has_common) ← loop (S (Z.to_nat count2)) (lcs_step index line1 count1 line2 count2) (line2, lcs, max_chain_length + 1, false);
  Ret (lcs, has_common && (max_chain_length <? cnt)).

(** ** The recursion *)

Context (do_diff : list Z -> list Z -> xpparam -> outcome xdfenv) (xpp : xpparam).

(** Both marks; [goto redo] is a call in the last place. *)
Fixpoint histogram_diff (fuel : nat) (line1 count1 line2 count2 : Z) (st : list Z * list Z) : outcome (list Z * list Z) :=
  match fuel with
  | O => Undef
  | Datatypes.S fuel =>
      let '(rchg1, rchg2) := st in
      if (count1 <=? 0) && (count2 <=? 0) then Ret st else
      if u32 (LINE_END line1 count1) >=? MAX_PTR then Err Error else
      if negb (tru count1) then rchg2 ← mark_lines rchg2 line2 count2; Ret (rchg1, rchg2) else
      if negb (tru count2) then rchg1 ← mark_lines rchg1 line1 count1; Ret (rchg1, rchg2) else
      '(lcs, lcs_found) ← find_lcs (Region 0 0 0 0) line1 count1 line2 count2;
      if (lcs_found : bool) then xdl_fall_back_diff do_diff x1 x2 (classic_param xpp) line1 count1 line2 count2 st else
      if (begin1 lcs =? 0) && (begin2 lcs =? 0) then
        rchg1 ← mark_lines rchg1 line1 count1;
        rchg2 ← mark_lines rchg2 line2 count2;
        Ret (rchg1, rchg2)
      else
        st ← histogram_diff fuel line1 (begin1 lcs - line1) line2 (begin2 lcs - line2) st;
        histogram_diff fuel (end1 lcs + 1) (LINE_END line1 count1 - end1 lcs) (end2 lcs + 1) (LINE_END line2 count2 - end2 lcs) st
  end.

Definition xdl_do_histogram_diff : outcome xdfenv :=
  let count1 := dend x1 - dstart x1 + 1 in
  let count2 := dend x2 - dstart x2 + 1 in
  '(rchg1, rchg2) ← histogram_diff (S (Z.to_nat count1)) (dstart x1 + 1) count1 (dstart x2 + 1) count2 (rchg x1, rchg x2);
  Ret (XdfEnv (set_rchg rchg1 x1) (set_rchg rchg2 x2)).
End model.

(** * Lines as classes *)

Section lines.
Context `{XdiffHOk} (x1 x2 : xdfile).

(** The class of line [l], counted from 1. *)
Definition lcls (xdf : xdfile) (l : Z) : Z := cls xdf (l - 1).

Lemma REC_spec xdf l : 1 <= l <= nrec xdf -> exists r, REC xdf l = Ret r /\ rec_ha r = lcls xdf l.
Proof. intros Hl. destruct (rd_rec xdf (l - 1)) as (r & Hr & _ & Hc); [lia|]. by exists r. Qed.

Lemma CMP_spec s1 l1 s2 l2 : 1 <= l1 <= nrec s1 -> 1 <= l2 <= nrec s2 -> CMP s1 l1 s2 l2 = Ret (lcls s1 l1 =? lcls s2 l2).
Proof. intros H1 H2. unfold CMP. destruct (REC_spec s1 l1 H1) as (r1 & -> & <-). run. destruct (REC_spec s2 l2 H2) as (r2 & -> & <-). by run. Qed.

(** ** The index *)

Context (line1 count1 line2 count2 : Z) (Hline1 : 1 <= line1) (Hin1 : line1 - 1 + count1 <= nrec x1) (Hline2 : 1 <= line2) (Hin2 : line2 - 1 + count2 <= nrec x2).
Notation e1 := (LINE_END line1 count1).
Notation e2 := (LINE_END line2 count2).

(** The lines from [lo] on are in the index. *)
Record hist_ok (lo : Z) (ix : histindex) : Prop := {
  hi_bits : 0 <= table_bits ix;
  hi_size : zlen (records ix) = 2 ^ table_bits ix;
  hi_shift : ptr_shift ix = line1;
  hi_map_len : zlen (line_map ix) = count1;
  hi_next_len : zlen (next_ptrs ix) = count1;
  hi_rec : forall (r : nat) rec, rcha ix !! r = Some rec -> lo <= h_ptr rec <= e1;
  hi_chain : forall h chain r, records ix !! h = Some chain -> r ∈ chain -> 0 <= r < zlen (rcha ix);
  hi_nodup : forall h chain, records ix !! h = Some chain -> NoDup chain;
  hi_count : zlen (rcha ix) <= e1 + 1 - lo;
  hi_map : forall p, lo <= p <= e1 -> 0 <= getk (line_map ix) (p - line1) < zlen (rcha ix);
  hi_next : forall p, line1 <= p <= e1 -> getk (next_ptrs ix) (p - line1) = 0 \/ (p < getk (next_ptrs ix) (p - line1) <= e1 /\ lcls x1 (getk (next_ptrs ix) (p - line1)) = lcls x1 p);
}.

Lemma rd_hrec lo ix r : hist_ok lo ix -> 0 <= r < zlen (rcha ix) -> exists rec, rd (rcha ix) r = Ret rec /\ rcha ix !! Z.to_nat r = Some rec /\ lo <= h_ptr rec <= e1.
Proof. intros Hok Hr. destruct (rd_in (rcha ix) r Hr) as [rec Hrec]. exists rec. split; [done|]. apply rd_Ret in Hrec as [_ Hrec]. split; [done|by eapply hi_rec]. Qed.

Lemma scan_chain_spec lo ix ptr chain : hist_ok lo ix -> line1 <= lo -> line1 <= ptr <= e1 -> (forall r, r ∈ chain -> 0 <= r < zlen (rcha ix)) ->
  exists f, scan_chain x1 ix ptr chain = Ret f /\ forall r, f = Some r -> 0 <= r < zlen (rcha ix) /\ exists rec, rd (rcha ix) r = Ret rec /\ lo <= h_ptr rec <= e1 /\ lcls x1 (h_ptr rec) = lcls x1 ptr.
Proof.
  intros Hok Hlo Hptr. unfold LINE_END in *. induction chain as [|r chain IH]; intros Hch; cbn [scan_chain]; [by exists None|].
  destruct (rd_hrec lo ix r Hok (Hch r (list_elem_of_here _ _))) as (rec & Hrd & Hrec & Hp). unfold LINE_END in *. rewrite Hrd. run. rewrite CMP_spec by lia. run. destruct (Z.eqb_spec (lcls x1 (h_ptr rec)) (lcls x1 ptr)) as [Heq|].
  - exists (Some r). split; [done|]. intros ? [= <-]. split; [apply Hch, list_elem_of_here|]. by exists rec.
  - apply IH. intros r' Hr'. apply Hch. by apply list_elem_of_further.
Qed.

Lemma known_line_spec lo ix r rec : hist_ok lo ix -> line1 <= lo - 1 -> lo - 1 <= e1 -> 0 <= r < zlen (rcha ix) -> rd (rcha ix) r = Ret rec -> lo <= h_ptr rec <= e1 -> lcls x1 (h_ptr rec) = lcls x1 (lo - 1) ->
  exists ix', known_line ix (lo - 1) r = Ret ix' /\ hist_ok (lo - 1) ix'.
Proof.
  intros [Hb Hs Hsh Hml Hnl Hrc Hch Hnd Hct Hm Hn] Hlo Hhi Hr Hrec Hp Hc. unfold known_line. rewrite Hrec. run. rewrite Hsh. unfold LINE_END in *.
  destruct (wr_getk (next_ptrs ix) (lo - 1 - line1) (h_ptr rec)) as (np & -> & Hnpl & Hnp); [lia|]. run. rewrite (wr_in (rcha ix) r) by done. run.
  destruct (wr_getk (line_map ix) (lo - 1 - line1) r) as (lm & -> & Hlml & Hlm); [lia|]. run. eexists. split; [done|].
  split; cbn [table_bits records ptr_shift line_map next_ptrs rcha]; rewrite ?zlen_insert; [done|done|done|lia|lia| |done|done|unfold LINE_END in *; lia| |].
  - intros k q Hq. destruct (decide (k = Z.to_nat r)) as [->|Hne].
    + rewrite list_lookup_insert_eq in Hq by (unfold zlen in Hr; lia). injection Hq as <-. cbn [h_ptr]. unfold LINE_END. lia.
    + rewrite list_lookup_insert_ne in Hq by done. specialize (Hrc _ _ Hq). unfold LINE_END in *. lia.
  - intros p Hpr. unfold LINE_END in *. rewrite Hlm by lia. case_decide; [done|]. apply Hm. lia.
  - intros p Hpr. unfold LINE_END in *. rewrite Hnp by lia. case_decide as Hd; [|by apply Hn]. right. unfold LINE_END. replace p with (lo - 1) by lia. split; [lia|done].
Qed.

Lemma new_line_spec lo ix tbl chain : hist_ok lo ix -> line1 <= lo - 1 -> lo - 1 <= e1 -> records ix !! Z.to_nat tbl = Some chain -> 0 <= tbl < zlen (records ix) ->
  exists ix', new_line ix (lo - 1) tbl chain = Ret ix' /\ hist_ok (lo - 1) ix'.
Proof.
  intros [Hb Hs Hsh Hml Hnl Hrc Hch Hnd Hct Hm Hn] Hlo Hhi Htbl Hin. unfold new_line. rewrite (wr_in (records ix) tbl) by done. run. rewrite Hsh. unfold LINE_END in *.
  destruct (wr_getk (line_map ix) (lo - 1 - line1) (zlen (rcha ix))) as (lm & -> & Hlml & Hlm); [lia|]. run. eexists. split; [done|]. pose proof (zlen_nonneg (rcha ix)) as Hz.
  split; cbn [table_bits records ptr_shift line_map next_ptrs rcha]; rewrite ?zlen_insert, ?zlen_app, ?zlen_cons, ?zlen_nil; [done|done|done|lia|lia| | | |unfold LINE_END in *; lia| |done].
  - intros k q Hq. unfold LINE_END in *. apply lookup_app_Some in Hq as [Hq|[_ Hq]]; [specialize (Hrc _ _ Hq); lia|]. apply list_lookup_singleton_Some in Hq as [_ <-]. cbn [h_ptr]. lia.
  - intros h ch r Hh Hr. destruct (decide (h = Z.to_nat tbl)) as [->|Hne].
    + rewrite list_lookup_insert_eq in Hh by (unfold zlen in Hin; lia). injection Hh as <-. apply elem_of_cons in Hr as [->|Hr]; [lia|]. specialize (Hch _ _ _ Htbl Hr). lia.
    + rewrite list_lookup_insert_ne in Hh by done. specialize (Hch _ _ _ Hh Hr). lia.
  - intros h ch Hh. destruct (decide (h = Z.to_nat tbl)) as [->|Hne]; [|rewrite list_lookup_insert_ne in Hh by done; by eapply Hnd]. rewrite list_lookup_insert_eq in Hh by (unfold zlen in Hin; lia). injection Hh as <-. constructor; [|by eapply Hnd]. intros Hr. specialize (Hch _ _ _ Htbl Hr). lia.
  - intros p Hpr. unfold LINE_END in *. rewrite Hlm by lia. case_decide; [lia|]. specialize (Hm p ltac:(lia)). lia.
Qed.

(** A chain has as many lines of the first file. *)
Lemma chain_count lo ix h chain : hist_ok lo ix -> records ix !! h = Some chain -> zlen chain <= e1 + 1 - lo.
Proof.
  intros Hok Hh. assert (chain ⊆+ seqZ 0 (zlen (rcha ix))) as Hsub.
  { apply NoDup_submseteq; [by eapply hi_nodup|]. intros r Hr. pose proof (hi_chain _ _ Hok _ _ _ Hh Hr). apply elem_of_seqZ. lia. }
  apply submseteq_length in Hsub. rewrite length_seqZ in Hsub. pose proof (hi_count _ _ Hok). pose proof (zlen_nonneg (rcha ix)). unfold zlen in *. lia.
Qed.

Lemma scanA_spec ix : 0 <= count1 -> hist_ok (e1 + 1) ix -> wp (scanA x1 ix line1 count1) (hist_ok line1) (fun e => e = Error /\ max_chain_length < count1).
Proof.
  intros Hc1 Hok. unfold scanA. apply (wp_loop (fun '(ptr, ix) => hist_ok (ptr + 1) ix /\ line1 - 1 <= ptr <= e1) (fun '(ptr, _) => ptr - line1 + 1)); [unfold LINE_END; split; [done|lia]|unfold LINE_END; lia| |unfold LINE_END; lia].
  clear ix Hok. intros [ptr ix] [Hok Hptr]. unfold scan_line. destruct (Z.leb_spec line1 ptr) as [Hle|Hgt]; cbn [negb wp]; [|by replace line1 with (ptr + 1) by lia].
  unfold LINE_END in Hptr. unfold TABLE_HASH. destruct (REC_spec x1 ptr) as (rec & -> & _); [lia|]. run. pose proof (xdl_hashlong_range (rec_ha rec) (table_bits ix) (hi_bits _ _ Hok)) as Hh. rewrite <-(hi_size _ _ Hok) in Hh. destruct (rd_in (records ix) _ Hh) as [chain Hchain]. rewrite Hchain. run. apply rd_Ret in Hchain as [_ Hchain].
  destruct (scan_chain_spec (ptr + 1) ix ptr chain Hok) as (f & -> & Hf); [lia|unfold LINE_END; lia|intros r Hr; by eapply (hi_chain _ _ Hok)|]. run.
  assert (forall c, (exists ix', c = Ret ix' /\ hist_ok ptr ix') -> wp (ix' ← c; Ret (inl (ptr - 1, ix'))) (fun r : Z * histindex + histindex => match r with inl s' => (let '(ptr, ix) := s' in hist_ok (ptr + 1) ix /\ line1 - 1 <= ptr <= e1) /\ 0 <= (let '(ptr, _) := s' in ptr - line1 + 1) < ptr - line1 + 1 | inr b => hist_ok line1 b end) (fun e => e = Error /\ max_chain_length < count1)) as Hnext.
  { intros c (ix' & -> & Hok'). run. cbn [wp]. unfold LINE_END. replace (ptr - 1 + 1) with ptr by lia. split; [split; [done|lia]|lia]. }
  assert (ptr + 1 - 1 = ptr) as Hpp by lia.
  destruct f as [r|].
  - destruct (Hf r eq_refl) as (Hr & q & Hq & Hp & Hc). pose proof (known_line_spec (ptr + 1) ix r q Hok) as Hk. rewrite Hpp in Hk. apply Hnext, Hk; [lia|unfold LINE_END; lia|done..].
  - destruct (Z.eqb_spec (zlen chain) max_chain_length) as [Hfull|]; [pose proof (chain_count _ _ _ _ Hok Hchain) as Hcc; unfold LINE_END in Hcc; split; [done|lia]|]. pose proof (new_line_spec (ptr + 1) ix (XDL_HASHLONG (rec_ha rec) (table_bits ix)) chain Hok) as Hk. rewrite Hpp in Hk. apply Hnext, Hk; [lia|unfold LINE_END; lia|done|done].
Qed.

(** ** Common parts *)

(** Two parts of as many lines, and the lines match. *)
Record common (lcs : region) : Prop := {
  common_1 : line1 <= begin1 lcs /\ begin1 lcs <= end1 lcs <= e1;
  common_2 : line2 <= begin2 lcs /\ end2 lcs <= e2;
  common_len : end1 lcs - begin1 lcs = end2 lcs - begin2 lcs;
  common_lines : forall k, begin1 lcs <= k <= end1 lcs -> lcls x1 k = lcls x2 (k + (begin2 lcs - begin1 lcs));
}.

Definition lcs_ok (lcs : region) : Prop := (begin1 lcs = 0 /\ begin2 lcs = 0) \/ common lcs.

Section index.
Context (ix : histindex) (Hok : hist_ok line1 ix).

Lemma CNT_spec p : line1 <= p <= e1 -> exists c, CNT ix p = Ret c.
Proof.
  intros Hp. unfold CNT. pose proof (hi_map _ _ Hok p Hp) as Hm. rewrite (hi_shift _ _ Hok). unfold LINE_END in Hp. rewrite rd_getk by (rewrite (hi_map_len _ _ Hok); lia). run. destruct (rd_hrec line1 ix _ Hok Hm) as (rec & -> & _). run. by eexists.
Qed.

Lemma NEXT_PTR_spec p : line1 <= p <= e1 -> exists np, NEXT_PTR ix p = Ret np /\ (np = 0 \/ (p < np <= e1 /\ lcls x1 np = lcls x1 p)).
Proof.
  intros Hp. unfold NEXT_PTR. pose proof (hi_next _ _ Hok p Hp) as Hn. rewrite (hi_shift _ _ Hok). unfold LINE_END in Hp. rewrite rd_getk by (rewrite (hi_next_len _ _ Hok); lia). by eexists.
Qed.

(** The lines match from [a] to [a'], and those from [b] on. *)
Lemma extend_common_spec dir a b rc : dir = -1 \/ dir = 1 -> line1 <= a <= e1 -> line2 <= b <= e2 -> lcls x1 a = lcls x2 b ->
  exists a' b' rc', loop (S (Z.to_nat count1)) (extend_step x1 x2 ix line1 count1 line2 count2 dir) (a, b, rc) = Ret (a', b', rc') /\ line1 <= a' <= e1 /\ line2 <= b' <= e2 /\ a' - a = b' - b /\ 0 <= dir * (a' - a) /\ forall k, Z.min a a' <= k <= Z.max a a' -> lcls x1 k = lcls x2 (k + (b - a)).
Proof.
  intros Hdir Ha Hb Heq. unfold LINE_END in *.
  destruct (loop_ret (fun '(a', b', _) => line1 <= a' <= line1 + count1 - 1 /\ line2 <= b' <= line2 + count2 - 1 /\ a' - a = b' - b /\ 0 <= dir * (a' - a) /\ forall k, Z.min a a' <= k <= Z.max a a' -> lcls x1 k = lcls x2 (k + (b - a)))
    (fun '(a', _, _) => if dir <? 0 then a' - line1 else line1 + count1 - 1 - a') (S (Z.to_nat count1)) (extend_step x1 x2 ix line1 count1 line2 count2 dir) (a, b, rc)
    (fun '(a', b', _) => line1 <= a' <= line1 + count1 - 1 /\ line2 <= b' <= line2 + count2 - 1 /\ a' - a = b' - b /\ 0 <= dir * (a' - a) /\ forall k, Z.min a a' <= k <= Z.max a a' -> lcls x1 k = lcls x2 (k + (b - a)))) as ([[a' b'] rc'] & -> & HQ).
  - intros [[a' b'] r] (H1 & H2 & H3 & H4 & H5). unfold extend_step, LINE_END. destruct (if dir <? 0 then _ else _) eqn:Ht; cbn [negb]; [|by eexists].
    assert (line1 <= a' + dir <= line1 + count1 - 1 /\ line2 <= b' + dir <= line2 + count2 - 1) as [Ha' Hb'].
    { destruct Hdir as [->| ->]; cbn [Z.ltb Z.compare] in Ht; apply andb_true_iff in Ht; rewrite !Z.ltb_lt in Ht; lia. }
    rewrite CMP_spec by lia. run. destruct (Z.eqb_spec (lcls x1 (a' + dir)) (lcls x2 (b' + dir))) as [Hc|]; cbn [negb]; [|by eexists].
    assert (exists r', (if 1 <? r then c ← CNT ix (a' + dir); Ret (Z.min r c) else Ret r) = Ret r') as [r' ->].
    { destruct (1 <? r); [|by eexists]. destruct (CNT_spec (a' + dir)) as [c ->]; [unfold LINE_END; lia|]. run. by eexists. }
    run. eexists. split; [done|]. cbv beta iota. split; [|destruct Hdir as [->| ->]; cbn [Z.ltb Z.compare]; lia]. split; [done|]. split; [done|]. split; [lia|]. split; [destruct Hdir as [->| ->]; lia|].
    intros k Hk. destruct (decide (k = a' + dir)) as [->|Hne]; [replace (a' + dir + (b - a)) with (b' + dir) by lia; done|]. apply H5. destruct Hdir as [->| ->]; lia.
  - split; [done|]. split; [done|]. split; [lia|]. split; [lia|]. intros k Hk. replace k with a by lia. by replace (a + (b - a)) with b by lia.
  - destruct Hdir as [->| ->]; cbn [Z.ltb Z.compare]; lia.
  - by exists a', b', rc'.
Qed.

Lemma next_loop ae a np : line1 <= a <= ae -> ae <= e1 -> np = 0 \/ (a < np <= e1 /\ lcls x1 np = lcls x1 a) -> np <> 0 ->
  exists np', loop (S (Z.to_nat count1)) (next_step ix ae) np = Ret np' /\ (np' = 0 \/ (ae < np' <= e1 /\ lcls x1 np' = lcls x1 a)).
Proof.
  intros Ha Hae Hnp Hnz. unfold LINE_END in *. apply (loop_ret (fun np => a < np <= line1 + count1 - 1 /\ lcls x1 np = lcls x1 a) (fun np => line1 + count1 - 1 - np)); [|lia|lia].
  intros p [Hp Hc]. unfold next_step. destruct (Z.leb_spec p ae); cbn [negb]; [|eexists; split; [done|]; right; split; [lia|done]].
  destruct (NEXT_PTR_spec p) as (q & -> & Hq); [unfold LINE_END; lia|]. run. destruct (Z.eqb_spec q 0); [eexists; split; [done|by left]|]. eexists. split; [done|]. unfold LINE_END in Hq. cbv beta iota. destruct Hq as [?|[Hq Hcq]]; [done|]. split; [|lia]. split; [lia|congruence].
Qed.
(** All occurrences of a line of the second file. *)
Lemma occurrences_spec b_ptr rc a b_next lcs cnt : line1 <= a <= e1 -> lcls x1 a = lcls x2 b_ptr -> line2 <= b_ptr <= e2 -> b_ptr < b_next <= e2 + 1 -> lcs_ok lcs ->
  exists b_next' lcs' cnt', loop (S (Z.to_nat count1)) (occurrence_step x1 x2 ix line1 count1 line2 count2 b_ptr rc) (a, b_next, lcs, cnt) = Ret (b_next', lcs', cnt') /\ b_ptr < b_next' <= e2 + 1 /\ lcs_ok lcs'.
Proof.
  intros Ha Hc Hb Hnext Hlcs.
  destruct (loop_ret (fun '(a, b_next, lcs, _) => line1 <= a <= e1 /\ lcls x1 a = lcls x2 b_ptr /\ b_ptr < b_next <= e2 + 1 /\ lcs_ok lcs) (fun '(a, _, _, _) => e1 - a) (S (Z.to_nat count1))
    (occurrence_step x1 x2 ix line1 count1 line2 count2 b_ptr rc) (a, b_next, lcs, cnt) (fun '(b_next, lcs, _) => b_ptr < b_next <= e2 + 1 /\ lcs_ok lcs)) as ([[b' l'] c'] & -> & HQ); [|done|unfold LINE_END in *; lia|by exists b', l', c'].
  clear a b_next lcs cnt Ha Hc Hnext Hlcs. intros [[[a b_next] lcs] cnt] (Ha & Hc & Hnext & Hlcs). unfold occurrence_step. destruct (NEXT_PTR_spec a Ha) as (np & -> & Hnp). run.
  destruct (extend_common_spec (-1) a b_ptr rc ltac:(by left) Ha Hb Hc) as (as_ & bs & rc1 & -> & Has & Hbs & Hd & Hdir & Hm). run.
  destruct (extend_common_spec 1 a b_ptr rc1 ltac:(by right) Ha Hb Hc) as (ae & be & rc2 & -> & Hae & Hbe & Hd' & Hdir' & Hm'). run.
  set (b_next' := if b_next <=? be then be + 1 else b_next). set (lcs' := if _ || _ then _ else lcs). set (cnt' := if _ || _ then rc2 else cnt).
  assert (b_ptr < b_next' <= e2 + 1) as Hnext' by (unfold b_next'; destruct (Z.leb_spec b_next be); lia).
  assert (lcs_ok lcs') as Hlcs'.
  { unfold lcs'. destruct (_ || _); [|done]. right. split; cbn [begin1 begin2 end1 end2]; [lia|lia|lia|]. intros k Hk. replace (bs - as_) with (b_ptr - a) by lia. destruct (Z.le_gt_cases k a); [apply Hm|apply Hm']; lia. }
  clearbody b_next' lcs' cnt'. destruct (Z.eqb_spec np 0) as [->|Hnz]; [by eexists|].
  destruct (next_loop ae a np ltac:(lia) ltac:(lia) Hnp Hnz) as (np' & -> & Hnp'). run. destruct (Z.eqb_spec np' 0); [by eexists|]. eexists. split; [done|]. cbv beta iota. destruct Hnp' as [?|[Hr Hcr]]; [done|]. split; [|lia]. split; [lia|]. split; [congruence|done].
Qed.

Lemma try_chain_spec b_ptr chain : line2 <= b_ptr <= e2 -> (forall r, r ∈ chain -> 0 <= r < zlen (rcha ix)) -> forall b_next lcs cnt common_, b_ptr < b_next <= e2 + 1 -> lcs_ok lcs ->
  exists b_next' lcs' cnt' common', try_chain x1 x2 ix line1 count1 line2 count2 b_ptr chain (b_next, lcs, cnt, common_) = Ret (b_next', lcs', cnt', common') /\ b_ptr < b_next' <= e2 + 1 /\ lcs_ok lcs'.
Proof.
  intros Hb. induction chain as [|r chain IH]; intros Hch b_next lcs cnt common_ Hnext Hlcs; cbn [try_chain]; [by exists b_next, lcs, cnt, common_|].
  specialize (IH (fun r' Hr' => Hch r' (list_elem_of_further _ _ _ Hr'))). destruct (rd_hrec line1 ix r Hok (Hch r (list_elem_of_here _ _))) as (rec & -> & _ & Hp). run.
  assert (CMP x1 (h_ptr rec) x2 b_ptr = Ret (lcls x1 (h_ptr rec) =? lcls x2 b_ptr)) as Hcmp by (unfold LINE_END in *; apply CMP_spec; lia). destruct (h_cnt rec >? cnt).
  - rewrite Hcmp. destruct common_; run; by apply IH.
  - rewrite Hcmp. run. destruct (Z.eqb_spec (lcls x1 (h_ptr rec)) (lcls x2 b_ptr)) as [Hc|]; cbn [negb]; [|by apply IH].
    destruct (occurrences_spec b_ptr (h_cnt rec) (h_ptr rec) b_next lcs cnt Hp Hc Hb Hnext Hlcs) as (b' & l' & c' & -> & Hb' & Hl'). run. by apply IH.
Qed.

Lemma lcs_loop lcs cnt : lcs_ok lcs -> line2 <= e2 + 1 ->
  exists lcs' cnt' common', loop (S (Z.to_nat count2)) (lcs_step x1 x2 ix line1 count1 line2 count2) (line2, lcs, cnt, false) = Ret (lcs', cnt', common') /\ lcs_ok lcs'.
Proof.
  intros Hlcs Hle. destruct (loop_ret (fun '(b, lcs, _, _) => line2 <= b <= e2 + 1 /\ lcs_ok lcs) (fun '(b, _, _, _) => e2 + 1 - b) (S (Z.to_nat count2)) (lcs_step x1 x2 ix line1 count1 line2 count2) (line2, lcs, cnt, false) (fun '(lcs, _, _) => lcs_ok lcs))
    as ([[l' c'] h'] & -> & HQ); [|split; [lia|done]|unfold LINE_END in *; lia|by exists l', c', h'].
  clear lcs cnt Hlcs. intros [[[b lcs] cnt] common_] [Hb Hlcs]. unfold lcs_step. destruct (Z.leb_spec b e2) as [Hbe|]; cbn [negb]; [|by eexists].
  unfold try_lcs, TABLE_HASH. destruct (REC_spec x2 b) as (rec & -> & _); [unfold LINE_END in *; lia|]. run. pose proof (xdl_hashlong_range (rec_ha rec) (table_bits ix) (hi_bits _ _ Hok)) as Hh. rewrite <-(hi_size _ _ Hok) in Hh. destruct (rd_in (records ix) _ Hh) as [chain Hchain]. rewrite Hchain. run. apply rd_Ret in Hchain as [_ Hchain].
  destruct (try_chain_spec b chain ltac:(lia) ltac:(intros r Hr; by eapply (hi_chain _ _ Hok)) (b + 1) lcs cnt common_ ltac:(lia) Hlcs) as (b' & l' & c' & h' & -> & Hb' & Hl'). run. eexists. split; [done|]. cbv beta iota. split; [split; [lia|done]|lia].
Qed.
End index.

Lemma find_lcs_spec : 1 <= count1 <= 2 ^ 30 -> 1 <= count2 -> wp (find_lcs x1 x2 (Region 0 0 0 0) line1 count1 line2 count2) (fun '(lcs, _) => lcs_ok lcs) (fun e => e = Error /\ max_chain_length < count1).
Proof.
  intros Hc1 Hc2. unfold find_lcs. rewrite u32_small by lia. destruct (hashbits_spec count1 ltac:(lia)) as (bits & -> & Hbits). run. unfold hash_size. rewrite (proj2 (Z.ltb_lt bits 31)) by lia. run. apply wp_bind. eapply wp_mono; [apply scanA_spec; [lia|]| |done].
  - pose proof (Z.pow_pos_nonneg 2 bits ltac:(lia) ltac:(lia)) as Hp. split; cbn [table_bits records ptr_shift line_map next_ptrs rcha]; unfold LINE_END; [lia|rewrite zlen_replicate; lia|done|rewrite zlen_replicate; lia|rewrite zlen_replicate; lia|intros r rec Hr; by rewrite lookup_nil in Hr| | |rewrite zlen_nil; lia|intros; lia|intros; left; apply getk_replicate].
    + intros h chain r Hh Hr. apply lookup_replicate_1 in Hh as [-> _]. by apply elem_of_nil in Hr.
    + intros h chain Hh. apply lookup_replicate_1 in Hh as [-> _]. constructor.
  - intros ix Hok. cbv beta. destruct (lcs_loop ix Hok (Region 0 0 0 0) (max_chain_length + 1)) as (l' & c' & h' & -> & Hl); [by left|unfold LINE_END; lia|]. done.
Qed.
End lines.

(** * The recursion *)

Section recursion.
Context `{XdiffHOk} {A : Type} (x1 x2 : xdfile) (do_diff : list Z -> list Z -> xpparam -> outcome xdfenv) (xpp : xpparam) (lo1 lo2 : Z -> A).
Context (Hlo : forall i j, 0 <= i < nrec x1 -> 0 <= j < nrec x2 -> cls x1 i = cls x2 j -> lo1 i = lo2 j).
Context (Hsize : nrec x1 <= 2 ^ 30).
Context (Hfall : forall line1 count1 line2 count2 r1 r2, 1 <= line1 -> 1 <= count1 -> line1 - 1 + count1 <= nrec x1 -> 1 <= line2 -> 1 <= count2 -> line2 - 1 + count2 <= nrec x2 -> zlen r1 = nrec x1 + 2 -> zlen r2 = nrec x2 + 2 ->
  exists r1' r2', xdl_fall_back_diff do_diff x1 x2 (classic_param xpp) line1 count1 line2 count2 (r1, r2) = Ret (r1', r2') /\ covers lo1 lo2 (line1 - 1) count1 (line2 - 1) count2 r1 r2 r1' r2').

Lemma mark_both line1 count1 line2 count2 r1 r2 : 1 <= line1 -> 0 <= count1 -> line1 - 1 + count1 <= nrec x1 -> 1 <= line2 -> 0 <= count2 -> line2 - 1 + count2 <= nrec x2 -> zlen r1 = nrec x1 + 2 -> zlen r2 = nrec x2 + 2 ->
  exists r1' r2', mark_lines r1 line1 count1 = Ret r1' /\ mark_lines r2 line2 count2 = Ret r2' /\ covers lo1 lo2 (line1 - 1) count1 (line2 - 1) count2 r1 r2 r1' r2'.
Proof.
  intros Hl1 Hc1 Hin1 Hl2 Hc2 Hin2 Hr1 Hr2. destruct (mark_lines_spec r1 line1 count1) as (r1' & H1 & Hlen1 & Hm1); [lia..|]. destruct (mark_lines_spec r2 line2 count2) as (r2' & H2 & Hlen2 & Hm2); [lia..|].
  exists r1', r2'. split; [done|]. split; [done|]. apply covers_all; (done || lia).
Qed.

Lemma mark_none r line : mark_lines r line 0 = Ret r.
Proof. done. Qed.

(** What comes before a common part, the part itself, and what comes behind it. *)
Lemma covers_around line1 count1 line2 count2 lcs r1 r2 s1 s2 t1 t2 : 1 <= line1 -> line1 - 1 + count1 <= nrec x1 -> 1 <= line2 -> line2 - 1 + count2 <= nrec x2 -> common x1 x2 line1 count1 line2 count2 lcs -> clear r1 (line1 - 1) count1 -> clear r2 (line2 - 1) count2 ->
  covers lo1 lo2 (line1 - 1) (begin1 lcs - line1) (line2 - 1) (begin2 lcs - line2) r1 r2 s1 s2 ->
  covers lo1 lo2 (end1 lcs) (LINE_END line1 count1 - end1 lcs) (end2 lcs) (LINE_END line2 count2 - end2 lcs) s1 s2 t1 t2 ->
  covers lo1 lo2 (line1 - 1) count1 (line2 - 1) count2 r1 r2 t1 t2.
Proof.
  intros Hl1 Hin1 Hl2 Hin2 [Hb1 Hb2 Hlen Hlines] Hclr1 Hclr2 Hpre Hpost. unfold LINE_END in *. pose proof Hpre as [_ _ Ho1 Ho2 _].
  replace count1 with (begin1 lcs - line1 + (end1 lcs + 1 - begin1 lcs + (line1 + count1 - 1 - end1 lcs))) by lia. replace count2 with (begin2 lcs - line2 + (end1 lcs + 1 - begin1 lcs + (line2 + count2 - 1 - end2 lcs))) by lia.
  eapply covers_app; [lia..|exact Hpre|]. replace (line1 - 1 + (begin1 lcs - line1)) with (begin1 lcs - 1) by lia. replace (line2 - 1 + (begin2 lcs - line2)) with (begin2 lcs - 1) by lia. apply covers_front; [lia..| | | |].
  - intros i Hi. rewrite Ho1 by lia. apply Hclr1. lia.
  - intros i Hi. rewrite Ho2 by lia. apply Hclr2. lia.
  - intros k Hk. apply Hlo; [lia|lia|]. specialize (Hlines (begin1 lcs + k) ltac:(lia)). unfold lcls in Hlines. replace (begin1 lcs + k - 1) with (begin1 lcs - 1 + k) in Hlines by lia. by replace (begin1 lcs + k + (begin2 lcs - begin1 lcs) - 1) with (begin2 lcs - 1 + k) in Hlines by lia.
  - replace (begin1 lcs - 1 + (end1 lcs + 1 - begin1 lcs)) with (end1 lcs) by lia. by replace (begin2 lcs - 1 + (end1 lcs + 1 - begin1 lcs)) with (end2 lcs) by lia.
Qed.

Lemma histogram_spec fuel : forall line1 count1 line2 count2 r1 r2, (Z.to_nat count1 < fuel)%nat -> 1 <= line1 -> 0 <= count1 -> line1 - 1 + count1 <= nrec x1 -> 1 <= line2 -> 0 <= count2 -> line2 - 1 + count2 <= nrec x2 -> zlen r1 = nrec x1 + 2 -> zlen r2 = nrec x2 + 2 ->
  clear r1 (line1 - 1) count1 -> clear r2 (line2 - 1) count2 ->
  wp (histogram_diff x1 x2 do_diff xpp fuel line1 count1 line2 count2 (r1, r2)) (fun '(r1', r2') => covers lo1 lo2 (line1 - 1) count1 (line2 - 1) count2 r1 r2 r1' r2') (fun e => e = Error /\ max_chain_length < nrec x1).
Proof.
  induction fuel as [|fuel IH]; intros line1 count1 line2 count2 r1 r2 Hfuel Hl1 Hc1 Hin1 Hl2 Hc2 Hin2 Hr1 Hr2 Hclr1 Hclr2; [lia|]. cbn [histogram_diff].
  destruct (mark_both line1 count1 line2 count2 r1 r2) as (m1 & m2 & Hm1 & Hm2 & Hall); [done..|].
  destruct (Z.leb_spec count1 0), (Z.leb_spec count2 0); cbn [andb]; [assert (count1 = 0) as -> by lia; assert (count2 = 0) as -> by lia; rewrite mark_none in Hm1, Hm2; injection Hm1 as <-; by injection Hm2 as <-|..].
  all: unfold LINE_END at 1; rewrite u32_small, Z.geb_leb by lia; rewrite (proj2 (Z.leb_gt MAX_PTR (line1 + count1 - 1))) by (unfold MAX_PTR; lia).
  - assert (count1 = 0) as -> by lia. rewrite mark_none in Hm1. injection Hm1 as <-. cbn [tru Z.eqb negb]. rewrite Hm2. done.
  - assert (count2 = 0) as -> by lia. rewrite mark_none in Hm2. injection Hm2 as <-. assert (tru count1 = true) as -> by (apply tru_true; lia). cbn [tru Z.eqb negb]. rewrite Hm1. done.
  - assert (tru count1 = true) as -> by (apply tru_true; lia). assert (tru count2 = true) as -> by (apply tru_true; lia). cbn [negb]. apply wp_bind. eapply wp_mono; [apply find_lcs_spec; lia| |intros e [-> ?]; split; [done|lia]].
    intros [lcs found] Hlcs. destruct found; [destruct (Hfall line1 count1 line2 count2 r1 r2) as (r1' & r2' & -> & Hcov); [lia..|done]|].
    destruct Hlcs as [[-> ->]|Hcom]; [cbn [Z.eqb andb]; rewrite Hm1; run; rewrite Hm2; done|]. pose proof Hcom as [Hb1 Hb2 Hlen _]. unfold LINE_END in Hb1, Hb2.
    rewrite (proj2 (Z.eqb_neq (begin1 lcs) 0)) by lia. cbn [andb]. apply wp_bind. eapply wp_mono; [apply IH; [lia..| |]|  |done].
    + intros i Hi. apply Hclr1. lia.
    + intros i Hi. apply Hclr2. lia.
    + intros [s1 s2] Hpre. pose proof Hpre as [Hs1 Hs2 Ho1 Ho2 _]. eapply wp_mono; [apply IH; unfold LINE_END; [lia..| |]| |done].
      * intros i Hi. rewrite Ho1 by lia. apply Hclr1. lia.
      * intros i Hi. rewrite Ho2 by lia. apply Hclr2. lia.
      * intros [t1 t2] Hpost. eapply covers_around; [done..|]. by replace (end1 lcs + 1 - 1) with (end1 lcs) in Hpost by lia; replace (end2 lcs + 1 - 1) with (end2 lcs) in Hpost by lia.
Qed.

(** Whole files without marks. *)
Lemma do_histogram_spec : unmarked_file x1 -> unmarked_file x2 ->
  wp (xdl_do_histogram_diff x1 x2 do_diff xpp) (fun xe => exists r1 r2, xe = XdfEnv (set_rchg r1 x1) (set_rchg r2 x2) /\ covers lo1 lo2 0 (nrec x1) 0 (nrec x2) (rchg x1) (rchg x2) r1 r2) (fun e => e = Error /\ max_chain_length < nrec x1).
Proof.
  intros [Hr1 Hs1 He1] [Hr2 Hs2 He2]. pose proof (zlen_nonneg (recs x1)) as Hn1. pose proof (zlen_nonneg (recs x2)) as Hn2. fold (nrec x1) in Hn1. fold (nrec x2) in Hn2. unfold xdl_do_histogram_diff. rewrite Hs1, Hs2, He1, He2. apply wp_bind. eapply wp_mono; [apply histogram_spec| |done].
  1-7: lia. 1-2: rewrite ?Hr1, ?Hr2, zlen_replicate; lia. 1-2: intros i Hi; rewrite ?Hr1, ?Hr2; apply getk_replicate.
  intros [r1 r2] Hcov. cbn [wp]. exists r1, r2. split; [done|]. by replace (nrec x1 - 1 - 0 + 1) with (nrec x1) in Hcov by lia; replace (nrec x2 - 1 - 0 + 1) with (nrec x2) in Hcov by lia.
Qed.
End recursion.
