(* ===== verification/XdiffPatience.v ===== *)
(** xdiff_xpatience.c: the patience algorithm, which takes the lines that are unique in both
    files as common lines and goes on between them.  Lines are numbered from 1. *)
From S2P Require Import Prelude XdiffFile XdiffUtils XdiffPrepare XdiffRange XdiffHistogram.

(** * Model *)

(** [struct entry], known by its place in [entries]; NULL is -1. *)
Record entry := Entry { e_hash : Z; e_line1 : Z; e_line2 : Z; e_next : Z; e_previous : Z; e_anchor : bool }.

(** [struct hashmap] *)
Record hashmap := HashMap { map_nr : Z; map_alloc : Z; entries : list entry; first : Z; last_ : Z; has_matches : bool }.

Definition NON_UNIQUE : Z := 2 ^ 64 - 1.

(** What [calloc] leaves in an entry. *)
Definition entry0 : entry := Entry 0 0 0 (-1) (-1) false.

Definition set_line2 (v : Z) (e : entry) : entry := Entry (e_hash e) (e_line1 e) v (e_next e) (e_previous e) (e_anchor e).
Definition set_next (v : Z) (e : entry) : entry := Entry (e_hash e) (e_line1 e) (e_line2 e) v (e_previous e) (e_anchor e).
Definition set_previous (v : Z) (e : entry) : entry := Entry (e_hash e) (e_line1 e) (e_line2 e) (e_next e) v (e_anchor e).

(** [p->field = v] *)
Definition update (es : list entry) (p : Z) (f : entry -> entry) : outcome (list entry) := e ← rd es p; wr es p (f e).

Section model.
Context `{XdiffH} (x1 x2 : xdfile) (xpp : xpparam).

(** [strncmp] with an anchor, which has no NUL, on the memory from the line on; it does not
    match where the file ends before the anchor does. *)
Definition is_anchor (line : list Z) : bool := existsb (fun anchor => bool_decide (anchor `prefix_of` line)) (anchors xpp).

Definition memory_at (xdf : xdfile) (line : Z) : list Z := concat (drop (Z.to_nat (line - 1)) (rec_line <$> recs xdf)).

(** ** The lines of the first file *)

(** The entry of a hash, and whether it is in use. *)
Definition probe_step (map : hashmap) (ha : Z) (index : Z) : outcome (Z + Z * bool) :=
  e ← rd (entries map) index;
  if negb (tru (e_line1 e)) then Ret (inr (index, false)) else
  if negb (e_hash e =? ha) then Ret (inl (if index + 1 >=? map_alloc map then 0 else index + 1)) else
  Ret (inr (index, true)).

Definition insert_record (pass : Z) (line : Z) (map : hashmap) : outcome hashmap :=
  record ← REC (if pass =? 1 then x1 else x2) line;
  '(index, found) ← loop (S (Z.to_nat (map_alloc map))) (probe_step map (rec_ha record)) (u64 (rec_ha record * 2) mod map_alloc map);
  if (found : bool) then
    e ← rd (entries map) index;
    let line2 := if (pass =? 1) || tru (e_line2 e) then NON_UNIQUE else line in
    entries ← wr (entries map) index (set_line2 line2 e);
    Ret (HashMap (map_nr map) (map_alloc map) entries (first map) (last_ map) (if pass =? 2 then true else has_matches map))
  else if pass =? 2 then Ret map else
    _ ← REC x1 line;
    e ← rd (entries map) index;
    let e := Entry (rec_ha record) line (e_line2 e) (e_next e) (e_previous e) (is_anchor (memory_at x1 line)) in
    entries ← wr (entries map) index e;
    let first := if first map =? -1 then index else first map in
    entries ← (if last_ map =? -1 then Ret entries else
                 entries ← update entries (last_ map) (set_next index);
                 update entries index (set_previous (last_ map)));
    Ret (HashMap (map_nr map + 1) (map_alloc map) entries first index (has_matches map)).

Definition fill_hashmap (line1 count1 line2 count2 : Z) : outcome hashmap :=
  let map := HashMap 0 (count1 * 2) (replicate (Z.to_nat (count1 * 2)) entry0) (-1) (-1) false in
  map ← for_n (Z.to_nat count1) line1 (insert_record 1) map;
  for_n (Z.to_nat count2) line2 (insert_record 2) map.

(** ** The longest common sequence *)

Definition search_step (es : list entry) (sequence : list Z) (line2 : Z) (st : Z * Z) : outcome ((Z * Z) + Z) :=
  let '(lft, rgt) := st in
  if negb (lft + 1 <? rgt) then Ret (inr lft) else
  let middle := lft + (rgt - lft) / 2 in
  p ← rd sequence middle;
  e ← rd es p;
  Ret (inl (if e_line2 e >? line2 then (lft, middle) else (middle, rgt))).

Definition binary_search (es : list entry) (sequence : list Z) (longest : Z) (e : entry) : outcome Z :=
  loop (S (Z.to_nat longest)) (search_step es sequence (e_line2 e)) (-1, longest).

(** One entry, on it, the entries, [sequence], [longest] and [anchor_i]. *)
Definition sequence_step (st : Z * list entry * list Z * Z * Z) : outcome ((Z * list entry * list Z * Z * Z) + (list entry * list Z * Z)) :=
  let '(p, es, sequence, longest, anchor_i) := st in
  if p =? -1 then Ret (inr (es, sequence, longest)) else
  e ← rd es p;
  if negb (tru (e_line2 e)) || (e_line2 e =? NON_UNIQUE) then Ret (inl (e_next e, es, sequence, longest, anchor_i)) else
  i ← binary_search es sequence longest e;
  previous ← (if i <? 0 then Ret (-1) else rd sequence i);
  es ← wr es p (set_previous previous e);
  let i := i + 1 in
  if i <=? anchor_i then Ret (inl (e_next e, es, sequence, longest, anchor_i)) else
  sequence ← wr sequence i p;
  let '(longest, anchor_i) := if e_anchor e then (i + 1, i) else if i =? longest then (longest + 1, anchor_i) else (longest, anchor_i) in
  Ret (inl (e_next e, es, sequence, longest, anchor_i)).

(** [while (entry->previous)], on the entry and the entries. *)
Definition link_step (st : Z * list entry) : outcome ((Z * list entry) + (Z * list entry)) :=
  let '(p, es) := st in
  e ← rd es p;
  if e_previous e =? -1 then Ret (inr (p, es)) else
  es ← update es (e_previous e) (set_next p);
  Ret (inl (e_previous e, es)).

(** The first entry of the sequence, and the entries.  An element that is not set is -1. *)
Definition find_longest_common_sequence (map : hashmap) : outcome (Z * list entry) :=
  let sequence := replicate (Z.to_nat (map_nr map)) (-1) in
  '(es, sequence, longest) ← loop (S (Z.to_nat (map_nr map))) sequence_step (first map, entries map, sequence, 0, -1);
  if negb (tru longest) then Ret (-1, es) else
  p ← rd sequence (longest - 1);
  es ← update es p (set_next (-1));
  loop (S (Z.to_nat (map_nr map))) link_step (p, es).

(** ** Between common lines *)

Definition match_ (line1 line2 : Z) : outcome bool := CMP x1 line1 x2 line2.

Definition grow_back (line1 line2 : Z) (st : Z * Z) : outcome ((Z * Z) + (Z * Z)) :=
  let '(next1, next2) := st in
  if negb ((next1 >? line1) && (next2 >? line2)) then Ret (inr st) else
  same ← match_ (next1 - 1) (next2 - 1);
  Ret (if (same : bool) then inl (next1 - 1, next2 - 1) else inr st).

Definition grow_forward (next1 next2 : Z) (st : Z * Z) : outcome ((Z * Z) + (Z * Z)) :=
  let '(line1, line2) := st in
  if negb ((line1 <? next1) && (line2 <? next2)) then Ret (inr st) else
  same ← match_ line1 line2;
  Ret (if (same : bool) then inl (line1 + 1, line2 + 1) else inr st).

(** The last entry of the neighbours that follow [first]. *)
Definition skip_entry (es : list entry) (first : Z) : outcome (Z + entry) :=
  e ← rd es first;
  if e_next e =? -1 then Ret (inr e) else
  e' ← rd es (e_next e);
  Ret (if (e_line1 e' =? e_line1 e + 1) && (e_line2 e' =? e_line2 e + 1) then inl (e_next e) else inr e).

Section walk.
Context (patience_diff : Z -> Z -> Z -> Z -> list Z * list Z -> outcome (list Z * list Z)) (es : list entry) (count1 end1 end2 : Z).

(** One round of the loop, on [first], [line1], [line2] and both marks. *)
Definition walk_step (st : Z * Z * Z * (list Z * list Z)) : outcome ((Z * Z * Z * (list Z * list Z)) + list Z * list Z) :=
  let '(first, line1, line2, rchg) := st in
  '(next1, next2) ← (if first =? -1 then Ret (end1, end2) else
                       e ← rd es first;
                       loop (S (Z.to_nat count1)) (grow_back line1 line2) (e_line1 e, e_line2 e));
  '(line1, line2) ← loop (S (Z.to_nat count1)) (grow_forward next1 next2) (line1, line2);
  rchg ← (if (next1 >? line1) || (next2 >? line2) then patience_diff line1 (next1 - line1) line2 (next2 - line2) rchg else Ret rchg);
  if first =? -1 then Ret (inr rchg) else
  e ← loop (S (Z.to_nat count1)) (skip_entry es) first;
  Ret (inl (e_next e, e_line1 e + 1, e_line2 e + 1, rchg)).
End walk.

Definition walk_common_sequence (patience_diff : Z -> Z -> Z -> Z -> list Z * list Z -> outcome (list Z * list Z)) (es : list entry) (first line1 count1 line2 count2 : Z) (rchg : list Z * list Z) : outcome (list Z * list Z) :=
  loop (S (S (Z.to_nat count1))) (walk_step patience_diff es count1 (line1 + count1) (line2 + count2)) (first, line1, line2, rchg).

Context (do_diff : list Z -> list Z -> xpparam -> outcome xdfenv).

Fixpoint patience_diff (fuel : nat) (line1 count1 line2 count2 : Z) (st : list Z * list Z) : outcome (list Z * list Z) :=
  match fuel with
  | O => Undef
  | Datatypes.S fuel =>
      let '(rchg1, rchg2) := st in
      if negb (tru count1) then rchg2 ← mark_lines rchg2 line2 count2; Ret (rchg1, rchg2) else
      if negb (tru count2) then rchg1 ← mark_lines rchg1 line1 count1; Ret (rchg1, rchg2) else
      map ← fill_hashmap line1 count1 line2 count2;
      if negb (has_matches map) then
        rchg1 ← mark_lines rchg1 line1 count1;
        rchg2 ← mark_lines rchg2 line2 count2;
        Ret (rchg1, rchg2)
      else
        '(first, es) ← find_longest_common_sequence map;
        if negb (first =? -1) then walk_common_sequence (patience_diff fuel) es first line1 count1 line2 count2 st
        else xdl_fall_back_diff do_diff x1 x2 (classic_param xpp) line1 count1 line2 count2 st
  end.

Definition xdl_do_patience_diff : outcome xdfenv :=
  '(rchg1, rchg2) ← patience_diff (S (Z.to_nat (nrec x1))) 1 (nrec x1) 1 (nrec x2) (rchg x1, rchg x2);
  Ret (XdfEnv (set_rchg rchg1 x1) (set_rchg rchg2 x2)).
End model.

(** * Entries *)

Definition ent (es : list entry) (p : Z) : entry := default entry0 (es !! Z.to_nat p).

Lemma rd_ent es p : 0 <= p < zlen es -> rd es p = Ret (ent es p).
Proof.
  intros Hp. destruct (rd_in es p Hp) as [e He]. rewrite He. apply rd_Ret in He as [_ He]. unfold ent. by rewrite He.
Qed.

Lemma wr_ent es p e : 0 <= p < zlen es -> exists es', wr es p e = Ret es' /\ zlen es' = zlen es /\ forall q, 0 <= q -> ent es' q = if decide (q = p) then e else ent es q.
Proof.
  intros Hp. rewrite wr_in by done. eexists. split; [done|]. split; [apply zlen_insert|]. intros q Hq. unfold ent. case_decide as Hqp.
  - subst q. rewrite list_lookup_insert_eq; [done|]. unfold zlen in Hp. lia.
  - rewrite list_lookup_insert_ne; [done|]. lia.
Qed.

Lemma update_ent es p f : 0 <= p < zlen es -> exists es', update es p f = Ret es' /\ zlen es' = zlen es /\ forall q, 0 <= q -> ent es' q = if decide (q = p) then f (ent es p) else ent es q.
Proof. intros Hp. unfold update. rewrite rd_ent by done. run. by apply wr_ent. Qed.

(** The list from [e] on by [next] is [l], in the order of the first file. *)
Fixpoint linked (es : list entry) (lo e : Z) (l : list Z) : Prop :=
  match l with
  | [] => e = -1
  | p :: l => e = p /\ 0 <= p < zlen es /\ lo < e_line1 (ent es p) /\ linked es (e_line1 (ent es p)) (e_next (ent es p)) l
  end.

(** The chain from [p] back by [previous] is in the order of both files. *)
Fixpoint back (es : list entry) (hi1 hi2 p : Z) (l : list Z) : Prop :=
  match l with
  | [] => p = -1
  | q :: l => p = q /\ 0 <= p < zlen es /\ e_line1 (ent es p) < hi1 /\ e_line2 (ent es p) < hi2 /\ back es (e_line1 (ent es p)) (e_line2 (ent es p)) (e_previous (ent es p)) l
  end.

(** The same chain by [next]. *)
Fixpoint forth (es : list entry) (lo1 lo2 p : Z) (l : list Z) : Prop :=
  match l with
  | [] => p = -1
  | q :: l => p = q /\ 0 <= p < zlen es /\ lo1 < e_line1 (ent es p) /\ lo2 < e_line2 (ent es p) /\ forth es (e_line1 (ent es p)) (e_line2 (ent es p)) (e_next (ent es p)) l
  end.

Lemma linked_in es l : forall lo e p, linked es lo e l -> p ∈ l -> 0 <= p < zlen es /\ lo < e_line1 (ent es p).
Proof.
  induction l as [|q l IH]; intros lo e p; cbn [linked]; [by intros _ ?%elem_of_nil|]. intros (_ & Hq & Hlo & Hl) [->|Hp]%elem_of_cons; [done|]. destruct (IH _ _ _ Hl Hp). split; [done|lia].
Qed.

Lemma entries_linked_ext es es' l : zlen es' = zlen es -> forall lo e, (forall p, p ∈ l -> e_line1 (ent es' p) = e_line1 (ent es p) /\ e_next (ent es' p) = e_next (ent es p)) -> linked es lo e l -> linked es' lo e l.
Proof.
  intros Hlen. induction l as [|q l IH]; intros lo e Hx; cbn [linked]; [done|]. destruct (Hx q (list_elem_of_here _ _)) as [-> ->]. intros (-> & Hq & Hlo & Hl). split; [done|]. split; [lia|]. split; [done|]. apply IH; [|done]. intros p Hp. apply Hx. by apply list_elem_of_further.
Qed.

Lemma linked_nodup es l : forall lo e, linked es lo e l -> NoDup l.
Proof.
  induction l as [|q l IH]; intros lo e; cbn [linked]; [constructor|]. intros (_ & _ & _ & Hl). constructor; [|by eapply IH]. intros Hq. pose proof (linked_in _ _ _ _ _ Hl Hq). lia.
Qed.

(** A new entry at the end. *)
Lemma linked_snoc es es' n l : zlen es' = zlen es -> 0 <= n < zlen es -> e_next (ent es' n) = -1 -> forall lo e, linked es lo e l -> n ∉ l -> lo < e_line1 (ent es' n) -> (forall p, p ∈ l -> e_line1 (ent es p) < e_line1 (ent es' n)) ->
  (forall p, p ∈ l -> e_line1 (ent es' p) = e_line1 (ent es p) /\ e_next (ent es' p) = if decide (last l = Some p) then n else e_next (ent es p)) ->
  linked es' lo (if decide (l = []) then n else e) (l ++ [n]).
Proof.
  intros Hlen Hn Hnn. induction l as [|q l IH]; intros lo e Hl Hnot Hlo Hlt Hx; cbn [linked app]; [cbn; split; [done|]; split; [lia|done]|]. rewrite decide_False by done. cbn [linked] in Hl. destruct Hl as (-> & Hq & Hloq & Hl). apply not_elem_of_cons in Hnot as [Hne Hnot].
  destruct (Hx q (list_elem_of_here _ _)) as [He Hnq]. split; [done|]. split; [lia|]. rewrite He. split; [done|]. pose proof (linked_nodup es l _ _ Hl) as Hnd. destruct l as [|r l].
  - rewrite decide_True in Hnq by done. rewrite Hnq. cbn [app linked]. split; [done|]. split; [lia|]. split; [apply Hlt, list_elem_of_here|done].
  - pose proof (linked_in _ _ _ _ q Hl) as Hqin. rewrite decide_False in Hnq.
    + rewrite Hnq. specialize (IH (e_line1 (ent es q)) (e_next (ent es q)) Hl Hnot). rewrite decide_False in IH by done. apply IH; [apply Hlt, list_elem_of_here|intros p Hp; apply Hlt; by apply list_elem_of_further|]. intros p Hp. apply (Hx p). by apply list_elem_of_further.
    + rewrite last_cons. destruct (last (r :: l)) as [z|] eqn:Ez; [|by apply last_None in Ez]. intros [= ->]. assert (q ∈ r :: l) as Hin by (apply last_Some in Ez as [l' ->]; apply elem_of_app; right; apply list_elem_of_here). specialize (Hqin Hin). lia.
Qed.

Lemma back_ext es es' l : zlen es' = zlen es -> forall hi1 hi2 p, (forall q, 0 <= q -> e_line1 (ent es q) < hi1 -> e_line1 (ent es' q) = e_line1 (ent es q) /\ e_line2 (ent es' q) = e_line2 (ent es q) /\ e_previous (ent es' q) = e_previous (ent es q)) ->
  back es hi1 hi2 p l -> back es' hi1 hi2 p l.
Proof.
  intros Hlen. induction l as [|r l IH]; intros hi1 hi2 p Hx; cbn [back]; [done|]. intros (-> & Hr & H1 & H2 & Hb). destruct (Hx r ltac:(lia) H1) as (-> & -> & ->). split; [done|]. split; [lia|]. split; [done|]. split; [done|]. apply IH; [|done]. intros q Hq Hlt. apply Hx; lia.
Qed.

Lemma back_weaken es l hi1 hi2 p hi1' hi2' : back es hi1 hi2 p l -> (p <> -1 -> e_line1 (ent es p) < hi1' /\ e_line2 (ent es p) < hi2') -> back es hi1' hi2' p l.
Proof. destruct l as [|q l]; cbn [back]; [done|]. intros (-> & Hq & _ & _ & Hb) Hp. destruct (Hp ltac:(lia)). done. Qed.

Lemma forth_in es l : forall lo1 lo2 p q, forth es lo1 lo2 p l -> q ∈ l -> 0 <= q < zlen es /\ lo1 < e_line1 (ent es q) /\ lo2 < e_line2 (ent es q).
Proof.
  induction l as [|r l IH]; intros lo1 lo2 p q; cbn [forth]; [by intros _ ?%elem_of_nil|]. intros (-> & Hr & H1 & H2 & Hl) [->|Hq]%elem_of_cons; [done|]. destruct (IH _ _ _ _ Hl Hq) as (? & ? & ?). split; [done|]. lia.
Qed.

Lemma forth_ext es es' l : zlen es' = zlen es -> forall lo1 lo2 p, (forall q, q ∈ l -> e_line1 (ent es' q) = e_line1 (ent es q) /\ e_line2 (ent es' q) = e_line2 (ent es q) /\ e_next (ent es' q) = e_next (ent es q)) -> forth es lo1 lo2 p l -> forth es' lo1 lo2 p l.
Proof.
  intros Hlen. induction l as [|r l IH]; intros lo1 lo2 p Hx; cbn [forth]; [done|]. destruct (Hx r (list_elem_of_here _ _)) as (E1 & E2 & E3). intros (-> & Hr & H1 & H2 & Hl). rewrite E1, E2, E3. split; [done|]. split; [lia|]. split; [done|]. split; [done|]. apply IH; [|done]. intros q Hq. apply Hx. by apply list_elem_of_further.
Qed.

(** * The map of lines *)

Section fill.
Context `{XdiffHOk} (x1 x2 : xdfile) (xpp : xpparam) (line1 count1 line2 count2 : Z) (Hline1 : 1 <= line1) (Hcount1 : 1 <= count1) (Hin1 : line1 - 1 + count1 <= nrec x1) (Hline2 : 1 <= line2) (Hcount2 : 0 <= count2) (Hin2 : line2 - 1 + count2 <= nrec x2).

(** The lines of the first file before [l1] and of the second before [l2] are in the map;
    [ord] has its entries in the order of the first file. *)
Record map_ok (l1 l2 : Z) (m : hashmap) (ord : list Z) : Prop := {
  mo_alloc : map_alloc m = 2 * count1;
  mo_len : zlen (entries m) = 2 * count1;
  mo_nr : map_nr m = zlen ord;
  mo_count : zlen ord <= l1 - line1;
  mo_linked : linked (entries m) (line1 - 1) (first m) ord;
  mo_last : last_ m = default (-1) (last ord);
  mo_fresh : forall p, 0 <= p < zlen (entries m) -> p ∉ ord -> ent (entries m) p = entry0;
  mo_line1 : forall p, p ∈ ord -> e_line1 (ent (entries m) p) < l1;
  mo_class : forall p, p ∈ ord -> e_hash (ent (entries m) p) = lcls x1 (e_line1 (ent (entries m) p));
  mo_line2 : forall p, p ∈ ord -> e_line2 (ent (entries m) p) = 0 \/ e_line2 (ent (entries m) p) = NON_UNIQUE \/ (line2 <= e_line2 (ent (entries m) p) < l2 /\ lcls x2 (e_line2 (ent (entries m) p)) = e_hash (ent (entries m) p));
  mo_distinct : forall p q, p ∈ ord -> q ∈ ord -> e_line2 (ent (entries m) p) = e_line2 (ent (entries m) q) -> p = q \/ e_line2 (ent (entries m) p) = 0 \/ e_line2 (ent (entries m) p) = NON_UNIQUE;
}.

Lemma mo_in l1 l2 m ord p : map_ok l1 l2 m ord -> p ∈ ord -> 0 <= p < zlen (entries m) /\ line1 <= e_line1 (ent (entries m) p).
Proof. intros Hok Hp. destruct (linked_in _ _ _ _ p (mo_linked _ _ _ _ Hok) Hp). split; [done|lia]. Qed.

(** Half of the entries are free. *)
Lemma free_entry l1 l2 m ord : map_ok l1 l2 m ord -> l1 <= line1 + count1 -> exists f, 0 <= f < 2 * count1 /\ f ∉ ord.
Proof.
  intros Hok Hl1. destruct (decide (Forall (fun p => p ∈ ord) (seqZ 0 (2 * count1)))) as [Hall|Hsome].
  - exfalso. assert (seqZ 0 (2 * count1) ⊆+ ord) as Hsub by (apply NoDup_submseteq; [apply NoDup_seqZ|by apply Forall_forall]). apply submseteq_length in Hsub. rewrite length_seqZ in Hsub. pose proof (mo_count _ _ _ _ Hok). unfold zlen in *. lia.
  - apply not_Forall_Exists in Hsome; [|apply _]. apply Exists_exists in Hsome as (f & Hf & Hn). apply elem_of_seqZ in Hf. exists f. split; [lia|done].
Qed.

Lemma probe_entry_spec l1 l2 m ord ha start : map_ok l1 l2 m ord -> l1 <= line1 + count1 -> 0 <= start < 2 * count1 ->
  exists index found, loop (S (Z.to_nat (map_alloc m))) (probe_step m ha) start = Ret (index, found) /\ 0 <= index < 2 * count1 /\ if (found : bool) then index ∈ ord /\ e_hash (ent (entries m) index) = ha else index ∉ ord.
Proof.
  intros Hok Hl1 Hstart. destruct (free_entry l1 l2 m ord Hok Hl1) as (f & Hf & Hfree). pose proof (mo_alloc _ _ _ _ Hok) as Ha. pose proof (mo_len _ _ _ _ Hok) as Hlen.
  destruct (loop_ret (fun index => 0 <= index < 2 * count1) (fun index => if index <=? f then f - index else f - index + 2 * count1) (S (Z.to_nat (map_alloc m))) (probe_step m ha) start
    (fun '(index, found) => 0 <= index < 2 * count1 /\ if (found : bool) then index ∈ ord /\ e_hash (ent (entries m) index) = ha else index ∉ ord)) as ([index found] & -> & HQ); [|done|rewrite Ha; destruct (Z.leb_spec start f); lia|by exists index, found].
  intros index Hi. unfold probe_step. rewrite rd_ent by lia. run. destruct (decide (index ∈ ord)) as [Hin|Hout].
  - pose proof (mo_in _ _ _ _ _ Hok Hin) as [_ Hl]. assert (tru (e_line1 (ent (entries m) index)) = true) as -> by (apply tru_true; lia). cbn [negb]. destruct (Z.eqb_spec (e_hash (ent (entries m) index)) ha); cbn [negb]; [by eexists|].
    assert (index <> f) by (by intros ->). eexists. split; [done|]. rewrite Z.geb_leb, Ha. destruct (Z.leb_spec (2 * count1) (index + 1)); cbv beta iota.
    + split; [lia|]. destruct (Z.leb_spec 0 f), (Z.leb_spec index f); lia.
    + split; [lia|]. destruct (Z.leb_spec (index + 1) f), (Z.leb_spec index f); lia.
  - rewrite (mo_fresh _ _ _ _ Hok) by (done || lia). cbn [entry0 e_line1 tru Z.eqb negb]. by eexists.
Qed.

(** Other lines of the second file for a known line. *)
Lemma set_line2_ok l1 l2 l1' l2' m ord p v es' hm : map_ok l1 l2 m ord -> p ∈ ord -> l1 <= l1' -> l2 <= l2' -> v = NON_UNIQUE \/ (v = l2 /\ l2 < l2' /\ line2 <= l2 /\ lcls x2 l2 = e_hash (ent (entries m) p)) ->
  zlen es' = zlen (entries m) -> (forall q, 0 <= q -> ent es' q = if decide (q = p) then set_line2 v (ent (entries m) p) else ent (entries m) q) ->
  map_ok l1' l2' (HashMap (map_nr m) (map_alloc m) es' (first m) (last_ m) hm) ord.
Proof.
  intros Hok Hp Hl1 Hl2 Hv Hlen He. pose proof Hok as [Ha Hle Hnr Hc Hlk Hla Hfr H1 Hcl H2 Hd].
  assert (forall q, q ∈ ord -> e_line1 (ent es' q) = e_line1 (ent (entries m) q) /\ e_next (ent es' q) = e_next (ent (entries m) q) /\ e_hash (ent es' q) = e_hash (ent (entries m) q)) as Hsame.
  { intros q Hq. pose proof (mo_in _ _ _ _ _ Hok Hq) as [? _]. rewrite He by lia. by case_decide as Hqp; [subst q|]. }
  split; cbn [map_alloc entries map_nr first last_]; [done|lia|done|lia|apply (entries_linked_ext (entries m)); [done|intros q Hq; by destruct (Hsame q Hq) as (? & ? & _)|done]|done|..].
  - intros q Hq Hqo. rewrite He by lia. rewrite decide_False by (by intros ->). apply Hfr; [lia|done].
  - intros q Hq. destruct (Hsame q Hq) as (-> & _). specialize (H1 q Hq). lia.
  - intros q Hq. destruct (Hsame q Hq) as (-> & _ & ->). by apply Hcl.
  - intros q Hq. destruct (Hsame q Hq) as (_ & _ & ->). pose proof (mo_in _ _ _ _ _ Hok Hq) as [? _]. rewrite He by lia. case_decide as Hqp; [subst q; cbn [set_line2 e_line2]|].
    + destruct Hv as [->|(-> & ? & ? & ?)]; [by right; left|right; right]. split; [lia|done].
    + destruct (H2 q Hq) as [?|[?|[? ?]]]; [by left|by right; left|right; right]. split; [lia|done].
  - intros q q' Hq Hq'. pose proof (mo_in _ _ _ _ _ Hok Hq) as [? _]. pose proof (mo_in _ _ _ _ _ Hok Hq') as [? _]. rewrite !He by lia. repeat case_decide; subst; cbn [set_line2 e_line2]; [by left| | |by apply Hd].
    + intros Heq. destruct Hv as [->|(-> & ? & ? & ?)]; [by right; right|]. rewrite Heq. destruct (H2 q' Hq') as [?|[?|[? ?]]]; [by right; left|by right; right|lia].
    + intros Heq. destruct Hv as [->|(-> & ? & ? & ?)]; [by right; right|]. destruct (H2 q Hq) as [?|[?|[? ?]]]; [by right; left|by right; right|lia].
Qed.

Lemma map_ok_mono l1 l2 l2' m ord : map_ok l1 l2 m ord -> l2 <= l2' -> map_ok l1 l2' m ord.
Proof. intros [Ha Hle Hnr Hc Hlk Hla Hfr H1 Hcl H2 Hd] Hl. split; try done. intros q Hq. destruct (H2 q Hq) as [?|[?|[? ?]]]; [by left|by right; left|right; right]. split; [lia|done]. Qed.

Lemma start_range l1 l2 m ord ha : map_ok l1 l2 m ord -> 0 <= u64 ha mod map_alloc m < 2 * count1.
Proof. intros Hok. rewrite (mo_alloc _ _ _ _ Hok). apply Z.mod_pos_bound. lia. Qed.
(** The entries after a new one. *)
Lemma link_new m ord l1 l2 n e : map_ok l1 l2 m ord -> 0 <= n < zlen (entries m) -> n ∉ ord -> e_next e = -1 ->
  exists es', (es ← wr (entries m) n e; if last_ m =? -1 then Ret es else es ← update es (last_ m) (set_next n); update es n (set_previous (last_ m))) = Ret es' /\ zlen es' = zlen (entries m) /\
    (e_line1 (ent es' n) = e_line1 e /\ e_line2 (ent es' n) = e_line2 e /\ e_hash (ent es' n) = e_hash e /\ e_next (ent es' n) = -1) /\
    forall q, 0 <= q -> q <> n -> e_line1 (ent es' q) = e_line1 (ent (entries m) q) /\ e_line2 (ent es' q) = e_line2 (ent (entries m) q) /\ e_hash (ent es' q) = e_hash (ent (entries m) q) /\
      (q ∈ ord -> e_next (ent es' q) = if decide (last ord = Some q) then n else e_next (ent (entries m) q)) /\ (q ∉ ord -> ent es' q = ent (entries m) q).
Proof.
  intros Hok Hn Hnot Hnext. destruct (wr_ent (entries m) n e Hn) as (es1 & -> & Hlen1 & He1). run. pose proof (mo_last _ _ _ _ Hok) as Hla. destruct (last ord) as [z|] eqn:Ez; cbn in Hla.
  - assert (z ∈ ord) as Hz by (apply last_Some in Ez as [l' ->]; apply elem_of_app; right; apply list_elem_of_here). pose proof (mo_in _ _ _ _ _ Hok Hz) as [Hzr _]. assert (z <> n) by (by intros ->). rewrite Hla, (proj2 (Z.eqb_neq z (-1))) by lia.
    destruct (update_ent es1 z (set_next n)) as (es2 & -> & Hlen2 & He2); [lia|]. run. destruct (update_ent es2 n (set_previous z)) as (es3 & -> & Hlen3 & He3); [lia|]. exists es3. split; [done|]. split; [lia|]. split.
    + rewrite He3, decide_True by lia. rewrite He2, decide_False by lia. rewrite He1, decide_True by lia. done.
    + intros q Hq Hqn. rewrite He3, decide_False by lia. rewrite He2 by lia. case_decide as Hqz.
      * subst q. rewrite He1, decide_False by lia. cbn [set_next e_line1 e_line2 e_hash e_next]. do 3 (split; [done|]). split; [intros _; by rewrite decide_True|done].
      * rewrite He1, decide_False by lia. do 3 (split; [done|]). split; [|done]. intros _. rewrite decide_False; [done|]. by intros [= ->].
  - rewrite Hla. cbn [Z.eqb]. exists es1. split; [done|]. split; [done|]. split; [rewrite He1, decide_True by lia; done|]. intros q Hq Hqn. rewrite He1, decide_False by lia. apply last_None in Ez as ->. do 3 (split; [done|]). split; [by intros ?%elem_of_nil|done].
Qed.

Lemma new_entry_ok l1 m ord n e es' : map_ok l1 line2 m ord -> line1 <= l1 -> 0 <= n < zlen (entries m) -> n ∉ ord -> zlen es' = zlen (entries m) -> e_line1 e = l1 -> e_line2 e = 0 -> e_hash e = lcls x1 l1 ->
    (e_line1 (ent es' n) = e_line1 e /\ e_line2 (ent es' n) = e_line2 e /\ e_hash (ent es' n) = e_hash e /\ e_next (ent es' n) = -1) ->
    (forall q, 0 <= q -> q <> n -> e_line1 (ent es' q) = e_line1 (ent (entries m) q) /\ e_line2 (ent es' q) = e_line2 (ent (entries m) q) /\ e_hash (ent es' q) = e_hash (ent (entries m) q) /\
      (q ∈ ord -> e_next (ent es' q) = if decide (last ord = Some q) then n else e_next (ent (entries m) q)) /\ (q ∉ ord -> ent es' q = ent (entries m) q)) ->
  map_ok (l1 + 1) line2 (HashMap (map_nr m + 1) (map_alloc m) es' (if first m =? -1 then n else first m) n (has_matches m)) (ord ++ [n]).
Proof.
  intros Hok Hl1 Hn Hnot Hlen E1 E2 E3 (N1 & N2 & N3 & N4) Hother. pose proof Hok as [Ha Hle Hnr Hc Hlk Hla Hfr H1 Hcl H2 Hd]. pose proof (fun q Hq => proj1 (mo_in _ _ _ _ q Hok Hq)) as Hin.
  assert (forall q, q ∈ ord -> 0 <= q /\ q <> n) as Hq0 by (intros q Hq; specialize (Hin q Hq); split; [lia|by intros ->]).
  split; cbn [map_alloc entries map_nr first last_ has_matches]; rewrite ?zlen_app, ?zlen_cons, ?zlen_nil; [done|lia|lia|lia|..].
  - assert ((if first m =? -1 then n else first m) = if decide (ord = []) then n else first m) as ->.
    { destruct ord as [|q ord]; cbn [linked] in Hlk; [by rewrite Hlk, decide_True|]. destruct Hlk as (-> & Hr & _). rewrite decide_False by done. by rewrite (proj2 (Z.eqb_neq q (-1))) by lia. }
    apply (linked_snoc (entries m)); [done|done|done|done|done|rewrite N1, E1; lia|intros p Hp; rewrite N1, E1; by apply H1|]. intros p Hp. destruct (Hq0 p Hp) as [Hp0 Hpn]. destruct (Hother p Hp0 Hpn) as (? & _ & _ & Hx & _). split; [done|by apply Hx].
  - by rewrite last_snoc.
  - intros p Hp [Hpo Hpn]%not_elem_of_app. rewrite elem_of_cons in Hpn. destruct (Hother p ltac:(lia) ltac:(tauto)) as (_ & _ & _ & _ & Hx). rewrite (Hx Hpo). apply Hfr; [lia|done].
  - intros p [Hp|Hp]%elem_of_app; [destruct (Hq0 p Hp) as [Hp0 Hpn]; destruct (Hother p Hp0 Hpn) as (-> & _); specialize (H1 p Hp); lia|]. apply list_elem_of_singleton in Hp as ->. lia.
  - intros p [Hp|Hp]%elem_of_app; [destruct (Hq0 p Hp) as [Hp0 Hpn]; destruct (Hother p Hp0 Hpn) as (-> & _ & -> & _); by apply Hcl|]. apply list_elem_of_singleton in Hp as ->. by rewrite N1, N3, E1, E3.
  - intros p [Hp|Hp]%elem_of_app; [destruct (Hq0 p Hp) as [Hp0 Hpn]; destruct (Hother p Hp0 Hpn) as (_ & -> & -> & _); by apply H2|]. apply list_elem_of_singleton in Hp as ->. left. congruence.
  - assert (forall p, p ∈ ord -> e_line2 (ent es' p) = e_line2 (ent (entries m) p)) as Hl2 by (intros p Hp; destruct (Hq0 p Hp) as [Hp0 Hpn]; by destruct (Hother p Hp0 Hpn) as (_ & -> & _)).
    intros p q [Hp|Hp]%elem_of_app [Hq|Hq]%elem_of_app.
    + rewrite !Hl2 by done. by apply Hd.
    + apply list_elem_of_singleton in Hq as ->. intros Heq. right; left. congruence.
    + apply list_elem_of_singleton in Hp as ->. intros Heq. right; left. congruence.
    + apply list_elem_of_singleton in Hp as ->. apply list_elem_of_singleton in Hq as ->. by left.
Qed.

Lemma insert_first l1 m ord : map_ok l1 line2 m ord -> line1 <= l1 < line1 + count1 -> exists m' ord', insert_record x1 x2 xpp 1 l1 m = Ret m' /\ map_ok (l1 + 1) line2 m' ord'.
Proof.
  intros Hok Hl1. unfold insert_record. cbn [Z.eqb Pos.eqb orb]. destruct (REC_spec x1 l1) as (r & -> & Hr); [lia|]. run.
  destruct (probe_entry_spec _ _ m ord (rec_ha r) (u64 (rec_ha r * 2) mod map_alloc m) Hok) as (n & found & -> & Hn & Hfound); [lia|by eapply start_range|]. run. rewrite <-(mo_len _ _ _ _ Hok) in Hn. destruct found.
  - destruct Hfound as [Hin _]. rewrite rd_ent by done. run. destruct (wr_ent (entries m) n (set_line2 NON_UNIQUE (ent (entries m) n)) Hn) as (es' & -> & Hlen & He). run. eexists _, ord. split; [done|]. eapply set_line2_ok; [done..|lia|lia|by left|done|exact He].
  - pose proof (mo_fresh _ _ _ _ Hok n Hn Hfound) as Hfr. rewrite rd_ent by done. run. rewrite Hfr. cbn [entry0 e_line2 e_next e_previous]. set (e := Entry (rec_ha r) l1 0 (-1) (-1) _).
    destruct (link_new m ord l1 line2 n e Hok Hn Hfound eq_refl) as (es' & Hes & Hlen & Hnew & Hother). destruct (wr_ent (entries m) n e Hn) as (es1 & Hw & _). rewrite Hw in Hes |- *. run. run_in Hes. rewrite Hes. run. eexists _, (ord ++ [n]). split; [done|]. apply (new_entry_ok _ _ _ _ e es' Hok); (done || lia).
Qed.

Lemma insert_second l2 m ord : map_ok (line1 + count1) l2 m ord -> line2 <= l2 < line2 + count2 -> exists m', insert_record x1 x2 xpp 2 l2 m = Ret m' /\ map_ok (line1 + count1) (l2 + 1) m' ord.
Proof.
  intros Hok Hl2. unfold insert_record. cbn [Z.eqb Pos.eqb orb]. destruct (REC_spec x2 l2) as (r & -> & Hr); [lia|]. run.
  destruct (probe_entry_spec _ _ m ord (rec_ha r) (u64 (rec_ha r * 2) mod map_alloc m) Hok) as (n & found & -> & Hn & Hfound); [lia|by eapply start_range|]. run. rewrite <-(mo_len _ _ _ _ Hok) in Hn. destruct found.
  - destruct Hfound as [Hin Hh]. rewrite rd_ent by done. run. destruct (wr_ent (entries m) n (set_line2 (if tru (e_line2 (ent (entries m) n)) then NON_UNIQUE else l2) (ent (entries m) n)) Hn) as (es' & -> & Hlen & He). run. eexists. split; [done|].
    eapply set_line2_ok; [done..|lia|lia| |done|exact He]. destruct (tru (e_line2 (ent (entries m) n))); [by left|right]. split; [done|]. split; [lia|]. split; [lia|]. by rewrite Hh.
  - exists m. split; [done|]. eapply map_ok_mono; [done|lia].
Qed.

Lemma fill_spec : exists m ord, fill_hashmap x1 x2 xpp line1 count1 line2 count2 = Ret m /\ map_ok (line1 + count1) (line2 + count2) m ord.
Proof.
  unfold fill_hashmap. set (m0 := HashMap _ _ _ _ _ _). assert (map_ok line1 line2 m0 []) as Hok0.
  { split; cbn [m0 map_alloc entries map_nr first last_]; rewrite ?zlen_replicate, ?zlen_nil; [lia|lia|done|lia|done|done| |intros p Hp; by apply elem_of_nil in Hp..|intros p q Hp; by apply elem_of_nil in Hp].
    intros p Hp _. unfold ent. rewrite lookup_replicate_2 by lia. done. }
  destruct (for_n_ret (fun l m => exists ord, map_ok l line2 m ord) (Z.to_nat count1) line1 (insert_record x1 x2 xpp 1) m0) as (m1 & -> & ord & H1); [|by exists []|].
  { intros l m Hl [ord Hok]. destruct (insert_first l m ord Hok ltac:(lia)) as (m' & ord' & -> & Hok'). exists m'. split; [done|by exists ord']. }
  run. replace (line1 + Z.of_nat (Z.to_nat count1)) with (line1 + count1) in H1 by lia.
  destruct (for_n_ret (fun l m => map_ok (line1 + count1) l m ord) (Z.to_nat count2) line2 (insert_record x1 x2 xpp 2) m1) as (m2 & -> & H2); [|done|].
  { intros l m Hl Hok. apply insert_second; [done|lia]. }
  replace (line2 + Z.of_nat (Z.to_nat count2)) with (line2 + count2) in H2 by lia. by exists m2, ord.
Qed.
End fill.

(** * The sequence *)

Lemma back_mono es l hi1 hi2 p hi1' : back es hi1 hi2 p l -> hi1 <= hi1' -> back es hi1' hi2 p l.
Proof. destruct l as [|q l]; cbn [back]; [done|]. intros (-> & Hq & H1 & H2 & Hb) Hle. split; [done|]. split; [done|]. split; [lia|done]. Qed.

Lemma sequence_search_spec es sequence longest e : 0 <= longest <= zlen sequence -> (forall j, 0 <= j < longest -> 0 <= getk sequence j < zlen es) ->
  exists i, binary_search es sequence longest e = Ret i /\ -1 <= i < longest /\ (0 <= i -> e_line2 (ent es (getk sequence i)) <= e_line2 e).
Proof.
  intros Hl Hin. unfold binary_search.
  destruct (loop_ret (fun '(lft, rgt) => -1 <= lft /\ lft < rgt <= longest /\ (0 <= lft -> e_line2 (ent es (getk sequence lft)) <= e_line2 e)) (fun '(lft, rgt) => rgt - lft - 1) (S (Z.to_nat longest)) (search_step es sequence (e_line2 e)) (-1, longest)
    (fun i => -1 <= i < longest /\ (0 <= i -> e_line2 (ent es (getk sequence i)) <= e_line2 e))) as (i & -> & Hi); [|lia|lia|by exists i].
  - intros [lft rgt] (H1 & H2 & H3). unfold search_step. destruct (Z.ltb_spec (lft + 1) rgt) as [Hlt|]; cbn [negb]; [|eexists; split; [done|]; split; [lia|done]].
    pose proof (Z.div_pos (rgt - lft) 2 ltac:(lia) ltac:(lia)) as Hd0. pose proof (Z.mul_div_le (rgt - lft) 2 ltac:(lia)) as Hd1. pose proof (Z.mul_succ_div_gt (rgt - lft) 2 ltac:(lia)) as Hd2. set (middle := lft + (rgt - lft) / 2).
    rewrite rd_getk by lia. run. rewrite rd_ent by (apply Hin; lia). run. eexists. split; [done|]. rewrite Z.gtb_ltb. destruct (Z.ltb_spec (e_line2 e) (e_line2 (ent es (getk sequence middle)))); cbv beta iota.
    + split; [|lia]. split; [lia|]. split; [lia|done].
    + split; [|lia]. split; [lia|]. split; [lia|done].
Qed.

Section sequence.
Context `{XdiffH} (x1 x2 : xdfile) (line1 count1 line2 count2 : Z) (m : hashmap) (ord : list Z) (Hmap : map_ok x1 x2 line1 count1 line2 (line1 + count1) (line2 + count2) m ord).
Notation es0 := (entries m).
Notation end1 := (line1 + count1).
Notation end2 := (line2 + count2).

(** A line that is unique in both files. *)
Definition unique (p : Z) : Prop := p ∈ ord /\ e_line2 (ent es0 p) <> 0 /\ e_line2 (ent es0 p) <> NON_UNIQUE.

Lemma unique_spec p : unique p -> 0 <= p < zlen es0 /\ line1 <= e_line1 (ent es0 p) < end1 /\ line2 <= e_line2 (ent es0 p) < end2 /\ lcls x1 (e_line1 (ent es0 p)) = lcls x2 (e_line2 (ent es0 p)).
Proof.
  intros (Hp & Hz & Hn). destruct (mo_in _ _ _ _ _ _ _ _ _ _ Hmap Hp) as [Hr Hl]. pose proof (mo_line1 _ _ _ _ _ _ _ _ _ Hmap p Hp) as H1. pose proof (mo_class _ _ _ _ _ _ _ _ _ Hmap p Hp) as Hc. destruct (mo_line2 _ _ _ _ _ _ _ _ _ Hmap p Hp) as [?|[?|[H2 Hc2]]]; [done|done|].
  split; [done|]. split; [lia|]. split; [lia|congruence].
Qed.

(** The lines of the entries do not change. *)
Definition kept (es : list entry) : Prop := zlen es = zlen es0 /\ forall p, 0 <= p -> e_line1 (ent es p) = e_line1 (ent es0 p) /\ e_line2 (ent es p) = e_line2 (ent es0 p).

(** A chain of [n] unique lines back from [p]. *)
Definition chain (es : list entry) (hi1 p n : Z) : Prop := exists l, zlen l = n /\ back es hi1 end2 p l /\ Forall unique l.

Lemma chain_head es hi1 p n : kept es -> 0 < n -> chain es hi1 p n -> unique p /\ e_line1 (ent es0 p) < hi1.
Proof.
  intros [_ Hk] Hn ([|q l] & Hlen & Hb & Hu); [rewrite zlen_nil in Hlen; lia|]. cbn [back] in Hb. destruct Hb as (-> & Hq & H1 & _). apply Forall_cons in Hu as [Hu _]. split; [done|]. destruct (Hk q ltac:(lia)) as [<- _]. done.
Qed.

Lemma chain_mono es hi1 hi1' p n : chain es hi1 p n -> hi1 <= hi1' -> chain es hi1' p n.
Proof. intros (l & Hl & Hb & Hu) Hle. exists l. split; [done|]. split; [by eapply back_mono|done]. Qed.

(** The state of the main loop, after the line [lo]. *)
Record seq_ok (lo p : Z) (todo : list Z) (es : list entry) (sequence : list Z) (longest anchor_i : Z) : Prop := {
  so_linked : linked es0 lo p todo;
  so_todo : forall q, q ∈ todo -> q ∈ ord;
  so_kept : kept es;
  so_next : forall q, q ∈ ord -> e_next (ent es q) = e_next (ent es0 q);
  so_len : zlen sequence = zlen ord;
  so_longest : 0 <= longest;
  so_room : longest + zlen todo <= zlen ord;
  so_anchor : -1 <= anchor_i < longest \/ (anchor_i = -1 /\ longest = 0);
  so_chains : forall i, 0 <= i < longest -> chain es (lo + 1) (getk sequence i) (i + 1);
}.

(** An entry that is left out. *)
Lemma seq_skip lo p todo es sequence longest anchor_i : seq_ok lo p (p :: todo) es sequence longest anchor_i -> seq_ok (e_line1 (ent es0 p)) (e_next (ent es0 p)) todo es sequence longest anchor_i.
Proof.
  intros [Hl Ht Hk Hn Hlen Hlo Hr Ha Hc]. cbn [linked] in Hl. destruct Hl as (_ & Hp & Hlt & Hl). rewrite zlen_cons in Hr. split; [done|intros q Hq; apply Ht; by apply list_elem_of_further|done|done|done|done|lia|done|].
  intros i Hi. eapply chain_mono; [by apply Hc|lia].
Qed.

(** An entry with its [previous] set. *)
Lemma seq_previous lo p todo es es' sequence longest anchor_i i : seq_ok lo p (p :: todo) es sequence longest anchor_i -> unique p -> -1 <= i < longest \/ i = -1 -> (0 <= i -> e_line2 (ent es (getk sequence i)) <= e_line2 (ent es p)) ->
  zlen es' = zlen es -> (forall q, 0 <= q -> ent es' q = if decide (q = p) then set_previous (if i <? 0 then -1 else getk sequence i) (ent es p) else ent es q) ->
  seq_ok lo p (p :: todo) es' sequence longest anchor_i /\ chain es' (e_line1 (ent es0 p) + 1) p (i + 2).
Proof.
  intros [Hl Ht Hk Hn Hlen Hlo Hr Ha Hc] Hu Hi Hle Hlen' He. pose proof (unique_spec p Hu) as (Hp & Hp1 & Hp2 & _). pose proof Hl as Hl'. cbn [linked] in Hl'. destruct Hl' as (_ & _ & Hlt & _). pose proof Hk as [Hkl Hk2].
  assert (forall q, 0 <= q -> e_line1 (ent es' q) = e_line1 (ent es q) /\ e_line2 (ent es' q) = e_line2 (ent es q) /\ e_next (ent es' q) = e_next (ent es q)) as Hsame by (intros q Hq; rewrite He by done; by case_decide; [subst q|]).
  assert (kept es') as Hk'. { split; [lia|]. intros q Hq. destruct (Hsame q Hq) as (-> & -> & _). by apply Hk2. }
  assert (forall hi1 hi2 q l, hi1 <= e_line1 (ent es0 p) -> back es hi1 hi2 q l -> back es' hi1 hi2 q l) as Hext.
  { intros hi1 hi2 q l Hhi. apply back_ext; [done|]. intros r Hr0 Hr1. destruct (Hsame r Hr0) as (-> & -> & _). split; [done|]. split; [done|]. rewrite He, decide_False; [done| |done]. intros ->. destruct (Hk2 p Hr0) as [E _]. lia. }
  split.
  - split; [done|done|done| |done|done|done|done|].
    + intros q Hq. destruct (mo_in _ _ _ _ _ _ _ _ _ _ Hmap Hq) as [Hq0 _]. destruct (Hsame q ltac:(lia)) as (_ & _ & ->). by apply Hn.
    + intros j Hj. destruct (Hc j Hj) as (l & Hll & Hb & Huu). exists l. split; [done|]. split; [apply Hext; [lia|done]|done].
  - assert (exists l, zlen l = i + 1 /\ back es' (e_line1 (ent es0 p)) (e_line2 (ent es0 p)) (if i <? 0 then -1 else getk sequence i) l /\ Forall unique l) as (l & Hll & Hb & Huu).
    { destruct (Z.ltb_spec i 0); [exists []; split; [rewrite zlen_nil; lia|done]|]. destruct (Hc i ltac:(lia)) as (l & Hll & Hb & Huu). exists l. split; [done|]. split; [|done].
      destruct (chain_head es (lo + 1) (getk sequence i) (i + 1) Hk ltac:(lia)) as [Hui Hi1]; [by exists l|]. pose proof (unique_spec _ Hui) as (Hr0 & Hr1 & Hr2 & _). apply (Hext (e_line1 (ent es0 p))); [lia|]. eapply back_weaken; [exact Hb|]. intros _.
      destruct (Hk2 (getk sequence i) ltac:(lia)) as [-> E2]. specialize (Hle ltac:(lia)). destruct (Hk2 p ltac:(lia)) as [_ E3]. rewrite E2, E3 in *. split; [lia|].
      assert (e_line2 (ent es0 (getk sequence i)) <> e_line2 (ent es0 p)); [|lia]. intros Heq. destruct Hui as (Hio & Hiz & Hin). destruct Hu as (Hpo & _). destruct (mo_distinct _ _ _ _ _ _ _ _ _ Hmap _ _ Hio Hpo Heq) as [E|[?|?]]; [|done|done]. rewrite E in *. lia. }
    exists (p :: l). rewrite zlen_cons. split; [lia|]. split; [|by constructor]. cbn [back]. destruct Hk' as [Hkl' Hk'2]. destruct (Hk'2 p ltac:(lia)) as [-> ->]. split; [done|]. split; [lia|]. split; [lia|]. split; [lia|]. rewrite He, decide_True by lia. exact Hb.
Qed.
(** An entry as the last of its length. *)
Lemma seq_put lo p todo es sequence sequence' longest longest' anchor_i anchor_i' i : seq_ok lo p (p :: todo) es sequence longest anchor_i -> unique p -> chain es (e_line1 (ent es0 p) + 1) p (i + 1) ->
  zlen sequence' = zlen sequence -> (forall j, 0 <= j -> getk sequence' j = if decide (j = i) then p else getk sequence j) -> 0 <= i <= longest -> i < longest' <= Z.max (i + 1) longest -> -1 <= anchor_i' < longest' ->
  seq_ok (e_line1 (ent es0 p)) (e_next (ent es0 p)) todo es sequence' longest' anchor_i'.
Proof.
  intros Hok Hu Hch Hlen' Hg Hi Hl' Ha'. pose proof (seq_skip _ _ _ _ _ _ _ Hok) as [Hl Ht Hk Hn Hlen Hlo Hr Ha Hc]. pose proof (so_room _ _ _ _ _ _ _ Hok) as Hroom. rewrite zlen_cons in Hroom. split; [done|done|done|done|lia|lia|lia|by left|].
  intros j Hj. rewrite Hg by lia. case_decide as Hji; [by rewrite Hji|]. apply Hc. lia.
Qed.

(** One entry. *)
Lemma sequence_step_spec lo p todo es sequence longest anchor_i : seq_ok lo p (p :: todo) es sequence longest anchor_i ->
  exists es' sequence' longest' anchor_i', sequence_step (p, es, sequence, longest, anchor_i) = Ret (inl (e_next (ent es0 p), es', sequence', longest', anchor_i')) /\ seq_ok (e_line1 (ent es0 p)) (e_next (ent es0 p)) todo es' sequence' longest' anchor_i'.
Proof.
  intros Hok. pose proof Hok as [Hl Ht Hk Hn Hlen Hlo Hr Ha Hc]. cbn [linked] in Hl. destruct Hl as (_ & Hp & Hlt & Hl). specialize (Ht p (list_elem_of_here _ _)). pose proof Hk as [Hkl Hk2]. destruct (Hk2 p ltac:(lia)) as [E1 E2]. specialize (Hn p Ht). rewrite zlen_cons in Hr. pose proof (zlen_nonneg todo) as Hz.
  unfold sequence_step. rewrite (proj2 (Z.eqb_neq p (-1))), rd_ent by lia. run. rewrite E2, Hn. destruct (tru (e_line2 (ent es0 p))) eqn:Et; cbn [negb orb]; [|eexists es, sequence, longest, anchor_i; split; [done|by eapply seq_skip]].
  destruct (Z.eqb_spec (e_line2 (ent es0 p)) NON_UNIQUE) as [|Hnu]; [eexists es, sequence, longest, anchor_i; split; [done|by eapply seq_skip]|]. apply tru_true in Et. assert (unique p) as Hu by done.
  destruct (sequence_search_spec es sequence longest (ent es p)) as (i & -> & Hi & Hle); [lia| |].
  { intros j Hj. destruct (chain_head es (lo + 1) (getk sequence j) (j + 1) Hk ltac:(lia) (Hc j Hj)) as [Hu' _]. destruct (unique_spec _ Hu') as [? _]. lia. }
  run. assert ((if i <? 0 then Ret (-1) else rd sequence i) = Ret (if i <? 0 then -1 else getk sequence i)) as -> by (destruct (Z.ltb_spec i 0); [done|rewrite rd_getk by lia; done]). run.
  destruct (wr_ent es p (set_previous (if i <? 0 then -1 else getk sequence i) (ent es p))) as (es' & -> & Hlen' & He); [lia|]. run.
  destruct (seq_previous lo p todo es es' sequence longest anchor_i i Hok Hu ltac:(by left) Hle Hlen' He) as [Hok' Hch]. destruct (Z.leb_spec (i + 1) anchor_i); [by eexists es', sequence, longest, anchor_i; split; [done|by eapply seq_skip]|].
  destruct (wr_getk sequence (i + 1) p) as (sequence' & -> & Hls & Hg); [lia|]. run. replace (i + 2) with (i + 1 + 1) in Hch by lia. destruct (e_anchor (ent es p)); [|destruct (Z.eqb_spec (i + 1) longest)].
  - eexists _, _, _, _. split; [done|]. apply (seq_put lo p todo es' sequence sequence' longest _ anchor_i _ (i + 1)); (done || lia).
  - eexists _, _, _, _. split; [done|]. apply (seq_put lo p todo es' sequence sequence' longest _ anchor_i _ (i + 1)); (done || lia).
  - eexists _, _, _, _. split; [done|]. apply (seq_put lo p todo es' sequence sequence' longest _ anchor_i _ (i + 1)); (done || lia).
Qed.

Lemma sequence_loop todo : forall lo p es sequence longest anchor_i fuel, seq_ok lo p todo es sequence longest anchor_i -> (length todo < fuel)%nat ->
  exists es' sequence' longest' hi1, loop fuel sequence_step (p, es, sequence, longest, anchor_i) = Ret (es', sequence', longest') /\ kept es' /\ 0 <= longest' <= zlen ord /\ zlen sequence' = zlen ord /\ forall i, 0 <= i < longest' -> chain es' hi1 (getk sequence' i) (i + 1).
Proof.
  induction todo as [|q todo IH]; intros lo p es sequence longest anchor_i fuel Hok Hfuel; (destruct fuel as [|fuel]; [cbn in Hfuel; lia|]).
  - pose proof Hok as [Hl Ht Hk Hn Hlen Hlo Hr Ha Hc]. cbn [linked] in Hl. subst p. rewrite zlen_nil in Hr. exists es, sequence, longest, (lo + 1). split; [by apply loop_stop|]. split; [done|]. split; [lia|]. done.
  - assert (p = q) as -> by (by destruct (so_linked _ _ _ _ _ _ _ Hok)). destruct (sequence_step_spec lo q todo es sequence longest anchor_i Hok) as (es' & sequence' & longest' & anchor' & Hstep & Hok'). rewrite (loop_next _ _ _ _ Hstep). eapply IH; [exact Hok'|cbn in Hfuel; lia].
Qed.

(** ** The links to the next lines *)

(** Back from [p], with the links from [p] on set. *)
Lemma link_loop l : forall es hi1 p f fuel, kept es -> back es hi1 end2 p l -> Forall unique l -> l <> [] -> forth es (e_line1 (ent es0 p) - 1) (e_line2 (ent es0 p) - 1) p f -> Forall unique f -> (length l < fuel)%nat ->
  exists p' es' f', loop fuel link_step (p, es) = Ret (p', es') /\ kept es' /\ f' <> [] /\ forth es' (line1 - 1) (line2 - 1) p' f' /\ Forall unique f'.
Proof.
  assert (forall es hi1 hi2 hi1' hi2' p l, back es hi1 hi2 p l -> hi1 <= hi1' -> hi2 <= hi2' -> back es hi1' hi2' p l) as Hmono.
  { intros es hi1 hi2 hi1' hi2' p k Hb H1 H2. eapply back_weaken; [exact Hb|]. intros Hp. destruct k as [|r k]; cbn [back] in Hb; [done|]. destruct Hb as (_ & _ & ? & ? & _). lia. }
  induction l as [|q l IH]; intros es hi1 p f fuel Hk Hb Hu Hne Hf Huf Hfuel; [done|]. destruct fuel as [|fuel]; [cbn in Hfuel; lia|]. cbn [back] in Hb. destruct Hb as (-> & Hq & _ & _ & Hb). apply Forall_cons in Hu as [Huq Hu]. pose proof Hk as [Hkl Hk2]. pose proof (unique_spec q Huq) as (_ & Hq1 & Hq2 & _).
  destruct l as [|r l]; cbn [back] in Hb.
  - rewrite (loop_stop _ _ _ (q, es)) by (unfold link_step; rewrite rd_ent by done; run; by rewrite Hb). exists q, es, f. split; [done|]. split; [done|]. destruct f as [|q' f]; cbn [forth] in *; [lia|]. split; [done|]. split; [|done]. destruct Hf as (-> & Hr & _ & _ & Hf). destruct (Hk2 q' ltac:(lia)) as [E1 E2]. repeat (split; [done || lia|]). exact Hf.
  - assert (0 <= r) as Hr0 by (destruct Hb as (Er & Hr & _); rewrite Er in Hr; lia). destruct Hb as (Er & Hr & Hr1 & Hr2 & Hb). rewrite Er in Hr, Hr1, Hr2, Hb.
    destruct (update_ent es r (set_next q)) as (es' & Hup & Hlen & He); [done|]. rewrite (loop_next _ _ _ (r, es')) by (unfold link_step; rewrite rd_ent by done; run; rewrite Er, (proj2 (Z.eqb_neq r (-1))) by lia; rewrite Hup; done).
    assert (forall z, 0 <= z -> e_line1 (ent es' z) = e_line1 (ent es z) /\ e_line2 (ent es' z) = e_line2 (ent es z) /\ e_previous (ent es' z) = e_previous (ent es z) /\ (z <> r -> e_next (ent es' z) = e_next (ent es z))) as Hsame by (intros z Hz; rewrite He by done; by case_decide; [subst z|]).
    destruct (Hk2 q ltac:(lia)) as [E1 E2]. destruct (Hk2 r ltac:(lia)) as [F1 F2]. apply Forall_cons in Hu as Hu'. destruct Hu' as [Hur _]. pose proof (unique_spec r Hur) as (_ & _ & Hb2 & _).
    apply (IH es' (e_line1 (ent es q)) r (r :: f)).
    + split; [lia|]. intros z Hz. destruct (Hsame z Hz) as (-> & -> & _). by apply Hk2.
    + cbn [back]. destruct (Hsame r Hr0) as (-> & -> & -> & _). split; [done|]. split; [lia|]. split; [done|]. split; [lia|]. eapply back_ext; [done| |exact Hb]. intros z Hz _. by destruct (Hsame z Hz) as (-> & -> & -> & _).
    + done.
    + done.
    + cbn [forth]. destruct (Hsame r Hr0) as (G1 & G2 & _). rewrite G1, G2, F1, F2. split; [done|]. split; [lia|]. split; [lia|]. split; [lia|]. rewrite He, decide_True by done. cbn [set_next e_next]. rewrite F1, F2, E1, E2 in *.
      assert (forth es (e_line1 (ent es0 r)) (e_line2 (ent es0 r)) q f) as Hf'. { destruct f as [|q' f]; cbn [forth] in *; [done|]. destruct Hf as (-> & Hr' & _ & _ & Hf). rewrite E1, E2 in *. split; [done|]. split; [done|]. split; [lia|]. split; [lia|done]. }
      eapply forth_ext; [done| |exact Hf']. intros z Hz. destruct (forth_in _ _ _ _ _ _ Hf' Hz) as (Hz0 & Hz1 & _). destruct (Hsame z ltac:(lia)) as (-> & -> & _ & Hnx). split; [done|]. split; [done|]. apply Hnx. intros ->. lia.
    + by constructor.
    + cbn in Hfuel |- *. lia.
Qed.

Lemma find_sequence_spec : exists p es f, find_longest_common_sequence m = Ret (p, es) /\ kept es /\ forth es (line1 - 1) (line2 - 1) p f /\ Forall unique f.
Proof.
  pose proof Hmap as [_ _ Hnr _ Hlk _ _ _ _ _ _]. pose proof (zlen_nonneg ord) as Hz0. unfold find_longest_common_sequence. rewrite Hnr.
  destruct (sequence_loop ord (line1 - 1) (first m) es0 (replicate (Z.to_nat (zlen ord)) (-1)) 0 (-1) (S (Z.to_nat (zlen ord)))) as (es & sequence & longest & hi1 & -> & Hk & Hl & Hlen & Hc); [|unfold zlen; lia|].
  { split; [done|done|done|done|rewrite zlen_replicate; lia|lia|lia|by right|intros; lia]. }
  run. destruct (tru longest) eqn:Et; cbn [negb]; [|exists (-1), es, []; done]. apply tru_true in Et. rewrite rd_getk by lia. run. destruct (Hc (longest - 1) ltac:(lia)) as (l & Hll & Hb & Hu). set (p := getk sequence (longest - 1)) in *.
  destruct l as [|q l]; [rewrite zlen_nil in Hll; lia|]. pose proof Hb as (Hpq & Hp & _). rewrite <-Hpq in *. pose proof Hk as [Hkl Hk2]. destruct (Hk2 p ltac:(lia)) as [E1 E2].
  destruct (update_ent es p (set_next (-1)) ltac:(lia)) as (es' & -> & Hlen' & He). run. assert (forall z, 0 <= z -> e_line1 (ent es' z) = e_line1 (ent es z) /\ e_line2 (ent es' z) = e_line2 (ent es z) /\ e_previous (ent es' z) = e_previous (ent es z)) as Hsame by (intros z Hz; rewrite He by done; by case_decide; [subst z|]).
  destruct (link_loop (p :: l) es' hi1 p [p] (S (Z.to_nat (zlen ord)))) as (p' & es'' & f & -> & Hk' & _ & Hf & Huf); [| |done|done| | | |by exists p', es'', f].
  - split; [lia|]. intros z Hz. destruct (Hsame z Hz) as (-> & -> & _). by apply Hk2.
  - eapply back_ext; [done| |exact Hb]. intros z Hz _. by apply Hsame.
  - cbn [forth]. destruct (Hsame p ltac:(lia)) as (-> & -> & _). rewrite E1, E2. split; [done|]. split; [lia|]. split; [lia|]. split; [lia|]. rewrite He, decide_True by lia. done.
  - apply Forall_cons in Hu as [Hu _]. by constructor.
  - unfold zlen in *. lia.
Qed.
End sequence.

(** * Between the lines of the sequence *)

Section walk.
Context `{XdiffHOk} {A : Type} (x1 x2 : xdfile) (lo1 lo2 : Z -> A) (Hlo : forall i j, 0 <= i < nrec x1 -> 0 <= j < nrec x2 -> cls x1 i = cls x2 j -> lo1 i = lo2 j).
Context (a1 count1 a2 count2 : Z) (Ha1 : 1 <= a1) (Hin1 : a1 - 1 + count1 <= nrec x1) (Ha2 : 1 <= a2) (Hin2 : a2 - 1 + count2 <= nrec x2).
Notation end1 := (a1 + count1).
Notation end2 := (a2 + count2).

Lemma grow_back_spec line1 line2 next1 next2 : a1 <= line1 <= next1 -> next1 <= end1 -> a2 <= line2 <= next2 -> next2 <= end2 ->
  exists n1 n2, loop (S (Z.to_nat count1)) (grow_back x1 x2 line1 line2) (next1, next2) = Ret (n1, n2) /\ line1 <= n1 <= next1 /\ line2 <= n2 /\ next1 - n1 = next2 - n2 /\ forall k, n1 <= k < next1 -> lcls x1 k = lcls x2 (k + (next2 - next1)).
Proof.
  intros H1 He1 H2 He2. destruct (loop_ret (fun '(n1, n2) => line1 <= n1 <= next1 /\ line2 <= n2 /\ next1 - n1 = next2 - n2 /\ forall k, n1 <= k < next1 -> lcls x1 k = lcls x2 (k + (next2 - next1))) (fun '(n1, _) => n1 - line1) (S (Z.to_nat count1)) (grow_back x1 x2 line1 line2) (next1, next2)
    (fun '(n1, n2) => line1 <= n1 <= next1 /\ line2 <= n2 /\ next1 - n1 = next2 - n2 /\ forall k, n1 <= k < next1 -> lcls x1 k = lcls x2 (k + (next2 - next1)))) as ([n1 n2] & -> & HQ); [|split; [lia|]; split; [lia|]; split; [lia|]; intros; lia|lia|by exists n1, n2].
  intros [n1 n2] (I1 & I2 & I3 & I4). unfold grow_back. rewrite !Z.gtb_ltb. destruct (Z.ltb_spec line1 n1), (Z.ltb_spec line2 n2); cbn [andb negb]; try by eexists. unfold match_. rewrite CMP_spec by lia. run. eexists. split; [done|]. destruct (Z.eqb_spec (lcls x1 (n1 - 1)) (lcls x2 (n2 - 1))) as [Heq|]; [|done]. cbv beta iota.
  split; [|lia]. split; [lia|]. split; [lia|]. split; [lia|]. intros k Hk. destruct (Z.eq_dec k (n1 - 1)) as [->|]; [|apply I4; lia]. by replace (n1 - 1 + (next2 - next1)) with (n2 - 1) by lia.
Qed.

Lemma grow_forward_spec line1 line2 next1 next2 : a1 <= line1 <= next1 -> next1 <= end1 -> a2 <= line2 <= next2 -> next2 <= end2 ->
  exists l1 l2, loop (S (Z.to_nat count1)) (grow_forward x1 x2 next1 next2) (line1, line2) = Ret (l1, l2) /\ line1 <= l1 <= next1 /\ l2 <= next2 /\ l1 - line1 = l2 - line2 /\ forall k, line1 <= k < l1 -> lcls x1 k = lcls x2 (k + (line2 - line1)).
Proof.
  intros H1 He1 H2 He2. destruct (loop_ret (fun '(l1, l2) => line1 <= l1 <= next1 /\ l2 <= next2 /\ l1 - line1 = l2 - line2 /\ forall k, line1 <= k < l1 -> lcls x1 k = lcls x2 (k + (line2 - line1))) (fun '(l1, _) => next1 - l1) (S (Z.to_nat count1)) (grow_forward x1 x2 next1 next2) (line1, line2)
    (fun '(l1, l2) => line1 <= l1 <= next1 /\ l2 <= next2 /\ l1 - line1 = l2 - line2 /\ forall k, line1 <= k < l1 -> lcls x1 k = lcls x2 (k + (line2 - line1)))) as ([l1 l2] & -> & HQ); [|split; [lia|]; split; [lia|]; split; [lia|]; intros; lia|lia|by exists l1, l2].
  intros [l1 l2] (I1 & I2 & I3 & I4). unfold grow_forward. destruct (Z.ltb_spec l1 next1), (Z.ltb_spec l2 next2); cbn [andb negb]; try by eexists. unfold match_. rewrite CMP_spec by lia. run. eexists. split; [done|]. destruct (Z.eqb_spec (lcls x1 l1) (lcls x2 l2)) as [Heq|]; [|done]. cbv beta iota.
  split; [|lia]. split; [lia|]. split; [lia|]. split; [lia|]. intros k Hk. destruct (Z.eq_dec k l1) as [->|]; [|apply I4; lia]. by replace (l1 + (line2 - line1)) with l2 by lia.
Qed.

Context (es : list entry).

(** An entry of the part whose lines match. *)
Definition anchored (p : Z) : Prop := e_line1 (ent es p) < end1 /\ e_line2 (ent es p) < end2 /\ lcls x1 (e_line1 (ent es p)) = lcls x2 (e_line2 (ent es p)).

Lemma skip_entries lo1' lo2' p f : a1 - 1 <= lo1' -> forth es lo1' lo2' p (p :: f) -> Forall anchored (p :: f) ->
  exists q f', loop (S (Z.to_nat count1)) (skip_entry es) p = Ret (ent es q) /\ e_line1 (ent es p) <= e_line1 (ent es q) < end1 /\ e_line2 (ent es q) < end2 /\ e_line1 (ent es q) - e_line1 (ent es p) = e_line2 (ent es q) - e_line2 (ent es p) /\
    (forall k, e_line1 (ent es p) <= k <= e_line1 (ent es q) -> lcls x1 k = lcls x2 (k + (e_line2 (ent es p) - e_line1 (ent es p)))) /\ forth es (e_line1 (ent es q)) (e_line2 (ent es q)) (e_next (ent es q)) f' /\ Forall anchored f'.
Proof.
  intros Ha Hf Hall. set (Q := fun e => exists q f', e = ent es q /\ e_line1 (ent es p) <= e_line1 (ent es q) < end1 /\ e_line2 (ent es q) < end2 /\ e_line1 (ent es q) - e_line1 (ent es p) = e_line2 (ent es q) - e_line2 (ent es p) /\
    (forall k, e_line1 (ent es p) <= k <= e_line1 (ent es q) -> lcls x1 k = lcls x2 (k + (e_line2 (ent es p) - e_line1 (ent es p)))) /\ forth es (e_line1 (ent es q)) (e_line2 (ent es q)) (e_next (ent es q)) f' /\ Forall anchored f').
  destruct (loop_ret (fun q => 0 <= q < zlen es /\ Q (ent es q)) (fun q => end1 - e_line1 (ent es q)) (S (Z.to_nat count1)) (skip_entry es) p Q) as (e & -> & q & f' & -> & HQ); [| | |by exists q, f'].
  - intros q [Hq HQ]. pose proof HQ as (q' & f' & Heq & H1 & H2 & H3 & H4 & H5 & H6). rewrite <-Heq in *. unfold skip_entry. rewrite rd_ent by done. run. destruct (Z.eqb_spec (e_next (ent es q)) (-1)); [by eexists|]. destruct f' as [|r f']; cbn [forth] in H5; [done|]. destruct H5 as (Hr & Hrr & Hr1 & Hr2 & Hf'). rewrite rd_ent by lia. run. rewrite Hr in *. eexists. split; [done|].
    destruct (Z.eqb_spec (e_line1 (ent es r)) (e_line1 (ent es q) + 1)), (Z.eqb_spec (e_line2 (ent es r)) (e_line2 (ent es q) + 1)); cbn [andb]; [|done..]. apply Forall_cons in H6 as [(Hr3 & Hr4 & Hr5) H6]. cbv beta iota. split; [|lia]. split; [done|]. exists r, f'. split; [done|]. split; [lia|]. split; [lia|]. split; [lia|]. split; [|done].
    intros k Hk. destruct (Z.eq_dec k (e_line1 (ent es r))) as [->|]; [|apply H4; lia]. rewrite Hr5. f_equal. lia.
  - apply Forall_cons in Hall as [(H1 & H2 & H3) Hall]. cbn [forth] in Hf. destruct Hf as (_ & Hp & Hp1 & Hp2 & Hf). split; [done|]. exists p, f. split; [done|]. split; [lia|]. split; [lia|]. split; [lia|]. split; [|done]. intros k Hk. replace k with (e_line1 (ent es p)) by lia. rewrite H3. f_equal. lia.
  - cbn [forth] in Hf. apply Forall_cons in Hall as [(H1 & _) _]. lia.
Qed.
(** ** The marks *)

Context (r1 r2 : list Z) (Hr1 : zlen r1 = nrec x1 + 2) (Hr2 : zlen r2 = nrec x2 + 2) (Hclr1 : clear r1 (a1 - 1) count1) (Hclr2 : clear r2 (a2 - 1) count2).

(** The marks up to [line1] and [line2]. *)
Definition upto (line1 line2 : Z) (st : list Z * list Z) : Prop := covers lo1 lo2 (a1 - 1) (line1 - a1) (a2 - 1) (line2 - a2) r1 r2 st.1 st.2.

Lemma upto_clear line1 line2 st n1 n2 : upto line1 line2 st -> a1 <= line1 -> line1 + n1 <= end1 -> a2 <= line2 -> line2 + n2 <= end2 -> clear st.1 (line1 - 1) n1 /\ clear st.2 (line2 - 1) n2.
Proof.
  intros [_ _ Ho1 Ho2 _] H1 H1' H2 H2'. split; intros i Hi; [rewrite Ho1 by lia; apply Hclr1; lia|rewrite Ho2 by lia; apply Hclr2; lia].
Qed.

(** Lines that match. *)
Lemma upto_same line1 line2 st d : upto line1 line2 st -> a1 <= line1 -> line1 + d <= end1 -> a2 <= line2 -> line2 + d <= end2 -> 0 <= d -> (forall k, line1 <= k < line1 + d -> lcls x1 k = lcls x2 (k + (line2 - line1))) -> upto (line1 + d) (line2 + d) st.
Proof.
  intros Hu H1 H1' H2 H2' Hd Hsame. destruct (upto_clear line1 line2 st d d Hu H1 H1' H2 H2') as [Hc1 Hc2]. unfold upto. replace (line1 + d - a1) with (line1 - a1 + d) by lia. replace (line2 + d - a2) with (line2 - a2 + d) by lia. eapply covers_app; [lia..|exact Hu|].
  replace (a1 - 1 + (line1 - a1)) with (line1 - 1) by lia. replace (a2 - 1 + (line2 - a2)) with (line2 - 1) by lia. apply covers_same; [done|done|done|]. intros k Hk. apply Hlo; [lia|lia|]. specialize (Hsame (line1 + k) ltac:(lia)). unfold lcls in Hsame.
  replace (line1 + k - 1) with (line1 - 1 + k) in Hsame by lia. by replace (line1 + k + (line2 - line1) - 1) with (line2 - 1 + k) in Hsame by lia.
Qed.

(** A part. *)
Lemma upto_part line1 line2 st st' n1 n2 : upto line1 line2 st -> a1 <= line1 -> a2 <= line2 -> 0 <= n1 -> 0 <= n2 -> covers lo1 lo2 (line1 - 1) n1 (line2 - 1) n2 st.1 st.2 st'.1 st'.2 -> upto (line1 + n1) (line2 + n2) st'.
Proof.
  intros Hu H1 H2 Hn1 Hn2 Hc. unfold upto. replace (line1 + n1 - a1) with (line1 - a1 + n1) by lia. replace (line2 + n2 - a2) with (line2 - a2 + n2) by lia. eapply covers_app; [lia..|exact Hu|]. replace (a1 - 1 + (line1 - a1)) with (line1 - 1) by lia. by replace (a2 - 1 + (line2 - a2)) with (line2 - 1) by lia.
Qed.

Context (diff : Z -> Z -> Z -> Z -> list Z * list Z -> outcome (list Z * list Z)).
Context (Hdiff : forall l1 c1 l2 c2 s1 s2, 0 <= c1 < count1 -> 1 <= l1 -> l1 - 1 + c1 <= nrec x1 -> 1 <= l2 -> 0 <= c2 -> l2 - 1 + c2 <= nrec x2 -> zlen s1 = nrec x1 + 2 -> zlen s2 = nrec x2 + 2 -> clear s1 (l1 - 1) c1 -> clear s2 (l2 - 1) c2 ->
  exists s1' s2', diff l1 c1 l2 c2 (s1, s2) = Ret (s1', s2') /\ covers lo1 lo2 (l1 - 1) c1 (l2 - 1) c2 s1 s2 s1' s2').

(** The lines between two common parts. *)
Lemma part_spec line1 line2 next1 next2 st : upto line1 line2 st -> a1 <= line1 <= next1 -> next1 <= end1 -> a2 <= line2 <= next2 -> next2 <= end2 -> next1 - line1 < count1 ->
  exists st', (if (next1 >? line1) || (next2 >? line2) then diff line1 (next1 - line1) line2 (next2 - line2) st else Ret st) = Ret st' /\ upto next1 next2 st'.
Proof.
  intros Hu H1 He1 H2 He2 Hlt. rewrite !Z.gtb_ltb. destruct (Z.ltb_spec line1 next1) as [|Hn1], (Z.ltb_spec line2 next2) as [|Hn2]; cbn [orb]; [| | |exists st; split; [done|]; by replace next1 with line1 by lia; replace next2 with line2 by lia].
  all: destruct st as [s1 s2]; pose proof Hu as [Hs1 Hs2 _ _ _]; cbn [fst snd] in *; destruct (upto_clear line1 line2 (s1, s2) (next1 - line1) (next2 - line2) Hu) as [Hc1 Hc2]; [lia..|]; cbn [fst snd] in *.
  all: destruct (Hdiff line1 (next1 - line1) line2 (next2 - line2) s1 s2) as (s1' & s2' & -> & Hcov); [lia..|done|done|]; exists (s1', s2'); split; [done|].
  all: replace next1 with (line1 + (next1 - line1)) by lia; replace next2 with (line2 + (next2 - line2)) by lia; eapply upto_part; [exact Hu|lia..|]; cbn [fst snd]; exact Hcov.
Qed.

(** Lines up to the next common line, or to the end. *)
Lemma stretch_spec line1 line2 next1 next2 st : upto line1 line2 st -> a1 <= line1 <= next1 -> next1 <= end1 -> a2 <= line2 <= next2 -> next2 <= end2 -> next1 - line1 < count1 ->
  exists l1 l2 st', loop (S (Z.to_nat count1)) (grow_forward x1 x2 next1 next2) (line1, line2) = Ret (l1, l2) /\
    (if (next1 >? l1) || (next2 >? l2) then diff l1 (next1 - l1) l2 (next2 - l2) st else Ret st) = Ret st' /\ upto next1 next2 st'.
Proof.
  intros Hu H1 He1 H2 He2 Hlt. destruct (grow_forward_spec line1 line2 next1 next2 H1 He1 H2 He2) as (l1 & l2 & -> & G1 & G2 & G3 & G4). exists l1, l2.
  pose proof (upto_same line1 line2 st (l1 - line1) Hu ltac:(lia) ltac:(lia) ltac:(lia) ltac:(lia) ltac:(lia) ltac:(intros k Hk; apply G4; lia)) as Hu'. replace (line1 + (l1 - line1)) with l1 in Hu' by lia. replace (line2 + (l1 - line1)) with l2 in Hu' by lia.
  destruct (part_spec l1 l2 next1 next2 st Hu') as (st' & -> & Hst'); [lia..|]. by exists st'.
Qed.

Lemma walk_spec first f : forth es (a1 - 1) (a2 - 1) first f -> f <> [] -> Forall anchored f ->
  exists st', loop (S (S (Z.to_nat count1))) (walk_step x1 x2 diff es count1 end1 end2) (first, a1, a2, (r1, r2)) = Ret st' /\ upto end1 end2 st'.
Proof.
  intros Hf Hne Hall.
  destruct (loop_ret (fun '(p, line1, line2, st) => a1 <= line1 <= end1 /\ a2 <= line2 <= end2 /\ upto line1 line2 st /\ (p = -1 -> a1 < line1) /\ exists f, forth es (line1 - 1) (line2 - 1) p f /\ Forall anchored f) (fun '(_, line1, _, _) => end1 - line1) (S (S (Z.to_nat count1))) (walk_step x1 x2 diff es count1 end1 end2) (first, a1, a2, (r1, r2)) (upto end1 end2)) as (st' & -> & Hst'); [| | |by exists st'].
  - clear first f Hf Hne Hall. intros [[[p line1] line2] st] (H1 & H2 & Hu & Hp & f & Hf & Hall). unfold walk_step. destruct (Z.eqb_spec p (-1)) as [->|Hnz].
    + run. destruct (stretch_spec line1 line2 end1 end2 st Hu) as (l1 & l2 & st' & -> & Hd & Hst'); [lia|lia|lia|lia|specialize (Hp eq_refl); lia|]. run. rewrite Hd. run. by eexists.
    + destruct f as [|q f]; [done|]. pose proof Hf as (Hpq & Hpr & Hp1 & Hp2 & _). rewrite <-Hpq in *. pose proof Hall as [(Hq1 & Hq2 & Hq3) _]%Forall_cons. rewrite rd_ent by done. run.
      destruct (grow_back_spec line1 line2 (e_line1 (ent es p)) (e_line2 (ent es p))) as (n1 & n2 & -> & G1 & G2 & G3 & G4); [lia..|]. run.
      destruct (stretch_spec line1 line2 n1 n2 st Hu) as (l1 & l2 & st' & -> & Hd & Hst'); [lia..|]. run. rewrite Hd. run.
      destruct (skip_entries (line1 - 1) (line2 - 1) p f ltac:(lia) Hf Hall) as (z & f' & -> & Z1 & Z2 & Z3 & Z4 & Z5 & Z6). run. eexists. split; [done|]. cbv beta iota. split; [|lia]. split; [lia|]. split; [lia|].
      split; [|split; [lia|exists f'; split; [by rewrite !Z.add_simpl_r|done]]].
      pose proof (upto_same n1 n2 st' (e_line1 (ent es z) + 1 - n1) Hst' ltac:(lia) ltac:(lia) ltac:(lia) ltac:(lia) ltac:(lia)) as Hs. replace (n1 + (e_line1 (ent es z) + 1 - n1)) with (e_line1 (ent es z) + 1) in Hs by lia. replace (n2 + (e_line1 (ent es z) + 1 - n1)) with (e_line2 (ent es z) + 1) in Hs by lia. apply Hs.
      intros k Hk. replace (n2 - n1) with (e_line2 (ent es p) - e_line1 (ent es p)) by lia. destruct (Z.lt_ge_cases k (e_line1 (ent es p))); [apply G4|apply Z4]; lia.
  - destruct f as [|q f]; [done|]. pose proof Hf as (Hpq & Hpr & Hp1 & Hp2 & _). pose proof Hall as [(Hq1 & Hq2 & _) _]%Forall_cons. rewrite Hpq in *. split; [lia|]. split; [lia|]. split; [|split; [lia|by exists (q :: f)]]. unfold upto. rewrite !Z.sub_diag. apply covers_same; [done|intros i Hi; lia|intros i Hi; lia|intros k Hk; lia].
  - destruct f as [|q f]; [done|]. pose proof Hf as (_ & _ & Hp1 & _). pose proof Hall as [(Hq1 & _) _]%Forall_cons. destruct Hf as (-> & _). lia.
Qed.
End walk.

(** * The recursion *)

Section recursion.
Context `{XdiffHOk} {A : Type} (x1 x2 : xdfile) (do_diff : list Z -> list Z -> xpparam -> outcome xdfenv) (xpp : xpparam) (lo1 lo2 : Z -> A).
Context (Hlo : forall i j, 0 <= i < nrec x1 -> 0 <= j < nrec x2 -> cls x1 i = cls x2 j -> lo1 i = lo2 j).
Context (Hfall : forall line1 count1 line2 count2 r1 r2, 1 <= line1 -> 1 <= count1 -> line1 - 1 + count1 <= nrec x1 -> 1 <= line2 -> 1 <= count2 -> line2 - 1 + count2 <= nrec x2 -> zlen r1 = nrec x1 + 2 -> zlen r2 = nrec x2 + 2 ->
  exists r1' r2', xdl_fall_back_diff do_diff x1 x2 (classic_param xpp) line1 count1 line2 count2 (r1, r2) = Ret (r1', r2') /\ covers lo1 lo2 (line1 - 1) count1 (line2 - 1) count2 r1 r2 r1' r2').

Lemma patience_spec fuel : forall line1 count1 line2 count2 r1 r2, (Z.to_nat count1 < fuel)%nat -> 1 <= line1 -> 0 <= count1 -> line1 - 1 + count1 <= nrec x1 -> 1 <= line2 -> 0 <= count2 -> line2 - 1 + count2 <= nrec x2 -> zlen r1 = nrec x1 + 2 -> zlen r2 = nrec x2 + 2 ->
  clear r1 (line1 - 1) count1 -> clear r2 (line2 - 1) count2 ->
  exists r1' r2', patience_diff x1 x2 xpp do_diff fuel line1 count1 line2 count2 (r1, r2) = Ret (r1', r2') /\ covers lo1 lo2 (line1 - 1) count1 (line2 - 1) count2 r1 r2 r1' r2'.
Proof.
  induction fuel as [|fuel IH]; intros line1 count1 line2 count2 r1 r2 Hfuel Hl1 Hc1 Hin1 Hl2 Hc2 Hin2 Hr1 Hr2 Hclr1 Hclr2; [lia|]. cbn [patience_diff].
  destruct (mark_both x1 x2 lo1 lo2 line1 count1 line2 count2 r1 r2) as (m1 & m2 & Hm1 & Hm2 & Hall); [done..|].
  destruct (tru count1) eqn:E1; cbn [negb]; [|apply tru_false in E1 as ->; rewrite mark_none in Hm1; injection Hm1 as <-; rewrite Hm2; run; by exists r1, m2].
  destruct (tru count2) eqn:E2; cbn [negb]; [|apply tru_false in E2 as ->; rewrite mark_none in Hm2; injection Hm2 as <-; rewrite Hm1; run; by exists m1, r2]. apply tru_true in E1, E2.
  destruct (fill_spec x1 x2 xpp line1 count1 line2 count2 Hl1 ltac:(lia) Hin1 Hl2 Hc2 Hin2) as (m & ord & -> & Hmap). run.
  destruct (has_matches m); cbn [negb]; [|rewrite Hm1; run; rewrite Hm2; run; by exists m1, m2].
  destruct (find_sequence_spec x1 x2 line1 count1 line2 count2 m ord Hmap) as (p & es & f & -> & Hk & Hf & Hu). run.
  destruct (Z.eqb_spec p (-1)) as [->|Hp]; cbn [negb]; [by apply Hfall; lia|]. unfold walk_common_sequence. destruct Hk as [Hlen Hk].
  destruct (walk_spec x1 x2 lo1 lo2 Hlo line1 count1 line2 count2 Hl1 Hin1 Hl2 Hin2 es r1 r2 Hr1 Hr2 Hclr1 Hclr2 (patience_diff x1 x2 xpp do_diff fuel)) with (first := p) (f := f) as ([t1 t2] & -> & Hup).
  - intros l1 c1 l2 c2 s1 s2 Hc. intros. apply IH; (done || lia).
  - done.
  - by intros ->.
  - eapply Forall_impl; [exact Hu|]. intros q Hq. destruct (unique_spec x1 x2 line1 count1 line2 count2 m ord Hmap q Hq) as (Hq0 & Hq1 & Hq2 & Hqc). destruct (Hk q ltac:(lia)) as [E3 E4]. unfold anchored. rewrite E3, E4. split; [lia|]. split; [lia|done].
  - exists t1, t2. split; [done|]. unfold upto in Hup. cbn [fst snd] in Hup. by replace (line1 + count1 - line1) with count1 in Hup by lia; replace (line2 + count2 - line2) with count2 in Hup by lia.
Qed.

(** Whole files without marks. *)
Lemma do_patience_spec : unmarked_file x1 -> unmarked_file x2 ->
  exists r1 r2, xdl_do_patience_diff x1 x2 xpp do_diff = Ret (XdfEnv (set_rchg r1 x1) (set_rchg r2 x2)) /\ covers lo1 lo2 0 (nrec x1) 0 (nrec x2) (rchg x1) (rchg x2) r1 r2.
Proof.
  intros [Hr1 _ _] [Hr2 _ _]. pose proof (zlen_nonneg (recs x1)) as Hn1. pose proof (zlen_nonneg (recs x2)) as Hn2. fold (nrec x1) in Hn1. fold (nrec x2) in Hn2. unfold xdl_do_patience_diff.
  destruct (patience_spec (S (Z.to_nat (nrec x1))) 1 (nrec x1) 1 (nrec x2) (rchg x1) (rchg x2)) as (r1 & r2 & -> & Hcov); [lia..|rewrite Hr1, zlen_replicate; lia|rewrite Hr2, zlen_replicate; lia|intros i Hi; rewrite Hr1; apply getk_replicate|intros i Hi; rewrite Hr2; apply getk_replicate|].
  run. by exists r1, r2.
Qed.
End recursion.
