(* ===== verification/XdiffDo.v ===== *)
(** xdiff_xdiffi.c, [xdl_do_diff]: two files compared by the algorithm that the flags ask
    for.  The patience and histogram algorithms call it again on parts of the files, for
    Myers' algorithm. *)
From S2P Require Import Prelude StrbufLines XdiffFile XdiffUtils XdiffPrepare XdiffRange XdiffHistogram XdiffPatience.

(** * Model *)

(** [fuel] bounds the depth of the calls. *)
Fixpoint do_diff_rec `{XdiffH} (junk : Z) (fuel : nat) (mf1 mf2 : list Z) (xpp : xpparam) : outcome xdfenv :=
  match fuel with
  | O => Undef
  | Datatypes.S fuel =>
      xe ← xdl_prepare_env junk mf1 mf2 (xpp_flags xpp);
      if XDF_DIFF_ALG (xpp_flags xpp) =? XDF_PATIENCE_DIFF then xdl_do_patience_diff (xdf1 xe) (xdf2 xe) xpp (do_diff_rec junk fuel)
      else if XDF_DIFF_ALG (xpp_flags xpp) =? XDF_HISTOGRAM_DIFF then xdl_do_histogram_diff (xdf1 xe) (xdf2 xe) (do_diff_rec junk fuel) xpp
      else myers_diff junk xe (xpp_flags xpp)
  end.

Definition xdl_do_diff `{XdiffH} (junk : Z) (mf1 mf2 : list Z) (xpp : xpparam) : outcome xdfenv := do_diff_rec junk 2 mf1 mf2 xpp.

(** * What it returns *)

Section spec.
Context `{XdiffHOk} (junk : Z).

(** The marks of a whole file. *)
Lemma covers_diffs flags mf1 mf2 x1 x2 r1 r2 : myers flags = false -> classed flags mf1 mf2 (XdfEnv x1 x2) -> unmarked_file x1 -> unmarked_file x2 ->
  covers (fun i => loose flags (line_at x1 i)) (fun i => loose flags (line_at x2 i)) 0 (nrec x1) 0 (nrec x2) (rchg x1) (rchg x2) r1 r2 -> diffs flags mf1 mf2 (XdfEnv (set_rchg r1 x1) (set_rchg r2 x2)).
Proof.
  intros Hmy Hcl [Hr1 _ _] [Hr2 _ _] [Hl1 Hl2 Ho1 Ho2 Hs]. pose proof (zlen_nonneg (recs x1)) as Hn1. pose proof (zlen_nonneg (recs x2)) as Hn2. fold (nrec x1) in Hn1. fold (nrec x2) in Hn2.
  assert (forall x r, 0 <= nrec x -> rchg x = replicate (Z.to_nat (nrec x + 2)) 0 -> zlen r = zlen (rchg x) -> (forall i, -1 <= i -> i < 0 \/ 0 + nrec x <= i -> mk r i = mk (rchg x) i) -> file_ok (set_rchg r x)) as Hok.
  { intros x r Hn Hr Hl Ho. split; [cbn [rchg set_rchg]; rewrite Hl, Hr, zlen_replicate, nrec_set_rchg; lia|..]; change (mark (set_rchg r x)) with (mk r); rewrite ?nrec_set_rchg, Ho by lia; unfold mk; rewrite Hr; apply getk_replicate. }
  split; cbn [xdf1 xdf2]; [by destruct Hcl; split|by apply Hok|by apply Hok|exact Hs|by rewrite Hmy].
Qed.

Lemma classic_myers xpp : myers (xpp_flags (classic_param xpp)) = true.
Proof.
  destruct xdf_algorithms as (Hp & Hh & _). unfold myers, XDF_DIFF_ALG, classic_param. cbn [xpp_flags]. rewrite <-Z.land_assoc, (Z.land_comm (Z.lnot _)), Z.land_lnot_diag, Z.land_0_r. by rewrite !(proj2 (Z.eqb_neq 0 _)) by done.
Qed.

Lemma do_diff_classic mf1 mf2 xpp fuel : myers (xpp_flags xpp) = true -> zlen mf1 + zlen mf2 + 5 <= 2 ^ 30 -> exists xe, do_diff_rec junk (S fuel) mf1 mf2 xpp = Ret xe /\ diffs (xpp_flags xpp) mf1 mf2 xe.
Proof.
  intros Hmy Hsize. cbn [do_diff_rec]. destruct (prepare_env_spec junk (xpp_flags xpp) mf1 mf2 Hsize) as (xe & -> & Hcl & Hn1 & Hn2 & Hx). run. rewrite Hmy in Hx. destruct Hx as (x1 & x2 & Hends & Hred1 & Hred2).
  unfold myers in Hmy. apply andb_true_iff in Hmy as [Hp Hh]. rewrite (proj1 (negb_true_iff _) Hp), (proj1 (negb_true_iff _) Hh).
  destruct (myers_diff_spec junk (xpp_flags xpp) mf1 mf2 xe x1 x2) as (xe' & -> & Hd & _); [done..|]. by exists xe'.
Qed.

(** The histogram algorithm gives up where too many lines share a chain of its table. *)
Lemma do_diff_spec mf1 mf2 xpp : zlen mf1 + zlen mf2 + 5 <= 2 ^ 30 ->
  wp (xdl_do_diff junk mf1 mf2 xpp) (diffs (xpp_flags xpp) mf1 mf2) (fun e => e = Error /\ XDF_DIFF_ALG (xpp_flags xpp) = XDF_HISTOGRAM_DIFF /\ max_chain_length < zlen (lines 10 mf1)).
Proof.
  intros Hsize. unfold xdl_do_diff. destruct (myers (xpp_flags xpp)) eqn:Hmy; [destruct (do_diff_classic mf1 mf2 xpp 1 Hmy Hsize) as (xe & -> & Hd); exact Hd|].
  change (do_diff_rec junk 2 mf1 mf2 xpp) with (xe ← xdl_prepare_env junk mf1 mf2 (xpp_flags xpp);
      if XDF_DIFF_ALG (xpp_flags xpp) =? XDF_PATIENCE_DIFF then xdl_do_patience_diff (xdf1 xe) (xdf2 xe) xpp (do_diff_rec junk 1)
      else if XDF_DIFF_ALG (xpp_flags xpp) =? XDF_HISTOGRAM_DIFF then xdl_do_histogram_diff (xdf1 xe) (xdf2 xe) (do_diff_rec junk 1) xpp
      else myers_diff junk xe (xpp_flags xpp)).
  destruct (prepare_env_spec junk (xpp_flags xpp) mf1 mf2 Hsize) as ([x1 x2] & -> & Hcl & Hn1 & Hn2 & Hx). run. rewrite Hmy in Hx. cbn [xdf1 xdf2] in *. destruct Hx as [Hu1 Hu2]. pose proof (zlen_nonneg mf1). pose proof (zlen_nonneg mf2).
  set (lo1 := fun i => loose (xpp_flags xpp) (line_at x1 i)). set (lo2 := fun i => loose (xpp_flags xpp) (line_at x2 i)).
  assert (forall i j, 0 <= i < nrec x1 -> 0 <= j < nrec x2 -> cls x1 i = cls x2 j -> lo1 i = lo2 j) as Hlo by (intros i j Hi Hj; apply (classed_same _ _ _ _ _ _ _ _ Hcl); [by left|by right|done|done]).
  pose proof (fall_back_spec xpp mf1 mf2 x1 x2 (do_diff_rec junk 1) Hcl Hsize (fun t1 t2 Ht => do_diff_classic t1 t2 (classic_param xpp) 0 (classic_myers xpp) Ht)) as Hfall. fold lo1 lo2 in Hfall.
  destruct (Z.eqb_spec (XDF_DIFF_ALG (xpp_flags xpp)) XDF_PATIENCE_DIFF) as [Hp|Hp].
  - destruct (do_patience_spec x1 x2 (do_diff_rec junk 1) xpp lo1 lo2 Hlo Hfall Hu1 Hu2) as (r1 & r2 & -> & Hcov). by apply covers_diffs.
  - destruct (Z.eqb_spec (XDF_DIFF_ALG (xpp_flags xpp)) XDF_HISTOGRAM_DIFF) as [Hh|Hh].
    + eapply wp_mono; [by apply (do_histogram_spec x1 x2 (do_diff_rec junk 1) xpp lo1 lo2 Hlo ltac:(lia) Hfall Hu1 Hu2)| |].
      2: { intros e [-> Hn]. split; [done|]. split; [done|]. pose proof (classed_lines1 _ _ _ _ Hcl) as Hl. cbn [xdf1] in Hl. rewrite <-Hl. unfold zlen. rewrite length_fmap. exact Hn. }
      intros xe (r1 & r2 & -> & Hcov). by apply covers_diffs.
    + exfalso. unfold myers in Hmy. by rewrite (proj2 (Z.eqb_neq _ _) Hp), (proj2 (Z.eqb_neq _ _) Hh) in Hmy.
Qed.
End spec.
