(* ===== verification/XdiffCompact.v ===== *)
(** xdiff_xdiffi.c, [xdl_change_compact]: groups of changed lines slide up and down where
    the lines around them match, to merge, to align with groups of the other file, or to
    where a split of the text reads best.  The theorem is that the calls of [BUG] are not
    reached and that the lines outside of the groups stay the same. *)
From S2P Require Import Prelude XdiffFile XdiffUtils.

(** * Model *)

(** [struct xdlgroup] *)
Record xdlgroup := Group { g_start : Z; g_end : Z }.

(** [while (xdf->rchg[i]) i++;] and [while (xdf->rchg[i - 1]) i--;] *)
Definition run_down_step (xdf : xdfile) (i : Z) : outcome (Z + Z) :=
  m ← rd (rchg xdf) (i + 1);
  Ret (if tru m then inl (i + 1) else inr i).

Definition run_up_step (xdf : xdfile) (i : Z) : outcome (Z + Z) :=
  m ← rd (rchg xdf) (i - 1 + 1);
  Ret (if tru m then inl (i - 1) else inr i).

Definition run_down (xdf : xdfile) (i : Z) : outcome Z := loop (S (Z.to_nat (nrec xdf - i + 1))) (run_down_step xdf) i.
Definition run_up (xdf : xdfile) (i : Z) : outcome Z := loop (S (Z.to_nat (i + 1))) (run_up_step xdf) i.

Definition group_init (xdf : xdfile) : outcome xdlgroup :=
  e ← run_down xdf 0;
  Ret (Group 0 e).

(** [None] is the return of -1. *)
Definition group_next (xdf : xdfile) (g : xdlgroup) : outcome (option xdlgroup) :=
  if g_end g =? nrec xdf then Ret None else
  let start := g_end g + 1 in
  e ← run_down xdf start;
  Ret (Some (Group start e)).

Definition group_previous (xdf : xdfile) (g : xdlgroup) : outcome (option xdlgroup) :=
  if g_start g =? 0 then Ret None else
  let e := g_start g - 1 in
  s ← run_up xdf e;
  Ret (Some (Group s e)).

Definition recs_match (rec1 rec2 : xrecord) : bool := rec_ha rec1 =? rec_ha rec2.

Definition group_slide_down (xdf : xdfile) (g : xdlgroup) : outcome (option (xdfile * xdlgroup)) :=
  if negb (g_end g <? nrec xdf) then Ret None else
  r1 ← rd (recs xdf) (g_start g);
  r2 ← rd (recs xdf) (g_end g);
  if negb (recs_match r1 r2) then Ret None else
  r ← wr (rchg xdf) (g_start g + 1) 0;
  r ← wr r (g_end g + 1) 1;
  let xdf := set_rchg r xdf in
  e ← run_down xdf (g_end g + 1);
  Ret (Some (xdf, Group (g_start g + 1) e)).

Definition group_slide_up (xdf : xdfile) (g : xdlgroup) : outcome (option (xdfile * xdlgroup)) :=
  if negb (g_start g >? 0) then Ret None else
  r1 ← rd (recs xdf) (g_start g - 1);
  r2 ← rd (recs xdf) (g_end g - 1);
  if negb (recs_match r1 r2) then Ret None else
  r ← wr (rchg xdf) (g_start g - 1 + 1) 1;
  r ← wr r (g_end g - 1 + 1) 0;
  let xdf := set_rchg r xdf in
  s ← run_up xdf (g_start g - 1);
  Ret (Some (xdf, Group s (g_end g - 1))).

(** ** Where to split *)

Definition MAX_INDENT : Z := 200.
Definition MAX_BLANKS : Z := 20.
Definition START_OF_FILE_PENALTY : Z := 1.
Definition END_OF_FILE_PENALTY : Z := 21.
Definition TOTAL_BLANK_WEIGHT : Z := -30.
Definition POST_BLANK_WEIGHT : Z := 6.
Definition RELATIVE_INDENT_PENALTY : Z := -4.
Definition RELATIVE_INDENT_WITH_BLANK_PENALTY : Z := 10.
Definition RELATIVE_OUTDENT_PENALTY : Z := 24.
Definition RELATIVE_OUTDENT_WITH_BLANK_PENALTY : Z := 17.
Definition RELATIVE_DEDENT_PENALTY : Z := 23.
Definition RELATIVE_DEDENT_WITH_BLANK_PENALTY : Z := 17.
Definition INDENT_WEIGHT : Z := 60.
Definition INDENT_HEURISTIC_MAX_SLIDING : Z := 100.

(** [struct split_measurement] and [struct split_score] *)
Record split_measurement := Measurement { end_of_file : bool; indent : Z; pre_blank : Z; pre_indent : Z; post_blank : Z; post_indent : Z }.
Record split_score := Score { effective_indent : Z; penalty : Z }.

Section model.
Context `{XdiffH}.

Definition indent_step (line : list Z) (st : Z * Z) : outcome ((Z * Z) + Z) :=
  let '(i, ret) := st in
  if negb (i <? zlen line) then Ret (inr (-1)) else
  c ← rd line i;
  if negb (XDL_ISSPACE c) then Ret (inr ret) else
  let ret := if c =? 32 then ret + 1 else if c =? 9 then ret + (8 - Z.rem ret 8) else ret in
  if ret >=? MAX_INDENT then Ret (inr MAX_INDENT) else Ret (inl (i + 1, ret)).

Definition get_indent (rec : xrecord) : outcome Z := loop (S (length (rec_line rec))) (indent_step (rec_line rec)) (0, 0).

(** One line above ([dir] is -1) or below the split: how many were blank, and the indent
    of the first that was not. *)
Definition blank_step (xdf : xdfile) (dir : Z) (st : Z * Z) : outcome ((Z * Z) + (Z * Z)) :=
  let '(i, blank) := st in
  if negb (if dir <? 0 then i >=? 0 else i <? nrec xdf) then Ret (inr (blank, -1)) else
  rec ← rd (recs xdf) i;
  ind ← get_indent rec;
  if negb (ind =? -1) then Ret (inr (blank, ind)) else
  let blank := blank + 1 in
  if blank =? MAX_BLANKS then Ret (inr (blank, 0)) else Ret (inl (i + dir, blank)).

Definition measure_split (xdf : xdfile) (split : Z) : outcome split_measurement :=
  '(eof, ind) ← (if split >=? nrec xdf then Ret (true, -1) else rec ← rd (recs xdf) split; ind ← get_indent rec; Ret (false, ind));
  '(pre_blank, pre_indent) ← loop (S (Z.to_nat MAX_BLANKS)) (blank_step xdf (-1)) (split - 1, 0);
  '(post_blank, post_indent) ← loop (S (Z.to_nat MAX_BLANKS)) (blank_step xdf 1) (split + 1, 0);
  Ret (Measurement eof ind pre_blank pre_indent post_blank post_indent).

Definition score_add_split (m : split_measurement) (s : split_score) : split_score :=
  let p := penalty s in
  let p := if (pre_indent m =? -1) && (pre_blank m =? 0) then p + START_OF_FILE_PENALTY else p in
  let p := if end_of_file m then p + END_OF_FILE_PENALTY else p in
  let post_blank := if indent m =? -1 then 1 + post_blank m else 0 in
  let total_blank := pre_blank m + post_blank in
  let p := p + TOTAL_BLANK_WEIGHT * total_blank in
  let p := p + POST_BLANK_WEIGHT * post_blank in
  let indent := if negb (indent m =? -1) then indent m else post_indent m in
  let any_blanks := negb (total_blank =? 0) in
  let e := effective_indent s + indent in
  let p :=
    if indent =? -1 then p
    else if pre_indent m =? -1 then p
    else if indent >? pre_indent m then p + (if any_blanks then RELATIVE_INDENT_WITH_BLANK_PENALTY else RELATIVE_INDENT_PENALTY)
    else if indent =? pre_indent m then p
    else if negb (post_indent m =? -1) && (post_indent m >? indent) then p + (if any_blanks then RELATIVE_OUTDENT_WITH_BLANK_PENALTY else RELATIVE_OUTDENT_PENALTY)
    else p + (if any_blanks then RELATIVE_DEDENT_WITH_BLANK_PENALTY else RELATIVE_DEDENT_PENALTY) in
  Score e p.

Definition score_cmp (s1 s2 : split_score) : Z :=
  let cmp_indents := Z.b2z (effective_indent s1 >? effective_indent s2) - Z.b2z (effective_indent s1 <? effective_indent s2) in
  INDENT_WEIGHT * cmp_indents + (penalty s1 - penalty s2).

(** One shift, on [best_shift] and [best_score]. *)
Definition shift_step (xdf : xdfile) (groupsize : Z) (shift : Z) (st : Z * split_score) : outcome (Z * split_score) :=
  let '(best_shift, best_score) := st in
  m ← measure_split xdf shift;
  let score := score_add_split m (Score 0 0) in
  m ← measure_split xdf (shift - groupsize);
  let score := score_add_split m score in
  Ret (if (best_shift =? -1) || (score_cmp score best_score <=? 0) then (shift, score) else (best_shift, best_score)).

Definition find_shift (xdf : xdfile) (g : xdlgroup) (earliest_end groupsize : Z) : outcome Z :=
  let shift := earliest_end in
  let shift := if g_end g - groupsize - 1 >? shift then g_end g - groupsize - 1 else shift in
  let shift := if g_end g - INDENT_HEURISTIC_MAX_SLIDING >? shift then g_end g - INDENT_HEURISTIC_MAX_SLIDING else shift in
  '(best_shift, _) ← for_n (Z.to_nat (g_end g - shift + 1)) shift (shift_step xdf groupsize) (-1, Score 0 0);
  Ret best_shift.

(** ** Compaction *)

(** A file with its group, and the group of the other file. *)
Notation state := (xdfile * xdlgroup * xdlgroup)%type.

Definition unless {A} (c : outcome (option A)) : outcome A := r ← c; match r with Some a => Ret a | None => Err Bug end.

(** [while (!group_slide_up(xdf, &g)) if (group_previous(xdfo, &go)) BUG();] *)
Definition shift_up_step (xdfo : xdfile) (st : state) : outcome (state + state) :=
  let '(xdf, g, go) := st in
  r ← group_slide_up xdf g;
  match r with
  | None => Ret (inr st)
  | Some (xdf, g) => go ← unless (group_previous xdfo go); Ret (inl (xdf, g, go))
  end.

(** The same down; it also keeps [end_matching_other]. *)
Definition shift_down_step (xdfo : xdfile) (st : state * Z) : outcome (state * Z + state * Z) :=
  let '(xdf, g, go, em) := st in
  r ← group_slide_down xdf g;
  match r with
  | None => Ret (inr st)
  | Some (xdf, g) => go ← unless (group_next xdfo go); Ret (inl (xdf, g, go, if g_end go >? g_start go then g_end g else em))
  end.

(** One round of [do ... while (groupsize != g.end - g.start)], on the state; at the end
    also [earliest_end], [end_matching_other] and [groupsize]. *)
Definition merge_step (xdfo : xdfile) (st : state) : outcome (state + state * Z * Z * Z) :=
  let '(xdf, g, go) := st in
  let groupsize := g_end g - g_start g in
  '(xdf, g, go) ← loop (S (Z.to_nat (g_end g))) (shift_up_step xdfo) (xdf, g, go);
  let earliest_end := g_end g in
  let em := if g_end go >? g_start go then g_end g else -1 in
  '(xdf, g, go, em) ← loop (S (Z.to_nat (nrec xdf - g_end g))) (shift_down_step xdfo) (xdf, g, go, em);
  Ret (if groupsize =? g_end g - g_start g then inr (xdf, g, go, earliest_end, em, groupsize) else inl (xdf, g, go)).

(** Back up to where the groups align. *)
Definition align_step (xdfo : xdfile) (st : state) : outcome (state + state) :=
  let '(xdf, g, go) := st in
  if negb (g_end go =? g_start go) then Ret (inr st) else
  '(xdf, g) ← unless (group_slide_up xdf g);
  go ← unless (group_previous xdfo go);
  Ret (inl (xdf, g, go)).

(** Back up to the best shift. *)
Definition reach_step (xdfo : xdfile) (best_shift : Z) (st : state) : outcome (state + state) :=
  let '(xdf, g, go) := st in
  if negb (g_end g >? best_shift) then Ret (inr st) else
  '(xdf, g) ← unless (group_slide_up xdf g);
  go ← unless (group_previous xdfo go);
  Ret (inl (xdf, g, go)).

(** What becomes of one group. *)
Definition compact_group (xdfo : xdfile) (flags : Z) (st : state) : outcome state :=
  let '(xdf, g, go) := st in
  if g_end g =? g_start g then Ret st else
  '(xdf, g, go, earliest_end, em, groupsize) ← loop (S (Z.to_nat (nrec xdf))) (merge_step xdfo) (xdf, g, go);
  if g_end g =? earliest_end then Ret (xdf, g, go) else
  if negb (em =? -1) then loop (S (Z.to_nat (g_end g))) (align_step xdfo) (xdf, g, go) else
  if flag flags XDF_INDENT_HEURISTIC then
    best_shift ← find_shift xdf g earliest_end groupsize;
    loop (S (Z.to_nat (g_end g))) (reach_step xdfo best_shift) (xdf, g, go)
  else Ret (xdf, g, go).

Definition compact_step (xdfo : xdfile) (flags : Z) (st : state) : outcome (state + state) :=
  '(xdf, g, go) ← compact_group xdfo flags st;
  r ← group_next xdf g;
  match r with
  | None => Ret (inr (xdf, g, go))
  | Some g => go ← unless (group_next xdfo go); Ret (inl (xdf, g, go))
  end.

Definition xdl_change_compact (xdf xdfo : xdfile) (flags : Z) : outcome xdfile :=
  g ← group_init xdf;
  go ← group_init xdfo;
  '(xdf, g, go) ← loop (S (Z.to_nat ((nrec xdf + 1) * (nrec xdf + 2)))) (compact_step xdfo flags) (xdf, g, go);
  r ← group_next xdfo go;
  match r with Some _ => Err Bug | None => Ret xdf end.
End model.

(** * Groups *)

Section groups.
Implicit Types (xdf : xdfile) (g : xdlgroup) (i j : Z).

Lemma run_down_spec xdf i : file_ok xdf -> 0 <= i <= nrec xdf -> exists e, run_down xdf i = Ret e /\ i <= e <= nrec xdf /\ mark xdf e = 0 /\ forall j, i <= j < e -> mark xdf j <> 0.
Proof.
  intros Hok Hi. apply (loop_ret (fun e => i <= e <= nrec xdf /\ forall j, i <= j < e -> mark xdf j <> 0) (fun e => nrec xdf - e)); [|split; [lia|intros j Hj; lia]|lia].
  intros e [He Hrun]. unfold run_down_step. rewrite rd_mark by (done || lia). run. eexists. split; [done|]. destruct (tru (mark xdf e)) eqn:E.
  - apply tru_true in E. assert (e <> nrec xdf) by (intros ->; by rewrite (file_last _ Hok) in E). split; [|lia]. split; [lia|]. intros j Hj. destruct (Z.eq_dec j e) as [->|]; [done|]. apply Hrun. lia.
  - apply tru_false in E. auto.
Qed.

Lemma run_up_spec xdf i : file_ok xdf -> 0 <= i <= nrec xdf -> exists s, run_up xdf i = Ret s /\ 0 <= s <= i /\ mark xdf (s - 1) = 0 /\ forall j, s <= j < i -> mark xdf j <> 0.
Proof.
  intros Hok Hi. apply (loop_ret (fun s => 0 <= s <= i /\ forall j, s <= j < i -> mark xdf j <> 0) (fun s => s)); [|split; [lia|intros j Hj; lia]|lia].
  intros s [Hs Hrun]. unfold run_up_step. rewrite rd_mark by (done || lia). run. eexists. split; [done|]. destruct (tru (mark xdf (s - 1))) eqn:E.
  - apply tru_true in E. assert (s <> 0) by (intros ->; apply E; by apply file_first). split; [|lia]. split; [lia|]. intros j Hj. destruct (Z.eq_dec j (s - 1)) as [->|]; [done|]. apply Hrun. lia.
  - apply tru_false in E. auto.
Qed.

(** A group of changed lines, with lines that did not change or the ends of the file
    around it. *)
Record grp xdf g : Prop := {
  grp_range : 0 <= g_start g <= g_end g /\ g_end g <= nrec xdf;
  grp_marks : forall j, g_start g <= j < g_end g -> mark xdf j <> 0;
  grp_before : mark xdf (g_start g - 1) = 0;
  grp_after : mark xdf (g_end g) = 0;
}.

(** Which group of the file it is. *)
Definition place xdf g : Z := cnt (mark xdf) (g_start g).

Lemma place_end xdf g : grp xdf g -> cnt (mark xdf) (g_end g) = place xdf g.
Proof. intros [Hr Hm _ _]. apply cnt_run; [lia|done]. Qed.

Lemma place_range xdf g : grp xdf g -> 0 <= place xdf g <= total xdf.
Proof.
  intros Hg. pose proof Hg as [Hr _ _ _]. unfold place, total. pose proof (cnt_mono (mark xdf) 0 (g_start g) ltac:(lia)). pose proof (cnt_mono (mark xdf) (g_start g) (nrec xdf) ltac:(lia)). rewrite cnt_0 in *. lia.
Qed.

Lemma place_first xdf g : grp xdf g -> place xdf g = 0 <-> g_start g = 0.
Proof.
  intros [Hr _ Hb _]. unfold place. split; [|intros ->; apply cnt_0]. intros Hp. destruct (Z.eq_dec (g_start g) 0); [done|].
  pose proof (cnt_next (mark xdf) (g_start g - 1) ltac:(lia)) as Hn. replace (g_start g - 1 + 1) with (g_start g) in Hn by lia. rewrite Hb in Hn. cbn in Hn. pose proof (cnt_mono (mark xdf) 0 (g_start g - 1) ltac:(lia)). rewrite cnt_0 in *. lia.
Qed.

Lemma place_last xdf g : grp xdf g -> place xdf g = total xdf <-> g_end g = nrec xdf.
Proof.
  intros Hg. pose proof (place_end _ _ Hg) as He. destruct Hg as [Hr _ _ Ha]. unfold total. split; [|intros Heq; by rewrite Heq in He]. intros Hp. destruct (Z.eq_dec (g_end g) (nrec xdf)); [done|].
  pose proof (cnt_next (mark xdf) (g_end g) ltac:(lia)) as Hn. rewrite Ha in Hn. cbn in Hn. pose proof (cnt_mono (mark xdf) (g_end g + 1) (nrec xdf) ltac:(lia)). lia.
Qed.

(** A group is known by its place. *)
Lemma place_lt xdf g g' : grp xdf g -> grp xdf g' -> g_start g < g_start g' -> place xdf g < place xdf g'.
Proof.
  intros [Hr _ _ _] [Hr' _ Hb' _] Hlt. unfold place. pose proof (cnt_next (mark xdf) (g_start g' - 1) ltac:(lia)) as Hn. replace (g_start g' - 1 + 1) with (g_start g') in Hn by lia. rewrite Hb' in Hn. cbn in Hn.
  pose proof (cnt_mono (mark xdf) (g_start g) (g_start g' - 1) ltac:(lia)). lia.
Qed.

Lemma place_inj xdf g g' : grp xdf g -> grp xdf g' -> place xdf g = place xdf g' -> g = g'.
Proof.
  intros Hg Hg' Hp. assert (g_start g = g_start g') as Hs.
  { destruct (Z.lt_trichotomy (g_start g) (g_start g')) as [Hlt|[Heq|Hlt]]; [|done|]; [pose proof (place_lt _ _ _ Hg Hg' Hlt)|pose proof (place_lt _ _ _ Hg' Hg Hlt)]; lia. }
  destruct Hg as [Hr Hm _ Ha], Hg' as [Hr' Hm' _ Ha']. assert (g_end g = g_end g') as He.
  { destruct (Z.lt_trichotomy (g_end g) (g_end g')) as [Hlt|[Heq|Hlt]]; [|done|]; exfalso; [by apply (Hm' (g_end g)); [lia|]|by apply (Hm (g_end g')); [lia|]]. }
  destruct g, g'; cbn in *; congruence.
Qed.

Lemma group_init_spec xdf : file_ok xdf -> exists g, group_init xdf = Ret g /\ grp xdf g /\ place xdf g = 0.
Proof.
  intros Hok. pose proof (zlen_nonneg (recs xdf)) as Hn. fold (nrec xdf) in Hn. unfold group_init. destruct (run_down_spec xdf 0 Hok ltac:(lia)) as (e & -> & He & Hm & Hrun). run. eexists. split; [done|].
  split; [|apply cnt_0]. split; cbn [g_start g_end]; [lia|done|by apply file_first|done].
Qed.

Lemma group_next_spec xdf g : file_ok xdf -> grp xdf g ->
  exists r, group_next xdf g = Ret r /\ match r with None => place xdf g = total xdf | Some g' => grp xdf g' /\ place xdf g' = place xdf g + 1 /\ g_start g' = g_end g + 1 /\ place xdf g < total xdf end.
Proof.
  intros Hok Hg. pose proof (place_last _ _ Hg) as Hl. pose proof (place_end _ _ Hg) as He. pose proof (place_range _ _ Hg) as Hpr. pose proof Hg as [Hr Hm Hb Ha]. unfold group_next. destruct (Z.eqb_spec (g_end g) (nrec xdf)) as [Heq|Hne].
  - exists None. split; [done|]. by apply Hl.
  - destruct (run_down_spec xdf (g_end g + 1) Hok ltac:(lia)) as (e & -> & Hee & Hme & Hrun). run. eexists. split; [done|]. cbn [g_start g_end]. split; [|split; [|split; [done|]]].
    + split; cbn [g_start g_end]; [lia|done| |done]. by replace (g_end g + 1 - 1) with (g_end g) by lia.
    + unfold place at 1. cbn [g_start]. rewrite cnt_next, Ha by lia. cbn. lia.
    + destruct (Z.eq_dec (place xdf g) (total xdf)) as [Hp|]; [|lia]. by apply Hl in Hp.
Qed.

Lemma group_previous_spec xdf g : file_ok xdf -> grp xdf g ->
  exists r, group_previous xdf g = Ret r /\ match r with None => place xdf g = 0 | Some g' => grp xdf g' /\ place xdf g' = place xdf g - 1 end.
Proof.
  intros Hok Hg. pose proof (place_first _ _ Hg) as Hl. pose proof Hg as [Hr Hm Hb Ha]. unfold group_previous. destruct (Z.eqb_spec (g_start g) 0) as [Heq|Hne].
  - exists None. split; [done|]. by apply Hl.
  - destruct (run_up_spec xdf (g_start g - 1) Hok ltac:(lia)) as (s & -> & Hs & Hms & Hrun). run. eexists. split; [done|].
    assert (grp xdf (Group s (g_start g - 1))) as Hg' by (split; cbn [g_start g_end]; [lia|done..]). split; [done|]. rewrite <-(place_end _ _ Hg'). cbn [g_end]. unfold place.
    pose proof (cnt_next (mark xdf) (g_start g - 1) ltac:(lia)) as Hn. replace (g_start g - 1 + 1) with (g_start g) in Hn by lia. rewrite Hb in Hn. cbn in Hn. lia.
Qed.

(** ** Sliding *)

(** The same lines, and the same lines without a mark. *)
Record same_file xdf xdf' : Prop := {
  same_recs : recs xdf' = recs xdf;
  same_ok : file_ok xdf';
  same_rest : rest xdf' = rest xdf;
}.

Lemma same_refl xdf : file_ok xdf -> same_file xdf xdf.
Proof. by split. Qed.

Lemma same_trans xdf xdf' xdf'' : same_file xdf xdf' -> same_file xdf' xdf'' -> same_file xdf xdf''.
Proof. intros [H1 _ H2] [H3 ? H4]. split; [congruence|done|congruence]. Qed.

Lemma same_nrec xdf xdf' : same_file xdf xdf' -> nrec xdf' = nrec xdf.
Proof. intros [Hr _ _]. unfold nrec. by rewrite Hr. Qed.

Lemma same_cls xdf xdf' : same_file xdf xdf' -> cls xdf' = cls xdf.
Proof. intros [Hr _ _]. unfold cls, classes. by rewrite Hr. Qed.

Lemma total_rest xdf : total xdf = zlen (rest xdf).
Proof. unfold rest. by rewrite unmarked_len. Qed.

Lemma same_total xdf xdf' : same_file xdf xdf' -> total xdf' = total xdf.
Proof. intros [_ _ Hr]. by rewrite !total_rest, Hr. Qed.

(** A mark moves from one line to another of the same class, with marks between them. *)
Lemma move_mark xdf a b : file_ok xdf -> 0 <= a < nrec xdf -> 0 <= b < nrec xdf -> a <> b -> cls xdf a = cls xdf b -> mark xdf a = 0 -> mark xdf b <> 0 -> (forall j, Z.min a b < j < Z.max a b -> mark xdf j <> 0) ->
  exists r r', wr (rchg xdf) (a + 1) 1 = Ret r /\ wr r (b + 1) 0 = Ret r' /\ same_file xdf (set_rchg r' xdf) /\ (forall j, -1 <= j -> mark (set_rchg r' xdf) j = if decide (j = b) then 0 else if decide (j = a) then 1 else mark xdf j) /\
    exists q, wr (rchg xdf) (b + 1) 0 = Ret q /\ wr q (a + 1) 1 = Ret r'.
Proof.
  intros Hok Ha Hb Hab Hcls Hma Hmb Hbetween. destruct (wr_mark xdf a 1 Hok Ha) as (r & Hr & Hok1 & Hm1). destruct (wr_mark (set_rchg r xdf) b 0 Hok1 Hb) as (r' & Hr' & Hok2 & Hm2). cbn [rchg set_rchg] in Hr'.
  change (set_rchg r' (set_rchg r xdf)) with (set_rchg r' xdf) in *. exists r, r'. split; [done|]. split; [done|].
  assert (forall j, -1 <= j -> mark (set_rchg r' xdf) j = if decide (j = b) then 0 else if decide (j = a) then 1 else mark xdf j) as Hm by (intros j Hj; by rewrite Hm2, Hm1).
  split; [|split; [done|]].
  - split; [done|done|]. unfold rest. rewrite cls_set_rchg, nrec_set_rchg. set (lo := Z.min a b) in *. set (hi := Z.max a b) in *.
    rewrite !(unmarked_app _ _ 0 lo (nrec xdf)) by lia. rewrite !(unmarked_app _ _ lo (hi + 1) (nrec xdf)) by lia. f_equal; [|f_equal].
    + apply unmarked_ext. intros i Hi. split; [done|]. rewrite Hm, !decide_False by lia. done.
    + rewrite (unmarked_solo (cls xdf) (mark xdf) lo (hi + 1) a), (unmarked_solo (cls xdf) (mark (set_rchg r' xdf)) lo (hi + 1) b); [by rewrite Hcls|lia|rewrite Hm, decide_True by lia; done| |lia|done|].
      * intros i Hi Hne. rewrite Hm, decide_False by lia. case_decide; [done|]. apply Hbetween. lia.
      * intros i Hi Hne. destruct (Z.eq_dec i b) as [->|]; [done|]. apply Hbetween. lia.
    + apply unmarked_ext. intros i Hi. split; [done|]. rewrite Hm, !decide_False by lia. done.
  - rewrite wr_in in Hr by (rewrite (file_len _ Hok); lia). injection Hr as <-. rewrite wr_in in Hr' by (rewrite zlen_insert, (file_len _ Hok); lia). injection Hr' as <-.
    eexists. rewrite wr_in by (rewrite (file_len _ Hok); lia). split; [done|]. rewrite wr_in by (rewrite zlen_insert, (file_len _ Hok); lia). f_equal. apply list_insert_insert_ne. lia.
Qed.

Lemma slide_up_spec xdf g : file_ok xdf -> grp xdf g -> g_start g < g_end g ->
  exists r, group_slide_up xdf g = Ret r /\
    match r with
    | None => ~ (0 < g_start g /\ cls xdf (g_start g - 1) = cls xdf (g_end g - 1))
    | Some (xdf', g') => same_file xdf xdf' /\ grp xdf' g' /\ place xdf' g' = place xdf g - 1 /\ g_end g' = g_end g - 1 /\ g_start g' <= g_start g - 1 /\
        (forall j, -1 <= j < g_start g - 1 -> mark xdf' j = mark xdf j) /\ (mark xdf (g_start g - 2) = 0 -> g_start g' = g_start g - 1)
    end.
Proof.
  intros Hok [Hr Hm Hb Ha] Hne. unfold group_slide_up. rewrite Z.gtb_ltb. destruct (Z.ltb_spec 0 (g_start g)) as [Hs|Hs]; cbn [negb]; [|exists None; split; [done|]; lia].
  destruct (rd_rec xdf (g_start g - 1)) as (r1 & -> & _ & Hc1); [lia|]. run. destruct (rd_rec xdf (g_end g - 1)) as (r2 & -> & _ & Hc2); [lia|]. run. unfold recs_match. rewrite Hc1, Hc2.
  destruct (Z.eqb_spec (cls xdf (g_start g - 1)) (cls xdf (g_end g - 1))) as [Heq|Hcne]; cbn [negb]; [|exists None; split; [done|]; tauto].
  destruct (move_mark xdf (g_start g - 1) (g_end g - 1) Hok) as (r & r' & -> & Hr' & Hsame & Hmarks & _); [lia|lia|lia|done|done|apply Hm; lia|intros j Hj; apply Hm; lia|]. run. rewrite Hr'. run.
  pose proof (same_ok _ _ Hsame) as Hok'. set (xdf' := set_rchg r' xdf) in *. change (nrec xdf) with (nrec xdf') in Hr.
  destruct (run_up_spec xdf' (g_start g - 1) Hok' ltac:(lia)) as (s & -> & Hsr & Hsm & Hrun). run. eexists. split; [done|]. split; [done|].
  assert (forall j, -1 <= j < g_start g - 1 -> mark xdf' j = mark xdf j) as Hkeep by (intros j Hj; rewrite Hmarks, !decide_False by lia; done).
  split; [|split; [|split; [done|split; [cbn [g_start]; lia|split; [done|]]]]].
  - split; cbn [g_start g_end]; [lia| |done|rewrite Hmarks, decide_True by lia; done].
    intros j Hj. destruct (Z.lt_ge_cases j (g_start g - 1)); [apply Hrun; lia|]. rewrite Hmarks, decide_False by lia. case_decide; [done|]. apply Hm. lia.
  - unfold place. cbn [g_start]. rewrite <-(cnt_run (mark xdf') s (g_start g - 1)) by (lia || (intros k Hk; apply Hrun; lia)). rewrite (cnt_ext (mark xdf') (mark xdf)) by (intros j Hj; apply Hkeep; lia).
    pose proof (cnt_next (mark xdf) (g_start g - 1) ltac:(lia)) as Hn. replace (g_start g - 1 + 1) with (g_start g) in Hn by lia. rewrite Hb in Hn. cbn in Hn. lia.
  - cbn [g_start]. intros Hm2. destruct (Z.eq_dec s (g_start g - 1)) as [|Hsne]; [done|]. exfalso. apply (Hrun (g_start g - 2)); [lia|]. by rewrite Hkeep by lia.
Qed.

Lemma slide_down_spec xdf g : file_ok xdf -> grp xdf g -> g_start g < g_end g ->
  exists r, group_slide_down xdf g = Ret r /\
    match r with
    | None => True
    | Some (xdf', g') => same_file xdf xdf' /\ grp xdf' g' /\ place xdf' g' = place xdf g + 1 /\ g_start g' = g_start g + 1 /\ g_end g + 1 <= g_end g' /\
        (forall j, -1 <= j < g_start g -> mark xdf' j = mark xdf j) /\ mark xdf' (g_start g) = 0 /\ cls xdf (g_start g) = cls xdf (g_end g)
    end.
Proof.
  intros Hok [Hr Hm Hb Ha] Hne. unfold group_slide_down. destruct (Z.ltb_spec (g_end g) (nrec xdf)) as [Hs|Hs]; cbn [negb]; [|by exists None].
  destruct (rd_rec xdf (g_start g)) as (r1 & -> & _ & Hc1); [lia|]. run. destruct (rd_rec xdf (g_end g)) as (r2 & -> & _ & Hc2); [lia|]. run. unfold recs_match. rewrite Hc1, Hc2.
  destruct (Z.eqb_spec (cls xdf (g_start g)) (cls xdf (g_end g))) as [Heq|Hcne]; cbn [negb]; [|by exists None].
  destruct (move_mark xdf (g_end g) (g_start g) Hok) as (_ & r' & _ & _ & Hsame & Hmarks & q & -> & Hr'); [lia|lia|lia|done|done|apply Hm; lia|intros j Hj; apply Hm; lia|]. run. rewrite Hr'. run.
  pose proof (same_ok _ _ Hsame) as Hok'. set (xdf' := set_rchg r' xdf) in *. change (nrec xdf) with (nrec xdf') in Hr, Hs.
  destruct (run_down_spec xdf' (g_end g + 1) Hok' ltac:(lia)) as (e & -> & Her & Hem & Hrun). run. eexists. split; [done|]. split; [done|].
  assert (forall j, -1 <= j < g_start g -> mark xdf' j = mark xdf j) as Hkeep by (intros j Hj; rewrite Hmarks, !decide_False by lia; done).
  assert (mark xdf' (g_start g) = 0) as H0 by (rewrite Hmarks, decide_True by lia; done).
  split; [|split; [|split; [done|split; [cbn [g_end]; lia|done]]]].
  - split; cbn [g_start g_end]; [lia| |by replace (g_start g + 1 - 1) with (g_start g) by lia|done].
    intros j Hj. destruct (Z.le_gt_cases (g_end g + 1) j); [apply Hrun; lia|]. rewrite Hmarks, decide_False by lia. case_decide; [done|]. apply Hm. lia.
  - unfold place. cbn [g_start]. rewrite cnt_next, H0 by lia. cbn. f_equal. apply cnt_ext. intros j Hj. apply Hkeep. lia.
Qed.
End groups.

(** * Compaction *)

Section compact.
Context `{XdiffH} (xdf0 xdfo : xdfile) (Hoko : file_ok xdfo) (Htotal : total xdf0 = total xdfo).
Implicit Types (xdf : xdfile) (g go : xdlgroup).

Notation state := (xdfile * xdlgroup * xdlgroup)%type.

Definition size g : Z := g_end g - g_start g.

(** Both groups are at the same place, and the lines are those of the first file. *)
Definition sync (st : state) : Prop :=
  let '(xdf, g, go) := st in same_file xdf0 xdf /\ grp xdf g /\ grp xdfo go /\ place xdf g = place xdfo go.

(** How many lines after the group have marks: this does not grow. *)
Definition late xdf g : Z := nrec xdf - g_end g - (total xdf - place xdf g).

Lemma late_nonneg xdf g : grp xdf g -> 0 <= late xdf g.
Proof. intros Hg. unfold late, total. rewrite <-(place_end _ _ Hg). destruct Hg as [Hr _ _ _]. pose proof (cnt_mono (mark xdf) (g_end g) (nrec xdf) ltac:(lia)). lia. Qed.

Lemma sync_previous xdf g go : same_file xdf0 xdf -> grp xdf g -> grp xdfo go -> place xdf g = place xdfo go - 1 -> exists go', unless (group_previous xdfo go) = Ret go' /\ sync (xdf, g, go').
Proof.
  intros Hs Hg Hgo Hp. unfold unless. destruct (group_previous_spec xdfo go Hoko Hgo) as (r & -> & Hr). run. pose proof (place_range _ _ Hg). destruct r as [go'|]; [|lia]. destruct Hr as [Hgo' Hp']. exists go'. split; [done|]. repeat (split; [done|]). lia.
Qed.

Lemma sync_next xdf g go : same_file xdf0 xdf -> grp xdf g -> grp xdfo go -> place xdf g = place xdfo go + 1 -> exists go', unless (group_next xdfo go) = Ret go' /\ sync (xdf, g, go') /\ place xdfo go' = place xdfo go + 1.
Proof.
  intros Hs Hg Hgo Hp. unfold unless. destruct (group_next_spec xdfo go Hoko Hgo) as (r & -> & Hr). run. pose proof (place_range _ _ Hg) as Hpr. rewrite (same_total _ _ Hs) in Hpr. destruct r as [go'|]; [|lia].
  destruct Hr as (Hgo' & Hp' & _ & _). exists go'. split; [done|]. split; [|done]. repeat (split; [done|]). lia.
Qed.

(** ** As far up and as far down as possible *)

Lemma shift_up_loop xdf g go : sync (xdf, g, go) -> 0 < size g ->
  exists xdf' g' go', loop (S (Z.to_nat (g_end g))) (shift_up_step xdfo) (xdf, g, go) = Ret (xdf', g', go') /\ sync (xdf', g', go') /\ size g <= size g' /\ g_end g' - place xdf' g' = g_end g - place xdf g.
Proof.
  intros Hsync Hsz.
  destruct (loop_ret (fun st => sync st /\ let '(xdf', g', _) := st in size g <= size g' /\ g_end g' - place xdf' g' = g_end g - place xdf g) (fun '(_, g', _) => g_end g') (S (Z.to_nat (g_end g))) (shift_up_step xdfo) (xdf, g, go)
    (fun st => sync st /\ let '(xdf', g', _) := st in size g <= size g' /\ g_end g' - place xdf' g' = g_end g - place xdf g)) as ([[xdf' g'] go'] & -> & Hs' & Hrest).
  - intros [[x g1] go1] (Hsy & Hz & He). pose proof Hsy as (Hs & Hg & Hgo & Hp). unfold shift_up_step. unfold size in *. destruct (slide_up_spec x g1 (same_ok _ _ Hs) Hg ltac:(lia)) as (r & -> & Hr). run. destruct r as [[x' g1']|].
    + destruct Hr as (Hsame & Hg' & Hp' & He' & Hst & _ & _). destruct (sync_previous x' g1' go1 (same_trans _ _ _ Hs Hsame) Hg' Hgo ltac:(lia)) as (go' & -> & Hsy'). run. eexists. split; [done|]. pose proof (grp_range _ _ Hg'). split; [|lia]. split; [done|]. lia.
    + eexists. split; [done|]. by split.
  - split; [done|lia].
  - destruct Hsync as (_ & Hg & _). pose proof (grp_range _ _ Hg). lia.
  - exists xdf', g', go'. split; [done|]. split; [done|lia].
Qed.

(** The group can slide back up to end at [ee], one line at a time. *)
Definition slack (ee : Z) xdf g : Prop :=
  size g <= ee <= g_end g /\ (forall i, ee <= i < g_end g -> cls xdf i = cls xdf (i - size g)) /\ (forall i, ee - size g - 1 <= i < g_start g -> mark xdf i = 0).

(** When the group ends at [em], the other file has lines in its group. *)
Definition em_ok (ee em : Z) g go : Prop :=
  em = -1 \/ (ee <= em <= g_end g /\ forall go', grp xdfo go' -> place xdfo go' = place xdfo go - (g_end g - em) -> g_start go' < g_end go').

Lemma em_here ee g go : ee <= g_end g -> grp xdfo go -> g_start go < g_end go -> em_ok ee (g_end g) g go.
Proof. intros He Hgo Hne. right. split; [lia|]. intros go' Hgo' Hp. by rewrite (place_inj xdfo go' go Hgo' Hgo ltac:(lia)). Qed.

Lemma shift_down_loop xdf g go em : sync (xdf, g, go) -> 0 < size g -> em = (if g_end go >? g_start go then g_end g else -1) ->
  exists xdf' g' go' em', loop (S (Z.to_nat (nrec xdf - g_end g))) (shift_down_step xdfo) (xdf, g, go, em) = Ret (xdf', g', go', em') /\ sync (xdf', g', go') /\ size g <= size g' /\ g_end g - place xdf g <= g_end g' - place xdf' g' /\
    (size g' = size g -> slack (g_end g) xdf' g' /\ em_ok (g_end g) em' g' go').
Proof.
  intros Hsync Hsz Hem. set (Q := fun '(xdf', g', go', em') => sync (xdf', g', go') /\ size g <= size g' /\ g_end g - place xdf g <= g_end g' - place xdf' g' /\ (size g' = size g -> slack (g_end g) xdf' g' /\ em_ok (g_end g) em' g' go')).
  pose proof Hsync as (Hsame0 & Hg0 & Hgo0 & _). pose proof (grp_range _ _ Hg0) as Hr0.
  destruct (loop_ret Q (fun '(x, g', _, _) => nrec x - g_end g') (S (Z.to_nat (nrec xdf - g_end g))) (shift_down_step xdfo) (xdf, g, go, em) Q) as ([[[xdf' g'] go'] em'] & -> & Hq).
  - intros [[[x g1] go1] em1] (Hsy & Hz & He & Hslack). pose proof Hsy as (Hs & Hg & Hgo & Hp). unfold shift_down_step. unfold size in *. destruct (slide_down_spec x g1 (same_ok _ _ Hs) Hg ltac:(lia)) as (r & -> & Hr). run. destruct r as [[x' g1']|]; [|by eexists].
    destruct Hr as (Hsame & Hg' & Hp' & Hst & He' & Hkeep & Hm0 & Hcls). destruct (sync_next x' g1' go1 (same_trans _ _ _ Hs Hsame) Hg' Hgo ltac:(lia)) as (go1' & -> & Hsy' & Hpo). run. eexists. split; [done|].
    pose proof (grp_range _ _ Hg') as Hr'. pose proof (grp_range _ _ Hg) as Hr1. rewrite (same_nrec _ _ Hsame) in Hr'. cbv beta iota. rewrite (same_nrec _ _ Hsame). split; [|lia]. split; [done|]. split; [unfold size; lia|]. split; [lia|].
    intros Hzz. unfold size in Hzz. destruct (Hslack ltac:(lia)) as [(Hee & Hper & Hun) Hemok]. unfold size in *. split.
    + split; [unfold size; lia|]. split.
      * intros i Hi. rewrite (same_cls _ _ Hsame). unfold size. replace (g_end g1' - g_start g1') with (g_end g1 - g_start g1) by lia. destruct (Z.eq_dec i (g_end g1)) as [->|]; [|apply Hper; lia]. rewrite <-Hcls. f_equal. lia.
      * intros i Hi. unfold size in Hi. destruct (Z.eq_dec i (g_start g1)) as [->|]; [done|]. rewrite Hkeep by lia. apply Hun. lia.
    + rewrite Z.gtb_ltb. destruct (Z.ltb_spec (g_start go1') (g_end go1')) as [Hne|Hemp]; [apply em_here; [lia|apply Hsy'|done]|].
      destruct Hemok as [->|[Hem1 Hall]]; [by left|right]. split; [lia|]. intros go' Hgo' Hpl. apply Hall; [done|lia].
  - split; [done|]. split; [lia|]. split; [lia|]. intros _. split.
    + unfold slack, size in *. split; [lia|]. split; [lia|]. intros i Hi. replace i with (g_start g - 1) by lia. apply Hg0.
    + subst em. rewrite Z.gtb_ltb. destruct (Z.ltb_spec (g_start go) (g_end go)); [by apply em_here|by left].
  - lia.
  - exists xdf', g', go', em'. split; [done|exact Hq].
Qed.

(** Rounds end when nothing merged: the group is as far down as it goes. *)
Lemma merge_loop xdf g go : sync (xdf, g, go) -> 0 < size g ->
  exists xdf' g' go' ee em z, loop (S (Z.to_nat (nrec xdf))) (merge_step xdfo) (xdf, g, go) = Ret (xdf', g', go', ee, em, z) /\ sync (xdf', g', go') /\ z = size g' /\ 0 < size g' /\ g_end g - place xdf g <= g_end g' - place xdf' g' /\
    slack ee xdf' g' /\ em_ok ee em g' go'.
Proof.
  intros Hsync Hsz. assert (forall x g1 go1, sync (x, g1, go1) -> size g1 <= nrec xdf) as Hmax.
  { intros x g1 go1 (Hs & Hg & _). destruct Hsync as (Hs0 & _). pose proof (grp_range _ _ Hg). rewrite (same_nrec _ _ Hs), <-(same_nrec _ _ Hs0) in *. unfold size. lia. }
  destruct (loop_ret (fun st => sync st /\ let '(x, g', _) := st in size g <= size g' /\ g_end g - place xdf g <= g_end g' - place x g') (fun '(_, g', _) => nrec xdf - size g') (S (Z.to_nat (nrec xdf))) (merge_step xdfo) (xdf, g, go)
    (fun '(xdf', g', go', ee, em, z) => sync (xdf', g', go') /\ z = size g' /\ 0 < size g' /\ g_end g - place xdf g <= g_end g' - place xdf' g' /\ slack ee xdf' g' /\ em_ok ee em g' go')) as ([[[[[xdf' g'] go'] ee] em] z] & -> & Hq).
  - intros [[x g1] go1] [Hsy [Hz He]]. unfold merge_step. destruct (shift_up_loop x g1 go1 Hsy ltac:(lia)) as (x2 & g2 & go2 & -> & Hsy2 & Hz2 & He2). run.
    destruct (shift_down_loop x2 g2 go2 _ Hsy2 ltac:(lia) eq_refl) as (x3 & g3 & go3 & em3 & -> & Hsy3 & Hz3 & He3 & Hslack). run. eexists. split; [done|]. fold (size g1) (size g3).
    pose proof (Hmax _ _ _ Hsy3). destruct (Z.eqb_spec (size g1) (size g3)) as [Heq|Hne]; cbv beta iota.
    + destruct (Hslack ltac:(lia)) as [Hsl Hem]. repeat (split; [done || lia|]). done.
    + split; [|lia]. split; [done|lia].
  - split; [done|lia].
  - pose proof (Hmax _ _ _ Hsync). lia.
  - exists xdf', g', go', ee, em, z. split; [done|exact Hq].
Qed.

(** ** Back up *)

Lemma slack_up ee xdf g go : sync (xdf, g, go) -> 0 < size g -> slack ee xdf g -> ee < g_end g ->
  exists xdf' g' go', group_slide_up xdf g = Ret (Some (xdf', g')) /\ unless (group_previous xdfo go) = Ret go' /\ sync (xdf', g', go') /\ size g' = size g /\ slack ee xdf' g' /\ g_end g' = g_end g - 1 /\
    place xdf' g' = place xdf g - 1 /\ place xdfo go' = place xdfo go - 1.
Proof.
  intros (Hs & Hg & Hgo & Hp) Hsz (Hee & Hper & Hun) Hlt. unfold size in *. pose proof (grp_range _ _ Hg) as Hr.
  destruct (slide_up_spec xdf g (same_ok _ _ Hs) Hg ltac:(lia)) as (r & -> & Hrr). destruct r as [[xdf' g']|].
  - destruct Hrr as (Hsame & Hg' & Hp' & He' & Hst & Hkeep & Hnomerge). specialize (Hnomerge ltac:(apply Hun; lia)).
    destruct (sync_previous xdf' g' go (same_trans _ _ _ Hs Hsame) Hg' Hgo ltac:(lia)) as (go' & -> & Hsy). exists xdf', g', go'. split; [done|]. split; [done|]. split; [done|]. split; [lia|].
    split; [|split; [lia|split; [lia|destruct Hsy as (_ & _ & _ & ?); lia]]]. unfold slack, size. replace (g_end g' - g_start g') with (g_end g - g_start g) by lia. split; [lia|]. split.
    + intros i Hi. rewrite (same_cls _ _ Hsame). apply Hper. lia.
    + intros i Hi. rewrite Hkeep by lia. apply Hun. lia.
  - exfalso. apply Hrr. split; [lia|]. rewrite (Hper (g_end g - 1) ltac:(lia)). f_equal. lia.
Qed.

Lemma align_loop ee em xdf g go : sync (xdf, g, go) -> 0 < size g -> slack ee xdf g -> em_ok ee em g go -> em <> -1 ->
  exists xdf' g' go', loop (S (Z.to_nat (g_end g))) (align_step xdfo) (xdf, g, go) = Ret (xdf', g', go') /\ sync (xdf', g', go') /\ g_end g' - place xdf' g' = g_end g - place xdf g.
Proof.
  intros Hsync Hsz Hslack Hem Hne.
  destruct (loop_ret (fun st => sync st /\ let '(x, g', go') := st in size g' = size g /\ slack ee x g' /\ em_ok ee em g' go' /\ g_end g' - place x g' = g_end g - place xdf g) (fun '(_, g', _) => g_end g') (S (Z.to_nat (g_end g))) (align_step xdfo) (xdf, g, go)
    (fun st => sync st /\ let '(x, g', _) := st in g_end g' - place x g' = g_end g - place xdf g)) as ([[xdf' g'] go'] & -> & Hs' & Hq).
  - intros [[x g1] go1] (Hsy & Hz & Hsl & Hem1 & He). unfold align_step. destruct (Z.eqb_spec (g_end go1) (g_start go1)) as [Hemp|Hfull]; cbn [negb]; [|by eexists].
    assert (ee < g_end g1) as Hlt.
    { destruct Hem1 as [|[Hrange Hall]]; [done|]. destruct (Z.eq_dec em (g_end g1)) as [->|]; [|lia]. exfalso. pose proof Hsy as (_ & _ & Hgo1 & _). specialize (Hall go1 Hgo1 ltac:(lia)). lia. }
    destruct (slack_up ee x g1 go1 Hsy ltac:(lia) Hsl Hlt) as (x' & g1' & go1' & Hup & -> & Hsy' & Hz' & Hsl' & Hend' & Hp' & Hpo'). unfold unless at 1. rewrite Hup. run. eexists. split; [done|].
    destruct Hsl' as (Hrange' & Hsl'). pose proof (late_nonneg x' g1') as _. split; [|unfold size in *; lia]. split; [done|]. split; [lia|]. split; [done|]. split; [|lia].
    destruct Hem1 as [|[Hrange Hall]]; [done|right]. assert (em <> g_end g1) as Hneq.
    { intros ->. pose proof Hsy as (_ & _ & Hgo1 & _). specialize (Hall go1 Hgo1 ltac:(lia)). lia. }
    split; [lia|]. intros go' Hgo' Hpl. apply Hall; [done|lia].
  - split; [done|]. split; [done|]. split; [done|]. by split.
  - destruct Hsync as (_ & Hg & _). pose proof (grp_range _ _ Hg). lia.
  - by exists xdf', g', go'.
Qed.

Lemma reach_loop ee best xdf g go : sync (xdf, g, go) -> 0 < size g -> slack ee xdf g -> ee <= best ->
  exists xdf' g' go', loop (S (Z.to_nat (g_end g))) (reach_step xdfo best) (xdf, g, go) = Ret (xdf', g', go') /\ sync (xdf', g', go') /\ g_end g' - place xdf' g' = g_end g - place xdf g.
Proof.
  intros Hsync Hsz Hslack Hbest.
  destruct (loop_ret (fun st => sync st /\ let '(x, g', go') := st in size g' = size g /\ slack ee x g' /\ g_end g' - place x g' = g_end g - place xdf g) (fun '(_, g', _) => g_end g') (S (Z.to_nat (g_end g))) (reach_step xdfo best) (xdf, g, go)
    (fun st => sync st /\ let '(x, g', _) := st in g_end g' - place x g' = g_end g - place xdf g)) as ([[xdf' g'] go'] & -> & Hs' & Hq).
  - intros [[x g1] go1] (Hsy & Hz & Hsl & He). unfold reach_step. rewrite Z.gtb_ltb. destruct (Z.ltb_spec best (g_end g1)) as [Hlt|]; cbn [negb]; [|by eexists].
    destruct (slack_up ee x g1 go1 Hsy ltac:(lia) Hsl ltac:(lia)) as (x' & g1' & go1' & Hup & -> & Hsy' & Hz' & Hsl' & Hend' & Hp' & Hpo'). unfold unless at 1. rewrite Hup. run. eexists. split; [done|].
    pose proof Hsl' as (Hrange' & _). split; [|unfold size in *; lia]. split; [done|]. split; [lia|]. split; [done|lia].
  - split; [done|]. split; [done|]. by split.
  - destruct Hsync as (_ & Hg & _). pose proof (grp_range _ _ Hg). lia.
  - by exists xdf', g', go'.
Qed.

(** ** Where a split reads best *)

Lemma get_indent_total rec : exists r, get_indent rec = Ret r.
Proof.
  unfold get_indent. destruct (loop_ret (fun '(i, _) => 0 <= i <= zlen (rec_line rec)) (fun '(i, _) => zlen (rec_line rec) - i) (S (length (rec_line rec))) (indent_step (rec_line rec)) (0, 0) (fun _ => True)) as (r & -> & _); [|pose proof (zlen_nonneg (rec_line rec)); lia|unfold zlen; lia|by exists r].
  intros [i ret] Hi. unfold indent_step. destruct (Z.ltb_spec i (zlen (rec_line rec))); cbn [negb]; [|by eexists]. rewrite rd_getk by lia. run. destruct (XDL_ISSPACE _); cbn [negb]; [|by eexists].
  set (ret' := if _ =? 32 then _ else _). clearbody ret'. destruct (ret' >=? MAX_INDENT); [by eexists|]. eexists. split; [done|]. cbv beta iota. lia.
Qed.

Lemma blank_total xdf dir i : dir = -1 /\ i < nrec xdf \/ dir = 1 /\ 0 <= i -> exists r, loop (S (Z.to_nat MAX_BLANKS)) (blank_step xdf dir) (i, 0) = Ret r.
Proof.
  intros Hi. destruct (loop_ret (fun '(j, blank) => 0 <= blank < MAX_BLANKS /\ (dir = -1 /\ j < nrec xdf \/ dir = 1 /\ 0 <= j)) (fun '(_, blank) => MAX_BLANKS - blank) (S (Z.to_nat MAX_BLANKS)) (blank_step xdf dir) (i, 0) (fun _ => True)) as (r & -> & _);
    [|unfold MAX_BLANKS; lia|unfold MAX_BLANKS; lia|by exists r].
  intros [j blank] (Hb & Hj). unfold blank_step. destruct (if dir <? 0 then j >=? 0 else j <? nrec xdf) eqn:E; cbn [negb]; [|by eexists].
  assert (0 <= j < nrec xdf) as Hin by (destruct Hj as [[-> ?]|[-> ?]]; cbn in E; zb; lia). destruct (rd_rec xdf j Hin) as (r & -> & _). run. destruct (get_indent_total r) as [ind ->]. run.
  destruct (ind =? -1); cbn [negb]; [|by eexists]. destruct (Z.eqb_spec (blank + 1) MAX_BLANKS); [by eexists|]. eexists. split; [done|]. cbv beta iota. lia.
Qed.

Lemma measure_total xdf split : 0 <= split -> split <= nrec xdf -> exists m, measure_split xdf split = Ret m.
Proof.
  intros H1 H2. unfold measure_split. rewrite Z.geb_leb.
  assert (exists a, (if nrec xdf <=? split then Ret (true, -1) else rec ← rd (recs xdf) split; ind ← get_indent rec; Ret (false, ind)) = Ret a) as [[eof ind] ->].
  { destruct (Z.leb_spec (nrec xdf) split); [by eexists|]. destruct (rd_rec xdf split ltac:(lia)) as (r & -> & _). run. destruct (get_indent_total r) as [ind ->]. run. by eexists. }
  run. destruct (blank_total xdf (-1) (split - 1)) as [[b1 i1] ->]; [lia|]. run. destruct (blank_total xdf 1 (split + 1)) as [[b2 i2] ->]; [lia|]. run. by eexists.
Qed.

Lemma find_shift_spec xdf g ee : grp xdf g -> size g <= ee <= g_end g -> exists best, find_shift xdf g ee (size g) = Ret best /\ ee <= best.
Proof.
  intros Hg Hee. pose proof (grp_range _ _ Hg) as Hr. unfold find_shift. rewrite !Z.gtb_ltb. set (s1 := if ee <? g_end g - size g - 1 then _ else ee). assert (ee <= s1 <= g_end g) as Hs1 by (unfold s1, size in *; case_if; lia). clearbody s1.
  set (s2 := if s1 <? _ then _ else s1). assert (ee <= s2 <= g_end g) as Hs2 by (unfold s2, INDENT_HEURISTIC_MAX_SLIDING; case_if; lia). clearbody s2.
  destruct (for_n_ret (fun j '(best, _) => (j = s2 /\ best = -1) \/ ee <= best) (Z.to_nat (g_end g - s2 + 1)) s2 (shift_step xdf (size g)) (-1, Score 0 0)) as ([best score] & -> & Hb).
  - intros j [best score] Hj Hb. unfold shift_step. destruct (measure_total xdf j) as [m ->]; [unfold size in *; lia|lia|]. run. destruct (measure_total xdf (j - size g)) as [m' ->]; [lia|unfold size in *; lia|]. run.
    eexists. split; [done|]. destruct ((best =? -1) || (score_cmp (score_add_split m' (score_add_split m (Score 0 0))) score <=? 0)) eqn:E; cbv beta iota; right; [lia|]. apply orb_false_iff in E as [E _]. apply Z.eqb_neq in E. lia.
  - by left.
  - run. exists best. split; [done|]. lia.
Qed.

(** ** All groups *)

Lemma compact_group_spec flags xdf g go : sync (xdf, g, go) ->
  exists xdf' g' go', compact_group xdfo flags (xdf, g, go) = Ret (xdf', g', go') /\ sync (xdf', g', go') /\ (g_end g = g_start g -> g' = g /\ xdf' = xdf) /\ g_end g - place xdf g <= g_end g' - place xdf' g'.
Proof.
  intros Hsync. pose proof Hsync as (Hs & Hg & Hgo & Hp). pose proof (grp_range _ _ Hg) as Hr. unfold compact_group. destruct (Z.eqb_spec (g_end g) (g_start g)) as [Heq|Hne].
  { exists xdf, g, go. split; [done|]. split; [done|]. split; [done|lia]. }
  destruct (merge_loop xdf g go Hsync) as (xdf1 & g1 & go1 & ee & em & z & -> & Hsync1 & -> & Hsz1 & He1 & Hslack & Hem); [unfold size; lia|]. run.
  destruct (Z.eqb_spec (g_end g1) ee) as [|_]; [exists xdf1, g1, go1; split; [done|]; split; [done|]; split; [lia|done]|]. destruct (Z.eqb_spec em (-1)) as [->|Hemne]; cbn [negb].
  - destruct (flag flags XDF_INDENT_HEURISTIC).
    + pose proof Hsync1 as (_ & Hg1 & _). destruct (find_shift_spec xdf1 g1 ee Hg1 (proj1 Hslack)) as (best & -> & Hbest). run.
      destruct (reach_loop ee best xdf1 g1 go1 Hsync1 Hsz1 Hslack Hbest) as (xdf2 & g2 & go2 & -> & Hsync2 & He2). exists xdf2, g2, go2. split; [done|]. split; [done|]. split; [lia|lia].
    + exists xdf1, g1, go1. split; [done|]. split; [done|]. split; [lia|done].
  - destruct (align_loop ee em xdf1 g1 go1 Hsync1 Hsz1 Hslack Hem Hemne) as (xdf2 & g2 & go2 & -> & Hsync2 & He2). exists xdf2, g2, go2. split; [done|]. split; [done|]. split; [lia|lia].
Qed.

(** Lines with a mark from the group on; then lines from its end on. *)
Definition todo (st : state) : Z := let '(xdf, g, _) := st in (late xdf g + size g) * (nrec xdf + 1) + (nrec xdf - g_end g).

Lemma compact_step_spec flags st : sync st ->
  exists r, compact_step xdfo flags st = Ret r /\
    match r with inl st' => sync st' /\ 0 <= todo st' < todo st | inr (xdf, g, go) => sync (xdf, g, go) /\ place xdf g = total xdf end.
Proof.
  destruct st as [[xdf g] go]. intros Hsync. pose proof Hsync as (Hs & Hg & Hgo & Hp). unfold compact_step. destruct (compact_group_spec flags xdf g go Hsync) as (xdf1 & g1 & go1 & -> & Hsync1 & Hempty & He). run.
  pose proof Hsync1 as (Hs1 & Hg1 & Hgo1 & Hp1). destruct (group_next_spec xdf1 g1 (same_ok _ _ Hs1) Hg1) as (r & -> & Hr). run. destruct r as [g2|]; [|by eexists].
  destruct Hr as (Hg2 & Hp2 & Hst2 & Hlt). destruct (sync_next xdf1 g2 go1 Hs1 Hg2 Hgo1 ltac:(lia)) as (go2 & -> & Hsync2 & _). run. eexists. split; [done|]. split; [done|]. unfold todo.
  pose proof (late_nonneg _ _ Hg) as Hl. pose proof (late_nonneg _ _ Hg2) as Hl2. pose proof (grp_range _ _ Hg) as Hr. pose proof (grp_range _ _ Hg1) as Hr1. pose proof (grp_range _ _ Hg2) as Hr2.
  assert (nrec xdf1 = nrec xdf) as Hn by (rewrite (same_nrec _ _ Hs1), (same_nrec _ _ Hs); done). assert (total xdf1 = total xdf) as Ht by (rewrite (same_total _ _ Hs1), (same_total _ _ Hs); done).
  assert (late xdf1 g2 + size g2 <= late xdf g) as Hm by (unfold late, size in *; lia). rewrite Hn in *. unfold size in *. split; [nia|].
  destruct (Z.eq_dec (g_end g) (g_start g)) as [Heq|Hne].
  - destruct (Hempty Heq) as [-> ->]. nia.
  - nia.
Qed.

Lemma change_compact_spec flags : file_ok xdf0 -> exists xdf, xdl_change_compact xdf0 xdfo flags = Ret xdf /\ same_file xdf0 xdf.
Proof.
  intros Hok. unfold xdl_change_compact. destruct (group_init_spec xdf0 Hok) as (g & -> & Hg & Hp). run. destruct (group_init_spec xdfo Hoko) as (go & -> & Hgo & Hpo). run.
  assert (sync (xdf0, g, go)) as Hsync by (split; [by apply same_refl|]; split; [done|]; split; [done|]; congruence).
  destruct (loop_ret sync todo (S (Z.to_nat ((nrec xdf0 + 1) * (nrec xdf0 + 2)))) (compact_step xdfo flags) (xdf0, g, go) (fun '(xdf, g, go) => sync (xdf, g, go) /\ place xdf g = total xdf)) as ([[xdf g1] go1] & -> & Hs & Hlast).
  - intros st Hst. apply compact_step_spec, Hst.
  - done.
  - pose proof (late_nonneg _ _ Hg) as Hl. pose proof (grp_range _ _ Hg) as Hr. pose proof (place_range _ _ Hg). unfold todo. assert (late xdf0 g + size g <= nrec xdf0) by (unfold late, size; lia). unfold size in *. nia.
  - run. destruct Hs as (Hsame & Hg1 & Hgo1 & Hpl). destruct (group_next_spec xdfo go1 Hoko Hgo1) as (r & -> & Hr). run. rewrite (same_total _ _ Hsame) in Hlast. destruct r as [g2|]; [lia|]. by exists xdf.
Qed.
End compact.

(** [C39] [xdl_change_compact], on two files with as many lines outside of their groups,
    ends without reaching any of its calls of [BUG] and without leaving the arrays; it
    moves marks only, and the sequence of the lines without a mark stays the same. *)
Theorem change_compact_keeps `{XdiffH} xdf xdfo flags : file_ok xdf -> file_ok xdfo -> total xdf = total xdfo ->
  exists xdf', xdl_change_compact xdf xdfo flags = Ret xdf' /\ recs xdf' = recs xdf /\ file_ok xdf' /\ rest xdf' = rest xdf.
Proof. intros Hok Hoko Htotal. destruct (change_compact_spec xdf xdfo Hoko Htotal flags Hok) as (xdf' & -> & [Hr Hk Hs]). by exists xdf'. Qed.

Lemma change_compact_keeps_witness :
  let xdf := XdFile [XRecord [97; 10] 0; XRecord [98; 10] 1; XRecord [10] 2; XRecord [98; 10] 1; XRecord [10] 2; XRecord [99; 10] 3] 0 5 [0; 0; 0; 1; 1; 0; 0; 0] [] 0 [] in
  let xdfo := XdFile [XRecord [97; 10] 0; XRecord [98; 10] 1; XRecord [10] 2; XRecord [99; 10] 3] 0 3 [0; 0; 0; 0; 0; 0] [] 0 [] in
  exists xdf', xdl_change_compact xdf xdfo XDF_INDENT_HEURISTIC = Ret xdf' /\ recs xdf' = recs xdf /\ file_ok xdf' /\ rest xdf' = rest xdf.
Proof.
  cbv zeta. apply (@change_compact_keeps xdiff_ref); [split; reflexivity|split; reflexivity|reflexivity].
Defined.
