(* ===== verification/XdiffScript.v ===== *)
(** xdiff_xdiffi.c, [xdl_build_script] and [xdl_diff]: the edit script of two files.  The
    theorem is that applying it to the first file gives the second, and back. *)
From S2P Require Import Prelude StrbufLines XdiffFile XdiffUtils XdiffPrepare XdiffRange XdiffHistogram XdiffDo XdiffCompact.

(** * Model *)

(** [rchg1[i1 - 1] || rchg2[i2 - 1]] *)
Definition line_changed (xdf1 xdf2 : xdfile) (i1 i2 : Z) : outcome bool :=
  m1 ← rd (rchg xdf1) (i1 - 1 + 1);
  if tru m1 then Ret true else
  m2 ← rd (rchg xdf2) (i2 - 1 + 1);
  Ret (tru m2).

(** [for (l = i; rchg[i - 1]; i--);] is [run_up]; one round of the loop on [i1], [i2] and
    the script. *)
Definition script_step (xdf1 xdf2 : xdfile) (st : Z * Z * list xdchange) : outcome ((Z * Z * list xdchange) + list xdchange) :=
  let '(i1, i2, cscr) := st in
  if negb ((i1 >=? 0) || (i2 >=? 0)) then Ret (inr cscr) else
  changed ← line_changed xdf1 xdf2 i1 i2;
  if (changed : bool) then
    let l1 := i1 in
    i1 ← run_up xdf1 i1;
    let l2 := i2 in
    i2 ← run_up xdf2 i2;
    Ret (inl (i1 - 1, i2 - 1, XdChange i1 i2 (l1 - i1) (l2 - i2) false :: cscr))
  else Ret (inl (i1 - 1, i2 - 1, cscr)).

Definition xdl_build_script (xdf1 xdf2 : xdfile) : outcome (list xdchange) :=
  loop (S (S (Z.to_nat (Z.max (nrec xdf1) (nrec xdf2))))) (script_step xdf1 xdf2) (nrec xdf1, nrec xdf2, []).

Section model.
Context `{XdiffH} (junk : Z).

(** [for (i = 0; i < n && ignore; i++) ignore = xdl_blankline(...);] *)
Definition blank_lines_step (recs : list xrecord) (flags at_ n : Z) (st : Z * bool) : outcome ((Z * bool) + bool) :=
  let '(i, ignore) := st in
  if negb ((i <? n) && ignore) then Ret (inr ignore) else
  rec ← rd recs (at_ + i);
  ignore ← xdl_blankline (rec_line rec) flags;
  Ret (inl (i + 1, ignore)).

Fixpoint xdl_mark_ignorable_lines (xe : xdfenv) (flags : Z) (xscr : list xdchange) : outcome (list xdchange) :=
  match xscr with
  | [] => Ret []
  | c :: xscr =>
      ignore ← loop (S (Z.to_nat (ch_chg1 c))) (blank_lines_step (recs (xdf1 xe)) flags (ch_i1 c) (ch_chg1 c)) (0, true);
      ignore ← loop (S (Z.to_nat (ch_chg2 c))) (blank_lines_step (recs (xdf2 xe)) flags (ch_i2 c) (ch_chg2 c)) (0, ignore);
      xscr ← xdl_mark_ignorable_lines xe flags xscr;
      Ret (XdChange (ch_i1 c) (ch_i2 c) (ch_chg1 c) (ch_chg2 c) ignore :: xscr)
  end.

(** [regexec_buf] is a test of a line. *)
Definition record_matches_regex (rec : xrecord) (xpp : xpparam) : bool := existsb (fun regex => regex (rec_line rec)) (ignore_regex xpp).

(** [for (i = 0; i < n && ignore; i++) ignore = record_matches_regex(...);] *)
Definition regex_lines_step (recs : list xrecord) (xpp : xpparam) (at_ n : Z) (st : Z * bool) : outcome ((Z * bool) + bool) :=
  let '(i, ignore) := st in
  if negb ((i <? n) && ignore) then Ret (inr ignore) else
  rec ← rd recs (at_ + i);
  Ret (inl (i + 1, record_matches_regex rec xpp)).

Fixpoint xdl_mark_ignorable_regex (xe : xdfenv) (xpp : xpparam) (xscr : list xdchange) : outcome (list xdchange) :=
  match xscr with
  | [] => Ret []
  | c :: xscr =>
      ignore ← (if ch_ignore c then Ret true else
                  ignore ← loop (S (Z.to_nat (ch_chg1 c))) (regex_lines_step (recs (xdf1 xe)) xpp (ch_i1 c) (ch_chg1 c)) (0, true);
                  loop (S (Z.to_nat (ch_chg2 c))) (regex_lines_step (recs (xdf2 xe)) xpp (ch_i2 c) (ch_chg2 c)) (0, ignore));
      xscr ← xdl_mark_ignorable_regex xe xpp xscr;
      Ret (XdChange (ch_i1 c) (ch_i2 c) (ch_chg1 c) (ch_chg2 c) ignore :: xscr)
  end.

(** [ef] is [xdl_call_hunk_func] or [xdl_emit_diff]: what prints a script that is not
    empty. *)
Definition xdl_diff {R} (ef : xdfenv -> list xdchange -> outcome R) (mf1 mf2 : list Z) (xpp : xpparam) : outcome (option R) :=
  let flags := xpp_flags xpp in
  xe ← xdl_do_diff junk mf1 mf2 xpp;
  x1 ← xdl_change_compact (xdf1 xe) (xdf2 xe) flags;
  x2 ← xdl_change_compact (xdf2 xe) x1 flags;
  let xe := XdfEnv x1 x2 in
  xscr ← xdl_build_script x1 x2;
  if bool_decide (xscr = []) then Ret None else
  xscr ← (if flag flags XDF_IGNORE_BLANK_LINES then xdl_mark_ignorable_lines xe flags xscr else Ret xscr);
  xscr ← (if zlen (ignore_regex xpp) =? 0 then Ret xscr else xdl_mark_ignorable_regex xe xpp xscr);
  r ← ef xe xscr;
  Ret (Some r).
End model.

(** * What a script means *)

(** From place [p] of the first file on: its lines up to a change, instead of the lines
    taken out those of the second file, and so on. *)
Fixpoint patch {A} (l1 l2 : list A) (p : Z) (s : list xdchange) : list A :=
  match s with
  | [] => drop (Z.to_nat p) l1
  | c :: s => slice l1 p (ch_i1 c - p) ++ slice l2 (ch_i2 c) (ch_chg2 c) ++ patch l1 l2 (ch_i1 c + ch_chg1 c) s
  end.

(** The script that leads back. *)
Definition reverse_change (c : xdchange) : xdchange := XdChange (ch_i2 c) (ch_i1 c) (ch_chg2 c) (ch_chg1 c) (ch_ignore c).

(** The changes are in order, none is empty, and what is between them is in both files. *)
Fixpoint script_ok {A} (cls1 cls2 : Z -> A) (n1 n2 p1 p2 : Z) (s : list xdchange) : Prop :=
  match s with
  | [] => p1 <= n1 /\ n1 - p1 = n2 - p2 /\ forall k, 0 <= k < n1 - p1 -> cls1 (p1 + k) = cls2 (p2 + k)
  | c :: s => p1 <= ch_i1 c /\ ch_i1 c - p1 = ch_i2 c - p2 /\ (forall k, 0 <= k < ch_i1 c - p1 -> cls1 (p1 + k) = cls2 (p2 + k)) /\
      0 <= ch_chg1 c /\ 0 <= ch_chg2 c /\ 0 < ch_chg1 c + ch_chg2 c /\ script_ok cls1 cls2 n1 n2 (ch_i1 c + ch_chg1 c) (ch_i2 c + ch_chg2 c) s
  end.

Section scripts.
Context {A : Type}.
Implicit Types (cls : Z -> A) (s : list xdchange).

Lemma script_ok_le cls1 cls2 n1 n2 s : forall p1 p2, script_ok cls1 cls2 n1 n2 p1 p2 s -> p1 <= n1 /\ p2 <= n2.
Proof. induction s as [|c s IH]; intros p1 p2 Hs; cbn [script_ok] in Hs; [lia|]. destruct Hs as (H1 & H2 & _ & H3 & H4 & _ & Hs). specialize (IH _ _ Hs). lia. Qed.

(** One more line before the script that is in both files. *)
Lemma script_ok_up cls1 cls2 n1 n2 p1 p2 s : cls1 (p1 - 1) = cls2 (p2 - 1) -> script_ok cls1 cls2 n1 n2 p1 p2 s -> script_ok cls1 cls2 n1 n2 (p1 - 1) (p2 - 1) s.
Proof.
  intros Heq. assert (forall m, (forall k, 0 <= k < m - p1 -> cls1 (p1 + k) = cls2 (p2 + k)) -> forall k, 0 <= k < m - (p1 - 1) -> cls1 (p1 - 1 + k) = cls2 (p2 - 1 + k)) as Hmore.
  { intros m Hk k Hkr. destruct (Z.eq_dec k 0) as [->|Hne]; [by rewrite !Z.add_0_r|]. specialize (Hk (k - 1) ltac:(lia)). replace (p1 - 1 + k) with (p1 + (k - 1)) by lia. by replace (p2 - 1 + k) with (p2 + (k - 1)) by lia. }
  destruct s as [|c s]; cbn [script_ok].
  - intros (H1 & H2 & H3). split; [lia|]. split; [lia|]. by apply Hmore.
  - intros (H1 & H2 & H3 & Hrest). split; [lia|]. split; [lia|]. split; [by apply Hmore|done].
Qed.

Lemma script_ok_reverse cls1 cls2 n1 n2 s : forall p1 p2, script_ok cls1 cls2 n1 n2 p1 p2 s -> script_ok cls2 cls1 n2 n1 p2 p1 (reverse_change <$> s).
Proof.
  induction s as [|c s IH]; intros p1 p2; cbn [script_ok fmap list_fmap].
  - intros (H1 & H2 & H3). split; [lia|]. split; [lia|]. intros k Hk. symmetry. apply H3. lia.
  - intros (H1 & H2 & H3 & H4 & H5 & H6 & Hs). cbn [reverse_change ch_i1 ch_i2 ch_chg1 ch_chg2]. split; [lia|]. split; [lia|]. split; [intros k Hk; symmetry; apply H3; lia|]. split; [done|]. split; [done|]. split; [lia|]. by apply IH.
Qed.

(** Marks for ignored changes do not matter. *)
Lemma script_ok_ext cls1 cls2 n1 n2 s s' : Forall2 (fun c c' => ch_i1 c = ch_i1 c' /\ ch_i2 c = ch_i2 c' /\ ch_chg1 c = ch_chg1 c' /\ ch_chg2 c = ch_chg2 c') s s' ->
  forall p1 p2, script_ok cls1 cls2 n1 n2 p1 p2 s -> script_ok cls1 cls2 n1 n2 p1 p2 s'.
Proof. induction 1 as [|c c' s s' (E1 & E2 & E3 & E4) _ IH]; intros p1 p2; cbn [script_ok]; [done|]. rewrite E1, E2, E3, E4. intros (? & ? & ? & ? & ? & ? & Hs). split; [done|]. split; [done|]. split; [done|]. split; [done|]. split; [done|]. split; [done|]. by apply IH. Qed.

Section apply.
Context {B : Type} (l1 l2 : list B) (cls1 cls2 : Z -> A) (Hcls : forall i j, 0 <= i < zlen l1 -> 0 <= j < zlen l2 -> cls1 i = cls2 j -> l1 !! Z.to_nat i = l2 !! Z.to_nat j).

Lemma same_slice p1 p2 n : 0 <= p1 -> 0 <= p2 -> 0 <= n -> p1 + n <= zlen l1 -> p2 + n <= zlen l2 -> (forall k, 0 <= k < n -> cls1 (p1 + k) = cls2 (p2 + k)) -> slice l1 p1 n = slice l2 p2 n.
Proof.
  intros H1 H2 Hn Hb1 Hb2 Hsame. unfold slice. apply list_eq. intros i. rewrite !lookup_take, !lookup_drop. case_decide as Hi; [|done].
  specialize (Hcls (p1 + Z.of_nat i) (p2 + Z.of_nat i) ltac:(lia) ltac:(lia) ltac:(apply Hsame; lia)).
  replace (Z.to_nat (p1 + Z.of_nat i)) with (Z.to_nat p1 + i)%nat in Hcls by lia. by replace (Z.to_nat (p2 + Z.of_nat i)) with (Z.to_nat p2 + i)%nat in Hcls by lia.
Qed.

Lemma patch_spec s : forall p1 p2, 0 <= p1 -> 0 <= p2 -> script_ok cls1 cls2 (zlen l1) (zlen l2) p1 p2 s -> patch l1 l2 p1 s = drop (Z.to_nat p2) l2.
Proof.
  induction s as [|c s IH]; intros p1 p2 Hp1 Hp2 Hs; cbn [script_ok patch] in *.
  - destruct Hs as (H1 & H2 & H3). pose proof (same_slice p1 p2 (zlen l1 - p1) ltac:(lia) ltac:(lia) ltac:(lia) ltac:(lia) ltac:(lia) H3) as Hsl. unfold slice in Hsl.
    rewrite !take_ge in Hsl; [done|rewrite length_drop; unfold zlen in *; lia|rewrite length_drop; unfold zlen in *; lia].
  - destruct Hs as (H1 & H2 & H3 & H4 & H5 & H6 & Hs). pose proof (script_ok_le _ _ _ _ _ _ _ Hs) as [Hle1 Hle2]. rewrite (IH _ (ch_i2 c + ch_chg2 c)) by (done || lia).
    rewrite (same_slice p1 p2 (ch_i1 c - p1)) by (done || lia). rewrite H2. rewrite (assoc app). replace (ch_i2 c) with (p2 + (ch_i2 c - p2)) at 2 by lia. rewrite <-slice_app by lia.
    unfold slice. replace (Z.to_nat (ch_i2 c + ch_chg2 c)) with (Z.to_nat p2 + Z.to_nat (ch_i2 c - p2 + ch_chg2 c))%nat by lia. by rewrite <-drop_drop, take_drop.
Qed.
End apply.

(** ** The script that is built *)

Lemma prefix_ends cls1 cls2 mark1 mark2 i1 i2 : 0 <= i1 -> 0 <= i2 -> (0 < i1 -> mark1 (i1 - 1) = 0) -> (0 < i2 -> mark2 (i2 - 1) = 0) -> unmarked cls1 mark1 0 i1 = unmarked cls2 mark2 0 i2 ->
  (i1 = 0 /\ i2 = 0) \/ (0 < i1 /\ 0 < i2 /\ cls1 (i1 - 1) = cls2 (i2 - 1) /\ unmarked cls1 mark1 0 (i1 - 1) = unmarked cls2 mark2 0 (i2 - 1)).
Proof.
  intros H1 H2 Hm1 Hm2 Heq. destruct (Z.eq_dec i1 0) as [->|Hn1], (Z.eq_dec i2 0) as [->|Hn2]; [by left| | |right].
  - rewrite unmarked_nil, (unmarked_snoc _ _ 0 i2), Hm2 in Heq by lia. cbn in Heq. symmetry in Heq. by apply app_nil in Heq as [_ ?].
  - rewrite (unmarked_nil _ _ _ 0), (unmarked_snoc _ _ 0 i1), Hm1 in Heq by lia. cbn in Heq. by apply app_nil in Heq as [_ ?].
  - rewrite (unmarked_snoc _ _ 0 i1), (unmarked_snoc _ _ 0 i2), Hm1, Hm2 in Heq by lia. cbn in Heq. apply app_inj_tail in Heq as [Heq ?]. split; [lia|]. split; [lia|]. done.
Qed.

Lemma unmarked_back cls mark j i : 0 <= j <= i -> (forall k, j <= k < i -> mark k <> 0) -> unmarked cls mark 0 i = unmarked cls mark 0 j.
Proof. intros Hs Hm. by rewrite (unmarked_app _ _ 0 j i), (unmarked_none _ _ j i), app_nil_r by (done || lia). Qed.

Lemma line_changed_spec xdf1 xdf2 i1 i2 : file_ok xdf1 -> file_ok xdf2 -> 0 <= i1 <= nrec xdf1 -> 0 <= i2 <= nrec xdf2 ->
  exists b, line_changed xdf1 xdf2 i1 i2 = Ret b /\ (b = false -> mark xdf1 (i1 - 1) = 0 /\ mark xdf2 (i2 - 1) = 0) /\ (b = true -> mark xdf1 (i1 - 1) <> 0 \/ mark xdf2 (i2 - 1) <> 0).
Proof.
  intros Hok1 Hok2 H1 H2. unfold line_changed. rewrite (rd_mark xdf1) by (done || lia). run. destruct (tru (mark xdf1 (i1 - 1))) eqn:E1.
  - exists true. split; [done|]. split; [done|]. apply tru_true in E1. by left.
  - rewrite (rd_mark xdf2) by (done || lia). run. eexists. split; [done|]. split; [intros E2%tru_false; by apply tru_false in E1|intros E2%tru_true; by right].
Qed.

Lemma build_script_spec cls1 cls2 xdf1 xdf2 : file_ok xdf1 -> file_ok xdf2 -> unmarked cls1 (mark xdf1) 0 (nrec xdf1) = unmarked cls2 (mark xdf2) 0 (nrec xdf2) ->
  exists s, xdl_build_script xdf1 xdf2 = Ret s /\ script_ok cls1 cls2 (nrec xdf1) (nrec xdf2) 0 0 s.
Proof.
  intros Hok1 Hok2 Hrest. pose proof (zlen_nonneg (recs xdf1)) as Hn1. pose proof (zlen_nonneg (recs xdf2)) as Hn2. fold (nrec xdf1) in Hn1. fold (nrec xdf2) in Hn2.
  apply (loop_ret (fun '(i1, i2, s) => (i1 = -1 /\ i2 = -1 /\ script_ok cls1 cls2 (nrec xdf1) (nrec xdf2) 0 0 s) \/
      (0 <= i1 <= nrec xdf1 /\ 0 <= i2 <= nrec xdf2 /\ unmarked cls1 (mark xdf1) 0 i1 = unmarked cls2 (mark xdf2) 0 i2 /\ script_ok cls1 cls2 (nrec xdf1) (nrec xdf2) i1 i2 s))
    (fun '(i1, i2, _) => Z.max i1 i2 + 1)); [| |lia].
  - intros [[i1 i2] s] [(-> & -> & Hs)|(H1 & H2 & Heq & Hs)]; unfold script_step; [by eexists|]. rewrite !Z.geb_leb. rewrite (proj2 (Z.leb_le 0 i1)) by lia. cbn [orb negb].
    assert (forall j1 j2 s', 0 <= j1 <= i1 -> 0 <= j2 <= i2 -> mark xdf1 (j1 - 1) = 0 -> mark xdf2 (j2 - 1) = 0 -> unmarked cls1 (mark xdf1) 0 j1 = unmarked cls2 (mark xdf2) 0 j2 ->
      script_ok cls1 cls2 (nrec xdf1) (nrec xdf2) j1 j2 s' ->
      ((j1 - 1 = -1 /\ j2 - 1 = -1 /\ script_ok cls1 cls2 (nrec xdf1) (nrec xdf2) 0 0 s') \/
       (0 <= j1 - 1 <= nrec xdf1 /\ 0 <= j2 - 1 <= nrec xdf2 /\ unmarked cls1 (mark xdf1) 0 (j1 - 1) = unmarked cls2 (mark xdf2) 0 (j2 - 1) /\ script_ok cls1 cls2 (nrec xdf1) (nrec xdf2) (j1 - 1) (j2 - 1) s')) /\
      0 <= Z.max (j1 - 1) (j2 - 1) + 1 < Z.max i1 i2 + 1) as Hnext.
    { intros j1 j2 s' Hj1 Hj2 Hm1 Hm2 Hpre Hs'. split; [|lia]. destruct (prefix_ends _ _ _ _ j1 j2 ltac:(lia) ltac:(lia) ltac:(done) ltac:(done) Hpre) as [[-> ->]|(? & ? & Hc & Hp)]; [by left|right].
      split; [lia|]. split; [lia|]. split; [done|]. by apply script_ok_up. }
    destruct (line_changed_spec xdf1 xdf2 i1 i2 Hok1 Hok2 ltac:(lia) ltac:(lia)) as (b & -> & Hno & Hyes).
    run. destruct b.
    + destruct (run_up_spec xdf1 i1 Hok1 ltac:(lia)) as (s1 & -> & Hs1 & Hb1 & Hr1). run. destruct (run_up_spec xdf2 i2 Hok2 ltac:(lia)) as (s2 & -> & Hs2 & Hb2 & Hr2). run. eexists. split; [done|].
      apply Hnext; [lia|lia|done|done| |].
      * by rewrite <-(unmarked_back cls1 (mark xdf1) s1 i1), <-(unmarked_back cls2 (mark xdf2) s2 i2) by done.
      * cbn [script_ok ch_i1 ch_i2 ch_chg1 ch_chg2]. replace (s1 + (i1 - s1)) with i1 by lia. replace (s2 + (i2 - s2)) with i2 by lia. repeat (split; [lia|]). split; [|done].
        destruct (Z.eq_dec s1 i1) as [->|]; [|lia]. destruct (Z.eq_dec s2 i2) as [->|]; [|lia]. destruct (Hyes eq_refl); done.
    + destruct (Hno eq_refl) as [Hm1 Hm2]. eexists. split; [done|]. apply Hnext; (done || lia).
  - right. split; [lia|]. split; [lia|]. split; [exact Hrest|]. cbn [script_ok]. split; [lia|]. split; [lia|]. intros k Hk. lia.
Qed.

Lemma build_script_none xdf1 xdf2 : file_ok xdf1 -> file_ok xdf2 -> nrec xdf1 = nrec xdf2 -> (forall j, 0 <= j < nrec xdf1 -> mark xdf1 j = 0) -> (forall j, 0 <= j < nrec xdf2 -> mark xdf2 j = 0) -> xdl_build_script xdf1 xdf2 = Ret [].
Proof.
  intros Hok1 Hok2 Hn Hm1 Hm2. pose proof (zlen_nonneg (recs xdf1)) as Hn1. fold (nrec xdf1) in Hn1. unfold xdl_build_script. rewrite <-Hn, Z.max_id.
  destruct (loop_ret (fun '(i1, i2, s) => i1 = i2 /\ -1 <= i1 <= nrec xdf1 /\ s = []) (fun '(i1, _, _) => i1 + 1) (S (S (Z.to_nat (nrec xdf1)))) (script_step xdf1 xdf2) (nrec xdf1, nrec xdf1, []) (fun s => s = [])) as (s & -> & ->); [|split; [done|split; [lia|done]]|lia|done].
  intros [[i1 i2] s] (<- & Hi & ->). unfold script_step. rewrite !Z.geb_leb, orb_diag. destruct (Z.leb_spec 0 i1); cbn [negb]; [|by eexists].
  destruct (line_changed_spec xdf1 xdf2 i1 i1 Hok1 Hok2 ltac:(lia) ltac:(lia)) as (b & -> & _ & Hyes). run.
  assert (mark xdf1 (i1 - 1) = 0) as H1 by (destruct (Z.eq_dec i1 0) as [->|]; [by apply file_first|apply Hm1; lia]). assert (mark xdf2 (i1 - 1) = 0) as H2 by (destruct (Z.eq_dec i1 0) as [->|]; [by apply file_first|apply Hm2; lia]).
  destruct b; [by destruct (Hyes eq_refl)|]. eexists. split; [done|]. cbv beta iota. split; [|lia]. split; [done|]. split; [lia|done].
Qed.
End scripts.

(** * The whole diff *)

Section diff.
Context `{XdiffHOk} (junk : Z) (xpp : xpparam).
Notation flags := (xpp_flags xpp).

(** Changes that differ in [ignore] alone. *)
Notation same_change := (fun c c' => ch_i1 c = ch_i1 c' /\ ch_i2 c = ch_i2 c' /\ ch_chg1 c = ch_chg1 c' /\ ch_chg2 c = ch_chg2 c').

Lemma blank_lines_total recs at_ n b : 0 <= at_ -> 0 <= n -> at_ + n <= zlen recs -> exists r, loop (S (Z.to_nat n)) (blank_lines_step recs flags at_ n) (0, b) = Ret r.
Proof.
  intros Hat Hn Hin. destruct (loop_ret (fun '(i, _) => 0 <= i <= n) (fun '(i, _) => n - i) (S (Z.to_nat n)) (blank_lines_step recs flags at_ n) (0, b) (fun _ => True)) as (r & -> & _); [|lia|lia|by exists r].
  intros [i ign] Hi. unfold blank_lines_step. destruct (Z.ltb_spec i n); cbn [andb negb]; [|by eexists]. destruct ign; cbn [negb]; [|by eexists]. destruct (rd_in recs (at_ + i)) as [rec ->]; [lia|]. run.
  assert (exists ign', xdl_blankline (rec_line rec) flags = Ret ign') as [ign' ->].
  { unfold xdl_blankline. destruct (flag flags XDF_WHITESPACE_FLAGS); cbn [negb]; [|by eexists]. destruct (skip_blanks_spec (rec_line rec) 0 (rec_line rec) (at_pos_0 _)) as (j & -> & _). run. by eexists. }
  run. eexists. split; [done|]. cbv beta iota. lia.
Qed.

Lemma mark_ignorable_spec {A} xe (cls1 cls2 : Z -> A) s : forall p1 p2, 0 <= p1 -> 0 <= p2 -> script_ok cls1 cls2 (nrec (xdf1 xe)) (nrec (xdf2 xe)) p1 p2 s ->
  exists s', xdl_mark_ignorable_lines xe flags s = Ret s' /\ Forall2 same_change s s'.
Proof.
  induction s as [|c s IH]; intros p1 p2 Hp1 Hp2; cbn [script_ok xdl_mark_ignorable_lines]; [intros _; exists []; by split|]. intros (H1 & H2 & _ & H4 & H5 & _ & Hs). pose proof (script_ok_le _ _ _ _ _ _ _ Hs) as [Hle1 Hle2].
  destruct (blank_lines_total (recs (xdf1 xe)) (ch_i1 c) (ch_chg1 c) true) as [r1 ->]; [lia|lia|unfold nrec in *; lia|]. run.
  destruct (blank_lines_total (recs (xdf2 xe)) (ch_i2 c) (ch_chg2 c) r1) as [r2 ->]; [lia|lia|unfold nrec in *; lia|]. run.
  destruct (IH (ch_i1 c + ch_chg1 c) (ch_i2 c + ch_chg2 c) ltac:(lia) ltac:(lia) Hs) as (s' & -> & Hf). run. eexists. split; [done|]. by constructor.
Qed.

Lemma same_script s : Forall2 same_change s s.
Proof. induction s; by constructor. Qed.

Lemma regex_lines_total recs at_ n b : 0 <= at_ -> 0 <= n -> at_ + n <= zlen recs -> exists r, loop (S (Z.to_nat n)) (regex_lines_step recs xpp at_ n) (0, b) = Ret r.
Proof.
  intros Hat Hn Hin. destruct (loop_ret (fun '(i, _) => 0 <= i <= n) (fun '(i, _) => n - i) (S (Z.to_nat n)) (regex_lines_step recs xpp at_ n) (0, b) (fun _ => True)) as (r & -> & _); [|lia|lia|by exists r].
  intros [i ign] Hi. unfold regex_lines_step. destruct (Z.ltb_spec i n); cbn [andb negb]; [|by eexists]. destruct ign; cbn [negb]; [|by eexists]. destruct (rd_in recs (at_ + i)) as [rec ->]; [lia|]. run. eexists. split; [done|]. cbv beta iota. lia.
Qed.

Lemma mark_regex_spec {A} xe (cls1 cls2 : Z -> A) s : forall p1 p2, 0 <= p1 -> 0 <= p2 -> script_ok cls1 cls2 (nrec (xdf1 xe)) (nrec (xdf2 xe)) p1 p2 s ->
  exists s', xdl_mark_ignorable_regex xe xpp s = Ret s' /\ Forall2 same_change s s'.
Proof.
  induction s as [|c s IH]; intros p1 p2 Hp1 Hp2; cbn [script_ok xdl_mark_ignorable_regex]; [intros _; exists []; by split|]. intros (H1 & H2 & _ & H4 & H5 & _ & Hs). pose proof (script_ok_le _ _ _ _ _ _ _ Hs) as [Hle1 Hle2].
  match goal with |- context [(if ch_ignore c then Ret true else ?d) ≫= _] => assert (exists r, (if ch_ignore c then Ret true else d) = Ret r) as [r ->] end.
  { destruct (ch_ignore c); [by eexists|]. destruct (regex_lines_total (recs (xdf1 xe)) (ch_i1 c) (ch_chg1 c) true) as [r1 ->]; [lia|lia|unfold nrec in *; lia|]. run. apply regex_lines_total; [lia|lia|unfold nrec in *; lia]. }
  run. destruct (IH (ch_i1 c + ch_chg1 c) (ch_i2 c + ch_chg2 c) ltac:(lia) ltac:(lia) Hs) as (s' & -> & Hf). run. eexists. split; [done|]. by constructor.
Qed.

Lemma total_eq xdf1 xdf2 : rest_lines flags xdf1 = rest_lines flags xdf2 -> total xdf1 = total xdf2.
Proof. intros Hr. apply (f_equal zlen) in Hr. unfold rest_lines in Hr. by rewrite !unmarked_len in Hr. Qed.

(** Compaction leaves the lines without a mark. *)
Lemma same_rest_lines mf1 mf2 xe x y : classed flags mf1 mf2 xe -> x = xdf1 xe \/ x = xdf2 xe -> same_file x y -> rest_lines flags y = rest_lines flags x.
Proof.
  intros Hcl Hx Hs. pose proof Hs as [Hr _ Hrest]. unfold rest_lines, rest in *. rewrite (same_nrec _ _ Hs), (same_cls _ _ Hs) in Hrest. rewrite (same_nrec _ _ Hs). revert Hrest. apply unmarked_transfer.
  intros i j Hi Hj Heq. unfold line_at. rewrite Hr. by eapply (classed_same flags mf1 mf2 xe x x).
Qed.

Lemma diffs_compact mf1 mf2 x1 x2 y1 y2 : diffs flags mf1 mf2 (XdfEnv x1 x2) -> same_file x1 y1 -> same_file x2 y2 -> diffs flags mf1 mf2 (XdfEnv y1 y2).
Proof.
  intros [Hcl Ho1 Ho2 Hr Ht] Hf1 Hf2. pose proof Hf1 as [Hr1 Hk1 Hs1]. pose proof Hf2 as [Hr2 Hk2 Hs2]. cbn [xdf1 xdf2] in *. split; cbn [xdf1 xdf2]; [destruct Hcl as [C1 C2 C3 C4]; cbn [xdf1 xdf2] in *; split; cbn [xdf1 xdf2]; by rewrite ?Hr1, ?Hr2|done|done| |].
  - rewrite (same_rest_lines mf1 mf2 _ x1 y1 Hcl), (same_rest_lines mf1 mf2 _ x2 y2 Hcl); [done|by right|done|by left|done].
  - unfold classes. rewrite Hr1, Hr2, (same_total _ _ Hf1), (same_nrec _ _ Hf1). exact Ht.
Qed.

(** The lines of a file, up to what the flags ignore. *)
Notation looked xdf := (fun i => loose flags (line_at xdf i)).

(** The result of [xdl_diff]: both files with marks, and a script to print. *)
Lemma xdl_diff_spec {R} (ef : xdfenv -> list xdchange -> outcome R) mf1 mf2 : zlen mf1 + zlen mf2 + 5 <= 2 ^ 30 ->
  (exists xe s, xdl_diff junk ef mf1 mf2 xpp = (if bool_decide (s = []) then Ret None else r ← ef xe s; Ret (Some r)) /\ diffs flags mf1 mf2 xe /\
    script_ok (looked (xdf1 xe)) (looked (xdf2 xe)) (nrec (xdf1 xe)) (nrec (xdf2 xe)) 0 0 s /\ (myers flags = true -> classes (xdf1 xe) = classes (xdf2 xe) -> s = [])) \/
  (xdl_diff junk ef mf1 mf2 xpp = Err Error /\ XDF_DIFF_ALG flags = XDF_HISTOGRAM_DIFF /\ max_chain_length < zlen (lines 10 mf1)).
Proof.
  intros Hsize. unfold xdl_diff. pose proof (do_diff_spec junk mf1 mf2 xpp Hsize) as Hdo. destruct (xdl_do_diff junk mf1 mf2 xpp) as [[x1 x2]|e|]; cbn [wp] in Hdo; [left|right; destruct Hdo as [-> ?]; done|done]. rename Hdo into Hdiffs.
  run. cbn [xdf1 xdf2]. pose proof Hdiffs as [_ Ho1 Ho2 Hr _]. cbn [xdf1 xdf2] in *.
  destruct (change_compact_spec x1 x2 Ho2 (total_eq _ _ Hr) flags Ho1) as (y1 & -> & Hs1). run. pose proof (diffs_compact mf1 mf2 x1 x2 y1 x2 Hdiffs Hs1 (same_refl _ Ho2)) as Hd1. pose proof Hd1 as [_ Ho1' _ Hr' _]. cbn [xdf1 xdf2] in *.
  destruct (change_compact_spec x2 y1 Ho1' (total_eq _ _ (eq_sym Hr')) flags Ho2) as (y2 & -> & Hs2). run. pose proof (diffs_compact mf1 mf2 y1 x2 y1 y2 Hd1 (same_refl _ Ho1') Hs2) as Hd2. pose proof Hd2 as [_ _ Ho2' Hr2 Ht2]. cbn [xdf1 xdf2] in *.
  destruct (build_script_spec (looked y1) (looked y2) y1 y2 Ho1' Ho2' Hr2) as (s & Hbuild & Hs). assert (myers flags = true -> classes y1 = classes y2 -> s = []) as Hnone.
  { intros Hmy Heq. pose proof (total_eq _ _ Hr2) as Htt. specialize (Ht2 Hmy Heq). assert (nrec y1 = nrec y2) as Hn by (apply (f_equal length) in Heq; unfold classes in Heq; rewrite !length_fmap in Heq; unfold nrec, zlen; lia).
    assert (xdl_build_script y1 y2 = Ret []) as Hb by (apply build_script_none; [done..|apply cnt_full, Ht2|apply cnt_full; fold (total y2); lia]). congruence. }
  rewrite Hbuild. run. case_bool_decide as Hemp; [exists (XdfEnv y1 y2), s; rewrite bool_decide_true by done; done|].
  assert (exists s1, (if flag flags XDF_IGNORE_BLANK_LINES then xdl_mark_ignorable_lines (XdfEnv y1 y2) flags s else Ret s) = Ret s1 /\ Forall2 same_change s s1) as (s1 & -> & Hf1).
  { destruct (flag flags XDF_IGNORE_BLANK_LINES); [by apply (mark_ignorable_spec (XdfEnv y1 y2) _ _ s 0 0 ltac:(lia) ltac:(lia) Hs)|]. exists s. split; [done|]. apply same_script. }
  run. pose proof (script_ok_ext _ _ _ _ _ _ Hf1 _ _ Hs) as Hsok1.
  assert (exists s2, (if zlen (ignore_regex xpp) =? 0 then Ret s1 else xdl_mark_ignorable_regex (XdfEnv y1 y2) xpp s1) = Ret s2 /\ Forall2 same_change s1 s2) as (s2 & -> & Hf2).
  { destruct (zlen (ignore_regex xpp) =? 0); [|by apply (mark_regex_spec (XdfEnv y1 y2) _ _ s1 0 0 ltac:(lia) ltac:(lia) Hsok1)]. exists s1. split; [done|]. apply same_script. }
  run. exists (XdfEnv y1 y2), s2. pose proof (script_ok_ext _ _ _ _ _ _ Hf2 _ _ Hsok1) as Hsok2.
  assert (s = [] <-> s2 = []) as Hiff by (split; intros ->; [inversion Hf1; subst; by inversion Hf2|inversion Hf2; subst; by inversion Hf1]). rewrite bool_decide_false by tauto. split; [done|]. split; [done|]. split; [done|]. intros Hmy Heq. by apply Hiff, Hnone.
Qed.
(** Lines that look the same have the same text, up to what the flags ignore. *)
Lemma diffs_lines mf1 mf2 xe : diffs flags mf1 mf2 xe -> forall i j, 0 <= i < zlen (loose flags <$> lines 10 mf1) -> 0 <= j < zlen (loose flags <$> lines 10 mf2) -> loose flags (line_at (xdf1 xe) i) = loose flags (line_at (xdf2 xe) j) ->
  (loose flags <$> lines 10 mf1) !! Z.to_nat i = (loose flags <$> lines 10 mf2) !! Z.to_nat j.
Proof.
  intros [[Hl1 Hl2 _ _] _ _ _ _] i j Hi Hj Heq. unfold zlen in Hi, Hj. rewrite length_fmap in Hi, Hj. rewrite <-Hl1, length_fmap in Hi. rewrite <-Hl2, length_fmap in Hj.
  destruct (rd_rec (xdf1 xe) i) as (r & _ & Hr & _); [unfold nrec, zlen; lia|]. destruct (rd_rec (xdf2 xe) j) as (r' & _ & Hr' & _); [unfold nrec, zlen; lia|].
  unfold line_at in Heq. rewrite Hr, Hr' in Heq. rewrite !list_lookup_fmap, <-Hl1, <-Hl2, !list_lookup_fmap, Hr, Hr'. cbn in *. by f_equal.
Qed.

Lemma diffs_nrec mf1 mf2 xe : diffs flags mf1 mf2 xe -> nrec (xdf1 xe) = zlen (loose flags <$> lines 10 mf1) /\ nrec (xdf2 xe) = zlen (loose flags <$> lines 10 mf2).
Proof. intros [[Hl1 Hl2 _ _] _ _ _ _]. unfold nrec, zlen. by rewrite !length_fmap, <-Hl1, <-Hl2, !length_fmap. Qed.

(** Files whose lines match have no differences. *)
Lemma diffs_classes mf1 mf2 xe : precise flags = true -> diffs flags mf1 mf2 xe -> loose flags <$> lines 10 mf1 = loose flags <$> lines 10 mf2 -> classes (xdf1 xe) = classes (xdf2 xe).
Proof.
  intros Hp [[Hl1 Hl2 _ Hc] _ _ _ _] Heq. rewrite <-Hl1, <-Hl2 in Heq. unfold classes. apply list_eq. intros i. rewrite !list_lookup_fmap. apply (f_equal (fun l => l !! i)) in Heq. rewrite !list_lookup_fmap in Heq.
  destruct (recs (xdf1 xe) !! i) as [r|] eqn:E1, (recs (xdf2 xe) !! i) as [r'|] eqn:E2; try done. cbn [fmap option_fmap option_map] in *. injection Heq as Heq. f_equal.
  apply (Hc Hp); [apply elem_of_app; left; by eapply list_elem_of_lookup_2|apply elem_of_app; right; by eapply list_elem_of_lookup_2|done].
Qed.

Lemma loose_exact (l : list (list Z)) : flag flags XDF_WHITESPACE_FLAGS = false -> loose flags <$> l = l.
Proof. intros Hf. rewrite <-(list_fmap_id l) at 2. apply list_fmap_ext. intros i x _. unfold loose, precise, key. rewrite Hf. cbn [negb]. by rewrite orb_true_r. Qed.

End diff.

(** The patience algorithm with an anchor and an ignored expression; what prints returns
    the number of changes that are not ignored. *)
Definition sample_xpp : xpparam := XpParam (Z.lor XDF_INDENT_HEURISTIC XDF_PATIENCE_DIFF) [[98; 10]] [fun line => bool_decide (line = [97; 10])].

Definition count_changes (xe : xdfenv) (s : list xdchange) : outcome Z := Ret (zlen (List.filter (fun c => negb (ch_ignore c)) s)).

Example xdl_diff_sample : xdl_diff 7 count_changes [97; 10; 98; 10; 99; 10; 120; 10] [98; 10; 99; 10; 100; 10; 120] sample_xpp = Ret (Some 1).
Proof. by vm_compute. Qed.

Example xdl_diff_histogram : xdl_diff 7 (fun _ s => Ret s) [97; 10; 98; 10; 99; 10; 120; 10] [98; 10; 99; 10; 100; 10; 120] (XpParam XDF_HISTOGRAM_DIFF [] []) =
  Ret (Some [XdChange 0 0 1 0 false; XdChange 3 2 1 2 false]).
Proof. by vm_compute. Qed.

