(* ===== verification/XdiffHunk.v ===== *)
(** xdiff_xutils.c, the output of hunks: lines of a diff, decimal numbers and the header
    of a hunk, and how a patch program reads that header back. *)
From S2P Require Import Prelude.

(** * Model *)

(** [xdemitcb_t]: functions on a state [S] of the caller; [Err] is a negative return. *)
Record xdemitcb (S : Type) := XdEmitCb {
  out_hunk : option (S -> Z -> Z -> Z -> Z -> list Z -> Z -> outcome S);
  out_line : S -> list (list Z) -> outcome S;
}.
Arguments XdEmitCb {S}.
Arguments out_hunk {S}.
Arguments out_line {S}.

(** The marker after a last line without newline. *)
Definition no_newline : list Z :=
  [10; 92; 32; 78; 111; 32; 110; 101; 119; 108; 105; 110; 101; 32; 97; 116; 32; 101; 110; 100; 32; 111; 102; 32; 102; 105; 108; 101; 10].

Definition xdl_emit_diffrec {S} (rec pre : list Z) (ecb : xdemitcb S) (st : S) : outcome S :=
  let mb := [pre; rec] in
  open ← (if zlen rec >? 0 then c ← rd rec (zlen rec - 1); Ret (negb (c =? 10)) else Ret false);
  let mb := if (open : bool) then mb ++ [no_newline] else mb in
  out_line ecb st mb.

(** One digit before [ptr]. *)
Definition num_step (st : list Z * Z * Z) : outcome ((list Z * Z * Z) + (list Z * Z)) :=
  let '(buf, ptr, val) := st in
  if negb (tru val && (ptr >? 0)) then Ret (inr (buf, ptr)) else
  c ← rd [48; 49; 50; 51; 52; 53; 54; 55; 56; 57] (Z.rem val 10);
  buf ← wr buf (ptr - 1) c;
  Ret (inl (buf, ptr - 1, Z.quot val 10)).

Definition num_copy_step (buf : list Z) (st : list Z * Z * Z) : outcome ((list Z * Z * Z) + (list Z * Z)) :=
  let '(out, str, ptr) := st in
  c ← rd buf ptr;
  if negb (tru c) then Ret (inr (out, str)) else
  out ← wr out str c;
  Ret (inl (out, str + 1, ptr + 1)).

Section model.
Context (junk : Z).

(** The number written at [out + at_], and how many bytes it takes. *)
Definition xdl_num_out (out : list Z) (at_ val : Z) : outcome (list Z * Z) :=
  buf ← wr (replicate 32 junk) 31 0;
  '(buf, ptr, val) ← (if val <? 0 then
      if val <=? - 2 ^ 63 then Undef else buf ← wr buf (31 - 1) 45; Ret (buf, 31 - 1, - val)
    else Ret (buf, 31, val));
  '(buf, ptr) ← loop 33 num_step (buf, ptr, val);
  c ← rd buf ptr;
  '(out, str) ← (if tru c then loop 33 (num_copy_step buf) (out, at_, ptr) else out ← wr out at_ 48; Ret (out, at_ + 1));
  out ← wr out str 0;
  Ret (out, str - at_).

(** [xdl_num_out] of the start and, unless it is 1, the length of a range. *)
Definition range_out (buf : list Z) (nb s c : Z) : outcome (list Z * Z) :=
  '(buf, n) ← xdl_num_out buf nb (if tru c then s else s - 1);
  let nb := nb + n in
  if negb (c =? 1) then
    buf ← wr_range buf nb [44];
    let nb := nb + 1 in
    '(buf, n) ← xdl_num_out buf nb c;
    Ret (buf, nb + n)
  else Ret (buf, nb).

Definition xdl_format_hunk_hdr {S} (s1 c1 s2 c2 : Z) (func : list Z) (funclen : Z) (ecb : xdemitcb S) (st : S) : outcome S :=
  buf ← wr_range (replicate 128 junk) 0 [64; 64; 32; 45];
  '(buf, nb) ← range_out buf 4 s1 c1;
  buf ← wr_range buf nb [32; 43];
  let nb := nb + 2 in
  '(buf, nb) ← range_out buf nb s2 c2;
  buf ← wr_range buf nb [32; 64; 64];
  let nb := nb + 3 in
  '(buf, nb) ← (if tru funclen then
      buf ← wr buf nb 32;
      let nb := nb + 1 in
      let funclen := if u64 funclen >? u64 (128 - nb - 1) then 128 - nb - 1 else funclen in
      src ← rd_range func 0 funclen;
      buf ← wr_range buf nb src;
      Ret (buf, nb + funclen)
    else Ret (buf, nb));
  buf ← wr buf nb 10;
  let nb := nb + 1 in
  line ← rd_range buf 0 nb;
  out_line ecb st [line].

Definition xdl_emit_hunk_hdr {S} (s1 c1 s2 c2 : Z) (func : list Z) (funclen : Z) (ecb : xdemitcb S) (st : S) : outcome S :=
  match out_hunk ecb with
  | None => xdl_format_hunk_hdr s1 c1 s2 c2 func funclen ecb st
  | Some out_hunk => out_hunk st (if tru c1 then s1 else s1 - 1) c1 (if tru c2 then s2 else s2 - 1) c2 func funclen
  end.
End model.

(** A negative number comes out with the sign behind its digits. *)
Example num_out_negative : xdl_num_out 7 (replicate 8 1) 0 (-52) = Ret ([53; 50; 45; 0; 1; 1; 1; 1], 3).
Proof. by vm_compute. Qed.

(** * Decimal numbers *)

Fixpoint dec_of (fuel : nat) (v : Z) : list Z :=
  match fuel with
  | O => []
  | S fuel => if v =? 0 then [] else dec_of fuel (v / 10) ++ [48 + v mod 10]
  end.
Definition dec (v : Z) : list Z := if v =? 0 then [48] else dec_of 20 v.

(** The digits at the start of a text as a number, and what follows. *)
Fixpoint digits_val (acc : Z) (s : list Z) : Z * list Z :=
  match s with
  | c :: s' => if (48 <=? c) && (c <=? 57) then digits_val (10 * acc + (c - 48)) s' else (acc, s)
  | [] => (acc, [])
  end.

(** A text that does not go on with a digit. *)
Definition no_digit (s : list Z) : Prop := forall c s', s = c :: s' -> ~ 48 <= c <= 57.

Section decimal.
Local Ltac Zify.zify_post_hook ::= Z.div_mod_to_equations.

Lemma dec_of_len k : forall v, zlen (dec_of k v) <= Z.of_nat k.
Proof.
  induction k as [|k IH]; intros v; [done|]. cbn [dec_of]. destruct (v =? 0); [unfold zlen; cbn; lia|]. specialize (IH (v / 10)). rewrite zlen_app. unfold zlen at 2. cbn [length]. lia.
Qed.

Lemma dec_len v : 1 <= zlen (dec v) <= 20.
Proof.
  unfold dec. destruct (Z.eqb_spec v 0) as [->|Hv]; [by vm_compute|]. pose proof (dec_of_len 20 v). split; [|done]. cbn [dec_of]. rewrite (proj2 (Z.eqb_neq v 0) Hv), zlen_app. unfold zlen. cbn [length]. lia.
Qed.

Lemma dec_of_digits k : forall v, 0 <= v -> Forall (fun c => 48 <= c <= 57) (dec_of k v).
Proof.
  induction k as [|k IH]; intros v Hv; [done|]. cbn [dec_of]. destruct (v =? 0); [done|]. apply Forall_app. split; [apply IH; lia|]. constructor; [lia|done].
Qed.

Lemma dec_digits v : 0 <= v -> Forall (fun c => 48 <= c <= 57) (dec v).
Proof. intros Hv. unfold dec. destruct (v =? 0); [constructor; [lia|done]|by apply dec_of_digits]. Qed.

Lemma digits_val_of k : forall v acc rest, 0 <= v < 10 ^ Z.of_nat k -> digits_val acc (dec_of k v ++ rest) = digits_val (acc * 10 ^ zlen (dec_of k v) + v) rest.
Proof.
  induction k as [|k IH]; intros v acc rest Hv; cbn [dec_of].
  - assert (v = 0) as -> by lia. cbn [app]. change (10 ^ zlen (@nil Z)) with 1. by rewrite Z.mul_1_r, Z.add_0_r.
  - destruct (Z.eqb_spec v 0) as [->|Hne]; [cbn [app]; change (10 ^ zlen (@nil Z)) with 1; by rewrite Z.mul_1_r, Z.add_0_r|]. rewrite Nat2Z.inj_succ, Z.pow_succ_r in Hv by lia.
    rewrite <-(assoc app), IH by lia. cbn [app digits_val]. rewrite (proj2 (Z.leb_le 48 _)), (proj2 (Z.leb_le _ 57)) by lia. cbn [andb]. f_equal. rewrite zlen_app. unfold zlen at 3. cbn [length].
    rewrite Z.pow_add_r by (apply zlen_nonneg || lia). lia.
Qed.

Lemma digits_val_stop acc s : no_digit s -> digits_val acc s = (acc, s).
Proof.
  intros Hs. destruct s as [|c s]; [done|]. cbn [digits_val]. specialize (Hs c s eq_refl). destruct (Z.leb_spec 48 c), (Z.leb_spec c 57); cbn [andb]; try done. lia.
Qed.

(** Reading undoes writing. *)
Lemma read_dec v rest : 0 <= v < 10 ^ 20 -> no_digit rest -> digits_val 0 (dec v ++ rest) = (v, rest).
Proof.
  intros Hv Hr. unfold dec. destruct (Z.eqb_spec v 0) as [->|Hne]; [cbn; by apply digits_val_stop|]. rewrite digits_val_of by (by change (Z.of_nat 20) with 20). cbn [Z.mul Z.add]. by apply digits_val_stop.
Qed.
End decimal.

(** * Buffers filled from the left *)

Definition filled (buf : list Z) (size : Z) (xs : list Z) : Prop := zlen buf = size /\ exists rest, buf = xs ++ rest.

Section filled.
Implicit Types (buf xs ys : list Z).

Lemma filled_range buf size xs ys : filled buf size xs -> zlen xs + zlen ys <= size -> exists buf', wr_range buf (zlen xs) ys = Ret buf' /\ filled buf' size (xs ++ ys).
Proof.
  intros [Hl [rest ->]] Hfit. rewrite wr_range_in by (apply zlen_nonneg || lia). eexists. split; [done|]. pose proof (zlen_nonneg xs). pose proof (zlen_nonneg ys). rewrite zlen_app in Hl. split.
  - rewrite !zlen_app. unfold zlen in *. rewrite length_take, length_drop, length_app. lia.
  - unfold zlen. rewrite Nat2Z.id, take_app_length. eexists. by rewrite (assoc app).
Qed.

Lemma digits_wr buf size xs c : filled buf size xs -> zlen xs < size -> exists buf', wr buf (zlen xs) c = Ret buf' /\ filled buf' size (xs ++ [c]).
Proof.
  intros [Hl [rest ->]] Hfit. rewrite zlen_app in Hl. destruct rest as [|r rest]; [unfold zlen at 2 in Hl; cbn in Hl; lia|]. rewrite wr_in by (rewrite zlen_app, zlen_cons in *; pose proof (zlen_nonneg xs); pose proof (zlen_nonneg rest); lia).
  eexists. split; [done|]. unfold zlen at 1. rewrite Nat2Z.id, insert_app_r_alt, Nat.sub_diag by lia. cbn. split; [|exists rest; by rewrite <-(assoc app)]. rewrite zlen_app, zlen_cons. rewrite zlen_cons in Hl. lia.
Qed.

Lemma digits_prefix buf size xs ys : filled buf size (xs ++ ys) -> filled buf size xs.
Proof. intros [Hl [rest ->]]. split; [done|]. exists (ys ++ rest). by rewrite (assoc app). Qed.

Lemma filled_junk junk size : 0 <= size -> filled (replicate (Z.to_nat size) junk) size [].
Proof. intros Hs. split; [rewrite zlen_replicate; lia|]. by eexists. Qed.
End filled.

(** * Writing numbers and headers *)

Section output.
Context (junk : Z).
Local Ltac Zify.zify_post_hook ::= Z.div_mod_to_equations.

Lemma rd_digit i : 0 <= i < 10 -> rd [48; 49; 50; 51; 52; 53; 54; 55; 56; 57] i = Ret (48 + i).
Proof. intros Hi. assert (i = 0 \/ i = 1 \/ i = 2 \/ i = 3 \/ i = 4 \/ i = 5 \/ i = 6 \/ i = 7 \/ i = 8 \/ i = 9) as Hc by lia. by repeat destruct Hc as [->|Hc]; [..|subst i]. Qed.

Lemma at_pos_wr (l : list Z) pos c rest : 0 < pos -> at_pos l pos rest -> exists l', wr l (pos - 1) c = Ret l' /\ zlen l' = zlen l /\ at_pos l' (pos - 1) (c :: rest).
Proof.
  intros Hpos [Hb Hd]. rewrite wr_in by lia. eexists. split; [done|]. split; [apply zlen_insert|]. split; [rewrite zlen_insert; lia|]. rewrite (drop_S _ c).
  - rewrite drop_insert_lt by lia. f_equal. rewrite <-Hd. f_equal. lia.
  - apply list_lookup_insert_eq. unfold zlen in Hb. lia.
Qed.

Lemma num_loop k : forall fuel buf ptr v tail, 0 <= v < 10 ^ Z.of_nat k -> Z.of_nat k <= ptr -> at_pos buf ptr tail -> (k < fuel)%nat ->
  exists buf', loop fuel num_step (buf, ptr, v) = Ret (buf', ptr - zlen (dec_of k v)) /\ at_pos buf' (ptr - zlen (dec_of k v)) (dec_of k v ++ tail).
Proof.
  induction k as [|k IH]; intros [|fuel] buf ptr v tail Hv Hptr Hat Hfuel; try lia.
  - assert (v = 0) as -> by lia. exists buf. cbn [dec_of app]. rewrite Z.sub_0_r. split; [|done]. by apply loop_stop.
  - cbn [dec_of]. destruct (Z.eqb_spec v 0) as [->|Hne]; [exists buf; cbn [app]; rewrite Z.sub_0_r; split; [by apply loop_stop|done]|].
    rewrite Nat2Z.inj_succ, Z.pow_succ_r in Hv by lia. destruct (at_pos_wr buf ptr (48 + v mod 10) tail ltac:(lia) Hat) as (buf' & Hwr & Hl & Hat').
    destruct (IH fuel buf' (ptr - 1) (v / 10) (48 + v mod 10 :: tail)) as (buf'' & Hloop & Hat''); [lia|lia|done|lia|]. exists buf''. rewrite zlen_app. unfold zlen at 2 4. cbn [length].
    replace (ptr - (zlen (dec_of k (v / 10)) + Z.of_nat 1)) with (ptr - 1 - zlen (dec_of k (v / 10))) by lia. rewrite <-(assoc app). split; [|exact Hat'']. rewrite <-Hloop. apply loop_next. unfold num_step.
    rewrite (proj2 (tru_true v)), Z.gtb_ltb, (proj2 (Z.ltb_lt 0 ptr)) by lia. cbn [andb negb]. rewrite Z.rem_mod_nonneg, rd_digit by lia. run. rewrite Hwr. run. by rewrite Z.quot_div_nonneg by lia.
Qed.

Lemma copy_loop buf tail ds : forall fuel out size xs ptr, Forall (fun c => 48 <= c <= 57) ds -> at_pos buf ptr (ds ++ 0 :: tail) -> filled out size xs -> zlen xs + zlen ds <= size -> (length ds < fuel)%nat ->
  exists out', loop fuel (num_copy_step buf) (out, zlen xs, ptr) = Ret (out', zlen xs + zlen ds) /\ filled out' size (xs ++ ds).
Proof.
  induction ds as [|d ds IH]; intros [|fuel] out size xs ptr Hds Hat Hout Hfit Hfuel; cbn [length] in Hfuel; try lia.
  - exists out. rewrite app_nil_r, Z.add_0_r. split; [|done]. apply loop_stop. unfold num_copy_step. apply at_pos_cons in Hat as [-> _]. done.
  - apply Forall_cons in Hds as [Hd Hds]. apply at_pos_cons in Hat as [Hrd Hat]. rewrite zlen_cons in *. pose proof (zlen_nonneg ds). destruct (digits_wr out size xs d Hout) as (out' & Hwr & Hout'); [lia|].
    destruct (IH fuel out' size (xs ++ [d]) (ptr + 1) Hds Hat Hout') as (out'' & Hloop & Hout''); [rewrite zlen_app, zlen_cons, zlen_nil; lia|lia|]. exists out''. rewrite <-(assoc app) in Hout''. split; [|exact Hout''].
    rewrite zlen_app, zlen_cons, zlen_nil in Hloop. replace (zlen xs + (1 + zlen ds)) with (zlen xs + (1 + 0) + zlen ds) by lia. rewrite <-Hloop. apply loop_next. unfold num_copy_step. rewrite Hrd. run. rewrite (proj2 (tru_true d)) by lia. cbn [negb]. rewrite Hwr. run.
    by replace (zlen xs + (1 + 0)) with (zlen xs + 1) by lia.
Qed.

(** A number is written in decimal, with a NUL after it. *)
Lemma num_out_spec out size xs v : 0 <= v < 2 ^ 63 -> filled out size xs -> zlen xs + zlen (dec v) < size ->
  exists out', xdl_num_out junk out (zlen xs) v = Ret (out', zlen (dec v)) /\ filled out' size (xs ++ dec v).
Proof.
  intros Hv Hout Hfit. unfold xdl_num_out. rewrite (wr_in (replicate 32 junk) 31 0) by (unfold zlen; rewrite length_replicate; lia). run. rewrite (proj2 (Z.ltb_ge v 0)) by lia. run.
  destruct (num_loop 20 33 (<[Z.to_nat 31:=0]> (replicate 32 junk)) 31 v [0]) as (buf & -> & Hat); [lia|lia|by split|lia|]. run.
  assert (exists out' str, (c ← rd buf (31 - zlen (dec_of 20 v)); '(out, str) ← (if tru c then loop 33 (num_copy_step buf) (out, zlen xs, 31 - zlen (dec_of 20 v)) else out ← wr out (zlen xs) 48; Ret (out, zlen xs + 1)); Ret (out, str)) = Ret (out', str) /\ filled out' size (xs ++ dec v) /\ str = zlen xs + zlen (dec v)) as (out' & str & Hrun & Hout' & ->).
  { unfold dec in *. destruct (Z.eqb_spec v 0) as [->|Hne].
    - apply at_pos_cons in Hat as [-> _]. run. cbn [tru negb Z.eqb]. destruct (digits_wr out size xs 48 Hout) as (out' & -> & Hout'); [unfold zlen at 2 in Hfit; cbn in Hfit; lia|]. run. by eexists _, _.
    - pose proof (dec_of_digits 20 v ltac:(lia)) as Hds. pose proof (dec_of_len 20 v) as Hlen. destruct (copy_loop buf [] (dec_of 20 v) 33 out size xs _ Hds Hat Hout) as (out' & Hloop & Hout'); [lia|unfold zlen in Hlen; lia|].
      assert (exists d ds, dec_of 20 v = d :: ds) as (d & ds & Hcons). { pose proof (dec_len v) as Hl. unfold dec in Hl. rewrite (proj2 (Z.eqb_neq v 0) Hne) in Hl. destruct (dec_of 20 v) as [|d ds]; [unfold zlen in Hl; cbn in Hl; lia|by exists d, ds]. }
      assert (rd buf (31 - zlen (dec_of 20 v)) = Ret d) as -> by (rewrite Hcons in Hat |- *; by apply at_pos_cons in Hat as [? _]). run. rewrite (proj2 (tru_true d)) by (rewrite Hcons in Hds; apply Forall_cons in Hds as [? _]; lia). rewrite Hloop. run. by eexists _, _. }
  destruct (rd buf _) as [c| |]; try done. run_in Hrun. run. destruct (if tru c then _ else _) as [[o s]| |]; try done. run_in Hrun. injection Hrun as -> ->. run.
  rewrite <-zlen_app. destruct (digits_wr out' size (xs ++ dec v) 0 Hout') as (out'' & -> & Hout''); [rewrite zlen_app; lia|]. run. exists out''. split; [|by apply digits_prefix in Hout'']. rewrite zlen_app. do 2 f_equal. lia.
Qed.
End output.

(** ** The header of a hunk *)

(** The first line of a range, or the line before an empty one, and its length unless that is 1. *)
Definition range_text (s c : Z) : list Z := dec (if c =? 0 then s - 1 else s) ++ (if c =? 1 then [] else 44 :: dec c).
Definition hunk_hdr (s1 c1 s2 c2 : Z) (func : list Z) : list Z := [64; 64; 32; 45] ++ range_text s1 c1 ++ [32; 43] ++ range_text s2 c2 ++ [32; 64; 64] ++ func ++ [10].

(** Reading it: the start as it is written and the length of both ranges. *)
Definition parse_range (s : list Z) : Z * Z * list Z :=
  let '(a, s) := digits_val 0 s in
  match s with
  | 44 :: s => let '(b, s) := digits_val 0 s in (a, b, s)
  | _ => (a, 1, s)
  end.
Definition parse_hunk_hdr (s : list Z) : option (Z * Z * Z * Z) :=
  match s with
  | 64 :: 64 :: 32 :: 45 :: s =>
      let '(a, b, s) := parse_range s in
      match s with
      | 32 :: 43 :: s => let '(c, d, s) := parse_range s in match s with 32 :: 64 :: 64 :: _ => Some (a, b, c, d) | _ => None end
      | _ => None
      end
  | _ => None
  end.

Section headers.
Context (junk : Z).

Lemma range_text_len s c : zlen (range_text s c) <= 41.
Proof. unfold range_text. rewrite zlen_app. pose proof (dec_len (if c =? 0 then s - 1 else s)). pose proof (dec_len c). destruct (c =? 1); rewrite ?zlen_cons, ?zlen_nil; lia. Qed.

Lemma range_out_spec buf xs s c : 1 <= s < 2 ^ 63 -> 0 <= c < 2 ^ 63 -> filled buf 128 xs -> zlen xs < 87 ->
  exists buf', range_out junk buf (zlen xs) s c = Ret (buf', zlen (xs ++ range_text s c)) /\ filled buf' 128 (xs ++ range_text s c).
Proof.
  intros Hs Hc Hbuf Hfit. unfold range_out, range_text. replace (if tru c then s else s - 1) with (if c =? 0 then s - 1 else s) by (unfold tru; by destruct (c =? 0)).
  pose proof (dec_len (if c =? 0 then s - 1 else s)) as Hl1. pose proof (dec_len c) as Hl2. destruct (num_out_spec junk buf 128 xs (if c =? 0 then s - 1 else s)) as (b1 & -> & Hb1); [destruct (c =? 0); lia|done|lia|]. run.
  rewrite <-zlen_app. destruct (c =? 1); cbn [negb]; [exists b1; by rewrite app_nil_r|].
  destruct (filled_range b1 128 _ [44] Hb1) as (b2 & -> & Hb2); [rewrite zlen_app, zlen_cons, zlen_nil; lia|]. run.
  destruct (num_out_spec junk b2 128 _ c Hc Hb2) as (b3 & Hn & Hb3); [rewrite !zlen_app, zlen_cons, zlen_nil; lia|]. exists b3. rewrite <-!(assoc app) in Hb3. cbn [app] in Hb3. split; [|done].
  replace (zlen (xs ++ dec (if c =? 0 then s - 1 else s)) + 1) with (zlen ((xs ++ dec (if c =? 0 then s - 1 else s)) ++ [44])) by (rewrite (zlen_app _ [44]); done). rewrite Hn. run. do 2 f_equal. rewrite !zlen_app, zlen_cons, zlen_nil. rewrite zlen_cons. lia.
Qed.

(** The header as one line; of the function only what fits into the buffer. *)
Lemma format_spec {S} s1 c1 s2 c2 func funclen (ecb : xdemitcb S) st : 1 <= s1 < 2 ^ 63 -> 0 <= c1 < 2 ^ 63 -> 1 <= s2 < 2 ^ 63 -> 0 <= c2 < 2 ^ 63 -> 0 <= funclen <= zlen func -> zlen func < 2 ^ 63 ->
  exists fn, xdl_format_hunk_hdr junk s1 c1 s2 c2 func funclen ecb st = out_line ecb st [hunk_hdr s1 c1 s2 c2 fn] /\ (fn = [] \/ exists n, 0 <= n <= funclen /\ fn = 32 :: slice func 0 n).
Proof.
  intros H1 Hc1 H2 Hc2 Hf Hfl. unfold xdl_format_hunk_hdr.
  pose proof (range_text_len s1 c1) as Hl1. pose proof (range_text_len s2 c2) as Hl2.
  destruct (filled_range _ 128 [] [64; 64; 32; 45] (filled_junk junk 128 ltac:(lia))) as (b1 & Hw1 & Hb1); [by vm_compute|]. change (replicate 128 junk) with (replicate (Z.to_nat 128) junk). rewrite zlen_nil in Hw1. rewrite Hw1. run.
  destruct (range_out_spec b1 _ s1 c1 H1 Hc1 Hb1) as (b2 & Hw2 & Hb2); [by vm_compute|]. change (zlen ([] ++ [64; 64; 32; 45])) with 4 in Hw2. rewrite Hw2. run.
  destruct (filled_range b2 128 _ [32; 43] Hb2) as (b3 & -> & Hb3); [rewrite !zlen_app, !zlen_cons, !zlen_nil; lia|]. run. set (x3 := (_ ++ _) ++ [32; 43]) in Hb3.
  assert (zlen x3 <= 47) as Hx3 by (unfold x3; rewrite !zlen_app, !zlen_cons, !zlen_nil; lia). match goal with |- context [range_out _ _ ?p s2 c2] => replace p with (zlen x3) by (unfold x3; by rewrite (zlen_app _ [32; 43])) end.
  destruct (range_out_spec b3 x3 s2 c2 H2 Hc2 Hb3) as (b4 & -> & Hb4); [lia|]. run.
  destruct (filled_range b4 128 _ [32; 64; 64] Hb4) as (b5 & -> & Hb5); [rewrite !zlen_app, !zlen_cons, !zlen_nil; lia|]. run. set (x5 := (_ ++ _) ++ [32; 64; 64]) in Hb5.
  assert (zlen x5 <= 91) as Hx5 by (unfold x5; rewrite !zlen_app, !zlen_cons, !zlen_nil; lia). match goal with |- context [wr b5 ?p 32] => replace p with (zlen x5) by (unfold x5; by rewrite (zlen_app _ [32; 64; 64])) end.
  set (tail := if tru funclen then _ else _).
  assert (exists b6 fn, tail = Ret (b6, zlen (x5 ++ fn)) /\ filled b6 128 (x5 ++ fn) /\ zlen (x5 ++ fn) < 128 /\ (fn = [] \/ exists n, 0 <= n <= funclen /\ fn = 32 :: slice func 0 n)) as (b6 & fn & -> & Hb6 & Hl6 & Hfn).
  { unfold tail. destruct (tru funclen); [|exists b5, []; rewrite app_nil_r; split; [done|]; split; [done|]; split; [lia|by left]]. clear tail.
    destruct (digits_wr b5 128 x5 32 Hb5) as (b6 & -> & Hb6); [lia|]. run. pose proof (zlen_nonneg x5). rewrite !u64_small by lia. set (n := if _ >? _ then _ else _). assert (0 <= n <= funclen /\ n <= 128 - (zlen x5 + 1) - 1) as [Hn Hn'].
    { unfold n. rewrite Z.gtb_ltb. destruct (Z.ltb_spec (128 - (zlen x5 + 1) - 1) funclen); lia. }
    rewrite rd_range_in by lia. run. pose proof (zlen_slice func 0 n ltac:(lia) ltac:(lia) ltac:(lia)) as Hsl. replace (zlen x5 + 1) with (zlen (x5 ++ [32])) by (by rewrite (zlen_app _ [32])).
    destruct (filled_range b6 128 _ (slice func 0 n) Hb6) as (b7 & -> & Hb7); [rewrite zlen_app, zlen_cons, zlen_nil; lia|]. run. exists b7, (32 :: slice func 0 n). rewrite <-(assoc app) in Hb7. cbn [app] in Hb7.
    split; [do 2 f_equal; rewrite !zlen_app, !zlen_cons, zlen_nil; lia|]. split; [done|]. split; [rewrite zlen_app, zlen_cons; lia|]. right. by exists n. }
  run. destruct (digits_wr b6 128 _ 10 Hb6 Hl6) as (b7 & -> & Hb7). run. destruct Hb7 as [Hl7 [rest Hb7]]. pose proof (zlen_nonneg (x5 ++ fn)). rewrite rd_range_in by lia. run. exists fn. split; [|done].
  f_equal. f_equal. rewrite Hb7. unfold slice. rewrite drop_0. replace (Z.to_nat (zlen (x5 ++ fn) + 1)) with (length ((x5 ++ fn) ++ [10])) by (rewrite length_app; unfold zlen; cbn [length]; lia). rewrite take_app_length.
  unfold x5, x3, hunk_hdr. by same_list.
Qed.
End headers.

Lemma no_digit_cons c s : (c < 48 \/ 57 < c) -> no_digit (c :: s).
Proof. intros Hc d s' [= <- _]. lia. Qed.

Lemma parse_range_text s c rest : 1 <= s < 2 ^ 63 -> 0 <= c < 2 ^ 63 -> parse_range (range_text s c ++ 32 :: rest) = (if c =? 0 then s - 1 else s, c, 32 :: rest).
Proof.
  intros Hs Hc. unfold parse_range, range_text. rewrite <-(assoc app). set (a := if c =? 0 then s - 1 else s). assert (0 <= a < 10 ^ 20) as Ha by (unfold a; destruct (c =? 0); lia).
  destruct (Z.eqb_spec c 1) as [->|Hne]; cbn [app]; rewrite read_dec by (done || apply no_digit_cons; lia); [done|]. by rewrite read_dec by (lia || apply no_digit_cons; lia).
Qed.

(** What a patch program reads in a header. *)
Lemma parse_hdr_text s1 c1 s2 c2 func : 1 <= s1 < 2 ^ 63 -> 0 <= c1 < 2 ^ 63 -> 1 <= s2 < 2 ^ 63 -> 0 <= c2 < 2 ^ 63 ->
  parse_hunk_hdr (hunk_hdr s1 c1 s2 c2 func) = Some (if c1 =? 0 then s1 - 1 else s1, c1, if c2 =? 0 then s2 - 1 else s2, c2).
Proof.
  intros H1 Hc1 H2 Hc2. unfold hunk_hdr, parse_hunk_hdr. cbn [app]. rewrite parse_range_text by done. cbn [app]. by rewrite parse_range_text by done.
Qed.
