(* ===== verification/XdiffEmit.v ===== *)
(** xdiff_xemit.c and the end of [xdl_diff]: cutting an edit script into hunks and
    printing them. *)
From S2P Require Import Prelude Strbuf XdiffFile XdiffUtils XdiffPrepare XdiffRange XdiffScript XdiffHunk.

(** * Data *)

(** Flags for printing, of xdiff.h, and [isalpha] of git-compat-util.h. *)
Class XdiffEmitH := {
  XDL_EMIT_FUNCNAMES : Z;
  XDL_EMIT_NO_HUNK_HDR : Z;
  XDL_EMIT_FUNCCONTEXT : Z;
  isalpha : Z -> bool;
}.

#[export] Instance emit_ref : XdiffEmitH := {
  XDL_EMIT_FUNCNAMES := 1;
  XDL_EMIT_NO_HUNK_HDR := 2;
  XDL_EMIT_FUNCCONTEXT := 4;
  isalpha c := (65 <=? c) && (c <=? 90) || (97 <=? c) && (c <=? 122);
}.

(** [xdemitconf_t].  [find_func] takes a line and a buffer, and returns the buffer and a
    length or a negative number. *)
Record xdemitconf (S : Type) := XdEmitConf {
  ctxlen : Z;
  interhunkctxlen : Z;
  eflags : Z;
  find_func : option (list Z -> list Z -> outcome (list Z * Z));
  hunk_func : option (S -> Z -> Z -> Z -> Z -> outcome S);
}.
Arguments XdEmitConf {S}.
Arguments ctxlen {S}.
Arguments interhunkctxlen {S}.
Arguments eflags {S}.
Arguments find_func {S}.
Arguments hunk_func {S}.

(** A pointer to a change that is not NULL: the change and what [next] leads to.  Two
    pointers into a script are equal when as many changes follow. *)
Definition node : Type := xdchange * list xdchange.
Definition same_node (a b : node) : bool := (length (snd a) =? length (snd b))%nat.

(** Where a change ends. *)
Definition end1 (c : xdchange) : Z := ch_i1 c + ch_chg1 c.
Definition end2 (c : xdchange) : Z := ch_i2 c + ch_chg2 c.

(** * Model *)

(** The first loop of [xdl_get_hunk] from [xchp] on: ignored changes that are too far
    before others are taken off [xscr]. *)
Fixpoint skip_ignorable (max_ignorable : Z) (xscr xchp : list xdchange) : list xdchange :=
  match xchp with
  | p :: xch =>
      if ch_ignore p then
        let far := match xch with [] => true | c :: _ => ch_i1 c - end1 p >=? max_ignorable end in
        skip_ignorable max_ignorable (if far then xch else xscr) xch
      else xscr
  | [] => xscr
  end.

(** The second loop, with [xchp] and what follows it. *)
Fixpoint last_change (max_common max_ignorable : Z) (lxch : node) (ignored : Z) (xchp : xdchange) (next : list xdchange) : node :=
  match next with
  | [] => lxch
  | xch :: next' =>
      let distance := ch_i1 xch - end1 xchp in
      let at_last := same_node lxch (xchp, next) in
      if distance >? max_common then lxch else
      if (distance <? max_ignorable) && (negb (ch_ignore xch) || at_last) then last_change max_common max_ignorable (xch, next') 0 xch next'
      else if (distance <? max_ignorable) && ch_ignore xch then last_change max_common max_ignorable lxch (u64 (ignored + ch_chg2 xch)) xch next'
      else if negb at_last && (u64 (ch_i1 xch + ignored - end1 (fst lxch)) >? u64 max_common) then lxch
      else if negb (ch_ignore xch) then last_change max_common max_ignorable (xch, next') 0 xch next'
      else last_change max_common max_ignorable lxch (u64 (ignored + ch_chg2 xch)) xch next'
  end.

Section model.
Context {S : Type} `{XdiffH} `{Ctype} `{XdiffEmitH} (junk : Z).
Implicit Types (xecfg : xdemitconf S) (xe : xdfenv).

(** The new [*xscr] and the last change of the hunk, or NULL. *)
Definition xdl_get_hunk (xscr : list xdchange) xecfg : option (node * node) :=
  let max_common := 2 * ctxlen xecfg + interhunkctxlen xecfg in
  let max_ignorable := ctxlen xecfg in
  match skip_ignorable max_ignorable xscr xscr with
  | [] => None
  | c :: next => Some ((c, next), last_change max_common max_ignorable (c, next) 0 c next)
  end.

Fixpoint call_hunk_loop (fuel : nat) (hunk_func : S -> Z -> Z -> Z -> Z -> outcome S) xecfg (xch : list xdchange) (st : S) : outcome S :=
  match fuel, xch with
  | O, _ => Undef
  | _, [] => Ret st
  | Datatypes.S fuel, _ =>
      match xdl_get_hunk xch xecfg with
      | None => Ret st
      | Some (xch, xche) =>
          st ← hunk_func st (ch_i1 (fst xch)) (end1 (fst xche) - ch_i1 (fst xch)) (ch_i2 (fst xch)) (end2 (fst xche) - ch_i2 (fst xch));
          call_hunk_loop fuel hunk_func xecfg (snd xche) st
      end
  end.

Definition xdl_call_hunk_func (hunk_func : S -> Z -> Z -> Z -> Z -> outcome S) xecfg (xscr : list xdchange) (st : S) : outcome S :=
  call_hunk_loop (Datatypes.S (length xscr)) hunk_func xecfg xscr st.

(** ** Function lines *)

Definition def_ff_strip (rec : list Z) (len : Z) : outcome (Z + Z) :=
  if negb (0 <? len) then Ret (inr len) else
  c ← rd rec (len - 1);
  Ret (if isspace (u8 c) then inl (len - 1) else inr len).

Definition def_ff (rec buf : list Z) : outcome (list Z * Z) :=
  let len := zlen rec in
  let sz := zlen buf in
  if negb (len >? 0) then Ret (buf, -1) else
  c ← rd rec 0;
  if negb (isalpha (u8 c) || (c =? 95) || (c =? 36)) then Ret (buf, -1) else
  let len := if len >? sz then sz else len in
  len ← loop (Datatypes.S (Z.to_nat len)) (def_ff_strip rec) len;
  src ← rd_range rec 0 len;
  buf ← wr_range buf 0 src;
  Ret (buf, len).

Definition match_func_rec (xdf : xdfile) xecfg (ri : Z) (buf : list Z) : outcome (list Z * Z) :=
  rec ← rd (recs xdf) ri;
  match find_func xecfg with
  | None => def_ff (rec_line rec) buf
  | Some find_func => find_func (rec_line rec) buf
  end.

Definition is_func_rec (xdf : xdfile) xecfg (ri : Z) : outcome bool :=
  '(_, len) ← match_func_rec xdf xecfg ri [junk];
  Ret (len >=? 0).

(** One line on the way from [l] to [limit]: the buffer, and the length with the line it is in. *)
Definition func_line_step (xdf : xdfile) xecfg (step limit : Z) (st : list Z * Z) : outcome ((list Z * Z) + (list Z * option (Z * Z))) :=
  let '(buf, l) := st in
  if negb (negb (l =? limit) && (0 <=? l) && (l <? nrec xdf)) then Ret (inr (buf, None)) else
  '(buf, len) ← match_func_rec xdf xecfg l buf;
  Ret (if len >=? 0 then inr (buf, Some (len, l)) else inl (buf, l + step)).

Definition get_func_line xe xecfg (buf : list Z) (start limit : Z) : outcome (list Z * option (Z * Z)) :=
  let step := if start >? limit then -1 else 1 in
  loop (Datatypes.S (length (recs (xdf1 xe)))) (func_line_step (xdf1 xe) xecfg step limit) (buf, start).

(** The line of [get_func_line] with NULL for the buffer, or -1. *)
Definition func_line_at xe xecfg (start limit : Z) : outcome Z :=
  '(_, found) ← get_func_line xe xecfg [junk] start limit;
  Ret (match found with Some (_, l) => l | None => -1 end).

Definition is_empty_rec (xdf : xdfile) (ri : Z) : outcome bool :=
  rec ← rd (recs xdf) ri;
  i ← skip_space (rec_line rec) 0;
  Ret (zlen (rec_line rec) =? i).

(** ** The range of a hunk *)

(** [while (i2 < nrec) { if (is_func_rec(...)) goto ...; i2++; }] *)
Definition appended_step (xdf : xdfile) xecfg (i2 : Z) : outcome (Z + bool) :=
  if negb (i2 <? nrec xdf) then Ret (inr false) else
  f ← is_func_rec xdf xecfg i2;
  Ret (if (f : bool) then inr true else inl (i2 + 1)).

(** [while (fs1 > 0 && !is_empty_rec(fs1 - 1) && !is_func_rec(fs1 - 1)) fs1--;] *)
Definition comment_step (xdf : xdfile) xecfg (fs1 : Z) : outcome (Z + Z) :=
  if negb (fs1 >? 0) then Ret (inr fs1) else
  empty ← is_empty_rec xdf (fs1 - 1);
  if (empty : bool) then Ret (inr fs1) else
  func ← is_func_rec xdf xecfg (fs1 - 1);
  Ret (if (func : bool) then inr fs1 else inl (fs1 - 1)).

(** [while (fe1 > 0 && is_empty_rec(fe1 - 1)) fe1--;] *)
Definition empty_step (xdf : xdfile) (fe1 : Z) : outcome (Z + Z) :=
  if negb (fe1 >? 0) then Ret (inr fe1) else
  empty ← is_empty_rec xdf (fe1 - 1);
  Ret (if (empty : bool) then inl (fe1 - 1) else inr fe1).

(** Ignored changes from [xchp] on that lie before [s1] and [s2]. *)
Fixpoint skip_shown (xch : node) (s1 s2 : Z) (xchp : xdchange) (next : list xdchange) : outcome node :=
  if negb (same_node (xchp, next) xch) && (end1 xchp <=? s1) && (end2 xchp <=? s2) then
    match next with [] => Undef | c :: next => skip_shown xch s1 s2 c next end
  else Ret (xchp, next).

(** [pre_context_calculation]: the hunk's first change and where it starts. *)
Definition pre_context xe xecfg (st : node * node) : outcome ((node * node) + (node * Z * Z)) :=
  let '(xch, xchp) := st in
  let s1 := Z.max (ch_i1 (fst xch) - ctxlen xecfg) 0 in
  let s2 := Z.max (ch_i2 (fst xch) - ctxlen xecfg) 0 in
  if negb (flag (eflags xecfg) XDL_EMIT_FUNCCONTEXT) then Ret (inr (xch, s1, s2)) else
  let i1 := ch_i1 (fst xch) in
  whole ← (if i1 >=? nrec (xdf1 xe) then loop (Datatypes.S (length (recs (xdf2 xe)))) (appended_step (xdf2 xe) xecfg) (ch_i2 (fst xch)) else Ret false);
  if (whole : bool) then Ret (inr (xch, s1, s2)) else
  let i1 := if i1 >=? nrec (xdf1 xe) then nrec (xdf1 xe) - 1 else i1 in
  fs1 ← func_line_at xe xecfg i1 (-1);
  fs1 ← loop (Datatypes.S (length (recs (xdf1 xe)))) (comment_step (xdf1 xe) xecfg) fs1;
  let fs1 := if fs1 <? 0 then 0 else fs1 in
  if fs1 <? s1 then
    let s2 := Z.max (s2 - (s1 - fs1)) 0 in
    let s1 := fs1 in
    xchp ← skip_shown xch s1 s2 (fst xchp) (snd xchp);
    Ret (if same_node xchp xch then inr (xch, s1, s2) else inl (xchp, xchp))
  else Ret (inr (xch, s1, s2)).

(** [post_context_calculation]: the hunk's last change and where it ends. *)
Definition post_context xe xecfg (xche : node) : outcome (node + (node * Z * Z)) :=
  let lctx := Z.min (Z.min (ctxlen xecfg) (nrec (xdf1 xe) - end1 (fst xche))) (nrec (xdf2 xe) - end2 (fst xche)) in
  let e1 := end1 (fst xche) + lctx in
  let e2 := end2 (fst xche) + lctx in
  if negb (flag (eflags xecfg) XDL_EMIT_FUNCCONTEXT) then Ret (inr (xche, e1, e2)) else
  fe1 ← func_line_at xe xecfg (end1 (fst xche)) (nrec (xdf1 xe));
  fe1 ← loop (Datatypes.S (length (recs (xdf1 xe)))) (empty_step (xdf1 xe)) fe1;
  let fe1 := if fe1 <? 0 then nrec (xdf1 xe) else fe1 in
  let e2 := if fe1 >? e1 then Z.min (e2 + (fe1 - e1)) (nrec (xdf2 xe)) else e2 in
  let e1 := if fe1 >? e1 then fe1 else e1 in
  match snd xche with
  | [] => Ret (inr (xche, e1, e2))
  | c :: next =>
      let l := Z.min (ch_i1 c) (nrec (xdf1 xe) - 1) in
      if l - ctxlen xecfg <=? e1 then Ret (inl (c, next)) else
      f ← func_line_at xe xecfg l e1;
      Ret (if f <? 0 then inl (c, next) else inr (xche, e1, e2))
  end.

(** Both, for the hunk from [xch] to [xche]; [xchp] is where the search for it began. *)
Definition hunk_range xe xecfg (xchp xch xche : node) : outcome (node * node * Z * Z * Z * Z) :=
  '(xch, s1, s2) ← loop 3 (pre_context xe xecfg) (xch, xchp);
  '(xche, e1, e2) ← loop (Datatypes.S (length (snd xche))) (post_context xe xecfg) xche;
  Ret (xch, xche, s1, s2, e1, e2).

(** ** Printing *)

Section emit.
Context (ecb : xdemitcb S).

Definition xdl_emit_record (xdf : xdfile) (ri : Z) (pre : Z) (st : S) : outcome S :=
  rec ← rd (recs xdf) ri;
  xdl_emit_diffrec (rec_line rec) [pre] ecb st.

(** [for (s = i; s < i + n; s++) xdl_emit_record(...)] *)
Definition emit_records (xdf : xdfile) (pre i n : Z) (st : S) : outcome S :=
  for_n (Z.to_nat n) i (fun s st => xdl_emit_record xdf s pre st) st.

(** The changes from [xch] to [xche], with the lines between them. *)
Fixpoint emit_changes xe (xche : node) (s1 s2 : Z) (xch : xdchange) (next : list xdchange) (st : S) : outcome S :=
  st ← emit_records (xdf2 xe) 32 s2 (Z.min (ch_i1 xch - s1) (ch_i2 xch - s2)) st;
  st ← emit_records (xdf1 xe) 45 (ch_i1 xch) (ch_chg1 xch) st;
  st ← emit_records (xdf2 xe) 43 (ch_i2 xch) (ch_chg2 xch) st;
  if same_node (xch, next) xche then Ret st else
  match next with
  | [] => Undef
  | c :: next => emit_changes xe xche (end1 xch) (end2 xch) c next st
  end.

(** [struct func_line], the start of the search for the last one, and the caller's state. *)
Definition emit_state : Type := list xdchange * (Z * list Z) * Z * S.

Definition emit_step xe xecfg (st : emit_state) : outcome (emit_state + S) :=
  let '(xch, func_line, funclineprev, st) := st in
  match xch with
  | [] => Ret (inr st)
  | xchp :: next =>
      match xdl_get_hunk xch xecfg with
      | None => Ret (inr st)
      | Some (xch, xche) =>
          '(xch, xche, s1, s2, e1, e2) ← hunk_range xe xecfg (xchp, next) xch xche;
          '(func_line, funclineprev) ← (if flag (eflags xecfg) XDL_EMIT_FUNCNAMES then
              '(buf, found) ← get_func_line xe xecfg (snd func_line) (s1 - 1) funclineprev;
              Ret ((match found with Some (len, _) => len | None => fst func_line end, buf), s1 - 1)
            else Ret (func_line, funclineprev));
          st ← (if negb (flag (eflags xecfg) XDL_EMIT_NO_HUNK_HDR) then
              xdl_emit_hunk_hdr junk (s1 + 1) (e1 - s1) (s2 + 1) (e2 - s2) (snd func_line) (fst func_line) ecb st
            else Ret st);
          st ← emit_records (xdf2 xe) 32 s2 (ch_i2 (fst xch) - s2) st;
          st ← emit_changes xe xche (ch_i1 (fst xch)) (ch_i2 (fst xch)) (fst xch) (snd xch) st;
          st ← emit_records (xdf2 xe) 32 (end2 (fst xche)) (e2 - end2 (fst xche)) st;
          Ret (inl (snd xche, func_line, funclineprev, st))
      end
  end.

Definition xdl_emit_diff xe xecfg (xscr : list xdchange) (st : S) : outcome S :=
  loop (Datatypes.S (length xscr)) (emit_step xe xecfg) (xscr, (0, replicate 80 0), -1, st).
End emit.

(** [xdl_diff] with the function that prints which the caller's configuration asks for. *)
Definition xdl_diff_out (mf1 mf2 : list Z) (xpp : xpparam) xecfg (ecb : xdemitcb S) (st : S) : outcome (option S) :=
  xdl_diff junk (fun xe xscr => match hunk_func xecfg with
                                | Some hunk_func => xdl_call_hunk_func hunk_func xecfg xscr st
                                | None => xdl_emit_diff ecb xe xecfg xscr st
                                end) mf1 mf2 xpp.
End model.

(** * Events *)

(** What the caller's functions are called with. *)
Inductive event :=
| EvHunk (s1 c1 s2 c2 : Z) (func : list Z) (funclen : Z)
| EvLine (pre : Z) (rec : list Z).

Definition file_lines (xdf : xdfile) : list (list Z) := rec_line <$> recs xdf.

(** The lines of a hunk from [s2] of the second file on: context, and the changes. *)
Fixpoint between (l1 l2 : list (list Z)) (s2 : Z) (cs : list xdchange) (e2 : Z) : list event :=
  match cs with
  | [] => EvLine 32 <$> slice l2 s2 (e2 - s2)
  | c :: cs => (EvLine 32 <$> slice l2 s2 (ch_i2 c - s2)) ++ (EvLine 45 <$> slice l1 (ch_i1 c) (ch_chg1 c)) ++ (EvLine 43 <$> slice l2 (ch_i2 c) (ch_chg2 c)) ++ between l1 l2 (end2 c) cs e2
  end.

Section feed.
Context {S : Type} `{XdiffEmitH} (junk : Z) (ecb : xdemitcb S).

Definition send (ev : event) (st : S) : outcome S :=
  match ev with
  | EvHunk s1 c1 s2 c2 func funclen => xdl_emit_hunk_hdr junk s1 c1 s2 c2 func funclen ecb st
  | EvLine pre rec => xdl_emit_diffrec rec [pre] ecb st
  end.

Fixpoint feed (evs : list event) (st : S) : outcome S :=
  match evs with
  | [] => Ret st
  | ev :: evs => st ← send ev st; feed evs st
  end.

Lemma feed_app evs evs' st : feed (evs ++ evs') st = feed evs st ≫= feed evs'.
Proof.
  revert st. induction evs as [|ev evs IH]; intros st; [done|]. cbn [feed app]. destruct (send ev st); run; [apply IH|done..].
Qed.

Lemma emit_records_feed xdf pre n : forall i st, 0 <= i -> i + n <= nrec xdf -> emit_records ecb xdf pre i n st = feed (EvLine pre <$> slice (file_lines xdf) i n) st.
Proof.
  unfold emit_records. remember (Z.to_nat n) as k eqn:Hk. revert n Hk. induction k as [|k IH]; intros n Hk i st Hi Hn.
  - unfold slice. by rewrite <-Hk.
  - cbn [for_n]. unfold xdl_emit_record. destruct (rd_rec xdf i) as (r & -> & Hr & _); [lia|]. run. rewrite (slice_cons _ i n (rec_line r)) by (lia || unfold file_lines; by rewrite list_lookup_fmap, Hr). cbn [fmap list_fmap feed send].
    destruct (xdl_emit_diffrec (rec_line r) [pre] ecb st); run; [|done..]. apply IH; lia.
Qed.

(** ** Pointers into a script *)

Definition node_list (a : node) : list xdchange := fst a :: snd a.

Lemma same_node_true (a b : node) : node_list b `suffix_of` node_list a -> same_node a b = true -> a = b.
Proof.
  unfold same_node. rewrite Nat.eqb_eq. intros [pre Hpre] Hl. unfold node_list in Hpre. destruct pre as [|p pre]; [by destruct a, b; injection Hpre as -> ->|]. apply (f_equal length) in Hpre. rewrite length_app in Hpre. cbn [length] in Hpre. lia.
Qed.

(** The changes from [a] to [b]. *)
Definition segment (a b : node) (cs : list xdchange) : Prop := node_list a = cs ++ snd b /\ last cs = Some (fst b).

Lemma suffix_segment a b : node_list b `suffix_of` node_list a -> exists cs, segment a b cs.
Proof. intros [pre Hpre]. exists (pre ++ [fst b]). split; [by rewrite <-(assoc app)|by rewrite last_snoc]. Qed.

Lemma emit_changes_feed {A} xe xche e2 (n1 n2 : Z -> A) cs : forall c next s1 s2 st, segment (c, next) xche (c :: cs) -> 0 <= s1 -> 0 <= s2 -> ch_i1 c - s1 = ch_i2 c - s2 -> 0 <= ch_i1 c -> 0 <= ch_i2 c -> 0 <= ch_chg1 c -> 0 <= ch_chg2 c ->
  script_ok n1 n2 (nrec (xdf1 xe)) (nrec (xdf2 xe)) (end1 c) (end2 c) next -> e2 <= nrec (xdf2 xe) ->
  (st ← emit_changes ecb xe xche s1 s2 c next st; emit_records ecb (xdf2 xe) 32 (end2 (fst xche)) (e2 - end2 (fst xche)) st) = feed (between (file_lines (xdf1 xe)) (file_lines (xdf2 xe)) s2 (c :: cs) e2) st.
Proof.
  induction cs as [|d cs IH]; intros c next s1 s2 st [Hseg Hlast] Hs1 Hs2 Heq H1 H2 Hc1 Hc2 Hs He2; pose proof (script_ok_le _ _ _ _ _ _ _ Hs) as [Hle1 Hle2]; unfold end1, end2 in Hle1, Hle2.
  - cbn in Hlast. injection Hlast as Hlast. unfold node_list in Hseg. cbn [fst snd app] in Hseg. injection Hseg as ->. destruct xche as [x next]. cbn [fst snd] in *. subst x. destruct next as [|d next]; cbn [emit_changes between]; (rewrite !feed_app, Heq, Z.min_id);
      rewrite (emit_records_feed (xdf2 xe)) by lia; (destruct (feed (EvLine 32 <$> slice _ s2 _) st) as [st1| |]; run; [|done..]); rewrite feed_app, (emit_records_feed (xdf1 xe)) by lia;
      (destruct (feed (EvLine 45 <$> _) st1) as [st2| |]; run; [|done..]); rewrite feed_app, (emit_records_feed (xdf2 xe)) by lia; (destruct (feed (EvLine 43 <$> _) st2) as [st3| |]; run; [|done..]);
      unfold same_node; cbn [snd]; rewrite Nat.eqb_refl; run; apply emit_records_feed; unfold end2; lia.
  - unfold node_list in Hseg. cbn [fst snd app] in Hseg. injection Hseg as ->. cbn [emit_changes between]. cbn [script_ok] in Hs. destruct Hs as (Ha & Hb & _ & Hd & He & _ & Hs). unfold end1, end2 in Ha, Hb.
    rewrite !feed_app, Heq, Z.min_id. rewrite (emit_records_feed (xdf2 xe)) by lia. destruct (feed (EvLine 32 <$> slice _ s2 _) st) as [st1| |]; run; [|done..]. rewrite feed_app, (emit_records_feed (xdf1 xe)) by lia.
    destruct (feed (EvLine 45 <$> _) st1) as [st2| |]; run; [|done..]. rewrite feed_app, (emit_records_feed (xdf2 xe)) by lia. destruct (feed (EvLine 43 <$> _) st2) as [st3| |]; run; [|done..].
    assert (same_node (c, d :: cs ++ snd xche) xche = false) as ->. { unfold same_node. cbn [snd length]. rewrite length_app. apply Nat.eqb_neq. lia. }
    apply IH; try done; unfold end1, end2; try lia.
Qed.
End feed.

(** * The functions that look for function lines end *)

(** A line: a newline at its end at most. *)
Definition text_line (rec : list Z) : Prop := exists a, 10 ∉ a /\ (rec = a \/ rec = a ++ [10]).

(** [func] of [struct func_line]: a length in its buffer, no newline within it. *)
Definition func_ok (fl : Z * list Z) : Prop := 0 <= fst fl <= zlen (snd fl) /\ 10 ∉ slice (snd fl) 0 (fst fl).

Section func_lines.
Context {S : Type} `{XdiffHOk} `{CtypeOk} `{XdiffEmitH} (junk : Z) (xecfg : xdemitconf S).

(** What a function for [find_func] promises: when it finds something it is in the buffer, and
    without newline; otherwise it leaves the buffer alone. *)
Definition find_ok : Prop := forall f, find_func xecfg = Some f -> forall rec buf, text_line rec ->
  exists buf' len, f rec buf = Ret (buf', len) /\ zlen buf' = zlen buf /\ (0 <= len -> func_ok (len, buf')) /\ (len < 0 -> buf' = buf).

Lemma strip_loop rec n fuel : text_line rec -> 0 <= n <= zlen rec -> n < Z.of_nat fuel -> exists m, loop fuel (def_ff_strip rec) n = Ret m /\ 0 <= m <= n /\ 10 ∉ slice rec 0 m.
Proof.
  intros Hline Hn Hfuel. apply (loop_ret (fun m => 0 <= m <= n) id fuel (def_ff_strip rec) n (fun m => 0 <= m <= n /\ 10 ∉ slice rec 0 m)); [|lia|unfold id; lia].
  intros m Hm. unfold def_ff_strip. destruct (Z.ltb_spec 0 m); cbn [negb].
  - destruct (rd_in rec (m - 1)) as [c Hc]; [lia|]. rewrite Hc. run. eexists. split; [done|]. destruct (isspace (u8 c)) eqn:Hsp; [unfold id; lia|]. split; [done|].
    apply rd_Ret in Hc as [_ Hc]. destruct Hline as (a & Ha & [->| ->]).
    + intros Hin%list_elem_of_lookup. destruct Hin as [i Hi]. unfold slice in Hi. rewrite lookup_take, lookup_drop in Hi. case_decide; [|done]. by apply Ha; eapply list_elem_of_lookup_2.
    + rewrite zlen_app, zlen_cons, zlen_nil in Hn. destruct (decide (m = zlen a + 1)) as [->|Hne].
      * exfalso. replace (Z.to_nat (zlen a + 1 - 1)) with (length a) in Hc by (unfold zlen; lia). rewrite lookup_app_r, Nat.sub_diag in Hc by lia. injection Hc as <-. by rewrite isspace_spec in Hsp by (unfold is_byte; by vm_compute).
      * unfold slice. rewrite drop_0, take_app_le by (unfold zlen in *; lia). intros Hin. apply Ha. by apply (elem_of_submseteq _ _ _ Hin), sublist_submseteq, sublist_take.
  - eexists. split; [done|]. split; [done|]. assert (m = 0) as -> by lia. rewrite slice_0. apply not_elem_of_nil.
Qed.

Lemma def_ff_spec rec buf : text_line rec -> exists buf' len, def_ff rec buf = Ret (buf', len) /\ zlen buf' = zlen buf /\ (0 <= len -> func_ok (len, buf')) /\ (len < 0 -> buf' = buf).
Proof.
  intros Hline. unfold def_ff. rewrite Z.gtb_ltb. destruct (Z.ltb_spec 0 (zlen rec)); cbn [negb]; [|exists buf, (-1); split; [done|]; split; [done|]; split; [lia|done]].
  destruct (rd_in rec 0) as [c ->]; [lia|]. run. destruct (isalpha (u8 c) || _ || _); cbn [negb]; [|exists buf, (-1); split; [done|]; split; [done|]; split; [lia|done]].
  set (len := if _ >? _ then _ else _). pose proof (zlen_nonneg buf). assert (0 <= len <= zlen rec /\ len <= zlen buf) as [Hl1 Hl2] by (unfold len; rewrite Z.gtb_ltb; destruct (Z.ltb_spec (zlen buf) (zlen rec)); lia).
  destruct (strip_loop rec len (Datatypes.S (Z.to_nat len)) Hline Hl1) as (m & -> & Hm & Hno); [lia|]. run. rewrite rd_range_in by lia. run. pose proof (zlen_slice rec 0 m ltac:(lia) ltac:(lia) ltac:(lia)) as Hsl. rewrite wr_range_in by lia. run.
  eexists _, _. split; [done|]. set (buf' := take _ _ ++ _). assert (zlen buf' = zlen buf) as Hb. { unfold buf'. rewrite Z.add_0_l, Hsl. rewrite !zlen_app, Hsl. unfold zlen. rewrite length_take, length_drop. unfold zlen in *. lia. }
  split; [done|]. split; [|lia]. intros _. split; cbn [fst snd]; [lia|]. unfold buf'. change (Z.to_nat 0) with 0%nat. rewrite take_0. cbn [app]. unfold slice at 1. rewrite drop_0, take_app_le, take_ge; [done|unfold zlen in Hsl; lia..].
Qed.

Lemma match_func_spec xdf ri buf : find_ok -> Forall text_line (file_lines xdf) -> 0 <= ri < nrec xdf ->
  exists buf' len, match_func_rec xdf xecfg ri buf = Ret (buf', len) /\ zlen buf' = zlen buf /\ (0 <= len -> func_ok (len, buf')) /\ (len < 0 -> buf' = buf).
Proof.
  intros Hfind Hl Hri. unfold match_func_rec. destruct (rd_rec xdf ri Hri) as (r & -> & Hr & _). run. assert (text_line (rec_line r)) as Hline. { eapply (Forall_lookup_1 _ _ (Z.to_nat ri)); [exact Hl|]. unfold file_lines. by rewrite list_lookup_fmap, Hr. }
  destruct (find_func xecfg) as [f|] eqn:Hf; [by apply Hfind|by apply def_ff_spec].
Qed.

Lemma is_func_total xdf ri : find_ok -> Forall text_line (file_lines xdf) -> 0 <= ri < nrec xdf -> exists b, is_func_rec junk xdf xecfg ri = Ret b.
Proof. intros Hfind Hl Hri. unfold is_func_rec. destruct (match_func_spec xdf ri [junk] Hfind Hl Hri) as (buf' & len & -> & _). run. by eexists. Qed.

Lemma is_empty_total xdf ri : 0 <= ri < nrec xdf -> exists b, is_empty_rec xdf ri = Ret b.
Proof.
  intros Hri. unfold is_empty_rec. destruct (rd_rec xdf ri Hri) as (r & -> & _). run. destruct (skip_blanks_spec (rec_line r) 0 (rec_line r) (at_pos_0 _)) as (i & -> & _). run. by eexists.
Qed.

Lemma get_func_line_spec xe buf start limit : find_ok -> Forall text_line (file_lines (xdf1 xe)) ->
  exists buf' found, get_func_line xe xecfg buf start limit = Ret (buf', found) /\ zlen buf' = zlen buf /\ match found with Some (len, l) => func_ok (len, buf') /\ 0 <= l < nrec (xdf1 xe) | None => buf' = buf end.
Proof.
  intros Hfind Hl. unfold get_func_line. set (n := nrec (xdf1 xe)). assert (0 <= n) as Hn by apply zlen_nonneg. set (step := if _ >? _ then _ else _). assert (step = 1 \/ step = -1) as Hstep by (unfold step; destruct (_ >? _); lia).
  destruct (loop_ret (fun '(b, _) => b = buf) (fun '(_, l) => if (0 <=? l) && (l <? n) then if step =? 1 then n - l else l + 1 else 0) (Datatypes.S (length (recs (xdf1 xe)))) (func_line_step (xdf1 xe) xecfg step limit) (buf, start)
    (fun '(buf', found) => zlen buf' = zlen buf /\ match found with Some (len, l) => func_ok (len, buf') /\ 0 <= l < nrec (xdf1 xe) | None => buf' = buf end)) as ([buf' found] & -> & Hq); [| |..].
  - intros [b l] ->. unfold func_line_step. fold n. destruct (negb (l =? limit) && (0 <=? l) && (l <? n)) eqn:Hin; cbn [negb]; [|eexists; split; [done|by split]]. zb.
    destruct (match_func_spec (xdf1 xe) l buf Hfind Hl) as (b' & len & -> & Hb & Hfound & Hkeep); [by split|]. run. eexists. split; [done|]. rewrite Z.geb_leb. destruct (Z.leb_spec 0 len) as [Hlen|Hlen].
    + split; [done|]. split; [by apply Hfound|by split].
    + split; [by apply Hkeep|]. rewrite (proj2 (Z.leb_le 0 l)), (proj2 (Z.ltb_lt l n)) by lia. cbn [andb]. destruct Hstep as [-> | ->]; cbn [Z.eqb Pos.eqb]; destruct (Z.leb_spec 0 (l + 1)), (Z.ltb_spec (l + 1) n), (Z.leb_spec 0 (l + -1)), (Z.ltb_spec (l + -1) n); cbn [andb]; lia.
  - done.
  - change (Z.of_nat (Datatypes.S (length (recs (xdf1 xe))))) with (Z.of_nat (1 + length (recs (xdf1 xe)))). assert (n = Z.of_nat (length (recs (xdf1 xe)))) as Hnl by done. destruct (Z.leb_spec 0 start), (Z.ltb_spec start n); cbn [andb]; try lia. destruct (step =? 1); lia.
  - by exists buf', found.
Qed.

Lemma func_line_at_spec xe start limit : find_ok -> Forall text_line (file_lines (xdf1 xe)) -> exists l, func_line_at junk xe xecfg start limit = Ret l /\ -1 <= l < nrec (xdf1 xe).
Proof.
  intros Hfind Hl. unfold func_line_at. destruct (get_func_line_spec xe [junk] start limit Hfind Hl) as (b & found & -> & _ & Hf). run. eexists. split; [done|]. pose proof (zlen_nonneg (recs (xdf1 xe))). destruct found as [[len l]|]; unfold nrec in *; lia.
Qed.
End func_lines.

(** * Hunks *)

Section hunks.
Context {S : Type} `{XdiffHOk} `{CtypeOk} `{XdiffEmitH} (junk : Z) (xecfg : xdemitconf S) (xe : xdfenv).
Context (Hfind : find_ok xecfg) (Hl1 : Forall text_line (file_lines (xdf1 xe))) (Hl2 : Forall text_line (file_lines (xdf2 xe))).

(** A change within both files. *)
Definition sound (c : xdchange) : Prop := 0 <= ch_i1 c /\ 0 <= ch_i2 c /\ 0 <= ch_chg1 c /\ 0 <= ch_chg2 c /\ end1 c <= nrec (xdf1 xe) /\ end2 c <= nrec (xdf2 xe).

Lemma script_sound {A} (cls1 cls2 : Z -> A) s : forall p1 p2, 0 <= p1 -> 0 <= p2 -> script_ok cls1 cls2 (nrec (xdf1 xe)) (nrec (xdf2 xe)) p1 p2 s -> Forall sound s.
Proof.
  induction s as [|c s IH]; intros p1 p2 Hp1 Hp2; cbn [script_ok]; [done|]. intros (H1' & H2' & _ & H4 & H5 & _ & Hs). pose proof (script_ok_le _ _ _ _ _ _ _ Hs) as [Ha Hb]. constructor; [unfold sound, end1, end2; lia|]. apply (IH (ch_i1 c + ch_chg1 c) (ch_i2 c + ch_chg2 c) ltac:(lia) ltac:(lia) Hs).
Qed.

Lemma appended_total i2 : 0 <= i2 -> exists b, loop (Datatypes.S (length (recs (xdf2 xe)))) (appended_step junk (xdf2 xe) xecfg) i2 = Ret b.
Proof.
  intros Hi. destruct (loop_ret (fun i => 0 <= i) (fun i => Z.max 0 (nrec (xdf2 xe) - i)) (Datatypes.S (length (recs (xdf2 xe)))) (appended_step junk (xdf2 xe) xecfg) i2 (fun _ => True)) as (b & -> & _); [|done|unfold nrec, zlen; lia|by eexists].
  intros i Hi'. unfold appended_step. destruct (Z.ltb_spec i (nrec (xdf2 xe))); cbn [negb]; [|by eexists]. destruct (is_func_total junk xecfg (xdf2 xe) i Hfind Hl2) as [[|] ->]; [lia|by eexists|]. run. eexists. split; [done|]. cbv beta iota. lia.
Qed.

Lemma comment_total fs1 : -1 <= fs1 < nrec (xdf1 xe) -> exists m, loop (Datatypes.S (length (recs (xdf1 xe)))) (comment_step junk (xdf1 xe) xecfg) fs1 = Ret m /\ -1 <= m <= fs1.
Proof.
  intros Hf. destruct (loop_ret (fun i => -1 <= i <= fs1) (fun i => Z.max 0 i) (Datatypes.S (length (recs (xdf1 xe)))) (comment_step junk (xdf1 xe) xecfg) fs1 (fun i => -1 <= i <= fs1)) as (b & -> & Hb); [|lia|unfold nrec, zlen in *; lia|by eexists].
  intros i Hi'. unfold comment_step. rewrite Z.gtb_ltb. destruct (Z.ltb_spec 0 i); cbn [negb]; [|by eexists]. destruct (is_empty_total (xdf1 xe) (i - 1)) as [[|] ->]; [lia|run; by eexists|]. run.
  destruct (is_func_total junk xecfg (xdf1 xe) (i - 1) Hfind Hl1) as [[|] ->]; [lia|run; by eexists|]. run. eexists. split; [done|]. cbv beta iota. lia.
Qed.

Lemma empty_total fe1 : -1 <= fe1 <= nrec (xdf1 xe) -> exists m, loop (Datatypes.S (length (recs (xdf1 xe)))) (empty_step (xdf1 xe)) fe1 = Ret m /\ -1 <= m <= fe1.
Proof.
  intros Hf. destruct (loop_ret (fun i => -1 <= i <= fe1) (fun i => Z.max 0 i) (Datatypes.S (length (recs (xdf1 xe)))) (empty_step (xdf1 xe)) fe1 (fun i => -1 <= i <= fe1)) as (b & -> & Hb); [|lia|unfold nrec, zlen in *; lia|by eexists].
  intros i Hi'. unfold empty_step. rewrite Z.gtb_ltb. destruct (Z.ltb_spec 0 i); cbn [negb]; [|by eexists]. destruct (is_empty_total (xdf1 xe) (i - 1)) as [[|] ->]; [lia| |run; by eexists]. run. eexists. split; [done|]. cbv beta iota. lia.
Qed.

Lemma skip_shown_spec xch s1 s2 next : forall c, node_list xch `suffix_of` c :: next -> exists r, skip_shown xch s1 s2 c next = Ret r /\ node_list xch `suffix_of` node_list r /\ node_list r `suffix_of` c :: next.
Proof.
  induction next as [|d next IH]; intros c Hsuf; cbn [skip_shown]; (destruct (same_node _ xch) eqn:Hsame; cbn [negb andb]; [by eexists|]); (destruct (_ && _); [|by eexists]).
  - exfalso. unfold same_node in Hsame. cbn [snd length] in Hsame. apply suffix_length in Hsuf. unfold node_list in Hsuf. cbn [length] in Hsuf. apply Nat.eqb_neq in Hsame. lia.
  - destruct (IH d) as (r & -> & Hr1 & Hr2). { apply suffix_cons_inv in Hsuf as [Heq|Hsuf]; [|done]. exfalso. unfold same_node in Hsame. cbn [snd] in Hsame. apply Nat.eqb_neq in Hsame. apply (f_equal length) in Heq. unfold node_list in Heq. cbn [length] in *. lia. }
    exists r. split; [done|]. split; [done|]. by apply suffix_cons_r.
Qed.

Lemma sound_node a b : node_list a `suffix_of` node_list b -> Forall sound (node_list b) -> Forall sound (node_list a).
Proof. intros [pre ->] Hf. by apply Forall_app in Hf as [_ ?]. Qed.

Lemma pre_context_spec xch xchp : node_list xch `suffix_of` node_list xchp -> Forall sound (node_list xchp) ->
  exists xch' s1 s2, loop 3 (pre_context junk xe xecfg) (xch, xchp) = Ret (xch', s1, s2) /\ 0 <= s1 /\ 0 <= s2 /\ node_list xch `suffix_of` node_list xch' /\ node_list xch' `suffix_of` node_list xchp.
Proof.
  intros Hsuf Hall. set (good := fun '(xch', xchp') => node_list xch `suffix_of` node_list xch' /\ node_list xch' `suffix_of` node_list xchp' /\ node_list xchp' `suffix_of` node_list xchp).
  destruct (loop_ret good (fun '(a, b) => if same_node b a then 0 else 1) 3 (pre_context junk xe xecfg) (xch, xchp) (fun '(xch', s1, s2) => 0 <= s1 /\ 0 <= s2 /\ node_list xch `suffix_of` node_list xch' /\ node_list xch' `suffix_of` node_list xchp)) as ([[xch' s1] s2] & -> & Hq).
  - intros [a b] (Ha & Hab & Hb). assert (node_list a `suffix_of` node_list xchp) as Hap by (by etrans). pose proof (sound_node _ _ Hap Hall) as Hsa. apply Forall_cons in Hsa as [(Hi1 & Hi2 & _) _]. unfold pre_context. destruct (flag (eflags xecfg) XDL_EMIT_FUNCCONTEXT); cbn [negb].
    2: { eexists. split; [done|]. cbv beta iota. split; [lia|]. split; [lia|]. by split. }
    assert (exists w, (if ch_i1 (fst a) >=? nrec (xdf1 xe) then loop (Datatypes.S (length (recs (xdf2 xe)))) (appended_step junk (xdf2 xe) xecfg) (ch_i2 (fst a)) else Ret false) = Ret w) as [w ->] by (destruct (_ >=? _); [by apply appended_total|by eexists]). run.
    destruct w; [eexists; split; [done|]; cbv beta iota; split; [lia|]; split; [lia|]; by split|]. set (i1 := if _ >=? _ then _ - 1 else _). destruct (func_line_at_spec junk xecfg xe i1 (-1) Hfind Hl1) as (l & -> & Hl). run.
    destruct (comment_total l Hl) as (fs1 & -> & Hfs). run. destruct (Z.ltb_spec (if fs1 <? 0 then 0 else fs1) (Z.max (ch_i1 (fst a) - ctxlen xecfg) 0)) as [Hlt|Hge].
    + destruct (skip_shown_spec a (if fs1 <? 0 then 0 else fs1) (Z.max (Z.max (ch_i2 (fst a) - ctxlen xecfg) 0 - (Z.max (ch_i1 (fst a) - ctxlen xecfg) 0 - (if fs1 <? 0 then 0 else fs1))) 0) (snd b) (fst b) Hab) as (r & -> & Hr1 & Hr2). run.
      eexists. split; [done|]. destruct (same_node r a) eqn:Hsame.
      * split; [destruct (Z.ltb_spec fs1 0); lia|]. split; [lia|]. by split.
      * split; [split; [by etrans|]; split; [done|]; by etrans|]. assert (same_node r r = true) as -> by (unfold same_node; by rewrite Nat.eqb_refl). destruct (same_node b a) eqn:Hba; [|lia]. exfalso. apply same_node_true in Hba as ->; [|done]. 
        assert (node_list r = node_list a) as Heq by (apply (anti_symm suffix); done). unfold same_node in Hsame. apply Nat.eqb_neq in Hsame. unfold node_list in Heq. apply Hsame. by injection Heq as _ ->.
    + eexists. split; [done|]. cbv beta iota. split; [lia|]. split; [lia|]. by split.
  - by split.
  - destruct (same_node xchp xch); lia.
  - by exists xch', s1, s2.
Qed.

Lemma post_context_spec xche : Forall sound (node_list xche) ->
  exists xche' e1 e2, loop (Datatypes.S (length (snd xche))) (post_context junk xe xecfg) xche = Ret (xche', e1, e2) /\ e2 <= nrec (xdf2 xe) /\ node_list xche' `suffix_of` node_list xche.
Proof.
  intros Hall. destruct (loop_ret (fun a => node_list a `suffix_of` node_list xche) (fun a => zlen (snd a)) (Datatypes.S (length (snd xche))) (post_context junk xe xecfg) xche (fun '(a, _, e2) => e2 <= nrec (xdf2 xe) /\ node_list a `suffix_of` node_list xche)) as ([[a e1] e2] & -> & Hq);
    [|done|unfold zlen; lia|by exists a, e1, e2].
  intros a Ha. pose proof (sound_node _ _ Ha Hall) as Hsa. apply Forall_cons in Hsa as [(Hi1 & Hi2 & Hc1 & Hc2 & He1 & He2) Hnext]. unfold post_context. destruct (flag (eflags xecfg) XDL_EMIT_FUNCCONTEXT); cbn [negb].
  2: { eexists. split; [done|]. cbv beta iota. split; [lia|done]. }
  destruct (func_line_at_spec junk xecfg xe (end1 (fst a)) (nrec (xdf1 xe)) Hfind Hl1) as (l & -> & Hl). run. destruct (empty_total l ltac:(lia)) as (fe1 & -> & Hfe). run.
  set (lctx := Z.min _ _). set (fe := if fe1 <? 0 then _ else fe1). assert (lctx <= nrec (xdf2 xe) - end2 (fst a)) as Hlctx by (unfold lctx; lia).
  destruct a as [c [|d next]]; cbn [fst snd] in *.
  - eexists. split; [done|]. cbv beta iota. split; [|done]. destruct (fe >? end1 c + lctx); lia.
  - assert (node_list (d, next) `suffix_of` node_list xche /\ 0 <= zlen next < zlen (d :: next)) as Hd. { split; [|pose proof (zlen_nonneg next); rewrite zlen_cons; lia]. etrans; [|exact Ha]. by exists [c]. }
    destruct (_ <=? _); [by eexists|]. match goal with |- context [func_line_at junk xe xecfg ?p ?q] => destruct (func_line_at_spec junk xecfg xe p q Hfind Hl1) as (l' & -> & Hl') end. run. eexists. split; [done|].
    destruct (l' <? 0); [done|]. split; [|done]. destruct (fe >? end1 c + lctx); lia.
Qed.

(** ** What [xdl_get_hunk] finds *)

Lemma skip_ignorable_suffix m xchp : forall xscr, xchp `suffix_of` xscr -> skip_ignorable m xscr xchp `suffix_of` xscr.
Proof.
  induction xchp as [|p xch IH]; intros xscr Hsuf; cbn [skip_ignorable]; [done|]. destruct (ch_ignore p); [|done]. assert (xch `suffix_of` xscr) as Hx by (etrans; [|exact Hsuf]; by exists [p]).
  destruct (match xch with [] => true | c :: _ => ch_i1 c - end1 p >=? m end); [|by apply IH]. etrans; [by apply IH|done].
Qed.

Lemma last_change_suffix mc mi next : forall l ign p, node_list (p, next) `suffix_of` node_list l -> node_list (last_change mc mi l ign p next) `suffix_of` node_list l.
Proof.
  induction next as [|c next IH]; intros l ign p Hsuf; cbn [last_change]; [done|]. assert (node_list (c, next) `suffix_of` node_list l) as Hc by (etrans; [|exact Hsuf]; by exists [p]).
  repeat case_match; try done; first [by apply IH|etrans; [by apply IH|done]].
Qed.

Lemma get_hunk_suffix xscr xch xche : xdl_get_hunk xscr xecfg = Some (xch, xche) -> node_list xch `suffix_of` xscr /\ node_list xche `suffix_of` node_list xch.
Proof.
  unfold xdl_get_hunk. pose proof (skip_ignorable_suffix (ctxlen xecfg) xscr xscr (reflexivity _)) as Hs. destruct (skip_ignorable (ctxlen xecfg) xscr xscr) as [|c next]; [done|]. intros [= <- <-]. split; [done|]. by apply last_change_suffix.
Qed.

(** ** One hunk *)

Definition hunk_events (s1 e1 s2 e2 : Z) (func_line : Z * list Z) (cs : list xdchange) : list event :=
  (if flag (eflags xecfg) XDL_EMIT_NO_HUNK_HDR then [] else [EvHunk (s1 + 1) (e1 - s1) (s2 + 1) (e2 - s2) (snd func_line) (fst func_line)]) ++
  between (file_lines (xdf1 xe)) (file_lines (xdf2 xe)) s2 cs e2.

Lemma emit_step_hunk {A} (cls1 cls2 : Z -> A) p1 p2 c0 next0 xch0 xche0 xch xche s1 e1 s2 e2 fl prev : func_ok fl -> zlen (snd fl) = 80 -> 0 <= p1 -> 0 <= p2 ->
  xdl_get_hunk (c0 :: next0) xecfg = Some (xch0, xche0) -> hunk_range junk xe xecfg (c0, next0) xch0 xche0 = Ret (xch, xche, s1, s2, e1, e2) -> script_ok cls1 cls2 (nrec (xdf1 xe)) (nrec (xdf2 xe)) p1 p2 (node_list xch) ->
  node_list xche `suffix_of` node_list xch -> 0 <= s2 -> e2 <= nrec (xdf2 xe) ->
  exists cs fl' prev', segment xch xche cs /\ func_ok fl' /\ zlen (snd fl') = 80 /\
    forall ecb st fuel, loop (Datatypes.S fuel) (emit_step junk ecb xe xecfg) (c0 :: next0, fl, prev, st) =
      feed junk ecb (hunk_events s1 e1 s2 e2 fl' cs) st ≫= fun st => loop fuel (emit_step junk ecb xe xecfg) (snd xche, fl', prev', st).
Proof.
  intros Hfl Hbuf Hp1 Hp2 Hget Hrange Hscript Hsuf Hs2 He2. destruct (suffix_segment _ _ Hsuf) as [cs Hseg]. exists cs.
  assert (exists fl' prev', func_ok fl' /\ zlen (snd fl') = 80 /\ (if flag (eflags xecfg) XDL_EMIT_FUNCNAMES then '(buf, found) ← get_func_line xe xecfg (snd fl) (s1 - 1) prev; Ret ((match found with Some (len, _) => len | None => fst fl end, buf), s1 - 1) else Ret (fl, prev)) = Ret (fl', prev')) as (fl' & prev' & Hfl' & Hbuf' & Hnames).
  { destruct (flag (eflags xecfg) XDL_EMIT_FUNCNAMES); [|by exists fl, prev]. destruct (get_func_line_spec xecfg xe (snd fl) (s1 - 1) prev Hfind Hl1) as (buf & found & -> & Hb & Hf). run. eexists _, _. split; [|split; [|done]]; [|cbn [snd]; lia].
    destruct found as [[len l]|]; [by destruct Hf|]. subst buf. by destruct fl. }
  exists fl', prev'. split; [done|]. split; [done|]. split; [done|]. intros ecb st fuel.
  enough (emit_step junk ecb xe xecfg (c0 :: next0, fl, prev, st) = (st1 ← feed junk ecb (hunk_events s1 e1 s2 e2 fl' cs) st; Ret (inl (snd xche, fl', prev', st1)))) as Hstep by (cbn [loop]; rewrite Hstep; by destruct (feed _ _ _ _)).
  unfold emit_step. rewrite Hget, Hrange. run. rewrite Hnames. run. unfold hunk_events. rewrite feed_app.
  replace (if negb (flag (eflags xecfg) XDL_EMIT_NO_HUNK_HDR) then _ else Ret st) with (feed junk ecb (if flag (eflags xecfg) XDL_EMIT_NO_HUNK_HDR then [] else [EvHunk (s1 + 1) (e1 - s1) (s2 + 1) (e2 - s2) (snd fl') (fst fl')]) st)
    by (destruct (flag (eflags xecfg) XDL_EMIT_NO_HUNK_HDR); cbn [negb feed send]; [done|]; by destruct (xdl_emit_hunk_hdr _ _ _ _ _ _ _ _ _)).
  destruct (feed junk ecb (if flag _ _ then [] else _) st) as [st1| |]; run; [|done..]. destruct Hseg as [Hnl Hlast]. destruct xch as [c next]. unfold node_list in Hnl, Hscript. cbn [fst snd] in *. cbn [script_ok] in Hscript. destruct Hscript as (Ha & Hb & _ & Hc & Hd & _ & Hs). pose proof (script_ok_le _ _ _ _ _ _ _ Hs) as [Hle1 Hle2].
  destruct cs as [|c' cs]; [done|]. cbn [app] in Hnl. injection Hnl as <- Hnl. 
  pose proof (emit_changes_feed junk ecb xe xche e2 cls1 cls2 cs c next (ch_i1 c) (ch_i2 c)) as Hem.
  transitivity ((st2 ← feed junk ecb (EvLine 32 <$> slice (file_lines (xdf2 xe)) s2 (ch_i2 c - s2)) st1; feed junk ecb (between (file_lines (xdf1 xe)) (file_lines (xdf2 xe)) (ch_i2 c) (c :: cs) e2) st2) ≫= fun st => Ret (@inl _ S (snd xche, fl', prev', st))).
  - rewrite (emit_records_feed junk) by lia. destruct (feed junk ecb (EvLine 32 <$> _) st1) as [st2| |]; run; [|done..]. rewrite <-Hem; [|split; [unfold node_list; cbn [fst snd app]; by rewrite Hnl|done]|lia..|done|lia]. destruct (emit_changes ecb xe xche _ _ c next st2) as [st3| |]; run; [|done..]. by destruct (emit_records _ _ _ _ _ _) as [st4| |].
  - rewrite <-feed_app. do 2 f_equal. cbn [between]. by rewrite Z.sub_diag, slice_0.
Qed.

(** ** Every call ends *)

Lemma script_suffix {A} (cls1 cls2 : Z -> A) s pre : forall p1 p2, 0 <= p1 -> 0 <= p2 -> script_ok cls1 cls2 (nrec (xdf1 xe)) (nrec (xdf2 xe)) p1 p2 (pre ++ s) -> exists q1 q2, 0 <= q1 /\ 0 <= q2 /\ script_ok cls1 cls2 (nrec (xdf1 xe)) (nrec (xdf2 xe)) q1 q2 s.
Proof.
  induction pre as [|c pre IH]; intros p1 p2 Hp1 Hp2; cbn [app script_ok]; [by exists p1, p2|]. intros (Ha & Hb & _ & Hc & Hd & _ & Hs). apply (IH (ch_i1 c + ch_chg1 c) (ch_i2 c + ch_chg2 c)); [lia|lia|done].
Qed.

Lemma emit_loop_feed {A} (cls1 cls2 : Z -> A) fuel : forall l fl prev p1 p2, (length l < fuel)%nat -> 0 <= p1 -> 0 <= p2 -> script_ok cls1 cls2 (nrec (xdf1 xe)) (nrec (xdf2 xe)) p1 p2 l -> func_ok fl -> zlen (snd fl) = 80 ->
  exists evs, forall ecb st, loop fuel (emit_step junk ecb xe xecfg) (l, fl, prev, st) = feed junk ecb evs st.
Proof.
  induction fuel as [|fuel IH]; intros l fl prev p1 p2 Hlen Hp1 Hp2 Hs Hfl Hbuf; [lia|]. destruct l as [|c next]; [by exists []|]. destruct (xdl_get_hunk (c :: next) xecfg) as [[xch xche]|] eqn:Hget.
  2: { exists []. intros ecb st. cbn [loop]. unfold emit_step. by rewrite Hget. }
  destruct (get_hunk_suffix _ _ _ Hget) as [Hx1 Hx2]. pose proof (script_sound _ _ _ _ _ Hp1 Hp2 Hs) as Hsound.
  destruct (pre_context_spec xch (c, next) Hx1 Hsound) as (xch' & s1 & s2 & Hpre & _ & Hs2 & Hy1 & Hy2). assert (node_list xche `suffix_of` node_list xch') as Hye by (by etrans).
  destruct (post_context_spec xche) as (xche' & e1 & e2 & Hpost & He2 & Hz). { apply (sound_node _ (c, next)); [by etrans|done]. }
  assert (node_list xche' `suffix_of` node_list xch') as Hz' by (by etrans). destruct Hy2 as [pre Hy2]. unfold node_list in Hy2 at 1. cbn [fst snd] in Hy2. pose proof Hs as Hs'. rewrite Hy2 in Hs'. destruct (script_suffix _ _ _ _ _ _ Hp1 Hp2 Hs') as (q1 & q2 & Hq1 & Hq2 & Hsx).
  destruct (emit_step_hunk cls1 cls2 q1 q2 c next xch xche xch' xche' s1 e1 s2 e2 fl prev Hfl Hbuf Hq1 Hq2 Hget) as (cs & fl' & prev' & Hseg & Hfl' & Hbuf' & Hrun); [|done|done|done|done|].
  { unfold hunk_range. rewrite Hpre. run. rewrite Hpost. run. done. }
  destruct Hz' as [pre' Hz']. assert (exists pre2, node_list xch' = pre2 ++ snd xche') as [pre2 Hp2'] by (exists (pre' ++ [fst xche']); by rewrite <-(assoc app)). rewrite Hp2' in Hsx. destruct (script_suffix _ _ _ _ _ _ Hq1 Hq2 Hsx) as (r1 & r2 & Hr1 & Hr2 & Hsr).
  destruct (IH (snd xche') fl' prev' r1 r2) as [evs Hevs]; [|done|done|done|done|done|].
  { apply (f_equal length) in Hy2. rewrite Hz', !length_app in Hy2. unfold node_list in Hy2. cbn [length] in *. lia. }
  exists (hunk_events s1 e1 s2 e2 fl' cs ++ evs). intros ecb st. rewrite Hrun, feed_app. destruct (feed junk ecb _ st) as [st'| |]; run; [apply Hevs|done..].
Qed.

Lemma func_line_init : func_ok (0, replicate 80 0) /\ zlen (replicate 80 0) = 80.
Proof. split; [|done]. split; cbn [fst snd]; [by vm_compute|]. rewrite slice_0. apply not_elem_of_nil. Qed.

(** Whatever the flags and the ignored changes, printing ends within the arrays and calls the
    caller's functions with some list of events. *)
Lemma emit_diff_feed {A} (cls1 cls2 : Z -> A) xscr : script_ok cls1 cls2 (nrec (xdf1 xe)) (nrec (xdf2 xe)) 0 0 xscr -> exists evs, forall ecb st, xdl_emit_diff junk ecb xe xecfg xscr st = feed junk ecb evs st.
Proof.
  intros Hs. destruct func_line_init as [Hf Hb]. destruct (emit_loop_feed cls1 cls2 (Datatypes.S (length xscr)) xscr (0, replicate 80 0) (-1) 0 0) as [evs Hevs]; [lia|lia|lia|done|done|done|]. exists evs. intros ecb st. apply Hevs.
Qed.
End hunks.
